(* ===== verification/_CoqProject ===== *)
-Q . S2P
Prelude.v
Flash.v
Trailer.v
Image.v
ImageSpec.v
UpdateFlash.v
BootSafe.v
UpdateSafe.v
UpdateFinal.v
Gzip.v
GzipHuff.v
GzipSafe.v
Delta.v
DeltaPatch.v
DeltaDiff.v
DeltaUpdate.v
DeltaResume.v
Gpt.v
Disk.v
DiskSpec.v
GptSpec.v
Sdhci.v
DiskExample.v
DualBoot.v
DualBootSpec.v
DiskUpdate.v
DiskUpdateSpec.v
Vault.v
VaultSpec.v
VaultMap.v
VaultStore.v
VaultClaims.v
Stream.v
Sign.v
SignSpec.v
SignHeader.v
SignBoot.v
SignRoom.v
SignClaims.v
SignArgs.v
SignArgsSpec.v
SignDelta.v
SignDeltaSpec.v
Encrypt.v
EncryptIv.v
EncryptSpec.v
EncryptKey.v
EncryptRam.v
EncryptTool.v
EncryptSwap.v
EncryptSwapSpec.v
EncryptExample.v
Elf.v
ElfSpec.v
Xmalloc.v
XmallocSpec.v
Nvm.v
NvmSafe.v
NvmClaims.v
Strings.v
StringsSpec.v
Printf.v
PrintfSpec.v
Fdt.v
FdtRead.v
FdtEdit.v
Fit.v
Pci.v
PciLayout.v
PciExample.v
PciSpec.v
Hob.v
Multiboot.v
MultibootSpec.v
Linux.v
Paging.v
PagingSpec.v
PagingMap.v
Otp.v
OtpSpec.v
