(* ===== verification/Prelude.v ===== *)
(** * A verification library for wolfBoot

    wolfBoot is a secure bootloader.  This library is a shallow embedding of its
    core, in the C of src/, with the theorems that make it correct.

    ** The program and the files that model it

    - Flash.v: the NOR flash of the simulator ([hal/sim.c]) with its lock, the
      monad [prog] of code that reads, erases and programs flash, and the two
      semantics of such code: [run], and [crash], the memories a power failure
      may leave (between operations, or inside one: a torn erase leaves any
      bytes in its range, a torn write clears some of the bits it should).
      [chl] is the triple with a postcondition and a crash condition.
    - Trailer.v: the partition trailers of [libwolfboot.c]: magic, partition
      state, and the sector flags of UPDATE, two to a byte.  [config] is the
      geometry of target.h, [geometry] what a usable one satisfies.
    - Image.v: the TLV search of the image header ([wolfBoot_find_header]) and
      its accessors, and of [image.c] opening, the constant-time comparisons,
      the digest, integrity and authenticity (SHA-256, Ed25519).  wolfCrypt and
      the generated keystore are the classes [hash_api], [verify_api] and
      [keystore_api]; the laws assumed of them are in [hash_laws].
    - ImageSpec.v: correctness of those.
    - UpdateFlash.v: [update_flash.c]: the copy of a sector, the interruptible
      three-way swap, the final erase, [wolfBoot_update] and [wolfBoot_start], in
      the default configuration (internal flash, backup, no encryption).
    - BootSafe.v, UpdateSafe.v, UpdateFinal.v: what may be booted; the swap under
      power failures; the final phase, resumption, and the trigger.
    - Gzip.v, GzipHuff.v, GzipSafe.v: all of [gzip.c], its Huffman tables, and
      safety and the round trip of stored members.
    - Delta.v, DeltaPatch.v, DeltaDiff.v: [delta.c] ([wb_patch], [wb_diff]) and
      the loop of the signing tool; DeltaUpdate.v: [wolfBoot_delta_update];
      DeltaResume.v: an interrupted delta update.
    - Gpt.v, Disk.v, Sdhci.v: [gpt.c], [disk.c] over a class [disk_api] of the
      platform's driver, and the [disk_read] and [disk_write] of [sdhci.c] over a
      class of block transfers, which is an instance of it.  DiskSpec.v,
      GptSpec.v and DiskExample.v hold their theorems.
    - DualBoot.v, DualBootSpec.v: the choice between two bootable partitions
      ([wolfBoot_dualboot_candidate]) and the loaders built on it: [update_ram.c]
      with the U-Boot legacy header and the bounded load of [wolfBoot_ramboot],
      and [update_flash_hwswap.c] with the bank swap of the flash as a parameter.
    - DiskUpdate.v, DiskUpdateSpec.v: [update_disk.c], which reads the newer of
      two disk partitions to RAM and verifies it there.
    - Nvm.v, NvmSafe.v, NvmClaims.v: the trailers of [libwolfboot.c] on write-once
      flash (NVM_FLASH_WRITEONCE), which alternate between two sectors.
    - Strings.v, StringsSpec.v, Printf.v, PrintfSpec.v: [string.c], the
      freestanding C library: memory and string functions, number printing and
      [uart_vprintf].
    - Fdt.v, FdtRead.v, FdtEdit.v: the device-tree reader and editor of [fdt.c];
      Fit.v: the FIT images of [fdt.c], which call the decompressor.
    - Vault.v, VaultSpec.v, VaultMap.v, VaultStore.v, VaultClaims.v: the object
      stores [psa_store.c] and [pkcs11_store.c] (and [store_sbrk.c]) on the flash
      of Flash.v; their interface is a finite map from object names to contents.
    - Stream.v: the classes of wolfCrypt's ChaCha20 and AES-CTR, with their laws.
    - Sign.v, SignHeader.v, SignArgs.v, SignDelta.v: the signing tool [sign.c]:
      header sizing and construction, options, hybrid signatures, the delta
      image, and the encrypted output; SignSpec.v, SignBoot.v, SignRoom.v,
      SignClaims.v, SignArgsSpec.v and SignDeltaSpec.v hold their theorems.
    - Elf.v, ElfSpec.v: the ELF loader of [elf.c].
    - Xmalloc.v, XmallocSpec.v: the static pool allocator of [xmalloc.c].
    - Encrypt.v: the encrypted external partitions of [libwolfboot.c]
      ([ext_flash_encrypt_write], [ext_flash_decrypt_read], the nonce and IV
      code, the key storage and the decryption to RAM).  EncryptIv.v,
      EncryptSpec.v, EncryptKey.v, EncryptRam.v: their theorems; EncryptTool.v:
      the file the tool encrypts against the device; EncryptSwap.v,
      EncryptSwapSpec.v: the sector swap of [update_flash.c] with EXT_ENCRYPTED;
      EncryptExample.v: concrete instances.
    - Pci.v, PciLayout.v, PciSpec.v, PciExample.v: the PCI enumeration of [pci.c]
      over a class [pci_platform] of register accesses of which nothing is
      assumed.  The state keeps the trace of the accesses; the specification is the
      set of traces that program a layout of regions and bridge windows.
    - Hob.v: the hand-off blocks of [x86/hob.c]; Multiboot.v, MultibootSpec.v:
      [multiboot.c]; Linux.v: [x86/linux_loader.c].  Both loaders call the walker
      of the blocks with their callbacks.
    - Paging.v, PagingSpec.v, PagingMap.v: the page tables of [x86/paging.c] and the
      page walk of the processor, against which they are specified.
    - Otp.v, OtpSpec.v: the keystore in one-time-programmable memory
      ([flash_otp_keystore.c], the access to it in [hal/stm32h7.c], and the generator and
      primer of [tools/keytools/otp]), an instance of [keystore_api].

    The components meet as in the source: [wolfBoot_start] calls the update
    code, which calls the trailers and the image code, all on one flash; the
    delta update calls [wb_patch] and the same copy and trailer operations; the
    partition layer calls the driver through its class, and the SD/eMMC driver
    discharges the laws of that class; the disk loader runs on the partition
    layer and the image code, the FIT loader on the tree reader and on gzip; what
    the signing tool writes is read by the image code, and by the decryption when
    the tool encrypts.

    ** Conventions

    Integers are [Z] with the wrap-around of their C type written out ([u8],
    [u16], [u32], [u64], [i32]).  Memory is a function of addresses; a buffer is
    a list of bytes, and an access outside it is the outcome [Oob].  A loop runs
    on fuel ([loop], [ploop]) and out of fuel is an outcome of its own, so a
    theorem that code returns [Ok] shows that its fuel is enough; every fuel
    bound is the length of what the loop consumes plus a constant.  [wp] is total
    correctness of an [outcome].

    ** What the theorems show

    - Update: after any number of power failures the swap completes with the
      images exchanged, and so does the final phase, restarted as every start of the
      loader restarts it; the whole update completes when the UPDATE
      partition still opens, and the interruption after which it does not, and the
      code gives up, is exhibited.
    - Boot: only an image with a right digest and a signature under an allowed
      key is started, from any flash contents.
    - Header and verification: the field found is the first complete one, inside
      the header; integrity holds exactly when the digest matches; the key is the
      first that matches its hint.
    - Decompressor: memory safety and totality on every input that is not within 128 KiB of
      4 GiB, and what success means; decompression of stored data.
    - Delta: safety of the patcher on every patch, the round trip of diff and
      patch while sectors are overwritten, and two cases in which an update fails
      although its patch was made without error.
    - Disks: safety of the table parsers on every disk, confinement of accesses
      to a partition, read-back of what was written, exactness of byte access
      through whole blocks, agreement of the two CRC-32 routines.
    - Loaders: the RAM, hardware-swap and disk loaders hand over only an
      authentic image, of a version that anti-rollback accepts, whose bytes are
      those in memory at that moment; the hardware-swap and disk loaders always
      end, and the state from which the RAM loader does not is exhibited.  The
      disk loader writes only to its buffers whatever an unverified header says.
    - Write-once trailers: a change of a partition state or of a sector flag is
      atomic under a power failure; with an UPDATE partition larger than BOOT the
      code erases a sector of the image, which a theorem exhibits.
    - C library: [memmove] for any overlap, the comparisons against the
      lexicographic order, printed numbers read back, and one format string that
      is read beyond its end.
    - Device tree: reading ends and stays inside the blob; a property that was
      set is read back; loading a FIT sub-image stays in bounds.
    - Object stores: the store behaves as a map from object identifiers to their
      contents, through allocation, writing, reading and deletion.
    - Signing tool: an image it makes is found, measured and accepted by the
      boot code; the header it chooses has room for what it writes; every command
      line it accepts gives options within the limits of the format; a delta
      image carries the two patches.
    - ELF loader: a well-formed executable is loaded with every segment at the
      address the file names, when the segments stay clear of the image; those that the
      mapping callback refuses are left out without an error.
    - Allocator: no buffer is handed out twice, live blocks are disjoint, and a
      request gets the smallest free buffer that is large enough.
    - Encrypted partitions: what is written through the encrypting layer is read
      back by the decrypting one, block and sector boundaries included; the key
      is stored, used and erased as a life cycle; decryption to RAM writes exactly the
      image, within the size that the build allows; a sector exchanged by the encrypted swap has the clear text of
      the other partition, and the key stream that this swap uses twice is
      exhibited.
    - PCI: whatever the devices answer, the accesses to configuration space are those
      that program a tree, in which the regions are disjoint,
      aligned, inside their pools and inside the windows of the bridges above
      them, what is behind abandoned bridges aside; the enumeration ends when at most 255 functions answer as bridges.  A
      bridge that keeps a window after an error, and hardware on which the scan
      never ends, are exhibited.
    - Payloads on x86: the Multiboot information and the Linux boot parameters are
      exactly those that the hand-off blocks determine, within their bounds.
    - Page tables: what the identity mapping translates to, the 2 MB that it maps
      to the wrong place included; mapping a range adds exactly its pages and
      changes no translation.
    - Keys in OTP: generator and primer leave the same contents, from which the
      accessors read every key; two key types for which that fails are exhibited.

    ** Bounds

    An image, a disk, a blob or a partition is bounded by what the C
    types and the geometry of the configuration allow, with these exceptions, which the
    theorems state: the input of the decompressor ends 128 KiB below [2 ^ 32], the old
    image of a delta is below [2 ^ 24] bytes (the width of an offset in a patch) and the new one
    no longer, and device trees and the destinations of FIT images are below [2 ^ 31].  The fuel of the PCI scan is
    the nesting of bridges, for which 256 is enough (8-bit bus numbers); that of
    a walk over blocks or tags is the memory they are in.  The concrete inputs of the
    witnesses are small on purpose (a partition of a few sectors, a toy cipher or
    hash that satisfies the laws), since they are evaluated.

    ** Not modelled

    The register-level code: the HALs, the boot assembly, the serial-flash
    drivers, the AHCI and FSP code of x86, the TPM.  Its meaning is that of a device
    which the sources only address.  The
    TrustZone callables, the wolfHSM adapter, DICE and the key generator wrap
    calls into such devices or into libraries that are not part of the sources.
    Of the parts that are modelled the following is left out: signature
    algorithms other than Ed25519 on the device; PKCS#11 tokens and the TSIP for
    the encryption key, and its storage on write-once flash, in RAM (MMU) or beside
    the flags of both partitions (FLAGS_HOME); the final swap, the
    delta update and the disk loader with encryption; the self-update; the FSP
    stages of the loaders; the jumps to a payload, which are assembly; the ramdisk and FPGA wrappers of FIT
    images; the reading of key files by the signing tool. *)

From Stdlib Require Import ZArith Lia.
From stdpp Require Import prelude.

Local Open Scope Z_scope.

(** ** Machine integers *)

Definition u8 (x : Z) : Z := x mod 2 ^ 8.
Definition u16 (x : Z) : Z := x mod 2 ^ 16.
Definition u32 (x : Z) : Z := x mod 2 ^ 32.
Definition u64 (x : Z) : Z := x mod 2 ^ 64.

(** Two's-complement reinterpretation of a 32-bit value as a C [int]. *)
Definition i32 (x : Z) : Z :=
  let y := x mod 2 ^ 32 in if y <? 2 ^ 31 then y else y - 2 ^ 32.

(** Two's-complement reinterpretation of a 16-bit value as an [int16_t]. *)
Definition i16 (x : Z) : Z :=
  let y := x mod 2 ^ 16 in if y <? 2 ^ 15 then y else y - 2 ^ 16.

(** A byte value, and a buffer of bytes. *)
Definition is_byte (b : Z) : Prop := 0 <= b < 256.
Definition bytes (l : list Z) : Prop := Forall is_byte l.

(** Length of a buffer as an integer, the way C code counts. *)
Definition zlen {A} (l : list A) : Z := Z.of_nat (length l).

(** ** Outcomes *)

(** The result of running a piece of C: a value, an access outside the object
    it may access ([Oob]), or more loop iterations than the fuel allows. *)
Inductive outcome (A : Type) : Type :=
| Ok (a : A)
| Oob
| NoFuel.
Arguments Ok {A} _.
Arguments Oob {A}.
Arguments NoFuel {A}.

Definition obind {A B} (o : outcome A) (k : A -> outcome B) : outcome B :=
  match o with
  | Ok a => k a
  | Oob => Oob
  | NoFuel => NoFuel
  end.

Declare Scope wb_scope.
Delimit Scope wb_scope with wb.
Notation "'let!' x ':=' e 'in' k" := (obind e (fun x => k))
  (at level 10, x pattern, e at level 200, k at level 200,
   format "'[v' 'let!'  x  ':='  e  'in' '/' k ']'") : wb_scope.
Open Scope wb_scope.

(** [wp o Q]: the code returns, without undefined behaviour, a value in [Q]. *)
Definition wp {A} (o : outcome A) (Q : A -> Prop) : Prop :=
  match o with
  | Ok a => Q a
  | _ => False
  end.

Lemma wp_Ok {A} (a : A) (Q : A -> Prop) : Q a -> wp (Ok a) Q.
Proof. done. Qed.

Lemma wp_inv {A} (o : outcome A) (Q : A -> Prop) :
  wp o Q -> exists a, o = Ok a /\ Q a.
Proof. destruct o; simpl; [eauto | done | done]. Qed.

Lemma wp_mono {A} (o : outcome A) (P Q : A -> Prop) :
  wp o P -> (forall a, P a -> Q a) -> wp o Q.
Proof. destruct o; simpl; auto. Qed.

Lemma wp_bind {A B} (o : outcome A) (k : A -> outcome B) (Q : B -> Prop) :
  wp o (fun a => wp (k a) Q) -> wp (obind o k) Q.
Proof. destruct o; simpl; auto. Qed.

Lemma wp_bind_mono {A B} (o : outcome A) (k : A -> outcome B)
    (P : A -> Prop) (Q : B -> Prop) :
  wp o P -> (forall a, P a -> wp (k a) Q) -> wp (obind o k) Q.
Proof. intros H1 H2. apply wp_bind. eapply wp_mono; eauto. Qed.

Lemma wp_and {A} (o : outcome A) (P Q : A -> Prop) :
  wp o P -> wp o Q -> wp o (fun a => P a /\ Q a).
Proof. destruct o; simpl; auto. Qed.

(** ** Loops *)

(** A C loop: the body either goes round again with a new state or leaves. *)
Fixpoint loop {S R} (fuel : nat) (body : S -> outcome (S + R)) (s : S) : outcome R :=
  match fuel with
  | O => NoFuel
  | Datatypes.S n =>
      match body s with
      | Ok (inl s') => loop n body s'
      | Ok (inr r) => Ok r
      | Oob => Oob
      | NoFuel => NoFuel
      end
  end.

(** Total correctness of a loop: an invariant, a measure that decreases on
    every iteration, and fuel above the measure. *)
Lemma wp_loop {S R} (I : S -> Prop) (m : S -> nat) (Q : R -> Prop)
    (fuel : nat) (body : S -> outcome (S + R)) (s : S) :
  (forall s, I s -> wp (body s) (fun x =>
     match x with inl s' => I s' /\ (m s' < m s)%nat | inr r => Q r end)) ->
  I s -> (m s < fuel)%nat -> wp (loop fuel body s) Q.
Proof.
  intros Hbody. revert s. induction fuel as [|fuel IH]; intros s HI Hm; [lia|].
  simpl. specialize (Hbody s HI). destruct (body s) as [[s'|r]| |]; simpl in *; auto.
  destruct Hbody as [HI' Hlt]. apply IH; [done|lia].
Qed.

(** More fuel does not change a result. *)
Lemma loop_fuel_mono {S R} (body : S -> outcome (S + R)) (f1 f2 : nat) (s : S) (r : R) :
  loop f1 body s = Ok r -> (f1 <= f2)%nat -> loop f2 body s = Ok r.
Proof.
  revert f2 s. induction f1 as [|f1 IH]; intros f2 s H Hle; [done|].
  destruct f2 as [|f2]; [lia|]. simpl in *.
  destruct (body s) as [[s'|r']| |]; try done. apply IH; [done|lia].
Qed.

(** ** Buffers *)

(** [buf[i]]: reading outside the buffer is undefined behaviour. *)
Definition rd (l : list Z) (i : Z) : outcome Z :=
  if i <? 0 then Oob else
  match l !! Z.to_nat i with
  | Some b => Ok b
  | None => Oob
  end.

(** [buf[i] = v]. *)
Definition wr {A} (l : list A) (i : Z) (v : A) : outcome (list A) :=
  if (0 <=? i) && (i <? zlen l) then Ok (<[Z.to_nat i := v]> l) else Oob.

(** Value at an index known to be in range. *)
Definition at_ (l : list Z) (i : Z) : Z := default 0 (l !! Z.to_nat i).

(** Bytes [off, off + n) of a buffer. *)
Definition slice (l : list Z) (off n : Z) : list Z :=
  take (Z.to_nat n) (drop (Z.to_nat off) l).

(** [n] bytes of a buffer, from [off]. *)
Definition rd_bytes (l : list Z) (off n : Z) : outcome (list Z) :=
  if (0 <=? off) && (0 <=? n) && (off + n <=? zlen l) then Ok (slice l off n) else Oob.

(** [memcpy(buf + off, d, sizeof(d))]. *)
Definition blit (l : list Z) (off : Z) (d : list Z) : outcome (list Z) :=
  if (0 <=? off) && (off + zlen d <=? zlen l)
  then Ok (take (Z.to_nat off) l ++ d ++ drop (Z.to_nat (off + zlen d)) l) else Oob.

(** [memcpy(buf + off, d, sizeof(d))] where the range is inside the buffer. *)
Definition put (l : list Z) (off : Z) (d : list Z) : list Z :=
  take (Z.to_nat off) l ++ d ++ drop (Z.to_nat (off + zlen d)) l.

(** Bytes of a 32-bit word in memory order. *)
Definition le32_bytes (w : Z) : list Z :=
  [w mod 256; (w / 2 ^ 8) mod 256; (w / 2 ^ 16) mod 256; (w / 2 ^ 24) mod 256].

(** ** Hint databases and tactics *)

Create HintDb wb discriminated.
Create Rewrite HintDb wb_len.

#[export] Hint Rewrite @length_app @length_take @length_drop @length_insert
  @length_replicate @length_fmap @length_seqZ : wb_len.

(** Unfold the width and length wrappers and call [lia]. *)
Ltac wblia := unfold u8, u16, u32, u64, is_byte, zlen in *; lia.

(** [lia] with quotients and remainders by their equations. *)
Ltac dlia := unfold u8, u16, u32, u64, is_byte, zlen in *; Z.div_mod_to_equations; lia.

(** Split boolean tests of the C conditions in the goal or in hypotheses. *)
Ltac bool_step :=
  match goal with
  | H : andb _ _ = true |- _ => apply andb_true_iff in H; destruct H
  | H : orb _ _ = false |- _ => apply orb_false_iff in H; destruct H
  | H : negb _ = true |- _ => apply negb_true_iff in H
  | H : negb _ = false |- _ => apply negb_false_iff in H
  | H : (_ <? _) = true |- _ => apply Z.ltb_lt in H
  | H : (_ <? _) = false |- _ => apply Z.ltb_ge in H
  | H : (_ <=? _) = true |- _ => apply Z.leb_le in H
  | H : (_ <=? _) = false |- _ => apply Z.leb_gt in H
  | H : (_ =? _) = true |- _ => apply Z.eqb_eq in H
  | H : (_ =? _) = false |- _ => apply Z.eqb_neq in H
  end.
Ltac bools := repeat bool_step.

(** Case on the first C conditional of the goal, recording what it tests. *)
Ltac case_if :=
  match goal with
  | |- context [if ?b then _ else _] =>
      match type of b with
      | bool => let E := fresh "E" in destruct b eqn:E; bools
      end
  end.

(** Case on a conditional of a hypothesis. *)
Ltac case_if_in H :=
  match type of H with
  | context [if ?b then _ else _] =>
      match type of b with
      | bool => let E := fresh "E" in destruct b eqn:E; bools
      end
  end.

(** ** Lemmas on widths *)

Lemma u8_small x : 0 <= x < 256 -> u8 x = x.
Proof. intros. unfold u8. rewrite Z.mod_small; lia. Qed.
Lemma u16_small x : 0 <= x < 2 ^ 16 -> u16 x = x.
Proof. intros. unfold u16. by rewrite Z.mod_small. Qed.
Lemma u32_small x : 0 <= x < 2 ^ 32 -> u32 x = x.
Proof. intros. unfold u32. by rewrite Z.mod_small. Qed.
Lemma u64_small x : 0 <= x < 2 ^ 64 -> u64 x = x.
Proof. intros. unfold u64. by rewrite Z.mod_small. Qed.

Lemma i32_small x : 0 <= x < 2 ^ 31 -> i32 x = x.
Proof.
  intros. unfold i32. rewrite Z.mod_small by lia. destruct (Z.ltb_spec x (2 ^ 31)); lia.
Qed.

Lemma u8_range x : 0 <= u8 x < 256.
Proof. unfold u8. apply Z.mod_pos_bound. lia. Qed.
Lemma u16_range x : 0 <= u16 x < 2 ^ 16.
Proof. unfold u16. apply Z.mod_pos_bound. lia. Qed.
Lemma u32_range x : 0 <= u32 x < 2 ^ 32.
Proof. unfold u32. apply Z.mod_pos_bound. lia. Qed.
Lemma u64_range x : 0 <= u64 x < 2 ^ 64.
Proof. unfold u64. apply Z.mod_pos_bound. lia. Qed.

#[export] Hint Resolve u8_range u16_range u32_range u64_range : wb.

(** A non-negative number below a power of two has no bit above it. *)
Lemma testbit_above x n i : 0 <= x < 2 ^ n -> 0 <= n <= i -> Z.testbit x i = false.
Proof.
  intros Hx Hi. destruct (Z.eq_dec x 0) as [->|]; [apply Z.bits_0|].
  apply Z.bits_above_log2; [lia|]. apply Z.log2_lt_pow2; [lia|].
  apply Z.lt_le_trans with (2 ^ n); [lia|]. apply Z.pow_le_mono_r; lia.
Qed.

(** Conversely, a non-negative number with no bit at or above [n] is below
    [2 ^ n]. *)
Lemma bits_below x n :
  0 <= n -> 0 <= x -> (forall i, n <= i -> Z.testbit x i = false) -> x < 2 ^ n.
Proof.
  intros Hn Hx Hb. destruct (Z.eq_dec x 0) as [->|]; [apply Z.pow_pos_nonneg; lia|].
  apply Z.log2_lt_pow2; [lia|].
  destruct (Z.lt_ge_cases (Z.log2 x) n) as [|Hge]; [done|].
  specialize (Hb _ Hge). rewrite Z.bit_log2 in Hb; [done|lia].
Qed.

Lemma lor_range a b n : 0 <= n -> 0 <= a < 2 ^ n -> 0 <= b < 2 ^ n -> 0 <= Z.lor a b < 2 ^ n.
Proof.
  intros Hn Ha Hb. assert (0 <= Z.lor a b) by (apply Z.lor_nonneg; lia). split; [done|].
  apply bits_below; [done..|]. intros i Hi.
  rewrite Z.lor_spec, !(testbit_above _ n); auto with lia.
Qed.

Lemma land_range a b n : 0 <= n -> 0 <= a < 2 ^ n -> 0 <= b -> 0 <= Z.land a b < 2 ^ n.
Proof.
  intros Hn Ha Hb. assert (0 <= Z.land a b) by (apply Z.land_nonneg; lia). split; [done|].
  apply bits_below; [done..|]. intros i Hi.
  rewrite Z.land_spec, (testbit_above a n); auto with lia.
Qed.

Lemma lxor_range a b n : 0 <= n -> 0 <= a < 2 ^ n -> 0 <= b < 2 ^ n -> 0 <= Z.lxor a b < 2 ^ n.
Proof.
  intros Hn Ha Hb. assert (0 <= Z.lxor a b) by (apply Z.lxor_nonneg; lia). split; [done|].
  apply bits_below; [done..|]. intros i Hi.
  rewrite Z.lxor_spec, !(testbit_above _ n); auto with lia.
Qed.

(** Or of bits that do not overlap. *)
Lemma lor_shift_add a b n : 0 <= n -> 0 <= a < 2 ^ n -> 0 <= b -> Z.lor a (Z.shiftl b n) = a + b * 2 ^ n.
Proof.
  intros Hn Ha Hb. rewrite Z.shiftl_mul_pow2 by lia.
  assert (Z.land a (b * 2 ^ n) = 0) as Hl.
  { apply Z.bits_inj'. intros i Hi. rewrite Z.land_spec, Z.bits_0.
    destruct (Z.lt_ge_cases i n) as [Hlt|Hge].
    - rewrite (Z.mul_pow2_bits_low b n i) by lia. apply andb_false_r.
    - rewrite (testbit_above a n i) by lia. done. }
  rewrite <- Z.lxor_lor, <- Z.add_nocarry_lxor by done. done.
Qed.

(** Masking with the complement of [2 ^ k - 1] in [w] bits rounds down. *)
Lemma land_round x k w : 0 <= k <= w ->
  Z.land x (Z.lnot (2 ^ k - 1) mod 2 ^ w) = x mod 2 ^ w - x mod 2 ^ w mod 2 ^ k.
Proof.
  intros Hk. rewrite <- (Z.land_ones _ w) by lia.
  rewrite (Z.land_comm (Z.lnot _)), Z.land_assoc, (Z.land_ones x w) by lia.
  replace (2 ^ k - 1) with (Z.ones k) by (rewrite Z.ones_equiv; lia).
  rewrite <- Z.ldiff_land, Z.ldiff_ones_r, Z.shiftl_mul_pow2, Z.shiftr_div_pow2 by lia.
  pose proof (Z.div_mod (x mod 2 ^ w) (2 ^ k)). lia.
Qed.

(** A 32-bit word and its bytes. *)
Lemma le32_value v : v mod 256 + 2 ^ 8 * ((v / 2 ^ 8) mod 256) + 2 ^ 16 * ((v / 2 ^ 16) mod 256) +
  2 ^ 24 * ((v / 2 ^ 24) mod 256) = u32 v.
Proof. unfold u32. Z.div_mod_to_equations. lia. Qed.

Lemma le32_bytes_bytes v : bytes (le32_bytes v).
Proof. unfold le32_bytes. repeat constructor; unfold is_byte; apply Z.mod_pos_bound; lia. Qed.

(** ** Lemmas on buffers *)

Lemma zlen_nonneg {A} (l : list A) : 0 <= zlen l.
Proof. unfold zlen. lia. Qed.

Lemma zlen_nil {A} : zlen (@nil A) = 0.
Proof. done. Qed.

Lemma zlen_cons {A} (x : A) l : zlen (x :: l) = 1 + zlen l.
Proof. unfold zlen. simpl. lia. Qed.

Lemma zlen_app {A} (l1 l2 : list A) : zlen (l1 ++ l2) = zlen l1 + zlen l2.
Proof. unfold zlen. rewrite length_app. lia. Qed.

Lemma rd_ok l i : 0 <= i < zlen l -> rd l i = Ok (at_ l i).
Proof.
  intros Hi. unfold rd, at_. destruct (Z.ltb_spec i 0); [lia|].
  destruct (lookup_lt_is_Some_2 l (Z.to_nat i)) as [x Hx]; [wblia|]. by rewrite Hx.
Qed.

Lemma rd_inv l i b : rd l i = Ok b -> 0 <= i < zlen l /\ at_ l i = b.
Proof.
  unfold rd, at_. destruct (Z.ltb_spec i 0); [done|].
  destruct (l !! Z.to_nat i) as [x|] eqn:Hx; [|done]. intros [= ->].
  apply lookup_lt_Some in Hx. simpl. wblia.
Qed.

Lemma at_byte l i : bytes l -> 0 <= i < zlen l -> is_byte (at_ l i).
Proof.
  intros Hl Hi. unfold at_. destruct (lookup_lt_is_Some_2 l (Z.to_nat i)) as [x Hx]; [wblia|].
  rewrite Hx. simpl. eapply Forall_lookup_1; eauto.
Qed.

Lemma wr_ok {A} (l : list A) i v : 0 <= i < zlen l -> wr l i v = Ok (<[Z.to_nat i := v]> l).
Proof.
  intros Hi. unfold wr. destruct (Z.leb_spec 0 i); [|lia].
  destruct (Z.ltb_spec i (zlen l)); [done|lia].
Qed.

Lemma wr_inv {A} (l : list A) i v l' :
  wr l i v = Ok l' -> 0 <= i < zlen l /\ l' = <[Z.to_nat i := v]> l.
Proof. unfold wr. case_if; [|done]. intros [= <-]. bools. auto. Qed.

Lemma zlen_insert {A} (l : list A) i v : zlen (<[i := v]> l) = zlen l.
Proof. unfold zlen. by rewrite length_insert. Qed.

Lemma at_insert_eq l i v : 0 <= i < zlen l -> at_ (<[Z.to_nat i := v]> l) i = v.
Proof. intros. unfold at_. rewrite list_lookup_insert_eq; [done|wblia]. Qed.

Lemma at_insert_ne l i j v :
  0 <= i -> 0 <= j -> i <> j -> at_ (<[Z.to_nat i := v]> l) j = at_ l j.
Proof. intros. unfold at_. rewrite list_lookup_insert_ne; [done|lia]. Qed.

Lemma wp_rd l i (Q : Z -> Prop) : 0 <= i < zlen l -> Q (at_ l i) -> wp (rd l i) Q.
Proof. intros Hi HQ. by rewrite rd_ok. Qed.

Lemma wp_wr {A} (l : list A) i v (Q : list A -> Prop) :
  0 <= i < zlen l -> Q (<[Z.to_nat i := v]> l) -> wp (wr l i v) Q.
Proof. intros Hi HQ. by rewrite wr_ok. Qed.

Lemma bytes_insert l i v : bytes l -> is_byte v -> bytes (<[i := v]> l).
Proof. intros. by apply Forall_insert. Qed.

Lemma slice_length l off n :
  0 <= off -> 0 <= n -> off + n <= zlen l -> zlen (slice l off n) = n.
Proof. intros. unfold slice, zlen in *. rewrite length_take, length_drop. lia. Qed.

Lemma slice_bytes l off n : bytes l -> bytes (slice l off n).
Proof. intros. apply Forall_take, Forall_drop, H. Qed.

Lemma at_slice l off n i :
  0 <= off -> 0 <= i < n -> at_ (slice l off n) i = at_ l (off + i).
Proof.
  intros. unfold at_, slice. rewrite lookup_take_lt, lookup_drop; [|lia].
  by rewrite <- Z2Nat.inj_add by lia.
Qed.

Lemma at_app_l l1 l2 i : 0 <= i < zlen l1 -> at_ (l1 ++ l2) i = at_ l1 i.
Proof. intros. unfold at_. rewrite lookup_app_l; [done|wblia]. Qed.

Lemma at_app_r l1 l2 i : zlen l1 <= i -> at_ (l1 ++ l2) i = at_ l2 (i - zlen l1).
Proof.
  intros. unfold at_. rewrite lookup_app_r by wblia.
  f_equal. f_equal. wblia.
Qed.

(** Two buffers of the same length with the same bytes are equal. *)
Lemma buf_ext (l1 l2 : list Z) :
  zlen l1 = zlen l2 -> (forall i, 0 <= i < zlen l1 -> at_ l1 i = at_ l2 i) -> l1 = l2.
Proof.
  intros Hlen Hat. apply (list_eq_same_length _ _ (length l1)); [wblia|done|].
  intros i x y Hi Hx Hy. specialize (Hat (Z.of_nat i)).
  unfold at_ in Hat. rewrite Nat2Z.id, Hx, Hy in Hat. apply Hat. wblia.
Qed.

Lemma wp_blit l off d (Q : list Z -> Prop) :
  0 <= off -> off + zlen d <= zlen l ->
  (forall l', zlen l' = zlen l ->
     (forall i, 0 <= i < zlen d -> at_ l' (off + i) = at_ d i) ->
     (forall i, 0 <= i -> i < off \/ off + zlen d <= i -> at_ l' i = at_ l i) -> Q l') ->
  wp (blit l off d) Q.
Proof.
  intros H0 H1 HQ. unfold blit. pose proof (zlen_nonneg d).
  destruct (Z.leb_spec 0 off); [|lia]. destruct (Z.leb_spec (off + zlen d) (zlen l)); [|lia].
  cbn [andb]. assert (Ht : zlen (take (Z.to_nat off) l) = off)
    by (unfold zlen in *; rewrite length_take; lia).
  apply wp_Ok, HQ.
  - rewrite !zlen_app, Ht. unfold zlen in *. rewrite length_drop. lia.
  - intros i Hi. rewrite at_app_r by lia. rewrite Ht, at_app_l by lia. f_equal. lia.
  - intros i Hi [Ho|Ho].
    + rewrite at_app_l by lia. unfold at_. by rewrite lookup_take_lt by lia.
    + rewrite !at_app_r; [|rewrite Ht; lia|lia]. rewrite Ht. unfold at_.
      rewrite lookup_drop. do 2 f_equal. lia.
Qed.

(** A buffer whose bytes come from two buffers of bytes. *)
Lemma blit_bytes l off d l' :
  0 <= off -> off + zlen d <= zlen l -> zlen l' = zlen l ->
  (forall i, 0 <= i < zlen d -> at_ l' (off + i) = at_ d i) ->
  (forall i, 0 <= i -> i < off \/ off + zlen d <= i -> at_ l' i = at_ l i) ->
  bytes l -> bytes d -> bytes l'.
Proof.
  intros H0 H1 Hl Hin Hout Hb Hd. apply Forall_lookup_2. intros i x Hx.
  pose proof (lookup_lt_Some _ _ _ Hx) as Hi.
  assert (Hat : at_ l' (Z.of_nat i) = x) by (unfold at_; rewrite Nat2Z.id, Hx; done).
  rewrite <- Hat. destruct (decide (off <= Z.of_nat i < off + zlen d)) as [Hd'|Hd'].
  - replace (Z.of_nat i) with (off + (Z.of_nat i - off)) by lia. rewrite Hin by lia. apply at_byte; [done|lia].
  - rewrite Hout by lia. apply at_byte; [done|unfold zlen in *; lia].
Qed.


(** Slices of a buffer. *)
Lemma slice_full l : slice l 0 (zlen l) = l.
Proof. unfold slice, zlen. rewrite Nat2Z.id. simpl. apply take_ge. lia. Qed.

Lemma slice_split l n1 n2 :
  0 <= n1 -> 0 <= n2 -> n1 + n2 <= zlen l -> slice l 0 (n1 + n2) = slice l 0 n1 ++ slice l n1 n2.
Proof.
  intros. apply buf_ext.
  - rewrite zlen_app, !slice_length; lia.
  - rewrite slice_length by lia. intros i Hi. rewrite at_slice by lia.
    destruct (Z.lt_ge_cases i n1).
    + rewrite at_app_l by (rewrite slice_length; lia). by rewrite at_slice by lia.
    + rewrite at_app_r by (rewrite slice_length; lia). rewrite slice_length, at_slice by lia.
      f_equal. lia.
Qed.

Lemma slice_one l i : 0 <= i < zlen l -> slice l i 1 = [at_ l i].
Proof.
  intros. apply buf_ext; rewrite slice_length by lia; [done|].
  intros j Hj. rewrite at_slice by lia. replace j with 0 by lia. by rewrite Z.add_0_r.
Qed.

Lemma put_ext l off d l' :
  0 <= off -> off + zlen d <= zlen l -> zlen l' = zlen l ->
  (forall p, 0 <= p < zlen l ->
     at_ l' p = if (off <=? p) && (p <? off + zlen d) then at_ d (p - off) else at_ l p) ->
  l' = put l off d.
Proof.
  intros H0 H1 Hl Hat. pose proof (zlen_nonneg d). unfold put.
  assert (zlen (take (Z.to_nat off) l) = off) as Ht by (unfold zlen in *; rewrite length_take; lia).
  apply buf_ext.
  - rewrite !zlen_app, Ht. unfold zlen in *. rewrite length_drop. lia.
  - intros p Hp. rewrite Hat by lia.
    destruct (Z.leb_spec off p), (Z.ltb_spec p (off + zlen d)); simpl; try lia.
    + rewrite at_app_r, at_app_l by lia. by rewrite Ht.
    + rewrite !at_app_r by lia. rewrite Ht. unfold at_. rewrite lookup_drop. do 2 f_equal. lia.
    + rewrite at_app_l by lia. unfold at_. by rewrite lookup_take_lt by lia.
Qed.

Lemma at_put l off d p :
  0 <= off -> off + zlen d <= zlen l -> 0 <= p ->
  at_ (put l off d) p = if (off <=? p) && (p <? off + zlen d) then at_ d (p - off) else at_ l p.
Proof.
  intros H0 H1 Hp. pose proof (zlen_nonneg d). unfold put.
  assert (zlen (take (Z.to_nat off) l) = off) as Ht by (unfold zlen in *; rewrite length_take; lia).
  destruct (Z.leb_spec off p), (Z.ltb_spec p (off + zlen d)); simpl; try lia.
  - rewrite at_app_r, at_app_l by lia. by rewrite Ht.
  - rewrite !at_app_r by lia. rewrite Ht. unfold at_. rewrite lookup_drop. do 2 f_equal. lia.
  - rewrite at_app_l by lia. unfold at_. by rewrite lookup_take_lt by lia.
Qed.

Lemma zlen_put l off d : 0 <= off -> off + zlen d <= zlen l -> zlen (put l off d) = zlen l.
Proof.
  intros H0 H1. unfold put, zlen in *. rewrite !length_app, length_take, length_drop. lia.
Qed.

Lemma blit_put l off d : 0 <= off -> off + zlen d <= zlen l -> blit l off d = Ok (put l off d).
Proof.
  intros H0 H1. unfold blit, put. destruct (Z.leb_spec 0 off); [|lia].
  by destruct (Z.leb_spec (off + zlen d) (zlen l)); [|lia].
Qed.
