(* ===== verification/Flash.v ===== *)
(** * Flash: memory-mapped NOR flash, programs over it, and power failures

    [hal_flash_write], [hal_flash_erase], [hal_flash_lock] and
    [hal_flash_unlock] follow the simulator HAL (hal/sim.c), whose write clears
    bits and whose erase sets them.  A piece of the bootloader that touches the
    flash is a [prog]: a sequence of flash operations that [run] executes to
    the end and that [crash] cuts at any point, also in the middle of an
    operation.  [chl] is the triple used by every component above: what holds
    when the code returns, and what holds of the memory at every point where
    power can fail. *)

From Stdlib Require Import ZArith Lia.
From stdpp Require Import prelude.
From S2P Require Import Prelude.

Local Open Scope Z_scope.

(** ** The device *)

(** Memory-mapped flash contents, by absolute address. *)
Definition mem : Type := Z -> Z.

Record flash : Type := mkFlash {
  fmem : mem;
  flashLocked : bool;
}.

Definition FLASH_BYTE_ERASED : Z := 0xFF.

(** Whether address [a] is in [addr, addr + len). *)
Definition in_range (addr len a : Z) : bool := (addr <=? a) && (a <? addr + len).

(** Programming clears bits: byte [i] of the range is anded with [data] at [i]. *)
Definition nor_write (m : mem) (addr : Z) (data : list Z) : mem :=
  fun a => if in_range addr (zlen data) a then Z.land (m a) (at_ data (a - addr)) else m a.

Definition nor_erase (m : mem) (addr len : Z) : mem :=
  fun a => if in_range addr len a then FLASH_BYTE_ERASED else m a.

Definition hal_flash_unlock (s : flash) : flash := mkFlash (fmem s) false.
Definition hal_flash_lock (s : flash) : flash := mkFlash (fmem s) true.

Definition hal_flash_write (s : flash) (address : Z) (data : list Z) : Z * flash :=
  if flashLocked s then (-1, s)
  else (0, mkFlash (nor_write (fmem s) address data) false).

Definition hal_flash_erase (s : flash) (address len : Z) : Z * flash :=
  if flashLocked s then (-1, s)
  else (0, mkFlash (nor_erase (fmem s) address len) false).

(** ** Programs *)

(** How bootloader code leaves without returning to its caller. *)
Inductive halt : Type :=
| HPanic                 (* wolfBoot_panic *)
| HBoot (entry : Z)      (* do_boot *)
| HUndef                 (* undefined behaviour: dereference of NULL *)
| HFuel.                 (* a loop ran out of fuel *)

Inductive prog (A : Type) : Type :=
| Ret (a : A)
| Stop (h : halt)
| Look (k : mem -> prog A)
| Erase (addr len : Z) (k : Z -> prog A)
| Write (addr : Z) (data : list Z) (k : Z -> prog A)
| Unlock (k : prog A)
| Lock (k : prog A).
Arguments Ret {A} _.
Arguments Stop {A} _.
Arguments Look {A} _.
Arguments Erase {A} _ _ _.
Arguments Write {A} _ _ _.
Arguments Unlock {A} _.
Arguments Lock {A} _.

Fixpoint pbind {A B} (p : prog A) (f : A -> prog B) : prog B :=
  match p with
  | Ret a => f a
  | Stop h => Stop h
  | Look k => Look (fun m => pbind (k m) f)
  | Erase a n k => Erase a n (fun r => pbind (k r) f)
  | Write a d k => Write a d (fun r => pbind (k r) f)
  | Unlock k => Unlock (pbind k f)
  | Lock k => Lock (pbind k f)
  end.

Notation "'let*' x ':=' p 'in' q" := (pbind p (fun x => q))
  (at level 10, x pattern, p at level 200, q at level 200,
   format "'[v' 'let*'  x  ':='  p  'in' '/' q ']'") : wb_scope.

Definition look : prog mem := Look Ret.
Definition flash_erase (addr len : Z) : prog Z := Erase addr len Ret.
Definition flash_write (addr : Z) (data : list Z) : prog Z := Write addr data Ret.
Definition flash_unlock : prog unit := Unlock (Ret tt).
Definition flash_lock : prog unit := Lock (Ret tt).

(** Bytes [addr, addr + n) of the mapped memory. *)
Definition mread (m : mem) (addr n : Z) : list Z := m <$> seqZ addr n.

Fixpoint run {A} (p : prog A) (s : flash) : (A + halt) * flash :=
  match p with
  | Ret a => (inl a, s)
  | Stop h => (inr h, s)
  | Look k => run (k (fmem s)) s
  | Erase a n k => let (r, s') := hal_flash_erase s a n in run (k r) s'
  | Write a d k => let (r, s') := hal_flash_write s a d in run (k r) s'
  | Unlock k => run k (hal_flash_unlock s)
  | Lock k => run k (hal_flash_lock s)
  end.

(** ** Power failures *)

(** Power lost while erasing: the range holds anything, the rest is intact. *)
Definition torn_erase (m : mem) (addr len : Z) (m' : mem) : Prop :=
  forall a, if in_range addr len a then is_byte (m' a) else m' a = m a.

(** Power lost while programming: in each byte of the range, some of the bits
    to clear are cleared. *)
Definition torn_write (m : mem) (addr : Z) (data : list Z) (m' : mem) : Prop :=
  forall a, if in_range addr (zlen data) a
    then Z.land (m' a) (m a) = m' a /\
         Z.lor (m' a) (Z.land (m a) (at_ data (a - addr))) = m' a
    else m' a = m a.

(** [crash p s m']: [m'] is a possible memory after power fails while [p]
    runs from [s]: between two operations or inside one. *)
Fixpoint crash {A} (p : prog A) (s : flash) (m' : mem) : Prop :=
  m' = fmem s \/
  match p with
  | Ret _ => False
  | Stop _ => False
  | Look k => crash (k (fmem s)) s m'
  | Erase a n k =>
      (flashLocked s = false /\ torn_erase (fmem s) a n m') \/
      (let (r, s') := hal_flash_erase s a n in crash (k r) s' m')
  | Write a d k =>
      (flashLocked s = false /\ torn_write (fmem s) a d m') \/
      (let (r, s') := hal_flash_write s a d in crash (k r) s' m')
  | Unlock k => crash k (hal_flash_unlock s) m'
  | Lock k => crash k (hal_flash_lock s) m'
  end.

(** The state after [n] operations. *)
Fixpoint run_for {A} (n : nat) (p : prog A) (s : flash) : flash :=
  match n, p with
  | O, _ | _, Ret _ | _, Stop _ => s
  | S n, Look k => run_for n (k (fmem s)) s
  | S n, Erase a l k => let (r, s') := hal_flash_erase s a l in run_for n (k r) s'
  | S n, Write a d k => let (r, s') := hal_flash_write s a d in run_for n (k r) s'
  | S n, Unlock k => run_for n k (hal_flash_unlock s)
  | S n, Lock k => run_for n k (hal_flash_lock s)
  end.

(** Power may fail after any number of operations. *)
Lemma crash_run_for {A} n (p : prog A) s : crash p s (fmem (run_for n p s)).
Proof.
  revert p s. induction n as [|n IH]; intros p s; [destruct p; simpl; by left|].
  destruct p; simpl; auto.
  - right. right. destruct (hal_flash_erase s addr len). apply IH.
  - right. right. destruct (hal_flash_write s addr data). apply IH.
Qed.

Lemma pbind_ret {A B} (a : A) (f : A -> prog B) : pbind (Ret a) f = f a.
Proof. done. Qed.

Lemma run_bind {A B} (p : prog A) (f : A -> prog B) s :
  run (pbind p f) s =
  match run p s with
  | (inl a, s') => run (f a) s'
  | (inr h, s') => (inr h, s')
  end.
Proof.
  revert s. induction p as [a|h|k IH|a n k IH|a d k IH|k IH|k IH]; intros s; simpl; auto.
  - destruct (hal_flash_erase s a n). apply IH.
  - destruct (hal_flash_write s a d). apply IH.
Qed.

Lemma crash_bind {A B} (p : prog A) (f : A -> prog B) s m' :
  crash (pbind p f) s m' ->
  crash p s m' \/ exists a s', run p s = (inl a, s') /\ crash (f a) s' m'.
Proof.
  revert s. induction p as [a|h|k IH|a n k IH|a d k IH|k IH|k IH]; intros s; simpl.
  - intros H. right. eauto.
  - tauto.
  - intros [H|H]; [tauto|]. apply IH in H as [H|(b & s2 & H1 & H2)]; [tauto|right; eauto].
  - destruct (hal_flash_erase s a n) as [r s'] eqn:E.
    intros [H|[H|H]]; [tauto..|]. apply IH in H as [H|(b & s2 & H1 & H2)]; [tauto|right; eauto].
  - destruct (hal_flash_write s a d) as [r s'] eqn:E.
    intros [H|[H|H]]; [tauto..|]. apply IH in H as [H|(b & s2 & H1 & H2)]; [tauto|right; eauto].
  - intros [H|H]; [tauto|]. apply IH in H as [H|(b & s2 & H1 & H2)]; [tauto|right; eauto].
  - intros [H|H]; [tauto|]. apply IH in H as [H|(b & s2 & H1 & H2)]; [tauto|right; eauto].
Qed.

(** ** Triples *)

(** From a state in [P], [p] returns a value and state in [Q], and power
    failing at any point leaves a memory in [C]. *)
Definition chl {A} (P : flash -> Prop) (p : prog A)
    (Q : A -> flash -> Prop) (C : mem -> Prop) : Prop :=
  forall s, P s ->
    (exists a s', run p s = (inl a, s') /\ Q a s') /\
    (forall m', crash p s m' -> C m').

Lemma chl_conseq {A} (P P' : flash -> Prop) (p : prog A) Q Q' (C C' : mem -> Prop) :
  chl P' p Q' C' ->
  (forall s, P s -> P' s) -> (forall a s, Q' a s -> Q a s) -> (forall m, C' m -> C m) ->
  chl P p Q C.
Proof.
  intros H HP HQ HC s Hs. destruct (H s (HP s Hs)) as [(a & s' & Hr & Hq) Hc].
  split; [eauto|]. intros m' Hm'. auto.
Qed.

Lemma chl_bind {A B} P (p : prog A) R (f : A -> prog B) Q C :
  chl P p R C -> (forall a, chl (R a) (f a) Q C) -> chl P (pbind p f) Q C.
Proof.
  intros Hp Hf s Hs. destruct (Hp s Hs) as [(a & s' & Hr & HR) Hc].
  destruct (Hf a s' HR) as [(b & s'' & Hr' & HQ) Hc']. split.
  - exists b, s''. split; [|done]. by rewrite run_bind, Hr.
  - intros m' [H|(a' & s2 & H1 & H2)]%crash_bind; [auto|].
    rewrite Hr in H1. injection H1 as <- <-. auto.
Qed.

Lemma chl_ret {A} (P : flash -> Prop) (a : A) Q C :
  (forall s, P s -> Q a s /\ C (fmem s)) -> chl P (Ret a) Q C.
Proof.
  intros H s Hs. destruct (H s Hs). split; [simpl; eauto|].
  intros m' [->|[]]. done.
Qed.

(** Power can fail before anything happens. *)
Lemma crash_start {A} (p : prog A) s : crash p s (fmem s).
Proof. destruct p; left; done. Qed.

(** The memory at the end of a run is one where power can fail. *)
Lemma crash_final {A} (p : prog A) s r s' : run p s = (r, s') -> crash p s (fmem s').
Proof.
  revert s. induction p as [a|h|k IH|a n k IH|a d k IH|k IH|k IH]; intros s; simpl; auto.
  - intros [= <- <-]. auto.
  - intros [= <- <-]. auto.
  - destruct (hal_flash_erase s a n). auto.
  - destruct (hal_flash_write s a d). auto.
Qed.

Lemma chl_map {A B} P (p : prog A) (f : A -> B) Q C :
  chl P p (fun a s => Q (f a) s) C -> chl P (let* x := p in Ret (f x)) Q C.
Proof.
  intros H s Hs. destruct (H s Hs) as [(a & s' & Hr & HQ) Hc]. split.
  - exists (f a), s'. by rewrite run_bind, Hr.
  - intros m' [Hm|(b & s2 & H1 & [-> | []])]%crash_bind; [auto|].
    rewrite Hr in H1. injection H1 as <- <-. apply Hc. by eapply crash_final.
Qed.

Lemma chl_look {A} (P : flash -> Prop) (k : mem -> prog A) Q C :
  (forall s, P s -> C (fmem s)) ->
  (forall m, chl (fun s => P s /\ fmem s = m) (k m) Q C) -> chl P (Look k) Q C.
Proof.
  intros HC H s Hs. destruct (H (fmem s) s (conj Hs eq_refl)) as [H1 H2].
  split; [exact H1|]. intros m' [->|Hc]; auto.
Qed.

Lemma chl_pre {A} (P : flash -> Prop) (p : prog A) Q C :
  (forall s, P s -> chl (fun s' => s' = s) p Q C) -> chl P p Q C.
Proof. intros H s Hs. exact (H s Hs s eq_refl). Qed.

Lemma chl_bind_look {A} (P : flash -> Prop) (f : mem -> prog A) Q C :
  (forall s, P s -> C (fmem s)) ->
  (forall m, chl (fun s => P s /\ fmem s = m) (f m) Q C) ->
  chl P (let* m := look in f m) Q C.
Proof. intros HC H. apply chl_look; auto. Qed.

Lemma chl_erase (P : flash -> Prop) addr len Q C :
  (forall s, P s -> flashLocked s = false /\ C (fmem s)) ->
  (forall s m', P s -> torn_erase (fmem s) addr len m' -> C m') ->
  (forall s, P s -> Q 0 (mkFlash (nor_erase (fmem s) addr len) false) /\
                    C (nor_erase (fmem s) addr len)) ->
  chl P (flash_erase addr len) Q C.
Proof.
  intros H1 H2 H3 s Hs. destruct (H1 s Hs) as [HL HC]. destruct (H3 s Hs) as [HQ HC'].
  unfold flash_erase. simpl. unfold hal_flash_erase. rewrite HL. simpl. split; [eauto|].
  intros m' [->|[[_ Ht]|[->|[]]]]; eauto.
Qed.

Lemma chl_write (P : flash -> Prop) addr data Q C :
  (forall s, P s -> flashLocked s = false /\ C (fmem s)) ->
  (forall s m', P s -> torn_write (fmem s) addr data m' -> C m') ->
  (forall s, P s -> Q 0 (mkFlash (nor_write (fmem s) addr data) false) /\
                    C (nor_write (fmem s) addr data)) ->
  chl P (flash_write addr data) Q C.
Proof.
  intros H1 H2 H3 s Hs. destruct (H1 s Hs) as [HL HC]. destruct (H3 s Hs) as [HQ HC'].
  unfold flash_write. simpl. unfold hal_flash_write. rewrite HL. simpl. split; [eauto|].
  intros m' [->|[[_ Ht]|[->|[]]]]; eauto.
Qed.

Lemma chl_unlock (P : flash -> Prop) Q C :
  (forall s, P s -> C (fmem s) /\ Q tt (mkFlash (fmem s) false)) -> chl P flash_unlock Q C.
Proof.
  intros H s Hs. destruct (H s Hs) as [HC HQ]. split; [simpl; eauto|].
  simpl. intros m' [->|[->|[]]]; done.
Qed.

Lemma chl_lock (P : flash -> Prop) Q C :
  (forall s, P s -> C (fmem s) /\ Q tt (mkFlash (fmem s) true)) -> chl P flash_lock Q C.
Proof.
  intros H s Hs. destruct (H s Hs) as [HC HQ]. split; [simpl; eauto|].
  simpl. intros m' [->|[->|[]]]; done.
Qed.

(** ** Reading back what was written *)

Lemma in_range_true addr len a : in_range addr len a = true <-> addr <= a < addr + len.
Proof. unfold in_range. rewrite andb_true_iff, Z.leb_le, Z.ltb_lt. lia. Qed.

Lemma in_range_false addr len a : in_range addr len a = false <-> ~ (addr <= a < addr + len).
Proof. rewrite <- in_range_true. by destruct (in_range addr len a). Qed.

Lemma nor_write_out m addr data a :
  ~ (addr <= a < addr + zlen data) -> nor_write m addr data a = m a.
Proof. intros H. unfold nor_write. by rewrite (proj2 (in_range_false _ _ _) H). Qed.

Lemma nor_write_in m addr data a :
  addr <= a < addr + zlen data ->
  nor_write m addr data a = Z.land (m a) (at_ data (a - addr)).
Proof. intros H. unfold nor_write. by rewrite (proj2 (in_range_true _ _ _) H). Qed.

Lemma nor_erase_out m addr len a : ~ (addr <= a < addr + len) -> nor_erase m addr len a = m a.
Proof. intros H. unfold nor_erase. by rewrite (proj2 (in_range_false _ _ _) H). Qed.

Lemma nor_erase_in m addr len a :
  addr <= a < addr + len -> nor_erase m addr len a = FLASH_BYTE_ERASED.
Proof. intros H. unfold nor_erase. by rewrite (proj2 (in_range_true _ _ _) H). Qed.

Lemma torn_erase_out m addr len m' a :
  torn_erase m addr len m' -> ~ (addr <= a < addr + len) -> m' a = m a.
Proof. intros H Ha. specialize (H a). by rewrite (proj2 (in_range_false _ _ _) Ha) in H. Qed.

Lemma torn_write_out m addr data m' a :
  torn_write m addr data m' -> ~ (addr <= a < addr + zlen data) -> m' a = m a.
Proof. intros H Ha. specialize (H a). by rewrite (proj2 (in_range_false _ _ _) Ha) in H. Qed.

Lemma torn_write_in m addr data m' a :
  torn_write m addr data m' -> addr <= a < addr + zlen data ->
  Z.land (m' a) (m a) = m' a /\ Z.lor (m' a) (Z.land (m a) (at_ data (a - addr))) = m' a.
Proof. intros H Ha. specialize (H a). by rewrite (proj2 (in_range_true _ _ _) Ha) in H. Qed.

(** Programming an erased byte stores it. *)
Lemma land_erased b : is_byte b -> Z.land FLASH_BYTE_ERASED b = b.
Proof.
  intros Hb. unfold FLASH_BYTE_ERASED. rewrite Z.land_comm.
  change 0xFF with (Z.ones 8). rewrite Z.land_ones by lia. apply Z.mod_small. wblia.
Qed.

Lemma land_byte a b : is_byte a -> is_byte b -> is_byte (Z.land a b).
Proof. intros Ha Hb. apply (land_range a b 8); wblia. Qed.

(** The flash holds bytes. *)
Definition mem_ok (m : mem) : Prop := forall a, is_byte (m a).

Lemma mem_ok_erase m addr len : mem_ok m -> mem_ok (nor_erase m addr len).
Proof. intros H a. unfold nor_erase. case_if; [|auto]. unfold is_byte, FLASH_BYTE_ERASED. lia. Qed.

Lemma at_total_byte l i : bytes l -> 0 <= i -> is_byte (at_ l i).
Proof.
  intros Hl Hi. destruct (Z.lt_ge_cases i (zlen l)) as [H|H]; [by apply at_byte|].
  unfold at_. rewrite lookup_ge_None_2 by wblia. simpl. wblia.
Qed.

Lemma mem_ok_write m addr data : mem_ok m -> bytes data -> mem_ok (nor_write m addr data).
Proof.
  intros H Hd a. unfold nor_write. case_if; [|auto].
  apply in_range_true in E. apply land_byte; [done|]. apply at_total_byte; [done|lia].
Qed.

Lemma mem_ok_torn_erase m addr len m' : mem_ok m -> torn_erase m addr len m' -> mem_ok m'.
Proof. intros H Ht a. specialize (Ht a). case_if_in Ht; [done|]. rewrite Ht. auto. Qed.

Lemma mem_ok_torn_write m addr data m' : mem_ok m -> torn_write m addr data m' -> mem_ok m'.
Proof.
  intros H Ht a. specialize (Ht a). case_if_in Ht; [|rewrite Ht; auto].
  destruct Ht as [Ht1 Ht2]. rewrite <- Ht1.
  assert (0 <= m' a).
  { rewrite <- Ht1. apply Z.land_nonneg. right. apply H. }
  rewrite Z.land_comm. apply (land_range (m a) (m' a) 8); [lia|apply H|done].
Qed.

#[export] Hint Resolve mem_ok_erase mem_ok_write mem_ok_torn_erase mem_ok_torn_write : wb.

Lemma mread_length m addr n : 0 <= n -> zlen (mread m addr n) = n.
Proof. intros. unfold mread, zlen. rewrite length_fmap, length_seqZ. lia. Qed.

Lemma mread_at m addr n i : 0 <= i < n -> at_ (mread m addr n) i = m (addr + i).
Proof.
  intros. unfold mread, at_. rewrite list_lookup_fmap.
  rewrite (lookup_seqZ_lt addr n (Z.to_nat i)) by lia. simpl. f_equal. lia.
Qed.

Lemma mread_bytes m addr n : mem_ok m -> bytes (mread m addr n).
Proof. intros H. unfold mread. apply Forall_fmap. apply Forall_true. intros. apply H. Qed.

Lemma mread_ext m1 m2 a1 a2 n :
  (forall i, 0 <= i < n -> m1 (a1 + i) = m2 (a2 + i)) -> mread m1 a1 n = mread m2 a2 n.
Proof.
  intros H. destruct (Z.lt_ge_cases n 0) as [Hn|Hn].
  - unfold mread. rewrite !(seqZ_nil _ n) by lia. done.
  - apply buf_ext; rewrite !mread_length by lia; [done|].
    intros i Hi. rewrite !mread_at by lia. by apply H.
Qed.

Lemma slice_mread (f : mem) a n off len : 0 <= off -> 0 <= len -> off + len <= n ->
  slice (mread f a n) off len = mread f (a + off) len.
Proof.
  intros H0 H1 H2. apply buf_ext; [rewrite slice_length, mread_length; rewrite ?mread_length; lia|].
  rewrite slice_length by (rewrite ?mread_length; lia). intros i Hi.
  rewrite at_slice by (rewrite ?mread_length; lia). rewrite !mread_at by lia. f_equal. lia.
Qed.

(** ** Runs *)

(** [rwp p s Q]: run from [s], [p] returns a value and a state in [Q]. *)
Definition rwp {A} (p : prog A) (s : flash) (Q : A -> flash -> Prop) : Prop :=
  exists a s', run p s = (inl a, s') /\ Q a s'.

Lemma rwp_bind {A B} (p : prog A) (f : A -> prog B) s Q :
  rwp p s (fun a s' => rwp (f a) s' Q) -> rwp (pbind p f) s Q.
Proof.
  intros (a & s1 & H1 & b & s2 & H2 & HQ). exists b, s2. split; [|done]. by rewrite run_bind, H1.
Qed.

Lemma rwp_mono {A} (p : prog A) s (Q Q' : A -> flash -> Prop) :
  rwp p s Q -> (forall a s', Q a s' -> Q' a s') -> rwp p s Q'.
Proof. intros (a & s' & H & HQ) HI. exists a, s'. auto. Qed.

(** The two steps at once. *)
Lemma rwp_then {A B} (p : prog A) (f : A -> prog B) s (P : A -> flash -> Prop) Q :
  rwp p s P -> (forall a s', P a s' -> rwp (f a) s' Q) -> rwp (pbind p f) s Q.
Proof. intros HP Hf. apply rwp_bind. eapply rwp_mono; eauto. Qed.

Lemma rwp_ret {A} (a : A) s (Q : A -> flash -> Prop) : Q a s -> rwp (Ret a) s Q.
Proof. intros H. by exists a, s. Qed.

Lemma rwp_look {B} (f : mem -> prog B) s Q : rwp (f (fmem s)) s Q -> rwp (let* m := look in f m) s Q.
Proof. done. Qed.
