(* ===== verification/Trailer.v ===== *)
(** * Trailer: partition trailers of libwolfboot.c

    The end of each partition holds, downwards, a magic word, the partition
    state and (for UPDATE) one nibble per sector.  The configuration modelled
    is the default one: fixed partitions in internal flash, no FLAGS_HOME, no
    FLAGS_INVERT, no NVM_FLASH_WRITEONCE and little-endian byte order. *)

From Stdlib Require Import ZArith Lia.
From stdpp Require Import prelude.
From S2P Require Import Prelude Flash.

Local Open Scope Z_scope.

(** ** Configuration *)

(** The build-time geometry (target.h). *)
Class config : Type := Config {
  WOLFBOOT_SECTOR_SIZE : Z;
  WOLFBOOT_PARTITION_SIZE : Z;
  WOLFBOOT_PARTITION_BOOT_ADDRESS : Z;
  WOLFBOOT_PARTITION_UPDATE_ADDRESS : Z;
  WOLFBOOT_PARTITION_SWAP_ADDRESS : Z;
  IMAGE_HEADER_SIZE : Z;
  FLASHBUFFER_SIZE : Z;
}.

(** What a usable geometry satisfies: partitions are whole sectors, disjoint
    and inside the 32-bit address space, the flash buffer divides a sector, a
    header fits in a sector, and the trailer of UPDATE fits in its last
    sector. *)
Class geometry (c : config) : Prop := Geometry {
  geo_buf : 0 < FLASHBUFFER_SIZE;
  geo_sector : exists n, 0 < n /\ WOLFBOOT_SECTOR_SIZE = n * FLASHBUFFER_SIZE;
  geo_hdr : 8 < IMAGE_HEADER_SIZE <= WOLFBOOT_SECTOR_SIZE;
  geo_part : exists n, 3 <= n /\ WOLFBOOT_PARTITION_SIZE = n * WOLFBOOT_SECTOR_SIZE
    /\ n <= 2 * (WOLFBOOT_SECTOR_SIZE - 5) /\ n <= 2 ^ 16;
  geo_boot : 0 <= WOLFBOOT_PARTITION_BOOT_ADDRESS /\
    WOLFBOOT_PARTITION_BOOT_ADDRESS + WOLFBOOT_PARTITION_SIZE < 2 ^ 31;
  geo_update : 0 <= WOLFBOOT_PARTITION_UPDATE_ADDRESS /\
    WOLFBOOT_PARTITION_UPDATE_ADDRESS + WOLFBOOT_PARTITION_SIZE < 2 ^ 31;
  geo_swap : 0 <= WOLFBOOT_PARTITION_SWAP_ADDRESS /\
    WOLFBOOT_PARTITION_SWAP_ADDRESS + WOLFBOOT_SECTOR_SIZE < 2 ^ 31;
  geo_disj_bu :
    WOLFBOOT_PARTITION_BOOT_ADDRESS + WOLFBOOT_PARTITION_SIZE
      <= WOLFBOOT_PARTITION_UPDATE_ADDRESS \/
    WOLFBOOT_PARTITION_UPDATE_ADDRESS + WOLFBOOT_PARTITION_SIZE
      <= WOLFBOOT_PARTITION_BOOT_ADDRESS;
  geo_disj_bs :
    WOLFBOOT_PARTITION_BOOT_ADDRESS + WOLFBOOT_PARTITION_SIZE
      <= WOLFBOOT_PARTITION_SWAP_ADDRESS \/
    WOLFBOOT_PARTITION_SWAP_ADDRESS + WOLFBOOT_SECTOR_SIZE
      <= WOLFBOOT_PARTITION_BOOT_ADDRESS;
  geo_disj_us :
    WOLFBOOT_PARTITION_UPDATE_ADDRESS + WOLFBOOT_PARTITION_SIZE
      <= WOLFBOOT_PARTITION_SWAP_ADDRESS \/
    WOLFBOOT_PARTITION_SWAP_ADDRESS + WOLFBOOT_SECTOR_SIZE
      <= WOLFBOOT_PARTITION_UPDATE_ADDRESS;
}.

(** ** Constants *)

Definition PART_BOOT : Z := 0.
Definition PART_UPDATE : Z := 1.
Definition PART_SWAP : Z := 2.
Definition PART_NONE : Z := 0xFF.

Definition WOLFBOOT_MAGIC : Z := 0x464C4F57.
Definition WOLFBOOT_MAGIC_TRAIL : Z := 0x544F4F42.

Definition IMG_STATE_NEW : Z := 0xFF.
Definition IMG_STATE_UPDATING : Z := 0x70.
Definition IMG_STATE_FINAL_FLAGS : Z := 0x30.
Definition IMG_STATE_TESTING : Z := 0x10.
Definition IMG_STATE_SUCCESS : Z := 0x00.

(** Little-endian word at an address of the mapped memory. *)
Definition mle32 (m : mem) (a : Z) : Z :=
  m a + 2 ^ 8 * m (a + 1) + 2 ^ 16 * m (a + 2) + 2 ^ 24 * m (a + 3).

Definition wolfboot_magic_trail : list Z := le32_bytes WOLFBOOT_MAGIC_TRAIL.

(** ** Trailer access *)

Section Trailer.
Context {c : config}.

Definition PART_BOOT_ENDFLAGS : Z :=
  WOLFBOOT_PARTITION_BOOT_ADDRESS + WOLFBOOT_PARTITION_SIZE.
Definition PART_UPDATE_ENDFLAGS : Z :=
  WOLFBOOT_PARTITION_UPDATE_ADDRESS + WOLFBOOT_PARTITION_SIZE.

(** Address of a trailer byte; [None] is the NULL pointer. *)
Definition get_trailer_at (part at_ : Z) : option Z :=
  if part =? PART_BOOT then Some (PART_BOOT_ENDFLAGS - (4 + at_))
  else if part =? PART_UPDATE then Some (PART_UPDATE_ENDFLAGS - (4 + at_))
  else None.

Definition set_trailer_at (part at_ val : Z) : prog unit :=
  if part =? PART_BOOT then
    let* _ := flash_write (PART_BOOT_ENDFLAGS - (4 + at_)) [val] in Ret tt
  else if part =? PART_UPDATE then
    let* _ := flash_write (PART_UPDATE_ENDFLAGS - (4 + at_)) [val] in Ret tt
  else Ret tt.

Definition set_partition_magic (part : Z) : prog unit :=
  if part =? PART_BOOT then
    let* _ := flash_write (PART_BOOT_ENDFLAGS - 4) wolfboot_magic_trail in Ret tt
  else if part =? PART_UPDATE then
    let* _ := flash_write (PART_UPDATE_ENDFLAGS - 4) wolfboot_magic_trail in Ret tt
  else Ret tt.

(** Dereference a trailer pointer as a word or as a byte. *)
Definition deref32 (p : option Z) : prog Z :=
  match p with
  | Some a => let* m := look in Ret (mle32 m a)
  | None => Stop HUndef
  end.

Definition deref8 (p : option Z) : prog Z :=
  match p with
  | Some a => let* m := look in Ret (m a)
  | None => Stop HUndef
  end.

Definition get_partition_magic (part : Z) : option Z := get_trailer_at part 0.
Definition get_partition_state (part : Z) : option Z := get_trailer_at part 1.
Definition set_partition_state (part val : Z) : prog unit := set_trailer_at part 1 val.
Definition set_update_sector_flags (pos val : Z) : prog unit :=
  set_trailer_at PART_UPDATE (2 + pos) val.
Definition get_update_sector_flags (pos : Z) : option Z :=
  get_trailer_at PART_UPDATE (2 + pos).

Definition wolfBoot_set_partition_state (part newst : Z) : prog Z :=
  if part =? PART_NONE then Ret (-1) else
  let* magic := deref32 (get_partition_magic part) in
  let* _ := (if magic =? WOLFBOOT_MAGIC_TRAIL then Ret tt
             else set_partition_magic part) in
  let* state := deref8 (get_partition_state part) in
  let* _ := (if state =? newst then Ret tt
             else set_partition_state part newst) in
  Ret 0.

Definition wolfBoot_set_update_sector_flag (sector newflag : Z) : prog Z :=
  let sector := u16 sector in
  let pos := Z.shiftr sector 1 in
  let* magic := deref32 (get_partition_magic PART_UPDATE) in
  let* _ := (if magic =? WOLFBOOT_MAGIC_TRAIL then Ret tt
             else set_partition_magic PART_UPDATE) in
  let* flags := deref8 (get_update_sector_flags pos) in
  let fl_value :=
    if sector =? Z.shiftl pos 1
    then Z.lor (Z.land flags 0xF0) (Z.land newflag 0x0F)
    else Z.lor (Z.shiftl (Z.land newflag 0x0F) 4) (Z.land flags 0x0F) in
  let* _ := (if fl_value =? flags then Ret tt
             else set_update_sector_flags pos fl_value) in
  Ret 0.

(** The out-parameter [*st] keeps its value when the call fails. *)
Definition wolfBoot_get_partition_state (part st : Z) : prog (Z * Z) :=
  if part =? PART_NONE then Ret (-1, st) else
  let* magic := deref32 (get_partition_magic part) in
  if negb (magic =? WOLFBOOT_MAGIC_TRAIL) then Ret (-1, st) else
  let* state := deref8 (get_partition_state part) in
  Ret (0, state).

Definition wolfBoot_get_update_sector_flag (sector flag : Z) : prog (Z * Z) :=
  let sector := u16 sector in
  let pos := Z.shiftr sector 1 in
  let* magic := deref32 (get_partition_magic PART_UPDATE) in
  if negb (magic =? WOLFBOOT_MAGIC_TRAIL) then Ret (-1, flag) else
  let* flags := deref8 (get_update_sector_flags pos) in
  if sector =? Z.shiftl pos 1
  then Ret (0, Z.land flags 0x0F)
  else Ret (0, Z.shiftr (Z.land flags 0xF0) 4).

Definition wolfBoot_erase_partition (part : Z) : prog unit :=
  let '(address, size) :=
    if part =? PART_BOOT then (WOLFBOOT_PARTITION_BOOT_ADDRESS, WOLFBOOT_PARTITION_SIZE)
    else if part =? PART_UPDATE then (WOLFBOOT_PARTITION_UPDATE_ADDRESS, WOLFBOOT_PARTITION_SIZE)
    else if part =? PART_SWAP then (WOLFBOOT_PARTITION_SWAP_ADDRESS, WOLFBOOT_SECTOR_SIZE)
    else (0, 0) in
  if 0 <? size then
    let* _ := flash_unlock in
    let* _ := flash_erase address size in
    flash_lock
  else Ret tt.

Definition wolfBoot_update_trigger : prog unit :=
  let st := IMG_STATE_UPDATING in
  let lastSector :=
    ((PART_UPDATE_ENDFLAGS - 1) / WOLFBOOT_SECTOR_SIZE) * WOLFBOOT_SECTOR_SIZE in
  let* _ := flash_unlock in
  let* _ := flash_erase lastSector WOLFBOOT_SECTOR_SIZE in
  let* _ := wolfBoot_set_partition_state PART_UPDATE st in
  flash_lock.

Definition wolfBoot_success : prog unit :=
  let st := IMG_STATE_SUCCESS in
  let* _ := flash_unlock in
  let* _ := wolfBoot_set_partition_state PART_BOOT st in
  flash_lock.

(** ** What a trailer says *)

Definition magic_addr (part : Z) : Z :=
  if part =? PART_BOOT then PART_BOOT_ENDFLAGS - 4 else PART_UPDATE_ENDFLAGS - 4.

(** The trailer of [part] carries the magic word. *)
Definition magic_set (m : mem) (part : Z) : bool :=
  mle32 m (magic_addr part) =? WOLFBOOT_MAGIC_TRAIL.

(** The state byte of [part]. *)
Definition state_of (m : mem) (part : Z) : Z := m (magic_addr part - 1).

(** The flag byte shared by sectors [2 pos] and [2 pos + 1], and a sector's
    nibble of it. *)
Definition flag_addr (pos : Z) : Z := PART_UPDATE_ENDFLAGS - (6 + pos).
Definition nibble (sector b : Z) : Z :=
  if Z.even sector then Z.land b 0x0F else Z.shiftr (Z.land b 0xF0) 4.
Definition sector_flag (m : mem) (sector : Z) : Z :=
  nibble sector (m (flag_addr (sector / 2))).

(** ** Read-only programs *)

(** [p] only reads: it returns [v] of the memory and leaves the flash alone. *)
Definition ro {A} (p : prog A) (v : mem -> A) : Prop :=
  forall s, run p s = (inl (v (fmem s)), s) /\ forall m', crash p s m' -> m' = fmem s.

Lemma chl_bind_ro {A B} P (p : prog A) v (f : A -> prog B) Q C :
  ro p v -> (forall s, P s -> C (fmem s)) ->
  (forall m, chl (fun s => P s /\ fmem s = m) (f (v m)) Q C) ->
  chl P (pbind p f) Q C.
Proof.
  intros Hro HC Hf s Hs. destruct (Hro s) as [Hr Hc].
  destruct (Hf (fmem s) s (conj Hs eq_refl)) as [H1 H2]. split.
  - by rewrite run_bind, Hr.
  - intros m' [H|(a & s' & H3 & H4)]%crash_bind.
    + rewrite (Hc _ H). auto.
    + rewrite Hr in H3. injection H3 as <- <-. auto.
Qed.

Lemma ro_ret {A} (a : A) : ro (Ret a) (fun _ => a).
Proof. intros s. split; [done|]. intros m' [->|[]]. done. Qed.

Lemma ro_bind {A B} (p : prog A) v (f : A -> prog B) w :
  ro p v -> (forall a, ro (f a) (w a)) -> ro (pbind p f) (fun m => w (v m) m).
Proof.
  intros Hp Hf s. destruct (Hp s) as [Hr Hc]. split.
  - rewrite run_bind, Hr. apply Hf.
  - intros m' [H|(a & s' & H1 & H2)]%crash_bind; [auto|].
    rewrite Hr in H1. injection H1 as <- <-. by apply Hf in H2.
Qed.

Lemma ro_look : ro look (fun m => m).
Proof. intros s. split; [done|]. simpl. intros m' [->|[->|[]]]; done. Qed.

Lemma ro_if {A} (b : bool) (p q : prog A) v w :
  ro p v -> ro q w -> ro (if b then p else q) (fun m => if b then v m else w m).
Proof. by destruct b. Qed.

Lemma ro_deref32 a : ro (deref32 (Some a)) (fun m => mle32 m a).
Proof. apply (ro_bind look (fun m => m) _ (fun x _ => mle32 x a) ro_look). intros. apply ro_ret. Qed.

Lemma ro_deref8 a : ro (deref8 (Some a)) (fun m => m a).
Proof. apply (ro_bind look (fun m => m) _ (fun x _ => x a) ro_look). intros. apply ro_ret. Qed.

(** ** Nibbles *)

Lemma nibble_land s x y : nibble s (Z.land x y) = Z.land (nibble s x) (nibble s y).
Proof.
  unfold nibble. destruct (Z.even s); [|rewrite <- Z.shiftr_land; f_equal];
    apply Z.bits_inj'; intros i Hi; rewrite !Z.land_spec;
    destruct (Z.testbit x i), (Z.testbit y i); simpl; try done; by destruct (Z.testbit _ i).
Qed.

Lemma nibble_lor s x y : nibble s (Z.lor x y) = Z.lor (nibble s x) (nibble s y).
Proof.
  unfold nibble. destruct (Z.even s); [|rewrite <- Z.shiftr_lor; f_equal];
    apply Z.land_lor_distr_l.
Qed.

Lemma nibble_range s b : is_byte b -> 0 <= nibble s b < 16.
Proof.
  intros Hb. unfold nibble. destruct (Z.even s).
  - rewrite Z.land_comm. apply (land_range 0x0F b 4); wblia.
  - rewrite Z.shiftr_div_pow2 by lia.
    pose proof (land_range b 0xF0 8 ltac:(lia) Hb ltac:(lia)). dlia.
Qed.

Lemma even_shift n : (n =? Z.shiftl (Z.shiftr n 1) 1) = Z.even n.
Proof.
  rewrite Z.shiftl_mul_pow2, Z.shiftr_div_pow2 by lia. rewrite Zeven_mod.
  destruct (Z.eqb_spec n (n / 2 ^ 1 * 2 ^ 1)); symmetry; [apply Z.eqb_eq|apply Z.eqb_neq]; dlia.
Qed.

(** Bits that a partly programmed nibble can hold. *)
Definition between (old new t : Z) : Prop :=
  Z.land t old = t /\ Z.lor t (Z.land old new) = t.

Lemma between_same old t : between old old t -> t = old.
Proof.
  intros [H1 H2]. rewrite Z.land_diag in H2. apply Z.bits_inj'. intros i Hi.
  apply (f_equal (fun z => Z.testbit z i)) in H1, H2.
  rewrite Z.land_spec in H1. rewrite Z.lor_spec in H2.
  destruct (Z.testbit t i), (Z.testbit old i); done.
Qed.

(** The flag byte that [wolfBoot_set_update_sector_flag] computes. *)
Definition flag_byte (sector flags newflag : Z) : Z :=
  if Z.even sector
  then Z.lor (Z.land flags 0xF0) (Z.land newflag 0x0F)
  else Z.lor (Z.shiftl (Z.land newflag 0x0F) 4) (Z.land flags 0x0F).

(** Decide a property of all bytes and nibbles by computation. *)
Lemma byte_nibble_ind (f : Z -> Z -> bool) :
  forallb (fun b => forallb (f b) (seqZ 0 16)) (seqZ 0 256) = true ->
  forall b x, is_byte b -> 0 <= x < 16 -> f b x = true.
Proof.
  intros H b x Hb Hx. rewrite forallb_forall in H.
  assert (forallb (f b) (seqZ 0 16) = true) as H1.
  { apply H. rewrite <- list_elem_of_In. apply elem_of_seqZ. wblia. }
  rewrite forallb_forall in H1. apply H1.
  rewrite <- list_elem_of_In. apply elem_of_seqZ. lia.
Qed.

Lemma flag_byte_spec sector b x :
  is_byte b -> 0 <= x < 16 ->
  is_byte (flag_byte sector b x) /\
  nibble sector (flag_byte sector b x) = x /\
  (forall s', Z.even s' <> Z.even sector -> nibble s' (flag_byte sector b x) = nibble s' b).
Proof.
  intros Hb Hx.
  pose proof (byte_nibble_ind (fun b x =>
    (0 <=? flag_byte 0 b x) && (flag_byte 0 b x <? 256) &&
    (nibble 0 (flag_byte 0 b x) =? x) && (nibble 1 (flag_byte 0 b x) =? nibble 1 b) &&
    ((0 <=? flag_byte 1 b x) && (flag_byte 1 b x <? 256) &&
    (nibble 1 (flag_byte 1 b x) =? x) && (nibble 0 (flag_byte 1 b x) =? nibble 0 b))) ltac:(vm_compute; reflexivity) b x Hb Hx) as H.
  cbv beta in H. bools. unfold flag_byte, nibble in *. simpl Z.even in *. cbv iota in *.
  destruct (Z.even sector); (split; [wblia|]); (split; [done|]);
    intros s' Hs'; destruct (Z.even s'); done.
Qed.

(** ** Specification of the operations *)

(** A read guarded by the trailer magic. *)
Lemma ro_checked {A} a b (fail : A) (f : Z -> prog A) (g : Z -> A) :
  (forall x, ro (f x) (fun _ => g x)) ->
  ro (let* magic := deref32 (Some a) in
      if negb (magic =? WOLFBOOT_MAGIC_TRAIL) then Ret fail
      else let* x := deref8 (Some b) in f x)
     (fun m => if mle32 m a =? WOLFBOOT_MAGIC_TRAIL then g (m b) else fail).
Proof.
  intros Hf s. destruct (ro_bind _ _ (fun magic : Z => if negb (magic =? WOLFBOOT_MAGIC_TRAIL)
      then Ret fail else let* x := deref8 (Some b) in f x)
    (fun x m => if negb (x =? WOLFBOOT_MAGIC_TRAIL) then fail else g (m b))
    (ro_deref32 a) ltac:(intros x; apply ro_if; [apply ro_ret|];
      exact (ro_bind _ _ f (fun y _ => g y) (ro_deref8 b) Hf)) s) as [H1 H2].
  split; [|exact H2]. rewrite H1. by destruct (_ =? WOLFBOOT_MAGIC_TRAIL).
Qed.

Lemma get_partition_magic_addr part :
  part = PART_BOOT \/ part = PART_UPDATE ->
  get_partition_magic part = Some (magic_addr part).
Proof.
  intros [-> | ->]; unfold get_partition_magic, get_trailer_at, magic_addr; simpl; f_equal; lia.
Qed.

Lemma get_partition_state_addr part :
  part = PART_BOOT \/ part = PART_UPDATE ->
  get_partition_state part = Some (magic_addr part - 1).
Proof.
  intros [-> | ->]; unfold get_partition_state, get_trailer_at, magic_addr; simpl; f_equal; lia.
Qed.

Lemma get_update_sector_flags_addr sector :
  get_update_sector_flags (Z.shiftr sector 1) = Some (flag_addr (sector / 2)).
Proof.
  unfold get_update_sector_flags, get_trailer_at, flag_addr. simpl.
  rewrite Z.shiftr_div_pow2 by lia. f_equal. change (2 ^ 1) with 2. lia.
Qed.

Lemma ro_get_update_sector_flag sector flag :
  0 <= sector < 2 ^ 16 ->
  ro (wolfBoot_get_update_sector_flag sector flag)
     (fun m => if magic_set m PART_UPDATE then (0, sector_flag m sector) else (-1, flag)).
Proof.
  intros Hs. unfold wolfBoot_get_update_sector_flag. rewrite u16_small, even_shift by done.
  rewrite get_partition_magic_addr, get_update_sector_flags_addr by auto.
  apply (ro_checked _ _ (-1, flag) _ (fun b => (0, nibble sector b))).
  intros x. unfold nibble. destruct (Z.even sector); apply ro_ret.
Qed.

Lemma ro_get_partition_state part st :
  part = PART_BOOT \/ part = PART_UPDATE ->
  ro (wolfBoot_get_partition_state part st)
     (fun m => if magic_set m part then (0, state_of m part) else (-1, st)).
Proof.
  intros Hp. unfold wolfBoot_get_partition_state.
  assert ((part =? PART_NONE) = false) as -> by (by destruct Hp as [-> | ->]).
  rewrite get_partition_magic_addr, get_partition_state_addr by done.
  apply (ro_checked _ _ (-1, st) _ (fun b => (0, b))). intros x. apply ro_ret.
Qed.

(** [m'] is [m] with the nibble of [sector] set to [v]. *)
Definition flag_upd (m : mem) (sector v : Z) (m' : mem) : Prop :=
  mem_ok m' /\
  (forall a, a <> flag_addr (sector / 2) -> m' a = m a) /\
  sector_flag m' sector = v /\
  (forall s', s' <> sector -> sector_flag m' s' = sector_flag m s').

Lemma between_old old new : between old new old.
Proof.
  split; [apply Z.land_diag|]. apply Z.bits_inj'. intros i Hi.
  rewrite Z.lor_spec, Z.land_spec. by destruct (Z.testbit old i).
Qed.

Lemma between_new old new : between old new (Z.land old new).
Proof.
  split; [|apply Z.lor_diag]. apply Z.bits_inj'. intros i Hi.
  rewrite !Z.land_spec. by destruct (Z.testbit old i), (Z.testbit new i).
Qed.

Lemma flag_upd_intro m sector v m' :
  mem_ok m' -> (forall a, a <> flag_addr (sector / 2) -> m' a = m a) ->
  nibble sector (m' (flag_addr (sector / 2))) = v ->
  (forall s', Z.even s' <> Z.even sector ->
     nibble s' (m' (flag_addr (sector / 2))) = nibble s' (m (flag_addr (sector / 2)))) ->
  flag_upd m sector v m'.
Proof.
  intros Hok Hout Hv Hother. split; [done|]. split; [done|]. split; [done|].
  intros s' Hs'. unfold sector_flag. destruct (Z.eq_dec (s' / 2) (sector / 2)) as [E|E].
  - rewrite E. apply Hother. intros He. apply Hs'. rewrite !Zeven_mod in He.
    pose proof (Zmod_eq s' 2). pose proof (Zmod_eq sector 2).
    destruct (Z.eqb_spec (s' mod 2) 0), (Z.eqb_spec (sector mod 2) 0); try done; dlia.
  - rewrite Hout; [done|]. unfold flag_addr. lia.
Qed.

Lemma flag_upd_refl m sector : mem_ok m -> flag_upd m sector (sector_flag m sector) m.
Proof. intros. by apply flag_upd_intro. Qed.

Lemma chl_set_flag sector nf m :
  0 <= sector < 2 ^ 16 -> 0 <= nf < 16 -> mem_ok m -> magic_set m PART_UPDATE = true ->
  chl (fun s => fmem s = m /\ flashLocked s = false)
      (wolfBoot_set_update_sector_flag sector nf)
      (fun r s => r = 0 /\ flashLocked s = false /\
         flag_upd m sector (Z.land (sector_flag m sector) nf) (fmem s))
      (fun m' => exists t, between (sector_flag m sector) nf t /\ flag_upd m sector t m').
Proof.
  intros Hs Hnf Hok Hmagic. unfold wolfBoot_set_update_sector_flag.
  rewrite u16_small, even_shift, get_partition_magic_addr, get_update_sector_flags_addr by auto.
  assert (exists t, between (sector_flag m sector) nf t /\ flag_upd m sector t m) as Hold
    by eauto using between_old, flag_upd_refl.
  eapply chl_bind_ro; [apply ro_deref32|intros s [-> _]; exact Hold|intros m0].
  apply chl_pre. intros s0 [[Hm0 HL0] Hm0'].
  assert (m0 = m) as -> by congruence.
  unfold magic_set in Hmagic. rewrite Hmagic, pbind_ret.
  eapply chl_bind_ro; [apply ro_deref8|by intros s ->; rewrite Hm0|intros m1].
  apply chl_pre. intros s1 [-> Hm1']. assert (m1 = m) as -> by congruence.
  set (b := m (flag_addr (sector / 2))).
  destruct (flag_byte_spec sector b nf (Hok _) Hnf) as (Hfb & Hn & Ho).
  change (if Z.even sector then _ else _) with (flag_byte sector b nf).
  destruct (Z.eqb_spec (flag_byte sector b nf) b) as [E|E].
  - rewrite pbind_ret. apply chl_ret. intros s ->. rewrite Hm0. split; [|done].
    split; [done|]. split; [done|]. replace (Z.land _ _) with (sector_flag m sector); [by apply flag_upd_refl|]. unfold sector_flag. fold b. rewrite <- E, Hn. by rewrite Z.land_diag.
  - unfold set_update_sector_flags, set_trailer_at. simpl Z.eqb at 1. cbv iota.
    replace (4 + (2 + Z.shiftr sector 1)) with (6 + sector / 2)
      by (rewrite Z.shiftr_div_pow2 by lia; change (2 ^ 1) with 2; lia).
    fold (flag_addr (sector / 2)).
    assert (forall m', mem_ok m' -> (forall a, a <> flag_addr (sector / 2) -> m' a = m a) ->
      between b (flag_byte sector b nf) (m' (flag_addr (sector / 2))) ->
      flag_upd m sector (nibble sector (m' (flag_addr (sector / 2)))) m' /\
      between (sector_flag m sector) nf (nibble sector (m' (flag_addr (sector / 2))))) as Hbet.
    { intros m' Hok' Hout [Hb1 Hb2]. apply (f_equal (nibble sector)) in Hb1 as Hb3.
      apply (f_equal (nibble sector)) in Hb2 as Hb4.
      rewrite nibble_land in Hb3. rewrite nibble_lor, nibble_land, Hn in Hb4. split; [|done].
      apply flag_upd_intro; [done..|]. intros s' Hs'. apply between_same.
      apply (f_equal (nibble s')) in Hb1, Hb2. rewrite nibble_land in Hb1.
      rewrite nibble_lor, nibble_land, Ho in Hb2 by done. done. }
    assert (zlen [flag_byte sector b nf] = 1) as Hlen by done.
    apply (chl_map _ _ (fun _ => 0)). apply (chl_map _ _ (fun _ => tt)).
    apply chl_write.
    + intros s ->. rewrite Hm0. auto.
    + intros s m' -> Ht. rewrite Hm0 in Ht.
      exists (nibble sector (m' (flag_addr (sector / 2)))).
      destruct (Hbet m') as [H1 H2]; eauto with wb.
      * intros a Ha. eapply torn_write_out; [done|]. lia.
      * destruct (torn_write_in _ _ _ _ (flag_addr (sector / 2)) Ht ltac:(lia)) as [H1 H2].
        rewrite Z.sub_diag in H2. by split.
    + intros s ->. rewrite Hm0. set (m' := nor_write _ _ _).
      assert (m' (flag_addr (sector / 2)) = Z.land b (flag_byte sector b nf)) as Hv.
      { unfold m'. rewrite nor_write_in by lia. by rewrite Z.sub_diag. }
      destruct (Hbet m') as [H1 H2].
      * apply mem_ok_write; [done|]. by repeat constructor; apply Hfb.
      * intros a Ha. apply nor_write_out. lia.
      * rewrite Hv. apply between_new.
      * rewrite Hv, nibble_land, Hn in H1, H2. split; [|by eexists].
        simpl. auto.
Qed.

(** *** Partition states *)

(** The address at which [set_trailer_at] writes. *)
Lemma set_partition_state_write part newst :
  part = PART_BOOT \/ part = PART_UPDATE ->
  set_partition_state part newst =
  (let* _ := flash_write (magic_addr part - 1) [newst] in Ret tt).
Proof.
  intros [-> | ->]; unfold set_partition_state, set_trailer_at, magic_addr; simpl Z.eqb; cbv iota.
  - by replace (PART_BOOT_ENDFLAGS - (4 + 1)) with (PART_BOOT_ENDFLAGS - 4 - 1) by lia.
  - by replace (PART_UPDATE_ENDFLAGS - (4 + 1)) with (PART_UPDATE_ENDFLAGS - 4 - 1) by lia.
Qed.

Lemma set_partition_magic_write part :
  part = PART_BOOT \/ part = PART_UPDATE ->
  set_partition_magic part =
  (let* _ := flash_write (magic_addr part) wolfboot_magic_trail in Ret tt).
Proof. by intros [-> | ->]. Qed.

Lemma part_not_none part :
  part = PART_BOOT \/ part = PART_UPDATE -> (part =? PART_NONE) = false.
Proof. by intros [-> | ->]. Qed.

(** Changing the state of a trailer in use clears bits of the state byte. *)
Lemma chl_set_state_live part newst m :
  part = PART_BOOT \/ part = PART_UPDATE -> is_byte newst -> mem_ok m ->
  magic_set m part = true ->
  chl (fun s => fmem s = m /\ flashLocked s = false)
      (wolfBoot_set_partition_state part newst)
      (fun r s => r = 0 /\ flashLocked s = false /\ mem_ok (fmem s) /\
         (forall a, a <> magic_addr part - 1 -> fmem s a = m a) /\
         state_of (fmem s) part = Z.land (state_of m part) newst)
      (fun m' => mem_ok m' /\ (forall a, a <> magic_addr part - 1 -> m' a = m a) /\
         between (state_of m part) newst (state_of m' part)).
Proof.
  intros Hp Hn Hok Hmg. unfold wolfBoot_set_partition_state.
  rewrite part_not_none, get_partition_magic_addr, get_partition_state_addr,
    set_partition_state_write by done.
  pose proof (between_old (state_of m part) newst) as Hbo.
  eapply chl_bind_ro; [apply ro_deref32|by intros s [-> _]|intros m1].
  apply chl_pre. intros s0 [[Hm0 HL0] Hm1]. assert (m1 = m) as -> by congruence.
  unfold magic_set in Hmg. rewrite Hmg, pbind_ret.
  eapply chl_bind_ro; [apply ro_deref8|by intros s ->; rewrite Hm0|intros m1].
  apply chl_pre. intros s1 [-> Hm1']. assert (m1 = m) as -> by congruence.
  unfold state_of in *. destruct (Z.eqb_spec (m (magic_addr part - 1)) newst) as [E|E].
  - rewrite pbind_ret. apply chl_ret. intros s ->. rewrite Hm0. split; [|done].
    split; [done|]. split; [done|]. split; [done|]. split; [done|].
    rewrite E. by rewrite Z.land_diag.
  - apply (chl_map _ _ (fun _ => 0)). apply (chl_map _ _ (fun _ => tt)). apply chl_write.
    + intros s ->. rewrite Hm0. done.
    + intros s m' -> Ht. rewrite Hm0 in Ht. split; [eauto with wb|]. split.
      * intros a Ha. apply (torn_write_out _ _ _ _ _ Ht). change (zlen [newst]) with 1. lia.
      * destruct (torn_write_in _ _ _ _ (magic_addr part - 1) Ht) as [H1 H2];
          [change (zlen [newst]) with 1; lia|]. rewrite Z.sub_diag in H2. by split.
    + intros s ->. rewrite Hm0. simpl fmem.
      assert (mem_ok (nor_write m (magic_addr part - 1) [newst])) as Hok'
        by (apply mem_ok_write; [done|by repeat constructor; apply Hn]).
      assert (forall a, a <> magic_addr part - 1 ->
        nor_write m (magic_addr part - 1) [newst] a = m a) as Hout.
      { intros a Ha. apply nor_write_out. change (zlen [newst]) with 1. lia. }
      assert (nor_write m (magic_addr part - 1) [newst] (magic_addr part - 1) =
        Z.land (m (magic_addr part - 1)) newst) as Hv.
      { rewrite nor_write_in by (change (zlen [newst]) with 1; lia). by rewrite Z.sub_diag. }
      rewrite Hv. split; [done|]. split; [done|]. split; [done|]. apply between_new.
Qed.

(** [m'] differs from [m] at most in the magic word and state of [part]. *)
Definition trailer_only (m : mem) (part : Z) (m' : mem) : Prop :=
  mem_ok m' /\ forall a, ~ (magic_addr part - 1 <= a < magic_addr part + 4) -> m' a = m a.

Lemma magic_trail_bytes : zlen wolfboot_magic_trail = 4 /\ bytes wolfboot_magic_trail.
Proof. split; [done|]. repeat constructor; discriminate. Qed.

(** The magic word written over erased bytes. *)
Lemma chl_set_magic part m :
  part = PART_BOOT \/ part = PART_UPDATE -> mem_ok m ->
  (forall a, magic_addr part - 1 <= a < magic_addr part + 4 -> m a = FLASH_BYTE_ERASED) ->
  chl (fun s => fmem s = m /\ flashLocked s = false) (set_partition_magic part)
    (fun _ s => flashLocked s = false /\ trailer_only m part (fmem s) /\
       magic_set (fmem s) part = true /\ state_of (fmem s) part = FLASH_BYTE_ERASED)
    (trailer_only m part).
Proof.
  intros Hp Hok Her. rewrite set_partition_magic_write by done.
  destruct magic_trail_bytes as [Hl Hb]. apply (chl_map _ _ (fun _ => tt)). apply chl_write.
  - intros s [-> HL]. by split_and!.
  - intros s m' [-> HL] Ht. split; [eauto with wb|]. intros a Ha.
    apply (torn_write_out _ _ _ _ _ Ht). lia.
  - intros s [-> HL]. simpl fmem.
    assert (trailer_only m part (nor_write m (magic_addr part) wolfboot_magic_trail)) as Hto.
    { split; [by apply mem_ok_write|]. intros a Ha. apply nor_write_out. lia. }
    split; [|done]. split; [done|]. split; [done|]. split.
    + unfold magic_set, mle32. rewrite !nor_write_in by lia. rewrite !Her by lia.
      rewrite !land_erased by (apply at_byte; [done|lia]).
      rewrite Z.sub_diag, !Z.add_simpl_l. done.
    + unfold state_of. rewrite nor_write_out by lia. apply Her. lia.
Qed.

Lemma chl_set_state_erased part newst m :
  part = PART_BOOT \/ part = PART_UPDATE -> is_byte newst -> mem_ok m ->
  (forall a, magic_addr part - 1 <= a < magic_addr part + 4 -> m a = FLASH_BYTE_ERASED) ->
  chl (fun s => fmem s = m /\ flashLocked s = false)
      (wolfBoot_set_partition_state part newst)
      (fun r s => r = 0 /\ flashLocked s = false /\ trailer_only m part (fmem s) /\
         magic_set (fmem s) part = true /\ state_of (fmem s) part = newst)
      (trailer_only m part).
Proof.
  intros Hp Hn Hok Her.
  assert (trailer_only m part m) as Hrefl by done.
  unfold wolfBoot_set_partition_state.
  rewrite part_not_none, get_partition_magic_addr, get_partition_state_addr by done.
  eapply chl_bind_ro; [apply ro_deref32|by intros s [-> _]|intros m1].
  apply chl_pre. intros s0 [[Hm0 HL0] Hm1]. assert (m1 = m) as -> by congruence.
  assert ((mle32 m (magic_addr part) =? WOLFBOOT_MAGIC_TRAIL) = false) as ->.
  { unfold mle32. by rewrite !Her by lia. }
  eapply chl_bind.
  { eapply chl_conseq; [by apply (chl_set_magic part m)|by intros ? ->| |done].
    intros u s H. exact H. }
  intros u. apply chl_pre. intros s1 (HL1 & [Hok1 Hout1] & Hmg1 & Hst1).
  eapply chl_bind_ro; [apply ro_deref8|by intros s ->|intros m1'].
  apply chl_pre. intros s2 [-> <-]. unfold state_of in *. rewrite Hst1.
  destruct (Z.eqb_spec FLASH_BYTE_ERASED newst) as [E|E].
  - rewrite pbind_ret. apply chl_ret. intros s ->. split; [|done].
    split; [done|]. split; [done|]. split; [done|]. split; [done|]. congruence.
  - rewrite set_partition_state_write by done.
    apply (chl_map _ _ (fun _ => 0)). apply (chl_map _ _ (fun _ => tt)). apply chl_write.
    + intros s ->. by split.
    + intros s m' -> Ht. split; [eauto with wb|]. intros a Ha.
      rewrite (torn_write_out _ _ _ _ _ Ht) by (change (zlen [newst]) with 1; lia). auto.
    + intros s ->. simpl fmem. set (m2 := nor_write _ _ _).
      assert (forall a, a <> magic_addr part - 1 -> m2 a = fmem s1 a) as Hout2.
      { intros a Ha. apply nor_write_out. change (zlen [newst]) with 1. lia. }
      assert (trailer_only m part m2) as Hto.
      { split; [apply mem_ok_write; [done|by repeat constructor; apply Hn]|].
        intros a Ha. rewrite Hout2 by lia. auto. }
      split; [|done]. split; [done|]. split; [done|]. split; [done|]. split.
      * rewrite <- Hmg1. unfold magic_set, mle32. by rewrite !Hout2 by lia.
      * unfold m2. rewrite nor_write_in by (change (zlen [newst]) with 1; lia).
        rewrite Z.sub_diag, Hst1. by apply land_erased.
Qed.

End Trailer.
