(* ===== verification/Image.v ===== *)
(** * Image: the manifest header and image verification

    The TLV header search of libwolfboot.c ([wolfBoot_find_header] and the
    accessors of version, type and delta base), and from image.c the opening of
    an image, its digest, and the integrity and authenticity checks, in the
    configuration HASH=SHA256, SIGN=ED25519, fixed partitions, not ARMORED.
    wolfCrypt and the generated keystore are parameters ([hash_api],
    [verify_api], [keystore_api]). *)

From Stdlib Require Import ZArith Lia.
From stdpp Require Import prelude.
From S2P Require Import Prelude Flash Trailer.

Local Open Scope Z_scope.

(** ** Constants *)

Definition HDR_VERSION : Z := 0x01.
Definition HDR_SHA256 : Z := 0x03.
Definition HDR_IMG_TYPE : Z := 0x04.
Definition HDR_IMG_DELTA_BASE : Z := 0x05.
Definition HDR_PUBKEY : Z := 0x10.
Definition HDR_SIGNATURE : Z := 0x20.
Definition HDR_PADDING : Z := 0xFF.
Definition HDR_IMG_TYPE_AUTH_MASK : Z := 0xFF00.
Definition HDR_IMG_TYPE_AUTH : Z := 0x0100.   (* ED25519 *)
Definition HDR_IMG_TYPE_PART_MASK : Z := 0x000F.
Definition HDR_IMG_TYPE_APP : Z := 0x0001.
Definition IMAGE_HEADER_OFFSET : Z := 8.
Definition UINTPTR_MAX : Z := 2 ^ 32 - 1.
Definition WOLFBOOT_SHA_DIGEST_SIZE : Z := 32.
Definition WOLFBOOT_SHA_BLOCK_SIZE : Z := 256.
Definition ED25519_IMAGE_SIGNATURE_SIZE : Z := 64.

Section Image.
Context {c : config}.

(** ** Header search *)

(** One turn of the loop of [wolfBoot_find_header]. *)
Definition find_header_step (m : mem) (type max_addr p_addr : Z)
    : outcome (Z + (Z * option Z)) :=
  if negb (p_addr <? max_addr) then Ok (inr (0, None)) else
  if max_addr - p_addr <? 4 then Ok (inr (0, None)) else
  let p0 := m p_addr in
  let p1 := m (p_addr + 1) in
  let p2 := m (p_addr + 2) in
  let p3 := m (p_addr + 3) in
  let htype := u16 (Z.lor p0 (Z.shiftl p1 8)) in
  if htype =? 0 then Ok (inr (0, None)) else
  if (p0 =? HDR_PADDING) || negb (Z.land p_addr 0x01 =? 0) then Ok (inl (p_addr + 1)) else
  let len := u16 (Z.lor p2 (Z.shiftl p3 8)) in
  if u16 (IMAGE_HEADER_SIZE - IMAGE_HEADER_OFFSET) <? 4 + len then Ok (inr (0, None)) else
  if max_addr - p_addr <? 4 + len then Ok (inr (0, None)) else
  if htype =? type then Ok (inr (len, Some (p_addr + 4))) else
  Ok (inl (p_addr + (4 + len))).

(** Length of the field and the address of its value; [(0, None)] when absent.
    Address 0 is the NULL pointer. *)
Definition wolfBoot_find_header (m : mem) (haystack type : Z) : outcome (Z * option Z) :=
  if haystack =? 0 then Ok (0, None) else
  let p_addr := haystack in
  if p_addr <? IMAGE_HEADER_OFFSET then Ok (0, None) else
  let max_addr := p_addr - IMAGE_HEADER_OFFSET in
  if UINTPTR_MAX - IMAGE_HEADER_SIZE <? max_addr then Ok (0, None) else
  let max_addr := max_addr + IMAGE_HEADER_SIZE in
  if max_addr <? p_addr then Ok (0, None) else
  loop (S (Z.to_nat IMAGE_HEADER_SIZE)) (find_header_step m type max_addr) p_addr.

(** Little-endian 16-bit word of the mapped memory. *)
Definition mle16 (m : mem) (a : Z) : Z := m a + 2 ^ 8 * m (a + 1).

Definition wolfBoot_get_blob_version (m : mem) (blob : Z) : outcome Z :=
  if blob =? 0 then Ok 0 else
  if negb (mle32 m blob =? WOLFBOOT_MAGIC) then Ok 0 else
  let! (len, version_field) :=
    wolfBoot_find_header m (blob + IMAGE_HEADER_OFFSET) HDR_VERSION in
  if negb (len =? 4) then Ok 0 else
  match version_field with
  | Some p => Ok (mle32 m p)
  | None => Ok 0
  end.

Definition wolfBoot_get_blob_type (m : mem) (blob : Z) : outcome Z :=
  if negb (mle32 m blob =? WOLFBOOT_MAGIC) then Ok 0 else
  let! (len, type_field) :=
    wolfBoot_find_header m (blob + IMAGE_HEADER_OFFSET) HDR_IMG_TYPE in
  if negb (len =? 2) then Ok 0 else
  match type_field with
  | Some p => Ok (mle16 m p)
  | None => Ok 0
  end.

Definition wolfBoot_get_blob_diffbase_version (m : mem) (blob : Z) : outcome Z :=
  if negb (mle32 m blob =? WOLFBOOT_MAGIC) then Ok 0 else
  let! (len, delta_base) :=
    wolfBoot_find_header m (blob + IMAGE_HEADER_OFFSET) HDR_IMG_DELTA_BASE in
  if negb (len =? 4) then Ok 0 else
  match delta_base with
  | Some p => Ok (mle32 m p)
  | None => Ok 0
  end.

Definition wolfBoot_get_image_from_part (part : Z) : Z :=
  if part =? PART_BOOT then WOLFBOOT_PARTITION_BOOT_ADDRESS
  else if part =? PART_UPDATE then WOLFBOOT_PARTITION_UPDATE_ADDRESS
  else 0.

Definition wolfBoot_get_image_version (m : mem) (part : Z) : outcome Z :=
  wolfBoot_get_blob_version m (wolfBoot_get_image_from_part part).
Definition wolfBoot_get_diffbase_version (m : mem) (part : Z) : outcome Z :=
  wolfBoot_get_blob_diffbase_version m (wolfBoot_get_image_from_part part).
(** A partition is never at the null address, for which the code returns 0. *)
Definition wolfBoot_get_image_type (m : mem) (part : Z) : outcome Z :=
  wolfBoot_get_blob_type m (wolfBoot_get_image_from_part part).

(** ** Opening an image *)

(** [struct wolfBoot_image]; [sha_hash] points to the stored digest. *)
Record wolfBoot_image : Type := mkImage {
  hdr : Z;
  trailer : Z;
  sha_hash : option Z;
  fw_base : Z;
  fw_size : Z;
  part : Z;
  hdr_ok : Z;
  signature_ok : Z;
  sha_ok : Z;
}.

(** [memset(img, 0, sizeof(struct wolfBoot_image))]. *)
Definition image0 : wolfBoot_image := mkImage 0 0 None 0 0 0 0 0 0.

Definition set_hdr (x : Z) (i : wolfBoot_image) : wolfBoot_image :=
  mkImage x (trailer i) (sha_hash i) (fw_base i) (fw_size i) (part i) (hdr_ok i) (signature_ok i) (sha_ok i).
Definition set_trailer (x : Z) (i : wolfBoot_image) : wolfBoot_image :=
  mkImage (hdr i) x (sha_hash i) (fw_base i) (fw_size i) (part i) (hdr_ok i) (signature_ok i) (sha_ok i).
Definition set_sha_hash (x : option Z) (i : wolfBoot_image) : wolfBoot_image :=
  mkImage (hdr i) (trailer i) x (fw_base i) (fw_size i) (part i) (hdr_ok i) (signature_ok i) (sha_ok i).
Definition set_fw_base (x : Z) (i : wolfBoot_image) : wolfBoot_image :=
  mkImage (hdr i) (trailer i) (sha_hash i) x (fw_size i) (part i) (hdr_ok i) (signature_ok i) (sha_ok i).
Definition set_fw_size (x : Z) (i : wolfBoot_image) : wolfBoot_image :=
  mkImage (hdr i) (trailer i) (sha_hash i) (fw_base i) x (part i) (hdr_ok i) (signature_ok i) (sha_ok i).
Definition set_part (x : Z) (i : wolfBoot_image) : wolfBoot_image :=
  mkImage (hdr i) (trailer i) (sha_hash i) (fw_base i) (fw_size i) x (hdr_ok i) (signature_ok i) (sha_ok i).
Definition set_hdr_ok (x : Z) (i : wolfBoot_image) : wolfBoot_image :=
  mkImage (hdr i) (trailer i) (sha_hash i) (fw_base i) (fw_size i) (part i) x (signature_ok i) (sha_ok i).
Definition set_signature_ok (x : Z) (i : wolfBoot_image) : wolfBoot_image :=
  mkImage (hdr i) (trailer i) (sha_hash i) (fw_base i) (fw_size i) (part i) (hdr_ok i) x (sha_ok i).
Definition set_sha_ok (x : Z) (i : wolfBoot_image) : wolfBoot_image :=
  mkImage (hdr i) (trailer i) (sha_hash i) (fw_base i) (fw_size i) (part i) (hdr_ok i) (signature_ok i) x.

Definition wolfBoot_image_size (m : mem) (image : Z) : Z := mle32 m (image + 4).

Definition wolfBoot_open_image_address (m : mem) (img : wolfBoot_image) (image : Z)
    : Z * wolfBoot_image :=
  let part_size := WOLFBOOT_PARTITION_SIZE in
  if negb (mle32 m image =? WOLFBOOT_MAGIC) then (-1, img) else
  let img := set_fw_size (wolfBoot_image_size m image) img in
  if part_size - IMAGE_HEADER_SIZE <? fw_size img
  then (-1, set_fw_size (part_size - IMAGE_HEADER_SIZE) img) else
  let img := if hdr_ok img =? 0 then set_hdr image img else img in
  let img := set_trailer (hdr img + part_size) img in
  let img := set_hdr_ok 1 img in
  let img := set_fw_base (hdr img + IMAGE_HEADER_SIZE) img in
  (0, img).

Definition wolfBoot_open_image (m : mem) (prt : Z) : Z * wolfBoot_image :=
  let img := set_part prt image0 in
  if prt =? PART_SWAP then
    let img := set_hdr_ok 1 (set_hdr WOLFBOOT_PARTITION_SWAP_ADDRESS img) in
    (0, set_fw_size WOLFBOOT_SECTOR_SIZE (set_fw_base (hdr img) img))
  else if negb ((prt =? PART_BOOT) || (prt =? PART_UPDATE)) then (-1, img)
  else
    let img := set_hdr (if prt =? PART_BOOT then WOLFBOOT_PARTITION_BOOT_ADDRESS
                        else WOLFBOOT_PARTITION_UPDATE_ADDRESS) img in
    let '(ret, img) := wolfBoot_open_image_address m (set_hdr_ok 1 img) (hdr img) in
    (ret, if negb (ret =? 0) then set_hdr_ok 0 img else img).

End Image.

(** ** Constant-time comparison *)

(** [image_CT_compare], the plain build: 0 when equal, 1 otherwise. *)
Definition image_CT_compare (expected actual : list Z) (len : Z) : outcome Z :=
  loop (S (Z.to_nat len)) (fun '(i, diff) =>
    if negb (i <? len) then Ok (inr (if negb (diff =? 0) then 1 else 0)) else
    let! e := rd expected i in
    let! a := rd actual i in
    Ok (inl (i + 1, Z.lor diff (Z.lxor e a)))) (0, 0).

Definition CT_SENTINEL : Z := 0xA5C3F000.

(** [image_CT_compare], the ARMORED build: redundant counters folded into the
    result. *)
Definition image_CT_compare_armored (expected actual : list Z) (len : Z) : outcome Z :=
  loop (S (Z.to_nat len)) (fun '(i, diff, witness, count, budget) =>
    if (i <? len) && negb (budget =? 0) then
      let! e := rd expected i in
      let! a := rd actual i in
      Ok (inl (u32 (i + 1), Z.lor diff (Z.lxor e a), u32 (witness + u32 (i + 1)),
               u32 (count + 1), u32 (budget - 1)))
    else
      let expected_witness := u32 (len * u32 (len + 1)) / 2 in
      let len_is_zero := Z.lxor 1 (Z.shiftr (Z.lor len (u32 (0 - len))) 31) in
      let res := Z.lxor diff CT_SENTINEL in
      let res := Z.lor res (Z.lxor witness expected_witness) in
      let res := Z.lor res (Z.lxor count len) in
      let res := Z.lor res (Z.lxor i len) in
      let res := Z.lor res len_is_zero in
      let res := Z.lor res (Z.lxor diff CT_SENTINEL) in
      let res := Z.lor res (Z.lxor witness expected_witness) in
      let res := Z.lor res (Z.lxor count len) in
      let res := Z.lor res (Z.lxor i len) in
      let res := Z.lor res len_is_zero in
      Ok (inr (i32 res))) (0, CT_SENTINEL, 0, 0, len).

(** [wolfBoot_hardened_CT_compare]: both runs have to agree on a match. *)
Definition wolfBoot_hardened_CT_compare (expected actual : list Z) (len : Z) : outcome Z :=
  let! r1 := image_CT_compare expected actual len in
  let! r2 := image_CT_compare expected actual len in
  Ok (Z.lor r1 r2).

(** ** Parameters: wolfCrypt and the keystore *)

(** Streaming SHA-256 of wolfCrypt (wc_InitSha256_ex, wc_Sha256Update,
    wc_Sha256Final). *)
Class hash_api : Type := HashApi {
  hctx : Type;
  hash_init : hctx;
  hash_update : hctx -> list Z -> hctx;
  hash_final : hctx -> list Z;
}.

(** What its documentation promises: updates concatenate, digests have 32
    bytes. *)
Class hash_laws (H : hash_api) : Prop := HashLaws {
  hash_update_nil : forall k, hash_update k [] = k;
  hash_update_app : forall k a b, hash_update (hash_update k a) b = hash_update k (a ++ b);
  hash_final_len : forall k, zlen (hash_final k) = WOLFBOOT_SHA_DIGEST_SIZE;
}.

(** The generated keystore (include/keystore.h). *)
Class keystore_api : Type := KeystoreApi {
  keystore_num_pubkeys : Z;
  keystore_get_buffer : Z -> option (list Z);
  keystore_get_size : Z -> Z;
  keystore_get_mask : Z -> Z;
}.

(** Ed25519 of wolfCrypt: key import status, and (status, result) of a
    verification of a signature on a message. *)
Class verify_api : Type := VerifyApi {
  wc_ed25519_init_ex : Z;
  wc_ed25519_import_public : option (list Z) -> Z;
  wc_ed25519_verify_msg : list Z -> list Z -> option (list Z) -> Z * Z;
}.

Section Verify.
Context {c : config} {H : hash_api} {K : keystore_api} {V : verify_api}.

(** Run a pure computation of the model inside a flash program. *)
Definition lift {A} (o : outcome A) : prog A :=
  match o with
  | Ok a => Ret a
  | Oob => Stop HUndef
  | NoFuel => Stop HFuel
  end.

Definition get_header (m : mem) (img : wolfBoot_image) (type : Z) : outcome (Z * option Z) :=
  wolfBoot_find_header m (hdr img + IMAGE_HEADER_OFFSET) type.

(** Address of the block to hash, [None] past the firmware. *)
Definition get_sha_block (img : wolfBoot_image) (offset : Z) : option Z :=
  if fw_size img <? offset then None else Some (fw_base img + offset).

(** Hash the header up to the digest field. *)
Definition header_sha256 (m : mem) (img : wolfBoot_image) : outcome (option hctx) :=
  let p := hdr img in
  let! (stored_sha_len, stored_sha) := get_header m img HDR_SHA256 in
  if negb (stored_sha_len =? WOLFBOOT_SHA_DIGEST_SIZE) then Ok None else
  let end_sha := default 0 stored_sha - 4 in
  loop (S (Z.to_nat (end_sha - p))) (fun '(p, ctx) =>
    if negb (p <? end_sha) then Ok (inr (Some ctx)) else
    let blksz := WOLFBOOT_SHA_BLOCK_SIZE in
    let blksz := if end_sha - p <? blksz then end_sha - p else blksz in
    Ok (inl (p + blksz, hash_update ctx (mread m p blksz)))) (p, hash_init).

(** Digest of header and firmware; [None] is the error return. *)
Definition image_sha256 (m : mem) (img : wolfBoot_image) : outcome (option (list Z)) :=
  let! ctx := header_sha256 m img in
  match ctx with
  | None => Ok None
  | Some ctx =>
      let! ctx := loop (S (S (Z.to_nat (fw_size img)))) (fun '(position, ctx) =>
        match get_sha_block img position with
        | None => Ok (inr ctx)
        | Some p =>
            let blksz := WOLFBOOT_SHA_BLOCK_SIZE in
            let blksz := if fw_size img <? u32 (position + blksz)
                         then fw_size img - position else blksz in
            let ctx := hash_update ctx (mread m p blksz) in
            let position := u32 (position + blksz) in
            if position <? fw_size img then Ok (inl (position, ctx)) else Ok (inr ctx)
        end) (0, ctx) in
      Ok (Some (hash_final ctx))
  end.

Definition wolfBoot_verify_integrity (m : mem) (img : wolfBoot_image)
    : outcome (Z * wolfBoot_image) :=
  let img := set_sha_ok 0 (set_sha_hash None img) in
  let! (stored_sha_len, stored_sha) := get_header m img HDR_SHA256 in
  if negb (stored_sha_len =? WOLFBOOT_SHA_DIGEST_SIZE) then Ok (-1, img) else
  let! digest := image_sha256 m img in
  match digest with
  | None => Ok (-1, img)
  | Some digest =>
      let! cmp := image_CT_compare digest
        (mread m (default 0 stored_sha) WOLFBOOT_SHA_DIGEST_SIZE) WOLFBOOT_SHA_DIGEST_SIZE in
      let img := if cmp =? 0 then set_sha_ok 1 (set_sha_hash stored_sha img) else img in
      if negb (sha_ok img =? 1) then Ok (-1, img) else Ok (0, img)
  end.

(** Digest of a public key: all zeroes when the slot is unusable. *)
Definition key_sha256 (key_slot : Z) : list Z :=
  match keystore_get_buffer key_slot with
  | None => replicate 32 0
  | Some pubkey =>
      if keystore_get_size key_slot <? 0 then replicate 32 0
      else hash_final (hash_update hash_init
             (take (Z.to_nat (keystore_get_size key_slot)) pubkey))
  end.

Definition keyslot_CT_hint_matches (expected actual : list Z) : outcome bool :=
  loop (S (Z.to_nat WOLFBOOT_SHA_DIGEST_SIZE)) (fun '(i, diff) =>
    if negb (i <? WOLFBOOT_SHA_DIGEST_SIZE) then Ok (inr (diff =? 0)) else
    let! e := rd expected i in
    let! a := rd actual i in
    Ok (inl (i + 1, Z.lor diff (Z.lxor e a)))) (0, 0).

(** A keystore has fewer than 256 slots: [key_hash] takes the slot as a byte. *)
Definition keyslot_id_by_sha (hint : list Z) : outcome Z :=
  loop (S (Z.to_nat keystore_num_pubkeys)) (fun '(id, match_id) =>
    if negb (id <? keystore_num_pubkeys) then Ok (inr match_id) else
    let digest := key_sha256 id in
    let! mtch := keyslot_CT_hint_matches digest hint in
    Ok (inl (id + 1, if mtch && (match_id <? 0) then id else match_id))) (0, -1).

Definition wolfBoot_verify_signature_ed25519 (m : mem) (key_slot : Z)
    (img : wolfBoot_image) (sig : Z) : wolfBoot_image :=
  if wc_ed25519_init_ex <? 0 then img else
  if wc_ed25519_import_public (keystore_get_buffer key_slot) <? 0 then img else
  let '(ret, res) := wc_ed25519_verify_msg
    (mread m sig ED25519_IMAGE_SIGNATURE_SIZE)
    (mread m (default 0 (sha_hash img)) WOLFBOOT_SHA_DIGEST_SIZE)
    (keystore_get_buffer key_slot) in
  if (ret =? 0) && (res =? 1) then set_signature_ok 1 img else img.

(** 0 when authentic, negative otherwise; [Stop HPanic] when a hardened
    re-check fails. *)
Definition wolfBoot_verify_authenticity (m : mem) (img : wolfBoot_image)
    : prog (Z * wolfBoot_image) :=
  let* (stored_signature_size, stored_signature) := lift (get_header m img HDR_SIGNATURE) in
  let* (pubkey_hint_size, pubkey_hint) := lift (get_header m img HDR_PUBKEY) in
  if negb (pubkey_hint_size =? WOLFBOOT_SHA_DIGEST_SIZE) then Ret (-1, img) else
  let* key_slot := lift (keyslot_id_by_sha
    (mread m (default 0 pubkey_hint) WOLFBOOT_SHA_DIGEST_SIZE)) in
  if key_slot <? 0 then Ret (-1, img) else
  let* (image_type_size, image_type_buf) := lift (get_header m img HDR_IMG_TYPE) in
  if negb (image_type_size =? 2) then Ret (-1, img) else
  let image_type := u16 (mle16 m (default 0 image_type_buf)) in
  if negb (Z.land image_type HDR_IMG_TYPE_AUTH_MASK =? HDR_IMG_TYPE_AUTH)
  then Ret (-1, img) else
  let* (integrity, img) :=
    (match sha_hash img with
     | Some _ => if sha_ok img =? 1 then Ret (0, img)
                 else lift (wolfBoot_verify_integrity m img)
     | None => lift (wolfBoot_verify_integrity m img)
     end) in
  if negb (integrity =? 0) then Ret (-1, img) else
  if negb (sha_ok img =? 1) then Stop HPanic else
  let image_part := Z.land image_type HDR_IMG_TYPE_PART_MASK in
  let key_mask := keystore_get_mask key_slot in
  if negb (Z.land (Z.shiftl 1 image_part) key_mask =? Z.shiftl 1 image_part)
  then Ret (-1, img) else
  if negb (Z.land key_mask (Z.shiftl 1 image_part) =? Z.shiftl 1 image_part)
  then Stop HPanic else
  match stored_signature with
  | None => Ret (-1, img)
  | Some sig =>
      if stored_signature_size =? 0 then Ret (-1, img) else
      if negb (stored_signature_size =? ED25519_IMAGE_SIGNATURE_SIZE) then Ret (-1, img) else
      let img := wolfBoot_verify_signature_ed25519 m key_slot img sig in
      if signature_ok img =? 1 then Ret (0, img) else Ret (-2, img)
  end.

End Verify.

(** ** The header as a sequence of fields *)

Section HeaderSpec.
Context {c : config}.

(** Tag and length words at [p]. *)
Definition tag_at (m : mem) (p : Z) : Z := u16 (Z.lor (m p) (Z.shiftl (m (p + 1)) 8)).
Definition len_at (m : mem) (p : Z) : Z := u16 (Z.lor (m (p + 2)) (Z.shiftl (m (p + 3)) 8)).

(** [p] is a padding byte, or an odd position, before the end of options. *)
Definition is_pad (m : mem) (max p : Z) : Prop :=
  p + 4 <= max /\ tag_at m p <> 0 /\ (m p = HDR_PADDING \/ Z.land p 1 <> 0).

(** A complete field starts at [p]. *)
Definition is_field (m : mem) (max p : Z) : Prop :=
  p + 4 <= max /\ tag_at m p <> 0 /\ m p <> HDR_PADDING /\ Z.land p 1 = 0 /\
  4 + len_at m p <= u16 (IMAGE_HEADER_SIZE - IMAGE_HEADER_OFFSET) /\
  p + 4 + len_at m p <= max.

(** [q] is reached from [p] over padding and fields whose tag is not [t]. *)
Inductive reach (m : mem) (max t : Z) : Z -> Z -> Prop :=
| reach_refl p : reach m max t p p
| reach_pad p q : is_pad m max p -> reach m max t (p + 1) q -> reach m max t p q
| reach_field p q : is_field m max p -> tag_at m p <> t ->
    reach m max t (p + (4 + len_at m p)) q -> reach m max t p q.

Lemma find_header_step_cases m t max p :
  (is_field m max p /\ tag_at m p = t /\
     find_header_step m t max p = Ok (inr (len_at m p, Some (p + 4)))) \/
  (is_field m max p /\ tag_at m p <> t /\
     find_header_step m t max p = Ok (inl (p + (4 + len_at m p)))) \/
  (is_pad m max p /\ ~ is_field m max p /\ find_header_step m t max p = Ok (inl (p + 1))) \/
  (~ is_field m max p /\ ~ is_pad m max p /\ find_header_step m t max p = Ok (inr (0, None))).
Proof.
  unfold find_header_step. fold (tag_at m p). fold (len_at m p).
  pose proof (u16_range (Z.lor (m (p + 2)) (Z.shiftl (m (p + 3)) 8))) as Hl. fold (len_at m p) in Hl.
  unfold is_field, is_pad.
  case_if; [right; right; right; split_and!; [lia..|done]|].
  case_if; [right; right; right; split_and!; [lia..|done]|].
  case_if; [right; right; right; split_and!; [lia..|done]|].
  case_if.
  { right; right; left. apply orb_true_iff in E2 as [E2|E2]; bools; split_and!; try done; lia. }
  case_if; [right; right; right; split_and!; [lia..|done]|].
  case_if; [right; right; right; split_and!; [lia..|done]|].
  case_if; [left|right; left]; split_and!; try done; lia.
Qed.

(** The loop leaves with the first field of the wanted tag. *)
Lemma find_header_loop_sound m t max fuel p len a :
  loop fuel (find_header_step m t max) p = Ok (len, Some a) ->
  exists q, reach m max t p q /\ is_field m max q /\ tag_at m q = t /\
    len = len_at m q /\ a = q + 4.
Proof.
  revert p. induction fuel as [|fuel IH]; intros p Hr; [done|]. simpl in Hr.
  destruct (find_header_step_cases m t max p) as
    [(H1 & H2 & E)|[(H1 & H2 & E)|[(H1 & _ & E)|(H1 & H2 & E)]]]; rewrite E in Hr.
  - injection Hr as <- <-. exists p. eauto using reach.
  - apply IH in Hr as (q & Hq & ?). exists q. eauto using reach.
  - apply IH in Hr as (q & Hq & ?). exists q. eauto using reach.
  - done.
Qed.

Lemma find_header_loop_complete m t max p q :
  reach m max t p q -> is_field m max q -> tag_at m q = t ->
  forall fuel, max - p < Z.of_nat fuel ->
  loop fuel (find_header_step m t max) p = Ok (len_at m q, Some (q + 4)).
Proof.
  intros Hr Hq Ht. induction Hr as [p|p q Hp Hr IH|p q Hp Hne Hr IH]; intros fuel Hf.
  - destruct fuel as [|fuel]; [unfold is_field in Hq; lia|]. simpl.
    destruct (find_header_step_cases m t max p) as
      [(H1 & H2 & ->)|[(H1 & H2 & E)|[(H1 & H2 & E)|(H1 & H2 & E)]]]; done.
  - destruct fuel as [|fuel]; [unfold is_pad in Hp; lia|]. simpl.
    destruct (find_header_step_cases m t max p) as
      [(H1 & H2 & E)|[(H1 & H2 & E)|[(H1 & H2 & ->)|(H1 & H2 & E)]]]; try done.
    1-2: unfold is_pad, is_field in *; intuition congruence.
    apply IH; [done..|lia].
  - destruct fuel as [|fuel]; [unfold is_field in Hp; lia|]. simpl.
    destruct (find_header_step_cases m t max p) as
      [(H1 & H2 & E)|[(H1 & H2 & ->)|[(H1 & H2 & E)|(H1 & H2 & E)]]]; try done.
    apply IH; [done..|]. unfold is_field in Hp.
    pose proof (u16_range (Z.lor (m (p + 2)) (Z.shiftl (m (p + 3)) 8))) as Hl.
    fold (len_at m p) in Hl. lia.
Qed.

Lemma find_header_loop_total m t max fuel p :
  max - p < Z.of_nat fuel -> (0 < fuel)%nat ->
  exists r, loop fuel (find_header_step m t max) p = Ok r.
Proof.
  intros Hf Hf0. destruct (wp_inv (loop fuel (find_header_step m t max) p) (fun _ => True)) as (r & Hr & _); [|eauto].
  eapply (wp_loop (fun _ => True) (fun q => Z.to_nat (max - q))); [|done|lia].
  intros q _. pose proof (u16_range (Z.lor (m (q + 2)) (Z.shiftl (m (q + 3)) 8))) as Hl.
  fold (len_at m q) in Hl.
  destruct (find_header_step_cases m t max q) as
    [(H1 & H2 & ->)|[(H1 & H2 & ->)|[(H1 & H2 & ->)|(H1 & H2 & ->)]]]; simpl; auto.
  - unfold is_field in H1. split; [done|lia].
  - unfold is_pad in H1. split; [done|lia].
Qed.

(** ** Results about the search *)

(** The end of the header that starts [IMAGE_HEADER_OFFSET] below [haystack]. *)
Definition header_end (haystack : Z) : Z := haystack - IMAGE_HEADER_OFFSET + IMAGE_HEADER_SIZE.

(** Addresses for which the search is not refused at once. *)
Definition haystack_ok (haystack : Z) : Prop :=
  IMAGE_HEADER_OFFSET <= haystack /\
  haystack - IMAGE_HEADER_OFFSET <= UINTPTR_MAX - IMAGE_HEADER_SIZE /\
  haystack <= header_end haystack.

Lemma find_header_enter m h t :
  haystack_ok h ->
  wolfBoot_find_header m h t =
  loop (S (Z.to_nat IMAGE_HEADER_SIZE)) (find_header_step m t (header_end h)) h.
Proof.
  unfold haystack_ok, wolfBoot_find_header, header_end, IMAGE_HEADER_OFFSET. intros.
  repeat (case_if; try lia). done.
Qed.

Lemma header_end_fuel h :
  haystack_ok h -> header_end h - h < Z.of_nat (S (Z.to_nat IMAGE_HEADER_SIZE)).
Proof. unfold haystack_ok, header_end, IMAGE_HEADER_OFFSET. lia. Qed.

Lemma find_header_ok m h t : exists r, wolfBoot_find_header m h t = Ok r.
Proof.
  unfold wolfBoot_find_header. repeat (case_if; [eauto|]).
  apply find_header_loop_total; [|lia]. unfold IMAGE_HEADER_OFFSET in *. lia.
Qed.

Lemma find_header_found m h t len a :
  haystack_ok h ->
  wolfBoot_find_header m h t = Ok (len, Some a) <->
  exists q, reach m (header_end h) t h q /\ is_field m (header_end h) q /\
    tag_at m q = t /\ len = len_at m q /\ a = q + 4.
Proof.
  intros Hh. rewrite find_header_enter by done. split.
  - apply find_header_loop_sound.
  - intros (q & Hr & Hf & Ht & -> & ->). apply find_header_loop_complete; [done..|].
    by apply header_end_fuel.
Qed.

Lemma reach_ge m max t p q : reach m max t p q -> p <= q.
Proof.
  induction 1 as [p|p q Hp Hr IH|p q Hp Hne Hr IH]; [lia..|].
  pose proof (u16_range (Z.lor (m (p + 2)) (Z.shiftl (m (p + 3)) 8))) as Hl.
  fold (len_at m p) in Hl. lia.
Qed.

(** The search reads only the header: memories that agree on it give the same
    answer. *)
Lemma find_header_step_local m1 m2 t max lo p :
  (forall a, lo <= a < max -> m1 a = m2 a) -> lo <= p ->
  find_header_step m1 t max p = find_header_step m2 t max p.
Proof.
  intros Hm Hp. unfold find_header_step. case_if; [done|]. case_if; [done|].
  rewrite (Hm p), (Hm (p + 1)), (Hm (p + 2)), (Hm (p + 3)) by lia. done.
Qed.

Lemma find_header_local m1 m2 h t :
  haystack_ok h -> (forall a, h <= a < header_end h -> m1 a = m2 a) ->
  wolfBoot_find_header m1 h t = wolfBoot_find_header m2 h t.
Proof.
  intros Hh Hm. rewrite !find_header_enter by done.
  enough (forall fuel p, h <= p -> loop fuel (find_header_step m1 t (header_end h)) p =
    loop fuel (find_header_step m2 t (header_end h)) p) as Hl by (apply Hl; lia).
  induction fuel as [|fuel IH]; intros p Hp; [done|]. simpl.
  rewrite (find_header_step_local m1 m2 t _ h p) by done.
  destruct (find_header_step_cases m2 t (header_end h) p) as
    [(H1 & H2 & ->)|[(H1 & H2 & ->)|[(H1 & H2 & ->)|(H1 & H2 & ->)]]]; try done.
  - apply IH. pose proof (u16_range (Z.lor (m2 (p + 2)) (Z.shiftl (m2 (p + 3)) 8))) as Hl.
    fold (len_at m2 p) in Hl. lia.
  - apply IH. lia.
Qed.

End HeaderSpec.

(** ** Concrete parameters *)

Module ExampleApi.

(** A toy hash: the first 32 bytes of the message, padded with zeroes. *)
#[export] Instance toy_hash : hash_api := {|
  hctx := list Z;
  hash_init := [];
  hash_update := fun k a => k ++ a;
  hash_final := fun k => u8 <$> take 32 (k ++ replicate 32 0);
|}.

#[export] Instance toy_hash_laws : hash_laws toy_hash.
Proof.
  constructor.
  - intros k. apply app_nil_r.
  - intros k a b. symmetry. apply app_assoc.
  - intros k. change (hash_final k) with (u8 <$> take 32 (k ++ replicate 32 0)). unfold zlen.
    rewrite length_fmap, length_take, length_app, length_replicate.
    unfold WOLFBOOT_SHA_DIGEST_SIZE. lia.
Qed.

Lemma toy_hash_bytes (k : hctx) : bytes (hash_final k).
Proof. apply Forall_fmap, Forall_true. intros x. apply u8_range. Qed.

(** One key, [key], allowed for every partition. *)
Definition key : list Z := seqZ 1 32.
#[export] Instance toy_keystore : keystore_api := {|
  keystore_num_pubkeys := 1;
  keystore_get_buffer := fun id => if id =? 0 then Some key else None;
  keystore_get_size := fun id => if id =? 0 then 32 else -1;
  keystore_get_mask := fun _ => 0xFFFFFFFF;
|}.

(** A signature is valid when it starts with the digest. *)
#[export] Instance toy_verify : verify_api := {|
  wc_ed25519_init_ex := 0;
  wc_ed25519_import_public := fun k => match k with Some _ => 0 | None => -1 end;
  wc_ed25519_verify_msg := fun sig msg _ =>
    if bool_decide (take 32 sig = msg) then (0, 1) else (-1, 0);
|}.

End ExampleApi.
