(* ===== verification/ImageSpec.v ===== *)
(** * ImageSpec: what image verification establishes

    The digest computed by [image_sha256] is the hash of the header prefix and
    the firmware; [wolfBoot_verify_integrity] accepts exactly the images whose
    stored digest is that one; [wolfBoot_verify_authenticity] accepts only
    images signed by a key of the keystore that may sign for the partition.
    Both constant-time comparisons decide equality. *)

From Stdlib Require Import ZArith Lia.
From stdpp Require Import prelude.
From S2P Require Import Prelude Flash Trailer Image.

Local Open Scope Z_scope.

(** ** Memory ranges *)

Lemma mread_app m a n1 n2 :
  0 <= n1 -> 0 <= n2 -> mread m a (n1 + n2) = mread m a n1 ++ mread m (a + n1) n2.
Proof.
  intros H1 H2. unfold mread. by rewrite <- fmap_app, <- seqZ_app by lia.
Qed.

Lemma mread_nil m a : mread m a 0 = [].
Proof. done. Qed.

(** ** Constant-time comparison *)

(** The accumulated difference of two buffers up to [i] is zero exactly when
    they agree up to [i]. *)
Lemma diff_zero diff e a : 0 <= diff -> 0 <= e -> 0 <= a ->
  Z.lor diff (Z.lxor e a) = 0 <-> diff = 0 /\ e = a.
Proof.
  intros. rewrite Z.lor_eq_0_iff, Z.lxor_eq_0_iff. done.
Qed.

Lemma CT_compare_spec expected actual len :
  bytes expected -> bytes actual -> 0 <= len <= zlen expected -> len <= zlen actual ->
  image_CT_compare expected actual len =
  Ok (if bool_decide (slice expected 0 len = slice actual 0 len) then 0 else 1).
Proof.
  intros He Ha Hl Hl2.
  assert (wp (image_CT_compare expected actual len) (fun r =>
    r = if bool_decide (slice expected 0 len = slice actual 0 len) then 0 else 1)) as Hw.
  { unfold image_CT_compare.
    apply (wp_loop (fun '(i, diff) => 0 <= i <= len /\ 0 <= diff /\
        (diff = 0 <-> forall j, 0 <= j < i -> at_ expected j = at_ actual j))
      (fun '(i, _) => Z.to_nat (len - i))); [|split_and!; try lia; split; intros; lia|simpl; lia].
    intros [i diff] (Hi & Hd & Hiff). case_if; simpl.
    - assert (i = len) as -> by lia. case_bool_decide as Heq.
      + enough (diff = 0) as -> by done. apply Hiff. intros j Hj.
        apply (f_equal (fun l => at_ l j)) in Heq. rewrite !at_slice in Heq by lia. done.
      + destruct (Z.eqb_spec diff 0) as [E0|E0]; [|done]. exfalso. apply Heq.
        apply buf_ext; rewrite !slice_length by lia; [done|]. intros j Hj.
        rewrite !at_slice by lia. by apply Hiff.
    - rewrite !rd_ok by lia. simpl.
      pose proof (at_byte expected i He ltac:(lia)) as Hb1.
      pose proof (at_byte actual i Ha ltac:(lia)) as Hb2. unfold is_byte in *.
      split; [|lia]. split; [lia|]. split.
      { apply Z.lor_nonneg. split; [done|]. apply Z.lxor_nonneg. lia. }
      rewrite diff_zero by lia. rewrite Hiff. split.
      + intros [Hj Hi2] j Hjr. destruct (Z.eq_dec j i) as [->|]; [done|]. apply Hj. lia.
      + intros Hj. split; [intros; apply Hj; lia|apply Hj; lia]. }
  apply wp_inv in Hw as (r & Hr & ->). exact Hr.
Qed.

(** On buffers of the compared length: 0 exactly when they are equal. *)
Lemma CT_compare_eq expected actual :
  bytes expected -> bytes actual -> zlen expected = zlen actual ->
  image_CT_compare expected actual (zlen actual) =
  Ok (if bool_decide (expected = actual) then 0 else 1).
Proof.
  intros He Ha Hl. rewrite CT_compare_spec by (try done; wblia).
  pose proof (slice_full expected) as E. rewrite Hl in E. by rewrite E, slice_full.
Qed.

(** The armored comparison. *)

Lemma lor_zero_r a b : Z.lor a b = 0 <-> a = 0 /\ b = 0.
Proof. apply Z.lor_eq_0_iff. Qed.

(** The flag that the length is zero, on 32-bit lengths. *)
Lemma len_is_zero_spec len :
  0 < len < 2 ^ 31 -> Z.lxor 1 (Z.shiftr (Z.lor len (u32 (0 - len))) 31) = 0.
Proof.
  intros Hl. assert (u32 (0 - len) = 2 ^ 32 - len) as ->.
  { unfold u32. rewrite <- (Z.mod_small (2 ^ 32 - len) (2 ^ 32)) by lia.
    replace (2 ^ 32 - len) with (0 - len + 1 * 2 ^ 32) by lia. by rewrite Z.mod_add. }
  apply Z.lxor_eq_0_iff. rewrite Z.shiftr_lor.
  rewrite !Z.shiftr_div_pow2 by lia. rewrite (Z.div_small len) by lia.
  rewrite Z.lor_0_l. apply (Z.div_unique _ _ 1 (2 ^ 31 - len)); lia.
Qed.

Lemma lor_step_range diff e a :
  0 <= diff < 2 ^ 32 -> 0 <= e < 256 -> 0 <= a < 256 -> 0 <= Z.lor diff (Z.lxor e a) < 2 ^ 32.
Proof.
  intros. apply lor_range; [lia..|]. pose proof (lxor_range e a 8). lia.
Qed.

(** The sum of the first [i] indices, counted from one, as the code keeps it. *)
Definition triangle (i : Z) : Z := i * (i + 1) / 2.

Lemma triangle_step i : 0 <= i -> triangle (i + 1) = triangle i + (i + 1).
Proof.
  intros. unfold triangle. replace ((i + 1) * (i + 1 + 1)) with (i * (i + 1) + (i + 1) * 2) by lia.
  rewrite Z.div_add by lia. lia.
Qed.

Lemma triangle_bound i : 0 <= i < 65536 -> 0 <= triangle i < 2 ^ 31.
Proof.
  intros. unfold triangle. split; [apply Z.div_pos; nia|]. apply Z.div_lt_upper_bound; nia.
Qed.

Lemma sentinel_diff d : 0 <= d < 256 -> Z.lxor (Z.lor CT_SENTINEL d) CT_SENTINEL = d.
Proof.
  intros Hd. pose proof (byte_nibble_ind (fun d _ =>
    Z.lxor (Z.lor CT_SENTINEL d) CT_SENTINEL =? d) ltac:(vm_compute; reflexivity) d 0 Hd ltac:(lia)).
  by apply Z.eqb_eq.
Qed.

Lemma CT_armored_spec expected actual len :
  bytes expected -> bytes actual -> 0 < len < 65536 -> len <= zlen expected -> len <= zlen actual ->
  wp (image_CT_compare_armored expected actual len) (fun r =>
    0 <= r /\ (r = 0 <-> slice expected 0 len = slice actual 0 len)).
Proof.
  intros He Ha Hl Hl1 Hl2. unfold image_CT_compare_armored.
  apply (wp_loop (fun '(i, diff, witness, count, budget) => 0 <= i <= len /\
      (exists d, 0 <= d < 256 /\ diff = Z.lor CT_SENTINEL d /\
         (d = 0 <-> forall j, 0 <= j < i -> at_ expected j = at_ actual j)) /\
      witness = triangle i /\ count = i /\ budget = len - i)
    (fun '(i, _, _, _, _) => Z.to_nat (len - i))).
  - intros [[[[i diff] witness] count] budget] (Hi & (d & Hd & -> & Hiff) & -> & -> & ->).
    case_if.
    + rewrite !rd_ok by lia. simpl.
      pose proof (at_byte expected i He ltac:(lia)) as Hb1.
      pose proof (at_byte actual i Ha ltac:(lia)) as Hb2. unfold is_byte in *.
      pose proof (lxor_range (at_ expected i) (at_ actual i) 8 ltac:(lia) Hb1 Hb2) as Hx.
      rewrite !(u32_small (i + 1)) by lia. pose proof (triangle_bound i ltac:(lia)).
      rewrite (u32_small (triangle i + (i + 1))), (u32_small (len - i - 1)) by lia.
      split; [|lia]. split; [lia|]. split.
      * exists (Z.lor d (Z.lxor (at_ expected i) (at_ actual i))).
        split; [apply (lor_range _ _ 8); lia|]. split; [by rewrite Z.lor_assoc|].
        rewrite diff_zero, Hiff by lia. split.
        -- intros [Hj Hi2] j Hjr. destruct (Z.eq_dec j i) as [->|]; [done|]. apply Hj. lia.
        -- intros Hj. split; [intros; apply Hj; lia|apply Hj; lia].
      * split; [by rewrite triangle_step by lia|]. lia.
    + assert (i = len) as ->.
      { apply andb_false_iff in E as [E|E]; bools; lia. }
      rewrite len_is_zero_spec by lia. rewrite (u32_small (len + 1)), (u32_small (len * _)) by nia.
      fold (triangle len). rewrite sentinel_diff by done. rewrite !Z.lxor_nilpotent, !Z.lor_0_r.
      rewrite Z.lor_diag. simpl. unfold i32. rewrite Z.mod_small by lia.
      rewrite (proj2 (Z.ltb_lt _ _)) by lia. split; [lia|]. rewrite Hiff. split.
      * intros Hj. apply buf_ext; rewrite !slice_length by lia; [done|]. intros j Hjr.
        rewrite !at_slice by lia. by apply Hj.
      * intros Heq j Hj. apply (f_equal (fun l => at_ l j)) in Heq.
        rewrite !at_slice in Heq by lia. done.
  - split; [lia|]. split; [|by rewrite Z.sub_0_r]. exists 0. split; [lia|]. split; [by rewrite Z.lor_0_r|].
    split; intros; [lia|done].
  - simpl. lia.
Qed.

(** ** The digest of an image *)

Section Verify.
Context {c : config} {H : hash_api} {HL : hash_laws H} {K : keystore_api} {V : verify_api}.

(** A header field: its length and the address of its value. *)
Definition field (m : mem) (base type len a : Z) : Prop :=
  wolfBoot_find_header m (base + IMAGE_HEADER_OFFSET) type = Ok (len, Some a).

(** Where an image may start: its header is inside the address space. *)
Definition base_ok (base : Z) : Prop :=
  0 <= base /\ base <= UINTPTR_MAX - IMAGE_HEADER_SIZE /\ IMAGE_HEADER_OFFSET <= IMAGE_HEADER_SIZE.

Lemma base_haystack base : base_ok base -> haystack_ok (base + IMAGE_HEADER_OFFSET).
Proof. unfold base_ok, haystack_ok, header_end, IMAGE_HEADER_OFFSET. lia. Qed.

(** A search that finds nothing reports length 0. *)
Lemma find_header_none m h t len : wolfBoot_find_header m h t = Ok (len, None) -> len = 0.
Proof.
  unfold wolfBoot_find_header. repeat (case_if; [by intros [= <-]|]).
  generalize (S (Z.to_nat IMAGE_HEADER_SIZE)) as fuel. intros fuel.
  set (max := h - _ + _). clearbody max. clear. revert h.
  induction fuel as [|fuel IH]; intros h Hr; [done|]. simpl in Hr.
  destruct (find_header_step_cases m t max h) as
    [(_ & _ & E)|[(_ & _ & E)|[(_ & _ & E)|(_ & _ & E)]]]; rewrite E in Hr; cbn in Hr;
    [discriminate|by eapply IH|by eapply IH|by injection Hr as <-].
Qed.

(** Fields lie inside the header. *)
Lemma field_bounds m base t len a :
  base_ok base -> field m base t len a ->
  base + IMAGE_HEADER_OFFSET + 4 <= a /\ 0 <= len /\ a + len <= base + IMAGE_HEADER_SIZE.
Proof.
  intros Hb Hf. apply find_header_found in Hf as (q & Hr & Hq & _ & -> & ->); [|by apply base_haystack].
  apply reach_ge in Hr. destruct Hq as (_ & _ & _ & _ & _ & Hm). unfold header_end in Hm.
  pose proof (u16_range (Z.lor (m (q + 2)) (Z.shiftl (m (q + 3)) 8))) as Hl.
  fold (len_at m q) in Hl. unfold IMAGE_HEADER_OFFSET in *. lia.
Qed.

(** The digest of the image whose header is at [base]: the header up to the
    digest field, then [size] bytes of firmware, at [fw]. *)
Definition image_digest_at (m : mem) (base fw size sha_a : Z) : list Z :=
  hash_final (hash_update hash_init (mread m base (sha_a - 4 - base) ++ mread m fw size)).

(** The firmware follows the header. *)
Definition image_digest (m : mem) (base size sha_a : Z) : list Z :=
  image_digest_at m base (base + IMAGE_HEADER_SIZE) size sha_a.

Lemma header_sha256_spec m img a :
  base_ok (hdr img) -> field m (hdr img) HDR_SHA256 WOLFBOOT_SHA_DIGEST_SIZE a ->
  header_sha256 m img = Ok (Some (hash_update hash_init (mread m (hdr img) (a - 4 - hdr img)))).
Proof.
  intros Hb Hf. pose proof (field_bounds _ _ _ _ _ Hb Hf) as Hbd. unfold IMAGE_HEADER_OFFSET in Hbd.
  unfold header_sha256, get_header. unfold field in Hf. rewrite Hf. cbn [obind]. simpl negb. cbv iota.
  change (default 0 (Some a)) with a.
  match goal with |- ?L = Ok ?r => assert (wp L (fun x => x = r)) as Hw end.
  { apply (wp_loop (fun '(p, ctx) => hdr img <= p <= a - 4 /\
        ctx = hash_update hash_init (mread m (hdr img) (p - hdr img)))
      (fun '(p, _) => Z.to_nat (a - 4 - p))).
    - intros [p ctx] [Hp ->]. case_if; simpl; [by replace p with (a - 4) by lia|].
      unfold WOLFBOOT_SHA_BLOCK_SIZE.
      set (blk := if a - 4 - p <? 256 then a - 4 - p else 256).
      assert (0 < blk <= a - 4 - p) as Hblk by (unfold blk; case_if; lia).
      split; [|lia]. split; [lia|]. rewrite hash_update_app. f_equal.
      replace (p + blk - hdr img) with (p - hdr img + blk) by lia.
      rewrite mread_app by lia. by replace (hdr img + (p - hdr img)) with p by lia.
    - split; [lia|]. by rewrite Z.sub_diag, mread_nil, hash_update_nil.
    - lia. }
  apply wp_inv in Hw as (x & -> & ->). done.
Qed.

Lemma image_sha256_spec m img a :
  base_ok (hdr img) -> 0 <= fw_size img < 2 ^ 31 ->
  field m (hdr img) HDR_SHA256 WOLFBOOT_SHA_DIGEST_SIZE a ->
  image_sha256 m img = Ok (Some (image_digest_at m (hdr img) (fw_base img) (fw_size img) a)).
Proof.
  intros Hb Hsz Hf. unfold image_sha256. rewrite (header_sha256_spec m img a) by done.
  cbn [obind]. set (ctx0 := hash_update hash_init _).
  match goal with |- obind ?L _ = _ =>
    assert (wp L (fun x => x = hash_update ctx0 (mread m (fw_base img) (fw_size img)))) as Hw end.
  { apply (wp_loop (fun '(pos, ctx) => 0 <= pos <= fw_size img /\
        (pos < fw_size img \/ pos = 0) /\ ctx = hash_update ctx0 (mread m (fw_base img) pos))
      (fun '(pos, _) => S (Z.to_nat (fw_size img - pos)))).
    - intros [pos ctx] (Hp & Hp2 & ->). unfold get_sha_block.
      rewrite (proj2 (Z.ltb_ge _ _)) by lia. unfold WOLFBOOT_SHA_BLOCK_SIZE. cbv zeta.
      rewrite (u32_small (pos + 256)) by lia.
      set (blk := if fw_size img <? pos + 256 then fw_size img - pos else 256).
      assert (0 <= blk <= fw_size img - pos /\ (blk = 0 -> pos = fw_size img)) as [Hblk Hblk0]
        by (unfold blk; case_if; lia).
      rewrite (u32_small (pos + blk)) by lia.
      rewrite hash_update_app, <- mread_app by lia.
      case_if; simpl; [split; [|lia]; split; [lia|]; split; [lia|done]|].
      by replace (pos + blk) with (fw_size img) by lia.
    - split; [lia|]. split; [lia|]. by rewrite mread_nil, hash_update_nil.
    - lia. }
  apply wp_inv in Hw as (x & -> & ->). simpl. unfold image_digest_at, ctx0.
  by rewrite hash_update_app.
Qed.

(** ** Integrity *)

Context (HB : forall k, bytes (hash_final k)).

(** The image after a successful or a failed check. *)
Definition integrity_ok (a : Z) (img : wolfBoot_image) : wolfBoot_image :=
  set_sha_ok 1 (set_sha_hash (Some a) (set_sha_ok 0 (set_sha_hash None img))).
Definition integrity_bad (img : wolfBoot_image) : wolfBoot_image :=
  set_sha_ok 0 (set_sha_hash None img).

Lemma verify_integrity_found m img a :
  mem_ok m -> base_ok (hdr img) ->
  0 <= fw_size img < 2 ^ 31 -> field m (hdr img) HDR_SHA256 WOLFBOOT_SHA_DIGEST_SIZE a ->
  wolfBoot_verify_integrity m img =
  Ok (if bool_decide (image_digest_at m (hdr img) (fw_base img) (fw_size img) a = mread m a WOLFBOOT_SHA_DIGEST_SIZE)
      then (0, integrity_ok a img) else (-1, integrity_bad img)).
Proof.
  intros Hok Hb Hsz Hf. unfold wolfBoot_verify_integrity.
  rewrite (image_sha256_spec m _ a) by done. unfold get_header, field in *. simpl hdr. rewrite Hf.
  cbn [obind]. simpl negb. cbv iota. change (default 0 (Some a)) with a.
  change (hdr (set_sha_ok 0 (set_sha_hash None img))) with (hdr img).
  change (fw_size (set_sha_ok 0 (set_sha_hash None img))) with (fw_size img).
  change (fw_base (set_sha_ok 0 (set_sha_hash None img))) with (fw_base img).
  set (dg := image_digest_at _ _ _ _ _).
  assert (zlen (mread m a WOLFBOOT_SHA_DIGEST_SIZE) = WOLFBOOT_SHA_DIGEST_SIZE) as Hl
    by (by apply mread_length).
  pose proof (CT_compare_eq dg (mread m a WOLFBOOT_SHA_DIGEST_SIZE)) as Hc. rewrite Hl in Hc.
  rewrite Hc; [|apply HB|by apply mread_bytes|apply hash_final_len]. cbn [obind].
  case_bool_decide; done.
Qed.

Lemma verify_integrity_missing m img :
  (forall a, ~ field m (hdr img) HDR_SHA256 WOLFBOOT_SHA_DIGEST_SIZE a) ->
  wolfBoot_verify_integrity m img = Ok (-1, integrity_bad img).
Proof.
  intros Hno. unfold wolfBoot_verify_integrity, get_header. simpl hdr.
  destruct (find_header_ok m (hdr img + IMAGE_HEADER_OFFSET) HDR_SHA256) as [[len p] E].
  rewrite E. cbn [obind]. destruct (Z.eqb_spec len WOLFBOOT_SHA_DIGEST_SIZE) as [->|]; [|done].
  destruct p as [a|]; [by destruct (Hno a)|]. apply find_header_none in E. done.
Qed.

(** ** Key lookup *)

Lemma key_sha256_ok id : bytes (key_sha256 id) /\ zlen (key_sha256 id) = WOLFBOOT_SHA_DIGEST_SIZE.
Proof.
  assert (bytes (replicate 32 0)) as Hz by (apply Forall_replicate; unfold is_byte; lia).
  unfold key_sha256. destruct (keystore_get_buffer id); [case_if|]; try done.
  split; [apply HB|apply hash_final_len].
Qed.

(** The hint comparison decides equality of digests. *)
Lemma hint_matches_spec e a :
  bytes e -> bytes a -> zlen e = WOLFBOOT_SHA_DIGEST_SIZE -> zlen a = WOLFBOOT_SHA_DIGEST_SIZE ->
  keyslot_CT_hint_matches e a = Ok (bool_decide (e = a)).
Proof.
  intros He Ha Hl1 Hl2.
  assert (wp (keyslot_CT_hint_matches e a) (fun r => r = bool_decide (e = a))) as Hw.
  { unfold keyslot_CT_hint_matches.
    apply (wp_loop (fun '(i, diff) => 0 <= i <= WOLFBOOT_SHA_DIGEST_SIZE /\ 0 <= diff /\
        (diff = 0 <-> forall j, 0 <= j < i -> at_ e j = at_ a j))
      (fun '(i, _) => Z.to_nat (WOLFBOOT_SHA_DIGEST_SIZE - i)));
      [|unfold WOLFBOOT_SHA_DIGEST_SIZE; split_and!; try lia; split; intros; lia|simpl; lia].
    intros [i diff] (Hi & Hd & Hiff). case_if; simpl.
    - assert (i = WOLFBOOT_SHA_DIGEST_SIZE) as -> by lia. case_bool_decide as Heq.
      + apply Z.eqb_eq, Hiff. by subst.
      + apply Z.eqb_neq. intros E0. apply Heq. apply buf_ext; [lia|]. intros j Hj.
        apply Hiff; [done|lia].
    - rewrite !rd_ok by lia. simpl.
      pose proof (at_byte e i He ltac:(lia)) as Hb1.
      pose proof (at_byte a i Ha ltac:(lia)) as Hb2. unfold is_byte in *.
      split; [|lia]. split; [lia|]. split.
      { apply Z.lor_nonneg. split; [done|]. apply Z.lxor_nonneg. lia. }
      rewrite diff_zero, Hiff by lia. split.
      + intros [Hj Hi2] j Hjr. destruct (Z.eq_dec j i) as [->|]; [done|]. apply Hj. lia.
      + intros Hj. split; [intros; apply Hj; lia|apply Hj; lia]. }
  apply wp_inv in Hw as (r & -> & ->). done.
Qed.

(** The slot found is the first whose key digest is the hint. *)
Lemma keyslot_id_spec hint :
  bytes hint -> zlen hint = WOLFBOOT_SHA_DIGEST_SIZE ->
  wp (keyslot_id_by_sha hint) (fun id =>
    (id = -1 /\ forall j, 0 <= j < keystore_num_pubkeys -> key_sha256 j <> hint) \/
    (0 <= id < keystore_num_pubkeys /\ key_sha256 id = hint /\
     forall j, 0 <= j < id -> key_sha256 j <> hint)).
Proof.
  intros Hb Hl. unfold keyslot_id_by_sha.
  apply (wp_loop (fun '(i, id) => 0 <= i /\
      ((id = -1 /\ forall j, 0 <= j < i -> key_sha256 j <> hint) \/
       (0 <= id < i /\ id < keystore_num_pubkeys /\ key_sha256 id = hint /\
        forall j, 0 <= j < id -> key_sha256 j <> hint)))
    (fun '(i, _) => Z.to_nat (keystore_num_pubkeys - i))); [|split; [lia|left; split; [done|intros; lia]]|simpl; lia].
  intros [i id] (Hi & Hcase). case_if.
  - simpl. destruct Hcase as [[-> Hno]|(H1 & H2 & H3 & H4)].
    + left. split; [done|]. intros. apply Hno. lia.
    + right. split; [lia|]. done.
  - destruct (key_sha256_ok i) as [Hkb Hkl]. rewrite hint_matches_spec by done. simpl.
    split; [|lia]. split; [lia|]. case_bool_decide as Heq; simpl.
    + destruct Hcase as [[-> Hno]|(H1 & H2 & H3 & H4)].
      * right. simpl. split; [lia|]. split; [lia|]. split; [done|]. intros. apply Hno. lia.
      * right. rewrite (proj2 (Z.ltb_ge _ _)) by lia. split; [lia|]. done.
    + destruct Hcase as [[-> Hno]|(H1 & H2 & H3 & H4)].
      * left. split; [done|]. intros j Hj. destruct (Z.eq_dec j i) as [->|]; [done|]. apply Hno. lia.
      * right. split; [lia|]. done.
Qed.

(** ** Authenticity *)

(** The image with its header at [base] and [size] bytes of firmware at [fw] is
    intact. *)
Definition intact_at (m : mem) (base fw size sha_a : Z) : Prop :=
  field m base HDR_SHA256 WOLFBOOT_SHA_DIGEST_SIZE sha_a /\
  image_digest_at m base fw size sha_a = mread m sha_a WOLFBOOT_SHA_DIGEST_SIZE.

(** ... and authentic: a key of the keystore, the one that the header names and
    that may sign for this partition, verifies the signature on the digest. *)
Definition authentic_at (m : mem) (base fw size : Z) : Prop :=
  exists sha_a sig_a hint_a type_a slot,
    intact_at m base fw size sha_a /\
    field m base HDR_PUBKEY WOLFBOOT_SHA_DIGEST_SIZE hint_a /\
    0 <= slot < keystore_num_pubkeys /\
    key_sha256 slot = mread m hint_a WOLFBOOT_SHA_DIGEST_SIZE /\
    field m base HDR_IMG_TYPE 2 type_a /\
    (let type := u16 (mle16 m type_a) in
     Z.land type HDR_IMG_TYPE_AUTH_MASK = HDR_IMG_TYPE_AUTH /\
     Z.land (Z.shiftl 1 (Z.land type HDR_IMG_TYPE_PART_MASK)) (keystore_get_mask slot) =
       Z.shiftl 1 (Z.land type HDR_IMG_TYPE_PART_MASK)) /\
    field m base HDR_SIGNATURE ED25519_IMAGE_SIGNATURE_SIZE sig_a /\
    wc_ed25519_verify_msg (mread m sig_a ED25519_IMAGE_SIGNATURE_SIZE)
      (mread m sha_a WOLFBOOT_SHA_DIGEST_SIZE) (keystore_get_buffer slot) = (0, 1).

(** The same for firmware that follows its header. *)
Definition intact (m : mem) (base size sha_a : Z) : Prop :=
  intact_at m base (base + IMAGE_HEADER_SIZE) size sha_a.
Definition authentic (m : mem) (base size : Z) : Prop :=
  authentic_at m base (base + IMAGE_HEADER_SIZE) size.

(** A handle as [wolfBoot_open_image_address] fills it, its integrity result
    sound; and one whose firmware follows the header. *)
Definition handle_at (m : mem) (img : wolfBoot_image) : Prop :=
  base_ok (hdr img) /\ 0 <= fw_size img < 2 ^ 31 /\
  (forall a, sha_hash img = Some a -> sha_ok img = 1 ->
     intact_at m (hdr img) (fw_base img) (fw_size img) a).
Definition handle_ok (m : mem) (img : wolfBoot_image) : Prop :=
  base_ok (hdr img) /\ fw_base img = hdr img + IMAGE_HEADER_SIZE /\ 0 <= fw_size img < 2 ^ 31 /\
  (forall a, sha_hash img = Some a -> sha_ok img = 1 -> intact m (hdr img) (fw_size img) a).

Lemma handle_ok_at m img : handle_ok m img -> handle_at m img.
Proof.
  intros (H1 & H2 & H3 & H4). split; [done|]. split; [done|]. rewrite H2. exact H4.
Qed.

(** Fields that verification does not touch. *)
Definition same_place (img img' : wolfBoot_image) : Prop :=
  hdr img' = hdr img /\ fw_base img' = fw_base img /\ fw_size img' = fw_size img /\
  part img' = part img /\ hdr_ok img' = hdr_ok img.

Lemma verify_integrity_total_at m img :
  mem_ok m -> handle_at m img ->
  exists r img', wolfBoot_verify_integrity m img = Ok (r, img') /\ same_place img img' /\
    signature_ok img' = signature_ok img /\
    ((r = 0 /\ exists a, sha_hash img' = Some a /\ sha_ok img' = 1 /\
        intact_at m (hdr img) (fw_base img) (fw_size img) a) \/
     (r = -1 /\ sha_hash img' = None /\ sha_ok img' = 0)).
Proof.
  intros Hok (Hb & Hsz & _).
  destruct (find_header_ok m (hdr img + IMAGE_HEADER_OFFSET) HDR_SHA256) as [[len p] E].
  destruct (Z.eq_dec len WOLFBOOT_SHA_DIGEST_SIZE) as [->|Hne].
  - destruct p as [a|]; [|by apply find_header_none in E].
    rewrite (verify_integrity_found m img a) by done. case_bool_decide as Heq.
    + exists 0, (integrity_ok a img). split; [done|]. split; [done|]. split; [done|]. left.
      split; [done|]. exists a. done.
    + exists (-1), (integrity_bad img). split; [done|]. split; [done|]. split; [done|]. by right.
  - exists (-1), (integrity_bad img). split; [|split; [done|split; [done|by right]]].
    apply verify_integrity_missing. intros a Hf. unfold field in Hf. rewrite E in Hf.
    by injection Hf.
Qed.

(** The signature check sets its flag only on a valid signature. *)
Lemma verify_signature_sound m slot img sig :
  let img' := wolfBoot_verify_signature_ed25519 m slot img sig in
  same_place img img' /\ sha_hash img' = sha_hash img /\ sha_ok img' = sha_ok img /\
  (signature_ok img = 0 -> signature_ok img' = 1 ->
     wc_ed25519_verify_msg (mread m sig ED25519_IMAGE_SIGNATURE_SIZE)
       (mread m (default 0 (sha_hash img)) WOLFBOOT_SHA_DIGEST_SIZE)
       (keystore_get_buffer slot) = (0, 1)).
Proof.
  unfold wolfBoot_verify_signature_ed25519. cbv zeta.
  case_if; [split_and!; try done; congruence|]. case_if; [split_and!; try done; congruence|].
  destruct (wc_ed25519_verify_msg _ _ _) as [ret res]. case_if.
  - subst. by split_and!.
  - split_and!; try done. congruence.
Qed.

(** The integrity of the image at hand, as [wolfBoot_verify_authenticity]
    establishes it: reused when already checked. *)
Lemma integrity_step_at m img s :
  mem_ok m -> handle_at m img ->
  exists r img',
    run (match sha_hash img with
         | Some _ => if sha_ok img =? 1 then Ret (0, img)
                     else lift (wolfBoot_verify_integrity m img)
         | None => lift (wolfBoot_verify_integrity m img)
         end) s = (inl (r, img'), s) /\ same_place img img' /\
    signature_ok img' = signature_ok img /\
    (r = 0 -> exists a, sha_hash img' = Some a /\ sha_ok img' = 1 /\
       intact_at m (hdr img) (fw_base img) (fw_size img) a).
Proof.
  intros Hok Hh. destruct (verify_integrity_total_at m img Hok Hh) as (r & img' & E & Hs & Hg & Hc).
  assert (r = 0 -> exists a, sha_hash img' = Some a /\ sha_ok img' = 1 /\
    intact_at m (hdr img) (fw_base img) (fw_size img) a) as Hr0.
  { intros ->. destruct Hc as [[_ ?]|[? _]]; done. }
  rewrite E. cbn [lift]. destruct (sha_hash img) as [a|] eqn:Ea; [|exists r, img'; done].
  destruct (Z.eqb_spec (sha_ok img) 1) as [E1|]; [|exists r, img'; done].
  exists 0, img. split; [done|]. split; [done|]. split; [done|]. intros _. exists a.
  split; [done|]. split; [done|]. by apply Hh.
Qed.

Lemma verify_authenticity_sound_at m img s :
  mem_ok m -> handle_at m img -> signature_ok img = 0 ->
  (run (wolfBoot_verify_authenticity m img) s = (inr HPanic, s)) \/
  exists r img', run (wolfBoot_verify_authenticity m img) s = (inl (r, img'), s) /\
    same_place img img' /\
    (0 <= r -> r = 0 /\ sha_ok img' = 1 /\ signature_ok img' = 1 /\
       authentic_at m (hdr img) (fw_base img) (fw_size img)).
Proof.
  intros Hok Hh Hs0. pose proof Hh as (Hb & Hsz & _).
  unfold wolfBoot_verify_authenticity, get_header.
  destruct (find_header_ok m (hdr img + IMAGE_HEADER_OFFSET) HDR_SIGNATURE) as [[sl sp] Es].
  destruct (find_header_ok m (hdr img + IMAGE_HEADER_OFFSET) HDR_PUBKEY) as [[hl hp] Eh].
  destruct (find_header_ok m (hdr img + IMAGE_HEADER_OFFSET) HDR_IMG_TYPE) as [[tl tp] Et].
  rewrite Es, Eh, Et. cbn [lift]. rewrite !pbind_ret.
  assert (forall r, r < 0 -> exists r0 img', run (Ret (r, img)) s = (inl (r0, img'), s) /\
    same_place img img' /\ (0 <= r0 -> r0 = 0 /\ sha_ok img' = 1 /\ signature_ok img' = 1 /\
       authentic_at m (hdr img) (fw_base img) (fw_size img))) as Hfail.
  { intros r Hr. exists r, img. split; [done|]. split; [done|]. lia. }
  destruct (Z.eqb_spec hl WOLFBOOT_SHA_DIGEST_SIZE) as [->|]; [|right; apply Hfail; lia].
  destruct hp as [ha|]; [|by apply find_header_none in Eh]. simpl negb. cbv iota.
  change (default 0 (Some ha)) with ha.
  assert (0 <= WOLFBOOT_SHA_DIGEST_SIZE) as H32 by (unfold WOLFBOOT_SHA_DIGEST_SIZE; lia).
  destruct (wp_inv _ _ (keyslot_id_spec (mread m ha WOLFBOOT_SHA_DIGEST_SIZE)
    (mread_bytes _ _ _ Hok) (mread_length _ _ _ H32)))
    as (slot & Ek & Hk). rewrite Ek. cbn [lift]. rewrite !pbind_ret.
  case_if; [right; apply Hfail; lia|]. destruct Hk as [[-> _]|(Hk1 & Hk2 & _)]; [lia|].
  destruct (Z.eqb_spec tl 2) as [->|]; [|right; apply Hfail; lia].
  destruct tp as [ta|]; [|by apply find_header_none in Et]. simpl negb. cbv iota.
  change (default 0 (Some ta)) with ta. set (ty := u16 (mle16 m ta)).
  destruct (Z.eqb_spec (Z.land ty HDR_IMG_TYPE_AUTH_MASK) HDR_IMG_TYPE_AUTH) as [Hauth|];
    [|right; apply Hfail; lia]. simpl negb. cbv iota.
  rewrite run_bind. destruct (integrity_step_at m img s Hok Hh) as (ri & img1 & Ei & Hp1 & Hg1 & Hi).
  rewrite Ei. pose proof Hp1 as (Q1 & Q2 & Q3 & Q4 & Q5).
  assert (forall r, r < 0 -> exists r0 img', run (Ret (r, img1)) s = (inl (r0, img'), s) /\
    same_place img img' /\ (0 <= r0 -> r0 = 0 /\ sha_ok img' = 1 /\ signature_ok img' = 1 /\
       authentic_at m (hdr img) (fw_base img) (fw_size img))) as Hfail1.
  { intros r Hr. exists r, img1. split; [done|]. split; [done|]. lia. }
  destruct (Z.eqb_spec ri 0) as [->|]; [|right; apply Hfail1; lia]. simpl negb. cbv iota.
  destruct (Hi eq_refl) as (sha_a & Hsh & Hso & Hint). rewrite Hso. simpl negb. cbv iota zeta.
  match goal with |- context [negb (Z.land ?x ?y =? ?z)] =>
    destruct (Z.eqb_spec (Z.land x y) z) as [Hmask|]; [|right; apply Hfail1; lia] end.
  simpl negb. cbv iota. match goal with |- context [negb (Z.land ?x ?y =? ?z)] =>
    destruct (Z.eqb_spec (Z.land x y) z); [|by left] end. simpl negb. cbv iota.
  destruct sp as [sa|]; [|right; apply Hfail1; lia]. case_if; [right; apply Hfail1; lia|].
  destruct (Z.eqb_spec sl ED25519_IMAGE_SIGNATURE_SIZE) as [->|]; [|right; apply Hfail1; lia].
  simpl negb. cbv iota. right.
  destruct (verify_signature_sound m slot img1 sa) as ((P1 & P2 & P3 & P4 & P5) & Hsh2 & Hso2 & Hsig).
  set (img2 := wolfBoot_verify_signature_ed25519 m slot img1 sa) in *.
  assert (same_place img img2) as Hp2 by (unfold same_place; split_and!; congruence).
  destruct (Z.eqb_spec (signature_ok img2) 1) as [Hs1|].
  - exists 0, img2. split; [done|]. split; [done|]. intros _. split; [done|].
    split; [congruence|]. split; [done|]. exists sha_a, sa, ha, ta, slot.
    rewrite Hsh in Hsig. split; [done|]. split; [done|]. split; [done|]. split; [done|].
    split; [done|]. split; [done|]. split; [done|]. apply Hsig; congruence.
  - exists (-2), img2. split; [done|]. split; [done|]. lia.
Qed.

Lemma verify_integrity_total m img :
  mem_ok m -> handle_ok m img ->
  exists r img', wolfBoot_verify_integrity m img = Ok (r, img') /\ same_place img img' /\
    signature_ok img' = signature_ok img /\
    ((r = 0 /\ exists a, sha_hash img' = Some a /\ sha_ok img' = 1 /\
        intact m (hdr img) (fw_size img) a) \/
     (r = -1 /\ sha_hash img' = None /\ sha_ok img' = 0)).
Proof.
  intros Hok Hh. pose proof Hh as (_ & Hfb & _). pose proof (verify_integrity_total_at m img Hok (handle_ok_at _ _ Hh)) as Hx.
  by rewrite Hfb in Hx.
Qed.

Lemma verify_authenticity_sound m img s :
  mem_ok m -> handle_ok m img -> signature_ok img = 0 ->
  (run (wolfBoot_verify_authenticity m img) s = (inr HPanic, s)) \/
  exists r img', run (wolfBoot_verify_authenticity m img) s = (inl (r, img'), s) /\
    same_place img img' /\
    (0 <= r -> r = 0 /\ sha_ok img' = 1 /\ signature_ok img' = 1 /\
       authentic m (hdr img) (fw_size img)).
Proof.
  intros Hok Hh Hs. pose proof Hh as (_ & Hfb & _).
  pose proof (verify_authenticity_sound_at m img s Hok (handle_ok_at _ _ Hh) Hs) as Hx. by rewrite Hfb in Hx.
Qed.

End Verify.

(** ** Results *)

Section Results.
Context {c : config} {H : hash_api} {HL : hash_laws H} {K : keystore_api} {V : verify_api}.
Context (HB : forall k, bytes (hash_final k)).

(** [wolfBoot_find_header] returns the first complete field of the wanted type
    reached from the start of the options over padding and other fields, and
    nothing else; its value lies inside the header. *)
Theorem find_header_first m base type len a :
  base_ok base ->
  (wolfBoot_find_header m (base + IMAGE_HEADER_OFFSET) type = Ok (len, Some a) <->
   exists q, reach m (base + IMAGE_HEADER_SIZE) type (base + IMAGE_HEADER_OFFSET) q /\
     is_field m (base + IMAGE_HEADER_SIZE) q /\ tag_at m q = type /\
     len = len_at m q /\ a = q + 4) /\
  (wolfBoot_find_header m (base + IMAGE_HEADER_OFFSET) type = Ok (len, Some a) ->
   base + IMAGE_HEADER_OFFSET + 4 <= a /\ a + len <= base + IMAGE_HEADER_SIZE).
Proof.
  intros Hb. pose proof (find_header_found m (base + IMAGE_HEADER_OFFSET) type len a
    (base_haystack base Hb)) as Hf. unfold header_end in Hf.
  replace (base + IMAGE_HEADER_OFFSET - IMAGE_HEADER_OFFSET + IMAGE_HEADER_SIZE)
    with (base + IMAGE_HEADER_SIZE) in Hf by lia.
  split; [exact Hf|]. intros Hr. pose proof (field_bounds m base type len a Hb Hr). lia.
Qed.

(** [wolfBoot_find_header] always returns, and its answer depends on the
    header alone: memories that agree on the header of the image give the same
    answer, whatever the rest holds. *)
Theorem find_header_header_only m1 m2 base type :
  base_ok base ->
  (forall a, base + IMAGE_HEADER_OFFSET <= a < base + IMAGE_HEADER_SIZE -> m1 a = m2 a) ->
  exists r, wolfBoot_find_header m1 (base + IMAGE_HEADER_OFFSET) type = Ok r /\
            wolfBoot_find_header m2 (base + IMAGE_HEADER_OFFSET) type = Ok r.
Proof.
  intros Hb Hm. destruct (find_header_ok m1 (base + IMAGE_HEADER_OFFSET) type) as [r Hr].
  exists r. split; [exact Hr|]. rewrite <- Hr. symmetry. apply find_header_local.
  - by apply base_haystack.
  - intros a Ha. apply Hm. unfold header_end in Ha. lia.
Qed.

(** C6: [wolfBoot_verify_integrity] accepts an opened image, and only then marks its
    digest good, exactly when the header has a SHA-256 field that holds the
    digest of the header up to that field followed by the firmware. *)
Theorem integrity_iff m img :
  mem_ok m -> handle_ok m img ->
  exists r img', wolfBoot_verify_integrity m img = Ok (r, img') /\
    (r = 0 <-> exists a, intact m (hdr img) (fw_size img) a) /\
    (sha_ok img' = 1 <-> r = 0).
Proof.
  intros Hok Hh. pose proof Hh as (Hb & Hfb & Hsz & _).
  destruct (verify_integrity_total HB m img Hok Hh) as (r & img' & E & _ & _ & Hc).
  exists r, img'. split; [exact E|]. split.
  - split; [intros ->; destruct Hc as [(_ & a & _ & _ & Hi)|[? _]]; [by exists a|done]|].
    intros (a & Hf & Hd). rewrite (verify_integrity_found HB m img a) in E by done.
    rewrite Hfb, bool_decide_true in E by done. by injection E as <- _.
  - destruct Hc as [(-> & a & _ & Hs & _)|(-> & _ & Hs)]; rewrite Hs; split; done.
Qed.

(** The key of an image is the first slot of the keystore whose digest is the
    hint of the header, and no slot when none matches. *)
Theorem keyslot_first hint :
  bytes hint -> zlen hint = WOLFBOOT_SHA_DIGEST_SIZE ->
  exists id, keyslot_id_by_sha hint = Ok id /\
    ((id = -1 /\ forall j, 0 <= j < keystore_num_pubkeys -> key_sha256 j <> hint) \/
     (0 <= id < keystore_num_pubkeys /\ key_sha256 id = hint /\
      forall j, 0 <= j < id -> key_sha256 j <> hint)).
Proof. intros Hb Hl. apply wp_inv. by apply (keyslot_id_spec HB). Qed.

(** The armored comparison and the plain one agree, on every length the
    redundant counters can represent: both return 0 exactly when the buffers
    are equal over that length. *)
Theorem CT_compare_variants_agree expected actual len :
  bytes expected -> bytes actual -> 0 < len < 65536 ->
  len <= zlen expected -> len <= zlen actual ->
  exists r1 r2, image_CT_compare_armored expected actual len = Ok r1 /\
    image_CT_compare expected actual len = Ok r2 /\
    (r1 = 0 <-> r2 = 0) /\ (r2 = 0 <-> slice expected 0 len = slice actual 0 len).
Proof.
  intros He Ha Hl Hl1 Hl2.
  destruct (wp_inv _ _ (CT_armored_spec expected actual len He Ha Hl Hl1 Hl2)) as (r1 & E1 & _ & Hr1).
  rewrite E1, CT_compare_spec by (try done; lia). eexists _, _. split; [done|]. split; [done|].
  rewrite Hr1. case_bool_decide; split; done.
Qed.

End Results.

(** ** Witnesses *)

Module ExampleImage.
Export ExampleApi.

(** An image of 4 firmware bytes with a version, a type and a digest field. *)
#[export] Instance cfg : config := {|
  WOLFBOOT_SECTOR_SIZE := 64;
  WOLFBOOT_PARTITION_SIZE := 512;
  WOLFBOOT_PARTITION_BOOT_ADDRESS := 0x1000;
  WOLFBOOT_PARTITION_UPDATE_ADDRESS := 0x2000;
  WOLFBOOT_PARTITION_SWAP_ADDRESS := 0x3000;
  IMAGE_HEADER_SIZE := 64;
  FLASHBUFFER_SIZE := 8;
|}.

Definition prefix : list Z :=
  le32_bytes WOLFBOOT_MAGIC ++ le32_bytes 4 ++ [1; 0; 4; 0] ++ le32_bytes 7.
Definition firmware : list Z := [9; 8; 7; 6].
Definition header : list Z :=
  prefix ++ [3; 0; 32; 0] ++ hash_final (hash_update hash_init (prefix ++ firmware)).

Definition mem0 : mem := fun a =>
  if in_range 0x1000 (zlen header) a then at_ header (a - 0x1000)
  else if in_range 0x1040 4 a then at_ firmware (a - 0x1040)
  else FLASH_BYTE_ERASED.

Lemma image_mem0_ok : mem_ok mem0.
Proof.
  assert (bytes header /\ bytes firmware) as [H1 H2].
  { split; repeat constructor; discriminate. }
  intros a. unfold mem0. repeat (case_if; [apply in_range_true in E; apply at_total_byte; [done|lia]|clear E]).
  unfold FLASH_BYTE_ERASED. wblia.
Qed.

Definition img0 : wolfBoot_image := snd (wolfBoot_open_image mem0 PART_BOOT).

Lemma img0_ok : handle_ok mem0 img0.
Proof. split; [split_and!; done|]. split; [done|]. split; [split; done|]. done. Qed.

End ExampleImage.
Import ExampleImage.

Lemma find_header_first_witness :
  base_ok 0x1000 /\ wolfBoot_find_header mem0 0x1008 HDR_VERSION = Ok (4, Some 0x100C) /\
  0x1000 + IMAGE_HEADER_OFFSET + 4 <= 0x100C.
Proof.
  assert (base_ok 0x1000) as Hb by (split_and!; vm_compute; congruence).
  assert (wolfBoot_find_header mem0 0x1008 HDR_VERSION = Ok (4, Some 0x100C)) as Hr
    by (vm_compute; reflexivity).
  split; [exact Hb|]. split; [exact Hr|].
  exact (proj1 (proj2 (find_header_first mem0 0x1000 HDR_VERSION 4 0x100C Hb) Hr)).
Defined.

Lemma find_header_header_only_witness :
  exists r, wolfBoot_find_header mem0 0x1008 HDR_SHA256 = Ok r /\
    wolfBoot_find_header (nor_erase mem0 0x1040 4) 0x1008 HDR_SHA256 = Ok r.
Proof.
  apply (find_header_header_only mem0 (nor_erase mem0 0x1040 4) 0x1000 HDR_SHA256).
  - split_and!; vm_compute; congruence.
  - intros a Ha. symmetry. apply nor_erase_out.
    change (0x1000 + IMAGE_HEADER_SIZE) with 0x1040 in Ha. lia.
Defined.

Lemma integrity_iff_witness :
  exists r img', wolfBoot_verify_integrity mem0 img0 = Ok (r, img') /\ (sha_ok img' = 1 <-> r = 0).
Proof.
  destruct (integrity_iff (H := toy_hash) toy_hash_bytes mem0 img0 image_mem0_ok img0_ok) as (r & img' & E & _ & Hs).
  exists r, img'. split; [exact E|exact Hs].
Defined.

Lemma keyslot_first_witness :
  exists id, keyslot_id_by_sha (key_sha256 0) = Ok id /\ id = 0.
Proof.
  destruct (keyslot_first (H := toy_hash) toy_hash_bytes (key_sha256 0)) as (id & E & _).
  - repeat constructor; vm_compute; congruence.
  - vm_compute. reflexivity.
  - exists id. split; [exact E|]. vm_compute in E. congruence.
Defined.

Lemma CT_compare_variants_agree_witness :
  exists r1 r2, image_CT_compare_armored [1; 2; 3] [1; 2; 4] 3 = Ok r1 /\
    image_CT_compare [1; 2; 3] [1; 2; 4] 3 = Ok r2 /\ (r1 = 0 <-> r2 = 0).
Proof.
  destruct (CT_compare_variants_agree [1; 2; 3] [1; 2; 4] 3) as (r1 & r2 & E1 & E2 & Hr & _).
  - repeat constructor; vm_compute; congruence.
  - repeat constructor; vm_compute; congruence.
  - lia.
  - vm_compute. congruence.
  - vm_compute. congruence.
  - exists r1, r2. split; [exact E1|]. split; [exact E2|exact Hr].
Defined.
