(* ===== verification/UpdateFlash.v ===== *)
(** * UpdateFlash: the power-fail safe update of update_flash.c

    [wolfBoot_copy_sector], the interruptible three-way swap and its final
    erase, and the boot decision of [wolfBoot_start], in the default
    configuration: internal flash, backup enabled, no encryption, no delta
    updates, no NVM_FLASH_WRITEONCE, sector-by-sector erase. *)

From Stdlib Require Import ZArith Lia.
From stdpp Require Import prelude.
From S2P Require Import Prelude Flash Trailer Image.

Local Open Scope Z_scope.

Definition SECT_FLAG_NEW : Z := 0x0F.
Definition SECT_FLAG_SWAPPING : Z := 0x07.
Definition SECT_FLAG_BACKUP : Z := 0x03.
Definition SECT_FLAG_UPDATED : Z := 0x00.

(** A loop of flash operations. *)
Fixpoint ploop {S R} (fuel : nat) (body : S -> prog (S + R)) (s : S) : prog R :=
  match fuel with
  | O => Stop HFuel
  | Datatypes.S n =>
      let* x := body s in
      match x with
      | inl s' => ploop n body s'
      | inr r => Ret r
      end
  end.

Section UpdateFlash.
Context {c : config} {H : hash_api} {K : keystore_api} {V : verify_api}.

Definition wb_flash_erase (img : wolfBoot_image) (off siz : Z) : prog Z :=
  flash_erase (hdr img + off) siz.
Definition wb_flash_write (img : wolfBoot_image) (off : Z) (dat : list Z) : prog Z :=
  flash_write (hdr img + off) dat.

(** The three images of an update are distinct objects, so the
    [src == dst] test of the source compares their partitions. *)
Definition wolfBoot_copy_sector (src dst : wolfBoot_image) (sector : Z) : prog Z :=
  let src_sector_offset := u32 (sector * WOLFBOOT_SECTOR_SIZE) in
  let dst_sector_offset := src_sector_offset in
  if part src =? part dst then Ret 0 else
  let src_sector_offset := if part src =? PART_SWAP then 0 else src_sector_offset in
  let dst_sector_offset := if part dst =? PART_SWAP then 0 else dst_sector_offset in
  let* er := wb_flash_erase dst dst_sector_offset WOLFBOOT_SECTOR_SIZE in
  if er <? 0 then Ret (-1) else
  ploop (S (Z.to_nat WOLFBOOT_SECTOR_SIZE)) (fun pos =>
    if negb (pos <? WOLFBOOT_SECTOR_SIZE) then Ret (inr pos) else
    if u32 (src_sector_offset + pos) <?
         u32 (fw_size src + IMAGE_HEADER_SIZE + FLASHBUFFER_SIZE) then
      let* m := look in
      let orig := mread m (hdr src + (src_sector_offset + pos)) FLASHBUFFER_SIZE in
      let* wr := wb_flash_write dst (u32 (dst_sector_offset + pos)) orig in
      if wr <? 0 then Ret (inr (-1)) else Ret (inl (pos + FLASHBUFFER_SIZE))
    else Ret (inl (pos + FLASHBUFFER_SIZE))) 0.

Definition wolfBoot_get_total_size (boot update : wolfBoot_image) : Z :=
  let total_size := u32 (fw_size boot + IMAGE_HEADER_SIZE) in
  if total_size <? u32 (fw_size update + IMAGE_HEADER_SIZE)
  then u32 (fw_size update + IMAGE_HEADER_SIZE) else total_size.

(** From the erase of the last sector of BOOT to the end of the function. *)
Definition final_erase_tail (boot update swap : wolfBoot_image) (tmpBootPos eraseLen : Z) : prog Z :=
  let* _ := wb_flash_erase boot (WOLFBOOT_PARTITION_SIZE - eraseLen) eraseLen in
  let* _ :=
    (if tmpBootPos <? u32 (fw_size boot + IMAGE_HEADER_SIZE)
     then wolfBoot_copy_sector swap boot (tmpBootPos / WOLFBOOT_SECTOR_SIZE)
     else wb_flash_erase boot tmpBootPos WOLFBOOT_SECTOR_SIZE) in
  let* _ := wolfBoot_set_partition_state PART_BOOT IMG_STATE_TESTING in
  let* _ := wb_flash_erase update (WOLFBOOT_PARTITION_SIZE - eraseLen) eraseLen in
  let* _ := flash_lock in
  Ret 0.

Definition wolfBoot_swap_and_final_erase (resume : Z) : prog Z :=
  let eraseLen := WOLFBOOT_SECTOR_SIZE in
  let tmpBootPos := WOLFBOOT_PARTITION_SIZE - eraseLen - WOLFBOOT_SECTOR_SIZE in
  let* m := look in
  let boot := snd (wolfBoot_open_image m PART_BOOT) in
  let update := snd (wolfBoot_open_image m PART_UPDATE) in
  let swap := snd (wolfBoot_open_image m PART_SWAP) in
  let* (_, updateState) := wolfBoot_get_partition_state PART_UPDATE IMG_STATE_NEW in
  let* m := look in
  let tmpBuffer := mle32 m (hdr boot + tmpBootPos) in
  let swapDone := tmpBuffer =? WOLFBOOT_MAGIC_TRAIL in
  if (resume =? 1) && negb swapDone && negb (updateState =? IMG_STATE_FINAL_FLAGS)
  then Ret (-1) else
  let* _ := flash_unlock in
  let* _ :=
    (if negb (updateState =? IMG_STATE_FINAL_FLAGS) then
       let* _ := wolfBoot_copy_sector boot swap (tmpBootPos / WOLFBOOT_SECTOR_SIZE) in
       wolfBoot_set_partition_state PART_UPDATE IMG_STATE_FINAL_FLAGS
     else Ret 0) in
  final_erase_tail boot update swap tmpBootPos eraseLen.

(** ** The interruptible swap *)

(** Record that [sector] has reached [flag], unless it is the last one. *)
Definition mark_sector (sector flag : Z) : prog unit :=
  if u32 ((sector + 1) * WOLFBOOT_SECTOR_SIZE) <? WOLFBOOT_PARTITION_SIZE then
    let* _ := wolfBoot_set_update_sector_flag sector flag in Ret tt
  else Ret tt.

(** [case SECT_FLAG_BACKUP]: SWAP to BOOT. *)
Definition swap_case_backup (swap boot : wolfBoot_image) (sector : Z) : prog Z :=
  let* copy_ret := wolfBoot_copy_sector swap boot sector in
  if copy_ret <? 0 then Ret copy_ret else
  let* _ := mark_sector sector SECT_FLAG_UPDATED in
  Ret copy_ret.

(** [case SECT_FLAG_SWAPPING]: BOOT to UPDATE, then fall through. *)
Definition swap_case_swapping (swap boot update : wolfBoot_image) (sector : Z) : prog Z :=
  let* copy_ret := wolfBoot_copy_sector boot update sector in
  if copy_ret <? 0 then Ret copy_ret else
  let* _ := mark_sector sector SECT_FLAG_BACKUP in
  swap_case_backup swap boot sector.

(** [case SECT_FLAG_NEW]: UPDATE to SWAP, then fall through. *)
Definition swap_case_new (swap boot update : wolfBoot_image) (sector : Z) : prog Z :=
  let* copy_ret := wolfBoot_copy_sector update swap sector in
  if copy_ret <? 0 then Ret copy_ret else
  let* _ := mark_sector sector SECT_FLAG_SWAPPING in
  swap_case_swapping swap boot update sector.

(** The [switch (flag)] of one sector; the value is [copy_ret]. *)
Definition swap_sector (swap boot update : wolfBoot_image) (sector : Z) : prog Z :=
  let* (_, flag) := wolfBoot_get_update_sector_flag sector SECT_FLAG_NEW in
  if flag =? SECT_FLAG_NEW then swap_case_new swap boot update sector
  else if flag =? SECT_FLAG_SWAPPING then swap_case_swapping swap boot update sector
  else if flag =? SECT_FLAG_BACKUP then swap_case_backup swap boot sector
  else Ret 0.

(** State of the swap loop. *)
Record swap_state : Type := mkSwap {
  ss_sector : Z;
  ss_total_size : Z;
  ss_boot : wolfBoot_image;
  ss_update : wolfBoot_image;
}.

(** After the first sector the headers are in their final places: open them
    again and exchange the sizes. *)
Definition swap_reopen (m : mem) : Z * wolfBoot_image * wolfBoot_image :=
  let boot := snd (wolfBoot_open_image m PART_BOOT) in
  let update := snd (wolfBoot_open_image m PART_UPDATE) in
  let sz := fw_size boot in
  let boot := set_fw_size (fw_size update) boot in
  let update := set_fw_size sz update in
  (wolfBoot_get_total_size boot update, boot, update).

(** [inr None] is the error return of the loop, [inr (Some s)] its end. *)
Definition swap_body (swap : wolfBoot_image) (s : swap_state)
    : prog (swap_state + option swap_state) :=
  if negb (u32 (ss_sector s * WOLFBOOT_SECTOR_SIZE) <? ss_total_size s)
  then Ret (inr (Some s)) else
  let* copy_ret := swap_sector swap (ss_boot s) (ss_update s) (ss_sector s) in
  if copy_ret <? 0 then
    let* _ := flash_lock in Ret (inr None)
  else
    let sector := ss_sector s + 1 in
    if sector =? 1 then
      let* m := look in
      let '(total_size, boot, update) := swap_reopen m in
      Ret (inl (mkSwap sector total_size boot update))
    else Ret (inl (mkSwap sector (ss_total_size s) (ss_boot s) (ss_update s))).

Definition sectors_fuel : nat := S (S (Z.to_nat (WOLFBOOT_PARTITION_SIZE / WOLFBOOT_SECTOR_SIZE))).

Definition swap_loop (swap : wolfBoot_image) (s : swap_state) : prog (option swap_state) :=
  ploop sectors_fuel (swap_body swap) s.

(** Erase what follows the swapped images, up to the trailer sector. *)
Definition erase_remainder (boot update : wolfBoot_image) (sector : Z) : prog Z :=
  ploop sectors_fuel (fun sector =>
    if negb (u32 (sector * WOLFBOOT_SECTOR_SIZE) <?
             WOLFBOOT_PARTITION_SIZE - WOLFBOOT_SECTOR_SIZE) then Ret (inr sector) else
    let* _ := wb_flash_erase boot (u32 (sector * WOLFBOOT_SECTOR_SIZE)) WOLFBOOT_SECTOR_SIZE in
    let* _ := wb_flash_erase update (u32 (sector * WOLFBOOT_SECTOR_SIZE)) WOLFBOOT_SECTOR_SIZE in
    Ret (inl (sector + 1))) sector.

Definition MAX_UPDATE_SIZE : Z :=
  WOLFBOOT_PARTITION_SIZE - IMAGE_HEADER_SIZE - WOLFBOOT_SECTOR_SIZE.

(** [PART_SANITY_CHECK]. *)
Definition part_sanity_check (img : wolfBoot_image) : prog unit :=
  if negb (hdr_ok img =? 1) || negb (sha_ok img =? 1) || negb (signature_ok img =? 1)
  then Stop HPanic else Ret tt.

(** Checks on a fresh update; [Some r] is an early [return r]. *)
Definition update_checks (fallback_allowed update_type cur_ver upd_ver : Z)
    (update : wolfBoot_image) : prog (option Z * wolfBoot_image) :=
  if negb (Z.land update_type HDR_IMG_TYPE_PART_MASK =? HDR_IMG_TYPE_APP) ||
     negb (Z.land update_type HDR_IMG_TYPE_AUTH_MASK =? HDR_IMG_TYPE_AUTH)
  then Ret (Some (-1), update) else
  if MAX_UPDATE_SIZE - 1 <? fw_size update then Ret (Some (-1), update) else
  if hdr_ok update =? 0 then Ret (Some (-1), update) else
  let* m := look in
  let* (ri, update) := lift (wolfBoot_verify_integrity m update) in
  if ri <? 0 then Ret (Some (-1), update) else
  let* (ra, update) := wolfBoot_verify_authenticity m update in
  if ra <? 0 then Ret (Some (-1), update) else
  let* _ := part_sanity_check update in
  if (fallback_allowed =? 0) && (upd_ver <=? cur_ver)
  then Ret (Some (-1), update) else
  Ret (None, update).

Definition wolfBoot_update (fallback_allowed : Z) : prog Z :=
  let* m := look in
  let '(update_open, update) := wolfBoot_open_image m PART_UPDATE in
  if update_open <? 0 then Ret (-1) else
  let boot := snd (wolfBoot_open_image m PART_BOOT) in
  let swap := snd (wolfBoot_open_image m PART_SWAP) in
  let total_size := wolfBoot_get_total_size boot update in
  if total_size <=? IMAGE_HEADER_SIZE then Ret (-1) else
  let* update_type := lift (wolfBoot_get_image_type m PART_UPDATE) in
  let* cur_ver := lift (wolfBoot_get_image_version m PART_BOOT) in
  let* upd_ver := lift (wolfBoot_get_image_version m PART_UPDATE) in
  let* (bootStateRet, bootState) := wolfBoot_get_partition_state PART_BOOT 0 in
  let rollback_needed :=
    (bootStateRet =? 0) && (bootState =? IMG_STATE_TESTING) &&
    negb (fallback_allowed =? 0) && (upd_ver <=? cur_ver) in
  let* (_, flag) := wolfBoot_get_update_sector_flag 0 SECT_FLAG_NEW in
  let* (early, update) :=
    (if flag =? SECT_FLAG_NEW
     then update_checks fallback_allowed update_type cur_ver upd_ver update
     else Ret (None, update)) in
  match early with
  | Some r => Ret r
  | None =>
      let* _ := flash_unlock in
      let* sw := swap_loop swap (mkSwap 0 total_size boot update) in
      match sw with
      | None => Ret (-1)
      | Some s =>
          let* _ := erase_remainder (ss_boot s) (ss_update s) (ss_sector s) in
          let* _ := flash_lock in
          let* ret := wolfBoot_swap_and_final_erase 0 in
          if negb (ret =? 0) then Ret ret else
          let* _ :=
            (if rollback_needed then
               let* _ := flash_unlock in
               let* _ := wolfBoot_set_partition_state PART_BOOT IMG_STATE_SUCCESS in
               flash_lock
             else Ret tt) in
          Ret ret
      end
  end.

(** ** Boot *)

(** [hal_flash_protect] of the target. *)
Context (hal_flash_protect : Z).

(** Everything [wolfBoot_start] does before verifying the boot image. *)
Definition start_updates : prog unit :=
  let* (bootRet, bootState) := wolfBoot_get_partition_state PART_BOOT 0 in
  let* (updateRet, updateState) := wolfBoot_get_partition_state PART_UPDATE 0 in
  let* resumedFinalErase := wolfBoot_swap_and_final_erase 1 in
  if negb (resumedFinalErase =? 0) ||
     ((bootRet =? 0) && (bootState =? IMG_STATE_TESTING)) then
    if (bootRet =? 0) && (bootState =? IMG_STATE_TESTING) then
      let* _ :=
        (if negb (updateRet =? 0) then
           let* _ := flash_unlock in
           let* _ := wolfBoot_set_partition_state PART_UPDATE IMG_STATE_UPDATING in
           flash_lock
         else Ret tt) in
      let* _ := wolfBoot_update 1 in Ret tt
    else if (updateRet =? 0) && (updateState =? IMG_STATE_UPDATING) then
      let* _ := wolfBoot_update 0 in Ret tt
    else Ret tt
  else Ret tt.

(** Open and verify the boot image: (status, image). *)
Definition verify_boot : prog (Z * wolfBoot_image) :=
  let* m := look in
  let '(r0, boot) := wolfBoot_open_image m PART_BOOT in
  if r0 <? 0 then Ret (r0, boot) else
  let* (r1, boot) := lift (wolfBoot_verify_integrity m boot) in
  if r1 <? 0 then Ret (r1, boot) else
  wolfBoot_verify_authenticity m boot.

Definition wolfBoot_start : prog unit :=
  let* _ := start_updates in
  let* (bootRet, boot) := verify_boot in
  let* boot :=
    (if bootRet <? 0 then
       let* r := wolfBoot_update 1 in
       if r <? 0 then Stop HPanic else
       let* (r2, boot) := verify_boot in
       if r2 <? 0 then Stop HPanic else Ret boot
     else Ret boot) in
  if negb (hdr_ok boot =? 1) || negb (sha_ok boot =? 1) || negb (signature_ok boot =? 1)
  then Stop HPanic else
  let* _ := part_sanity_check boot in
  if hal_flash_protect <? 0 then Stop HPanic else
  let* _ := part_sanity_check boot in
  Stop (HBoot (fw_base boot)).

End UpdateFlash.
