(* ===== verification/BootSafe.v ===== *)
(** * BootSafe: only authentic firmware is started

    [wolfBoot_start] of update_flash.c hands control over with [do_boot] in one
    place; whatever the flash holds and whatever the update did before, the
    image it starts is the one whose integrity and authenticity the memory
    then shows. *)

From Stdlib Require Import ZArith Lia.
From stdpp Require Import prelude.
From S2P Require Import Prelude Flash Trailer Image ImageSpec UpdateFlash.

Local Open Scope Z_scope.

(** ** Programs that never start an image *)

Definition no_boot {A} (p : prog A) : Prop := forall s e s', run p s <> (inr (HBoot e), s').

Create HintDb noboot discriminated.

Lemma no_boot_ret {A} (a : A) : no_boot (Ret a).
Proof. done. Qed.

Lemma no_boot_stop {A} (h : halt) : (forall e, h <> HBoot e) -> no_boot (@Stop A h).
Proof. intros Hh s e s'. simpl. intros [= E _]. by apply (Hh e). Qed.

Lemma no_boot_panic {A} : no_boot (@Stop A HPanic).
Proof. by apply no_boot_stop. Qed.
Lemma no_boot_undef {A} : no_boot (@Stop A HUndef).
Proof. by apply no_boot_stop. Qed.
Lemma no_boot_fuel {A} : no_boot (@Stop A HFuel).
Proof. by apply no_boot_stop. Qed.

Lemma no_boot_bind {A B} (p : prog A) (f : A -> prog B) :
  no_boot p -> (forall a, no_boot (f a)) -> no_boot (pbind p f).
Proof.
  intros Hp Hf s e s'. rewrite run_bind. destruct (run p s) as [[a|h] s1] eqn:E.
  - apply Hf.
  - intros [= -> ->]. by apply (Hp s e s').
Qed.

Lemma no_boot_look : no_boot look.
Proof. done. Qed.
Lemma no_boot_erase a n : no_boot (flash_erase a n).
Proof. intros s e s'. simpl. destruct (hal_flash_erase s a n). done. Qed.
Lemma no_boot_write a d : no_boot (flash_write a d).
Proof. intros s e s'. simpl. destruct (hal_flash_write s a d). done. Qed.
Lemma no_boot_unlock : no_boot flash_unlock.
Proof. done. Qed.
Lemma no_boot_lock : no_boot flash_lock.
Proof. done. Qed.
Lemma no_boot_if {A} (b : bool) (p q : prog A) : no_boot p -> no_boot q -> no_boot (if b then p else q).
Proof. by destruct b. Qed.
Lemma no_boot_lift {A} (o : outcome A) : no_boot (lift o).
Proof. destruct o; simpl; auto using no_boot_ret, no_boot_undef, no_boot_fuel. Qed.

Lemma no_boot_ploop {S R} fuel (body : S -> prog (S + R)) s :
  (forall s, no_boot (body s)) -> no_boot (ploop fuel body s).
Proof.
  intros Hb. revert s. induction fuel as [|fuel IH]; intros s; simpl; [apply no_boot_fuel|].
  apply no_boot_bind; [done|]. intros [s'|r]; [apply IH|apply no_boot_ret].
Qed.

#[export] Hint Resolve no_boot_ret no_boot_panic no_boot_undef no_boot_fuel no_boot_bind
  no_boot_look no_boot_erase no_boot_write no_boot_unlock no_boot_lock no_boot_if no_boot_lift
  no_boot_ploop : noboot.

(** Walk through a program, splitting on what it matches. *)
Ltac nb_step :=
  match goal with
  | |- no_boot (pbind _ _) => apply no_boot_bind; [|intros ?]
  | |- no_boot (if _ then _ else _) => apply no_boot_if
  | |- no_boot (ploop _ _ _) => apply no_boot_ploop; intros ?
  | |- no_boot (match ?x with _ => _ end) => destruct x
  | |- no_boot _ => solve [auto with noboot nocore]
  end.
Ltac nb := cbv zeta; repeat (nb_step; cbv zeta).

(** Programs that only read. *)
Definition reads {A} (p : prog A) : Prop := forall s, snd (run p s) = s.

Lemma reads_bind {A B} (p : prog A) (f : A -> prog B) :
  reads p -> (forall a, reads (f a)) -> reads (pbind p f).
Proof.
  intros Hp Hf s. rewrite run_bind. specialize (Hp s).
  destruct (run p s) as [[a|h] s1]; simpl in Hp; subst; [apply Hf|done].
Qed.

Lemma reads_lift {A} (o : outcome A) : reads (lift o).
Proof. by destruct o. Qed.

Ltac rds_step :=
  match goal with
  | |- reads (pbind _ _) => apply reads_bind; [|intros ?]
  | |- reads (lift _) => apply reads_lift
  | |- reads (if ?b then _ else _) => destruct b
  | |- reads (match ?x with _ => _ end) => destruct x
  | |- reads _ => done
  end.

Section Boot.
Context {c : config} {H : hash_api} {K : keystore_api} {V : verify_api}.

Lemma nb_deref32 p : no_boot (deref32 p).
Proof. unfold deref32. nb. Qed.
Lemma nb_deref8 p : no_boot (deref8 p).
Proof. unfold deref8. nb. Qed.
#[local] Hint Resolve nb_deref32 nb_deref8 : noboot.

Lemma nb_set_trailer_at p a v : no_boot (set_trailer_at p a v).
Proof. unfold set_trailer_at. nb. Qed.
Lemma nb_set_magic p : no_boot (set_partition_magic p).
Proof. unfold set_partition_magic. nb. Qed.
#[local] Hint Resolve nb_set_trailer_at nb_set_magic : noboot.

Lemma nb_set_state p v : no_boot (wolfBoot_set_partition_state p v).
Proof. unfold wolfBoot_set_partition_state, set_partition_state. nb. Qed.
Lemma nb_get_state p v : no_boot (wolfBoot_get_partition_state p v).
Proof. unfold wolfBoot_get_partition_state. nb. Qed.
Lemma nb_set_flag s v : no_boot (wolfBoot_set_update_sector_flag s v).
Proof. unfold wolfBoot_set_update_sector_flag, set_update_sector_flags. nb. Qed.
Lemma nb_get_flag s v : no_boot (wolfBoot_get_update_sector_flag s v).
Proof. unfold wolfBoot_get_update_sector_flag. nb. Qed.
Lemma nb_copy src dst s : no_boot (wolfBoot_copy_sector src dst s).
Proof. unfold wolfBoot_copy_sector, wb_flash_erase, wb_flash_write. nb. Qed.
#[local] Hint Resolve nb_set_state nb_get_state nb_set_flag nb_get_flag nb_copy : noboot.

Lemma nb_mark s f : no_boot (mark_sector s f).
Proof. unfold mark_sector. nb. Qed.
#[local] Hint Resolve nb_mark : noboot.

Lemma nb_swap_sector sw b u s : no_boot (swap_sector sw b u s).
Proof. unfold swap_sector, swap_case_new, swap_case_swapping, swap_case_backup. nb. Qed.
#[local] Hint Resolve nb_swap_sector : noboot.

Lemma nb_swap_loop sw st : no_boot (swap_loop sw st).
Proof. unfold swap_loop, swap_body. nb. Qed.
Lemma nb_erase_remainder b u s : no_boot (erase_remainder b u s).
Proof. unfold erase_remainder, wb_flash_erase. nb. Qed.
Lemma nb_final_erase r : no_boot (wolfBoot_swap_and_final_erase r).
Proof. unfold wolfBoot_swap_and_final_erase, final_erase_tail, wb_flash_erase. nb. Qed.
Lemma nb_authenticity m i : no_boot (wolfBoot_verify_authenticity m i).
Proof. unfold wolfBoot_verify_authenticity. nb. Qed.
#[local] Hint Resolve nb_swap_loop nb_erase_remainder nb_final_erase nb_authenticity : noboot.

Lemma nb_update fb : no_boot (wolfBoot_update fb).
Proof. unfold wolfBoot_update, update_checks, part_sanity_check. nb. Qed.
#[local] Hint Resolve nb_update : noboot.

Lemma nb_start_updates : no_boot start_updates.
Proof. unfold start_updates. nb. Qed.
Lemma nb_verify_boot : no_boot verify_boot.
Proof. unfold verify_boot. nb. Qed.

Lemma reads_verify_boot : reads verify_boot.
Proof. unfold verify_boot, wolfBoot_verify_authenticity. repeat (rds_step; cbv zeta). Qed.

Context {G : geometry c} {HL : hash_laws H} (HB : forall k, bytes (hash_final k)).
Context (hal_flash_protect : Z).

Abbreviation BOOT := WOLFBOOT_PARTITION_BOOT_ADDRESS.

Lemma boot_base_ok : base_ok BOOT.
Proof.
  pose proof geo_boot. pose proof geo_hdr. destruct geo_part as (n & Hn & HP & _).
  assert (WOLFBOOT_SECTOR_SIZE <= WOLFBOOT_PARTITION_SIZE) by nia.
  unfold base_ok, UINTPTR_MAX, IMAGE_HEADER_OFFSET. lia.
Qed.

(** A handle opened on BOOT. *)
Lemma open_boot_handle m r img :
  mem_ok m -> wolfBoot_open_image m PART_BOOT = (r, img) -> 0 <= r ->
  mle32 m BOOT = WOLFBOOT_MAGIC /\ handle_ok m img /\ hdr img = BOOT /\
  fw_base img = BOOT + IMAGE_HEADER_SIZE /\ fw_size img = mle32 m (BOOT + 4) /\
  signature_ok img = 0 /\ hdr_ok img = 1.
Proof.
  intros Hok. unfold wolfBoot_open_image, wolfBoot_open_image_address, wolfBoot_image_size. simpl.
  pose proof geo_boot as Hg. pose proof geo_hdr. pose proof boot_base_ok as Hbb.
  assert (0 <= mle32 m (BOOT + 4)) as Hnn.
  { unfold mle32. pose proof (Hok (BOOT + 4)). pose proof (Hok (BOOT + 4 + 1)).
    pose proof (Hok (BOOT + 4 + 2)). pose proof (Hok (BOOT + 4 + 3)). wblia. }
  destruct (Z.eqb_spec (mle32 m BOOT) WOLFBOOT_MAGIC); simpl; [|intros [= <- _]; lia].
  case_if; simpl; [intros [= <- _]; lia|]. intros [= <- <-] _. simpl.
  split; [done|]. split; [|done]. unfold handle_ok. simpl. split; [done|]. split; [done|].
  split; [lia|]. done.
Qed.

(** What [verify_boot] says of the memory it looked at. *)
Definition boot_ok (m : mem) (boot : wolfBoot_image) : Prop :=
  mle32 m BOOT = WOLFBOOT_MAGIC /\ fw_base boot = BOOT + IMAGE_HEADER_SIZE /\
  authentic m BOOT (mle32 m (BOOT + 4)).

Lemma verify_boot_sound s :
  mem_ok (fmem s) ->
  run verify_boot s = (inr HPanic, s) \/
  exists r boot, run verify_boot s = (inl (r, boot), s) /\ (0 <= r -> boot_ok (fmem s) boot).
Proof.
  intros Hok. unfold verify_boot, look. cbn [pbind run].
  destruct (wolfBoot_open_image (fmem s) PART_BOOT) as [r0 img] eqn:E0.
  destruct (Z.ltb_spec r0 0).
  { right. exists r0, img. split; [done|]. lia. }
  destruct (open_boot_handle _ _ _ Hok E0) as (Hmg & Hh & Hhd & Hfb & Hsz & Hs0 & _); [done|].
  destruct (verify_integrity_total HB _ _ Hok Hh) as (r1 & img1 & E1 & Hp1 & Hg1 & Hc1).
  rewrite E1. cbn [lift]. rewrite pbind_ret.
  destruct (Z.ltb_spec r1 0).
  { right. exists r1, img1. split; [done|]. lia. }
  pose proof Hp1 as (Q1 & Q2 & Q3 & Q4 & Q5).
  assert (handle_ok (fmem s) img1) as Hh1.
  { destruct Hh as (B1 & B2 & B3 & B4). split; [congruence|]. split; [congruence|].
    split; [by rewrite Q3|]. intros a Ha Hso. destruct Hc1 as [(_ & a' & Ha' & _ & Hi)|(_ & Hn & _)].
    - rewrite Q1, Q3. replace a with a' by congruence. done.
    - congruence. }
  destruct (verify_authenticity_sound HB (fmem s) img1 s Hok Hh1) as [Hp|(r2 & img2 & E2 & Hp2 & Ha2)].
  - congruence.
  - by left.
  - right. exists r2, img2. split; [done|]. intros Hr2. destruct (Ha2 Hr2) as (_ & _ & _ & Hau).
    destruct Hp2 as (P1 & P2 & P3 & P4 & P5). split; [done|]. split; [congruence|].
    rewrite Q1, Q3, Hhd, Hsz in Hau. done.
Qed.

(** After an image has been verified nothing is written before it starts. *)
Lemma start_tail_boot boot s e s' :
  run (if negb (hdr_ok boot =? 1) || negb (sha_ok boot =? 1) || negb (signature_ok boot =? 1)
       then Stop HPanic else
       let* _ := part_sanity_check boot in
       if hal_flash_protect <? 0 then Stop HPanic else
       let* _ := part_sanity_check boot in
       Stop (HBoot (fw_base boot))) s = (@inr unit halt (HBoot e), s') ->
  s' = s /\ e = fw_base boot.
Proof.
  unfold part_sanity_check. destruct (_ || _); [done|]. simpl.
  destruct (_ <? 0); [done|]. simpl. intros [= -> ->]. done.
Qed.

(** A verification that succeeded, seen from the state it left. *)
Lemma verify_boot_result s r boot s' :
  run verify_boot s = (inl (r, boot), s') -> mem_ok (fmem s') -> 0 <= r -> boot_ok (fmem s') boot.
Proof.
  intros E Hok Hr. pose proof (reads_verify_boot s) as Hs. rewrite E in Hs. simpl in Hs. subst s'.
  destruct (verify_boot_sound s Hok) as [Hp|(r3 & b3 & Hp & Hb)]; rewrite Hp in E; [done|].
  injection E as -> ->. auto.
Qed.

Lemma start_boot_sound s e s' :
  run (wolfBoot_start hal_flash_protect) s = (inr (HBoot e), s') -> mem_ok (fmem s') ->
  exists boot, e = fw_base boot /\ boot_ok (fmem s') boot.
Proof.
  intros Hr Hok. unfold wolfBoot_start in Hr. rewrite run_bind in Hr.
  destruct (run start_updates s) as [[u|h] s1] eqn:E1.
  2:{ injection Hr as -> ->. by destruct (nb_start_updates s e s'). }
  rewrite run_bind in Hr. destruct (run verify_boot s1) as [[[r boot]|h] s2] eqn:E2.
  2:{ injection Hr as -> ->. by destruct (nb_verify_boot s1 e s'). }
  rewrite run_bind in Hr. destruct (Z.ltb_spec r 0) as [Hneg|Hpos].
  - rewrite run_bind in Hr. destruct (run (wolfBoot_update 1) s2) as [[ru|h] s3] eqn:E3.
    2:{ injection Hr as -> ->. by destruct (nb_update 1 s2 e s'). }
    destruct (ru <? 0); [done|]. rewrite run_bind in Hr.
    destruct (run verify_boot s3) as [[[r2 boot2]|h] s4] eqn:E4.
    2:{ injection Hr as -> ->. by destruct (nb_verify_boot s3 e s'). }
    destruct (Z.ltb_spec r2 0) as [|Hpos2]; [done|]. cbn [run] in Hr.
    apply start_tail_boot in Hr as [<- ->]. exists boot2. split; [done|].
    by apply (verify_boot_result s3 r2).
  - cbn [run] in Hr. apply start_tail_boot in Hr as [<- ->]. exists boot. split; [done|].
    by apply (verify_boot_result s1 r).
Qed.

(** C2: [wolfBoot_start] starts nothing but authentic firmware.  If it reaches
    [do_boot], from any flash contents and after any update or fallback, the
    entry point is the firmware of the BOOT partition, and the memory at that
    moment holds there an image whose stored digest is the digest of its header
    and firmware and whose signature on that digest verifies under a key of the
    keystore that the header names and that may sign for the partition. *)
Theorem boot_only_authentic s e s' :
  run (wolfBoot_start hal_flash_protect) s = (inr (HBoot e), s') -> mem_ok (fmem s') ->
  e = BOOT + IMAGE_HEADER_SIZE /\ mle32 (fmem s') BOOT = WOLFBOOT_MAGIC /\
  authentic (fmem s') BOOT (mle32 (fmem s') (BOOT + 4)).
Proof.
  intros Hr Hok. destruct (start_boot_sound s e s' Hr Hok) as (boot & -> & Hm & Hfb & Hau).
  by split_and!.
Qed.

End Boot.

(** ** Witness: a signed image that starts *)

Module ExampleBoot.
Export ExampleApi.

Definition cfg : config := {|
  WOLFBOOT_SECTOR_SIZE := 256;
  WOLFBOOT_PARTITION_SIZE := 1024;
  WOLFBOOT_PARTITION_BOOT_ADDRESS := 0x1000;
  WOLFBOOT_PARTITION_UPDATE_ADDRESS := 0x2000;
  WOLFBOOT_PARTITION_SWAP_ADDRESS := 0x3000;
  IMAGE_HEADER_SIZE := 256;
  FLASHBUFFER_SIZE := 64;
|}.
#[export] Existing Instance cfg.

#[export] Instance geo : geometry cfg.
Proof. constructor; simpl; try lia; [exists 4|exists 4]; lia. Qed.

(** Version and type fields, then digest, key hint and signature. *)
Definition prefix : list Z :=
  le32_bytes WOLFBOOT_MAGIC ++ le32_bytes 16 ++ [1; 0; 4; 0] ++ le32_bytes 1 ++ [4; 0; 2; 0; 1; 1].
Definition firmware : list Z := seqZ 200 16.
Definition digest : list Z := hash_final (hash_update hash_init (prefix ++ firmware)).
Definition fields : list Z :=
  prefix ++ [3; 0; 32; 0] ++ digest ++ [0x10; 0; 32; 0] ++ key_sha256 0 ++
  [0x20; 0; 64; 0] ++ digest ++ replicate 32 0.

Definition mem0 : mem := fun a =>
  if in_range 0x1000 (zlen fields) a then at_ fields (a - 0x1000)
  else if in_range 0x1100 16 a then at_ firmware (a - 0x1100)
  else FLASH_BYTE_ERASED.

Lemma boot_mem0_ok : mem_ok mem0.
Proof.
  assert (bytes fields /\ bytes firmware) as [H1 H2].
  { split; repeat constructor; discriminate. }
  intros a. unfold mem0. repeat (case_if; [apply in_range_true in E; apply at_total_byte; [done|lia]|clear E]).
  unfold FLASH_BYTE_ERASED. wblia.
Qed.

End ExampleBoot.
Import ExampleBoot.

Lemma boot_only_authentic_witness :
  run (wolfBoot_start 0) (mkFlash mem0 true) = (inr (HBoot 0x1100), mkFlash mem0 true) /\
  authentic mem0 0x1000 (mle32 mem0 0x1004).
Proof.
  assert (run (wolfBoot_start 0) (mkFlash mem0 true) = (inr (HBoot 0x1100), mkFlash mem0 true)) as Hr
    by (vm_compute; reflexivity).
  split; [exact Hr|].
  exact (proj2 (proj2 (@boot_only_authentic cfg toy_hash toy_keystore toy_verify geo toy_hash_laws
    toy_hash_bytes 0 (mkFlash mem0 true) 0x1100 (mkFlash mem0 true) Hr boot_mem0_ok))).
Defined.
