(* ===== verification/UpdateSafe.v ===== *)
(** * UpdateSafe: the interruptible swap survives power failures

    Crash specifications of [wolfBoot_copy_sector] and of the swap loop of
    update_flash.c.  [swap_inv] describes every memory that power failures can
    leave while two images are exchanged; the loop, entered from any such
    memory, completes the exchange, and is itself safe to interrupt. *)

From Stdlib Require Import ZArith Lia.
From stdpp Require Import prelude.
From S2P Require Import Prelude Flash Trailer Image UpdateFlash.

Local Open Scope Z_scope.

(** ** Loops of flash operations *)

Lemma chl_ploop {S R} (I : S -> flash -> Prop) (meas : S -> nat) (Q : R -> flash -> Prop) C
    (body : S -> prog (S + R)) fuel s :
  (forall s, chl (I s) (body s) (fun x f => match x with
     | inl s' => I s' f /\ (meas s' < meas s)%nat
     | inr r => Q r f end) C) ->
  (meas s < fuel)%nat -> chl (I s) (ploop fuel body s) Q C.
Proof.
  intros Hb. revert s. induction fuel as [|fuel IH]; intros s Hm f Hf; [lia|]. simpl.
  destruct (Hb s f Hf) as [(x & f' & Hr & HQ) Hc]. rewrite run_bind, Hr.
  destruct x as [s'|r].
  - destruct HQ as [HI Hlt]. destruct (IH s' ltac:(lia) f' HI) as [H1 H2]. split; [done|].
    intros m' [H|(a & s2 & H3 & H4)]%crash_bind; [auto|].
    rewrite Hr in H3. injection H3 as <- <-. auto.
  - split; [simpl; eauto|]. intros m' [H|(a & s2 & H3 & H4)]%crash_bind; [auto|].
    rewrite Hr in H3. injection H3 as <- <-. destruct H4 as [->|[]].
    apply Hc. by eapply crash_final.
Qed.

(** A precondition that fixes the memory of an unlocked flash. *)
Definition at_mem (m : mem) (s : flash) : Prop := fmem s = m /\ flashLocked s = false.

(** Split a postcondition known to hold of a memory into cases. *)
Lemma chl_at_mem {A} (P : mem -> Prop) (p : prog A) Q C :
  (forall m, P m -> chl (at_mem m) p Q C) ->
  chl (fun s => flashLocked s = false /\ P (fmem s)) p Q C.
Proof. intros H s [HL HP]. apply (H (fmem s) HP). by split. Qed.

(** [m'] differs from [m] only in [addr, addr + len). *)
Definition only_changes (m : mem) (addr len : Z) (m' : mem) : Prop :=
  mem_ok m' /\ forall a, ~ (addr <= a < addr + len) -> m' a = m a.

Lemma only_changes_refl m addr len : mem_ok m -> only_changes m addr len m.
Proof. by split. Qed.

Section Copy.
Context {c : config} {G : geometry c}.

(** Byte [j] of the copy of a sector that starts at offset [off] of an image of
    [size] firmware bytes: chunks past the image are left erased. *)
Definition copied (off size j v : Z) : Z :=
  if off + j / FLASHBUFFER_SIZE * FLASHBUFFER_SIZE <? size + IMAGE_HEADER_SIZE + FLASHBUFFER_SIZE
  then v else FLASH_BYTE_ERASED.

(** Offset of [sector] in an image: the swap area has a single sector. *)
Definition sector_offset (img : wolfBoot_image) (sector : Z) : Z :=
  if part img =? PART_SWAP then 0 else sector * WOLFBOOT_SECTOR_SIZE.

Lemma chunk_of pos j : 0 < FLASHBUFFER_SIZE -> pos mod FLASHBUFFER_SIZE = 0 ->
  pos <= j < pos + FLASHBUFFER_SIZE -> j / FLASHBUFFER_SIZE * FLASHBUFFER_SIZE = pos.
Proof.
  intros Hb Hp Hj. assert (j / FLASHBUFFER_SIZE = pos / FLASHBUFFER_SIZE) as ->.
  { symmetry. apply (Z.div_unique j FLASHBUFFER_SIZE _ (j - pos)); [lia|].
    pose proof (Z.div_mod pos FLASHBUFFER_SIZE). lia. }
  pose proof (Z.div_mod pos FLASHBUFFER_SIZE). lia.
Qed.

(** What the copy loop maintains after [pos] bytes. *)
Definition copy_inv (m : mem) (A D off size pos : Z) (m' : mem) : Prop :=
  only_changes m D WOLFBOOT_SECTOR_SIZE m' /\
  (forall j, 0 <= j < pos -> m' (D + j) = copied off size j (m (A + j))) /\
  (forall j, pos <= j < WOLFBOOT_SECTOR_SIZE -> m' (D + j) = FLASH_BYTE_ERASED).

Lemma copy_inv_write m A D off size pos :
  forall m', copy_inv m A D off size pos m' -> mem_ok m ->
  0 <= pos -> pos + FLASHBUFFER_SIZE <= WOLFBOOT_SECTOR_SIZE -> pos mod FLASHBUFFER_SIZE = 0 ->
  (A + WOLFBOOT_SECTOR_SIZE <= D \/ D + WOLFBOOT_SECTOR_SIZE <= A) ->
  off + pos < size + IMAGE_HEADER_SIZE + FLASHBUFFER_SIZE ->
  copy_inv m A D off size (pos + FLASHBUFFER_SIZE)
    (nor_write m' (D + pos) (mread m' (A + pos) FLASHBUFFER_SIZE)).
Proof.
  intros m' ((Hok & Hout) & Hdone & Her) Hm0 Hp Hpe Hmod Hdisj Hlim.
  pose proof geo_buf as Hb.
  assert (zlen (mread m' (A + pos) FLASHBUFFER_SIZE) = FLASHBUFFER_SIZE) as Hl
    by (apply mread_length; lia).
  split; [|split].
  - split; [apply mem_ok_write; [done|by apply mread_bytes]|].
    intros a Ha. rewrite nor_write_out by lia. apply Hout. lia.
  - intros j Hj. destruct (Z.lt_ge_cases j pos) as [Hlt|Hge].
    + rewrite nor_write_out by lia. apply Hdone. lia.
    + rewrite nor_write_in by lia. rewrite Her by lia.
      rewrite mread_at by lia. rewrite land_erased by apply Hok.
      unfold copied. rewrite (chunk_of pos) by lia.
      replace (_ <? _) with true by (symmetry; apply Z.ltb_lt; lia).
      rewrite Hout by lia. f_equal. lia.
  - intros j Hj. rewrite nor_write_out by lia. apply Her. lia.
Qed.

Lemma copy_inv_skip m A D off size pos m' :
  copy_inv m A D off size pos m' -> 0 <= pos ->
  pos + FLASHBUFFER_SIZE <= WOLFBOOT_SECTOR_SIZE -> pos mod FLASHBUFFER_SIZE = 0 ->
  size + IMAGE_HEADER_SIZE + FLASHBUFFER_SIZE <= off + pos ->
  copy_inv m A D off size (pos + FLASHBUFFER_SIZE) m'.
Proof.
  intros (Hoc & Hdone & Her) Hp Hpe Hmod Hlim. pose proof geo_buf as Hb.
  split; [done|]. split; [|intros; apply Her; lia].
  intros j Hj. destruct (Z.lt_ge_cases j pos) as [Hlt|Hge]; [apply Hdone; lia|].
  rewrite Her by lia. unfold copied. rewrite (chunk_of pos) by lia.
  by replace (_ <? _) with false by (symmetry; apply Z.ltb_ge; lia).
Qed.

Lemma copy_inv_torn m A D off size pos m' data m'' :
  copy_inv m A D off size pos m' -> 0 <= pos ->
  pos + zlen data <= WOLFBOOT_SECTOR_SIZE -> torn_write m' (D + pos) data m'' ->
  only_changes m D WOLFBOOT_SECTOR_SIZE m''.
Proof.
  intros ((Hok & Hout) & _ & _) Hp Hpe Ht. split; [eauto with wb|].
  intros a Ha. rewrite (torn_write_out _ _ _ _ _ Ht) by lia. auto.
Qed.

Lemma sector_chunk pos :
  pos mod FLASHBUFFER_SIZE = 0 -> pos < WOLFBOOT_SECTOR_SIZE ->
  pos + FLASHBUFFER_SIZE <= WOLFBOOT_SECTOR_SIZE /\ (pos + FLASHBUFFER_SIZE) mod FLASHBUFFER_SIZE = 0.
Proof.
  intros Hm Hp. pose proof geo_buf as Hb. destruct geo_sector as (n & Hn & Hs).
  pose proof (Z.div_mod pos FLASHBUFFER_SIZE). split.
  - assert (pos / FLASHBUFFER_SIZE < n); nia.
  - rewrite <- (Z.mul_1_l FLASHBUFFER_SIZE) at 1. by rewrite Z.mod_add by lia.
Qed.

(** Copying a sector: the destination holds the source, cut after the image;
    power failing leaves everything outside the destination sector intact. *)
Lemma chl_copy_sector src dst sector m :
  let A := hdr src + sector_offset src sector in
  let D := hdr dst + sector_offset dst sector in
  mem_ok m -> part src <> part dst ->
  0 <= sector -> (sector + 1) * WOLFBOOT_SECTOR_SIZE <= WOLFBOOT_PARTITION_SIZE ->
  0 <= fw_size src -> fw_size src + IMAGE_HEADER_SIZE <= WOLFBOOT_PARTITION_SIZE ->
  (A + WOLFBOOT_SECTOR_SIZE <= D \/ D + WOLFBOOT_SECTOR_SIZE <= A) ->
  chl (at_mem m) (wolfBoot_copy_sector src dst sector)
    (fun r s => r = WOLFBOOT_SECTOR_SIZE /\ flashLocked s = false /\
       only_changes m D WOLFBOOT_SECTOR_SIZE (fmem s) /\
       forall j, 0 <= j < WOLFBOOT_SECTOR_SIZE ->
         fmem s (D + j) = copied (sector_offset src sector) (fw_size src) j (m (A + j)))
    (only_changes m D WOLFBOOT_SECTOR_SIZE).
Proof.
  intros A D Hok Hpart Hs Hse Hfw Hfw2 Hdisj. pose proof geo_buf as Hb.
  destruct geo_sector as (nb & Hnb & Hss). pose proof geo_hdr as Hh. pose proof geo_boot as Hbt.
  assert (0 <= sector * WOLFBOOT_SECTOR_SIZE < 2 ^ 31) by nia.
  assert (0 <= sector_offset src sector /\ sector_offset src sector + WOLFBOOT_SECTOR_SIZE <= WOLFBOOT_PARTITION_SIZE)
    by (unfold sector_offset; case_if; nia).
  assert (0 <= sector_offset dst sector /\ sector_offset dst sector + WOLFBOOT_SECTOR_SIZE <= WOLFBOOT_PARTITION_SIZE)
    by (unfold sector_offset; case_if; nia).
  assert (0 < FLASHBUFFER_SIZE <= WOLFBOOT_SECTOR_SIZE) by nia.
  unfold wolfBoot_copy_sector.
  replace (part src =? part dst) with false by (symmetry; by apply Z.eqb_neq).
  rewrite u32_small by lia.
  change (if part src =? PART_SWAP then 0 else sector * WOLFBOOT_SECTOR_SIZE)
    with (sector_offset src sector).
  change (if part dst =? PART_SWAP then 0 else sector * WOLFBOOT_SECTOR_SIZE)
    with (sector_offset dst sector).
  apply (chl_bind _ _ (fun r s => r = 0 /\ flashLocked s = false /\
    copy_inv m A D (sector_offset src sector) (fw_size src) 0 (fmem s))).
  { apply chl_erase.
    - intros s [-> HL]. split; [done|]. by apply only_changes_refl.
    - intros s m' [-> HL] Ht. split; [eauto with wb|]. intros a Ha.
      apply (torn_erase_out _ _ _ _ _ Ht). unfold D in *. lia.
    - intros s [-> HL]. fold D.
      assert (only_changes m D WOLFBOOT_SECTOR_SIZE (nor_erase m D WOLFBOOT_SECTOR_SIZE)).
      { split; [eauto with wb|]. intros a Ha. apply nor_erase_out. lia. }
      split; [|done]. split; [done|]. split; [done|]. split; [done|]. split; [intros; lia|].
      intros j Hj. simpl. apply nor_erase_in. lia. }
  intros r. apply chl_pre. intros s0 (-> & HL0 & HI0). simpl Z.ltb. cbv iota.
  eapply chl_conseq.
  - apply (chl_ploop (fun pos s => flashLocked s = false /\ 0 <= pos <= WOLFBOOT_SECTOR_SIZE /\
        pos mod FLASHBUFFER_SIZE = 0 /\
        copy_inv m A D (sector_offset src sector) (fw_size src) pos (fmem s))
      (fun pos => Z.to_nat (WOLFBOOT_SECTOR_SIZE - pos))
      (fun r s => r = WOLFBOOT_SECTOR_SIZE /\ flashLocked s = false /\
         copy_inv m A D (sector_offset src sector) (fw_size src) WOLFBOOT_SECTOR_SIZE (fmem s))
      (only_changes m D WOLFBOOT_SECTOR_SIZE)); [|lia].
    intros pos. apply chl_pre. intros s (HL & Hp & Hmod & HI).
    destruct (Z.ltb_spec pos WOLFBOOT_SECTOR_SIZE) as [Hlt|Hge]; simpl negb; cbv iota.
    2:{ apply chl_ret. intros s' ->. assert (pos = WOLFBOOT_SECTOR_SIZE) as -> by lia.
        split; [|by destruct HI]. split; [done|]. by split. }
    destruct (sector_chunk pos Hmod Hlt) as [Hpe Hmod'].
    rewrite (u32_small (sector_offset src sector + pos)),
      (u32_small (fw_size src + _ + _)), (u32_small (sector_offset dst sector + pos)) by lia.
    case_if.
    + apply chl_bind_look; [by intros s' ->; destruct HI|]. intros m1.
      apply chl_pre. intros s1 [-> Hm1].
      replace (hdr src + (sector_offset src sector + pos)) with (A + pos) by (unfold A; lia).
      apply (chl_bind _ _ (fun r s => r = 0 /\ flashLocked s = false /\
        copy_inv m A D (sector_offset src sector) (fw_size src) (pos + FLASHBUFFER_SIZE) (fmem s))).
      * assert (zlen (mread m1 (A + pos) FLASHBUFFER_SIZE) = FLASHBUFFER_SIZE) as Hl
          by (apply mread_length; lia).
        unfold wb_flash_write. replace (hdr dst + (sector_offset dst sector + pos)) with (D + pos) by (unfold D; lia).
        apply chl_write.
        -- intros s' ->. by destruct HI.
        -- intros s' m' -> Ht. refine (copy_inv_torn _ A _ _ _ pos _ _ _ HI _ _ Ht); lia.
        -- intros s' ->. rewrite <- Hm1.
           pose proof (copy_inv_write m A D _ _ pos _ HI Hok ltac:(lia) Hpe Hmod Hdisj ltac:(lia)) as HW.
           split; [done|]. apply HW.
      * intros r. apply chl_pre. intros s2 (-> & HL2 & HI2). simpl Z.ltb. cbv iota.
        apply chl_ret. intros s' ->. split; [|by destruct HI2].
        split; [|lia]. split; [done|]. split; [lia|]. done.
    + apply chl_ret. intros s' ->. split; [|by destruct HI].
      split; [|lia]. split; [done|]. split; [lia|]. split; [done|].
      apply copy_inv_skip; [done|lia..].
  - intros s ->. split; [done|]. split; [lia|]. split; [apply Z.mod_0_l; lia|done].
  - intros r s (-> & HL & H4 & H5 & H6). auto.
  - done.
Qed.

End Copy.

(** ** The exchange of two images *)

(** [sec m base i f]: byte [j] of sector [i] of the partition at [base] is [f j]. *)
Definition sec {c : config} (m : mem) (base i : Z) (f : Z -> Z) : Prop :=
  forall j, 0 <= j < WOLFBOOT_SECTOR_SIZE -> m (base + i * WOLFBOOT_SECTOR_SIZE + j) = f j.

Section Swap.
Context {c : config} {G : geometry c}.

(** The memory before the update, and the firmware sizes of the two images. *)
Context (m0 : mem) (B U : Z).

Abbreviation BOOT := WOLFBOOT_PARTITION_BOOT_ADDRESS.
Abbreviation UPD := WOLFBOOT_PARTITION_UPDATE_ADDRESS.
Abbreviation SWP := WOLFBOOT_PARTITION_SWAP_ADDRESS.
Abbreviation SS := WOLFBOOT_SECTOR_SIZE.
Abbreviation PS := WOLFBOOT_PARTITION_SIZE.

(** What sector [i] of each partition holds before and after the exchange. *)
Definition orig_boot (i j : Z) : Z := m0 (BOOT + i * SS + j).
Definition orig_upd (i j : Z) : Z := m0 (UPD + i * SS + j).
Definition new_boot (i j : Z) : Z := copied (i * SS) U j (orig_upd i j).
Definition new_upd (i j : Z) : Z := copied (i * SS) B j (orig_boot i j).

Definition total : Z := Z.max B U + IMAGE_HEADER_SIZE.

(** Sectors to exchange. *)
Definition nswap : Z := (total + SS - 1) / SS.

(** Progress of one sector, as its flag records it.  Nibbles 1 and 2 are
    partly programmed UPDATED flags. *)
Definition sec_todo (m : mem) (i : Z) : Prop :=
  sector_flag m i = SECT_FLAG_NEW /\ sec m BOOT i (orig_boot i) /\ sec m UPD i (orig_upd i).
Definition sec_saved (m : mem) (i : Z) : Prop :=
  sector_flag m i = SECT_FLAG_SWAPPING /\ sec m BOOT i (orig_boot i) /\ sec m SWP 0 (new_boot i).
Definition sec_backed (m : mem) (i : Z) : Prop :=
  sector_flag m i = SECT_FLAG_BACKUP /\ sec m UPD i (new_upd i) /\ sec m SWP 0 (new_boot i).
Definition sec_done (m : mem) (i : Z) : Prop :=
  0 <= sector_flag m i <= 2 /\ sec m BOOT i (new_boot i) /\ sec m UPD i (new_upd i).

(** The trailer of UPDATE is in use, and its state can still become
    FINAL_FLAGS by clearing bits. *)
Definition trailer_ok (m : mem) : Prop :=
  magic_set m PART_UPDATE = true /\
  Z.land (state_of m PART_UPDATE) IMG_STATE_FINAL_FLAGS = IMG_STATE_FINAL_FLAGS.

(** ... and it is not FINAL_FLAGS yet. *)
Definition trailer_live (m : mem) : Prop :=
  magic_set m PART_UPDATE = true /\
  Z.land (state_of m PART_UPDATE) IMG_STATE_FINAL_FLAGS = IMG_STATE_FINAL_FLAGS /\
  state_of m PART_UPDATE <> IMG_STATE_FINAL_FLAGS.

(** Sectors below [k] are exchanged, [k] is in progress, the others untouched. *)
Definition swap_at (k : Z) (m : mem) : Prop :=
  mem_ok m /\ trailer_live m /\
  (forall i, 0 <= i < k -> sec_done m i) /\
  (forall i, k < i < nswap -> sec_todo m i) /\
  (k < nswap -> sec_todo m k \/ sec_saved m k \/ sec_backed m k \/ sec_done m k).

(** Every memory that an interrupted exchange can leave. *)
Definition swap_inv (m : mem) : Prop := exists k, 0 <= k <= nswap /\ swap_at k m.

(** The exchange is complete. *)
Definition swapped (m : mem) : Prop :=
  mem_ok m /\ trailer_ok m /\ forall i, 0 <= i < nswap -> sec_done m i.

Context (HB : 0 <= B) (HU : 0 <= U).
Context (HBs : B + IMAGE_HEADER_SIZE <= PS - SS) (HUs : U + IMAGE_HEADER_SIZE <= PS - SS).

Lemma part_sectors : exists n, 3 <= n /\ PS = n * SS /\ nswap <= n - 1 /\ n <= 2 ^ 16 /\ n <= 2 * (SS - 5).
Proof.
  destruct geo_part as (n & Hn & HP & Hn2 & Hn3). exists n. pose proof geo_hdr.
  split; [done|]. split; [done|]. split; [|done]. unfold nswap, total.
  enough ((Z.max B U + IMAGE_HEADER_SIZE + SS - 1) / SS < n) by lia.
  apply Z.div_lt_upper_bound; nia.
Qed.

Lemma nswap_spec s : 0 <= s -> s < nswap <-> s * SS < total.
Proof.
  intros Hs. pose proof geo_hdr. unfold nswap. assert (0 < SS) as Hp by lia.
  pose proof (Z.div_mod (total + SS - 1) SS). pose proof (Z.mod_pos_bound (total + SS - 1) SS Hp).
  split; intros; nia.
Qed.

(** [m'] agrees with [m] on every other sector of the exchange. *)
Definition frame (s : Z) (m m' : mem) : Prop :=
  (forall i, 0 <= i < nswap -> i <> s -> sector_flag m' i = sector_flag m i) /\
  magic_set m' PART_UPDATE = magic_set m PART_UPDATE /\
  state_of m' PART_UPDATE = state_of m PART_UPDATE /\
  (forall i f, 0 <= i < nswap -> i <> s -> sec m BOOT i f -> sec m' BOOT i f) /\
  (forall i f, 0 <= i < nswap -> i <> s -> sec m UPD i f -> sec m' UPD i f).

Lemma frame_swap_at s m m' :
  frame s m m' -> mem_ok m' -> 0 <= s < nswap -> swap_at s m ->
  sec_todo m' s \/ sec_saved m' s \/ sec_backed m' s \/ sec_done m' s -> swap_at s m'.
Proof.
  intros (F1 & F2 & F2' & F3 & F4) Hok Hs (Hok0 & (Hmg & Hst & Hst2) & Hlo & Hhi & Hmid) Hnew.
  split; [done|]. split; [unfold trailer_live; rewrite F2, F2'; done|]. split; [|split; [|done]].
  - intros i Hi. destruct (Hlo i Hi) as (H1 & H2 & H3).
    split; [by rewrite F1 by lia|]. split; [apply F3|apply F4]; auto; lia.
  - intros i Hi. destruct (Hhi i Hi) as (H1 & H2 & H3).
    split; [by rewrite F1 by lia|]. split; [apply F3|apply F4]; auto; lia.
Qed.

(** Writing the current sector of BOOT or UPDATE, or the swap area, does not
    touch the trailer of UPDATE nor the other sectors. *)
Definition work_area (s base i : Z) : Prop :=
  (base = BOOT /\ i = s) \/ (base = UPD /\ i = s) \/ (base = SWP /\ i = 0).

Lemma sec_bound x : 0 <= x < nswap -> 0 <= x * SS /\ x * SS + SS <= PS - SS.
Proof. destruct part_sectors as (n & Hn & HP & Hns & _). pose proof geo_hdr. nia. Qed.

Lemma sec_disj x y : x <> y -> x * SS + SS <= y * SS \/ y * SS + SS <= x * SS.
Proof. pose proof geo_hdr. nia. Qed.

Lemma flag_addr_bound x : 0 <= x < nswap -> PS - SS <= PS - (6 + x / 2) < PS - 5.
Proof. destruct part_sectors as (n & Hn & HP & Hns & Hn2 & Hfl). intros. dlia. Qed.

Lemma only_changes_frame s base i m m' :
  0 <= s < nswap -> work_area s base i -> only_changes m (base + i * SS) SS m' ->
  frame s m m' /\ sector_flag m' s = sector_flag m s.
Proof.
  intros Hs Hw [Hok Hout]. pose proof (sec_bound s Hs) as Hb.
  pose proof geo_hdr as Hh. pose proof geo_disj_bu. pose proof geo_disj_bs. pose proof geo_disj_us.
  assert (forall a, UPD + (PS - SS) <= a < UPD + PS -> m' a = m a) as Htr.
  { intros a Ha. apply Hout. destruct Hw as [[-> ->]|[[-> ->]|[-> ->]]]; lia. }
  assert (forall x, 0 <= x < nswap -> sector_flag m' x = sector_flag m x) as Hflag.
  { intros x Hx. unfold sector_flag. f_equal. apply Htr. unfold flag_addr, PART_UPDATE_ENDFLAGS.
    pose proof (flag_addr_bound x Hx). lia. }
  split; [|by apply Hflag]. split; [auto|]. split; [|split; [|split]].
  - unfold magic_set, mle32, magic_addr, PART_UPDATE_ENDFLAGS. simpl Z.eqb. cbv iota.
    pose proof (flag_addr_bound s Hs). by rewrite !Htr by lia.
  - unfold state_of, magic_addr, PART_UPDATE_ENDFLAGS. simpl Z.eqb. cbv iota.
    pose proof (flag_addr_bound s Hs). by rewrite !Htr by lia.
  - intros x f Hx Hne Hsec j Hj. rewrite Hout; [by apply Hsec|].
    pose proof (sec_bound x Hx). pose proof (sec_disj x s Hne).
    destruct Hw as [[-> ->]|[[-> ->]|[-> ->]]]; lia.
  - intros x f Hx Hne Hsec j Hj. rewrite Hout; [by apply Hsec|].
    pose proof (sec_bound x Hx). pose proof (sec_disj x s Hne).
    destruct Hw as [[-> ->]|[[-> ->]|[-> ->]]]; lia.
Qed.

(** Work on one area keeps the contents of the other two. *)
Lemma only_changes_sec s base i base' i' m m' f :
  0 <= s < nswap -> work_area s base i -> work_area s base' i' -> base <> base' ->
  only_changes m (base + i * SS) SS m' -> sec m base' i' f -> sec m' base' i' f.
Proof.
  intros Hs Hw Hw' Hne [Hok Hout] Hsec j Hj. pose proof (sec_bound s Hs) as Hb.
  pose proof geo_hdr. pose proof geo_disj_bu. pose proof geo_disj_bs. pose proof geo_disj_us.
  rewrite Hout; [by apply Hsec|].
  destruct Hw as [[-> ->]|[[-> ->]|[-> ->]]], Hw' as [[-> ->]|[[-> ->]|[-> ->]]]; try done; lia.
Qed.

(** Flag updates of [s] keep everything but the flag of [s]. *)
Lemma flag_upd_frame s v m m' :
  0 <= s < nswap -> flag_upd m s v m' ->
  frame s m m' /\ (forall base i f, work_area s base i -> sec m base i f -> sec m' base i f).
Proof.
  intros Hs (Hok & Hout & _ & Hother). pose proof (flag_addr_bound s Hs) as Hfa.
  pose proof geo_hdr. pose proof geo_disj_bu. pose proof geo_disj_bs. pose proof geo_disj_us.
  assert (forall a, (BOOT <= a < BOOT + PS \/ UPD <= a < UPD + (PS - SS) \/
    UPD + PS - 5 <= a \/ SWP <= a < SWP + SS) -> m' a = m a) as Hkeep.
  { intros a Ha. apply Hout. unfold flag_addr, PART_UPDATE_ENDFLAGS. lia. }
  split; [split; [auto|]; split; [|split; [|split]]|].
  - unfold magic_set, mle32, magic_addr, PART_UPDATE_ENDFLAGS. simpl Z.eqb. cbv iota.
    by rewrite !Hkeep by lia.
  - unfold state_of, magic_addr, PART_UPDATE_ENDFLAGS. simpl Z.eqb. cbv iota.
    by rewrite !Hkeep by lia.
  - intros x f Hx Hne Hsec j Hj. pose proof (sec_bound x Hx).
    rewrite Hkeep by lia. by apply Hsec.
  - intros x f Hx Hne Hsec j Hj. pose proof (sec_bound x Hx).
    rewrite Hkeep by lia. by apply Hsec.
  - intros base i f Hw Hsec j Hj. pose proof (sec_bound s Hs).
    rewrite Hkeep; [by apply Hsec|]. destruct Hw as [[-> ->]|[[-> ->]|[-> ->]]]; lia.
Qed.

(** An image handle for partition [p] at [base]. *)
Definition handle (img : wolfBoot_image) (base p : Z) : Prop := hdr img = base /\ part img = p.

Lemma swap_at_inv s m : 0 <= s <= nswap -> swap_at s m -> swap_inv m.
Proof. intros. by exists s. Qed.

Lemma swap_at_next s m : 0 <= s < nswap -> swap_at s m -> sec_done m s -> swap_at (s + 1) m.
Proof.
  intros Hs (Hok & Hmg & Hlo & Hhi & _) Hd. split; [done|]. split; [done|]. split; [|split].
  - intros i Hi. destruct (Z.eq_dec i s) as [->|]; [done|]. apply Hlo. lia.
  - intros i Hi. apply Hhi. lia.
  - intros. left. apply Hhi. lia.
Qed.

(** The nibbles of a flag update cut short. *)
Lemma between_cases old new t :
  between old new t -> 0 <= old < 16 ->
  In t (List.filter (fun t => (Z.land t old =? t) && (Z.lor t (Z.land old new) =? t)) (seqZ 0 16)).
Proof.
  intros [H1 H2] Ho. apply filter_In. rewrite H1, H2, !Z.eqb_refl. split; [|done].
  apply list_elem_of_In, elem_of_seqZ.
  assert (0 <= t) by (rewrite <- H1; apply Z.land_nonneg; lia).
  rewrite <- H1, Z.land_comm. apply (land_range old t 4); lia.
Qed.

Lemma chl_mark_sector s nf m :
  0 <= s < nswap -> 0 <= nf < 16 -> mem_ok m -> magic_set m PART_UPDATE = true ->
  chl (at_mem m) (mark_sector s nf)
    (fun _ st => flashLocked st = false /\
       flag_upd m s (Z.land (sector_flag m s) nf) (fmem st))
    (fun m' => exists t, between (sector_flag m s) nf t /\ flag_upd m s t m').
Proof.
  intros Hs Hnf Hok Hmg. destruct part_sectors as (n & Hn & HP & Hns & Hn2 & Hfl).
  pose proof (sec_bound s Hs). pose proof geo_boot. unfold mark_sector.
  assert ((s + 1) * SS = s * SS + SS) as -> by lia. rewrite u32_small by lia.
  replace (_ <? PS) with true by (symmetry; apply Z.ltb_lt; pose proof geo_hdr; lia).
  apply (chl_map _ _ (fun _ => tt)).
  eapply chl_conseq; [apply (chl_set_flag s nf m); [lia|done..]|done| |done].
  simpl. intros r st (_ & H1 & H2). done.
Qed.

Section Steps.
Context (swap boot update : wolfBoot_image) (s : Z).
Context (Hswap : handle swap SWP PART_SWAP) (Hboot : handle boot BOOT PART_BOOT)
  (Hupd : handle update UPD PART_UPDATE).
Context (Hswsz : fw_size swap = SS) (Hs : 0 <= s < nswap).

(** A copy into one of the three areas, with its flag, as seen by the exchange. *)
Lemma chl_copy_area src dst base i sbase si m :
  swap_at s m -> work_area s base i -> work_area s sbase si -> base <> sbase ->
  part src <> part dst -> 0 <= fw_size src -> fw_size src + IMAGE_HEADER_SIZE <= PS ->
  hdr src + sector_offset src s = sbase + si * SS ->
  hdr dst + sector_offset dst s = base + i * SS ->
  chl (at_mem m) (wolfBoot_copy_sector src dst s)
    (fun r st => r = SS /\ flashLocked st = false /\ only_changes m (base + i * SS) SS (fmem st) /\
       sec (fmem st) base i (fun j => copied (sector_offset src s) (fw_size src) j (m (sbase + si * SS + j))))
    (only_changes m (base + i * SS) SS).
Proof.
  intros (Hok & _) Hw Hw' Hne Hp Hf1 Hf2 Hsa Hda. rewrite <- Hsa, <- Hda.
  pose proof (sec_bound s Hs). pose proof geo_hdr.
  eapply chl_conseq; [apply (chl_copy_sector src dst s m); try done; try lia|done| |done].
  - rewrite Hsa, Hda. pose proof geo_disj_bu. pose proof geo_disj_bs. pose proof geo_disj_us.
    destruct Hw as [[-> ->]|[[-> ->]|[-> ->]]], Hw' as [[-> ->]|[[-> ->]|[-> ->]]]; try done; lia.
  - intros r st (-> & HL & Hoc & Hj). split; [done|]. split; [done|]. split; [done|].
    intros j Hjr. rewrite <- Hda. by apply Hj.
Qed.

Definition sec_mid (m : mem) : Prop :=
  sec_todo m s \/ sec_saved m s \/ sec_backed m s \/ sec_done m s.

(** The areas other than the one at [base] are kept. *)
Definition keeps (base : Z) (m m' : mem) : Prop :=
  forall base' i' f, work_area s base' i' -> base' <> base -> sec m base' i' f -> sec m' base' i' f.

(** One step of the exchange: a copy, then the flag that records it. *)
Lemma chl_phase src dst nf base i sbase si m f (k : Z -> prog Z) Q :
  swap_at s m -> 0 <= nf < 16 -> work_area s base i -> work_area s sbase si -> base <> sbase ->
  part src <> part dst -> 0 <= fw_size src -> fw_size src + IMAGE_HEADER_SIZE <= PS ->
  hdr src + sector_offset src s = sbase + si * SS ->
  hdr dst + sector_offset dst s = base + i * SS ->
  (forall j, 0 <= j < SS ->
     copied (sector_offset src s) (fw_size src) j (m (sbase + si * SS + j)) = f j) ->
  (forall m', keeps base m m' -> sector_flag m' s = sector_flag m s -> sec_mid m') ->
  (forall t m', between (sector_flag m s) nf t -> keeps base m m' -> sec m' base i f ->
     sector_flag m' s = t -> sec_mid m') ->
  (forall m', keeps base m m' -> sec m' base i f -> swap_at s m' ->
     sector_flag m' s = Z.land (sector_flag m s) nf -> chl (at_mem m') (k SS) Q swap_inv) ->
  chl (at_mem m)
    (let* r := wolfBoot_copy_sector src dst s in
     if r <? 0 then Ret r else let* _ := mark_sector s nf in k r) Q swap_inv.
Proof.
  intros Hat Hnf Hw Hw' Hne Hp Hf1 Hf2 Hsa Hda Hf Hcopy Hflag Hk.
  assert (forall m', only_changes m (base + i * SS) SS m' -> keeps base m m') as Hkeep.
  { intros m' Hoc base' i' g Hw2 Hb. by apply (only_changes_sec s base i). }
  eapply chl_bind.
  { eapply chl_conseq; [by apply (chl_copy_area src dst base i sbase si m)|done| |].
    - intros r st Hr. exact Hr.
    - intros m' Hoc. destruct (only_changes_frame s base i m m') as [Hfr Hfl]; [done..|].
      apply (swap_at_inv s); [lia|]. eapply frame_swap_at; [done|by destruct Hoc|done..|].
      by apply Hcopy; [apply Hkeep|]. }
  intros r. apply chl_pre. intros st (-> & HL & Hoc & Hsec).
  pose proof geo_hdr. replace (SS <? 0) with false by (symmetry; apply Z.ltb_ge; lia).
  set (m1 := fmem st) in *.
  destruct (only_changes_frame s base i m m1) as [Hfr Hfl]; [done..|].
  assert (sec m1 base i f) as Hsec1.
  { intros j Hj. rewrite <- Hf by done. by apply Hsec. }
  assert (swap_at s m1) as Hat1.
  { eapply frame_swap_at; [done|by destruct Hoc|done..|]. apply Hcopy; [by apply Hkeep|done]. }
  assert (forall v m', flag_upd m1 s v m' -> keeps base m m' /\ sec m' base i f /\ frame s m1 m') as Hup.
  { intros v m' Hu. destruct (flag_upd_frame s v m1 m') as [Hfr2 Hs2]; [done..|].
    split; [|split; [by apply Hs2|done]]. intros base' i' g Hw2 Hb Hg.
    apply Hs2; [done|]. by apply (Hkeep _ Hoc). }
  eapply chl_bind.
  { eapply chl_conseq; [apply (chl_mark_sector s nf m1); [done|done| |]; by destruct Hat1 as (? & [? _] & _)| | |].
    - intros st' ->. by split.
    - intros u st' Hst. exact Hst.
    - intros m' (t & Hb & Hu). destruct (Hup t m' Hu) as (H1 & H2 & H3).
      apply (swap_at_inv s); [lia|]. eapply frame_swap_at; [done|by destruct Hu|done..|].
      apply (Hflag t); [by rewrite <- Hfl|done|done|by destruct Hu as (_ & _ & ? & _)]. }
  intros u. apply (chl_at_mem (flag_upd m1 s (Z.land (sector_flag m1 s) nf))).
  intros m2 Hu. destruct (Hup _ m2 Hu) as (H1 & H2 & H3). rewrite Hfl in Hu.
  pose proof Hu as (Hok2 & _ & Hv & _).
  apply Hk; [done..| |done]. eapply frame_swap_at; [done|done|done|done|].
  eapply Hflag; [apply between_new|done|done|done].
Qed.

(** Result of working on sector [s]. *)
Definition step_post (r : Z) (st : flash) : Prop :=
  0 <= r /\ flashLocked st = false /\ swap_at s (fmem st) /\ sec_done (fmem st) s.

Lemma work_boot : work_area s BOOT s. Proof. left. done. Qed.
Lemma work_upd : work_area s UPD s. Proof. right; left. done. Qed.
Lemma work_swp : work_area s SWP 0. Proof. right; right. done. Qed.

Lemma areas_distinct : BOOT <> UPD /\ BOOT <> SWP /\ UPD <> SWP.
Proof.
  pose proof geo_disj_bu. pose proof geo_disj_bs. pose proof geo_disj_us. pose proof geo_hdr.
  destruct part_sectors as (n & Hn & HP & _). nia.
Qed.

Lemma copied_full j v : 0 <= j < SS -> copied 0 SS j v = v.
Proof.
  intros Hj. unfold copied. pose proof geo_buf. pose proof geo_hdr.
  pose proof (Z.mul_div_le j FLASHBUFFER_SIZE).
  by replace (_ <? _) with true by (symmetry; apply Z.ltb_lt; lia).
Qed.

Lemma offset_swap img : part img = PART_SWAP -> sector_offset img s = 0.
Proof. intros Hp. unfold sector_offset. by rewrite Hp. Qed.
Lemma offset_boot img : part img = PART_BOOT -> sector_offset img s = s * SS.
Proof. intros Hp. unfold sector_offset. by rewrite Hp. Qed.
Lemma offset_upd img : part img = PART_UPDATE -> sector_offset img s = s * SS.
Proof. intros Hp. unfold sector_offset. by rewrite Hp. Qed.

Lemma swap_fits : SS + IMAGE_HEADER_SIZE <= PS.
Proof. destruct part_sectors as (n & Hn & HP & _). pose proof geo_hdr. nia. Qed.

(** Side conditions of [chl_phase]. *)
Ltac phase_side :=
  pose proof areas_distinct; pose proof swap_fits; pose proof geo_hdr;
  destruct Hswap as [Hsw1 Hsw2], Hboot as [Hb1 Hb2], Hupd as [Hu1 Hu2];
  first
    [ done | apply work_boot | apply work_upd | apply work_swp
    | unfold SECT_FLAG_UPDATED, SECT_FLAG_BACKUP, SECT_FLAG_SWAPPING; lia
    | rewrite Hsw2, Hb2; done | rewrite Hb2, Hu2; done | rewrite Hu2, Hsw2; done
    | rewrite ?offset_swap, ?offset_boot, ?offset_upd by done; lia ].

Lemma chl_case_backup m :
  swap_at s m -> sec_backed m s ->
  chl (at_mem m) (swap_case_backup swap boot s) step_post swap_inv.
Proof.
  intros Hat (Hf & Hu & Hw).
  apply (chl_phase swap boot SECT_FLAG_UPDATED BOOT s SWP 0 m (new_boot s) (fun r => Ret r));
    try solve [phase_side].
  - intros j Hj. rewrite offset_swap by apply Hswap. rewrite Hswsz, copied_full by done.
    by apply Hw.
  - intros m' Hk Hfl. right; right; left. split; [congruence|].
    split; (apply Hk; [phase_side..|done]).
  - intros t m' Hb Hk Hsec Hfl. rewrite Hf in Hb.
    apply between_cases in Hb; [|unfold SECT_FLAG_BACKUP; lia]. vm_compute in Hb.
    destruct (Z.eq_dec t 3) as [E|E].
    + right; right; left. split; [by rewrite Hfl, E|]. split; (apply Hk; [phase_side..|done]).
    + right; right; right. split; [|split; [done|apply Hk; [phase_side..|done]]].
      rewrite Hfl. repeat (destruct Hb as [<-|Hb]; [lia|]). done.
  - intros m' Hk Hsec Hat' Hfl. apply chl_ret. unfold step_post. intros st [-> HL]. split.
    + split; [pose proof geo_hdr; lia|]. split; [done|]. split; [done|].
      split; [rewrite Hfl, Hf; vm_compute; split; discriminate|].
      split; [done|apply Hk; [phase_side..|done]].
    + apply (swap_at_inv s); [lia|done].
Qed.

Lemma chl_case_swapping m :
  swap_at s m -> sec_saved m s -> fw_size boot = B ->
  chl (at_mem m) (swap_case_swapping swap boot update s) step_post swap_inv.
Proof.
  intros Hat (Hf & Hb & Hw) HfwB.
  apply (chl_phase boot update SECT_FLAG_BACKUP UPD s BOOT s m (new_upd s)
    (fun _ => swap_case_backup swap boot s)); try solve [phase_side].
  - intros j Hj. rewrite offset_boot by apply Hboot. rewrite HfwB.
    unfold new_upd. f_equal. by apply Hb.
  - intros m' Hk Hfl. right; left. split; [congruence|].
    split; (apply Hk; [phase_side..|done]).
  - intros t m' Hbt Hk Hsec Hfl. rewrite Hf in Hbt.
    apply between_cases in Hbt; [|unfold SECT_FLAG_SWAPPING; lia]. vm_compute in Hbt.
    destruct (Z.eq_dec t 7) as [E|E].
    + right; left. split; [by rewrite Hfl, E|]. split; (apply Hk; [phase_side..|done]).
    + right; right; left. split; [|split; [done|apply Hk; [phase_side..|done]]].
      rewrite Hfl. repeat (destruct Hbt as [<-|Hbt]; [done|]). done.
  - intros m' Hk Hsec Hat' Hfl. apply chl_case_backup; [done|].
    split; [rewrite Hfl, Hf; done|]. split; [done|apply Hk; [phase_side..|done]].
Qed.

Lemma chl_case_new m :
  swap_at s m -> sec_todo m s -> fw_size boot = B -> fw_size update = U ->
  chl (at_mem m) (swap_case_new swap boot update s) step_post swap_inv.
Proof.
  intros Hat (Hf & Hb & Hu) HfwB HfwU.
  apply (chl_phase update swap SECT_FLAG_SWAPPING SWP 0 UPD s m (new_boot s)
    (fun _ => swap_case_swapping swap boot update s)); try solve [phase_side].
  - intros j Hj. rewrite offset_upd by apply Hupd. rewrite HfwU.
    unfold new_boot. f_equal. by apply Hu.
  - intros m' Hk Hfl. left. split; [congruence|].
    split; (apply Hk; [phase_side..|done]).
  - intros t m' Hbt Hk Hsec Hfl. rewrite Hf in Hbt.
    apply between_cases in Hbt; [|unfold SECT_FLAG_NEW; lia]. vm_compute in Hbt.
    destruct (Z.eq_dec t 15) as [E|E].
    + left. split; [by rewrite Hfl, E|]. split; (apply Hk; [phase_side..|done]).
    + right; left. split; [|split; [apply Hk; [phase_side..|done]|done]].
      rewrite Hfl. repeat (destruct Hbt as [<-|Hbt]; [done|]). done.
  - intros m' Hk Hsec Hat' Hfl. apply chl_case_swapping; [done| |done].
    split; [rewrite Hfl, Hf; done|]. split; [apply Hk; [phase_side..|done]|done].
Qed.

(** What the sizes in the handles have to be for the work left on [s]. *)
Definition sizes_ok (m : mem) : Prop :=
  (sector_flag m s = SECT_FLAG_NEW -> fw_size boot = B /\ fw_size update = U) /\
  (sector_flag m s = SECT_FLAG_SWAPPING -> fw_size boot = B).

Lemma chl_swap_sector m :
  swap_at s m -> sizes_ok m ->
  chl (at_mem m) (swap_sector swap boot update s) step_post swap_inv.
Proof.
  intros Hat [Hz1 Hz2]. unfold swap_sector. pose proof Hat as (_ & [Hmg _] & _ & _ & Hmid).
  destruct part_sectors as (n & Hn & HP & Hns & Hn2 & _).
  eapply chl_bind_ro; [apply ro_get_update_sector_flag; lia| |].
  { intros st [-> _]. apply (swap_at_inv s); [lia|done]. }
  intros m1. apply chl_pre. intros st [[Hm HL] Hm1].
  assert (m1 = m) as -> by congruence. rewrite Hmg. cbv iota beta.
  eapply (chl_conseq _ (at_mem m)); [|by intros ? ->|done|done].
  destruct (Hmid ltac:(lia)) as [H|[H|[H|H]]]; pose proof H as (Hfl & _).
  - rewrite Hfl. simpl Z.eqb. cbv iota. destruct (Hz1 Hfl). by apply chl_case_new.
  - rewrite Hfl. simpl Z.eqb. cbv iota. apply chl_case_swapping; auto.
  - rewrite Hfl. simpl Z.eqb. cbv iota. by apply chl_case_backup.
  - unfold SECT_FLAG_NEW, SECT_FLAG_SWAPPING, SECT_FLAG_BACKUP.
    do 3 (rewrite (proj2 (Z.eqb_neq _ _)) by lia).
    apply chl_ret. unfold step_post. intros s' [-> HL']. split; [by split_and!|]. apply (swap_at_inv s); [lia|done].
Qed.

End Steps.

(** *** Handles opened from the memory *)

Lemma mle32_range m a : mem_ok m -> 0 <= mle32 m a < 2 ^ 32.
Proof.
  intros Hok. unfold mle32. pose proof (Hok a). pose proof (Hok (a + 1)).
  pose proof (Hok (a + 2)). pose proof (Hok (a + 3)). wblia.
Qed.

(** Where the image of [p] starts. *)
Definition part_base (p : Z) : Z := if p =? PART_BOOT then BOOT else UPD.

Lemma open_image_handle m p :
  p = PART_BOOT \/ p = PART_UPDATE ->
  handle (snd (wolfBoot_open_image m p)) (part_base p) p.
Proof.
  intros Hp. unfold handle, wolfBoot_open_image, wolfBoot_open_image_address, part_base.
  destruct Hp as [-> | ->]; simpl; destruct (_ =? WOLFBOOT_MAGIC); simpl; try done;
    destruct (_ <? _); simpl; done.
Qed.

Lemma open_image_valid m p sz :
  p = PART_BOOT \/ p = PART_UPDATE -> mle32 m (part_base p) = WOLFBOOT_MAGIC ->
  mle32 m (part_base p + 4) = sz -> sz <= PS - IMAGE_HEADER_SIZE ->
  fst (wolfBoot_open_image m p) = 0 /\ fw_size (snd (wolfBoot_open_image m p)) = sz.
Proof.
  intros Hp Hm Hsz Hle. unfold wolfBoot_open_image, wolfBoot_open_image_address, part_base in *.
  destruct Hp as [-> | ->]; simpl in *; rewrite Hm; simpl;
    unfold wolfBoot_image_size; rewrite Hsz;
    rewrite (proj2 (Z.ltb_ge _ _)) by lia; done.
Qed.

Lemma total_size_eq boot update :
  0 <= fw_size boot -> fw_size boot + IMAGE_HEADER_SIZE <= PS ->
  0 <= fw_size update -> fw_size update + IMAGE_HEADER_SIZE <= PS ->
  wolfBoot_get_total_size boot update = Z.max (fw_size boot) (fw_size update) + IMAGE_HEADER_SIZE.
Proof.
  intros. unfold wolfBoot_get_total_size. pose proof geo_boot. pose proof geo_hdr.
  rewrite !u32_small by lia. case_if; lia.
Qed.

(** The images of the memory before the update. *)
Context (HmB : mle32 m0 BOOT = WOLFBOOT_MAGIC) (HszB : mle32 m0 (BOOT + 4) = B).
Context (HmU : mle32 m0 UPD = WOLFBOOT_MAGIC) (HszU : mle32 m0 (UPD + 4) = U).

(** The first bytes of an exchanged partition are those of the other image. *)
Lemma head_copied size j v : 0 <= size -> 0 <= j < 8 -> copied (0 * SS) size j v = v.
Proof.
  intros Hz Hj. unfold copied. pose proof geo_buf. pose proof geo_hdr.
  pose proof (Z.mul_div_le j FLASHBUFFER_SIZE).
  by replace (_ <? _) with true by (symmetry; apply Z.ltb_lt; lia).
Qed.

Lemma sec_head m base f g a :
  sec m base 0 f -> (forall j, 0 <= j < 8 -> f j = g (a + j)) ->
  mle32 m base = mle32 g a /\ mle32 m (base + 4) = mle32 g (a + 4).
Proof.
  intros Hs Hf. pose proof geo_hdr.
  assert (forall j, 0 <= j < 8 -> m (base + j) = g (a + j)) as Hj.
  { intros j Hj. rewrite <- Hf by done. rewrite <- (Hs j) by lia. f_equal. lia. }
  unfold mle32. rewrite <- !Z.add_assoc. simpl Z.add.
  pose proof (Hj 0 ltac:(lia)) as H0. rewrite !Z.add_0_r in H0.
  rewrite H0, !Hj by lia. done.
Qed.

Lemma reopen_after m :
  sec_done m 0 -> let '(tot, boot, update) := swap_reopen m in
  tot = total /\ handle boot BOOT PART_BOOT /\ handle update UPD PART_UPDATE /\
  fw_size boot = B /\ fw_size update = U.
Proof.
  intros (_ & Hb & Hu). pose proof geo_hdr.
  destruct (sec_head m BOOT (new_boot 0) m0 UPD Hb) as [Hb1 Hb2].
  { intros j Hj. unfold new_boot. rewrite head_copied by done. unfold orig_upd. f_equal. lia. }
  destruct (sec_head m UPD (new_upd 0) m0 BOOT Hu) as [Hu1 Hu2].
  { intros j Hj. unfold new_upd. rewrite head_copied by done. unfold orig_boot. f_equal. lia. }
  destruct (open_image_valid m PART_BOOT U) as [_ Ho1]; unfold part_base; simpl; [auto|congruence..|lia|].
  destruct (open_image_valid m PART_UPDATE B) as [_ Ho2]; unfold part_base; simpl; [auto|congruence..|lia|].
  pose proof (open_image_handle m PART_BOOT ltac:(auto)) as [Hh1 Hh2].
  pose proof (open_image_handle m PART_UPDATE ltac:(auto)) as [Hh3 Hh4].
  unfold swap_reopen. rewrite Ho1, Ho2.
  split; [|by split_and!]. rewrite total_size_eq; simpl; [done|lia..].
Qed.

(** *** The loop *)

Definition loop_inv (swap : wolfBoot_image) (st : swap_state) (f : flash) : Prop :=
  flashLocked f = false /\ 0 <= ss_sector st <= nswap /\
  (exists k, ss_sector st <= k <= nswap /\ swap_at k (fmem f)) /\
  handle (ss_boot st) BOOT PART_BOOT /\ handle (ss_update st) UPD PART_UPDATE /\
  if ss_sector st =? 0
  then 0 < ss_total_size st /\ sizes_ok (ss_boot st) (ss_update st) 0 (fmem f)
  else ss_total_size st = total /\ fw_size (ss_boot st) = B /\ fw_size (ss_update st) = U.

(** A sector whose flag says it is exchanged is skipped. *)
Lemma chl_swap_skip swap boot update s k m :
  0 <= s < k -> k <= nswap -> swap_at k m ->
  chl (at_mem m) (swap_sector swap boot update s)
    (fun r st => r = 0 /\ flashLocked st = false /\ fmem st = m) swap_inv.
Proof.
  intros Hs Hk Hat. unfold swap_sector. pose proof Hat as (Hok & [Hmg _] & Hlo & Hrest).
  assert (swap_inv m) as Hinv by (exists k; split; [lia|done]).
  destruct part_sectors as (n & Hn & HP & Hns & Hn2 & _).
  eapply chl_bind_ro; [apply ro_get_update_sector_flag; lia|by intros st [-> _]|].
  intros m1. apply chl_pre. intros st [[Hm HL] Hm1]. assert (m1 = m) as -> by congruence.
  rewrite Hmg. cbv iota beta. destruct (Hlo s ltac:(lia)) as (Hfl & _).
  unfold SECT_FLAG_NEW, SECT_FLAG_SWAPPING, SECT_FLAG_BACKUP.
  do 3 (rewrite (proj2 (Z.eqb_neq _ _)) by lia).
  apply chl_ret. intros s' ->. by rewrite Hm.
Qed.

(** One sector of the loop, whichever state it is in. *)
Lemma chl_loop_sector swap st m k :
  handle swap SWP PART_SWAP -> fw_size swap = SS -> ss_sector st < nswap ->
  0 <= ss_sector st <= k -> k <= nswap -> swap_at k m ->
  handle (ss_boot st) BOOT PART_BOOT -> handle (ss_update st) UPD PART_UPDATE ->
  sizes_ok (ss_boot st) (ss_update st) (ss_sector st) m ->
  chl (at_mem m) (swap_sector swap (ss_boot st) (ss_update st) (ss_sector st))
    (fun r f => 0 <= r /\ flashLocked f = false /\
       (exists k, ss_sector st + 1 <= k <= nswap /\ swap_at k (fmem f)) /\
       (ss_sector st = 0 -> sec_done (fmem f) 0)) swap_inv.
Proof.
  intros Hsw Hz Hlt Hk1 Hk2 Hat Hb Hu Hso. destruct (Z.eq_dec k (ss_sector st)) as [->|Hne].
  - assert (0 <= ss_sector st < nswap) as Hr by lia.
    eapply chl_conseq; [by apply chl_swap_sector|done| |done].
    intros r f (Hr0 & HL & Hat' & Hd). split; [done|]. split; [done|]. split.
    + exists (ss_sector st + 1). split; [lia|]. by apply swap_at_next.
    + intros E. by rewrite E in Hd.
  - eapply chl_conseq; [apply (chl_swap_skip swap _ _ (ss_sector st) k m); [lia|done..]|done| |done].
    intros r f (-> & HL & Hm). split; [done|]. split; [done|]. rewrite Hm. split.
    + exists k. split; [lia|done].
    + intros E. destruct Hat as (_ & _ & Hlo & _). apply Hlo. lia.
Qed.

Lemma chl_swap_body swap st :
  handle swap SWP PART_SWAP -> fw_size swap = SS ->
  chl (loop_inv swap st) (swap_body swap st)
    (fun x f => match x with
     | inl st' => loop_inv swap st' f /\
         (Z.to_nat (nswap - ss_sector st') < Z.to_nat (nswap - ss_sector st))%nat
     | inr r => exists st', r = Some st' /\ flashLocked f = false /\ swapped (fmem f) /\
         state_of (fmem f) PART_UPDATE <> IMG_STATE_FINAL_FLAGS /\ ss_sector st' = nswap /\
         handle (ss_boot st') BOOT PART_BOOT /\ handle (ss_update st') UPD PART_UPDATE
     end) swap_inv.
Proof.
  intros Hsw Hz. apply chl_pre. intros f (HL & Hsec & (k & Hk & Hat) & Hb & Hu & Hcase).
  pose proof geo_hdr as Hh. pose proof geo_boot as Hbt.
  destruct part_sectors as (n & Hn & HP & Hns & Hn2 & _).
  assert (0 <= ss_sector st * SS <= PS) as Hsm by nia.
  assert (0 < nswap) as Hpos by (apply nswap_spec; unfold total; lia).
  assert (swap_inv (fmem f)) as Hinv by (exists k; split; [lia|done]).
  unfold swap_body. rewrite u32_small by lia. case_if.
  - assert (ss_sector st = nswap) as Hend.
    { destruct (Z.eqb_spec (ss_sector st) 0) as [E0|]; [lia|].
      destruct Hcase as (Ht & _). enough (~ ss_sector st < nswap) by lia.
      rewrite nswap_spec by lia. lia. }
    apply chl_ret. intros s ->. split; [|done]. exists st. split; [done|]. split; [done|].
    destruct Hat as (Hok & (Hmg & Hst & Hst2) & Hlo & _).
    split; [|done]. split; [done|]. split; [done|]. intros i Hi. apply Hlo. lia.
  - assert (ss_sector st < nswap) as Hlt.
    { destruct (Z.eqb_spec (ss_sector st) 0) as [->|]; [done|].
      destruct Hcase as (Ht & _). apply nswap_spec; [lia|]. lia. }
    assert (sizes_ok (ss_boot st) (ss_update st) (ss_sector st) (fmem f)) as Hso.
    { destruct (Z.eqb_spec (ss_sector st) 0) as [->|]; [tauto|].
      destruct Hcase as (_ & ? & ?). split; auto. }
    eapply chl_bind.
    { eapply chl_conseq; [apply (chl_loop_sector swap st (fmem f) k); try done; lia|by intros ? ->| |done].
      intros r s H. exact H. }
    intros r. apply chl_pre. intros s1 (Hr & HL1 & (k1 & Hk1 & Hat1) & Hd0).
    rewrite (proj2 (Z.ltb_ge r 0)) by lia.
    assert (swap_inv (fmem s1)) as Hinv1 by (exists k1; split; [lia|done]).
    destruct (Z.eqb_spec (ss_sector st + 1) 1) as [E1|E1].
    + apply chl_bind_look; [by intros ? ->|]. intros m1. apply chl_pre. intros s2 [-> <-].
      pose proof (reopen_after (fmem s1) (Hd0 ltac:(lia))) as Hre.
      destruct (swap_reopen (fmem s1)) as [[tot boot] update].
      destruct Hre as (Ht & Hb' & Hu' & HB' & HU'). apply chl_ret. intros s3 ->.
      split; [|done]. split; [|simpl; lia]. unfold loop_inv. simpl.
      rewrite (proj2 (Z.eqb_neq _ _)) by lia. split; [done|]. split; [lia|].
      split; [by exists k1|]. done.
    + apply chl_ret. intros s3 ->. split; [|done]. split; [|simpl; lia].
      unfold loop_inv. simpl. rewrite (proj2 (Z.eqb_neq _ _)) by lia.
      rewrite (proj2 (Z.eqb_neq (ss_sector st) 0)) in Hcase by lia.
      split; [done|]. split; [lia|]. split; [by exists k1|]. done.
Qed.

Lemma swap_handle m :
  handle (snd (wolfBoot_open_image m PART_SWAP)) SWP PART_SWAP /\
  fw_size (snd (wolfBoot_open_image m PART_SWAP)) = SS.
Proof. done. Qed.

Lemma open_image_size m p :
  mem_ok m -> 0 <= fw_size (snd (wolfBoot_open_image m p)) /\
  fw_size (snd (wolfBoot_open_image m p)) + IMAGE_HEADER_SIZE <= PS.
Proof.
  intros Hok. pose proof geo_hdr. pose proof swap_fits. pose proof (mle32_range m (BOOT + 4) Hok). pose proof (mle32_range m (UPD + 4) Hok).
  unfold wolfBoot_open_image, wolfBoot_open_image_address, wolfBoot_image_size.
  case_if; [simpl; lia|]. case_if; [simpl; lia|]. simpl.
  case_if; simpl; [lia|]. case_if; simpl; [lia|]. destruct (p =? PART_BOOT); lia.
Qed.

(** Opening the images of an interrupted exchange gives the sizes that the
    work left on sector 0 needs. *)
Lemma opened_sizes_ok k m :
  0 <= k <= nswap -> swap_at k m ->
  sizes_ok (snd (wolfBoot_open_image m PART_BOOT)) (snd (wolfBoot_open_image m PART_UPDATE)) 0 m.
Proof.
  intros Hk (Hok & _ & Hlo & Hhi & Hmid). pose proof geo_hdr.
  assert (0 < nswap) as Hpos by (apply nswap_spec; unfold total; lia).
  assert (sec m BOOT 0 (orig_boot 0) -> fw_size (snd (wolfBoot_open_image m PART_BOOT)) = B) as HbB.
  { intros Hs. destruct (sec_head m BOOT (orig_boot 0) m0 BOOT Hs) as [H1 H2];
      [intros; unfold orig_boot; f_equal; lia|].
    apply (open_image_valid m PART_BOOT B); unfold part_base; simpl; [auto|congruence..|lia]. }
  assert (sec m UPD 0 (orig_upd 0) -> fw_size (snd (wolfBoot_open_image m PART_UPDATE)) = U) as HuU.
  { intros Hs. destruct (sec_head m UPD (orig_upd 0) m0 UPD Hs) as [H1 H2];
      [intros; unfold orig_upd; f_equal; lia|].
    apply (open_image_valid m PART_UPDATE U); unfold part_base; simpl; [auto|congruence..|lia]. }
  assert (sec_todo m 0 \/ sec_saved m 0 \/ sec_backed m 0 \/ sec_done m 0) as H0.
  { destruct (Z.eq_dec k 0) as [->|]; [by apply Hmid|]. right; right; right. apply Hlo. lia. }
  unfold sizes_ok, SECT_FLAG_NEW, SECT_FLAG_SWAPPING.
  destruct H0 as [(Hf & H1 & H2)|[(Hf & H1 & H2)|[(Hf & H1 & H2)|(Hf & H1 & H2)]]];
    try rewrite Hf; split; intros Hx; auto; try done; lia.
Qed.

(** The exchange alone: the loop of [wolfBoot_update] on the memory [m], past its checks.
    [wolfBoot_update] itself returns before the loop when the UPDATE partition does
    not open ([update_open < 0]), which is in its definition in UpdateFlash.v and not in
    this one. *)
Definition swap_from (m : mem) : prog (option swap_state) :=
  let boot := snd (wolfBoot_open_image m PART_BOOT) in
  let update := snd (wolfBoot_open_image m PART_UPDATE) in
  let swap := snd (wolfBoot_open_image m PART_SWAP) in
  swap_loop swap (mkSwap 0 (wolfBoot_get_total_size boot update) boot update).

(** What the loop returns. *)
Definition swap_post (r : option swap_state) (f : flash) : Prop :=
  exists st, r = Some st /\ flashLocked f = false /\ swapped (fmem f) /\
    state_of (fmem f) PART_UPDATE <> IMG_STATE_FINAL_FLAGS /\ ss_sector st = nswap /\
    handle (ss_boot st) BOOT PART_BOOT /\ handle (ss_update st) UPD PART_UPDATE.

Lemma chl_swap_loop boot update tot m :
  swap_inv m -> 0 < tot -> handle boot BOOT PART_BOOT -> handle update UPD PART_UPDATE ->
  sizes_ok boot update 0 m ->
  chl (at_mem m) (swap_loop (snd (wolfBoot_open_image m PART_SWAP)) (mkSwap 0 tot boot update))
    swap_post swap_inv.
Proof.
  intros (k & Hk & Hat) Ht Hb Hu Hz. destruct (swap_handle m) as [Hs1 Hs2].
  destruct part_sectors as (n & Hn & HP & Hns & _). pose proof geo_hdr.
  eapply chl_conseq.
  - apply (chl_ploop (loop_inv (snd (wolfBoot_open_image m PART_SWAP)))
      (fun st => Z.to_nat (nswap - ss_sector st)) swap_post swap_inv).
    + intros st. by apply chl_swap_body.
    + simpl. unfold sectors_fuel. rewrite HP, Z.div_mul by lia. lia.
  - intros f [<- HL]. unfold loop_inv. simpl. split; [done|]. split; [lia|].
    split; [by exists k|]. done.
  - done.
  - done.
Qed.

Lemma chl_swap_from m : swap_inv m -> chl (at_mem m) (swap_from m) swap_post swap_inv.
Proof.
  intros Hinv. pose proof Hinv as (k & Hk & Hat). pose proof Hat as (Hok & _).
  destruct (open_image_size m PART_BOOT Hok), (open_image_size m PART_UPDATE Hok).
  pose proof geo_hdr. apply chl_swap_loop; [done| | | |by eapply opened_sizes_ok].
  - rewrite total_size_eq by lia. lia.
  - apply (open_image_handle m PART_BOOT). auto.
  - apply (open_image_handle m PART_UPDATE). auto.
Qed.

End Swap.

(** ** Results *)

(** A memory in which an update is about to start: two images of [B] and [U]
    firmware bytes that leave the last sector of their partitions free, and an
    UPDATE trailer in use whose sector flags are all NEW and whose state
    FINAL_FLAGS can still be reached. *)
Record update_start {c : config} (m0 : mem) (B U : Z) : Prop := UpdateStart {
  us_ok : mem_ok m0;
  us_trailer : trailer_live m0;
  us_B : 0 <= B /\ B + IMAGE_HEADER_SIZE <= WOLFBOOT_PARTITION_SIZE - WOLFBOOT_SECTOR_SIZE;
  us_U : 0 <= U /\ U + IMAGE_HEADER_SIZE <= WOLFBOOT_PARTITION_SIZE - WOLFBOOT_SECTOR_SIZE;
  us_boot : mle32 m0 WOLFBOOT_PARTITION_BOOT_ADDRESS = WOLFBOOT_MAGIC /\
    mle32 m0 (WOLFBOOT_PARTITION_BOOT_ADDRESS + 4) = B;
  us_upd : mle32 m0 WOLFBOOT_PARTITION_UPDATE_ADDRESS = WOLFBOOT_MAGIC /\
    mle32 m0 (WOLFBOOT_PARTITION_UPDATE_ADDRESS + 4) = U;
  us_flags : forall i, 0 <= i < nswap B U -> sector_flag m0 i = SECT_FLAG_NEW;
}.

Section Results.
Context {c : config} {G : geometry c} (m0 : mem) (B U : Z) (Hst : update_start m0 B U).

Lemma start_swap_inv : swap_inv m0 B U m0.
Proof.
  destruct Hst as [Hok Htr HB HU Hb Hu Hf]. pose proof geo_hdr.
  assert (0 < nswap B U) by (apply nswap_spec; [lia|unfold total; lia]).
  exists 0. split; [lia|]. split; [done|]. split; [done|]. split; [intros; lia|]. split.
  - intros i Hi. split; [apply Hf; lia|]. split; by intros j Hj.
  - intros _. left. split; [apply Hf; lia|]. split; by intros j Hj.
Qed.

Lemma chl_swap_start m :
  swap_inv m0 B U m -> chl (at_mem m) (swap_from m) (swap_post m0 B U) (swap_inv m0 B U).
Proof. destruct Hst as [Hok Htr [] [] [] [] Hf]. by apply chl_swap_from. Qed.

Lemma copied_image size o v :
  0 <= o < size + IMAGE_HEADER_SIZE ->
  copied (o / WOLFBOOT_SECTOR_SIZE * WOLFBOOT_SECTOR_SIZE) size (o mod WOLFBOOT_SECTOR_SIZE) v = v.
Proof.
  intros Ho. unfold copied. pose proof geo_buf. pose proof geo_hdr.
  pose proof (Z.mul_div_le (o mod WOLFBOOT_SECTOR_SIZE) FLASHBUFFER_SIZE).
  pose proof (Z.div_mod o WOLFBOOT_SECTOR_SIZE).
  by replace (_ <? _) with true by (symmetry; apply Z.ltb_lt; lia).
Qed.

(** After the exchange each partition holds the other's image, bytes for bytes. *)
Lemma swapped_images m :
  swapped m0 B U m ->
  (forall o, 0 <= o < U + IMAGE_HEADER_SIZE ->
     m (WOLFBOOT_PARTITION_BOOT_ADDRESS + o) = m0 (WOLFBOOT_PARTITION_UPDATE_ADDRESS + o)) /\
  (forall o, 0 <= o < B + IMAGE_HEADER_SIZE ->
     m (WOLFBOOT_PARTITION_UPDATE_ADDRESS + o) = m0 (WOLFBOOT_PARTITION_BOOT_ADDRESS + o)).
Proof.
  intros (_ & _ & Hd). destruct Hst as [_ _ HB HU _ _ _]. pose proof geo_hdr.
  assert (forall o, 0 <= o < total B U ->
    exists i j, o = i * WOLFBOOT_SECTOR_SIZE + j /\ i = o / WOLFBOOT_SECTOR_SIZE /\
      j = o mod WOLFBOOT_SECTOR_SIZE /\ 0 <= j < WOLFBOOT_SECTOR_SIZE /\ sec_done m0 B U m i) as Hsplit.
  { intros o Ho. exists (o / WOLFBOOT_SECTOR_SIZE), (o mod WOLFBOOT_SECTOR_SIZE).
    assert (0 < WOLFBOOT_SECTOR_SIZE) as Hp by lia.
    pose proof (Z.div_mod o WOLFBOOT_SECTOR_SIZE). pose proof (Z.mod_pos_bound o _ Hp).
    split_and!; try lia. apply Hd.
    assert (0 <= o / WOLFBOOT_SECTOR_SIZE) by (apply Z.div_pos; lia).
    split; [done|]. apply nswap_spec; lia. }
  unfold total in Hsplit. split; intros o Ho.
  - destruct (Hsplit o ltac:(lia)) as (i & j & Ho2 & Hi & Hj & Hr & _ & Hb & _).
    specialize (Hb j Hr). rewrite Ho2 at 1. rewrite Z.add_assoc, Hb. unfold new_boot.
    subst i j. rewrite copied_image by done. unfold orig_upd. f_equal. lia.
  - destruct (Hsplit o ltac:(lia)) as (i & j & Ho2 & Hi & Hj & Hr & _ & _ & Hu).
    specialize (Hu j Hr). rewrite Ho2 at 1. rewrite Z.add_assoc, Hu. unfold new_upd.
    subst i j. rewrite copied_image by done. unfold orig_boot. f_equal. lia.
Qed.

(** [m'] is left by power failing while the exchange runs on [m]. *)
Definition interrupted (m m' : mem) : Prop := crash (swap_from m) (mkFlash m false) m'.

Lemma interrupted_inv m : rtc interrupted m0 m -> swap_inv m0 B U m.
Proof.
  revert m. apply rtc_ind_r; [apply start_swap_inv|]. intros m m1 _ Hm IH.
  exact (proj2 (chl_swap_start m IH (mkFlash m false) (conj eq_refl eq_refl)) m1 Hm).
Qed.

(** C1: However many times, and wherever, power fails during the three-way
    swap of an update, running the swap again on the memory that is left
    completes it: every byte of the new image is in BOOT and every byte of the
    old one in UPDATE.  This is about the swap loop, entered past the test of
    [wolfBoot_update] that the UPDATE partition opens. *)
Theorem swap_power_safe m :
  rtc interrupted m0 m ->
  exists st f, run (swap_from m) (mkFlash m false) = (inl (Some st), f) /\
    (forall o, 0 <= o < U + IMAGE_HEADER_SIZE ->
       fmem f (WOLFBOOT_PARTITION_BOOT_ADDRESS + o) = m0 (WOLFBOOT_PARTITION_UPDATE_ADDRESS + o)) /\
    (forall o, 0 <= o < B + IMAGE_HEADER_SIZE ->
       fmem f (WOLFBOOT_PARTITION_UPDATE_ADDRESS + o) = m0 (WOLFBOOT_PARTITION_BOOT_ADDRESS + o)).
Proof.
  intros Hr. apply interrupted_inv in Hr.
  destruct (chl_swap_start m Hr (mkFlash m false) (conj eq_refl eq_refl))
    as [(r & f & Hrun & st & -> & HL & Hsw & _) _].
  exists st, f. split; [done|]. by apply swapped_images.
Qed.

End Results.

(** ** A concrete update *)

Module Example.

(** Partitions of four 16-byte sectors. *)
Definition cfg : config := {|
  WOLFBOOT_SECTOR_SIZE := 16;
  WOLFBOOT_PARTITION_SIZE := 64;
  WOLFBOOT_PARTITION_BOOT_ADDRESS := 0x100;
  WOLFBOOT_PARTITION_UPDATE_ADDRESS := 0x200;
  WOLFBOOT_PARTITION_SWAP_ADDRESS := 0x300;
  IMAGE_HEADER_SIZE := 16;
  FLASHBUFFER_SIZE := 8;
|}.
#[export] Existing Instance cfg.

#[export] Instance geo : geometry cfg.
Proof. constructor; simpl; try lia; [exists 2|exists 4]; lia. Qed.

(** Images of 20 and 8 firmware bytes, and an UPDATE trailer in state UPDATING. *)
Definition boot_bytes : list Z := le32_bytes WOLFBOOT_MAGIC ++ le32_bytes 20 ++ seqZ 0 28.
Definition update_bytes : list Z := le32_bytes WOLFBOOT_MAGIC ++ le32_bytes 8 ++ seqZ 100 16.
Definition trailer_bytes : list Z := IMG_STATE_UPDATING :: wolfboot_magic_trail.

Definition mem0 : mem := fun a =>
  if in_range 0x100 36 a then at_ boot_bytes (a - 0x100)
  else if in_range 0x200 24 a then at_ update_bytes (a - 0x200)
  else if in_range 0x23B 5 a then at_ trailer_bytes (a - 0x23B)
  else FLASH_BYTE_ERASED.

Lemma mem0_ok : mem_ok mem0.
Proof.
  assert (bytes boot_bytes /\ bytes update_bytes /\ bytes trailer_bytes) as (H1 & H2 & H3).
  { split_and!; repeat constructor; discriminate. }
  intros a. unfold mem0. repeat (case_if; [apply in_range_true in E; apply at_total_byte; [done|lia]|clear E]).
  unfold FLASH_BYTE_ERASED. wblia.
Qed.

Lemma start : update_start mem0 20 8.
Proof.
  constructor; try (vm_compute; split; congruence).
  - apply mem0_ok.
  - by vm_compute.
  - change (nswap 20 8) with 3. intros i Hi.
    assert (i = 0 \/ i = 1 \/ i = 2) as [->|[->| ->]] by lia; done.
Qed.

End Example.

Lemma swap_power_safe_witness :
  exists st f, run (@swap_from Example.cfg Example.mem0) (mkFlash Example.mem0 false)
    = (inl (Some st), f) /\ fmem f 0x110 = 108 /\ fmem f 0x210 = 8.
Proof.
  destruct (@swap_power_safe Example.cfg Example.geo Example.mem0 20 8 Example.start Example.mem0
    (rtc_refl _ _)) as (st & f & Hr & Hn & Ho).
  exists st, f. split; [exact Hr|]. split.
  - exact (Hn 16 ltac:(simpl; lia)).
  - exact (Ho 16 ltac:(simpl; lia)).
Defined.
