(* ===== verification/UpdateFinal.v ===== *)
(** * UpdateFinal: the end of an update

    [wolfBoot_swap_and_final_erase] of update_flash.c, which retires the
    trailers after the exchange: its crash specification, and that a run cut
    short is completed by running it again.  Then [wolfBoot_update] as a whole,
    resumed on an interrupted exchange, and the trailer that
    [wolfBoot_update_trigger] leaves. *)

From Stdlib Require Import ZArith Lia.
From stdpp Require Import prelude.
From S2P Require Import Prelude Flash Trailer Image UpdateFlash UpdateSafe.

Local Open Scope Z_scope.

Section Final.
Context {c : config} {G : geometry c} (m0 : mem) (B U : Z) (Hst : update_start m0 B U).

Abbreviation BOOT := WOLFBOOT_PARTITION_BOOT_ADDRESS.
Abbreviation UPD := WOLFBOOT_PARTITION_UPDATE_ADDRESS.
Abbreviation SWP := WOLFBOOT_PARTITION_SWAP_ADDRESS.
Abbreviation SS := WOLFBOOT_SECTOR_SIZE.
Abbreviation PS := WOLFBOOT_PARTITION_SIZE.
Abbreviation nsw := (nswap B U).
Abbreviation nboot := (new_boot m0 U).
Abbreviation nupd := (new_upd m0 B).

(** The staging sector, just below the trailer. *)
Definition staging : Z := (PS - SS - SS) / SS.

(** The new image reaches into the staging sector. *)
Definition staging_used : Prop := PS - SS - SS < U + IMAGE_HEADER_SIZE.

(** The exchange is complete and the final phase not yet recorded. *)
Definition final_open (m : mem) : Prop :=
  swapped m0 B U m /\ state_of m PART_UPDATE <> IMG_STATE_FINAL_FLAGS.

(** The sectors of the images, the staging sector of BOOT aside, which is safe in the
    swap area. *)
Definition exchanged (m : mem) : Prop :=
  (forall i, 0 <= i < nsw -> sec m UPD i (nupd i)) /\
  (forall i, 0 <= i < nsw -> i <> staging -> sec m BOOT i (nboot i)) /\
  (staging_used -> sec m SWP 0 (nboot staging)).

(** The final phase is recorded. *)
Definition final_ready (m : mem) : Prop :=
  mem_ok m /\ magic_set m PART_UPDATE = true /\
  state_of m PART_UPDATE = IMG_STATE_FINAL_FLAGS /\ exchanged m.

(** The staging sector of BOOT is restored, or erased when the image does not reach it. *)
Definition staging_clean (m : mem) : Prop :=
  (staging_used -> sec m BOOT staging (nboot staging)) /\
  (~ staging_used -> sec m BOOT staging (fun _ => FLASH_BYTE_ERASED)).

(** Both images are in place. *)
Definition images_moved (m : mem) : Prop :=
  (forall o, 0 <= o < U + IMAGE_HEADER_SIZE -> m (BOOT + o) = m0 (UPD + o)) /\
  (forall o, 0 <= o < B + IMAGE_HEADER_SIZE -> m (UPD + o) = m0 (BOOT + o)).

(** ... and BOOT is under test: only the old trailer of UPDATE remains. *)
Definition final_testing (m : mem) : Prop :=
  mem_ok m /\ images_moved m /\ magic_set m PART_BOOT = true /\
  state_of m PART_BOOT = IMG_STATE_TESTING /\ exchanged m /\ staging_clean m.

(** Every memory that power failing in the final phase can leave. *)
Definition final_inv (m : mem) : Prop := final_open m \/ final_ready m \/ final_testing m.

Lemma geo_facts :
  0 < SS /\ 8 < IMAGE_HEADER_SIZE <= SS /\ 1 <= staging /\ staging * SS = PS - SS - SS /\
  3 * SS <= PS /\ 5 < SS /\ PS < 2 ^ 31.
Proof.
  destruct geo_part as (n & Hn & HP & Hn2 & _). pose proof geo_hdr. pose proof geo_boot.
  assert (PS - SS - SS = (n - 2) * SS) as E by lia.
  unfold staging. rewrite E, Z.div_mul by lia. split_and!; try lia; nia.
Qed.

(** Sectors of the exchange lie below the trailer, and apart from each other. *)
Lemma nsw_bound x : 0 <= x < nsw -> 0 <= x * SS /\ x * SS + SS <= PS - SS.
Proof. destruct Hst as [_ _ [] [] _ _ _]. by apply sec_bound. Qed.

(** Changing BOOT from the staging sector on keeps [final_ready]. *)
Lemma final_ready_keep m a len m' :
  final_ready m -> only_changes m a len m' ->
  BOOT + staging * SS <= a -> a + len <= BOOT + PS -> final_ready m'.
Proof.
  intros (Hok & Hmg & Hs & Hu & Hb & Hw) [Hok' Hout] Ha Hl.
  destruct geo_facts as (G1 & G2 & G3 & G4 & G5 & G6 & G7).
  pose proof geo_disj_bu. pose proof geo_disj_bs.
  split; [done|]. split; [|split; [|split; [|split]]].
  - rewrite <- Hmg. unfold magic_set, mle32, magic_addr, PART_UPDATE_ENDFLAGS. simpl Z.eqb. cbv iota.
    by rewrite !Hout by lia.
  - rewrite <- Hs. unfold state_of, magic_addr, PART_UPDATE_ENDFLAGS. simpl Z.eqb. cbv iota.
    by rewrite !Hout by lia.
  - intros i Hi j Hj. pose proof (nsw_bound i Hi). rewrite Hout by lia. by apply Hu.
  - intros i Hi Hne j Hj. pose proof (nsw_bound i Hi). pose proof (sec_disj i staging Hne).
    rewrite Hout by lia. by apply Hb.
  - intros Hsu j Hj. rewrite Hout by lia. by apply Hw.
Qed.

(** The images are in place when, moreover, the staging sector is. *)
Lemma final_ready_moved m :
  final_ready m -> (staging_used -> sec m BOOT staging (nboot staging)) -> images_moved m.
Proof.
  intros (Hok & Hmg & Hs & Hu & Hb & _) Hstg. destruct Hst as [_ _ HB HU _ _ _].
  destruct geo_facts as (G1 & G2 & G3 & G4 & G5 & G6 & G7).
  assert (forall o, 0 <= o -> o = o / SS * SS + o mod SS /\ 0 <= o mod SS < SS /\ 0 <= o / SS) as Hsplit.
  { intros o Ho. pose proof (Z.div_mod o SS). pose proof (Z.mod_pos_bound o SS G1).
    pose proof (Z.div_pos o SS Ho G1). lia. }
  split; intros o Ho; destruct (Hsplit o ltac:(lia)) as (E & Hj & Hi);
    assert (o / SS < nsw) as Hlt by (apply nswap_spec; [lia..|unfold total; lia]).
  - assert (sec m BOOT (o / SS) (nboot (o / SS))) as Hsec.
    { destruct (Z.eq_dec (o / SS) staging) as [E2|E2]; [|by apply Hb].
      rewrite E2. apply Hstg. unfold staging_used. rewrite <- G4, <- E2. lia. }
    specialize (Hsec _ Hj). rewrite E at 1. rewrite Z.add_assoc, Hsec. unfold new_boot.
    rewrite copied_image by done. unfold orig_upd. f_equal. lia.
  - pose proof (Hu (o / SS) (conj Hi Hlt) _ Hj) as Hsec. rewrite E at 1.
    rewrite Z.add_assoc, Hsec. unfold new_upd. rewrite copied_image by done.
    unfold orig_boot. f_equal. lia.
Qed.

(** The BOOT handle opened in the final phase has the size of the new image. *)
Lemma final_boot_size m :
  sec m BOOT 0 (nboot 0) -> fw_size (snd (wolfBoot_open_image m PART_BOOT)) = U.
Proof.
  intros Hb. destruct Hst as [_ _ HB HU _ [HmU HsU] _].
  destruct (sec_head m BOOT (nboot 0) m0 UPD Hb) as [Hb1 Hb2].
  { intros j Hj. unfold new_boot. rewrite head_copied by lia. unfold orig_upd. f_equal. lia. }
  pose proof geo_hdr.
  apply (open_image_valid m PART_BOOT U); unfold part_base; simpl; [auto|congruence..|lia].
Qed.

(** After the final phase: the images are exchanged, BOOT is under test and
    the trailer sector of UPDATE is erased. *)
Definition final_post (r : Z) (s : flash) : Prop :=
  r = 0 /\ flashLocked s = true /\ final_testing (fmem s) /\
  forall a, UPD + PS - SS <= a < UPD + PS -> fmem s a = FLASH_BYTE_ERASED.

(** The trailer sector of BOOT is erased. *)
Definition boot_end_erased (m : mem) : Prop :=
  forall a, BOOT + PS - SS <= a < BOOT + PS -> m a = FLASH_BYTE_ERASED.

Section Tail.
Context (boot update swap : wolfBoot_image).
Context (Hb : handle boot BOOT PART_BOOT) (Hu : handle update UPD PART_UPDATE)
  (Hsw : handle swap SWP PART_SWAP) (HbU : fw_size boot = U) (HsS : fw_size swap = SS).

Lemma moved_keep m a len m' :
  images_moved m -> only_changes m a len m' ->
  (BOOT + PS - SS <= a /\ a + len <= BOOT + PS) \/ (UPD + PS - SS <= a /\ a + len <= UPD + PS) ->
  images_moved m'.
Proof.
  intros [H1 H2] [_ Hout] Ha. destruct Hst as [_ _ HB HU _ _ _].
  pose proof geo_disj_bu. pose proof geo_hdr.
  split; intros o Ho; rewrite Hout by lia; auto.
Qed.

Lemma clean_keep m a len m' :
  staging_clean m -> only_changes m a len m' ->
  (BOOT + PS - SS <= a /\ a + len <= BOOT + PS) \/ (UPD + PS - SS <= a /\ a + len <= UPD + PS) ->
  staging_clean m'.
Proof.
  intros [H1 H2] [_ Hout] Ha. destruct geo_facts as (G1 & G2 & G3 & G4 & G5 & G6 & G7).
  pose proof geo_disj_bu. split; intros Hsu j Hj; rewrite Hout by lia; [by apply H1|by apply H2].
Qed.

Lemma exchanged_keep m a len m' :
  exchanged m -> only_changes m a len m' -> UPD + PS - SS <= a /\ a + len <= UPD + PS -> exchanged m'.
Proof.
  intros (Hxu & Hxb & Hxw) [_ Hout] Ha. destruct geo_facts as (G1 & G2 & G3 & G4 & G5 & G6 & G7).
  pose proof geo_disj_bu. pose proof geo_disj_us.
  split; [|split].
  - intros i Hi j Hj. pose proof (nsw_bound i Hi). rewrite Hout by lia. by apply Hxu.
  - intros i Hi Hne j Hj. pose proof (nsw_bound i Hi). rewrite Hout by lia. by apply Hxb.
  - intros Hsu j Hj. rewrite Hout by lia. by apply Hxw.
Qed.

(** Restoring, or clearing, the staging sector. *)
Lemma chl_restore m :
  final_ready m -> boot_end_erased m ->
  chl (at_mem m)
    (if PS - SS - SS <? u32 (fw_size boot + IMAGE_HEADER_SIZE)
     then wolfBoot_copy_sector swap boot ((PS - SS - SS) / SS)
     else wb_flash_erase boot (PS - SS - SS) SS)
    (fun _ s => flashLocked s = false /\ final_ready (fmem s) /\ images_moved (fmem s) /\
       staging_clean (fmem s) /\ boot_end_erased (fmem s))
    final_inv.
Proof.
  intros Hr Her. destruct geo_facts as (G1 & G2 & G3 & G4 & G5 & G6 & G7).
  destruct Hst as [_ _ HB HU _ _ _]. destruct Hb as [Hb1 Hb2], Hsw as [Hs1 Hs2].
  pose proof geo_disj_bs. rewrite HbU, u32_small by lia.
  assert (forall m', only_changes m (BOOT + (PS - SS - SS)) SS m' -> final_ready m' /\
    boot_end_erased m') as Hkeep.
  { intros m' Hoc. split; [eapply final_ready_keep; [done..|lia|lia]|].
    intros a Ha. rewrite (proj2 Hoc) by lia. auto. }
  case_if.
  - change ((PS - SS - SS) / SS) with staging.
    assert (hdr boot + sector_offset boot staging = BOOT + (PS - SS - SS)) as Hda
      by (rewrite (offset_boot staging boot Hb2); lia).
    assert (hdr swap + sector_offset swap staging = SWP) as Hsa
      by (rewrite (offset_swap staging swap Hs2); lia).
    eapply chl_conseq; [apply (chl_copy_sector swap boot staging m)|done| |].
    + apply Hr.
    + by rewrite Hs2, Hb2.
    + lia.
    + lia.
    + lia.
    + lia.
    + rewrite Hda, Hsa. lia.
    + rewrite Hda, Hsa. intros r s (_ & HL & Hoc & Hj). destruct (Hkeep _ Hoc) as [H1 H2].
      assert (staging_used -> sec (fmem s) BOOT staging (nboot staging)) as Hsc.
      { intros Hsu j Hjr. rewrite G4, Hj by done.
        rewrite (offset_swap staging swap Hs2), HsS, copied_full by done.
        destruct Hr as (_ & _ & _ & _ & _ & Hw). specialize (Hw Hsu j Hjr). rewrite <- Hw.
        f_equal. lia. }
      split; [done|]. split; [done|]. split; [by apply final_ready_moved|]. split; [|done].
      split; [done|]. unfold staging_used. lia.
    + rewrite Hda. intros m' Hoc. right; left. by apply Hkeep.
  - unfold wb_flash_erase. rewrite Hb1. apply chl_erase.
    + intros s [-> HL]. split; [done|]. right; by left.
    + intros s m' [-> HL] Ht. right; left. apply Hkeep. split; [|intros a Ha].
      * destruct Hr as (Hok & _). eauto with wb.
      * by apply (torn_erase_out _ _ _ _ _ Ht).
    + intros s [-> HL]. simpl fmem. set (m' := nor_erase _ _ _).
      assert (only_changes m (BOOT + (PS - SS - SS)) SS m') as Hoc.
      { split; [destruct Hr as (Hok & _); unfold m'; eauto with wb|].
        intros a Ha. by apply nor_erase_out. }
      destruct (Hkeep _ Hoc) as [H1 H2]. split; [|by right; left].
      split; [done|]. split; [done|].
      split; [apply final_ready_moved; [done|]; unfold staging_used; lia|]. split; [|done].
      split; [unfold staging_used; lia|]. intros _ j Hj. unfold m'. rewrite G4. apply nor_erase_in. lia.
Qed.

Lemma chl_final_tail m :
  final_ready m ->
  chl (at_mem m) (final_erase_tail boot update swap (PS - SS - SS) SS) final_post final_inv.
Proof.
  intros Hr. destruct geo_facts as (G1 & G2 & G3 & G4 & G5 & G6 & G7).
  pose proof geo_disj_bu. destruct Hb as [Hb1 Hb2], Hu as [Hu1 Hu2].
  unfold final_erase_tail, wb_flash_erase at 1 3. rewrite Hb1, Hu1.
  apply (chl_bind _ _ (fun _ s => flashLocked s = false /\ final_ready (fmem s) /\
    boot_end_erased (fmem s))).
  { apply chl_erase.
    - intros s [-> HL]. split; [done|]. right; by left.
    - intros s m' [-> HL] Ht. right; left. apply (final_ready_keep m (BOOT + (PS - SS)) SS); [done|split|lia|lia].
      + destruct Hr as (Hok & _). eauto with wb.
      + intros a Ha. by apply (torn_erase_out _ _ _ _ _ Ht).
    - intros s [-> HL]. simpl fmem. assert (final_ready (nor_erase m (BOOT + (PS - SS)) SS)).
      { apply (final_ready_keep m (BOOT + (PS - SS)) SS); [done|split|lia|lia].
        - destruct Hr as (Hok & _). eauto with wb.
        - intros a Ha. by apply nor_erase_out. }
      split; [|by right; left]. split; [done|]. split; [done|].
      intros a Ha. apply nor_erase_in. lia. }
  intros _. apply (chl_at_mem (fun m => final_ready m /\ boot_end_erased m)). intros m1 [Hr1 Her1].
  eapply chl_bind; [by apply chl_restore|]. intros r1. cbv beta.
  apply (chl_at_mem (fun m => final_ready m /\ images_moved m /\ staging_clean m /\ boot_end_erased m)).
  intros m2 (Hr2 & Hm2 & Hsc2 & Her2). pose proof Hr2 as (Hok2 & _).
  assert (forall m', trailer_only m2 PART_BOOT m' ->
    only_changes m2 (BOOT + PS - 5) 5 m') as Hto.
  { intros m' [Ho1 Ho2]. split; [done|]. intros a Ha. apply Ho2.
    unfold magic_addr, PART_BOOT_ENDFLAGS. simpl Z.eqb. cbv iota. lia. }
  apply (chl_bind _ _ (fun _ s => flashLocked s = false /\ final_ready (fmem s) /\
    final_testing (fmem s))).
  { eapply chl_conseq; [apply (chl_set_state_erased PART_BOOT IMG_STATE_TESTING m2)|done| |].
    - auto.
    - unfold IMG_STATE_TESTING. wblia.
    - done.
    - unfold magic_addr, PART_BOOT_ENDFLAGS. simpl Z.eqb. cbv iota. intros a Ha. apply Her2. lia.
    - intros r s (_ & HL & Hto' & Hmg & Hs). apply Hto in Hto' as Hoc.
      assert (final_ready (fmem s)) as Hr' by (eapply final_ready_keep; [done..|lia|lia]).
      split; [done|]. split; [done|]. split; [apply Hto'|]. split; [eapply moved_keep; [done..|lia]|].
      split; [done|]. split; [done|]. split; [apply Hr'|]. eapply clean_keep; [done..|lia].
    - intros m' Hto'. right; left. apply Hto in Hto'. eapply final_ready_keep; [done..|lia|lia]. }
  intros _. apply (chl_at_mem (fun m => final_ready m /\ final_testing m)).
  intros m3 [Hr3 (Hok3 & Hm3 & Hmg3 & Hs3 & He3 & Hc3)].
  assert (forall m', only_changes m3 (UPD + (PS - SS)) SS m' -> final_testing m') as Hend.
  { intros m' Hoc. split; [apply Hoc|]. split; [eapply moved_keep; [done..|lia]|].
    assert (exchanged m') as He' by (eapply exchanged_keep; [done..|lia]).
    assert (staging_clean m') as Hc' by (eapply clean_keep; [done..|lia]).
    destruct Hoc as [_ Hout]. unfold magic_set, state_of, mle32, magic_addr, PART_BOOT_ENDFLAGS in *.
    simpl Z.eqb in *. cbv iota in *. by rewrite !Hout by lia. }
  apply (chl_bind _ _ (fun _ s => flashLocked s = false /\ final_testing (fmem s) /\
    forall a, UPD + PS - SS <= a < UPD + PS -> fmem s a = FLASH_BYTE_ERASED)).
  { apply chl_erase.
    - intros s [-> HL]. split; [done|]. right; by left.
    - intros s m' [-> HL] Ht. right; right. apply Hend. split; [eauto with wb|].
      intros a Ha. by apply (torn_erase_out _ _ _ _ _ Ht).
    - intros s [-> HL]. simpl fmem.
      assert (final_testing (nor_erase m3 (UPD + (PS - SS)) SS)).
      { apply Hend. split; [eauto with wb|]. intros a Ha. by apply nor_erase_out. }
      split; [|by right; right]. split; [done|]. split; [done|].
      intros a Ha. apply nor_erase_in. lia. }
  intros _. apply (chl_map _ _ (fun _ => 0)). apply chl_lock. intros s (HL & Ht & Her).
  split; [by right; right|]. unfold final_post. done.
Qed.

End Tail.

(** *** Entering the final phase *)

(** Memories that agree on the exchanged sectors and on the trailer of UPDATE,
    its state byte aside. *)
Definition parts_agree (m m' : mem) : Prop :=
  mem_ok m' /\
  (forall a, BOOT <= a < BOOT + nsw * SS -> m' a = m a) /\
  (forall a, UPD <= a < UPD + nsw * SS -> m' a = m a) /\
  (forall a, UPD + PS - SS <= a < UPD + PS -> a <> UPD + PS - 5 -> m' a = m a).

Lemma nsw_total : 0 < nsw /\ nsw * SS <= PS - SS.
Proof.
  destruct geo_facts as (G1 & G2 & G3 & G4 & G5 & G6 & G7). pose proof Hst as [_ _ HB HU _ _ _].
  assert (0 < nsw) as Hn by (apply nswap_spec; [lia..|unfold total; lia]).
  assert (0 <= nsw - 1 < nsw) as Hb by lia. pose proof (nsw_bound _ Hb). lia.
Qed.

Lemma swapped_agree m m' :
  swapped m0 B U m -> parts_agree m m' ->
  Z.land (state_of m' PART_UPDATE) IMG_STATE_FINAL_FLAGS = IMG_STATE_FINAL_FLAGS ->
  swapped m0 B U m'.
Proof.
  intros (Hok & [Hmg _] & Hd) (Hok' & HB & HU & HT) Hs. destruct geo_facts as (G1 & G2 & G3 & G4 & G5 & G6 & G7).
  split; [done|]. split.
  - split; [|done]. rewrite <- Hmg. unfold magic_set, mle32, magic_addr, PART_UPDATE_ENDFLAGS.
    simpl Z.eqb. cbv iota. by rewrite !HT by lia.
  - intros i Hi. destruct (Hd i Hi) as (Hf & Hb & Hu). pose proof (nsw_bound i Hi).
    assert (i * SS + SS <= nsw * SS) by nia.
    destruct Hst as [_ _ [] [] _ _ _].
    assert (PS - SS <= PS - (6 + i / 2) < PS - 5) by (by apply (flag_addr_bound B U)).
    split; [|split].
    + unfold sector_flag, flag_addr, PART_UPDATE_ENDFLAGS in *. by rewrite HT by lia.
    + intros j Hj. rewrite HB by lia. by apply Hb.
    + intros j Hj. rewrite HU by lia. by apply Hu.
Qed.

(** What the swap area holds once the staging sector is saved. *)
Definition staged (m : mem) : Prop := staging_used -> sec m SWP 0 (nboot staging).

Lemma swapped_ready m :
  swapped m0 B U m -> staged m -> state_of m PART_UPDATE = IMG_STATE_FINAL_FLAGS -> final_ready m.
Proof.
  intros (Hok & [Hmg _] & Hd) Hw Hs. split; [done|]. split; [done|]. split; [done|].
  split; [intros i Hi; apply (Hd i Hi)|]. split; [|done]. intros i Hi _. apply (Hd i Hi).
Qed.

Lemma copied_idem off size j v : copied off size j (copied off size j v) = copied off size j v.
Proof. unfold copied. by case_if. Qed.

(** Saving the staging sector. *)
Lemma chl_stage boot swap m :
  handle boot BOOT PART_BOOT -> handle swap SWP PART_SWAP -> fw_size boot = U -> final_open m ->
  chl (at_mem m) (wolfBoot_copy_sector boot swap ((PS - SS - SS) / SS))
    (fun _ s => flashLocked s = false /\ final_open (fmem s) /\ staged (fmem s)) final_inv.
Proof.
  intros [Hb1 Hb2] [Hs1 Hs2] HbU [Hsw Hne]. destruct geo_facts as (G1 & G2 & G3 & G4 & G5 & G6 & G7).
  pose proof geo_disj_bs. pose proof geo_disj_us. pose proof Hst as [_ _ HB HU _ _ _].
  fold staging.
  assert (hdr boot + sector_offset boot staging = BOOT + (PS - SS - SS)) as Hsa
    by (rewrite (offset_boot staging boot Hb2); lia).
  assert (hdr swap + sector_offset swap staging = SWP) as Hda
    by (rewrite (offset_swap staging swap Hs2); lia).
  assert (forall m', only_changes m SWP SS m' -> final_open m') as Hkeep.
  { intros m' [Hok' Hout]. assert (state_of m' PART_UPDATE = state_of m PART_UPDATE) as Es.
    { unfold state_of, magic_addr, PART_UPDATE_ENDFLAGS. simpl Z.eqb. cbv iota. apply Hout. lia. }
    split; [|by rewrite Es]. apply (swapped_agree m).
    - done.
    - pose proof nsw_total. split; [done|]. split; [|split]; intros; apply Hout; lia.
    - rewrite Es. by destruct Hsw as (_ & [_ ?] & _). }
  eapply chl_conseq; [apply (chl_copy_sector boot swap staging m)|done| |].
  - apply Hsw.
  - by rewrite Hs2, Hb2.
  - lia.
  - lia.
  - lia.
  - lia.
  - rewrite Hsa, Hda. lia.
  - rewrite Hsa, Hda, (offset_boot staging boot Hb2), HbU.
    intros r s (_ & HL & Hoc & Hj). split; [done|]. split; [by apply Hkeep|].
    intros Hsu j Hjr. replace (SWP + 0 * SS + j) with (SWP + j) by lia. rewrite Hj by done.
    assert (0 <= staging < nsw) as Hn.
    { split; [lia|]. apply nswap_spec; [lia..|]. unfold total, staging_used in *. lia. }
    destruct Hsw as (_ & _ & Hd). destruct (Hd staging Hn) as (_ & Hb & _).
    rewrite <- (Z.add_0_r (PS - SS - SS)), <- G4, Z.add_0_r, (Hb j Hjr). apply copied_idem.
  - rewrite Hda. intros m' Hoc. left. auto.
Qed.

(** Recording the final phase. *)
Lemma chl_record m :
  final_open m -> staged m ->
  chl (at_mem m) (wolfBoot_set_partition_state PART_UPDATE IMG_STATE_FINAL_FLAGS)
    (fun _ s => flashLocked s = false /\ final_ready (fmem s)) final_inv.
Proof.
  intros [Hsw Hne] Hstg. destruct geo_facts as (G1 & G2 & G3 & G4 & G5 & G6 & G7).
  pose proof geo_disj_bu. pose proof geo_disj_us. pose proof Hsw as (Hok & [Hmg Hs] & _).
  assert (forall m', mem_ok m' -> (forall a, a <> UPD + PS - 5 -> m' a = m a) ->
    parts_agree m m' /\ staged m') as Hag.
  { intros m' Hok' Hout. pose proof nsw_total.
    split; [split; [done|]; split; [|split]; intros; apply Hout; lia|].
    intros Hsu j Hj. rewrite Hout by lia. by apply Hstg. }
  assert (magic_addr PART_UPDATE - 1 = UPD + PS - 5) as Ea
    by (unfold magic_addr, PART_UPDATE_ENDFLAGS; simpl Z.eqb; cbv iota; lia).
  eapply chl_conseq; [apply (chl_set_state_live PART_UPDATE IMG_STATE_FINAL_FLAGS m)|done| |].
  - auto.
  - unfold IMG_STATE_FINAL_FLAGS. wblia.
  - done.
  - done.
  - rewrite Ea. intros r s (_ & HL & Hok' & Hout & Hst'). split; [done|].
    destruct (Hag _ Hok' Hout). rewrite Hs in Hst'.
    apply swapped_ready; [|done..]. apply (swapped_agree m); [done..|]. by rewrite Hst'.
  - rewrite Ea. intros m' (Hok' & Hout & Hb1 & Hb2). destruct (Hag _ Hok' Hout).
    rewrite Hs in Hb2.
    assert (swapped m0 B U m').
    { apply (swapped_agree m); [done..|]. rewrite <- Hb2, Z.land_comm.
      apply Z.bits_inj'. intros i Hi. rewrite Z.land_spec, Z.lor_spec.
      by destruct (Z.testbit IMG_STATE_FINAL_FLAGS i), (Z.testbit (state_of m' PART_UPDATE) i). }
    destruct (Z.eq_dec (state_of m' PART_UPDATE) IMG_STATE_FINAL_FLAGS) as [E|E].
    + right; left. by apply swapped_ready.
    + left. by split.
Qed.

Lemma final_inv_sec0 m :
  final_open m \/ final_ready m -> mem_ok m /\ magic_set m PART_UPDATE = true /\ sec m BOOT 0 (nboot 0).
Proof.
  destruct geo_facts as (G1 & G2 & G3 & G4 & G5 & G6 & G7). pose proof Hst as [_ _ HB HU _ _ _].
  assert (0 <= 0 < nsw) as Hn by (split; [lia|]; apply nswap_spec; [lia..|unfold total; lia]).
  intros [[(Hok & [Hmg _] & Hd) _]|(Hok & Hmg & _ & _ & Hb & _)].
  - split; [done|]. split; [done|]. apply (Hd 0 Hn).
  - split; [done|]. split; [done|]. apply Hb; lia.
Qed.

(** The first word of the staging sector of BOOT is the magic word. *)
Definition marked (m : mem) : Prop := mle32 m (BOOT + (PS - SS - SS)) = WOLFBOOT_MAGIC_TRAIL.

(** The whole function, started after the exchange or resumed. *)
Lemma chl_final_erase resume m :
  (final_open m /\ (resume = 0 \/ marked m)) \/ final_ready m ->
  chl (fun s => fmem s = m) (wolfBoot_swap_and_final_erase resume) final_post final_inv.
Proof.
  intros Hcase. assert (final_open m \/ final_ready m) as Hor by tauto.
  destruct (final_inv_sec0 m Hor) as (Hok & Hmg & Hs0).
  assert (final_inv m) as Hinv by (destruct Hor; [left|right; left]; done).
  pose proof (final_boot_size m Hs0) as HbU. destruct (swap_handle m) as [Hsw HswS].
  pose proof (open_image_handle m PART_BOOT ltac:(auto)) as Hb.
  pose proof (open_image_handle m PART_UPDATE ltac:(auto)) as Hu.
  unfold wolfBoot_swap_and_final_erase.
  apply chl_bind_look; [by intros s ->|]. intros m1. apply chl_pre. intros s1 [Hm1 Hm1'].
  assert (m1 = m) as -> by congruence. clear Hm1'.
  eapply chl_bind_ro; [apply ro_get_partition_state; auto|by intros s ->; rewrite Hm1|].
  intros m1. apply chl_pre. intros s2 [-> Hm1']. assert (m1 = m) as -> by congruence. clear Hm1'.
  rewrite Hmg. cbv iota beta.
  apply chl_bind_look; [by intros s ->; rewrite Hm1|]. intros m1. apply chl_pre.
  intros s3 [-> Hm1']. assert (m1 = m) as -> by congruence. clear Hm1'.
  set (swapDone := _ =? WOLFBOOT_MAGIC_TRAIL).
  assert ((resume =? 1) && negb swapDone && negb (state_of m PART_UPDATE =? IMG_STATE_FINAL_FLAGS) = false) as ->.
  { destruct Hcase as [[_ [->|Hmk]]|(_ & _ & -> & _)]; [done| |simpl; by rewrite andb_false_r].
    assert (swapDone = true) as ->; [|simpl; by rewrite andb_false_r].
    subst swapDone. apply Z.eqb_eq. rewrite (proj1 Hb). exact Hmk. }
  eapply (chl_bind _ _ (fun _ => at_mem m)); [apply chl_unlock; by intros s ->; rewrite Hm1|].
  intros _. eapply (chl_bind _ _ (fun _ s => flashLocked s = false /\ final_ready (fmem s))).
  - destruct (Z.eqb_spec (state_of m PART_UPDATE) IMG_STATE_FINAL_FLAGS) as [E|E]; simpl negb; cbv iota.
    + apply chl_ret. intros s [-> HL]. destruct Hor as [[_ ?]|]; [done|]. done.
    + assert (final_open m) as Hop by (destruct Hor as [|(_ & _ & ? & _)]; done).
      eapply chl_bind; [by apply chl_stage|]. intros r. cbv beta.
      apply (chl_at_mem (fun m => final_open m /\ staged m)). intros m2 []. by apply chl_record.
  - intros _. apply (chl_at_mem final_ready). intros m2 Hr. by apply chl_final_tail.
Qed.

(** Without the phase recorded or marked a restart finds nothing to do. *)
Lemma chl_final_skip m : (magic_set m PART_UPDATE = true -> state_of m PART_UPDATE <> IMG_STATE_FINAL_FLAGS) ->
  ~ marked m -> final_inv m ->
  chl (fun s => fmem s = m) (wolfBoot_swap_and_final_erase 1) (fun r s => r = -1 /\ fmem s = m) final_inv.
Proof.
  intros Hst' Hmk Hinv. pose proof (open_image_handle m PART_BOOT ltac:(auto)) as [Hb _].
  unfold wolfBoot_swap_and_final_erase.
  apply chl_bind_look; [by intros s ->|]. intros m1. apply chl_pre. intros s1 [Hm1 Hm1'].
  assert (m1 = m) as -> by congruence. clear Hm1'.
  eapply chl_bind_ro; [apply ro_get_partition_state; auto|by intros s ->; rewrite Hm1|].
  intros m1. apply chl_pre. intros s2 [-> Hm1']. assert (m1 = m) as -> by congruence. clear Hm1'.
  destruct (if magic_set m PART_UPDATE then _ else _) as [x st] eqn:Est. cbv iota beta.
  apply chl_bind_look; [by intros s ->; rewrite Hm1|]. intros m1. apply chl_pre.
  intros s3 [-> Hm1']. assert (m1 = m) as -> by congruence. clear Hm1'.
  assert ((st =? IMG_STATE_FINAL_FLAGS) = false) as ->.
  { destruct (magic_set m PART_UPDATE); injection Est as <- <-; [apply Z.eqb_neq; auto|done]. }
  assert ((mle32 m (hdr (snd (wolfBoot_open_image m PART_BOOT)) + (PS - SS - SS)) =? WOLFBOOT_MAGIC_TRAIL) = false) as ->.
  { apply Z.eqb_neq. rewrite Hb. exact Hmk. }
  simpl.
  apply chl_ret. intros s ->. by rewrite Hm1.
Qed.

(** What a start of the loader does in the final phase: it completes the phase, or
    changes nothing because the phase is not recorded yet or is over. *)
Definition restarted (m : mem) (r : Z) (s : flash) : Prop :=
  final_post r s \/ r = -1 /\ fmem s = m /\ (final_open m \/ final_testing m).

(** The new image does not have the magic word at the start of the staging sector. *)
Definition unmarked : Prop :=
  staging_used -> mle32 (nboot staging) 0 <> WOLFBOOT_MAGIC_TRAIL.

Lemma clean_unmarked m : unmarked -> staging_clean m -> ~ marked m.
Proof.
  intros Hun [H1 H2]. destruct geo_facts as (G1 & G2 & G3 & G4 & G5 & G6 & G7).
  assert (forall f, sec m BOOT staging f -> mle32 m (BOOT + (PS - SS - SS)) = mle32 f 0) as Hw.
  { intros f Hf. unfold mle32. rewrite <- G4, <- !(Hf _) by lia.
    by rewrite !Z.add_0_l, Z.add_0_r. }
  unfold marked. destruct (Z_lt_dec (PS - SS - SS) (U + IMAGE_HEADER_SIZE)) as [Hsu|Hsu].
  - rewrite (Hw _ (H1 Hsu)). by apply Hun.
  - rewrite (Hw _ (H2 Hsu)). vm_compute. congruence.
Qed.

(** A restart in the final phase, in whatever state power failed. *)
Lemma chl_restart m : unmarked -> final_inv m ->
  chl (fun s => fmem s = m) (wolfBoot_swap_and_final_erase 1) (restarted m) final_inv.
Proof.
  intros Hun Hinv.
  assert (final_ready m \/ final_open m /\ marked m ->
    chl (fun s => fmem s = m) (wolfBoot_swap_and_final_erase 1) (restarted m) final_inv) as Hdo.
  { intros Hr. eapply chl_conseq; [apply (chl_final_erase 1 m)|done| |done]; [tauto|]. by left. }
  assert (forall H : ~ marked m, (final_open m \/ final_testing m) ->
    (magic_set m PART_UPDATE = true -> state_of m PART_UPDATE <> IMG_STATE_FINAL_FLAGS) ->
    chl (fun s => fmem s = m) (wolfBoot_swap_and_final_erase 1) (restarted m) final_inv) as Hskip.
  { intros Hmk Hc Hs. eapply chl_conseq; [by apply (chl_final_skip m)|done| |done].
    intros r s [-> Hm]. right. done. }
  assert (marked m \/ ~ marked m) as [Hmk|Hmk] by (unfold marked; lia).
  - destruct Hinv as [Ho|[Hr|Ht]]; [by apply Hdo; right|by apply Hdo; left|].
    destruct Ht as (_ & _ & _ & _ & _ & Hc). by apply clean_unmarked in Hc.
  - destruct Hinv as [Ho|[Hr|Ht]]; [|by apply Hdo; left|].
    + apply Hskip; [done|by left|]. intros _. apply Ho.
    + destruct (magic_set m PART_UPDATE) eqn:Hmg.
      2: { by apply Hskip; [|right|]. }
      destruct (Z.eq_dec (state_of m PART_UPDATE) IMG_STATE_FINAL_FLAGS) as [E|E].
      * apply Hdo. left. destruct Ht as (Hok & _ & _ & _ & He & _). done.
      * by apply Hskip; [|right|].
Qed.

(** *** The update as a whole *)

(** Erasing sectors past the images keeps the exchange. *)
Lemma final_open_erase m base x m' :
  base = BOOT \/ base = UPD -> nsw <= x -> x * SS < PS - SS ->
  final_open m -> only_changes m (base + x * SS) SS m' -> final_open m'.
Proof.
  intros Hbase Hx Hx2 [Hsw Hne] [Hok' Hout].
  destruct geo_facts as (G1 & G2 & G3 & G4 & G5 & G6 & G7). pose proof nsw_total.
  destruct (part_sectors B U) as (n & Hn & HP & _); [apply Hst..|].
  assert (nsw * SS <= x * SS) by (apply Z.mul_le_mono_nonneg_r; lia).
  assert (x < n - 1) by (apply (Z.mul_lt_mono_pos_r SS); lia).
  assert ((x + 1) * SS <= (n - 1) * SS) by (apply Z.mul_le_mono_nonneg_r; lia).
  pose proof geo_disj_bu.
  assert (state_of m' PART_UPDATE = state_of m PART_UPDATE) as Es.
  { unfold state_of, magic_addr, PART_UPDATE_ENDFLAGS. simpl Z.eqb. cbv iota. apply Hout. lia. }
  split; [|by rewrite Es]. apply (swapped_agree m); [done| |].
  - split; [done|]. split; [|split]; intros; apply Hout; lia.
  - rewrite Es. by destruct Hsw as (_ & [_ ?] & _).
Qed.

Lemma chl_erase_sector img base x m :
  handle img base (part img) -> base = BOOT \/ base = UPD -> nsw <= x -> x * SS < PS - SS ->
  final_open m ->
  chl (at_mem m) (wb_flash_erase img (x * SS) SS)
    (fun _ s => flashLocked s = false /\ final_open (fmem s)) final_inv.
Proof.
  intros [Hh _] Hb Hx Hx2 Hop. pose proof Hop as [(Hok & _) _].
  unfold wb_flash_erase. rewrite Hh. apply chl_erase.
  - intros s [-> HL]. split; [done|]. by left.
  - intros s m' [-> HL] Ht. left. eapply final_open_erase; [done..|].
    split; [eauto with wb|]. intros a Ha. by apply (torn_erase_out _ _ _ _ _ Ht).
  - intros s [-> HL]. simpl fmem. assert (final_open (nor_erase m (base + x * SS) SS)).
    { eapply final_open_erase; [done..|]. split; [eauto with wb|].
      intros a Ha. by apply nor_erase_out. }
    split; [by split|by left].
Qed.

Lemma chl_erase_remainder boot update x m :
  handle boot BOOT PART_BOOT -> handle update UPD PART_UPDATE -> x = nsw -> final_open m ->
  chl (at_mem m) (erase_remainder boot update x)
    (fun _ s => flashLocked s = false /\ final_open (fmem s)) final_inv.
Proof.
  intros [Hb1 Hb2] [Hu1 Hu2] -> Hop. destruct geo_facts as (G1 & G2 & G3 & G4 & G5 & G6 & G7).
  pose proof nsw_total as [Hn0 Hnt]. destruct (part_sectors B U) as (n & Hn & HP & Hns & _); [apply Hst..|].
  unfold erase_remainder. eapply chl_conseq.
  - apply (chl_ploop (fun x s => nsw <= x <= n /\ flashLocked s = false /\ final_open (fmem s))
      (fun x => Z.to_nat (n - x)) (fun _ s => flashLocked s = false /\ final_open (fmem s)) final_inv).
    + intros x. apply chl_pre. intros s (Hx & HL & Hop').
      assert (x * SS <= n * SS) by (apply Z.mul_le_mono_nonneg_r; lia).
      assert (0 <= x * SS) by (apply Z.mul_nonneg_nonneg; lia). rewrite u32_small by lia. case_if.
      * apply chl_ret. intros s' ->. split; [done|by left].
      * eapply chl_bind; [eapply chl_conseq; [apply (chl_erase_sector boot BOOT x (fmem s)); auto; [by split|lia]|by intros ? ->|intros ? ? Hp; exact Hp|done]|].
        intros r1. cbv beta. apply (chl_at_mem final_open). intros m1 Hop1.
        eapply chl_bind; [apply (chl_erase_sector update UPD x m1); auto; [by split|lia]|].
        intros r2. cbv beta. apply chl_ret. intros s2 [HL2 Hop2].
        split; [|by left]. assert (x < n) by (apply (Z.mul_lt_mono_pos_r SS); lia). split; [|lia]. split; [lia|done].
    + unfold sectors_fuel. rewrite HP, Z.div_mul by lia. lia.
  - intros s [-> HL]. split; [lia|done].
  - done.
  - done.
Qed.

Lemma opened_bounds m p :
  mem_ok m -> 0 <= fw_size (snd (wolfBoot_open_image m p)) /\
  fw_size (snd (wolfBoot_open_image m p)) + IMAGE_HEADER_SIZE <= PS.
Proof. destruct Hst as [_ _ [] [] _ _ _]. by apply (open_image_size B U). Qed.

(** Some header of an interrupted exchange gives a size that is not zero. *)
Lemma opened_total m :
  0 < B -> 0 < U -> swap_inv m0 B U m ->
  IMAGE_HEADER_SIZE < wolfBoot_get_total_size (snd (wolfBoot_open_image m PART_BOOT))
    (snd (wolfBoot_open_image m PART_UPDATE)).
Proof.
  intros HB0 HU0 (k & Hk & Hat). pose proof Hat as (Hok & _ & Hlo & _ & Hmid).
  destruct (opened_bounds m PART_BOOT Hok), (opened_bounds m PART_UPDATE Hok).
  rewrite total_size_eq by lia. pose proof nsw_total as [Hn _].
  pose proof Hst as [_ _ HB HU [HmB HsB] _ _]. pose proof geo_hdr.
  assert (sec_todo m0 m 0 \/ sec_saved m0 U m 0 \/ sec_backed m0 B U m 0 \/ sec_done m0 B U m 0) as Hs.
  { destruct (Z.eq_dec k 0) as [->|]; [by apply Hmid|]. right; right; right. apply Hlo. lia. }
  assert (sec m BOOT 0 (orig_boot m0 0) -> fw_size (snd (wolfBoot_open_image m PART_BOOT)) = B) as Hb0.
  { intros Hb. destruct (sec_head m BOOT (orig_boot m0 0) m0 BOOT Hb) as [H4 H5];
      [intros; unfold orig_boot; f_equal; lia|].
    apply (open_image_valid m PART_BOOT B); unfold part_base; simpl; [auto|congruence..|lia]. }
  destruct Hs as [(_ & Hb & _)|[(_ & Hb & _)|[(_ & Hu & _)|(_ & Hb & _)]]].
  - rewrite Hb0 by done. lia.
  - rewrite Hb0 by done. lia.
  - enough (fw_size (snd (wolfBoot_open_image m PART_UPDATE)) = B) by lia.
    destruct (sec_head m UPD (nupd 0) m0 BOOT Hu) as [H4 H5].
    { intros j Hj. unfold new_upd. rewrite head_copied by lia. unfold orig_boot. f_equal. lia. }
    apply (open_image_valid m PART_UPDATE B); unfold part_base; simpl; [auto|congruence..|lia].
  - rewrite (final_boot_size m Hb). lia.
Qed.

(** Reading a field of a header always returns. *)
Lemma get_blob_ok m part :
  (exists v, wolfBoot_get_image_type m part = Ok v) /\
  (exists v, wolfBoot_get_image_version m part = Ok v).
Proof.
  unfold wolfBoot_get_image_type, wolfBoot_get_image_version, wolfBoot_get_blob_type,
    wolfBoot_get_blob_version.
  set (blob := wolfBoot_get_image_from_part part). split.
  - case_if; [eauto|].
    destruct (find_header_ok m (blob + IMAGE_HEADER_OFFSET) HDR_IMG_TYPE) as [[len p] ->]. simpl.
    case_if; [eauto|]. destruct p; eauto.
  - case_if; [eauto|]. case_if; [eauto|].
    destruct (find_header_ok m (blob + IMAGE_HEADER_OFFSET) HDR_VERSION) as [[len p] ->]. simpl.
    case_if; [eauto|]. destruct p; eauto.
Qed.

(** Power failing during a resumed update. *)
Definition update_crash (m : mem) : Prop :=
  swap_inv m0 B U m \/ final_inv m \/ (mem_ok m /\ images_moved m).

(** A completed update. *)
Definition update_done (fallback_allowed : Z) (m : mem) (r : Z) (s : flash) : Prop :=
  r = 0 /\ flashLocked s = true /\ images_moved (fmem s) /\
  magic_set (fmem s) PART_BOOT = true /\
  (state_of (fmem s) PART_BOOT = IMG_STATE_TESTING \/
   (state_of (fmem s) PART_BOOT = IMG_STATE_SUCCESS /\ fallback_allowed <> 0 /\
    state_of m PART_BOOT = IMG_STATE_TESTING)) /\
  forall a, UPD + PS - SS <= a < UPD + PS -> fmem s a = FLASH_BYTE_ERASED.

(** After a rollback BOOT is confirmed at once. *)
Lemma chl_rollback (b : bool) fb m s0 :
  (b = true -> fb <> 0 /\ state_of m PART_BOOT = IMG_STATE_TESTING) ->
  final_post 0 s0 ->
  chl (fun s => s = s0)
    (let* _ := (if b then
       let* _ := flash_unlock in
       let* _ := wolfBoot_set_partition_state PART_BOOT IMG_STATE_SUCCESS in
       flash_lock else Ret tt) in Ret 0)
    (update_done fb m) update_crash.
Proof.
  intros Hb (_ & HL & Hft & Her). pose proof Hft as (Hok & Hmv & Hmg & Hs & _).
  assert (update_crash (fmem s0)) as Hc by (right; right; by split).
  destruct b.
  - destruct (Hb eq_refl) as [Hfb Hmt]. apply (chl_map _ _ (fun _ => 0)).
    apply (chl_bind _ _ (fun _ => at_mem (fmem s0))).
    { apply chl_unlock. intros s ->. done. }
    intros _. destruct geo_facts as (G1 & G2 & G3 & G4 & G5 & G6 & G7). pose proof geo_disj_bu.
    assert (magic_addr PART_BOOT - 1 = BOOT + PS - 5) as Ea
      by (unfold magic_addr, PART_BOOT_ENDFLAGS; simpl Z.eqb; cbv iota; lia).
    assert (forall m', mem_ok m' -> (forall a, a <> BOOT + PS - 5 -> m' a = fmem s0 a) -> images_moved m') as Hk.
    { intros m' Hok' Hout. apply (moved_keep (fmem s0) (BOOT + PS - 5) 1); [done|split; [done|]|lia].
      intros a Ha. apply Hout. lia. }
    eapply chl_bind.
    { eapply chl_conseq; [apply (chl_set_state_live PART_BOOT IMG_STATE_SUCCESS (fmem s0)); auto|done| |].
      - unfold IMG_STATE_SUCCESS. wblia.
      - intros r s Hp. exact Hp.
      - rewrite Ea. intros m' (Hok' & Hout & _). right; right. split; [done|]. by apply Hk. }
    rewrite Ea. intros r. cbv beta. apply chl_lock. intros s (_ & HL1 & Hok1 & Hout1 & Hs1).
    split; [right; right; split; [done|]; by apply Hk|]. unfold update_done. simpl fmem.
    split; [done|]. split; [done|]. split; [by apply Hk|]. split; [|split].
    + rewrite <- Hmg. unfold magic_set, mle32, magic_addr, PART_BOOT_ENDFLAGS.
      simpl Z.eqb. cbv iota. by rewrite !Hout1 by lia.
    + right. split; [|done]. rewrite Hs1, Hs. done.
    + intros a Ha. rewrite Hout1 by lia. auto.
  - rewrite pbind_ret. apply chl_ret. intros s ->. split; [|done].
    split; [done|]. split; [done|]. split; [done|]. split; [done|]. split; [by left|done].
Qed.

Context {H : hash_api} {K : keystore_api} {V : verify_api}.

(** From the exchange on: the remainder, the final phase, the rollback. *)
Lemma chl_update_finish (b : bool) fb tot boot update m :
  (b = true -> fb <> 0 /\ state_of m PART_BOOT = IMG_STATE_TESTING) ->
  swap_inv m0 B U m -> 0 < tot -> handle boot BOOT PART_BOOT -> handle update UPD PART_UPDATE ->
  sizes_ok B U boot update 0 m ->
  chl (fun s => fmem s = m)
    (let* _ := flash_unlock in
     let* sw := swap_loop (snd (wolfBoot_open_image m PART_SWAP)) (mkSwap 0 tot boot update) in
     match sw with
     | None => Ret (-1)
     | Some s =>
         let* _ := erase_remainder (ss_boot s) (ss_update s) (ss_sector s) in
         let* _ := flash_lock in
         let* ret := wolfBoot_swap_and_final_erase 0 in
         if negb (ret =? 0) then Ret ret else
         let* _ :=
           (if b then
              let* _ := flash_unlock in
              let* _ := wolfBoot_set_partition_state PART_BOOT IMG_STATE_SUCCESS in
              flash_lock
            else Ret tt) in
         Ret ret
     end) (update_done fb m) update_crash.
Proof.
  intros Hroll Hinv Htot Hb Hu Hz.
  assert (forall m, final_inv m -> update_crash m) as Hfc by (by right; left).
  assert (forall m, swap_inv m0 B U m -> update_crash m) as Hsc by (by left).
  apply (chl_bind _ _ (fun _ => at_mem m)).
  { apply chl_unlock. intros s ->. split; [auto|done]. }
  intros _. eapply chl_bind.
  { eapply chl_conseq; [apply (chl_swap_loop m0 B U); try done; apply Hst|done| |exact Hsc].
    intros r s Hp. exact Hp. }
  intros sw. apply chl_pre. intros s1 (st & -> & HL & Hsw & Hne & Hsec & Hhb & Hhu). cbv iota.
  eapply chl_bind.
  { eapply chl_conseq; [apply (chl_erase_remainder (ss_boot st) (ss_update st) (ss_sector st) (fmem s1)); try done; by split| | |exact Hfc].
    - intros s ->. by split.
    - intros r s Hp. exact Hp. }
  intros r1. cbv beta. apply (chl_at_mem final_open). intros m2 Hop2.
  apply (chl_bind _ _ (fun _ s => fmem s = m2)).
  { apply chl_lock. intros s [-> _]. split; [apply Hfc; by left|done]. }
  intros _. eapply chl_bind.
  { eapply chl_conseq; [apply (chl_final_erase 0 m2); auto|done| |exact Hfc].
    intros r s Hp. exact Hp. }
  intros ret. apply chl_pre. intros s3 Hpost. pose proof Hpost as (-> & _).
  simpl negb. cbv iota. by apply chl_rollback.
Qed.

(** An interrupted update, resumed. *)
Lemma chl_update_resume fb m :
  0 < B -> 0 < U -> swap_inv m0 B U m -> sector_flag m 0 <> SECT_FLAG_NEW ->
  fst (wolfBoot_open_image m PART_UPDATE) = 0 ->
  chl (fun s => fmem s = m) (wolfBoot_update fb) (update_done fb m) update_crash.
Proof.
  intros HB0 HU0 Hinv Hflag Hopen. pose proof Hinv as (k & Hk & Hat). pose proof Hat as (Hok & [Hmg _] & _).
  assert (update_crash m) as Hc by (by left).
  unfold wolfBoot_update. apply chl_bind_look; [by intros s ->|]. intros m1.
  apply chl_pre. intros s1 [Hm1 Hm1']. assert (m1 = m) as -> by congruence. clear Hm1'.
  destruct (wolfBoot_open_image m PART_UPDATE) as [uo update] eqn:Eu. simpl in Hopen. subst uo.
  simpl Z.ltb. cbv iota.
  pose proof (opened_total m HB0 HU0 Hinv) as Htot. rewrite Eu in Htot. simpl snd in Htot.
  rewrite (proj2 (Z.leb_gt _ _)) by lia.
  destruct (get_blob_ok m PART_UPDATE) as [[ty ->] [uv ->]].
  destruct (get_blob_ok m PART_BOOT) as [_ [cv ->]]. simpl lift. rewrite !pbind_ret.
  eapply chl_bind_ro; [apply ro_get_partition_state; auto|by intros s ->; rewrite Hm1|].
  intros m1. apply chl_pre. intros s2 [-> Hm1']. assert (m1 = m) as -> by congruence. clear Hm1'.
  destruct (if magic_set m PART_BOOT then _ else _) as [bsr bs] eqn:Ebs. cbv beta iota zeta.
  eapply chl_bind_ro; [apply (ro_get_update_sector_flag 0); lia|by intros s ->; rewrite Hm1|].
  intros m1. apply chl_pre. intros s3 [-> Hm1']. assert (m1 = m) as -> by congruence. clear Hm1'.
  rewrite Hmg. cbv beta iota. rewrite (proj2 (Z.eqb_neq _ _) Hflag), pbind_ret. cbv beta iota.
  destruct geo_hdr as [Hh1 Hh2].
  eapply chl_conseq; [apply (chl_update_finish _ fb _ _ update m)|by intros s ->|done|done].
  - intros Hr. bools. destruct (magic_set m PART_BOOT); injection Ebs as <- <-; [done|discriminate].
  - done.
  - lia.
  - apply (open_image_handle m PART_BOOT). auto.
  - replace update with (snd (wolfBoot_open_image m PART_UPDATE)) by (by rewrite Eu).
    apply (open_image_handle m PART_UPDATE). auto.
  - pose proof Hst as [_ _ [] [] [] [] _].
    replace update with (snd (wolfBoot_open_image m PART_UPDATE)) by (by rewrite Eu).
    by eapply (opened_sizes_ok m0 B U).
Qed.

End Final.

(** ** Results *)

(** Power failing while [p] runs on the memory [m], the flash in either state. *)
Definition cut {A} (p : prog A) (m m' : mem) : Prop := exists l, crash p (mkFlash m l) m'.

Section Results.
Context {c : config} {G : geometry c} {H : hash_api} {K : keystore_api} {V : verify_api}.
Context (m0 : mem) (B U : Z) (Hst : update_start m0 B U).

(** C3: An update whose swap was interrupted, any number of times, is completed
    by [wolfBoot_update] provided that the first sector is marked, the UPDATE partition
    opens and both images have firmware: it
    returns 0 with the images exchanged, BOOT in state TESTING (SUCCESS for a
    rollback) and the trailer of UPDATE erased.  When power fails in that call the memory
    is again one of the swap, one of the final phase, or has both images in
    place.  That the UPDATE partition opens is a condition on such a memory, not a
    consequence: there are interruptions after which it does not, and then the
    update is not resumed. *)
Theorem update_resumes fb m l :
  rtc interrupted m0 m -> 0 < B -> 0 < U -> sector_flag m 0 <> SECT_FLAG_NEW ->
  fst (wolfBoot_open_image m PART_UPDATE) = 0 ->
  (exists s', run (wolfBoot_update fb) (mkFlash m l) = (inl 0, s') /\
     update_done m0 B U fb m 0 s') /\
  forall m', crash (wolfBoot_update fb) (mkFlash m l) m' -> update_crash m0 B U m'.
Proof.
  intros Hr HB HU Hf Ho. apply (interrupted_inv m0 B U Hst) in Hr.
  destruct (chl_update_resume m0 B U Hst fb m HB HU Hr Hf Ho (mkFlash m l) eq_refl)
    as [(r & s' & Hrun & Hd) Hc]. split; [|done].
  pose proof Hd as (-> & _). eauto.
Qed.

(** C4: The final phase of an update is re-entrant, whatever power failures interrupt
    it.  Power fails in [wolfBoot_swap_and_final_erase(0)] after a complete
    exchange, and then any number of times in the call
    [wolfBoot_swap_and_final_erase(1)] that [wolfBoot_start] makes at every start,
    with writes and erases torn.  The next such call returns 0 with both images in
    place, BOOT in state TESTING and the trailer of UPDATE erased, unless it returns
    -1 and changes nothing, because the exchange is complete and the phase not yet
    recorded (then [wolfBoot_start] enters the update again) or because the phase is over:
    both images are in place and BOOT is in state TESTING.  The one condition is that the new image does
    not hold the magic word of the trailer at the start of its staging sector. *)
Theorem final_erase_power_safe m m1 m2 : unmarked m0 U ->
  final_open m0 B U m -> cut (wolfBoot_swap_and_final_erase 0) m m1 ->
  rtc (cut (wolfBoot_swap_and_final_erase 1)) m1 m2 -> forall l,
  exists r s', run (wolfBoot_swap_and_final_erase 1) (mkFlash m2 l) = (inl r, s') /\
    (r = 0 /\ final_post m0 B U 0 s' \/
     r = -1 /\ fmem s' = m2 /\ (final_open m0 B U m2 \/ final_testing m0 B U m2)).
Proof.
  intros Hun Hop [l1 Hc1] Hr l.
  assert (final_inv m0 B U m2) as Hinv.
  { revert m2 Hr. apply rtc_ind_r.
    - apply (proj2 (chl_final_erase m0 B U Hst 0 m ltac:(auto) (mkFlash m l1) eq_refl) m1 Hc1).
    - intros a b _ [lb Hab] Ha. exact (proj2 (chl_restart m0 B U Hst a Hun Ha (mkFlash a lb) eq_refl) b Hab). }
  destruct (chl_restart m0 B U Hst m2 Hun Hinv (mkFlash m2 l) eq_refl) as [(r & s' & Hrun & Hp) _].
  exists r, s'. split; [done|]. destruct Hp as [Hp|Hp]; [left|by right]. by pose proof Hp as (-> & _).
Qed.

End Results.

(** *** An interruption that is not resumed *)

Lemma crash_bind_r {A C} (p : prog A) (f : A -> prog C) s a s' m' :
  run p s = (inl a, s') -> crash (f a) s' m' -> crash (pbind p f) s m'.
Proof.
  revert s. induction p as [x|h|k IH|x n k IH|x d k IH|k IH|k IH]; intros s; simpl.
  - intros [= -> ->]. done.
  - done.
  - intros. right. eauto.
  - destruct (hal_flash_erase s x n). intros. right; right. eauto.
  - destruct (hal_flash_write s x d). intros. right; right. eauto.
  - intros. right. eauto.
  - intros. right. eauto.
Qed.

Lemma crash_bind_l {A C} (p : prog A) (f : A -> prog C) s m' :
  crash p s m' -> crash (pbind p f) s m'.
Proof.
  revert s. induction p as [x|h|k IH|x n k IH|x d k IH|k IH|k IH]; intros s; simpl.
  - intros [->|[]]. destruct (f x); left; done.
  - tauto.
  - intros [?|?]; [by left|right; auto].
  - destruct (hal_flash_erase s x n). intros [?|[?|?]]; auto.
  - destruct (hal_flash_write s x d). intros [?|[?|?]]; auto.
  - intros [?|?]; [by left|right; auto].
  - intros [?|?]; [by left|right; auto].
Qed.

Section Abandoned.
Context {c : config} {G : geometry c} {H : hash_api} {K : keystore_api} {V : verify_api}.
Context (m0 : mem) (B U : Z) (Hst : update_start m0 B U).

(** The first sector saved to the swap area and marked, UPDATE still intact. *)
Lemma saved_state :
  let boot := snd (wolfBoot_open_image m0 PART_BOOT) in
  let update := snd (wolfBoot_open_image m0 PART_UPDATE) in
  let swap := snd (wolfBoot_open_image m0 PART_SWAP) in
  exists r s1 s2, 0 <= r /\
    run (wolfBoot_copy_sector update swap 0) (mkFlash m0 false) = (inl r, s1) /\
    run (mark_sector 0 SECT_FLAG_SWAPPING) s1 = (inl tt, s2) /\
    flashLocked s2 = false /\ mem_ok (fmem s2) /\ magic_set (fmem s2) PART_UPDATE = true /\
    sector_flag (fmem s2) 0 = SECT_FLAG_SWAPPING.
Proof.
  pose proof Hst as [Hok (Hmg & _) HB HU [] [] Hfl]. pose proof (nsw_total m0 B U Hst) as [Hn _].
  pose proof (start_swap_inv m0 B U Hst) as (k & Hk & Hat). cbv zeta.
  destruct (geo_facts) as (G1 & G2 & G3 & G4 & G5 & G6 & G7).
  pose proof (open_image_handle m0 PART_UPDATE ltac:(auto)) as [Hu1 Hu2].
  destruct (swap_handle m0) as [[Hs1 Hs2] _]. pose proof geo_disj_us.
  destruct (opened_bounds m0 B U Hst m0 PART_UPDATE Hok) as [Hb1 Hb2].
  pose proof (chl_copy_sector (snd (wolfBoot_open_image m0 PART_UPDATE))
    (snd (wolfBoot_open_image m0 PART_SWAP)) 0 m0) as Hcp. cbv zeta in Hcp.
  destruct (fun a b d e f g h => Hcp a b d e f g h (mkFlash m0 false) (conj eq_refl eq_refl))
    as [(r & s1 & Hr1 & -> & HL1 & Hoc & _) _];
    [done|by rewrite Hu2, Hs2|lia|lia|lia|lia| |].
  { rewrite Hu1, Hs1, (offset_upd 0), (offset_swap 0) by done. unfold part_base. simpl Z.eqb. cbv iota. lia. }
  rewrite Hs1, (offset_swap 0), Z.add_0_r in Hoc by done.
  assert (0 <= 0 < nswap B U) as H0n by lia. destruct HB as [HB HBs], HU as [HU HUs].
  assert (frame B U 0 m0 (fmem s1) /\ sector_flag (fmem s1) 0 = sector_flag m0 0)
    as [(_ & Hmg1 & _) Hfl1].
  { apply (only_changes_frame B U) with (base := WOLFBOOT_PARTITION_SWAP_ADDRESS) (i := 0);
      try done; [by apply work_swp|by rewrite Z.mul_0_l, Z.add_0_r]. }
  assert (0 <= SECT_FLAG_SWAPPING < 16) as Hnf by (unfold SECT_FLAG_SWAPPING; lia).
  assert (magic_set (fmem s1) PART_UPDATE = true) as Hmg1' by congruence.
  pose proof (chl_mark_sector B U HU HBs HUs 0 SECT_FLAG_SWAPPING (fmem s1) H0n Hnf (proj1 Hoc) Hmg1')
    as Hmk.
  destruct (Hmk s1 (conj eq_refl HL1)) as [([] & s2 & Hr2 & HL2 & Hu) _].
  exists WOLFBOOT_SECTOR_SIZE, s1, s2. split; [lia|]. split; [done|]. split; [done|]. split; [done|].
  pose proof Hu as (Hok2 & _ & Hv & _). split; [done|].
  assert (frame B U 0 (fmem s1) (fmem s2)) as (_ & Hmg2 & _)
    by (by eapply (flag_upd_frame B U)).
  split; [congruence|]. rewrite Hv, Hfl1, Hfl by lia. done.
Qed.

(** C8: The comment on opening UPDATE in [wolfBoot_update] says that there is no
    safety check there, because an update may be half done; the code does check.
    For every update there is an interruption, in the erase of the first sector
    of UPDATE, after which [wolfBoot_update] returns -1 and changes nothing, so
    that the swap already recorded in the sector flags is never resumed. *)
Theorem interrupted_update_abandoned :
  exists m', interrupted m0 m' /\ sector_flag m' 0 = SECT_FLAG_SWAPPING /\
    forall fb l, run (wolfBoot_update fb) (mkFlash m' l) = (inl (-1), mkFlash m' l).
Proof.
  destruct saved_state as (r & s1 & s2 & Hr & Hr1 & Hr2 & HL2 & Hok2 & Hmg2 & Hf2).
  pose proof Hst as [Hok (Hmg & _) HB HU [] [] Hfl]. pose proof (nsw_total m0 B U Hst) as [Hn _].
  destruct geo_facts as (G1 & G2 & G3 & G4 & G5 & G6 & G7).
  pose proof (open_image_handle m0 PART_BOOT ltac:(auto)) as [Hb1 Hb2].
  pose proof (open_image_handle m0 PART_UPDATE ltac:(auto)) as [Hu1 Hu2].
  set (upd := WOLFBOOT_PARTITION_UPDATE_ADDRESS) in *.
  exists (nor_erase (fmem s2) upd WOLFBOOT_SECTOR_SIZE). split; [|split].
  - unfold interrupted, swap_from, swap_loop. cbn [ploop sectors_fuel].
    apply crash_bind_l. unfold swap_body. cbn [ss_sector ss_total_size ss_boot ss_update].
    rewrite (proj2 (Z.ltb_lt _ _)).
    2:{ destruct (opened_bounds m0 B U Hst m0 PART_BOOT Hok), (opened_bounds m0 B U Hst m0 PART_UPDATE Hok).
        rewrite total_size_eq by lia. rewrite Z.mul_0_l. change (u32 0) with 0. lia. }
    simpl negb. cbv iota. apply crash_bind_l. unfold swap_sector.
    destruct (ro_get_update_sector_flag 0 SECT_FLAG_NEW ltac:(lia) (mkFlash m0 false)) as [Hg _].
    simpl fmem in Hg. rewrite Hmg, Hfl in Hg by lia.
    eapply crash_bind_r; [exact Hg|]. cbv beta iota. simpl Z.eqb. cbv iota. unfold swap_case_new.
    eapply crash_bind_r; [exact Hr1|]. cbv beta. rewrite (proj2 (Z.ltb_ge r 0)) by lia.
    eapply crash_bind_r; [exact Hr2|]. cbv beta. unfold swap_case_swapping. apply crash_bind_l.
    unfold wolfBoot_copy_sector. rewrite Hb2, Hu2. simpl Z.eqb. cbv iota. apply crash_bind_l.
    unfold wb_flash_erase. rewrite Hu1. unfold part_base. simpl Z.eqb. cbv iota.
    rewrite Z.mul_0_l. change (u32 0) with 0. rewrite Z.add_0_r. simpl. right. left.
    split; [done|]. intros a. fold upd. unfold nor_erase.
    destruct (in_range upd WOLFBOOT_SECTOR_SIZE a); [|done]. unfold FLASH_BYTE_ERASED. wblia.
  - rewrite <- Hf2. unfold sector_flag. f_equal. apply nor_erase_out.
    unfold flag_addr, PART_UPDATE_ENDFLAGS. fold upd.
    change (0 / 2) with 0. lia.
  - intros fb l. unfold wolfBoot_update. cbn [run pbind look]. cbn [fmem].
    set (m' := nor_erase _ _ _).
    assert ((mle32 m' upd =? WOLFBOOT_MAGIC) = false) as Hm'.
    { unfold mle32, m'. rewrite !nor_erase_in by lia. done. }
    unfold wolfBoot_open_image. simpl Z.eqb. cbv iota.
    unfold wolfBoot_open_image_address at 1. simpl hdr. simpl hdr. fold upd. rewrite Hm'. done.
Qed.

End Abandoned.

(** ** Witnesses *)

Module ExampleUpdate.
Export UpdateSafe.Example ExampleApi.

(** The memory at the end of the exchange of the example. *)
Definition mem1 : mem := fmem (snd (run (swap_from mem0) (mkFlash mem0 false))).

Lemma reached : rtc interrupted mem0 mem1.
Proof.
  apply rtc_once. unfold interrupted, mem1.
  destruct (run (swap_from mem0) (mkFlash mem0 false)) as [r f] eqn:E.
  exact (crash_final _ _ _ _ E).
Qed.

Lemma mem1_open : final_open mem0 20 8 mem1.
Proof.
  destruct (chl_swap_start mem0 20 8 start mem0 (start_swap_inv mem0 20 8 start)
    (mkFlash mem0 false) (conj eq_refl eq_refl)) as [(r & f & E & st & _ & _ & Hsw & Hne & _) _].
  unfold mem1. rewrite E. by split.
Qed.

End ExampleUpdate.
Import ExampleUpdate.

Lemma update_resumes_witness :
  sector_flag ExampleUpdate.mem1 0 = SECT_FLAG_UPDATED /\
  exists s', run (wolfBoot_update 0) (mkFlash ExampleUpdate.mem1 true) = (inl 0, s') /\
    flashLocked s' = true.
Proof.
  split; [vm_compute; reflexivity|].
  destruct (@update_resumes Example.cfg Example.geo ExampleApi.toy_hash ExampleApi.toy_keystore
    ExampleApi.toy_verify Example.mem0 20 8 Example.start 0 ExampleUpdate.mem1 true
    ExampleUpdate.reached ltac:(lia) ltac:(lia)
    ltac:(vm_compute; congruence) ltac:(vm_compute; reflexivity)) as [(s' & Hr & Hd) _].
  exists s'. split; [exact Hr|]. apply Hd.
Defined.

(** In the example power fails twice: when the trailer of BOOT has its magic word but no
    state, and again when the restart has just erased that trailer. *)
Lemma final_erase_power_safe_witness :
  let m1 := fmem (run_for 14 (wolfBoot_swap_and_final_erase 0) (mkFlash ExampleUpdate.mem1 true)) in
  let m2 := fmem (run_for 7 (wolfBoot_swap_and_final_erase 1) (mkFlash m1 true)) in
  magic_set m1 PART_BOOT = true /\ state_of m1 PART_BOOT = 0xFF /\ magic_set m2 PART_BOOT = false /\
  exists s', run (wolfBoot_swap_and_final_erase 1) (mkFlash m2 true) = (inl 0, s') /\
    final_post Example.mem0 20 8 0 s'.
Proof.
  intros m1 m2. split; [vm_compute; reflexivity|]. split; [vm_compute; reflexivity|].
  split; [vm_compute; reflexivity|].
  assert (fst (run (wolfBoot_swap_and_final_erase 1) (mkFlash m2 true)) = inl 0) as E
    by (vm_compute; reflexivity).
  destruct (@final_erase_power_safe Example.cfg Example.geo Example.mem0 20 8 Example.start
    ExampleUpdate.mem1 m1 m2) with (l := true) as (r & s' & Hr & [[-> Hp]|(-> & _)]).
  - vm_compute. intros H. discriminate H.
  - exact ExampleUpdate.mem1_open.
  - exists true. apply crash_run_for.
  - apply rtc_once. exists true. apply crash_run_for.
  - exists s'. split; [exact Hr|exact Hp].
  - rewrite Hr in E. discriminate E.
Defined.

Lemma interrupted_update_abandoned_witness :
  exists m', interrupted Example.mem0 m' /\ sector_flag m' 0 = SECT_FLAG_SWAPPING.
Proof.
  destruct (@interrupted_update_abandoned Example.cfg Example.geo ExampleApi.toy_hash
    ExampleApi.toy_keystore ExampleApi.toy_verify Example.mem0 20 8 Example.start)
    as (m' & H1 & H2 & _).
  exists m'. split; [exact H1|exact H2].
Defined.

(** ** Triggering an update *)

Section Trigger.
Context {c : config} {G : geometry c}.

Lemma erased_flag m i :
  m (flag_addr (i / 2)) = FLASH_BYTE_ERASED -> sector_flag m i = SECT_FLAG_NEW.
Proof. intros E. unfold sector_flag, nibble. rewrite E. by destruct (Z.even i). Qed.

(** The last sector of UPDATE. *)
Definition last_sector : Z := WOLFBOOT_PARTITION_UPDATE_ADDRESS + WOLFBOOT_PARTITION_SIZE - WOLFBOOT_SECTOR_SIZE.

Lemma trigger_sector : WOLFBOOT_PARTITION_UPDATE_ADDRESS mod WOLFBOOT_SECTOR_SIZE = 0 ->
  (PART_UPDATE_ENDFLAGS - 1) / WOLFBOOT_SECTOR_SIZE * WOLFBOOT_SECTOR_SIZE = last_sector.
Proof.
  intros Hal. destruct geo_facts as (G1 & G2 & G3 & G4 & G5 & G6 & G7). destruct geo_part as (n & Hn & HP & Hn2 & Hn3).
  unfold PART_UPDATE_ENDFLAGS, last_sector. pose proof (Z.div_mod WOLFBOOT_PARTITION_UPDATE_ADDRESS WOLFBOOT_SECTOR_SIZE).
  set (q := WOLFBOOT_PARTITION_UPDATE_ADDRESS / WOLFBOOT_SECTOR_SIZE) in *.
  replace (_ / _) with (q + n - 1); [lia|]. apply (Z.div_unique _ _ _ (WOLFBOOT_SECTOR_SIZE - 1)); lia.
Qed.

Lemma trigger_magic : magic_addr PART_UPDATE - 1 = last_sector + WOLFBOOT_SECTOR_SIZE - 5.
Proof. unfold magic_addr, PART_UPDATE_ENDFLAGS, last_sector. simpl Z.eqb. cbv iota. lia. Qed.

Lemma erased_last m : mem_ok m -> only_changes m last_sector WOLFBOOT_SECTOR_SIZE (nor_erase m last_sector WOLFBOOT_SECTOR_SIZE).
Proof. intros Hok. split; [eauto with wb|]. intros a Ha. by apply nor_erase_out. Qed.

Lemma trailer_in_last m m' : mem_ok m -> trailer_only (nor_erase m last_sector WOLFBOOT_SECTOR_SIZE) PART_UPDATE m' ->
  only_changes m last_sector WOLFBOOT_SECTOR_SIZE m'.
Proof.
  intros Hok [Ho1 Ho2]. destruct geo_facts as (G1 & G2 & G3 & G4 & G5 & G6 & G7). split; [done|]. intros a Ha.
  rewrite Ho2 by (pose proof trigger_magic; lia). by apply erased_last.
Qed.

(** The trigger step by step. *)
Lemma chl_trigger m : mem_ok m -> WOLFBOOT_PARTITION_UPDATE_ADDRESS mod WOLFBOOT_SECTOR_SIZE = 0 ->
  chl (fun s => fmem s = m) wolfBoot_update_trigger
    (fun _ s => flashLocked s = true /\ trailer_only (nor_erase m last_sector WOLFBOOT_SECTOR_SIZE) PART_UPDATE (fmem s) /\
       magic_set (fmem s) PART_UPDATE = true /\ state_of (fmem s) PART_UPDATE = IMG_STATE_UPDATING)
    (only_changes m last_sector WOLFBOOT_SECTOR_SIZE).
Proof.
  intros Hok Hal. destruct geo_facts as (G1 & G2 & G3 & G4 & G5 & G6 & G7).
  set (me := nor_erase m last_sector WOLFBOOT_SECTOR_SIZE). pose proof (erased_last m Hok) as Hme.
  unfold wolfBoot_update_trigger. rewrite (trigger_sector Hal). apply (chl_bind _ _ (fun _ => at_mem m)).
  { apply chl_unlock. intros s ->. split; [by apply only_changes_refl|done]. }
  intros _. apply (chl_bind _ _ (fun _ => at_mem me)).
  { apply chl_erase.
    - intros s [-> HL]. split; [done|by apply only_changes_refl].
    - intros s m' [-> HL] Ht. split; [eauto with wb|]. intros a Ha. by apply (torn_erase_out _ _ _ _ _ Ht).
    - intros s [-> HL]. split; [done|exact Hme]. }
  intros _. eapply chl_bind.
  { eapply chl_conseq; [apply (chl_set_state_erased PART_UPDATE IMG_STATE_UPDATING me)|done| |intros m'; by apply trailer_in_last].
    - auto.
    - unfold IMG_STATE_UPDATING. wblia.
    - apply Hme.
    - intros a Ha. apply nor_erase_in. pose proof trigger_magic. lia.
    - intros r s Hp. exact Hp. }
  intros r. cbv beta. apply chl_lock. intros s (_ & _ & Ht & Hmg & Hs). split; [by apply trailer_in_last|done].
Qed.

(** C7: Triggering an update with two images in place leaves exactly the memory an
    update starts from: the trailer of UPDATE in state UPDATING with every
    sector flag NEW, and both images untouched; power failing during the
    trigger changes nothing but the last sector of UPDATE. *)
Theorem trigger_starts_update m B U l :
  mem_ok m -> WOLFBOOT_PARTITION_UPDATE_ADDRESS mod WOLFBOOT_SECTOR_SIZE = 0 ->
  0 <= B /\ B + IMAGE_HEADER_SIZE <= WOLFBOOT_PARTITION_SIZE - WOLFBOOT_SECTOR_SIZE ->
  0 <= U /\ U + IMAGE_HEADER_SIZE <= WOLFBOOT_PARTITION_SIZE - WOLFBOOT_SECTOR_SIZE ->
  mle32 m WOLFBOOT_PARTITION_BOOT_ADDRESS = WOLFBOOT_MAGIC /\
    mle32 m (WOLFBOOT_PARTITION_BOOT_ADDRESS + 4) = B ->
  mle32 m WOLFBOOT_PARTITION_UPDATE_ADDRESS = WOLFBOOT_MAGIC /\
    mle32 m (WOLFBOOT_PARTITION_UPDATE_ADDRESS + 4) = U ->
  (exists m', run wolfBoot_update_trigger (mkFlash m l) = (inl tt, mkFlash m' true) /\
     update_start m' B U /\ state_of m' PART_UPDATE = IMG_STATE_UPDATING /\
     only_changes m last_sector WOLFBOOT_SECTOR_SIZE m') /\
  forall m', crash wolfBoot_update_trigger (mkFlash m l) m' ->
    only_changes m last_sector WOLFBOOT_SECTOR_SIZE m'.
Proof.
  intros Hok Hal HB HU Hb Hu. destruct geo_facts as (G1 & G2 & G3 & G4 & G5 & G6 & G7). pose proof geo_disj_bu.
  destruct (chl_trigger m Hok Hal (mkFlash m l) eq_refl) as [([] & [m' l'] & Hr & HL & Ht & Hmg & Hs) Hc].
  split; [|exact Hc]. simpl in *. subst l'. exists m'. split; [exact Hr|].
  pose proof (trailer_in_last m m' Hok Ht) as Hoc. pose proof Hoc as [Hok' Hout]. pose proof Ht as [_ Hte].
  split; [|split; [done|done]].
  assert (forall a, WOLFBOOT_PARTITION_BOOT_ADDRESS <= a < WOLFBOOT_PARTITION_BOOT_ADDRESS + 8 \/
    WOLFBOOT_PARTITION_UPDATE_ADDRESS <= a < WOLFBOOT_PARTITION_UPDATE_ADDRESS + 8 -> m' a = m a) as Hhd.
  { intros a Ha. apply Hout. unfold last_sector. lia. }
  constructor; try done.
  - split; [done|]. rewrite Hs. by vm_compute.
  - unfold mle32 in *. by rewrite !Hhd by lia.
  - unfold mle32 in *. by rewrite !Hhd by lia.
  - intros i Hi. apply erased_flag. destruct HB as [HB1 HB2], HU as [HU1 HU2].
    assert (WOLFBOOT_PARTITION_SIZE - WOLFBOOT_SECTOR_SIZE <= WOLFBOOT_PARTITION_SIZE - (6 + i / 2)
      < WOLFBOOT_PARTITION_SIZE - 5) as Hfa by (by apply (flag_addr_bound B U)).
    unfold flag_addr, PART_UPDATE_ENDFLAGS. rewrite Hte by (pose proof trigger_magic; unfold last_sector in *; lia).
    apply nor_erase_in. unfold last_sector. lia.
Qed.

End Trigger.

Lemma trigger_starts_update_witness :
  exists m', run wolfBoot_update_trigger (mkFlash Example.mem0 true) = (inl tt, mkFlash m' true) /\
    update_start m' 20 8.
Proof.
  destruct (trigger_starts_update Example.mem0 20 8 true) as [(m' & H1 & H2 & _) _].
  - exact Example.mem0_ok.
  - reflexivity.
  - vm_compute. split; congruence.
  - vm_compute. split; congruence.
  - split; reflexivity.
  - split; reflexivity.
  - exists m'. split; [exact H1|exact H2].
Defined.
