(* ===== verification/Gzip.v ===== *)
(** * Gzip: the DEFLATE decompressor of gzip.c

    The whole of src/gzip.c: CRC-32, the bit reader, canonical Huffman tables,
    the three block types and the RFC 1952 wrapper.  The C functions thread
    [gz_state_t] and a return code; here they return the new state with a value
    or an error code ([res]).  Arrays that the C code leaves uninitialised hold
    [None] until they are written, and reading one is undefined behaviour like
    reading out of bounds. *)

From Stdlib Require Import ZArith Lia.
From stdpp Require Import prelude.
From S2P Require Import Prelude.

Local Open Scope Z_scope.

Definition WOLFBOOT_GZIP_E_FORMAT : Z := -1.
Definition WOLFBOOT_GZIP_E_TRUNCATED : Z := -2.
Definition WOLFBOOT_GZIP_E_OUTPUT : Z := -3.
Definition WOLFBOOT_GZIP_E_HUFFMAN : Z := -4.
Definition WOLFBOOT_GZIP_E_DISTANCE : Z := -5.
Definition WOLFBOOT_GZIP_E_CRC32 : Z := -6.
Definition WOLFBOOT_GZIP_E_ISIZE : Z := -7.
Definition WOLFBOOT_GZIP_E_PARAM : Z := -8.

Definition GZIP_CRC32_INIT : Z := 0xFFFFFFFF.
Definition GZIP_CRC32_FINAL_XOR : Z := 0xFFFFFFFF.
Definition GZIP_CRC32_POLY : Z := 0xEDB88320.
Definition GZIP_MAX_HUFF_BITS : Z := 15.
Definition GZIP_CL_CODES : Z := 19.
Definition GZIP_LITLEN_CODES : Z := 288.
Definition GZIP_DIST_CODES : Z := 32.
Definition GZIP_EOB_SYMBOL : Z := 256.
Definition GZIP_LENGTH_CODE_BASE : Z := 257.
Definition GZIP_LENGTH_CODE_COUNT : Z := 29.
Definition GZIP_DIST_CODE_COUNT : Z := 30.
Definition GZIP_HEADER_MIN_SIZE : Z := 10.
Definition GZIP_TRAILER_SIZE : Z := 8.

Definition gz_len_base : list Z :=
  [3; 4; 5; 6; 7; 8; 9; 10; 11; 13; 15; 17; 19; 23; 27; 31; 35; 43; 51; 59; 67; 83; 99; 115;
   131; 163; 195; 227; 258].
Definition gz_len_extra : list Z :=
  [0; 0; 0; 0; 0; 0; 0; 0; 1; 1; 1; 1; 2; 2; 2; 2; 3; 3; 3; 3; 4; 4; 4; 4; 5; 5; 5; 5; 0].
Definition gz_dist_base : list Z :=
  [1; 2; 3; 4; 5; 7; 9; 13; 17; 25; 33; 49; 65; 97; 129; 193; 257; 385; 513; 769; 1025; 1537;
   2049; 3073; 4097; 6145; 8193; 12289; 16385; 24577].
Definition gz_dist_extra : list Z :=
  [0; 0; 0; 0; 1; 1; 2; 2; 3; 3; 4; 4; 5; 5; 6; 6; 7; 7; 8; 8; 9; 9; 10; 10; 11; 11; 12; 12;
   13; 13].
Definition gz_cl_order : list Z :=
  [16; 17; 18; 0; 8; 7; 9; 6; 10; 5; 11; 4; 12; 3; 13; 2; 14; 1; 15].

(** ** State *)

Record gz_state : Type := mkGz {
  g_in : list Z;
  in_len : Z;
  in_pos : Z;
  bit_buf : Z;
  bit_count : Z;
  out : list Z;
  out_max : Z;
  out_pos : Z;
  crc32 : Z;
}.

Definition set_in_pos (x : Z) (s : gz_state) : gz_state :=
  mkGz (g_in s) (in_len s) x (bit_buf s) (bit_count s) (out s) (out_max s) (out_pos s) (crc32 s).
Definition set_bits (b n : Z) (s : gz_state) : gz_state :=
  mkGz (g_in s) (in_len s) (in_pos s) b n (out s) (out_max s) (out_pos s) (crc32 s).
Definition set_out (o : list Z) (p c : Z) (s : gz_state) : gz_state :=
  mkGz (g_in s) (in_len s) (in_pos s) (bit_buf s) (bit_count s) o (out_max s) p c.

(** [gz_huff_t]. *)
Record gz_huff : Type := mkHuff {
  counts : list Z;
  symbols : list (option Z);
}.

(** The state after a call, with its result or its error code. *)
Definition res (A : Type) : Type := outcome (gz_state * (A + Z)).

Definition gret {A} (s : gz_state) (a : A) : res A := Ok (s, inl a).
Definition gerr {A} (s : gz_state) (e : Z) : res A := Ok (s, inr e).

Definition gbind {A B} (p : res A) (k : gz_state -> A -> res B) : res B :=
  obind p (fun '(s, r) =>
    match r with
    | inl a => k s a
    | inr e => gerr s e
    end).

Notation "'let$' s , x ':=' e 'in' k" := (gbind e (fun s x => k))
  (at level 10, s name, x name, e at level 200, k at level 200,
   format "'[v' 'let$'  s ,  x  ':='  e  'in' '/' k ']'") : wb_scope.

(** Read an array that may not be initialised. *)
Definition rdo (l : list (option Z)) (i : Z) : outcome Z :=
  if i <? 0 then Oob else
  match l !! Z.to_nat i with
  | Some (Some b) => Ok b
  | _ => Oob
  end.

(** ** CRC-32 *)

Definition gz_crc32_bit (crc : Z) : Z :=
  if negb (Z.land crc 1 =? 0) then Z.lxor (Z.shiftr crc 1) GZIP_CRC32_POLY else Z.shiftr crc 1.

Definition gz_crc32_byte (crc b : Z) : Z :=
  Nat.iter 8 gz_crc32_bit (Z.lxor crc b).

(** ** Bit stream reader *)

Definition gz_need_bits (s : gz_state) (n : Z) : res unit :=
  loop (S (Z.to_nat n)) (fun s =>
    if negb (bit_count s <? n) then Ok (inr (s, inl tt)) else
    if in_len s <=? in_pos s then Ok (inr (s, inr WOLFBOOT_GZIP_E_TRUNCATED)) else
    let! b := rd (g_in s) (in_pos s) in
    let s := set_bits (Z.lor (bit_buf s) (u32 (Z.shiftl b (bit_count s)))) (bit_count s + 8) s in
    Ok (inl (set_in_pos (u32 (in_pos s + 1)) s))) s.

Definition gz_get_bits (s : gz_state) (n : Z) : res Z :=
  let$ s, _u := gz_need_bits s n in
  let val := Z.land (bit_buf s) (u32 (Z.shiftl 1 n) - 1) in
  gret (set_bits (Z.shiftr (bit_buf s) n) (bit_count s - n) s) val.

Definition gz_align_byte (s : gz_state) : gz_state :=
  let drop := Z.land (bit_count s) 7 in
  set_bits (Z.shiftr (bit_buf s) drop) (bit_count s - drop) s.

(** ** Output *)

Definition gz_emit_byte (s : gz_state) (b : Z) : res unit :=
  if out_max s <=? out_pos s then gerr s WOLFBOOT_GZIP_E_OUTPUT else
  let! o := wr (out s) (out_pos s) b in
  gret (set_out o (u32 (out_pos s + 1)) (gz_crc32_byte (crc32 s) b) s) tt.

(** ** Huffman tables *)

(** Count the codes of each length; [None] on a length above 15. *)
Definition huff_count (lengths : list Z) (n : Z) : outcome (option (list Z)) :=
  loop (S (Z.to_nat n)) (fun '(sym, cnt) =>
    if negb (sym <? n) then Ok (inr (Some cnt)) else
    let! l := rd lengths sym in
    if GZIP_MAX_HUFF_BITS <? l then Ok (inr None) else
    let! x := rd cnt l in
    let! cnt := wr cnt l (i16 (x + 1)) in
    Ok (inl (sym + 1, cnt))) (0, replicate 16 0).

(** The Kraft sum: [false] when the lengths are over-subscribed. *)
Definition huff_kraft (cnt : list Z) : outcome bool :=
  loop 16 (fun '(len, lft) =>
    if negb (len <=? GZIP_MAX_HUFF_BITS) then Ok (inr true) else
    let lft := Z.shiftl lft 1 in
    let! x := rd cnt len in
    if lft <? x then Ok (inr false) else Ok (inl (len + 1, lft - x))) (1, 1).

(** Where the symbols of each length start. *)
Definition huff_offsets (cnt : list Z) : outcome (list (option Z)) :=
  loop 16 (fun '(len, offs) =>
    if negb (len <? GZIP_MAX_HUFF_BITS) then Ok (inr offs) else
    let! o := rdo offs len in
    let! x := rd cnt len in
    let! offs := wr offs (len + 1) (Some (i16 (o + x))) in
    Ok (inl (len + 1, offs))) (1, <[1%nat := Some 0]> (replicate 16 None)).

(** Symbols in canonical order. *)
Definition huff_sort (lengths : list Z) (n : Z) (offs : list (option Z))
    : outcome (list (option Z)) :=
  loop (S (Z.to_nat n)) (fun '(sym, offs, syms) =>
    if negb (sym <? n) then Ok (inr syms) else
    let! sl := rd lengths sym in
    if sl =? 0 then Ok (inl (sym + 1, offs, syms)) else
    let! o := rdo offs sl in
    let! syms := wr syms o (Some (i16 sym)) in
    let! offs := wr offs sl (Some (i16 (o + 1))) in
    Ok (inl (sym + 1, offs, syms))) (0, offs, replicate (Z.to_nat GZIP_LITLEN_CODES) None).

(** [gz_huff_build]; [lengths] is the array from its first element on. *)
Definition gz_huff_build (lengths : list Z) (n : Z) : outcome (gz_huff + Z) :=
  let! cnt := huff_count lengths n in
  match cnt with
  | None => Ok (inr WOLFBOOT_GZIP_E_HUFFMAN)
  | Some cnt =>
      let! c0 := rd cnt 0 in
      if c0 =? n then Ok (inl (mkHuff cnt (replicate (Z.to_nat GZIP_LITLEN_CODES) None))) else
      let! fits := huff_kraft cnt in
      if negb fits then Ok (inr WOLFBOOT_GZIP_E_HUFFMAN) else
      let! offs := huff_offsets cnt in
      let! syms := huff_sort lengths n offs in
      Ok (inl (mkHuff cnt syms))
  end.

(** A table build inside a block decoder. *)
Definition ghuff (s : gz_state) (o : outcome (gz_huff + Z)) : res gz_huff :=
  let! r := o in
  match r with
  | inl h => gret s h
  | inr e => gerr s e
  end.

(** One symbol; the error code is the result when it is negative. *)
Definition gz_huff_decode (s : gz_state) (h : gz_huff) : res Z :=
  loop 16 (fun '(len, code, first, index, s) =>
    if negb (len <=? GZIP_MAX_HUFF_BITS) then Ok (inr (s, inr WOLFBOOT_GZIP_E_HUFFMAN)) else
    let! (s, r) := gz_get_bits s 1 in
    match r with
    | inr e => Ok (inr (s, inr e))
    | inl bit =>
        let code := Z.lor (Z.shiftl code 1) bit in
        let! count := rd (counts h) len in
        if code - count <? first then
          let! sym := rdo (symbols h) (index + (code - first)) in
          Ok (inr (s, inl sym))
        else Ok (inl (len + 1, code, Z.shiftl (first + count) 1, index + count, s))
    end) (1, 0, 0, 0, s).

(** ** Blocks *)

(** Emit [len] bytes of the input. *)
Definition stored_copy (s : gz_state) (len : Z) : res unit :=
  loop (S (Z.to_nat len)) (fun '(len, s) =>
    if negb (0 <? len) then Ok (inr (s, inl tt)) else
    let! b := rd (g_in s) (in_pos s) in
    let! (s, r) := gz_emit_byte s b in
    match r with
    | inr e => Ok (inr (s, inr e))
    | inl _ => Ok (inl (len - 1, set_in_pos (u32 (in_pos s + 1)) s))
    end) (len, s).

Definition gz_inflate_stored (s : gz_state) : res unit :=
  let s := gz_align_byte s in
  if in_len s <? u32 (in_pos s + 4) then gerr s WOLFBOOT_GZIP_E_TRUNCATED else
  let! b0 := rd (g_in s) (in_pos s) in
  let! b1 := rd (g_in s) (u32 (in_pos s + 1)) in
  let! b2 := rd (g_in s) (u32 (in_pos s + 2)) in
  let! b3 := rd (g_in s) (u32 (in_pos s + 3)) in
  let len := Z.lor b0 (Z.shiftl b1 8) in
  let nlen := Z.lor b2 (Z.shiftl b3 8) in
  let s := set_in_pos (u32 (in_pos s + 4)) s in
  if negb (Z.lxor len 0xFFFF =? nlen) then gerr s WOLFBOOT_GZIP_E_FORMAT else
  if in_len s <? u32 (in_pos s + len) then gerr s WOLFBOOT_GZIP_E_TRUNCATED else
  stored_copy (set_bits 0 0 s) len.

(** Code lengths of the fixed trees. *)
Definition fixed_litlen_lengths : list Z :=
  replicate 144 8 ++ replicate 112 9 ++ replicate 24 7 ++ replicate 8 8.
Definition fixed_dist_lengths : list Z := replicate 30 5 ++ drop 30 fixed_litlen_lengths.

Definition gz_build_fixed : outcome ((gz_huff * gz_huff) + Z) :=
  let! litlen := gz_huff_build fixed_litlen_lengths 288 in
  match litlen with
  | inr e => Ok (inr e)
  | inl litlen =>
      let! dist := gz_huff_build fixed_dist_lengths 30 in
      match dist with
      | inr e => Ok (inr e)
      | inl dist => Ok (inl (litlen, dist))
      end
  end.

(** The LZ77 copy. *)
Definition lz_copy (s : gz_state) (copy_pos length : Z) : res unit :=
  loop (S (Z.to_nat length)) (fun '(copy_pos, length, s) =>
    if negb (0 <? length) then Ok (inr (s, inl tt)) else
    let! b := rd (out s) copy_pos in
    let! (s, r) := gz_emit_byte s b in
    match r with
    | inr e => Ok (inr (s, inr e))
    | inl _ => Ok (inl (u32 (copy_pos + 1), length - 1, s))
    end) (copy_pos, length, s).

(** A base value plus extra bits, for lengths and distances. *)
Definition base_extra (s : gz_state) (base extra : Z) : res Z :=
  if 0 <? extra then
    let$ s, x := gz_get_bits s extra in gret s (u32 (base + x))
  else gret s base.

(** A length code: length, distance and copy. *)
Definition inflate_match (s : gz_state) (dist : gz_huff) (sym : Z) : res unit :=
  let li := sym - GZIP_LENGTH_CODE_BASE in
  if GZIP_LENGTH_CODE_COUNT <=? li then gerr s WOLFBOOT_GZIP_E_HUFFMAN else
  let! lbase := rd gz_len_base li in
  let! lextra := rd gz_len_extra li in
  let$ s, length := base_extra s lbase lextra in
  let$ s, dsym := gz_huff_decode s dist in
  if dsym <? 0 then gerr s dsym else
  if GZIP_DIST_CODE_COUNT <=? dsym then gerr s WOLFBOOT_GZIP_E_HUFFMAN else
  let! dbase := rd gz_dist_base dsym in
  let! dextra := rd gz_dist_extra dsym in
  let$ s, distance := base_extra s dbase dextra in
  if (distance =? 0) || (out_pos s <? distance) then gerr s WOLFBOOT_GZIP_E_DISTANCE else
  if out_max s <? u32 (out_pos s + length) then gerr s WOLFBOOT_GZIP_E_OUTPUT else
  lz_copy s (u32 (out_pos s - distance)) length.

(** Enough turns for a block body: each decodes at least one bit. *)
Definition bits_fuel (s : gz_state) : nat := S (S (Z.to_nat (8 * in_len s + 64))).

Definition gz_inflate_huffman (s : gz_state) (litlen dist : gz_huff) : res unit :=
  loop (bits_fuel s) (fun s =>
    let! (s, r) := gz_huff_decode s litlen in
    match r with
    | inr e => Ok (inr (s, inr e))
    | inl sym =>
        if sym <? 0 then Ok (inr (s, inr sym)) else
        if sym =? GZIP_EOB_SYMBOL then Ok (inr (s, inl tt)) else
        let! (s, r) :=
          (if sym <? GZIP_EOB_SYMBOL then gz_emit_byte s (u8 sym)
           else inflate_match s dist sym) in
        match r with
        | inr e => Ok (inr (s, inr e))
        | inl _ => Ok (inl s)
        end
    end) s.

(** *** Dynamic blocks *)

(** Code lengths of the code-length alphabet, in their permuted order. *)
Definition read_cl_lens (s : gz_state) (hclen : Z) : res (list Z) :=
  loop (S (Z.to_nat hclen)) (fun '(i, cl_lens, s) =>
    if negb (i <? hclen) then Ok (inr (s, inl cl_lens)) else
    let! (s, r) := gz_get_bits s 3 in
    match r with
    | inr e => Ok (inr (s, inr e))
    | inl val =>
        let! o := rd gz_cl_order i in
        let! cl_lens := wr cl_lens o (u8 val) in
        Ok (inl (i + 1, cl_lens, s))
    end) (0, replicate (Z.to_nat GZIP_CL_CODES) 0, s).

(** [while (val--) code_lens[idx++] = v]. *)
Definition fill_lens (code_lens : list Z) (idx val v : Z) : outcome (list Z) :=
  loop (S (Z.to_nat val)) (fun '(idx, val, code_lens) =>
    if val =? 0 then Ok (inr code_lens) else
    let! code_lens := wr code_lens idx v in
    Ok (inl (idx + 1, val - 1, code_lens))) (idx, val, code_lens).

(** A repeat symbol: [base] plus [extra] bits copies of [v]. *)
Definition repeat_lens (s : gz_state) (code_lens : list Z) (idx total extra base v : Z)
    : res (list Z * Z) :=
  let$ s, val := gz_get_bits s extra in
  let val := val + base in
  if total <? idx + val then gerr s WOLFBOOT_GZIP_E_FORMAT else
  let! code_lens := fill_lens code_lens idx val v in
  gret s (code_lens, idx + val).

(** The literal/length and distance code lengths. *)
Definition read_code_lens (s : gz_state) (cl : gz_huff) (code_lens : list Z) (total : Z)
    : res (list Z) :=
  loop (S (Z.to_nat total)) (fun '(idx, prev, code_lens, s) =>
    if negb (idx <? total) then Ok (inr (s, inl code_lens)) else
    let! (s, r) := gz_huff_decode s cl in
    match r with
    | inr e => Ok (inr (s, inr e))
    | inl sym =>
        if sym <? 0 then Ok (inr (s, inr sym)) else
        if sym <? 16 then
          let! code_lens := wr code_lens idx (u8 sym) in
          Ok (inl (idx + 1, u8 sym, code_lens, s))
        else if (sym =? 16) && (idx =? 0) then
          Ok (inr (s, inr WOLFBOOT_GZIP_E_FORMAT))
        else if 18 <? sym then Ok (inr (s, inr WOLFBOOT_GZIP_E_FORMAT)) else
          let '(extra, base, v) :=
            if sym =? 16 then (2, 3, prev) else if sym =? 17 then (3, 3, 0) else (7, 11, 0) in
          let! (s, r) := repeat_lens s code_lens idx total extra base v in
          match r with
          | inr e => Ok (inr (s, inr e))
          | inl (code_lens, idx) => Ok (inl (idx, v, code_lens, s))
          end
    end) (0, 0, code_lens, s).

Definition gz_inflate_dynamic (s : gz_state) : res unit :=
  let code_lens := replicate (Z.to_nat (GZIP_LITLEN_CODES + GZIP_DIST_CODES)) 0 in
  let$ s, hlit := gz_get_bits s 5 in
  let hlit := hlit + 257 in
  let$ s, hdist := gz_get_bits s 5 in
  let hdist := hdist + 1 in
  let$ s, hclen := gz_get_bits s 4 in
  let hclen := hclen + 4 in
  if (GZIP_LITLEN_CODES <? hlit) || (GZIP_DIST_CODES <? hdist) || (GZIP_CL_CODES <? hclen)
  then gerr s WOLFBOOT_GZIP_E_FORMAT else
  let$ s, cl_lens := read_cl_lens s hclen in
  let$ s, cl_huff := ghuff s (gz_huff_build cl_lens GZIP_CL_CODES) in
  let$ s, code_lens := read_code_lens s cl_huff code_lens (hlit + hdist) in
  let! eob := rd code_lens GZIP_EOB_SYMBOL in
  if eob =? 0 then gerr s WOLFBOOT_GZIP_E_HUFFMAN else
  let$ s, litlen_huff := ghuff s (gz_huff_build code_lens hlit) in
  let$ s, dist_huff := ghuff s (gz_huff_build (drop (Z.to_nat hlit) code_lens) hdist) in
  gz_inflate_huffman s litlen_huff dist_huff.

(** ** Driver *)

(** The fixed trees are built once and kept ([fixed_built]). *)
Definition inflate_block (s : gz_state) (fixed : option (gz_huff * gz_huff)) (btype : Z)
    : res (option (gz_huff * gz_huff)) :=
  if btype =? 0 then
    let$ s, _u := gz_inflate_stored s in gret s fixed
  else if btype =? 1 then
    match fixed with
    | Some (litlen, dist) =>
        let$ s, _u := gz_inflate_huffman s litlen dist in gret s fixed
    | None =>
        let! built := gz_build_fixed in
        match built with
        | inr e => gerr s e
        | inl (litlen, dist) =>
            let$ s, _u := gz_inflate_huffman s litlen dist in gret s (Some (litlen, dist))
        end
    end
  else if btype =? 2 then
    let$ s, _u := gz_inflate_dynamic s in gret s fixed
  else gerr s WOLFBOOT_GZIP_E_FORMAT.

Definition gz_inflate (s : gz_state) : res unit :=
  loop (bits_fuel s) (fun '(fixed, s) =>
    let! (s, r) :=
      (let$ s, bfinal := gz_get_bits s 1 in
       let$ s, btype := gz_get_bits s 2 in
       let$ s, fixed := inflate_block s fixed btype in
       gret s (bfinal, fixed)) in
    match r with
    | inr e => Ok (inr (s, inr e))
    | inl (bfinal, fixed) =>
        if bfinal =? 0 then Ok (inl (fixed, s)) else Ok (inr (s, inl tt))
    end) (None, s).

(** ** RFC 1952 wrapper *)

Definition gz_skip_zstring (s : gz_state) : res unit :=
  loop (S (Z.to_nat (in_len s))) (fun s =>
    if in_len s <=? in_pos s then Ok (inr (s, inr WOLFBOOT_GZIP_E_TRUNCATED)) else
    let! b := rd (g_in s) (in_pos s) in
    let s := set_in_pos (u32 (in_pos s + 1)) s in
    if b =? 0 then Ok (inr (s, inl tt)) else Ok (inl s)) s.

Definition parse_fextra (s : gz_state) : res unit :=
  if in_len s <? u32 (in_pos s + 2) then gerr s WOLFBOOT_GZIP_E_TRUNCATED else
  let! b0 := rd (g_in s) (in_pos s) in
  let! b1 := rd (g_in s) (u32 (in_pos s + 1)) in
  let xlen := Z.lor b0 (Z.shiftl b1 8) in
  let s := set_in_pos (u32 (in_pos s + 2)) s in
  if in_len s <? u32 (in_pos s + xlen) then gerr s WOLFBOOT_GZIP_E_TRUNCATED else
  gret (set_in_pos (u32 (in_pos s + xlen)) s) tt.

Definition parse_fhcrc (s : gz_state) : res unit :=
  if in_len s <? u32 (in_pos s + 2) then gerr s WOLFBOOT_GZIP_E_TRUNCATED else
  gret (set_in_pos (u32 (in_pos s + 2)) s) tt.

Definition gz_parse_header (s : gz_state) : res unit :=
  if in_len s <? GZIP_HEADER_MIN_SIZE then gerr s WOLFBOOT_GZIP_E_TRUNCATED else
  let! b0 := rd (g_in s) 0 in
  let! b1 := rd (g_in s) 1 in
  let! b2 := rd (g_in s) 2 in
  if negb (b0 =? 0x1F) || negb (b1 =? 0x8B) || negb (b2 =? 8)
  then gerr s WOLFBOOT_GZIP_E_FORMAT else
  let! flg := rd (g_in s) 3 in
  if negb (Z.land flg 0xE0 =? 0) then gerr s WOLFBOOT_GZIP_E_FORMAT else
  let s := set_in_pos GZIP_HEADER_MIN_SIZE s in
  let$ s, _u := (if negb (Z.land flg 0x04 =? 0) then parse_fextra s else gret s tt) in
  let$ s, _u := (if negb (Z.land flg 0x08 =? 0) then gz_skip_zstring s else gret s tt) in
  let$ s, _u := (if negb (Z.land flg 0x10 =? 0) then gz_skip_zstring s else gret s tt) in
  if negb (Z.land flg 0x02 =? 0) then parse_fhcrc s else gret s tt.

(** Little-endian word of the input at [p]. *)
Definition in_le32 (l : list Z) (p : Z) : outcome Z :=
  let! b0 := rd l p in
  let! b1 := rd l (u32 (p + 1)) in
  let! b2 := rd l (u32 (p + 2)) in
  let! b3 := rd l (u32 (p + 3)) in
  Ok (Z.lor (Z.lor (Z.lor b0 (Z.shiftl b1 8)) (Z.shiftl b2 16)) (Z.shiftl b3 24)).

Definition gz_parse_trailer (s : gz_state) (computed_crc bytes_out : Z) : res unit :=
  let s := set_bits 0 0 (gz_align_byte s) in
  if in_len s <? u32 (in_pos s + GZIP_TRAILER_SIZE) then gerr s WOLFBOOT_GZIP_E_TRUNCATED else
  let! got_crc := in_le32 (g_in s) (in_pos s) in
  let! got_isize := in_le32 (g_in s) (u32 (in_pos s + 4)) in
  let s := set_in_pos (u32 (in_pos s + GZIP_TRAILER_SIZE)) s in
  if negb (got_crc =? computed_crc) then gerr s WOLFBOOT_GZIP_E_CRC32 else
  if negb (got_isize =? bytes_out) then gerr s WOLFBOOT_GZIP_E_ISIZE else
  gret s tt.

Definition gz_init (inp : list Z) (len : Z) (outp : list Z) (max : Z) : gz_state :=
  mkGz inp len 0 0 0 outp max 0 GZIP_CRC32_INIT.

(** Return code, output buffer and [*out_len]; [None] is a NULL pointer. *)
Definition wolfBoot_gunzip (inp : option (list Z)) (len : Z) (outp : option (list Z)) (max : Z)
    : outcome (Z * list Z * Z) :=
  match inp, outp with
  | Some inp, Some outp =>
      let! (s, r) :=
        (let$ s, _u := gz_parse_header (gz_init inp len outp max) in
         let$ s, _u := gz_inflate s in
         let s := set_out (out s) (out_pos s) (Z.lxor (crc32 s) GZIP_CRC32_FINAL_XOR) s in
         gz_parse_trailer s (crc32 s) (out_pos s)) in
      Ok (match r with inl _ => 0 | inr e => e end, out s, out_pos s)
  | _, _ => Ok (WOLFBOOT_GZIP_E_PARAM, default [] outp, 0)
  end.
