(* ===== verification/GzipHuff.v ===== *)
(** * GzipHuff: the canonical Huffman tables of gzip.c

    [gz_huff_build] never reads or writes outside its arrays, always returns,
    and on success every entry of [symbols] that [gz_huff_decode] can reach is
    initialised with a symbol of the alphabet ([huff_ok]). *)

From Stdlib Require Import ZArith Lia.
From stdpp Require Import prelude.
From S2P Require Import Prelude Gzip.

Local Open Scope Z_scope.

(** ** Counting code lengths *)

(** How many of the first [k] symbols have code length [l]. *)
Fixpoint cntl (lengths : list Z) (k : nat) (l : Z) : Z :=
  match k with
  | O => 0
  | S k => cntl lengths k l + (if at_ lengths (Z.of_nat k) =? l then 1 else 0)
  end.

(** Sum of [f 1 .. f n]. *)
Fixpoint sum1 (f : Z -> Z) (n : nat) : Z :=
  match n with
  | O => 0
  | S n => sum1 f n + f (Z.of_nat (S n))
  end.

Lemma cntl_succ lengths k l : 0 <= k ->
  cntl lengths (Z.to_nat (k + 1)) l =
  cntl lengths (Z.to_nat k) l + (if at_ lengths k =? l then 1 else 0).
Proof.
  intros Hk. replace (Z.to_nat (k + 1)) with (S (Z.to_nat k)) by lia. simpl.
  by rewrite Z2Nat.id by lia.
Qed.

Lemma cntl_range lengths k l : 0 <= cntl lengths k l <= Z.of_nat k.
Proof. induction k as [|k IH]; simpl; [lia|]. case_if; lia. Qed.

Lemma cntl_mono lengths k1 k2 l : (k1 <= k2)%nat -> cntl lengths k1 l <= cntl lengths k2 l.
Proof. induction 1 as [|k2 _ IH]; simpl; [lia|]. case_if; lia. Qed.

Lemma sum1_ext f g n : (forall i, 1 <= i <= Z.of_nat n -> f i = g i) -> sum1 f n = sum1 g n.
Proof.
  induction n as [|n IH]; intros Hfg; simpl; [done|].
  rewrite IH by (intros; apply Hfg; lia). rewrite Hfg by lia. done.
Qed.

Lemma sum1_nonneg f n : (forall i, 0 <= f i) -> 0 <= sum1 f n.
Proof. intros Hf. induction n as [|n IH]; simpl; [lia|]. pose proof (Hf (Z.of_nat (S n))). lia. Qed.

Lemma sum1_mono f n1 n2 : (forall i, 0 <= f i) -> (n1 <= n2)%nat -> sum1 f n1 <= sum1 f n2.
Proof.
  intros Hf. induction 1 as [|n2 _ IH]; [lia|]. simpl. pose proof (Hf (Z.of_nat (S n2))). lia.
Qed.

Lemma sum1_plus f g n : sum1 (fun l => f l + g l) n = sum1 f n + sum1 g n.
Proof. induction n as [|n IH]; simpl; [done|]. rewrite IH. simpl. lia. Qed.

Lemma sum1_ind (P : Z) n :
  sum1 (fun l => if P =? l then 1 else 0) n = if (1 <=? P) && (P <=? Z.of_nat n) then 1 else 0.
Proof.
  induction n as [|n IH]; [simpl sum1; change (Z.of_nat 0) with 0;
    destruct (Z.leb_spec 1 P), (Z.leb_spec P 0); simpl; lia|].
  simpl sum1. rewrite IH. destruct (Z.eqb_spec P (Z.of_nat (S n))), (Z.leb_spec 1 P),
    (Z.leb_spec P (Z.of_nat n)), (Z.leb_spec P (Z.of_nat (S n))); simpl; lia.
Qed.

(** The codes of all lengths, and the absent symbols, are no more than the
    symbols. *)
Lemma cntl_total0 lengths k n : cntl lengths k 0 + sum1 (cntl lengths k) n <= Z.of_nat k.
Proof.
  induction k as [|k IH].
  - clear. simpl cntl at 1. induction n as [|n IH]; simpl in *; lia.
  - rewrite (sum1_ext _ (fun l => cntl lengths k l + (if at_ lengths (Z.of_nat k) =? l then 1 else 0))) by done.
    rewrite sum1_plus, sum1_ind. simpl cntl at 1. destruct (Z.eqb_spec (at_ lengths (Z.of_nat k)) 0) as [->|].
    + simpl. lia.
    + case_if; lia.
Qed.

Lemma cntl_total lengths k n : sum1 (cntl lengths k) n <= Z.of_nat k.
Proof. pose proof (cntl_total0 lengths k n). pose proof (cntl_range lengths k 0). lia. Qed.

(** Symbols with code length below [l], i.e. where those of length [l] start. *)
Definition start (lengths : list Z) (n l : Z) : Z :=
  sum1 (cntl lengths (Z.to_nat n)) (Z.to_nat (l - 1)).

Lemma start_succ lengths n l : 1 <= l ->
  start lengths n (l + 1) = start lengths n l + cntl lengths (Z.to_nat n) l.
Proof.
  intros Hl. unfold start. replace (Z.to_nat (l + 1 - 1)) with (S (Z.to_nat (l - 1))) by lia.
  simpl. do 2 f_equal. lia.
Qed.

Lemma start_range lengths n l : 0 <= n -> 0 <= start lengths n l <= n.
Proof.
  intros Hn. unfold start. split; [apply sum1_nonneg; intros; apply cntl_range|].
  pose proof (cntl_total lengths (Z.to_nat n) (Z.to_nat (l - 1))). lia.
Qed.

Lemma start_mono lengths n l1 l2 : l1 <= l2 -> start lengths n l1 <= start lengths n l2.
Proof. intros. apply sum1_mono; [intros; apply cntl_range|lia]. Qed.

(** ** Building the tables *)

Lemma i16_small x : 0 <= x < 2 ^ 15 -> i16 x = x.
Proof.
  intros. unfold i16. rewrite Z.mod_small by lia.
  by rewrite (proj2 (Z.ltb_lt _ _)) by lia.
Qed.

Section Build.
Context (lengths : list Z) (n : Z).
Context (Hn : 0 <= n <= 288) (Hl : n <= zlen lengths) (Hb : bytes lengths).

Definition counts_ok (k : Z) (cnt : list Z) : Prop :=
  zlen cnt = 16 /\ forall l, 0 <= l < 16 -> at_ cnt l = cntl lengths (Z.to_nat k) l.

Lemma huff_count_spec :
  wp (huff_count lengths n) (fun r => match r with
    | Some cnt => counts_ok n cnt /\ forall s, 0 <= s < n -> at_ lengths s <= 15
    | None => True end).
Proof.
  unfold huff_count.
  apply (wp_loop (fun '(sym, cnt) => 0 <= sym <= n /\ counts_ok sym cnt /\
      forall s, 0 <= s < sym -> at_ lengths s <= 15) (fun '(sym, _) => Z.to_nat (n - sym))).
  - intros [sym cnt] (Hs & [Hc1 Hc2] & Hle). case_if; simpl.
    { replace n with sym by lia. done. }
    rewrite rd_ok by lia. simpl. unfold GZIP_MAX_HUFF_BITS. case_if; [done|].
    pose proof (at_byte lengths sym Hb ltac:(lia)) as Hby. unfold is_byte in Hby.
    rewrite rd_ok by lia. simpl. rewrite wr_ok by lia. simpl.
    pose proof (cntl_range lengths (Z.to_nat sym) (at_ lengths sym)) as Hr.
    rewrite (Hc2 (at_ lengths sym)) by lia. rewrite i16_small by lia.
    split; [|lia]. split; [lia|]. split; [split|].
    + by rewrite zlen_insert.
    + intros l Hlr. rewrite cntl_succ by lia. destruct (Z.eqb_spec (at_ lengths sym) l) as [<-|Hne].
      * by rewrite at_insert_eq by lia.
      * rewrite at_insert_ne by lia. rewrite Hc2 by lia. lia.
    + intros s Hsr. destruct (Z.eq_dec s sym) as [->|]; [done|]. apply Hle. lia.
  - split; [lia|]. split; [|intros; lia]. split; [done|]. intros l Hlr.
    unfold at_. rewrite lookup_replicate_2 by lia. done.
  - simpl. lia.
Qed.

Context (cnt : list Z) (Hcnt : counts_ok n cnt) (Hle : forall s, 0 <= s < n -> at_ lengths s <= 15).

Lemma huff_kraft_total : wp (huff_kraft cnt) (fun _ => True).
Proof.
  destruct Hcnt as [Hc1 Hc2]. unfold huff_kraft.
  apply (wp_loop (fun '(len, _) => 1 <= len <= 16) (fun '(len, _) => Z.to_nat (16 - len)));
    [|lia|simpl; lia].
  intros [len lft] Hlen. unfold GZIP_MAX_HUFF_BITS. case_if; [done|].
  rewrite rd_ok by lia. simpl. case_if; simpl; [done|lia].
Qed.

Lemma rdo_ok l i v : 0 <= i -> l !! Z.to_nat i = Some (Some v) -> rdo l i = Ok v.
Proof. intros Hi E. unfold rdo. by rewrite (proj2 (Z.ltb_ge _ _)), E by lia. Qed.

(** The offset table while [k] symbols are placed. *)
Definition offs_ok (k : Z) (offs : list (option Z)) : Prop :=
  zlen offs = 16 /\ forall l, 1 <= l <= 15 ->
    offs !! Z.to_nat l = Some (Some (start lengths n l + cntl lengths (Z.to_nat k) l)).

Lemma huff_offsets_spec : wp (huff_offsets cnt) (offs_ok 0).
Proof.
  destruct Hcnt as [Hc1 Hc2]. unfold huff_offsets.
  apply (wp_loop (fun '(len, offs) => 1 <= len <= 15 /\ zlen offs = 16 /\
      forall l, 1 <= l <= len -> offs !! Z.to_nat l = Some (Some (start lengths n l)))
    (fun '(len, _) => Z.to_nat (15 - len))).
  - intros [len offs] (Hlen & Ho1 & Ho2). unfold GZIP_MAX_HUFF_BITS. case_if; simpl.
    + split; [done|]. intros l Hlr. rewrite Ho2 by lia. by rewrite Z.add_0_r.
    + rewrite (rdo_ok _ len _ ltac:(lia) (Ho2 len ltac:(lia))). simpl.
      rewrite rd_ok by lia. simpl. rewrite wr_ok by lia. simpl.
      rewrite Hc2 by lia. rewrite <- start_succ by lia.
      pose proof (start_range lengths n (len + 1) ltac:(lia)). rewrite i16_small by lia.
      split; [|lia]. split; [lia|]. split; [by rewrite zlen_insert|]. intros l Hlr.
      destruct (Z.eq_dec l (len + 1)) as [->|].
      * rewrite list_lookup_insert_eq; [done|]. wblia.
      * rewrite list_lookup_insert_ne by lia. apply Ho2. lia.
  - split; [lia|]. split; [done|]. intros l Hlr. replace l with 1 by lia. done.
  - simpl. lia.
Qed.

(** Entries of [symbols] filled after [k] symbols: those of each length, from
    the start of that length on. *)
Definition syms_ok (k : Z) (syms : list (option Z)) : Prop :=
  zlen syms = 288 /\ forall l i, 1 <= l <= 15 ->
    start lengths n l <= i < start lengths n l + cntl lengths (Z.to_nat k) l ->
    exists v, syms !! Z.to_nat i = Some (Some v) /\ 0 <= v < n.

Lemma huff_sort_spec offs : offs_ok 0 offs -> wp (huff_sort lengths n offs) (syms_ok n).
Proof.
  intros Hoffs. unfold huff_sort.
  apply (wp_loop (fun '(sym, offs, syms) => 0 <= sym <= n /\ offs_ok sym offs /\ syms_ok sym syms)
    (fun '(sym, _, _) => Z.to_nat (n - sym))).
  - intros [[sym ofs] syms] (Hs & [Ho1 Ho2] & [Hy1 Hy2]). case_if; simpl.
    { by replace n with sym at 1 by lia. }
    rewrite rd_ok by lia. simpl. pose proof (at_byte lengths sym Hb ltac:(lia)) as Hby.
    unfold is_byte in Hby. pose proof (Hle sym ltac:(lia)) as H15.
    set (sl := at_ lengths sym) in *. destruct (Z.eqb_spec sl 0) as [E0|E0]; simpl.
    { split; [|lia]. split; [lia|]. split.
      - split; [done|]. intros l Hlr. rewrite cntl_succ by lia. fold sl.
        rewrite (proj2 (Z.eqb_neq sl l)) by lia. rewrite Z.add_0_r. auto.
      - split; [done|]. intros l i Hlr. rewrite cntl_succ by lia. fold sl.
        rewrite (proj2 (Z.eqb_neq sl l)) by lia. rewrite Z.add_0_r. by apply Hy2. }
    rewrite (rdo_ok _ sl _ ltac:(lia) (Ho2 sl ltac:(lia))). simpl.
    pose proof (cntl_mono lengths (Z.to_nat (sym + 1)) (Z.to_nat n) sl ltac:(lia)) as Hm.
    rewrite cntl_succ in Hm by lia. fold sl in Hm. rewrite Z.eqb_refl in Hm.
    pose proof (start_range lengths n sl ltac:(lia)). pose proof (start_range lengths n (sl + 1) ltac:(lia)) as Hs1.
    rewrite start_succ in Hs1 by lia. pose proof (cntl_range lengths (Z.to_nat sym) sl).
    set (o := start lengths n sl + cntl lengths (Z.to_nat sym) sl) in *.
    rewrite (wr_ok syms) by lia. simpl. rewrite wr_ok by lia. simpl.
    rewrite !i16_small by lia. split; [|lia]. split; [lia|]. split.
    + split; [by rewrite zlen_insert|]. intros l Hlr. rewrite cntl_succ by lia. fold sl.
      destruct (Z.eqb_spec sl l) as [<-|Hne].
      * rewrite list_lookup_insert_eq by wblia. unfold o. do 2 f_equal. lia.
      * rewrite list_lookup_insert_ne by lia. rewrite Z.add_0_r. auto.
    + split; [by rewrite zlen_insert|]. intros l i Hlr. rewrite cntl_succ by lia. fold sl.
      intros Hi. destruct (Z.eq_dec i o) as [->|Hne].
      * exists sym. rewrite list_lookup_insert_eq by wblia. split; [done|lia].
      * pose proof (start_range lengths n l ltac:(lia)).
        rewrite list_lookup_insert_ne by lia. apply (Hy2 l); [done|].
        destruct (Z.eqb_spec sl l) as [<-|]; unfold o in Hne; lia.
  - split; [lia|]. split; [done|]. split; [done|]. intros l i Hlr. simpl. lia.
  - simpl. lia.
Qed.

End Build.

(** ** Usable tables *)

(** Symbols with code length up to [l]. *)
Definition below (h : gz_huff) (l : Z) : Z := sum1 (at_ (counts h)) (Z.to_nat l).

(** Tables that decoding can use: every entry it can reach is a symbol below
    [n]. *)
Definition huff_ok (h : gz_huff) (n : Z) : Prop :=
  zlen (counts h) = 16 /\ (forall l, 1 <= l <= 15 -> 0 <= at_ (counts h) l) /\
  forall i, 0 <= i < below h 15 -> exists v, symbols h !! Z.to_nat i = Some (Some v) /\ 0 <= v < n.

(** Every index below the number of codes belongs to some length. *)
Lemma start_cover lengths n i m :
  0 <= i < start lengths n (Z.of_nat m + 1) ->
  exists l, 1 <= l <= Z.of_nat m /\
    start lengths n l <= i < start lengths n l + cntl lengths (Z.to_nat n) l.
Proof.
  induction m as [|m IH]; intros Hi.
  - unfold start in Hi. simpl in Hi. lia.
  - replace (Z.of_nat (S m) + 1) with (Z.of_nat m + 1 + 1) in Hi by lia.
    rewrite start_succ in Hi by lia.
    destruct (Z.lt_ge_cases i (start lengths n (Z.of_nat m + 1))) as [Hlt|Hge].
    + destruct (IH ltac:(lia)) as (l & Hl & Hr). exists l. split; [lia|done].
    + exists (Z.of_nat m + 1). split; [lia|]. lia.
Qed.

Lemma below_start lengths n h l :
  counts_ok lengths n (counts h) -> 0 <= l <= 15 -> below h l = start lengths n (l + 1).
Proof.
  intros [_ Hc] Hl. unfold below, start. replace (Z.to_nat (l + 1 - 1)) with (Z.to_nat l) by lia.
  apply sum1_ext. intros i Hi. apply Hc. lia.
Qed.

Lemma huff_build_spec lengths n :
  0 <= n <= 288 -> n <= zlen lengths -> bytes lengths ->
  wp (gz_huff_build lengths n) (fun r => match r with
    | inl h => huff_ok h n
    | inr e => e = WOLFBOOT_GZIP_E_HUFFMAN end).
Proof.
  intros Hn Hl Hb. unfold gz_huff_build.
  apply (wp_bind_mono _ _ _ _ (huff_count_spec lengths n Hn Hl Hb)).
  intros [cnt|]; [|done]. intros [Hcnt Hle]. pose proof Hcnt as [Hc1 Hc2].
  assert (forall l, 1 <= l <= 15 -> 0 <= at_ cnt l) as Hpos.
  { intros l Hlr. rewrite Hc2 by lia. apply cntl_range. }
  rewrite rd_ok by lia. simpl. destruct (Z.eqb_spec (at_ cnt 0) n) as [E0|E0].
  - simpl. split; [done|]. split; [done|]. intros i. rewrite (below_start lengths n) by (done || lia).
    rewrite Hc2 in E0 by lia.
    enough (start lengths n (15 + 1) <= 0) by lia. unfold start.
    change (Z.to_nat (15 + 1 - 1)) with 15%nat.
    pose proof (cntl_total0 lengths (Z.to_nat n) 15). lia.
  - apply (wp_bind_mono _ _ _ _ (huff_kraft_total lengths n cnt Hcnt)). intros fits _.
    case_if; [done|].
    apply (wp_bind_mono _ _ _ _ (huff_offsets_spec lengths n Hn cnt Hcnt)). intros offs Ho.
    apply (wp_bind_mono _ _ _ _ (huff_sort_spec lengths n Hn Hl Hb Hle offs Ho)).
    intros syms [Hy1 Hy2]. simpl. split; [done|]. split; [done|]. intros i Hi.
    rewrite (below_start lengths n) in Hi by (done || lia).
    destruct (start_cover lengths n i 15 Hi) as (l & Hlr & Hr). apply (Hy2 l i); [lia|done].
Qed.
