(* ===== verification/GzipSafe.v ===== *)
(** * GzipSafe: the decompressor is memory safe and total

    On every input, [wolfBoot_gunzip] returns, without reading outside the
    input or the tables nor writing outside the output, and without reading an
    uninitialised table entry; what it reports written is what it wrote, and
    success means that the CRC-32 and the length of the trailer match it. *)

From Stdlib Require Import ZArith Zbitwise Lia.
From stdpp Require Import prelude.
From S2P Require Import Prelude Gzip GzipHuff.

Local Open Scope Z_scope.

(** ** CRC-32 of a buffer *)

Definition crc_of (l : list Z) : Z := foldl gz_crc32_byte GZIP_CRC32_INIT l.

Lemma crc_bit_range c : 0 <= c < 2 ^ 32 -> 0 <= gz_crc32_bit c < 2 ^ 32.
Proof.
  intros Hc. assert (0 <= Z.shiftr c 1 < 2 ^ 32) as Hs.
  { rewrite Z.shiftr_div_pow2 by lia. dlia. }
  unfold gz_crc32_bit. case_if; [|done]. apply lxor_range; [lia|done|].
  unfold GZIP_CRC32_POLY. lia.
Qed.

Lemma crc_byte_range c b : 0 <= c < 2 ^ 32 -> is_byte b -> 0 <= gz_crc32_byte c b < 2 ^ 32.
Proof.
  intros Hc Hb. unfold gz_crc32_byte.
  assert (0 <= Z.lxor c b < 2 ^ 32) as Hx by (apply lxor_range; wblia).
  revert Hx. generalize (Z.lxor c b). generalize 8%nat. clear.
  induction n as [|n IH]; intros z Hz; [done|]. simpl. apply crc_bit_range. by apply IH.
Qed.

(** ** Invariants *)

(** The input side: what is left to read is inside the buffer, and less than a
    byte is buffered. *)
Definition in_ok (s : gz_state) : Prop :=
  0 <= in_pos s <= in_len s /\ in_len s <= zlen (g_in s) /\ bytes (g_in s) /\
  in_len s + 2 ^ 17 <= 2 ^ 32 /\ 0 <= bit_count s < 8 /\ 0 <= bit_buf s < 2 ^ bit_count s.

(** The output side: the running CRC is that of what is written. *)
Definition out_ok (s : gz_state) : Prop :=
  0 <= out_pos s <= out_max s /\ out_max s <= zlen (out s) /\ out_max s < 2 ^ 32 /\
  bytes (out s) /\ crc32 s = crc_of (slice (out s) 0 (out_pos s)).

(** Output only grows, and only between the two positions. *)
Definition out_rel (s s' : gz_state) : Prop :=
  out_max s' = out_max s /\ zlen (out s') = zlen (out s) /\ out_pos s <= out_pos s' /\
  forall i, 0 <= i < out_pos s \/ out_pos s' <= i -> at_ (out s') i = at_ (out s) i.

(** The input is the same, and no more of it is left. *)
Definition avail (s : gz_state) : Z := 8 * (in_len s - in_pos s) + bit_count s.
Definition in_rel (s s' : gz_state) : Prop :=
  g_in s' = g_in s /\ in_len s' = in_len s /\ in_pos s <= in_pos s'.

Definition err_ok (e : Z) : Prop := -7 <= e <= -1.

(** [gwp s o Q]: from [s] the call returns; on an error the output side is
    consistent, on success all of the state is, and [Q] holds. *)
Definition gwp {A} (s : gz_state) (o : res A) (Q : gz_state -> A -> Prop) : Prop :=
  wp o (fun '(s', r) => out_ok s' /\ out_rel s s' /\ in_rel s s' /\
    match r with
    | inl a => in_ok s' /\ avail s' <= avail s /\ Q s' a
    | inr e => err_ok e
    end).

Lemma out_rel_refl s : out_rel s s.
Proof. split; [done|]. split; [done|]. split; [lia|done]. Qed.

Lemma out_rel_trans s1 s2 s3 : out_rel s1 s2 -> out_rel s2 s3 -> 0 <= out_pos s1 -> out_rel s1 s3.
Proof.
  intros (A1 & A2 & A3 & A4) (B1 & B2 & B3 & B4) H0. split; [congruence|]. split; [congruence|].
  split; [lia|]. intros i Hi. rewrite B4, A4; [done|lia..].
Qed.

Lemma in_rel_refl s : in_rel s s.
Proof. split; [done|]. split; [done|lia]. Qed.

Lemma in_rel_trans s1 s2 s3 : in_rel s1 s2 -> in_rel s2 s3 -> in_rel s1 s3.
Proof. intros (A1 & A2 & A3) (B1 & B2 & B3). split; [congruence|]. split; [congruence|lia]. Qed.

#[export] Hint Resolve out_rel_refl in_rel_refl : wb.

Lemma gwp_ret {A} s (a : A) (Q : gz_state -> A -> Prop) :
  in_ok s -> out_ok s -> Q s a -> gwp s (gret s a) Q.
Proof. intros. simpl. split_and!; auto with wb; lia. Qed.

Lemma gwp_err {A} s e (Q : gz_state -> A -> Prop) : out_ok s -> err_ok e -> gwp s (gerr s e) Q.
Proof. intros. simpl. split_and!; auto with wb. Qed.

Lemma gwp_mono {A} s (o : res A) (P Q : gz_state -> A -> Prop) :
  gwp s o P -> (forall s' a, in_ok s' -> out_ok s' -> avail s' <= avail s -> P s' a -> Q s' a) ->
  gwp s o Q.
Proof.
  intros Ho HPQ. unfold gwp in *. eapply wp_mono; [exact Ho|]. intros [s' [a|e]] (H1 & H2 & H3 & H4); [|done].
  destruct H4 as (H4 & H5 & H6). split_and!; auto.
Qed.

(** Weaken the state the relations start from. *)
Lemma gwp_trans {A} s s1 (o : res A) (Q : gz_state -> A -> Prop) :
  out_rel s s1 -> in_rel s s1 -> avail s1 <= avail s -> 0 <= out_pos s -> gwp s1 o Q -> gwp s o Q.
Proof.
  intros Ho Hi Ha H0 Hw. unfold gwp in *. eapply wp_mono; [exact Hw|].
  intros [s' r] (H1 & H2 & H3 & H4). split; [done|].
  split; [by eapply out_rel_trans|]. split; [by eapply in_rel_trans|].
  destruct r as [a|e]; [|done]. destruct H4 as (H4 & H5 & H6). split_and!; [done|lia|done].
Qed.

Lemma gwp_bind {A B} s (p : res A) (k : gz_state -> A -> res B) (P : gz_state -> A -> Prop) Q :
  out_ok s -> gwp s p P ->
  (forall s1 a, in_ok s1 -> out_ok s1 -> avail s1 <= avail s -> in_rel s s1 -> out_rel s s1 ->
     P s1 a -> gwp s1 (k s1 a) Q) ->
  gwp s (gbind p k) Q.
Proof.
  intros Hok Hp Hk. unfold gbind. apply wp_bind. unfold gwp in Hp. eapply wp_mono; [exact Hp|].
  intros [s1 [a|e]] (H1 & H2 & H3 & H4).
  - destruct H4 as (H4 & H5 & H6). eapply gwp_trans; [done..| |by apply Hk]. destruct Hok. lia.
  - simpl. done.
Qed.

(** ** Bit reader *)

Lemma lor_shift_range buf cnt b :
  0 <= cnt -> 0 <= buf < 2 ^ cnt -> 0 <= b < 256 ->
  0 <= Z.lor buf (Z.shiftl b cnt) < 2 ^ (cnt + 8).
Proof.
  intros Hc Hb Hx. rewrite Z.shiftl_mul_pow2 by lia.
  assert (0 < 2 ^ cnt) by (apply Z.pow_pos_nonneg; lia).
  apply lor_range; [lia| |]; rewrite Z.pow_add_r by lia; change (2 ^ 8) with 256; nia.
Qed.

(** The state while bits are gathered: all as at the start but for the bits. *)
Definition need_inv (s s' : gz_state) (n : Z) : Prop :=
  g_in s' = g_in s /\ in_len s' = in_len s /\ in_pos s <= in_pos s' <= in_len s /\
  out s' = out s /\ out_max s' = out_max s /\ out_pos s' = out_pos s /\ crc32 s' = crc32 s /\
  0 <= bit_count s' < n + 8 /\ 0 <= bit_buf s' < 2 ^ bit_count s' /\ avail s' = avail s.

Lemma need_inv_out s s' n : out_ok s -> need_inv s s' n -> out_ok s' /\ out_rel s s' /\ in_rel s s'.
Proof.
  intros Ho (N1 & N2 & N3 & N4 & N5 & N6 & N7 & N8 & N9 & N10).
  unfold out_ok, out_rel, in_rel. rewrite N1, N2, N4, N5, N6, N7. split; [done|].
  split; [split_and!; done || lia|]. split_and!; done || lia.
Qed.

Lemma need_bits_spec s n :
  in_ok s -> out_ok s -> 0 <= n <= 16 ->
  wp (gz_need_bits s n) (fun '(s', r) => need_inv s s' n /\
    match r with
    | inl _ => n <= bit_count s' /\ (bit_count s' - n < 8)
    | inr e => e = WOLFBOOT_GZIP_E_TRUNCATED
    end).
Proof.
  intros (I1 & I2 & I3 & I4 & I5 & I6) Ho Hn. unfold gz_need_bits.
  apply (wp_loop (fun s' => need_inv s s' n /\ bit_count s' - n < 8) (fun s' => Z.to_nat (n - bit_count s'))).
  - intros s' [(N1 & N2 & N3 & N4 & N5 & N6 & N7 & N8 & N9 & N10) N12].
    case_if; simpl; [split_and!; done || lia|]. case_if; [simpl; split_and!; done || lia|].
    rewrite N1, rd_ok by lia. simpl.
    pose proof (at_byte (g_in s) (in_pos s') I3 ltac:(lia)) as Hby. unfold is_byte in Hby.
    rewrite u32_small by lia.
    pose proof (lor_shift_range (bit_buf s') (bit_count s') _ ltac:(lia) N9 Hby) as Hr.
    assert (0 <= Z.shiftl (at_ (g_in s) (in_pos s')) (bit_count s') < 2 ^ 32) as Hs.
    { rewrite Z.shiftl_mul_pow2 by lia.
      assert (0 < 2 ^ bit_count s' <= 2 ^ 16) by (split; [apply Z.pow_pos_nonneg; lia|apply Z.pow_le_mono_r; lia]).
      nia. }
    rewrite u32_small by done. split; [|lia]. split; [|lia].
    unfold need_inv, avail in *. simpl. split_and!; done || lia.
  - split; [|lia]. unfold need_inv. split_and!; done || lia.
  - lia.
Qed.

Lemma get_bits_spec s n :
  in_ok s -> out_ok s -> 0 <= n <= 16 ->
  gwp s (gz_get_bits s n) (fun s' v => 0 <= v < 2 ^ n /\ avail s' = avail s - n /\
    out s' = out s /\ out_pos s' = out_pos s).
Proof.
  intros Hi Ho Hn. unfold gz_get_bits, gwp, gbind. apply wp_bind.
  eapply wp_mono; [by apply need_bits_spec|]. intros [s' [[]|e]] [Hinv Hr].
  - destruct (need_inv_out s s' n Ho Hinv) as (Ho' & Hor & Hir).
    destruct Hinv as (N1 & N2 & N3 & N4 & N5 & N6 & N7 & N8 & N9 & N10).
    destruct Hi as (I1 & I2 & I3 & I4 & I5 & I6). destruct Hr as [Hr1 Hr2].
    cbn [gret wp obind]. split; [done|]. split; [done|]. split; [done|].
    assert (0 < 2 ^ n) by (apply Z.pow_pos_nonneg; lia).
    assert (u32 (Z.shiftl 1 n) - 1 = Z.ones n) as ->.
    { assert (2 ^ n <= 2 ^ 16) by (apply Z.pow_le_mono_r; lia).
      rewrite Z.shiftl_1_l, u32_small by lia. by rewrite Z.ones_equiv, Z.sub_1_r. }
    rewrite Z.land_ones by lia. rewrite Z.shiftr_div_pow2 by lia.
    split; [|split; [|split; [|split; [|done]]]].
    + unfold in_ok. simpl. rewrite N1, N2. split; [lia|]. split; [done|]. split; [done|].
      split; [done|]. split; [lia|]. split; [apply Z.div_pos; lia|].
      apply Z.div_lt_upper_bound; [lia|]. rewrite <- Z.pow_add_r by lia.
      replace (n + (bit_count s' - n)) with (bit_count s') by lia. lia.
    + unfold avail in *. simpl. lia.
    + apply Z.mod_pos_bound. lia.
    + unfold avail in *. simpl. lia.
  - simpl. destruct (need_inv_out s s' n Ho Hinv) as (Ho' & Hor & Hir).
    split_and!; try done. rewrite Hr. unfold err_ok, WOLFBOOT_GZIP_E_TRUNCATED. lia.
Qed.

(** ** Output *)

Lemma slice_snoc l p b :
  0 <= p < zlen l -> slice (<[Z.to_nat p := b]> l) 0 (p + 1) = slice l 0 p ++ [b].
Proof.
  intros Hp. apply buf_ext.
  - rewrite zlen_app, !slice_length; rewrite ?zlen_insert; try lia. done.
  - rewrite slice_length by (rewrite ?zlen_insert; lia). intros i Hi.
    rewrite at_slice by lia. simpl. destruct (Z.eq_dec i p) as [->|Hne].
    + rewrite at_insert_eq by lia. rewrite at_app_r by (rewrite slice_length; lia).
      rewrite slice_length by lia. by rewrite Z.sub_diag.
    + rewrite at_insert_ne by lia. rewrite at_app_l by (rewrite slice_length; lia).
      by rewrite at_slice by lia.
Qed.

Lemma crc_of_snoc l b : crc_of (l ++ [b]) = gz_crc32_byte (crc_of l) b.
Proof. unfold crc_of. by rewrite foldl_app. Qed.

Lemma emit_spec s b :
  in_ok s -> out_ok s -> is_byte b ->
  gwp s (gz_emit_byte s b) (fun s' _ => avail s' = avail s /\ in_pos s' = in_pos s /\
    bit_count s' = bit_count s /\ bit_buf s' = bit_buf s /\
    out_pos s' = out_pos s + 1 /\ out s' = <[Z.to_nat (out_pos s) := b]> (out s)).
Proof.
  intros Hi Ho Hb. pose proof Hi as (I1 & I2 & I3 & I4 & I5 & I6). pose proof Ho as (O1 & O2 & O3 & O4 & O5). unfold gz_emit_byte.
  case_if; [apply gwp_err; [done|]; unfold err_ok, WOLFBOOT_GZIP_E_OUTPUT; lia|].
  rewrite wr_ok by lia. cbn [obind]. rewrite u32_small by lia. simpl. split; [|split; [|split]].
  - unfold out_ok. simpl. rewrite zlen_insert. split; [lia|]. split; [done|]. split; [done|].
    split; [by apply bytes_insert|]. rewrite slice_snoc by lia. rewrite crc_of_snoc. by rewrite O5.
  - unfold out_rel. simpl. split; [done|]. split; [by rewrite zlen_insert|]. split; [lia|].
    intros i Hir. apply at_insert_ne; lia.
  - unfold in_rel. simpl. split_and!; [done..|lia].
  - unfold in_ok, avail. simpl. split_and!; try done; lia.
Qed.

(** ** Huffman decoding *)

Lemma lor_bit code bit : 0 <= code -> 0 <= bit < 2 -> Z.lor (Z.shiftl code 1) bit = 2 * code + bit.
Proof.
  intros Hc Hb. rewrite Z.shiftl_mul_pow2 by lia. rewrite <- Z.lxor_lor, <- Z.add_nocarry_lxor.
  - lia.
  - assert (bit = 0 \/ bit = 1) as [-> | ->] by lia; [by rewrite Z.land_0_r|].
    change 1 with (Z.ones 1) at 2. rewrite Z.land_ones by lia. by rewrite Z.mod_mul.
  - assert (bit = 0 \/ bit = 1) as [-> | ->] by lia; [by rewrite Z.land_0_r|].
    change 1 with (Z.ones 1) at 2. rewrite Z.land_ones by lia. by rewrite Z.mod_mul.
Qed.

Lemma below_succ h l : 0 <= l -> below h (l + 1) = below h l + at_ (counts h) (l + 1).
Proof.
  intros Hl. unfold below. replace (Z.to_nat (l + 1)) with (S (Z.to_nat l)) by lia.
  simpl. do 2 f_equal. lia.
Qed.

Lemma below_mono h n l1 l2 : huff_ok h n -> 0 <= l1 <= l2 -> l2 <= 15 -> below h l1 <= below h l2.
Proof.
  intros (H1 & H2 & H3) Hl Hl2.
  assert (forall d, l1 + Z.of_nat d <= 15 -> below h l1 <= below h (l1 + Z.of_nat d)) as Hd.
  { induction d as [|d IH]; intros Hd; [rewrite Z.add_0_r; lia|].
    replace (l1 + Z.of_nat (S d)) with (l1 + Z.of_nat d + 1) by lia.
    rewrite below_succ by lia. pose proof (H2 (l1 + Z.of_nat d + 1)). lia. }
  specialize (Hd (Z.to_nat (l2 - l1))). rewrite Z2Nat.id in Hd by lia.
  replace (l1 + (l2 - l1)) with l2 in Hd by lia. apply Hd. lia.
Qed.

Lemma huff_decode_spec s h n :
  in_ok s -> out_ok s -> huff_ok h n ->
  gwp s (gz_huff_decode s h) (fun s' v => 0 <= v < n /\ avail s' < avail s /\
    out s' = out s /\ out_pos s' = out_pos s).
Proof.
  intros Hi Ho Hh. pose proof Hh as (H1 & H2 & H3). unfold gwp, gz_huff_decode.
  apply (wp_loop (fun '(len, code, first, index, s') => 1 <= len <= 16 /\ 0 <= first <= 2 * code /\
      index = below h (len - 1) /\ in_ok s' /\ out_ok s' /\ out_rel s s' /\ in_rel s s' /\
      avail s' = avail s - (len - 1) /\ out s' = out s /\ out_pos s' = out_pos s)
    (fun '(len, _, _, _, _) => Z.to_nat (16 - len))).
  - intros [[[[len code] first] index] s1] (L1 & L2 & -> & L4 & L5 & L6 & L7 & L8 & L9 & L10).
    unfold GZIP_MAX_HUFF_BITS. case_if.
    { simpl. by split_and!. }
    apply wp_bind. eapply wp_mono; [apply (get_bits_spec s1 1); done || lia|].
    intros [s2 [bit|e]] (G1 & G2 & G3 & G4).
    2:{ simpl. split; [done|]. split; [eapply out_rel_trans; [done..|apply Ho]|].
        split; [by eapply in_rel_trans|done]. }
    destruct G4 as (G4 & G5 & G6 & G7 & G8 & G9). rewrite lor_bit by lia.
    rewrite rd_ok by lia. cbn [obind].
    assert (below h len = below h (len - 1) + at_ (counts h) len) as Hbs.
    { replace len with (len - 1 + 1) at 1 by lia. rewrite below_succ by lia. do 2 f_equal. lia. }
    assert (out_rel s s2 /\ in_rel s s2) as [R1 R2].
    { split; [eapply out_rel_trans; [done..|apply Ho]|by eapply in_rel_trans]. }
    case_if.
    + pose proof (below_mono h n 0 (len - 1) Hh ltac:(lia) ltac:(lia)) as Hm0.
      pose proof (below_mono h n len 15 Hh ltac:(lia) ltac:(lia)) as Hm1. change (below h 0) with 0 in Hm0.
      assert (0 <= below h (len - 1) + (2 * code + bit - first) < below h 15) as Hix by lia.
      destruct (H3 _ Hix) as (v & Ev & Hv). rewrite (rdo_ok _ _ _ (proj1 Hix) Ev). simpl.
      split_and!; try done; lia || congruence.
    + simpl. split; [|lia]. rewrite Z.shiftl_mul_pow2 by lia. pose proof (H2 len ltac:(lia)).
      split; [lia|]. split; [lia|]. split; [by replace (len + 1 - 1) with len by lia|].
      split_and!; try done; lia || congruence.
  - split_and!; try done; auto with wb; lia.
  - simpl. lia.
Qed.

(** ** Blocks *)

(** Keep the output facts across a change of the input side. *)
Lemma out_same s s' :
  out s' = out s -> out_max s' = out_max s -> out_pos s' = out_pos s -> crc32 s' = crc32 s ->
  out_ok s -> out_ok s' /\ out_rel s s'.
Proof.
  intros E1 E2 E3 E4 Ho. unfold out_ok, out_rel. rewrite E1, E2, E3, E4.
  split; [done|]. split_and!; done || lia.
Qed.

Lemma stored_copy_spec s len :
  in_ok s -> out_ok s -> 0 <= len -> in_pos s + len <= in_len s ->
  gwp s (stored_copy s len) (fun s' _ => in_pos s' = in_pos s + len /\
    out_pos s' = out_pos s + len /\ bit_count s' = bit_count s /\ bit_buf s' = bit_buf s /\
    forall i, 0 <= i < len -> at_ (out s') (out_pos s + i) = at_ (g_in s) (in_pos s + i)).
Proof.
  intros Hi Ho Hl Hle. pose proof Hi as (I1 & I2 & I3 & I4 & I5 & I6). pose proof Ho as (O1 & _).
  unfold gwp, stored_copy.
  apply (wp_loop (fun '(k, s') => 0 <= k <= len /\ in_ok s' /\ out_ok s' /\ out_rel s s' /\ in_rel s s' /\
      in_pos s' = in_pos s + (len - k) /\ out_pos s' = out_pos s + (len - k) /\
      bit_count s' = bit_count s /\ bit_buf s' = bit_buf s /\
      forall i, 0 <= i < len - k -> at_ (out s') (out_pos s + i) = at_ (g_in s) (in_pos s + i))
    (fun '(k, _) => Z.to_nat k)).
  - intros [k s1] (L1 & L2 & L3 & L4 & L5 & L6 & L7 & L8 & L8' & L9). pose proof L5 as (R1 & R2 & R3).
    case_if.
    { simpl. replace k with 0 in * by lia. unfold avail. split_and!; try done; try lia.
      intros i Hir. apply L9. lia. }
    rewrite R1, rd_ok by lia. cbn [obind]. pose proof (at_byte (g_in s) (in_pos s1) I3 ltac:(lia)) as Hby.
    apply wp_bind. eapply wp_mono; [by apply emit_spec|]. intros [s2 [[]|e]] (G1 & G2 & G3 & G4).
    2:{ simpl. split; [done|]. split; [eapply out_rel_trans; [done..|lia]|].
        split; [by eapply in_rel_trans|done]. }
    destruct G4 as (G4 & G5 & G6 & G7 & G7b & G7c & G8 & G9). simpl.
    pose proof G4 as (J1 & J2 & J3 & J4 & J5 & J6). pose proof G3 as (S1 & S2 & S3).
    rewrite u32_small by lia. split; [|lia]. split; [lia|].
    destruct (out_same s2 (set_in_pos (in_pos s2 + 1) s2)) as [T1 T2]; [done..|].
    split; [unfold in_ok; simpl; split_and!; try done; lia|]. split; [done|].
    split; [eapply out_rel_trans; [exact L4| |lia]; by eapply out_rel_trans; [exact G2|exact T2|lia]|].
    split; [unfold in_rel; simpl; split_and!; [congruence|congruence|lia]|].
    split_and!; simpl; try lia; try congruence.
    intros i Hir. rewrite G9. destruct (Z.eq_dec i (len - k)) as [->|Hne].
    + rewrite L7, at_insert_eq; [f_equal; lia|]. destruct L3 as (P1 & P2 & _).
      destruct G1 as (Q1 & Q2 & _). destruct G2 as (V1 & V2 & _). lia.
    + rewrite at_insert_ne by lia. apply L9. lia.
  - split_and!; try done; auto with wb; try lia.
  - simpl. lia.
Qed.

Lemma avail_nonneg s : in_ok s -> 0 <= avail s.
Proof. intros (I1 & I2 & I3 & I4 & I5 & I6). unfold avail. lia. Qed.

Lemma align_spec s : in_ok s -> gz_align_byte s = set_bits 0 0 s.
Proof.
  intros (I1 & I2 & I3 & I4 & I5 & I6). unfold gz_align_byte.
  assert (Z.land (bit_count s) 7 = bit_count s) as ->.
  { change 7 with (Z.ones 3). rewrite Z.land_ones by lia. apply Z.mod_small. lia. }
  rewrite Z.sub_diag. f_equal. rewrite Z.shiftr_div_pow2 by lia. by apply Z.div_small.
Qed.

Lemma in_ok_set s p : in_ok s -> in_pos s <= p <= in_len s -> in_ok (set_in_pos p s).
Proof.
  intros (I1 & I2 & I3 & I4 & I5 & I6) Hp. unfold in_ok. simpl. split_and!; try done; lia.
Qed.

Lemma in_ok_flush s : in_ok s -> in_ok (set_bits 0 0 s).
Proof.
  intros (I1 & I2 & I3 & I4 & I5 & I6). unfold in_ok. simpl. split_and!; try done; lia.
Qed.

(** Moving on in the input, with the bits dropped. *)
Lemma gwp_advance {A} s s1 (o : res A) (Q : gz_state -> A -> Prop) :
  out_ok s -> out s1 = out s -> out_max s1 = out_max s -> out_pos s1 = out_pos s ->
  crc32 s1 = crc32 s -> in_rel s s1 -> avail s1 <= avail s ->
  (out_ok s1 -> gwp s1 o Q) -> gwp s o Q.
Proof.
  intros Ho E1 E2 E3 E4 Hr Ha Hw. destruct (out_same s s1) as [T1 T2]; [done..|].
  eapply gwp_trans; [done..| |by apply Hw]. apply Ho.
Qed.

(** A 16-bit little-endian value. *)
Lemma le16_range b0 b1 : is_byte b0 -> is_byte b1 -> 0 <= Z.lor b0 (Z.shiftl b1 8) < 2 ^ 16.
Proof.
  intros H0 H1. apply (lor_shift_range b0 8 b1); [lia|wblia|wblia].
Qed.

Ltac err := unfold err_ok, WOLFBOOT_GZIP_E_TRUNCATED, WOLFBOOT_GZIP_E_FORMAT,
  WOLFBOOT_GZIP_E_HUFFMAN, WOLFBOOT_GZIP_E_DISTANCE, WOLFBOOT_GZIP_E_OUTPUT,
  WOLFBOOT_GZIP_E_CRC32, WOLFBOOT_GZIP_E_ISIZE; lia.

Lemma stored_spec s :
  in_ok s -> out_ok s -> gwp s (gz_inflate_stored s) (fun _ _ => True).
Proof.
  intros Hi Ho. unfold gz_inflate_stored. rewrite align_spec by done.
  pose proof Hi as (I1 & I2 & I3 & I4 & I5 & I6).
  apply (gwp_advance s (set_bits 0 0 s)); [done..|by split_and!; simpl|unfold avail; simpl; lia|].
  intros Ho1. pose proof (in_ok_flush s Hi) as Hi1. simpl in_pos. simpl in_len. simpl g_in.
  rewrite !u32_small by lia.
  case_if; [apply gwp_err; [done|err]|]. rewrite !rd_ok by lia. cbn [obind]. cbv zeta.
  set (len := Z.lor (at_ (g_in s) (in_pos s)) (Z.shiftl (at_ (g_in s) (in_pos s + 1)) 8)).
  assert (0 <= len < 2 ^ 16) as Hlen by (apply le16_range; apply at_byte; done || lia).
  apply (gwp_advance _ (set_in_pos (in_pos s + 4) (set_bits 0 0 s)));
    [done..|split_and!; simpl; done || lia|unfold avail; simpl; lia|].
  intros Ho2. case_if; [apply gwp_err; [done|err]|]. simpl in_pos. simpl in_len.
  rewrite u32_small by lia. case_if; [apply gwp_err; [done|err]|].
  eapply gwp_mono; [apply stored_copy_spec|done]; simpl; try done; try lia.
  apply (in_ok_set (set_bits 0 0 s)); simpl; [done|lia].
Qed.

Lemma lz_copy_spec s p len :
  in_ok s -> out_ok s -> 0 <= len -> 0 <= p < out_pos s ->
  gwp s (lz_copy s p len) (fun s' _ => avail s' = avail s /\ out_pos s' = out_pos s + len /\
    forall i, 0 <= i < len -> at_ (out s') (out_pos s + i) = at_ (out s') (p + i)).
Proof.
  intros Hi Ho Hl Hp. unfold gwp, lz_copy. pose proof Ho as (O1 & O2 & O3 & O4 & O5).
  apply (wp_loop (fun '(q, k, s') => 0 <= k <= len /\ q = p + (len - k) /\ in_ok s' /\ out_ok s' /\
      out_rel s s' /\ in_rel s s' /\ avail s' = avail s /\ out_pos s' = out_pos s + (len - k) /\
      forall i, 0 <= i < len - k -> at_ (out s') (out_pos s + i) = at_ (out s') (p + i))
    (fun '(_, k, _) => Z.to_nat k)).
  - intros [[q k] s1] (L1 & -> & L2 & L3 & L4 & L5 & L6 & L7 & L8). case_if.
    { simpl. replace k with 0 in * by lia. split_and!; try done; try lia. intros i Hir. apply L8. lia. }
    pose proof L3 as (P1 & P2 & P3 & P4 & P5). pose proof L4 as (V1 & V2 & V3 & V4).
    rewrite rd_ok by lia. cbn [obind].
    apply wp_bind. eapply wp_mono; [apply emit_spec; [done..|apply at_byte; [done|lia]]|].
    intros [s2 [[]|e]] (G1 & G2 & G3 & G4).
    2:{ simpl. split; [done|]. split; [eapply out_rel_trans; [done..|lia]|].
        split; [by eapply in_rel_trans|done]. }
    destruct G4 as (G4 & G5 & G6 & G7 & _ & _ & G8 & G9). simpl. rewrite u32_small by lia.
    split; [|lia]. split; [lia|]. split; [lia|]. split; [done|]. split; [done|].
    split; [eapply out_rel_trans; [done..|lia]|]. split; [by eapply in_rel_trans|].
    split; [lia|]. split; [lia|]. intros i Hir. rewrite G9.
    destruct (Z.eq_dec i (len - k)) as [->|Hne].
    + rewrite <- L7. destruct G1 as (Q1 & Q2 & _), G2 as (W1 & W2 & _).
      rewrite at_insert_eq by lia. by rewrite at_insert_ne by lia.
    + rewrite !at_insert_ne by lia. apply L8. lia.
  - split_and!; try done; auto with wb; lia.
  - simpl. lia.
Qed.

(** The tables of bases and extra bits. *)
Lemma len_tables li : 0 <= li < 29 ->
  3 <= at_ gz_len_base li <= 258 /\ 0 <= at_ gz_len_extra li <= 5.
Proof.
  intros Hli. assert (forallb (fun i => (3 <=? at_ gz_len_base i) && (at_ gz_len_base i <=? 258) &&
    ((0 <=? at_ gz_len_extra i) && (at_ gz_len_extra i <=? 5))) (seqZ 0 29) = true) as H by done.
  rewrite forallb_forall in H. specialize (H li). rewrite <- list_elem_of_In, elem_of_seqZ in H.
  specialize (H ltac:(lia)). cbv beta in H. bools. lia.
Qed.

Lemma dist_tables d : 0 <= d < 30 ->
  1 <= at_ gz_dist_base d <= 24577 /\ 0 <= at_ gz_dist_extra d <= 13.
Proof.
  intros Hd. assert (forallb (fun i => (1 <=? at_ gz_dist_base i) && (at_ gz_dist_base i <=? 24577) &&
    ((0 <=? at_ gz_dist_extra i) && (at_ gz_dist_extra i <=? 13))) (seqZ 0 30) = true) as H by done.
  rewrite forallb_forall in H. specialize (H d). rewrite <- list_elem_of_In, elem_of_seqZ in H.
  specialize (H ltac:(lia)). cbv beta in H. bools. lia.
Qed.

Lemma base_extra_spec s base extra :
  in_ok s -> out_ok s -> 0 <= base <= 2 ^ 15 -> 0 <= extra <= 13 ->
  gwp s (base_extra s base extra) (fun s' v => base <= v <= base + 2 ^ 13 /\ out s' = out s /\ out_pos s' = out_pos s).
Proof.
  intros Hi Ho Hb He. unfold base_extra. case_if.
  - eapply gwp_bind; [done|apply get_bits_spec; done || lia|].
    intros s1 x Hi1 Ho1 Ha Hr Hor (Hx & _ & E1 & E2).
    assert (2 ^ extra <= 2 ^ 13) by (apply Z.pow_le_mono_r; lia).
    rewrite u32_small by lia. apply gwp_ret; [done..|]. split; [lia|done].
  - apply gwp_ret; [done..|]. split; [lia|done].
Qed.

Lemma inflate_match_spec s dist sym :
  in_ok s -> out_ok s -> huff_ok dist 32 -> 257 <= sym ->
  gwp s (inflate_match s dist sym) (fun _ _ => True).
Proof.
  intros Hi Ho Hd Hs. unfold inflate_match, GZIP_LENGTH_CODE_BASE, GZIP_LENGTH_CODE_COUNT,
    GZIP_DIST_CODE_COUNT.
  case_if; [apply gwp_err; [done|err]|].
  destruct (len_tables (sym - 257)) as [T1 T2]; [lia|].
  rewrite !rd_ok by (change (zlen gz_len_base) with 29; change (zlen gz_len_extra) with 29; lia). cbn [obind].
  eapply gwp_bind; [done|apply base_extra_spec; done || lia|].
  intros s1 length Hi1 Ho1 _ _ _ (Hlen & _ & _).
  eapply gwp_bind; [done|by apply (huff_decode_spec s1 dist 32)|].
  intros s2 dsym Hi2 Ho2 _ _ _ (Hds & _ & _ & _).
  rewrite (proj2 (Z.ltb_ge dsym 0)) by lia. case_if; [apply gwp_err; [done|err]|].
  destruct (dist_tables dsym) as [T3 T4]; [lia|].
  rewrite !rd_ok by (change (zlen gz_dist_base) with 30; change (zlen gz_dist_extra) with 30; lia). cbn [obind].
  eapply gwp_bind; [done|apply base_extra_spec; done || lia|].
  intros s3 distance Hi3 Ho3 _ _ _ (Hdist & _ & _).
  case_if; [apply gwp_err; [done|err]|]. pose proof Ho3 as (O1 & O2 & O3 & O4 & O5).
  rewrite (u32_small (out_pos s3 - distance)) by lia.
  assert (distance <= out_pos s3) by lia.
  case_if; [apply gwp_err; [done|err]|].
  eapply gwp_mono; [apply lz_copy_spec; done || lia|done].
Qed.

(** The states a loop over blocks or symbols goes through. *)
Definition going (s s' : gz_state) : Prop :=
  in_ok s' /\ out_ok s' /\ out_rel s s' /\ in_rel s s' /\ avail s' <= avail s.

Lemma going_refl s : in_ok s -> out_ok s -> going s s.
Proof. intros. unfold going. split_and!; auto with wb; lia. Qed.

(** A step of such a loop: from [s1] reached from [s], a call that returns. *)
Lemma going_step {A} s s1 (o : res A) (Q : gz_state -> A -> Prop) (R : gz_state * (A + Z) -> Prop) :
  out_ok s -> going s s1 -> gwp s1 o Q ->
  (forall s2 a, going s s2 -> avail s2 <= avail s1 -> Q s2 a -> R (s2, inl a)) ->
  (forall s2 e, out_ok s2 -> out_rel s s2 -> in_rel s s2 -> err_ok e -> R (s2, inr e)) ->
  wp o R.
Proof.
  intros Hos (L1 & L2 & L3 & L4 & L5) Hg H1 H2. unfold gwp in Hg.
  eapply wp_mono; [exact Hg|]. intros [s2 [a|e]] (G1 & G2 & G3 & G4).
  - destruct G4 as (G4 & G5 & G6). apply H1; [|done|done]. unfold going.
    split_and!; [done|done|eapply out_rel_trans; [done..|apply Hos]|by eapply in_rel_trans|lia].
  - apply H2; [done|eapply out_rel_trans; [done..|apply Hos]|by eapply in_rel_trans|done].
Qed.

Lemma bits_fuel_enough s : in_ok s -> (Z.to_nat (avail s) < bits_fuel s)%nat.
Proof. intros (I1 & I2 & I3 & I4 & I5 & I6). unfold bits_fuel, avail. lia. Qed.

Lemma inflate_huffman_spec s litlen dist :
  in_ok s -> out_ok s -> huff_ok litlen 288 -> huff_ok dist 32 ->
  gwp s (gz_inflate_huffman s litlen dist) (fun s' _ => avail s' < avail s).
Proof.
  intros Hi Ho Hl Hd. unfold gwp, gz_inflate_huffman.
  apply (wp_loop (fun s' => going s s') (fun s' => Z.to_nat (avail s')));
    [|by apply going_refl|by apply bits_fuel_enough].
  intros s1 Hg1. pose proof Hg1 as (L1 & L2 & L3 & L4 & L5). apply wp_bind.
  eapply (going_step s s1); [done..|by apply (huff_decode_spec s1 litlen 288)| |done].
  intros s2 sym Hg2 _ (Hs & Ha & _). pose proof Hg2 as (M1 & M2 & M3 & M4 & M5).
  rewrite (proj2 (Z.ltb_ge sym 0)) by lia. pose proof (avail_nonneg s2 M1).
  unfold GZIP_EOB_SYMBOL. destruct (Z.eqb_spec sym 256) as [->|Hne]; [simpl; split_and!; try done; lia|].
  apply wp_bind. destruct (Z.ltb_spec sym 256) as [Hlt|Hge].
  - eapply (going_step s s2); [done..|apply emit_spec; [done..|]| |done].
    + unfold is_byte. apply u8_range.
    + intros s3 [] Hg3 Ha3 _. simpl. split; [done|]. lia.
  - eapply (going_step s s2); [done..|apply inflate_match_spec; done || lia| |done].
    intros s3 [] Hg3 Ha3 _. simpl. split; [done|]. lia.
Qed.

Lemma ghuff_spec s lengths n :
  in_ok s -> out_ok s -> 0 <= n <= 288 -> n <= zlen lengths -> bytes lengths ->
  gwp s (ghuff s (gz_huff_build lengths n)) (fun s' h => huff_ok h n /\ s' = s).
Proof.
  intros Hi Ho Hn Hl Hb. unfold gwp, ghuff. apply wp_bind.
  eapply wp_mono; [by apply huff_build_spec|]. intros [h|e]; simpl.
  - intros Hh. split_and!; auto with wb; lia.
  - intros ->. split_and!; auto with wb; err.
Qed.

Lemma read_cl_lens_spec s hclen :
  in_ok s -> out_ok s -> 0 <= hclen <= 19 ->
  gwp s (read_cl_lens s hclen) (fun _ l => zlen l = 19 /\ bytes l).
Proof.
  intros Hi Ho Hh. unfold gwp, read_cl_lens.
  apply (wp_loop (fun '(i, l, s') => 0 <= i <= hclen /\ zlen l = 19 /\ bytes l /\ going s s')
    (fun '(i, _, _) => Z.to_nat (hclen - i))).
  - intros [[i l] s1] (L1 & L2 & L3 & Hg). pose proof Hg as (M1 & M2 & M3 & M4 & M5).
    case_if; [simpl; by split_and!|]. apply wp_bind.
    eapply (going_step s s1); [done..|apply get_bits_spec; done || lia| |done].
    intros s2 v Hg2 _ (Hv & _). rewrite rd_ok by (change (zlen gz_cl_order) with 19; lia). cbn [obind].
    assert (0 <= at_ gz_cl_order i < 19) as Hord.
    { assert (forallb (fun i => (0 <=? at_ gz_cl_order i) && (at_ gz_cl_order i <? 19)) (seqZ 0 19) = true) as H by done.
      rewrite forallb_forall in H. specialize (H i). rewrite <- list_elem_of_In, elem_of_seqZ in H.
      specialize (H ltac:(lia)). cbv beta in H. bools. lia. }
    rewrite wr_ok by lia. simpl. split; [|lia]. split; [lia|]. split; [by rewrite zlen_insert|].
    split; [|done]. apply bytes_insert; [done|]. unfold is_byte. apply u8_range.
  - split; [lia|]. split; [done|]. split; [|by apply going_refl].
    apply Forall_replicate. unfold is_byte. lia.
  - simpl. lia.
Qed.

Lemma fill_lens_spec l idx val v :
  bytes l -> 0 <= idx -> 0 <= val -> idx + val <= zlen l -> is_byte v ->
  wp (fill_lens l idx val v) (fun l' => zlen l' = zlen l /\ bytes l').
Proof.
  intros Hb Hi Hv Hle Hby. unfold fill_lens.
  apply (wp_loop (fun '(i, k, l') => 0 <= k <= val /\ i = idx + (val - k) /\ zlen l' = zlen l /\ bytes l')
    (fun '(_, k, _) => Z.to_nat k)); [|split_and!; done || lia|simpl; lia].
  intros [[i k] l'] (L1 & -> & L2 & L3). case_if; [done|].
  rewrite wr_ok by lia. simpl. split; [|lia]. split; [lia|]. split; [lia|].
  split; [by rewrite zlen_insert|]. by apply bytes_insert.
Qed.

Lemma repeat_lens_spec s l idx total extra base v :
  in_ok s -> out_ok s -> bytes l -> 0 <= idx -> total <= zlen l -> 0 <= extra <= 7 -> 0 < base ->
  is_byte v ->
  gwp s (repeat_lens s l idx total extra base v) (fun _ '(l', idx') =>
    zlen l' = zlen l /\ bytes l' /\ idx < idx' <= total).
Proof.
  intros Hi Ho Hb Hx Ht He Hba Hv. unfold repeat_lens.
  eapply gwp_bind; [done|apply get_bits_spec; done || lia|].
  intros s1 x Hi1 Ho1 _ _ _ (Hx1 & _). cbv zeta. case_if; [apply gwp_err; [done|err]|].
  destruct (wp_inv _ _ (fill_lens_spec l idx (x + base) v Hb Hx ltac:(lia) ltac:(lia) Hv))
    as (l' & -> & Hl & Hb'). cbn [obind]. apply gwp_ret; [done..|]. split_and!; done || lia.
Qed.

Lemma read_code_lens_spec s cl l total :
  in_ok s -> out_ok s -> huff_ok cl 19 -> bytes l -> 0 <= total <= zlen l ->
  gwp s (read_code_lens s cl l total) (fun _ l' => zlen l' = zlen l /\ bytes l').
Proof.
  intros Hi Ho Hc Hb Ht. unfold gwp, read_code_lens.
  apply (wp_loop (fun '(idx, prev, l', s') => 0 <= idx <= total /\ 0 <= prev < 256 /\ zlen l' = zlen l /\ bytes l' /\ going s s') (fun '(idx, _, _, _) => Z.to_nat (total - idx)));
    [|unfold is_byte; split; [lia|]; split; [lia|]; split; [done|]; split; [done|by apply going_refl]
     |simpl; lia].
  intros [[[idx prev] l'] s1] (L1 & L2 & L3 & L4 & Hg). pose proof Hg as (M1 & M2 & M3 & M4 & M5).
  case_if; [simpl; by split_and!|]. apply wp_bind.
  eapply (going_step s s1); [done..|by apply (huff_decode_spec s1 cl 19)| |done].
  intros s2 sym Hg2 _ (Hs & _). pose proof Hg2 as (N1 & N2 & N3 & N4 & N5).
  rewrite (proj2 (Z.ltb_ge sym 0)) by lia. case_if.
  { rewrite wr_ok by lia. simpl. split; [|lia]. split; [lia|]. split; [apply u8_range|].
    split; [by rewrite zlen_insert|]. split; [|done]. apply bytes_insert; [done|]. unfold is_byte. apply u8_range. }
  case_if; [simpl; split_and!; try done|]. case_if; [simpl; split_and!; try done|].
  set (p := if sym =? 16 then _ else _).
  assert (exists extra base v, p = (extra, base, v) /\ 0 <= extra <= 7 /\ 0 < base /\ is_byte v)
    as (extra & base & v & -> & Hex & Hba & Hv).
  { unfold p, is_byte in *. case_if; [eexists _, _, _; split; [done|lia]|].
    case_if; eexists _, _, _; (split; [done|lia]). }
  apply wp_bind.
  eapply (going_step s s2); [done..|apply (repeat_lens_spec s2 l' idx total extra base v); done || lia| |done].
  intros s3 [l3 idx3] Hg3 _ (R1 & R2 & R3). simpl. split; [|lia].
  split; [lia|]. split; [done|]. split; [congruence|]. done.
Qed.

Lemma huff_ok_weaken h n m : huff_ok h n -> n <= m -> huff_ok h m.
Proof.
  intros (H1 & H2 & H3) Hle. split; [done|]. split; [done|]. intros i Hi.
  destruct (H3 i Hi) as (v & E & Hv). exists v. split; [done|lia].
Qed.

Lemma inflate_dynamic_spec s :
  in_ok s -> out_ok s -> gwp s (gz_inflate_dynamic s) (fun _ _ => True).
Proof.
  intros Hi Ho. unfold gz_inflate_dynamic, GZIP_LITLEN_CODES, GZIP_DIST_CODES, GZIP_CL_CODES.
  change (Z.to_nat (288 + 32)) with 320%nat. cbv zeta.
  eapply gwp_bind; [done|apply get_bits_spec; done || lia|].
  intros s1 hlit Hi1 Ho1 _ _ _ (Hv1 & _). eapply gwp_bind; [done|apply get_bits_spec; done || lia|].
  intros s2 hdist Hi2 Ho2 _ _ _ (Hv2 & _). eapply gwp_bind; [done|apply get_bits_spec; done || lia|].
  intros s3 hclen Hi3 Ho3 _ _ _ (Hv3 & _). case_if; [apply gwp_err; [done|err]|].
  eapply gwp_bind; [done|apply read_cl_lens_spec; done || lia|].
  intros s4 cl_lens Hi4 Ho4 _ _ _ (Hl4 & Hb4).
  eapply gwp_bind; [done|apply ghuff_spec; done || lia|].
  intros s5 cl Hi5 Ho5 _ _ _ (Hcl & ->).
  assert (zlen (replicate 320 0) = 320) as Hz by done.
  assert (bytes (replicate 320 0)) as Hzb by (apply Forall_replicate; unfold is_byte; lia).
  eapply gwp_bind; [done|apply (read_code_lens_spec s4 cl (replicate 320 0)); done || lia|].
  intros s6 lens Hi6 Ho6 _ _ _ (Hl6 & Hb6). unfold GZIP_EOB_SYMBOL. rewrite rd_ok by lia. cbn [obind].
  case_if; [apply gwp_err; [done|err]|].
  eapply gwp_bind; [done|apply ghuff_spec; done || lia|].
  intros s7 ll Hi7 Ho7 _ _ _ (Hll & ->).
  assert (hdist + 1 <= zlen (drop (Z.to_nat (hlit + 257)) lens)) as Hdl.
  { unfold zlen in *. rewrite length_drop. lia. }
  assert (bytes (drop (Z.to_nat (hlit + 257)) lens)) as Hdb by (by apply Forall_drop).
  eapply gwp_bind; [done|apply ghuff_spec; done || lia|].
  intros s8 dd Hi8 Ho8 _ _ _ (Hdd & ->).
  eapply gwp_mono; [apply inflate_huffman_spec; try done; by eapply huff_ok_weaken; [done|lia]|done].
Qed.

Lemma build_fixed_spec :
  wp gz_build_fixed (fun r => match r with
    | inl (litlen, dist) => huff_ok litlen 288 /\ huff_ok dist 32
    | inr e => err_ok e end).
Proof.
  assert (bytes fixed_litlen_lengths /\ bytes fixed_dist_lengths) as [B1 B2].
  { split; repeat constructor; discriminate. }
  unfold gz_build_fixed. apply wp_bind. eapply wp_mono; [by apply huff_build_spec; [lia|done|done]|].
  intros [ll|e]; [|intros ->; simpl; err]. intros Hll.
  apply wp_bind. eapply wp_mono; [by apply huff_build_spec; [lia|done|done]|].
  intros [dd|e]; [|intros ->; simpl; err]. intros Hdd. simpl. split; [done|]. by eapply huff_ok_weaken; [done|lia].
Qed.

(** ** Driver *)

Definition fixed_ok (f : option (gz_huff * gz_huff)) : Prop :=
  match f with
  | Some (litlen, dist) => huff_ok litlen 288 /\ huff_ok dist 32
  | None => True
  end.

Lemma inflate_block_spec s fixed btype :
  in_ok s -> out_ok s -> fixed_ok fixed ->
  gwp s (inflate_block s fixed btype) (fun _ f => fixed_ok f).
Proof.
  intros Hi Ho Hf. unfold inflate_block. case_if.
  { eapply gwp_bind; [done|by apply stored_spec|]. intros s1 [] Hi1 Ho1 _ _ _ _. by apply gwp_ret. }
  case_if.
  { destruct fixed as [[ll dd]|].
    - destruct Hf as [H1 H2]. eapply gwp_bind; [done|by apply inflate_huffman_spec|].
      intros s1 [] Hi1 Ho1 _ _ _ _. by apply gwp_ret.
    - destruct (wp_inv _ _ build_fixed_spec) as ([[ll dd]|e] & -> & Hb); cbn [obind];
        [|by apply gwp_err].
      destruct Hb as [H1 H2]. eapply gwp_bind; [done|by apply inflate_huffman_spec|].
      intros s1 [] Hi1 Ho1 _ _ _ _. by apply gwp_ret. }
  case_if; [|apply gwp_err; [done|err]].
  eapply gwp_bind; [done|by apply inflate_dynamic_spec|]. intros s1 [] Hi1 Ho1 _ _ _ _. by apply gwp_ret.
Qed.

Lemma inflate_spec s : in_ok s -> out_ok s -> gwp s (gz_inflate s) (fun _ _ => True).
Proof.
  intros Hi Ho. unfold gwp, gz_inflate.
  apply (wp_loop (fun '(f, s') => fixed_ok f /\ going s s') (fun '(_, s') => Z.to_nat (avail s')));
    [|split; [done|by apply going_refl]|by apply bits_fuel_enough].
  intros [f s1] [Hf Hg]. pose proof Hg as (M1 & M2 & M3 & M4 & M5). apply wp_bind.
  eapply (going_step s s1 _ (fun s' '(_, f') => fixed_ok f' /\ avail s' < avail s1)); [done..| | |].
  - eapply gwp_bind; [done|apply get_bits_spec; done || lia|].
    intros s2 bfinal Hi2 Ho2 A2 _ _ (_ & E2 & _).
    eapply gwp_bind; [done|apply get_bits_spec; done || lia|].
    intros s3 btype Hi3 Ho3 A3 _ _ (_ & E3 & _).
    eapply gwp_bind; [done|by apply inflate_block_spec|].
    intros s4 f4 Hi4 Ho4 A4 _ _ Hf4. apply gwp_ret; [done..|]. split; [done|lia].
  - intros s2 [bfinal f2] Hg2 _ [Hf2 Ha]. pose proof Hg2 as (N1 & N2 & N3 & N4 & N5).
    pose proof (avail_nonneg s2 N1). case_if; simpl; [split; [by split|lia]|by split_and!].
  - done.
Qed.

(** ** Header and trailer *)

Lemma skip_zstring_spec s :
  in_ok s -> out_ok s -> bit_count s = 0 ->
  gwp s (gz_skip_zstring s) (fun s' _ => bit_count s' = 0).
Proof.
  intros Hi Ho Hb. unfold gwp, gz_skip_zstring.
  apply (wp_loop (fun s' => going s s' /\ bit_count s' = 0) (fun s' => Z.to_nat (in_len s' - in_pos s'))).
  - intros s1 [Hg Hb1]. pose proof Hg as (M1 & M2 & M3 & M4 & M5).
    case_if; [simpl; by split_and!|]. pose proof M1 as (I1 & I2 & I3 & I4 & I5 & I6).
    rewrite rd_ok by lia. cbn [obind]. rewrite u32_small by lia.
    destruct (out_same s1 (set_in_pos (in_pos s1 + 1) s1)) as [T1 T2]; [done..|].
    assert (going s (set_in_pos (in_pos s1 + 1) s1)) as Hg2.
    { destruct M4 as (R1 & R2 & R3). unfold going. split; [apply in_ok_set; [done|lia]|].
      split; [done|]. split; [eapply out_rel_trans; [done..|apply Ho]|].
      split; [split_and!; simpl; [done|done|lia]|]. unfold avail in *. simpl. lia. }
    cbv zeta. case_if; simpl.
    + destruct Hg2 as (N1 & N2 & N3 & N4 & N5). by split_and!.
    + split; [by split|lia].
  - split; [by apply going_refl|done].
  - destruct Hi as (I1 & _). lia.
Qed.

(** Skip [n] bytes of the input. *)
Lemma skip_spec s n :
  in_ok s -> out_ok s -> bit_count s = 0 -> 0 <= n -> in_pos s + n <= in_len s ->
  gwp s (gret (set_in_pos (in_pos s + n) s) tt) (fun s' _ => bit_count s' = 0).
Proof.
  intros Hi Ho Hb Hn Hle. apply (gwp_advance s (set_in_pos (in_pos s + n) s)); [done..| | |].
  - split_and!; simpl; [done|done|lia].
  - unfold avail. simpl. lia.
  - intros Ho1. apply gwp_ret; [apply in_ok_set; [done|lia]|done|done].
Qed.

Lemma fextra_spec s :
  in_ok s -> out_ok s -> bit_count s = 0 -> gwp s (parse_fextra s) (fun s' _ => bit_count s' = 0).
Proof.
  intros Hi Ho Hb. pose proof Hi as (I1 & I2 & I3 & I4 & I5 & I6). unfold parse_fextra.
  rewrite !(u32_small (in_pos s + _)) by lia. case_if; [apply gwp_err; [done|err]|].
  rewrite !rd_ok by lia. cbn [obind]. cbv zeta.
  set (xlen := Z.lor _ _). assert (0 <= xlen < 2 ^ 16) by (apply le16_range; apply at_byte; done || lia).
  apply (gwp_advance _ (set_in_pos (in_pos s + 2) s));
    [done..|split_and!; simpl; done || lia|unfold avail; simpl; lia|].
  intros Ho2. simpl in_pos. simpl in_len. rewrite u32_small by lia.
  case_if; [apply gwp_err; [done|err]|].
  apply (skip_spec (set_in_pos (in_pos s + 2) s)); simpl; try done; try lia.
  apply in_ok_set; [done|lia].
Qed.

Lemma fhcrc_spec s :
  in_ok s -> out_ok s -> bit_count s = 0 -> gwp s (parse_fhcrc s) (fun s' _ => bit_count s' = 0).
Proof.
  intros Hi Ho Hb. pose proof Hi as (I1 & I2 & I3 & I4 & I5 & I6). unfold parse_fhcrc.
  rewrite u32_small by lia. case_if; [apply gwp_err; [done|err]|]. apply skip_spec; done || lia.
Qed.

Lemma gwp_if_flag s (b : bool) (o : res unit) :
  in_ok s -> out_ok s -> bit_count s = 0 -> gwp s o (fun s' _ => bit_count s' = 0) ->
  gwp s (if b then o else gret s tt) (fun s' _ => bit_count s' = 0).
Proof. intros. destruct b; [done|]. by apply gwp_ret. Qed.

Lemma parse_header_spec s :
  in_ok s -> out_ok s -> bit_count s = 0 -> in_pos s = 0 ->
  gwp s (gz_parse_header s) (fun s' _ => bit_count s' = 0).
Proof.
  intros Hi Ho Hb Hp. pose proof Hi as (I1 & I2 & I3 & I4 & I5 & I6).
  unfold gz_parse_header, GZIP_HEADER_MIN_SIZE. case_if; [apply gwp_err; [done|err]|].
  rewrite !rd_ok by lia. cbn [obind]. case_if; [apply gwp_err; [done|err]|].
  case_if; [apply gwp_err; [done|err]|]. cbv zeta.
  apply (gwp_advance _ (set_in_pos 10 s));
    [done..|split_and!; simpl; done || lia|unfold avail; simpl; lia|].
  intros Ho1. assert (in_ok (set_in_pos 10 s)) as Hi1 by (apply in_ok_set; [done|lia]).
  eapply gwp_bind; [done|apply gwp_if_flag; [done..|by apply fextra_spec]|].
  intros s2 [] Hi2 Ho2 _ _ _ Hb2.
  eapply gwp_bind; [done|apply gwp_if_flag; [done..|by apply skip_zstring_spec]|].
  intros s3 [] Hi3 Ho3 _ _ _ Hb3.
  eapply gwp_bind; [done|apply gwp_if_flag; [done..|by apply skip_zstring_spec]|].
  intros s4 [] Hi4 Ho4 _ _ _ Hb4. apply gwp_if_flag; [done..|by apply fhcrc_spec].
Qed.

(** The little-endian word at [p]. *)
Definition le32_at (l : list Z) (p : Z) : Z :=
  Z.lor (Z.lor (Z.lor (at_ l p) (Z.shiftl (at_ l (p + 1)) 8)) (Z.shiftl (at_ l (p + 2)) 16))
    (Z.shiftl (at_ l (p + 3)) 24).

Lemma in_le32_ok l p : 0 <= p -> p + 4 <= zlen l -> p + 4 <= 2 ^ 32 -> in_le32 l p = Ok (le32_at l p).
Proof. intros. unfold in_le32. by rewrite !u32_small, !rd_ok by lia. Qed.

(** The trailer: what the 8 bytes after the last block say. *)
Lemma parse_trailer_spec s crc n :
  in_ok s ->
  wp (gz_parse_trailer s crc n) (fun '(s', r) =>
    out s' = out s /\ out_pos s' = out_pos s /\
    match r with
    | inl _ => in_pos s + 8 <= in_len s /\ le32_at (g_in s) (in_pos s) = crc /\
        le32_at (g_in s) (in_pos s + 4) = n
    | inr e => err_ok e
    end).
Proof.
  intros Hi. unfold gz_parse_trailer. rewrite align_spec by done.
  pose proof Hi as (I1 & I2 & I3 & I4 & I5 & I6).
  change (set_bits 0 0 (set_bits 0 0 s)) with (set_bits 0 0 s). simpl in_pos. simpl in_len. simpl g_in.
  unfold GZIP_TRAILER_SIZE. rewrite !u32_small by lia.
  case_if; [simpl; by split_and!|]. rewrite !in_le32_ok by lia. cbn [obind]. cbv zeta.
  case_if; [simpl; by split_and!|]. case_if; simpl; by split_and!.
Qed.

(** ** Results *)

Section Results.
Context (inp outp : list Z) (len max : Z).
Context (Hin : bytes inp) (Hout : bytes outp).
Context (Hlen : 0 <= len <= zlen inp) (Hlen32 : len + 2 ^ 17 <= 2 ^ 32).
Context (Hmax : 0 <= max <= zlen outp) (Hmax32 : max < 2 ^ 32).

Lemma init_ok : in_ok (gz_init inp len outp max) /\ out_ok (gz_init inp len outp max).
Proof. unfold in_ok, out_ok, gz_init. simpl. split_and!; try done; lia. Qed.

(** What a call leaves in the output and reports. *)
Definition gunzip_post (r : Z * list Z * Z) : Prop :=
  let '(ret, out', n) := r in
  -7 <= ret <= 0 /\ 0 <= n <= max /\ zlen out' = zlen outp /\ bytes out' /\
  (forall i, n <= i -> at_ out' i = at_ outp i) /\
  (ret = 0 -> exists p, 0 <= p /\ p + 8 <= len /\ le32_at inp (p + 4) = n /\
     le32_at inp p = Z.lxor (crc_of (slice out' 0 n)) GZIP_CRC32_FINAL_XOR).

Lemma gunzip_total :
  exists r, wolfBoot_gunzip (Some inp) len (Some outp) max = Ok r /\ gunzip_post r.
Proof.
  destruct init_ok as [Hi Ho]. apply wp_inv. unfold wolfBoot_gunzip. apply wp_bind.
  set (s0 := gz_init inp len outp max) in *.
  assert (forall s e, out_ok s -> out_rel s0 s -> in_rel s0 s -> err_ok e ->
    gunzip_post (e, out s, out_pos s)) as Herr.
  { intros s e (O1 & O2 & O3 & O4 & O5) (V1 & V2 & V3 & V4) _ He. simpl in *. unfold err_ok in He.
    split_and!; try done; try lia. intros i Hir. apply V4. lia. }
  unfold gbind at 1. apply wp_bind.
  eapply (going_step s0 s0); [done|by apply going_refl|by apply parse_header_spec| |done].
  intros s1 [] Hg1 _ _. pose proof Hg1 as (M1 & M2 & _). unfold gbind at 1. apply wp_bind.
  eapply (going_step s0 s1); [done|done|by apply inflate_spec| |done].
  intros s2 [] Hg2 _ _. pose proof Hg2 as (N1 & N2 & N3 & (R1 & R2 & R3) & _). cbv zeta.
  simpl crc32. simpl out_pos.
  eapply wp_mono; [apply parse_trailer_spec; exact N1|]. intros [s3 r] (E1 & E2 & Hr).
  simpl in E1, E2, Hr. cbn [wp]. rewrite E1, E2.
  destruct r as [[]|e]; [|by apply Herr]. destruct Hr as (T1 & T2 & T3).
  destruct N2 as (O1 & O2 & O3 & O4 & O5), N3 as (V1 & V2 & V3 & V4). simpl in *.
  split; [lia|]. split; [lia|]. split; [done|]. split; [done|].
  split; [intros i Hir; apply V4; lia|]. intros _. exists (in_pos s2).
  destruct N1 as (I1 & _). rewrite R1, O5 in *. split_and!; done || lia.
Qed.

(** C5: [wolfBoot_gunzip] is memory safe and total on every input whose length is at least
    128 KiB below [2 ^ 32] (its 32-bit positions do not wrap then).  It returns
    without an access outside the input, the output or its tables and without
    reading an uninitialised table entry; it writes only the first [*out_len]
    bytes of the output, never more than [out_max]; its code is 0 or one of the
    documented errors; and 0 means that some 8 bytes of the input are the CRC-32
    and the length of exactly those bytes. *)
Theorem gunzip_safe :
  exists r, wolfBoot_gunzip (Some inp) len (Some outp) max = Ok r /\ gunzip_post r.
Proof. exact gunzip_total. Qed.

End Results.

(** Twelve bytes compressed by zlib: a block of fixed Huffman codes with a back reference. *)
Definition packed : list Z := [31; 139; 8; 0; 0; 0; 0; 0; 2; 3; 75; 76; 74; 78; 132; 33; 0; 52; 42; 110; 90; 12; 0; 0; 0].

Lemma gunzip_safe_witness :
  wolfBoot_gunzip (Some packed) (zlen packed) (Some (replicate 14 0)) 14 =
    Ok (0, [97; 98; 99; 97; 98; 99; 97; 98; 99; 97; 98; 99; 0; 0], 12) /\
  gunzip_post packed (replicate 14 0) (zlen packed) 14 (0, [97; 98; 99; 97; 98; 99; 97; 98; 99; 97; 98; 99; 0; 0], 12).
Proof.
  assert (wolfBoot_gunzip (Some packed) (zlen packed) (Some (replicate 14 0)) 14 =
    Ok (0, [97; 98; 99; 97; 98; 99; 97; 98; 99; 97; 98; 99; 0; 0], 12)) as E by (vm_compute; reflexivity).
  split; [exact E|]. destruct (gunzip_safe packed (replicate 14 0) (zlen packed) 14) as (r & Hr & Hp).
  - repeat constructor; vm_compute; congruence.
  - repeat constructor; vm_compute; congruence.
  - vm_compute. split; congruence.
  - vm_compute. congruence.
  - vm_compute. split; congruence.
  - reflexivity.
  - rewrite E in Hr. injection Hr as <-. exact Hp.
Defined.

(** ** Round trip through a stored block *)

Definition le16_bytes (x : Z) : list Z := [x mod 256; x / 256 mod 256].
Definition le32_list (x : Z) : list Z :=
  [x mod 256; x / 2 ^ 8 mod 256; x / 2 ^ 16 mod 256; x / 2 ^ 24 mod 256].

(** A gzip member with one stored block: the reference encoder. *)
Definition gzip_header : list Z := [0x1F; 0x8B; 8; 0; 0; 0; 0; 0; 0; 255; 1].
Definition gzip_stored (data : list Z) : list Z :=
  gzip_header ++ le16_bytes (zlen data) ++ le16_bytes (0xFFFF - zlen data) ++ data ++
  le32_list (Z.lxor (crc_of data) GZIP_CRC32_FINAL_XOR) ++ le32_list (zlen data).

(** A 16-bit word from its bytes. *)
Lemma le16_value l p q x :
  0 <= x < 2 ^ 16 -> at_ l p = x mod 256 -> at_ l q = x / 256 mod 256 ->
  Z.lor (at_ l p) (Z.shiftl (at_ l q) 8) = x.
Proof. intros Hx -> ->. rewrite lor_shift_add by dlia. dlia. Qed.

Lemma le32_lor b0 b1 b2 b3 :
  is_byte b0 -> is_byte b1 -> is_byte b2 -> is_byte b3 ->
  Z.lor (Z.lor (Z.lor b0 (Z.shiftl b1 8)) (Z.shiftl b2 16)) (Z.shiftl b3 24) =
  b0 + b1 * 2 ^ 8 + b2 * 2 ^ 16 + b3 * 2 ^ 24.
Proof.
  unfold is_byte. intros. rewrite (lor_shift_add b0 b1 8) by lia.
  rewrite (lor_shift_add (b0 + _) b2 16) by lia. by rewrite lor_shift_add by lia.
Qed.

Lemma trailer_le32_value l p x :
  0 <= x < 2 ^ 32 -> (forall i, 0 <= i < 4 -> at_ l (p + i) = at_ (le32_list x) i) -> le32_at l p = x.
Proof.
  intros Hx Hl. unfold le32_at.
  pose proof (Hl 0 ltac:(lia)) as H0. pose proof (Hl 1 ltac:(lia)) as H1.
  pose proof (Hl 2 ltac:(lia)) as H2. pose proof (Hl 3 ltac:(lia)) as H3.
  rewrite Z.add_0_r in H0. rewrite H0, H1, H2, H3. clear H0 H1 H2 H3 Hl.
  change (at_ (le32_list x) 0) with (x mod 256). change (at_ (le32_list x) 1) with (x / 2 ^ 8 mod 256).
  change (at_ (le32_list x) 2) with (x / 2 ^ 16 mod 256).
  change (at_ (le32_list x) 3) with (x / 2 ^ 24 mod 256).
  rewrite le32_lor by (apply Z.mod_pos_bound; lia). dlia.
Qed.

(** Complementing 16 bits. *)
Lemma lxor_ffff x : 0 <= x <= 0xFFFF -> Z.lxor x 0xFFFF = 0xFFFF - x.
Proof.
  intros Hx. pose proof (Z.add_lxor_2land x 0xFFFF) as H.
  assert (Z.land x 0xFFFF = x) as E.
  { change 0xFFFF with (Z.ones 16). rewrite Z.land_ones by lia. apply Z.mod_small. lia. }
  rewrite E in H. lia.
Qed.

(** Reading the first bit of a byte, and bits already buffered. *)
Lemma get_bits_fresh s b :
  bit_count s = 0 -> bit_buf s = 0 -> rd (g_in s) (in_pos s) = Ok b -> in_pos s < in_len s ->
  is_byte b -> 0 <= in_pos s < 2 ^ 32 - 1 ->
  gz_get_bits s 1 = Ok (set_bits (Z.shiftr b 1) 7 (set_in_pos (in_pos s + 1) s), inl (Z.land b 1)).
Proof.
  destruct s as [gi il ip bb bc o om op cr]. simpl in *. intros -> -> Hr Hlt Hby Hp.
  unfold gz_get_bits, gz_need_bits. change (S (Z.to_nat 1)) with 2%nat.
  cbn [loop bit_count in_len in_pos g_in bit_buf Z.ltb Z.compare negb].
  rewrite (proj2 (Z.leb_gt _ _) Hlt), Hr.
  cbn [obind bit_count in_len in_pos g_in bit_buf set_bits set_in_pos Z.ltb Z.compare negb Z.add
       Pos.compare Pos.compare_cont].
  unfold gbind, gret. cbn [obind set_bits bit_buf bit_count].
  rewrite Z.shiftl_0_r, Z.lor_0_l, !u32_small by wblia. done.
Qed.

Lemma get_bits_buffered s n :
  0 <= n <= 16 -> n <= bit_count s ->
  gz_get_bits s n = Ok (set_bits (Z.shiftr (bit_buf s) n) (bit_count s - n) s,
    inl (Z.land (bit_buf s) (u32 (Z.shiftl 1 n) - 1))).
Proof.
  intros Hn Hc. unfold gz_get_bits, gz_need_bits. cbn [loop].
  rewrite (proj2 (Z.ltb_ge _ _) Hc). done.
Qed.

(** With room for it, a stored copy does not fail. *)
Lemma stored_copy_room s len :
  0 <= len -> 0 <= in_pos s -> in_pos s + len <= zlen (g_in s) -> zlen (g_in s) < 2 ^ 32 ->
  0 <= out_pos s -> out_pos s + len <= out_max s -> out_max s <= zlen (out s) -> out_max s < 2 ^ 32 ->
  wp (stored_copy s len) (fun '(_, r) => r = inl tt).
Proof.
  intros Hl Hi Hle Hz Ho Hor Hm Hm32. unfold stored_copy.
  apply (wp_loop (fun '(k, s') => 0 <= k <= len /\ g_in s' = g_in s /\ out_max s' = out_max s /\
      zlen (out s') = zlen (out s) /\ in_pos s' = in_pos s + (len - k) /\
      out_pos s' = out_pos s + (len - k)) (fun '(k, _) => Z.to_nat k));
    [|split_and!; done || lia|simpl; lia].
  intros [k s1] (L1 & L2 & L3 & L4 & L5 & L6). case_if; [done|].
  rewrite L2, rd_ok by lia. cbn [obind]. unfold gz_emit_byte.
  rewrite (proj2 (Z.leb_gt _ _)) by lia. rewrite wr_ok by lia. simpl.
  rewrite !u32_small by lia. split; [|lia]. split_and!; try done; rewrite ?zlen_insert; lia || done.
Qed.

Lemma rd_app_l l1 l2 i : i < zlen l1 -> rd (l1 ++ l2) i = rd l1 i.
Proof.
  intros Hi. unfold rd. case_if; [done|]. by rewrite lookup_app_l by wblia.
Qed.

Lemma crc_of_range l : bytes l -> 0 <= crc_of l < 2 ^ 32.
Proof.
  intros Hl. unfold crc_of. assert (0 <= GZIP_CRC32_INIT < 2 ^ 32) as H0 by (unfold GZIP_CRC32_INIT; lia).
  revert H0. generalize GZIP_CRC32_INIT. induction Hl as [|b l Hb Hl IH]; intros c Hc; simpl; [done|].
  apply IH. by apply crc_byte_range.
Qed.

Section RoundTrip.
Context (data outp : list Z) (max : Z).
Context (Hd : bytes data) (Hn : zlen data <= 0xFFFF) (Ho : bytes outp).
Context (Hmax : zlen data <= max <= zlen outp) (Hmax32 : max < 2 ^ 32).

Abbreviation inp := (gzip_stored data).
Abbreviation n := (zlen data).
Abbreviation s0 := (gz_init inp (zlen inp) outp max).

Lemma stored_zlen : zlen inp = n + 23.
Proof. unfold gzip_stored. rewrite !zlen_app. unfold zlen. simpl. lia. Qed.

(** Where the parts of the member are. *)
Lemma stored_at :
  (forall i, 0 <= i < 11 -> rd inp i = Ok (at_ gzip_header i)) /\
  at_ inp 11 = n mod 256 /\ at_ inp 12 = n / 256 mod 256 /\
  at_ inp 13 = (0xFFFF - n) mod 256 /\ at_ inp 14 = (0xFFFF - n) / 256 mod 256 /\
  (forall i, 0 <= i < n -> at_ inp (15 + i) = at_ data i) /\
  (forall i, 0 <= i < 4 -> at_ inp (15 + n + i) =
     at_ (le32_list (Z.lxor (crc_of data) GZIP_CRC32_FINAL_XOR)) i) /\
  (forall i, 0 <= i < 4 -> at_ inp (15 + n + 4 + i) = at_ (le32_list n) i).
Proof.
  pose proof (zlen_nonneg data) as Hz.
  assert (zlen gzip_header = 11) as L0 by done.
  assert (forall x, zlen (le16_bytes x) = 2) as L1 by done.
  assert (forall x, zlen (le32_list x) = 4) as L2 by done.
  unfold gzip_stored. split.
  { intros i Hi. rewrite rd_app_l by lia. apply rd_ok. lia. }
  repeat match goal with |- _ /\ _ => split end; intros;
    repeat first [rewrite at_app_r by (rewrite ?L0, ?L1, ?L2; lia)
                 |rewrite at_app_l by (rewrite ?L0, ?L1, ?L2; lia)];
    rewrite ?L0, ?L1, ?L2; try done; f_equal; lia.
Qed.

Lemma stored_bytes : bytes inp.
Proof.
  assert (forall x, is_byte (x mod 256)) as Hm by (intros; unfold is_byte; apply Z.mod_pos_bound; lia).
  unfold gzip_stored, gzip_header, le16_bytes, le32_list. unfold bytes.
  rewrite !Forall_app. split; [repeat constructor; discriminate|].
  split; [repeat constructor; apply Hm|]. split; [repeat constructor; apply Hm|].
  split; [done|]. split; repeat constructor; apply Hm.
Qed.

Lemma stored_header : gz_parse_header s0 = gret (set_in_pos 10 s0) tt.
Proof.
  destruct stored_at as [Hh _]. pose proof stored_zlen as Hz. pose proof (zlen_nonneg data).
  unfold gz_parse_header, GZIP_HEADER_MIN_SIZE. simpl in_len. simpl g_in.
  rewrite (proj2 (Z.ltb_ge _ _)) by lia. rewrite !Hh by lia. done.
Qed.

(** The block: the state after it. *)
Lemma stored_block :
  exists s, gz_inflate (set_in_pos 10 s0) = Ok (s, inl tt) /\ in_ok s /\ in_pos s = 15 + n /\
    g_in s = inp /\ in_len s = zlen inp /\ out_ok s /\ out_pos s = n /\ zlen (out s) = zlen outp /\
    (forall i, 0 <= i < n -> at_ (out s) i = at_ data i) /\
    (forall i, n <= i -> at_ (out s) i = at_ outp i).
Proof.
  destruct stored_at as (Hh & A1 & A2 & A3 & A4 & Hda & _). pose proof stored_zlen as Hz.
  pose proof (zlen_nonneg data) as Hn0. pose proof stored_bytes as Hby.
  set (s3 := set_bits 0 5 (set_in_pos 11 (set_in_pos 10 s0))).
  set (s4 := set_bits 0 0 (set_in_pos 15 (set_bits 0 0 s3))).
  assert (in_ok s4 /\ out_ok s4) as [Hi4 Ho4].
  { unfold in_ok, out_ok, s4, s3. simpl. split_and!; try done; lia. }
  assert (gz_inflate_stored s3 = stored_copy s4 n) as Est.
  { unfold gz_inflate_stored. change (gz_align_byte s3) with (set_bits 0 0 s3).
    simpl in_pos. simpl in_len. simpl g_in. change (u32 (11 + 4)) with 15.
    change (u32 (11 + 1)) with 12. change (u32 (11 + 2)) with 13. change (u32 (11 + 3)) with 14.
    rewrite (proj2 (Z.ltb_ge _ _)) by lia. rewrite !rd_ok by lia. cbn [obind]. cbv zeta.
    rewrite (le16_value inp 11 12 n) by (done || lia).
    rewrite (le16_value inp 13 14 (0xFFFF - n)) by (done || lia).
    rewrite lxor_ffff by lia. rewrite Z.eqb_refl. cbn [negb]. simpl in_pos. simpl in_len.
    rewrite u32_small by lia. rewrite (proj2 (Z.ltb_ge _ _)) by lia. done. }
  assert (wp (stored_copy s4 n) (fun '(s, r) => r = inl tt /\ out_ok s /\ out_rel s4 s /\
    in_rel s4 s /\ in_ok s /\ in_pos s = 15 + n /\ out_pos s = n /\
    forall i, 0 <= i < n -> at_ (out s) i = at_ data i)) as Hw.
  { assert (in_pos s4 + n <= in_len s4) as Hle by (simpl; lia).
    eapply wp_mono; [apply wp_and; [exact (stored_copy_spec s4 n Hi4 Ho4 Hn0 Hle)|]|].
    - apply (stored_copy_room s4 n); simpl; lia.
    - intros [s r] [(G1 & G2 & G3 & G4) ->]. destruct G4 as (G4 & _ & G5 & G6 & _ & _ & G7).
      simpl in *. split_and!; try done. intros i Hi. rewrite <- Hda by done.
      specialize (G7 i Hi). by rewrite Z.add_0_l in G7. }
  destruct (wp_inv _ _ Hw) as ([s r] & E & -> & G1 & (V1 & V2 & V3 & V4) & (R1 & R2 & R3) & G4 & G5 & G6 & G7).
  exists s. simpl in *. split.
  - unfold gz_inflate, bits_fuel. cbn [loop].
    rewrite (get_bits_fresh (set_in_pos 10 s0) 1); [|done|done|simpl; by rewrite Hh by lia|simpl; lia|done|simpl; lia].
    unfold gbind at 1. cbn [obind]. rewrite get_bits_buffered by (simpl; lia).
    unfold gbind at 1. cbn [obind].
    change (Z.land (bit_buf _) _) with 0. unfold inflate_block. cbn [Z.eqb].
    change (set_bits (Z.shiftr _ 2) _ _) with s3.
    rewrite Est, E. done.
  - do 8 (split; [done|]). intros i Hi. apply V4. lia.
Qed.

(** Decompressing a stored gzip member gives back the data it was made from:
    code 0, the data in the first bytes of the output, the rest of the output
    untouched, and [*out_len] the length of the data. *)
Theorem gunzip_stored :
  exists out', wolfBoot_gunzip (Some inp) (zlen inp) (Some outp) max = Ok (0, out', n) /\
    slice out' 0 n = data /\ zlen out' = zlen outp /\ forall i, n <= i -> at_ out' i = at_ outp i.
Proof.
  destruct stored_block as (s & E & Hi & Hp & Hg & Hl & Hos & Hop & Hz & Hda & Hrest).
  destruct stored_at as (_ & _ & _ & _ & _ & _ & Hcrc & Hsz). pose proof stored_zlen as Hzl.
  pose proof (zlen_nonneg data) as Hn0. pose proof stored_bytes as Hby.
  assert (slice (out s) 0 n = data) as Hsl.
  { apply buf_ext; rewrite slice_length by lia; [done|]. intros i Hir. rewrite at_slice by lia. auto. }
  exists (out s). split; [|by split_and!]. unfold wolfBoot_gunzip. rewrite stored_header.
  unfold gbind at 1. cbn [obind gret]. unfold gbind at 1. rewrite E. cbn [obind]. cbv zeta.
  simpl crc32. simpl out_pos. unfold gz_parse_trailer.
  set (s1 := set_out _ _ _ _). rewrite (align_spec s1) by exact Hi.
  simpl in_pos. simpl in_len. simpl g_in. rewrite Hg, Hl, Hp. unfold GZIP_TRAILER_SIZE.
  destruct Hos as (O1 & O2 & O3 & O4 & O5). rewrite O5, Hop, Hsl.
  pose proof (crc_of_range data Hd).
  assert (0 <= Z.lxor (crc_of data) GZIP_CRC32_FINAL_XOR < 2 ^ 32)
    by (apply lxor_range; unfold GZIP_CRC32_FINAL_XOR; lia).
  rewrite !(u32_small (15 + n + _)) by lia. rewrite (proj2 (Z.ltb_ge _ _)) by lia.
  rewrite !in_le32_ok by lia. cbn [obind].
  rewrite (trailer_le32_value inp (15 + n) _ ltac:(done) Hcrc), (trailer_le32_value inp (15 + n + 4) n ltac:(lia) Hsz).
  rewrite !Z.eqb_refl. simpl. by rewrite Hop.
Qed.

End RoundTrip.

Lemma gunzip_stored_witness :
  exists out', wolfBoot_gunzip (Some (gzip_stored [7; 8; 9])) (zlen (gzip_stored [7; 8; 9]))
    (Some [0; 0; 0; 0; 5]) 5 = Ok (0, out', 3) /\ slice out' 0 3 = [7; 8; 9].
Proof.
  destruct (gunzip_stored [7; 8; 9] [0; 0; 0; 0; 5] 5) as (out' & E & Hs & _).
  - repeat constructor; vm_compute; congruence.
  - vm_compute. congruence.
  - repeat constructor; vm_compute; congruence.
  - vm_compute. split; congruence.
  - reflexivity.
  - exists out'. split; [exact E|exact Hs].
Defined.
