(* ===== verification/Delta.v ===== *)
(** * Delta: binary patches (src/delta.c)

    [wb_diff], run by the signing tool, writes a patch that turns one image
    into another; [wb_patch], run by the bootloader, applies it block by block
    while the sectors of the image it reads from are being overwritten.  The
    variant without [EXT_FLASH] is modelled: patch and source are read straight
    from memory. *)

From Stdlib Require Import ZArith Lia.
From stdpp Require Import prelude.
From S2P Require Import Prelude Flash.

Local Open Scope Z_scope.

Definition ESC : Z := 0x7f.
Definition BLOCK_HDR_SIZE : Z := 6.
Definition BLOCK_OFF_MAX : Z := 0xFFFFFF.
Definition UINT16_MAX : Z := 0xFFFF.

(** ** Applying a patch *)

(** [WB_PATCH_CTX]; the bases are addresses. *)
Record wb_patch_ctx : Type := mkPatch {
  src_base : Z;
  src_size : Z;
  patch_base : Z;
  patch_size : Z;
  p_off : Z;
  matching : Z;
  blk_sz : Z;
  blk_off : Z;
}.

Definition set_p_off (p : Z) (c : wb_patch_ctx) : wb_patch_ctx :=
  mkPatch (src_base c) (src_size c) (patch_base c) (patch_size c) p
    (matching c) (blk_sz c) (blk_off c).
Definition set_blk (mt sz off : Z) (c : wb_patch_ctx) : wb_patch_ctx :=
  mkPatch (src_base c) (src_size c) (patch_base c) (patch_size c) (p_off c) mt sz off.

(** [None] is the error return, which leaves the context alone. *)
Definition wb_patch_init (src ssz patch psz : Z) : option wb_patch_ctx :=
  if (ssz =? 0) || (psz =? 0) then None
  else Some (mkPatch src ssz patch psz 0 0 0 0).

(** Byte [i] of the object of [size] bytes at [base]. *)
Definition mem_rd (m : mem) (base size i : Z) : outcome Z :=
  if (0 <=? i) && (i <? size) then Ok (m (base + i)) else Oob.

(** [memcpy(dst + dst_off, base + off, n)]. *)
Definition mem_copy (m : mem) (base size off n : Z) (dst : list Z) (dst_off : Z)
    : outcome (list Z) :=
  if (0 <=? off) && (0 <=? n) && (off + n <=? size)
  then blit dst dst_off (mread m (base + off) n) else Oob.

(** [patch_read_cache]: byte [i] from the current position of the patch. *)
Definition patch_rd (m : mem) (c : wb_patch_ctx) (i : Z) : outcome Z :=
  mem_rd m (patch_base c) (patch_size c) (p_off c + i).

(** Carry on with the block the previous call could not finish. *)
Definition patch_resume (m : mem) (len : Z) (c : wb_patch_ctx) (dst : list Z) (dst_off : Z)
    : outcome (wb_patch_ctx * list Z * Z + Z * wb_patch_ctx * list Z) :=
  let resume_sz := if len <? blk_sz c then len else blk_sz c in
  if (src_size c <? blk_off c) || (u32 (src_size c - blk_off c) <? resume_sz)
  then Ok (inr (-1, c, dst)) else
  let! dst := mem_copy m (src_base c) (src_size c) (blk_off c) resume_sz dst dst_off in
  let c := if len <? blk_sz c
           then set_blk (matching c) (u32 (blk_sz c - len)) (u32 (blk_off c + len)) c
           else set_blk 0 0 0 c in
  Ok (inl (c, dst, u32 (dst_off + resume_sz))).

(** A block header: copy from the source what fits in the destination. *)
Definition patch_block (m : mem) (len : Z) (c : wb_patch_ctx) (dst : list Z) (dst_off : Z)
    : outcome (wb_patch_ctx * list Z * Z + Z * wb_patch_ctx * list Z) :=
  if u32 (patch_size c - p_off c) <? BLOCK_HDR_SIZE then Ok (inr (-1, c, dst)) else
  let! o0 := patch_rd m c 1 in
  let! o1 := patch_rd m c 2 in
  let! o2 := patch_rd m c 3 in
  let! s0 := patch_rd m c 4 in
  let! s1 := patch_rd m c 5 in
  let src_off := u32 (Z.shiftl o0 16 + Z.shiftl o1 8 + o2) in
  let sz := u16 (Z.shiftl s0 8 + s1) in
  if (src_size c <? src_off) || (u32 (src_size c - src_off) <? sz)
  then Ok (inr (-1, c, dst)) else
  let room := u32 (len - dst_off) in
  let copy_sz := if room <? sz then room else sz in
  let c := if room <? sz then set_blk 1 (u32 (sz - copy_sz)) (u32 (src_off + copy_sz)) c
           else set_blk 1 (blk_sz c) (blk_off c) c in
  let! dst := mem_copy m (src_base c) (src_size c) src_off copy_sz dst dst_off in
  let c := if sz =? copy_sz then set_blk 0 (blk_sz c) 0 c else c in
  Ok (inl (set_p_off (u32 (p_off c + BLOCK_HDR_SIZE)) c, dst, u32 (dst_off + copy_sz))).

(** One turn of the loop of [wb_patch]. *)
Definition patch_body (m : mem) (len : Z) (st : wb_patch_ctx * list Z * Z)
    : outcome (wb_patch_ctx * list Z * Z + Z * wb_patch_ctx * list Z) :=
  let '(c, dst, dst_off) := st in
  if negb ((negb (matching c =? 0) || (p_off c <? patch_size c)) && (dst_off <? len))
  then Ok (inr (i32 dst_off, c, dst)) else
  if negb (matching c =? 0) then patch_resume m len c dst dst_off else
  let! b := patch_rd m c 0 in
  if b =? ESC then
    if u32 (patch_size c - p_off c) <? 2 then Ok (inr (-1, c, dst)) else
    let! b1 := patch_rd m c 1 in
    if b1 =? ESC then
      let! dst := wr dst dst_off ESC in
      Ok (inl (set_p_off (u32 (p_off c + 2)) c, dst, u32 (dst_off + 1)))
    else patch_block m len c dst dst_off
  else
    let! dst := wr dst dst_off b in
    Ok (inl (set_p_off (u32 (p_off c + 1)) c, dst, u32 (dst_off + 1))).

(** Each turn uses up patch bytes, except those that resume a block. *)
Definition patch_fuel (c : wb_patch_ctx) : nat := S (S (S (Z.to_nat (patch_size c - p_off c)))).

(** The value returned, the context and the destination afterwards. *)
Definition wb_patch (m : mem) (c : wb_patch_ctx) (dst : list Z) (len : Z)
    : outcome (Z * wb_patch_ctx * list Z) :=
  if len <? BLOCK_HDR_SIZE then Ok (-1, c, dst)
  else loop (patch_fuel c) (patch_body m len) (c, dst, 0).

(** ** Making a patch *)

(** [WB_DIFF_CTX], with the buffers it points to. *)
Record wb_diff_ctx : Type := mkDiff {
  src_a : list Z;
  src_b : list Z;
  size_a : Z;
  size_b : Z;
  off_b : Z;
}.

Definition set_off_b (o : Z) (c : wb_diff_ctx) : wb_diff_ctx :=
  mkDiff (src_a c) (src_b c) (size_a c) (size_b c) o.

Definition wb_diff_init (a : list Z) (len_a : Z) (b : list Z) (len_b : Z) : option wb_diff_ctx :=
  if (len_a =? 0) || (len_b =? 0) then None else Some (mkDiff a b len_a len_b 0).

(** [memcmp(a + i, b + j, n) == 0]. *)
Definition mem_eq (a : list Z) (i : Z) (b : list Z) (j n : Z) : outcome bool :=
  if (0 <=? i) && (i + n <=? zlen a) && (0 <=? j) && (j + n <=? zlen b)
  then Ok (bool_decide (slice a i n = slice b j n)) else Oob.

(** The header of a block. *)
Definition block_hdr (blk_start match_len : Z) : list Z :=
  [ESC; Z.land (Z.shiftr blk_start 16) 0xFF; Z.land (Z.shiftr blk_start 8) 0xFF;
   Z.land blk_start 0xFF; Z.land (Z.shiftr match_len 8) 0xFF; Z.land match_len 0xFF].

(** Outcome of a search: [break] or the end of the loop, [return -1], or a
    block found, with the offset in B after it and its header. *)
Inductive search : Type :=
| NotFound
| TooFar
| Found (off_b' : Z) (hdr : list Z).

Section Diff.
Context (wolfboot_sector_size : Z).

(** Extend a match with A: the match length and the new offset in B. *)
Definition extend_a (c : wb_diff_ctx) (b_start pa : Z) : outcome (Z * Z) :=
  loop (S (Z.to_nat (size_a c))) (fun '(pa, ob, match_len) =>
    if negb ((pa <? size_a c) && (ob <? size_b c)) then Ok (inr (match_len, ob)) else
    let! x := rd (src_a c) pa in
    let! y := rd (src_b c) ob in
    if negb (x =? y) then Ok (inr (match_len, ob)) else
    if size_a c <=? pa + 1 then Ok (inr (match_len, ob)) else
    if b_start / wolfboot_sector_size <? (ob + 1) / wolfboot_sector_size
    then Ok (inr (match_len, ob)) else
    Ok (inl (pa + 1, u32 (ob + 1), u16 (match_len + 1))))
  (pa + BLOCK_HDR_SIZE, u32 (b_start + BLOCK_HDR_SIZE), BLOCK_HDR_SIZE).

(** Extend a match with an earlier part of B, up to [pb_limit]. *)
Definition extend_b (c : wb_diff_ctx) (pb_limit pb : Z) : outcome (Z * Z) :=
  loop (S (Z.to_nat pb_limit)) (fun '(pb, ob, match_len) =>
    if negb ((pb <? pb_limit) && (match_len <? UINT16_MAX) && (ob <? size_b c))
    then Ok (inr (match_len, ob)) else
    let! x := rd (src_b c) pb in
    let! y := rd (src_b c) ob in
    if negb (x =? y) then Ok (inr (match_len, ob)) else
    if pb_limit <=? pb + 1 then Ok (inr (match_len, ob)) else
    Ok (inl (pb + 1, u32 (ob + 1), u16 (match_len + 1))))
  (pb + BLOCK_HDR_SIZE, u32 (off_b c + BLOCK_HDR_SIZE), BLOCK_HDR_SIZE).

(** Look for the next bytes of B in A, from the start of the current sector. *)
Definition search_a (c : wb_diff_ctx) (p len : Z) : outcome search :=
  let page_start := off_b c / wolfboot_sector_size in
  loop (S (Z.to_nat (size_a c))) (fun pa =>
    if negb ((pa <? size_a c) && (p <? len)) then Ok (inr NotFound) else
    if size_a c - pa <? BLOCK_HDR_SIZE then Ok (inr NotFound) else
    if u32 (size_b c - off_b c) <? BLOCK_HDR_SIZE then Ok (inr NotFound) else
    if wolfboot_sector_size - off_b c mod wolfboot_sector_size <? BLOCK_HDR_SIZE
    then Ok (inr NotFound) else
    let! eq := mem_eq (src_a c) pa (src_b c) (off_b c) BLOCK_HDR_SIZE in
    if eq : bool then
      if BLOCK_OFF_MAX <? pa then Ok (inr TooFar) else
      if Z.land (Z.shiftr pa 16) 0xFF =? ESC then Ok (inl (pa + 1)) else
      let! (match_len, ob) := extend_a c (off_b c) pa in
      Ok (inr (Found ob (block_hdr pa match_len)))
    else Ok (inl (pa + 1))) (wolfboot_sector_size * page_start).

(** Look for them in the sectors of B that come before. *)
Definition search_b (c : wb_diff_ctx) (p len : Z) : outcome search :=
  let page_start := off_b c / wolfboot_sector_size in
  let pb_end := page_start * wolfboot_sector_size in
  loop (S (Z.to_nat pb_end)) (fun pb =>
    if negb ((pb <? pb_end) && (p <? len)) then Ok (inr NotFound) else
    if u32 (size_b c - off_b c) <? BLOCK_HDR_SIZE then Ok (inr NotFound) else
    if size_b c - pb <? BLOCK_HDR_SIZE then Ok (inr NotFound) else
    if page_start * wolfboot_sector_size - pb <? wolfboot_sector_size
    then Ok (inr NotFound) else
    let! eq := mem_eq (src_b c) pb (src_b c) (off_b c) BLOCK_HDR_SIZE in
    if eq : bool then
      if BLOCK_OFF_MAX <? pb then Ok (inr TooFar) else
      if Z.land (Z.shiftr pb 16) 0xFF =? ESC then Ok (inl (pb + 1)) else
      let! (match_len, ob) := extend_b c pb_end pb in
      Ok (inr (Found ob (block_hdr pb match_len)))
    else Ok (inl (pb + 1))) 0.

(** Emit the next byte of B as a literal; [None] when an escaped one does not
    fit. *)
Definition put_literal (c : wb_diff_ctx) (patch : list Z) (p len : Z)
    : outcome (option (wb_diff_ctx * list Z * Z)) :=
  let! b := rd (src_b c) (off_b c) in
  if b =? ESC then
    if len - BLOCK_HDR_SIZE <=? p + 1 then Ok None else
    let! patch := wr patch p ESC in
    let! patch := wr patch (p + 1) ESC in
    Ok (Some (set_off_b (u32 (off_b c + 1)) c, patch, p + 2))
  else
    let! patch := wr patch p b in
    Ok (Some (set_off_b (u32 (off_b c + 1)) c, patch, p + 1)).

(** The main loop; [inl] goes on to the tail, [inr] is an early return. *)
Definition diff_body (len : Z) (st : wb_diff_ctx * list Z * Z)
    : outcome (wb_diff_ctx * list Z * Z +
               (wb_diff_ctx * list Z * Z + Z * wb_diff_ctx * list Z)) :=
  let '(c, patch, p) := st in
  if negb ((off_b c + BLOCK_HDR_SIZE <? size_b c) && (p + BLOCK_HDR_SIZE <? len))
  then Ok (inr (inl (c, patch, p))) else
  if len <? p + BLOCK_HDR_SIZE then Ok (inr (inr (i32 p, c, patch))) else
  let! ra := search_a c p len in
  let! r := (match ra with NotFound => search_b c p len | _ => Ok ra end) in
  match r with
  | TooFar => Ok (inr (inr (-1, c, patch)))
  | Found ob hdr =>
      let! patch := blit patch p hdr in
      Ok (inl (set_off_b ob c, patch, p + BLOCK_HDR_SIZE))
  | NotFound =>
      let! l := put_literal c patch p len in
      match l with
      | None => Ok (inr (inl (c, patch, p)))
      | Some st => Ok (inl st)
      end
  end.

(** What is left near the end of B goes out as literals. *)
Definition diff_tail (len : Z) (st : wb_diff_ctx * list Z * Z)
    : outcome (wb_diff_ctx * list Z * Z + Z * wb_diff_ctx * list Z) :=
  let '(c, patch, p) := st in
  if negb ((p <? len - BLOCK_HDR_SIZE) && (off_b c <? size_b c))
  then Ok (inr (i32 p, c, patch)) else
  let! l := put_literal c patch p len in
  match l with
  | None => Ok (inr (i32 p, c, patch))
  | Some st => Ok (inl st)
  end.

Definition wb_diff (c : wb_diff_ctx) (patch : list Z) (len : Z)
    : outcome (Z * wb_diff_ctx * list Z) :=
  if size_b c <=? off_b c then Ok (0, c, patch) else
  if len <? BLOCK_HDR_SIZE then Ok (-1, c, patch) else
  let! r := loop (S (Z.to_nat (size_b c - off_b c))) (diff_body len) (c, patch, 0) in
  match r with
  | inr ret => Ok ret
  | inl st => loop (S (Z.to_nat (size_b (fst (fst st)) - off_b (fst (fst st))))) (diff_tail len) st
  end.

(** [base_diff] of the signing tool: one patch, block by block; [None] when
    a block fails. *)
Definition make_patch (c : wb_diff_ctx) (dest : list Z) (blksz : Z) : outcome (option (list Z)) :=
  loop (S (S (Z.to_nat (size_b c)))) (fun '(c, dest, out) =>
    let! (r, c, dest) := wb_diff c dest blksz in
    if r <? 0 then Ok (inr None) else
    let out := out ++ slice dest 0 r in
    if 0 <? r then Ok (inl (c, dest, out)) else Ok (inr (Some out))) (c, dest, []).

End Diff.
