(* ===== verification/DeltaPatch.v ===== *)
(** * DeltaPatch: what [wb_patch] does

    Memory safety and termination on any patch, and the functional behaviour
    on a patch that encodes a list of operations: each call yields the next
    block of the new image, although the sectors of the old one that have been
    completed already hold the new one. *)

From Stdlib Require Import ZArith Lia.
From stdpp Require Import prelude.
From S2P Require Import Prelude Flash Delta.

Local Open Scope Z_scope.

(** ** Safety on any patch *)

Lemma wp_mem_rd m base size i (Q : Z -> Prop) :
  0 <= i < size -> Q (m (base + i)) -> wp (mem_rd m base size i) Q.
Proof.
  intros Hi HQ. unfold mem_rd. destruct (Z.leb_spec 0 i); [|lia].
  destruct (Z.ltb_spec i size); [done|lia].
Qed.

Lemma wp_mem_copy m base size off n dst o (Q : list Z -> Prop) :
  0 <= off -> 0 <= n -> off + n <= size -> 0 <= o -> o + n <= zlen dst ->
  (forall dst', zlen dst' = zlen dst ->
     (forall i, 0 <= i < n -> at_ dst' (o + i) = m (base + off + i)) ->
     (forall i, 0 <= i -> i < o \/ o + n <= i -> at_ dst' i = at_ dst i) -> Q dst') ->
  wp (mem_copy m base size off n dst o) Q.
Proof.
  intros H1 H2 H3 H4 H5 HQ. unfold mem_copy.
  destruct (Z.leb_spec 0 off); [|lia]. destruct (Z.leb_spec 0 n); [|lia].
  destruct (Z.leb_spec (off + n) size); [|lia]. cbn [andb].
  assert (Hl : zlen (mread m (base + off) n) = n) by (apply mread_length; lia).
  apply wp_blit; [done|lia|]. intros dst' Hd Hin Hout. apply HQ; [done| |].
  - intros i Hi. rewrite Hin by lia. by rewrite mread_at.
  - intros i Hi Ho. apply Hout; lia.
Qed.

(** Fields of a context that are 32-bit quantities, with the position of the
    patch inside it. *)
Definition ctx_ok (c : wb_patch_ctx) : Prop :=
  0 <= src_size c < 2 ^ 32 /\ 0 <= p_off c <= patch_size c /\ patch_size c < 2 ^ 32 /\
  0 <= blk_sz c < 2 ^ 32 /\ 0 <= blk_off c < 2 ^ 32.

(** Two contexts of the same patching run. *)
Definition same_run (c c' : wb_patch_ctx) : Prop :=
  src_base c' = src_base c /\ src_size c' = src_size c /\
  patch_base c' = patch_base c /\ patch_size c' = patch_size c /\ p_off c <= p_off c'.

(** What a call leaves behind, whatever the patch. *)
Definition patch_post (c : wb_patch_ctx) (dst : list Z) (len : Z)
    (r : Z * wb_patch_ctx * list Z) : Prop :=
  let '(ret, c', dst') := r in
  (ret = -1 \/ 0 <= ret <= len) /\ ctx_ok c' /\ same_run c c' /\
  zlen dst' = zlen dst /\ (forall i, len <= i -> at_ dst' i = at_ dst i) /\
  (ret = 0 -> matching c' = 0 /\ p_off c' = patch_size c').

Section Safe.
Context (m : mem) (c0 : wb_patch_ctx) (dst0 : list Z) (len : Z).
Context (Hlen : BLOCK_HDR_SIZE <= len < 2 ^ 31) (Hdst : len <= zlen dst0).

Definition patch_inv (st : wb_patch_ctx * list Z * Z) : Prop :=
  let '(c, dst, o) := st in
  0 <= o <= len /\ ctx_ok c /\ same_run c0 c /\ zlen dst = zlen dst0 /\
  (forall i, len <= i -> at_ dst i = at_ dst0 i) /\ (matching c <> 0 -> o = 0 \/ o = len).

Definition patch_measure (st : wb_patch_ctx * list Z * Z) : nat :=
  let '(c, _, o) := st in
  Z.to_nat (patch_size c - p_off c + if negb (matching c =? 0) && (o <? len) then 1 else 0).

Local Arguments Z.to_nat : simpl never.

(** One turn keeps the invariant and gets nearer to the end. *)
Definition patch_turn (st : wb_patch_ctx * list Z * Z)
    (x : wb_patch_ctx * list Z * Z + Z * wb_patch_ctx * list Z) : Prop :=
  match x with
  | inl st' => patch_inv st' /\ (patch_measure st' < patch_measure st)%nat
  | inr r => patch_post c0 dst0 len r
  end.

Lemma patch_fail c dst o : patch_inv (c, dst, o) -> patch_post c0 dst0 len (-1, c, dst).
Proof. intros (H1 & H2 & H3 & H4 & H5 & H6). repeat (split; [by auto|]). lia. Qed.

Lemma patch_resume_safe c dst o :
  patch_inv (c, dst, o) -> matching c <> 0 -> o < len ->
  wp (patch_resume m len c dst o) (patch_turn (c, dst, o)).
Proof.
  intros Hinv Hm Ho. pose proof Hinv as (H1 & (Hs & Hp & Hps & Hb & Hbo) & Hr & H4 & H5 & H6).
  destruct (H6 Hm) as [->|]; [|lia]. unfold BLOCK_HDR_SIZE in Hlen. unfold patch_resume.
  set (n := if len <? blk_sz c then len else blk_sz c).
  assert (Hn : 0 <= n <= len) by (unfold n; case_if; lia).
  case_if; [by apply wp_Ok, (patch_fail _ _ 0)|]. rewrite u32_small in * by lia.
  apply wp_bind, wp_mem_copy; [lia..|]. intros dst' Hd Hin Hout.
  apply wp_Ok. unfold patch_turn, patch_inv, patch_measure.
  assert (Hfar : forall i, len <= i -> at_ dst' i = at_ dst0 i).
  { intros i Hi. rewrite Hout by lia. auto. }
  assert (Heq : (matching c =? 0) = false) by lia. rewrite Heq.
  unfold n in *. case_if; simpl; rewrite ?Heq; (rewrite !u32_small by lia).
  - repeat split; try done; simpl; try lia; try apply Hr. repeat case_if; lia.
  - repeat split; try done; simpl; try lia; try apply Hr. repeat case_if; lia.
Qed.

Lemma u32_sub_ge a b : 0 <= b <= a -> a < 2 ^ 32 -> u32 (a - b) = a - b.
Proof. intros. apply u32_small. lia. Qed.

Lemma patch_block_safe c dst o :
  patch_inv (c, dst, o) -> matching c = 0 -> o < len ->
  wp (patch_block m len c dst o) (patch_turn (c, dst, o)).
Proof.
  intros Hinv Hm Ho. pose proof Hinv as (H1 & (Hs & Hp & Hps & Hb & Hbo) & Hr & H4 & H5 & _).
  unfold patch_block, BLOCK_HDR_SIZE in *. rewrite (u32_sub_ge (patch_size c)) by lia.
  case_if; [by apply wp_Ok, (patch_fail _ _ o)|].
  do 5 (apply wp_bind, wp_mem_rd; [lia|]).
  set (so := u32 (_ + _ + _)). set (sz := u16 (_ + _)).
  pose proof (u32_range (Z.shiftl (m (patch_base c + (p_off c + 1))) 16 +
    Z.shiftl (m (patch_base c + (p_off c + 2))) 8 + m (patch_base c + (p_off c + 3)))) as Hso.
  pose proof (u16_range (Z.shiftl (m (patch_base c + (p_off c + 4))) 8 +
    m (patch_base c + (p_off c + 5)))) as Hsz.
  fold so in Hso. fold sz in Hsz.
  destruct (Z.ltb_spec (src_size c) so); [by apply wp_Ok, (patch_fail _ _ o)|]. cbn [orb].
  rewrite (u32_sub_ge (src_size c)) by lia.
  destruct (Z.ltb_spec (src_size c - so) sz); [by apply wp_Ok, (patch_fail _ _ o)|].
  rewrite (u32_sub_ge len) by lia.
  set (n := if len - o <? sz then len - o else sz).
  assert (Hn : 0 <= n <= len - o /\ n <= sz) by (unfold n; case_if; lia).
  assert (Hsame : forall b k, src_base (if (b : bool) then set_blk 1 (u32 (sz - n)) (u32 (so + n)) c
      else k) = src_base (if b then c else k)) by (by intros []). rewrite Hsame.
  assert (Hsame2 : forall b k, src_size (if (b : bool) then set_blk 1 (u32 (sz - n)) (u32 (so + n)) c
      else k) = src_size (if b then c else k)) by (by intros []). rewrite Hsame2.
  replace (src_base (if len - o <? sz then c else _)) with (src_base c) by (by case_if).
  replace (src_size (if len - o <? sz then c else _)) with (src_size c) by (by case_if).
  apply wp_bind, wp_mem_copy; [lia..|]. intros dst' Hd Hin Hout.
  assert (Hfar : forall i, len <= i -> at_ dst' i = at_ dst0 i).
  { intros i Hi. rewrite Hout by lia. auto. }
  apply wp_Ok. unfold patch_turn, patch_inv, patch_measure.
  assert (Heq : (matching c =? 0) = true) by lia. rewrite Heq.
  destruct Hr as (R1 & R2 & R3 & R4 & R5).
  unfold n in *. destruct (Z.ltb_spec (len - o) sz).
  - destruct (Z.eqb_spec sz (len - o)); [lia|]. simpl. rewrite !u32_small by lia.
    repeat split; try done; simpl; try lia. repeat case_if; lia.
  - rewrite Z.eqb_refl. simpl. rewrite !u32_small by lia.
    repeat split; try done; simpl; lia.
Qed.

Lemma patch_lit_safe c dst o b k :
  patch_inv (c, dst, o) -> matching c = 0 -> o < len -> 0 < k -> p_off c + k <= patch_size c ->
  wp (let! dst := wr dst o b in Ok (inl (set_p_off (u32 (p_off c + k)) c, dst, u32 (o + 1))))
    (patch_turn (c, dst, o)).
Proof.
  intros (H1 & (Hs & Hp & Hps & Hb & Hbo) & (R1 & R2 & R3 & R4 & R5) & H4 & H5 & _) Hm Ho Hk Hpk.
  apply wp_bind, wp_wr; [lia|]. apply wp_Ok. unfold BLOCK_HDR_SIZE in *.
  assert (Heq : (matching c =? 0) = true) by lia.
  unfold patch_turn, patch_inv, patch_measure, ctx_ok, same_run. simpl. rewrite Heq.
  rewrite !u32_small by lia. rewrite zlen_insert.
  repeat split; try done; try lia; [|cbn [negb andb]; lia].
  intros i Hi. rewrite at_insert_ne by lia. auto.
Qed.

Lemma patch_body_safe st :
  patch_inv st -> wp (patch_body m len st) (patch_turn st).
Proof.
  destruct st as [[c dst] o]. intros Hinv.
  pose proof Hinv as (H1 & (Hs & Hp & Hps & Hb & Hbo) & Hr & H4 & H5 & H6).
  assert (Hexit : (matching c = 0 /\ patch_size c <= p_off c) \/ len <= o ->
    patch_post c0 dst0 len (i32 o, c, dst)).
  { intros Hx. unfold BLOCK_HDR_SIZE in *. rewrite i32_small by lia.
    repeat (split; [by auto|]). lia. }
  unfold patch_body. destruct (Z.ltb_spec o len) as [Ho|Ho];
    [rewrite andb_true_r|rewrite andb_false_r; apply wp_Ok, Hexit; lia].
  destruct (Z.eqb_spec (matching c) 0) as [Hm|Hm]; cbn [negb orb];
    [|by apply patch_resume_safe].
  destruct (Z.ltb_spec (p_off c) (patch_size c)); [cbn [negb]|apply wp_Ok, Hexit; lia].
  apply wp_bind, wp_mem_rd; [lia|]. case_if; [|by apply patch_lit_safe; try lia].
  rewrite (u32_sub_ge (patch_size c)) by lia.
  case_if; [by apply wp_Ok, (patch_fail _ _ o)|].
  apply wp_bind, wp_mem_rd; [lia|].
  case_if; [by apply patch_lit_safe; try lia|by apply patch_block_safe].
Qed.
End Safe.

Lemma wb_patch_total m c dst len :
  ctx_ok c -> BLOCK_HDR_SIZE <= len < 2 ^ 31 -> len <= zlen dst ->
  wp (wb_patch m c dst len) (patch_post c dst len).
Proof.
  intros Hc Hlen Hdst. unfold wb_patch. case_if; [lia|].
  apply (wp_loop (patch_inv c dst len) (patch_measure len)).
  - intros st Hst. eapply wp_mono; [by apply patch_body_safe|]. by intros [].
  - unfold BLOCK_HDR_SIZE in *. repeat split; try done; try apply Hc; try lia.
  - unfold patch_measure, patch_fuel. case_if; lia.
Qed.

(** C10: [wb_patch] is safe and terminates on every patch, well formed or not.  It
    reads nothing outside the patch and the source, writes at most [len] bytes
    of the destination, returns -1 or the number of bytes written, and keeps the
    position inside the patch; it returns 0 only when the patch is used up. *)
Theorem wb_patch_safe m c dst len :
  ctx_ok c -> BLOCK_HDR_SIZE <= len < 2 ^ 31 -> len <= zlen dst ->
  exists r, wb_patch m c dst len = Ok r /\ patch_post c dst len r.
Proof. intros. by apply wp_inv, wb_patch_total. Qed.

(** ** Patches as operations *)

Inductive op : Type :=
| Lit (b : Z)
| Copy (off sz : Z).

Definition encode (x : op) : list Z :=
  match x with
  | Lit b => if b =? ESC then [ESC; ESC] else [b]
  | Copy off sz => block_hdr off sz
  end.

Definition encode_all (ops : list op) : list Z := ops ≫= encode.

Section Rebuild.
Context (SS : Z) (A B : list Z).

(** The image in flash while sector [s] is patched. *)
Definition mixed (s j : Z) : Z := if j <? s * SS then at_ B j else at_ A j.

(** Copying [sz] bytes from [off] gives those of B at [k], for each of them at
    the time its sector is patched. *)
Definition copy_ok (k off sz : Z) : Prop :=
  forall j, 0 <= j < sz -> mixed ((k + j) / SS) (off + j) = at_ B (k + j).

(** Operations that yield B from position [k] on. *)
Inductive produces : Z -> list op -> Prop :=
| produces_nil : produces (zlen B) []
| produces_lit k ops :
    0 <= k < zlen B -> produces (k + 1) ops -> produces k (Lit (at_ B k) :: ops)
| produces_copy k off sz ops :
    0 <= k -> 6 <= sz < 2 ^ 16 -> 0 <= off < 2 ^ 24 -> Z.land (Z.shiftr off 16) 0xFF <> ESC ->
    off + sz <= zlen A -> k + sz <= zlen B -> copy_ok k off sz ->
    produces (k + sz) ops -> produces k (Copy off sz :: ops).

Lemma produces_range k ops : produces k ops -> 0 <= k <= zlen B.
Proof. pose proof (zlen_nonneg B). induction 1; lia. Qed.

Lemma produces_len k ops : produces k ops -> zlen (encode_all ops) <= 2 * (zlen B - k).
Proof.
  induction 1 as [|k ops Hk _ IH|k off sz ops Hk Hsz _ _ _ _ _ _ IH]; [unfold zlen; simpl; lia|..].
  - change (encode_all (Lit (at_ B k) :: ops)) with (encode (Lit (at_ B k)) ++ encode_all ops).
    rewrite zlen_app. simpl. case_if; unfold zlen in *; simpl in *; lia.
  - change (encode_all (Copy off sz :: ops)) with (encode (Copy off sz) ++ encode_all ops).
    rewrite zlen_app. change (zlen (encode (Copy off sz))) with 6. lia.
Qed.

Context (sb pb : Z) (P : list Z).

(** A context that has [P] to apply, [k] bytes of B having been produced. *)
Definition stream (k : Z) (c : wb_patch_ctx) : Prop :=
  ctx_ok c /\ src_base c = sb /\ src_size c = zlen A /\ patch_base c = pb /\
  patch_size c = zlen P /\
  exists ops, drop (Z.to_nat (p_off c)) P = encode_all ops /\
    ((matching c = 0 /\ produces k ops) \/
     (matching c = 1 /\ 0 < blk_sz c /\ blk_off c + blk_sz c <= zlen A /\
      copy_ok k (blk_off c) (blk_sz c) /\ produces (k + blk_sz c) ops)).

(** The memory while sector [s] is patched: the patch, and the two images
    mixed at [sb]. *)
Definition patch_view (m : mem) (s : Z) : Prop :=
  (forall i, 0 <= i < zlen P -> m (pb + i) = at_ P i) /\
  (forall j, 0 <= j < zlen A -> m (sb + j) = mixed s j).

Lemma at_drop (l : list Z) n i : 0 <= n -> 0 <= i -> at_ (drop (Z.to_nat n) l) i = at_ l (n + i).
Proof. intros. unfold at_. rewrite lookup_drop. do 2 f_equal. lia. Qed.

(** The next operation of a stream: its bytes in memory, and what follows. *)
Lemma stream_next m s c x ops :
  patch_view m s -> ctx_ok c -> patch_base c = pb -> patch_size c = zlen P ->
  drop (Z.to_nat (p_off c)) P = encode_all (x :: ops) ->
  p_off c + zlen (encode x) <= patch_size c /\
  (forall i (Q : Z -> Prop), 0 <= i < zlen (encode x) -> Q (at_ (encode x) i) -> wp (patch_rd m c i) Q) /\
  drop (Z.to_nat (p_off c + zlen (encode x))) P = encode_all ops.
Proof.
  intros [Hv _] (_ & Hp & _) Hb Hz Hd. change (encode_all (x :: ops)) with (encode x ++ encode_all ops) in Hd.
  assert (Hl : zlen P - p_off c = zlen (encode x) + zlen (encode_all ops)).
  { rewrite <- zlen_app, <- Hd. unfold zlen in *. rewrite length_drop. lia. }
  pose proof (zlen_nonneg (encode_all ops)). pose proof (zlen_nonneg (encode x)).
  split_and!; [lia| |].
  - intros i Q Hi HQ. unfold patch_rd. apply wp_mem_rd; [lia|].
    rewrite Hb, Hv by lia. rewrite <- at_drop, Hd, at_app_l by lia. done.
  - rewrite Z2Nat.inj_add, <- drop_drop, Hd by lia. unfold zlen. rewrite Nat2Z.id.
    apply drop_app_length.
Qed.

Lemma block_hdr_off off :
  0 <= off < 2 ^ 24 ->
  u32 (Z.shiftl (Z.land (Z.shiftr off 16) 0xFF) 16 + Z.shiftl (Z.land (Z.shiftr off 8) 0xFF) 8 +
       Z.land off 0xFF) = off.
Proof.
  intros. change 0xFF with (Z.ones 8). rewrite !Z.land_ones, !Z.shiftl_mul_pow2, !Z.shiftr_div_pow2 by lia.
  change (2 ^ 8) with 256. change (2 ^ 16) with 65536. dlia.
Qed.

Lemma block_hdr_sz sz :
  0 <= sz < 2 ^ 16 ->
  u16 (Z.shiftl (Z.land (Z.shiftr sz 8) 0xFF) 8 + Z.land sz 0xFF) = sz.
Proof.
  intros. change 0xFF with (Z.ones 8). rewrite !Z.land_ones, !Z.shiftl_mul_pow2, !Z.shiftr_div_pow2 by lia.
  change (2 ^ 8) with 256. dlia.
Qed.

(** One call of [wb_patch], inside sector [s]. *)
Section Call.
Context (m : mem) (s k0 len : Z) (dst0 : list Z).
Context (Hview : patch_view m s).
Context (Hwin : s * SS <= k0 /\ k0 + len <= (s + 1) * SS).
Context (Hlen : BLOCK_HDR_SIZE <= len < 2 ^ 31) (Hdst : len <= zlen dst0).

Definition call_inv (st : wb_patch_ctx * list Z * Z) : Prop :=
  let '(c, dst, o) := st in
  0 <= o <= len /\ stream (k0 + o) c /\ zlen dst = zlen dst0 /\
  (forall i, 0 <= i < o -> at_ dst i = at_ B (k0 + i)) /\ (matching c <> 0 -> o = 0 \/ o = len).

Definition call_post (r : Z * wb_patch_ctx * list Z) : Prop :=
  let '(ret, c, dst) := r in
  ret = Z.min len (zlen B - k0) /\ stream (k0 + ret) c /\ zlen dst = zlen dst0 /\
  forall i, 0 <= i < ret -> at_ dst i = at_ B (k0 + i).

Definition call_turn (st : wb_patch_ctx * list Z * Z)
    (x : wb_patch_ctx * list Z * Z + Z * wb_patch_ctx * list Z) : Prop :=
  match x with
  | inl st' => call_inv st' /\ (patch_measure len st' < patch_measure len st)%nat
  | inr r => call_post r
  end.

Lemma win_page o : 0 <= o < len -> (k0 + o) / SS = s.
Proof. intros. symmetry. apply (Z.div_unique _ _ _ (k0 + o - s * SS)); lia. Qed.

(** Inside the window a block is copied from the mixed image. *)
Lemma copied_bytes o off n dst dst' :
  0 <= o -> o + n <= len -> 0 <= off -> off + n <= zlen A -> copy_ok (k0 + o) off n ->
  (forall i, 0 <= i < o -> at_ dst i = at_ B (k0 + i)) ->
  (forall i, 0 <= i < n -> at_ dst' (o + i) = m (sb + off + i)) ->
  (forall i, 0 <= i -> i < o \/ o + n <= i -> at_ dst' i = at_ dst i) ->
  forall i, 0 <= i < o + n -> at_ dst' i = at_ B (k0 + i).
Proof.
  intros Ho Hn Hoff Hb Hc Hold Hin Hout i Hi.
  destruct (Z.lt_ge_cases i o); [rewrite Hout by lia; apply Hold; lia|].
  replace i with (o + (i - o)) at 1 by lia. rewrite Hin by lia.
  rewrite <- Z.add_assoc, (proj2 Hview) by lia.
  specialize (Hc (i - o)). replace (k0 + o + (i - o)) with (k0 + i) in Hc by lia.
  rewrite win_page in Hc by lia. apply Hc. lia.
Qed.

Lemma copy_ok_skip k off sz n : 0 <= n -> copy_ok k off sz -> copy_ok (k + n) (off + n) (sz - n).
Proof.
  intros Hn H j Hj. specialize (H (n + j)). rewrite !Z.add_assoc in H. apply H. lia.
Qed.

Lemma copy_ok_less k off sz n : n <= sz -> copy_ok k off sz -> copy_ok k off n.
Proof. intros Hn H j Hj. apply H. lia. Qed.

Lemma call_resume c dst o :
  call_inv (c, dst, o) -> matching c <> 0 -> o < len ->
  wp (patch_resume m len c dst o) (call_turn (c, dst, o)).
Proof.
  intros (H1 & (Hc & Hs & Hz & Hpb & Hps & ops & Hd & Hops) & H4 & H5 & H6) Hm Ho.
  destruct (H6 Hm) as [->|]; [|lia]. destruct Hops as [[]|(Hm1 & Hsz & Hbo & Hcp & Hpr)]; [done|].
  pose proof Hc as (C1 & C2 & C3 & C4 & C5). unfold BLOCK_HDR_SIZE in *. unfold patch_resume.
  rewrite Z.add_0_r in Hcp, Hpr.
  rewrite Hs, Hz. set (n := if len <? blk_sz c then len else blk_sz c).
  assert (Hn : 0 < n <= len /\ n <= blk_sz c) by (unfold n; case_if; lia).
  destruct (Z.ltb_spec (zlen A) (blk_off c)); [lia|]. cbn [orb].
  rewrite u32_small by lia. destruct (Z.ltb_spec (zlen A - blk_off c) n); [lia|].
  apply wp_bind, wp_mem_copy; [lia..|]. intros dst' Hdl Hin Hout. apply wp_Ok.
  assert (Hnew : forall i, 0 <= i < 0 + n -> at_ dst' i = at_ B (k0 + i)).
  { eapply (copied_bytes 0 (blk_off c)); eauto; try lia. rewrite Z.add_0_r.
    eapply copy_ok_less; [|done]; lia. }
  assert (Heq : (matching c =? 0) = false) by lia. unfold call_turn, call_inv, patch_measure.
  rewrite Heq. unfold n in *. destruct (Z.ltb_spec len (blk_sz c)); simpl; rewrite ?Heq, !u32_small by lia;
    rewrite ?Z.add_0_l in *.
  - split; [|rewrite Z.ltb_irrefl; destruct (Z.ltb_spec 0 len); simpl; lia].
    split_and!; try done; try lia. unfold stream, ctx_ok. simpl.
    split_and!; try done; try lia. exists ops. split; [done|]. right.
    split_and!; try done; try lia; [by apply copy_ok_skip; [lia|]|].
    by replace (k0 + len + (blk_sz c - len)) with (k0 + blk_sz c) by lia.
  - split; [|destruct (Z.ltb_spec 0 len); simpl; lia].
    split_and!; try done; try lia. unfold stream, ctx_ok. simpl.
    split_and!; try done; try lia. exists ops. split; [done|]. by left.
Qed.

(** A literal of [n] patch bytes. *)
Lemma call_lit c dst o n ops :
  call_inv (c, dst, o) -> matching c = 0 -> o < len -> 0 < n -> p_off c + n <= patch_size c ->
  drop (Z.to_nat (p_off c + n)) P = encode_all ops -> produces (k0 + (o + 1)) ops ->
  wp (let! dst := wr dst o (at_ B (k0 + o)) in
      Ok (inl (set_p_off (u32 (p_off c + n)) c, dst, u32 (o + 1)))) (call_turn (c, dst, o)).
Proof.
  intros (H1 & (Hc & Hs & Hz & Hpb & Hps & _) & H4 & H5 & H6) Hm Ho Hn Hpn Hd Hpr.
  pose proof Hc as (C1 & C2 & C3 & C4 & C5). unfold BLOCK_HDR_SIZE in *.
  apply wp_bind, wp_wr; [lia|]. apply wp_Ok.
  assert (Heq : (matching c =? 0) = true) by lia.
  unfold call_turn, call_inv, patch_measure. simpl. rewrite Heq, !u32_small by lia.
  split; [|cbn [negb andb]; lia]. split_and!; try lia.
  - unfold stream, ctx_ok. simpl. split_and!; try done; try lia. exists ops. split; [done|]. by left.
  - by rewrite zlen_insert.
  - intros i Hi. destruct (decide (i = o)) as [->|]; [by rewrite at_insert_eq by lia|].
    rewrite at_insert_ne by lia. apply H5. lia.
Qed.

Lemma call_block c dst o off sz ops :
  call_inv (c, dst, o) -> matching c = 0 -> o < len ->
  drop (Z.to_nat (p_off c)) P = encode_all (Copy off sz :: ops) ->
  0 < sz < 2 ^ 16 -> 0 <= off < 2 ^ 24 -> off + sz <= zlen A ->
  copy_ok (k0 + o) off sz -> produces (k0 + o + sz) ops ->
  wp (patch_block m len c dst o) (call_turn (c, dst, o)).
Proof.
  intros (H1 & (Hc & Hs & Hz & Hpb & Hps & _) & H4 & H5 & _) Hm Ho Hd Hsz Hoff Hend Hcp Hpr.
  pose proof Hc as (C1 & C2 & C3 & C4 & C5).
  destruct (stream_next m s c _ _ Hview Hc Hpb Hps Hd) as (Hroom & Hrd & Hnext).
  change (zlen (encode (Copy off sz))) with 6 in *. unfold patch_block, BLOCK_HDR_SIZE in *.
  rewrite (u32_sub_ge (patch_size c)) by lia. destruct (Z.ltb_spec (patch_size c - p_off c) 6); [lia|].
  do 5 (apply wp_bind, Hrd; [lia|]). simpl at_. unfold at_. simpl default.
  rewrite block_hdr_off, block_hdr_sz, Hz by lia.
  destruct (Z.ltb_spec (zlen A) off); [lia|]. cbn [orb]. rewrite (u32_sub_ge (zlen A)) by lia.
  destruct (Z.ltb_spec (zlen A - off) sz); [lia|]. rewrite (u32_sub_ge len) by lia.
  assert (Heq : (matching c =? 0) = true) by lia.
  destruct (Z.ltb_spec (len - o) sz); simpl src_base; simpl src_size; rewrite Hs, Hz.
  - apply wp_bind, wp_mem_copy; [lia..|]. intros dst' Hdl Hin Hout. apply wp_Ok.
    destruct (Z.eqb_spec sz (len - o)); [lia|].
    unfold call_turn, call_inv, patch_measure. simpl. rewrite Heq, !u32_small by lia.
    replace (o + (len - o)) with len by lia. rewrite Z.ltb_irrefl.
    split; [|cbn [negb andb]; lia]. split_and!; try done; try lia.
    + unfold stream, ctx_ok. simpl. split_and!; try done; try lia.
      exists ops. split; [done|]. right. split_and!; try done; try lia.
      * replace (k0 + len) with (k0 + o + (len - o)) by lia. by apply copy_ok_skip; [lia|].
      * by replace (k0 + len + (sz - (len - o))) with (k0 + o + sz) by lia.
    + replace len with (o + (len - o)) by lia.
      eapply (copied_bytes o off); eauto; try lia. eapply copy_ok_less; [|done]; lia.
  - apply wp_bind, wp_mem_copy; [lia..|]. intros dst' Hdl Hin Hout. apply wp_Ok.
    rewrite Z.eqb_refl. unfold call_turn, call_inv, patch_measure. simpl.
    rewrite Heq, !u32_small by lia. split; [|cbn [negb andb]; lia].
    split_and!; try done; try lia.
    + unfold stream, ctx_ok. simpl. split_and!; try done; try lia.
      exists ops. split; [done|]. left. by rewrite Z.add_assoc.
    + eapply (copied_bytes o off); eauto; lia.
Qed.

Lemma call_body st : call_inv st -> wp (patch_body m len st) (call_turn st).
Proof.
  destruct st as [[c dst] o]. intros Hinv.
  pose proof Hinv as (H1 & (Hc & Hs & Hz & Hpb & Hps & ops & Hd & Hops) & H4 & H5 & H6).
  pose proof Hc as (C1 & C2 & C3 & C4 & C5).
  assert (Hexit : o = Z.min len (zlen B - k0) -> call_post (i32 o, c, dst)).
  { intros Hx. unfold BLOCK_HDR_SIZE in *. rewrite i32_small by lia.
    split_and!; [done|apply Hinv|done|done]. }
  assert (HB : k0 + o <= zlen B).
  { destruct Hops as [[_ Hp]|(_ & ? & _ & _ & Hp)]; apply produces_range in Hp; lia. }
  unfold patch_body. destruct (Z.ltb_spec o len) as [Ho|Ho];
    [rewrite andb_true_r|rewrite andb_false_r; apply wp_Ok, Hexit; lia].
  destruct (Z.eqb_spec (matching c) 0) as [Hm|Hm]; cbn [negb orb]; [|by apply call_resume].
  destruct Hops as [[_ Hp]|[]]; [|lia].
  inversion Hp as [Hk|k ops' Hk Hp'|k off sz ops' Hk Hsz Hoff Hesc Hend HB' Hcp Hp']; subst.
  - assert (Hl : zlen P - p_off c = 0).
    { rewrite <- (zlen_nil (A := Z)). change [] with (encode_all []). rewrite <- Hd.
      unfold zlen in *. rewrite length_drop. lia. }
    destruct (Z.ltb_spec (p_off c) (patch_size c)); [lia|]. apply wp_Ok, Hexit. lia.
  - destruct (stream_next m s c _ _ Hview Hc Hpb Hps Hd) as (Hroom & Hrd & Hnext).
    rewrite <- Z.add_assoc in Hp'. simpl encode in *. unfold patch_rd in *.
    destruct (Z.eqb_spec (at_ B (k0 + o)) ESC) as [He|He].
    + change (zlen [ESC; ESC]) with 2 in *. destruct (Z.ltb_spec (p_off c) (patch_size c)); [|lia].
      cbn [negb]. apply wp_bind, Hrd; [lia|]. simpl. rewrite u32_sub_ge by lia.
      destruct (Z.ltb_spec (patch_size c - p_off c) 2); [lia|].
      apply wp_bind, Hrd; [lia|]. simpl. rewrite <- He. by apply (call_lit _ _ _ _ ops').
    + change (zlen [at_ B (k0 + o)]) with 1 in *.
      destruct (Z.ltb_spec (p_off c) (patch_size c)); [|lia].
      cbn [negb]. apply wp_bind, Hrd; [lia|]. change (at_ [at_ B (k0 + o)] 0) with (at_ B (k0 + o)).
      destruct (Z.eqb_spec (at_ B (k0 + o)) ESC); [done|]. by apply (call_lit _ _ _ _ ops').
  - destruct (stream_next m s c _ _ Hview Hc Hpb Hps Hd) as (Hroom & Hrd & Hnext).
    change (zlen (encode (Copy off sz))) with 6 in *.
    destruct (Z.ltb_spec (p_off c) (patch_size c)); [|lia]. cbn [negb].
    apply wp_bind, Hrd; [lia|]. simpl. rewrite u32_sub_ge by lia.
    destruct (Z.ltb_spec (patch_size c - p_off c) 2); [lia|].
    apply wp_bind, Hrd; [lia|]. unfold at_. simpl.
    destruct (Z.eqb_spec (Z.land (Z.shiftr off 16) 255) ESC); [done|].
    by apply (call_block _ _ _ off sz ops'); try lia.
Qed.

Lemma wb_patch_call c :
  stream k0 c -> wp (wb_patch m c dst0 len) call_post.
Proof.
  intros Hc. unfold wb_patch. case_if; [lia|].
  apply (wp_loop call_inv (patch_measure len)).
  - intros st Hst. eapply wp_mono; [by apply call_body|]. by intros [].
  - unfold BLOCK_HDR_SIZE in *. split_and!; try done; try lia. by rewrite Z.add_0_r.
  - destruct Hc as ((C1 & C2 & _) & _). unfold patch_measure, patch_fuel. case_if; lia.
Qed.
End Call.

(** The contexts of a patching run: [wb_patch_init], then calls inside one
    sector at a time, each on the memory that sector is patched in. *)
Inductive patching : Z -> wb_patch_ctx -> Prop :=
| patching_start c : wb_patch_init sb (zlen A) pb (zlen P) = Some c -> patching 0 c
| patching_call k c m s dst len r c' dst' :
    patching k c -> patch_view m s -> s * SS <= k -> k + len <= (s + 1) * SS ->
    BLOCK_HDR_SIZE <= len < 2 ^ 31 -> len <= zlen dst ->
    wb_patch m c dst len = Ok (r, c', dst') -> patching (k + r) c'.

Lemma patching_stream ops k c :
  0 < SS -> 0 < zlen A < 2 ^ 31 -> 0 < zlen B < 2 ^ 31 ->
  P = encode_all ops -> produces 0 ops -> patching k c -> stream k c.
Proof.
  intros HSS HA HB HP Hops. induction 1 as [c Hc|k c m s dst len r c' dst' _ IH Hv H1 H2 H3 H4 Hr].
  - pose proof (produces_len _ _ Hops) as Hl. rewrite <- HP in Hl. pose proof (zlen_nonneg P).
    unfold wb_patch_init in Hc. case_if_in Hc; [done|]. injection Hc as <-.
    unfold stream, ctx_ok. simpl. split_and!; try done; try lia.
    exists ops. rewrite drop_0. split; [done|]. by left.
  - assert (Hw : wp (wb_patch m c dst len) (call_post k len dst)) by (eapply wb_patch_call; eauto).
    rewrite Hr in Hw. destruct Hw as (_ & Hs & _). done.
Qed.

End Rebuild.
