(* ===== verification/DeltaDiff.v ===== *)
(** * DeltaDiff: what [wb_diff] emits, and the round trip

    Every call of [wb_diff] emits operations that yield the next part of the
    new image from the mixed contents of the partition, so the patch of the
    signing tool rebuilds the new image under [wb_patch]. *)

From Stdlib Require Import ZArith Lia.
From stdpp Require Import prelude.
From S2P Require Import Prelude Flash Delta DeltaPatch.

Local Open Scope Z_scope.

Local Arguments at_ : simpl never.
Local Arguments zlen : simpl never.

Section Diff.
Context (SS : Z) (A B : list Z).
Context (HSS : 8 <= SS < 2 ^ 16) (HA : 0 < zlen A < 2 ^ 24) (HB : 0 < zlen B <= zlen A).

(** The context of a run that has dealt with [k] bytes of B. *)
Definition dctx (k : Z) : wb_diff_ctx := mkDiff A B (zlen A) (zlen B) k.

Lemma mem_eq_spec (a b : list Z) i j n (Q : bool -> Prop) :
  0 <= i -> i + n <= zlen a -> 0 <= j -> j + n <= zlen b ->
  (forall r : bool, (r = true -> forall x, 0 <= x < n -> at_ a (i + x) = at_ b (j + x)) -> Q r) ->
  wp (mem_eq a i b j n) Q.
Proof.
  intros H1 H2 H3 H4 HQ. unfold mem_eq.
  destruct (Z.leb_spec 0 i), (Z.leb_spec (i + n) (zlen a)), (Z.leb_spec 0 j),
    (Z.leb_spec (j + n) (zlen b)); try lia. cbn [andb]. apply wp_Ok, HQ.
  intros E%bool_decide_eq_true x Hx. rewrite <- (at_slice a i n x), E, at_slice by lia. done.
Qed.

(** A block that may go into the patch at [k]. *)
Definition good_copy (k off sz : Z) : Prop :=
  6 <= sz < 2 ^ 16 /\ 0 <= off < 2 ^ 24 /\ Z.land (Z.shiftr off 16) 0xFF <> ESC /\
  off + sz <= zlen A /\ k + sz <= zlen B /\ copy_ok SS A B k off sz.

Lemma extend_a_spec k pa (Q : Z * Z -> Prop) :
  0 <= k -> k + 6 <= zlen B -> 6 <= SS - k mod SS -> 0 <= pa -> pa + 6 <= zlen A ->
  (forall x, 0 <= x < 6 -> at_ A (pa + x) = at_ B (k + x)) ->
  (forall sz, 6 <= sz < 2 ^ 16 -> pa + sz <= zlen A -> k + sz <= zlen B ->
     k mod SS + sz <= SS -> (forall x, 0 <= x < sz -> at_ A (pa + x) = at_ B (k + x)) -> Q (sz, k + sz)) ->
  wp (extend_a SS (dctx k) k pa) Q.
Proof.
  intros Hk HkB Hpg Hpa HpaA Heq HQ. unfold extend_a, BLOCK_HDR_SIZE.
  assert (Hmod : 0 <= k mod SS) by (apply Z.mod_pos_bound; lia).
  apply (wp_loop (fun '(p, ob, ml) => p = pa + ml /\ ob = k + ml /\ 6 <= ml /\
      pa + ml <= zlen A /\ k + ml <= zlen B /\ k mod SS + ml <= SS /\
      forall x, 0 <= x < ml -> at_ A (pa + x) = at_ B (k + x))
    (fun '(p, _, _) => Z.to_nat (zlen A - p))).
  - intros [[p ob] ml] (-> & -> & I1 & I2 & I3 & I4 & I5). simpl size_a. simpl size_b.
    assert (Hdone : Q (ml, k + ml)) by (apply HQ; try done; lia).
    case_if; [done|]. apply wp_bind, wp_rd; [simpl; lia|]. apply wp_bind, wp_rd; [simpl; lia|].
    simpl. case_if; [done|]. case_if; [done|]. case_if; [done|]. apply wp_Ok.
    assert (Hnext : k mod SS + (ml + 1) < SS).
    { pose proof (Z.div_mod k SS). pose proof (Z.div_mod (k + ml + 1) SS).
      pose proof (Z.mod_pos_bound (k + ml + 1) SS). nia. }
    rewrite u32_small, u16_small by lia.
    split; [|lia]. split_and!; try lia. intros x Hx.
    destruct (decide (x = ml)) as [->|]; [lia|]. apply I5. lia.
  - split_and!; try lia; [by rewrite u32_small by lia|done].
  - simpl. lia.
Qed.

Lemma extend_b_spec k pb lim (Q : Z * Z -> Prop) :
  0 <= k -> k + 6 <= zlen B -> 0 <= pb -> pb + 6 <= lim -> lim <= k ->
  (forall x, 0 <= x < 6 -> at_ B (pb + x) = at_ B (k + x)) ->
  (forall sz, 6 <= sz < 2 ^ 16 -> pb + sz <= lim -> k + sz <= zlen B ->
     (forall x, 0 <= x < sz -> at_ B (pb + x) = at_ B (k + x)) -> Q (sz, k + sz)) ->
  wp (extend_b (dctx k) lim pb) Q.
Proof.
  intros Hk HkB Hpb Hlim Hlk Heq HQ. unfold extend_b, BLOCK_HDR_SIZE, UINT16_MAX.
  apply (wp_loop (fun '(p, ob, ml) => p = pb + ml /\ ob = k + ml /\ 6 <= ml < 2 ^ 16 /\
      pb + ml <= lim /\ k + ml <= zlen B /\
      forall x, 0 <= x < ml -> at_ B (pb + x) = at_ B (k + x))
    (fun '(p, _, _) => Z.to_nat (lim - p))).
  - intros [[p ob] ml] (-> & -> & I1 & I2 & I3 & I5). simpl size_b.
    assert (Hdone : Q (ml, k + ml)) by (apply HQ; try done; lia).
    case_if; [done|]. apply wp_bind, wp_rd; [simpl; lia|]. apply wp_bind, wp_rd; [simpl; lia|].
    simpl. case_if; [done|]. case_if; [done|]. apply wp_Ok.
    rewrite u32_small, u16_small by lia.
    split; [|lia]. split_and!; try lia. intros x Hx.
    destruct (decide (x = ml)) as [->|]; [lia|]. apply I5. lia.
  - split_and!; try lia; [by rewrite u32_small by (simpl; lia)|done].
  - simpl. lia.
Qed.

(** What a search may answer. *)
Definition search_ok (k : Z) (r : search) : Prop :=
  match r with
  | NotFound => True
  | TooFar => False
  | Found ob hdr => exists off sz, hdr = block_hdr off sz /\ ob = k + sz /\ good_copy k off sz
  end.

Lemma search_a_spec k p len :
  0 <= k -> k + 6 <= zlen B -> wp (search_a SS (dctx k) p len) (search_ok k).
Proof.
  intros Hk HkB. unfold search_a, BLOCK_HDR_SIZE, BLOCK_OFF_MAX. simpl off_b.
  assert (Hpage : 0 <= k / SS) by (apply Z.div_pos; lia).
  apply (wp_loop (fun pa => SS * (k / SS) <= pa) (fun pa => Z.to_nat (zlen A - pa))); [|lia|simpl; nia].
  intros pa Hpa. simpl size_a. simpl size_b. assert (0 <= pa) by nia.
  case_if; [done|]. case_if; [done|]. rewrite u32_small by lia. case_if; [done|].
  case_if; [done|]. apply wp_bind, mem_eq_spec; simpl; try lia. intros [|] Heq;
    [specialize (Heq eq_refl)|apply wp_Ok; lia].
  case_if; [lia|]. case_if; [apply wp_Ok; lia|].
  apply wp_bind, extend_a_spec; try lia; [done|]. intros sz Hsz HszA HszB Hpg Hall.
  apply wp_Ok. exists pa, sz. split_and!; [done..|]. split_and!; try done; try lia.
  intros j Hj. assert (Hd : (k + j) / SS = k / SS).
  { pose proof (Z.div_mod k SS). symmetry. apply (Z.div_unique _ _ _ (k mod SS + j)); [|lia].
    pose proof (Z.mod_pos_bound k SS). lia. }
  unfold mixed. rewrite Hd. destruct (Z.ltb_spec (pa + j) (k / SS * SS)); [lia|]. by apply Hall.
Qed.

Lemma search_b_spec k p len :
  0 <= k -> k + 6 <= zlen B -> wp (search_b SS (dctx k) p len) (search_ok k).
Proof.
  intros Hk HkB. unfold search_b, BLOCK_HDR_SIZE, BLOCK_OFF_MAX. simpl off_b.
  assert (Hpage : 0 <= k / SS) by (apply Z.div_pos; lia).
  assert (Hlk : k / SS * SS <= k) by (pose proof (Z.mul_div_le k SS); lia).
  apply (wp_loop (fun pb => 0 <= pb) (fun pb => Z.to_nat (k / SS * SS - pb))); [|lia|lia].
  intros pb Hpb. simpl size_b.
  case_if; [done|]. rewrite u32_small by lia. case_if; [done|]. case_if; [done|].
  case_if; [done|]. apply wp_bind, mem_eq_spec; simpl; try lia. intros [|] Heq;
    [specialize (Heq eq_refl)|apply wp_Ok; lia].
  case_if; [lia|]. case_if; [apply wp_Ok; lia|].
  apply wp_bind, extend_b_spec; try lia; [done|]. intros sz Hsz Hend HszB Hall.
  apply wp_Ok. exists pb, sz. split_and!; [done..|]. split_and!; try done; try lia.
  intros j Hj. assert (Hd : k / SS <= (k + j) / SS) by (apply Z.div_le_mono; lia).
  unfold mixed. destruct (Z.ltb_spec (pb + j) ((k + j) / SS * SS)); [|nia]. by apply Hall.
Qed.

(** Operations that lead from position [k] of B to position [k']. *)
Definition extends (k : Z) (ops : list op) (k' : Z) : Prop :=
  forall rest, produces SS A B k' rest -> produces SS A B k (ops ++ rest).

Lemma extends_nil k : extends k [] k.
Proof. by intros rest. Qed.

Lemma extends_snoc k ops k1 x k2 : extends k ops k1 -> extends k1 [x] k2 -> extends k (ops ++ [x]) k2.
Proof. intros H1 H2 rest Hr. rewrite <- app_assoc. by apply H1, H2. Qed.

Lemma extends_app k ops k1 ops' k2 : extends k ops k1 -> extends k1 ops' k2 -> extends k (ops ++ ops') k2.
Proof. intros H1 H2 rest Hr. rewrite <- app_assoc. by apply H1, H2. Qed.

Lemma extends_copy k off sz : 0 <= k -> good_copy k off sz -> extends k [Copy off sz] (k + sz).
Proof. intros Hk (H1 & H2 & H3 & H4 & H5 & H6) rest Hr. by constructor. Qed.

Lemma extends_lit k : 0 <= k < zlen B -> extends k [Lit (at_ B k)] (k + 1).
Proof. intros Hk rest Hr. by constructor. Qed.

(** The patch buffer holds the operations from [k] to [k'], and [p] bytes. *)
Definition emitted (k : Z) (buf : list Z) (p k' : Z) : Prop :=
  k <= k' <= zlen B /\ ((p = 0 /\ k' = k) \/ (0 < p /\ k < k')) /\
  exists ops, slice buf 0 p = encode_all ops /\ extends k ops k'.

Lemma encode_all_snoc ops x : encode_all (ops ++ [x]) = encode_all ops ++ encode x.
Proof. unfold encode_all. rewrite bind_app. simpl. by rewrite app_nil_r. Qed.

(** Appending one operation to the patch buffer. *)
Lemma emit_op k buf p k' buf' x k2 :
  emitted k buf p k' -> 0 <= p -> zlen buf' = zlen buf -> p + zlen (encode x) <= zlen buf ->
  (forall i, 0 <= i < p -> at_ buf' i = at_ buf i) ->
  (forall i, 0 <= i < zlen (encode x) -> at_ buf' (p + i) = at_ (encode x) i) ->
  0 < zlen (encode x) -> extends k' [x] k2 -> k' < k2 <= zlen B ->
  emitted k buf' (p + zlen (encode x)) k2.
Proof.
  intros (Hk & Hp & ops & Hs & He) H0 Hl Hr Hold Hnew Hx Hext Hk2.
  split_and!; [lia..|]. exists (ops ++ [x]). split; [|by eapply extends_snoc].
  rewrite encode_all_snoc, <- Hs, slice_split by lia. f_equal.
  - apply buf_ext; rewrite !slice_length by lia; [done|]. intros i Hi.
    rewrite !at_slice by lia. apply Hold. lia.
  - apply buf_ext; rewrite slice_length by lia; [done|]. intros i Hi.
    rewrite at_slice by lia. by apply Hnew.
Qed.

(** One call of [wb_diff], from position [k]. *)
Section Call.
Context (k len : Z).
Context (Hk : 0 <= k) (Hlen : 8 <= len < 2 ^ 31).

(** State of both loops of a call. *)
Definition diff_inv (st : wb_diff_ctx * list Z * Z) : Prop :=
  let '(c, buf, p) := st in
  exists k', c = dctx k' /\ zlen buf = len /\ 0 <= p <= len /\ emitted k buf p k'.

Definition diff_measure (st : wb_diff_ctx * list Z * Z) : nat :=
  let '(c, _, _) := st in Z.to_nat (zlen B - off_b c).

(** The next byte goes out as a literal, unless it is an escape too many. *)
Lemma put_literal_spec k' buf p (Q : option (wb_diff_ctx * list Z * Z) -> Prop) :
  diff_inv (dctx k', buf, p) -> k' < zlen B -> p < len - 6 ->
  (len - 6 <= p + 1 -> Q None) ->
  (forall st', diff_inv st' -> (diff_measure st' < diff_measure (dctx k', buf, p))%nat -> Q (Some st')) ->
  wp (put_literal (dctx k') buf p len) Q.
Proof.
  intros (k1 & [= <-] & Hb & Hp & He) Hk' Hroom HN HS. pose proof He as (Hkk & _).
  unfold put_literal, BLOCK_HDR_SIZE. simpl off_b. simpl src_b.
  apply wp_bind, wp_rd; [lia|].
  assert (Hst : forall buf', zlen buf' = zlen buf ->
    (forall i, 0 <= i < p -> at_ buf' i = at_ buf i) ->
    (forall i, 0 <= i < zlen (encode (Lit (at_ B k'))) ->
       at_ buf' (p + i) = at_ (encode (Lit (at_ B k'))) i) ->
    p + zlen (encode (Lit (at_ B k'))) <= len ->
    Q (Some (dctx (k' + 1), buf', p + zlen (encode (Lit (at_ B k')))))).
  { intros buf' Hl Ho Hn Hr.
    assert (0 < zlen (encode (Lit (at_ B k')))) by (simpl; case_if; done).
    apply HS; [|simpl; lia]. exists (k' + 1). split_and!; [done|lia|lia|lia|].
    eapply emit_op; eauto; try lia. apply extends_lit. lia. }
  unfold set_off_b. simpl. rewrite u32_small by lia. simpl in Hst.
  case_if.
  - case_if; [by apply wp_Ok, HN; lia|].
    apply wp_bind, wp_wr; [lia|]. apply wp_bind, wp_wr; [rewrite zlen_insert; lia|].
    change (zlen [ESC; ESC]) with 2 in Hst.
    apply wp_Ok, Hst; [by rewrite !zlen_insert|..|lia].
    + intros i Hi. by rewrite !at_insert_ne by lia.
    + intros i Hi. assert (i = 0 \/ i = 1) as [-> | ->] by lia.
      * rewrite Z.add_0_r, at_insert_ne, at_insert_eq by lia. done.
      * rewrite at_insert_eq by (rewrite zlen_insert; lia). done.
  - apply wp_bind, wp_wr; [lia|].
    change (zlen [at_ B k']) with 1 in Hst. apply wp_Ok, Hst; [by rewrite zlen_insert|..|lia].
    + intros i Hi. by rewrite at_insert_ne by lia.
    + intros i Hi. assert (i = 0) as -> by lia. rewrite Z.add_0_r, at_insert_eq by lia. done.
Qed.

Lemma diff_body_spec st :
  diff_inv st -> wp (diff_body SS len st) (fun x =>
    match x with
    | inl st' => diff_inv st' /\ (diff_measure st' < diff_measure st)%nat
    | inr (inl st') => diff_inv st'
    | inr (inr _) => False
    end).
Proof.
  destruct st as [[c buf] p]. intros Hinv. pose proof Hinv as (k' & -> & Hb & Hp & He).
  pose proof He as (Hkk & _). unfold diff_body, BLOCK_HDR_SIZE. simpl off_b. simpl size_b.
  destruct (Z.ltb_spec (k' + 6) (zlen B)); [|done]. destruct (Z.ltb_spec (p + 6) len); [|done].
  cbn [andb negb]. destruct (Z.ltb_spec len (p + 6)); [lia|].
  eapply wp_bind_mono; [by apply search_a_spec; lia|]. intros ra Ha.
  eapply (wp_bind_mono _ _ (search_ok k')).
  { destruct ra; [by apply search_b_spec; lia|done|done]. }
  intros [| |ob hdr]; [|done|].
  - intros _. apply wp_bind, put_literal_spec; try done; try lia.
  - intros (off & sz & -> & -> & Hg). pose proof Hg as (Hsz & _ & _ & _ & HszB & _).
    apply wp_bind, wp_blit; [lia|change (zlen (block_hdr off sz)) with 6; lia|].
    change (zlen (block_hdr off sz)) with 6. intros buf' Hl Hin Hout. apply wp_Ok.
    split; [|simpl; lia]. exists (k' + sz). split_and!; [done|lia|lia|lia|].
    apply (emit_op k buf p k' buf' (Copy off sz) (k' + sz)); try done; try lia;
      change (zlen (encode (Copy off sz))) with 6; try lia; [|by apply extends_copy; [lia|]].
    intros i Hi. apply Hout; lia.
Qed.

Lemma diff_tail_spec st :
  diff_inv st -> k < zlen B -> wp (diff_tail len st) (fun x =>
    match x with
    | inl st' => diff_inv st' /\ (diff_measure st' < diff_measure st)%nat
    | inr (r, c', buf') => 0 < r /\ diff_inv (c', buf', r)
    end).
Proof.
  destruct st as [[c buf] p]. intros Hinv HkB. pose proof Hinv as (k' & -> & Hb & Hp & He).
  pose proof He as (Hkk & Hprog & _). unfold diff_tail, BLOCK_HDR_SIZE. simpl off_b. simpl size_b.
  rewrite i32_small by lia.
  destruct (Z.ltb_spec p (len - 6)); [|split; [lia|done]].
  destruct (Z.ltb_spec k' (zlen B)); [|split; [lia|done]]. cbn [andb negb].
  apply wp_bind, put_literal_spec; try done. intros ?. split; [lia|done].
Qed.

Lemma wb_diff_spec buf :
  k < zlen B -> zlen buf = len ->
  wp (wb_diff SS (dctx k) buf len) (fun '(r, c', buf') => 0 < r /\ diff_inv (c', buf', r)).
Proof.
  intros HkB Hb. unfold wb_diff, BLOCK_HDR_SIZE. simpl size_b. simpl off_b.
  destruct (Z.leb_spec (zlen B) k); [lia|]. destruct (Z.ltb_spec len 6); [lia|].
  eapply (wp_bind_mono _ _ (fun x => match x with inl st => diff_inv st | inr _ => False end)).
  - apply (wp_loop diff_inv diff_measure).
    + intros st Hst. eapply wp_mono; [by apply diff_body_spec|]. by intros [|[|]].
    + exists k. split_and!; try done; try lia. split_and!; [lia..|].
      exists []. split; [done|apply extends_nil].
    + simpl. lia.
  - intros [st|]; [|done]. intros Hst.
    assert (Hsz : size_b (fst (fst st)) = zlen B) by (destruct st as [[? ?] ?], Hst as (? & -> & _); done).
    apply (wp_loop diff_inv diff_measure); [|done|].
    + intros st' Hst'. eapply wp_mono; [by apply diff_tail_spec|]. by intros [|[[]]].
    + rewrite Hsz. destruct st as [[? ?] ?]. simpl. lia.
Qed.
End Call.

(** The patch of the signing tool is a list of operations that yields B. *)
Lemma make_patch_spec buf len :
  8 <= len < 2 ^ 31 -> zlen buf = len ->
  wp (make_patch SS (dctx 0) buf len) (fun r =>
    exists ops, r = Some (encode_all ops) /\ produces SS A B 0 ops).
Proof.
  intros Hlen Hb. unfold make_patch. simpl size_b.
  apply (wp_loop (fun '(c, buf, out) => exists k ops, c = dctx k /\ zlen buf = len /\
      0 <= k <= zlen B /\ out = encode_all ops /\ extends 0 ops k)
    (fun '(c, _, _) => Z.to_nat (zlen B - off_b c))).
  - intros [[c bf] out] (k & ops & -> & Hbf & Hk & -> & He).
    destruct (decide (k < zlen B)) as [HkB|HkB].
    + eapply wp_bind_mono; [by apply wb_diff_spec; [lia|..]|].
      intros [[r c'] bf'] (Hr & k' & -> & Hb' & Hp & (Hkk & Hprog & ops' & Hs & He')).
      destruct (Z.ltb_spec r 0); [lia|]. destruct (Z.ltb_spec 0 r); [|lia]. apply wp_Ok.
      split; [|simpl; lia]. exists k', (ops ++ ops'). split_and!; try done; try lia.
      * rewrite Hs. unfold encode_all. by rewrite bind_app.
      * by eapply extends_app.
    + unfold wb_diff. simpl. destruct (Z.leb_spec (zlen B) k); [|lia]. simpl.
      exists ops. unfold slice. rewrite app_nil_r. split; [done|].
      rewrite <- (app_nil_r ops). apply He. replace k with (zlen B) by lia. constructor.
  - exists 0, []. split_and!; try done; try lia. apply extends_nil.
  - simpl. lia.
Qed.

End Diff.

(** C9: A delta update rebuilds the new image.  The signing tool always gets a
    patch for a new image B no longer than the old one A, which is below 16 MiB (the offsets of
    a patch have 24 bits); whatever calls of
    [wb_patch] have been made so far, each inside one sector and on a partition
    whose finished sectors hold B and the others A, the next such call returns
    the number of bytes still wanted, at most [len], and those bytes are the
    next ones of B.  For a longer B the statement fails. *)
Theorem delta_roundtrip SS A B c buf blksz :
  8 <= SS < 2 ^ 16 -> 0 < zlen A < 2 ^ 24 -> 0 < zlen B <= zlen A ->
  wb_diff_init A (zlen A) B (zlen B) = Some c -> zlen buf = blksz -> 8 <= blksz < 2 ^ 31 ->
  exists P, make_patch SS c buf blksz = Ok (Some P) /\
    forall sb pb k c', patching SS A B sb pb P k c' ->
    forall m s dst len, patch_view SS A B sb pb P m s -> s * SS <= k -> k + len <= (s + 1) * SS ->
      BLOCK_HDR_SIZE <= len < 2 ^ 31 -> len <= zlen dst ->
      exists c'' dst', wb_patch m c' dst len = Ok (Z.min len (zlen B - k), c'', dst') /\
        forall i, 0 <= i < Z.min len (zlen B - k) -> at_ dst' i = at_ B (k + i).
Proof.
  intros HSS HA HB Hc Hbuf Hblk. unfold wb_diff_init in Hc. case_if_in Hc; [done|].
  injection Hc as <-. edestruct (wp_inv _ _ (make_patch_spec SS A B HSS HA HB buf blksz Hblk Hbuf))
    as (r & Hr & ops & -> & Hops).
  exists (encode_all ops). split; [done|]. intros sb pb k c' Hpt m s dst len Hv H1 H2 Hl Hd.
  assert (Hst : stream SS A B sb pb (encode_all ops) k c').
  { eapply (patching_stream _ _ _ _ _ _ ops); try done; lia. }
  edestruct (wp_inv _ _ (wb_patch_call SS A B sb pb _ m s k len dst Hv (conj H1 H2) Hl Hd c' Hst))
    as ([[ret c2] dst'] & Hw & -> & _ & _ & Hbytes).
  exists c2, dst'. done.
Qed.

(** ** Examples *)

Module ExampleDelta.

(** Memory with image [img] at 0 and patch [p] at 4096. *)
Definition memory (img p : list Z) : mem :=
  fun a => if a <? 4096 then at_ img a else at_ p (a - 4096).

(** An old and a new image, three sectors of 16 bytes each. *)
Definition old : list Z := seqZ 1 48.
Definition new : list Z := seqZ 1 20 ++ [ESC; 3; ESC] ++ seqZ 100 9 ++ seqZ 1 16.

(** A new image longer than the old one, whose last sector repeats its
    second. *)
Definition short : list Z := seqZ 1 16.
Definition grown : list Z := short ++ seqZ 150 16 ++ seqZ 50 16 ++ seqZ 150 16.

(** Its patch, and a context at position [p] of it. *)
Definition grown_patch : list Z :=
  [ESC; 0; 0; 0; 0; 15] ++ [16] ++ seqZ 150 16 ++ seqZ 50 16 ++ [ESC; 0; 0; 16; 0; 16].
Definition grown_ctx (p : Z) : wb_patch_ctx := mkPatch 0 16 4096 45 p 0 0 0.

End ExampleDelta.

Lemma delta_roundtrip_witness :
  exists P c0 c1 dst, make_patch 16 (dctx ExampleDelta.old ExampleDelta.new 0) (replicate 16 0) 16 = Ok (Some P) /\
    wb_patch_init 0 48 4096 (zlen P) = Some c0 /\
    wb_patch (ExampleDelta.memory ExampleDelta.old P) c0 (replicate 16 0) 16 = Ok (16, c1, dst) /\
    forall i, 0 <= i < 16 -> at_ dst i = at_ ExampleDelta.new i.
Proof.
  destruct (delta_roundtrip 16 ExampleDelta.old ExampleDelta.new
    (dctx ExampleDelta.old ExampleDelta.new 0) (replicate 16 0) 16) as (P & HP & H);
    [lia|vm_compute; done|vm_compute; split; congruence|reflexivity|reflexivity|lia|].
  assert (Hc0 : wb_patch_init 0 48 4096 (zlen P) = Some (mkPatch 0 48 4096 (zlen P) 0 0 0 0)).
  { vm_compute in HP. injection HP as <-. reflexivity. }
  destruct (H 0 4096 0 (mkPatch 0 48 4096 (zlen P) 0 0 0 0)
    (patching_start 16 ExampleDelta.old ExampleDelta.new 0 4096 P _ Hc0)
    (ExampleDelta.memory ExampleDelta.old P) 0 (replicate 16 0) 16) as (c1 & dst & Hw & Hd).
  - split.
    + intros i Hi. unfold ExampleDelta.memory. destruct (Z.ltb_spec (4096 + i) 4096); [lia|].
      f_equal. lia.
    + intros j Hj. change (zlen ExampleDelta.old) with 48 in Hj. unfold ExampleDelta.memory, mixed.
      destruct (Z.ltb_spec (0 + j) 4096); [|lia]. destruct (Z.ltb_spec j (0 * 16)); [lia|done].
  - lia.
  - lia.
  - unfold BLOCK_HDR_SIZE. lia.
  - reflexivity.
  - eexists P, _, c1, dst. split; [exact HP|]. split; [exact Hc0|].
    change (Z.min 16 (zlen ExampleDelta.new - 0)) with 16 in *. split; [exact Hw|exact Hd].
Defined.

Lemma wb_patch_safe_witness :
  exists r, wb_patch (ExampleDelta.memory ExampleDelta.old [ESC; 0; 0; 2; 0; 40; 9])
      (mkPatch 0 48 4096 7 0 0 0 0) (replicate 16 0) 16 = Ok r /\
    patch_post (mkPatch 0 48 4096 7 0 0 0 0) (replicate 16 0) 16 r.
Proof.
  apply wb_patch_safe; [unfold ctx_ok; simpl; lia|unfold BLOCK_HDR_SIZE; lia|].
  vm_compute. discriminate.
Defined.

(** One sector of the longer image is patched. *)
Lemma grown_step s p p' :
  let m := ExampleDelta.memory ExampleDelta.grown ExampleDelta.grown_patch in
  let run k q := patching 16 ExampleDelta.short ExampleDelta.grown 0 4096 ExampleDelta.grown_patch k
    (ExampleDelta.grown_ctx q) in
  run (s * 16) p -> 0 <= s <= 2 ->
  patch_view 16 ExampleDelta.short ExampleDelta.grown 0 4096 ExampleDelta.grown_patch m s ->
  wb_patch m (ExampleDelta.grown_ctx p) (replicate 16 0) 16 =
    Ok (16, ExampleDelta.grown_ctx p', slice ExampleDelta.grown (s * 16) 16) ->
  run ((s + 1) * 16) p'.
Proof.
  intros m run Hrun Hs Hv Hw. unfold run. replace ((s + 1) * 16) with (s * 16 + 16) by lia.
  refine (patching_call _ _ _ _ _ _ (s * 16) _ m s (replicate 16 0) 16 16 _ _ Hrun Hv _ _ _ _ Hw);
    [lia|lia|unfold BLOCK_HDR_SIZE; lia|vm_compute; congruence].
Qed.

(** A delta update to a longer image can be refused half way.  The bootloader
    bounds every block by the size of the old image, but the signing tool also
    refers to earlier sectors of the new one: here the patch is made without
    error and its first three sectors are applied, then [wb_patch] returns -1 on
    the last, which repeats the second. *)
Theorem delta_growth_rejected :
  exists A B P c m s k, make_patch 16 (dctx A B 0) (replicate 16 0) 16 = Ok (Some P) /\
    patching 16 A B 0 4096 P k c /\ patch_view 16 A B 0 4096 P m s /\
    (forall j, 0 <= j < k -> m j = at_ B j) /\ k = s * 16 /\ k < zlen B /\
    exists c' dst, wb_patch m c (replicate 16 0) 16 = Ok (-1, c', dst).
Proof.
  pose proof (eq_refl : zlen ExampleDelta.short = 16) as HA.
  exists ExampleDelta.short, ExampleDelta.grown, ExampleDelta.grown_patch, (ExampleDelta.grown_ctx 39),
    (ExampleDelta.memory ExampleDelta.grown ExampleDelta.grown_patch), 3, 48.
  assert (Hview : forall s, patch_view 16 ExampleDelta.short ExampleDelta.grown 0 4096
    ExampleDelta.grown_patch (ExampleDelta.memory ExampleDelta.grown ExampleDelta.grown_patch) s).
  { intros s. split; intros i Hi; unfold ExampleDelta.memory.
    - rewrite (proj2 (Z.ltb_ge (4096 + i) 4096)) by lia. f_equal. lia.
    - rewrite HA in Hi. rewrite Z.add_0_l, (proj2 (Z.ltb_lt i 4096)) by lia.
      unfold mixed, ExampleDelta.grown. case_if; [reflexivity|]. by rewrite at_app_l. }
  split; [vm_compute; reflexivity|]. split.
  { apply (grown_step 2 23 39); [|lia|apply Hview|vm_compute; reflexivity].
    apply (grown_step 1 7 23); [|lia|apply Hview|vm_compute; reflexivity].
    apply (grown_step 0 0 7); [|lia|apply Hview|vm_compute; reflexivity].
    apply patching_start. vm_compute. reflexivity. }
  split; [apply Hview|]. split.
  { intros j Hj. unfold ExampleDelta.memory. rewrite (proj2 (Z.ltb_lt j 4096)) by lia.
    reflexivity. }
  split; [reflexivity|]. split; [reflexivity|]. eexists _, _. vm_compute. reflexivity.
Qed.
