(* ===== verification/DeltaUpdate.v ===== *)
(** * DeltaUpdate: applying a delta update (update_flash.c, DELTA_UPDATES)

    [wolfBoot_delta_update] patches BOOT sector by sector through SWAP, with
    the progress in the sector flags of UPDATE, on top of [wb_patch]. *)

From Stdlib Require Import ZArith Lia.
From stdpp Require Import prelude.
From S2P Require Import Prelude Flash Trailer Image UpdateFlash Delta.

Local Open Scope Z_scope.

Definition HDR_IMG_DELTA_SIZE : Z := 0x06.
Definition HDR_IMG_DELTA_BASE_HASH : Z := 0x07.
Definition HDR_IMG_DELTA_INVERSE : Z := 0x15.
Definition HDR_IMG_DELTA_INVERSE_SIZE : Z := 0x16.

(** What [wolfBoot_get_delta_info] finds: addresses of the offset (NULL for a
    forward patch), of the size and of the hash of the base image. *)
Record delta_info : Type := mkInfo {
  img_offset : option Z;
  img_size : option Z;
  base_hash : option Z;
  base_hash_size : Z;
}.

Section DeltaUpdate.
Context {c : config}.
Context (DELTA_BLOCK_SIZE : Z).

(** [None] is the error return. *)
Definition wolfBoot_get_delta_info (m : mem) (part inverse : Z) : outcome (option delta_info) :=
  let image := wolfBoot_get_image_from_part part in
  if negb (mle32 m image =? WOLFBOOT_MAGIC) then Ok None else
  let find := wolfBoot_find_header m (image + IMAGE_HEADER_OFFSET) in
  if negb (inverse =? 0) then
    let! (n, offset) := find HDR_IMG_DELTA_INVERSE in
    if negb (n =? 4) then Ok None else
    let! (n, size) := find HDR_IMG_DELTA_INVERSE_SIZE in
    if negb (n =? 4) then Ok None else
    let! (hash_size, hash) := find HDR_IMG_DELTA_BASE_HASH in
    Ok (Some (mkInfo offset size hash hash_size))
  else
    let! (n, size) := find HDR_IMG_DELTA_SIZE in
    if negb (n =? 4) then Ok None else
    let! (hash_size, hash) := find HDR_IMG_DELTA_BASE_HASH in
    Ok (Some (mkInfo None size hash hash_size)).

(** The checks on versions and base digest that allow the patch. *)
Definition delta_allowed (m : mem) (boot : wolfBoot_image) (inverse resume cur_v upd_v delta_base_v : Z)
    (delta_base_hash : option Z) : outcome bool :=
  let! (base_hash_sz, base) := wolfBoot_find_header m (hdr boot + IMAGE_HEADER_OFFSET) HDR_SHA256 in
  if negb (inverse =? 0) then
    Ok (negb (resume =? 0) || ((cur_v =? upd_v) && (delta_base_v <=? cur_v)) ||
        ((cur_v =? delta_base_v) && (cur_v <=? upd_v)))
  else if (resume =? 0) && negb (cur_v =? delta_base_v) then Ok false
  else if resume =? 0 then
    match delta_base_hash with
    | None => Ok true
    | Some dh =>
        match base with
        | None => Ok false
        | Some bh =>
            if negb (base_hash_sz =? WOLFBOOT_SHA_DIGEST_SIZE) then Ok false else
            let! cmp := wolfBoot_hardened_CT_compare (mread m bh WOLFBOOT_SHA_DIGEST_SIZE)
              (mread m dh WOLFBOOT_SHA_DIGEST_SIZE) WOLFBOOT_SHA_DIGEST_SIZE in
            Ok (cmp =? 0)
        end
    end
  else Ok true.

(** The next sector of the patched image: each block goes through [emit] with
    its offset in the sector.  The context and block buffer afterwards, and
    the last value of [wb_patch] when it failed. *)
Definition patch_sector (emit : Z -> list Z -> prog unit) (ctx : wb_patch_ctx) (blk : list Z)
    : prog (wb_patch_ctx * list Z * option Z) :=
  ploop (S (Z.to_nat WOLFBOOT_SECTOR_SIZE)) (fun '(ctx, blk, len) =>
    if negb (len <? WOLFBOOT_SECTOR_SIZE) then Ret (inr (ctx, blk, None)) else
    let* m := look in
    let* (ret, ctx, blk) := lift (wb_patch m ctx blk DELTA_BLOCK_SIZE) in
    if 0 <? ret then
      let* _ := emit len (slice blk 0 ret) in
      Ret (inl (ctx, blk, u32 (len + ret)))
    else if ret =? 0 then Ret (inr (ctx, blk, None))
    else Ret (inr (ctx, blk, Some ret))) (ctx, blk, 0).

(** State of the loop over sectors. *)
Record delta_state : Type := mkDelta {
  d_sector : Z;
  d_total_size : Z;
  d_ctx : wb_patch_ctx;
  d_blk : list Z;
}.

(** One sector; [inr None] leaves the loop at its end, [inr (Some r)] with an
    error. *)
Definition delta_body (boot swap : wolfBoot_image) (s : delta_state)
    : prog (delta_state + (delta_state * option Z)) :=
  let sector := d_sector s in
  if negb (i32 (sector * WOLFBOOT_SECTOR_SIZE) <? i32 (d_total_size s))
  then Ret (inr (s, None)) else
  let* (r, flag) := wolfBoot_get_update_sector_flag sector SECT_FLAG_NEW in
  let* (flag, res) :=
    (if negb (r =? 0) || (flag =? SECT_FLAG_NEW) then
       let* _ := wb_flash_erase swap 0 WOLFBOOT_SECTOR_SIZE in
       let* (ctx, blk, e) := patch_sector (fun len data =>
         let* _ := wb_flash_write swap len data in Ret tt) (d_ctx s) (d_blk s) in
       match e with
       | Some e => Ret (flag, (ctx, blk, Some e))
       | None =>
           let* _ := wolfBoot_set_update_sector_flag sector SECT_FLAG_SWAPPING in
           Ret (SECT_FLAG_SWAPPING, (ctx, blk, None))
       end
     else
       let* res := patch_sector (fun _ _ => Ret tt) (d_ctx s) (d_blk s) in
       Ret (flag, res)) in
  let '(ctx, blk, e) := res in
  match e with
  | Some e => Ret (inr (s, Some e))
  | None =>
      let* copy_ret :=
        (if flag =? SECT_FLAG_SWAPPING then
           let* copy_ret := wolfBoot_copy_sector swap boot sector in
           if copy_ret <? 0 then Ret copy_ret else
           let* _ := mark_sector sector SECT_FLAG_UPDATED in
           Ret copy_ret
         else Ret 0) in
      if copy_ret <? 0 then Ret (inr (s, Some (-1))) else
      if sector =? 0 then
        let* _ := flash_lock in
        let* m := look in
        let update_size := u32 (wolfBoot_image_size m WOLFBOOT_PARTITION_BOOT_ADDRESS + IMAGE_HEADER_SIZE) in
        let* _ := flash_unlock in
        let total_size := if d_total_size s <? update_size then update_size else d_total_size s in
        if total_size <=? IMAGE_HEADER_SIZE then Ret (inr (s, Some (-1))) else
        if WOLFBOOT_PARTITION_SIZE <? total_size then Ret (inr (s, Some (-1))) else
        Ret (inl (mkDelta (sector + 1) total_size ctx blk))
      else Ret (inl (mkDelta (sector + 1) (d_total_size s) ctx blk))
  end.

(** Erase BOOT from [sector] to its trailer sector. *)
Definition delta_erase_rest (boot : wolfBoot_image) (sector : Z) : prog Z :=
  ploop sectors_fuel (fun sector =>
    if negb (i32 (sector * WOLFBOOT_SECTOR_SIZE) <? WOLFBOOT_PARTITION_SIZE - WOLFBOOT_SECTOR_SIZE)
    then Ret (inr sector) else
    let* _ := wb_flash_erase boot (i32 (sector * WOLFBOOT_SECTOR_SIZE)) WOLFBOOT_SECTOR_SIZE in
    Ret (inl (sector + 1))) sector.

(** Everything between unlocking and the label [out]: the value of [ret]. *)
Definition delta_apply (boot update swap : wolfBoot_image) (total_size inverse resume : Z) : prog Z :=
  let* m := look in
  let* info := lift (wolfBoot_get_delta_info m PART_UPDATE inverse) in
  match info with
  | None => Ret (-1)
  | Some info =>
      let delta_img_size := mle32 m (default 0 (img_size info)) in
      let delta_img_offset :=
        if negb (inverse =? 0) then mle32 m (default 0 (img_offset info)) else IMAGE_HEADER_SIZE in
      let* cur_v := lift (wolfBoot_get_image_version m PART_BOOT) in
      let* upd_v := lift (wolfBoot_get_image_version m PART_UPDATE) in
      let* delta_base_v := lift (wolfBoot_get_diffbase_version m PART_UPDATE) in
      if negb (base_hash_size info =? WOLFBOOT_SHA_DIGEST_SIZE) && negb (base_hash_size info =? 0)
      then Ret (-1) else
      let delta_base_hash := if base_hash_size info =? 0 then None else base_hash info in
      let* ok := lift (delta_allowed m boot inverse resume cur_v upd_v delta_base_v delta_base_hash) in
      if negb ok then Ret (-1) else
      match wb_patch_init (hdr boot) (u32 (fw_size boot + IMAGE_HEADER_SIZE))
              (hdr update + delta_img_offset) delta_img_size with
      | None => Ret (-1)
      | Some ctx =>
          let* (s, e) := ploop sectors_fuel (delta_body boot swap)
            (mkDelta 0 total_size ctx (replicate (Z.to_nat DELTA_BLOCK_SIZE) 0)) in
          match e with
          | Some e => Ret e
          | None =>
              let* _ := delta_erase_rest boot (d_sector s) in
              Ret 0
          end
      end
  end.

Definition wolfBoot_delta_update (boot update swap : wolfBoot_image) (inverse resume : Z) : prog Z :=
  let* m := look in
  if (fw_size boot =? 0) && ((hdr boot =? 0) || (mle32 m (hdr boot) =? WOLFBOOT_MAGIC))
  then Ret (-1) else
  let boot := if fw_size boot =? 0
              then set_fw_size (WOLFBOOT_PARTITION_SIZE - IMAGE_HEADER_SIZE) boot else boot in
  let total_size := wolfBoot_get_total_size boot update in
  let* _ := flash_unlock in
  let* ret := delta_apply boot update swap total_size inverse resume in
  let* _ := flash_lock in
  let* _ := (if ret =? 0 then wolfBoot_swap_and_final_erase 0 else Ret 0) in
  Ret ret.

(** How [wolfBoot_update] enters it on a delta image: the direction and
    whether this is a resumed update; the trailer is set for a fallback. *)
Definition update_delta (fallback_allowed : Z) (boot update swap : wolfBoot_image)
    (flag cur_ver upd_ver : Z) : prog Z :=
  let inverse := if upd_ver <? cur_ver then 1 else 0 in
  let* (stateRet, st) := wolfBoot_get_partition_state PART_UPDATE 0 in
  if negb (flag =? SECT_FLAG_NEW) || (cur_ver =? 0) then
    let inverse :=
      if stateRet =? 0 then
        if st =? IMG_STATE_UPDATING then 0 else if cur_ver <? upd_ver then 1 else 0
      else inverse in
    wolfBoot_delta_update boot update swap inverse 1
  else if (inverse =? 0) && (fallback_allowed =? 1) && (upd_ver <=? cur_ver) then
    let* _ := flash_unlock in
    let* _ := wolfBoot_set_partition_state PART_UPDATE IMG_STATE_NEW in
    let* _ := flash_lock in
    wolfBoot_delta_update boot update swap 1 0
  else wolfBoot_delta_update boot update swap inverse 0.

End DeltaUpdate.
