(* ===== verification/DeltaResume.v ===== *)
(** * DeltaResume: an interrupted delta update to a shorter image

    A concrete delta update, run to its end and run again after a power
    failure. *)

From Stdlib Require Import ZArith Lia.
From stdpp Require Import prelude.
From S2P Require Import Prelude Flash Trailer Image UpdateFlash Delta DeltaDiff DeltaUpdate.

Local Open Scope Z_scope.

Module Shrink.

Definition cfg : config := Config 64 512 0x1000 0x2000 0x3000 64 32.
#[export] Existing Instance cfg.

(** A header with a version field and [extra] fields. *)
Definition header (size version : Z) (extra : list Z) : list Z :=
  let h := le32_bytes WOLFBOOT_MAGIC ++ le32_bytes size ++ [1; 0; 4; 0] ++ le32_bytes version ++ extra in
  h ++ replicate (64 - length h) 0.

(** An old image of four sectors and a new one of two, whose firmware is the
    last sector of the old one. *)
Definition old : list Z := header 192 1 [] ++ replicate 64 17 ++ replicate 64 34 ++ seqZ 150 64.
Definition new : list Z := header 64 2 [] ++ seqZ 150 64.

Definition patch : list Z :=
  match make_patch 64 (dctx old new 0) (replicate 64 0) 64 with Ok (Some p) => p | _ => [] end.

(** The delta image: its fields are the size of the patch and the version it
    applies to. *)
Definition delta_image : list Z :=
  header (zlen patch) 2 ([6; 0; 4; 0] ++ le32_bytes (zlen patch) ++ [5; 0; 4; 0] ++ le32_bytes 1) ++ patch.

Definition trailer_bytes : list Z := IMG_STATE_UPDATING :: wolfboot_magic_trail.

Definition mem0 : mem := fun a =>
  if in_range 0x1000 (zlen old) a then at_ old (a - 0x1000)
  else if in_range 0x2000 (zlen delta_image) a then at_ delta_image (a - 0x2000)
  else if in_range 0x21FB 5 a then at_ trailer_bytes (a - 0x21FB)
  else FLASH_BYTE_ERASED.

(** What [wolfBoot_update] does with a delta image: the three images as it
    opens them, the versions it reads and the flag of the first sector. *)
Definition update (m : mem) : prog Z :=
  let* cur := lift (wolfBoot_get_image_version m PART_BOOT) in
  let* upd := lift (wolfBoot_get_image_version m PART_UPDATE) in
  update_delta 64 0 (snd (wolfBoot_open_image m PART_BOOT)) (snd (wolfBoot_open_image m PART_UPDATE))
    (snd (wolfBoot_open_image m PART_SWAP)) (sector_flag m 0) cur upd.

(** The memory after power fails once the first sector has been replaced. *)
Definition mem1 : mem := fmem (run_for 22 (update mem0) (mkFlash mem0 true)).

End Shrink.

(** An interrupted delta update to a shorter image cannot be resumed.  The
    bound on the blocks of the patch is the size in the header of BOOT, which is
    that of the new image once the first sector has been replaced, while the
    patch still refers to the end of the old image.  Uninterrupted, the update
    returns 0 with the new image in BOOT; after a power failure that follows the
    first sector, every attempt returns -1 and BOOT holds neither image. *)
Theorem delta_shrink_abandoned :
  exists m m', crash (Shrink.update m) (mkFlash m true) m' /\
    mread m 0x1000 (zlen Shrink.old) = Shrink.old /\
    (let r := run (Shrink.update m) (mkFlash m true) in
     fst r = inl 0 /\ mread (fmem (snd r)) 0x1000 (zlen Shrink.new) = Shrink.new) /\
    mread m' 0x1000 (zlen Shrink.old) <> Shrink.old /\
    mread m' 0x1000 (zlen Shrink.new) <> Shrink.new /\
    let r := run (Shrink.update m') (mkFlash m' true) in
    fst r = inl (-1) /\ mread (fmem (snd r)) 0x1000 512 = mread m' 0x1000 512 /\
    fst (run (Shrink.update (fmem (snd r))) (snd r)) = inl (-1).
Proof.
  exists Shrink.mem0, Shrink.mem1. split; [apply crash_run_for|].
  split; [vm_compute; reflexivity|]. split; [split; vm_compute; reflexivity|].
  split; [intros E; vm_compute in E; discriminate E|].
  split; [intros E; vm_compute in E; discriminate E|].
  split; [vm_compute; reflexivity|]. split; vm_compute; reflexivity.
Qed.
