(* ===== verification/Gpt.v ===== *)
(** * Gpt: partition tables in memory buffers (src/gpt.c)

    The protective MBR, the GPT header with its CRC, partition entries and
    partition names. *)

From Stdlib Require Import ZArith Lia.
From stdpp Require Import prelude.
From S2P Require Import Prelude.

Local Open Scope Z_scope.

Definition GPT_SECTOR_SIZE : Z := 512.
Definition GPT_SIGNATURE : Z := 0x5452415020494645.
Definition GPT_PTYPE_PROTECTIVE : Z := 0xEE.
Definition GPT_PART_NAME_SIZE : Z := 36.
Definition GPT_MBR_ENTRY_START : Z := 0x01BE.
Definition GPT_MBR_BOOTSIG_OFFSET : Z := 0x01FE.
Definition GPT_MBR_BOOTSIG_VALUE : Z := 0xAA55.
Definition GPT_PART_ENTRY_SIZE : Z := 256.
Definition GPT_MAX_PART_ENTRIES : Z := 128.
Definition UINT64_MAX : Z := 2 ^ 64 - 1.

(** Little-endian word of [n] bytes at [off]. *)
Fixpoint rd_le (l : list Z) (off : Z) (n : nat) : outcome Z :=
  match n with
  | O => Ok 0
  | S n =>
      let! b := rd l off in
      let! r := rd_le l (off + 1) n in
      Ok (b + 256 * r)
  end.

(** ** CRC-32 *)

Definition gpt_crc32_init : Z := 0xFFFFFFFF.

(** One turn of the inner loop: the mask is all ones when the low bit is set. *)
Definition gpt_crc32_bit (value : Z) : Z :=
  let mask := u32 (- Z.land value 1) in
  Z.lxor (Z.shiftr value 1) (Z.land 0xEDB88320 mask).

Definition gpt_crc32_update (value : Z) (data : list Z) (len : Z) : outcome Z :=
  loop (S (Z.to_nat len)) (fun '(i, value) =>
    if negb (i <? len) then Ok (inr value) else
    let! b := rd data i in
    Ok (inl (i + 1, Nat.iter 8 gpt_crc32_bit (Z.lxor value b)))) (0, value).

Definition gpt_crc32_final (value : Z) : Z := Z.lxor value 0xFFFFFFFF.

(** ** Master boot record *)

Record gpt_mbr_part_entry : Type := mkMbr {
  ptype : Z;
  lba_first : Z;
  lba_size : Z;
}.

(** Entry [i] of the MBR; the status and the CHS addresses are not used. *)
Definition mbr_entry (mbr_sector : list Z) (i : Z) : outcome gpt_mbr_part_entry :=
  let pte := GPT_MBR_ENTRY_START + i * 16 in
  let! t := rd mbr_sector (pte + 4) in
  let! first := rd_le mbr_sector (pte + 8) 4 in
  let! size := rd_le mbr_sector (pte + 12) 4 in
  Ok (mkMbr t first size).

(** [Some lba] is success with the LBA of the GPT header. *)
Definition gpt_check_mbr_protective (mbr_sector : list Z) : outcome (option Z) :=
  let! boot_sig := rd_le mbr_sector GPT_MBR_BOOTSIG_OFFSET 2 in
  if negb (boot_sig =? GPT_MBR_BOOTSIG_VALUE) then Ok None else
  loop 5 (fun i =>
    if negb (i <? 4) then Ok (inr None) else
    let! pte := mbr_entry mbr_sector i in
    if ptype pte =? GPT_PTYPE_PROTECTIVE then Ok (inr (Some (lba_first pte)))
    else Ok (inl (i + 1))) 0.

(** ** GPT header *)

Record guid_ptable : Type := mkPtable {
  signature : Z;
  revision : Z;
  hdr_size : Z;
  hdr_crc32 : Z;
  main_lba : Z;
  backup_lba : Z;
  first_usable : Z;
  last_usable : Z;
  start_array : Z;
  n_part : Z;
  array_sz : Z;
  part_crc : Z;
}.

(** The fields of the header; the reserved ones and the disk GUID are not
    used. *)
Definition ptable_of (sector : list Z) : outcome guid_ptable :=
  let! sg := rd_le sector 0x00 8 in
  let! rv := rd_le sector 0x08 4 in
  let! hs := rd_le sector 0x0C 4 in
  let! hc := rd_le sector 0x10 4 in
  let! ml := rd_le sector 0x18 8 in
  let! bl := rd_le sector 0x20 8 in
  let! fu := rd_le sector 0x28 8 in
  let! lu := rd_le sector 0x30 8 in
  let! sa := rd_le sector 0x48 8 in
  let! np := rd_le sector 0x50 4 in
  let! az := rd_le sector 0x54 4 in
  let! pc := rd_le sector 0x58 4 in
  Ok (mkPtable sg rv hs hc ml bl fu lu sa np az pc).

Definition gpt_parse_header (sector : list Z) : outcome (option guid_ptable) :=
  let! src := ptable_of sector in
  if negb (signature src =? GPT_SIGNATURE) then Ok None else
  if (hdr_size src <? 0x5C) || (GPT_SECTOR_SIZE <? hdr_size src) then Ok None else
  let! tmp := blit (slice sector 0 GPT_SECTOR_SIZE) 0x10 [0; 0; 0; 0] in
  let! crc := gpt_crc32_update gpt_crc32_init tmp (hdr_size src) in
  if negb (gpt_crc32_final crc =? hdr_crc32 src) then Ok None else
  Ok (Some src).

(** ** Partition entries *)

Record gpt_part_info : Type := mkInfo {
  pi_start : Z;
  pi_end : Z;
  pi_name : list Z;
}.

(** The UTF-16 units of the name at [off]. *)
Fixpoint rd_name (l : list Z) (off : Z) (n : nat) : outcome (list Z) :=
  match n with
  | O => Ok []
  | S n =>
      let! c := rd_le l off 2 in
      let! r := rd_name l (off + 2) n in
      Ok (c :: r)
  end.

Definition gpt_parse_partition (entry_data : list Z) (entry_size : Z) : outcome (option gpt_part_info) :=
  if entry_size <? 128 then Ok None else
  let! type0 := rd_le entry_data 0 8 in
  let! type1 := rd_le entry_data 8 8 in
  let! first := rd_le entry_data 32 8 in
  let! last := rd_le entry_data 40 8 in
  if (type0 =? 0) && (type1 =? 0) then Ok None else
  if last <? first then Ok None else
  if last =? 0 then Ok None else
  if UINT64_MAX / GPT_SECTOR_SIZE <=? last then Ok None else
  let! name := rd_name entry_data 56 (Z.to_nat GPT_PART_NAME_SIZE) in
  Ok (Some (mkInfo (u64 (first * GPT_SECTOR_SIZE))
    (u64 (u64 (u64 (last + 1) * GPT_SECTOR_SIZE) - 1)) name)).

(** [utf16_name] has 36 units; [ascii_label] is the string before its NUL. *)
Definition gpt_part_name_eq (utf16_name ascii_label : list Z) : outcome bool :=
  let ascii_len := zlen ascii_label in
  if GPT_PART_NAME_SIZE <? ascii_len then Ok false else
  let! u0 := rd utf16_name 0 in
  let start := if u0 =? 0xfeff then 1 else 0 in
  if GPT_PART_NAME_SIZE <? ascii_len + start then Ok false else
  loop (S (Z.to_nat ascii_len)) (fun '(i, utf16_idx) =>
    if negb (i <? ascii_len) then
      if utf16_idx <? GPT_PART_NAME_SIZE then
        let! u := rd utf16_name utf16_idx in
        Ok (inr (u =? 0))
      else Ok (inr true)
    else
      let! u := rd utf16_name utf16_idx in
      let! a := rd ascii_label i in
      if negb (u =? u16 a) then Ok (inr false)
      else Ok (inl (i + 1, utf16_idx + 1))) (0, start).
