(* ===== verification/Disk.v ===== *)
(** * Disk: partitions of a disk (src/disk.c)

    Opening a drive with a GPT or an MBR partition table, and reading and
    writing inside a partition.  The platform's [disk_read] and [disk_write]
    are an interface. *)

From Stdlib Require Import ZArith Lia.
From stdpp Require Import prelude.
From S2P Require Import Prelude Gpt.

Local Open Scope Z_scope.

Definition DISK_IO_MAX_SIZE : Z := 0x7FFFFFFF.
Definition MAX_PARTITIONS : Z := 16.
Definition MAX_DISKS : Z := 4.

(** The platform driver: [disk_read d drv start count buf] returns a code and
    the buffer afterwards, [disk_write d drv start data] a code and the disk
    afterwards. *)
Class disk_api (disk : Type) : Type := DiskApi {
  disk_read : disk -> Z -> Z -> Z -> list Z -> outcome (Z * list Z);
  disk_write : disk -> Z -> Z -> list Z -> outcome (Z * disk);
}.

(** What the callers rely on, for the contents [disk_byte d drv a] of the disk.
    Both return, with 0 or a negative code.  A read stays in the first [count]
    bytes of the buffer, and when it returns 0 they are those of the disk.  A
    write that returns 0 has replaced the bytes of its range, and no others; one
    that fails has changed nothing outside the sectors it touches. *)
Class disk_laws (disk : Type) (D : disk_api disk) (disk_byte : disk -> Z -> Z -> Z) : Prop := DiskLaws {
  disk_read_law : forall d drv a n buf,
    0 <= a < 2 ^ 64 -> 0 <= n < 2 ^ 31 -> n <= zlen buf -> bytes buf ->
    wp (disk_read d drv a n buf) (fun '(r, buf') =>
      r <= 0 /\ zlen buf' = zlen buf /\ bytes buf' /\
      (forall i, n <= i -> at_ buf' i = at_ buf i) /\
      (r = 0 -> a + n <= 2 ^ 64 -> forall i, 0 <= i < n -> at_ buf' i = disk_byte d drv (a + i)));
  disk_write_law : forall d drv a l,
    0 <= a -> zlen l < 2 ^ 31 -> a + zlen l <= 2 ^ 64 -> bytes l ->
    wp (disk_write d drv a l) (fun '(r, d') =>
      r <= 0 /\
      (r = 0 -> (forall i, 0 <= i < zlen l -> disk_byte d' drv (a + i) = at_ l i) /\
                (forall drv' b, b < a \/ a + zlen l <= b -> disk_byte d' drv' b = disk_byte d drv' b)) /\
      forall drv' b, b / GPT_SECTOR_SIZE < a / GPT_SECTOR_SIZE \/
          (a + zlen l - 1) / GPT_SECTOR_SIZE < b / GPT_SECTOR_SIZE ->
        disk_byte d' drv' b = disk_byte d drv' b);
}.

Record disk_partition : Type := mkPart {
  dp_drv : Z;
  dp_start : Z;
  dp_end : Z;
  dp_name : list Z;
}.

Record disk_drive : Type := mkDrive {
  dd_drv : Z;
  is_open : Z;
  n_parts : Z;
  parts : list disk_partition;
}.

Definition set_is_open (o : Z) (d : disk_drive) : disk_drive :=
  mkDrive (dd_drv d) o (n_parts d) (parts d).

(** [Drives[drv].part[n_parts] = p; n_parts++]. *)
Definition add_part (d : disk_drive) (p : disk_partition) : outcome disk_drive :=
  let! l := wr (parts d) (n_parts d) p in
  Ok (mkDrive (dd_drv d) (is_open d) (n_parts d + 1) l).

(** Copy the entries of an MBR that are in use. *)
Definition disk_open_mbr (drive : disk_drive) (mbr_sector : list Z) : outcome disk_drive :=
  loop 5 (fun '(i, drive) =>
    if negb (i <? 4) then Ok (inr drive) else
    let! pte := mbr_entry mbr_sector i in
    if (ptype pte =? 0x00) || (ptype pte =? 0x05) || (ptype pte =? 0x0F) || (ptype pte =? 0x85)
    then Ok (inl (i + 1, drive)) else
    if (lba_first pte =? 0) || (lba_size pte =? 0) then Ok (inl (i + 1, drive)) else
    let start_bytes := u64 (lba_first pte * GPT_SECTOR_SIZE) in
    let end_bytes := u64 (start_bytes + lba_size pte * GPT_SECTOR_SIZE - 1) in
    if MAX_PARTITIONS <=? n_parts drive then Ok (inr drive) else
    let! drive := add_part drive (mkPart (dd_drv drive) start_bytes end_bytes
      (replicate (Z.to_nat GPT_PART_NAME_SIZE) 0)) in
    Ok (inl (i + 1, drive))) (0, drive).

Section Disk.
Context {disk : Type} {D : disk_api disk}.

(** The CRC of the partition-entry array, read through the buffer [sector];
    [None] when a read fails. *)
Definition array_crc (d : disk) (drv array_addr bytes_left : Z) (sector : list Z) : outcome (option Z) :=
  loop (S (Z.to_nat bytes_left)) (fun '(addr, left_, crc, sector) =>
    if negb (0 <? left_) then Ok (inr (Some crc)) else
    let chunk := if left_ <? GPT_SECTOR_SIZE then left_ else GPT_SECTOR_SIZE in
    let! (r, sector) := disk_read d drv addr chunk sector in
    if r <? 0 then Ok (inr None) else
    let! crc := gpt_crc32_update crc sector chunk in
    Ok (inl (u64 (addr + chunk), left_ - chunk, crc, sector)))
  (array_addr, bytes_left, gpt_crc32_init, sector).

(** Read the entries up to the first unused one; [false] when a read fails. *)
Definition open_entries (d : disk) (drv : Z) (ptable : guid_ptable) (n : Z) (entry_buf : list Z)
    (drive : disk_drive)     : outcome (bool * disk_drive) :=
  loop (S (Z.to_nat n)) (fun '(i, drive) =>
    if negb (i <? n) then Ok (inr (true, drive)) else
    let address := u64 (u64 (start_array ptable * GPT_SECTOR_SIZE) + u32 (i * array_sz ptable)) in
    if GPT_PART_ENTRY_SIZE <? array_sz ptable then Ok (inr (true, drive)) else
    let! (r, entry) := disk_read d drv address (array_sz ptable) entry_buf in
    if r <? 0 then Ok (inr (false, drive)) else
    let! info := gpt_parse_partition entry (array_sz ptable) in
    match info with
    | None => Ok (inr (true, drive))
    | Some info =>
        let! drive := add_part drive (mkPart drv (pi_start info) (pi_end info) (pi_name info)) in
        Ok (inl (i + 1, drive))
    end) (0, drive).

(** Fill [drive] from a GPT whose header is at [gpt_lba]; [false] is an error. *)
Definition disk_open_gpt (d : disk) (drv gpt_lba : Z) (sector entry_buf : list Z)
    (drive : disk_drive) : outcome (bool * disk_drive) :=
  let! (r, sector) := disk_read d drv (u64 (GPT_SECTOR_SIZE * gpt_lba)) GPT_SECTOR_SIZE sector in
  if r <? 0 then Ok (false, drive) else
  let! ptable := gpt_parse_header sector in
  match ptable with
  | None => Ok (false, drive)
  | Some ptable =>
      let bytes_left := u64 (n_part ptable * array_sz ptable) in
      if GPT_MAX_PART_ENTRIES * GPT_PART_ENTRY_SIZE <? bytes_left then Ok (false, drive) else
      let! crc := array_crc d drv (u64 (start_array ptable * GPT_SECTOR_SIZE)) bytes_left sector in
      match crc with
      | None => Ok (false, drive)
      | Some crc =>
          if negb (gpt_crc32_final crc =? part_crc ptable) then Ok (false, drive) else
          let n := if MAX_PARTITIONS <? n_part ptable then MAX_PARTITIONS else n_part ptable in
          open_entries d drv ptable n entry_buf drive
      end
  end.

(** The value returned and [Drives] afterwards; [sector] and [entry_buf] are the
    local buffers, with whatever they hold. *)
Definition disk_open (d : disk) (sector entry_buf : list Z) (Drives : list disk_drive) (drv : Z)
    : outcome (Z * list disk_drive) :=
  if (drv <? 0) || (MAX_DISKS <=? drv) then Ok (-1, Drives) else
  let! (r, sector) := disk_read d drv 0 GPT_SECTOR_SIZE sector in
  if r <? 0 then Ok (-1, Drives) else
  match Drives !! Z.to_nat drv with
  | None => Oob
  | Some old =>
      let drive := mkDrive drv 1 0 (parts old) in
      let! gpt_lba := gpt_check_mbr_protective sector in
      let! (ok, drive) :=
        (match gpt_lba with
         | Some lba => disk_open_gpt d drv lba sector entry_buf drive
         | None =>
             let! boot_sig := rd_le sector GPT_MBR_BOOTSIG_OFFSET 2 in
             if negb (boot_sig =? GPT_MBR_BOOTSIG_VALUE) then Ok (false, drive) else
             let! drive := disk_open_mbr drive sector in
             Ok (true, drive)
         end) in
      let drive := if (ok : bool) then drive else set_is_open 0 drive in
      let! Drives := wr Drives drv drive in
      Ok (if ok then n_parts drive else -1, Drives)
  end.

(** [None] is the NULL pointer. *)
Definition open_part (Drives : list disk_drive) (drv part : Z) : outcome (option disk_partition) :=
  if (drv <? 0) || (MAX_DISKS <=? drv) then Ok None else
  if (part <? 0) || (MAX_PARTITIONS <=? part) then Ok None else
  match Drives !! Z.to_nat drv with
  | None => Oob
  | Some drive =>
      if is_open drive =? 0 then Ok None else
      if n_parts drive <=? part then Ok None else
      match parts drive !! Z.to_nat part with
      | None => Oob
      | Some p => Ok (Some p)
      end
  end.

(** Where in the disk an access of [sz] bytes at [off] goes, and how many
    bytes it moves; [None] when it is refused. *)
Definition part_range (p : disk_partition) (off sz : Z) : option (Z * Z) :=
  let sz := if DISK_IO_MAX_SIZE <? sz then DISK_IO_MAX_SIZE else sz in
  let start := u64 (dp_start p + off) in
  if start <? dp_start p then None else
  if dp_end p <? start then None else
  let sz := if u64 (dp_end p - start + 1) <? sz then u64 (dp_end p - start + 1) else sz in
  Some (start, u32 sz).

(** The value returned and the buffer afterwards. *)
Definition disk_part_read (d : disk) (Drives : list disk_drive) (drv part off sz : Z) (buf : list Z)
    : outcome (Z * list Z) :=
  let! p := open_part Drives drv part in
  match p with
  | None => Ok (-1, buf)
  | Some p =>
      match part_range p off sz with
      | None => Ok (-1, buf)
      | Some (start, sz) =>
          if zlen buf <? sz then Oob else
          let! (ret, buf) := disk_read d drv start sz buf in
          Ok (if ret =? 0 then i32 sz else ret, buf)
      end
  end.

(** [buf] has at least [sz] bytes. *)
Definition disk_part_write (d : disk) (Drives : list disk_drive) (drv part off sz : Z) (buf : list Z)
    : outcome (Z * disk) :=
  let! p := open_part Drives drv part in
  match p with
  | None => Ok (-1, d)
  | Some p =>
      match part_range p off sz with
      | None => Ok (-1, d)
      | Some (start, sz) =>
          if zlen buf <? sz then Oob else
          let! (ret, d) := disk_write d drv start (slice buf 0 sz) in
          Ok (if ret =? 0 then i32 sz else ret, d)
      end
  end.

Definition disk_find_partition_by_label (Drives : list disk_drive) (drv : Z) (label : list Z)
    : outcome Z :=
  if (drv <? 0) || (MAX_DISKS <=? drv) then Ok (-1) else
  match Drives !! Z.to_nat drv with
  | None => Oob
  | Some drive =>
      if is_open drive =? 0 then Ok (-1) else
      loop (S (Z.to_nat (n_parts drive))) (fun i =>
        if negb (i <? n_parts drive) then Ok (inr (-1)) else
        let! p := open_part Drives drv i in
        match p with
        | None => Ok (inl (i + 1))
        | Some p =>
            let! eq := gpt_part_name_eq (dp_name p) label in
            if eq : bool then Ok (inr i) else Ok (inl (i + 1))
        end) 0
  end.

End Disk.
