(* ===== verification/DiskSpec.v ===== *)
(** * DiskSpec: correctness of the partition layer

    Opening a drive is safe on any disk contents and establishes the invariant
    of [Drives]; accesses to a partition stay inside it. *)

From Stdlib Require Import ZArith Lia.
From stdpp Require Import prelude.
From S2P Require Import Prelude Gpt Disk.

Local Open Scope Z_scope.

Local Arguments rd_le : simpl never.

(** ** Buffers of the tables *)

Lemma wp_rd_le l off n (Q : Z -> Prop) :
  bytes l -> 0 <= off -> off + Z.of_nat n <= zlen l ->
  (forall v, 0 <= v < 256 ^ Z.of_nat n -> Q v) -> wp (rd_le l off n) Q.
Proof.
  intros Hl. revert off Q. induction n as [|n IH]; intros off Q Ho Hn HQ.
  - apply wp_Ok, HQ. lia.
  - cbn [rd_le]. apply wp_bind, wp_rd; [lia|]. apply wp_bind, IH; [lia..|].
    intros v Hv. apply wp_Ok, HQ. pose proof (at_byte l off Hl ltac:(lia)) as Hb. unfold is_byte in Hb.
    rewrite Nat2Z.inj_succ, Z.pow_succ_r by lia. lia.
Qed.

Lemma wp_rd_name l off n (Q : list Z -> Prop) :
  bytes l -> 0 <= off -> off + 2 * Z.of_nat n <= zlen l ->
  (forall v, zlen v = Z.of_nat n -> Q v) -> wp (rd_name l off n) Q.
Proof.
  intros Hl. revert off Q. induction n as [|n IH]; intros off Q Ho Hn HQ; [by apply wp_Ok, HQ|].
  cbn [rd_name]. apply wp_bind, wp_rd_le; [done|lia..|]. intros c _.
  apply wp_bind, IH; [lia..|]. intros v Hv. apply wp_Ok, HQ. rewrite zlen_cons. lia.
Qed.

Lemma gpt_crc32_update_total value data len (Q : Z -> Prop) :
  0 <= len <= zlen data -> (forall v, Q v) -> wp (gpt_crc32_update value data len) Q.
Proof.
  intros Hl HQ. apply (wp_loop (fun '(i, _) => 0 <= i <= len) (fun '(i, _) => Z.to_nat (len - i)));
    [|lia|lia].
  intros [i v] Hi. case_if; [by apply wp_Ok|]. apply wp_bind, wp_rd; [lia|]. apply wp_Ok. lia.
Qed.

Lemma mbr_entry_total s i (Q : gpt_mbr_part_entry -> Prop) :
  bytes s -> zlen s = GPT_SECTOR_SIZE -> 0 <= i < 4 ->
  (forall t f z, 0 <= f < 2 ^ 32 -> 0 <= z < 2 ^ 32 -> Q (mkMbr t f z)) -> wp (mbr_entry s i) Q.
Proof.
  intros Hb Hs Hi HQ. unfold mbr_entry, GPT_MBR_ENTRY_START, GPT_SECTOR_SIZE in *.
  apply wp_bind, wp_rd; [lia|]. apply wp_bind, wp_rd_le; [done|lia..|]. intros f Hf.
  apply wp_bind, wp_rd_le; [done|lia..|]. intros z Hz. by apply wp_Ok, HQ.
Qed.

Lemma check_mbr_total s (Q : option Z -> Prop) :
  bytes s -> zlen s = GPT_SECTOR_SIZE -> Q None -> (forall v, 0 <= v < 2 ^ 32 -> Q (Some v)) ->
  wp (gpt_check_mbr_protective s) Q.
Proof.
  intros Hb Hs HN HS. unfold gpt_check_mbr_protective, GPT_MBR_BOOTSIG_OFFSET.
  apply wp_bind, wp_rd_le; [done|unfold GPT_SECTOR_SIZE in *; lia..|]. intros sig _.
  case_if; [by apply wp_Ok|].
  apply (wp_loop (fun i => 0 <= i <= 4) (fun i => Z.to_nat (4 - i))); [|lia|lia].
  intros i Hi. case_if; [by apply wp_Ok|]. apply wp_bind, mbr_entry_total; [done..|lia|].
  intros t f z Hf Hz. simpl. case_if; apply wp_Ok; [by apply HS|lia].
Qed.

Lemma parse_header_total s (Q : option guid_ptable -> Prop) :
  bytes s -> zlen s = GPT_SECTOR_SIZE -> Q None ->
  (forall pt, 0 <= start_array pt < 2 ^ 64 -> 0 <= n_part pt < 2 ^ 32 -> 0 <= array_sz pt < 2 ^ 32 ->
     Q (Some pt)) ->
  wp (gpt_parse_header s) Q.
Proof.
  intros Hb Hs HN HS. unfold gpt_parse_header, GPT_SECTOR_SIZE in *. apply wp_bind.
  unfold ptable_of. do 12 (apply wp_bind, wp_rd_le; [done|lia..|intros ? ?]). apply wp_Ok. simpl.
  case_if; [by apply wp_Ok|]. case_if; [by apply wp_Ok|].
  assert (Hl : zlen (slice s 0 512) = 512) by (apply slice_length; lia).
  apply wp_bind, wp_blit; [lia|unfold zlen at 1; simpl; lia|]. intros tmp Htmp _ _.
  apply wp_bind, gpt_crc32_update_total; [lia|]. intros crc. case_if; apply wp_Ok; [done|].
  by apply HS.
Qed.

(** ** The invariant *)

(** A partition: whole sectors, inside the 64-bit address space. *)
Definition part_ok (p : disk_partition) : Prop :=
  0 <= dp_start p <= dp_end p /\ dp_end p + 1 < 2 ^ 64 /\
  dp_start p mod GPT_SECTOR_SIZE = 0 /\ (dp_end p + 1) mod GPT_SECTOR_SIZE = 0 /\
  zlen (dp_name p) = GPT_PART_NAME_SIZE.

Definition drive_ok (d : disk_drive) : Prop :=
  0 <= n_parts d <= MAX_PARTITIONS /\ zlen (parts d) = MAX_PARTITIONS /\
  forall i p, 0 <= i < n_parts d -> parts d !! Z.to_nat i = Some p -> part_ok p.

Definition drives_ok (Ds : list disk_drive) : Prop :=
  zlen Ds = MAX_DISKS /\ Forall drive_ok Ds.

Lemma add_part_ok d p (Q : disk_drive -> Prop) :
  drive_ok d -> part_ok p -> n_parts d < MAX_PARTITIONS ->
  (forall d', drive_ok d' -> n_parts d' = n_parts d + 1 -> is_open d' = is_open d ->
     dd_drv d' = dd_drv d -> Q d') ->
  wp (add_part d p) Q.
Proof.
  intros (Hn & Hl & Hp) Hpo Hlt HQ. unfold add_part. apply wp_bind, wp_wr; [lia|].
  apply wp_Ok, HQ; try done. unfold drive_ok. simpl. rewrite zlen_insert.
  split_and!; [lia..|]. intros i q Hi Hq.
  destruct (decide (i = n_parts d)) as [->|].
  - rewrite list_lookup_insert_eq in Hq by (unfold zlen in *; lia). by injection Hq as <-.
  - rewrite list_lookup_insert_ne in Hq by lia. apply (Hp i); [lia|done].
Qed.

Lemma parse_partition_total buf sz drv (Q : option gpt_part_info -> Prop) :
  bytes buf -> 128 <= zlen buf -> Q None ->
  (forall i, part_ok (mkPart drv (pi_start i) (pi_end i) (pi_name i)) -> Q (Some i)) ->
  wp (gpt_parse_partition buf sz) Q.
Proof.
  intros Hb Hl HN HS. unfold gpt_parse_partition. case_if; [by apply wp_Ok|].
  do 2 (apply wp_bind, wp_rd_le; [done|lia..|intros ? _]).
  apply wp_bind, wp_rd_le; [done|lia..|]. intros first Hf.
  apply wp_bind, wp_rd_le; [done|lia..|]. intros last Hla. change (256 ^ Z.of_nat 8) with (2 ^ 64) in *.
  case_if; [by apply wp_Ok|]. case_if; [by apply wp_Ok|]. case_if; [by apply wp_Ok|].
  case_if; [by apply wp_Ok|].
  apply wp_bind, wp_rd_name; [done|unfold GPT_PART_NAME_SIZE; lia..|]. intros nm Hnm.
  apply wp_Ok, HS. unfold part_ok, UINT64_MAX, GPT_SECTOR_SIZE in *. simpl.
  change ((2 ^ 64 - 1) / 512) with (2 ^ 55 - 1) in *.
  rewrite (u64_small (last + 1)), (u64_small (first * 512)), (u64_small ((last + 1) * 512)) by lia.
  rewrite u64_small by lia. replace ((last + 1) * 512 - 1 + 1) with ((last + 1) * 512) by lia.
  rewrite !Z.mod_mul by lia. split_and!; try lia. rewrite Hnm. unfold GPT_PART_NAME_SIZE. lia.
Qed.

Lemma open_mbr_ok d s (Q : disk_drive -> Prop) :
  drive_ok d -> is_open d = 1 -> bytes s -> zlen s = GPT_SECTOR_SIZE ->
  (forall d', drive_ok d' -> is_open d' = 1 -> Q d') -> wp (disk_open_mbr d s) Q.
Proof.
  intros Hd Ho Hb Hs HQ. unfold disk_open_mbr.
  apply (wp_loop (fun '(i, d) => 0 <= i <= 4 /\ drive_ok d /\ is_open d = 1)
    (fun '(i, _) => Z.to_nat (4 - i))); [|split; [lia|done]|lia].
  intros [i d1] (Hi & Hd1 & Ho1). case_if; [apply wp_Ok; auto|].
  apply wp_bind, mbr_entry_total; [done..|lia|]. intros t f z Hf Hz. simpl.
  do 2 (case_if; [apply wp_Ok; split; [split; [lia|done]|lia]|]).
  case_if; [apply wp_Ok; auto|]. unfold GPT_SECTOR_SIZE.
  apply wp_bind, add_part_ok; [done| |lia|].
  - unfold part_ok, GPT_SECTOR_SIZE. simpl.
    rewrite (u64_small (f * 512)) by lia. rewrite u64_small by lia.
    replace (f * 512 + z * 512 - 1 + 1) with ((f + z) * 512) by lia. rewrite !Z.mod_mul by lia.
    split_and!; try lia. reflexivity.
  - intros d' Hd' _ Ho' _. apply wp_Ok. split; [|lia]. split; [lia|]. by rewrite Ho'.
Qed.

Section Open.
Context {disk : Type} {D : disk_api disk} (disk_byte : disk -> Z -> Z -> Z).
Context {DL : disk_laws disk D disk_byte}.

(** A read into a local buffer. *)
Lemma disk_read_local d drv a n buf (Q : Z * list Z -> Prop) :
  0 <= a < 2 ^ 64 -> 0 <= n < 2 ^ 31 -> n <= zlen buf -> bytes buf ->
  (forall r buf', zlen buf' = zlen buf -> bytes buf' -> Q (r, buf')) ->
  wp (disk_read d drv a n buf) Q.
Proof.
  intros H1 H2 H3 H4 HQ. eapply wp_mono; [by apply (disk_read_law (disk_byte := disk_byte))|].
  intros [r buf'] (_ & Hl & Hb & _). by apply HQ.
Qed.

Lemma array_crc_total d drv addr n sector (Q : option Z -> Prop) :
  0 <= addr < 2 ^ 64 -> 0 <= n -> zlen sector = GPT_SECTOR_SIZE -> bytes sector ->
  (forall r, Q r) -> wp (array_crc d drv addr n sector) Q.
Proof.
  intros Ha Hn Hs Hb HQ. unfold array_crc, GPT_SECTOR_SIZE in *.
  apply (wp_loop (fun '(a, l, _, s) => 0 <= a < 2 ^ 64 /\ 0 <= l /\ zlen s = 512 /\ bytes s)
    (fun '(_, l, _, _) => Z.to_nat l)); [|done|lia].
  intros [[[a l] crc] s] (Ia & Il & Is & Ib). case_if; [by apply wp_Ok|].
  set (chunk := if l <? 512 then l else 512).
  assert (Hc : 0 < chunk <= 512 /\ chunk <= l) by (unfold chunk; case_if; lia).
  apply wp_bind, disk_read_local; [lia..|done|]. intros r s' Hl Hb'. case_if; [by apply wp_Ok|].
  apply wp_bind, gpt_crc32_update_total; [lia|]. intros v. apply wp_Ok.
  split; [|lia]. split_and!; [apply u64_range..|lia|lia|done].
Qed.

Lemma open_entries_ok d drv pt n buf drive (Q : bool * disk_drive -> Prop) :
  0 <= array_sz pt < 2 ^ 32 -> 0 <= n <= MAX_PARTITIONS -> zlen buf = GPT_PART_ENTRY_SIZE -> bytes buf ->
  drive_ok drive -> is_open drive = 1 -> n_parts drive = 0 ->
  (forall b d', drive_ok d' -> is_open d' = 1 -> Q (b, d')) ->
  wp (open_entries d drv pt n buf drive) Q.
Proof.
  intros Hz Hn Hs Hb Hd Ho H0 HQ. unfold open_entries, GPT_PART_ENTRY_SIZE in *.
  apply (wp_loop (fun '(i, dr) => 0 <= i <= n /\ drive_ok dr /\ is_open dr = 1 /\ n_parts dr = i)
    (fun '(i, _) => Z.to_nat (n - i))); [|split; [lia|done]|lia].
  intros [i dr] (Hi & Hdr & Hio & Hni). case_if; [by apply wp_Ok, HQ|]. case_if; [by apply wp_Ok, HQ|].
  set (addr := u64 (_ + _)). pose proof (u64_range (u64 (start_array pt * GPT_SECTOR_SIZE) +
    u32 (i * array_sz pt))) as Ha. fold addr in Ha.
  apply wp_bind, disk_read_local; [lia..|done|]. intros r e Hl Hb'.
  case_if; [by apply wp_Ok, HQ|].
  apply wp_bind, (parse_partition_total _ _ drv); [done|lia|by apply wp_Ok, HQ|].
  intros info Hinfo. apply wp_bind, add_part_ok; [done..|lia|].
  intros d' Hd' Hn' Ho' _. apply wp_Ok. split; [|lia]. split_and!; [lia..|done|by rewrite Ho'|lia].
Qed.

Lemma open_gpt_ok d drv lba sector buf drive (Q : bool * disk_drive -> Prop) :
  0 <= lba < 2 ^ 32 -> zlen sector = GPT_SECTOR_SIZE -> bytes sector ->
  zlen buf = GPT_PART_ENTRY_SIZE -> bytes buf ->
  drive_ok drive -> is_open drive = 1 -> n_parts drive = 0 ->
  (forall b d', drive_ok d' -> is_open d' = 1 -> Q (b, d')) ->
  wp (disk_open_gpt d drv lba sector buf drive) Q.
Proof.
  intros Hlba Hs Hsb Hl Hb Hd Ho H0 HQ. unfold disk_open_gpt.
  set (addr := u64 _). pose proof (u64_range (GPT_SECTOR_SIZE * lba)) as Ha. fold addr in Ha.
  apply wp_bind, disk_read_local; [unfold GPT_SECTOR_SIZE in *; lia..|done|]. intros r s Hl' Hb'.
  case_if; [by apply wp_Ok, HQ|].
  apply wp_bind, parse_header_total; [done|lia|by apply wp_Ok, HQ|]. intros pt Hsa Hnp Haz.
  case_if; [by apply wp_Ok, HQ|].
  apply wp_bind, array_crc_total; [apply u64_range|apply u64_range|lia|done|].
  intros [crc|]; [|by apply wp_Ok, HQ]. case_if; [by apply wp_Ok, HQ|].
  apply open_entries_ok; try done. unfold MAX_PARTITIONS. case_if; lia.
Qed.

(** What [disk_open] leaves: the invariant, the other drives as they were, and
    the drive open with as many partitions as returned, or closed. *)
Definition open_post (Ds : list disk_drive) (drv r : Z) (Ds' : list disk_drive) : Prop :=
  drives_ok Ds' /\ (forall j, j <> Z.to_nat drv -> Ds' !! j = Ds !! j) /\
  ((r = -1 /\ Ds' = Ds) \/
   exists d, Ds' !! Z.to_nat drv = Some d /\
     ((r = -1 /\ is_open d = 0) \/ (is_open d = 1 /\ n_parts d = r))).

Lemma disk_open_spec d sector buf Ds drv :
  drives_ok Ds -> zlen sector = GPT_SECTOR_SIZE -> bytes sector ->
  zlen buf = GPT_PART_ENTRY_SIZE -> bytes buf ->
  wp (disk_open d sector buf Ds drv) (fun '(r, Ds') => open_post Ds drv r Ds').
Proof.
  intros [HD HF] Hs Hsb Hl Hb.
  assert (Hsame : open_post Ds drv (-1) Ds) by (split; [done|split; [done|by left]]).
  unfold disk_open. unfold MAX_DISKS in *. case_if; [by apply wp_Ok|]. bools.
  apply wp_bind, disk_read_local; [unfold GPT_SECTOR_SIZE in *; lia..|done|]. intros r s Hl' Hb'.
  case_if; [by apply wp_Ok|].
  destruct (lookup_lt_is_Some_2 Ds (Z.to_nat drv)) as [old Hold]; [unfold zlen in *; lia|]. rewrite Hold.
  assert (Hold_ok : drive_ok old) by (eapply Forall_lookup_1; eauto).
  assert (Hd0 : drive_ok (mkDrive drv 1 0 (parts old))).
  { destruct Hold_ok as (_ & Hp & _). split_and!; try done. simpl. lia. }
  assert (Hend : forall b d', drive_ok d' -> is_open d' = 1 ->
    wp (let drive := if (b : bool) then d' else set_is_open 0 d' in
        let! Ds' := wr Ds drv drive in Ok (if b then n_parts drive else -1, Ds'))
      (fun '(r, Ds') => open_post Ds drv r Ds')).
  { intros b d' Hd' Ho'. cbv zeta. apply wp_bind, wp_wr; [lia|]. apply wp_Ok.
    assert (Hd2 : drive_ok (if b then d' else set_is_open 0 d')) by (by destruct b).
    split; [split; [by rewrite zlen_insert|by apply Forall_insert]|].
    split; [intros j Hj; by rewrite list_lookup_insert_ne|]. right.
    eexists. split; [apply list_lookup_insert_eq; unfold zlen in *; lia|]. destruct b; [by right|by left]. }
  apply wp_bind, check_mbr_total; [done|lia|..].
  - cbv beta iota. apply wp_bind. apply wp_bind.
    apply wp_rd_le; [done|unfold GPT_MBR_BOOTSIG_OFFSET, GPT_SECTOR_SIZE in *; simpl; lia..|].
    intros sig _. case_if; [by apply wp_Ok, (Hend false)|].
    apply wp_bind, open_mbr_ok; try done; try lia. intros d' Hd' Ho'. by apply wp_Ok, (Hend true).
  - intros lba Hlba. cbv beta iota. apply wp_bind, open_gpt_ok; try done; try lia.
Qed.
(** C11: Opening a drive is safe on any disk contents.  Whatever the sectors hold,
    [disk_open] returns without an access outside its buffers or tables; it
    leaves at most 16 partitions, all of whole sectors inside the 64-bit address
    space and with start before end, whether they come from a GPT or an MBR; on
    an error the drive is closed or untouched, and no other drive changes. *)
Theorem disk_open_safe d sector buf Ds drv :
  drives_ok Ds -> zlen sector = GPT_SECTOR_SIZE -> bytes sector ->
  zlen buf = GPT_PART_ENTRY_SIZE -> bytes buf ->
  exists r Ds', disk_open d sector buf Ds drv = Ok (r, Ds') /\ open_post Ds drv r Ds'.
Proof.
  intros HD Hs Hsb Hl Hb.
  destruct (wp_inv _ _ (disk_open_spec d sector buf Ds drv HD Hs Hsb Hl Hb)) as ([r Ds'] & Hw & Hp). eauto.
Qed.
End Open.

(** ** Access to a partition *)

(** The extent of an access: inside the partition, at the offset asked for, and
    no longer than asked, with no wrap-around. *)
Lemma part_range_spec p off sz a n :
  part_ok p -> 0 <= off < 2 ^ 64 -> 0 <= sz < 2 ^ 64 -> part_range p off sz = Some (a, n) ->
  a = dp_start p + off /\ a <= dp_end p /\ a + n <= dp_end p + 1 /\
  n = Z.min (Z.min sz DISK_IO_MAX_SIZE) (dp_end p + 1 - a).
Proof.
  intros (Hp1 & Hp2 & _) Hoff Hsz. unfold part_range. set (sz' := if _ <? sz then _ else _).
  assert (Hs' : sz' = Z.min sz DISK_IO_MAX_SIZE) by (unfold sz'; case_if; lia).
  assert (Hm : 0 <= sz' < 2 ^ 31) by (unfold DISK_IO_MAX_SIZE in *; lia).
  case_if; [done|]. case_if; [done|]. intros [= <- <-].
  assert (Ha : u64 (dp_start p + off) = dp_start p + off).
  { apply u64_small. split; [lia|]. destruct (Z.lt_ge_cases (dp_start p + off) (2 ^ 64)); [done|].
    exfalso. assert (Hw : u64 (dp_start p + off) = dp_start p + off - 2 ^ 64)
      by (unfold u64; symmetry; apply (Z.mod_unique _ _ 1); lia). lia. }
  rewrite Ha in *. rewrite u64_small by lia.
  split; [done|]. split; [done|]. rewrite u32_small by (case_if; lia). case_if; lia.
Qed.

Lemma open_part_ok Ds drv part (Q : option disk_partition -> Prop) :
  drives_ok Ds -> Q None -> (forall p, part_ok p -> Q (Some p)) -> wp (open_part Ds drv part) Q.
Proof.
  intros [HD HF] HN HS. unfold open_part, MAX_DISKS in *. case_if; [by apply wp_Ok|].
  case_if; [by apply wp_Ok|]. bools.
  destruct (lookup_lt_is_Some_2 Ds (Z.to_nat drv)) as [d Hd]; [unfold zlen in *; lia|]. rewrite Hd.
  assert (Hok : drive_ok d) by (eapply Forall_lookup_1; eauto). destruct Hok as (Hn & Hl & Hp).
  case_if; [by apply wp_Ok|]. case_if; [by apply wp_Ok|].
  destruct (lookup_lt_is_Some_2 (parts d) (Z.to_nat part)) as [p Hpp];
    [unfold zlen, MAX_PARTITIONS in *; lia|]. rewrite Hpp.
  apply wp_Ok, HS, (Hp part); [lia|done].
Qed.

(** Both bounds of a sector-aligned range are respected by whole sectors. *)
Lemma sector_outside a b l e :
  0 <= a -> (a mod GPT_SECTOR_SIZE = 0) -> (e + 1) mod GPT_SECTOR_SIZE = 0 ->
  forall s n, a <= s -> s + n <= e + 1 -> 0 < n -> b < a \/ e < b -> l = n ->
  b / GPT_SECTOR_SIZE < s / GPT_SECTOR_SIZE \/ (s + l - 1) / GPT_SECTOR_SIZE < b / GPT_SECTOR_SIZE.
Proof.
  unfold GPT_SECTOR_SIZE. intros Ha Hm He s n Hs Hn H0 Hb ->.
  destruct Hb as [Hb|Hb]; [left|right]; Z.div_mod_to_equations; lia.
Qed.

Section Access.
Context {disk : Type} {D : disk_api disk} (disk_byte : disk -> Z -> Z -> Z).
Context {DL : disk_laws disk D disk_byte}.
Context (Ds : list disk_drive) (drv part off sz : Z) (p : disk_partition).
Context (HD : drives_ok Ds) (Hopen : open_part Ds drv part = Ok (Some p)).
Context (Hoff : 0 <= off < 2 ^ 64) (Hsz : 0 <= sz < 2 ^ 64).

Lemma opened_ok : part_ok p.
Proof.
  assert (Hw : wp (open_part Ds drv part) (fun o => match o with Some q => part_ok q | None => True end))
    by (by apply open_part_ok). by rewrite Hopen in Hw.
Qed.

(** What a write does, in terms of the range it goes to. *)
Lemma part_write_spec d buf :
  sz <= zlen buf -> bytes buf ->
  wp (disk_part_write d Ds drv part off sz buf) (fun '(r, d') =>
    (forall drv' b, b < dp_start p \/ dp_end p < b -> disk_byte d' drv' b = disk_byte d drv' b) /\
    (0 <= r -> exists a n, part_range p off sz = Some (a, n) /\ r = n /\
       forall i, 0 <= i < n -> disk_byte d' drv (a + i) = at_ buf i)).
Proof.
  intros Hbuf Hb. pose proof opened_ok as Hok. unfold disk_part_write. rewrite Hopen. cbn [obind].
  destruct (part_range p off sz) as [[a n]|] eqn:Er; [|by apply wp_Ok; split; [|lia]].
  destruct (part_range_spec _ _ _ _ _ Hok Hoff Hsz Er) as (Ha & Hae & Hend & Hn).
  unfold DISK_IO_MAX_SIZE in Hn. case_if; [lia|].
  assert (Hl : zlen (slice buf 0 n) = n) by (apply slice_length; lia).
  destruct Hok as (P1 & P2 & P3 & P4 & _).
  eapply wp_bind_mono; [apply (disk_write_law (disk_byte := disk_byte)); [lia..|by apply slice_bytes]|].
  intros [r d'] (Hr & Hin & Hhull). rewrite Hl in *. apply wp_Ok. split.
  - intros drv' b Hbo. apply Hhull. destruct (decide (n = 0)) as [->|].
    + unfold GPT_SECTOR_SIZE in *. Z.div_mod_to_equations. lia.
    + apply (sector_outside (dp_start p) b n (dp_end p)) with n; lia.
  - case_if; [|lia]. rewrite i32_small by lia. intros _. exists a, n. split_and!; try done.
    intros i Hi. destruct (Hin E0) as [Hin' _]. rewrite Hin' by done. rewrite at_slice by lia. done.
Qed.

(** C12: Writing to a partition never changes a byte outside it: whatever the offset
    and the size asked for, and whether the driver succeeds or not,
    [disk_part_write] returns and every byte before the start or after the end
    of the partition is what it was. *)
Theorem disk_part_write_isolated d buf :
  sz <= zlen buf -> bytes buf ->
  exists r d', disk_part_write d Ds drv part off sz buf = Ok (r, d') /\
    forall drv' b, b < dp_start p \/ dp_end p < b -> disk_byte d' drv' b = disk_byte d drv' b.
Proof.
  intros Hbuf Hb. destruct (wp_inv _ _ (part_write_spec d buf Hbuf Hb)) as ([r d'] & Hw & Hiso & _). eauto.
Qed.

Lemma part_read_spec d buf :
  sz <= zlen buf -> bytes buf ->
  wp (disk_part_read d Ds drv part off sz buf) (fun '(r, buf') =>
    zlen buf' = zlen buf /\ bytes buf' /\ (forall i, sz <= i -> at_ buf' i = at_ buf i) /\
    (0 <= r -> exists a n, part_range p off sz = Some (a, n) /\ r = n /\
       forall i, 0 <= i < n -> at_ buf' i = disk_byte d drv (a + i))).
Proof.
  intros Hbuf Hb. pose proof opened_ok as Hok. unfold disk_part_read. rewrite Hopen. cbn [obind].
  destruct (part_range p off sz) as [[a n]|] eqn:Er; [|by apply wp_Ok; split_and!; [done..|lia]].
  destruct (part_range_spec _ _ _ _ _ Hok Hoff Hsz Er) as (Ha & Hae & Hend & Hn).
  unfold DISK_IO_MAX_SIZE in Hn. case_if; [lia|]. destruct Hok as (P1 & P2 & _).
  eapply wp_bind_mono; [apply (disk_read_law (disk_byte := disk_byte)); [lia..|done]|].
  intros [r buf'] (Hr & Hl & Hb' & Hout & Hin). apply wp_Ok. split_and!; [done|done|intros; apply Hout; lia|].
  case_if; [|lia]. rewrite i32_small by lia. intros _. exists a, n. split_and!; try done.
  apply Hin; [done|lia].
Qed.

(** What is written to a partition is read back: if a write of a range and a
    later read of it both succeed, they move the same number of bytes, the size
    asked for limited by the end of the partition, and the bytes read are those
    written. *)
Theorem disk_part_roundtrip d buf w d' buf2 r buf3 :
  sz <= zlen buf -> bytes buf -> sz <= zlen buf2 -> bytes buf2 ->
  disk_part_write d Ds drv part off sz buf = Ok (w, d') -> 0 <= w ->
  disk_part_read d' Ds drv part off sz buf2 = Ok (r, buf3) -> 0 <= r ->
  r = w /\ w = Z.min (Z.min sz DISK_IO_MAX_SIZE) (dp_end p + 1 - (dp_start p + off)) /\
  forall i, 0 <= i < w -> at_ buf3 i = at_ buf i.
Proof.
  intros Hl1 Hb1 Hl2 Hb2 Hw Hw0 Hr Hr0.
  pose proof (part_write_spec d buf Hl1 Hb1) as HW. rewrite Hw in HW. destruct HW as [_ HW].
  pose proof (part_read_spec d' buf2 Hl2 Hb2) as HR. rewrite Hr in HR. destruct HR as (_ & _ & _ & HR).
  destruct (HW Hw0) as (a & n & Er & -> & Hin). destruct (HR Hr0) as (a' & n' & Er' & -> & Hout).
  rewrite Er in Er'. injection Er' as <- <-.
  destruct (part_range_spec _ _ _ _ _ opened_ok Hoff Hsz Er) as (-> & _ & _ & Hn).
  split_and!; [done|lia|]. intros i Hi. rewrite Hout, Hin by done. done.
Qed.
End Access.
