(* ===== verification/GptSpec.v ===== *)
(** * GptSpec: names, labels and checksums

    The comparison of partition names, the search for a label, and the
    agreement of the two CRC-32 routines of the program. *)

From Stdlib Require Import ZArith Lia.
From stdpp Require Import prelude.
From S2P Require Import Prelude Gpt Disk DiskSpec Gzip GzipSafe.

Local Open Scope Z_scope.

(** ** Names *)

(** The UTF-16 name is the label, after an optional byte-order mark, up to a NUL
    or the end of the name. *)
Definition name_matches (name label : list Z) : Prop :=
  let start := if at_ name 0 =? 0xfeff then 1 else 0 in
  start + zlen label <= GPT_PART_NAME_SIZE /\
  (forall j, 0 <= j < zlen label -> at_ name (start + j) = u16 (at_ label j)) /\
  (start + zlen label < GPT_PART_NAME_SIZE -> at_ name (start + zlen label) = 0).

Lemma part_name_eq_spec name label :
  zlen name = GPT_PART_NAME_SIZE ->
  wp (gpt_part_name_eq name label) (fun b => b = true <-> name_matches name label).
Proof.
  intros Hn. pose proof (zlen_nonneg label). unfold gpt_part_name_eq, name_matches.
  assert (Hpos : 0 < zlen name) by (unfold GPT_PART_NAME_SIZE in *; lia).
  assert (Hs : forall b : bool, 0 <= (if b then 1 else 0) <= 1) by (intros []; lia).
  specialize (Hs (at_ name 0 =? 0xfeff)). revert Hs.
  set (start := if at_ name 0 =? 0xfeff then 1 else 0). intros Hs.
  destruct (Z.ltb_spec GPT_PART_NAME_SIZE (zlen label)); [apply wp_Ok; split; [done|lia]|].
  apply wp_bind, wp_rd; [lia|]. fold start.
  destruct (Z.ltb_spec GPT_PART_NAME_SIZE (zlen label + start)); [apply wp_Ok; split; [done|lia]|].
  apply (wp_loop (fun '(i, idx) => 0 <= i <= zlen label /\ idx = start + i /\
      forall j, 0 <= j < i -> at_ name (start + j) = u16 (at_ label j))
    (fun '(i, _) => Z.to_nat (zlen label - i))); [|split_and!; try lia|lia].
  intros [i idx] (Hi & -> & Hall). case_if.
  - assert (i = zlen label) as -> by lia. destruct (Z.ltb_spec (start + zlen label) GPT_PART_NAME_SIZE).
    + apply wp_bind, wp_rd; [lia|]. apply wp_Ok. rewrite Z.eqb_eq. split; [|tauto].
      intros Hz. split_and!; [lia|done|done].
    + apply wp_Ok. split; [|done]. intros _. split_and!; [lia|done|lia].
  - apply wp_bind, wp_rd; [lia|]. apply wp_bind, wp_rd; [lia|]. case_if.
    + apply wp_Ok. split; [done|]. intros (_ & Hm & _). specialize (Hm i ltac:(lia)). lia.
    + apply wp_Ok. split; [|lia]. split_and!; try lia. intros j Hj.
      destruct (decide (j = i)) as [->|]; [done|]. apply Hall. lia.
Qed.

(** A partition name equals a label exactly when its UTF-16 units, after an
    optional byte-order mark, are those of the label and a NUL or the end of
    the name follows. *)
Theorem part_name_eq_iff name label :
  zlen name = GPT_PART_NAME_SIZE ->
  exists b, gpt_part_name_eq name label = Ok b /\ (b = true <-> name_matches name label).
Proof. intros Hn. by apply wp_inv, part_name_eq_spec. Qed.

(** ** Labels *)

(** Partition [i] of an open drive. *)
Definition drive_part (Ds : list disk_drive) (drv i : Z) (p : disk_partition) : Prop :=
  open_part Ds drv i = Ok (Some p).

(** [disk_find_partition_by_label] returns the first partition of an open drive
    whose name is the label, and -1 when there is none or the drive is not
    open. *)
Theorem find_label_first Ds drv label :
  drives_ok Ds ->
  exists i, disk_find_partition_by_label Ds drv label = Ok i /\
    ((i = -1 /\ forall j p, drive_part Ds drv j p -> ~ name_matches (dp_name p) label) \/
     (exists p, drive_part Ds drv i p /\ name_matches (dp_name p) label) /\
      forall j p, j < i -> drive_part Ds drv j p -> ~ name_matches (dp_name p) label).
Proof.
  intros HD. apply wp_inv. pose proof HD as [HDl HF]. unfold disk_find_partition_by_label, MAX_DISKS in *.
  assert (Hpart : forall j p, drive_part Ds drv j p ->
    0 <= drv < 4 /\ 0 <= j /\ part_ok p /\ exists d, Ds !! Z.to_nat drv = Some d /\ is_open d <> 0 /\ j < n_parts d).
  { intros j p Hj. assert (Hw : wp (open_part Ds drv j) (fun o => match o with Some q => part_ok q | _ => True end))
      by (by apply open_part_ok). unfold drive_part in Hj. rewrite Hj in Hw.
    unfold open_part, MAX_DISKS in Hj. case_if_in Hj; [done|]. case_if_in Hj; [done|]. bools.
    destruct (Ds !! Z.to_nat drv) as [d|]; [|done]. case_if_in Hj; [done|]. case_if_in Hj; [done|].
    split_and!; [lia..|done|]. by exists d. }
  case_if; [apply wp_Ok; left; split; [done|]; intros j p (? & _)%Hpart; lia|]. bools.
  destruct (lookup_lt_is_Some_2 Ds (Z.to_nat drv)) as [d Hd]; [unfold zlen in *; lia|]. rewrite Hd in *.
  case_if; [apply wp_Ok; left; split; [done|]; intros j p (_ & _ & _ & d' & [= <-] & ? & _)%Hpart; lia|].
  apply (wp_loop (fun i => 0 <= i /\ forall j p, j < i -> drive_part Ds drv j p -> ~ name_matches (dp_name p) label)
    (fun i => Z.to_nat (n_parts d - i))); [|split; [lia|]; intros j p ? (_ & ? & _)%Hpart; lia|lia].
  intros i (Hi & Hno). case_if.
  { apply wp_Ok. left. split; [done|]. intros j p Hj. apply (Hno j); [|done].
    destruct (Hpart j p Hj) as (_ & _ & _ & d' & [= <-] & _ & ?). lia. }
  assert (Hopen : wp (open_part Ds drv i) (fun o => open_part Ds drv i = Ok o)).
  { assert (Hw : wp (open_part Ds drv i) (fun _ => True)) by (by apply open_part_ok).
    by destruct (open_part Ds drv i). }
  eapply wp_bind_mono; [exact Hopen|]. intros [p|] Ho.
  - destruct (Hpart i p Ho) as (_ & _ & Hp & _).
    eapply wp_bind_mono; [apply part_name_eq_spec, Hp|]. intros [|] Hm; apply wp_Ok.
    + right. split; [|done]. exists p. split; [done|]. by apply Hm.
    + split; [|lia]. split; [lia|]. intros j q Hj Hq. destruct (decide (j = i)) as [->|]; [|apply (Hno j); [lia|done]].
      unfold drive_part in Hq. rewrite Ho in Hq. injection Hq as <-. intros Hx%Hm. done.
  - apply wp_Ok. split; [|lia]. split; [lia|]. intros j q Hj Hq.
    destruct (decide (j = i)) as [->|]; [|apply (Hno j); [lia|done]].
    unfold drive_part in Hq. by rewrite Ho in Hq.
Qed.

(** ** Checksums *)

Lemma crc_bit_agree v : 0 <= v -> gpt_crc32_bit v = gz_crc32_bit v.
Proof.
  intros Hv. unfold gpt_crc32_bit, gz_crc32_bit, GZIP_CRC32_POLY.
  assert (Z.land v 1 = 0 \/ Z.land v 1 = 1) as [-> | ->].
  { change (Z.land v 1) with (Z.land v (Z.ones 1)). rewrite Z.land_ones by lia. change (2 ^ 1) with 2. dlia. }
  - simpl. by rewrite Z.lxor_0_r.
  - reflexivity.
Qed.

Lemma gpt_crc32_update_spec data len :
  bytes data -> 0 <= len <= zlen data ->
  gpt_crc32_update gpt_crc32_init data len = Ok (crc_of (slice data 0 len)).
Proof.
  intros Hd Hl.
  assert (Hw : wp (gpt_crc32_update gpt_crc32_init data len) (fun v => v = crc_of (slice data 0 len))).
  2: { apply wp_inv in Hw as (v & -> & ->). done. }
  apply (wp_loop (fun '(i, v) => 0 <= i <= len /\ v = crc_of (slice data 0 i))
    (fun '(i, _) => Z.to_nat (len - i))); [|split; [lia|done]|lia].
  intros [i v] (Hi & ->). case_if; [apply wp_Ok; do 2 f_equal; lia|].
  apply wp_bind, wp_rd; [lia|]. apply wp_Ok. split; [|lia]. split; [lia|].
  rewrite slice_split, slice_one by lia. rewrite crc_of_snoc. unfold gz_crc32_byte.
  pose proof (crc_of_range (slice data 0 i) (slice_bytes _ _ _ Hd)) as Hc.
  pose proof (at_byte data i Hd ltac:(lia)) as Hb. unfold is_byte in Hb.
  assert (Hr : 0 <= Z.lxor (crc_of (slice data 0 i)) (at_ data i) < 2 ^ 32) by (apply lxor_range; lia).
  revert Hr. generalize (Z.lxor (crc_of (slice data 0 i)) (at_ data i)). intros x Hx.
  assert (Hit : forall n, Nat.iter n gpt_crc32_bit x = Nat.iter n gz_crc32_bit x /\
    0 <= Nat.iter n gz_crc32_bit x < 2 ^ 32).
  { induction n as [|n [IH1 IH2]]; [done|]. rewrite !Nat.iter_succ, IH1, crc_bit_agree by lia.
    split; [done|]. by apply crc_bit_range. }
  apply Hit.
Qed.

(** The two CRC-32 routines of the program compute the same function: the
    branch-free one of the partition tables gives, on any buffer, the value the
    decompressor checks in a gzip trailer. *)
Theorem crc32_implementations_agree data :
  bytes data ->
  exists v, gpt_crc32_update gpt_crc32_init data (zlen data) = Ok v /\
    gpt_crc32_final v = Z.lxor (foldl gz_crc32_byte GZIP_CRC32_INIT data) GZIP_CRC32_FINAL_XOR.
Proof.
  intros Hd. exists (crc_of data). split; [|done]. rewrite gpt_crc32_update_spec by (done || wblia).
  do 2 f_equal. unfold slice, zlen. by rewrite Nat2Z.id, drop_0, firstn_all.
Qed.
