(* ===== verification/Sdhci.v ===== *)
(** * Sdhci: byte access to a block device (src/sdhci.c)

    [disk_read] and [disk_write] of the SD/eMMC driver split an access of any
    alignment and size into transfers of 512-byte blocks, reading and modifying
    the blocks it covers in part.  The transfer itself ([sdhci_read],
    [sdhci_write]) is an interface; the eMMC build, with multi-block transfers,
    is modelled. *)

From Stdlib Require Import ZArith Lia.
From stdpp Require Import prelude.
From S2P Require Import Prelude Gpt Disk.

Local Open Scope Z_scope.

Definition SDHCI_BLOCK_SIZE : Z := 512.

(** Transfers of whole blocks: [sdhci_read b block_addr dst] returns a status
    and the buffer afterwards. *)
Class block_api (blk : Type) : Type := BlockApi {
  sdhci_read : blk -> Z -> list Z -> Z * list Z;
  sdhci_write : blk -> Z -> list Z -> Z * blk;
}.

(** What the driver relies on: a transfer that returns 0 has moved every byte,
    an error is negative, and a write changes nothing outside its blocks.  The
    register-level [sdhci_transfer] behind [sdhci_read] and [sdhci_write] puts the number of blocks
    in a 16-bit field, so that this holds of it below 65536 blocks (32 MiB) a transfer. *)
Class block_laws (blk : Type) (B : block_api blk) (blk_byte : blk -> Z -> Z) : Prop := BlockLaws {
  sdhci_read_law : forall b addr dst r dst', bytes dst -> sdhci_read b addr dst = (r, dst') ->
    r <= 0 /\ zlen dst' = zlen dst /\ bytes dst' /\
    (r = 0 -> forall i, 0 <= i < zlen dst -> at_ dst' i = blk_byte b (addr * SDHCI_BLOCK_SIZE + i));
  sdhci_write_law : forall b addr src r b', bytes src -> sdhci_write b addr src = (r, b') ->
    r <= 0 /\
    (r = 0 -> forall i, 0 <= i < zlen src -> blk_byte b' (addr * SDHCI_BLOCK_SIZE + i) = at_ src i) /\
    forall a, a < addr * SDHCI_BLOCK_SIZE \/ addr * SDHCI_BLOCK_SIZE + zlen src <= a ->
      blk_byte b' a = blk_byte b a;
}.

Section Sdhci.
Context {blk : Type} {B : block_api blk}.

(** Address of the caller's buffer, and what the temporary block holds. *)
Context (buf_addr : Z) (tmp_block : list Z).

(** The part of a transfer that fits in the current block. *)
Definition chunk_size (count start_offset : Z) : Z :=
  let sz := if SDHCI_BLOCK_SIZE <? count then SDHCI_BLOCK_SIZE else count in
  if SDHCI_BLOCK_SIZE - start_offset <? sz then SDHCI_BLOCK_SIZE - start_offset else sz.

(** Whether the next transfer has to go through the temporary block. *)
Definition is_partial (count start_offset pos : Z) : bool :=
  (count <? SDHCI_BLOCK_SIZE) || negb (start_offset =? 0) || negb ((buf_addr + pos) mod 4 =? 0).

(** The value returned and the buffer afterwards; [pos] is how far [buf] has
    advanced. *)
Definition sdhci_disk_read (b : blk) (drv start count : Z) (buf : list Z) : outcome (Z * list Z) :=
  loop (S (Z.to_nat count)) (fun '(start, pos, count, start_offset, buf, tmp) =>
    if negb (0 <? count) then Ok (inr (0, buf)) else
    let block_addr := start / SDHCI_BLOCK_SIZE in
    if 0xFFFFFFFF <? block_addr then Ok (inr (-1, buf)) else
    if is_partial count start_offset pos then
      let read_sz := chunk_size count start_offset in
      let '(status, tmp) := sdhci_read b block_addr tmp in
      if negb (status =? 0) then Ok (inr (status, buf)) else
      let! buf := blit buf pos (slice tmp start_offset read_sz) in
      Ok (inl (u64 (start + read_sz), pos + read_sz, count - read_sz, 0, buf, tmp))
    else
      let read_sz := count / SDHCI_BLOCK_SIZE * SDHCI_BLOCK_SIZE in
      let '(status, dst) := sdhci_read b block_addr (slice buf pos read_sz) in
      let! buf := blit buf pos dst in
      if negb (status =? 0) then Ok (inr (status, buf)) else
      Ok (inl (u64 (start + read_sz), pos + read_sz, count - read_sz, start_offset, buf, tmp)))
  (start, 0, count, start mod SDHCI_BLOCK_SIZE, buf, tmp_block).

(** The value returned and the device afterwards. *)
Definition sdhci_disk_write (b : blk) (drv start : Z) (buf : list Z) : outcome (Z * blk) :=
  loop (S (Z.to_nat (zlen buf))) (fun '(start, pos, count, start_offset, b, tmp) =>
    if negb (0 <? count) then Ok (inr (0, b)) else
    let block_addr := start / SDHCI_BLOCK_SIZE in
    if 0xFFFFFFFF <? block_addr then Ok (inr (-1, b)) else
    if is_partial count start_offset pos then
      let write_sz := chunk_size count start_offset in
      let '(status, tmp) := sdhci_read b block_addr tmp in
      if negb (status =? 0) then Ok (inr (status, b)) else
      let! tmp := blit tmp start_offset (slice buf pos write_sz) in
      let '(status, b) := sdhci_write b block_addr tmp in
      if negb (status =? 0) then Ok (inr (status, b)) else
      Ok (inl (u64 (start + write_sz), pos + write_sz, count - write_sz, 0, b, tmp))
    else
      let write_sz := count / SDHCI_BLOCK_SIZE * SDHCI_BLOCK_SIZE in
      let '(status, b) := sdhci_write b block_addr (slice buf pos write_sz) in
      if negb (status =? 0) then Ok (inr (status, b)) else
      Ok (inl (u64 (start + write_sz), pos + write_sz, count - write_sz, start_offset, b, tmp)))
  (start, 0, zlen buf, start mod SDHCI_BLOCK_SIZE, b, tmp_block).

#[export] Instance sdhci_disk : disk_api blk := {|
  disk_read := sdhci_disk_read;
  disk_write := sdhci_disk_write;
|}.

(** ** Correctness *)

Context (blk_byte : blk -> Z -> Z) {L : block_laws blk B blk_byte}.
Context (Htmp : zlen tmp_block = SDHCI_BLOCK_SIZE) (Htb : bytes tmp_block).

Lemma chunk_size_spec count so :
  0 < count -> 0 <= so < 512 ->
  0 < chunk_size count so <= count /\ so + chunk_size count so <= 512 /\
  (chunk_size count so < count -> so + chunk_size count so = 512).
Proof.
  intros. unfold chunk_size, SDHCI_BLOCK_SIZE. destruct (Z.ltb_spec 512 count); case_if; lia.
Qed.

(** Whole blocks left when the transfer is direct. *)
Lemma direct_spec count so pos :
  0 < count -> is_partial count so pos = false ->
  so = 0 /\ 0 < count / 512 * 512 <= count.
Proof.
  unfold is_partial, SDHCI_BLOCK_SIZE. intros Hc H. bools. split; [done|]. Z.div_mod_to_equations. lia.
Qed.

Lemma sdhci_read_spec b drv start count buf :
  0 <= start -> 0 <= count < 2 ^ 31 -> count <= zlen buf -> bytes buf ->
  wp (sdhci_disk_read b drv start count buf) (fun '(r, buf') =>
    r <= 0 /\ zlen buf' = zlen buf /\ bytes buf' /\
    (forall i, count <= i -> at_ buf' i = at_ buf i) /\
    (r = 0 -> forall i, 0 <= i < count -> at_ buf' i = blk_byte b (start + i))).
Proof.
  intros Hs Hc Hl Hb. unfold sdhci_disk_read, SDHCI_BLOCK_SIZE.
  apply (wp_loop (fun '(st, pos, cnt, so, bf, tmp) => st = start + pos /\ 0 <= pos /\ 0 <= cnt /\
      pos + cnt = count /\ (0 < cnt -> st mod 512 = so) /\ zlen bf = zlen buf /\ bytes bf /\
      zlen tmp = 512 /\ bytes tmp /\ (forall i, count <= i -> at_ bf i = at_ buf i) /\
      (forall i, 0 <= i < pos -> at_ bf i = blk_byte b (start + i)))
    (fun '(_, _, cnt, _, _, _) => Z.to_nat cnt)); [|split_and!; done || lia|lia].
  intros [[[[[st pos] cnt] so] bf] tmp] (-> & Hp & Hcnt & Hsum & Hso & Hbl & Hbb & Htl & Htbb & Hfar & Hnear).
  case_if; [apply wp_Ok; split_and!; try done; intros _ i Hi; apply Hnear; lia|].
  specialize (Hso ltac:(lia)). case_if; [by apply wp_Ok; split_and!|].
  assert (Hstart : 512 * ((start + pos) / 512) + so = start + pos) by (subst so; symmetry; apply Z.div_mod; lia).
  assert (Hsr : 0 <= so < 512) by (subst so; apply Z.mod_pos_bound; lia).
  destruct (is_partial cnt so pos) eqn:Epart.
  - destruct (chunk_size_spec cnt so) as (Hn & Hfit & Hmore); [lia..|].
    set (n := chunk_size cnt so) in *.
    destruct (sdhci_read b ((start + pos) / 512) tmp) as [r tmp'] eqn:Er.
    destruct (sdhci_read_law (blk_byte := blk_byte) _ _ _ _ _ Htbb Er) as (R1 & R2 & R3 & R4).
    case_if; [by apply wp_Ok; split_and!|]. specialize (R4 E1).
    assert (Hsl : zlen (slice tmp' so n) = n) by (apply slice_length; lia).
    apply wp_bind, wp_blit; [lia..|]. intros bf' B1 B2 B3. apply wp_Ok. rewrite Hsl in *.
    unfold SDHCI_BLOCK_SIZE in *. rewrite u64_small by lia. split; [|lia].
    assert (Hbytes : forall i, 0 <= i < n -> at_ bf' (pos + i) = blk_byte b (start + (pos + i))).
    { intros i Hi. rewrite B2, at_slice, R4 by lia. f_equal. lia. }
    split_and!; try done; try lia.
    + intros Hmo. rewrite <- Hstart.
      replace (512 * ((start + pos) / 512) + so + n) with (((start + pos) / 512 + 1) * 512) by lia.
      apply Z.mod_mul. lia.
    + apply (blit_bytes bf pos (slice tmp' so n)); rewrite ?Hsl; try done; try lia. by apply slice_bytes.
    + intros i Hi. rewrite B3 by lia. by apply Hfar.
    + intros i Hi. destruct (Z.lt_ge_cases i pos); [rewrite B3 by lia; apply Hnear; lia|].
      replace i with (pos + (i - pos)) by lia. apply Hbytes. lia.
  - destruct (direct_spec cnt so pos) as (-> & Hn); [lia|done|]. set (n := cnt / 512 * 512) in *.
    assert (Hsl : zlen (slice bf pos n) = n) by (apply slice_length; lia).
    destruct (sdhci_read b ((start + pos) / 512) (slice bf pos n)) as [r dst] eqn:Er.
    destruct (sdhci_read_law (blk_byte := blk_byte) _ _ _ _ _ (slice_bytes _ _ _ Hbb) Er) as (R1 & R2 & R3 & R4).
    rewrite Hsl in *. apply wp_bind, wp_blit; [lia..|]. intros bf' B1 B2 B3. rewrite R2 in *.
    assert (Hbf : bytes bf') by (apply (blit_bytes bf pos dst); rewrite ?R2; try done; lia).
    assert (Hfar' : forall i, count <= i -> at_ bf' i = at_ buf i).
    { intros i Hi. rewrite B3 by lia. by apply Hfar. }
    case_if; [apply wp_Ok; split_and!; try done; lia|]. specialize (R4 E1). apply wp_Ok.
    unfold SDHCI_BLOCK_SIZE in *. rewrite u64_small by lia. split; [|lia].
    split_and!; try done; try lia.
    + intros Hmo. unfold n. rewrite Z.add_mod, Z.mod_mul, Hso by lia. done.
    + intros i Hi. destruct (Z.lt_ge_cases i pos); [rewrite B3 by lia; apply Hnear; lia|].
      replace i with (pos + (i - pos)) by lia. rewrite B2, R4 by lia. f_equal. lia.
Qed.

(** Byte [a] is in no block of the range. *)
Definition outside_blocks (start n a : Z) : Prop :=
  a / 512 < start / 512 \/ (start + n - 1) / 512 < a / 512.

(** A transfer at [st] inside the range covers only blocks of the range. *)
Lemma outside_transfer start n st k a :
  start <= st -> 0 < k -> st / 512 * 512 + k <= (start + n - 1) / 512 * 512 + 512 ->
  outside_blocks start n a ->
  a < st / 512 * 512 \/ st / 512 * 512 + k <= a.
Proof. unfold outside_blocks. intros. Z.div_mod_to_equations. lia. Qed.

(** A block read, changed and written back: the bytes of the buffer are in it,
    and the others are as they were. *)
Section Modify.
Context (start pos so n : Z) (b1 b2 : blk) (tmp tmp2 buf : list Z).
Context (Hstart : 512 * ((start + pos) / 512) + so = start + pos) (Hp : 0 <= pos) (Hs : 0 <= start).
Context (Hso : 0 <= so < 512) (Hn : 0 < n) (Hfit : so + n <= 512) (Hbuf : pos + n <= zlen buf).
Context (Ht : zlen tmp = 512) (Ht2 : zlen tmp2 = 512).
Context (Hread : forall i, 0 <= i < 512 -> at_ tmp i = blk_byte b1 ((start + pos) / 512 * 512 + i)).
Context (Hmod : forall i, 0 <= i < n -> at_ tmp2 (so + i) = at_ (slice buf pos n) i).
Context (Hkeep : forall i, 0 <= i -> i < so \/ so + n <= i -> at_ tmp2 i = at_ tmp i).
Context (Hwrite : forall i, 0 <= i < 512 -> blk_byte b2 ((start + pos) / 512 * 512 + i) = at_ tmp2 i).
Context (Hrest : forall a, a < (start + pos) / 512 * 512 \/ (start + pos) / 512 * 512 + 512 <= a ->
  blk_byte b2 a = blk_byte b1 a).

Lemma rmw_same a : a < start + pos \/ start + pos + n <= a -> blk_byte b2 a = blk_byte b1 a.
Proof.
  intros Ha. destruct (decide ((start + pos) / 512 * 512 <= a < (start + pos) / 512 * 512 + 512)) as [Hi|].
  - replace a with ((start + pos) / 512 * 512 + (a - (start + pos) / 512 * 512)) by lia.
    rewrite Hwrite, Hkeep, Hread by lia. done.
  - apply Hrest. lia.
Qed.

Lemma rmw_in :
  (forall i, 0 <= i < pos -> blk_byte b1 (start + i) = at_ buf i) ->
  forall i, 0 <= i < pos + n -> blk_byte b2 (start + i) = at_ buf i.
Proof.
  intros Hin i Hi. destruct (Z.lt_ge_cases i pos); [rewrite rmw_same by lia; apply Hin; lia|].
  replace (start + i) with ((start + pos) / 512 * 512 + (so + (i - pos))) by lia.
  rewrite Hwrite, Hmod, at_slice by lia. f_equal. lia.
Qed.

Lemma rmw_out b0 :
  (forall a, a < start \/ start + pos <= a -> blk_byte b1 a = blk_byte b0 a) ->
  forall a, a < start \/ start + (pos + n) <= a -> blk_byte b2 a = blk_byte b0 a.
Proof. intros Hout a Ha. rewrite rmw_same by lia. apply Hout. lia. Qed.
End Modify.

Lemma sdhci_write_spec b drv start buf :
  0 <= start -> zlen buf < 2 ^ 31 -> bytes buf ->
  wp (sdhci_disk_write b drv start buf) (fun '(r, b') =>
    r <= 0 /\
    (r = 0 -> (forall i, 0 <= i < zlen buf -> blk_byte b' (start + i) = at_ buf i) /\
              (forall a, a < start \/ start + zlen buf <= a -> blk_byte b' a = blk_byte b a)) /\
    forall a, outside_blocks start (zlen buf) a -> blk_byte b' a = blk_byte b a).
Proof.
  intros Hs Hc Hb. unfold sdhci_disk_write, SDHCI_BLOCK_SIZE.
  apply (wp_loop (fun '(st, pos, cnt, so, b1, tmp) => st = start + pos /\ 0 <= pos /\ 0 <= cnt /\
      pos + cnt = zlen buf /\ (0 < cnt -> st mod 512 = so) /\ zlen tmp = 512 /\ bytes tmp /\
      (forall i, 0 <= i < pos -> blk_byte b1 (start + i) = at_ buf i) /\
      (forall a, a < start \/ start + pos <= a -> blk_byte b1 a = blk_byte b a))
    (fun '(_, _, cnt, _, _, _) => Z.to_nat cnt)); [|pose proof (zlen_nonneg buf); split_and!; done || lia|lia].
  intros [[[[[st pos] cnt] so] b1] tmp] (-> & Hp & Hcnt & Hsum & Hso & Htl & Htbb & Hin & Hout).
  assert (Hhull : forall a, outside_blocks start (zlen buf) a -> blk_byte b1 a = blk_byte b a).
  { intros a Ha. apply Hout. unfold outside_blocks in Ha. destruct (decide (zlen buf = 0)) as [Hz|].
    - lia.
    - clear -Ha Hp Hcnt Hsum. Z.div_mod_to_equations. lia. }
  case_if. { apply wp_Ok. assert (pos = zlen buf) as -> by lia. split_and!; [lia|done|done]. }
  specialize (Hso ltac:(lia)). case_if; [by apply wp_Ok; split_and!; [lia|lia|]|].
  assert (Hstart : 512 * ((start + pos) / 512) + so = start + pos) by (subst so; symmetry; apply Z.div_mod; lia).
  assert (Hsr : 0 <= so < 512) by (subst so; apply Z.mod_pos_bound; lia).
  assert (Hlast : start + pos <= start + zlen buf - 1) by lia.
  destruct (is_partial cnt so pos) eqn:Epart.
  - destruct (chunk_size_spec cnt so) as (Hn & Hfit & Hmore); [lia..|].
    set (n := chunk_size cnt so) in *.
    destruct (sdhci_read b1 ((start + pos) / 512) tmp) as [r tmp'] eqn:Er.
    destruct (sdhci_read_law (blk_byte := blk_byte) _ _ _ _ _ Htbb Er) as (R1 & R2 & R3 & R4).
    case_if; [by apply wp_Ok; split_and!; [lia|lia|]|]. specialize (R4 E1).
    assert (Hsl : zlen (slice buf pos n) = n) by (apply slice_length; lia).
    apply wp_bind, wp_blit; [lia..|]. intros tmp2 B1 B2 B3. rewrite Hsl in *.
    assert (Hb2 : bytes tmp2).
    { apply (blit_bytes tmp' so (slice buf pos n)); rewrite ?Hsl; try done; try lia. by apply slice_bytes. }
    destruct (sdhci_write b1 ((start + pos) / 512) tmp2) as [r2 b2] eqn:Ew.
    destruct (sdhci_write_law (blk_byte := blk_byte) _ _ _ _ _ Hb2 Ew) as (W1 & W2 & W3).
    unfold SDHCI_BLOCK_SIZE in *. assert (Ht2 : zlen tmp2 = 512) by lia. assert (Ht' : zlen tmp' = 512) by lia.
    rewrite Ht2 in W2, W3. rewrite Htl in R4.
    assert (Hhull2 : forall a, outside_blocks start (zlen buf) a -> blk_byte b2 a = blk_byte b a).
    { intros a Ha. rewrite <- Hhull by done. apply W3.
      apply (outside_transfer start (zlen buf)); [lia..| |done]. clear -Hlast. Z.div_mod_to_equations. lia. }
    case_if; [apply wp_Ok; split_and!; [lia|lia|done]|]. specialize (W2 E2). apply wp_Ok.
    rewrite u64_small by lia. split; [|lia]. split_and!; try done; try lia.
    + intros Hmo. rewrite <- Hstart.
      replace (512 * ((start + pos) / 512) + so + n) with (((start + pos) / 512 + 1) * 512) by lia.
      apply Z.mod_mul. lia.
    + apply (rmw_in start pos so n b1 b2 tmp' tmp2); try done; lia.
    + apply (rmw_out start pos so n b1 b2 tmp' tmp2); try done; lia.
  - destruct (direct_spec cnt so pos) as (-> & Hn); [lia|done|]. set (n := cnt / 512 * 512) in *.
    assert (Hsl : zlen (slice buf pos n) = n) by (apply slice_length; lia).
    destruct (sdhci_write b1 ((start + pos) / 512) (slice buf pos n)) as [r2 b2] eqn:Ew.
    destruct (sdhci_write_law (blk_byte := blk_byte) _ _ _ _ _ (slice_bytes _ _ _ Hb) Ew) as (W1 & W2 & W3).
    rewrite Hsl in *. unfold SDHCI_BLOCK_SIZE in *.
    assert (Hhull2 : forall a, outside_blocks start (zlen buf) a -> blk_byte b2 a = blk_byte b a).
    { intros a Ha. rewrite <- Hhull by done. apply W3.
      apply (outside_transfer start (zlen buf)); [lia..| |done].
      assert (Hle : start + pos + n <= start + zlen buf) by lia. clear -Hle Hstart Hlast.
      Z.div_mod_to_equations. lia. }
    case_if; [apply wp_Ok; split_and!; [lia|lia|done]|]. specialize (W2 E1). apply wp_Ok.
    rewrite u64_small by lia. split; [|lia]. split_and!; try done; try lia.
    + intros Hmo. unfold n. rewrite Z.add_mod, Z.mod_mul, Hso by lia. done.
    + intros i Hi. destruct (Z.lt_ge_cases i pos); [rewrite W3 by lia; apply Hin; lia|].
      replace (start + i) with ((start + pos) / 512 * 512 + (i - pos)) by lia.
      rewrite W2, at_slice by lia. f_equal. lia.
    + intros a Ha. rewrite W3 by lia. apply Hout. lia.
Qed.

#[export] Instance sdhci_disk_laws : disk_laws blk sdhci_disk (fun b _ a => blk_byte b a).
Proof.
  constructor.
  - intros b drv a n buf Ha Hn Hl Hb. eapply wp_mono; [apply sdhci_read_spec; try done; lia|].
    intros [r buf'] (H1 & H2 & H3 & H4 & H5). split_and!; auto.
  - intros b drv a l Ha Hn Hl Hb. eapply wp_mono; [by apply sdhci_write_spec|].
    intros [r b'] (H1 & H2 & H3). split_and!; [done| |by intros _ x Hx; apply H3].
    intros Hr. destruct (H2 Hr) as [H4 H5]. split; [done|]. intros _ x Hx. by apply H5.
Qed.
End Sdhci.
