(* ===== verification/DiskExample.v ===== *)
(** * DiskExample: the disk stack on a concrete device

    The SD/eMMC access theorems, and the partition theorems instantiated with
    that driver on a device held in memory. *)

From Stdlib Require Import ZArith Lia.
From stdpp Require Import prelude.
From S2P Require Import Prelude Gpt Disk DiskSpec Gzip GptSpec Sdhci.

Local Open Scope Z_scope.

Section Results.
Context {blk : Type} {B : block_api blk} (blk_byte : blk -> Z -> Z) {L : block_laws blk B blk_byte}.
Context (buf_addr : Z) (tmp_block : list Z).
Context (Htmp : zlen tmp_block = SDHCI_BLOCK_SIZE) (Htb : bytes tmp_block).

(** A read of the SD/eMMC driver moves exactly the bytes asked for, whatever the
    alignment of the position, of the size and of the buffer: it returns without
    an access outside the buffers, and when it returns 0 the first [count] bytes
    of the buffer are those of the device and the others are untouched. *)
Theorem sdhci_read_exact b drv start count buf :
  0 <= start -> 0 <= count < 2 ^ 31 -> count <= zlen buf -> bytes buf ->
  exists r buf', sdhci_disk_read buf_addr tmp_block b drv start count buf = Ok (r, buf') /\
    r <= 0 /\ zlen buf' = zlen buf /\ (forall i, count <= i -> at_ buf' i = at_ buf i) /\
    (r = 0 -> forall i, 0 <= i < count -> at_ buf' i = blk_byte b (start + i)).
Proof.
  intros H1 H2 H3 H4.
  destruct (wp_inv _ _ (sdhci_read_spec buf_addr tmp_block blk_byte Htmp Htb b drv start count buf H1 H2 H3 H4))
    as ([r buf'] & Hr & R1 & R2 & R3 & R4 & R5).
  exists r, buf'. split_and!; try done; auto.
Qed.

(** C13: A write of the SD/eMMC driver changes exactly the bytes asked for, although
    the device only takes whole blocks: when it returns 0 the range holds the
    buffer and every other byte of the device is what it was; when it fails,
    nothing outside the blocks of the range has changed. *)
Theorem sdhci_write_exact b drv start buf :
  0 <= start -> zlen buf < 2 ^ 31 -> bytes buf ->
  exists r b', sdhci_disk_write buf_addr tmp_block b drv start buf = Ok (r, b') /\ r <= 0 /\
    (r = 0 -> (forall i, 0 <= i < zlen buf -> blk_byte b' (start + i) = at_ buf i) /\
              (forall a, a < start \/ start + zlen buf <= a -> blk_byte b' a = blk_byte b a)) /\
    (forall a, a / 512 < start / 512 \/ (start + zlen buf - 1) / 512 < a / 512 ->
       blk_byte b' a = blk_byte b a).
Proof.
  intros H1 H2 H3.
  destruct (wp_inv _ _ (sdhci_write_spec buf_addr tmp_block blk_byte Htmp Htb b drv start buf H1 H2 H3))
    as ([r b'] & Hr & R1 & R2 & R3).
  exists r, b'. split_and!; try done; auto.
Qed.
End Results.

Module Ram.

(** A device in memory; transfers always succeed. *)
Definition read (b : Z -> Z) (addr : Z) (dst : list Z) : Z * list Z :=
  (0, (fun i => u8 (b (addr * 512 + i))) <$> seqZ 0 (zlen dst)).
Definition write (b : Z -> Z) (addr : Z) (src : list Z) : Z * (Z -> Z) :=
  (0, fun a => if (addr * 512 <=? a) && (a <? addr * 512 + zlen src) then at_ src (a - addr * 512) else b a).

#[export] Instance api : block_api (Z -> Z) := {| sdhci_read := read; sdhci_write := write |}.

#[export] Instance laws : block_laws (Z -> Z) api (fun b a => u8 (b a)).
Proof.
  constructor.
  - intros b addr dst r dst' Hb [= <- <-]. pose proof (zlen_nonneg dst).
    assert (Hl : zlen ((fun i => u8 (b (addr * 512 + i))) <$> seqZ 0 (zlen dst)) = zlen dst).
    { unfold zlen at 1. rewrite length_fmap, length_seqZ. lia. }
    split_and!; [lia|done| |].
    + apply Forall_fmap, Forall_true. intros x. simpl. apply u8_range.
    + intros _ i Hi. unfold at_. rewrite list_lookup_fmap, lookup_seqZ_lt by lia.
      simpl. unfold SDHCI_BLOCK_SIZE. do 2 f_equal. lia.
  - intros b addr src r b' Hb [= <- <-]. unfold SDHCI_BLOCK_SIZE. split_and!; [lia| |].
    + intros _ i Hi. destruct (Z.leb_spec (addr * 512) (addr * 512 + i)); [|lia].
      destruct (Z.ltb_spec (addr * 512 + i) (addr * 512 + zlen src)); [|lia]. cbn [andb].
      replace (addr * 512 + i - addr * 512) with i by lia. apply u8_small. by apply at_byte.
    + intros a Ha. destruct (Z.leb_spec (addr * 512) a), (Z.ltb_spec a (addr * 512 + zlen src));
        cbn [andb]; try done; lia.
Qed.

Definition block : list Z := replicate 512 0.
Lemma block_len : zlen block = SDHCI_BLOCK_SIZE.
Proof. reflexivity. Qed.
Lemma block_bytes : bytes block.
Proof. apply Forall_replicate. unfold is_byte. lia. Qed.

(** The driver, with the buffer at an odd address. *)
#[export] Instance driver : disk_api (Z -> Z) := sdhci_disk 3 block.
#[export] Instance driver_laws : disk_laws (Z -> Z) driver (fun b _ a => u8 (b a)).
Proof. apply (sdhci_disk_laws 3 block (fun b a => u8 (b a))); [apply block_len|apply block_bytes]. Qed.

(** A disk with an MBR and one partition, sectors 1 and 2. *)
Definition mbr (a : Z) : Z :=
  if a =? 510 then 0x55 else if a =? 511 then 0xAA else
  if a =? 450 then 0x83 else if a =? 454 then 1 else if a =? 458 then 2 else
  if a <? 512 then 0 else 7 * a.

Definition part0 : disk_partition := mkPart 0 0 0 (replicate 36 0).
Definition Drives : list disk_drive := replicate 4 (mkDrive 0 0 0 (replicate 16 part0)).
Definition entry : list Z := replicate 256 0.

Lemma Drives_ok : drives_ok Drives.
Proof.
  split; [reflexivity|]. apply Forall_replicate. split_and!; [simpl; unfold MAX_PARTITIONS; lia..|reflexivity|].
  simpl. intros. lia.
Qed.

(** The same drives with the disk opened. *)
Definition opened : list disk_drive :=
  match disk_open mbr block entry Drives 0 with Ok (_, Ds) => Ds | _ => [] end.
Definition part1 : disk_partition := mkPart 0 512 1535 (replicate 36 0).

Lemma opened_part : open_part opened 0 0 = Ok (Some part1).
Proof. vm_compute. reflexivity. Qed.

Lemma entry_bytes : bytes entry.
Proof. apply Forall_replicate. unfold is_byte. lia. Qed.

End Ram.

#[local] Existing Instances Ram.api Ram.laws Ram.driver Ram.driver_laws.

Lemma disk_open_safe_witness :
  exists Ds', disk_open Ram.mbr Ram.block Ram.entry Ram.Drives 0 = Ok (1, Ds') /\
    open_post Ram.Drives 0 1 Ds'.
Proof.
  destruct (disk_open_safe (fun b _ a => u8 (b a)) Ram.mbr Ram.block Ram.entry Ram.Drives 0
    Ram.Drives_ok Ram.block_len Ram.block_bytes eq_refl Ram.entry_bytes) as (r & Ds' & Hr & Hp).
  assert (r = 1) as ->.
  { assert (H : match disk_open Ram.mbr Ram.block Ram.entry Ram.Drives 0 with
                | Ok (r, _) => r | _ => 0 end = 1) by (vm_compute; reflexivity).
    rewrite Hr in H. exact H. }
  exists Ds'. split; [exact Hr|exact Hp].
Defined.

Lemma opened_drives_ok : drives_ok Ram.opened.
Proof.
  pose proof (disk_open_spec (fun b _ a => u8 (b a)) Ram.mbr Ram.block Ram.entry Ram.Drives 0
    Ram.Drives_ok Ram.block_len Ram.block_bytes eq_refl Ram.entry_bytes) as Hw.
  apply wp_inv in Hw as ([r Ds'] & Hr & Hp & _). unfold Ram.opened. rewrite Hr. exact Hp.
Qed.

(** Forty bytes written at offset 1000 of a partition of 1024 bytes: the first
    24 fit. *)
Lemma disk_part_write_isolated_witness :
  exists r d', disk_part_write Ram.mbr Ram.opened 0 0 1000 40 (seqZ 1 40) = Ok (r, d') /\
    u8 (d' 511) = 0xAA /\ u8 (d' 1536) = 0.
Proof.
  destruct (disk_part_write_isolated (fun b _ a => u8 (b a)) Ram.opened 0 0 1000 40 Ram.part1
    opened_drives_ok Ram.opened_part ltac:(lia) ltac:(lia) Ram.mbr (seqZ 1 40)
    ltac:(vm_compute; congruence) ltac:(repeat constructor; vm_compute; congruence)) as (r & d' & Hw & Hout).
  exists r, d'. split; [exact Hw|]. split.
  - exact (Hout 0 511 ltac:(left; simpl; lia)).
  - exact (Hout 0 1536 ltac:(right; simpl; lia)).
Defined.

Lemma disk_part_roundtrip_witness :
  exists d' buf, disk_part_write Ram.mbr Ram.opened 0 0 1000 40 (seqZ 1 40) = Ok (24, d') /\
    disk_part_read d' Ram.opened 0 0 1000 40 (replicate 40 0) = Ok (24, buf) /\ at_ buf 23 = 24.
Proof.
  pose (w := disk_part_write Ram.mbr Ram.opened 0 0 1000 40 (seqZ 1 40)).
  pose (d' := match w with Ok (_, d) => d | _ => Ram.mbr end).
  pose (rd := disk_part_read d' Ram.opened 0 0 1000 40 (replicate 40 0)).
  pose (buf := match rd with Ok (_, b) => b | _ => [] end).
  assert (Hw : w = Ok (24, d')).
  { assert (H : match w with Ok (r, _) => r | _ => 0 end = 24) by (vm_compute; reflexivity).
    assert (H2 : match w with Ok _ => true | _ => false end = true) by (vm_compute; reflexivity).
    unfold d'. destruct w as [[r d]| |]; [|discriminate H2..]. rewrite H. reflexivity. }
  assert (Hr : rd = Ok (24, buf)) by (vm_compute; reflexivity).
  exists d', buf. split; [exact Hw|]. split; [exact Hr|].
  destruct (disk_part_roundtrip (fun b _ a => u8 (b a)) Ram.opened 0 0 1000 40 Ram.part1
    opened_drives_ok Ram.opened_part ltac:(lia) ltac:(lia) Ram.mbr (seqZ 1 40) 24 d' (replicate 40 0) 24 buf
    ltac:(vm_compute; congruence) ltac:(repeat constructor; vm_compute; congruence)
    ltac:(vm_compute; congruence) ltac:(repeat constructor; vm_compute; congruence)
    Hw ltac:(lia) Hr ltac:(lia)) as (_ & _ & Hi).
  exact (Hi 23 ltac:(lia)).
Defined.

Lemma find_label_first_witness :
  exists i, disk_find_partition_by_label Ram.opened 0 [] = Ok i /\ i = 0.
Proof.
  destruct (find_label_first Ram.opened 0 [] opened_drives_ok) as (i & Hi & _).
  exists i. split; [exact Hi|]. vm_compute in Hi. congruence.
Defined.

Lemma part_name_eq_iff_witness :
  name_matches (0xfeff :: seqZ 65 3 ++ replicate 32 0) (seqZ 65 3).
Proof.
  destruct (part_name_eq_iff (0xfeff :: seqZ 65 3 ++ replicate 32 0) (seqZ 65 3) eq_refl) as (b & Hb & Hm).
  apply Hm. vm_compute in Hb. congruence.
Defined.

Lemma crc32_implementations_agree_witness :
  exists v, gpt_crc32_update gpt_crc32_init (seqZ 49 9) 9 = Ok v /\ gpt_crc32_final v = 0xCBF43926.
Proof.
  destruct (crc32_implementations_agree (seqZ 49 9)) as (v & Hv & Hf).
  - repeat constructor; vm_compute; congruence.
  - exists v. split; [exact Hv|]. rewrite Hf. vm_compute. reflexivity.
Defined.

Lemma sdhci_read_exact_witness :
  exists buf, sdhci_disk_read 3 Ram.block Ram.mbr 0 500 600 (replicate 700 9) = Ok (0, buf) /\
    at_ buf 11 = 0xAA /\ at_ buf 650 = 9.
Proof.
  destruct (sdhci_read_exact (fun b a => u8 (b a)) 3 Ram.block Ram.block_len Ram.block_bytes
    Ram.mbr 0 500 600 (replicate 700 9)) as (r & buf & Hr & _ & _ & Hfar & Hin).
  - lia.
  - lia.
  - vm_compute. congruence.
  - apply Forall_replicate. unfold is_byte. lia.
  - assert (r = 0) as ->.
    { assert (H : match sdhci_disk_read 3 Ram.block Ram.mbr 0 500 600 (replicate 700 9) with
                  | Ok (r, _) => r | _ => 1 end = 0) by (vm_compute; reflexivity).
      rewrite Hr in H. exact H. }
    exists buf. split; [exact Hr|]. split.
    + rewrite (Hin eq_refl 11 ltac:(lia)). vm_compute. reflexivity.
    + rewrite (Hfar 650 ltac:(lia)). vm_compute. reflexivity.
Defined.

Lemma sdhci_write_exact_witness :
  exists r b', sdhci_disk_write 3 Ram.block Ram.mbr 0 500 (seqZ 0 100) = Ok (r, b') /\ u8 (b' 1024) = 0.
Proof.
  destruct (sdhci_write_exact (fun b a => u8 (b a)) 3 Ram.block Ram.block_len Ram.block_bytes
    Ram.mbr 0 500 (seqZ 0 100)) as (r & b' & Hr & _ & _ & Hout).
  - lia.
  - vm_compute. congruence.
  - repeat constructor; vm_compute; congruence.
  - exists r, b'. split; [exact Hr|]. exact (Hout 1024 ltac:(right; vm_compute; reflexivity)).
Defined.
