(* ===== verification/DualBoot.v ===== *)
(** * DualBoot: choosing between two bootable partitions

    [wolfBoot_dualboot_candidate] and [wolfBoot_fallback_is_possible] of
    libwolfboot.c, and the two boot loaders built on them: update_ram.c, which
    copies the chosen firmware to RAM, and update_flash_hwswap.c, which lets
    the flash controller exchange the two banks.  Configuration:
    WOLFBOOT_DUALBOOT with WOLFBOOT_FIXED_PARTITIONS on memory-mapped internal
    flash, a fixed WOLFBOOT_LOAD_ADDRESS, no ELF, FIT or device tree; whether
    downgrades are allowed (ALLOW_DOWNGRADE) and whether U-Boot legacy headers
    are honoured (WOLFBOOT_UBOOT_LEGACY) are parameters. *)

From Stdlib Require Import ZArith Lia.
From stdpp Require Import prelude.
From S2P Require Import Prelude Flash Trailer Image UpdateFlash Gpt.

Local Open Scope Z_scope.

(** ** U-Boot legacy headers *)

Definition UBOOT_IMG_HDR_MAGIC : Z := 0x56190527.
Definition UBOOT_IMG_HDR_SZ : Z := 64.

(** Byte swap of the little-endian word at [p]. *)
Definition uboot_read_be32 (p : list Z) (off : Z) : outcome Z :=
  let! x := rd_le p off 4 in
  Ok (Z.lor (Z.lor (Z.lor
    (Z.shiftr (Z.land x 0xFF000000) 24)
    (Z.shiftr (Z.land x 0x00FF0000) 8))
    (Z.shiftl (Z.land x 0x0000FF00) 8))
    (Z.shiftl (Z.land x 0x000000FF) 24)).

(** [hdr] is what is mapped at the header, [None] for the NULL pointer. *)
Definition uboot_legacy_header_valid (hdr : option (list Z)) (total : Z) : outcome bool :=
  match hdr with
  | None => Ok false
  | Some hdr =>
      if total <? UBOOT_IMG_HDR_SZ then Ok false else
      let! magic := rd_le hdr 0x00 4 in
      if negb (magic =? UBOOT_IMG_HDR_MAGIC) then Ok false else
      let! size := uboot_read_be32 hdr 0x0C in
      if size =? 0 then Ok false else
      if total - UBOOT_IMG_HDR_SZ <? size then Ok false else
      let scratch := slice hdr 0 UBOOT_IMG_HDR_SZ in
      let! hcrc := uboot_read_be32 scratch 0x04 in
      let! scratch := blit scratch 0x04 [0; 0; 0; 0] in
      let! ctx := gpt_crc32_update gpt_crc32_init scratch UBOOT_IMG_HDR_SZ in
      let crc := gpt_crc32_final ctx in
      if negb (hcrc =? crc) then Ok false else Ok true
  end.

(** ** Where an image may be loaded *)

Definition ramboot_region_overlap (img_lo img_hi wb_lo wb_hi : Z) : bool :=
  if img_hi <? img_lo then true else
  if wb_lo =? 0 then img_lo <? wb_hi else
  (img_lo <? wb_hi) && (wb_lo <? img_hi).

(** [memcpy] into RAM. *)
Definition ram_put (ram : mem) (dst : Z) (d : list Z) : mem :=
  fun a => if in_range dst (zlen d) a then at_ d (a - dst) else ram a.

(** Load an image from memory-mapped flash [m] to [ram], whose contents it
    returns; [uintptr] is the modulus of addresses, [wb_lo] and [wb_hi] the
    bounds of wolfBoot's own memory.  Without WOLFBOOT_RAMBOOT_MAX_SIZE. *)
Definition wolfBoot_ramboot {c : config} (uintptr wb_lo wb_hi : Z) (m ram : mem) (src dst : Z)
    : outcome (Z * mem) :=
  let ram := ram_put ram dst (mread m src IMAGE_HEADER_SIZE) in
  let! ret := wolfBoot_get_blob_version ram dst in
  if i32 ret <=? 0 then Ok (-1, ram) else
  let img_size := wolfBoot_image_size ram dst in
  if (WOLFBOOT_PARTITION_SIZE <=? IMAGE_HEADER_SIZE) ||
     (WOLFBOOT_PARTITION_SIZE - IMAGE_HEADER_SIZE <? img_size) then Ok (-1, ram) else
  let img_lo := dst in
  let img_hi := (img_lo + IMAGE_HEADER_SIZE + img_size) mod uintptr in
  if ramboot_region_overlap img_lo img_hi wb_lo wb_hi then Ok (-1, ram) else
  Ok (0, ram_put ram (dst + IMAGE_HEADER_SIZE) (mread m (src + IMAGE_HEADER_SIZE) img_size)).

Section DualBoot.
Context {c : config} {H : hash_api} {K : keystore_api} {V : verify_api}.
Context (allow_downgrade : bool).

(** ** The candidate *)

Definition wolfBoot_current_firmware_version : prog Z :=
  let* m := look in lift (wolfBoot_get_image_version m PART_BOOT).
Definition wolfBoot_update_firmware_version : prog Z :=
  let* m := look in lift (wolfBoot_get_image_version m PART_UPDATE).

Definition wolfBoot_dualboot_candidate : prog Z :=
  let* boot_v := wolfBoot_current_firmware_version in
  let* update_v := wolfBoot_update_firmware_version in
  if (boot_v =? 0) && (update_v =? 0) then Ret (-1) else
  let fallback_possible := negb (boot_v =? 0) && ((0 <? boot_v) && (0 <? update_v)) in
  let candidate :=
    if boot_v =? 0 then PART_UPDATE
    else if (0 <? boot_v) && (0 <? update_v) then
      if boot_v <? update_v then PART_UPDATE else PART_BOOT
    else PART_BOOT in
  if fallback_possible then
    let* (ret, p_state) := wolfBoot_get_partition_state candidate 0 in
    if (ret =? 0) && (p_state =? IMG_STATE_TESTING) then
      let candidate_v := if candidate =? PART_BOOT then boot_v else update_v in
      let fallback_v := if candidate =? PART_BOOT then update_v else boot_v in
      if negb allow_downgrade && (fallback_v <? candidate_v) then Ret candidate else
      let* _ := wolfBoot_erase_partition candidate in
      Ret (Z.lxor candidate 1)
    else Ret candidate
  else Ret candidate.

Definition wolfBoot_fallback_is_possible : prog bool :=
  let* boot_v := wolfBoot_current_firmware_version in
  let* update_v := wolfBoot_update_firmware_version in
  if (boot_v =? 0) || (update_v =? 0) then Ret false else Ret true.

(** [wolfBoot_open_image], [wolfBoot_verify_integrity] and
    [wolfBoot_verify_authenticity] in turn, up to the first that fails. *)
Definition verify_part (active : Z) : prog (Z * wolfBoot_image) :=
  let* m := look in
  let '(ret, os_image) := wolfBoot_open_image m active in
  if ret <? 0 then Ret (ret, os_image) else
  let* (ret, os_image) := lift (wolfBoot_verify_integrity m os_image) in
  if ret <? 0 then Ret (ret, os_image) else
  wolfBoot_verify_authenticity m os_image.

(** The anti-rollback guard both loaders repeat. *)
Definition rollback_refused (active boot_v update_v : Z) : bool :=
  let max_v := if update_v <? boot_v then boot_v else update_v in
  let active_v := if active =? PART_UPDATE then update_v else boot_v in
  negb allow_downgrade && (0 <? max_v) && (active_v <? max_v).

(** First boot of an update: UPDATING becomes TESTING. *)
Definition start_testing (active : Z) : prog unit :=
  let* (ret, p_state) := wolfBoot_get_partition_state active 0 in
  if (ret =? 0) && (p_state =? IMG_STATE_UPDATING) then
    let* _ := flash_unlock in
    let* _ := wolfBoot_set_partition_state active IMG_STATE_TESTING in
    flash_lock
  else Ret tt.

(** [hal_flash_protect] of the target. *)
Context (hal_flash_protect : Z).

(** ** update_ram.c *)

(** One turn of [for (;;)]: the partition to try next, or the image selected. *)
Definition ram_select_body (boot_v update_v active : Z) : prog (Z + (Z * wolfBoot_image)) :=
  let* active := (if active <? 0 then wolfBoot_dualboot_candidate else Ret active) in
  if active <? 0 then Stop HPanic else
  if rollback_refused active boot_v update_v then Stop HPanic else
  let* (ret, os_image) := verify_part active in
  if ret <? 0 then
    let* possible := wolfBoot_fallback_is_possible in
    if negb possible then Stop HPanic else Ret (inl (Z.lxor active 1))
  else Ret (inr (active, os_image)).

Definition ram_select (fuel : nat) : prog (Z * wolfBoot_image) :=
  let* boot_v := wolfBoot_current_firmware_version in
  let* update_v := wolfBoot_update_firmware_version in
  ploop fuel (ram_select_body boot_v update_v) (-1).

Context (WOLFBOOT_LOAD_ADDRESS : Z) (legacy : bool).

(** What [do_boot] finds: its argument, and the bytes copied to RAM. *)
Record handoff : Type := mkHandoff {
  ho_entry : Z;
  ho_load : Z;
  ho_bytes : list Z;
}.

(** The WOLFBOOT_UBOOT_LEGACY step: image, load address, entry point to use
    instead of it. *)
Definition uboot_strip (m : mem) (os_image : wolfBoot_image) (load_address : Z)
    : outcome (wolfBoot_image * Z * option Z) :=
  let image_ptr := get_sha_block os_image 0 in
  let header_at p := mread m p UBOOT_IMG_HDR_SZ in
  let! valid := uboot_legacy_header_valid (header_at <$> image_ptr) (fw_size os_image) in
  if valid then
    let hdr := header_at (default 0 image_ptr) in
    let! ih_load := uboot_read_be32 hdr 16 in
    let! ih_ep := uboot_read_be32 hdr 20 in
    let os_image := set_fw_base (fw_base os_image + UBOOT_IMG_HDR_SZ) os_image in
    let os_image := set_fw_size (fw_size os_image - UBOOT_IMG_HDR_SZ) os_image in
    if negb (ih_load =? 0) then
      Ok (os_image, ih_load,
          if negb (ih_ep =? 0) && negb (ih_ep =? ih_load) then Some ih_ep else None)
    else Ok (os_image, load_address + UBOOT_IMG_HDR_SZ, None)
  else Ok (os_image, load_address, None).

(** [wolfBoot_start] of update_ram.c; its value is what [do_boot] finds. *)
Definition ram_wolfBoot_start (fuel : nat) : prog handoff :=
  let* (active, os_image) := ram_select fuel in
  let load_address := WOLFBOOT_LOAD_ADDRESS in
  let* _ := start_testing active in
  let* m := look in
  let* (os_image, load_address, uboot_entry) :=
    (if legacy then lift (uboot_strip m os_image load_address)
     else Ret (os_image, load_address, None)) in
  let copied := mread m (fw_base os_image) (fw_size os_image) in
  if hal_flash_protect <? 0 then Stop HPanic else
  let* _ := part_sanity_check os_image in
  Ret (mkHandoff (default load_address uboot_entry) load_address copied).

(** ** update_flash_hwswap.c *)

(** [hal_flash_dualbank_swap] of the target. *)
Context (hal_flash_dualbank_swap : prog unit).

Definition hwswap_body (active : Z) : prog (Z + (Z * wolfBoot_image)) :=
  let* boot_v := wolfBoot_current_firmware_version in
  let* update_v := wolfBoot_update_firmware_version in
  if rollback_refused active boot_v update_v then Stop HPanic else
  let* (ret, fw_image) := verify_part active in
  if ret <? 0 then
    let* possible := wolfBoot_fallback_is_possible in
    if negb possible then Stop HPanic else
    let* _ := wolfBoot_erase_partition active in
    Ret (inl (Z.lxor active 1))
  else Ret (inr (active, fw_image)).

Definition hwswap_wolfBoot_start (fuel : nat) : prog unit :=
  let* active := wolfBoot_dualboot_candidate in
  if active <? 0 then Stop HPanic else
  let* (active, fw_image) := ploop fuel hwswap_body active in
  let* _ := (if active =? PART_BOOT then start_testing active else Ret tt) in
  let* _ :=
    (if active =? PART_UPDATE then
       let* _ := hal_flash_dualbank_swap in
       start_testing PART_BOOT
     else Ret tt) in
  if hal_flash_protect <? 0 then Stop HPanic else
  let* _ := part_sanity_check fw_image in
  Stop (HBoot (WOLFBOOT_PARTITION_BOOT_ADDRESS + IMAGE_HEADER_SIZE)).

End DualBoot.
