(* ===== verification/DualBootSpec.v ===== *)
(** * DualBootSpec: what the dual-bank loaders start

    Both loaders select an authentic image whose version no other partition
    exceeds.  The loader of update_flash_hwswap.c always terminates, since it
    erases the partition that failed; the one of update_ram.c does not. *)

From Stdlib Require Import ZArith Lia.
From stdpp Require Import prelude.
From S2P Require Import Prelude Flash Trailer Image ImageSpec UpdateFlash BootSafe Gpt DualBoot.

Local Open Scope Z_scope.

(** ** Moving an image *)

Section Reloc.
Context {c : config} {H : hash_api} {K : keystore_api} {V : verify_api}.

Definition shift_found (d : Z) (r : Z * option Z) : Z * option Z :=
  (fst r, (fun a => a + d) <$> snd r).
Definition shift_step (d : Z) (o : outcome (Z + (Z * option Z))) : outcome (Z + (Z * option Z)) :=
  match o with
  | Ok (inl p) => Ok (inl (p + d))
  | Ok (inr r) => Ok (inr (shift_found d r))
  | Oob => Oob
  | NoFuel => NoFuel
  end.

Lemma land1_shift p d : Z.even d = true -> Z.land (p + d) 1 = Z.land p 1.
Proof.
  intros Hd. apply Z.even_spec in Hd as [k ->]. change 1 with (Z.ones 1).
  rewrite !Z.land_ones by lia. change (2 ^ 1) with 2. rewrite (Z.mul_comm 2 k). apply Z_mod_plus_full.
Qed.

Lemma find_header_step_reloc m1 m2 d t max lo p :
  Z.even d = true -> (forall a, lo <= a < max -> m2 (a + d) = m1 a) -> lo <= p ->
  find_header_step m2 t (max + d) (p + d) = shift_step d (find_header_step m1 t max p).
Proof.
  intros Hd Hm Hp. unfold find_header_step.
  replace (p + d <? max + d) with (p <? max) by (destruct (Z.ltb_spec p max), (Z.ltb_spec (p + d) (max + d)); lia).
  replace (max + d - (p + d)) with (max - p) by lia.
  destruct (Z.ltb_spec p max); [|done]. destruct (Z.ltb_spec (max - p) 4); [done|]. cbn [negb].
  replace (p + d + 1) with (p + 1 + d) by lia. replace (p + d + 2) with (p + 2 + d) by lia.
  replace (p + d + 3) with (p + 3 + d) by lia. rewrite !Hm, land1_shift by (done || lia). cbv zeta.
  repeat match goal with
    | |- (if ?b then _ else _) = shift_step _ (if ?b then _ else _) => destruct b
    end; cbn; unfold shift_found; cbn; try done; [do 4 f_equal|do 2 f_equal]; lia.
Qed.

Lemma find_header_reloc m1 m2 d h t :
  Z.even d = true -> haystack_ok h -> haystack_ok (h + d) ->
  (forall a, h <= a < header_end h -> m2 (a + d) = m1 a) ->
  wolfBoot_find_header m2 (h + d) t = obind (wolfBoot_find_header m1 h t) (fun r => Ok (shift_found d r)).
Proof.
  intros Hd Hh Hh2 Hm. rewrite !find_header_enter by done.
  replace (header_end (h + d)) with (header_end h + d) by (unfold header_end; lia).
  enough (forall fuel p, h <= p -> loop fuel (find_header_step m2 t (header_end h + d)) (p + d) =
    obind (loop fuel (find_header_step m1 t (header_end h)) p) (fun r => Ok (shift_found d r))) as Hl
    by (apply Hl; lia).
  induction fuel as [|fuel IH]; intros p Hp; [done|]. simpl.
  rewrite (find_header_step_reloc m1 m2 d t _ h p) by done.
  destruct (find_header_step_cases m1 t (header_end h) p) as
    [(H1 & H2 & ->)|[(H1 & H2 & ->)|[(H1 & H2 & ->)|(H1 & H2 & ->)]]]; try done; cbn.
  - apply IH. pose proof (u16_range (Z.lor (m1 (p + 2)) (Z.shiftl (m1 (p + 3)) 8))) as Hl.
    fold (len_at m1 p) in Hl. lia.
  - apply IH. lia.
Qed.

(** [m2] holds at [b2] the [n] bytes that [m1] holds at [b1]. *)
Definition same_bytes (m1 : mem) (b1 : Z) (m2 : mem) (b2 n : Z) : Prop :=
  forall i, 0 <= i < n -> m2 (b2 + i) = m1 (b1 + i).

Lemma mread_reloc m1 b1 m2 b2 n a k :
  same_bytes m1 b1 m2 b2 n -> b1 <= a -> a + k <= b1 + n ->
  mread m2 (a + (b2 - b1)) k = mread m1 a k.
Proof.
  intros Hs Ha Hk. apply mread_ext. intros i Hi.
  replace (a + (b2 - b1) + i) with (b2 + (a - b1 + i)) by lia. rewrite Hs by lia. f_equal. lia.
Qed.

Lemma field_reloc m1 b1 m2 b2 n t len a :
  base_ok b1 -> base_ok b2 -> Z.even (b2 - b1) = true -> IMAGE_HEADER_SIZE <= n ->
  same_bytes m1 b1 m2 b2 n -> field m1 b1 t len a -> field m2 b2 t len (a + (b2 - b1)).
Proof.
  intros Hb1 Hb2 He Hn Hs Hf. unfold field in *.
  replace (b2 + IMAGE_HEADER_OFFSET) with (b1 + IMAGE_HEADER_OFFSET + (b2 - b1)) by lia.
  rewrite (find_header_reloc m1 m2); [by rewrite Hf|done|by apply base_haystack| |].
  - replace (b1 + IMAGE_HEADER_OFFSET + (b2 - b1)) with (b2 + IMAGE_HEADER_OFFSET) by lia.
    by apply base_haystack.
  - intros x Hx. unfold header_end, IMAGE_HEADER_OFFSET in Hx.
    replace (x + (b2 - b1)) with (b2 + (x - b1)) by lia. rewrite Hs by lia. f_equal. lia.
Qed.

Lemma mle16_reloc m1 b1 m2 b2 n a :
  same_bytes m1 b1 m2 b2 n -> b1 <= a -> a + 2 <= b1 + n -> mle16 m2 (a + (b2 - b1)) = mle16 m1 a.
Proof.
  intros Hs Ha Hn. unfold mle16.
  replace (a + (b2 - b1)) with (b2 + (a - b1)) by lia. rewrite <- Z.add_assoc, !Hs by lia.
  f_equal; [|f_equal]; f_equal; lia.
Qed.

Lemma mle32_reloc m1 b1 m2 b2 n a :
  same_bytes m1 b1 m2 b2 n -> b1 <= a -> a + 4 <= b1 + n -> mle32 m2 (a + (b2 - b1)) = mle32 m1 a.
Proof.
  intros Hs Ha Hn. unfold mle32.
  replace (a + (b2 - b1)) with (b2 + (a - b1)) by lia. rewrite <- !Z.add_assoc, !Hs by lia.
  replace (b1 + (a - b1)) with a by lia. rewrite !Z.add_assoc. by replace (b1 + (a - b1)) with a by lia.
Qed.

(** Authenticity is a property of the bytes, not of where they are. *)
Lemma authentic_reloc m1 b1 m2 b2 size :
  base_ok b1 -> base_ok b2 -> Z.even (b2 - b1) = true -> 0 <= size ->
  same_bytes m1 b1 m2 b2 (IMAGE_HEADER_SIZE + size) -> authentic m1 b1 size -> authentic m2 b2 size.
Proof.
  intros Hb1 Hb2 He Hsz Hs (sha & sig & hint & type & slot & [Hf1 Hdg] & Hf2 & Hsl & Hk & Hf3 & Hty & Hf4 & Hv).
  pose proof (field_bounds _ _ _ _ _ Hb1 Hf1) as B1. pose proof (field_bounds _ _ _ _ _ Hb1 Hf2) as B2.
  pose proof (field_bounds _ _ _ _ _ Hb1 Hf3) as B3. pose proof (field_bounds _ _ _ _ _ Hb1 Hf4) as B4.
  unfold IMAGE_HEADER_OFFSET in *. set (d := b2 - b1) in *.
  exists (sha + d), (sig + d), (hint + d), (type + d), slot. unfold d.
  rewrite !(mread_reloc m1 b1 m2 b2 _ _ _ Hs) by lia.
  split; [split|split_and!].
  - eapply field_reloc; eauto; lia.
  - rewrite (mread_reloc m1 b1 m2 b2 _ sha _ Hs), <- Hdg by lia. unfold image_digest_at.
    replace (sha + (b2 - b1) - 4 - b2) with (sha - 4 - b1) by lia.
    rewrite <- (mread_reloc m1 b1 m2 b2 _ b1 _ Hs), <- (mread_reloc m1 b1 m2 b2 _ (b1 + _) _ Hs) by lia.
    replace (b1 + (b2 - b1)) with b2 by lia.
    by replace (b1 + IMAGE_HEADER_SIZE + (b2 - b1)) with (b2 + IMAGE_HEADER_SIZE) by lia.
  - eapply field_reloc; eauto; lia.
  - apply Hsl.
  - apply Hsl.
  - done.
  - eapply field_reloc; eauto; lia.
  - rewrite (mle16_reloc m1 b1 m2 b2 _ _ Hs) by lia. apply Hty.
  - rewrite (mle16_reloc m1 b1 m2 b2 _ _ Hs) by lia. apply Hty.
  - eapply field_reloc; eauto; lia.
  - done.
Qed.

(** The version of an image: always found, and a function of its header. *)
Lemma blob_version_total m b :
  exists v, wolfBoot_get_blob_version m b = Ok v /\ (mem_ok m -> 0 <= v).
Proof.
  unfold wolfBoot_get_blob_version. case_if; [eauto with lia|]. case_if; [eauto with lia|].
  destruct (find_header_ok m (b + IMAGE_HEADER_OFFSET) HDR_VERSION) as [[len p] ->].
  cbn [obind]. case_if; [eauto with lia|]. destruct p as [p|]; [|eauto with lia].
  eexists. split; [done|]. intros Hok.
  unfold mle32. pose proof (Hok p). pose proof (Hok (p + 1)). pose proof (Hok (p + 2)).
  pose proof (Hok (p + 3)). wblia.
Qed.

Lemma blob_version_same m1 m2 b :
  base_ok b -> same_bytes m1 b m2 b IMAGE_HEADER_SIZE ->
  wolfBoot_get_blob_version m2 b = wolfBoot_get_blob_version m1 b.
Proof.
  intros Hb Hs. pose proof Hb as (_ & _ & Ho). unfold IMAGE_HEADER_OFFSET in Ho.
  unfold wolfBoot_get_blob_version. case_if; [done|].
  assert (forall a, b <= a -> a + 4 <= b + IMAGE_HEADER_SIZE -> mle32 m2 a = mle32 m1 a) as H32.
  { intros a ? ?. rewrite <- (mle32_reloc m1 b m2 b _ a Hs) by lia. f_equal. lia. }
  rewrite H32 by lia. case_if; [done|].
  rewrite (find_header_local m2 m1).
  - destruct (wolfBoot_find_header m1 _ _) as [[len p]| |] eqn:Ef; [|done..]. cbn [obind].
    destruct (Z.eqb_spec len 4) as [->|]; [|done]. cbn [negb]. destruct p as [p|]; [|done].
    pose proof (field_bounds _ _ _ _ _ Hb Ef) as Hbd. unfold IMAGE_HEADER_OFFSET in Hbd.
    by rewrite H32 by lia.
  - by apply base_haystack.
  - unfold header_end, IMAGE_HEADER_OFFSET. intros a Ha.
    replace a with (b + (a - b)) by lia. apply Hs. lia.
Qed.

End Reloc.

(** ** Versions and partitions *)

Section Dual.
Context {c : config} {G : geometry c} {H : hash_api} {HL : hash_laws H}
  {K : keystore_api} {V : verify_api}.
Context (HB : forall k, bytes (hash_final k)).

Definition bootable (part : Z) : Prop := part = PART_BOOT \/ part = PART_UPDATE.
Abbreviation base := wolfBoot_get_image_from_part.

(** The version the bootloader reads in a partition, 0 when it holds no image. *)
Definition version (m : mem) (part : Z) : Z :=
  match wolfBoot_get_image_version m part with Ok v => v | _ => 0 end.

Lemma base_boot : base PART_BOOT = WOLFBOOT_PARTITION_BOOT_ADDRESS.
Proof. done. Qed.
Lemma base_update : base PART_UPDATE = WOLFBOOT_PARTITION_UPDATE_ADDRESS.
Proof. done. Qed.

Lemma part_base_ok part : bootable part -> base_ok (base part).
Proof.
  pose proof geo_boot. pose proof geo_update. pose proof geo_hdr. destruct geo_part as (n & Hn & HP & _).
  assert (WOLFBOOT_SECTOR_SIZE <= WOLFBOOT_PARTITION_SIZE) by nia.
  intros [-> | ->]; rewrite ?base_boot, ?base_update; unfold base_ok, UINTPTR_MAX, IMAGE_HEADER_OFFSET; lia.
Qed.

Lemma part_size_hdr : IMAGE_HEADER_SIZE + 5 <= WOLFBOOT_PARTITION_SIZE.
Proof.
  pose proof geo_hdr. destruct geo_part as (n & Hn & HP & _). nia.
Qed.

Lemma bootable_flip part : bootable part -> bootable (Z.lxor part 1) /\ Z.lxor part 1 <> part.
Proof. intros [-> | ->]; unfold bootable; split; auto; done. Qed.

(** The two partitions do not overlap. *)
Lemma bases_disjoint part a :
  bootable part -> base part <= a < base part + WOLFBOOT_PARTITION_SIZE ->
  ~ (base (Z.lxor part 1) <= a < base (Z.lxor part 1) + WOLFBOOT_PARTITION_SIZE).
Proof.
  pose proof geo_disj_bu. intros [-> | ->]; [change (Z.lxor PART_BOOT 1) with PART_UPDATE
    |change (Z.lxor PART_UPDATE 1) with PART_BOOT]; rewrite base_boot, base_update; lia.
Qed.

Lemma version_spec m part :
  wolfBoot_get_image_version m part = Ok (version m part) /\
  (mem_ok m -> 0 <= version m part).
Proof.
  destruct (blob_version_total m (base part)) as (v & Hv & Hn).
  unfold version, wolfBoot_get_image_version. by rewrite Hv.
Qed.

Lemma ro_version part :
  ro (let* m := look in lift (wolfBoot_get_image_version m part)) (fun m => version m part).
Proof.
  intros s. cbn. rewrite (proj1 (version_spec (fmem s) part)). cbn. split; [done|].
  intros m' [->|[->|[]]]; done.
Qed.

Lemma run_ro {A B} (p : prog A) v (f : A -> prog B) s :
  ro p v -> run (pbind p f) s = run (f (v (fmem s))) s.
Proof. intros Hr. rewrite run_bind. by rewrite (proj1 (Hr s)). Qed.

(** An erased partition holds no image. *)
Lemma version_erased m part :
  bootable part -> version (nor_erase m (base part) WOLFBOOT_PARTITION_SIZE) part = 0.
Proof.
  intros Hp. pose proof part_size_hdr. pose proof geo_hdr.
  unfold version, wolfBoot_get_image_version, wolfBoot_get_blob_version.
  case_if; [done|]. unfold mle32. rewrite !nor_erase_in by lia. done.
Qed.

(** Erasing one partition leaves the other alone. *)
Lemma erase_other m part :
  bootable part ->
  same_bytes m (base (Z.lxor part 1)) (nor_erase m (base part) WOLFBOOT_PARTITION_SIZE)
    (base (Z.lxor part 1)) WOLFBOOT_PARTITION_SIZE.
Proof.
  intros Hp i Hi. apply nor_erase_out.
  replace (base part) with (base (Z.lxor (Z.lxor part 1) 1)) by (by destruct Hp as [-> | ->]).
  apply bases_disjoint; [by apply bootable_flip|lia].
Qed.

Lemma version_same m1 m2 part :
  bootable part -> same_bytes m1 (base part) m2 (base part) WOLFBOOT_PARTITION_SIZE ->
  version m2 part = version m1 part.
Proof.
  intros Hp Hs. pose proof part_size_hdr. unfold version, wolfBoot_get_image_version.
  rewrite (blob_version_same m1 m2); [done|by apply part_base_ok|]. intros i Hi. apply Hs. lia.
Qed.

Lemma run_erase_partition part s :
  bootable part ->
  run (wolfBoot_erase_partition part) s =
  (inl tt, mkFlash (nor_erase (fmem s) (base part) WOLFBOOT_PARTITION_SIZE) true).
Proof.
  pose proof part_size_hdr. pose proof geo_hdr.
  intros [-> | ->]; unfold wolfBoot_erase_partition; simpl;
    destruct (Z.ltb_spec 0 WOLFBOOT_PARTITION_SIZE); [done|lia|done|lia].
Qed.

Lemma run_fallback s :
  run wolfBoot_fallback_is_possible s =
  (inl (negb ((version (fmem s) PART_BOOT =? 0) || (version (fmem s) PART_UPDATE =? 0))), s).
Proof.
  unfold wolfBoot_fallback_is_possible, wolfBoot_current_firmware_version, wolfBoot_update_firmware_version.
  rewrite (run_ro _ _ _ _ (ro_version _)), (run_ro _ _ _ _ (ro_version _)). by case_if.
Qed.

(** ** The candidate *)

(** What [wolfBoot_dualboot_candidate] did: nothing found; [r] chosen with the
    flash untouched; or the other partition, still in TESTING, erased. *)
Definition chosen (allow_downgrade : bool) (s : flash) (r : Z) (s' : flash) : Prop :=
  (r = -1 /\ s' = s) \/
  (bootable r /\ 0 < version (fmem s) r /\ s' = s /\
   version (fmem s) (Z.lxor r 1) <= version (fmem s) r) \/
  (bootable r /\ 0 < version (fmem s) r /\
   s' = mkFlash (nor_erase (fmem s) (base (Z.lxor r 1)) WOLFBOOT_PARTITION_SIZE) true /\
   (allow_downgrade = false -> version (fmem s) (Z.lxor r 1) <= version (fmem s) r)).

Lemma candidate_spec ad s :
  mem_ok (fmem s) ->
  exists r s', run (wolfBoot_dualboot_candidate ad) s = (inl r, s') /\ chosen ad s r s'.
Proof.
  intros Hok. unfold wolfBoot_dualboot_candidate, wolfBoot_current_firmware_version,
    wolfBoot_update_firmware_version.
  rewrite (run_ro _ _ _ _ (ro_version _)), (run_ro _ _ _ _ (ro_version _)).
  pose proof (proj2 (version_spec (fmem s) PART_BOOT) Hok) as Hb.
  pose proof (proj2 (version_spec (fmem s) PART_UPDATE) Hok) as Hu.
  set (bv := version (fmem s) PART_BOOT) in *. set (uv := version (fmem s) PART_UPDATE) in *.
  destruct (Z.eqb_spec bv 0) as [Eb|Eb], (Z.eqb_spec uv 0) as [Eu|Eu]; cbn [andb negb].
  - exists (-1), s. split; [done|]. by left.
  - exists PART_UPDATE, s. split; [done|]. right; left.
    change (Z.lxor PART_UPDATE 1) with PART_BOOT. fold uv bv. unfold bootable. split_and!; auto; lia.
  - rewrite (proj2 (Z.ltb_lt 0 bv)) by lia. rewrite (proj2 (Z.ltb_ge 0 uv)) by lia. cbn [andb].
    exists PART_BOOT, s. split; [done|]. right; left.
    change (Z.lxor PART_BOOT 1) with PART_UPDATE. fold uv bv. unfold bootable. split_and!; auto; lia.
  - rewrite (proj2 (Z.ltb_lt 0 bv)), (proj2 (Z.ltb_lt 0 uv)) by lia. cbn [andb].
    set (cand := if bv <? uv then PART_UPDATE else PART_BOOT).
    assert (bootable cand /\ version (fmem s) (Z.lxor cand 1) <= version (fmem s) cand /\
      0 < version (fmem s) cand /\ 0 < version (fmem s) (Z.lxor cand 1) /\
      (if cand =? PART_BOOT then bv else uv) = version (fmem s) cand /\
      (if cand =? PART_BOOT then uv else bv) = version (fmem s) (Z.lxor cand 1))
      as (Hc & Hle & Hcp & Hop & -> & ->).
    { unfold cand. destruct (Z.ltb_spec bv uv);
      [change (Z.lxor PART_UPDATE 1) with PART_BOOT|change (Z.lxor PART_BOOT 1) with PART_UPDATE];
      cbn [Z.eqb PART_BOOT PART_UPDATE]; fold bv uv; unfold bootable; split_and!; auto; lia. }
    clearbody cand. cbv zeta. rewrite (run_ro _ _ _ _ (ro_get_partition_state cand 0 Hc)).
    assert (exists r s', (@inl Z halt cand, s) = (inl r, s') /\ chosen ad s r s') as Hkeep.
    { exists cand, s. split; [done|]. right; left. done. }
    destruct (magic_set (fmem s) cand); [|exact Hkeep]. cbn [Z.eqb andb].
    destruct (state_of (fmem s) cand =? IMG_STATE_TESTING); [|exact Hkeep].
    destruct (Z.ltb_spec (version (fmem s) (Z.lxor cand 1)) (version (fmem s) cand)) as [Hlt|Hge].
    + destruct ad; cbn [negb andb]; [|exact Hkeep].
      rewrite run_bind, run_erase_partition by done. eexists _, _. split; [done|]. right; right.
      rewrite Z.lxor_assoc, Z.lxor_nilpotent, Z.lxor_0_r.
      split; [by apply bootable_flip|]. split; [done|]. split; [done|]. done.
    + rewrite andb_false_r. rewrite run_bind, run_erase_partition by done. eexists _, _.
      split; [done|]. right; right. rewrite Z.lxor_assoc, Z.lxor_nilpotent, Z.lxor_0_r.
      split; [by apply bootable_flip|]. split; [done|]. split; [done|]. intros _. lia.
Qed.

(** ** Verification *)

(** [img] is a verified handle on the image of [part]. *)
Definition verified (m : mem) (part : Z) (img : wolfBoot_image) : Prop :=
  mle32 m (base part) = WOLFBOOT_MAGIC /\ fw_base img = base part + IMAGE_HEADER_SIZE /\
  fw_size img = mle32 m (base part + 4) /\ 0 <= fw_size img <= WOLFBOOT_PARTITION_SIZE - IMAGE_HEADER_SIZE /\
  authentic m (base part) (fw_size img).

Lemma open_part_handle m part r img :
  bootable part -> mem_ok m -> wolfBoot_open_image m part = (r, img) -> 0 <= r ->
  mle32 m (base part) = WOLFBOOT_MAGIC /\ handle_ok m img /\ hdr img = base part /\
  fw_size img = mle32 m (base part + 4) /\ fw_size img <= WOLFBOOT_PARTITION_SIZE - IMAGE_HEADER_SIZE /\
  signature_ok img = 0.
Proof.
  intros Hp Hok. pose proof (part_base_ok _ Hp) as Hb.
  assert (0 <= mle32 m (base part + 4)) as Hnn.
  { unfold mle32. pose proof (Hok (base part + 4)). pose proof (Hok (base part + 4 + 1)).
    pose proof (Hok (base part + 4 + 2)). pose proof (Hok (base part + 4 + 3)). wblia. }
  pose proof geo_boot. pose proof geo_hdr.
  assert (WOLFBOOT_PARTITION_SIZE < 2 ^ 31) by lia.
  unfold wolfBoot_open_image, wolfBoot_open_image_address, wolfBoot_image_size.
  replace (part =? PART_SWAP) with false by (by destruct Hp as [-> | ->]).
  replace ((part =? PART_BOOT) || (part =? PART_UPDATE)) with true by (by destruct Hp as [-> | ->]).
  replace (if part =? PART_BOOT then _ else _) with (base part) by (by destruct Hp as [-> | ->]).
  cbn -[mle32 base Z.ltb Z.eqb].
  destruct (Z.eqb_spec (mle32 m (base part)) WOLFBOOT_MAGIC); simpl negb; cbv iota; [|intros [= <- _]; lia].
  case_if; [intros [= <- _]; lia|]. intros [= <- <-] _. simpl.
  split; [done|]. split; [|split; [done|split; [done|split; [lia|done]]]].
  unfold handle_ok. simpl. split; [done|]. split; [done|]. split; [lia|]. done.
Qed.

Lemma verify_part_sound part s :
  bootable part -> mem_ok (fmem s) ->
  run (verify_part part) s = (inr HPanic, s) \/
  exists r img, run (verify_part part) s = (inl (r, img), s) /\ (0 <= r -> verified (fmem s) part img).
Proof.
  intros Hp Hok. unfold verify_part, look. cbn [pbind run].
  destruct (wolfBoot_open_image (fmem s) part) as [r0 img] eqn:E0.
  destruct (Z.ltb_spec r0 0).
  { right. exists r0, img. split; [done|]. lia. }
  destruct (open_part_handle _ _ _ _ Hp Hok E0) as (Hmg & Hh & Hhd & Hsz & Hle & Hs0); [done|].
  destruct (verify_integrity_total HB _ _ Hok Hh) as (r1 & img1 & E1 & Hp1 & Hg1 & Hc1).
  rewrite E1. cbn [lift]. rewrite pbind_ret.
  destruct (Z.ltb_spec r1 0).
  { right. exists r1, img1. split; [done|]. lia. }
  pose proof Hp1 as (Q1 & Q2 & Q3 & Q4 & Q5). pose proof Hh as (B1 & B2 & B3 & B4).
  assert (handle_ok (fmem s) img1) as Hh1.
  { split; [congruence|]. split; [congruence|].
    split; [by rewrite Q3|]. intros a Ha Hso. destruct Hc1 as [(_ & a' & Ha' & _ & Hi)|(_ & Hn & _)].
    - rewrite Q1, Q3. replace a with a' by congruence. done.
    - congruence. }
  destruct (verify_authenticity_sound HB (fmem s) img1 s Hok Hh1) as [Hpn|(r2 & img2 & E2 & Hp2 & Ha2)].
  - congruence.
  - by left.
  - right. exists r2, img2. split; [done|]. intros Hr2. destruct (Ha2 Hr2) as (_ & _ & _ & Hau).
    destruct Hp2 as (P1 & P2 & P3 & P4 & P5).
    assert (fw_size img2 = fw_size img) as Esz by congruence.
    split; [done|]. split; [congruence|]. split; [congruence|]. rewrite Esz. split; [lia|].
    rewrite Q1, Q3, Hhd in Hau. done.
Qed.

(** The image of a partition is the same in memories that agree on it. *)
Lemma verified_same m1 m2 part img :
  bootable part -> same_bytes m1 (base part) m2 (base part) WOLFBOOT_PARTITION_SIZE ->
  verified m2 part img -> verified m1 part img.
Proof.
  intros Hp Hs (H1 & H2 & H3 & H4 & H5). pose proof part_size_hdr. pose proof geo_hdr.
  assert (forall a, base part <= a -> a + 4 <= base part + WOLFBOOT_PARTITION_SIZE ->
    mle32 m2 a = mle32 m1 a) as H32.
  { intros a ? ?. rewrite <- (mle32_reloc m1 (base part) m2 (base part) _ a Hs) by lia. f_equal. lia. }
  rewrite H32 in H1, H3 by lia. split; [done|]. split; [done|]. split; [done|]. split; [done|].
  apply (authentic_reloc m2 (base part) m1 (base part)); try done.
  - by apply part_base_ok.
  - by apply part_base_ok.
  - by rewrite Z.sub_diag.
  - lia.
  - intros i Hi. symmetry. apply Hs. lia.
Qed.

(** Recording TESTING changes at most the state byte. *)
Lemma start_testing_spec part s :
  bootable part -> mem_ok (fmem s) ->
  exists s', run (start_testing part) s = (inl tt, s') /\ mem_ok (fmem s') /\
    forall a, a <> magic_addr part - 1 -> fmem s' a = fmem s a.
Proof.
  intros Hp Hok. unfold start_testing. rewrite (run_ro _ _ _ _ (ro_get_partition_state part 0 Hp)).
  destruct (magic_set (fmem s) part) eqn:Em; [|by exists s]. cbn [Z.eqb andb].
  case_if; [|by exists s]. cbn [flash_unlock pbind run].
  destruct (chl_set_state_live part IMG_STATE_TESTING (fmem s) Hp) with (s := hal_flash_unlock s)
    as [(r & s1 & Hr & -> & Hl & Hok1 & Hout & _) _]; [|done..|].
  { unfold IMG_STATE_TESTING. wblia. }
  rewrite run_bind, Hr. cbn. eexists. split; [done|]. split; [done|]. exact Hout.
Qed.

Lemma magic_addr_base part :
  bootable part -> magic_addr part = base part + WOLFBOOT_PARTITION_SIZE - 4.
Proof. intros [-> | ->]; done. Qed.

(** ** Selection in update_ram.c *)

(** [a] was selected, from the flash [s0], in state [s']. *)
Definition selected (ad : bool) (s0 : flash) (a : Z) (img : wolfBoot_image) (s' : flash) : Prop :=
  bootable a /\ mem_ok (fmem s') /\
  same_bytes (fmem s0) (base a) (fmem s') (base a) WOLFBOOT_PARTITION_SIZE /\
  verified (fmem s') a img /\
  (ad = false -> version (fmem s0) (Z.lxor a 1) <= version (fmem s0) a).

Lemma rollback_accepted m a :
  bootable a -> mem_ok m ->
  rollback_refused false a (version m PART_BOOT) (version m PART_UPDATE) = false ->
  version m (Z.lxor a 1) <= version m a.
Proof.
  intros Ha Hok. pose proof (proj2 (version_spec m PART_BOOT) Hok).
  pose proof (proj2 (version_spec m PART_UPDATE) Hok). unfold rollback_refused. cbn [negb andb].
  destruct (Z.ltb_spec (version m PART_UPDATE) (version m PART_BOOT));
  (destruct Ha as [-> | ->];
    [change (Z.lxor PART_BOOT 1) with PART_UPDATE|change (Z.lxor PART_UPDATE 1) with PART_BOOT];
    change (PART_BOOT =? PART_UPDATE) with false; change (PART_UPDATE =? PART_UPDATE) with true;
    cbv iota; intros [Hx|Hx]%andb_false_iff;
    apply Z.ltb_ge in Hx; lia).
Qed.

(** The turn once a partition has been chosen, from a flash that agrees with
    [s0] on it. *)
Lemma ram_body_tail ad s0 s a :
  bootable a -> mem_ok (fmem s0) -> mem_ok (fmem s) ->
  same_bytes (fmem s0) (base a) (fmem s) (base a) WOLFBOOT_PARTITION_SIZE ->
  (s = s0 \/ version (fmem s) (Z.lxor a 1) = 0) ->
  let bv := version (fmem s0) PART_BOOT in let uv := version (fmem s0) PART_UPDATE in
  let r := run (ram_select_body ad bv uv a) s in
  r = (inr HPanic, s) \/ (r = (inl (inl (Z.lxor a 1)), s0) /\ s = s0) \/
  exists img, r = (inl (inr (a, img)), s) /\ selected ad s0 a img s.
Proof.
  intros Ha Hok0 Hok Hs Hcase. cbv zeta. unfold ram_select_body.
  replace (a <? 0) with false by (by destruct Ha as [-> | ->]). rewrite pbind_ret.
  replace (a <? 0) with false by (by destruct Ha as [-> | ->]).
  case_if; [by left|]. rename E into Hrb.
  destruct (verify_part_sound a s Ha Hok) as [Hp|(r & img & Hp & Hv)]; rewrite run_bind, Hp; [by left|].
  destruct (Z.ltb_spec r 0) as [Hr|Hr].
  - rewrite run_bind, run_fallback.
    destruct (_ || _) eqn:Ef; [by left|]. cbn. right; left. destruct Hcase as [-> |Hz]; [done|].
    exfalso. apply orb_false_iff in Ef as [E1%Z.eqb_neq E2%Z.eqb_neq].
    by destruct Ha as [-> | ->].
  - right; right. exists img. cbn. split; [done|]. split; [done|]. split; [done|]. split; [done|].
    split; [by apply Hv|]. intros ->. by apply rollback_accepted.
Qed.

Lemma ram_body_first ad s0 :
  mem_ok (fmem s0) ->
  let bv := version (fmem s0) PART_BOOT in let uv := version (fmem s0) PART_UPDATE in
  let r := run (ram_select_body ad bv uv (-1)) s0 in
  (exists s', r = (inr HPanic, s')) \/ (exists a, bootable a /\ r = (inl (inl a), s0)) \/
  exists a img s', r = (inl (inr (a, img)), s') /\ selected ad s0 a img s'.
Proof.
  intros Hok. cbv zeta.
  destruct (candidate_spec ad s0 Hok) as (a & s1 & Hr & Hch).
  assert (bootable a -> run (ram_select_body ad (version (fmem s0) PART_BOOT)
    (version (fmem s0) PART_UPDATE) (-1)) s0 =
    run (ram_select_body ad (version (fmem s0) PART_BOOT) (version (fmem s0) PART_UPDATE) a) s1) as Hst.
  { intros Ha. unfold ram_select_body. cbn [Z.ltb Z.compare]. rewrite run_bind, Hr.
    replace (a <? 0) with false by (by destruct Ha as [-> | ->]). rewrite pbind_ret.
    by replace (a <? 0) with false by (by destruct Ha as [-> | ->]). }
  match goal with |- ?P => assert (bootable a -> mem_ok (fmem s1) ->
    same_bytes (fmem s0) (base a) (fmem s1) (base a) WOLFBOOT_PARTITION_SIZE ->
    (s1 = s0 \/ version (fmem s1) (Z.lxor a 1) = 0) -> P) as Hgo end.
  { intros Ha Hok1 Hs Hc. specialize (Hst Ha).
    destruct (ram_body_tail ad s0 s1 a Ha Hok Hok1 Hs Hc) as [Hx|[[Hx _]|(img & Hx & Hsel)]];
      rewrite Hx in Hst; [left; eauto|right; left|right; right; eauto].
    exists (Z.lxor a 1). split; [by apply bootable_flip|exact Hst]. }
  destruct Hch as [(-> & ->)|[(Ha & Hv & -> & Hle)|(Ha & Hv & -> & Hle)]].
  - left. exists s0. unfold ram_select_body. cbn [Z.ltb Z.compare]. by rewrite run_bind, Hr.
  - apply Hgo; auto. by intros i Hi.
  - pose proof (bootable_flip _ Ha) as [Hf _]. apply Hgo; simpl; auto using mem_ok_erase.
    + pose proof (erase_other (fmem s0) _ Hf) as Hs. rewrite Z.lxor_assoc in Hs. simpl in Hs.
      by rewrite Z.lxor_0_r in Hs.
    + right. by apply version_erased.
Qed.

Lemma ram_loop_spec ad s0 fuel a :
  mem_ok (fmem s0) -> a = -1 \/ bootable a ->
  let r := run (ploop fuel (ram_select_body ad (version (fmem s0) PART_BOOT)
    (version (fmem s0) PART_UPDATE)) a) s0 in
  (exists h s', r = (inr h, s') /\ (h = HPanic \/ h = HFuel)) \/
  exists a' img s', r = (inl (a', img), s') /\ selected ad s0 a' img s'.
Proof.
  intros Hok. revert a. induction fuel as [|fuel IH]; intros a Ha; cbv zeta; cbn [ploop].
  { left. exists HFuel, s0. auto. }
  rewrite run_bind. destruct Ha as [-> |Ha].
  - destruct (ram_body_first ad s0 Hok) as [(s' & ->)|[(b & Hb & ->)|(b & img & s' & -> & Hsel)]].
    + left. exists HPanic, s'. auto.
    + apply IH. auto.
    + right. by exists b, img, s'.
  - destruct (ram_body_tail ad s0 s0 a Ha Hok Hok) as [-> |[[-> _]|(img & -> & Hsel)]]; auto.
    + by intros i Hi.
    + left. exists HPanic, s0. auto.
    + apply IH. right. by apply bootable_flip.
    + right. by exists a, img, s0.
Qed.

Lemma ram_select_spec ad s0 fuel :
  mem_ok (fmem s0) ->
  (exists h s', run (ram_select ad fuel) s0 = (inr h, s') /\ (h = HPanic \/ h = HFuel)) \/
  exists a img s', run (ram_select ad fuel) s0 = (inl (a, img), s') /\ selected ad s0 a img s'.
Proof.
  intros Hok. unfold ram_select, wolfBoot_current_firmware_version, wolfBoot_update_firmware_version.
  rewrite (run_ro _ _ _ _ (ro_version _)), (run_ro _ _ _ _ (ro_version _)).
  apply ram_loop_spec; auto.
Qed.

(** ** Loading to RAM before verification *)

(** On success exactly the image is in RAM, bounded by the partition and clear of
    wolfBoot's own memory; otherwise at most a header was copied. *)
Lemma ramboot_spec uintptr wb_lo wb_hi m ram src dst :
  mem_ok m -> 2 ^ 31 <= uintptr -> 0 <= dst < uintptr -> 0 < wb_lo <= wb_hi ->
  exists r ram', wolfBoot_ramboot uintptr wb_lo wb_hi m ram src dst = Ok (r, ram') /\
    let size := mle32 m (src + 4) in
    (r = 0 \/ r = -1) /\
    (r = 0 -> IMAGE_HEADER_SIZE + size <= WOLFBOOT_PARTITION_SIZE /\
       dst + IMAGE_HEADER_SIZE + size < uintptr /\
       (dst + IMAGE_HEADER_SIZE + size <= wb_lo \/ wb_hi <= dst) /\
       mread ram' dst (IMAGE_HEADER_SIZE + size) = mread m src (IMAGE_HEADER_SIZE + size)) /\
    forall a, ~ (dst <= a < dst + IMAGE_HEADER_SIZE + (if r =? 0 then size else 0)) -> ram' a = ram a.
Proof.
  intros Hok Hup Hd Hw. pose proof geo_hdr. pose proof geo_boot. pose proof part_size_hdr. unfold wolfBoot_ramboot.
  set (ram1 := ram_put ram dst _).
  assert (forall i, 0 <= i < IMAGE_HEADER_SIZE -> ram1 (dst + i) = m (src + i)) as Hin.
  { intros i Hi. unfold ram1, ram_put. rewrite (proj2 (in_range_true _ _ _)) by (rewrite mread_length; lia).
    rewrite mread_at by lia. f_equal. lia. }
  assert (forall a, ~ (dst <= a < dst + IMAGE_HEADER_SIZE) -> ram1 a = ram a) as Hout.
  { intros a Ha. unfold ram1, ram_put. by rewrite (proj2 (in_range_false _ _ _)) by (rewrite mread_length; lia). }
  assert (wolfBoot_image_size ram1 dst = mle32 m (src + 4)) as ->.
  { unfold wolfBoot_image_size, mle32. rewrite <- !Z.add_assoc, !Hin by lia. done. }
  assert (0 <= mle32 m (src + 4)) as Hnn.
  { unfold mle32. pose proof (Hok (src + 4)). pose proof (Hok (src + 4 + 1)).
    pose proof (Hok (src + 4 + 2)). pose proof (Hok (src + 4 + 3)). wblia. }
  set (size := mle32 m (src + 4)) in *.
  assert (exists v, wolfBoot_get_blob_version ram1 dst = Ok v) as [v ->].
  { unfold wolfBoot_get_blob_version. case_if; [eauto|]. case_if; [eauto|].
    destruct (find_header_ok ram1 (dst + IMAGE_HEADER_OFFSET) HDR_VERSION) as [[len q] ->]. cbn [obind].
    case_if; [eauto|]. destruct q; eauto. }
  cbn [obind]. assert (exists r ram', Ok (-1, ram1) = Ok (r, ram') /\
    ((r = 0 \/ r = -1) /\ (r = 0 -> IMAGE_HEADER_SIZE + size <= WOLFBOOT_PARTITION_SIZE /\
       dst + IMAGE_HEADER_SIZE + size < uintptr /\
       (dst + IMAGE_HEADER_SIZE + size <= wb_lo \/ wb_hi <= dst) /\
       mread ram' dst (IMAGE_HEADER_SIZE + size) = mread m src (IMAGE_HEADER_SIZE + size)) /\
    forall a, ~ (dst <= a < dst + IMAGE_HEADER_SIZE + (if r =? 0 then size else 0)) -> ram' a = ram a)) as Hfail.
  { exists (-1), ram1. split; [done|]. split; [auto|]. split; [lia|]. simpl. intros a Ha. apply Hout. lia. }
  case_if; [exact Hfail|]. destruct (Z.leb_spec WOLFBOOT_PARTITION_SIZE IMAGE_HEADER_SIZE); [exact Hfail|].
  cbn [orb]. case_if; [exact Hfail|]. cbv zeta.
  destruct (ramboot_region_overlap _ _ _ _) eqn:Eo; [exact Hfail|].
  eexists 0, _. split; [done|]. split; [auto|].
  assert (dst + IMAGE_HEADER_SIZE + size < uintptr /\
    (dst + IMAGE_HEADER_SIZE + size <= wb_lo \/ wb_hi <= dst)) as [Hnw Hdj].
  { unfold ramboot_region_overlap in Eo. case_if_in Eo; [done|].
    destruct (Z.eqb_spec wb_lo 0); [lia|].
    destruct (Z.lt_ge_cases (dst + IMAGE_HEADER_SIZE + size) uintptr) as [Hlt|Hge].
    - rewrite Z.mod_small in Eo by lia. apply andb_false_iff in Eo as [Eo%Z.ltb_ge|Eo%Z.ltb_ge]; lia.
    - exfalso. assert ((dst + IMAGE_HEADER_SIZE + size) mod uintptr = dst + IMAGE_HEADER_SIZE + size - uintptr)
        by (symmetry; apply (Z.mod_unique_pos _ _ 1); lia). lia. }
  split.
  - intros _. split; [lia|]. split; [done|]. split; [done|]. apply mread_ext. intros i Hi.
    unfold ram_put at 1. destruct (Z.lt_ge_cases i IMAGE_HEADER_SIZE).
    + rewrite (proj2 (in_range_false _ _ _)) by lia. apply Hin. lia.
    + rewrite (proj2 (in_range_true _ _ _)) by (rewrite mread_length; lia).
      rewrite mread_at by lia. f_equal. lia.
  - simpl. intros a Ha. unfold ram_put at 1.
    rewrite (proj2 (in_range_false _ _ _)) by (rewrite mread_length; lia). apply Hout. lia.
Qed.

(** ** Handing over in update_ram.c *)

(** What the image of [part] in [m] becomes: copied as it is to the configured
    address, or without its U-Boot header to the address that header names. *)
Definition handed_over (legacy : bool) (load : Z) (m : mem) (fw size : Z) (h : handoff) : Prop :=
  (ho_entry h = load /\ ho_load h = load /\ ho_bytes h = mread m fw size) \/
  (legacy = true /\ uboot_legacy_header_valid (Some (mread m fw UBOOT_IMG_HDR_SZ)) size = Ok true /\
   ho_bytes h = mread m (fw + UBOOT_IMG_HDR_SZ) (size - UBOOT_IMG_HDR_SZ)).

Lemma uboot_valid_size hdr total :
  uboot_legacy_header_valid hdr total = Ok true -> UBOOT_IMG_HDR_SZ <= total.
Proof.
  destruct hdr as [hdr|]; [|done]. unfold uboot_legacy_header_valid. case_if; [done|]. lia.
Qed.

Lemma uboot_strip_spec m img load img' load' entry :
  0 <= fw_size img -> uboot_strip m img load = Ok (img', load', entry) ->
  handed_over true load m (fw_base img) (fw_size img)
    (mkHandoff (default load' entry) load' (mread m (fw_base img') (fw_size img'))).
Proof.
  intros Hsz. unfold uboot_strip, get_sha_block. rewrite (proj2 (Z.ltb_ge _ _)) by lia.
  rewrite Z.add_0_r. cbn [fmap option_fmap option_map default]. cbv zeta.
  set (v := uboot_legacy_header_valid _ _). assert (v = uboot_legacy_header_valid
    (Some (mread m (fw_base img) UBOOT_IMG_HDR_SZ)) (fw_size img)) as Ev by done. clearbody v.
  destruct v as [[]| |]; [| |done..]; cbn [obind].
  - destruct (uboot_read_be32 _ 16) as [ld| |]; [|done..]. cbn [obind].
    destruct (uboot_read_be32 _ 20) as [ep| |]; [|done..]. cbn [obind]. intros Hx. right.
    split; [done|]. split; [done|]. simpl. by case_if_in Hx; injection Hx as <- <- <-.
  - intros [= <- <- <-]. by left.
Qed.

Lemma handed_over_same legacy load m1 m2 fw size h :
  0 <= size -> (forall a, fw <= a < fw + size -> m2 a = m1 a) ->
  handed_over legacy load m2 fw size h -> handed_over legacy load m1 fw size h.
Proof.
  intros Hsz Hs [(H1 & H2 & H3)|(H1 & H2 & H3)].
  - left. split; [done|]. split; [done|]. rewrite H3. apply mread_ext. intros i Hi. apply Hs. lia.
  - right. pose proof (uboot_valid_size _ _ H2) as Hge. unfold UBOOT_IMG_HDR_SZ in *. split; [done|].
    rewrite <- (mread_ext m2 m1 fw fw 64) by (intros i Hi; apply Hs; lia). split; [done|].
    rewrite H3. apply mread_ext. intros i Hi. apply Hs. lia.
Qed.

Lemma ram_start_tail ad prot load legacy fuel s h s' :
  mem_ok (fmem s) -> run (ram_wolfBoot_start ad prot load legacy fuel) s = (inl h, s') ->
  exists a img s1, selected ad s a img s1 /\
    (forall x, x <> magic_addr a - 1 -> fmem s' x = fmem s1 x) /\
    handed_over legacy load (fmem s') (fw_base img) (fw_size img) h.
Proof.
  intros Hok. unfold ram_wolfBoot_start. rewrite run_bind.
  destruct (ram_select_spec ad s fuel Hok) as [(h' & s1 & -> & _)|(a & img & s1 & -> & Hsel)]; [done|].
  pose proof Hsel as (Ha & Hok1 & Hs1 & (Hv1 & Hv2 & Hv3 & Hv4 & Hv5) & Hver).
  destruct (start_testing_spec a s1 Ha Hok1) as (s2 & Ht & Hok2 & Hout).
  rewrite run_bind, Ht, (run_ro look (fun m => m) _ _ ro_look), run_bind.
  intros Hr. exists a, img, s1. split; [done|].
  destruct legacy.
  - destruct (uboot_strip (fmem s2) img load) as [[[img' ld] en]| |] eqn:Eu; [|done..].
    cbn [lift run] in Hr. case_if_in Hr; [done|]. unfold part_sanity_check in Hr.
    rewrite run_bind in Hr. case_if_in Hr; [done|]. cbn in Hr. injection Hr as <- <-.
    split; [exact Hout|]. apply uboot_strip_spec; [lia|done].
  - cbn [run] in Hr. case_if_in Hr; [done|]. unfold part_sanity_check in Hr.
    rewrite run_bind in Hr. case_if_in Hr; [done|]. cbn in Hr. injection Hr as <- <-.
    split; [exact Hout|]. left. done.
Qed.

(** C15: the RAM loader hands over nothing but authentic firmware, and never an
    older version than the flash offers.  If [wolfBoot_start] of update_ram.c
    reaches [do_boot], one of the two partitions held, when it was called, an
    image whose digest and signature verify, and, unless downgrades are allowed,
    whose version is at least the version of the other partition.  If the image
    leaves room for the partition trailer (header, firmware and 5 bytes fit the
    partition) the bytes copied to RAM are exactly
    its firmware, placed at the configured address, or, with U-Boot support, its
    firmware without a valid U-Boot legacy header.  A larger image is accepted too, but
    the trailer that marks it as under test is written over its end. *)
Theorem ram_boots_newest_authentic ad prot load legacy fuel s h s' :
  run (ram_wolfBoot_start ad prot load legacy fuel) s = (inl h, s') -> mem_ok (fmem s) ->
  exists part, bootable part /\
    let size := mle32 (fmem s) (base part + 4) in
    mle32 (fmem s) (base part) = WOLFBOOT_MAGIC /\ authentic (fmem s) (base part) size /\
    (ad = false -> version (fmem s) (Z.lxor part 1) <= version (fmem s) part) /\
    (IMAGE_HEADER_SIZE + size + 5 <= WOLFBOOT_PARTITION_SIZE ->
       handed_over legacy load (fmem s) (base part + IMAGE_HEADER_SIZE) size h).
Proof.
  intros Hr Hok. destruct (ram_start_tail _ _ _ _ _ _ _ _ Hok Hr) as (a & img & s1 & Hsel & Hout & Hh).
  destruct Hsel as (Ha & _ & Hs1 & Hv1 & Hver).
  destruct (verified_same _ _ _ _ Ha Hs1 Hv1) as (H1 & H2 & H3 & H4 & H5).
  exists a. split; [done|]. cbv zeta. rewrite <- H3. split; [done|]. split; [done|]. split; [done|].
  intros Hroom. rewrite <- H2. apply (handed_over_same _ _ _ (fmem s')); [lia| |done].
  pose proof geo_hdr. intros x Hx. rewrite Hout by (rewrite magic_addr_base by done; lia).
  replace x with (base a + (x - base a)) by lia. apply Hs1. lia.
Qed.

(** ** The loop of update_ram.c does not end when both images are bad *)

(** Verification of [part] fails. *)
Definition fails (s : flash) (part : Z) : Prop :=
  exists r img, run (verify_part part) s = (inl (r, img), s) /\ r < 0.

(** Two bad images of the same version, the first not under test. *)
Definition both_bad (s : flash) : Prop :=
  version (fmem s) PART_BOOT = version (fmem s) PART_UPDATE /\ 0 < version (fmem s) PART_BOOT /\
  negb (magic_set (fmem s) PART_BOOT && (state_of (fmem s) PART_BOOT =? IMG_STATE_TESTING)) = true /\
  fails s PART_BOOT /\ fails s PART_UPDATE.

Lemma both_bad_candidate ad s :
  both_bad s -> run (wolfBoot_dualboot_candidate ad) s = (inl PART_BOOT, s).
Proof.
  intros (He & Hp & Ht & _). unfold wolfBoot_dualboot_candidate, wolfBoot_current_firmware_version,
    wolfBoot_update_firmware_version.
  rewrite (run_ro _ _ _ _ (ro_version _)), (run_ro _ _ _ _ (ro_version _)). rewrite <- He.
  rewrite (proj2 (Z.eqb_neq _ _)), (proj2 (Z.ltb_lt 0 _)), Z.ltb_irrefl by lia. cbn [andb negb].
  cbv zeta. rewrite (run_ro _ _ _ _ (ro_get_partition_state PART_BOOT 0 (or_introl eq_refl))).
  destruct (magic_set (fmem s) PART_BOOT); [|done]. cbn [Z.eqb andb].
  cbn [andb] in Ht. destruct (state_of _ _ =? _); done.
Qed.

Lemma both_bad_turn ad s a :
  both_bad s -> bootable a ->
  run (ram_select_body ad (version (fmem s) PART_BOOT) (version (fmem s) PART_UPDATE) a) s =
  (inl (inl (Z.lxor a 1)), s).
Proof.
  intros (He & Hp & Ht & Hf1 & Hf2) Ha. unfold ram_select_body.
  replace (a <? 0) with false by (by destruct Ha as [-> | ->]). rewrite pbind_ret.
  replace (a <? 0) with false by (by destruct Ha as [-> | ->]).
  unfold rollback_refused. rewrite <- He, Z.ltb_irrefl. cbv zeta.
  replace (if a =? PART_UPDATE then _ else _) with (version (fmem s) PART_BOOT) by (by destruct (a =? PART_UPDATE)).
  rewrite Z.ltb_irrefl, andb_false_r.
  assert (fails s a) as (r & img & Hr & Hneg) by (by destruct Ha as [-> | ->]).
  rewrite run_bind, Hr, (proj2 (Z.ltb_lt r 0)), run_bind, run_fallback, <- He by done.
  by rewrite (proj2 (Z.eqb_neq _ _)) by lia.
Qed.

Lemma both_bad_loop ad s fuel a :
  both_bad s -> bootable a ->
  run (ploop fuel (ram_select_body ad (version (fmem s) PART_BOOT) (version (fmem s) PART_UPDATE)) a) s =
  (inr HFuel, s).
Proof.
  intros Hb. revert a. induction fuel as [|fuel IH]; intros a Ha; [done|]. cbn [ploop].
  rewrite run_bind, both_bad_turn by done. apply IH. by apply bootable_flip.
Qed.

(** C17: a RAM loader with two bad images neither boots nor panics.  When both
    partitions hold images of the same version, which is not zero, neither of which verifies, and
    BOOT is not in state TESTING, the selection loop of update_ram.c alternates
    between them for ever: no number of turns ends it, with or without
    downgrades.  The failing image is not invalidated, so [fallback] stays
    possible.  (In state TESTING the candidate code erases BOOT, and the loader ends.) *)
Theorem ram_start_livelock ad prot load legacy fuel s :
  both_bad s -> run (ram_wolfBoot_start ad prot load legacy fuel) s = (inr HFuel, s).
Proof.
  intros Hb. unfold ram_wolfBoot_start, ram_select, wolfBoot_current_firmware_version,
    wolfBoot_update_firmware_version.
  rewrite run_bind, (run_ro _ _ _ _ (ro_version _)), (run_ro _ _ _ _ (ro_version _)).
  destruct fuel as [|fuel]; [done|]. cbn [ploop].
  assert (run (ram_select_body ad (version (fmem s) PART_BOOT) (version (fmem s) PART_UPDATE) (-1)) s =
    (inl (inl PART_UPDATE), s)) as Hx.
  { pose proof (both_bad_turn ad s PART_BOOT Hb (or_introl eq_refl)) as Ht.
    unfold ram_select_body. cbn [Z.ltb Z.compare]. rewrite run_bind, both_bad_candidate by done. exact Ht. }
  rewrite run_bind, Hx, (both_bad_loop _ _ _ _ Hb (or_intror eq_refl)). done.
Qed.

(** ** update_flash_hwswap.c *)

(** One turn: panic, the bad partition erased, or an image selected. *)
Lemma hwswap_turn ad s a :
  bootable a -> mem_ok (fmem s) ->
  let r := run (hwswap_body ad a) s in
  r = (inr HPanic, s) \/
  (r = (inl (inl (Z.lxor a 1)), mkFlash (nor_erase (fmem s) (base a) WOLFBOOT_PARTITION_SIZE) true) /\
   version (fmem s) (Z.lxor a 1) <> 0) \/
  exists img, r = (inl (inr (a, img)), s) /\ selected ad s a img s.
Proof.
  intros Ha Hok. cbv zeta. unfold hwswap_body, wolfBoot_current_firmware_version,
    wolfBoot_update_firmware_version.
  rewrite (run_ro _ _ _ _ (ro_version _)), (run_ro _ _ _ _ (ro_version _)).
  case_if; [by left|]. rename E into Hrb.
  destruct (verify_part_sound a s Ha Hok) as [Hp|(r & img & Hp & Hv)]; rewrite run_bind, Hp; [by left|].
  destruct (Z.ltb_spec r 0) as [Hr|Hr].
  - rewrite run_bind, run_fallback. destruct (_ || _) eqn:Ef; [by left|]. cbn [negb].
    rewrite run_bind, run_erase_partition by done. cbn. right; left. split; [done|].
    apply orb_false_iff in Ef as [E1%Z.eqb_neq E2%Z.eqb_neq]. by destruct Ha as [-> | ->].
  - right; right. exists img. cbn. split; [done|]. split; [done|]. split; [done|]. split; [by intros i Hi|].
    split; [by apply Hv|]. intros ->. by apply rollback_accepted.
Qed.

(** A second failure finds the first partition erased, so two turns are enough. *)
Lemma hwswap_loop ad s a fuel :
  bootable a -> mem_ok (fmem s) -> (2 <= fuel)%nat ->
  let r := run (ploop fuel (hwswap_body ad) a) s in
  (exists s', r = (inr HPanic, s')) \/
  exists a' img s', r = (inl (a', img), s') /\ selected ad s' a' img s'.
Proof.
  intros Ha Hok Hf. cbv zeta. destruct fuel as [|[|fuel]]; [lia..|]. cbn [ploop]. rewrite run_bind.
  destruct (hwswap_turn ad s a Ha Hok) as [-> |[[-> Hv]|(img & -> & Hsel)]].
  - left. eauto.
  - pose proof (bootable_flip _ Ha) as [Hb _]. rewrite run_bind. set (s1 := mkFlash _ _).
    assert (mem_ok (fmem s1)) as Hok1 by (by apply mem_ok_erase).
    destruct (hwswap_turn ad s1 _ Hb Hok1) as [-> |[[_ Hv2]|(img & -> & Hsel)]].
    + left. eauto.
    + exfalso. apply Hv2. rewrite Z.lxor_assoc, Z.lxor_nilpotent, Z.lxor_0_r. by apply version_erased.
    + right. by eexists _, _, _.
  - right. by eexists _, _, _.
Qed.

(** What a flash controller promises: [hal_flash_dualbank_swap] returns with the
    contents of the two partitions exchanged.  It belongs to the HAL of the target
    and only sets option bits of the controller.  Not every target keeps the promise: on the STM32L5 the swap is a
    reset and the call does not return. *)
Definition exchanges (swap : prog unit) : Prop :=
  forall s, mem_ok (fmem s) -> exists s', run swap s = (inl tt, s') /\ mem_ok (fmem s') /\
    forall part, bootable part ->
      same_bytes (fmem s) (base (Z.lxor part 1)) (fmem s') (base part) WOLFBOOT_PARTITION_SIZE.

(** The firmware in BOOT is authentic, or too large to leave room for the
    trailer that was just written. *)
Definition boot_holds (m : mem) : Prop :=
  let size := mle32 m (base PART_BOOT + 4) in
  mle32 m (base PART_BOOT) = WOLFBOOT_MAGIC /\
  (IMAGE_HEADER_SIZE + size + 5 <= WOLFBOOT_PARTITION_SIZE -> authentic m (base PART_BOOT) size).

Lemma verified_moved m1 m2 a img :
  bootable a -> Z.even (base PART_BOOT - base a) = true ->
  (forall i, 0 <= i < WOLFBOOT_PARTITION_SIZE - 5 -> m2 (base PART_BOOT + i) = m1 (base a + i)) ->
  verified m1 a img -> boot_holds m2.
Proof.
  intros Ha He Hs (H1 & H2 & H3 & H4 & H5). pose proof part_size_hdr. pose proof geo_hdr.
  assert (same_bytes m1 (base a) m2 (base PART_BOOT) (WOLFBOOT_PARTITION_SIZE - 5)) as Hs' by exact Hs.
  assert (mle32 m2 (base a + (base PART_BOOT - base a)) = mle32 m1 (base a)) as Em
    by (eapply mle32_reloc; [exact Hs'|lia..]).
  assert (mle32 m2 (base a + 4 + (base PART_BOOT - base a)) = mle32 m1 (base a + 4)) as Es
    by (eapply mle32_reloc; [exact Hs'|lia..]).
  replace (base a + (base PART_BOOT - base a)) with (base PART_BOOT) in Em by lia.
  replace (base a + 4 + (base PART_BOOT - base a)) with (base PART_BOOT + 4) in Es by lia.
  unfold boot_holds. cbv zeta. rewrite Em, Es, <- H3. split; [done|]. intros Hroom.
  apply (authentic_reloc m1 (base a)); try done.
  - by apply part_base_ok.
  - apply part_base_ok. by left.
  - lia.
  - intros i Hi. apply Hs. lia.
Qed.

Lemma hwswap_boot_part swap a img s :
  bootable a -> mem_ok (fmem s) -> exchanges swap ->
  Z.even (base PART_BOOT - base PART_UPDATE) = true -> verified (fmem s) a img ->
  exists s', run (let* _ := (if a =? PART_BOOT then start_testing a else Ret tt) in
    (if a =? PART_UPDATE then let* _ := swap in start_testing PART_BOOT else Ret tt)) s = (inl tt, s') /\
    boot_holds (fmem s').
Proof.
  intros Ha Hok Hsw He Hv.
  assert (bootable PART_BOOT) as Hb by by left.
  assert (forall s1, mem_ok (fmem s1) -> (forall i, 0 <= i < WOLFBOOT_PARTITION_SIZE ->
      fmem s1 (base PART_BOOT + i) = fmem s (base a + i)) ->
    exists s', run (start_testing PART_BOOT) s1 = (inl tt, s') /\ boot_holds (fmem s')) as Hgo.
  { intros s1 Hok1 Hs1. destruct (start_testing_spec PART_BOOT s1 Hb Hok1) as (s2 & Hr & _ & Hout).
    exists s2. split; [done|]. apply (verified_moved (fmem s) _ a img Ha); [|..|done].
    - destruct Ha as [-> | ->]; [by rewrite Z.sub_diag|done].
    - intros i Hi. rewrite Hout by (rewrite magic_addr_base by done; lia). apply Hs1. lia. }
  destruct Ha as [-> | ->].
  - destruct (Hgo s Hok) as (s' & Hr & Hh); [done|]. exists s'. split; [|done].
    change (PART_BOOT =? PART_BOOT) with true. cbv iota. rewrite run_bind, Hr. done.
  - destruct (Hsw s Hok) as (s1 & Hr1 & Hok1 & Hx).
    change (PART_UPDATE =? PART_BOOT) with false. change (PART_UPDATE =? PART_UPDATE) with true.
    cbv iota. rewrite pbind_ret, run_bind, Hr1.
    apply (Hgo s1 Hok1). intros i Hi. exact (Hx PART_BOOT Hb i Hi).
Qed.

(** C16: the hardware-assisted loader always ends, and starts nothing but
    authentic firmware, on a controller whose bank swap returns with the two partitions
    exchanged ([exchanges]) and partitions an even distance apart.  From any flash contents, two turns of its selection loop
    are enough, since a partition that fails is erased; then it panics or reaches
    [do_boot] on the BOOT partition, which at that moment holds a wolfBoot image,
    authentic if it leaves room for the partition trailer, even when the image
    was selected in UPDATE and moved by the bank swap. *)
Theorem hwswap_ends_authentic ad prot swap fuel s :
  mem_ok (fmem s) -> exchanges swap -> Z.even (base PART_BOOT - base PART_UPDATE) = true ->
  (2 <= fuel)%nat ->
  exists h s', run (hwswap_wolfBoot_start ad prot swap fuel) s = (inr h, s') /\
    (h = HPanic \/ (h = HBoot (base PART_BOOT + IMAGE_HEADER_SIZE) /\ boot_holds (fmem s'))).
Proof.
  intros Hok Hsw He Hf. unfold hwswap_wolfBoot_start. rewrite run_bind.
  destruct (candidate_spec ad s Hok) as (a & s1 & -> & Hch).
  assert (mem_ok (fmem s1) /\ (a = -1 \/ bootable a)) as [Hok1 Ha].
  { destruct Hch as [(-> & ->)|[(Ha & _ & -> & _)|(Ha & _ & -> & _)]]; simpl; auto using mem_ok_erase. }
  destruct Ha as [-> |Ha]; [eexists _, _; split; [done|]; by left|].
  replace (a <? 0) with false by (by destruct Ha as [-> | ->]). rewrite run_bind.
  destruct (hwswap_loop ad s1 a fuel Ha Hok1 Hf) as [(s2 & ->)|(b & img & s2 & -> & Hsel)].
  { eexists _, _. split; [done|]. by left. }
  destruct Hsel as (Hb & Hok2 & _ & Hv & _).
  destruct (hwswap_boot_part swap b img s2 Hb Hok2 Hsw He Hv) as (s3 & Hr & Hh).
  rewrite run_bind in Hr |- *. destruct (run (if b =? PART_BOOT then _ else _) s2) as [[[]|h] s4]; [|done].
  rewrite run_bind, Hr. case_if; [eexists _, _; split; [done|]; by left|].
  unfold part_sanity_check. rewrite run_bind. case_if; [eexists _, _; split; [done|]; by left|].
  eexists _, _. split; [done|]. right. done.
Qed.

End Dual.

(** ** Witnesses *)

Module ExampleDual.
Export ExampleBoot.

(** A signed image of version [v] whose firmware is [fw]. *)
Definition signed (v : Z) (fw : list Z) : list Z :=
  let pre := le32_bytes WOLFBOOT_MAGIC ++ le32_bytes (zlen fw) ++ [1; 0; 4; 0] ++ le32_bytes v ++
    [4; 0; 2; 0; 1; 1] in
  let dg := hash_final (hash_update hash_init (pre ++ fw)) in
  let h := pre ++ [3; 0; 32; 0] ++ dg ++ [0x10; 0; 32; 0] ++ key_sha256 0 ++
    [0x20; 0; 64; 0] ++ dg ++ replicate 32 0 in
  h ++ replicate (Z.to_nat (256 - zlen h)) 0xFF ++ fw.

(** The image is damaged: the type field of its header has a bit cleared. *)
Definition damaged (v : Z) (fw : list Z) : list Z := <[20%nat := 0]> (signed v fw).

Definition two (b u : list Z) : mem := fun a =>
  if in_range 0x1000 (zlen b) a then at_ b (a - 0x1000)
  else if in_range 0x2000 (zlen u) a then at_ u (a - 0x2000)
  else FLASH_BYTE_ERASED.

Lemma two_ok b u : bytes b -> bytes u -> mem_ok (two b u).
Proof.
  intros Hb Hu a. unfold two.
  repeat (case_if; [apply in_range_true in E; apply at_total_byte; [done|lia]|clear E]).
  unfold FLASH_BYTE_ERASED. wblia.
Qed.

Definition fw1 : list Z := seqZ 200 16.
Definition fw2 : list Z := seqZ 100 20.

Definition good : flash := mkFlash (two (signed 1 fw1) (signed 2 fw2)) true.
Definition bad : flash := mkFlash (two (damaged 3 fw1) (damaged 3 fw2)) true.

Lemma good_ok : mem_ok (fmem good).
Proof. apply two_ok; vm_compute; repeat constructor; discriminate. Qed.

Lemma bad_both : both_bad bad.
Proof.
  split; [vm_compute; reflexivity|]. split; [vm_compute; reflexivity|].
  split; [vm_compute; reflexivity|].
  split; (eexists _, _; split; [vm_compute; reflexivity|lia]).
Qed.

(** A bank swap made of erase and write. *)
Definition bank_swap : prog unit :=
  let* m := look in
  let* _ := flash_unlock in
  let* _ := flash_erase 0x1000 1024 in
  let* _ := flash_write 0x1000 (mread m 0x2000 1024) in
  let* _ := flash_erase 0x2000 1024 in
  let* _ := flash_write 0x2000 (mread m 0x1000 1024) in
  flash_lock.

Lemma bank_swap_exchanges : exchanges bank_swap.
Proof.
  intros s Hok. unfold bank_swap, look, flash_unlock, flash_erase, flash_write, flash_lock.
  cbn [pbind run hal_flash_unlock hal_flash_erase hal_flash_write hal_flash_lock fmem flashLocked].
  eexists. split; [done|]. unfold hal_flash_lock. cbn [fmem]. split.
  { apply mem_ok_write; [apply mem_ok_erase, mem_ok_write; [by apply mem_ok_erase|]|];
      by apply mread_bytes. }
  assert (forall b, zlen (mread (fmem s) b 1024) = 1024) as Hl by (intros b; by apply mread_length).
  intros part [-> | ->] i Hi; change (WOLFBOOT_PARTITION_SIZE) with 1024 in Hi;
    [change (wolfBoot_get_image_from_part PART_BOOT) with 0x1000;
     change (wolfBoot_get_image_from_part (Z.lxor PART_BOOT 1)) with 0x2000
    |change (wolfBoot_get_image_from_part PART_UPDATE) with 0x2000;
     change (wolfBoot_get_image_from_part (Z.lxor PART_UPDATE 1)) with 0x1000].
  - rewrite nor_write_out by (rewrite Hl; lia). rewrite nor_erase_out by lia.
    rewrite nor_write_in by (rewrite Hl; lia). rewrite nor_erase_in by lia.
    rewrite mread_at by lia. rewrite land_erased by apply Hok. f_equal. lia.
  - rewrite nor_write_in by (rewrite Hl; lia). rewrite nor_erase_in by lia.
    rewrite mread_at by lia. rewrite land_erased by apply Hok. f_equal. lia.
Qed.

End ExampleDual.
Import ExampleDual.

Lemma ram_boots_newest_authentic_witness :
  run (ram_wolfBoot_start false 0 0x8000 true 2) good = (inl (mkHandoff 0x8000 0x8000 fw2), good) /\
  exists part, bootable part /\ 
    (IMAGE_HEADER_SIZE + mle32 (fmem good) (wolfBoot_get_image_from_part part + 4) + 5 <=
       WOLFBOOT_PARTITION_SIZE ->
     handed_over true 0x8000 (fmem good) (wolfBoot_get_image_from_part part + IMAGE_HEADER_SIZE)
       (mle32 (fmem good) (wolfBoot_get_image_from_part part + 4)) (mkHandoff 0x8000 0x8000 fw2)).
Proof.
  assert (run (ram_wolfBoot_start false 0 0x8000 true 2) good =
    (inl (mkHandoff 0x8000 0x8000 fw2), good)) as Hr by (vm_compute; reflexivity).
  split; [exact Hr|].
  destruct (@ram_boots_newest_authentic cfg geo toy_hash toy_hash_laws toy_keystore toy_verify
    toy_hash_bytes false 0 0x8000 true 2 good _ good Hr good_ok) as (p & Hp & _ & _ & _ & Hh).
  exists p. exact (conj Hp Hh).
Defined.

Lemma ram_start_livelock_witness :
  run (ram_wolfBoot_start false 0 0x8000 false 1000) bad = (inr HFuel, bad).
Proof.
  exact (@ram_start_livelock cfg toy_hash toy_keystore toy_verify
    false 0 0x8000 false 1000 bad bad_both).
Defined.

Lemma hwswap_ends_authentic_witness :
  exists h s', run (hwswap_wolfBoot_start false 0 bank_swap 2) good = (inr h, s') /\
    (h = HPanic \/ (h = HBoot 0x1100 /\ boot_holds (fmem s'))).
Proof.
  exact (@hwswap_ends_authentic cfg geo toy_hash toy_hash_laws toy_keystore toy_verify
    toy_hash_bytes false 0 bank_swap 2 good good_ok bank_swap_exchanges eq_refl (le_n 2)).
Defined.

(** The bank swap is taken: the newer image of UPDATE starts from BOOT. *)
Example hwswap_good : fst (run (hwswap_wolfBoot_start false 0 bank_swap 2) good) = inr (HBoot 0x1100).
Proof. vm_compute. reflexivity. Qed.
