(* ===== verification/DiskUpdate.v ===== *)
(** * DiskUpdate: booting from a disk (src/update_disk.c)

    [wolfBoot_start] of update_disk.c: the two boot partitions of a disk are
    compared by version, the firmware of the newer one is read to RAM and
    verified there, with its header still in a local buffer.  Configuration:
    no fixed flash partitions (WOLFBOOT_NO_PARTITIONS), WOLFBOOT_RAMBOOT_MAX_SIZE
    defined, no encryption, no FSP, FIT or ELF; whether downgrades are allowed
    is a parameter.  [disk_init], [hal_flash_protect] and the disk driver belong
    to the platform; [disk_close] of the SD/eMMC driver does nothing. *)

From Stdlib Require Import ZArith Lia.
From stdpp Require Import prelude.
From S2P Require Import Prelude Flash Trailer Image UpdateFlash Gpt Disk DualBoot.

Local Open Scope Z_scope.

Definition MAX_FAILURES : Z := 4.

Section DiskUpdate.
Context {c : config} {H : hash_api} {K : keystore_api} {V : verify_api}.
Context {disk : Type} {D : disk_api disk}.
Context (allow_downgrade : bool).
Context (BOOT_DISK BOOT_PART_A BOOT_PART_B DISK_BLOCK_SIZE : Z).
Context (WOLFBOOT_LOAD_ADDRESS WOLFBOOT_RAMBOOT_MAX_SIZE : Z).

(** [wolfBoot_open_image_address] without fixed partitions. *)
Definition open_image_address_nopart (m : mem) (img : wolfBoot_image) (image : Z)
    : Z * wolfBoot_image :=
  if negb (mle32 m image =? WOLFBOOT_MAGIC) then (-1, img) else
  let img := set_fw_size (wolfBoot_image_size m image) img in
  if WOLFBOOT_RAMBOOT_MAX_SIZE <? fw_size img then (-1, img) else
  let img := if hdr img =? 0 then set_hdr image img else img in
  let img := set_hdr_ok 1 img in
  let img := set_fw_base (hdr img + IMAGE_HEADER_SIZE) img in
  (0, img).

(** The address of the local buffer [p_hdr]. *)
Context (p_hdr : Z).

Section Drives.
Context (d : disk) (Drives : list disk_drive).

(** [disk_part_read] to [dst], where [room] bytes are left of the object the
    pointer points into. *)
Definition part_read_to (m : mem) (prt off sz dst room : Z) : outcome (Z * mem) :=
  let! (ret, buf) := disk_part_read d Drives BOOT_DISK prt off sz (mread m dst room) in
  Ok (ret, ram_put m dst buf).

Definition read_header (m : mem) (prt : Z) : outcome (Z * mem) :=
  part_read_to m prt 0 IMAGE_HEADER_SIZE p_hdr IMAGE_HEADER_SIZE.

(** The version of the image in a partition, 0 when its header cannot be read. *)
Definition part_version (m : mem) (prt : Z) : outcome (Z * mem) :=
  let! (ret, m) := read_header m prt in
  if ret =? IMAGE_HEADER_SIZE then
    let! v := wolfBoot_get_blob_version m p_hdr in
    Ok (v, m)
  else Ok (0, m).

(** One turn of the inner loop, which reads the payload block by block: the
    last code, how much was loaded, and the memory. *)
Definition load_step (cur_part size : Z) (s : Z * mem) : outcome ((Z * mem) + (Z * Z * mem)) :=
  let '(load_off, m) := s in
  let chunk := u32 (size - load_off) in
  let chunk := if DISK_BLOCK_SIZE <? chunk then DISK_BLOCK_SIZE else chunk in
  let! (ret, m) :=
    part_read_to m cur_part (u32 (IMAGE_HEADER_SIZE + load_off)) chunk
      (WOLFBOOT_LOAD_ADDRESS + load_off) (WOLFBOOT_RAMBOOT_MAX_SIZE - load_off) in
  if ret <=? 0 then Ok (inr (ret, load_off, m)) else
  let load_off := u32 (load_off + ret) in
  if load_off <? size then Ok (inl (load_off, m)) else Ok (inr (ret, load_off, m)).

Definition load_image (m : mem) (cur_part size : Z) : outcome (Z * Z * mem) :=
  loop (S (Z.to_nat size)) (load_step cur_part size) (0, m).

(** The body of the loop after the anti-rollback guard: [None] is
    [selected ^= 1; continue], [Some] the image that was verified. *)
Definition attempt (m : mem) (cur_part : Z) : prog (option wolfBoot_image * mem) :=
  let* (ret, m) := lift (read_header m cur_part) in
  if negb (ret =? IMAGE_HEADER_SIZE) then Ret (None, m) else
  let '(ret, os_image) := open_image_address_nopart m image0 p_hdr in
  if ret <? 0 then Ret (None, m) else
  if WOLFBOOT_RAMBOOT_MAX_SIZE <? fw_size os_image then Ret (None, m) else
  let* (ret, load_off, m) := lift (load_image m cur_part (fw_size os_image)) in
  if (ret <=? 0) || negb (load_off =? fw_size os_image) then Ret (None, m) else
  let '(ret, os_image) := open_image_address_nopart m image0 p_hdr in
  if ret <? 0 then Ret (None, m) else
  let os_image := set_fw_base WOLFBOOT_LOAD_ADDRESS os_image in
  let* (ret, os_image) := lift (wolfBoot_verify_integrity m os_image) in
  if negb (ret =? 0) then Ret (None, m) else
  let* (ret, os_image) := wolfBoot_verify_authenticity m os_image in
  if negb (ret =? 0) then Ret (None, m) else Ret (Some os_image, m).

(** The loop over the two partitions; its state is [failures], [selected] and
    the memory, its result [failures], the image and the memory. *)
Definition select_body (pA_ver_u pB_ver_u : Z) (s : Z * Z * mem)
    : prog ((Z * Z * mem) + (Z * wolfBoot_image * mem)) :=
  let '(failures, selected, m) := s in
  let failures := failures + 1 in
  let cur_part := if negb (selected =? 0) then BOOT_PART_B else BOOT_PART_A in
  let max_ver := if pA_ver_u <? pB_ver_u then pB_ver_u else pA_ver_u in
  let cur_ver := if negb (selected =? 0) then pB_ver_u else pA_ver_u in
  if negb allow_downgrade && ((0 <? max_ver) && (cur_ver <? max_ver)) then Stop HPanic else
  let* (r, m) := attempt m cur_part in
  match r with
  | Some os_image => Ret (inr (0, os_image, m))
  | None =>
      if failures <? MAX_FAILURES then Ret (inl (failures, Z.lxor selected 1, m))
      else Ret (inr (failures, image0, m))
  end.

End Drives.

(** What [disk_init] and [hal_flash_protect] return. *)
Context (disk_init hal_flash_protect : Z).

(** [wolfBoot_start]; its value is the argument of [do_boot], the image and the
    memory [do_boot] finds.  [sector] and [entry_buf] are buffers of [disk_open]. *)
Definition disk_wolfBoot_start (d : disk) (sector entry_buf : list Z) (Drives : list disk_drive)
    (m : mem) : prog (Z * wolfBoot_image * mem) :=
  if negb (disk_init =? 0) then Stop HPanic else
  let* (ret, Drives) := lift (disk_open d sector entry_buf Drives BOOT_DISK) in
  if ret <? 0 then Stop HPanic else
  let* (pA_ver, m) := lift (part_version d Drives m BOOT_PART_A) in
  let* (pB_ver, m) := lift (part_version d Drives m BOOT_PART_B) in
  if (pB_ver =? 0) && (pA_ver =? 0) then Stop HPanic else
  let selected := if pA_ver <? pB_ver then 1 else 0 in
  let* (failures, os_image, m) :=
    ploop (Z.to_nat MAX_FAILURES) (select_body d Drives pA_ver pB_ver) (0, selected, m) in
  if negb (failures =? 0) then Stop HPanic else
  let load_address := fw_base os_image in
  if hal_flash_protect <? 0 then Stop HPanic else
  let* _ := part_sanity_check os_image in
  Ret (load_address, os_image, m).

End DiskUpdate.
