(* ===== verification/DiskUpdateSpec.v ===== *)
(** * DiskUpdateSpec: booting from a disk starts only the newest authentic image

    Every run of update_disk.c ends, in a panic or in the start of firmware that
    was copied from one of the two boot partitions and verified in RAM; the size
    field of the header, which is read before anything is verified, never makes
    the loader write outside its header buffer and its load region. *)

From Stdlib Require Import ZArith Lia.
From stdpp Require Import prelude.
From S2P Require Import Prelude Flash Trailer Image ImageSpec UpdateFlash BootSafe.
From S2P Require Import Gpt Disk DiskSpec Sdhci DiskExample DualBoot DualBootSpec DiskUpdate.

Local Open Scope Z_scope.

Section Spec.
Context {c : config} {H : hash_api} {HL : hash_laws H} {K : keystore_api} {V : verify_api}.
Context (HB : forall k, bytes (hash_final k)).
Context {disk : Type} {D : disk_api disk} (disk_byte : disk -> Z -> Z -> Z).
Context {DL : disk_laws disk D disk_byte}.
Context (ad : bool) (BOOT_DISK PA PB BLK LOAD MAXSZ p_hdr : Z).

(** The header buffer and the load region are disjoint parts of the address
    space, and offsets in the image fit an int. *)
Record layout : Prop := {
  lo_base : base_ok p_hdr;
  lo_hdr : p_hdr <> 0;
  lo_blk : 0 < BLK;
  lo_max : 0 <= MAXSZ;
  lo_int : IMAGE_HEADER_SIZE + MAXSZ < 2 ^ 31;
  lo_disj : p_hdr + IMAGE_HEADER_SIZE <= LOAD \/ LOAD + MAXSZ <= p_hdr;
}.
Context (HLo : layout).

(** Only the two buffers change. *)
Definition in_buffers (a : Z) : Prop :=
  p_hdr <= a < p_hdr + IMAGE_HEADER_SIZE \/ LOAD <= a < LOAD + MAXSZ.
Definition framed (m m' : mem) : Prop := forall a, ~ in_buffers a -> m' a = m a.

Lemma framed_trans m1 m2 m3 : framed m1 m2 -> framed m2 m3 -> framed m1 m3.
Proof. intros H1 H2 a Ha. rewrite H2 by done. by apply H1. Qed.

Lemma ihs_pos : 8 <= IMAGE_HEADER_SIZE.
Proof. destruct (lo_base HLo) as (_ & _ & Ho). unfold IMAGE_HEADER_OFFSET in Ho. lia. Qed.

Section Drives.
Context (d : disk) (Ds : list disk_drive) (HD : drives_ok Ds).

(** [m] holds at [a] the [n] bytes at offset [off] of a partition. *)
Definition holds (m : mem) (a : Z) (p : disk_partition) (off n : Z) : Prop :=
  forall i, 0 <= i < n -> m (a + i) = disk_byte d BOOT_DISK (dp_start p + off + i).

Lemma part_read_to_spec m prt off sz dst room :
  mem_ok m -> 0 <= off < 2 ^ 64 -> 0 <= sz < 2 ^ 31 -> sz <= room ->
  wp (part_read_to BOOT_DISK d Ds m prt off sz dst room) (fun '(r, m') =>
    mem_ok m' /\ (forall a, ~ (dst <= a < dst + sz) -> m' a = m a) /\
    (0 <= r -> r <= sz /\
       exists p, open_part Ds BOOT_DISK prt = Ok (Some p) /\ holds m' dst p off r)).
Proof.
  intros Hok Hoff Hsz Hroom. unfold part_read_to.
  assert (Hput : forall buf, bytes buf -> mem_ok (ram_put m dst buf)).
  { intros buf Hb a. unfold ram_put. case_if; [|apply Hok]. apply in_range_true in E. apply at_byte; [done|lia]. }
  pose proof (mread_length m dst room ltac:(lia)) as Hl. pose proof (mread_bytes m dst room Hok) as Hb.
  pose proof (wp_inv _ _ (open_part_ok Ds BOOT_DISK prt (fun _ => True) HD I (fun _ _ => I))) as (o & Ho & _).
  assert (0 <= sz < 2 ^ 64) as Hsz64 by lia. destruct o as [p|].
  - eapply wp_bind_mono;
      [apply (part_read_spec disk_byte Ds BOOT_DISK prt off sz p HD Ho Hoff Hsz64 d (mread m dst room)); [lia|done]|].
    intros [r buf] (Hl' & Hb' & Hout & Hin). apply wp_Ok. split; [by apply Hput|]. split.
    + intros a Ha. unfold ram_put. case_if; [|done]. apply in_range_true in E.
      rewrite Hout, mread_at by lia. f_equal. lia.
    + intros Hr. destruct (Hin Hr) as (a & n & Er & -> & Hi).
      destruct (part_range_spec _ _ _ _ _ (opened_ok _ _ _ _ HD Ho) Hoff Hsz64 Er) as (-> & _ & _ & Hn).
      split; [lia|]. exists p. split; [done|]. intros i Hii. unfold ram_put.
      rewrite (proj2 (in_range_true _ _ _)) by lia. rewrite <- Hi by done. f_equal. lia.
  - unfold disk_part_read. rewrite Ho. cbn [obind]. apply wp_Ok. split; [by apply Hput|]. split; [|lia].
    intros a Ha. unfold ram_put. case_if; [|done]. apply in_range_true in E.
    rewrite mread_at by lia. f_equal. lia.
Qed.

Lemma read_header_spec m prt :
  mem_ok m ->
  wp (read_header BOOT_DISK p_hdr d Ds m prt) (fun '(r, m') =>
    mem_ok m' /\ framed m m' /\
    (r = IMAGE_HEADER_SIZE ->
       exists p, open_part Ds BOOT_DISK prt = Ok (Some p) /\ holds m' p_hdr p 0 IMAGE_HEADER_SIZE)).
Proof.
  intros Hok. pose proof ihs_pos. pose proof (lo_int HLo). pose proof (lo_max HLo).
  eapply wp_mono; [apply part_read_to_spec; [done|lia..]|].
  intros [r m'] (Hok' & Hfr & Hr). split; [done|]. split.
  - intros a Ha. apply Hfr. unfold in_buffers in Ha. lia.
  - intros ->. by destruct Hr as [_ Hr]; [lia|].
Qed.

Lemma part_version_spec m prt :
  mem_ok m ->
  wp (part_version BOOT_DISK p_hdr d Ds m prt) (fun '(v, m') =>
    mem_ok m' /\ framed m m' /\ 0 <= v /\
    (v <> 0 -> exists p, open_part Ds BOOT_DISK prt = Ok (Some p) /\
       holds m' p_hdr p 0 IMAGE_HEADER_SIZE /\ wolfBoot_get_blob_version m' p_hdr = Ok v)).
Proof.
  intros Hok. unfold part_version. eapply wp_bind_mono; [by apply read_header_spec|].
  intros [r m'] (Hok' & Hfr & Hr). case_if.
  - destruct (blob_version_total m' p_hdr) as (v & Hv & Hnn). rewrite Hv. cbn [obind]. apply wp_Ok.
    split; [done|]. split; [done|]. split; [auto|]. intros _. destruct (Hr ltac:(lia)) as (p & Hp & Hh).
    by exists p.
  - apply wp_Ok. done.
Qed.

(** Loading a payload of a size that fits the region. *)
Lemma load_image_spec m prt size :
  mem_ok m -> 0 <= size <= MAXSZ ->
  wp (load_image BOOT_DISK BLK LOAD MAXSZ d Ds m prt size) (fun '(r, off, m') =>
    mem_ok m' /\ (forall a, ~ (LOAD <= a < LOAD + size) -> m' a = m a) /\
    (0 < r -> off = size ->
       exists p, open_part Ds BOOT_DISK prt = Ok (Some p) /\ holds m' LOAD p IMAGE_HEADER_SIZE size)).
Proof.
  intros Hok Hsz. pose proof ihs_pos. pose proof (lo_int HLo). pose proof (lo_max HLo). pose proof (lo_blk HLo).
  apply (wp_loop (fun '(off, m') => 0 <= off <= size /\ mem_ok m' /\
      (forall a, ~ (LOAD <= a < LOAD + size) -> m' a = m a) /\
      forall p, open_part Ds BOOT_DISK prt = Ok (Some p) -> holds m' LOAD p IMAGE_HEADER_SIZE off)
    (fun '(off, _) => Z.to_nat (size - off))).
  - intros [off m1] (Ho & Hok1 & Hfr & Hh). unfold load_step. rewrite !u32_small by lia.
    set (chunk := if BLK <? _ then _ else _).
    assert (0 <= chunk <= size - off) as Hc by (unfold chunk; case_if; lia).
    eapply wp_bind_mono; [apply part_read_to_spec; [done|lia..]|].
    intros [r m2] (Hok2 & Hfr2 & Hr).
    assert (forall a, ~ (LOAD <= a < LOAD + size) -> m2 a = m a) as Hfr3
      by (intros a Ha; rewrite Hfr2 by lia; by apply Hfr).
    case_if; [apply wp_Ok; split; [done|]; split; [done|lia]|].
    destruct (Hr ltac:(lia)) as (Hrc & p & Hp & Hh2). rewrite u32_small by lia.
    assert (holds m2 LOAD p IMAGE_HEADER_SIZE (off + r)) as Hh3.
    { intros i Hi. destruct (Z.lt_ge_cases i off) as [Hlt|Hge].
      - rewrite Hfr2 by lia. apply Hh; [done|lia].
      - replace (LOAD + i) with (LOAD + off + (i - off)) by lia. rewrite Hh2 by lia. f_equal. lia. }
    case_if; apply wp_Ok.
    + split; [|lia]. split; [lia|]. split; [done|]. split; [done|]. intros p' Hp'. by assert (p' = p) as -> by congruence.
    + split; [done|]. split; [done|]. intros _ Heq. exists p. split; [done|]. by rewrite <- Heq.
  - split; [lia|]. split; [done|]. split; [done|]. intros p _ i Hi. lia.
  - simpl. lia.
Qed.

(** ** One attempt *)

(** What [open_image_address_nopart] makes of a blank image. *)
Definition opened_image (m : mem) : wolfBoot_image :=
  mkImage p_hdr 0 None (p_hdr + IMAGE_HEADER_SIZE) (mle32 m (p_hdr + 4)) 0 1 0 0.

Lemma open_nopart_spec m :
  open_image_address_nopart MAXSZ m image0 p_hdr = (0, opened_image m) /\ mle32 m (p_hdr + 4) <= MAXSZ \/
  exists img, open_image_address_nopart MAXSZ m image0 p_hdr = (-1, img).
Proof.
  unfold open_image_address_nopart. case_if; [right; eauto|]. case_if; [right; eauto|]. left.
  split; [done|]. cbn in E0. unfold wolfBoot_image_size in E0. lia.
Qed.

(** A verified image, in RAM as it is on the disk. *)
Record booted (prt : Z) (m : mem) (img : wolfBoot_image) : Prop := {
  bt_img : hdr img = p_hdr /\ fw_base img = LOAD /\ hdr_ok img = 1 /\ sha_ok img = 1 /\ signature_ok img = 1;
  bt_size : 0 <= fw_size img <= MAXSZ;
  bt_auth : authentic_at m p_hdr LOAD (fw_size img);
  bt_disk : exists p, open_part Ds BOOT_DISK prt = Ok (Some p) /\
    holds m p_hdr p 0 IMAGE_HEADER_SIZE /\ holds m LOAD p IMAGE_HEADER_SIZE (fw_size img);
}.

Lemma mle32_nonneg m a : mem_ok m -> 0 <= mle32 m a.
Proof.
  intros Hok. unfold mle32. pose proof (Hok a). pose proof (Hok (a + 1)).
  pose proof (Hok (a + 2)). pose proof (Hok (a + 3)). wblia.
Qed.

(** Both checks of the loaded image. *)
Lemma verify_loaded_spec m img s :
  mem_ok m -> hdr img = p_hdr -> 0 <= fw_size img <= MAXSZ -> sha_hash img = None -> signature_ok img = 0 ->
  let r := run (let* (ret, os_image) := lift (wolfBoot_verify_integrity m img) in
    if negb (ret =? 0) then Ret (None, m) else
    let* (ret, os_image) := wolfBoot_verify_authenticity m os_image in
    if negb (ret =? 0) then Ret (None, m) else Ret (Some os_image, m)) s in
  r = (inr HPanic, s) \/ r = (inl (None, m), s) \/
  exists img', r = (inl (Some img', m), s) /\ same_place img img' /\ sha_ok img' = 1 /\ signature_ok img' = 1 /\
    authentic_at m p_hdr (fw_base img) (fw_size img).
Proof.
  intros Hok Hh Hsz Hn Hs r. unfold r. clear r. pose proof (lo_int HLo). pose proof ihs_pos.
  assert (handle_at m img) as Hha.
  { split; [rewrite Hh; apply (lo_base HLo)|]. split; [lia|]. congruence. }
  destruct (verify_integrity_total_at HB m img Hok Hha) as (r & img1 & -> & Hp1 & Hg1 & Hc).
  cbn [lift]. rewrite pbind_ret.
  destruct Hc as [(-> & a & Ha & Hso & Hi)|(-> & _)]; [|right; by left]. cbn [negb Z.eqb].
  destruct Hp1 as (P1 & P2 & P3 & P4 & P5).
  assert (handle_at m img1) as Hha1.
  { split; [rewrite P1, Hh; apply (lo_base HLo)|]. split; [lia|]. rewrite P1, P2, P3. congruence. }
  destruct (verify_authenticity_sound_at HB m img1 s Hok Hha1) as [Hp|(r & img2 & Hr & Hp2 & Hv)]; [congruence|..].
  - left. by rewrite run_bind, Hp.
  - rewrite run_bind, Hr. destruct (Z.eqb_spec r 0) as [->|]; [|right; by left]. right; right.
    destruct (Hv ltac:(lia)) as (_ & V1 & V2 & V3). exists img2. split; [done|].
    rewrite P1, P2, P3, Hh in V3. destruct Hp2 as (Q1 & Q2 & Q3 & Q4 & Q5).
    split; [unfold same_place; split_and!; congruence|]. done.
Qed.

Lemma attempt_spec m prt s :
  mem_ok m ->
  let r := run (attempt BOOT_DISK BLK LOAD MAXSZ p_hdr d Ds m prt) s in
  r = (inr HPanic, s) \/
  exists o m', r = (inl (o, m'), s) /\ mem_ok m' /\ framed m m' /\
    (forall img, o = Some img -> booted prt m' img).
Proof.
  intros Hok r. unfold r. clear r. unfold attempt. pose proof (lo_disj HLo). pose proof ihs_pos.
  assert (forall m1, mem_ok m1 -> framed m m1 -> exists (o : option wolfBoot_image) m',
    (inl (None, m1), s) = ((inl (o, m') : _ + halt), s) /\ mem_ok m' /\ framed m m' /\
    (forall img, o = Some img -> booted prt m' img)) as Hno.
  { intros m1 ? ?. exists None, m1. done. }
  destruct (wp_inv _ _ (read_header_spec m prt Hok)) as ([r m1] & -> & Hok1 & Hf1 & Hr).
  cbn [lift]. rewrite pbind_ret. case_if; [right; by apply Hno|].
  destruct (Hr ltac:(lia)) as (p & Hp & Hh). clear Hr.
  destruct (open_nopart_spec m1) as [[-> Hm]|[? ->]]; [|right; by apply Hno]. cbn [Z.ltb Z.compare].
  change (fw_size (opened_image m1)) with (mle32 m1 (p_hdr + 4)).
  pose proof (mle32_nonneg m1 (p_hdr + 4) Hok1) as Hnn. case_if; [lia|].
  destruct (wp_inv _ _ (load_image_spec m1 prt (mle32 m1 (p_hdr + 4)) Hok1 (conj Hnn Hm)))
    as ([[r2 off] m2] & -> & Hok2 & Hf2 & Hl).
  assert (framed m m2) as Hf3.
  { eapply framed_trans; [exact Hf1|]. intros a Ha. apply Hf2. unfold in_buffers in Ha. lia. }
  cbn [lift]. rewrite pbind_ret. destruct (_ || _) eqn:E1; [right; by apply Hno|].
  apply orb_false_iff in E1 as [E1%Z.leb_gt E2%negb_false_iff%Z.eqb_eq].
  destruct (Hl E1 E2) as (p' & Hp' & Hfw). assert (p' = p) as -> by congruence.
  assert (forall i, 0 <= i < IMAGE_HEADER_SIZE -> m2 (p_hdr + i) = m1 (p_hdr + i)) as Hsame
    by (intros i Hi; apply Hf2; lia).
  assert (mle32 m2 (p_hdr + 4) = mle32 m1 (p_hdr + 4)) as Hsz
    by (unfold mle32; rewrite <- !Z.add_assoc, !Hsame by lia; done).
  destruct (open_nopart_spec m2) as [[-> _]|[? ->]]; [|right; by apply Hno]. cbn [Z.ltb Z.compare].
  destruct (verify_loaded_spec m2 (set_fw_base LOAD (opened_image m2)) s) as [Hv|[Hv|(img' & Hv & Hpl & V1 & V2 & V3)]];
    try done; [cbn; lia|rewrite Hv; clear Hv..].
  - by left.
  - right. by apply Hno.
  - right. exists (Some img'), m2. split; [done|]. split; [done|]. split; [done|]. intros ? [= <-].
    destruct Hpl as (P1 & P2 & P3 & P4 & P5). cbn in P1, P2, P3, P4, P5, V3. rewrite Hsz in *.
    split; rewrite ?P3; auto. exists p. split; [done|]. split; [|done].
    intros i Hi. rewrite Hsame by done. by apply Hh.
Qed.

(** ** The loop *)

Definition part_of (selected : Z) : Z := if selected =? 0 then PA else PB.

(** What the loop leaves: no image, or one that was verified, whose version was
    not refused. *)
Definition loop_post (va vb f : Z) (m : mem) (img : wolfBoot_image) : Prop :=
  0 < f \/
  exists sel, (sel = 0 \/ sel = 1) /\ f = 0 /\ booted (part_of sel) m img /\
    (ad = false -> Z.max va vb = if sel =? 0 then va else vb).

Lemma select_body_spec va vb f sel m s :
  mem_ok m -> 0 <= va -> 0 <= vb -> 0 < Z.max va vb -> (sel = 0 \/ sel = 1) -> 0 <= f ->
  exists x, run (select_body ad BOOT_DISK PA PB BLK LOAD MAXSZ p_hdr d Ds va vb (f, sel, m)) s = (x, s) /\
    (x = inr HPanic \/
     (exists m', x = inl (inl (f + 1, Z.lxor sel 1, m')) /\ f + 1 < MAX_FAILURES /\ mem_ok m' /\ framed m m') \/
     exists f' img m', x = inl (inr (f', img, m')) /\ mem_ok m' /\ framed m m' /\ loop_post va vb f' m' img).
Proof.
  intros Hok Hva Hvb Hmax Hsel Hf. unfold select_body.
  set (mx := if va <? vb then vb else va). assert (mx = Z.max va vb) as Hmx by (unfold mx; case_if; lia).
  set (cv := if negb (sel =? 0) then vb else va).
  destruct (negb ad && _) eqn:Eg; [eauto|]. rewrite run_bind.
  assert ((if negb (sel =? 0) then PB else PA) = part_of sel) as ->
    by (unfold part_of; by destruct (sel =? 0)).
  destruct (attempt_spec m (part_of sel) s Hok) as [->|(o & m' & -> & Hok' & Hfr & Hb)]; [eauto|].
  destruct o as [img|]; [|case_if]; (eexists; split; [done|]); right.
  - right. exists 0, img, m'. split; [done|]. split; [done|]. split; [done|]. right. exists sel.
    split; [done|]. split; [done|]. split; [by apply Hb|]. intros ->. cbn [negb andb] in Eg.
    apply andb_false_iff in Eg as [Eg%Z.ltb_ge|Eg%Z.ltb_ge]; [lia|].
    unfold cv in Eg. destruct (sel =? 0); cbn [negb] in Eg; lia.
  - left. by exists m'.
  - right. exists (f + 1), image0, m'. split; [done|]. split; [done|]. split; [done|]. left. lia.
Qed.

Lemma select_spec va vb fuel f sel m s :
  mem_ok m -> 0 <= va -> 0 <= vb -> 0 < Z.max va vb ->
  (sel = 0 \/ sel = 1) -> 0 <= f < MAX_FAILURES -> (Z.to_nat (MAX_FAILURES - f) <= fuel)%nat ->
  exists x,
    run (ploop fuel (select_body ad BOOT_DISK PA PB BLK LOAD MAXSZ p_hdr d Ds va vb) (f, sel, m)) s = (x, s) /\
    (x = inr HPanic \/
     exists f' img m', x = inl (f', img, m') /\ mem_ok m' /\ framed m m' /\ loop_post va vb f' m' img).
Proof.
  intros Hok Hva Hvb Hmax. revert f sel m Hok.
  induction fuel as [|fuel IH]; intros f sel m Hok Hsel Hf Hfuel; [lia|].
  cbn [ploop]. rewrite run_bind.
  destruct (select_body_spec va vb f sel m s Hok Hva Hvb Hmax Hsel ltac:(lia)) as (x & -> & Hx).
  destruct Hx as [->|[(m' & -> & Hlt & Hok' & Hfr)|(f' & img & m' & -> & Hx)]]; [eauto| |eauto 10].
  destruct (IH (f + 1) (Z.lxor sel 1) m' Hok') as (x & -> & Hx); [|lia|lia|].
  { destruct Hsel as [-> | ->]; auto. }
  exists x. split; [done|]. destruct Hx as [->|(f' & img & m2 & -> & Hok2 & Hfr2 & Hp)]; [by left|].
  right. exists f', img, m2. split; [done|]. split; [done|]. split; [by eapply framed_trans|done].
Qed.

(** The version in the header buffer is the one that was read before. *)
Lemma booted_version prt m img m0 v p :
  booted prt m img -> open_part Ds BOOT_DISK prt = Ok (Some p) -> holds m0 p_hdr p 0 IMAGE_HEADER_SIZE ->
  wolfBoot_get_blob_version m0 p_hdr = Ok v -> wolfBoot_get_blob_version m p_hdr = Ok v.
Proof.
  intros [_ _ _ (q & Hq & Hh & _)] Hp H0 Hv. assert (q = p) as -> by congruence.
  rewrite <- Hv. apply blob_version_same; [apply (lo_base HLo)|]. intros i Hi.
  by rewrite Hh, H0 by done.
Qed.

End Drives.

(** C21: Booting from a disk is safe and always ends.  Whatever the disk and the
    headers on it hold, [wolfBoot_start] of update_disk.c panics or hands over;
    it never accesses memory outside its objects, and when it hands over only
    the header buffer and the load region have changed.  It hands over the load
    address, where exactly the firmware of one of the two boot partitions lies,
    as it is on the disk and no longer than the region, authentic together with
    the header read from the same partition; without ALLOW_DOWNGRADE its version
    is the larger of those found in the two partitions. *)
Theorem disk_boots_newest_authentic disk_init hal_flash_protect d sector entry_buf Ds m s :
  drives_ok Ds -> zlen sector = GPT_SECTOR_SIZE -> bytes sector ->
  zlen entry_buf = GPT_PART_ENTRY_SIZE -> bytes entry_buf -> mem_ok m ->
  let r := run (disk_wolfBoot_start ad BOOT_DISK PA PB BLK LOAD MAXSZ p_hdr disk_init hal_flash_protect
    d sector entry_buf Ds m) s in
  r = (inr HPanic, s) \/
  exists img m' n Ds' prt vA mA vB mB,
    r = (inl (LOAD, img, m'), s) /\ framed m m' /\
    disk_open d sector entry_buf Ds BOOT_DISK = Ok (n, Ds') /\
    (prt = PA \/ prt = PB) /\ booted d Ds' prt m' img /\
    part_version BOOT_DISK p_hdr d Ds' m PA = Ok (vA, mA) /\
    part_version BOOT_DISK p_hdr d Ds' mA PB = Ok (vB, mB) /\
    (ad = false -> wolfBoot_get_blob_version m' p_hdr = Ok (Z.max vA vB)).
Proof.
  intros HDs Hs1 Hs2 He1 He2 Hok r. unfold r. clear r. unfold disk_wolfBoot_start.
  case_if; [by left|].
  destruct (wp_inv _ _ (disk_open_spec disk_byte d sector entry_buf Ds BOOT_DISK HDs Hs1 Hs2 He1 He2))
    as ([n Ds'] & Hopen & HDs' & _). rewrite Hopen. cbn [lift]. rewrite pbind_ret. case_if; [by left|].
  destruct (wp_inv _ _ (part_version_spec d Ds' HDs' m PA Hok)) as ([vA mA] & EA & HokA & HfA & HA & HvA).
  rewrite EA. cbn [lift]. rewrite pbind_ret.
  destruct (wp_inv _ _ (part_version_spec d Ds' HDs' mA PB HokA)) as ([vB mB] & EB & HokB & HfB & HvBn & HvB).
  rewrite EB. cbn [lift]. rewrite pbind_ret. destruct (_ && _) eqn:E1; [by left|].
  assert (0 < Z.max vA vB) as Hmax by (apply andb_false_iff in E1 as [?|?]; bools; lia).
  rewrite run_bind.
  destruct (select_spec d Ds' HDs' vA vB (Z.to_nat MAX_FAILURES) 0 (if vA <? vB then 1 else 0) mB s HokB HA HvBn Hmax)
    as (x & -> & [->|(f & img & m' & -> & Hok' & Hf' & Hp)]); [case_if; auto|done|done|by left|].
  case_if; [by left|]. destruct Hp as [?|(sel & Hsel & _ & Hbt & Hver)]; [lia|].
  case_if; [by left|]. pose proof Hbt as [(B1 & B2 & B3 & B4 & B5) _ _ _].
  unfold part_sanity_check. rewrite B3, B4, B5. change (1 =? 1) with true. cbn [negb orb]. rewrite pbind_ret. cbn [run]. rewrite B2.
  right. exists img, m', n, Ds', (part_of sel), vA, mA, vB, mB. split; [done|].
  split; [eauto using framed_trans|]. split; [done|]. split; [destruct Hsel as [-> | ->]; auto|].
  split; [done|]. split; [done|]. split; [done|]. intros Had. specialize (Hver Had). rewrite Hver.
  destruct Hsel as [-> | ->]; cbn [Z.eqb] in *.
  - destruct (HvA ltac:(lia)) as (p & Hp & Hh & Hv). by eapply booted_version.
  - destruct (HvB ltac:(lia)) as (p & Hp & Hh & Hv). by eapply booted_version.
Qed.

End Spec.

Module ExampleDisk.
Import ExampleDual.
#[local] Existing Instances Ram.api Ram.laws Ram.driver Ram.driver_laws.

Definition img1 : list Z := Eval vm_compute in signed 1 fw1.
Definition img2 : list Z := Eval vm_compute in signed 2 fw2.

(** An MBR with two partitions of two sectors each: version 1 is in the first,
    version 2 in the second. *)
Definition disk2 (a : Z) : Z :=
  if a =? 510 then 0x55 else if a =? 511 then 0xAA else
  if a =? 450 then 0x83 else if a =? 454 then 1 else if a =? 458 then 2 else
  if a =? 466 then 0x83 else if a =? 470 then 3 else if a =? 474 then 2 else
  if in_range 512 1024 a then at_ img1 (a - 512) else
  if in_range 1536 1024 a then at_ img2 (a - 1536) else 0.

(** The header buffer is at 0x100, the load region of 64 bytes at 0x8000, and
    blocks have 16 bytes. *)
Abbreviation start :=
  (disk_wolfBoot_start false 0 0 1 16 0x8000 64 0x100 0 0 disk2 Ram.block Ram.entry Ram.Drives (fun _ => 0)).

Lemma ex_layout : layout 16 0x8000 64 0x100.
Proof. constructor; try done. left. vm_compute. congruence. Qed.

(** The run hands over, with the firmware of the second partition in place. *)
Lemma start_boots :
  match run start good with
  | (inl (a, img, m), s) => s = good /\ a = 0x8000 /\ mread m 0x8000 (fw_size img) = fw2
  | _ => False
  end.
Proof. vm_compute. auto. Qed.
End ExampleDisk.
Import ExampleDual ExampleDisk.
#[local] Existing Instances Ram.api Ram.laws Ram.driver Ram.driver_laws.

Lemma disk_boots_newest_authentic_witness :
  exists img m', run start good = (inl (0x8000, img, m'), good) /\
    authentic_at (H := toy_hash) m' 0x100 0x8000 (fw_size img) /\ m' 0x9000 = 0.
Proof.
  assert (bytes Ram.entry) as Heb by apply Ram.entry_bytes.
  destruct (@disk_boots_newest_authentic cfg toy_hash toy_hash_laws toy_keystore toy_verify toy_hash_bytes
    (Z -> Z) Ram.driver (fun b _ a => u8 (b a)) Ram.driver_laws false 0 0 1 16 0x8000 64 0x100 ex_layout
    0 0 disk2 Ram.block Ram.entry Ram.Drives (fun _ => 0) good Ram.Drives_ok Ram.block_len Ram.block_bytes
    eq_refl Heb) as [Hr|(img & m' & n & Ds' & prt & vA & mA & vB & mB & Hr & Hf & _ & _ & Hb & _)].
  - intros a. vm_compute. split; congruence.
  - exfalso. pose proof start_boots as Hs. rewrite Hr in Hs. exact Hs.
  - exists img, m'. split; [exact Hr|]. split; [exact (bt_auth _ _ _ _ _ _ _ _ _ _ Hb)|].
    rewrite Hf; [reflexivity|]. unfold in_buffers. vm_compute. intuition congruence.
Defined.
