(* ===== verification/Vault.v ===== *)
(** * Vault: the key vault of the secure world (src/psa_store.c, src/pkcs11_store.c)

    A store of objects in flash.  Sector 0 of the vault holds a magic word, a
    bitmap of the slots in use and a table of object headers; sector 1 is a
    backup of the sector committed last; the slots of KEYVAULT_OBJ_SIZE bytes
    follow, each starting with the two identifiers of its object.  A sector is
    changed in a RAM copy, [cached_sector], which every function fills before
    it uses it and which is a local buffer here, and [cache_commit] writes it
    first to the backup and then in place.  psa_store.c and pkcs11_store.c are
    the same code up to the names and the wiping of [cached_sector]. *)

From Stdlib Require Import ZArith Lia.
From stdpp Require Import prelude.
From S2P Require Import Prelude Flash Trailer Image UpdateFlash.

Local Open Scope Z_scope.

(** The linker symbols and the build options. *)
Class vault : Type := Vault {
  vault_base : Z;
  KEYVAULT_OBJ_SIZE : Z;
  KEYVAULT_MAX_ITEMS : Z;
}.

Definition NOT_AVAILABLE_E : Z := -4.
Definition FIND_FULL_E : Z := -5.
Definition SESSION_COUNT_E : Z := -8.

Definition STORE_PRIV_HDR_SIZE : Z := 0x20.
Definition STORE_PRIV_HDR_OFFSET : Z := 0x80.
Definition INVALID_ID : Z := 0xFFFFFFFF.
Definition VAULT_HEADER_MAGIC : Z := 0x53434B50.
Definition MAX_OPEN_STORES : Z := 16.
Definition STORE_FLAGS_OPEN : Z := 1.
Definition STORE_FLAGS_READONLY : Z := 2.

Record obj_hdr : Type := mkHdr {
  token_id : Z;
  object_id : Z;
  otype : Z;
  pos : Z;
  osize : Z;
}.

(** [struct obj_hdr] at an address: of the flash, or of a buffer. *)
Definition hdr_at (m : mem) (a : Z) : obj_hdr :=
  mkHdr (mle32 m a) (mle32 m (a + 4)) (i32 (mle32 m (a + 8))) (mle32 m (a + 12)) (mle32 m (a + 16)).

Definition hdr_is (type tok_id obj_id : Z) (h : obj_hdr) : bool :=
  (token_id h =? tok_id) && (object_id h =? obj_id) && (otype h =? type).

(** [buffer] and [hdr] are pointers, [None] for NULL. *)
Record store_handle : Type := mkHandle {
  flags : Z;
  hpos : Z;
  buffer : option Z;
  hhdr : option Z;
  in_buffer_offset : Z;
}.
Definition handle0 : store_handle := mkHandle 0 0 None None 0.
Definition set_hhdr (p : option Z) (h : store_handle) : store_handle :=
  mkHandle (flags h) (hpos h) (buffer h) p (in_buffer_offset h).
Definition set_in_buffer_offset (o : Z) (h : store_handle) : store_handle :=
  mkHandle (flags h) (hpos h) (buffer h) (hhdr h) o.

(** Store a 32-bit word in a buffer. *)
Definition set_le32 (l : list Z) (off v : Z) : outcome (list Z) := blit l off (le32_bytes v).

(** [memset(buf + off, b, n)]. *)
Definition fill (l : list Z) (off n b : Z) : outcome (list Z) := blit l off (replicate (Z.to_nat n) b).

Section Vault.
Context {c : config} {V : vault}.

Definition BITMAP_SIZE : Z := KEYVAULT_MAX_ITEMS / 8 + 1.
Definition BACKUP_SECTOR_ADDRESS : Z := vault_base + WOLFBOOT_SECTOR_SIZE.
Definition NODES_TABLE : Z := vault_base + STORE_PRIV_HDR_OFFSET.

(** ** The bitmap *)

Definition bitmap_put (cached_sector : list Z) (p val : Z) : outcome (list Z) :=
  let octet := p / 8 in
  let bit := p mod 8 in
  if KEYVAULT_MAX_ITEMS <=? p then Ok cached_sector else
  let! b := rd cached_sector (4 + octet) in
  if negb (val =? 0) then wr cached_sector (4 + octet) (Z.lor b (Z.shiftl 1 bit))
  else wr cached_sector (4 + octet) (u8 (Z.land b (Z.lnot (Z.shiftl 1 bit)))).

Definition bitmap_get (m : mem) (p : Z) : Z :=
  let octet := p / 8 in
  let bit := p mod 8 in
  Z.shiftr (Z.land (m (vault_base + 4 + octet)) (Z.shiftl 1 bit)) bit.

Definition bitmap_find_free_pos (m : mem) : outcome Z :=
  loop (S (Z.to_nat KEYVAULT_MAX_ITEMS)) (fun i =>
    if negb (i <? KEYVAULT_MAX_ITEMS) then Ok (inr (-1)) else
    if bitmap_get m i =? 0 then Ok (inr i) else Ok (inl (i + 1))) 0.

(** ** Committing a sector *)

Definition cache_commit (offset : Z) (cached_sector : list Z) : prog unit :=
  let* _ := flash_unlock in
  let* _ := flash_erase BACKUP_SECTOR_ADDRESS WOLFBOOT_SECTOR_SIZE in
  let* _ := flash_write BACKUP_SECTOR_ADDRESS cached_sector in
  let* _ := flash_erase (vault_base + offset) WOLFBOOT_SECTOR_SIZE in
  let* _ := flash_write (vault_base + offset) cached_sector in
  flash_lock.

Definition restore_backup (offset : Z) : prog unit :=
  let* _ := flash_unlock in
  let* _ := flash_erase (vault_base + offset) WOLFBOOT_SECTOR_SIZE in
  let* m := look in
  let* _ := flash_write (vault_base + offset) (mread m BACKUP_SECTOR_ADDRESS WOLFBOOT_SECTOR_SIZE) in
  flash_lock.

Definition total_vault_size : Z :=
  let total := u32 (KEYVAULT_MAX_ITEMS * KEYVAULT_OBJ_SIZE) in
  if negb (total mod WOLFBOOT_SECTOR_SIZE =? 0)
  then u32 (total / WOLFBOOT_SECTOR_SIZE * WOLFBOOT_SECTOR_SIZE + WOLFBOOT_SECTOR_SIZE) else total.

(** The header sector of an empty vault. *)
Definition empty_vault : outcome (list Z) :=
  let cached_sector := replicate (Z.to_nat WOLFBOOT_SECTOR_SIZE) 0xFF in
  let! cached_sector := set_le32 cached_sector 0 VAULT_HEADER_MAGIC in
  fill cached_sector 4 BITMAP_SIZE 0x00.

Definition check_vault : prog unit :=
  let* m := look in
  if negb (mle32 m vault_base =? VAULT_HEADER_MAGIC) then
    if mle32 m BACKUP_SECTOR_ADDRESS =? VAULT_HEADER_MAGIC then restore_backup 0 else
    let* cached_sector := lift empty_vault in
    let* _ := cache_commit 0 cached_sector in
    let* _ := flash_unlock in
    let* _ := flash_erase (vault_base + WOLFBOOT_SECTOR_SIZE * 2) total_vault_size in
    flash_lock
  else Ret tt.

(** ** Objects *)

(** The first header from [h] up to [stop] that satisfies [p]: the loops over
    the table all return at the first match. *)
Definition scan (m : mem) (p : obj_hdr -> bool) (h stop : Z) : outcome (option Z) :=
  loop (S (Z.to_nat WOLFBOOT_SECTOR_SIZE)) (fun h =>
    if negb (h <? stop) then Ok (inr None) else
    if p (hdr_at m h) then Ok (inr (Some h)) else Ok (inl (h + STORE_PRIV_HDR_SIZE))) h.

(** A search of the RAM copy of the header sector. *)
Definition scan_cached (cached_sector : list Z) (p : obj_hdr -> bool) : outcome (option Z) :=
  scan (at_ cached_sector) p STORE_PRIV_HDR_OFFSET WOLFBOOT_SECTOR_SIZE.

(** The header sector with the header of an object freed, if it has one. *)
Definition delete_header (cached_sector : list Z) (type tok_id obj_id : Z) : outcome (option (list Z)) :=
  let! h := scan_cached cached_sector (hdr_is type tok_id obj_id) in
  match h with
  | None => Ok None
  | Some h =>
      let p := pos (hdr_at (at_ cached_sector) h) in
      let! cached_sector := set_le32 cached_sector h INVALID_ID in
      let! cached_sector := set_le32 cached_sector (h + 4) INVALID_ID in
      let! cached_sector := bitmap_put cached_sector p 0 in
      Ok (Some cached_sector)
  end.

Definition delete_object (type tok_id obj_id : Z) : prog unit :=
  let* _ := check_vault in
  let* m := look in
  let* edited := lift (delete_header (mread m vault_base WOLFBOOT_SECTOR_SIZE) type tok_id obj_id) in
  match edited with
  | None => Ret tt
  | Some cached_sector => cache_commit 0 cached_sector
  end.

Definition find_object_header (m : mem) (type tok_id obj_id : Z) : outcome (option Z) :=
  scan m (hdr_is type tok_id obj_id) NODES_TABLE (vault_base + WOLFBOOT_SECTOR_SIZE).

Definition in_sector_off (p : Z) : Z := u32 (p * KEYVAULT_OBJ_SIZE) mod WOLFBOOT_SECTOR_SIZE.
Definition sector_base (p : Z) : Z :=
  u32 (p * KEYVAULT_OBJ_SIZE + 2 * WOLFBOOT_SECTOR_SIZE - in_sector_off p).

(** The address of slot [p]. *)
Definition slot (p : Z) : Z := vault_base + 2 * WOLFBOOT_SECTOR_SIZE + u32 (p * KEYVAULT_OBJ_SIZE).

(** The two identifiers at the start of a slot. *)
Definition ids_at (m : mem) (a tok_id obj_id : Z) : bool :=
  (mle32 m a =? tok_id) && (mle32 m (a + 4) =? obj_id).

Definition find_object_buffer (type tok_id obj_id : Z) : prog (option Z) :=
  let* m := look in
  let* h := lift (find_object_header m type tok_id obj_id) in
  match h with
  | None => Ret None
  | Some h =>
      let p := pos (hdr_at m h) in
      if negb (ids_at m (slot p) tok_id obj_id) then
        if ids_at m (BACKUP_SECTOR_ADDRESS + in_sector_off p) tok_id obj_id then
          let* _ := restore_backup (sector_base p) in
          let* m := look in
          Ret (Some (slot (pos (hdr_at m h))))
        else
          let* _ := delete_object type tok_id obj_id in
          Ret None
      else Ret (Some (slot p))
  end.

(** The header sector with header [h] taken for an object in slot [p]. *)
Definition claim_header (cached_sector : list Z) (h p type tok_id obj_id : Z) : outcome (list Z) :=
  let! cached_sector := set_le32 cached_sector (h + 12) p in
  let! cached_sector := set_le32 cached_sector h tok_id in
  let! cached_sector := set_le32 cached_sector (h + 4) obj_id in
  let! cached_sector := set_le32 cached_sector (h + 8) type in
  let! cached_sector := set_le32 cached_sector (h + 16) (2 * 4) in
  bitmap_put cached_sector p 1.

Definition create_object (type tok_id obj_id : Z) : prog (option Z) :=
  let* found := find_object_buffer type tok_id obj_id in
  match found with
  | Some _ => Ret None
  | None =>
      let* m := look in
      let cached_sector := mread m vault_base WOLFBOOT_SECTOR_SIZE in
      let* h := lift (scan_cached cached_sector (fun h => token_id h =? INVALID_ID)) in
      match h with
      | None => Ret None
      | Some h =>
          let* p := lift (bitmap_find_free_pos m) in
          if p <? 0 then Ret None else
          let* cached_sector := lift (claim_header cached_sector h p type tok_id obj_id) in
          let* _ := cache_commit 0 cached_sector in
          let* m := look in
          let cached_sector := mread m (vault_base + sector_base p) WOLFBOOT_SECTOR_SIZE in
          let* cached_sector := lift (
            let! cached_sector := set_le32 cached_sector (in_sector_off p) tok_id in
            set_le32 cached_sector (in_sector_off p + 4) obj_id) in
          let* _ := cache_commit (sector_base p) cached_sector in
          Ret (Some (vault_base + h))
      end
  end.

Definition update_store_size (hdr size : Z) : prog unit :=
  if (hdr <? vault_base) || (vault_base + WOLFBOOT_SECTOR_SIZE <? hdr) then Ret tt else
  let* _ := check_vault in
  let off := hdr - vault_base in
  let* m := look in
  let* cached_sector := lift (set_le32 (mread m vault_base WOLFBOOT_SECTOR_SIZE) (off + 16) size) in
  cache_commit 0 cached_sector.

Definition erase_object_payload (buf : Z) : prog unit :=
  let erase_off := u32 (u32 (buf - vault_base) + 2 * 4) in
  let erase_end := u32 (u32 (buf - vault_base) + KEYVAULT_OBJ_SIZE) in
  ploop (S (Z.to_nat (KEYVAULT_OBJ_SIZE + WOLFBOOT_SECTOR_SIZE))) (fun sector_base =>
    if negb (sector_base <? erase_end) then Ret (inr tt) else
    let erase_start := if erase_off <? sector_base then sector_base else erase_off in
    let erase_stop := if erase_end <? sector_base + WOLFBOOT_SECTOR_SIZE
                      then erase_end else sector_base + WOLFBOOT_SECTOR_SIZE in
    let* m := look in
    let cached_sector := mread m (vault_base + sector_base) WOLFBOOT_SECTOR_SIZE in
    let* cached_sector :=
      lift (fill cached_sector (erase_start - sector_base) (erase_stop - erase_start) 0xFF) in
    let* _ := cache_commit sector_base cached_sector in
    Ret (inl (sector_base + WOLFBOOT_SECTOR_SIZE)))
    (erase_off - erase_off mod WOLFBOOT_SECTOR_SIZE).

(** ** The interface *)

(** [openstores_handles]; a [void *] store is an index of it. *)
Definition find_free_handle (hs : list store_handle) : option nat :=
  fst <$> list_find (fun h => Z.land (flags h) STORE_FLAGS_OPEN = 0) hs.

(** The value returned, [*store], and the handles afterwards. *)
Definition wolfPSA_Store_Open (hs : list store_handle) (type id1 id2 : Z) (read : bool)
    : prog (Z * option nat * list store_handle) :=
  match find_free_handle hs with
  | None => Ret (SESSION_COUNT_E, None, hs)
  | Some i =>
      let handle := default handle0 (hs !! i) in
      let* _ := check_vault in
      let* buf := find_object_buffer type id1 id2 in
      match buf, read with
      | None, true => Ret (NOT_AVAILABLE_E, None, hs)
      | _, _ =>
          let* (ret, handle, buf, is_new) :=
            (match buf with
             | None =>
                 let* h := create_object type id1 id2 in
                 let handle := set_hhdr h handle in
                 match h with
                 | None => Ret (FIND_FULL_E, handle, 0, true)
                 | Some _ =>
                     let* buf := find_object_buffer type id1 id2 in
                     match buf with
                     | None => Ret (NOT_AVAILABLE_E, handle, 0, true)
                     | Some buf => Ret (0, handle, buf, true)
                     end
                 end
             | Some buf =>
                 let* m := look in
                 let* h := lift (find_object_header m type id1 id2) in
                 let handle := set_hhdr h handle in
                 match h with
                 | None => Ret (NOT_AVAILABLE_E, handle, 0, false)
                 | Some _ => Ret (0, handle, buf, false)
                 end
             end) in
          if negb (ret =? 0) then Ret (ret, None, <[i := handle]> hs) else
          let fl := Z.lor (flags handle) STORE_FLAGS_OPEN in
          let fl := if read then Z.lor fl STORE_FLAGS_READONLY
                    else Z.land fl (Z.lnot STORE_FLAGS_READONLY) in
          let* _ :=
            (if read then Ret tt else
             let* _ := update_store_size (default 0 (hhdr handle)) (2 * 4) in
             if is_new then Ret tt else erase_object_payload buf) in
          let handle := mkHandle fl ((buf - vault_base) / KEYVAULT_OBJ_SIZE) (Some buf)
                          (hhdr handle) (2 * 4) in
          Ret (0, Some i, <[i := handle]> hs)
      end
  end.

Definition wolfPSA_Store_OpenSz (hs : list store_handle) (type id1 id2 : Z) (read : bool)
    (variableSz : Z) : prog (Z * option nat * list store_handle) :=
  wolfPSA_Store_Open hs type id1 id2 read.

Definition wolfPSA_Store_Close (hs : list store_handle) (store : nat) : list store_handle :=
  <[store := handle0]> hs.

(** The pointers of a handle that are not NULL. *)
Definition handle_ptrs (hs : list store_handle) (store : option nat)
    : option (nat * store_handle * Z * Z) :=
  match store with
  | None => None
  | Some i =>
      let handle := default handle0 (hs !! i) in
      match hhdr handle, buffer handle with
      | Some h, Some b => Some (i, handle, h, b)
      | _, _ => None
      end
  end.

(** The value returned, the caller's buffer and the handles afterwards; [len] is
    an int. *)
Definition wolfPSA_Store_Read (hs : list store_handle) (store : option nat) (buf : list Z) (len : Z)
    : prog (Z * list Z * list store_handle) :=
  match handle_ptrs hs store with
  | None => Ret (-1, buf, hs)
  | Some (i, handle, h, b) =>
      let* m := look in
      let obj_size := osize (hdr_at m h) in
      if KEYVAULT_OBJ_SIZE <? obj_size then Ret (-1, buf, hs) else
      if obj_size <=? in_buffer_offset handle then Ret (0, buf, hs) else
      let len := if obj_size <? u32 (in_buffer_offset handle + len)
                 then i32 (obj_size - in_buffer_offset handle) else len in
      if 0 <? len then
        let* buf := lift (blit buf 0 (mread m (b + in_buffer_offset handle) len)) in
        Ret (len, buf, <[i := set_in_buffer_offset (u32 (in_buffer_offset handle + len)) handle]> hs)
      else Ret (len, buf, hs)
  end.

(** One turn of the loop of [wolfPSA_Store_Write]. *)
Definition write_step (b : Z) (buf : list Z) (len : Z) (s : Z * Z)
    : prog ((Z * Z) + (Z * Z)) :=
  let '(written, off) := s in
  if negb (written <? len) then Ret (inr (written, off)) else
  let in_sector_offset := (b + off) mod WOLFBOOT_SECTOR_SIZE in
  let sector_base := b + off - in_sector_offset in
  let in_sector_len := WOLFBOOT_SECTOR_SIZE - in_sector_offset in
  let in_sector_len := if u32 (len - written) <? in_sector_len then len - written else in_sector_len in
  let* m := look in
  let cached_sector := mread m sector_base WOLFBOOT_SECTOR_SIZE in
  let* cached_sector := lift (
    let! d := rd_bytes buf written in_sector_len in
    blit cached_sector in_sector_offset d) in
  let* _ := cache_commit (sector_base - vault_base) cached_sector in
  Ret (inl (written + in_sector_len, off + in_sector_len)).

Definition wolfPSA_Store_Write (hs : list store_handle) (store : option nat) (buf : list Z) (len : Z)
    : prog (Z * list store_handle) :=
  match handle_ptrs hs store with
  | None => Ret (-1, hs)
  | Some (i, handle, h, b) =>
      if negb (Z.land (flags handle) STORE_FLAGS_READONLY =? 0) then Ret (-1, hs) else
      let* m := look in
      let obj_size := osize (hdr_at m h) in
      if KEYVAULT_OBJ_SIZE <? obj_size then Ret (-1, hs) else
      let len := if KEYVAULT_OBJ_SIZE <? u32 (len + in_buffer_offset handle)
                 then i32 (KEYVAULT_OBJ_SIZE - in_buffer_offset handle) else len in
      if len <? 0 then Ret (-1, hs) else
      let* (written, off) := ploop (S (Z.to_nat len)) (write_step b buf len) (0, in_buffer_offset handle) in
      let* _ := update_store_size h (u32 (obj_size + written)) in
      Ret (len, <[i := set_in_buffer_offset off handle]> hs)
  end.

Definition wolfPSA_Store_Remove (type id1 id2 : Z) : prog Z :=
  let* _ := check_vault in
  let* buf := find_object_buffer type id1 id2 in
  match buf with
  | None => Ret NOT_AVAILABLE_E
  | Some _ =>
      let* _ := delete_object type id1 id2 in
      Ret 0
  end.

(** pkcs11_store.c: the same functions. *)
Definition wolfPKCS11_Store_Open := wolfPSA_Store_Open.
Definition wolfPKCS11_Store_Close := wolfPSA_Store_Close.
Definition wolfPKCS11_Store_Read := wolfPSA_Store_Read.
Definition wolfPKCS11_Store_Write := wolfPSA_Store_Write.
Definition wolfPKCS11_Store_Remove := wolfPSA_Store_Remove.

End Vault.

(** ** The heap behind the stores *)

(** [wolfboot_store_sbrk]: [heap] is the current break, 0 for NULL; the pointer
    returned ([None] is (void * ) -1) and the break afterwards. *)
Definition wolfboot_store_sbrk (incr heap heap_base heap_size : Z) : option Z * Z :=
  let heap_limit := heap_base + heap_size in
  if negb (Z.land incr 3 =? 0) && (0xFFFFFFFF - 3 <? incr) then (None, heap) else
  let incr := if negb (Z.land incr 3 =? 0) then Z.land (incr + 3) (0xFFFFFFFF - 3) else incr in
  let heap := if heap =? 0 then heap_base else heap in
  if u32 (heap_limit - heap) <? incr then (None, heap) else (Some heap, heap + incr).
