(* ===== verification/VaultSpec.v ===== *)
(** * VaultSpec: the tables of the key vault

    Word access to the header sector, the search of the table, the bitmap and
    the commit of a sector, in terms of the bytes they change. *)

From Stdlib Require Import ZArith Lia.
From stdpp Require Import prelude.
From S2P Require Import Prelude Flash Trailer Image UpdateFlash Vault.

Local Open Scope Z_scope.

(** ** Words in memory *)

Lemma mle32_ext m1 m2 a1 a2 :
  (forall i, 0 <= i < 4 -> m1 (a1 + i) = m2 (a2 + i)) -> mle32 m1 a1 = mle32 m2 a2.
Proof.
  intros H. unfold mle32. pose proof (H 0) as H0. rewrite !Z.add_0_r in H0.
  by rewrite H0, !H by lia.
Qed.

Lemma mle32_word m a : mem_ok m -> 0 <= mle32 m a < 2 ^ 32.
Proof.
  intros Hok. unfold mle32. pose proof (Hok a). pose proof (Hok (a + 1)).
  pose proof (Hok (a + 2)). pose proof (Hok (a + 3)). wblia.
Qed.

(** Storing a word in a buffer. *)
Lemma set_le32_spec l off v :
  0 <= off -> off + 4 <= zlen l -> bytes l ->
  wp (set_le32 l off v) (fun l' => zlen l' = zlen l /\ bytes l' /\ mle32 (at_ l') off = u32 v /\
    forall j, 0 <= j -> j < off \/ off + 4 <= j -> at_ l' j = at_ l j).
Proof.
  intros H0 H1 Hb. apply wp_blit; [done|exact H1|]. change (zlen (le32_bytes v)) with 4.
  intros l' Hl Hin Hout. split; [done|].
  split; [by apply (blit_bytes l off (le32_bytes v)); auto using le32_bytes_bytes|]. split; [|done].
  unfold mle32. pose proof (Hin 0 ltac:(lia)) as E0. rewrite Z.add_0_r in E0.
  rewrite E0, !Hin by lia. cbn. apply le32_value.
Qed.

Lemma i32_value v : - 2 ^ 31 <= v < 2 ^ 31 -> i32 (u32 v) = v.
Proof.
  intros H. unfold i32, u32. rewrite Z.mod_mod by lia.
  destruct (Z.ltb_spec (v mod 2 ^ 32) (2 ^ 31)); Z.div_mod_to_equations; lia.
Qed.

(** ** Runs of lifted code and of loops *)

Lemma rwp_lift {A B} (o : outcome A) (f : A -> prog B) s Q :
  wp o (fun a => rwp (f a) s Q) -> rwp (pbind (lift o) f) s Q.
Proof. intros H. apply wp_inv in H as (a & -> & H). exact H. Qed.

Lemma rwp_ploop {St R} (I : St -> flash -> Prop) (meas : St -> nat) (Q : R -> flash -> Prop)
    (fuel : nat) (body : St -> prog (St + R)) (x : St) s :
  (forall x s, I x s -> rwp (body x) s (fun y s' =>
     match y with inl x' => I x' s' /\ (meas x' < meas x)%nat | inr r => Q r s' end)) ->
  I x s -> (meas x < fuel)%nat -> rwp (ploop fuel body x) s Q.
Proof.
  intros Hbody. revert x s. induction fuel as [|fuel IH]; intros x s HI Hm; [lia|].
  cbn [ploop]. eapply rwp_then; [by apply Hbody|].
  intros [x'|r] s' H; [|by apply rwp_ret]. destruct H as [HI' Hlt]. apply IH; [done|lia].
Qed.

(** ** The vault in flash *)

(** The header table is a whole number of headers and starts after the bitmap,
    slots are aligned to their two identifiers, and the vault is aligned to
    sectors. *)
Class vault_geometry (c : config) (V : vault) : Prop := VaultGeometry {
  vg_sector : exists k, WOLFBOOT_SECTOR_SIZE = 32 * k;
  vg_table : STORE_PRIV_HDR_OFFSET + STORE_PRIV_HDR_SIZE <= WOLFBOOT_SECTOR_SIZE;
  vg_bitmap : BITMAP_SIZE <= STORE_PRIV_HDR_OFFSET - 4;
  vg_items : 0 < KEYVAULT_MAX_ITEMS;
  vg_obj : exists k, KEYVAULT_OBJ_SIZE = 8 * k /\ 1 <= k;
  vg_base : 0 <= vault_base;
  vg_align : exists k, vault_base = k * WOLFBOOT_SECTOR_SIZE;
  vg_end : vault_base + 3 * WOLFBOOT_SECTOR_SIZE + KEYVAULT_MAX_ITEMS * KEYVAULT_OBJ_SIZE < 2 ^ 31;
}.

Section VaultSpec.
Context {c : config} {V : vault} {G : vault_geometry c V}.

Abbreviation SS := WOLFBOOT_SECTOR_SIZE.
Abbreviation OBJ := KEYVAULT_OBJ_SIZE.
Abbreviation ITEMS := KEYVAULT_MAX_ITEMS.

(** The number of headers in the table. *)
Definition NN : Z := (SS - STORE_PRIV_HDR_OFFSET) / STORE_PRIV_HDR_SIZE.

Lemma ss_facts : 160 <= SS /\ SS mod 32 = 0 /\ 128 + 32 * NN = SS /\ 1 <= NN /\ 4 + ITEMS / 8 < 128.
Proof.
  destruct vg_sector as [k Hk]. pose proof vg_table as Ht. pose proof vg_bitmap as Hb.
  unfold NN, STORE_PRIV_HDR_OFFSET, STORE_PRIV_HDR_SIZE, BITMAP_SIZE in *. Z.div_mod_to_equations. lia.
Qed.

Lemma obj_facts : 8 <= OBJ /\ OBJ mod 8 = 0 /\ 0 < ITEMS /\ 0 <= vault_base /\
  vault_base + 3 * SS + ITEMS * OBJ < 2 ^ 31.
Proof.
  destruct vg_obj as (k & Hk & Hk1). pose proof vg_items. pose proof vg_base. pose proof vg_end.
  repeat split; try done; [lia|]. rewrite Hk, Z.mul_comm. apply Z.mod_mul. lia.
Qed.

(** Header [i] of a table that starts at [b]. *)
Definition node (m : mem) (b i : Z) : obj_hdr :=
  hdr_at m (b + STORE_PRIV_HDR_OFFSET + STORE_PRIV_HDR_SIZE * i).

Lemma hdr_at_ext m1 m2 a1 a2 :
  (forall i, 0 <= i < 20 -> m1 (a1 + i) = m2 (a2 + i)) -> hdr_at m1 a1 = hdr_at m2 a2.
Proof.
  intros H. unfold hdr_at. f_equal; [| |f_equal| |]; apply mle32_ext; intros i Hi;
    rewrite <- ?Z.add_assoc; apply H; lia.
Qed.

(** A search finds the first header that satisfies the test. *)
Lemma scan_spec m p b :
  wp (scan m p (b + STORE_PRIV_HDR_OFFSET) (b + SS)) (fun r =>
    match r with
    | None => forall i, 0 <= i < NN -> p (node m b i) = false
    | Some h => exists i, 0 <= i < NN /\ h = b + STORE_PRIV_HDR_OFFSET + STORE_PRIV_HDR_SIZE * i /\
        p (node m b i) = true /\ forall j, 0 <= j < i -> p (node m b j) = false
    end).
Proof.
  destruct ss_facts as (S1 & S2 & S3 & S4 & _). unfold scan, node, STORE_PRIV_HDR_OFFSET, STORE_PRIV_HDR_SIZE.
  apply (wp_loop (fun h => exists i, 0 <= i <= NN /\ h = b + 0x80 + 0x20 * i /\
      forall j, 0 <= j < i -> p (hdr_at m (b + 0x80 + 0x20 * j)) = false)
    (fun h => Z.to_nat (b + SS - h))).
  - intros h (i & Hi & -> & Hno). case_if; [apply wp_Ok; intros j Hj; apply Hno; lia|].
    destruct (p _) eqn:Ep; apply wp_Ok.
    + exists i. split; [lia|]. auto.
    + split; [|lia]. exists (i + 1). split; [lia|]. split; [lia|]. intros j Hj.
      destruct (Z.eq_dec j i) as [->|]; [done|]. apply Hno. lia.
  - exists 0. split; [lia|]. split; [lia|]. intros. lia.
  - lia.
Qed.

(** ** The bitmap *)

(** Slot [p] is marked in the bitmap that starts at [b + 4]. *)
Definition used (m : mem) (b p : Z) : bool := Z.testbit (m (b + 4 + p / 8)) (p mod 8).

Lemma bitmap_get_spec m p : 0 <= p -> bitmap_get m p = Z.b2z (used m vault_base p).
Proof.
  intros Hp. unfold bitmap_get, used. set (b := m _). set (k := p mod 8).
  assert (0 <= k) by (apply Z.mod_pos_bound; lia).
  apply Z.bits_inj'. intros n Hn. rewrite Z.shiftr_spec, Z.land_spec, Z.shiftl_spec by lia.
  destruct (Z.eq_dec n 0) as [->|Hn0].
  - rewrite Z.add_0_l, Z.sub_diag. cbn. rewrite andb_true_r. by destruct (Z.testbit b k).
  - replace (n + k - k) with n by lia. rewrite (Z.bits_above_log2 1) by (cbn; lia).
    rewrite andb_false_r. destruct (Z.testbit b k); cbn; [|by rewrite Z.bits_0].
    by rewrite (Z.bits_above_log2 1) by (cbn; lia).
Qed.

Lemma find_free_spec m :
  wp (bitmap_find_free_pos m) (fun p =>
    (p = -1 /\ forall i, 0 <= i < ITEMS -> used m vault_base i = true) \/
    (0 <= p < ITEMS /\ used m vault_base p = false)).
Proof.
  destruct obj_facts as (_ & _ & HI & _). unfold bitmap_find_free_pos.
  apply (wp_loop (fun i => 0 <= i <= ITEMS /\ forall j, 0 <= j < i -> used m vault_base j = true)
    (fun i => Z.to_nat (ITEMS - i))); [|split; [lia|intros; lia]|lia].
  intros i [Hi Hall]. case_if; [apply wp_Ok; left; split; [done|]; intros j Hj; apply Hall; lia|].
  rewrite bitmap_get_spec by lia. destruct (used m vault_base i) eqn:Eu; cbn [Z.b2z Z.eqb]; apply wp_Ok.
  - split; [|lia]. split; [lia|]. intros j Hj. destruct (Z.eq_dec j i) as [->|]; [done|]. apply Hall. lia.
  - right. split; [lia|done].
Qed.

Lemma octet_range p : 0 <= p < ITEMS -> 4 <= 4 + p / 8 < STORE_PRIV_HDR_OFFSET.
Proof.
  intros Hp. destruct ss_facts as (_ & _ & _ & _ & S5). unfold STORE_PRIV_HDR_OFFSET.
  assert (p / 8 <= ITEMS / 8) by (apply Z.div_le_mono; lia). pose proof (Z.div_pos p 8 ltac:(lia) ltac:(lia)). lia.
Qed.

(** Marking or clearing one slot. *)
Lemma bitmap_put_spec l p val :
  0 <= p < ITEMS -> zlen l = SS -> bytes l ->
  wp (bitmap_put l p val) (fun l' => zlen l' = SS /\ bytes l' /\
    (forall j, 0 <= j -> j <> 4 + p / 8 -> at_ l' j = at_ l j) /\
    forall q, 0 <= q < ITEMS -> used (at_ l') 0 q = if q =? p then negb (val =? 0) else used (at_ l) 0 q).
Proof.
  intros Hp Hl Hb. destruct ss_facts as (S1 & _). pose proof (octet_range p Hp) as Ho.
  unfold STORE_PRIV_HDR_OFFSET in Ho. unfold bitmap_put. case_if; [lia|].
  apply wp_bind, wp_rd; [lia|]. pose proof (at_byte l (4 + p / 8) Hb ltac:(lia)) as Hby.
  set (o := at_ l (4 + p / 8)) in *. set (k := p mod 8). assert (0 <= k < 8) by (apply Z.mod_pos_bound; lia).
  assert (Hk : 0 <= Z.shiftl 1 k < 2 ^ 8).
  { rewrite Z.shiftl_1_l. split; [apply Z.pow_nonneg; lia|]. apply Z.pow_lt_mono_r; lia. }
  set (v := if val =? 0 then u8 (Z.land o (Z.lnot (Z.shiftl 1 k))) else Z.lor o (Z.shiftl 1 k)).
  assert (Hv : is_byte v).
  { unfold v. case_if; [apply u8_range|]. apply (lor_range o _ 8); [lia|done|done]. }
  assert (Hbit : forall n, 0 <= n < 8 -> Z.testbit v n = if n =? k then negb (val =? 0) else Z.testbit o n).
  { intros n Hn. unfold v. destruct (val =? 0); cbn [negb].
    - unfold u8. change 256 with (2 ^ 8). rewrite Z.mod_pow2_bits_low by lia.
      rewrite Z.land_spec, Z.lnot_spec, Z.shiftl_spec by lia.
      destruct (Z.eqb_spec n k) as [->|]; [rewrite Z.sub_diag; cbn; apply andb_false_r|].
      replace (Z.testbit 1 (n - k)) with false; [apply andb_true_r|]. symmetry.
      destruct (Z.lt_ge_cases (n - k) 0); [by rewrite Z.testbit_neg_r|apply Z.bits_above_log2; cbn; lia].
    - rewrite Z.lor_spec, Z.shiftl_spec by lia.
      destruct (Z.eqb_spec n k) as [->|]; [rewrite Z.sub_diag; cbn; apply orb_true_r|].
      replace (Z.testbit 1 (n - k)) with false; [apply orb_false_r|]. symmetry.
      destruct (Z.lt_ge_cases (n - k) 0); [by rewrite Z.testbit_neg_r|apply Z.bits_above_log2; cbn; lia]. }
  assert (Hend : forall w, w = v -> wp (wr l (4 + p / 8) w) (fun l' => zlen l' = SS /\ bytes l' /\
    (forall j, 0 <= j -> j <> 4 + p / 8 -> at_ l' j = at_ l j) /\
    forall q, 0 <= q < ITEMS -> used (at_ l') 0 q = if q =? p then negb (val =? 0) else used (at_ l) 0 q)).
  { intros w ->. apply wp_wr; [lia|]. split; [by rewrite zlen_insert|]. split; [by apply bytes_insert|].
    split; [intros j ? ?; by apply at_insert_ne; lia|]. intros q Hq. unfold used. rewrite Z.add_0_l.
    pose proof (octet_range q Hq). assert (0 <= q mod 8 < 8) by (apply Z.mod_pos_bound; lia).
    destruct (Z.eq_dec (q / 8) (p / 8)) as [Eo|Eo].
    - rewrite Eo, at_insert_eq by lia. rewrite Hbit by done. fold o.
      destruct (Z.eqb_spec q p) as [->|Hne]; [by rewrite Z.eqb_refl|].
      destruct (Z.eqb_spec (q mod 8) k) as [Ek|]; [|done]. exfalso. unfold k in Ek.
      rewrite (Z.div_mod q 8), (Z.div_mod p 8) in Hne by lia. lia.
    - rewrite at_insert_ne by lia. by destruct (Z.eqb_spec q p) as [->|]. }
  unfold v in Hend. destruct (val =? 0); cbn [negb]; by apply Hend.
Qed.

(** ** Committing *)

(** Sector [off] of the vault holds [l]; of the other addresses only those of the
    backup have changed. *)
Definition committed (m : mem) (off : Z) (l : list Z) (m' : mem) : Prop :=
  mem_ok m' /\ (forall i, 0 <= i < SS -> m' (vault_base + off + i) = at_ l i) /\
  (forall a, ~ (vault_base + off <= a < vault_base + off + SS) ->
     ~ (BACKUP_SECTOR_ADDRESS <= a < BACKUP_SECTOR_ADDRESS + SS) -> m' a = m a).

Lemma cache_commit_spec off l s (Q : unit -> flash -> Prop) :
  mem_ok (fmem s) -> zlen l = SS -> bytes l -> (off = 0 \/ 2 * SS <= off) ->
  (forall s', committed (fmem s) off l (fmem s') -> Q tt s') -> rwp (cache_commit off l) s Q.
Proof.
  intros Hok Hl Hb Hoff HQ. destruct ss_facts as (S1 & _). unfold cache_commit, BACKUP_SECTOR_ADDRESS.
  eexists tt, _. split; [reflexivity|]. apply HQ. cbn [fmem hal_flash_lock].
  set (m1 := nor_write (nor_erase (fmem s) (vault_base + SS) SS) (vault_base + SS) l).
  assert (mem_ok m1) as Hok1 by (apply mem_ok_write; [by apply mem_ok_erase|done]).
  split; [apply mem_ok_write; [by apply mem_ok_erase|done]|]. split.
  - intros i Hi. rewrite nor_write_in by lia. rewrite nor_erase_in by lia.
    rewrite land_erased by (replace (_ - _) with i by lia; apply at_byte; [done|lia]). f_equal. lia.
  - intros a Ha1 Ha2. unfold BACKUP_SECTOR_ADDRESS in Ha2. rewrite nor_write_out by lia. rewrite nor_erase_out by lia. unfold m1.
    rewrite nor_write_out by lia. by rewrite nor_erase_out by lia.
Qed.

Lemma rwp_commit {B} off l (f : unit -> prog B) s Q :
  mem_ok (fmem s) -> zlen l = SS -> bytes l -> (off = 0 \/ 2 * SS <= off) ->
  (forall s', committed (fmem s) off l (fmem s') -> rwp (f tt) s' Q) ->
  rwp (pbind (cache_commit off l) f) s Q.
Proof. intros. apply rwp_bind. by apply cache_commit_spec. Qed.

End VaultSpec.
