(* ===== verification/VaultMap.v ===== *)
(** * VaultMap: the key vault as a finite map

    The invariant of the vault and the map from object identifiers to contents
    that it represents.  Two lemmas carry every operation: changing one header
    together with its slot is an insertion, freeing a header is a deletion. *)

From Stdlib Require Import ZArith Lia.
From stdpp Require Import prelude gmap.
From S2P Require Import Prelude Flash Trailer Image UpdateFlash Vault VaultSpec.

Local Open Scope Z_scope.

Section VaultMap.
Context {c : config} {V : vault} {G : vault_geometry c V}.

Abbreviation SS := WOLFBOOT_SECTOR_SIZE.
Abbreviation OBJ := KEYVAULT_OBJ_SIZE.
Abbreviation ITEMS := KEYVAULT_MAX_ITEMS.

(** ** Objects in flash *)

Definition nd (m : mem) (i : Z) : obj_hdr := node m vault_base i.
Definition node_addr (i : Z) : Z := vault_base + STORE_PRIV_HDR_OFFSET + STORE_PRIV_HDR_SIZE * i.

(** Header [i] belongs to an object. *)
Definition live (m : mem) (i : Z) : Prop := 0 <= i < NN /\ token_id (nd m i) <> INVALID_ID.

#[export] Instance live_dec m i : Decision (live m i) := _.

(** The identifiers and the contents of the object of header [i]. *)
Definition okey (m : mem) (i : Z) : Z * Z * Z := (otype (nd m i), token_id (nd m i), object_id (nd m i)).
Definition payload (m : mem) (i : Z) : list Z := mread m (slot (pos (nd m i)) + 8) (osize (nd m i) - 8).

Definition node_ok (m : mem) (i : Z) : Prop :=
  0 <= pos (nd m i) < ITEMS /\ 8 <= osize (nd m i) <= OBJ /\
  ids_at m (slot (pos (nd m i))) (token_id (nd m i)) (object_id (nd m i)) = true.

Record vault_ok (m : mem) : Prop := {
  vo_mem : mem_ok m;
  vo_magic : mle32 m vault_base = VAULT_HEADER_MAGIC;
  vo_node : forall i, live m i -> node_ok m i;
  vo_used : forall p, 0 <= p < ITEMS ->
    (used m vault_base p = true <-> exists i, live m i /\ pos (nd m i) = p);
  vo_pos : forall i j, live m i -> live m j -> pos (nd m i) = pos (nd m j) -> i = j;
  vo_key : forall i j, live m i -> live m j -> okey m i = okey m j -> i = j;
}.

(** The map the vault stands for. *)
Definition objects (m : mem) : gmap (Z * Z * Z) (list Z) :=
  list_to_map ((fun i => (okey m i, payload m i)) <$> filter (live m) (seqZ 0 NN)).

Lemma elem_live m i : i ∈ filter (live m) (seqZ 0 NN) <-> live m i.
Proof. rewrite list_elem_of_filter, elem_of_seqZ. unfold live. lia. Qed.

Lemma objects_keys m : vault_ok m ->
  NoDup ((fun i => (okey m i, payload m i)) <$> filter (live m) (seqZ 0 NN)).*1.
Proof.
  intros Hv. rewrite <- list_fmap_compose. apply NoDup_fmap_2_strong; [|apply NoDup_filter, NoDup_seqZ].
  intros i j Hi%elem_live Hj%elem_live. cbn. by apply (vo_key m Hv).
Qed.

Lemma objects_lookup m k d : vault_ok m ->
  objects m !! k = Some d <-> exists i, live m i /\ okey m i = k /\ payload m i = d.
Proof.
  intros Hv. unfold objects. rewrite <- elem_of_list_to_map by by apply objects_keys.
  rewrite list_elem_of_fmap. split.
  - intros (i & [= -> ->] & Hi%elem_live). eauto.
  - intros (i & Hi & <- & <-). exists i. split; [done|]. by apply elem_live.
Qed.

Lemma objects_none m k : vault_ok m ->
  objects m !! k = None <-> forall i, live m i -> okey m i <> k.
Proof.
  intros Hv. rewrite eq_None_not_Some. split.
  - intros Hn i Hi Hk. apply Hn. exists (payload m i). apply objects_lookup; eauto.
  - intros Hn [d Hd]. apply objects_lookup in Hd as (i & Hi & Hk & _); [|done]. by apply (Hn i).
Qed.

Lemma objects_at m i : vault_ok m -> live m i -> objects m !! okey m i = Some (payload m i).
Proof. intros Hv Hi. apply objects_lookup; eauto. Qed.

(** ** Slots *)

Lemma slot_eq p : 0 <= p < ITEMS -> slot p = vault_base + 2 * SS + p * OBJ.
Proof.
  intros Hp. destruct obj_facts as (O1 & _ & O3 & O4 & O5). destruct ss_facts as (S1 & _).
  unfold slot. rewrite u32_small; [done|nia].
Qed.

Lemma slot_bounds p : 0 <= p < ITEMS ->
  vault_base + 2 * SS <= slot p /\ slot p + OBJ <= vault_base + 2 * SS + ITEMS * OBJ.
Proof. intros Hp. rewrite slot_eq by done. destruct obj_facts as (O1 & _). nia. Qed.

Lemma slot_disjoint p q a : 0 <= p < ITEMS -> 0 <= q < ITEMS -> p <> q ->
  slot p <= a < slot p + OBJ -> ~ (slot q <= a < slot q + OBJ).
Proof. intros Hp Hq Hne. rewrite !slot_eq by done. destruct obj_facts as (O1 & _). nia. Qed.

Lemma ids_at_ext m1 m2 a t o :
  (forall i, 0 <= i < 8 -> m1 (a + i) = m2 (a + i)) -> ids_at m1 a t o = ids_at m2 a t o.
Proof.
  intros H. unfold ids_at. do 2 f_equal; apply mle32_ext; intros i Hi; rewrite <- ?Z.add_assoc; apply H; lia.
Qed.

(** ** Changing one object *)

Section Change.
Context (m m' : mem) (n p : Z).
Context (Hv : vault_ok m) (Hok' : mem_ok m') (Hmagic : mle32 m' vault_base = VAULT_HEADER_MAGIC).
Context (Hn : 0 <= n < NN) (Hp : 0 <= p < ITEMS).
Context (Hoth : forall i, 0 <= i < NN -> i <> n -> nd m' i = nd m i).
Context (Hdata : forall i a, live m i -> i <> n ->
  slot (pos (nd m i)) <= a < slot (pos (nd m i)) + OBJ -> m' a = m a).

Lemma other_live i : i <> n -> live m' i <-> live m i.
Proof. intros Hi. unfold live. split; intros [Hr Ht]; (split; [done|]); by rewrite Hoth in *. Qed.

Lemma other_node i : i <> n -> live m i -> nd m' i = nd m i /\ node_ok m' i /\ payload m' i = payload m i.
Proof.
  intros Hi Hl. destruct (vo_node m Hv i Hl) as (P1 & P2 & P3). destruct Hl as [Hr Ht].
  assert (nd m' i = nd m i) as E by by apply Hoth. split; [done|]. unfold node_ok, payload. rewrite E.
  destruct obj_facts as (O1 & _). split.
  - split; [done|]. split; [done|]. rewrite <- P3. apply ids_at_ext. intros j Hj. apply (Hdata i); [done..|lia].
  - apply mread_ext. intros j Hj. apply (Hdata i); [done..|lia].
Qed.

(** An object whose header and slot are replaced. *)
Lemma vault_update :
  live m' n -> pos (nd m' n) = p -> node_ok m' n ->
  (forall q, 0 <= q < ITEMS -> used m' vault_base q = (q =? p) || used m vault_base q) ->
  (live m n /\ pos (nd m n) = p /\ okey m' n = okey m n) \/
  (~ live m n /\ used m vault_base p = false /\ objects m !! okey m' n = None) ->
  vault_ok m' /\ objects m' = <[okey m' n := payload m' n]> (objects m).
Proof.
  intros Hl Hpos Hnok Hused Hold.
  assert (Hother : forall i, i <> n -> live m i -> pos (nd m i) <> p /\ okey m i <> okey m' n).
  { intros i Hi Hli. destruct Hold as [(L1 & L2 & L3)|(L1 & L2 & L3)].
    - rewrite L3. split; intros E; apply Hi.
      + apply (vo_pos m Hv); [done..|congruence].
      + by apply (vo_key m Hv).
    - split.
      + intros E. enough (used m vault_base p = true) by congruence. apply (vo_used m Hv); eauto.
      + apply (proj1 (objects_none m _ Hv)); done. }
  assert (Hv' : vault_ok m').
  { split; [done|done|..].
    - intros i Hi. destruct (Z.eq_dec i n) as [->|Hne]; [done|]. apply other_node; [done|]. by apply other_live.
    - intros q Hq. rewrite Hused by done. destruct (Z.eqb_spec q p) as [->|Hne]; cbn [orb].
      + split; [|done]. intros _. by exists n.
      + rewrite (vo_used m Hv q Hq). split; intros (i & Hi & Hiq).
        * assert (i <> n) as Hin.
          { intros ->. destruct Hold as [(L1 & L2 & L3)|(L1 & L2 & L3)]; [congruence|done]. }
          exists i. split; [by apply other_live|]. rewrite (proj1 (other_node i Hin Hi)). done.
        * assert (i <> n) as Hin by (intros ->; congruence). apply other_live in Hi; [|done].
          exists i. split; [done|]. by rewrite <- (proj1 (other_node i Hin Hi)).
    - intros i j Hi Hj E. destruct (Z.eq_dec i n) as [->|Hin], (Z.eq_dec j n) as [->|Hjn]; [done|..].
      + apply other_live in Hj; [|done]. rewrite (proj1 (other_node j Hjn Hj)), Hpos in E.
        exfalso. by apply (proj1 (Hother j Hjn Hj)).
      + apply other_live in Hi; [|done]. rewrite (proj1 (other_node i Hin Hi)), Hpos in E.
        exfalso. by apply (proj1 (Hother i Hin Hi)).
      + apply other_live in Hi, Hj; [|done..].
        rewrite (proj1 (other_node i Hin Hi)), (proj1 (other_node j Hjn Hj)) in E. by apply (vo_pos m Hv).
    - intros i j Hi Hj E. destruct (Z.eq_dec i n) as [->|Hin], (Z.eq_dec j n) as [->|Hjn]; [done|..].
      + apply other_live in Hj; [|done]. exfalso. apply (proj2 (Hother j Hjn Hj)). rewrite E.
        unfold okey. by rewrite (proj1 (other_node j Hjn Hj)).
      + apply other_live in Hi; [|done]. exfalso. apply (proj2 (Hother i Hin Hi)). rewrite <- E.
        unfold okey. by rewrite (proj1 (other_node i Hin Hi)).
      + apply other_live in Hi, Hj; [|done..]. unfold okey in E.
        rewrite (proj1 (other_node i Hin Hi)), (proj1 (other_node j Hjn Hj)) in E. by apply (vo_key m Hv). }
  split; [done|]. apply map_eq. intros k. apply option_eq. intros d. rewrite (objects_lookup m' k d Hv').
  rewrite lookup_insert_Some, (objects_lookup m k d Hv). split.
  - intros (i & Hi & <- & <-). destruct (Z.eq_dec i n) as [->|Hin]; [by left|]. right.
    apply other_live in Hi; [|done]. destruct (other_node i Hin Hi) as (E1 & _ & E2).
    assert (okey m' i = okey m i) as Ek by (unfold okey; by rewrite E1).
    split; [rewrite Ek; intros E; by apply (proj2 (Hother i Hin Hi))|]. exists i. by rewrite Ek, E2.
  - intros [[<- <-]|(Hne & i & Hi & <- & <-)]; [by exists n|].
    assert (i <> n) as Hin.
    { intros ->. destruct Hold as [(L1 & L2 & L3)|(L1 & L2 & L3)]; [|done]. by rewrite L3 in Hne. }
    destruct (other_node i Hin Hi) as (E1 & _ & E2). exists i. split; [by apply other_live|].
    split; [unfold okey; by rewrite E1|done].
Qed.

(** A header that is freed. *)
Lemma vault_delete :
  live m n -> pos (nd m n) = p -> ~ live m' n ->
  (forall q, 0 <= q < ITEMS -> used m' vault_base q = negb (q =? p) && used m vault_base q) ->
  vault_ok m' /\ objects m' = delete (okey m n) (objects m).
Proof.
  intros Hl Hpos Hdead Hused.
  assert (Hlive : forall i, live m' i -> i <> n /\ live m i).
  { intros i Hi. assert (i <> n) as Hin by (by intros ->). split; [done|]. by apply other_live. }
  assert (Hv' : vault_ok m').
  { split; [done|done|..].
    - intros i [Hin Hi]%Hlive. by apply other_node.
    - intros q Hq. rewrite Hused by done. destruct (Z.eqb_spec q p) as [->|Hne]; cbn [negb andb].
      + split; [done|]. intros (i & [Hin Hi]%Hlive & E). exfalso. apply Hin.
        rewrite (proj1 (other_node i Hin Hi)) in E. apply (vo_pos m Hv); [done..|congruence].
      + rewrite (vo_used m Hv q Hq). split; intros (i & Hi & Hiq).
        * assert (i <> n) as Hin by (intros ->; congruence).
          exists i. split; [by apply other_live|]. by rewrite (proj1 (other_node i Hin Hi)).
        * apply Hlive in Hi as [Hin Hi]. exists i. split; [done|]. by rewrite <- (proj1 (other_node i Hin Hi)).
    - intros i j [Hin Hi]%Hlive [Hjn Hj]%Hlive.
      rewrite (proj1 (other_node i Hin Hi)), (proj1 (other_node j Hjn Hj)). by apply (vo_pos m Hv).
    - intros i j [Hin Hi]%Hlive [Hjn Hj]%Hlive. unfold okey.
      rewrite (proj1 (other_node i Hin Hi)), (proj1 (other_node j Hjn Hj)). by apply (vo_key m Hv). }
  split; [done|]. apply map_eq. intros k. apply option_eq. intros d. rewrite (objects_lookup m' k d Hv').
  rewrite lookup_delete_Some, (objects_lookup m k d Hv). split.
  - intros (i & [Hin Hi]%Hlive & <- & <-). destruct (other_node i Hin Hi) as (E1 & _ & E2).
    assert (okey m' i = okey m i) as Ek by (unfold okey; by rewrite E1). rewrite Ek, E2.
    split; [intros E; apply Hin; symmetry; by apply (vo_key m Hv)|by exists i].
  - intros (Hne & i & Hi & <- & <-). assert (i <> n) as Hin by (by intros ->).
    destruct (other_node i Hin Hi) as (E1 & _ & E2). exists i. split; [by apply other_live|].
    split; [unfold okey; by rewrite E1|done].
Qed.

End Change.

End VaultMap.
