(* ===== verification/VaultStore.v ===== *)
(** * VaultStore: the operations of the key vault on the map it stands for *)

From Stdlib Require Import ZArith Lia.
From stdpp Require Import prelude gmap.
From S2P Require Import Prelude Flash Trailer Image UpdateFlash Vault VaultSpec VaultMap.

Local Open Scope Z_scope.

Section VaultStore.
Context {c : config} {V : vault} {G : vault_geometry c V}.

Abbreviation SS := WOLFBOOT_SECTOR_SIZE.
Abbreviation OBJ := KEYVAULT_OBJ_SIZE.
Abbreviation ITEMS := KEYVAULT_MAX_ITEMS.

(** Identifiers as the interface takes them; the token of a free header is not
    one. *)
Definition key_ok (type tok obj : Z) : Prop :=
  - 2 ^ 31 <= type < 2 ^ 31 /\ 0 <= tok < INVALID_ID /\ 0 <= obj < 2 ^ 32.

(** ** Searching *)

Lemma hdr_is_spec m i type tok obj :
  hdr_is type tok obj (nd m i) = true <-> okey m i = (type, tok, obj).
Proof.
  unfold hdr_is, okey. generalize (nd m i). intros h. rewrite !andb_true_iff, !Z.eqb_eq.
  split; [by intros [[-> ->] ->]|by intros [= -> -> ->]].
Qed.

Lemma found_live m i type tok obj :
  key_ok type tok obj -> 0 <= i < NN -> okey m i = (type, tok, obj) -> live m i.
Proof.
  intros (_ & Ht & _) Hi. unfold live, okey. generalize (nd m i). intros h [= _ -> _].
  unfold INVALID_ID in *. lia.
Qed.

Lemma find_header_spec m type tok obj :
  key_ok type tok obj ->
  wp (find_object_header m type tok obj) (fun r =>
    match r with
    | None => forall i, live m i -> okey m i <> (type, tok, obj)
    | Some h => exists i, h = node_addr i /\ live m i /\ okey m i = (type, tok, obj)
    end).
Proof.
  intros Hk. unfold find_object_header, NODES_TABLE. eapply wp_mono; [apply scan_spec|].
  intros [h|].
  - intros (i & Hi & -> & Hp & _). apply hdr_is_spec in Hp. exists i. eauto using found_live.
  - intros Hno i [Hi _] E. apply hdr_is_spec in E. unfold nd in E. by rewrite Hno in E.
Qed.

Lemma find_buffer_spec type tok obj s :
  vault_ok (fmem s) -> key_ok type tok obj ->
  rwp (find_object_buffer type tok obj) s (fun r s' => s' = s /\
    match r with
    | None => objects (fmem s) !! (type, tok, obj) = None
    | Some b => exists i, live (fmem s) i /\ okey (fmem s) i = (type, tok, obj) /\ b = slot (pos (nd (fmem s) i))
    end).
Proof.
  intros Hv Hk. unfold find_object_buffer. apply rwp_look, rwp_lift.
  eapply wp_mono; [by apply find_header_spec|]. intros [h|].
  - intros (i & -> & Hi & E). destruct (vo_node _ Hv i Hi) as (_ & _ & Hids).
    change (hdr_at (fmem s) (node_addr i)) with (nd (fmem s) i).
    assert (token_id (nd (fmem s) i) = tok /\ object_id (nd (fmem s) i) = obj) as [Et Eo]
      by (revert E; unfold okey; generalize (nd (fmem s) i); by intros h [= _ -> ->]).
    rewrite Et, Eo in Hids. rewrite Hids. cbn [negb]. apply rwp_ret. split; [done|]. exists i. auto.
  - intros Hno. apply rwp_ret. split; [done|]. by apply objects_none.
Qed.

Lemma check_vault_ok s : vault_ok (fmem s) -> run check_vault s = (inl tt, s).
Proof.
  intros Hv. unfold check_vault. cbn [pbind look run]. rewrite (vo_magic _ Hv), Z.eqb_refl. done.
Qed.

Lemma rwp_check {B} (f : unit -> prog B) s Q :
  vault_ok (fmem s) -> rwp (f tt) s Q -> rwp (pbind check_vault f) s Q.
Proof. intros Hv H. apply rwp_bind. exists tt, s. by rewrite check_vault_ok. Qed.

(** ** Changes of the header sector *)

(** Reading a committed header sector is reading the buffer. *)
Lemma committed_header m l m' : committed m 0 l m' ->
  (forall i, 0 <= i < NN -> nd m' i = node (at_ l) 0 i) /\
  (forall p, 0 <= p < ITEMS -> used m' vault_base p = used (at_ l) 0 p) /\
  mle32 m' vault_base = mle32 (at_ l) 0 /\
  (forall a, vault_base + 2 * SS <= a -> m' a = m a).
Proof.
  intros (_ & Hin & Hout). destruct ss_facts as (S1 & S2 & S3 & S4 & S5).
  rewrite Z.add_0_r in Hin, Hout. split_and!.
  - intros i Hi. unfold nd, node, STORE_PRIV_HDR_OFFSET, STORE_PRIV_HDR_SIZE. apply hdr_at_ext.
    intros j Hj. rewrite <- !Z.add_assoc, Z.add_0_l. rewrite Hin by lia. done.
  - intros p Hp. pose proof (octet_range p Hp) as Ho. unfold STORE_PRIV_HDR_OFFSET in Ho.
    unfold used. rewrite <- Z.add_assoc. rewrite Hin by lia. f_equal.
  - apply mle32_ext. intros i Hi. rewrite Hin by lia. f_equal.
  - intros a Ha. unfold BACKUP_SECTOR_ADDRESS in Hout. apply Hout; lia.
Qed.

(** The RAM copy of the header sector. *)
Definition header_of (m : mem) : list Z := mread m vault_base SS.

Lemma header_of_facts m : mem_ok m ->
  zlen (header_of m) = SS /\ bytes (header_of m) /\
  (forall i, 0 <= i < SS -> at_ (header_of m) i = m (vault_base + i)) /\
  (forall i, 0 <= i < NN -> node (at_ (header_of m)) 0 i = nd m i) /\
  (forall p, 0 <= p < ITEMS -> used (at_ (header_of m)) 0 p = used m vault_base p) /\
  mle32 (at_ (header_of m)) 0 = mle32 m vault_base.
Proof.
  intros Hok. destruct ss_facts as (S1 & S2 & S3 & S4 & S5). unfold header_of.
  split; [apply mread_length; lia|]. split; [by apply mread_bytes|].
  split; [intros i Hi; by apply mread_at|]. split_and!.
  - intros i Hi. unfold nd, node, STORE_PRIV_HDR_OFFSET, STORE_PRIV_HDR_SIZE. apply hdr_at_ext.
    intros j Hj. rewrite <- !Z.add_assoc, Z.add_0_l. rewrite mread_at by lia. f_equal.
  - intros p Hp. pose proof (octet_range p Hp) as Ho. unfold STORE_PRIV_HDR_OFFSET in Ho.
    unfold used. rewrite <- (Z.add_assoc vault_base). rewrite mread_at by lia. f_equal.
  - apply mle32_ext. intros i Hi. rewrite mread_at by lia. f_equal.
Qed.

(** A buffer that differs from the header sector of [m] in header [n] and the
    bitmap only. *)
Definition header_edit (m : mem) (n : Z) (l : list Z) : Prop :=
  zlen l = SS /\ bytes l /\
  forall j, 0 <= j < SS ->
    (j < 4 \/ 128 <= j < 128 + 32 * n \/ 128 + 32 * n + 32 <= j) -> at_ l j = m (vault_base + j).

Lemma header_edit_keeps m n l m' :
  mem_ok m -> 0 <= n < NN -> header_edit m n l -> committed m 0 l m' ->
  mem_ok m' /\ mle32 m' vault_base = mle32 m vault_base /\
  (forall i, 0 <= i < NN -> i <> n -> nd m' i = nd m i) /\
  nd m' n = node (at_ l) 0 n /\
  (forall a, vault_base + 2 * SS <= a -> m' a = m a).
Proof.
  intros Hok Hn (Hl & Hb & Hsame) Hc. destruct ss_facts as (S1 & S2 & S3 & S4 & S5).
  destruct (committed_header _ _ _ Hc) as (C1 & C2 & C3 & C4). destruct Hc as (Hok' & _ & _).
  split; [done|]. split; [|split; [|split; [by apply C1|done]]].
  - rewrite C3. apply mle32_ext. intros i Hi. rewrite Z.add_0_l. apply Hsame; lia.
  - intros i Hi Hne. rewrite C1 by done. unfold nd, node, STORE_PRIV_HDR_OFFSET, STORE_PRIV_HDR_SIZE.
    apply hdr_at_ext. intros j Hj. rewrite <- !Z.add_assoc, Z.add_0_l. apply Hsame; lia.
Qed.

(** Slots are outside the header sector. *)
Lemma slot_kept m m' i a : vault_ok m -> (forall a, vault_base + 2 * SS <= a -> m' a = m a) ->
  live m i -> slot (pos (nd m i)) <= a < slot (pos (nd m i)) + OBJ -> m' a = m a.
Proof.
  intros Hv Hsame Hi Ha. destruct (vo_node m Hv i Hi) as (Hp & _). apply Hsame.
  pose proof (slot_bounds _ Hp). lia.
Qed.

(** ** Deletion *)

(** The scan of the RAM copy of the header sector. *)
Lemma scan_cached_spec m p : mem_ok m ->
  wp (scan_cached (header_of m) p) (fun r =>
    match r with
    | None => forall i, 0 <= i < NN -> p (nd m i) = false
    | Some h => exists i, 0 <= i < NN /\ h = 128 + 32 * i /\ p (nd m i) = true
    end).
Proof.
  intros Hok. destruct (header_of_facts m Hok) as (_ & _ & _ & Hnd & _).
  unfold scan_cached. rewrite <- (Z.add_0_l STORE_PRIV_HDR_OFFSET), <- (Z.add_0_l SS) at 1.
  eapply wp_mono; [apply scan_spec|]. intros [h|].
  - intros (i & Hi & -> & Hp & _). rewrite Hnd in Hp by done. by exists i.
  - intros Hno i Hi. rewrite <- Hnd by done. by apply Hno.
Qed.

(** A header sector with header [n] freed. *)
Definition frees (m : mem) (n : Z) (l : list Z) : Prop :=
  header_edit m n l /\ token_id (node (at_ l) 0 n) = INVALID_ID /\
  forall q, 0 <= q < ITEMS -> used (at_ l) 0 q = negb (q =? pos (nd m n)) && used m vault_base q.

Lemma free_header_spec m n :
  mem_ok m -> 0 <= n < NN -> 0 <= pos (nd m n) < ITEMS ->
  wp (let! l := set_le32 (header_of m) (128 + 32 * n) INVALID_ID in
      let! l := set_le32 l (128 + 32 * n + 4) INVALID_ID in
      let! l := bitmap_put l (pos (nd m n)) 0 in Ok (Some l)) (fun r => exists l, r = Some l /\ frees m n l).
Proof.
  intros Hok Hn Hp. destruct ss_facts as (S1 & S2 & S3 & S4 & S5).
  destruct (header_of_facts m Hok) as (L1 & L2 & L3 & _ & L5 & _).
  pose proof (octet_range _ Hp) as Ho. unfold STORE_PRIV_HDR_OFFSET in Ho.
  eapply wp_bind_mono; [apply set_le32_spec; [lia|lia|done]|]. intros l1 (A1 & A2 & A3 & A4).
  eapply wp_bind_mono; [apply set_le32_spec; [lia|lia|done]|]. intros l2 (B1 & B2 & B3 & B4).
  eapply wp_bind_mono; [apply bitmap_put_spec; [done|congruence|done]|]. intros l3 (C1 & C2 & C3 & C4).
  apply wp_Ok. exists l3. split; [done|]. split; [|split].
  - split; [done|]. split; [done|]. intros j Hj Hout.
    rewrite C3, B4, A4 by lia. by apply L3.
  - unfold node, hdr_at. cbn [token_id]. unfold STORE_PRIV_HDR_OFFSET, STORE_PRIV_HDR_SIZE.
    rewrite <- (u32_small INVALID_ID), <- A3 by done. apply mle32_ext. intros i Hi.
    rewrite C3, B4 by lia. f_equal.
  - intros q Hq. rewrite C4 by done. destruct (q =? _); cbn [negb andb]; [done|].
    rewrite <- L5 by done. pose proof (octet_range q Hq) as Hoq. unfold STORE_PRIV_HDR_OFFSET in Hoq.
    unfold used. f_equal. rewrite B4, A4 by lia. done.
Qed.

Lemma delete_header_spec m type tok obj :
  vault_ok m -> key_ok type tok obj ->
  wp (delete_header (header_of m) type tok obj) (fun r =>
    match r with
    | None => objects m !! (type, tok, obj) = None
    | Some l => exists n, live m n /\ okey m n = (type, tok, obj) /\ frees m n l
    end).
Proof.
  intros Hv Hk. pose proof (vo_mem _ Hv) as Hok. unfold delete_header.
  eapply wp_bind_mono; [by apply scan_cached_spec|]. intros [h|].
  - intros (n & Hn & -> & Hp%hdr_is_spec). pose proof (found_live _ _ _ _ _ Hk Hn Hp) as Hl.
    destruct (vo_node _ Hv n Hl) as (Hpos & _). destruct (header_of_facts _ Hok) as (_ & _ & _ & Hnd & _).
    assert (hdr_at (at_ (header_of m)) (128 + 32 * n) = nd m n) as -> by (rewrite <- Hnd by done; done).
    eapply wp_mono; [by apply free_header_spec|]. intros ? (l & -> & Hf). by exists n.
  - intros Hno. apply wp_Ok. apply objects_none; [done|]. intros i [Hi _] E%hdr_is_spec. by rewrite Hno in E.
Qed.

Lemma frees_committed m n l m' :
  vault_ok m -> live m n -> frees m n l -> committed m 0 l m' ->
  vault_ok m' /\ objects m' = delete (okey m n) (objects m).
Proof.
  intros Hv Hl (He & Htok & Hus) Hc. pose proof (vo_mem _ Hv) as Hok. pose proof Hl as [Hn _].
  destruct (vo_node _ Hv n Hl) as (Hpos & _).
  destruct (header_edit_keeps _ _ _ _ Hok Hn He Hc) as (K1 & K2 & K3 & K4 & K5).
  apply (vault_delete _ _ n (pos (nd m n))); try done.
  - by rewrite K2, (vo_magic _ Hv).
  - intros i a Hi _. by apply (slot_kept _ _ i).
  - intros [_ Hd]. apply Hd. by rewrite K4.
  - intros q Hq. rewrite (proj1 (proj2 (committed_header _ _ _ Hc))) by done. by apply Hus.
Qed.

Lemma delete_object_spec type tok obj s :
  vault_ok (fmem s) -> key_ok type tok obj ->
  rwp (delete_object type tok obj) s (fun _ s' =>
    vault_ok (fmem s') /\ objects (fmem s') = delete (type, tok, obj) (objects (fmem s))).
Proof.
  intros Hv Hk. unfold delete_object. apply rwp_check; [done|]. apply rwp_look, rwp_lift.
  eapply wp_mono; [by apply delete_header_spec|]. intros [l|].
  - intros (n & Hl & <- & Hf). pose proof Hf as ((Hz & Hb & _) & _).
    apply cache_commit_spec; [apply (vo_mem _ Hv)|done|done|by left|]. intros s' Hc. by apply (frees_committed _ _ l).
  - intros Hno. apply rwp_ret. split; [done|]. by rewrite delete_id.
Qed.

(** ** The size of an object *)

(** Object [n] has kept its identifiers, its slot and everything in its slot. *)
Record same_object (m m' : mem) (n : Z) : Prop := {
  so_live : live m' n;
  so_key : okey m' n = okey m n;
  so_pos : pos (nd m' n) = pos (nd m n);
}.

Lemma set_size_spec m n size :
  mem_ok m -> 0 <= n < NN ->
  wp (set_le32 (header_of m) (128 + 32 * n + 16) size) (fun l =>
    header_edit m n l /\
    (forall q, 0 <= q < ITEMS -> used (at_ l) 0 q = used m vault_base q) /\
    node (at_ l) 0 n = mkHdr (token_id (nd m n)) (object_id (nd m n)) (otype (nd m n)) (pos (nd m n)) (u32 size)).
Proof.
  intros Hok Hn. destruct ss_facts as (S1 & S2 & S3 & S4 & S5).
  destruct (header_of_facts m Hok) as (L1 & L2 & L3 & L4 & L5 & _).
  eapply wp_mono; [apply set_le32_spec; [lia|lia|done]|]. intros l (A1 & A2 & A3 & A4). split; [|split].
  - split; [congruence|]. split; [done|]. intros j Hj Hout. rewrite A4 by lia. by apply L3.
  - intros q Hq. rewrite <- L5 by done. pose proof (octet_range q Hq) as Hoq. unfold STORE_PRIV_HDR_OFFSET in Hoq.
    unfold used. f_equal. apply A4; lia.
  - rewrite <- L4 by done. unfold node, STORE_PRIV_HDR_OFFSET, STORE_PRIV_HDR_SIZE. unfold hdr_at.
    cbn [token_id object_id otype pos]. rewrite Z.add_0_l.
    f_equal; [| |f_equal| |exact A3]; apply mle32_ext; intros i Hi; apply A4; lia.
Qed.

Lemma update_size_spec n size s :
  vault_ok (fmem s) -> live (fmem s) n -> 8 <= size <= OBJ ->
  rwp (update_store_size (node_addr n) size) s (fun _ s' =>
    vault_ok (fmem s') /\ same_object (fmem s) (fmem s') n /\ osize (nd (fmem s') n) = size /\
    (forall a, vault_base + 2 * SS <= a -> fmem s' a = fmem s a) /\
    objects (fmem s') = <[okey (fmem s) n := mread (fmem s) (slot (pos (nd (fmem s) n)) + 8) (size - 8)]>
                          (objects (fmem s))).
Proof.
  intros Hv Hl Hsz. pose proof (vo_mem _ Hv) as Hok. destruct ss_facts as (S1 & S2 & S3 & S4 & S5).
  destruct obj_facts as (O1 & _ & O3 & O4 & O5). pose proof Hl as [Hn Htok].
  destruct (vo_node _ Hv n Hl) as (Hp & Hs0 & Hids).
  unfold update_store_size, node_addr, STORE_PRIV_HDR_OFFSET, STORE_PRIV_HDR_SIZE.
  destruct (_ || _) eqn:E; [apply orb_true_iff in E as [E%Z.ltb_lt|E%Z.ltb_lt]; lia|].
  apply rwp_check; [done|]. apply rwp_look, rwp_lift.
  change (mread (fmem s) vault_base SS) with (header_of (fmem s)).
  replace (vault_base + 0x80 + 0x20 * n - vault_base + 16) with (128 + 32 * n + 16) by lia.
  eapply wp_mono; [by apply set_size_spec|]. intros l (He & Hus & Hnode).
  apply cache_commit_spec; [done|apply He|apply He|by left|]. intros s' Hc.
  destruct (header_edit_keeps _ _ _ _ Hok Hn He Hc) as (K1 & K2 & K3 & K4 & K5).
  rewrite Hnode in K4. rewrite u32_small in K4 by nia.
  assert (same_object (fmem s) (fmem s') n) as Hso.
  { split; [split; [done|by rewrite K4]|unfold okey; by rewrite K4|by rewrite K4]. }
  assert (payload (fmem s') n = mread (fmem s) (slot (pos (nd (fmem s) n)) + 8) (size - 8)) as Hpay.
  { unfold payload. rewrite K4. cbn [pos osize]. pose proof (slot_bounds _ Hp).
    apply mread_ext. intros i Hi. apply K5. lia. }
  destruct (vault_update (fmem s) (fmem s') n (pos (nd (fmem s) n))) as [Hv' Ho']; try done.
  - by rewrite K2, (vo_magic _ Hv).
  - intros i a Hi _. by apply (slot_kept _ _ i).
  - apply Hso.
  - apply Hso.
  - unfold node_ok. rewrite K4. cbn [pos osize token_id object_id]. split; [done|]. split; [done|].
    rewrite <- Hids. apply ids_at_ext. intros i Hi. apply K5. pose proof (slot_bounds _ Hp). lia.
  - intros q Hq. rewrite (proj1 (proj2 (committed_header _ _ _ Hc))) by done. rewrite Hus by done.
    destruct (Z.eqb_spec q (pos (nd (fmem s) n))) as [->|]; [|done]. apply (vo_used _ Hv); [done|by exists n].
  - left. split; [done|]. split; [done|]. apply Hso.
  - split; [done|]. split; [done|]. split; [by rewrite K4|]. split; [done|].
    rewrite Ho', Hpay, (so_key _ _ _ Hso). done.
Qed.

(** ** Creation *)

Lemma claim_header_spec m n p type tok obj :
  mem_ok m -> 0 <= n < NN -> 0 <= p < ITEMS -> key_ok type tok obj ->
  wp (claim_header (header_of m) (128 + 32 * n) p type tok obj) (fun l =>
    header_edit m n l /\ node (at_ l) 0 n = mkHdr tok obj type p 8 /\
    forall q, 0 <= q < ITEMS -> used (at_ l) 0 q = (q =? p) || used m vault_base q).
Proof.
  intros Hok Hn Hp (K1 & K2 & K3). destruct ss_facts as (S1 & S2 & S3 & S4 & S5). unfold INVALID_ID in K2.
  destruct obj_facts as (O1 & _ & O3 & O4 & O5).
  destruct (header_of_facts m Hok) as (L1 & L2 & L3 & _ & L5 & _).
  pose proof (octet_range _ Hp) as Ho. unfold STORE_PRIV_HDR_OFFSET in Ho. unfold claim_header.
  eapply wp_bind_mono; [apply set_le32_spec; [lia|lia|done]|]. intros l1 (A1 & A2 & A3 & A4).
  eapply wp_bind_mono; [apply set_le32_spec; [lia|lia|done]|]. intros l2 (B1 & B2 & B3 & B4).
  eapply wp_bind_mono; [apply set_le32_spec; [lia|lia|done]|]. intros l3 (C1 & C2 & C3 & C4).
  eapply wp_bind_mono; [apply set_le32_spec; [lia|lia|done]|]. intros l4 (D1 & D2 & D3 & D4).
  eapply wp_bind_mono; [apply set_le32_spec; [lia|lia|done]|]. intros l5 (E1 & E2 & E3 & E4).
  eapply wp_mono; [apply bitmap_put_spec; [done|congruence|done]|]. intros l6 (F1 & F2 & F3 & F4).
  split; [|split].
  - split; [done|]. split; [done|]. intros j Hj Hout. rewrite F3, E4, D4, C4, B4, A4 by lia. by apply L3.
  - unfold node, hdr_at, STORE_PRIV_HDR_OFFSET, STORE_PRIV_HDR_SIZE. rewrite Z.add_0_l.
    set (h := 128 + 32 * n) in *.
    replace (mkHdr tok obj type p 8) with (mkHdr (mle32 (at_ l2) h) (mle32 (at_ l3) (h + 4))
      (i32 (mle32 (at_ l4) (h + 8))) (mle32 (at_ l1) (h + 12)) (mle32 (at_ l5) (h + 16)))
      by (rewrite A3, B3, C3, D3, E3, i32_value, !u32_small by nia; done).
    f_equal; [| |f_equal| |]; apply mle32_ext; intros i Hi; rewrite F3 by lia;
      [rewrite E4, D4, C4 by lia|rewrite E4, D4 by lia|rewrite E4 by lia|rewrite E4, D4, C4, B4 by lia|]; done.
  - intros q Hq. rewrite F4 by done. destruct (q =? p); cbn [negb orb Z.eqb]; [done|].
    rewrite <- L5 by done. pose proof (octet_range q Hq) as Hoq. unfold STORE_PRIV_HDR_OFFSET in Hoq.
    unfold used. f_equal. rewrite E4, D4, C4, B4, A4 by lia. done.
Qed.

(** The sector of a slot. *)
Lemma sector_facts p : 0 <= p < ITEMS ->
  vault_base + sector_base p + in_sector_off p = slot p /\ 0 <= in_sector_off p /\
  in_sector_off p + 8 <= SS /\ 2 * SS <= sector_base p.
Proof.
  intros Hp. destruct ss_facts as (S1 & S2 & S3 & S4 & S5). destruct obj_facts as (O1 & O2 & O3 & O4 & O5).
  rewrite slot_eq by done. unfold sector_base, in_sector_off.
  rewrite (u32_small (p * OBJ)) by nia. set (x := p * OBJ).
  assert (0 <= x < 2 ^ 31) as Hx by (unfold x; nia).
  assert (x mod 8 = 0) as Hx8 by (unfold x; rewrite Z.mul_mod, O2, Z.mul_0_r by lia; done).
  assert (0 <= x mod SS < SS) as Hm by (apply Z.mod_pos_bound; lia). assert (x mod SS <= x) by (apply Z.mod_le; lia).
  assert (x mod SS + 8 <= SS).
  { assert ((x mod SS) mod 8 = 0); [|Z.div_mod_to_equations; lia].
    rewrite (Z.mod_eq x) by lia. destruct vg_sector as [z Hz].
    rewrite Hz. replace (x - 32 * z * (x / (32 * z))) with (x + (- (z * 4 * (x / (32 * z)))) * 8) by lia.
    rewrite Z.mod_add by lia. done. }
  rewrite u32_small by lia. lia.
Qed.

(** A committed data sector that differs from the flash in [lo, hi) only. *)
Definition data_edit (m m' : mem) (lo hi : Z) : Prop :=
  mem_ok m' /\ (forall a, vault_base <= a < vault_base + SS -> m' a = m a) /\
  (forall a, vault_base + 2 * SS <= a -> ~ (lo <= a < hi) -> m' a = m a).

Lemma committed_data m B l m' lo hi :
  committed m B l m' -> 2 * SS <= B ->
  (forall j, 0 <= j < SS -> ~ (lo <= vault_base + B + j < hi) -> at_ l j = m (vault_base + B + j)) ->
  data_edit m m' lo hi.
Proof.
  intros (Hok & Hin & Hout) HB Hl. destruct ss_facts as (S1 & _). unfold BACKUP_SECTOR_ADDRESS in Hout.
  split; [done|]. split; [intros a Ha; apply Hout; lia|]. intros a Ha Hn.
  destruct (decide (vault_base + B <= a < vault_base + B + SS)) as [Hi|Hi]; [|apply Hout; lia].
  replace a with (vault_base + B + (a - vault_base - B)) by lia. rewrite Hin by lia. apply Hl; lia.
Qed.

Lemma data_edit_header m m' lo hi : data_edit m m' lo hi ->
  (forall i, 0 <= i < NN -> nd m' i = nd m i) /\
  (forall p, 0 <= p < ITEMS -> used m' vault_base p = used m vault_base p) /\
  mle32 m' vault_base = mle32 m vault_base.
Proof.
  intros (_ & H & _). destruct ss_facts as (S1 & S2 & S3 & S4 & S5). split_and!.
  - intros i Hi. apply hdr_at_ext. intros j Hj. apply H. unfold STORE_PRIV_HDR_OFFSET, STORE_PRIV_HDR_SIZE. lia.
  - intros p Hp. pose proof (octet_range p Hp) as Ho. unfold STORE_PRIV_HDR_OFFSET in Ho.
    unfold used. f_equal. apply H. lia.
  - apply mle32_ext. intros i Hi. apply H. lia.
Qed.

(** No header or no slot is free. *)
Definition vault_full (m : mem) : Prop :=
  (forall i, 0 <= i < NN -> live m i) \/ (forall p, 0 <= p < ITEMS -> used m vault_base p = true).

Lemma write_ids_spec m p tok obj :
  mem_ok m -> 0 <= p < ITEMS -> 0 <= tok < 2 ^ 32 -> 0 <= obj < 2 ^ 32 ->
  wp (let! l := set_le32 (mread m (vault_base + sector_base p) SS) (in_sector_off p) tok in
      set_le32 l (in_sector_off p + 4) obj) (fun l => zlen l = SS /\ bytes l /\
    mle32 (at_ l) (in_sector_off p) = tok /\ mle32 (at_ l) (in_sector_off p + 4) = obj /\
    forall j, 0 <= j < SS -> ~ (slot p <= vault_base + sector_base p + j < slot p + 8) ->
      at_ l j = m (vault_base + sector_base p + j)).
Proof.
  intros Hok Hp Ht Ho. destruct ss_facts as (S1 & _). destruct (sector_facts p Hp) as (F1 & F2 & F3 & F4).
  assert (zlen (mread m (vault_base + sector_base p) SS) = SS) as Hl by (apply mread_length; lia).
  eapply wp_bind_mono; [apply set_le32_spec; [lia|lia|by apply mread_bytes]|]. intros l1 (A1 & A2 & A3 & A4).
  eapply wp_mono; [apply set_le32_spec; [lia|lia|done]|]. intros l2 (B1 & B2 & B3 & B4).
  split; [congruence|]. split; [done|]. split_and!.
  - rewrite <- (u32_small tok), <- A3 by lia. apply mle32_ext. intros i Hi. apply B4; lia.
  - by rewrite B3, u32_small.
  - intros j Hj Hn. rewrite B4, A4 by lia. by apply mread_at.
Qed.

Lemma create_object_spec type tok obj s :
  vault_ok (fmem s) -> key_ok type tok obj -> objects (fmem s) !! (type, tok, obj) = None ->
  rwp (create_object type tok obj) s (fun r s' =>
    match r with
    | Some h => exists n, h = node_addr n /\ live (fmem s') n /\ okey (fmem s') n = (type, tok, obj) /\
        vault_ok (fmem s') /\ objects (fmem s') = <[(type, tok, obj) := []]> (objects (fmem s))
    | None => s' = s /\ vault_full (fmem s)
    end).
Proof.
  intros Hv Hk Hnew. pose proof (vo_mem _ Hv) as Hok. destruct ss_facts as (S1 & S2 & S3 & S4 & S5).
  destruct obj_facts as (O1 & _ & O3 & O4 & O5). pose proof Hk as (K1 & K2 & K3). unfold INVALID_ID in K2.
  unfold create_object. eapply rwp_then; [by apply find_buffer_spec|].
  intros r ? (-> & Hr). destruct r as [b|].
  { exfalso. destruct Hr as (i & Hi & E & _). by apply (proj1 (objects_none _ _ Hv) Hnew i). }
  apply rwp_look, rwp_lift. change (mread (fmem s) vault_base SS) with (header_of (fmem s)).
  eapply wp_mono; [by apply scan_cached_spec|]. intros [h|]; cycle 1.
  { intros Hno. apply rwp_ret. split; [done|]. left. intros i Hi. split; [done|]. specialize (Hno i Hi). bools. done. }
  intros (n & Hn & -> & Hfree). cbv beta in Hfree. bools.
  apply rwp_lift. eapply wp_mono; [apply find_free_spec|]. intros p [[-> Hall]|[Hp Hpf]].
  { apply rwp_ret. split; [done|]. by right. }
  replace (p <? 0) with false by (symmetry; apply Z.ltb_ge; lia).
  apply rwp_lift. eapply wp_mono; [by apply claim_header_spec|]. intros l (He & Hnode & Hus).
  apply rwp_commit; [done|apply He|apply He|by left|]. intros s1 Hc. destruct (header_edit_keeps _ _ _ _ Hok Hn He Hc) as (E1 & E2 & E3 & E4 & E5).
  pose proof (proj1 (proj2 (committed_header _ _ _ Hc))) as Hus1.
  apply rwp_look, rwp_lift. eapply wp_mono; [apply write_ids_spec; [done|done|lia|done]|].
  intros l2 (W1 & W2 & W3 & W4 & W5). destruct (sector_facts p Hp) as (F1 & F2 & F3 & F4).
  apply rwp_commit; [done|done|done|by right|]. intros s2 Hc2. apply rwp_ret. exists n.
  assert (data_edit (fmem s1) (fmem s2) (slot p) (slot p + 8)) as Hde by (by apply (committed_data _ (sector_base p) l2)).
  destruct (data_edit_header _ _ _ _ Hde) as (D1 & D2 & D3). destruct Hde as (G1 & G2 & G3).
  assert (nd (fmem s2) n = mkHdr tok obj type p 8) as Hnd by (rewrite D1, E4 by done; done).
  assert (live (fmem s2) n) as Hl2 by (split; [done|]; rewrite Hnd; cbn; unfold INVALID_ID; lia).
  assert (okey (fmem s2) n = (type, tok, obj)) as Hkey by (unfold okey; by rewrite Hnd).
  split; [unfold node_addr, STORE_PRIV_HDR_OFFSET, STORE_PRIV_HDR_SIZE; lia|].
  split; [done|]. split; [done|].
  assert (payload (fmem s2) n = []) as Hpay by (unfold payload; by rewrite Hnd).
  rewrite <- Hpay, <- Hkey. apply (vault_update _ _ n p); try done.
  - by rewrite D3, E2, (vo_magic _ Hv).
  - intros i Hi Hne. rewrite D1 by done. by apply E3.
  - intros i a Hi Hne Ha. destruct (vo_node _ Hv i Hi) as (Hpi & _). pose proof (slot_bounds _ Hpi).
    rewrite G3; [apply E5; lia|lia|]. intros Hb. apply (slot_disjoint (pos (nd (fmem s) i)) p a); [done|done| |done|lia].
    intros E. enough (used (fmem s) vault_base p = true) by congruence. apply (vo_used _ Hv); eauto.
  - by rewrite Hnd.
  - unfold node_ok. rewrite Hnd. cbn [pos osize token_id object_id]. split; [done|]. split; [lia|].
    destruct Hc2 as (_ & Hin & _). unfold ids_at. apply andb_true_iff.
    rewrite <- F1. split; apply Z.eqb_eq; [rewrite <- W3|rewrite <- W4]; apply mle32_ext; intros i Hi;
      rewrite <- !Z.add_assoc, (Z.add_assoc vault_base); rewrite Hin by lia; f_equal; lia.
  - intros q Hq. rewrite D2, Hus1, Hus by done. done.
  - right. split; [intros [_ Hd]; done|]. split; [done|]. by rewrite Hkey.
Qed.

(** ** The contents of a slot *)

Lemma data_edit_refl m lo hi : mem_ok m -> data_edit m m lo hi.
Proof. intros. by split_and!. Qed.

Lemma data_edit_trans m1 m2 m3 lo hi : data_edit m1 m2 lo hi -> data_edit m2 m3 lo hi -> data_edit m1 m3 lo hi.
Proof.
  intros (_ & A1 & A2) (B0 & B1 & B2). split; [done|]. split.
  - intros a Ha. by rewrite B1, A1.
  - intros a Ha Hn. by rewrite B2, A2.
Qed.

Lemma data_edit_widen m m' lo hi lo' hi' :
  data_edit m m' lo hi -> lo' <= lo -> hi <= hi' -> data_edit m m' lo' hi'.
Proof. intros (A0 & A1 & A2) H1 H2. split; [done|]. split; [done|]. intros a Ha Hn. apply A2; [done|lia]. Qed.

Lemma slot_edit m m' n :
  vault_ok m -> live m n ->
  data_edit m m' (slot (pos (nd m n)) + 8) (slot (pos (nd m n)) + OBJ) ->
  vault_ok m' /\ (forall i, 0 <= i < NN -> nd m' i = nd m i) /\
  objects m' = <[okey m n := payload m' n]> (objects m).
Proof.
  intros Hv Hl He. pose proof Hl as [Hn Htok]. destruct (vo_node _ Hv n Hl) as (Hp & Hsz & Hids).
  destruct (data_edit_header _ _ _ _ He) as (D1 & D2 & D3). destruct He as (G1 & G2 & G3).
  destruct obj_facts as (O1 & _). pose proof (slot_bounds _ Hp) as Hsb.
  assert (okey m' n = okey m n) as Hk by (unfold okey; by rewrite D1).
  enough (vault_ok m' /\ objects m' = <[okey m' n := payload m' n]> (objects m)) as [H1 H2]
    by (rewrite Hk in H2; done).
  apply (vault_update m m' n (pos (nd m n))); try done.
  - by rewrite D3, (vo_magic _ Hv).
  - intros i Hi _. by apply D1.
  - intros i a Hi Hne Ha. destruct (vo_node _ Hv i Hi) as (Hpi & _). pose proof (slot_bounds _ Hpi).
    apply G3; [lia|]. intros Hb. apply (slot_disjoint (pos (nd m i)) (pos (nd m n)) a); [done|done| |done|lia].
    intros E. apply Hne. by apply (vo_pos _ Hv).
  - split; [done|]. by rewrite D1.
  - by rewrite D1.
  - unfold node_ok. rewrite D1 by done. split; [done|]. split; [done|]. rewrite <- Hids.
    apply ids_at_ext. intros i Hi. apply G3; lia.
  - intros q Hq. rewrite D2 by done. destruct (Z.eqb_spec q (pos (nd m n))) as [->|]; [|done].
    apply (vo_used _ Hv); [done|by exists n].
  - left. auto.
Qed.

(** Writing a buffer into a sector of the data area. *)
Lemma commit_blit {B} off o d (f : unit -> prog B) s Q :
  mem_ok (fmem s) -> 2 * SS <= off -> 0 <= o -> o + zlen d <= SS -> bytes d ->
  (forall s', data_edit (fmem s) (fmem s') (vault_base + off + o) (vault_base + off + o + zlen d) ->
     (forall i, 0 <= i < zlen d -> fmem s' (vault_base + off + o + i) = at_ d i) -> rwp (f tt) s' Q) ->
  rwp (let* l := lift (blit (mread (fmem s) (vault_base + off) SS) o d) in
       let* x := cache_commit off l in f x) s Q.
Proof.
  intros Hok Hoff Ho Hlen Hd HQ. destruct ss_facts as (S1 & _). pose proof (zlen_nonneg d).
  assert (zlen (mread (fmem s) (vault_base + off) SS) = SS) as Hl by (apply mread_length; lia).
  apply rwp_lift, wp_blit; [lia|lia|]. intros l Hl' Hin Hout.
  assert (bytes l) as Hb.
  { apply (blit_bytes (mread (fmem s) (vault_base + off) SS) o d); try done; [lia|by apply mread_bytes]. }
  apply rwp_commit; [done|congruence|done|by right|]. intros s' Hc. apply HQ.
  - apply (committed_data _ off l); [done|done|]. intros j Hj Hn. rewrite Hout by lia. by apply mread_at.
  - intros i Hi. destruct Hc as (_ & Hci & _). rewrite <- Z.add_assoc. rewrite Hci by lia. by apply Hin.
Qed.

Lemma erase_payload_spec n s :
  vault_ok (fmem s) -> live (fmem s) n ->
  let p := pos (nd (fmem s) n) in
  rwp (erase_object_payload (slot p)) s (fun _ s' =>
    data_edit (fmem s) (fmem s') (slot p + 8) (slot p + OBJ)).
Proof.
  intros Hv Hl p. destruct (vo_node _ Hv n Hl) as (Hp & _). fold p in Hp.
  destruct ss_facts as (S1 & _). destruct obj_facts as (O1 & _ & O3 & O4 & O5).
  pose proof (slot_bounds p Hp) as Hsb. unfold erase_object_payload.
  rewrite !(u32_small (slot p - vault_base)), !u32_small by lia.
  set (eo := slot p - vault_base + 2 * 4). set (ee := slot p - vault_base + OBJ).
  assert (0 <= eo mod SS < SS) as Hm by (apply Z.mod_pos_bound; lia).
  apply (rwp_ploop (fun sb s' => data_edit (fmem s) (fmem s') (slot p + 8) (slot p + OBJ) /\
      2 * SS <= sb /\ eo < sb + SS) (fun sb => Z.to_nat (ee - sb))).
  - intros sb s1 (He & Hsb1 & Hsb2). case_if; [by apply rwp_ret|].
    set (st := if eo <? sb then sb else eo). set (sp := if ee <? sb + SS then ee else sb + SS).
    assert (st = Z.max eo sb) as Hst by (unfold st; case_if; lia).
    assert (sp = Z.min ee (sb + SS)) as Hsp by (unfold sp; case_if; lia).
    assert (eo <= ee) by (unfold eo, ee; lia). apply rwp_look. unfold fill.
    set (d := replicate (Z.to_nat (sp - st)) 0xFF).
    assert (zlen d = sp - st) as Hd by (unfold d, zlen; rewrite length_replicate; lia).
    apply commit_blit; [apply He|done|lia|lia|apply Forall_replicate; unfold is_byte; lia|].
    intros s2 He2 _. apply rwp_ret. split; [|lia]. split; [|lia].
    eapply data_edit_trans; [exact He|]. eapply data_edit_widen; [exact He2|..]; unfold eo, ee in *; lia.
  - split; [apply data_edit_refl, (vo_mem _ Hv)|]. split; [|lia].
    assert (2 <= eo / SS) by (apply Z.div_le_lower_bound; unfold eo; lia). rewrite Z.mod_eq by lia. nia.
  - unfold eo, ee in *. lia.
Qed.

Lemma write_loop_spec n buf len off0 s :
  vault_ok (fmem s) -> live (fmem s) n ->
  let b := slot (pos (nd (fmem s) n)) in
  8 <= off0 -> 0 <= len <= zlen buf -> off0 + len <= OBJ -> bytes buf ->
  rwp (ploop (S (Z.to_nat len)) (write_step b buf len) (0, off0)) s (fun r s' =>
    r = (len, off0 + len) /\ data_edit (fmem s) (fmem s') (b + off0) (b + off0 + len) /\
    forall i, 0 <= i < len -> fmem s' (b + off0 + i) = at_ buf i).
Proof.
  intros Hv Hl b H0 Hlen Hfit Hb. destruct (vo_node _ Hv n Hl) as (Hp & _).
  destruct ss_facts as (S1 & _). destruct obj_facts as (O1 & _ & O3 & O4 & O5).
  pose proof (slot_bounds _ Hp) as Hsb. fold b in Hsb.
  apply (rwp_ploop (fun '(w, off) s' => off = off0 + w /\ 0 <= w <= len /\
      data_edit (fmem s) (fmem s') (b + off0) (b + off0 + len) /\
      forall i, 0 <= i < w -> fmem s' (b + off0 + i) = at_ buf i)
    (fun '(w, _) => Z.to_nat (len - w))).
  - intros [w off] s1 (-> & Hw & He & Hdone). unfold write_step. case_if.
    { apply rwp_ret. assert (w = len) as -> by lia. auto. }
    set (io := (b + (off0 + w)) mod SS). set (sbA := b + (off0 + w) - io).
    assert (0 <= io < SS) as Hio by (apply Z.mod_pos_bound; lia).
    assert (vault_base + 2 * SS <= sbA) as Hal.
    { destruct (vg_align (c := c) (V := V)) as [k Hk]. unfold sbA, io. rewrite Z.mod_eq by lia.
      assert (k + 2 <= (b + (off0 + w)) / SS) by (apply Z.div_le_lower_bound; lia). nia. }
    set (il := if u32 (len - w) <? SS - io then len - w else SS - io).
    assert (il = Z.min (len - w) (SS - io)) as Hil by (unfold il; rewrite u32_small by lia; case_if; lia).
    apply rwp_look. unfold rd_bytes.
    replace (_ && _ && _) with true by (symmetry; rewrite !andb_true_iff, !Z.leb_le; lia).
    cbn [obind]. assert (zlen (slice buf w il) = il) as Hsl by (apply slice_length; lia).
    replace sbA with (vault_base + (sbA - vault_base)) at 1 by lia.
    apply commit_blit; [apply He|lia|lia|lia|by apply slice_bytes|]. rewrite Hsl.
    replace (vault_base + (sbA - vault_base) + io) with (b + off0 + w) by (unfold sbA; lia).
    intros s2 He2 Hin2. apply rwp_ret. split; [|lia]. split; [lia|]. split; [lia|]. split.
    + eapply data_edit_trans; [exact He|]. eapply data_edit_widen; [exact He2|lia|lia].
    + intros i Hi. destruct (Z.lt_ge_cases i w) as [Hlt|Hge].
      * destruct He2 as (_ & _ & G3). rewrite G3 by lia. apply Hdone; lia.
      * replace (b + off0 + i) with (b + off0 + w + (i - w)) by lia. rewrite Hin2 by lia.
        rewrite at_slice by lia. f_equal. lia.
  - split; [lia|]. split; [lia|]. split; [apply data_edit_refl, (vo_mem _ Hv)|]. intros. lia.
  - lia.
Qed.

End VaultStore.
