(* ===== verification/VaultClaims.v ===== *)
(** * VaultClaims: what the key vault promises

    The interface of the store on the map it represents: opening, writing,
    reading and removing; what is stored is read back; how a vault comes to
    exist; and what a power failure can do to an object. *)

From Stdlib Require Import ZArith Lia.
From stdpp Require Import prelude gmap.
From S2P Require Import Prelude Flash Trailer Image UpdateFlash Vault VaultSpec VaultMap VaultStore.

Local Open Scope Z_scope.

Section VaultClaims.
Context {c : config} {V : vault} {G : vault_geometry c V}.

Abbreviation SS := WOLFBOOT_SECTOR_SIZE.
Abbreviation OBJ := KEYVAULT_OBJ_SIZE.
Abbreviation ITEMS := KEYVAULT_MAX_ITEMS.

(** Handle [i] is open on object [k], at [off], for reading only if [ro]. *)
Definition handle_for (m : mem) (hs : list store_handle) (i : nat) (k : Z * Z * Z) (off : Z) (ro : bool)
    : Prop :=
  exists n h, hs !! i = Some h /\ live m n /\ okey m n = k /\ hhdr h = Some (node_addr n) /\
    buffer h = Some (slot (pos (nd m n))) /\ in_buffer_offset h = off /\
    (Z.land (flags h) STORE_FLAGS_READONLY =? 0) = negb ro.

Lemma objects_size m : vault_ok m -> size (objects m) = length (filter (live m) (seqZ 0 NN)).
Proof.
  intros Hv. unfold objects. rewrite map_size_list_to_map by by apply objects_keys. by rewrite length_fmap.
Qed.

(** A full vault holds as many objects as there are headers or slots. *)
Lemma full_size m : vault_ok m -> vault_full m -> Z.min NN ITEMS <= Z.of_nat (size (objects m)).
Proof.
  intros Hv Hf. destruct ss_facts as (_ & _ & _ & S4 & _). destruct obj_facts as (_ & _ & O3 & _).
  rewrite (objects_size m Hv).
  set (L := filter (live m) (seqZ 0 NN)). destruct Hf as [Hall|Hall].
  - assert (seqZ 0 NN ⊆+ L) as Hs.
    { apply NoDup_submseteq; [apply NoDup_seqZ|]. intros i Hi%elem_of_seqZ. apply elem_live, Hall. lia. }
    apply submseteq_length in Hs. rewrite length_seqZ in Hs. lia.
  - assert (seqZ 0 ITEMS ⊆+ ((fun i => pos (nd m i)) <$> L)) as Hs.
    { apply NoDup_submseteq; [apply NoDup_seqZ|]. intros p Hp%elem_of_seqZ.
      apply list_elem_of_fmap. specialize (Hall p ltac:(lia)).
      apply (vo_used m Hv) in Hall as (i & Hi & E); [|lia]. exists i. split; [done|]. by apply elem_live. }
    apply submseteq_length in Hs. rewrite length_seqZ, length_fmap in Hs. lia.
Qed.

Lemma flags_ro x : (Z.land (Z.lor x STORE_FLAGS_READONLY) STORE_FLAGS_READONLY =? 0) = false.
Proof.
  apply Z.eqb_neq. intros E. apply (f_equal (fun z => Z.testbit z 1)) in E.
  rewrite Z.land_spec, Z.lor_spec in E. cbn in E. by rewrite orb_true_r in E.
Qed.

Lemma flags_rw x : (Z.land (Z.land x (Z.lnot STORE_FLAGS_READONLY)) STORE_FLAGS_READONLY =? 0) = true.
Proof.
  apply Z.eqb_eq. rewrite <- Z.land_assoc, (Z.land_comm (Z.lnot _)), Z.land_lnot_diag. apply Z.land_0_r.
Qed.

(** Truncation for writing: size 8, and the payload of an old object erased. *)
Lemma truncate_spec (is_new : bool) n s :
  vault_ok (fmem s) -> live (fmem s) n ->
  rwp (let* _ := update_store_size (node_addr n) (2 * 4) in
       if is_new then Ret tt else erase_object_payload (slot (pos (nd (fmem s) n)))) s (fun _ s' =>
    vault_ok (fmem s') /\ live (fmem s') n /\ okey (fmem s') n = okey (fmem s) n /\
    pos (nd (fmem s') n) = pos (nd (fmem s) n) /\
    objects (fmem s') = <[okey (fmem s) n := []]> (objects (fmem s))).
Proof.
  intros Hv Hl. destruct obj_facts as (O1 & _).
  eapply rwp_then; [apply (update_size_spec n (2 * 4)); [done|done|lia]|].
  intros _ s1 (Hv1 & [L1 K1 P1] & Hsz & _ & Ho). destruct is_new; [by apply rwp_ret|].
  rewrite <- P1. eapply rwp_mono; [by apply erase_payload_spec|]. intros ? s2 He.
  destruct (slot_edit _ _ n Hv1 L1 He) as (Hv2 & Hnd & Ho2). pose proof L1 as [Hn _].
  split; [done|]. split; [unfold live; by rewrite Hnd|]. split; [unfold okey in *; by rewrite Hnd|].
  split; [by rewrite Hnd|]. rewrite Ho2, K1, Ho.
  assert (payload (fmem s2) n = []) as -> by (unfold payload; by rewrite Hnd, Hsz).
  by rewrite insert_insert_eq.
Qed.

(** What [wolfPSA_Store_Open] does on a vault in order. *)
Definition open_result (m : mem) (k : Z * Z * Z) (read : bool) (i : nat)
    (r : Z) (st : option nat) (hs' : list store_handle) (m' : mem) : Prop :=
  vault_ok m' /\
  match read, objects m !! k with
  | true, None => r = NOT_AVAILABLE_E /\ st = None /\ m' = m /\ find_free_handle hs' = Some i
  | true, Some _ => r = 0 /\ st = Some i /\ m' = m /\ handle_for m' hs' i k 8 true
  | false, Some _ => r = 0 /\ st = Some i /\ objects m' = <[k := []]> (objects m) /\ handle_for m' hs' i k 8 false
  | false, None =>
      (r = 0 /\ st = Some i /\ objects m' = <[k := []]> (objects m) /\ handle_for m' hs' i k 8 false) \/
      (r = FIND_FULL_E /\ st = None /\ m' = m /\ find_free_handle hs' = Some i /\
       Z.min NN ITEMS <= Z.of_nat (size (objects m)))
  end.

Lemma free_handle_kept hs i h :
  find_free_handle hs = Some i ->
  find_free_handle (<[i := set_hhdr h (default handle0 (hs !! i))]> hs) = Some i.
Proof.
  unfold find_free_handle. destruct (list_find _ hs) as [[j x]|] eqn:E; [|done]. intros [= <-].
  apply list_find_Some in E as (E & Hx & Hno). rewrite E. cbn [default].
  rewrite (proj2 (list_find_Some _ _ j (set_hhdr h x))); [done|].
  split; [apply list_lookup_insert_eq; by eapply lookup_lt_Some|]. split; [done|].
  intros k y Hk Hlt. rewrite list_lookup_insert_ne in Hk by lia. by eapply Hno.
Qed.

Lemma open_spec hs i type tok obj read s :
  vault_ok (fmem s) -> key_ok type tok obj -> find_free_handle hs = Some i ->
  rwp (wolfPSA_Store_Open hs type tok obj read) s (fun '(r, st, hs') s' =>
    open_result (fmem s) (type, tok, obj) read i r st hs' (fmem s')).
Proof.
  intros Hv Hk Hf. unfold wolfPSA_Store_Open. rewrite Hf.
  assert (i < length hs)%nat as Hi.
  { unfold find_free_handle in Hf. destruct (list_find _ hs) as [[j x]|] eqn:E; [|done]. injection Hf as <-.
    apply list_find_Some in E as (E & _). by eapply lookup_lt_Some. }
  set (handle := default handle0 (hs !! i)). apply rwp_check; [done|].
  eapply rwp_then; [by apply find_buffer_spec|]. intros r ? (-> & Hr). unfold open_result.
  destruct r as [b|]; [destruct Hr as (n & Hl & Hkey & ->)|].
  - assert (objects (fmem s) !! (type, tok, obj) = Some (payload (fmem s) n)) as Hobj
      by (rewrite <- Hkey; by apply objects_at).
    rewrite Hobj. apply rwp_bind, rwp_look, rwp_lift. eapply wp_mono; [by apply find_header_spec|].
    intros [h|] Hh; [|exfalso; by apply (Hh n)]. destruct Hh as (n' & -> & Hl' & Hkey').
    assert (n' = n) as -> by (apply (vo_key _ Hv); congruence).
    apply rwp_ret. cbn [Z.eqb negb default set_hhdr hhdr flags]. destruct read.
    + apply rwp_ret. split; [done|]. split; [done|]. split; [done|]. split; [done|]. exists n. eexists.
      split; [by apply list_lookup_insert_eq|]. cbn [hhdr buffer in_buffer_offset flags]. split_and!; try done. apply flags_ro.
    + eapply rwp_then; [by apply (truncate_spec false n)|]. intros _ s' (Hv' & L' & K' & P' & O').
      apply rwp_ret. rewrite Hkey in K', O'. split; [done|]. split; [done|]. split; [done|]. split; [done|].
      exists n. eexists. split; [by apply list_lookup_insert_eq|]. cbn [hhdr buffer in_buffer_offset flags]. rewrite P'. split_and!; try done. apply flags_rw.
  - rewrite Hr. destruct read; [by apply rwp_ret|]. apply rwp_bind.
    eapply rwp_then; [by apply create_object_spec|]. intros [h|] s1; cycle 1.
    { intros (-> & Hfull). apply rwp_ret, rwp_ret. split; [done|]. right.
      split; [done|]. split; [done|]. split; [done|]. split; [by apply free_handle_kept|]. by apply full_size. }
    intros (n & -> & Hl & Hkey & Hv1 & Ho1). eapply rwp_then; [by apply find_buffer_spec|].
    intros r ? (-> & Hr1). destruct r as [b|].
    2:{ exfalso. by apply (proj1 (objects_none _ _ Hv1) Hr1 n). }
    destruct Hr1 as (n' & Hl' & Hkey' & ->). assert (n' = n) as -> by (apply (vo_key _ Hv1); congruence).
    apply rwp_ret. cbn [Z.eqb negb default set_hhdr hhdr flags].
    eapply rwp_then; [by apply (truncate_spec true n)|]. intros _ s' (Hv' & L' & K' & P' & O').
    apply rwp_ret. rewrite Hkey in K', O'. rewrite Ho1, insert_insert_eq in O'. split; [done|]. left.
    split; [done|]. split; [done|]. split; [done|]. exists n. eexists.
    split; [by apply list_lookup_insert_eq|]. cbn [hhdr buffer in_buffer_offset flags]. rewrite P'. split_and!; try done. apply flags_rw.
Qed.

(** The object of a handle. *)
Lemma handle_object m hs i k off ro d :
  vault_ok m -> handle_for m hs i k off ro -> objects m !! k = Some d ->
  exists n h, hs !! i = Some h /\ live m n /\ okey m n = k /\ payload m n = d /\
    osize (nd m n) = 8 + zlen d /\ 8 + zlen d <= OBJ /\
    handle_ptrs hs (Some i) = Some (i, h, node_addr n, slot (pos (nd m n))) /\
    in_buffer_offset h = off /\ (Z.land (flags h) STORE_FLAGS_READONLY =? 0) = negb ro /\
    hhdr h = Some (node_addr n) /\ buffer h = Some (slot (pos (nd m n))).
Proof.
  intros Hv (n & h & Hh & Hl & <- & Hhd & Hbf & Hoff & Hro) Hd. exists n, h.
  rewrite (objects_at _ _ Hv Hl) in Hd. injection Hd as Hd. destruct (vo_node _ Hv n Hl) as (_ & Hsz & _).
  assert (zlen d = osize (nd m n) - 8) as Hz by (rewrite <- Hd; unfold payload; apply mread_length; lia).
  split_and!; try done; [lia|lia|]. unfold handle_ptrs. rewrite Hh.
  replace (default handle0 (Some h)) with h by done. cbv zeta. by rewrite Hhd, Hbf.
Qed.

(** [wolfPSA_Store_Read]: the next bytes of the object, to the end at most. *)
Lemma read_spec hs i k off ro d buf len s :
  vault_ok (fmem s) -> handle_for (fmem s) hs i k off ro -> objects (fmem s) !! k = Some d ->
  8 <= off <= 8 + zlen d -> 0 <= len <= zlen buf -> len < 2 ^ 31 ->
  let n := Z.min len (8 + zlen d - off) in
  rwp (wolfPSA_Store_Read hs (Some i) buf len) s (fun '(r, buf', hs') s' =>
    r = n /\ s' = s /\ buf' = slice d (off - 8) n ++ drop (Z.to_nat n) buf /\
    handle_for (fmem s) hs' i k (off + n) ro).
Proof.
  intros Hv Hh Hd Hoff Hlen Hint n. destruct obj_facts as (O1 & _ & O3 & O4 & O5).
  destruct ss_facts as (S1 & _).
  destruct (handle_object _ _ _ _ _ _ _ Hv Hh Hd) as (j & h & Hi & Hl & Hkey & Hpay & Hsz & Hle & Hptr & Ho & Hro & Hhd & Hbf).
  unfold wolfPSA_Store_Read. rewrite Hptr. apply rwp_look.
  change (hdr_at (fmem s) (node_addr j)) with (nd (fmem s) j). rewrite Hsz, Ho.
  assert (OBJ < 2 ^ 31) by nia. case_if; [lia|]. case_if.
  { apply rwp_ret. assert (n = 0) as -> by (unfold n; lia). split; [done|]. split; [done|]. split; [reflexivity|].
    by rewrite Z.add_0_r. }
  rewrite u32_small by lia. rewrite i32_small by lia.
  assert ((if 8 + zlen d <? off + len then 8 + zlen d - off else len) = n) as -> by (unfold n; case_if; lia).
  case_if.
  - assert (mread (fmem s) (slot (pos (nd (fmem s) j)) + off) n = slice d (off - 8) n) as Hrd.
    { apply buf_ext; rewrite mread_length, ?slice_length by lia; [done|]. intros q Hq.
      rewrite mread_at, at_slice by lia. rewrite <- Hpay. unfold payload. rewrite mread_at by lia. f_equal. lia. }
    rewrite Hrd. assert (zlen (slice d (off - 8) n) = n) as Hsl by (apply slice_length; lia).
    apply rwp_lift. unfold blit. rewrite Hsl, Z.add_0_l.
    replace (_ && _) with true by (symmetry; rewrite andb_true_iff, !Z.leb_le; lia).
    apply rwp_ret. split; [done|]. split; [done|]. split; [by rewrite take_0|].
    exists j. eexists. split; [apply list_lookup_insert_eq; by eapply lookup_lt_Some|].
    cbn [set_in_buffer_offset hhdr buffer in_buffer_offset flags]. rewrite u32_small by lia. done.
  - assert (n = 0) as -> by lia. apply rwp_ret. split; [done|]. split; [done|]. split; [reflexivity|].
    by rewrite Z.add_0_r.
Qed.

(** [wolfPSA_Store_Write] at the end of the object: as many bytes as fit are
    appended. *)
Lemma write_spec hs i k d buf len s :
  vault_ok (fmem s) -> handle_for (fmem s) hs i k (8 + zlen d) false -> objects (fmem s) !! k = Some d ->
  0 <= len <= zlen buf -> len < 2 ^ 31 -> bytes buf ->
  let n := Z.min len (OBJ - (8 + zlen d)) in
  rwp (wolfPSA_Store_Write hs (Some i) buf len) s (fun '(r, hs') s' =>
    r = n /\ vault_ok (fmem s') /\ objects (fmem s') = <[k := d ++ slice buf 0 n]> (objects (fmem s)) /\
    handle_for (fmem s') hs' i k (8 + zlen d + n) false).
Proof.
  intros Hv Hh Hd Hlen Hint Hb n. destruct obj_facts as (O1 & _ & O3 & O4 & O5).
  destruct ss_facts as (S1 & _). pose proof (zlen_nonneg d).
  destruct (handle_object _ _ _ _ _ _ _ Hv Hh Hd) as (j & h & Hi & Hl & Hkey & Hpay & Hsz & Hle & Hptr & Ho & Hro & Hhd & Hbf).
  unfold wolfPSA_Store_Write. rewrite Hptr, Hro. cbn [negb]. apply rwp_look.
  change (hdr_at (fmem s) (node_addr j)) with (nd (fmem s) j). rewrite Hsz, Ho.
  assert (OBJ < 2 ^ 31) by nia. case_if; [lia|].
  rewrite u32_small by lia. rewrite i32_small by lia.
  assert ((if OBJ <? len + (8 + zlen d) then OBJ - (8 + zlen d) else len) = n) as -> by (unfold n; case_if; lia).
  case_if; [lia|]. eapply rwp_then; [apply (write_loop_spec j buf n (8 + zlen d)); [done|done|lia|lia|lia|done]|].
  intros r s1 (-> & He & Hin). destruct (vo_node _ Hv j Hl) as (Hp & _).
  set (b := slot (pos (nd (fmem s) j))) in *.
  assert (data_edit (fmem s) (fmem s1) (b + 8) (b + OBJ)) as He' by (eapply data_edit_widen; [exact He|lia|lia]).
  destruct (slot_edit _ _ j Hv Hl He') as (Hv1 & Hnd & Ho1). pose proof Hl as [Hj _].
  assert (live (fmem s1) j) as Hl1 by (unfold live; by rewrite Hnd).
  rewrite u32_small by lia. eapply rwp_then; [apply (update_size_spec j); [done|done|lia]|].
  intros _ s2 (Hv2 & [L2 K2 P2] & Hsz2 & _ & Ho2). apply rwp_ret. split; [done|]. split; [done|].
  assert (okey (fmem s1) j = k) as Hk1 by (rewrite <- Hkey; unfold okey; by rewrite Hnd). split.
  - rewrite Ho2, Ho1, Hk1, Hkey, insert_insert_eq. f_equal. rewrite Hnd by done. fold b.
    replace (8 + zlen d + n - 8) with (zlen d + n) by lia.
    apply buf_ext; rewrite ?zlen_app, mread_length, ?slice_length by lia; [done|]. intros q Hq.
    rewrite mread_at by lia. destruct (Z.lt_ge_cases q (zlen d)) as [Hlt|Hge].
    + rewrite at_app_l by lia. destruct He as (_ & _ & G3). pose proof (slot_bounds _ Hp). rewrite G3 by lia.
      rewrite <- Hpay. unfold payload. fold b. rewrite mread_at by lia. done.
    + rewrite at_app_r, at_slice by lia. rewrite Z.add_0_l, <- Hin by lia. f_equal. lia.
  - exists j. eexists. split; [apply list_lookup_insert_eq; by eapply lookup_lt_Some|].
    cbn [set_in_buffer_offset hhdr buffer in_buffer_offset flags]. rewrite P2, Hnd by done.
    split; [done|]. split; [congruence|]. done.
Qed.

(** [wolfPSA_Store_Remove]. *)
Lemma remove_spec type tok obj s :
  vault_ok (fmem s) -> key_ok type tok obj ->
  rwp (wolfPSA_Store_Remove type tok obj) s (fun r s' => vault_ok (fmem s') /\
    objects (fmem s') = delete (type, tok, obj) (objects (fmem s)) /\
    r = if decide (is_Some (objects (fmem s) !! (type, tok, obj))) then 0 else NOT_AVAILABLE_E).
Proof.
  intros Hv Hk. unfold wolfPSA_Store_Remove. apply rwp_check; [done|].
  eapply rwp_then; [by apply find_buffer_spec|]. intros [b|] ? (-> & Hr).
  - destruct Hr as (n & Hl & Hkey & _).
    eapply rwp_then; [by apply delete_object_spec|]. intros _ s' (Hv' & Ho'). apply rwp_ret.
    split; [done|]. split; [done|]. rewrite decide_True; [done|]. rewrite <- Hkey.
    eexists. by apply objects_at.
  - apply rwp_ret. split; [done|]. split; [by rewrite delete_id|]. rewrite decide_False; [done|].
    rewrite Hr. by intros [? ?].
Qed.

(** ** A new vault *)

Lemma empty_vault_spec :
  wp empty_vault (fun l => zlen l = SS /\ bytes l /\ mle32 (at_ l) 0 = VAULT_HEADER_MAGIC /\
    (forall j, 4 <= j < 4 + BITMAP_SIZE -> at_ l j = 0) /\
    (forall j, 4 + BITMAP_SIZE <= j < SS -> at_ l j = 0xFF)).
Proof.
  destruct ss_facts as (S1 & _ & _ & _ & S5). pose proof (vg_bitmap (c := c) (V := V)) as Hbm. destruct obj_facts as (_ & _ & O3 & _).
  unfold STORE_PRIV_HDR_OFFSET in Hbm. unfold empty_vault.
  assert (0 < BITMAP_SIZE) as Hb0 by (unfold BITMAP_SIZE; assert (0 <= ITEMS / 8) by (apply Z.div_pos; lia); lia).
  set (l0 := replicate (Z.to_nat SS) 0xFF).
  assert (zlen l0 = SS) as H0 by (unfold l0, zlen; rewrite length_replicate; lia).
  assert (bytes l0) as Hb by (apply Forall_replicate; unfold is_byte; lia).
  assert (forall j, 0 <= j < SS -> at_ l0 j = 0xFF) as Hat.
  { intros j Hj. unfold l0, at_. rewrite lookup_replicate_2 by lia. done. }
  eapply wp_bind_mono; [apply set_le32_spec; [lia|lia|done]|]. intros l1 (A1 & A2 & A3 & A4).
  unfold fill. set (z := replicate (Z.to_nat BITMAP_SIZE) 0).
  assert (zlen z = BITMAP_SIZE) as Hz by (unfold z, zlen; rewrite length_replicate; lia).
  apply wp_blit; [lia|lia|]. intros l2 B1 B2 B3.
  split; [congruence|]. split.
  { apply (blit_bytes l1 4 z l2); try done; [lia|]. apply Forall_replicate. unfold is_byte. lia. }
  split; [|split].
  - rewrite <- (u32_small VAULT_HEADER_MAGIC), <- A3 by done. apply mle32_ext. intros i Hi. apply B3; lia.
  - intros j Hj. replace j with (4 + (j - 4)) by lia. rewrite B2 by lia. unfold z, at_.
    rewrite lookup_replicate_2 by lia. done.
  - intros j Hj. rewrite B3, A4 by lia. apply Hat. lia.
Qed.

Lemma vault_created s :
  mem_ok (fmem s) -> mle32 (fmem s) vault_base <> VAULT_HEADER_MAGIC ->
  mle32 (fmem s) BACKUP_SECTOR_ADDRESS <> VAULT_HEADER_MAGIC ->
  rwp check_vault s (fun _ s' => vault_ok (fmem s') /\ objects (fmem s') = ∅).
Proof.
  intros Hok Hm1 Hm2. destruct ss_facts as (S1 & S2 & S3 & S4 & S5). destruct obj_facts as (O1 & _ & O3 & O4 & O5).
  unfold check_vault. apply rwp_look. rewrite (proj2 (Z.eqb_neq _ _) Hm1), (proj2 (Z.eqb_neq _ _) Hm2). cbn [negb].
  apply rwp_lift. eapply wp_mono; [apply empty_vault_spec|]. intros l (L1 & L2 & L3 & L4 & L5).
  apply rwp_commit; [done|done|done|by left|]. intros s1 Hc.
  destruct (committed_header _ _ _ Hc) as (C1 & C2 & C3 & _). destruct Hc as (Hok1 & _ & _).
  eexists tt, _. split; [reflexivity|]. cbn [fmem hal_flash_lock].
  set (m2 := nor_erase _ _ _).
  assert (forall a, a < vault_base + 2 * SS -> m2 a = fmem s1 a) as Hsame
    by (intros a Ha; apply nor_erase_out; lia).
  assert (forall i, 0 <= i < NN -> nd m2 i = nd (fmem s1) i) as Hnd.
  { intros i Hi. apply hdr_at_ext. intros j Hj. apply Hsame. unfold STORE_PRIV_HDR_OFFSET, STORE_PRIV_HDR_SIZE. lia. }
  pose proof (vg_bitmap (c := c) (V := V)) as Hbm. unfold STORE_PRIV_HDR_OFFSET in Hbm.
  assert (forall i, ~ live m2 i) as Hdead.
  { intros i [Hi Ht]. apply Ht. rewrite Hnd, C1 by done. unfold node, hdr_at. cbn [token_id].
    unfold STORE_PRIV_HDR_OFFSET, STORE_PRIV_HDR_SIZE, mle32. rewrite !L5 by lia. done. }
  assert (forall p, 0 <= p < ITEMS -> used m2 vault_base p = false) as Hus.
  { intros p Hp. pose proof (octet_range p Hp) as Ho. unfold STORE_PRIV_HDR_OFFSET in Ho.
    transitivity (used (fmem s1) vault_base p); [unfold used; f_equal; apply Hsame; lia|].
    rewrite C2 by done. unfold used. rewrite Z.add_0_l, L4; [by rewrite Z.bits_0|].
    unfold BITMAP_SIZE. assert (p / 8 <= ITEMS / 8) by (apply Z.div_le_mono; lia). lia. }
  assert (vault_ok m2) as Hv.
  { split.
    - by apply mem_ok_erase.
    - rewrite <- L3, <- C3. apply mle32_ext. intros i Hi. apply Hsame. lia.
    - intros i Hi. by destruct (Hdead i).
    - intros p Hp. rewrite Hus by done. split; [done|]. intros (i & Hi & _). by destruct (Hdead i).
    - intros i j Hi. by destruct (Hdead i).
    - intros i j Hi. by destruct (Hdead i). }
  split; [done|]. apply map_eq. intros k. rewrite lookup_empty. apply objects_none; [done|].
  intros i Hi. by destruct (Hdead i).
Qed.

(** ** Sessions *)

(** Closing a handle makes one free. *)
Lemma close_free hs i h : hs !! i = Some h -> exists j, find_free_handle (wolfPSA_Store_Close hs i) = Some j.
Proof.
  intros Hi. unfold find_free_handle, wolfPSA_Store_Close.
  destruct (list_find _ (<[i := handle0]> hs)) as [[j x]|] eqn:E; [by exists j|].
  apply list_find_None in E. eapply Forall_lookup_1 in E; [|apply list_lookup_insert_eq; by eapply lookup_lt_Some].
  by destruct E.
Qed.

(** A full use of the store: an object written from the start, read from the
    start, or removed. *)
Inductive session :=
  | Store (type id1 id2 : Z) (data : list Z)
  | Load (type id1 id2 : Z) (len : Z)
  | Remove (type id1 id2 : Z).

Definition session_ok (x : session) : Prop :=
  match x with
  | Store type id1 id2 data => key_ok type id1 id2 /\ bytes data /\ zlen data < 2 ^ 31
  | Load type id1 id2 len => key_ok type id1 id2 /\ 0 <= len < 2 ^ 31
  | Remove type id1 id2 => key_ok type id1 id2
  end.

(** The calls of a session: what the last of them returns, the bytes loaded and
    the handles afterwards. *)
Definition run_session (hs : list store_handle) (x : session) : prog (Z * list Z * list store_handle) :=
  match x with
  | Store type id1 id2 data =>
      let* (r, st, hs) := wolfPSA_Store_Open hs type id1 id2 false in
      match st with
      | None => Ret (r, [], hs)
      | Some i =>
          let* (r, hs) := wolfPSA_Store_Write hs (Some i) data (zlen data) in
          Ret (r, [], wolfPSA_Store_Close hs i)
      end
  | Load type id1 id2 len =>
      let* (r, st, hs) := wolfPSA_Store_Open hs type id1 id2 true in
      match st with
      | None => Ret (r, [], hs)
      | Some i =>
          let* (r, buf, hs) := wolfPSA_Store_Read hs (Some i) (replicate (Z.to_nat len) 0) len in
          Ret (r, slice buf 0 r, wolfPSA_Store_Close hs i)
      end
  | Remove type id1 id2 =>
      let* r := wolfPSA_Store_Remove type id1 id2 in
      Ret (r, [], hs)
  end.

Fixpoint run_sessions (hs : list store_handle) (xs : list session) : prog (list (Z * list Z)) :=
  match xs with
  | [] => Ret []
  | x :: xs =>
      let* (r, l, hs) := run_session hs x in
      let* rs := run_sessions hs xs in
      Ret ((r, l) :: rs)
  end.

(** The same sessions on a finite map of bounded size and bounded entries. *)
Definition map_session (M : gmap (Z * Z * Z) (list Z)) (x : session)
    : Z * list Z * gmap (Z * Z * Z) (list Z) :=
  match x with
  | Store type id1 id2 data =>
      let n := Z.min (zlen data) (OBJ - 8) in
      if decide (is_Some (M !! (type, id1, id2)) \/ Z.of_nat (size M) < Z.min NN ITEMS)
      then (n, [], <[(type, id1, id2) := slice data 0 n]> M) else (FIND_FULL_E, [], M)
  | Load type id1 id2 len =>
      match M !! (type, id1, id2) with
      | None => (NOT_AVAILABLE_E, [], M)
      | Some d => (Z.min len (zlen d), slice d 0 (Z.min len (zlen d)), M)
      end
  | Remove type id1 id2 =>
      (if decide (is_Some (M !! (type, id1, id2))) then 0 else NOT_AVAILABLE_E, [], delete (type, id1, id2) M)
  end.

Fixpoint map_sessions (M : gmap (Z * Z * Z) (list Z)) (xs : list session)
    : list (Z * list Z) * gmap (Z * Z * Z) (list Z) :=
  match xs with
  | [] => ([], M)
  | x :: xs =>
      let '(r, l, M) := map_session M x in
      let '(rs, M) := map_sessions M xs in
      ((r, l) :: rs, M)
  end.

(** A vault never holds more objects than it has headers and slots. *)
Lemma vault_size m : vault_ok m -> Z.of_nat (size (objects m)) <= Z.min NN ITEMS.
Proof.
  intros Hv. destruct ss_facts as (_ & _ & _ & S4 & _). destruct obj_facts as (_ & _ & O3 & _).
  rewrite (objects_size m Hv).
  set (L := filter (live m) (seqZ 0 NN)). apply Z.min_glb.
  - assert (length L <= length (seqZ 0 NN))%nat as H by apply length_filter. rewrite length_seqZ in H. lia.
  - assert (((fun i => pos (nd m i)) <$> L) ⊆+ seqZ 0 ITEMS) as Hs.
    { apply NoDup_submseteq.
      - apply NoDup_fmap_2_strong; [|apply NoDup_filter, NoDup_seqZ].
        intros i j Hi%elem_live Hj%elem_live. by apply (vo_pos m Hv).
      - intros p (i & -> & Hi%elem_live)%list_elem_of_fmap. apply elem_of_seqZ.
        destruct (vo_node _ Hv i Hi) as (Hp & _). lia. }
    apply submseteq_length in Hs. rewrite length_seqZ, length_fmap in Hs. lia.
Qed.

(** One session does to the vault what it does to the map. *)
Lemma session_spec hs i x s :
  vault_ok (fmem s) -> find_free_handle hs = Some i -> session_ok x ->
  rwp (run_session hs x) s (fun '(r, l, hs') s' =>
    vault_ok (fmem s') /\ (exists j, find_free_handle hs' = Some j) /\
    (r, l, objects (fmem s')) = map_session (objects (fmem s)) x).
Proof.
  intros Hv Hf. destruct obj_facts as (O1 & _). destruct x as [type id1 id2 data|type id1 id2 len|type id1 id2].
  - intros (Hk & Hb & Hlen). unfold run_session, map_session. set (k := (type, id1, id2)).
    pose proof (zlen_nonneg data). eapply rwp_then; [by apply (open_spec hs i)|].
    intros [[r st] hs1] s1 [Hv1 Hres]. fold k in Hres.
    assert ((st = Some i /\ objects (fmem s1) = <[k := []]> (objects (fmem s)) /\ handle_for (fmem s1) hs1 i k 8 false /\
        (is_Some (objects (fmem s) !! k) \/ Z.of_nat (size (objects (fmem s))) < Z.min NN ITEMS)) \/
      (r = FIND_FULL_E /\ st = None /\ fmem s1 = fmem s /\ find_free_handle hs1 = Some i /\
       ~ (is_Some (objects (fmem s) !! k) \/ Z.of_nat (size (objects (fmem s))) < Z.min NN ITEMS)))
      as [(-> & Ho1 & Hh1 & Hroom)|(-> & -> & Hm1 & Hf1 & Hfull)].
    { destruct (objects (fmem s) !! k) as [d|] eqn:E.
      - destruct Hres as (_ & -> & Ho & Hh). left. split_and!; try done. by left.
      - destruct Hres as [(_ & -> & Ho & Hh)|(-> & -> & Hm & Hh & Hsz)].
        + left. split_and!; try done. right. pose proof (vault_size _ Hv1) as Hsz.
          rewrite Ho, map_size_insert_None in Hsz by done. lia.
        + right. split_and!; try done. intros [[? ?]|Hlt]; [done|lia]. }
    + rewrite decide_True by done.
      eapply rwp_then; [apply (write_spec hs1 i k [] data (zlen data)); [done|done|by rewrite Ho1, lookup_insert_eq|lia|done|done]|].
      change (zlen (@nil Z)) with 0. rewrite Z.add_0_r. intros [r2 hs2] s2 (-> & Hv2 & Ho2 & (n & h & Hi & _)).
      apply rwp_ret. split; [done|]. split; [by eapply close_free|].
      by rewrite Ho2, Ho1, insert_insert_eq, app_nil_l.
    + rewrite decide_False by done. apply rwp_ret. split; [done|]. split; [by exists i|]. by rewrite Hm1.
  - intros (Hk & Hlen). unfold run_session, map_session. set (k := (type, id1, id2)).
    eapply rwp_then; [by apply (open_spec hs i)|]. intros [[r st] hs1] s1 [Hv1 Hres]. fold k in Hres.
    destruct (objects (fmem s) !! k) as [d|] eqn:E.
    + destruct Hres as (_ & -> & Hm & Hh). rewrite <- Hm in E. pose proof (zlen_nonneg d).
      assert (zlen (replicate (Z.to_nat len) 0) = len) as Hz by (unfold zlen; rewrite length_replicate; lia).
      eapply rwp_then; [apply (read_spec hs1 i k 8 true d); [done|done|done|lia|lia|lia]|].
      replace (8 + zlen d - 8) with (zlen d) by lia. set (n := Z.min len (zlen d)).
      intros [[r2 buf] hs2] s2 (-> & -> & -> & (q & h & Hi & _)). apply rwp_ret. split; [done|].
      split; [by eapply close_free|]. rewrite Hm. f_equal. f_equal.
      assert (zlen (slice d 0 n) = n) as Hsl by (apply slice_length; lia).
      change (8 - 8) with 0. unfold slice at 1. rewrite drop_0, take_app_length'; [done|]. unfold zlen in Hsl. lia.
    + destruct Hres as (-> & -> & Hm & Hf1). apply rwp_ret. rewrite Hm. split; [done|]. split; [by exists i|]. done.
  - intros Hk. unfold run_session, map_session. eapply rwp_then; [by apply remove_spec|].
    intros r s' (Hv' & Ho & ->). apply rwp_ret. split; [done|]. split; [by exists i|]. by rewrite Ho.
Qed.

Lemma sessions_spec xs : forall hs i s,
  vault_ok (fmem s) -> find_free_handle hs = Some i -> Forall session_ok xs ->
  rwp (run_sessions hs xs) s (fun rs s' => vault_ok (fmem s') /\
    (rs, objects (fmem s')) = map_sessions (objects (fmem s)) xs).
Proof.
  induction xs as [|x xs IH]; intros hs i s Hv Hf Hxs; cbn [run_sessions map_sessions]; [by apply rwp_ret|].
  apply Forall_cons in Hxs as [Hx Hxs]. eapply rwp_then; [by apply (session_spec hs i)|].
  intros [[r l] hs1] s1 (Hv1 & [j Hj] & <-). eapply rwp_then; [by apply (IH hs1 j)|].
  intros rs s2 (Hv2 & <-). by apply rwp_ret.
Qed.

(** C22: The key vault is a finite map.  From any flash that holds no vault, the
    first check makes one, and then every sequence of sessions (write an object
    from its start, read one, remove one, with any identifiers and data) runs to
    its end: the vault stays well formed, and every result, every byte loaded and
    the objects left are those of the same sequence on a map that starts empty,
    cuts an object at the size of a slot and refuses a new one exactly when all
    headers or all slots are taken. *)
Theorem vault_sessions hs i xs s :
  mem_ok (fmem s) -> mle32 (fmem s) vault_base <> VAULT_HEADER_MAGIC ->
  mle32 (fmem s) BACKUP_SECTOR_ADDRESS <> VAULT_HEADER_MAGIC ->
  find_free_handle hs = Some i -> Forall session_ok xs ->
  exists rs s', run (let* _ := check_vault in run_sessions hs xs) s = (inl rs, s') /\
    vault_ok (fmem s') /\ (rs, objects (fmem s')) = map_sessions ∅ xs.
Proof.
  intros Hok H1 H2 Hf Hxs. eapply rwp_then; [by apply vault_created|].
  intros _ s1 (Hv1 & Ho). rewrite <- Ho. by apply (sessions_spec xs hs i).
Qed.

(** ** Power failures *)

(** [m'] is what power failing between two operations of [p] leaves. *)
Definition stopped {A} (p : prog A) (s : flash) (m' : mem) : Prop := exists n, m' = fmem (run_for n p s).

Lemma stopped_bind {A B} (p : prog A) (f : A -> prog B) s m' :
  stopped (pbind p f) s m' ->
  stopped p s m' \/ exists a s', run p s = (inl a, s') /\ stopped (f a) s' m'.
Proof.
  intros [n ->]. revert n s. induction p as [a|h|k IH|a n0 k IH|a d k IH|k IH|k IH]; intros n s; cbn [pbind run].
  - right. exists a, s. split; [done|]. by exists n.
  - left. exists n. by destruct n.
  - destruct n as [|n]; [left; by exists O|]. cbn. destruct (IH (fmem s) n s) as [[n' H]|H]; [left; by exists (S n')|auto].
  - destruct n as [|n]; [left; by exists O|]. cbn. destruct (hal_flash_erase s a n0) as [r s'] eqn:E.
    destruct (IH r n s') as [[n' H]|H]; [left; exists (S n'); cbn; by rewrite E|auto].
  - destruct n as [|n]; [left; by exists O|]. cbn. destruct (hal_flash_write s a d) as [r s'] eqn:E.
    destruct (IH r n s') as [[n' H]|H]; [left; exists (S n'); cbn; by rewrite E|auto].
  - destruct n as [|n]; [left; by exists O|]. cbn. destruct (IH n (hal_flash_unlock s)) as [[n' H]|H]; [left; by exists (S n')|auto].
  - destruct n as [|n]; [left; by exists O|]. cbn. destruct (IH n (hal_flash_lock s)) as [[n' H]|H]; [left; by exists (S n')|auto].
Qed.

(** Only the backup sector differs. *)
Lemma vault_same m m' :
  vault_ok m -> mem_ok m' ->
  (forall a, vault_base <= a < vault_base + SS \/ vault_base + 2 * SS <= a -> m' a = m a) ->
  vault_ok m' /\ objects m' = objects m.
Proof.
  intros Hv Hok' Hs. destruct ss_facts as (S1 & S2 & S3 & S4 & S5). destruct obj_facts as (O1 & _).
  assert (data_edit m m' 0 0) as He by (split; [done|]; split; intros; apply Hs; lia).
  destruct (data_edit_header _ _ _ _ He) as (D1 & D2 & D3).
  assert (forall i, live m' i <-> live m i) as HL by (intros i; unfold live; split; intros [Hr Ht]; (split; [done|]); by rewrite D1 in *).
  assert (forall i, live m i -> nd m' i = nd m i) as Hnd by (intros i [Hi _]; by apply D1).
  assert (forall i, live m i -> node_ok m' i /\ okey m' i = okey m i /\ payload m' i = payload m i) as Hnode.
  { intros i Hi. destruct (vo_node _ Hv i Hi) as (P1 & P2 & P3). pose proof (slot_bounds _ P1).
    unfold node_ok, okey, payload. rewrite (Hnd i Hi). split_and!; try done; try lia.
    - rewrite <- P3. apply ids_at_ext. intros j Hj. apply Hs. lia.
    - apply mread_ext. intros j Hj. apply Hs. lia. }
  assert (vault_ok m') as Hv'.
  { split; [done|by rewrite D3, (vo_magic _ Hv)|..].
    - intros i Hi%HL. by apply Hnode.
    - intros p Hp. rewrite D2, (vo_used _ Hv) by done. split; intros (i & Hi & E); exists i.
      + split; [by apply HL|]. by rewrite Hnd.
      + apply HL in Hi. split; [done|]. by rewrite <- Hnd.
    - intros i j Hi%HL Hj%HL. rewrite !Hnd by done. by apply (vo_pos _ Hv).
    - intros i j Hi%HL Hj%HL. rewrite (proj1 (proj2 (Hnode i Hi))), (proj1 (proj2 (Hnode j Hj))). by apply (vo_key _ Hv). }
  split; [done|]. apply map_eq. intros k. apply option_eq. intros x.
  rewrite (objects_lookup m' k x Hv'), (objects_lookup m k x Hv).
  split; intros (i & Hi & <- & <-); exists i.
  - apply HL in Hi. destruct (Hnode i Hi) as (_ & -> & ->). done.
  - destruct (Hnode i Hi) as (_ & -> & ->). by rewrite HL.
Qed.

(** [m'] agrees with [m] outside the backup sector. *)
Definition same_vault (m m' : mem) : Prop :=
  mem_ok m' /\ forall a, ~ (BACKUP_SECTOR_ADDRESS <= a < BACKUP_SECTOR_ADDRESS + SS) -> m' a = m a.

(** The header sector is erased and the backup holds [l]. *)
Definition half_committed (m : mem) (l : list Z) (m' : mem) : Prop :=
  mem_ok m' /\ (forall i, 0 <= i < SS -> m' (vault_base + i) = FLASH_BYTE_ERASED) /\
  (forall i, 0 <= i < SS -> m' (BACKUP_SECTOR_ADDRESS + i) = at_ l i) /\
  forall a, a < vault_base \/ vault_base + 2 * SS <= a -> m' a = m a.

Lemma commit_stops l s m1 :
  mem_ok (fmem s) -> zlen l = SS -> bytes l -> stopped (cache_commit 0 l) s m1 ->
  same_vault (fmem s) m1 \/ half_committed (fmem s) l m1 \/ committed (fmem s) 0 l m1.
Proof.
  intros Hok Hl Hb [n ->]. destruct ss_facts as (S1 & _). set (m := fmem s) in *.
  unfold same_vault, half_committed, committed, BACKUP_SECTOR_ADDRESS. set (BK := vault_base + SS).
  set (e1 := nor_erase m BK SS). set (w1 := nor_write e1 BK l).
  set (e2 := nor_erase w1 (vault_base + 0) SS). set (w2 := nor_write e2 (vault_base + 0) l).
  assert (mem_ok e1) as M1 by (by apply mem_ok_erase). assert (mem_ok w1) as M2 by (by apply mem_ok_write).
  assert (mem_ok e2) as M3 by (by apply mem_ok_erase). assert (mem_ok w2) as M4 by (by apply mem_ok_write).
  assert (forall a, ~ (BK <= a < BK + SS) -> e1 a = m a) as He1 by (intros a Ha; by apply nor_erase_out).
  assert (forall a, ~ (BK <= a < BK + SS) -> w1 a = m a) as Hw1
    by (intros a Ha; unfold w1; rewrite nor_write_out by lia; by apply He1).
  assert (forall b x, b <= x < b + SS -> forall m0, Z.land (nor_erase m0 b SS x) (at_ l (x - b)) = at_ l (x - b)) as Hland
    by (intros b x Hx m0; rewrite nor_erase_in by lia; apply land_erased, at_byte; [done|lia]).
  assert ((mem_ok w2) /\ (forall i, 0 <= i < SS -> w2 (vault_base + 0 + i) = at_ l i) /\
    (forall a, ~ (vault_base + 0 <= a < vault_base + 0 + SS) -> ~ (BK <= a < BK + SS) -> w2 a = m a)) as Hnew.
  { split; [done|]. split.
    - intros i Hi. unfold w2, e2. rewrite nor_write_in, Hland by lia. f_equal. lia.
    - intros a H1 H2. unfold w2, e2. rewrite nor_write_out, nor_erase_out by lia. by apply Hw1. }
  destruct n as [|[|[|[|[|n]]]]]; cbn [run_for cache_commit pbind flash_unlock flash_erase flash_write flash_lock
    hal_flash_unlock hal_flash_erase hal_flash_write flashLocked fmem]; [left; by split..| |].
  - right. left. split; [done|]. split_and!.
    + intros i Hi. apply nor_erase_in. lia.
    + intros i Hi. change BACKUP_SECTOR_ADDRESS with BK. rewrite nor_erase_out by lia. rewrite nor_write_in, Hland by lia. f_equal. lia.
    + intros a Ha. change BACKUP_SECTOR_ADDRESS with BK. rewrite nor_erase_out by lia. apply Hw1. lia.
  - right. right. destruct n as [|[|n]]; exact Hnew.
Qed.

(** The check at the start recovers from each of them. *)
Lemma check_same m1 (Q : unit -> flash -> Prop) :
  mle32 m1 vault_base = VAULT_HEADER_MAGIC -> Q tt (mkFlash m1 true) -> rwp check_vault (mkFlash m1 true) Q.
Proof.
  intros Hm HQ. unfold check_vault. apply rwp_look. cbn [fmem]. rewrite Hm, Z.eqb_refl. by apply rwp_ret.
Qed.

Lemma check_half m l m1 :
  zlen l = SS -> bytes l -> mle32 (at_ l) 0 = VAULT_HEADER_MAGIC -> half_committed m l m1 ->
  rwp check_vault (mkFlash m1 true) (fun _ s' => committed m 0 l (fmem s')).
Proof.
  intros Hl Hb Hml (Hok & Hh & Hbk & Hout). destruct ss_facts as (S1 & _).
  unfold check_vault. apply rwp_look. cbn [fmem].
  assert (mle32 m1 vault_base <> VAULT_HEADER_MAGIC) as Hne.
  { pose proof (Hh 0 ltac:(lia)) as H0. rewrite Z.add_0_r in H0. unfold mle32. rewrite H0, !Hh by lia. done. }
  assert (mle32 m1 BACKUP_SECTOR_ADDRESS = VAULT_HEADER_MAGIC) as Hb1
    by (rewrite <- Hml; apply mle32_ext; intros i Hi; rewrite Hbk by lia; f_equal).
  rewrite (proj2 (Z.eqb_neq _ _) Hne), Hb1, Z.eqb_refl. cbn [negb].
  eexists tt, _. split; [reflexivity|]. cbn [fmem hal_flash_lock hal_flash_unlock]. unfold BACKUP_SECTOR_ADDRESS in *.
  assert (mread (nor_erase m1 (vault_base + 0) SS) (vault_base + SS) SS = l) as ->.
  { apply buf_ext; rewrite mread_length by lia; [done|]. intros i Hi. rewrite mread_at by lia.
    rewrite nor_erase_out by lia. by apply Hbk. }
  split; [apply mem_ok_write; [by apply mem_ok_erase|done]|]. split.
  - intros i Hi. rewrite nor_write_in, nor_erase_in by lia.
    replace (vault_base + 0 + i - (vault_base + 0)) with i by lia. apply land_erased, at_byte; [done|lia].
  - intros a H1 H2. unfold BACKUP_SECTOR_ADDRESS in H2. rewrite nor_write_out, nor_erase_out by lia. apply Hout. lia.
Qed.

Lemma commit_header_atomic l s m1 :
  vault_ok (fmem s) -> zlen l = SS -> bytes l -> mle32 (at_ l) 0 = VAULT_HEADER_MAGIC ->
  stopped (cache_commit 0 l) s m1 ->
  rwp check_vault (mkFlash m1 true) (fun _ s' =>
    committed (fmem s) 0 l (fmem s') \/ (vault_ok (fmem s') /\ objects (fmem s') = objects (fmem s))).
Proof.
  intros Hv Hl Hb Hml Hst. destruct ss_facts as (S1 & _).
  destruct (commit_stops l s m1 (vo_mem _ Hv) Hl Hb Hst) as [[Hok Hs]|[Hh|Hc]].
  - unfold BACKUP_SECTOR_ADDRESS in Hs. destruct (vault_same (fmem s) m1 Hv Hok) as [Hv1 Ho1].
    { intros a Ha. apply Hs. lia. }
    apply check_same; [apply (vo_magic _ Hv1)|]. by right.
  - eapply rwp_mono; [by apply (check_half (fmem s) l)|]. intros ? s' Hc. by left.
  - apply check_same; [ |by left]. by rewrite (proj1 (proj2 (proj2 (committed_header _ _ _ Hc)))).
Qed.

(** What reads leave alone a power failure leaves alone. *)
Lemma stopped_look {B} (f : mem -> prog B) s m' :
  stopped (let* m := look in f m) s m' -> m' = fmem s \/ stopped (f (fmem s)) s m'.
Proof. intros [[|n] ->]; [by left|]. right. by exists n. Qed.

Lemma stopped_ret {A} (a : A) s m' : stopped (Ret a) s m' -> m' = fmem s.
Proof. intros [n ->]. by destruct n. Qed.

Lemma stopped_lift {A B} (x : outcome A) (f : A -> prog B) (P : A -> Prop) s m' :
  wp x P -> stopped (pbind (lift x) f) s m' -> exists a, P a /\ stopped (f a) s m'.
Proof. destruct x as [a| |]; [|done..]. intros Ha H. by exists a. Qed.

Lemma stopped_check {B} (f : unit -> prog B) s m' :
  vault_ok (fmem s) -> stopped (pbind check_vault f) s m' -> m' = fmem s \/ stopped (f tt) s m'.
Proof.
  intros Hv Hst. unfold check_vault in Hst. apply stopped_bind in Hst as [Hst|(a & s' & Hr & Hst)].
  - apply stopped_look in Hst as [Hst|Hst]; [by left|]. rewrite (vo_magic _ Hv) in Hst. apply stopped_ret in Hst. by left.
  - fold check_vault in Hr. rewrite check_vault_ok in Hr by done. injection Hr as <- <-. by right.
Qed.

Lemma stopped_find {B} type tok obj (f : option Z -> prog B) s m' :
  vault_ok (fmem s) -> key_ok type tok obj -> stopped (pbind (find_object_buffer type tok obj) f) s m' ->
  m' = fmem s \/ exists r, stopped (f r) s m'.
Proof.
  intros Hv Hk Hst. apply stopped_bind in Hst as [Hst|(a & s' & Hr & Hst)].
  - left. unfold find_object_buffer in Hst. apply stopped_look in Hst as [Hst|Hst]; [done|].
    eapply stopped_lift in Hst as (h & Hh & Hst); [|by apply find_header_spec].
    destruct h as [h|]; [|by apply stopped_ret in Hst]. destruct Hh as (i & -> & Hi & E).
    destruct (vo_node _ Hv i Hi) as (_ & _ & Hids). change (hdr_at (fmem s) (node_addr i)) with (nd (fmem s) i) in Hst.
    assert (token_id (nd (fmem s) i) = tok /\ object_id (nd (fmem s) i) = obj) as [Et Eo]
      by (revert E; unfold okey; generalize (nd (fmem s) i); by intros h [= _ -> ->]).
    rewrite Et, Eo in Hids. rewrite Hids in Hst. by apply stopped_ret in Hst.
  - right. exists a. destruct (find_buffer_spec type tok obj s Hv Hk) as (a' & s'' & Hr' & -> & _).
    rewrite Hr in Hr'. injection Hr' as <- ->. done.
Qed.

(** The header sector of a vault without one of its objects is that of a vault. *)
Lemma frees_magic m n l : vault_ok m -> frees m n l -> mle32 (at_ l) 0 = VAULT_HEADER_MAGIC.
Proof.
  intros Hv ((_ & _ & Hsame) & _). destruct ss_facts as (S1 & _). rewrite <- (vo_magic _ Hv).
  apply mle32_ext. intros i Hi. rewrite Z.add_0_l. apply Hsame; lia.
Qed.

(** C23: Removing an object of the key vault is atomic when power fails between two
    flash operations.  Whichever operation was the last, the check that every
    entry point starts with makes a well-formed vault of what is left, with the
    objects of before, or without the one removed and no other change. *)
Theorem vault_remove_atomic type id1 id2 s m' :
  vault_ok (fmem s) -> key_ok type id1 id2 -> stopped (wolfPSA_Store_Remove type id1 id2) s m' ->
  exists s', run check_vault (mkFlash m' true) = (inl tt, s') /\ vault_ok (fmem s') /\
    (objects (fmem s') = objects (fmem s) \/ objects (fmem s') = delete (type, id1, id2) (objects (fmem s))).
Proof.
  intros Hv Hk Hst.
  enough (rwp check_vault (mkFlash m' true) (fun _ s' => vault_ok (fmem s') /\
    (objects (fmem s') = objects (fmem s) \/ objects (fmem s') = delete (type, id1, id2) (objects (fmem s)))))
    as ([] & s' & Hr & HQ) by (by exists s').
  assert (m' = fmem s \/ stopped (delete_object type id1 id2) s m' \/
    exists s1, rwp (delete_object type id1 id2) s (fun _ s' => s' = s1) /\ m' = fmem s1) as Hcases.
  { unfold wolfPSA_Store_Remove in Hst. apply stopped_check in Hst; [|done]. destruct Hst as [->|Hst]; [by left|].
    apply stopped_find in Hst; [|done|done]. destruct Hst as [->|[[b|] Hst]]; [by left| |by left; apply stopped_ret in Hst].
    apply stopped_bind in Hst as [Hst|(a & s1 & Hr & Hst)]; [by right; left|]. apply stopped_ret in Hst.
    right. right. exists s1. split; [|done]. by exists a, s1. }
  destruct Hcases as [->|[Hst'|(s1 & (a & ? & Hr & ->) & ->)]].
  - apply check_same; [apply (vo_magic _ Hv)|]. cbn [fmem]. auto.
  - unfold delete_object in Hst'. apply stopped_check in Hst'; [|done]. destruct Hst' as [->|Hst'].
    { apply check_same; [apply (vo_magic _ Hv)|]. cbn [fmem]. auto. }
    apply stopped_look in Hst' as [->|Hst'].
    { apply check_same; [apply (vo_magic _ Hv)|]. cbn [fmem]. auto. }
    eapply stopped_lift in Hst' as (r & Hr & Hst'); [|by apply delete_header_spec].
    destruct r as [l|]; cycle 1.
    { apply stopped_ret in Hst' as ->. apply check_same; [apply (vo_magic _ Hv)|]. cbn [fmem]. auto. }
    destruct Hr as (n & Hl & <- & Hfr). pose proof Hfr as ((Hz & Hb & _) & _).
    eapply rwp_mono; [apply (commit_header_atomic l s); try done; by eapply frees_magic|].
    intros ? s' [Hc|[Hv' Ho]]; [|auto]. destruct (frees_committed _ n l _ Hv Hl Hfr Hc) as [? ?]. auto.
  - destruct (delete_object_spec type id1 id2 s Hv Hk) as (a' & s1' & Hr' & Hv1 & Ho1). rewrite Hr in Hr'. injection Hr' as -> <-.
    apply check_same; [apply (vo_magic _ Hv1)|]. cbn [fmem]. auto.
Qed.

End VaultClaims.

(** ** A small vault *)

(** Sectors of 256 bytes with four slots each, eight slots, from address 0x1000. *)
Definition small_config : config := Config 256 1024 0x4000 0x5000 0x6000 64 32.
Definition small_vault : vault := Vault 0x1000 64 8.
#[local] Existing Instances small_config small_vault.

#[local] Instance small_geometry : vault_geometry small_config small_vault.
Proof.
  split; cbn; try done; try lia; [by exists 8|exists 8; lia|by exists 16].
Qed.

Abbreviation no_handles := (replicate 16 handle0).
Abbreviation blank := (mkFlash (fun _ => FLASH_BYTE_ERASED) true).

Definition two_objects : flash :=
  snd (run (let* _ := check_vault in run_sessions no_handles [Store 1 5 1 [10; 20; 30]; Store 1 5 2 [40; 50]]) blank).

Example small_run :
  fst (run (run_sessions no_handles [Load 1 5 1 16; Load 1 5 2 16; Remove 1 5 1; Load 1 5 1 16]) two_objects) =
  inl [(3, [10; 20; 30]); (2, [40; 50]); (0, []); (NOT_AVAILABLE_E, [])].
Proof. vm_compute. reflexivity. Qed.

(** A power failure while one object of the key vault is written can lose
    another object that was not being written.  Power fails after the sector that
    holds both is erased; the backup sector still has its contents, and reading
    the other object first brings it back.  But if the first thing done is to
    create a third object, the only backup sector is overwritten with the header
    sector, and then the object that was never touched is reported as not there. *)
Theorem vault_neighbour_lost :
  let m' := fmem (run_for 24 (run_session no_handles (Store 1 5 2 [7; 8; 9])) two_objects) in
  fst (run (run_sessions no_handles [Load 1 5 1 16]) (mkFlash m' true)) = inl [(3, [10; 20; 30])] /\
  fst (run (run_sessions no_handles [Store 1 5 3 [1]; Load 1 5 1 16]) (mkFlash m' true)) =
    inl [(1, []); (NOT_AVAILABLE_E, [])].
Proof. vm_compute. done. Qed.

Lemma blank_ok : mem_ok (fmem blank).
Proof. intros a. unfold is_byte, FLASH_BYTE_ERASED. cbn. lia. Qed.

Lemma two_objects_ok : vault_ok (fmem two_objects).
Proof.
  assert (rwp (let* _ := check_vault in run_sessions no_handles [Store 1 5 1 [10; 20; 30]; Store 1 5 2 [40; 50]]) blank
    (fun _ s' => vault_ok (fmem s'))) as (a & s' & Hr & Hv); [|unfold two_objects; by rewrite Hr].
  eapply rwp_then; [apply vault_created; [apply blank_ok|done|done]|]. intros _ s1 (Hv & _).
  eapply rwp_mono; [apply (sessions_spec _ _ 0%nat); [done|done|]|by intros ? ? [? _]].
  repeat constructor; cbn; unfold is_byte; lia.
Qed.

Lemma vault_sessions_witness :
  exists rs s', run (let* _ := check_vault in
      run_sessions no_handles [Store 1 5 1 [10; 20; 30]; Store 1 5 2 [40; 50]; Load 1 5 1 16; Remove 1 5 2; Load 1 5 2 9])
    blank = (inl rs, s') /\ vault_ok (fmem s') /\
    rs = [(3, []); (2, []); (3, [10; 20; 30]); (0, []); (NOT_AVAILABLE_E, [])] /\
    objects (fmem s') = {[ (1, 5, 1) := [10; 20; 30] ]}.
Proof.
  destruct (vault_sessions no_handles 0
    [Store 1 5 1 [10; 20; 30]; Store 1 5 2 [40; 50]; Load 1 5 1 16; Remove 1 5 2; Load 1 5 2 9] blank)
    as (rs & s' & Hr & Hv & Hm); [apply blank_ok|done|done|done|repeat constructor; cbn; unfold is_byte; lia|].
  exists rs, s'. split; [exact Hr|]. split; [exact Hv|].
  replace (map_sessions _ _) with ([(3, []); (2, []); (3, [10; 20; 30]); (0, []); (NOT_AVAILABLE_E, [])],
    {[ (1, 5, 1) := [10; 20; 30] ]} : gmap (Z * Z * Z) (list Z)) in Hm by (vm_compute; reflexivity).
  apply pair_equal_spec in Hm. exact Hm.
Defined.

Lemma vault_remove_atomic_witness :
  let m' := fmem (run_for 8 (wolfPSA_Store_Remove 1 5 1) two_objects) in
  m' 0x1000 = FLASH_BYTE_ERASED /\
  exists s', run check_vault (mkFlash m' true) = (inl tt, s') /\ vault_ok (fmem s') /\
    (objects (fmem s') = objects (fmem two_objects) \/
     objects (fmem s') = delete (1, 5, 1) (objects (fmem two_objects))).
Proof.
  split; [vm_compute; reflexivity|].
  apply vault_remove_atomic; [apply two_objects_ok|by vm_compute|by exists 8%nat].
Defined.

(** Removing an object leaves its payload in the flash, and a new object in the
    same slot leaves what it does not overwrite. *)
Example residual_payload :
  mread (fmem (snd (run (run_sessions no_handles [Remove 1 5 1; Store 1 5 3 [1]]) two_objects))) (slot 0 + 8) 3 =
  [1; 20; 30].
Proof. vm_compute. reflexivity. Qed.
