(* ===== verification/Stream.v ===== *)
(** * Stream: the stream ciphers of wolfCrypt

    ChaCha20 and AES in counter mode are wolfCrypt's, a submodule, and are
    parameters of the development ([stream_api]); [ByteReverseWord32] is its
    byte swap.  The laws say what the functions document: a keyed context that
    has been given a nonce and a counter processes each block by xoring it with
    the next block of the key stream, AES counts in a big-endian block of 128
    bits and ChaCha20 in a counter of 32 bits.  A small cipher that
    satisfies the laws is used by examples. *)

From Stdlib Require Import ZArith Lia.
From stdpp Require Import prelude.
From S2P Require Import Prelude.

Local Open Scope Z_scope.

Class stream_api : Type := StreamApi {
  chacha : Type;
  chacha_zeroed : chacha;
  wc_Chacha_SetKey : list Z -> chacha;
  wc_Chacha_SetIV : chacha -> list Z -> Z -> chacha;
  wc_Chacha_Process : chacha -> list Z -> chacha * list Z;
  aes : Type;
  aes_zeroed : aes;
  wc_AesSetKeyDirect : list Z -> option (list Z) -> aes;
  wc_AesSetIV : aes -> list Z -> aes;
  wc_AesCtrEncrypt : aes -> list Z -> aes * list Z;
  ByteReverseWord32 : Z -> Z;
}.

(** Big-endian numbers. *)
Fixpoint be_value (l : list Z) : Z :=
  match l with [] => 0 | b :: l => b * 256 ^ zlen l + be_value l end.

Definition bxor (a b : list Z) : list Z := zip_with Z.lxor a b.

(** A word from its four bytes, first byte lowest. *)
Definition word_of (b0 b1 b2 b3 : Z) : Z := b0 + 2 ^ 8 * b1 + 2 ^ 16 * b2 + 2 ^ 24 * b3.

Class aes_laws (E : stream_api) : Type := AesLaws {
  aes_block : list Z -> Z -> list Z;
  aes_key : aes -> list Z -> Prop;
  aes_at : aes -> list Z -> Z -> Prop;
  aes_block_size k v : zlen (aes_block k v) = 16;
  aes_block_bytes k v : bytes (aes_block k v);
  aes_set_key k iv : aes_key (wc_AesSetKeyDirect k iv) k;
  aes_set_key_iv k iv : zlen iv = 16 -> bytes iv -> aes_at (wc_AesSetKeyDirect k (Some iv)) k (be_value iv);
  aes_set_iv_at a k iv : aes_key a k -> zlen iv = 16 -> bytes iv -> aes_at (wc_AesSetIV a iv) k (be_value iv);
  aes_at_key a k v : aes_at a k v -> aes_key a k;
  aes_process a k v d : aes_at a k v -> zlen d = 16 ->
    exists a', wc_AesCtrEncrypt a d = (a', bxor d (aes_block k v)) /\ aes_at a' k ((v + 1) mod 2 ^ 128);
  byte_reverse b0 b1 b2 b3 : is_byte b0 -> is_byte b1 -> is_byte b2 -> is_byte b3 ->
    ByteReverseWord32 (word_of b0 b1 b2 b3) = word_of b3 b2 b1 b0;
}.

Class chacha_laws (E : stream_api) : Type := ChachaLaws {
  chacha_block : list Z -> list Z -> Z -> list Z;
  chacha_key : chacha -> list Z -> Prop;
  chacha_at : chacha -> list Z -> list Z -> Z -> Prop;
  chacha_block_size k iv n : zlen (chacha_block k iv n) = 64;
  chacha_block_bytes k iv n : bytes (chacha_block k iv n);
  chacha_set_key k : chacha_key (wc_Chacha_SetKey k) k;
  chacha_set_iv c k iv n : chacha_key c k -> zlen iv = 12 -> 0 <= n < 2 ^ 32 -> chacha_at (wc_Chacha_SetIV c iv n) k iv n;
  chacha_at_key c k iv n : chacha_at c k iv n -> chacha_key c k;
  chacha_process c k iv n d : chacha_at c k iv n -> zlen d <= 64 ->
    exists c', wc_Chacha_Process c d = (c', bxor d (chacha_block k iv n)) /\
      (zlen d = 64 -> chacha_at c' k iv (u32 (n + 1)));
}.

(** ** Xor and numbers *)

Lemma zlen_bxor a b : zlen a <= zlen b -> zlen (bxor a b) = zlen a.
Proof. unfold zlen, bxor. rewrite length_zip_with. lia. Qed.

Lemma at_bxor a b i : 0 <= i < zlen a -> zlen a <= zlen b -> at_ (bxor a b) i = Z.lxor (at_ a i) (at_ b i).
Proof.
  unfold zlen. intros Hi Hl. unfold at_, bxor. rewrite lookup_zip_with.
  destruct (lookup_lt_is_Some_2 a (Z.to_nat i)) as [x ->]; [lia|].
  by destruct (lookup_lt_is_Some_2 b (Z.to_nat i)) as [y ->]; [lia|].
Qed.

Lemma lxor_byte a b : is_byte a -> is_byte b -> is_byte (Z.lxor a b).
Proof. intros Ha Hb. apply (lxor_range a b 8); [lia|exact Ha|exact Hb]. Qed.

Lemma lxor_cancel a b : Z.lxor (Z.lxor a b) b = a.
Proof. by rewrite Z.lxor_assoc, Z.lxor_nilpotent, Z.lxor_0_r. Qed.

Lemma be_value_app a b : be_value (a ++ b) = be_value a * 256 ^ zlen b + be_value b.
Proof.
  induction a as [|x a IH]; cbn [app be_value]; [done|]. rewrite IH, zlen_app, Z.pow_add_r by apply zlen_nonneg. ring.
Qed.

Lemma be_value_range l : bytes l -> 0 <= be_value l < 256 ^ zlen l.
Proof.
  induction 1 as [|b l Hb Hl IH]; [done|]. unfold is_byte in Hb. rewrite zlen_cons, Z.pow_add_r by (lia || apply zlen_nonneg).
  cbn [be_value]. nia.
Qed.

Lemma be_value_inj a b : bytes a -> bytes b -> zlen a = zlen b -> be_value a = be_value b -> a = b.
Proof.
  intros Ha. revert b. induction Ha as [|x a Hx Ha IH]; intros [|y b] Hb Hl E; try (unfold zlen in Hl; cbn in Hl; lia); [done|].
  apply Forall_cons in Hb as [Hy Hb]. rewrite !zlen_cons in Hl. assert (zlen a = zlen b) as El by lia.
  cbn [be_value] in E. rewrite <- El in E. pose proof (be_value_range a Ha). pose proof (be_value_range b Hb) as Hr. rewrite <- El in Hr.
  assert (x = y) as -> by nia. f_equal. apply IH; [done|done|lia].
Qed.

(** ** A cipher that satisfies the laws *)

Module ToyStream.

Definition pad (n : Z) (seed : Z) : list Z := (fun i => u8 (seed + 7 * i)) <$> seqZ 0 n.
Definition swap_word (x : Z) : Z :=
  word_of (u8 (x / 2 ^ 24)) (u8 (x / 2 ^ 16)) (u8 (x / 2 ^ 8)) (u8 x).

#[export] Instance toy_stream : stream_api := {|
  chacha := list Z * list Z * Z;
  chacha_zeroed := ([], [], 0);
  wc_Chacha_SetKey := fun k => (k, [], 0);
  wc_Chacha_SetIV := fun c iv n => (c.1.1, iv, n);
  wc_Chacha_Process := fun c d => ((c.1.1, c.1.2, u32 (c.2 + 1)), bxor d (pad 64 (be_value c.1.1 + be_value c.1.2 + c.2)));
  aes := list Z * Z;
  aes_zeroed := ([], 0);
  wc_AesSetKeyDirect := fun k iv => (k, default 0 (be_value <$> iv));
  wc_AesSetIV := fun a iv => (a.1, be_value iv);
  wc_AesCtrEncrypt := fun a d => ((a.1, (a.2 + 1) mod 2 ^ 128), bxor d (pad 16 (be_value a.1 + a.2)));
  ByteReverseWord32 := swap_word;
|}.

Lemma zlen_pad n seed : 0 <= n -> zlen (pad n seed) = n.
Proof. intros Hn. unfold zlen, pad. rewrite length_fmap, length_seqZ. lia. Qed.

Lemma pad_bytes n seed : bytes (pad n seed).
Proof. unfold pad. apply Forall_fmap, Forall_true. intros x. apply u8_range. Qed.

Lemma swap_word_of b0 b1 b2 b3 : is_byte b0 -> is_byte b1 -> is_byte b2 -> is_byte b3 ->
  swap_word (word_of b0 b1 b2 b3) = word_of b3 b2 b1 b0.
Proof. unfold swap_word, word_of, is_byte, u8. intros H0 H1 H2 H3. Z.div_mod_to_equations. lia. Qed.

#[export] Instance toy_aes_laws : aes_laws toy_stream.
Proof.
  refine {| aes_block := fun k v => pad 16 (be_value k + v); aes_key := fun a k => a.1 = k; aes_at := fun a k v => a = (k, v) |}.
  - intros. by apply zlen_pad.
  - intros. apply pad_bytes.
  - done.
  - done.
  - intros a k iv <- _ _. done.
  - by intros a k v ->.
  - intros a k v d -> _. eexists. done.
  - exact swap_word_of.
Defined.

#[export] Instance toy_chacha_laws : chacha_laws toy_stream.
Proof.
  refine {| chacha_block := fun k iv n => pad 64 (be_value k + be_value iv + n);
    chacha_key := fun c k => c.1.1 = k; chacha_at := fun c k iv n => c = (k, iv, n) |}.
  - intros. by apply zlen_pad.
  - intros. apply pad_bytes.
  - done.
  - intros c k iv n <- _ _. done.
  - by intros c k iv n ->.
  - intros c k iv n d -> _. eexists. done.
Defined.

End ToyStream.
