(* ===== verification/Sign.v ===== *)
(** * Sign: the signing tool (tools/keytools/sign.c)

    The manifest header that the signing tool writes in front of a firmware
    image: its fields and their alignment, the digest, the signatures, the check
    against the partition, the output file and its encryption.  The tool is a
    program that ends: an operation returns a value, jumps to [failure] with the
    value of [ret] at that point, or exits.  Files are their contents; memory is
    never exhausted, reads of open files succeed and output files can be written.  wolfCrypt is a parameter
    ([hash_api] of Image.v for each digest, [sign_api], [stream_api] of Stream.v). *)

From Stdlib Require Import ZArith Lia.
From stdpp Require Import prelude.
From S2P Require Import Prelude Flash Trailer Image DeltaUpdate Stream.

Local Open Scope Z_scope.

(** ** Ways to end *)

(** [out] is what has been written to the output file so far. *)
Inductive stop : Type :=
  | Failure (ret : Z) (out : option (list Z))
  | Exit (status : Z) (out : option (list Z))
  | Undefined.

Definition tool (A : Type) : Type := (A + stop)%type.

Definition tbind {A B} (x : tool A) (k : A -> tool B) : tool B :=
  match x with inl a => k a | inr s => inr s end.

Notation "'let?' x ':=' e 'in' k" := (tbind e (fun x => k))
  (at level 10, x pattern, e at level 200, k at level 200,
   format "'[v' 'let?'  x  ':='  e  'in' '/' k ']'") : wb_scope.

Definition ret_ok {A} (a : A) : tool A := inl a.
Definition fail {A} (ret : Z) : tool A := inr (Failure ret None).
Definition exit_ {A} (status : Z) : tool A := inr (Exit status None).

(** An access outside a buffer is undefined behaviour. *)
Definition chk {A} (o : outcome A) : tool A :=
  match o with Ok a => inl a | _ => inr Undefined end.

(** ** Constants *)

Definition HDR_TIMESTAMP : Z := 0x02.
Definition HDR_SECONDARY_CIPHER : Z := 0x11.
Definition HDR_SECONDARY_PUBKEY : Z := 0x12.
Definition HDR_SHA3_384 : Z := 0x13.
Definition HDR_SHA384 : Z := 0x14.
Definition HDR_POLICY_SIGNATURE : Z := 0x21.
Definition HDR_SECONDARY_SIGNATURE : Z := 0x22.
Definition HDR_CERT_CHAIN : Z := 0x23.
Definition HDR_CMDLINE : Z := 0x34.
Definition HDR_DEVICE_TREE_DIGEST : Z := 0x35.
Definition HDR_IMG_TYPE_DIFF : Z := 0x00D0.
Definition MAX_TLV_LEN : Z := 65524.
Definition MAX_CUSTOM_TLVS : Z := 16.

Definition SIGN_AUTO : Z := 0.
Definition NO_SIGN : Z := 0xFF00.
Definition SIGN_ED25519 : Z := 0x0100.
Definition SIGN_ECC256 : Z := 0x0200.
Definition SIGN_RSA2048 : Z := 0x0300.
Definition SIGN_RSA4096 : Z := 0x0400.
Definition SIGN_ED448 : Z := 0x0500.
Definition SIGN_ECC384 : Z := 0x0600.
Definition SIGN_ECC521 : Z := 0x0700.
Definition SIGN_RSA3072 : Z := 0x0800.
Definition SIGN_LMS : Z := 0x0900.
Definition SIGN_XMSS : Z := 0x0A00.
Definition SIGN_ML_DSA : Z := 0x0B00.
Definition SIGN_RSAPSS2048 : Z := 0x0C00.
Definition SIGN_RSAPSS3072 : Z := 0x0D00.
Definition SIGN_RSAPSS4096 : Z := 0x0E00.

Definition ENC_OFF : Z := 0.
Definition ENC_CHACHA : Z := 1.
Definition ENC_AES128 : Z := 2.
Definition ENC_AES256 : Z := 3.

(** ** Numbers in strings *)

(** A C string is the list of its characters without the terminator. *)
Definition is_space (ch : Z) : bool := (ch =? 32) || ((9 <=? ch) && (ch <=? 13)).

Fixpoint skip_space (s : list Z) : list Z :=
  match s with
  | ch :: s' => if is_space ch then skip_space s' else s
  | [] => []
  end.

Definition digit (base ch : Z) : option Z :=
  let d := if (48 <=? ch) && (ch <=? 57) then ch - 48
           else if (97 <=? ch) && (ch <=? 122) then ch - 87
           else if (65 <=? ch) && (ch <=? 90) then ch - 55 else 36 in
  if d <? base then Some d else None.

Fixpoint digits (base : Z) (s : list Z) (acc : Z) : Z * list Z :=
  match s with
  | ch :: s' => match digit base ch with Some d => digits base s' (acc * base + d) | None => (acc, s) end
  | [] => (acc, [])
  end.

Definition has_hex_prefix (s : list Z) : bool :=
  match s with
  | c0 :: c1 :: c2 :: _ => (c0 =? 48) && ((c1 =? 120) || (c1 =? 88)) && bool_decide (is_Some (digit 16 c2))
  | _ => false
  end.

(** A number at the start of a string: its sign, its absolute value ([None] when
    there is none) and the rest of the string. *)
Definition scan_number (base : Z) (s : list Z) : bool * option Z * list Z :=
  let t := skip_space s in
  let '(neg, t) := match t with
                   | ch :: t' => if ch =? 45 then (true, t') else if ch =? 43 then (false, t') else (false, t)
                   | [] => (false, t)
                   end in
  let hex := has_hex_prefix t && ((base =? 0) || (base =? 16)) in
  let b := if hex then 16
           else if base =? 0 then (match t with ch :: _ => if ch =? 48 then 8 else 10 | [] => 10 end) else base in
  let t := if hex then drop 2 t else t in
  match t with
  | ch :: _ =>
      match digit b ch with
      | None => (false, None, s)
      | Some _ => let '(v, rest) := digits b t 0 in (neg, Some v, rest)
      end
  | [] => (false, None, s)
  end.

(** [strtoul] and [strtoull] with 64-bit results: the value, whether errno is
    ERANGE, and the rest of the string ([*endptr]; the whole string when there
    is no number). *)
Definition strtoul (base : Z) (s : list Z) : Z * bool * list Z :=
  match scan_number base s with
  | (_, None, rest) => (0, false, rest)
  | (neg, Some v, rest) =>
      if 2 ^ 64 <=? v then (2 ^ 64 - 1, true, rest)
      else (if neg then u64 (- v) else v, false, rest)
  end.

(** [strtol] with 64-bit results: the value and whether errno is ERANGE. *)
Definition strtol (base : Z) (s : list Z) : Z * bool :=
  match scan_number base s with
  | (_, None, _) => (0, false)
  | (true, Some v, _) => if 2 ^ 63 <? v then (- 2 ^ 63, true) else (- v, false)
  | (false, Some v, _) => if 2 ^ 63 <=? v then (2 ^ 63 - 1, true) else (v, false)
  end.

(** ** Options *)

(** The contents of a file, [None] when it cannot be opened. *)
Definition file : Type := option (list Z).

Record cmd_tlv : Type := mkTlv {
  tlv_tag : Z;
  tlv_len : Z;
  tlv_val : Z;
  tlv_buffer : option (list Z);
}.

(** [struct cmd_options]; a file option is [None] when not given. *)
Record cmd_options : Type := mkCmd {
  manual_sign : bool;
  policy_sign : bool;
  self_update : bool;
  sha_only : bool;
  header_only : bool;
  encrypt : Z;
  hash_algo : Z;
  sign : Z;
  hybrid : bool;
  secondary_sign : Z;
  delta : bool;
  no_ts : bool;
  sign_wenc : bool;
  fw_version : list Z;
  signature_file : file;
  policy_file : file;
  encrypt_key_file : option file;
  cert_chain_file : option file;
  dts_file : option file;
  no_base_sha : bool;
  header_sz : Z;
  signature_sz : Z;
  secondary_signature_sz : Z;
  policy_sz : Z;
  partition_id : Z;
  custom_tlv : list cmd_tlv;
}.

Definition set_sizes (hs sig sig2 pol : Z) (x : cmd_options) : cmd_options :=
  mkCmd (manual_sign x) (policy_sign x) (self_update x) (sha_only x) (header_only x) (encrypt x)
    (hash_algo x) (sign x) (hybrid x) (secondary_sign x) (delta x) (no_ts x) (sign_wenc x)
    (fw_version x) (signature_file x) (policy_file x) (encrypt_key_file x) (cert_chain_file x)
    (dts_file x) (no_base_sha x) hs sig sig2 pol (partition_id x) (custom_tlv x).
Definition set_header_sz (hs : Z) (x : cmd_options) : cmd_options :=
  set_sizes hs (signature_sz x) (secondary_signature_sz x) (policy_sz x) x.

(** ** Appending to the header *)

(** The header buffer and [header_idx]. *)
Definition hdr_state : Type := (list Z * Z)%type.

Definition header_store_u16_le (val : Z) : list Z := [Z.land val 0xFF; Z.land (Z.shiftr val 8) 0xFF].
Definition header_store_u32_le (val : Z) : list Z :=
  [Z.land val 0xFF; Z.land (Z.shiftr val 8) 0xFF; Z.land (Z.shiftr val 16) 0xFF; Z.land (Z.shiftr val 24) 0xFF].
Definition header_store_u64_le (val : Z) : list Z :=
  header_store_u32_le (Z.land val 0xFFFFFFFF) ++ header_store_u32_le (u32 (Z.shiftr val 32)).

Definition header_append_u32 (h : hdr_state) (tmp32 : Z) : tool hdr_state :=
  let '(header, idx) := h in
  let? header := chk (blit header idx (header_store_u32_le tmp32)) in
  ret_ok (header, idx + 4).
Definition header_append_u16 (h : hdr_state) (tmp16 : Z) : tool hdr_state :=
  let '(header, idx) := h in
  let? header := chk (blit header idx (header_store_u16_le tmp16)) in
  ret_ok (header, idx + 2).

(** [header_sz] is [header_append_limit()]; [len] bytes of [data] are copied. *)
Definition header_append_tag (header_sz : Z) (h : hdr_state) (tag len : Z) (data : list Z)
    : tool hdr_state :=
  let append_sz := 4 + len in
  if (header_sz <? snd h) || (header_sz - snd h <? append_sz) then exit_ 1 else
  let? h := header_append_u16 h tag in
  let? (header, idx) := header_append_u16 h len in
  let? d := chk (rd_bytes data 0 len) in
  let? header := chk (blit header idx d) in
  ret_ok (header, idx + len).

Definition header_append_tag_u16 (header_sz : Z) (h : hdr_state) (tag val : Z) : tool hdr_state :=
  header_append_tag header_sz h tag 2 (header_store_u16_le val).
Definition header_append_tag_u32 (header_sz : Z) (h : hdr_state) (tag val : Z) : tool hdr_state :=
  header_append_tag header_sz h tag 4 (header_store_u32_le val).
Definition header_append_tag_u64 (header_sz : Z) (h : hdr_state) (tag val : Z) : tool hdr_state :=
  header_append_tag header_sz h tag 8 (header_store_u64_le val).

(** [while ((x % m) != r) x++]. *)
Fixpoint align_up (fuel : nat) (m r x : Z) : Z :=
  match fuel with
  | O => x
  | S n => if x mod m =? r then x else align_up n m r (x + 1)
  end.
Definition ALIGN_8 (x : Z) : Z := align_up 8 8 4 x.
Definition ALIGN_4 (x : Z) : Z := align_up 4 4 0 x.
Definition align_8 (h : hdr_state) : hdr_state := (fst h, ALIGN_8 (snd h)).
Definition align_4 (h : hdr_state) : hdr_state := (fst h, ALIGN_4 (snd h)).

(** ** The size of the header *)

Definition header_size_align_8 (idx : Z) : Z := ALIGN_8 idx.
Definition header_size_align_4 (idx : Z) : Z := ALIGN_4 idx.
Definition header_size_append_tag (idx len : Z) : Z := u32 (idx + u32 (4 + len)).

Definition header_digest_size (algo : Z) : Z :=
  if algo =? HDR_SHA256 then 32 else if algo =? HDR_SHA384 then 48
  else if algo =? HDR_SHA3_384 then 48 else 0.

Definition header_required_size (c : cmd_options) (is_diff : bool) (cert_chain_sz secondary_key_sz : Z) : Z :=
  let digest_sz := header_digest_size (hash_algo c) in
  let idx := 2 * 4 in
  let idx := header_size_append_tag idx 4 in
  let idx := header_size_align_8 idx in
  let idx := if negb (no_ts c) then header_size_append_tag idx 8 else idx in
  let idx := header_size_append_tag idx 2 in
  let idx :=
    if is_diff then
      let idx := header_size_align_4 idx in
      let idx := header_size_append_tag (header_size_append_tag idx 4) 4 in
      let idx := header_size_align_4 idx in
      let idx := header_size_append_tag (header_size_append_tag idx 4) 4 in
      if negb (no_base_sha c) && (0 <? digest_sz)
      then header_size_append_tag (header_size_align_8 idx) digest_sz else idx
    else idx in
  let idx := fold_left (fun idx t => header_size_append_tag (header_size_align_8 idx) (tlv_len t))
               (custom_tlv c) idx in
  let idx := if bool_decide (is_Some (dts_file c)) && (0 <? digest_sz)
             then header_size_append_tag (header_size_align_8 idx) digest_sz else idx in
  let idx := if 0 <? cert_chain_sz
             then header_size_append_tag (header_size_align_8 idx) cert_chain_sz else idx in
  let idx :=
    if 0 <? digest_sz then
      let idx := header_size_append_tag (header_size_align_8 idx) digest_sz in
      let idx := header_size_align_8 idx in
      let idx :=
        if hybrid c && (0 <? secondary_key_sz) then
          let idx := header_size_append_tag idx 2 in
          let idx := if hash_algo c =? HDR_SHA256 then header_size_align_8 idx else idx in
          header_size_align_8 (header_size_append_tag idx digest_sz)
        else idx in
      header_size_append_tag idx digest_sz
    else idx in
  if negb (sign c =? NO_SIGN) then
    let idx := header_size_append_tag (header_size_align_8 idx) (signature_sz c) in
    let idx := if hybrid c then header_size_append_tag (header_size_align_8 idx) (secondary_signature_sz c) else idx in
    if policy_sign c then
      let policy_sig_sz := if policy_sz c =? 0 then signature_sz c else policy_sz c in
      header_size_append_tag (header_size_align_8 idx) (u32 (policy_sig_sz + 4))
    else idx
  else idx.

(** The power of two, from 256, that holds the fields; [None] on overflow. *)
Fixpoint grow (fuel : nat) (new_size required : Z) : option Z :=
  match fuel with
  | O => None
  | S n => if negb (new_size <? required) then Some new_size
           else if (2 ^ 32 - 1) / 2 <? new_size then None else grow n (2 * new_size) required
  end.

(** The header made larger where certificate chains, custom fields or a device
    tree need it. *)
Definition fit_header (c : cmd_options) (is_diff : bool) (secondary_key_sz : Z) : tool cmd_options :=
  if bool_decide (is_Some (cert_chain_file c)) || (0 <? zlen (custom_tlv c)) || bool_decide (is_Some (dts_file c)) then
    let? chain_sz :=
      (match cert_chain_file c with
       | Some (Some chain) => if MAX_TLV_LEN <? zlen chain then fail (-1) else ret_ok (zlen chain)
       | _ => ret_ok 0
       end) in
    let required_space := header_required_size c is_diff chain_sz secondary_key_sz in
    if header_sz c <? required_space then
      match grow 33 256 required_space with
      | None => fail (-1)
      | Some new_size => ret_ok (set_header_sz new_size c)
      end
    else ret_ok c
  else ret_ok c.

(** ** Parameters: wolfCrypt *)

(** The three digests of the tool. *)
Class tool_hash : Type := ToolHash {
  tool_sha256 : hash_api;
  tool_sha384 : hash_api;
  tool_sha3_384 : hash_api;
}.

(** Signing with a loaded key, the second when the first argument is 1: from the
    message and the size of the buffer, a status and the signature stored, whose
    length is the new size.  [wc_ecc_sign_hash_ex] gives [r] and [s] as
    [mp_to_unsigned_bin] writes them; the RSA functions return the length or a
    negative status; [lms_reload] and [xmss_reload] are the first status of the
    set-up calls that is not 0, or 0. *)
Class sign_api : Type := SignApi {
  wc_InitRng : Z;
  wc_ed25519_sign_msg : Z -> list Z -> Z -> Z * list Z;
  wc_ed448_sign_msg : Z -> list Z -> Z -> Z * list Z;
  wc_ecc_sign_hash_ex : Z -> list Z -> Z * (list Z * list Z);
  wc_EncodeSignature : list Z -> Z -> list Z;
  wc_RsaSSL_Sign : Z -> list Z -> Z -> Z * list Z;
  wc_RsaPSS_Sign : Z -> list Z -> Z -> Z -> Z * list Z;
  lms_reload : Z -> Z;
  wc_LmsKey_Sign : Z -> list Z -> Z -> Z * list Z;
  xmss_reload : Z -> Z;
  wc_XmssKey_Sign : Z -> list Z -> Z -> Z * list Z;
  wc_MlDsaKey_SignCtx : Z -> list Z -> Z -> Z * list Z;
  NOT_COMPILED_IN : Z;
}.

Section Sign.
Context {T : tool_hash} {W : sign_api} {E : stream_api}.

(** ** Signing a digest *)

Definition is_ecc (s : Z) : bool := (s =? SIGN_ECC256) || (s =? SIGN_ECC384) || (s =? SIGN_ECC521).
Definition is_rsa (s : Z) : bool := (s =? SIGN_RSA2048) || (s =? SIGN_RSA3072) || (s =? SIGN_RSA4096).
Definition is_rsapss (s : Z) : bool := (s =? SIGN_RSAPSS2048) || (s =? SIGN_RSAPSS3072) || (s =? SIGN_RSAPSS4096).

(** Store what a signing function returned: status, buffer, [*signature_sz]. *)
Definition store_sig (signature : list Z) (signature_sz : Z) (r : Z * list Z) : outcome (Z * list Z * Z) :=
  if fst r =? 0 then
    let! signature := blit signature 0 (snd r) in
    Ok (0, signature, zlen (snd r))
  else Ok (fst r, signature, signature_sz).
Definition store_rsa (signature : list Z) (signature_sz : Z) (r : Z * list Z) : outcome (Z * list Z * Z) :=
  if 0 <? fst r then
    let! signature := blit signature 0 (snd r) in
    Ok (0, signature, fst r)
  else Ok (fst r, signature, signature_sz).

Definition sign_digest (sign_wenc : bool) (sgn algo : Z) (signature : list Z) (signature_sz : Z)
    (digest : list Z) (secondary : Z) : outcome (Z * list Z * Z) :=
  if negb (wc_InitRng =? 0) then Ok (wc_InitRng, signature, signature_sz) else
  if sgn =? SIGN_ED25519 then
    store_sig signature signature_sz (wc_ed25519_sign_msg secondary digest signature_sz)
  else if sgn =? SIGN_ED448 then
    store_sig signature signature_sz (wc_ed448_sign_msg secondary digest signature_sz)
  else if is_ecc sgn then
    let keySz := if sgn =? SIGN_ECC256 then 32 else if sgn =? SIGN_ECC384 then 48 else 66 in
    let signature_sz := keySz * 2 in
    let! signature := blit signature 0 (replicate (Z.to_nat signature_sz) 0) in
    let '(ret, (r, s)) := wc_ecc_sign_hash_ex secondary digest in
    if ret =? 0 then
      let! signature := blit signature (keySz - zlen r) r in
      let! signature := blit signature (keySz + (keySz - zlen s)) s in
      Ok (0, signature, signature_sz)
    else Ok (ret, signature, signature_sz)
  else if is_rsa sgn then
    let enchash := if sign_wenc then wc_EncodeSignature digest algo else digest in
    store_rsa signature signature_sz (wc_RsaSSL_Sign secondary enchash signature_sz)
  else if is_rsapss sgn then
    if (algo =? HDR_SHA256) || (algo =? HDR_SHA384) then
      store_rsa signature signature_sz (wc_RsaPSS_Sign secondary digest signature_sz algo)
    else Ok (-1, signature, signature_sz)
  else if sgn =? SIGN_LMS then
    if negb (lms_reload secondary =? 0) then Ok (lms_reload secondary, signature, signature_sz)
    else store_sig signature signature_sz (wc_LmsKey_Sign secondary digest signature_sz)
  else if sgn =? SIGN_XMSS then
    if negb (xmss_reload secondary =? 0) then Ok (xmss_reload secondary, signature, signature_sz)
    else store_sig signature signature_sz (wc_XmssKey_Sign secondary digest signature_sz)
  else if sgn =? SIGN_ML_DSA then
    store_sig signature signature_sz (wc_MlDsaKey_SignCtx secondary digest signature_sz)
  else Ok (NOT_COMPILED_IN, signature, signature_sz).

(** ** Digests of files *)

(** The first [size] bytes of a file, hashed in pieces of [chunk] bytes. *)
Definition hash_pieces (H : hash_api) (ctx : hctx) (contents : list Z) (size chunk : Z) : outcome hctx :=
  loop (S (Z.to_nat size)) (fun '(pos, ctx) =>
    if negb (pos <? size) then Ok (inr ctx) else
    let read_sz := size - pos in
    let read_sz := if chunk <? read_sz then chunk else read_sz in
    Ok (inl (pos + read_sz, hash_update ctx (slice contents pos read_sz)))) (0, ctx).

Definition be32_at (l : list Z) (i : Z) : Z :=
  Z.lor (Z.lor (Z.lor (Z.shiftl (at_ l i) 24) (Z.shiftl (at_ l (i + 1)) 16)) (Z.shiftl (at_ l (i + 2)) 8)) (at_ l (i + 3)).

(** [None] is the error return. *)
Definition dts_hash_file (f : file) (algo : Z) : outcome (option (list Z)) :=
  match f with
  | None => Ok None
  | Some contents =>
      if zlen contents <? 40 then Ok None else
      let magic := be32_at contents 0 in
      let total := be32_at contents 4 in
      let version := be32_at contents 0x14 in
      let last_comp := be32_at contents 0x18 in
      if negb (magic =? 0xd00dfeed) then Ok None else
      if (total <? 40) || (version <? 0x10) || (0x11 <? last_comp) then Ok None else
      if u32 (zlen contents) <? total then Ok None else
      let run (H : hash_api) :=
        let! ctx := hash_pieces H hash_init contents total 4096 in
        Ok (Some (hash_final ctx)) in
      if algo =? HDR_SHA256 then run tool_sha256
      else if algo =? HDR_SHA384 then run tool_sha384
      else if algo =? HDR_SHA3_384 then run tool_sha3_384
      else Ok None
  end.

(** ** The fields before the digest *)

(** Magic, size, version, time stamp and type. *)
Definition start_header (c : cmd_options) (is_diff : bool) (image_sz ctime : Z) : tool hdr_state :=
  let hs := header_sz c in
  let h := (replicate (Z.to_nat hs) 0xFF, 0) in
  let? h := header_append_u32 h WOLFBOOT_MAGIC in
  let? h := header_append_u32 h image_sz in
  let '(tmp_ver, erange, _) := strtoul 10 (fw_version c) in
  if erange || (2 ^ 32 - 1 <? tmp_ver) then fail (-1) else
  let? h := header_append_tag_u32 hs h HDR_VERSION tmp_ver in
  let h := align_8 h in
  let? h := (if negb (no_ts c) then header_append_tag_u64 hs h HDR_TIMESTAMP ctime else ret_ok h) in
  let image_type := Z.lor (Z.land (u16 (sign c)) HDR_IMG_TYPE_AUTH_MASK) (partition_id c) in
  let image_type := if is_diff then Z.lor image_type HDR_IMG_TYPE_DIFF else image_type in
  header_append_tag_u16 hs h HDR_IMG_TYPE image_type.

(** What a delta image records of its patches and of its base. *)
Record delta_info : Type := mkDelta {
  delta_base_version : Z;
  patch_len : Z;
  patch_inv_off : Z;
  patch_inv_len : Z;
  base_hash : option (list Z);
}.

Definition delta_header (c : cmd_options) (d : delta_info) (h : hdr_state) : tool hdr_state :=
  let hs := header_sz c in
  let h := align_4 h in
  let? h := header_append_tag_u32 hs h HDR_IMG_DELTA_BASE (delta_base_version d) in
  let? h := header_append_tag_u32 hs h HDR_IMG_DELTA_SIZE (patch_len d) in
  let h := align_4 h in
  let? h := header_append_tag_u32 hs h HDR_IMG_DELTA_INVERSE (patch_inv_off d) in
  let? h := header_append_tag_u32 hs h HDR_IMG_DELTA_INVERSE_SIZE (patch_inv_len d) in
  if negb (no_base_sha c) then
    let h := align_8 h in
    match base_hash d with
    | None => fail (-1)
    | Some bh =>
        let sz := header_digest_size (hash_algo c) in
        if sz =? 0 then ret_ok h else
        if negb (zlen bh =? sz) then fail (-1) else
        header_append_tag hs h HDR_IMG_DELTA_BASE_HASH sz bh
    end
  else ret_ok h.

Fixpoint custom_header (hs : Z) (tlvs : list cmd_tlv) (h : hdr_state) : tool hdr_state :=
  match tlvs with
  | [] => ret_ok h
  | t :: tlvs =>
      let h := align_8 h in
      let? h := header_append_tag hs h (tlv_tag t) (tlv_len t)
        (match tlv_buffer t with None => header_store_u64_le (tlv_val t) | Some b => b end) in
      custom_header hs tlvs h
  end.

Definition dts_header (c : cmd_options) (h : hdr_state) : tool hdr_state :=
  match dts_file c with
  | None => ret_ok h
  | Some f =>
      let? d := chk (dts_hash_file f (hash_algo c)) in
      match d with
      | None => fail (-1)
      | Some digest => header_append_tag (header_sz c) (align_8 h) HDR_DEVICE_TREE_DIGEST (u16 (zlen digest)) digest
      end
  end.

Definition chain_header (c : cmd_options) (h : hdr_state) : tool hdr_state :=
  match cert_chain_file c with
  | None => ret_ok h
  | Some None => fail (-1)
  | Some (Some chain) =>
      if 2 ^ 32 - 1 <? zlen chain then fail (-1) else
      if MAX_TLV_LEN <? zlen chain then fail (-1) else
      if header_sz c <? snd h + 4 + zlen chain then fail (-1) else
      header_append_tag (header_sz c) (align_8 h) HDR_CERT_CHAIN (zlen chain) chain
  end.

(** ** Key digests and the digest of the image *)

(** The key fields as each digest algorithm lays them out. *)
Definition sha256_header (c : cmd_options) (pubkey : list Z) (secondary_key : list Z) (h : hdr_state) : tool hdr_state :=
  let hs := header_sz c in
  let? h := header_append_tag hs h HDR_PUBKEY 32 (hash_final (hash_update (hash_api := tool_sha256) hash_init pubkey)) in
  let h := align_8 h in
  let? h :=
    (if hybrid c && (0 <? zlen secondary_key) then
       let? h := header_append_tag_u16 hs h HDR_SECONDARY_CIPHER (u16 (secondary_sign c)) in
       let h := align_8 h in
       header_append_tag hs h HDR_SECONDARY_PUBKEY 32 (hash_final (hash_update (hash_api := tool_sha256) hash_init secondary_key))
     else ret_ok h) in
  ret_ok (align_8 (align_8 h)).

Definition sha384_header (c : cmd_options) (pubkey : list Z) (secondary_key : list Z) (h : hdr_state) : tool hdr_state :=
  let hs := header_sz c in
  let h := align_8 (align_8 h) in
  let? h := header_append_tag hs h HDR_PUBKEY 48 (hash_final (hash_update (hash_api := tool_sha384) hash_init pubkey)) in
  let h := align_8 h in
  if hybrid c && (0 <? zlen secondary_key) then
    let? h := header_append_tag_u16 hs h HDR_SECONDARY_CIPHER (u16 (secondary_sign c)) in
    let? h := header_append_tag hs h HDR_SECONDARY_PUBKEY 48
      (hash_final (hash_update (hash_api := tool_sha384) hash_init secondary_key)) in
    ret_ok (align_8 h)
  else ret_ok h.

Definition sha3_header (c : cmd_options) (pubkey : list Z) (secondary_key : list Z) (h : hdr_state) : tool hdr_state :=
  let hs := header_sz c in
  let? h := header_append_tag hs h HDR_PUBKEY 48 (hash_final (hash_update (hash_api := tool_sha3_384) hash_init pubkey)) in
  let h := align_8 h in
  let? h :=
    (if hybrid c && (0 <? zlen secondary_key) then
       let? h := header_append_tag_u16 hs (align_8 h) HDR_SECONDARY_CIPHER (u16 (secondary_sign c)) in
       let? h := header_append_tag hs h HDR_SECONDARY_PUBKEY 48
         (hash_final (hash_update (hash_api := tool_sha3_384) hash_init secondary_key)) in
       ret_ok (align_8 h)
     else ret_ok h) in
  ret_ok (align_8 h).

(** The digest of the header so far and of the image. *)
Definition digest_of (H : hash_api) (h : hdr_state) (image : list Z) (image_sz chunk : Z) : tool (list Z) :=
  let? hd := chk (rd_bytes (fst h) 0 (snd h)) in
  let? ctx := chk (hash_pieces H (hash_update hash_init hd) image image_sz chunk) in
  ret_ok (hash_final ctx).

(** The key fields, the digest, and its size. *)
Definition hash_header (c : cmd_options) (pubkey secondary_key image : list Z) (image_sz : Z) (h : hdr_state)
    : tool (hdr_state * list Z * Z) :=
  let h := align_8 h in
  if hash_algo c =? HDR_SHA256 then
    let? h := sha256_header c pubkey secondary_key h in
    let? digest := digest_of tool_sha256 h image image_sz 32 in
    ret_ok (h, digest, 32)
  else if hash_algo c =? HDR_SHA384 then
    let? h := sha384_header c pubkey secondary_key h in
    let? digest := digest_of tool_sha384 h image image_sz 32 in
    ret_ok (h, digest, 48)
  else if hash_algo c =? HDR_SHA3_384 then
    let? h := sha3_header c pubkey secondary_key h in
    let? digest := digest_of tool_sha3_384 h image image_sz 128 in
    ret_ok (h, digest, 48)
  else fail (-1).

(** ** Signatures *)

(** From here on [ret] is 0 until a step sets it, so a plain [goto failure]
    returns 0. *)

(** The signature of the image: the buffer and [CMD.signature_sz]. *)
Definition main_signature (c : cmd_options) (digest : list Z) : tool (list Z * Z) :=
  let signature := replicate (Z.to_nat (signature_sz c)) 0 in
  if negb (manual_sign c) then
    let? (ret, signature, sz) :=
      chk (sign_digest (sign_wenc c) (sign c) (hash_algo c) signature (signature_sz c) digest 0) in
    if negb (ret =? 0) then fail ret else ret_ok (signature, sz)
  else
    match signature_file c with
    | None => fail 0
    | Some contents =>
        let io := take (Z.to_nat (signature_sz c)) contents in
        if zlen io <=? 0 then fail 0 else
        let? signature := chk (blit signature 0 io) in
        ret_ok (signature, zlen io)
    end.

Definition secondary_signature (c : cmd_options) (digest : list Z) : tool (list Z * Z) :=
  if hybrid c then
    let signature := replicate (Z.to_nat (secondary_signature_sz c)) 0 in
    let? (ret, signature, sz) :=
      chk (sign_digest (sign_wenc c) (secondary_sign c) (hash_algo c) signature (secondary_signature_sz c) digest 1) in
    if negb (ret =? 0) then fail ret else ret_ok (signature, sz)
  else ret_ok ([], secondary_signature_sz c).

(** The policy buffer, [CMD.policy_sz], and the file with the signed policy.
    [uninit] is what malloc left in the last four bytes of the buffer. *)
Definition policy_signature (c : cmd_options) (policy_max : Z) (uninit : list Z)
    : tool (list Z * Z * option (list Z)) :=
  if policy_sign c then
    let policy := replicate (Z.to_nat policy_max) 0 ++ uninit in
    match policy_file c with
    | None => fail 0
    | Some contents =>
        if zlen contents <? 4 then fail 0 else
        let? policy := chk (blit policy 0 (take 4 contents)) in
        let rest := drop 4 contents in
        let? (policy, policy_sz) :=
          (if negb (manual_sign c) then
             if zlen rest <? 32 then fail 0 else
             let sig := slice policy 4 (zlen policy - 4) in
             let? (ret, sig, sz) :=
               chk (sign_digest (sign_wenc c) (sign c) HDR_SHA256 sig policy_max (take 32 rest) 0) in
             if negb (ret =? 0) then fail ret else
             let? policy := chk (blit policy 4 sig) in
             ret_ok (policy, sz)
           else
             let io := take (Z.to_nat policy_max) rest in
             if zlen io <=? 0 then fail 0 else
             let? policy := chk (blit policy 0 io) in
             ret_ok (policy, zlen io)) in
        let? saved := chk (rd_bytes policy 0 (policy_sz + 4)) in
        ret_ok (policy, policy_sz, Some saved)
    end
  else ret_ok ([], policy_max, None).

(** The signature fields, the signed policy, and [CMD] with the sizes used. *)
Definition sign_header (c : cmd_options) (digest : list Z) (uninit : list Z) (h : hdr_state)
    : tool (hdr_state * option (list Z) * cmd_options) :=
  if negb (sign c =? NO_SIGN) then
    if sha_only c then inr (Exit 0 (Some digest)) else
    let policy_max := signature_sz c in
    let? (signature, sig_sz) := main_signature c digest in
    let? (signature2, sig2_sz) := secondary_signature c digest in
    let? (policy, pol_sz, saved) := policy_signature c policy_max uninit in
    if 2 ^ 16 - 1 <? sig_sz then fail (-1) else
    if hybrid c && (2 ^ 16 - 1 <? sig2_sz) then fail (-1) else
    let hs := header_sz c in
    let? h := header_append_tag hs (align_8 h) HDR_SIGNATURE sig_sz signature in
    let? h := (if hybrid c then header_append_tag hs (align_8 h) HDR_SECONDARY_SIGNATURE sig2_sz signature2
               else ret_ok h) in
    let? h := (if policy_sign c then header_append_tag hs (align_8 h) HDR_POLICY_SIGNATURE (u16 (pol_sz + 4)) policy
               else ret_ok h) in
    ret_ok (h, saved, set_sizes hs sig_sz sig2_sz pol_sz c)
  else ret_ok (h, None, c).

(** ** The partition *)

(** The environment variables the tool looks at. *)
Record environment : Type := mkEnv {
  WOLFBOOT_PARTITION_SIZE_env : option (list Z);
  WOLFBOOT_PARTITION_UPDATE_SIZE_env : option (list Z);
  WOLFBOOT_SECTOR_SIZE_env : option (list Z);
  NVM_FLASH_WRITEONCE_env : option (list Z);
  IMAGE_HEADER_SIZE_env : option (list Z);
}.

(** A size in the environment: [None] when it is not valid. *)
Definition env_size (s : list Z) : option Z :=
  let '(tmp, erange, rest) := strtoul 0 s in
  if bool_decide (rest = s) || negb (bool_decide (rest = [])) || erange || (tmp =? 0) || (2 ^ 32 - 1 <? tmp)
  then None else Some tmp.

Definition env_set (v : option (list Z)) : option (list Z) :=
  match v with Some [] => None | v => v end.

Definition check_partition (c : cmd_options) (e : environment) (image_sz : Z) : tool unit :=
  let env_psize :=
    match env_set (WOLFBOOT_PARTITION_UPDATE_SIZE_env e) with
    | Some u => if self_update c then Some u else env_set (WOLFBOOT_PARTITION_SIZE_env e)
    | None => env_set (WOLFBOOT_PARTITION_SIZE_env e)
    end in
  match env_psize with
  | None => ret_ok tt
  | Some env_psize =>
      let nvm_writeonce := bool_decide (NVM_FLASH_WRITEONCE_env e = Some [49]) in
      match env_size env_psize with
      | None => fail (-1)
      | Some partition_sz =>
          let? sector_sz :=
            (match env_set (WOLFBOOT_SECTOR_SIZE_env e) with
             | None => ret_ok 0
             | Some s => match env_size s with None => fail (-1) | Some tmp => ret_ok tmp end
             end) in
          let total_img_sz := u32 (header_sz c + image_sz) in
          let trailer_sz := if nvm_writeonce && (sector_sz <? partition_sz) then u32 (2 * sector_sz) else sector_sz in
          let max_img_sz := if sector_sz <? partition_sz then u32 (partition_sz - trailer_sz) else partition_sz in
          if max_img_sz <? total_img_sz then fail (-1) else ret_ok tt
      end
  end.

(** ** The output *)

(** The image copied behind the header: [pos] counts bytes, [image] is what is
    left of the file. *)
Definition copy_image (image : list Z) (image_sz : Z) : outcome (list Z) :=
  loop (S (S (length image))) (fun '(pos, image, out) =>
    if negb (pos <? image_sz) then Ok (inr out) else
    let read_sz := if 4096 <? image_sz then 4096 else image_sz in
    let buf := take (Z.to_nat read_sz) image in
    if zlen buf =? 0 then Ok (inr out) else
    Ok (inl (pos + zlen buf, drop (Z.to_nat read_sz) image, out ++ buf))) (0, image, []).

(** The signed file encrypted block by block. *)
Definition encrypt_chacha (key iv : list Z) (signed : list Z) : outcome (list Z) :=
  loop (S (S (length signed))) (fun '(cha, todo, out) =>
    let buf := take 64 todo in
    if zlen buf =? 0 then Ok (inr out) else
    let '(cha, enc_buf) := wc_Chacha_Process cha buf in
    Ok (inl (cha, drop 64 todo, out ++ enc_buf))) (wc_Chacha_SetIV (wc_Chacha_SetKey key) iv 0, signed, []).

Definition encrypt_aes (key iv : list Z) (signed : list Z) : outcome (list Z) :=
  loop (S (S (length signed))) (fun '(aes_e, todo, out) =>
    let buf := take 16 todo in
    if zlen buf =? 0 then Ok (inr out) else
    let buf := buf ++ replicate (16 - length buf) 0xFF in
    let '(aes_e, enc_buf) := wc_AesCtrEncrypt aes_e buf in
    Ok (inl (aes_e, drop 16 todo, out ++ enc_buf))) (wc_AesSetKeyDirect key (Some iv), signed, []).

(** [None] when no encryption is asked for. *)
Definition encrypt_output (c : cmd_options) (signed : list Z) : tool (option (list Z)) :=
  if negb (header_only c) && negb (encrypt c =? ENC_OFF) then
    match encrypt_key_file c with
    | None => ret_ok None
    | Some fek =>
        let failed ret := inr (Failure ret (Some signed)) in
        let ivSz := if encrypt c =? ENC_CHACHA then 12 else 16 in
        let keySz := if encrypt c =? ENC_AES128 then 16 else 32 in
        if negb ((encrypt c =? ENC_CHACHA) || (encrypt c =? ENC_AES128) || (encrypt c =? ENC_AES256)) then failed 0 else
        match fek with
        | None => failed 0
        | Some contents =>
            if zlen contents <? keySz then failed (-1) else
            let key := take (Z.to_nat keySz) contents in
            let rest := drop (Z.to_nat keySz) contents in
            if zlen rest <? ivSz then failed (-1) else
            let iv := take (Z.to_nat ivSz) rest in
            if encrypt c =? ENC_CHACHA then
              let? out := chk (encrypt_chacha key iv signed) in
              ret_ok (Some out)
            else
              let? out := chk (encrypt_aes key iv signed) in
              ret_ok (Some out)
        end
    end
  else ret_ok None.

(** The files the tool leaves. *)
Record outputs : Type := mkOut {
  signed_image : list Z;
  encrypted_image : option (list Z);
  signed_policy : option (list Z);
}.

(** ** The whole header *)

Definition make_header_ex (c : cmd_options) (e : environment) (d : option delta_info)
    (pubkey : list Z) (image_file : file) (ctime : Z) (secondary_key : list Z) (uninit : list Z)
    : tool (outputs * cmd_options) :=
  let is_diff := bool_decide (is_Some d) in
  let? c := fit_header c is_diff (zlen secondary_key) in
  match image_file with
  | None => fail (-1)
  | Some image =>
      let image_sz := u32 (zlen image) in
      let? h := start_header c is_diff image_sz ctime in
      let? h := (match d with Some d => delta_header c d h | None => ret_ok h end) in
      let? h := custom_header (header_sz c) (custom_tlv c) h in
      let? h := dts_header c h in
      let? h := chain_header c h in
      let? (h, digest, digest_sz) := hash_header c pubkey secondary_key image image_sz h in
      let? h := header_append_tag (header_sz c) h (hash_algo c) digest_sz digest in
      let? (h, saved, c) := sign_header c digest uninit h in
      let? header := chk (blit (fst h) (snd h) (replicate (Z.to_nat (header_sz c - snd h)) 0xFF)) in
      let? _ := check_partition c e image_sz in
      let? body := (if header_only c then ret_ok [] else chk (copy_image image image_sz)) in
      let signed := header ++ body in
      let? enc := encrypt_output c signed in
      ret_ok (mkOut signed enc saved, c)
  end.

Definition make_header (c : cmd_options) (e : environment) (pubkey : list Z) (image_file : file) (ctime : Z)
    (uninit : list Z) : tool (outputs * cmd_options) :=
  make_header_ex c e None pubkey image_file ctime [] uninit.

Definition make_header_delta (c : cmd_options) (e : environment) (d : delta_info) (pubkey : list Z)
    (image_file : file) (ctime : Z) (uninit : list Z) : tool (outputs * cmd_options) :=
  make_header_ex c e (Some d) pubkey image_file ctime [] uninit.

Definition make_hybrid_header (c : cmd_options) (e : environment) (pubkey : list Z) (image_file : file)
    (ctime : Z) (secondary_key : list Z) (uninit : list Z) : tool (outputs * cmd_options) :=
  make_header_ex c e None pubkey image_file ctime secondary_key uninit.

End Sign.
