(* ===== verification/SignSpec.v ===== *)
(** * SignSpec: the header the signing tool builds, field by field

    The buffer under construction is a chain of padding bytes and fields; each
    append adds a field, each alignment adds padding, and nothing written before
    changes.  A chain in memory is what the search of the bootloader walks, so it
    finds the first field of every tag. *)

From Stdlib Require Import ZArith Lia.
From stdpp Require Import prelude.
From S2P Require Import Prelude Flash Trailer Image ImageSpec DeltaUpdate Stream Sign.

Local Open Scope Z_scope.

(** ** Words *)

Lemma land_ff v : Z.land v 0xFF = v mod 256.
Proof. change 0xFF with (Z.ones 8). by rewrite Z.land_ones. Qed.

Lemma store_u16 v : header_store_u16_le v = [v mod 256; v / 256 mod 256].
Proof. unfold header_store_u16_le. by rewrite !land_ff, Z.shiftr_div_pow2. Qed.

Lemma store_u32 v : header_store_u32_le v = le32_bytes v.
Proof. unfold header_store_u32_le, le32_bytes. by rewrite !land_ff, !Z.shiftr_div_pow2. Qed.

Lemma store_u64_length v : zlen (header_store_u64_le v) = 8.
Proof. done. Qed.

Lemma u16_word a b : is_byte a -> is_byte b -> u16 (Z.lor a (Z.shiftl b 8)) = a + 256 * b.
Proof.
  unfold is_byte. intros Ha Hb. rewrite lor_shift_add by lia. rewrite u16_small by lia. lia.
Qed.

Lemma u16_store v : 0 <= v < 2 ^ 16 -> v mod 256 + 256 * (v / 256 mod 256) = v.
Proof. intros Hv. dlia. Qed.

Lemma mle32_store m a v :
  0 <= v < 2 ^ 32 -> (forall i, 0 <= i < 4 -> m (a + i) = at_ (le32_bytes v) i) -> mle32 m a = v.
Proof.
  intros Hv Hm. unfold mle32. pose proof (Hm 0) as H0. rewrite Z.add_0_r in H0. rewrite H0, !Hm by lia.
  rewrite <- (u32_small v Hv) at 5. apply le32_value.
Qed.

(** ** Numbers *)

Lemma digit_range base ch d : digit base ch = Some d -> 0 <= d < base.
Proof. unfold digit. repeat case_if; intros [= <-]; bools; lia. Qed.

Lemma digits_nonneg base s acc : 0 <= base -> 0 <= acc -> 0 <= fst (digits base s acc).
Proof.
  intros Hb. revert acc. induction s as [|ch s IH]; intros acc Ha; [done|]. cbn [digits].
  destruct (digit base ch) as [d|] eqn:E; [|done]. apply digit_range in E. apply IH. nia.
Qed.

Lemma scan_nonneg base s neg v rest : 0 <= base -> scan_number base s = (neg, Some v, rest) -> 0 <= v.
Proof.
  intros Hb. unfold scan_number. set (p := match skip_space s with [] => _ | _ :: _ => _ end). destruct p as [ng t].
  set (b := if has_hex_prefix t && _ then 16 else _). assert (0 <= b) as Hb0 by (unfold b; repeat case_match; lia). clearbody b.
  destruct (if _ && _ then _ else _) as [|ch t']; [done|]. destruct (digit b ch); [|done].
  pose proof (digits_nonneg b (ch :: t') 0 Hb0) as Hn. destruct (digits b (ch :: t') 0) as [v' rest'].
  cbn [fst] in Hn. intros [= <- <- <-]. by apply Hn.
Qed.

Lemma strtoul_range base s : 0 <= base -> 0 <= fst (fst (strtoul base s)) < 2 ^ 64.
Proof.
  intros Hb. unfold strtoul. destruct (scan_number base s) as [[neg [v|]] rest] eqn:E; [|done].
  apply scan_nonneg in E; [|done]. destruct (Z.leb_spec (2 ^ 64) v); cbn [fst]; [lia|].
  destruct neg; [apply u64_range|lia].
Qed.

(** ** Alignment *)

Lemma align_up_spec (m r : Z) fuel x :
  0 < m -> 0 <= r < m -> (r - x) mod m < Z.of_nat fuel ->
  let y := align_up fuel m r x in x <= y /\ y mod m = r /\ y = x + (r - x) mod m.
Proof.
  intros Hm Hr. revert x. induction fuel as [|n IH]; intros x Hf; [pose proof (Z.mod_pos_bound (r - x) m); lia|].
  cbn [align_up]. destruct (Z.eqb_spec (x mod m) r) as [E|E].
  - assert ((r - x) mod m = 0) as H0.
    { rewrite <- E, Zminus_mod_idemp_l, Z.sub_diag. apply Z.mod_0_l. lia. }
    rewrite H0. split; [lia|]. split; [done|lia].
  - assert ((r - x) mod m <> 0) as H0.
    { intros H0. apply E. assert (r mod m = x mod m) as E'.
      { replace r with (x + (r - x)) by lia. rewrite Zplus_mod, H0, Z.add_0_r. apply Z.mod_mod. lia. }
      rewrite <- E'. by apply Z.mod_small. }
    assert ((r - (x + 1)) mod m = (r - x) mod m - 1) as H1.
    { pose proof (Z.mod_pos_bound (r - x) m). symmetry. apply Z.mod_unique with (q := (r - x) / m); [lia|].
      pose proof (Z.div_mod (r - x) m). lia. }
    destruct (IH (x + 1)) as (A1 & A2 & A3); [lia|]. split; [lia|]. split; [done|lia].
Qed.

Lemma ALIGN_8_spec x : x <= ALIGN_8 x /\ ALIGN_8 x mod 8 = 4 /\ ALIGN_8 x = x + (4 - x) mod 8.
Proof. apply align_up_spec; [lia..|]. pose proof (Z.mod_pos_bound (4 - x) 8). lia. Qed.

Lemma ALIGN_4_spec x : x <= ALIGN_4 x /\ ALIGN_4 x mod 4 = 0 /\ ALIGN_4 x = x + (0 - x) mod 4.
Proof. apply align_up_spec; [lia..|]. pose proof (Z.mod_pos_bound (0 - x) 4). lia. Qed.

Lemma ALIGN_8_id x : x mod 8 = 4 -> ALIGN_8 x = x.
Proof. intros H. destruct (ALIGN_8_spec x) as (_ & _ & ->). dlia. Qed.

(** ** Chains of fields *)

Definition tag_ok (t : Z) : Prop := 0 < t < 2 ^ 16 /\ t mod 256 <> HDR_PADDING.

(** The bytes of a field. *)
Definition field_bytes (t : Z) (d : list Z) : list Z :=
  header_store_u16_le t ++ header_store_u16_le (zlen d) ++ d.

Lemma field_bytes_length t d : zlen (field_bytes t d) = 4 + zlen d.
Proof.
  unfold field_bytes. rewrite !zlen_app. change (zlen (header_store_u16_le t)) with 2.
  change (zlen (header_store_u16_le (zlen d))) with 2. lia.
Qed.

(** From [p] to [q], [b] is padding and the fields [fs], each with its offset,
    tag and value. *)
Inductive chain (b : list Z) : Z -> list (Z * Z * list Z) -> Z -> Prop :=
  | chain_nil p : chain b p [] p
  | chain_pad p fs q : at_ b p = HDR_PADDING -> chain b (p + 1) fs q -> chain b p fs q
  | chain_field p t d fs q :
      p mod 2 = 0 -> tag_ok t -> zlen d < 2 ^ 16 ->
      (forall i, 0 <= i < 4 + zlen d -> at_ b (p + i) = at_ (field_bytes t d) i) ->
      chain b (p + 4 + zlen d) fs q -> chain b p ((p, t, d) :: fs) q.

Lemma chain_le b p fs q : chain b p fs q -> p <= q.
Proof. induction 1 as [p|p fs q _ _ IH|p t d fs q _ _ _ _ _ IH]; [lia|lia|]. pose proof (zlen_nonneg d). lia. Qed.

Lemma chain_app b p fs q fs' r : chain b p fs q -> chain b q fs' r -> chain b p (fs ++ fs') r.
Proof.
  induction 1 as [p|p fs q Hp _ IH|p t d fs q Hp Ht Hd Hb _ IH]; intros H'; [done|..].
  - apply chain_pad; auto.
  - apply chain_field; auto.
Qed.

Lemma chain_ext b b' p fs q :
  chain b p fs q -> (forall i, p <= i < q -> at_ b' i = at_ b i) -> chain b' p fs q.
Proof.
  induction 1 as [p|p fs q Hp Hc IH|p t d fs q Hp Ht Hd Hb Hc IH]; intros Hs; [constructor|..].
  - apply chain_le in Hc. apply chain_pad; [rewrite Hs by lia; done|]. apply IH. intros i Hi. apply Hs. lia.
  - apply chain_le in Hc. pose proof (zlen_nonneg d). apply chain_field; try done.
    + intros i Hi. rewrite Hs by lia. by apply Hb.
    + apply IH. intros i Hi. apply Hs. lia.
Qed.

Lemma chain_pads b p n : (forall i, p <= i < p + Z.of_nat n -> at_ b i = HDR_PADDING) ->
  chain b p [] (p + Z.of_nat n).
Proof.
  revert p. induction n as [|n IH]; intros p Hp; [rewrite Z.add_0_r; constructor|].
  apply chain_pad; [apply Hp; lia|]. replace (p + Z.of_nat (S n)) with (p + 1 + Z.of_nat n) by lia.
  apply IH. intros i Hi. apply Hp. lia.
Qed.

(** ** The header under construction *)

(** [hs] bytes that start with the magic and the size, then a chain of fields,
    then padding; the index is at or behind the last field. *)
Record built (hs size : Z) (fs : list (Z * Z * list Z)) (h : hdr_state) : Prop := Built {
  bu_len : zlen (fst h) = hs;
  bu_magic : forall i, 0 <= i < 4 -> at_ (fst h) i = at_ (le32_bytes WOLFBOOT_MAGIC) i;
  bu_size : forall i, 0 <= i < 4 -> at_ (fst h) (4 + i) = at_ (le32_bytes size) i;
  bu_fields : exists q, 8 <= q <= hs /\ q <= snd h /\ chain (fst h) 8 fs q /\
    forall i, q <= i < hs -> at_ (fst h) i = HDR_PADDING;
}.

(** Later states keep what earlier ones wrote. *)
Definition keeps (h h' : hdr_state) : Prop :=
  snd h <= snd h' /\ forall i, 0 <= i < snd h -> at_ (fst h') i = at_ (fst h) i.

#[global] Instance keeps_refl : Reflexive keeps.
Proof. intros h. split; [lia|done]. Qed.
#[global] Instance keeps_trans : Transitive keeps.
Proof. intros a b c [H1 H2] [H3 H4]. split; [lia|]. intros i Hi. rewrite H4 by lia. by apply H2. Qed.

Lemma append_u16_eq h v :
  0 <= snd h -> snd h + 2 <= zlen (fst h) ->
  header_append_u16 h v = inl (put (fst h) (snd h) (header_store_u16_le v), snd h + 2).
Proof.
  destruct h as [b idx]. cbn [fst snd]. intros H0 H1. unfold header_append_u16. rewrite blit_put; [done|done|].
  change (zlen (header_store_u16_le v)) with 2. lia.
Qed.

Lemma append_u32_eq h v :
  0 <= snd h -> snd h + 4 <= zlen (fst h) ->
  header_append_u32 h v = inl (put (fst h) (snd h) (header_store_u32_le v), snd h + 4).
Proof.
  destruct h as [b idx]. cbn [fst snd]. intros H0 H1. unfold header_append_u32. rewrite blit_put; [done|done|].
  change (zlen (header_store_u32_le v)) with 4. lia.
Qed.

(** Appending a field succeeds exactly when it fits, and copies it. *)
Lemma append_tag_eq hs h t len d :
  zlen (fst h) = hs -> 0 <= snd h -> 0 <= len <= zlen d -> snd h + 4 + len <= hs ->
  exists b', header_append_tag hs h t len d = inl (b', snd h + 4 + len) /\ zlen b' = hs /\
    (forall i, 0 <= i < snd h \/ snd h + 4 + len <= i < hs -> at_ b' i = at_ (fst h) i) /\
    (forall i, 0 <= i < 4 + len ->
       at_ b' (snd h + i) = at_ (header_store_u16_le t ++ header_store_u16_le len ++ slice d 0 len) i).
Proof.
  intros Hl H0 Hd Hfit. destruct h as [b idx]. cbn [fst snd] in *. unfold header_append_tag. cbn [snd].
  destruct (_ || _) eqn:Eo; [apply orb_true_iff in Eo as [Eo|Eo]; bools; lia|].
  rewrite append_u16_eq by (cbn [fst snd]; lia). cbn [tbind fst snd].
  assert (zlen (header_store_u16_le t) = 2 /\ zlen (header_store_u16_le len) = 2) as [Z1 Z2] by done.
  assert (zlen (slice d 0 len) = len) as Z3 by (apply slice_length; lia).
  set (b1 := put b idx (header_store_u16_le t)). assert (zlen b1 = hs) as L1 by (unfold b1; rewrite zlen_put; lia).
  rewrite append_u16_eq by (cbn [fst snd]; lia). cbn [tbind fst snd].
  set (b2 := put b1 (idx + 2) (header_store_u16_le len)).
  assert (zlen b2 = hs) as L2 by (unfold b2; rewrite zlen_put; lia).
  unfold rd_bytes. replace (_ && _) with true by (symmetry; rewrite !andb_true_iff, !Z.leb_le; lia). cbn [chk tbind].
  rewrite blit_put by lia. cbn [chk tbind]. exists (put b2 (idx + 2 + 2) (slice d 0 len)).
  split; [unfold ret_ok; do 2 f_equal; lia|]. split; [rewrite zlen_put; lia|].
  assert (forall i, 0 <= i < hs -> at_ (put b2 (idx + 2 + 2) (slice d 0 len)) i =
    if (idx <=? i) && (i <? idx + 2) then at_ (header_store_u16_le t) (i - idx)
    else if (idx + 2 <=? i) && (i <? idx + 4) then at_ (header_store_u16_le len) (i - (idx + 2))
    else if (idx + 4 <=? i) && (i <? idx + 4 + len) then at_ (slice d 0 len) (i - (idx + 4)) else at_ b i) as Hat.
  { intros i Hi. rewrite at_put by lia. unfold b2. rewrite (at_put b1) by lia. unfold b1. rewrite (at_put b) by lia.
    rewrite Z1, Z2, Z3. replace (idx + 2 + 2) with (idx + 4) by lia. unfold in_range.
    repeat case_if; try lia; try done. }
  split.
  - intros i Hi. rewrite Hat by lia. repeat case_if; try lia; done.
  - intros i Hi. rewrite Hat by lia. rewrite app_assoc.
    assert (zlen (header_store_u16_le t ++ header_store_u16_le len) = 4) as Z4 by done.
    destruct (Z.lt_ge_cases i 4) as [Hlt|Hge].
    + rewrite (at_app_l _ _ i) by lia. destruct (Z.lt_ge_cases i 2) as [Hlt2|Hge2].
      * rewrite at_app_l by lia. repeat case_if; try lia. f_equal. lia.
      * rewrite at_app_r by lia. rewrite Z1. repeat case_if; try lia. f_equal. lia.
    + rewrite (at_app_r _ _ i) by lia. rewrite Z4. repeat case_if; try lia. f_equal. lia.
Qed.

Lemma append_tag_fits hs h t len d h' :
  zlen (fst h) = hs -> 0 <= snd h -> 0 <= len -> header_append_tag hs h t len d = inl h' ->
  len <= zlen d /\ snd h + 4 + len <= hs.
Proof.
  intros Hl H0 Hlen. unfold header_append_tag. destruct (_ || _) eqn:Eo; [done|]. bools.
  rewrite append_u16_eq by lia. cbn [tbind].
  assert (zlen (header_store_u16_le t) = 2) as Z1 by done.
  rewrite append_u16_eq by (cbn [fst snd]; rewrite ?zlen_put; lia). cbn [tbind].
  unfold rd_bytes. case_if; [|done]. bools. intros _. lia.
Qed.

(** ** Partial correctness of the tool *)

(** If [x] returns a value, it satisfies [P]. *)
Definition tpost {A} (x : tool A) (P : A -> Prop) : Prop := forall a, x = inl a -> P a.

Lemma tpost_ret {A} (a : A) (P : A -> Prop) : P a -> tpost (ret_ok a) P.
Proof. intros H ? [= <-]. done. Qed.

Lemma tpost_fail {A} (s : stop) (P : A -> Prop) : tpost (inr s) P.
Proof. intros a [=]. Qed.

Lemma tpost_mono {A} (x : tool A) (P Q : A -> Prop) : tpost x P -> (forall a, P a -> Q a) -> tpost x Q.
Proof. intros H HQ a Ha. by apply HQ, H. Qed.

Lemma tpost_bind {A B} (x : tool A) (k : A -> tool B) (P : A -> Prop) (Q : B -> Prop) :
  tpost x P -> (forall a, P a -> tpost (k a) Q) -> tpost (tbind x k) Q.
Proof. intros HP Hk. destruct x as [a|s]; [by apply Hk, HP|apply tpost_fail]. Qed.

Lemma tpost_chk {A} (o : outcome A) (P : A -> Prop) : (forall a, o = Ok a -> P a) -> tpost (chk o) P.
Proof. intros H a. destruct o; intros [=]; subst; by apply H. Qed.

#[export] Hint Resolve tpost_fail : wb.

(** A step whose result does not matter. *)
Ltac any := eapply (tpost_bind _ _ (fun _ => True)); [done|intros ? _].

(** [h'] is [h] with the fields [new] behind. *)
Definition extends (hs size : Z) (fs new : list (Z * Z * list Z)) (h h' : hdr_state) : Prop :=
  built hs size (fs ++ new) h' /\ keeps h h'.

Lemma extends_refl hs size fs h : built hs size fs h -> extends hs size fs [] h h.
Proof. intros H. split; [by rewrite app_nil_r|done]. Qed.

Lemma extends_trans hs size fs n1 n2 h h1 h2 :
  extends hs size fs n1 h h1 -> extends hs size (fs ++ n1) n2 h1 h2 -> extends hs size fs (n1 ++ n2) h h2.
Proof. intros [H1 K1] [H2 K2]. split; [by rewrite app_assoc|by etrans]. Qed.

Lemma extends_align8 hs size fs new h h' : extends hs size fs new h h' -> extends hs size fs new h (align_8 h').
Proof.
  intros [[L M S (q & Hq & Hqi & Hc & Hr)] K]. destruct (ALIGN_8_spec (snd h')) as (A & _ & _). split.
  - split; try done. exists q. cbn [align_8 fst snd]. split_and!; try done; lia.
  - etrans; [done|]. split; [cbn [align_8 fst snd]; lia|done].
Qed.

Lemma extends_align4 hs size fs new h h' : extends hs size fs new h h' -> extends hs size fs new h (align_4 h').
Proof.
  intros [[L M S (q & Hq & Hqi & Hc & Hr)] K]. destruct (ALIGN_4_spec (snd h')) as (A & _ & _). split.
  - split; try done. exists q. cbn [align_4 fst snd]. split_and!; try done; lia.
  - etrans; [done|]. split; [cbn [align_4 fst snd]; lia|done].
Qed.

(** Appending a field at an even position. *)
Lemma append_post hs size fs h t len d :
  built hs size fs h -> tag_ok t -> 0 <= len < 2 ^ 16 -> snd h mod 2 = 0 ->
  tpost (header_append_tag hs h t len d) (fun h' =>
    len <= zlen d /\ extends hs size fs [(snd h, t, slice d 0 len)] h h' /\ snd h' = snd h + 4 + len).
Proof.
  intros [L M S (q & Hq & Hqi & Hc & Hr)] Ht Hlen Hev h' Hh'.
  destruct (append_tag_fits hs h t len d h') as [Hd Hfit]; [done|lia|lia|done|].
  destruct (append_tag_eq hs h t len d) as (b' & Eq & L' & Hout & Hin); [done|lia|lia|done|].
  rewrite Hh' in Eq. injection Eq as ->. split; [done|]. split; [|done]. cbn [fst snd].
  assert (zlen (slice d 0 len) = len) as Hsl by (apply slice_length; lia).
  split; [split; cbn [fst snd]; try done|].
  - intros i Hi. rewrite Hout by lia. by apply M.
  - intros i Hi. rewrite Hout by lia. by apply S.
  - exists (snd h + 4 + len). split_and!; try lia.
    + apply (chain_app _ _ _ (snd h)).
      * apply (chain_ext (fst h)); [|intros i Hi; apply Hout; lia].
        rewrite <- (app_nil_r fs). apply (chain_app _ _ _ q); [done|].
        replace (snd h) with (q + Z.of_nat (Z.to_nat (snd h - q))) by lia. apply chain_pads.
        intros i Hi. apply Hr. lia.
      * rewrite <- Hsl at 2. apply chain_field; [done|done|lia| |constructor].
        rewrite Hsl. intros i Hi. unfold field_bytes. rewrite Hsl. by apply Hin.
    + intros i Hi. rewrite Hout by lia. apply Hr. lia.
  - split; cbn [fst snd]; [lia|]. intros i Hi. apply Hout. lia.
Qed.

(** ** What each part of the header adds *)

(** Tags and values, without the offsets. *)
Definition tags (fs : list (Z * Z * list Z)) : list (Z * list Z) := (fun '(_, t, d) => (t, d)) <$> fs.

Lemma tags_app f1 f2 : tags (f1 ++ f2) = tags f1 ++ tags f2.
Proof. apply fmap_app. Qed.

(** From [h] to [h'] the fields [l] were added. *)
Definition grows (hs size : Z) (fs : list (Z * Z * list Z)) (l : list (Z * list Z)) (h h' : hdr_state) : Prop :=
  exists new, extends hs size fs new h h' /\ tags new = l.

Lemma grows_nil hs size fs h : built hs size fs h -> grows hs size fs [] h h.
Proof. intros H. exists []. split; [by apply extends_refl|done]. Qed.

Lemma grows_align8 hs size fs l h h' : grows hs size fs l h h' -> grows hs size fs l h (align_8 h').
Proof. intros (new & He & Ht). exists new. split; [by apply extends_align8|done]. Qed.

Lemma grows_align4 hs size fs l h h' : grows hs size fs l h h' -> grows hs size fs l h (align_4 h').
Proof. intros (new & He & Ht). exists new. split; [by apply extends_align4|done]. Qed.

Lemma grows_app hs size fs l1 l2 h h1 h2 :
  grows hs size fs l1 h h1 -> (forall fs1, built hs size fs1 h1 -> grows hs size fs1 l2 h1 h2) ->
  grows hs size fs (l1 ++ l2) h h2.
Proof.
  intros (n1 & H1 & <-) H2. destruct (H2 (fs ++ n1) (proj1 H1)) as (n2 & H3 & <-).
  exists (n1 ++ n2). split; [by eapply extends_trans|apply tags_app].
Qed.

(** One part after another. *)
Lemma grows_bind hs size fs l1 l2 h (x : tool hdr_state) (k : hdr_state -> tool hdr_state) :
  tpost x (grows hs size fs l1 h) ->
  (forall fs1 h1, built hs size fs1 h1 -> tpost (k h1) (grows hs size fs1 l2 h1)) ->
  tpost (tbind x k) (grows hs size fs (l1 ++ l2) h).
Proof.
  intros Hx Hk. eapply tpost_bind; [exact Hx|]. intros h1 Hg h2 Hh2. eapply grows_app; [exact Hg|].
  intros fs1 Hb. by apply (Hk fs1 h1).
Qed.

Lemma even_align8 h : snd (align_8 h) mod 2 = 0.
Proof. destruct (ALIGN_8_spec (snd h)) as (_ & E & _). cbn [align_8 snd]. dlia. Qed.

Lemma even_align4 h : snd (align_4 h) mod 2 = 0.
Proof. destruct (ALIGN_4_spec (snd h)) as (_ & E & _). cbn [align_4 snd]. dlia. Qed.

Lemma append_grows hs size fs h t len d :
  built hs size fs h -> tag_ok t -> 0 <= len < 2 ^ 16 -> snd h mod 2 = 0 ->
  tpost (header_append_tag hs h t len d) (fun h' =>
    grows hs size fs [(t, slice d 0 len)] h h' /\ snd h' = snd h + 4 + len /\ len <= zlen d).
Proof.
  intros Hb Ht Hl He. eapply tpost_mono; [by eapply append_post|]. intros h' (Hd & Hx & Hs).
  split; [|done]. by eexists.
Qed.

Lemma append8_grows hs size fs h t len d :
  built hs size fs h -> tag_ok t -> 0 <= len < 2 ^ 16 ->
  tpost (header_append_tag hs (align_8 h) t len d) (fun h' =>
    grows hs size fs [(t, slice d 0 len)] h h' /\ snd h' = ALIGN_8 (snd h) + 4 + len /\ len <= zlen d).
Proof.
  intros Hb Ht Hl. destruct (grows_align8 _ _ _ _ _ _ (grows_nil _ _ _ _ Hb)) as (new & Hx & Hn).
  eapply tpost_mono; [apply (append_grows hs size (fs ++ new)); [apply Hx|done|done|apply even_align8]|].
  intros h' (Hg & Hs & Hd). split; [|done]. change [(t, slice d 0 len)] with ([] ++ [(t, slice d 0 len)]).
  destruct Hg as (n2 & Hx2 & <-). exists (new ++ n2). split; [by eapply extends_trans|]. by rewrite tags_app, Hn.
Qed.

(** Constant tags. *)
Ltac tag := unfold tag_ok; vm_compute; split; [split; [reflexivity|reflexivity]|discriminate].

Lemma slice_u16 v : slice (header_store_u16_le v) 0 2 = header_store_u16_le v.
Proof. done. Qed.
Lemma slice_u32 v : slice (header_store_u32_le v) 0 4 = header_store_u32_le v.
Proof. done. Qed.
Lemma slice_u64 v : slice (header_store_u64_le v) 0 8 = header_store_u64_le v.
Proof. done. Qed.

Lemma blit_inv l off d l' : blit l off d = Ok l' -> 0 <= off /\ off + zlen d <= zlen l /\ l' = put l off d.
Proof. unfold blit, put. case_if; [|done]. bools. by intros [= <-]. Qed.

(** Magic and size. *)
Lemma start_built hs size h h' :
  0 <= hs -> header_append_u32 (replicate (Z.to_nat hs) 0xFF, 0) WOLFBOOT_MAGIC = inl h ->
  header_append_u32 h size = inl h' -> built hs size [] h' /\ snd h' = 8.
Proof.
  intros Hhs. unfold header_append_u32 at 1. set (b0 := replicate (Z.to_nat hs) 0xFF).
  assert (zlen b0 = hs) as L0 by (unfold b0, zlen; rewrite length_replicate; lia).
  assert (zlen (header_store_u32_le WOLFBOOT_MAGIC) = 4 /\ zlen (header_store_u32_le size) = 4) as [Z1 Z2] by done.
  destruct (blit b0 0 _) as [b1| |] eqn:E1; cbn [chk tbind]; [|done..]. intros [= <-].
  apply blit_inv in E1 as (_ & H1 & ->). unfold header_append_u32.
  destruct (blit _ (0 + 4) _) as [b2| |] eqn:E2; cbn [chk tbind]; [|done..]. intros [= <-].
  apply blit_inv in E2 as (_ & H2 & ->). rewrite zlen_put in H2 by lia. split; [|done].
  assert (forall i, 0 <= i < hs -> at_ b0 i = HDR_PADDING) as Hff.
  { intros i Hi. unfold b0, at_. by rewrite lookup_replicate_2 by lia. }
  split; cbn [fst snd]; rewrite ?zlen_put; rewrite ?zlen_put; try lia.
  - intros i Hi. rewrite !at_put by (rewrite ?zlen_put; lia). rewrite Z1. repeat case_if; bools; try lia.
    rewrite <- store_u32. f_equal. lia.
  - intros i Hi. rewrite at_put by (rewrite ?zlen_put; lia). rewrite Z2. case_if; bools; [|lia].
    rewrite <- store_u32. f_equal. lia.
  - exists 8. split_and!; try lia; [constructor|]. intros i Hi. rewrite !at_put by (rewrite ?zlen_put; lia).
    rewrite Z1, Z2. repeat case_if; bools; try lia. apply Hff. lia.
Qed.
