(* ===== verification/SignHeader.v ===== *)
(** * SignHeader: the fields of a signed image

    What each part of [make_header_ex] adds to the header, and the whole header
    of an image that the tool returns: its fields in order, with the digest over
    everything in front of it. *)

From Stdlib Require Import ZArith Lia.
From stdpp Require Import prelude.
From S2P Require Import Prelude Flash Trailer Image ImageSpec DeltaUpdate Stream Sign SignSpec.

Local Open Scope Z_scope.

Section SignHeader.
Context {T : tool_hash} {W : sign_api} {E : stream_api}.

(** ** The fields of each part *)

Definition version_of (c : cmd_options) : Z := fst (fst (strtoul 10 (fw_version c))).

Definition type_of (c : cmd_options) (is_diff : bool) : Z :=
  let image_type := Z.lor (Z.land (u16 (sign c)) HDR_IMG_TYPE_AUTH_MASK) (partition_id c) in
  if is_diff then Z.lor image_type HDR_IMG_TYPE_DIFF else image_type.

Definition start_fields (c : cmd_options) (is_diff : bool) (ctime : Z) : list (Z * list Z) :=
  [(HDR_VERSION, header_store_u32_le (version_of c))] ++
  (if negb (no_ts c) then [(HDR_TIMESTAMP, header_store_u64_le ctime)] else []) ++
  [(HDR_IMG_TYPE, header_store_u16_le (type_of c is_diff))].

Definition delta_fields (c : cmd_options) (d : delta_info) : list (Z * list Z) :=
  [(HDR_IMG_DELTA_BASE, header_store_u32_le (delta_base_version d));
   (HDR_IMG_DELTA_SIZE, header_store_u32_le (patch_len d));
   (HDR_IMG_DELTA_INVERSE, header_store_u32_le (patch_inv_off d));
   (HDR_IMG_DELTA_INVERSE_SIZE, header_store_u32_le (patch_inv_len d))] ++
  match base_hash d with
  | Some bh => if negb (no_base_sha c) && negb (header_digest_size (hash_algo c) =? 0)
               then [(HDR_IMG_DELTA_BASE_HASH, slice bh 0 (header_digest_size (hash_algo c)))] else []
  | None => []
  end.

Definition tlv_data (t : cmd_tlv) : list Z :=
  slice (match tlv_buffer t with None => header_store_u64_le (tlv_val t) | Some b => b end) 0 (tlv_len t).
Definition custom_fields (tlvs : list cmd_tlv) : list (Z * list Z) := (fun t => (tlv_tag t, tlv_data t)) <$> tlvs.

Definition dts_fields (c : cmd_options) : list (Z * list Z) :=
  match dts_file c with
  | None => []
  | Some f => match dts_hash_file f (hash_algo c) with
              | Ok (Some digest) => [(HDR_DEVICE_TREE_DIGEST, slice digest 0 (u16 (zlen digest)))]
              | _ => []
              end
  end.

Definition chain_fields (c : cmd_options) : list (Z * list Z) :=
  match cert_chain_file c with Some (Some chain) => [(HDR_CERT_CHAIN, chain)] | _ => [] end.

Definition key_digest (key : list Z) : list Z :=
  slice (hash_final (hash_update (hash_api := tool_sha256) hash_init key)) 0 32.

(** With SHA-256. *)
Definition key_fields (c : cmd_options) (pubkey secondary_key : list Z) : list (Z * list Z) :=
  [(HDR_PUBKEY, key_digest pubkey)] ++
  (if hybrid c && (0 <? zlen secondary_key)
   then [(HDR_SECONDARY_CIPHER, header_store_u16_le (u16 (secondary_sign c))); (HDR_SECONDARY_PUBKEY, key_digest secondary_key)]
   else []).

(** Custom fields the bootloader can skip: the tags the tool accepts. *)
Definition tlv_ok (t : cmd_tlv) : Prop :=
  0x30 <= tlv_tag t < 0xFF00 /\ tlv_tag t mod 256 <> HDR_PADDING /\ 0 <= tlv_len t <= MAX_TLV_LEN.

Lemma tlv_tag_ok t : tlv_ok t -> tag_ok (tlv_tag t).
Proof. intros (H1 & H2 & _). split; [lia|done]. Qed.

Lemma start_post c is_diff size ctime :
  0 <= header_sz c ->
  tpost (start_header c is_diff size ctime) (fun h => exists fs,
    built (header_sz c) size fs h /\ tags fs = start_fields c is_diff ctime /\ 0 <= version_of c < 2 ^ 32).
Proof.
  intros Hhs. unfold start_header. set (hs := header_sz c) in *.
  eapply (tpost_bind _ _ (fun h => header_append_u32 (replicate (Z.to_nat hs) 0xFF, 0) WOLFBOOT_MAGIC = inl h)); [by intros a Ha|].
  intros h0 H0. eapply (tpost_bind _ _ (fun h => header_append_u32 h0 size = inl h)); [by intros a Ha|].
  intros h1 H1. destruct (start_built hs size h0 h1 Hhs H0 H1) as [Hb S1].
  destruct (strtoul 10 (fw_version c)) as [[v er] rest] eqn:Ev. destruct (er || _) eqn:Er; [apply tpost_fail|]. bools.
  assert (version_of c = v) as Hv by (unfold version_of; by rewrite Ev).
  assert (0 <= v) as Hv0 by (rewrite <- Hv; by apply strtoul_range).
  unfold header_append_tag_u32, header_append_tag_u64, header_append_tag_u16.
  eapply tpost_bind; [apply (append_grows hs size [] h1 HDR_VERSION 4); [done|tag|lia|by rewrite S1]|].
  intros h2 ((n2 & [Hb2 K2] & T2) & S2 & _). rewrite slice_u32 in T2. cbn [app] in Hb2.
  assert (snd (align_8 h2) = 20) as S3 by (cbn [align_8 snd]; rewrite S2, S1; done).
  destruct (grows_align8 hs size n2 [] h2 h2 (grows_nil _ _ _ _ Hb2)) as (n3 & [Hb3 K3] & T3).
  eapply (tpost_bind _ _ (fun h => grows hs size (n2 ++ n3) (if negb (no_ts c) then [(HDR_TIMESTAMP, header_store_u64_le ctime)] else []) (align_8 h2) h /\
    snd h mod 2 = 0)).
  - destruct (negb (no_ts c)).
    + eapply tpost_mono; [apply append_grows; [done|tag|lia|by rewrite S3]|].
      intros h4 (Hg & S4 & _). rewrite slice_u64 in Hg. split; [done|]. by rewrite S4, S3.
    + apply tpost_ret. split; [by apply grows_nil|by rewrite S3].
  - intros h4 ((n4 & [Hb4 K4] & T4) & S4).
    eapply tpost_mono; [apply append_grows; [exact Hb4|tag|lia|done]|]. intros h5 ((n5 & [Hb5 K5] & T5) & _ & _).
    rewrite slice_u16 in T5. exists (((n2 ++ n3) ++ n4) ++ n5). split; [done|]. split; [|lia].
    rewrite !tags_app, T2, T3, T4, T5, app_nil_r. unfold start_fields, type_of. rewrite Hv, app_assoc. done.
Qed.

(** A word at an even place, then the rest. *)
Lemma append32_bind hs size fs h0 l h t v (k : hdr_state -> tool hdr_state) Q :
  grows hs size fs l h0 h -> tag_ok t -> snd h mod 2 = 0 ->
  (forall h', grows hs size fs (l ++ [(t, header_store_u32_le v)]) h0 h' -> snd h' mod 2 = 0 -> tpost (k h') Q) ->
  tpost (tbind (header_append_tag_u32 hs h t v) k) Q.
Proof.
  intros (n & Hx & <-) Ht He Hk. eapply tpost_bind; [apply (append_grows hs size (fs ++ n)); [apply Hx|done|lia|done]|].
  intros h' ((n' & Hx' & Hn') & S' & _). rewrite slice_u32 in Hn'. apply Hk; [|rewrite S'; dlia].
  exists (n ++ n'). split; [by eapply extends_trans|]. by rewrite tags_app, Hn'.
Qed.

Lemma delta_post c d size fs h :
  built (header_sz c) size fs h ->
  tpost (delta_header c d h) (grows (header_sz c) size fs (delta_fields c d) h).
Proof.
  intros Hb. unfold delta_header. set (hs := header_sz c) in *.
  eapply append32_bind; [by apply grows_align4, grows_nil|tag|apply even_align4|]. intros h1 G1 E1.
  eapply append32_bind; [exact G1|tag|done|]. intros h2 G2 _.
  eapply append32_bind; [apply grows_align4, G2|tag|apply even_align4|]. intros h3 G3 E3.
  eapply append32_bind; [exact G3|tag|done|]. intros h4 G4 _. cbn [app] in G4.
  assert (header_digest_size (hash_algo c) = 0 \/ 32 <= header_digest_size (hash_algo c) <= 48) as Hd
    by (unfold header_digest_size; repeat case_if; lia).
  unfold delta_fields. destruct (no_base_sha c); cbn [negb andb].
  { destruct (base_hash d); apply tpost_ret; by rewrite app_nil_r. }
  destruct (base_hash d) as [bh|]; [|apply tpost_fail].
  destruct (Z.eqb_spec (header_digest_size (hash_algo c)) 0) as [E0|E0]; cbn [negb].
  { apply tpost_ret. rewrite app_nil_r. by apply grows_align8. }
  destruct (Z.eqb_spec (zlen bh) (header_digest_size (hash_algo c))) as [El|El]; cbn [negb]; [|apply tpost_fail].
  intros h5 H5. eapply grows_app; [exact G4|]. intros fs1 Hb1.
  destruct (append8_grows hs size fs1 h4 HDR_IMG_DELTA_BASE_HASH (header_digest_size (hash_algo c)) bh Hb1 ltac:(tag) ltac:(lia) h5 H5) as (Hg & _ & _).
  done.
Qed.

Lemma custom_post hs size tlvs : forall fs h,
  Forall tlv_ok tlvs -> built hs size fs h ->
  tpost (custom_header hs tlvs h) (grows hs size fs (custom_fields tlvs) h).
Proof.
  induction tlvs as [|t tlvs IH]; intros fs h Hf Hb; cbn [custom_header custom_fields fmap list_fmap]; [by apply tpost_ret, grows_nil|].
  apply Forall_cons in Hf as [Ht Hf]. pose proof Ht as (_ & _ & Hl). unfold MAX_TLV_LEN in Hl.
  change ((tlv_tag t, tlv_data t) :: _) with ([(tlv_tag t, tlv_data t)] ++ custom_fields tlvs).
  eapply grows_bind; [|intros; by apply IH].
  eapply tpost_mono; [apply append8_grows; [done|by apply tlv_tag_ok|lia]|]. by intros h' (Hg & _).
Qed.

Lemma dts_post c size fs h :
  built (header_sz c) size fs h -> tpost (dts_header c h) (grows (header_sz c) size fs (dts_fields c) h).
Proof.
  intros Hb. unfold dts_header, dts_fields. destruct (dts_file c) as [f|]; [|by apply tpost_ret, grows_nil].
  destruct (dts_hash_file f (hash_algo c)) as [[digest|]| |]; cbn [chk tbind]; try apply tpost_fail.
  eapply tpost_mono; [apply append8_grows; [done|tag|apply u16_range]|]. by intros h' (Hg & _).
Qed.

Lemma chain_post c size fs h :
  built (header_sz c) size fs h -> tpost (chain_header c h) (grows (header_sz c) size fs (chain_fields c) h).
Proof.
  intros Hb. unfold chain_header, chain_fields. destruct (cert_chain_file c) as [[chain|]|];
    [|apply tpost_fail|by apply tpost_ret, grows_nil].
  case_if; [apply tpost_fail|]. case_if; [apply tpost_fail|]. case_if; [apply tpost_fail|]. unfold MAX_TLV_LEN in *.
  pose proof (zlen_nonneg chain). eapply tpost_mono; [apply append8_grows; [done|tag|lia]|].
  intros h' (Hg & _). by rewrite slice_full in Hg.
Qed.

Lemma chain_small c h h' : chain_header c h = inl h' ->
  match cert_chain_file c with Some (Some chain) => zlen chain <= MAX_TLV_LEN | _ => True end.
Proof.
  unfold chain_header. destruct (cert_chain_file c) as [[chain|]|]; [|done..]. case_if; [done|]. case_if; [done|lia].
Qed.

Lemma key_post c pubkey secondary_key size fs h :
  built (header_sz c) size fs h -> snd h mod 2 = 0 ->
  tpost (sha256_header c pubkey secondary_key h) (fun h' =>
    grows (header_sz c) size fs (key_fields c pubkey secondary_key) h h' /\ snd h' mod 2 = 0).
Proof.
  intros Hb He. unfold sha256_header, key_fields, key_digest. set (hs := header_sz c) in *.
  eapply tpost_bind; [apply append_grows; [done|tag|lia|done]|]. intros h1 (G1 & _ & _).
  eapply (tpost_bind _ _ (grows hs size fs _ h)).
  2:{ intros h2 G2. apply tpost_ret. split; [by apply grows_align8, grows_align8|apply even_align8]. }
  destruct (hybrid c && _); [|apply tpost_ret; rewrite app_nil_r; by apply grows_align8].
  intros h2 H2. eapply grows_app; [exact G1|]. intros fs1 Hb1. revert h2 H2.
  change (tpost (let? h2 := header_append_tag_u16 hs (align_8 h1) HDR_SECONDARY_CIPHER (u16 (secondary_sign c)) in
     header_append_tag hs (align_8 h2) HDR_SECONDARY_PUBKEY 32
       (hash_final (hash_update (hash_api := tool_sha256) hash_init secondary_key)))
    (grows hs size fs1 ([(HDR_SECONDARY_CIPHER, header_store_u16_le (u16 (secondary_sign c)))] ++
       [(HDR_SECONDARY_PUBKEY, slice (hash_final (hash_update (hash_api := tool_sha256) hash_init secondary_key)) 0 32)]) h1)).
  eapply grows_bind.
  - eapply tpost_mono; [apply append8_grows; [done|tag|lia]|]. intros h' (Hg & _). by rewrite slice_u16 in Hg.
  - intros fs2 h2 Hb2. eapply tpost_mono; [apply append8_grows; [done|tag|lia]|]. by intros h' (Hg & _).
Qed.

(** ** Signatures *)

(** The value of the signature field. *)
Definition signature_of (r : tool (list Z * Z)) : list Z :=
  match r with inl (s, sz) => slice s 0 sz | inr _ => [] end.

(** The fields behind the digest. *)
Definition sign_fields (c : cmd_options) (digest : list Z) (uninit : list Z) : list (Z * list Z) :=
  if negb (sign c =? NO_SIGN) then
    [(HDR_SIGNATURE, signature_of (main_signature c digest))] ++
    (if hybrid c then [(HDR_SECONDARY_SIGNATURE, signature_of (secondary_signature c digest))] else []) ++
    (if policy_sign c then
       match policy_signature c (signature_sz c) uninit with
       | inl (policy, sz, _) => [(HDR_POLICY_SIGNATURE, slice policy 0 (u16 (sz + 4)))]
       | inr _ => []
       end
     else [])
  else [].

Lemma sign_digest_size w sgn algo sig sz digest k : 0 <= sz ->
  tpost (chk (sign_digest w sgn algo sig sz digest k)) (fun '(ret, sig', sz') => 0 <= sz').
Proof.
  intros Hsz. apply tpost_chk. intros [[ret sig'] sz']. unfold sign_digest, store_sig, store_rsa, obind.
  repeat case_match; intros [= <- <- <-]; bools; try apply zlen_nonneg; try done; lia.
Qed.

Lemma main_signature_size c digest : 0 <= signature_sz c ->
  tpost (main_signature c digest) (fun '(_, sz) => 0 <= sz).
Proof.
  intros Hsz. unfold main_signature. destruct (negb (manual_sign c)).
  - eapply tpost_bind; [by apply sign_digest_size|]. intros [[ret sig] sz] H. case_if; [apply tpost_fail|by apply tpost_ret].
  - destruct (signature_file c) as [f|]; [|apply tpost_fail]. case_if; [apply tpost_fail|].
    eapply (tpost_bind _ _ (fun _ => True)); [done|]. intros sig _. apply tpost_ret. lia.
Qed.

Lemma secondary_signature_size c digest : 0 <= secondary_signature_sz c ->
  tpost (secondary_signature c digest) (fun '(_, sz) => 0 <= sz).
Proof.
  intros Hsz. unfold secondary_signature. destruct (hybrid c); [|by apply tpost_ret].
  eapply tpost_bind; [by apply sign_digest_size|]. intros [[ret sig] sz] H. case_if; [apply tpost_fail|by apply tpost_ret].
Qed.

Lemma sign_post c digest uninit size fs h :
  built (header_sz c) size fs h -> 0 <= signature_sz c -> 0 <= secondary_signature_sz c ->
  tpost (sign_header c digest uninit h) (fun '(h', _, c') =>
    grows (header_sz c) size fs (sign_fields c digest uninit) h h' /\
    (exists s1 s2 s3, c' = set_sizes (header_sz c) s1 s2 s3 c) /\
    (sign c <> NO_SIGN -> exists sig sz, main_signature c digest = inl (sig, sz))).
Proof.
  intros Hb Hs1 Hs2. unfold sign_header, sign_fields. set (hs := header_sz c) in *.
  destruct (Z.eqb_spec (sign c) NO_SIGN) as [En|En]; cbn [negb].
  { apply tpost_ret. split; [by apply grows_nil|]. split; [|done].
    by exists (signature_sz c), (secondary_signature_sz c), (policy_sz c); destruct c. }
  destruct (sha_only c); [apply tpost_fail|].
  pose proof (main_signature_size c digest Hs1) as P1. destruct (main_signature c digest) as [[sig sz]|]; [|apply tpost_fail].
  pose proof (secondary_signature_size c digest Hs2) as P2.
  destruct (secondary_signature c digest) as [[sig2 sz2]|]; [|apply tpost_fail].
  specialize (P1 _ eq_refl). specialize (P2 _ eq_refl). cbn beta iota in P1, P2.
  destruct (policy_signature c (signature_sz c) uninit) as [[[pol psz] saved]|]; cbn [tbind]; [|apply tpost_fail].
  case_if; [apply tpost_fail|]. destruct (hybrid c && _) eqn:Eh; [apply tpost_fail|].
  cbn [signature_of]. set (k := fun h : hdr_state => ret_ok (h, saved, set_sizes hs sz sz2 psz c)).
  assert (forall (x : tool hdr_state), tpost x (grows hs size fs ([(HDR_SIGNATURE, slice sig 0 sz)] ++
      (if hybrid c then [(HDR_SECONDARY_SIGNATURE, slice sig2 0 sz2)] else []) ++
      (if policy_sign c then [(HDR_POLICY_SIGNATURE, slice pol 0 (u16 (psz + 4)))] else [])) h) ->
    tpost (tbind x k) (fun '(h', _, c') => grows hs size fs ([(HDR_SIGNATURE, slice sig 0 sz)] ++
      (if hybrid c then [(HDR_SECONDARY_SIGNATURE, slice sig2 0 sz2)] else []) ++
      (if policy_sign c then [(HDR_POLICY_SIGNATURE, slice pol 0 (u16 (psz + 4)))] else [])) h h' /\
      (exists s1 s2 s3, c' = set_sizes hs s1 s2 s3 c) /\
      (sign c <> NO_SIGN -> exists sig' sz', (inl (sig, sz) : tool (list Z * Z)) = inl (sig', sz')))) as Hk.
  { intros x Hx. eapply tpost_bind; [exact Hx|]. intros h' Hg. apply tpost_ret. split; [done|].
    split; [by exists sz, sz2, psz|]. intros _. by exists sig, sz. }
  assert (forall (x : tool hdr_state) (f g : hdr_state -> tool hdr_state),
    tbind x (fun h => tbind (f h) (fun h => tbind (g h) k)) = tbind (tbind x (fun h => tbind (f h) g)) k) as Hassoc.
  { intros [a|s] f g; [|done]. cbn [tbind]. by destruct (f a). }
  rewrite Hassoc. apply Hk. eapply grows_bind.
  - eapply tpost_mono; [apply append8_grows; [done|tag|lia]|]. by intros h' (Hg & _).
  - intros fs1 h1 Hb1. eapply grows_bind.
    + destruct (hybrid c); [|by apply tpost_ret, grows_nil]. cbn [andb] in Eh. bools.
      eapply tpost_mono; [apply append8_grows; [done|tag|lia]|]. by intros h' (Hg & _).
    + intros fs2 h2 Hb2. destruct (policy_sign c); [|by apply tpost_ret, grows_nil].
      eapply tpost_mono; [apply append8_grows; [done|tag|apply u16_range]|]. by intros h' (Hg & _).
Qed.

(** ** The digest and the image *)

Lemma hash_pieces_spec (H : hash_api) (HL : hash_laws H) ctx contents size chunk :
  0 < chunk -> 0 <= size <= zlen contents ->
  hash_pieces H ctx contents size chunk = Ok (hash_update ctx (slice contents 0 size)).
Proof.
  intros Hc Hs. enough (wp (hash_pieces H ctx contents size chunk) (fun r => r = hash_update ctx (slice contents 0 size))) as Hw
    by (apply wp_inv in Hw as (r & -> & ->); done).
  unfold hash_pieces. apply (wp_loop (fun '(pos, x) => 0 <= pos <= size /\ x = hash_update ctx (slice contents 0 pos))
    (fun '(pos, _) => Z.to_nat (size - pos))).
  - intros [pos x] (Hp & ->). case_if; [apply wp_Ok; f_equal; f_equal; lia|]. cbn zeta.
    set (n := if chunk <? size - pos then chunk else size - pos). assert (0 < n <= size - pos) as Hn by (unfold n; case_if; lia).
    apply wp_Ok. split; [|lia]. split; [lia|]. rewrite hash_update_app. f_equal. symmetry. apply slice_split; lia.
  - split; [lia|]. cbn. by rewrite hash_update_nil.
  - cbn. lia.
Qed.

Lemma copy_image_spec image : copy_image image (zlen image) = Ok image.
Proof.
  enough (wp (copy_image image (zlen image)) (fun r => r = image)) as Hw by (apply wp_inv in Hw as (r & -> & ->); done).
  unfold copy_image. apply (wp_loop (fun '(pos, rest, out) => image = out ++ rest /\ pos = zlen out)
    (fun '(_, rest, _) => S (length rest))).
  - intros [[pos rest] out] (He & ->). assert (zlen image = zlen out + zlen rest) as Hl by (by rewrite He, zlen_app).
    case_if.
    { apply wp_Ok. assert (rest = []) as -> by (destruct rest; [done|unfold zlen in *; cbn in *; lia]).
      by rewrite app_nil_r in He. }
    cbn zeta. set (n := if 4096 <? zlen image then 4096 else zlen image).
    assert (0 < n) as Hn by (unfold n; pose proof (zlen_nonneg out); case_if; lia).
    assert (0 < zlen rest) as Hr by lia. case_if.
    { exfalso. unfold zlen in *. rewrite length_take in *. lia. }
    apply wp_Ok. split; [|rewrite length_drop; unfold zlen in *; lia]. split; [|by rewrite zlen_app].
    rewrite <- app_assoc, take_drop. done.
  - by split.
  - lia.
Qed.

Lemma keeps_slice h h' n : keeps h h' -> snd h <= zlen (fst h) -> zlen (fst h') = zlen (fst h) -> 0 <= n <= snd h ->
  slice (fst h') 0 n = slice (fst h) 0 n.
Proof.
  intros [_ K] L L' Hn. apply buf_ext; rewrite !slice_length by lia; [done|]. intros i Hi.
  rewrite !at_slice by lia. apply K. lia.
Qed.

Lemma hash_post (HL : hash_laws tool_sha256) c pubkey secondary_key image fs h :
  hash_algo c = HDR_SHA256 -> built (header_sz c) (zlen image) fs h ->
  tpost (hash_header c pubkey secondary_key image (zlen image) h) (fun '(h', digest, dsz) => dsz = 32 /\
    grows (header_sz c) (zlen image) fs (key_fields c pubkey secondary_key) h h' /\ snd h' mod 2 = 0 /\
    0 <= snd h' <= zlen (fst h') /\
    digest = hash_final (hash_update (hash_api := tool_sha256) hash_init (slice (fst h') 0 (snd h') ++ image))).
Proof.
  intros Ha Hb. unfold hash_header. rewrite Ha. cbn [Z.eqb HDR_SHA256 Pos.eqb].
  destruct (grows_align8 _ _ _ _ _ _ (grows_nil _ _ _ _ Hb)) as (n & [Hb1 K1] & Tn).
  eapply tpost_bind; [by apply key_post, even_align8|]. intros h2 ((n2 & Hx2 & T2) & E2).
  unfold digest_of. eapply tpost_bind; [|intros dg Hdg; apply tpost_ret; split; [done|]; exact Hdg].
  eapply (tpost_bind _ _ (fun hd => 0 <= snd h2 <= zlen (fst h2) /\ hd = slice (fst h2) 0 (snd h2))).
  { apply tpost_chk. intros hd. unfold rd_bytes. case_if; [|done]. bools. intros [= <-]. split; [lia|done]. }
  intros hd (Hle & ->). rewrite hash_pieces_spec by (try done; pose proof (zlen_nonneg image); lia). cbn [chk tbind].
  apply tpost_ret. rewrite slice_full, hash_update_app. split; [|done].
  exists (n ++ n2). split; [|by rewrite tags_app, Tn, T2]. eapply extends_trans; [|exact Hx2]. by split.
Qed.

(** The header of an image the tool returned, with SHA-256.  [fs1] are the fields
    in front of the digest, which is at [off]. *)
Record signed_header (c : cmd_options) (d : option delta_info) (pubkey secondary_key image : list Z)
    (ctime : Z) (uninit header : list Z) (off : Z) (fs1 sigs : list (Z * Z * list Z)) (digest : list Z) : Prop := SignedHeader {
  sh_built : built (header_sz c) (zlen image) (fs1 ++ (off, HDR_SHA256, digest) :: sigs) (header, header_sz c);
  sh_version : 0 <= version_of c < 2 ^ 32;
  sh_fields : tags fs1 = start_fields c (bool_decide (is_Some d)) ctime ++
    (match d with Some d => delta_fields c d | None => [] end) ++ custom_fields (custom_tlv c) ++
    dts_fields c ++ chain_fields c ++ key_fields c pubkey secondary_key;
  sh_sigs : tags sigs = sign_fields c digest uninit;
  sh_chain : match cert_chain_file c with Some (Some chain) => zlen chain <= MAX_TLV_LEN | _ => True end;
  sh_signed : sign c <> NO_SIGN -> exists sig sz, main_signature c digest = inl (sig, sz);
  sh_off : 0 <= off <= header_sz c;
  sh_digest : digest = hash_final (hash_update (hash_api := tool_sha256) hash_init (slice header 0 off ++ image));
}.

Lemma fit_header_post c is_diff k : 0 <= header_sz c ->
  tpost (fit_header c is_diff k) (fun c' => exists hs, 0 <= hs /\ c' = set_header_sz hs c).
Proof.
  intros Hc. assert (exists hs, 0 <= hs /\ c = set_header_sz hs c) as H0 by (exists (header_sz c); split; [done|by destruct c]).
  unfold fit_header. case_if; [|by apply tpost_ret].
  eapply (tpost_bind _ _ (fun _ => True)); [done|]. intros sz _. case_if; [|by apply tpost_ret].
  destruct (grow 33 256 _) as [n|] eqn:Eg; [|apply tpost_fail]. apply tpost_ret. exists n. split; [|done].
  enough (forall f x r n, 0 <= x -> grow f x r = Some n -> 0 <= n) as Hg by (eapply Hg; [|exact Eg]; done).
  clear. induction f as [|f IH]; intros x r n Hx; cbn [grow]; [done|]. case_if; [by intros [= <-]|].
  case_if; [done|]. apply IH. lia.
Qed.

Lemma tbind_inv {A B} (x : tool A) (k : A -> tool B) b : tbind x k = inl b -> exists a, x = inl a /\ k a = inl b.
Proof. destruct x as [a|]; [|done]. cbn. eauto. Qed.

Lemma make_header_fields (HL : hash_laws tool_sha256) c e d pubkey image ctime secondary_key uninit out c' :
  make_header_ex c e d pubkey (Some image) ctime secondary_key uninit = inl (out, c') ->
  hash_algo c = HDR_SHA256 -> zlen image < 2 ^ 32 -> Forall tlv_ok (custom_tlv c) ->
  0 <= header_sz c -> 0 <= signature_sz c -> 0 <= secondary_signature_sz c ->
  exists header off fs1 sigs digest,
    signed_header (set_header_sz (header_sz c') c) d pubkey secondary_key image ctime uninit header off fs1 sigs digest /\
    signed_image out = header ++ (if header_only c then [] else image).
Proof.
  intros Hm Ha Hsz Ht Hhs Hs1 Hs2. unfold make_header_ex in Hm.
  apply tbind_inv in Hm as (c1 & Hfit & Hm). apply (fit_header_post c _ _ Hhs) in Hfit as (hs & Hhs1 & ->).
  pose proof (zlen_nonneg image). rewrite u32_small in Hm by lia. set (c1 := set_header_sz hs c) in *.
  assert (header_sz c1 = hs) as Ehs by done.
  apply tbind_inv in Hm as (h1 & H1 & Hm). apply (start_post c1 _ _ _ Hhs1) in H1 as (f1 & B1 & T1 & Hver).
  apply tbind_inv in Hm as (h2 & H2 & Hm).
  assert (grows hs (zlen image) f1 (match d with Some d => delta_fields c1 d | None => [] end) h1 h2) as (f2 & [B2 K2] & T2).
  { destruct d as [d|]; [by apply (delta_post c1 d (zlen image) f1 h1 B1) in H2|]. injection H2 as <-. by apply grows_nil. }
  apply tbind_inv in Hm as (h3 & H3 & Hm).
  apply (custom_post _ _ _ _ _ Ht B2) in H3 as (f3 & [B3 K3] & T3).
  apply tbind_inv in Hm as (h4 & H4 & Hm). apply (dts_post c1 _ _ _ B3) in H4 as (f4 & [B4 K4] & T4).
  apply tbind_inv in Hm as (h5 & H5 & Hm).
  pose proof (chain_small c1 h4 h5 H5) as Hch. apply (chain_post c1 _ _ _ B4) in H5 as (f5 & [B5 K5] & T5).
  apply tbind_inv in Hm as ([[h6 digest] dsz] & H6 & Hm).
  apply (hash_post HL c1 pubkey secondary_key image _ h5 Ha B5) in H6 as (-> & (f6 & [B6 K6] & T6) & E6 & L6 & Hdig).
  apply tbind_inv in Hm as (h7 & H7 & Hm). assert (hash_algo c1 = HDR_SHA256) as Ha1 by done. rewrite Ha1 in H7.
  destruct (append_post _ _ _ _ HDR_SHA256 32 digest B6 ltac:(tag) ltac:(lia) E6 h7 H7) as (Hd32 & [B7 K7] & S7).
  assert (slice digest 0 32 = digest) as Hd.
  { rewrite Hdig. pose proof (hash_final_len (hash_update (hash_api := tool_sha256) hash_init (slice (fst h6) 0 (snd h6) ++ image))) as Hfl.
    unfold WOLFBOOT_SHA_DIGEST_SIZE in Hfl. rewrite <- Hfl. apply slice_full. }
  rewrite Hd in B7. apply tbind_inv in Hm as ([[h8 saved] c8] & H8 & Hm).
  apply (sign_post c1 _ _ _ _ _ B7 Hs1 Hs2) in H8 as ((f8 & [B8 K8] & T8) & (s1 & s2 & s3 & ->) & Hsg).
  apply tbind_inv in Hm as (header & H9 & Hm). destruct (blit (fst h8) _ _) as [b9| |] eqn:E9; [|done..].
  injection H9 as ->. apply blit_inv in E9 as (I1 & I2 & E9). rewrite (bu_len _ _ _ _ B8) in I2. rewrite Ehs in *.
  assert (header = fst h8) as ->.
  { rewrite E9. destruct B8 as [L8 _ _ (q & Hq & Hqi & _ & Hr)]. unfold zlen in I2. rewrite length_replicate in I2.
    apply buf_ext; rewrite zlen_put; unfold zlen; rewrite ?length_replicate; try (unfold zlen in L8; lia).
    intros i Hi. rewrite at_put by (unfold zlen in *; rewrite ?length_replicate; lia). case_if; [|done]. bools.
    rewrite Hr by (unfold zlen in *; lia). unfold at_. unfold zlen in *. rewrite length_replicate in *.
    rewrite lookup_replicate_2 by lia. done. }
  clear E9. apply tbind_inv in Hm as ([] & _ & Hm). apply tbind_inv in Hm as (body & Hbody & Hm).
  apply tbind_inv in Hm as (enc & _ & [= <- <-]). cbn [signed_image header_sz set_sizes].
  exists (fst h8), (snd h6), (f1 ++ f2 ++ f3 ++ f4 ++ f5 ++ f6), f8, digest. split.
  - split; try done.
    + destruct B8 as [L8 M8 S8 (q & Hq & Hqi & Hc & Hr)]. rewrite <- !app_assoc in Hc. cbn [app] in Hc.
      split; try done. exists q. rewrite <- !app_assoc. split_and!; try done; cbn; lia.
    + rewrite !tags_app, T1, T2, T3, T4, T5, T6. done.
    + pose proof (bu_len _ _ _ _ B6). cbn; lia.
    + rewrite Hdig at 1. do 3 f_equal. symmetry.
      pose proof (bu_len _ _ _ _ B6). pose proof (bu_len _ _ _ _ B8). apply keeps_slice; [by etrans|lia|lia|lia].
  - f_equal. unfold header_only, c1, set_header_sz, set_sizes in Hbody. fold (header_only c) in Hbody.
    destruct (header_only c); [by injection Hbody as <-|]. rewrite copy_image_spec in Hbody. by injection Hbody as <-.
Qed.

End SignHeader.
