(* ===== verification/SignBoot.v ===== *)
(** * SignBoot: what the signing tool writes, the bootloader accepts

    A signed image in flash: the search of the bootloader finds every field the
    tool wrote, the digest and the signature are those it expects, so the image
    is opened, its version and type are read back, and it is authentic. *)

From Stdlib Require Import ZArith Lia.
From stdpp Require Import prelude.
From S2P Require Import Prelude Flash Trailer Image ImageSpec DeltaUpdate Stream Sign SignSpec SignHeader.

Local Open Scope Z_scope.

(** [l] is in memory at [base]. *)
Definition loaded (m : mem) (base : Z) (l : list Z) : Prop := forall i, 0 <= i < zlen l -> m (base + i) = at_ l i.

Lemma loaded_mread m base l off n : loaded m base l -> 0 <= off -> 0 <= n -> off + n <= zlen l ->
  mread m (base + off) n = slice l off n.
Proof.
  intros Hl H0 H1 H2. apply buf_ext; rewrite mread_length, ?slice_length by lia; [done|]. intros i Hi.
  rewrite mread_at, at_slice by lia. rewrite <- Z.add_assoc. apply Hl. lia.
Qed.

Lemma loaded_app m base l1 l2 : loaded m base (l1 ++ l2) -> loaded m base l1 /\ loaded m (base + zlen l1) l2.
Proof.
  intros H. pose proof (zlen_nonneg l1). split; intros i Hi.
  - rewrite H by (rewrite zlen_app; pose proof (zlen_nonneg l2); lia). by apply at_app_l.
  - rewrite <- Z.add_assoc, H by (rewrite zlen_app; lia). rewrite at_app_r by lia. f_equal. lia.
Qed.

(** Header sizes for which the 16-bit bound of the search does not cut fields. *)
Definition header_size_ok (hs : Z) : Prop := 8 <= hs /\ (hs < 65544 \/ hs mod 65536 = 0).

Lemma field_limit hs n : header_size_ok hs -> n <= hs - 8 -> n <= MAX_TLV_LEN + 4 -> n <= u16 (hs - 8).
Proof.
  unfold header_size_ok, MAX_TLV_LEN. intros [H8 [Hs|Hs]] Hn Hm; [rewrite u16_small; lia|]. dlia.
Qed.

Section Find.
Context {c : config}.

(** The bytes of a field in memory. *)
Lemma field_in_memory m base hs b p t d :
  mem_ok m -> loaded m base b -> zlen b = hs -> hs = IMAGE_HEADER_SIZE -> header_size_ok hs -> base mod 2 = 0 ->
  8 <= p -> p + 4 + zlen d <= hs -> p mod 2 = 0 -> tag_ok t -> zlen d <= MAX_TLV_LEN ->
  (forall i, 0 <= i < 4 + zlen d -> at_ b (p + i) = at_ (field_bytes t d) i) ->
  is_field m (base + hs) (base + p) /\ tag_at m (base + p) = t /\ len_at m (base + p) = zlen d /\
  mread m (base + p + 4) (zlen d) = d.
Proof.
  intros Hok Hl Hb Hhs Hsz Hev Hp Hq Hpe [Ht Htp] Hd Hby. pose proof (zlen_nonneg d).
  assert (forall i, 0 <= i < 4 + zlen d -> m (base + p + i) = at_ (field_bytes t d) i) as Hm
    by (intros i Hi; rewrite <- Z.add_assoc, Hl by lia; by apply Hby).
  unfold field_bytes in Hm. rewrite !store_u16 in Hm. cbn [app] in Hm.
  pose proof (Hm 0 ltac:(lia)) as M0. rewrite Z.add_0_r in M0. cbn in M0.
  pose proof (Hm 1 ltac:(lia)) as M1. pose proof (Hm 2 ltac:(lia)) as M2. pose proof (Hm 3 ltac:(lia)) as M3.
  cbn in M1, M2, M3.
  assert (tag_at m (base + p) = t) as Htag
    by (unfold tag_at; rewrite u16_word, M0, M1 by apply Hok; apply u16_store; lia).
  assert (len_at m (base + p) = zlen d) as Hlen
    by (unfold len_at, MAX_TLV_LEN in *; rewrite u16_word, M2, M3 by apply Hok; apply u16_store; lia).
  split; [|split; [done|split; [done|]]].
  - unfold is_field. rewrite Htag, Hlen, M0. split_and!; try done; try lia.
    + change 1 with (Z.ones 1). rewrite Z.land_ones by lia. change (2 ^ 1) with 2. dlia.
    + rewrite <- Hhs. unfold IMAGE_HEADER_OFFSET. apply field_limit; unfold MAX_TLV_LEN in *; try done; lia.
  - apply buf_ext; rewrite mread_length by lia; [done|]. intros i Hi. rewrite mread_at by lia.
    rewrite <- Z.add_assoc, Hm by lia.
    change (?a :: ?b :: ?e :: ?f :: d) with ([a; b; e; f] ++ d). rewrite at_app_r; change (zlen [_; _; _; _]) with 4; [f_equal; lia|lia].
Qed.

Lemma chain_reach m base hs b :
  mem_ok m -> loaded m base b -> zlen b = hs -> hs = IMAGE_HEADER_SIZE -> header_size_ok hs -> base mod 2 = 0 ->
  forall p fs q, chain b p fs q -> 8 <= p -> q <= hs ->
  forall f1 off t d f2, fs = f1 ++ (off, t, d) :: f2 ->
  Forall (fun '(_, t', d') => t' <> t /\ zlen d' <= MAX_TLV_LEN) f1 -> zlen d <= MAX_TLV_LEN ->
  reach m (base + hs) t (base + p) (base + off) /\ p <= off /\ off + 4 + zlen d <= hs /\
  is_field m (base + hs) (base + off) /\ tag_at m (base + off) = t /\ len_at m (base + off) = zlen d /\
  mread m (base + off + 4) (zlen d) = d.
Proof.
  intros Hok Hl Hb Hhs Hsz Hev p fs q Hc. induction Hc as [p|p fs q Hp Hc IH|p t' d' fs q Hpe Ht Hd Hby Hc IH];
    intros H8 Hq f1 off t d f2 Hfs Hf1 Hd0.
  - by destruct f1.
  - pose proof (chain_le _ _ _ _ Hc) as Hle.
    destruct (IH ltac:(lia) Hq f1 off t d f2 Hfs Hf1 Hd0) as (R & Ho & Hrest). split; [|split; [lia|done]].
    apply reach_pad; [|by rewrite <- Z.add_assoc]. destruct Hrest as (Hend & _). pose proof (zlen_nonneg d).
    assert (m (base + p) = HDR_PADDING) as Hm by (rewrite Hl by lia; done).
    split; [lia|]. split; [|by left]. unfold tag_at. rewrite u16_word, Hm by apply Hok.
    pose proof (Hok (base + p + 1)). unfold HDR_PADDING, is_byte in *. lia.
  - pose proof (chain_le _ _ _ _ Hc) as Hle. destruct f1 as [|[[o1 t1] d1] f1].
    + injection Hfs as <- <- <- ->.
      destruct (field_in_memory m base hs b p t' d') as (F1 & F2 & F3 & F4); try done; [lia|].
      split; [constructor|]. split; [lia|]. split; [lia|]. done.
    + injection Hfs as <- <- <- ->. apply Forall_cons in Hf1 as [[Hne Hd1] Hf1].
      destruct (field_in_memory m base hs b p t' d') as (F1 & F2 & F3 & F4); try done; [lia|]. pose proof (zlen_nonneg d').
      destruct (IH ltac:(lia) Hq f1 off t d f2 eq_refl Hf1 Hd0) as (R & Ho & Hrest). split; [|split; [lia|done]].
      apply reach_field; [done|congruence|]. rewrite F3. by replace (base + p + (4 + zlen d')) with (base + (p + 4 + zlen d')) by lia.
Qed.

(** The search finds the first field of a tag. *)
Lemma find_field m base size h fs L1 t d L2 :
  mem_ok m -> base_ok base -> base mod 2 = 0 -> header_size_ok IMAGE_HEADER_SIZE ->
  built IMAGE_HEADER_SIZE size fs h -> loaded m base (fst h) -> tags fs = L1 ++ (t, d) :: L2 ->
  Forall (fun '(t', d') => t' <> t /\ zlen d' <= MAX_TLV_LEN) L1 -> zlen d <= MAX_TLV_LEN ->
  exists f1 off f2, fs = f1 ++ (off, t, d) :: f2 /\ tags f1 = L1 /\
    field m base t (zlen d) (base + off + 4) /\ mread m (base + off + 4) (zlen d) = d.
Proof.
  intros Hok Hbase Hev Hsz [Hlen _ _ (q & Hq & _ & Hc & _)] Hl Ht HL1 Hd.
  apply fmap_app_inv in Ht as (f1 & rest & HL & Hr & ->). destruct rest as [|[[off t'] d'] f2]; [done|].
  cbn [fmap list_fmap] in Hr. injection Hr as <- <- ->.
  destruct (chain_reach m base IMAGE_HEADER_SIZE (fst h) Hok Hl Hlen eq_refl Hsz Hev 8 _ q Hc ltac:(lia) ltac:(lia)
    f1 off t d f2 eq_refl) as (R & Ho & He & F1 & F2 & F3 & F4); [|done|].
  { subst L1. rewrite Forall_fmap in HL1. eapply Forall_impl; [exact HL1|]. by intros [[o t'] d']. }
  exists f1, off, f2. split; [done|]. split; [done|]. split; [|done].
  unfold field. apply find_header_found; [by apply base_haystack|]. exists (base + off).
  assert (header_end (base + IMAGE_HEADER_OFFSET) = base + IMAGE_HEADER_SIZE) as -> by (unfold header_end; lia).
  by split_and!.
Qed.

End Find.

(** ** Acceptance *)

Section Accept.
Context {c : config} {H : hash_api} {HL : hash_laws H} {K : keystore_api} {V : verify_api}.
Context (HB : forall k, bytes (hash_final k)).

(** An authentic image whose key can be used is accepted. *)
Lemma verify_authenticity_complete m img s sha_a sig_a hint_a type_a slot :
  mem_ok m -> base_ok (hdr img) -> 0 <= fw_size img < 2 ^ 31 -> sha_hash img = None ->
  intact_at m (hdr img) (fw_base img) (fw_size img) sha_a ->
  field m (hdr img) HDR_PUBKEY WOLFBOOT_SHA_DIGEST_SIZE hint_a ->
  0 <= slot < keystore_num_pubkeys -> key_sha256 slot = mread m hint_a WOLFBOOT_SHA_DIGEST_SIZE ->
  (forall j, 0 <= j < keystore_num_pubkeys -> key_sha256 j = key_sha256 slot -> j = slot) ->
  field m (hdr img) HDR_IMG_TYPE 2 type_a ->
  (let type := u16 (mle16 m type_a) in
   Z.land type HDR_IMG_TYPE_AUTH_MASK = HDR_IMG_TYPE_AUTH /\
   Z.land (Z.shiftl 1 (Z.land type HDR_IMG_TYPE_PART_MASK)) (keystore_get_mask slot) =
     Z.shiftl 1 (Z.land type HDR_IMG_TYPE_PART_MASK)) ->
  field m (hdr img) HDR_SIGNATURE ED25519_IMAGE_SIGNATURE_SIZE sig_a ->
  0 <= wc_ed25519_init_ex -> 0 <= wc_ed25519_import_public (keystore_get_buffer slot) ->
  wc_ed25519_verify_msg (mread m sig_a ED25519_IMAGE_SIGNATURE_SIZE)
    (mread m sha_a WOLFBOOT_SHA_DIGEST_SIZE) (keystore_get_buffer slot) = (0, 1) ->
  wolfBoot_verify_integrity m img = Ok (0, integrity_ok sha_a img) /\
  exists img', run (wolfBoot_verify_authenticity m img) s = (inl (0, img'), s) /\
    sha_ok img' = 1 /\ signature_ok img' = 1.
Proof.
  intros Hok Hb Hsz Hsh [Hsha Hdig] Hhint Hslot Hkey Huniq Htype [Hauth Hmask] Hsig Hinit Himp Hver.
  assert (wolfBoot_verify_integrity m img = Ok (0, integrity_ok sha_a img)) as Hint.
  { rewrite (verify_integrity_found HB m img sha_a) by done. rewrite bool_decide_true; done. }
  split; [done|]. unfold wolfBoot_verify_authenticity, get_header. unfold field in Hhint, Htype, Hsig.
  rewrite Hhint, Htype, Hsig. cbn [lift]. rewrite !pbind_ret.
  change (negb (WOLFBOOT_SHA_DIGEST_SIZE =? WOLFBOOT_SHA_DIGEST_SIZE)) with false.
  change (default 0 (Some hint_a)) with hint_a. cbv iota.
  assert (0 <= WOLFBOOT_SHA_DIGEST_SIZE) as H32 by (unfold WOLFBOOT_SHA_DIGEST_SIZE; lia).
  destruct (wp_inv _ _ (keyslot_id_spec HB (mread m hint_a WOLFBOOT_SHA_DIGEST_SIZE)
    (mread_bytes _ _ _ Hok) (mread_length _ _ _ H32))) as (id & Ek & Hk).
  assert (id = slot) as ->.
  { destruct Hk as [[-> Hno]|(Hid & Hk & _)]; [by destruct (Hno slot)|]. apply Huniq; [done|congruence]. }
  rewrite Ek. cbn [lift]. rewrite pbind_ret. destruct (Z.ltb_spec slot 0); [lia|].
  rewrite pbind_ret. change (negb (2 =? 2)) with false. change (default 0 (Some type_a)) with type_a. cbv iota zeta. rewrite Hauth, Z.eqb_refl. cbn [negb].
  rewrite Hsh, Hint. cbn [lift]. rewrite pbind_ret. cbn [negb Z.eqb integrity_ok set_sha_ok set_sha_hash sha_ok Pos.eqb].
  rewrite Hmask, Z.eqb_refl, Z.land_comm, Hmask, Z.eqb_refl. cbn [negb].
  change (ED25519_IMAGE_SIGNATURE_SIZE =? 0) with false.
  change (negb (ED25519_IMAGE_SIGNATURE_SIZE =? ED25519_IMAGE_SIGNATURE_SIZE)) with false. cbv iota.
  unfold wolfBoot_verify_signature_ed25519.
  destruct (Z.ltb_spec wc_ed25519_init_ex 0); [lia|]. destruct (Z.ltb_spec (wc_ed25519_import_public (keystore_get_buffer slot)) 0); [lia|].
  cbn [sha_hash default integrity_ok set_sha_ok set_sha_hash from_option id]. rewrite Hver. cbn [Z.eqb Pos.eqb andb signature_ok set_signature_ok]. eexists. done.
Qed.

End Accept.

(** ** From the tool to the bootloader *)

Section Boot.
Context {c : config} {T : tool_hash} {HL : hash_laws tool_sha256} {W : sign_api} {St : stream_api}.
Context {K : keystore_api} {V : verify_api}.
#[local] Existing Instance tool_sha256.
Context (HB : forall k : hctx, bytes (hash_final k)).

(** The key of the tool is in slot [slot] of the keystore, alone with its digest
    and allowed for partition [part]; wolfCrypt can use it, and verifies with it
    what it signs. *)
Record enrolled (pubkey : list Z) (part slot : Z) : Prop := Enrolled {
  en_slot : 0 <= slot < keystore_num_pubkeys;
  en_key : keystore_get_buffer slot = Some pubkey;
  en_size : keystore_get_size slot = zlen pubkey;
  en_unique : forall j, 0 <= j < keystore_num_pubkeys -> key_sha256 j = key_sha256 slot -> j = slot;
  en_mask : Z.testbit (keystore_get_mask slot) part = true;
  en_init : 0 <= wc_ed25519_init_ex;
  en_import : 0 <= wc_ed25519_import_public (Some pubkey);
  en_verify : forall digest sig, wc_ed25519_sign_msg 0 digest 64 = (0, sig) ->
    zlen sig = 64 /\ wc_ed25519_verify_msg sig digest (Some pubkey) = (0, 1);
}.

(** Options of the tool for this bootloader: SHA-256, Ed25519, custom fields and
    partition as the command line allows them, and the whole image in the output. *)
Record options_ok (cmd : cmd_options) : Prop := OptionsOk {
  op_hash : hash_algo cmd = HDR_SHA256;
  op_sign : sign cmd = SIGN_ED25519;
  op_manual : manual_sign cmd = false;
  op_whole : header_only cmd = false;
  op_sizes : 0 <= header_sz cmd /\ signature_sz cmd = 64 /\ 0 <= secondary_signature_sz cmd;
  op_part : 0 <= partition_id cmd < 16;
  op_tlvs : Forall tlv_ok (custom_tlv cmd);
}.

(** A list of fields with tags from [S] and values of a size the search accepts. *)
Definition within (S : Z -> Prop) (l : list (Z * list Z)) : Prop :=
  Forall (fun '(t, d) => S t /\ zlen d <= MAX_TLV_LEN) l.

Lemma within_app S l1 l2 : within S (l1 ++ l2) <-> within S l1 /\ within S l2.
Proof. apply Forall_app. Qed.

Lemma within_mono (S S' : Z -> Prop) l : within S l -> (forall t, S t -> S' t) -> within S' l.
Proof. intros H HS. eapply Forall_impl; [exact H|]. intros [t d] [H1 H2]. auto. Qed.

Lemma slice_le l n : 0 <= n -> zlen (slice l 0 n) <= n.
Proof. intros Hn. unfold slice, zlen. rewrite length_take. lia. Qed.

Lemma within_one (S : Z -> Prop) t d l : S t -> zlen d <= MAX_TLV_LEN -> within S l -> within S ((t, d) :: l).
Proof. intros. by constructor. Qed.

(** The tags of the fields in front of the key digest. *)
Definition leading (t : Z) : Prop :=
  t = HDR_VERSION \/ t = HDR_TIMESTAMP \/ t = HDR_IMG_TYPE \/ t = HDR_IMG_DELTA_BASE \/ t = HDR_IMG_DELTA_SIZE \/
  t = HDR_IMG_DELTA_INVERSE \/ t = HDR_IMG_DELTA_INVERSE_SIZE \/ t = HDR_IMG_DELTA_BASE_HASH \/
  t = HDR_CERT_CHAIN \/ 0x30 <= t.

Ltac lead := unfold leading; auto 12.

Lemma start_within cmd is_diff ctime : within leading (start_fields cmd is_diff ctime).
Proof.
  unfold start_fields. destruct (negb (no_ts cmd)); repeat apply within_one;
    try done; try lead; constructor.
Qed.

Lemma delta_within cmd (d : option delta_info) : hash_algo cmd = HDR_SHA256 ->
  within leading (match d with Some d => delta_fields cmd d | None => [] end).
Proof.
  intros Ha. destruct d as [d|]; [|constructor]. unfold delta_fields. rewrite Ha.
  repeat apply within_one; try done; try lead.
  destruct (base_hash d); [|constructor]. destruct (_ && _); [|constructor].
  apply within_one; [lead| |constructor]. etrans; [apply slice_le; done|done].
Qed.

Lemma custom_within tlvs : Forall tlv_ok tlvs -> within leading (custom_fields tlvs).
Proof.
  intros Hf. unfold within, custom_fields. rewrite Forall_fmap. eapply Forall_impl; [exact Hf|].
  intros t (H1 & _ & H2). cbn. split; [unfold leading; lia|]. etrans; [apply slice_le; lia|lia].
Qed.

Lemma dts_within cmd : hash_algo cmd = HDR_SHA256 -> within leading (dts_fields cmd).
Proof.
  intros Ha. unfold dts_fields. rewrite Ha. destruct (dts_file cmd) as [f|]; [|constructor].
  destruct (dts_hash_file f HDR_SHA256) as [[dg|]| |] eqn:Ed; try constructor; [|constructor].
  assert (zlen dg = 32) as Hd.
  { unfold dts_hash_file in Ed. destruct f as [f|]; [|done]. repeat (case_if_in Ed; [done|]).
    change (HDR_SHA256 =? HDR_SHA256) with true in Ed. cbv iota in Ed.
    destruct (hash_pieces _ _ _ _ _); [|done..]. injection Ed as <-. apply hash_final_len. }
  rewrite Hd. split; [do 9 right; by vm_compute|]. etrans; [apply slice_le; done|done].
Qed.

Lemma chain_within cmd :
  match cert_chain_file cmd with Some (Some chain) => zlen chain <= MAX_TLV_LEN | _ => True end ->
  within leading (chain_fields cmd).
Proof.
  unfold chain_fields. destruct (cert_chain_file cmd) as [[chain|]|]; [|constructor..].
  intros Hc. apply within_one; [lead|done|constructor].
Qed.

(** All of them, and the key fields. *)
Lemma front_within cmd d ctime pubkey secondary_key image uninit header off fs1 sigs digest :
  hash_algo cmd = HDR_SHA256 -> Forall tlv_ok (custom_tlv cmd) ->
  signed_header cmd d pubkey secondary_key image ctime uninit header off fs1 sigs digest ->
  exists front, within leading front /\ tags fs1 = front ++ key_fields cmd pubkey secondary_key /\
    exists rest, front = start_fields cmd (bool_decide (is_Some d)) ctime ++ rest.
Proof.
  intros Ha Ht [_ _ Hf _ Hch _ _ _]. 
  exists (start_fields cmd (bool_decide (is_Some d)) ctime ++ match d with Some d => delta_fields cmd d | None => [] end ++
    custom_fields (custom_tlv cmd) ++ dts_fields cmd ++ chain_fields cmd).
  split; [|split; [by rewrite Hf, <- !app_assoc|by eexists]]. rewrite !within_app.
  split_and!; [apply start_within|by apply delta_within|by apply custom_within|by apply dts_within|by apply chain_within].
Qed.

Lemma key_digest_eq key : key_digest key = hash_final (hash_update hash_init key).
Proof.
  unfold key_digest. change 32 with WOLFBOOT_SHA_DIGEST_SIZE.
  rewrite <- (hash_final_len (hash_update hash_init key)). apply slice_full.
Qed.

Lemma key_within cmd pubkey secondary_key :
  within (fun t => t = HDR_PUBKEY \/ t = HDR_SECONDARY_CIPHER \/ t = HDR_SECONDARY_PUBKEY) (key_fields cmd pubkey secondary_key).
Proof.
  assert (forall k, zlen (key_digest k) <= MAX_TLV_LEN) as Hk by (intros k; rewrite key_digest_eq, hash_final_len; done).
  unfold key_fields. destruct (_ && _); repeat apply within_one; auto; try done; constructor.
Qed.

Lemma within_not (S : Z -> Prop) t l : within S l -> ~ S t ->
  Forall (fun '(t', d') => t' <> t /\ zlen d' <= MAX_TLV_LEN) l.
Proof. intros H Hn. eapply Forall_impl; [exact H|]. intros [t' d'] [H1 H2]. split; [|done]. by intros ->. Qed.

(** The type field of an Ed25519 image of partition [p]. *)
Lemma type_value cmd is_diff :
  sign cmd = SIGN_ED25519 -> 0 <= partition_id cmd < 16 ->
  let ty := type_of cmd is_diff in
  0 <= ty < 2 ^ 16 /\ Z.land ty HDR_IMG_TYPE_AUTH_MASK = HDR_IMG_TYPE_AUTH /\
  Z.land ty HDR_IMG_TYPE_PART_MASK = partition_id cmd.
Proof.
  intros Hs Hp. unfold type_of. rewrite Hs. generalize dependent (partition_id cmd). intros p Hp.
  set (f := fun (b : bool) (p : Z) => let image_type := Z.lor (Z.land (u16 SIGN_ED25519) HDR_IMG_TYPE_AUTH_MASK) p in
    if b then Z.lor image_type HDR_IMG_TYPE_DIFF else image_type).
  set (good := fun (b : bool) (p : Z) => (0 <=? f b p) && (f b p <? 2 ^ 16) &&
    (Z.land (f b p) HDR_IMG_TYPE_AUTH_MASK =? HDR_IMG_TYPE_AUTH) && (Z.land (f b p) HDR_IMG_TYPE_PART_MASK =? p)).
  assert (forallb (good true) (seqZ 0 16) = true /\ forallb (good false) (seqZ 0 16) = true) as [H1 H2] by (by vm_compute).
  rewrite forallb_forall in H1, H2. assert (In p (seqZ 0 16)) as Hin by (apply list_elem_of_In, elem_of_seqZ; lia).
  assert (good is_diff p = true) as Hg by (destruct is_diff; auto). unfold good in Hg. bools. fold (f is_diff p). cbv zeta. lia.
Qed.

Lemma mle16_store m a v : 0 <= v < 2 ^ 16 -> mread m a 2 = header_store_u16_le v -> mle16 m a = v.
Proof.
  intros Hv Hr. rewrite store_u16 in Hr. unfold mle16.
  assert (m (a + 0) = v mod 256) as E0 by (rewrite <- (mread_at m a 2 0), Hr by lia; done).
  assert (m (a + 1) = v / 256 mod 256) as E1 by (rewrite <- (mread_at m a 2 1), Hr by lia; done).
  rewrite Z.add_0_r in E0. rewrite E0, E1. pose proof (u16_store v Hv). lia.
Qed.

Lemma mle32_read m a v : 0 <= v < 2 ^ 32 -> mread m a 4 = header_store_u32_le v -> mle32 m a = v.
Proof.
  intros Hv. rewrite store_u32. intros Hr. apply mle32_store; [done|]. intros i Hi. rewrite <- Hr. by rewrite mread_at by lia.
Qed.

Lemma mask_bit mask p : 0 <= p -> Z.testbit mask p = true -> Z.land (Z.shiftl 1 p) mask = Z.shiftl 1 p.
Proof.
  intros Hp Hb. apply Z.bits_inj'. intros i Hi. rewrite Z.land_spec, Z.shiftl_spec by done.
  destruct (Z.eq_dec i p) as [->|Hne]; [by rewrite Hb, andb_true_r|].
  destruct (Z.lt_ge_cases i p); [by rewrite Z.testbit_neg_r by lia|].
  replace (Z.testbit 1 (i - p)) with false; [done|]. symmetry. apply (Z.pow2_bits_false 0). lia.
Qed.

(** The signature of an image signed with the key of the tool. *)
Lemma tool_signature cmd digest sig sz :
  sign cmd = SIGN_ED25519 -> manual_sign cmd = false -> signature_sz cmd = 64 ->
  main_signature cmd digest = inl (sig, sz) -> wc_ed25519_sign_msg 0 digest 64 = (0, slice sig 0 sz).
Proof.
  intros Hs Hm H64. unfold main_signature. rewrite Hm, Hs, H64. cbn [negb]. unfold sign_digest.
  destruct (negb (wc_InitRng =? 0)) eqn:Er; [cbn [chk tbind]; bools; case_if; [done|lia]|].
  change (SIGN_ED25519 =? SIGN_ED25519) with true. cbv iota. unfold store_sig.
  destruct (wc_ed25519_sign_msg 0 digest 64) as [st s]. cbn [fst snd].
  destruct (Z.eqb_spec st 0) as [->|Hst]; cycle 1.
  { cbn [chk tbind]. rewrite (proj2 (Z.eqb_neq _ _) Hst). done. }
  destruct (blit _ 0 s) as [b| |] eqn:Eb; cbn [obind chk tbind]; [|done..]. change (negb (0 =? 0)) with false. cbv iota.
  intros [= <- <-]. apply blit_inv in Eb as (_ & _ & ->). f_equal. unfold put, slice. rewrite !drop_0, take_0. cbn [app].
  rewrite take_app_length'; [done|]. unfold zlen. lia.
Qed.

(** Where the fields of a signed image are in memory. *)
Lemma signed_fields cmd d pubkey secondary_key image ctime uninit header off fs1 sigs digest m base :
  signed_header cmd d pubkey secondary_key image ctime uninit header off fs1 sigs digest ->
  options_ok cmd -> header_sz cmd = IMAGE_HEADER_SIZE -> header_size_ok IMAGE_HEADER_SIZE ->
  mem_ok m -> base_ok base -> base mod 2 = 0 -> loaded m base header ->
  field m base HDR_SHA256 32 (base + off + 4) /\ mread m (base + off + 4) 32 = digest /\
  (exists a, field m base HDR_VERSION 4 a /\ mle32 m a = version_of cmd) /\
  (exists a, field m base HDR_IMG_TYPE 2 a /\ mle16 m a = type_of cmd (bool_decide (is_Some d))) /\
  (exists a, field m base HDR_PUBKEY 32 a /\ mread m a 32 = key_digest pubkey) /\
  (forall sig, signature_of (main_signature cmd digest) = sig -> zlen sig = 64 ->
     exists a, field m base HDR_SIGNATURE 64 a /\ mread m a 64 = sig).
Proof.
  intros Hsh Hop Hhs Hsz Hok Hb Hev Hl. pose proof Hsh as [Hbu Hver _ Hsig _ _ Hoff Hdig].
  destruct (front_within _ _ _ _ _ _ _ _ _ _ _ _ (op_hash _ Hop) (op_tlvs _ Hop) Hsh) as (front & Hfr & Htg & rest & Hrest).
  rewrite Hhs in Hbu. assert (zlen digest = 32) as Hd by (rewrite Hdig; apply hash_final_len).
  assert (tags (fs1 ++ (off, HDR_SHA256, digest) :: sigs) =
    (front ++ key_fields cmd pubkey secondary_key) ++ (HDR_SHA256, digest) :: tags sigs) as Htags by (by rewrite tags_app, Htg).
  assert (forall t d' L1 L2, (front ++ key_fields cmd pubkey secondary_key) ++ (HDR_SHA256, digest) :: tags sigs = L1 ++ (t, d') :: L2 ->
    Forall (fun '(t', d') => t' <> t /\ zlen d' <= MAX_TLV_LEN) L1 -> zlen d' <= MAX_TLV_LEN ->
    exists f1 o f2, fs1 ++ (off, HDR_SHA256, digest) :: sigs = f1 ++ (o, t, d') :: f2 /\ tags f1 = L1 /\
      field m base t (zlen d') (base + o + 4) /\ mread m (base + o + 4) (zlen d') = d') as Hfind.
  { intros t d' L1 L2 HE HF HD. rewrite <- Htags in HE. by eapply (find_field m base _ (header, IMAGE_HEADER_SIZE)). }
  pose proof (key_within cmd pubkey secondary_key) as Hkw.
  assert (zlen (key_digest pubkey) = 32) as Hkd by (rewrite key_digest_eq; apply hash_final_len).
  destruct (Hfind HDR_SHA256 digest _ _ eq_refl) as (f1 & o & f2 & HE & HT & HF & HM); [|by rewrite Hd|].
  { apply Forall_app. split; [apply (within_not _ _ _ Hfr)|apply (within_not _ _ _ Hkw)]; [unfold leading|]; vm_compute; intuition (try done; congruence). }
  assert (f1 = fs1 /\ o = off) as [-> ->].
  { assert (length f1 = length fs1) as Hlen by (apply (f_equal length) in HT; rewrite <- Htg in HT; unfold tags in HT; by rewrite !length_fmap in HT).
    symmetry in HE. apply app_inj_1 in HE as [-> [= -> _]]; [done|done]. }
  rewrite Hd in HF, HM. split; [done|]. split; [done|].
  assert (0x30 <= MAX_TLV_LEN) as Hmx by done.
  split; [|split; [|split]].
  - destruct (Hfind HDR_VERSION (header_store_u32_le (version_of cmd)) []
      ((if negb (no_ts cmd) then [(HDR_TIMESTAMP, header_store_u64_le ctime)] else []) ++
       [(HDR_IMG_TYPE, header_store_u16_le (type_of cmd (bool_decide (is_Some d))))] ++ rest ++
       key_fields cmd pubkey secondary_key ++ (HDR_SHA256, digest) :: tags sigs)) as (g1 & o1 & g2 & _ & _ & G1 & G2);
      [rewrite Hrest; unfold start_fields; by rewrite <- !app_assoc|constructor|done|].
    exists (base + o1 + 4). split; [exact G1|]. apply mle32_read; [done|exact G2].
  - destruct (Hfind HDR_IMG_TYPE (header_store_u16_le (type_of cmd (bool_decide (is_Some d))))
      ([(HDR_VERSION, header_store_u32_le (version_of cmd))] ++
       (if negb (no_ts cmd) then [(HDR_TIMESTAMP, header_store_u64_le ctime)] else []))
      (rest ++ key_fields cmd pubkey secondary_key ++ (HDR_SHA256, digest) :: tags sigs)) as (g1 & o1 & g2 & _ & _ & G1 & G2);
      [rewrite Hrest; unfold start_fields; by rewrite <- !app_assoc| |done|].
    { destruct (negb (no_ts cmd)); repeat constructor; done. }
    exists (base + o1 + 4). split; [exact G1|]. apply mle16_store; [|exact G2].
    apply (type_value cmd _ (op_sign _ Hop) (op_part _ Hop)).
  - destruct (Hfind HDR_PUBKEY (key_digest pubkey) front
      ((if hybrid cmd && (0 <? zlen secondary_key)
        then [(HDR_SECONDARY_CIPHER, header_store_u16_le (u16 (secondary_sign cmd))); (HDR_SECONDARY_PUBKEY, key_digest secondary_key)]
        else []) ++ (HDR_SHA256, digest) :: tags sigs)) as (g1 & o1 & g2 & _ & _ & G1 & G2);
      [by rewrite <- !app_assoc| |by rewrite Hkd|].
    { apply (within_not _ _ _ Hfr). unfold leading. vm_compute. intuition (try done; congruence). }
    rewrite Hkd in G1, G2. by exists (base + o1 + 4).
  - intros sig Hsg H64. rewrite Hsig in Hfind. unfold sign_fields in Hfind. rewrite (op_sign _ Hop), Hsg in Hfind.
    change (negb (SIGN_ED25519 =? NO_SIGN)) with true in Hfind. cbv iota in Hfind. rewrite <- app_assoc in Hfind. cbn [app] in Hfind.
    destruct (Hfind HDR_SIGNATURE sig (front ++ key_fields cmd pubkey secondary_key ++ [(HDR_SHA256, digest)])
      ((if hybrid cmd then [(HDR_SECONDARY_SIGNATURE, signature_of (secondary_signature cmd digest))] else []) ++
       (if policy_sign cmd then
         match policy_signature cmd (signature_sz cmd) uninit with
         | inl (policy, sz, _) => [(HDR_POLICY_SIGNATURE, slice policy 0 (u16 (sz + 4)))]
         | inr _ => []
         end else []))) as (g1 & o1 & g2 & _ & _ & G1 & G2); [by rewrite <- !app_assoc| |by rewrite H64|].
    { rewrite !Forall_app. split; [apply (within_not _ _ _ Hfr)|split; [apply (within_not _ _ _ Hkw)|]].
      - unfold leading. vm_compute. intuition (try done; congruence).
      - vm_compute. intuition congruence.
      - repeat constructor; [done|by rewrite Hd]. }
    rewrite H64 in G1, G2. by exists (base + o1 + 4).
Qed.

(** Magic and size of a header in memory. *)
Lemma built_start m base hs size fs h : built hs size fs (h, hs) -> 8 <= hs -> 0 <= size < 2 ^ 32 -> loaded m base h ->
  mle32 m base = WOLFBOOT_MAGIC /\ mle32 m (base + 4) = size.
Proof.
  intros Hbu Hhs Hsize Hl. pose proof (bu_len _ _ _ _ Hbu) as Hlen. cbn [fst] in Hlen. split.
  - apply mle32_store; [done|]. intros i Hi. rewrite Hl by lia. by apply (bu_magic _ _ _ _ Hbu).
  - apply mle32_store; [lia|]. intros i Hi. rewrite <- Z.add_assoc, Hl by lia. by apply (bu_size _ _ _ _ Hbu).
Qed.

Definition opened (prt base size : Z) : wolfBoot_image :=
  mkImage base (base + WOLFBOOT_PARTITION_SIZE) None (base + IMAGE_HEADER_SIZE) size prt 1 0 0.

Lemma open_loaded m prt size :
  prt = PART_BOOT \/ prt = PART_UPDATE -> let base := wolfBoot_get_image_from_part prt in
  mle32 m base = WOLFBOOT_MAGIC -> mle32 m (base + 4) = size -> size <= WOLFBOOT_PARTITION_SIZE - IMAGE_HEADER_SIZE ->
  wolfBoot_open_image m prt = (0, opened prt base size).
Proof.
  intros Hprt base Hmagic Hsize Hfit.
  unfold wolfBoot_open_image, wolfBoot_open_image_address, wolfBoot_image_size, opened, base.
  destruct Hprt as [-> | ->]; cbn [Z.eqb PART_BOOT PART_UPDATE PART_SWAP Pos.eqb orb negb set_hdr set_part set_hdr_ok image0 hdr hdr_ok part fw_size fw_base trailer];
    cbn in Hmagic, Hsize; rewrite Hmagic, Z.eqb_refl; cbn [negb]; cbn; rewrite Hsize;
    (destruct (Z.ltb_spec (WOLFBOOT_PARTITION_SIZE - IMAGE_HEADER_SIZE) size); [lia|reflexivity]).
Qed.

(** C24: What the signing tool writes, the bootloader accepts.  Whenever the tool
    returns an image (SHA-256, Ed25519, any time stamp, delta, custom, device-tree,
    certificate and hybrid fields), a bootloader built with the same header size
    and with the public key in its keystore opens the image in either partition,
    reads back the version and type given to the tool and the firmware itself, and
    finds it intact and authentic. *)
Theorem signed_image_accepted cmd env d pubkey image ctime secondary_key uninit out cmd' slot m prt s :
  make_header_ex cmd env d pubkey (Some image) ctime secondary_key uninit = inl (out, cmd') ->
  options_ok cmd -> header_sz cmd' = IMAGE_HEADER_SIZE -> header_size_ok IMAGE_HEADER_SIZE ->
  zlen image < 2 ^ 31 -> zlen image <= WOLFBOOT_PARTITION_SIZE - IMAGE_HEADER_SIZE ->
  enrolled pubkey (partition_id cmd) slot -> prt = PART_BOOT \/ prt = PART_UPDATE ->
  let base := wolfBoot_get_image_from_part prt in
  mem_ok m -> base_ok base -> base <> 0 -> base mod 2 = 0 -> loaded m base (signed_image out) ->
  wolfBoot_get_image_version m prt = Ok (version_of cmd) /\
  wolfBoot_get_image_type m prt = Ok (type_of cmd (bool_decide (is_Some d))) /\
  exists img img1 img', wolfBoot_open_image m prt = (0, img) /\
    mread m (fw_base img) (fw_size img) = image /\
    wolfBoot_verify_integrity m img = Ok (0, img1) /\
    run (wolfBoot_verify_authenticity m img) s = (inl (0, img'), s) /\ signature_ok img' = 1.
Proof.
  intros Hm Hop Hhs Hsz Himg Hfit Hen Hprt base Hok Hb Hb0 Hev Hl.
  pose proof Hop as [Oh Os Om Ow (O1 & O2 & O3) Op Ot]. pose proof (zlen_nonneg image). pose proof (proj1 Hsz) as H8.
  destruct (make_header_fields HL _ _ _ _ _ _ _ _ _ _ Hm Oh ltac:(lia) Ot O1 ltac:(lia) O3)
    as (header & off & fs1 & sigs & digest & Hsh & Hout). rewrite Hhs in Hsh. rewrite Ow in Hout. rewrite Hout in Hl.
  set (cmd1 := set_header_sz IMAGE_HEADER_SIZE cmd) in *. assert (options_ok cmd1) as Hop1 by (pose proof (proj1 Hsz); split; try done; cbn; lia).
  pose proof Hsh as [Hbu _ _ _ _ Hsg Hoff Hdig]. apply loaded_app in Hl as [Hl1 Hl2].
  pose proof (bu_len _ _ _ _ Hbu) as Hlen. cbn [fst] in Hlen. change (header_sz cmd1) with IMAGE_HEADER_SIZE in *. rewrite Hlen in Hl2.
  destruct (signed_fields _ _ _ _ _ _ _ _ _ _ _ _ m base Hsh Hop1 eq_refl Hsz Hok Hb Hev Hl1)
    as (F1 & F2 & (va & F3 & F4) & (ta & F5 & F6) & (ha & F7 & F8) & F9).
  assert (sign cmd1 <> NO_SIGN) as Hns by (change (sign cmd1) with (sign cmd); by rewrite Os).
  destruct (Hsg Hns) as (sig & sz & Hms).
  pose proof (tool_signature cmd1 digest sig sz Os Om O2 Hms) as Hwc. destruct (en_verify _ _ _ Hen _ _ Hwc) as [H64 Hvf].
  destruct (F9 (slice sig 0 sz)) as (sa & G1 & G2); [by rewrite Hms|done|].
  destruct (built_start m base _ _ _ header Hbu ltac:(lia) ltac:(lia) Hl1) as [Hmagic Hsize].
  assert (mread m (base + IMAGE_HEADER_SIZE) (zlen image) = image) as Hfw.
  { rewrite <- (Z.add_0_r (base + IMAGE_HEADER_SIZE)), (loaded_mread _ _ image) by (done || lia). apply slice_full. }
  set (img := opened prt base (zlen image)). pose proof (open_loaded m prt _ Hprt Hmagic Hsize Hfit) as Hopen. fold base img in Hopen.
  destruct (type_value cmd1 (bool_decide (is_Some d)) Os Op) as (T0 & T1 & T2).
  destruct (verify_authenticity_complete HB m img s (base + off + 4) sa ha ta slot) as (V1 & img' & V2 & V3 & V4);
    try done; cbn [hdr fw_base fw_size img opened]; try lia.
  - split; [done|]. unfold image_digest_at, WOLFBOOT_SHA_DIGEST_SIZE. rewrite F2, Hfw.
    replace (base + off + 4 - 4 - base) with off by lia. rewrite <- (Z.add_0_r base) at 1. rewrite (loaded_mread _ _ header) by (done || lia).
    by rewrite Hdig.
  - apply (en_slot _ _ _ Hen).
  - unfold WOLFBOOT_SHA_DIGEST_SIZE. rewrite F8, key_digest_eq. unfold key_sha256. rewrite (en_key _ _ _ Hen), (en_size _ _ _ Hen).
    pose proof (zlen_nonneg pubkey). destruct (Z.ltb_spec (zlen pubkey) 0); [lia|].
    rewrite take_ge by (unfold zlen; lia). done.
  - apply (en_unique _ _ _ Hen).
  - cbv zeta. rewrite F6, u16_small by done. split; [done|]. rewrite T2. apply mask_bit; [apply (proj1 Op)|apply (en_mask _ _ _ Hen)].
  - apply (en_init _ _ _ Hen).
  - rewrite (en_key _ _ _ Hen). apply (en_import _ _ _ Hen).
  - unfold ED25519_IMAGE_SIGNATURE_SIZE, WOLFBOOT_SHA_DIGEST_SIZE. by rewrite G2, F2, (en_key _ _ _ Hen).
  - unfold wolfBoot_get_image_version, wolfBoot_get_image_type, wolfBoot_get_blob_version, wolfBoot_get_blob_type. fold base.
    rewrite (proj2 (Z.eqb_neq _ _) Hb0), Hmagic, Z.eqb_refl. cbn [negb]. unfold field in F3, F5. rewrite F3, F5. cbn [obind].
    rewrite F4, F6. split; [done|]. split; [done|]. by exists img, (integrity_ok (base + off + 4) img), img'.
Qed.

End Boot.
