(* ===== verification/SignRoom.v ===== *)
(** * SignRoom: the header is large enough

    [header_required_size] adds up the fields that [make_header_ex] is about to
    write.  The two walk over the same sequence: when the header has the required
    size no field overflows it, and the tool returns an image. *)

From Stdlib Require Import ZArith Lia.
From stdpp Require Import prelude.
From S2P Require Import Prelude Flash Trailer Image ImageSpec DeltaUpdate Stream Sign SignSpec SignHeader.

Local Open Scope Z_scope.

Lemma ALIGN_8_mono x y : x <= y -> ALIGN_8 x <= ALIGN_8 y.
Proof.
  intros H. destruct (ALIGN_8_spec x) as (_ & _ & ->), (ALIGN_8_spec y) as (_ & _ & ->). dlia.
Qed.
Lemma ALIGN_8_bound x : x <= ALIGN_8 x <= x + 7.
Proof. destruct (ALIGN_8_spec x) as (_ & _ & ->). dlia. Qed.
Lemma ALIGN_4_bound x : x <= ALIGN_4 x <= x + 3.
Proof. destruct (ALIGN_4_spec x) as (_ & _ & ->). dlia. Qed.
Lemma ALIGN_4_mono x y : x <= y -> ALIGN_4 x <= ALIGN_4 y.
Proof.
  intros H. destruct (ALIGN_4_spec x) as (_ & _ & ->), (ALIGN_4_spec y) as (_ & _ & ->). dlia.
Qed.
Lemma ALIGN_8_idem x : ALIGN_8 (ALIGN_8 x) = ALIGN_8 x.
Proof. apply ALIGN_8_id. apply ALIGN_8_spec. Qed.

(** ** Where each part ends *)

Section Room.
Context {T : tool_hash} {W : sign_api} {E : stream_api}.

Definition start_end (c : cmd_options) : Z := (if negb (no_ts c) then 32 else 20) + 6.

Definition delta_end (c : cmd_options) (is_diff : bool) (i : Z) : Z :=
  if is_diff then
    let i := ALIGN_4 (ALIGN_4 i + 16) + 16 in
    if negb (no_base_sha c) && (0 <? header_digest_size (hash_algo c))
    then ALIGN_8 i + 4 + header_digest_size (hash_algo c) else i
  else i.

Definition custom_end (tlvs : list cmd_tlv) (i : Z) : Z := fold_left (fun i t => ALIGN_8 i + 4 + tlv_len t) tlvs i.

Definition dts_end (c : cmd_options) (i : Z) : Z :=
  if bool_decide (is_Some (dts_file c)) && (0 <? header_digest_size (hash_algo c))
  then ALIGN_8 i + 4 + header_digest_size (hash_algo c) else i.

Definition chain_end (n i : Z) : Z := if 0 <? n then ALIGN_8 i + 4 + n else i.

Definition key_end (c : cmd_options) (secondary_key_sz i : Z) : Z :=
  let n := header_digest_size (hash_algo c) in
  let i := ALIGN_8 (ALIGN_8 i + 4 + n) in
  if hybrid c && (0 <? secondary_key_sz) then
    ALIGN_8 ((if hash_algo c =? HDR_SHA256 then ALIGN_8 (i + 6) else i + 6) + 4 + n)
  else i.

Definition sign_end (c : cmd_options) (i : Z) : Z :=
  if negb (sign c =? NO_SIGN) then
    let i := ALIGN_8 i + 4 + signature_sz c in
    let i := if hybrid c then ALIGN_8 i + 4 + secondary_signature_sz c else i in
    if policy_sign c then ALIGN_8 i + 4 + ((if policy_sz c =? 0 then signature_sz c else policy_sz c) + 4) else i
  else i.

(** The size of all fields. *)
Definition room (c : cmd_options) (is_diff : bool) (chain_sz secondary_key_sz : Z) : Z :=
  sign_end c (key_end c secondary_key_sz (chain_end chain_sz (dts_end c (custom_end (custom_tlv c)
    (delta_end c is_diff (start_end c))))) + 4 + header_digest_size (hash_algo c)).

(** Options whose sizes the formats can hold. *)
Record sizes_ok (c : cmd_options) (chain_sz : Z) : Prop := SizesOk {
  so_hash : 0 < header_digest_size (hash_algo c) <= 48;
  so_tlvs : Forall (fun t => 0 <= tlv_len t <= MAX_TLV_LEN) (custom_tlv c);
  so_count : zlen (custom_tlv c) <= MAX_CUSTOM_TLVS;
  so_chain : 0 <= chain_sz <= MAX_TLV_LEN;
  so_sig : 0 <= signature_sz c < 2 ^ 16 /\ 0 <= secondary_signature_sz c < 2 ^ 16 /\ 0 <= policy_sz c < 2 ^ 16;
}.

Ltac aligns := repeat match goal with
  | |- context [ALIGN_8 ?x] => lazymatch goal with H : x <= ALIGN_8 x <= _ |- _ => fail | _ => pose proof (ALIGN_8_bound x) end
  | |- context [ALIGN_4 ?x] => lazymatch goal with H : x <= ALIGN_4 x <= _ |- _ => fail | _ => pose proof (ALIGN_4_bound x) end
  end.

Lemma append_size i n : 0 <= i -> 0 <= n -> i + 4 + n < 2 ^ 32 -> header_size_append_tag i n = i + 4 + n.
Proof. intros. unfold header_size_append_tag. rewrite (u32_small (4 + n)) by lia. rewrite u32_small by lia. lia. Qed.

Lemma custom_end_bound tlvs i : Forall (fun t => 0 <= tlv_len t <= MAX_TLV_LEN) tlvs ->
  i <= custom_end tlvs i <= i + zlen tlvs * (MAX_TLV_LEN + 11).
Proof.
  intros Hf. revert i. induction Hf as [|t tlvs Ht Hf IH]; intros i; [cbn; unfold zlen; cbn; lia|].
  unfold custom_end. cbn [fold_left]. fold (custom_end tlvs (ALIGN_8 i + 4 + tlv_len t)). rewrite zlen_cons.
  specialize (IH (ALIGN_8 i + 4 + tlv_len t)). pose proof (ALIGN_8_bound i). lia.
Qed.

Lemma custom_sizes tlvs i : Forall (fun t => 0 <= tlv_len t <= MAX_TLV_LEN) tlvs -> 0 <= i -> custom_end tlvs i < 2 ^ 32 ->
  fold_left (fun idx t => header_size_append_tag (ALIGN_8 idx) (tlv_len t)) tlvs i = custom_end tlvs i.
Proof.
  intros Hf. revert i. induction Hf as [|t tlvs Ht Hf IH]; intros i Hi Hb; [done|]. unfold custom_end in *.
  cbn [fold_left] in *. fold (custom_end tlvs (ALIGN_8 i + 4 + tlv_len t)) in *.
  pose proof (custom_end_bound tlvs (ALIGN_8 i + 4 + tlv_len t) Hf). pose proof (ALIGN_8_bound i).
  rewrite append_size by lia. apply IH; [lia|done].
Qed.

(** The two ways of adding up agree. *)
Lemma required_room c is_diff chain_sz k : sizes_ok c chain_sz ->
  header_required_size c is_diff chain_sz k = room c is_diff chain_sz k /\ room c is_diff chain_sz k <= 2 ^ 31.
Proof.
  intros [Hh Ht Hc Hch (S1 & S2 & S3)]. unfold MAX_CUSTOM_TLVS, MAX_TLV_LEN in *.
  set (n := header_digest_size (hash_algo c)) in *.
  set (i1 := start_end c). assert (26 <= i1 <= 38) as B1 by (unfold i1, start_end; case_if; lia).
  set (i2 := delta_end c is_diff i1). assert (i1 <= i2 <= i1 + 110) as B2.
  { unfold i2, delta_end. fold n. destruct is_diff; [|lia]. cbv zeta. case_if; aligns; lia. }
  set (i3 := custom_end (custom_tlv c) i2). pose proof (custom_end_bound (custom_tlv c) i2 Ht) as B3. fold i3 in B3. unfold MAX_TLV_LEN in B3.
  set (i4 := dts_end c i3). assert (i3 <= i4 <= i3 + 60) as B4 by (unfold i4, dts_end; fold n; case_if; aligns; lia).
  set (i5 := chain_end chain_sz i4). assert (i4 <= i5 <= i4 + 65540) as B5 by (unfold i5, chain_end; case_if; aligns; lia).
  set (i6 := key_end c k i5). assert (i5 <= i6 <= i5 + 180) as B6.
  { unfold i6, key_end. fold n. cbv zeta. repeat case_if; aligns; lia. }
  assert (i6 + 52 <= 2 ^ 21) as B7 by lia.
  assert (room c is_diff chain_sz k = sign_end c (i6 + 4 + n)) as Er by done.
  assert (i6 + 4 + n <= sign_end c (i6 + 4 + n) <= 2 ^ 31) as B8.
  { unfold sign_end. destruct (negb _); [|lia]. cbv zeta. repeat case_if; aligns; lia. }
  split; [|rewrite Er; lia]. rewrite Er. unfold header_required_size. fold n. unfold header_size_align_8, header_size_align_4. cbv zeta.
  replace (0 <? n) with true by (symmetry; apply Z.ltb_lt; lia). rewrite !andb_true_r.
  assert (header_size_append_tag (if negb (no_ts c) then header_size_append_tag (ALIGN_8 (header_size_append_tag (2 * 4) 4)) 8
    else ALIGN_8 (header_size_append_tag (2 * 4) 4)) 2 = i1) as -> by (unfold i1, start_end; by destruct (no_ts c)).
  match goal with |- context [if is_diff then ?A else i1] => replace (if is_diff then A else i1) with i2 end.
  2:{ unfold i2, delta_end. fold n. replace (0 <? n) with true by (symmetry; apply Z.ltb_lt; lia). rewrite andb_true_r.
      destruct is_diff; [|done]. cbv zeta.
      assert (header_size_append_tag (header_size_append_tag (ALIGN_4 i1) 4) 4 = ALIGN_4 i1 + 16) as ->
        by (aligns; rewrite !append_size by (rewrite ?append_size by lia; lia); lia).
      assert (header_size_append_tag (header_size_append_tag (ALIGN_4 (ALIGN_4 i1 + 16)) 4) 4 = ALIGN_4 (ALIGN_4 i1 + 16) + 16) as ->
        by (aligns; pose proof (ALIGN_4_bound i1); rewrite !append_size by (rewrite ?append_size by lia; lia); lia).
      case_if; [|done]. rewrite append_size; [done|aligns; pose proof (ALIGN_4_bound (ALIGN_4 i1 + 16)); pose proof (ALIGN_4_bound i1); lia..]. }
  rewrite (custom_sizes (custom_tlv c) i2) by (done || (unfold i3 in B3; lia)). fold i3.
  match goal with |- context [if bool_decide (is_Some (dts_file c)) then ?A else i3] =>
    replace (if bool_decide (is_Some (dts_file c)) then A else i3) with i4 end.
  2:{ unfold i4, dts_end. fold n. replace (0 <? n) with true by (symmetry; apply Z.ltb_lt; lia). rewrite andb_true_r.
      case_if; [|done]. rewrite append_size; [done|aligns; lia..]. }
  match goal with |- context [if 0 <? chain_sz then ?A else i4] => replace (if 0 <? chain_sz then A else i4) with i5 end.
  2:{ unfold i5, chain_end. case_if; [|done]. rewrite append_size; [done|aligns; lia..]. }
  match goal with |- context [if hybrid c && (0 <? k) then ?A else ?B] => replace (if hybrid c && (0 <? k) then A else B) with i6 end.
  2:{ unfold i6, key_end. fold n. cbv zeta. rewrite (append_size (ALIGN_8 i5)) by (aligns; lia).
      pose proof (ALIGN_8_bound i5). pose proof (ALIGN_8_bound (ALIGN_8 i5 + 4 + n)).
      destruct (hybrid c && (0 <? k)); [|done]. rewrite (append_size (ALIGN_8 (ALIGN_8 i5 + 4 + n))) by lia.
      replace (ALIGN_8 (ALIGN_8 i5 + 4 + n) + 4 + 2) with (ALIGN_8 (ALIGN_8 i5 + 4 + n) + 6) by lia.
      f_equal. case_if; rewrite append_size; try done; aligns; lia. }
  rewrite (append_size i6) by lia. unfold sign_end. destruct (negb (sign c =? NO_SIGN)); [|done]. cbv zeta.
  rewrite (append_size (ALIGN_8 (i6 + 4 + n))) by (aligns; lia). pose proof (ALIGN_8_bound (i6 + 4 + n)).
  match goal with |- context [if hybrid c then header_size_append_tag ?A ?B else ?C] =>
    replace (if hybrid c then header_size_append_tag A B else C) with (if hybrid c then A + 4 + B else C)
      by (case_if; [|done]; rewrite append_size; [done|aligns; lia..]) end.
  set (i7 := if hybrid c then _ else _). assert (0 <= i7 <= 2 ^ 21 + 200000) as B9 by (unfold i7; case_if; aligns; lia). clearbody i7.
  destruct (policy_sign c); [|done]. set (p := if policy_sz c =? 0 then _ else _). assert (0 <= p < 2 ^ 16) by (unfold p; case_if; lia).
  rewrite (u32_small (p + 4)) by lia. rewrite append_size; [done|aligns; lia..].
Qed.

(** ** Every part fits *)

(** [x] returns a value in [P]. *)
Definition twp {A} (x : tool A) (P : A -> Prop) : Prop := exists a, x = inl a /\ P a.

Lemma twp_ret {A} (a : A) (P : A -> Prop) : P a -> twp (ret_ok a) P.
Proof. intros H. by exists a. Qed.
Lemma twp_bind {A B} (x : tool A) (k : A -> tool B) (P : A -> Prop) (Q : B -> Prop) :
  twp x P -> (forall a, P a -> twp (k a) Q) -> twp (tbind x k) Q.
Proof. intros (a & -> & Ha) Hk. by apply Hk. Qed.
Lemma twp_mono {A} (x : tool A) (P Q : A -> Prop) : twp x P -> (forall a, P a -> Q a) -> twp x Q.
Proof. intros (a & -> & Ha) H. exists a. auto. Qed.

(** The buffer has its size and the index is at [i] at most. *)
Definition upto (hs i : Z) (h : hdr_state) : Prop := zlen (fst h) = hs /\ 8 <= snd h <= i.

Lemma upto_mono hs i j h : upto hs i h -> i <= j -> upto hs j h.
Proof. intros [H1 H2] Hij. split; [done|lia]. Qed.
Lemma upto_align8 hs i h : upto hs i h -> upto hs (ALIGN_8 i) (align_8 h).
Proof.
  intros [H1 H2]. split; [done|]. cbn [align_8 snd]. pose proof (ALIGN_8_bound (snd h)).
  pose proof (ALIGN_8_mono (snd h) i). lia.
Qed.
Lemma upto_align4 hs i h : upto hs i h -> upto hs (ALIGN_4 i) (align_4 h).
Proof.
  intros [H1 H2]. split; [done|]. cbn [align_4 snd]. pose proof (ALIGN_4_bound (snd h)).
  pose proof (ALIGN_4_mono (snd h) i). lia.
Qed.

Lemma append_total hs i h t len d :
  upto hs i h -> 0 <= len <= zlen d -> i + 4 + len <= hs ->
  twp (header_append_tag hs h t len d) (upto hs (i + 4 + len)).
Proof.
  intros [H1 H2] Hl Hf. destruct (append_tag_eq hs h t len d) as (b' & -> & Hb & _); [done|lia|lia|lia|].
  eexists. split; [done|]. split; [done|]. cbn [snd]. lia.
Qed.

Lemma append8_total hs i h t len d :
  upto hs i h -> 0 <= len <= zlen d -> ALIGN_8 i + 4 + len <= hs ->
  twp (header_append_tag hs (align_8 h) t len d) (upto hs (ALIGN_8 i + 4 + len)).
Proof. intros H Hl Hf. apply append_total; [by apply upto_align8|done|done]. Qed.

Lemma start_total c is_diff size ctime :
  start_end c <= header_sz c -> (exists v rest, strtoul 10 (fw_version c) = (v, false, rest) /\ v < 2 ^ 32) ->
  twp (start_header c is_diff size ctime) (upto (header_sz c) (start_end c)).
Proof.
  intros Hs (v & rest & Hv & Hv32). unfold start_header. set (hs := header_sz c) in *.
  assert (26 <= start_end c <= 38) as B by (unfold start_end; case_if; lia).
  set (b0 := replicate (Z.to_nat hs) 0xFF). assert (zlen b0 = hs) as L0 by (unfold b0, zlen; rewrite length_replicate; lia).
  assert (forall v, zlen (header_store_u32_le v) = 4) as Z4 by done.
  rewrite append_u32_eq by (cbn [fst snd]; lia). cbn [tbind fst snd].
  rewrite append_u32_eq by (cbn [fst snd]; rewrite ?zlen_put; rewrite ?Z4; lia). cbn [tbind fst snd].
  set (h := (put (put b0 0 _) _ _, _)). assert (upto hs 8 h) as H8.
  { unfold h. split; cbn [fst snd]; [|lia]. rewrite !zlen_put; rewrite ?zlen_put; rewrite ?Z4; lia. }
  clearbody h. rewrite Hv. cbn [orb]. destruct (Z.ltb_spec (2 ^ 32 - 1) v); [lia|].
  unfold header_append_tag_u32, header_append_tag_u64, header_append_tag_u16.
  eapply twp_bind; [apply (append_total hs 8); [done|done|lia]|]. intros h2 H2. change (8 + 4 + 4) with 16 in H2.
  apply upto_align8 in H2. change (ALIGN_8 16) with 20 in H2. unfold start_end in *.
  eapply (twp_bind _ _ (upto hs (if negb (no_ts c) then 32 else 20))).
  - destruct (negb (no_ts c)); [|by apply twp_ret]. eapply twp_mono; [apply (append_total hs 20); [done|done|lia]|].
    intros h3 H3. by change (20 + 4 + 8) with 32 in H3.
  - intros h3 H3. eapply twp_mono; [apply (append_total hs); [exact H3|done|lia]|]. intros h4 H4.
    eapply upto_mono; [exact H4|lia].
Qed.

Lemma delta_total c d i h :
  upto (header_sz c) i h -> delta_end c true i <= header_sz c ->
  (no_base_sha c = false -> exists bh, base_hash d = Some bh /\ zlen bh = header_digest_size (hash_algo c)) ->
  0 < header_digest_size (hash_algo c) ->
  twp (delta_header c d h) (upto (header_sz c) (delta_end c true i)).
Proof.
  intros Hu Hle Hbh Hd. unfold delta_header, delta_end in *. set (hs := header_sz c) in *. cbv zeta in Hle |- *.
  replace (0 <? header_digest_size (hash_algo c)) with true in * by (symmetry; apply Z.ltb_lt; lia). rewrite andb_true_r in *.
  set (n := header_digest_size (hash_algo c)) in *. set (j := ALIGN_4 (ALIGN_4 i + 16)) in *.
  assert (j + 16 <= hs) as Hj by (destruct (negb (no_base_sha c)); [pose proof (ALIGN_8_bound (j + 16)); lia|lia]).
  pose proof (ALIGN_4_bound (ALIGN_4 i + 16)) as Hj0. fold j in Hj0. unfold header_append_tag_u32.
  eapply twp_bind; [apply (append_total hs (ALIGN_4 i)); [by apply upto_align4|done|lia]|]. intros h1 H1.
  eapply twp_bind; [apply (append_total hs (ALIGN_4 i + 4 + 4)); [done|done|lia]|]. intros h2 H2.
  replace (ALIGN_4 i + 4 + 4 + 4 + 4) with (ALIGN_4 i + 16) in H2 by lia. apply upto_align4 in H2. fold j in H2.
  eapply twp_bind; [apply (append_total hs j); [done|done|lia]|]. intros h3 H3.
  eapply twp_bind; [apply (append_total hs (j + 4 + 4)); [done|done|lia]|]. intros h4 H4.
  replace (j + 4 + 4 + 4 + 4) with (j + 16) in H4 by lia.
  destruct (no_base_sha c); cbn [negb] in *; [by apply twp_ret|]. destruct (Hbh eq_refl) as (bh & -> & Hz).
  destruct (Z.eqb_spec n 0); [lia|]. rewrite Hz, Z.eqb_refl. cbn [negb].
  apply (append8_total hs (j + 16)); [done|lia|lia].
Qed.

Lemma custom_total hs tlvs : forall i h, upto hs i h -> custom_end tlvs i <= hs ->
  Forall (fun t => 0 <= tlv_len t <= MAX_TLV_LEN) tlvs ->
  Forall (fun t => tlv_len t <= zlen (match tlv_buffer t with None => header_store_u64_le (tlv_val t) | Some b => b end)) tlvs ->
  twp (custom_header hs tlvs h) (upto hs (custom_end tlvs i)).
Proof.
  induction tlvs as [|t tlvs IH]; intros i h Hu Hle H1 H2; cbn [custom_header]; [by apply twp_ret|].
  apply Forall_cons in H1 as [Ht1 H1], H2 as [Ht2 H2]. unfold custom_end in Hle |- *. cbn [fold_left] in Hle |- *.
  fold (custom_end tlvs (ALIGN_8 i + 4 + tlv_len t)) in Hle |- *.
  pose proof (custom_end_bound tlvs (ALIGN_8 i + 4 + tlv_len t) H1).
  eapply twp_bind; [apply (append8_total hs i); [done|lia|lia]|]. intros h' Hu'. by apply IH.
Qed.

Lemma dts_total c i h :
  upto (header_sz c) i h -> dts_end c i <= header_sz c -> 0 < header_digest_size (hash_algo c) <= 48 ->
  (forall f, dts_file c = Some f -> exists dg, dts_hash_file f (hash_algo c) = Ok (Some dg) /\ zlen dg = header_digest_size (hash_algo c)) ->
  twp (dts_header c h) (upto (header_sz c) (dts_end c i)).
Proof.
  intros Hu Hle Hn Hd. unfold dts_header, dts_end in *. destruct (dts_file c) as [f|]; [|by apply twp_ret].
  destruct (Hd f eq_refl) as (dg & -> & Hz). cbn [chk tbind]. rewrite bool_decide_true in * by done. cbn [andb] in *.
  replace (0 <? header_digest_size (hash_algo c)) with true in * by (symmetry; apply Z.ltb_lt; lia).
  rewrite Hz, u16_small by lia. apply append8_total; [done|lia|done].
Qed.

Lemma chain_total c i h :
  upto (header_sz c) i h ->
  let n := match cert_chain_file c with Some (Some chain) => zlen chain | _ => 0 end in
  chain_end n i <= header_sz c -> n <= MAX_TLV_LEN ->
  (forall f, cert_chain_file c = Some f -> exists chain, f = Some chain /\ 0 < zlen chain) ->
  twp (chain_header c h) (upto (header_sz c) (chain_end n i)).
Proof.
  intros Hu n Hle Hn Hc. unfold chain_header, chain_end in *. destruct (cert_chain_file c) as [f|]; [|by apply twp_ret].
  destruct (Hc f eq_refl) as (chain & -> & Hz). unfold n, MAX_TLV_LEN in *.
  replace (0 <? zlen chain) with true in * by (symmetry; apply Z.ltb_lt; lia). pose proof (ALIGN_8_bound i). destruct Hu as [U1 U2].
  destruct (Z.ltb_spec (2 ^ 32 - 1) (zlen chain)); [lia|]. destruct (Z.ltb_spec 65524 (zlen chain)); [lia|].
  destruct (Z.ltb_spec (header_sz c) (snd h + 4 + zlen chain)); [lia|]. apply append8_total; [done|lia|done].
Qed.

(** Digests have their documented lengths. *)
Definition digests_ok : Prop :=
  (forall k, zlen (hash_final (hash_api := tool_sha256) k) = 32) /\
  (forall k, zlen (hash_final (hash_api := tool_sha384) k) = 48) /\
  (forall k, zlen (hash_final (hash_api := tool_sha3_384) k) = 48).

Lemma hash_pieces_total (H : hash_api) ctx contents size chunk : 0 < chunk ->
  exists r, hash_pieces H ctx contents size chunk = Ok r.
Proof.
  intros Hc. destruct (wp_inv (hash_pieces H ctx contents size chunk) (fun _ => True)) as (r & -> & _); [|eauto].
  unfold hash_pieces. apply (wp_loop (fun _ => True) (fun '(pos, _) => Z.to_nat (size - pos))); [|done|cbn; lia].
  intros [pos x] _. case_if; [done|]. cbn zeta. apply wp_Ok. split; [done|]. case_if; lia.
Qed.

Lemma digest_total (H : hash_api) h image size chunk n : 0 < chunk -> 0 <= snd h <= zlen (fst h) ->
  (forall k, zlen (hash_final (hash_api := H) k) = n) ->
  twp (digest_of H h image size chunk) (fun dg => zlen dg = n).
Proof.
  intros Hc Hh Hn. unfold digest_of, rd_bytes.
  replace (_ && _) with true by (symmetry; rewrite !andb_true_iff, !Z.leb_le; lia). cbn [chk tbind].
  destruct (hash_pieces_total H (hash_update hash_init (slice (fst h) 0 (snd h))) image size chunk Hc) as (r & ->).
  cbn [chk tbind]. apply twp_ret, Hn.
Qed.

(** The key fields, whichever the algorithm. *)
Lemma keys_total (hd : hash_api) n c k1 k2 i h :
  (forall k, zlen (hash_final (hash_api := hd) k) = n) -> 0 <= n -> upto (header_sz c) (ALIGN_8 i) h ->
  ALIGN_8 (ALIGN_8 i + 4 + n) <= header_sz c ->
  twp (header_append_tag (header_sz c) h HDR_PUBKEY n (hash_final (hash_update (hash_api := hd) hash_init k1)))
    (fun h' => upto (header_sz c) (ALIGN_8 (ALIGN_8 i + 4 + n)) (align_8 h')) /\
  forall j h', upto (header_sz c) j h' -> j + 4 + n <= header_sz c ->
    twp (header_append_tag (header_sz c) h' HDR_SECONDARY_PUBKEY n (hash_final (hash_update (hash_api := hd) hash_init k2)))
      (upto (header_sz c) (j + 4 + n)).
Proof.
  intros Hn H0 Hu Hle. pose proof (ALIGN_8_bound (ALIGN_8 i + 4 + n)). split.
  - eapply twp_mono; [apply (append_total _ (ALIGN_8 i)); [done|rewrite Hn; lia|lia]|]. intros h' Hu'. by apply upto_align8.
  - intros j h' Hj Hjle. apply append_total; [done|rewrite Hn; lia|lia].
Qed.

Lemma hash_total c pubkey secondary_key image size i h :
  digests_ok -> 0 < header_digest_size (hash_algo c) -> upto (header_sz c) i h ->
  key_end c (zlen secondary_key) i <= header_sz c ->
  twp (hash_header c pubkey secondary_key image size h) (fun '(h', digest, dsz) =>
    upto (header_sz c) (key_end c (zlen secondary_key) i) h' /\
    zlen digest = header_digest_size (hash_algo c) /\ dsz = header_digest_size (hash_algo c)).
Proof.
  intros (D1 & D2 & D3) Hn Hu Hle. unfold hash_header. apply upto_align8 in Hu. set (hs := header_sz c) in *.
  assert (forall H n chunk h2 l, (forall k, zlen (hash_final (hash_api := H) k) = n) -> 0 < chunk -> l <= hs -> upto hs l h2 ->
    twp (let? digest := digest_of H h2 image size chunk in ret_ok (h2, digest, n)) (fun '(h', digest, dsz) =>
      upto hs l h' /\ zlen digest = n /\ dsz = n)) as Hdig.
  { intros H n chunk h2 l Hl Hc Hls [U1 U2]. eapply twp_bind; [apply (digest_total H _ _ _ _ n); [done|lia|done]|].
    intros dg Hdg. by apply twp_ret. }
  unfold key_end in *. unfold header_digest_size in *. destruct (Z.eqb_spec (hash_algo c) HDR_SHA256) as [Ea|Ea].
  - cbv zeta in *. set (j := ALIGN_8 (ALIGN_8 i + 4 + 32)) in *.
    destruct (keys_total tool_sha256 32 c pubkey secondary_key i (align_8 h)) as [K1 K2]; [done|lia|done| |].
    { fold j hs. revert Hle. case_if; aligns; lia. }
    fold j hs in K1, K2. eapply twp_bind; [|intros h2 Hu2; by apply (Hdig _ 32 32 h2 _ D1); [lia|exact Hle|exact Hu2]].
    unfold sha256_header. fold hs. eapply twp_bind; [exact K1|]. intros h1 H1.
    destruct (hybrid c && (0 <? zlen secondary_key)).
    + eapply (twp_bind _ _ (upto hs (ALIGN_8 (j + 6) + 4 + 32))).
      * unfold header_append_tag_u16. pose proof (ALIGN_8_bound (ALIGN_8 (j + 6) + 4 + 32)). pose proof (ALIGN_8_bound (j + 6)).
        eapply twp_bind; [apply (append_total hs j); [done|done|lia]|]. intros h2 H2.
        replace (j + 4 + 2) with (j + 6) in H2 by lia. apply K2; [by apply upto_align8|lia].
      * intros h2 H2. apply twp_ret. rewrite <- (ALIGN_8_idem (ALIGN_8 (j + 6) + 4 + 32)). by apply upto_align8, upto_align8.
    + cbn [tbind ret_ok]. apply twp_ret. unfold j. rewrite <- (ALIGN_8_idem (ALIGN_8 i + 4 + 32)), <- (ALIGN_8_idem (ALIGN_8 (ALIGN_8 i + 4 + 32))).
      fold j. by apply upto_align8, upto_align8.
  - destruct (Z.eqb_spec (hash_algo c) HDR_SHA384) as [Eb|Eb].
    + cbv zeta in *. set (j := ALIGN_8 (ALIGN_8 i + 4 + 48)) in *.
      assert (upto hs (ALIGN_8 i) (align_8 (align_8 (align_8 h)))) as Hu3
        by (rewrite <- (ALIGN_8_idem i), <- (ALIGN_8_idem (ALIGN_8 i)); by apply upto_align8, upto_align8).
      destruct (keys_total tool_sha384 48 c pubkey secondary_key i (align_8 (align_8 (align_8 h)))) as [K1 K2]; [done|lia|done| |].
      { fold j hs. revert Hle. case_if; aligns; lia. }
      fold j hs in K1, K2. eapply twp_bind; [|intros h2 Hu2; by apply (Hdig _ 48 32 h2 _ D2); [lia|exact Hle|exact Hu2]].
      unfold sha384_header. fold hs. eapply twp_bind; [exact K1|]. intros h1 H1.
      destruct (hybrid c && (0 <? zlen secondary_key)); [|by apply twp_ret].
      unfold header_append_tag_u16. pose proof (ALIGN_8_bound (j + 6 + 4 + 48)).
      eapply twp_bind; [apply (append_total hs j); [done|done|lia]|]. intros h2 H2.
      replace (j + 4 + 2) with (j + 6) in H2 by lia. eapply twp_bind; [apply K2; [done|lia]|]. intros h3 H3.
      apply twp_ret. by apply upto_align8.
    + destruct (Z.eqb_spec (hash_algo c) HDR_SHA3_384) as [Ec|Ec]; [|lia].
      cbv zeta in *. set (j := ALIGN_8 (ALIGN_8 i + 4 + 48)) in *.
      destruct (keys_total tool_sha3_384 48 c pubkey secondary_key i (align_8 h)) as [K1 K2]; [done|lia|done| |].
      { fold j hs. revert Hle. case_if; aligns; lia. }
      fold j hs in K1, K2. eapply twp_bind; [|intros h2 Hu2; by apply (Hdig _ 48 128 h2 _ D3); [lia|exact Hle|exact Hu2]].
      unfold sha3_header. fold hs. eapply twp_bind; [exact K1|]. intros h1 H1.
      assert (ALIGN_8 j = j) as Hj by apply ALIGN_8_idem.
      destruct (hybrid c && (0 <? zlen secondary_key)).
      * eapply (twp_bind _ _ (upto hs (ALIGN_8 (j + 6 + 4 + 48)))).
        -- unfold header_append_tag_u16. pose proof (ALIGN_8_bound (j + 6 + 4 + 48)).
           eapply twp_bind; [apply (append_total hs j); [rewrite <- Hj; by apply upto_align8|done|lia]|]. intros h2 H2.
           replace (j + 4 + 2) with (j + 6) in H2 by lia. eapply twp_bind; [apply K2; [done|lia]|]. intros h3 H3.
           apply twp_ret. by apply upto_align8.
        -- intros h2 H2. apply twp_ret. rewrite <- ALIGN_8_idem. by apply upto_align8.
      * cbn [tbind ret_ok]. apply twp_ret. rewrite <- Hj. by apply upto_align8.
Qed.

(** The signing functions deliver signatures no longer than announced. *)
Definition signs (c : cmd_options) (digest uninit : list Z) : Prop :=
  sign c <> NO_SIGN -> sha_only c = false /\
  (exists sig sz, main_signature c digest = inl (sig, sz) /\ 0 <= sz <= signature_sz c /\ sz <= zlen sig) /\
  (exists sig sz, secondary_signature c digest = inl (sig, sz) /\
     (hybrid c = true -> 0 <= sz <= secondary_signature_sz c /\ sz <= zlen sig)) /\
  (exists pol sz saved, policy_signature c (signature_sz c) uninit = inl (pol, sz, saved) /\
     (policy_sign c = true -> 0 <= sz <= (if policy_sz c =? 0 then signature_sz c else policy_sz c) /\ sz + 4 <= zlen pol)).

Lemma sign_total c digest uninit i h :
  upto (header_sz c) i h -> sign_end c i <= header_sz c -> signs c digest uninit ->
  0 <= signature_sz c < 2 ^ 16 -> 0 <= secondary_signature_sz c < 2 ^ 16 -> 0 <= policy_sz c < 2 ^ 16 - 4 ->
  signature_sz c < 2 ^ 16 - 4 ->
  twp (sign_header c digest uninit h) (fun '(h', _, c') => upto (header_sz c) (sign_end c i) h' /\
    exists s1 s2 s3, c' = set_sizes (header_sz c) s1 s2 s3 c).
Proof.
  intros Hu Hle Hs B1 B2 B3 B4. unfold sign_header, sign_end in *. set (hs := header_sz c) in *. cbv zeta in *.
  destruct (Z.eqb_spec (sign c) NO_SIGN) as [En|En]; cbn [negb] in *.
  { apply twp_ret. split; [done|]. by exists (signature_sz c), (secondary_signature_sz c), (policy_sz c); destruct c. }
  destruct (Hs En) as (-> & (sig & sz & -> & S1 & S2) & (sig2 & sz2 & -> & S3) & (pol & psz & saved & -> & S4)). cbn [tbind].
  destruct (Z.ltb_spec (2 ^ 16 - 1) sz); [lia|].
  replace (hybrid c && (2 ^ 16 - 1 <? sz2)) with false
    by (destruct (hybrid c); [|done]; symmetry; apply Z.ltb_ge; specialize (S3 eq_refl); lia).
  set (i1 := ALIGN_8 i + 4 + signature_sz c) in *.
  set (i2 := if hybrid c then ALIGN_8 i1 + 4 + secondary_signature_sz c else i1) in *.
  set (pm := if policy_sz c =? 0 then signature_sz c else policy_sz c) in *.
  assert (0 <= pm < 2 ^ 16 - 4) as Hpm by (unfold pm; case_if; lia).
  assert (i1 <= i2) as H12 by (unfold i2; case_if; [pose proof (ALIGN_8_bound i1)|]; lia).
  assert (i2 <= (if policy_sign c then ALIGN_8 i2 + 4 + (pm + 4) else i2)) as H23 by (case_if; [pose proof (ALIGN_8_bound i2)|]; lia).
  eapply twp_bind; [apply (append8_total hs i); [done|lia|lia]|]. intros h1 H1.
  eapply (twp_bind _ _ (upto hs i2)).
  { apply (upto_mono _ _ i1) in H1; [|lia]. unfold i2 in *. destruct (hybrid c); [|by apply twp_ret]. specialize (S3 eq_refl).
    eapply twp_mono; [apply (append8_total hs i1); [done|lia|lia]|]. intros h2 H2. eapply upto_mono; [done|lia]. }
  intros h2 H2. eapply (twp_bind _ _ (upto hs (if policy_sign c then ALIGN_8 i2 + 4 + (pm + 4) else i2))).
  { destruct (policy_sign c); [|by apply twp_ret]. specialize (S4 eq_refl). rewrite u16_small by lia.
    eapply twp_mono; [apply (append8_total hs i2); [done|lia|lia]|]. intros h3 H3. eapply upto_mono; [done|lia]. }
  intros h3 H3. apply twp_ret. split; [done|]. by exists sz, sz2, psz.
Qed.

(** What the tool is given: readable files of the announced sizes, signing
    functions that work, no encryption, and an image that fits its partition. *)
Record inputs_ok (c : cmd_options) (e : environment) (d : option delta_info) (image : list Z) (uninit : list Z)
    (chain_sz secondary_key_sz : Z) : Prop := InputsOk {
  in_sizes : sizes_ok c chain_sz;
  in_digests : digests_ok;
  in_header : 8 <= header_sz c < 2 ^ 32;
  in_version : exists v rest, strtoul 10 (fw_version c) = (v, false, rest) /\ v < 2 ^ 32;
  in_delta : forall x, d = Some x -> no_base_sha c = false ->
    exists bh, base_hash x = Some bh /\ zlen bh = header_digest_size (hash_algo c);
  in_tlvs : Forall (fun t => tlv_len t <= zlen (match tlv_buffer t with None => header_store_u64_le (tlv_val t) | Some b => b end))
    (custom_tlv c);
  in_dts : forall f, dts_file c = Some f ->
    exists dg, dts_hash_file f (hash_algo c) = Ok (Some dg) /\ zlen dg = header_digest_size (hash_algo c);
  in_chain : chain_sz = match cert_chain_file c with Some (Some chain) => zlen chain | _ => 0 end /\
    forall f, cert_chain_file c = Some f -> exists chain, f = Some chain /\ 0 < zlen chain;
  in_signs : forall hs digest, zlen digest = header_digest_size (hash_algo c) -> signs (set_header_sz hs c) digest uninit;
  in_policy : signature_sz c < 2 ^ 16 - 4 /\ policy_sz c < 2 ^ 16 - 4;
  in_image : zlen image < 2 ^ 32;
  in_partition : forall c1, fit_header c (bool_decide (is_Some d)) secondary_key_sz = inl c1 ->
    check_partition c1 e (zlen image) = ret_ok tt;
  in_plain : encrypt c = ENC_OFF;
}.

Lemma grow_spec fuel n r : 0 < n -> r <= 2 ^ 31 -> r <= n * 2 ^ Z.of_nat fuel ->
  (0 < fuel)%nat -> exists n', grow (S fuel) n r = Some n' /\ r <= n' /\ n <= n'.
Proof.
  intros Hn Hr. revert n Hn. induction fuel as [|f IH]; intros n Hn Hb Hf; [lia|].
  cbn [grow]. destruct (Z.ltb_spec n r); cbn [negb]; [|exists n; split; [done|lia]].
  destruct (Z.ltb_spec ((2 ^ 32 - 1) / 2) n) as [Hc|Hc]; [change ((2 ^ 32 - 1) / 2) with (2 ^ 31 - 1) in Hc; lia|].
  destruct f as [|f].
  - cbn [grow]. destruct (Z.ltb_spec (2 * n) r); cbn [negb]; [cbn in Hb; lia|]. exists (2 * n). split_and!; try done; lia.
  - destruct (IH (2 * n)) as (n' & E1 & E2 & E3); [lia| |lia|].
    + rewrite Nat2Z.inj_succ, Z.pow_succ_r in Hb by lia. lia.
    + exists n'. split; [exact E1|]. lia.
Qed.

(** The options that let the tool enlarge the header. *)
Definition enlarges (c : cmd_options) : bool :=
  bool_decide (is_Some (cert_chain_file c)) || (0 <? zlen (custom_tlv c)) || bool_decide (is_Some (dts_file c)).

(** The header the tool settles on holds every field. *)
Lemma fit_total c is_diff chain_sz k :
  sizes_ok c chain_sz -> 0 < header_sz c ->
  (enlarges c = true -> chain_sz = match cert_chain_file c with Some (Some chain) => zlen chain | _ => 0 end) ->
  header_required_size c is_diff chain_sz k <= header_sz c \/ enlarges c = true ->
  twp (fit_header c is_diff k) (fun c1 =>
    (exists hs, c1 = set_header_sz hs c /\ header_sz c <= hs) /\ room c is_diff chain_sz k <= header_sz c1).
Proof.
  intros Hs H0 Hc Hr. destruct (required_room c is_diff chain_sz k Hs) as [Er Hb]. rewrite Er in Hr.
  assert (c = set_header_sz (header_sz c) c) as Hid by (by destruct c).
  unfold fit_header. fold (enlarges c). destruct (enlarges c) eqn:Ee.
  - pose proof (so_chain _ _ Hs) as Hch. rewrite (Hc eq_refl) in *.
    assert (twp (match cert_chain_file c with
       | Some (Some chain) => if MAX_TLV_LEN <? zlen chain then fail (-1) else ret_ok (zlen chain)
       | _ => ret_ok 0 end) (eq (match cert_chain_file c with Some (Some chain) => zlen chain | _ => 0 end))) as Hx.
    { destruct (cert_chain_file c) as [[chain|]|]; try by apply twp_ret.
      destruct (Z.ltb_spec MAX_TLV_LEN (zlen chain)); [lia|by apply twp_ret]. }
    eapply twp_bind; [exact Hx|]. intros ? <-. rewrite Er. destruct (Z.ltb_spec (header_sz c) (room c is_diff (match cert_chain_file c with Some (Some chain) => zlen chain | _ => 0 end) k)).
    + destruct (grow_spec 32 256 (room c is_diff (match cert_chain_file c with Some (Some chain) => zlen chain | _ => 0 end) k))
        as (n & -> & G1 & G2); [lia|exact Hb|lia|lia|].
      apply twp_ret. split; [exists n; split; [done|lia]|exact G1].
    + apply twp_ret. split; [exists (header_sz c); split; [done|lia]|done].
  - apply twp_ret. split; [exists (header_sz c); split; [done|lia]|]. destruct Hr as [Hr|Hr]; [done|done].
Qed.

Lemma delta_end_le c is_diff i : 0 < header_digest_size (hash_algo c) -> i <= delta_end c is_diff i.
Proof. intros Hn. unfold delta_end. destruct is_diff; [|lia]. cbv zeta. case_if; aligns; lia. Qed.
Lemma dts_end_le c i : 0 < header_digest_size (hash_algo c) -> i <= dts_end c i.
Proof. intros Hn. unfold dts_end. case_if; aligns; lia. Qed.
Lemma chain_end_le n i : i <= chain_end n i.
Proof. unfold chain_end. case_if; bools; aligns; lia. Qed.
Lemma key_end_le c k i : 0 < header_digest_size (hash_algo c) -> i <= key_end c k i.
Proof. intros Hn. unfold key_end. cbv zeta. repeat case_if; aligns; lia. Qed.
Lemma sign_end_le c i : 0 <= signature_sz c -> 0 <= secondary_signature_sz c -> 0 <= policy_sz c -> i <= sign_end c i.
Proof. intros. unfold sign_end. destruct (negb _); [|lia]. cbv zeta. repeat case_if; aligns; lia. Qed.

(** Nothing in the layout depends on the size of the header. *)
Lemma room_header_sz hs c is_diff n k : room (set_header_sz hs c) is_diff n k = room c is_diff n k.
Proof. done. Qed.

(** Padding to the end of the header. *)
Lemma pad_total hs i h : upto hs i h -> i <= hs ->
  twp (chk (blit (fst h) (snd h) (replicate (Z.to_nat (hs - snd h)) 0xFF))) (fun b => zlen b = hs).
Proof.
  intros [H1 H2] Hi. assert (zlen (replicate (Z.to_nat (hs - snd h)) 0xFF) = hs - snd h) as Hz
    by (unfold zlen; rewrite length_replicate; lia).
  rewrite blit_put by lia. eexists. split; [done|]. rewrite zlen_put; lia.
Qed.

(** The fields one after another, and what the tool goes on to do. *)
Lemma fields_total {A} (k : hdr_state * option (list Z) * cmd_options -> tool A) (Q : A -> Prop) c d pubkey secondary_key image ctime uninit chain_sz :
  let is_diff := bool_decide (is_Some d) in
  sizes_ok c chain_sz -> digests_ok -> room c is_diff chain_sz (zlen secondary_key) <= header_sz c ->
  (exists v rest, strtoul 10 (fw_version c) = (v, false, rest) /\ v < 2 ^ 32) ->
  (forall x, d = Some x -> no_base_sha c = false ->
    exists bh, base_hash x = Some bh /\ zlen bh = header_digest_size (hash_algo c)) ->
  Forall (fun t => tlv_len t <= zlen (match tlv_buffer t with None => header_store_u64_le (tlv_val t) | Some b => b end)) (custom_tlv c) ->
  (forall f, dts_file c = Some f -> exists dg, dts_hash_file f (hash_algo c) = Ok (Some dg) /\ zlen dg = header_digest_size (hash_algo c)) ->
  chain_sz = match cert_chain_file c with Some (Some chain) => zlen chain | _ => 0 end ->
  (forall f, cert_chain_file c = Some f -> exists chain, f = Some chain /\ 0 < zlen chain) ->
  (forall digest, zlen digest = header_digest_size (hash_algo c) -> signs c digest uninit) -> signature_sz c < 2 ^ 16 - 4 -> policy_sz c < 2 ^ 16 - 4 ->
  (forall h saved s1 s2 s3, upto (header_sz c) (header_sz c) h -> twp (k (h, saved, set_sizes (header_sz c) s1 s2 s3 c)) Q) ->
  twp (let? h := start_header c is_diff (zlen image) ctime in
       let? h := (match d with Some d => delta_header c d h | None => ret_ok h end) in
       let? h := custom_header (header_sz c) (custom_tlv c) h in
       let? h := dts_header c h in
       let? h := chain_header c h in
       let? (h, digest, digest_sz) := hash_header c pubkey secondary_key image (zlen image) h in
       let? h := header_append_tag (header_sz c) h (hash_algo c) digest_sz digest in
       let? r := sign_header c digest uninit h in
       k r) Q.
Proof.
  intros is_diff Hs Hd Hroom Hv Hdelta Htl Hdts Hcs Hch Hsg P1 P2 Hk. pose proof Hs as [Hh Ht Hct Hcn (S1 & S2 & S3)].
  unfold room in Hroom. set (n := header_digest_size (hash_algo c)) in *.
  set (i1 := start_end c) in *. set (i2 := delta_end c is_diff i1) in *. set (i3 := custom_end (custom_tlv c) i2) in *.
  set (i4 := dts_end c i3) in *. set (i5 := chain_end chain_sz i4) in *. set (i6 := key_end c (zlen secondary_key) i5) in *.
  pose proof (delta_end_le c is_diff i1 ltac:(lia)) as B2. pose proof (custom_end_bound (custom_tlv c) i2 Ht) as B3.
  pose proof (dts_end_le c i3 ltac:(lia)) as B4. pose proof (chain_end_le chain_sz i4) as B5.
  pose proof (key_end_le c (zlen secondary_key) i5 ltac:(lia)) as B6.
  pose proof (sign_end_le c (i6 + 4 + n) ltac:(lia) ltac:(lia) ltac:(lia)) as B7. fold i2 in B2. fold i3 in B3. fold i4 in B4. fold i5 in B5. fold i6 in B6.
  eapply twp_bind; [apply start_total; [fold i1; lia|done]|]. fold i1. intros h1 H1.
  eapply (twp_bind _ _ (upto (header_sz c) i2)).
  { unfold i2, is_diff in *. destruct d as [x|]; [|by apply twp_ret]. rewrite bool_decide_true in * by done.
    apply delta_total; [done|lia|by apply Hdelta|lia]. }
  intros h2 H2. eapply twp_bind; [apply (custom_total _ _ i2); [done|fold i3; lia|done|done]|]. fold i3. intros h3 H3.
  eapply twp_bind; [apply (dts_total c i3); [done|fold i4; lia|done|done]|]. fold i4. intros h4 H4.
  eapply twp_bind; [apply (chain_total c i4); [done|rewrite <- Hcs; fold i5; lia|rewrite <- Hcs; lia|done]|].
  rewrite <- Hcs. fold i5. intros h5 H5.
  eapply twp_bind; [apply (hash_total c pubkey secondary_key image (zlen image) i5); [done|lia|done|fold i6; lia]|].
  fold i6. intros [[h6 digest] dsz] (H6 & Hz & ->). fold n in Hz |- *.
  eapply twp_bind; [apply (append_total _ i6); [done|lia|lia]|]. intros h7 H7.
  eapply twp_bind; [apply (sign_total c digest uninit (i6 + 4 + n)); [done|done|by apply Hsg|lia..]|].
  intros [[h8 saved] c'] (H8 & s1 & s2 & s3 & ->). apply Hk. eapply upto_mono; [exact H8|done].
Qed.

(** C25: The signing tool produces a plain image whenever the header is announced large
    enough for [header_required_size], or may be enlarged: that size is enough for
    all the fields the tool writes.  With readable input files of the announced
    sizes (a certificate chain not empty), a digest and signing functions that
    work, no encryption and an image that fits its partition ([inputs_ok]), no
    field overflows the header, no read leaves a buffer, and the output is a
    header of the size chosen followed by the whole image. *)
Theorem sign_tool_total c e d pubkey image ctime secondary_key uninit chain_sz :
  inputs_ok c e d image uninit chain_sz (zlen secondary_key) ->
  header_required_size c (bool_decide (is_Some d)) chain_sz (zlen secondary_key) <= header_sz c \/ enlarges c = true ->
  exists out c', make_header_ex c e d pubkey (Some image) ctime secondary_key uninit = inl (out, c') /\
    header_sz c <= header_sz c' /\
    header_required_size c (bool_decide (is_Some d)) chain_sz (zlen secondary_key) <= header_sz c' /\
    zlen (signed_image out) = header_sz c' + (if header_only c then 0 else zlen image) /\ encrypted_image out = None.
Proof.
  intros Hin Hreq. pose proof Hin as [Hs Hd Hh Hv Hdl Htl Hdts (Hc1 & Hc2) Hsg (P1 & P2) Him Hpt Hpl].
  destruct (required_room c (bool_decide (is_Some d)) chain_sz (zlen secondary_key) Hs) as [Er _].
  destruct (fit_total c (bool_decide (is_Some d)) chain_sz (zlen secondary_key) Hs) as (c1 & Hf & (hs & -> & Hhs) & Hrm); [lia|done|done|].
  specialize (Hpt _ Hf). rewrite Er. cbn [set_header_sz set_sizes header_sz] in Hrm.
  enough (twp (make_header_ex c e d pubkey (Some image) ctime secondary_key uninit) (fun '(out, c') =>
    header_sz c' = hs /\ zlen (signed_image out) = header_sz c' + (if header_only c then 0 else zlen image) /\
    encrypted_image out = None)) as ([out c'] & -> & Hx & Hy & Hz) by (exists out, c'; split_and!; try done; lia).
  unfold make_header_ex. rewrite Hf. cbn [tbind]. rewrite (u32_small (zlen image)) by (pose proof (zlen_nonneg image); lia).
  apply (fields_total _ _ (set_header_sz hs c) d pubkey secondary_key image ctime uninit chain_sz); try done; [by destruct Hs; split|exact (Hsg hs)|].
  intros h saved s1 s2 s3 Hu. cbn [set_header_sz set_sizes header_sz header_only encrypt] in Hu |- *.
  eapply twp_bind; [apply (pad_total hs hs); [done|lia]|]. intros header Hl.
  eapply (twp_bind _ _ (fun _ => True)).
  { exists tt. split; [|done]. exact Hpt. }
  intros _ _. eapply (twp_bind _ _ (fun b => zlen b = if header_only c then 0 else zlen image)).
  { destruct (header_only c); [by apply twp_ret|]. rewrite copy_image_spec. by exists image. }
  intros body Hb. unfold encrypt_output. cbn [set_header_sz set_sizes header_only encrypt]. rewrite Hpl.
  change (negb (ENC_OFF =? ENC_OFF)) with false. rewrite andb_false_r. cbn [tbind ret_ok]. apply twp_ret.
  cbn [header_sz set_sizes signed_image encrypted_image]. rewrite zlen_app.
  split_and!; [done|by rewrite Hl, Hb|done].
Qed.

End Room.
