(* ===== verification/SignClaims.v ===== *)
(** * SignClaims: the tool at work

    Concrete parameters for the signing tool, the tool and the bootloader on a
    concrete image, and what the tool does when the files of an external
    signature are missing or hold a policy. *)

From Stdlib Require Import ZArith Lia.
From stdpp Require Import prelude.
From S2P Require Import Prelude Flash Trailer Image ImageSpec DeltaUpdate Stream Sign SignSpec SignHeader SignBoot SignRoom.

Local Open Scope Z_scope.

(** ** A signature from outside *)

Section Manual.
Context {T : tool_hash} {W : sign_api} {E : stream_api}.

(** The same options with no signature file to open. *)
Definition without_signature_file (x : cmd_options) : cmd_options :=
  mkCmd (manual_sign x) (policy_sign x) (self_update x) (sha_only x) (header_only x) (encrypt x)
    (hash_algo x) (sign x) (hybrid x) (secondary_sign x) (delta x) (no_ts x) (sign_wenc x)
    (fw_version x) None (policy_file x) (encrypt_key_file x) (cert_chain_file x)
    (dts_file x) (no_base_sha x) (header_sz x) (signature_sz x) (secondary_signature_sz x) (policy_sz x)
    (partition_id x) (custom_tlv x).

Lemma fit_without_file c is_diff k c1 :
  fit_header c is_diff k = inl c1 -> fit_header (without_signature_file c) is_diff k = inl (without_signature_file c1).
Proof.
  unfold fit_header. cbn [without_signature_file cert_chain_file custom_tlv dts_file header_sz].
  destruct (_ || _); [|by intros [= <-]]. 
  destruct (match cert_chain_file c with Some (Some chain) => _ | _ => _ end) as [n|s]; [|done]. cbn [tbind].
  change (header_required_size (without_signature_file c) is_diff n k) with (header_required_size c is_diff n k).
  destruct (header_sz c <? _); [|by intros [= <-]]. destruct (grow _ _ _); [by intros [= <-]|done].
Qed.

(** In manual mode the tool reports success when the signature file is
    missing.  Options with which it writes a signed image make it return 0 and
    leave no image at all once the signature file cannot be opened: [ret] still
    holds the 0 of the last digest call at the jump to [failure]. *)
Theorem missing_signature_returns_0 c e d pubkey image ctime secondary_key uninit out c' :
  make_header_ex c e d pubkey (Some image) ctime secondary_key uninit = inl (out, c') ->
  manual_sign c = true -> sign c <> NO_SIGN ->
  make_header_ex (without_signature_file c) e d pubkey (Some image) ctime secondary_key uninit = inr (Failure 0 None).
Proof.
  intros H Hm Hs. unfold make_header_ex in *. destruct (fit_header c _ _) as [c1|s] eqn:Ef; [|done].
  rewrite (fit_without_file _ _ _ _ Ef). cbn [tbind] in *.
  assert (manual_sign c1 = true /\ sign c1 <> NO_SIGN) as [Hm1 Hs1].
  { unfold fit_header in Ef. destruct (_ || _); [|by injection Ef as <-].
    destruct (match cert_chain_file c with Some (Some chain) => _ | _ => _ end); [|done]. cbn [tbind] in Ef.
    destruct (header_sz c <? _); [|by injection Ef as <-]. destruct (grow _ _ _); [by injection Ef as <-|done]. }
  change (start_header (without_signature_file c1)) with (start_header c1).
  change (delta_header (without_signature_file c1)) with (delta_header c1).
  change (dts_header (without_signature_file c1)) with (dts_header c1).
  change (chain_header (without_signature_file c1)) with (chain_header c1).
  change (hash_header (without_signature_file c1)) with (hash_header c1).
  cbn [without_signature_file header_sz custom_tlv hash_algo].
  destruct (start_header c1 _ _ _) as [h1|]; [|done]. cbn [tbind] in *.
  destruct (match d with Some d => _ | None => _ end) as [h2|]; [|done]. cbn [tbind] in *.
  destruct (custom_header _ _ _) as [h3|]; [|done]. cbn [tbind] in *.
  destruct (dts_header _ _) as [h4|]; [|done]. cbn [tbind] in *.
  destruct (chain_header _ _) as [h5|]; [|done]. cbn [tbind] in *.
  destruct (hash_header _ _ _ _ _ _) as [[[h6 digest] n]|]; [|done]. cbn [tbind] in *.
  destruct (header_append_tag _ _ _ _ _) as [h7|]; [|done]. cbn [tbind] in *.
  unfold sign_header in *. cbn [without_signature_file sign sha_only].
  rewrite (proj2 (Z.eqb_neq _ _) Hs1) in *. cbn [negb] in *. destruct (sha_only c1); [done|].
  unfold main_signature in *. cbn [without_signature_file manual_sign signature_file]. by rewrite Hm1.
Qed.

(** In manual mode a signed policy loses its PCR mask.  The policy file is
    the 4-byte mask and the signature; the tool reads both to the start of the
    buffer, so the policy field and the saved file hold the signature without
    the mask, followed by 4 bytes the tool never wrote when the signature has the
    announced size. *)
Lemma manual_policy_loses_mask c mask sig uninit :
  policy_sign c = true -> manual_sign c = true -> policy_file c = Some (mask ++ sig) ->
  zlen mask = 4 -> 4 <= zlen sig -> zlen uninit = 4 ->
  policy_signature c (zlen sig) uninit = inl (sig ++ uninit, zlen sig, Some (sig ++ uninit)).
Proof.
  intros Hp Hm Hf H4 Hs Hu. unfold policy_signature. rewrite Hp, Hm, Hf. cbn [negb]. rewrite zlen_app.
  destruct (Z.ltb_spec (zlen mask + zlen sig) 4); [lia|].
  rewrite take_app_length', drop_app_length' by (unfold zlen in *; lia).
  assert (zlen (replicate (Z.to_nat (zlen sig)) 0 ++ uninit) = zlen sig + 4) as Hz
    by (rewrite zlen_app, Hu; unfold zlen; rewrite length_replicate; lia).
  rewrite blit_put by lia. cbn [chk tbind]. rewrite take_ge by (unfold zlen; lia).
  destruct (Z.leb_spec (zlen sig) 0); [lia|]. rewrite blit_put by (rewrite ?zlen_put; lia). cbn [chk tbind].
  match goal with |- context [put ?b 0 sig] => assert (put b 0 sig = sig ++ uninit) as -> end.
  { apply buf_ext; rewrite !zlen_put by (rewrite ?zlen_put; lia); rewrite Hz; [rewrite zlen_app; lia|]. intros i Hi.
    rewrite at_put by (rewrite ?zlen_put; lia). destruct (Z.lt_ge_cases i (zlen sig)).
    - rewrite at_app_l by lia. case_if; bools; try lia. f_equal. lia.
    - rewrite at_app_r by lia. case_if; bools; try lia. rewrite at_put by lia. case_if; bools; try lia.
      rewrite at_app_r by (unfold zlen in *; rewrite length_replicate; lia). f_equal. unfold zlen in *. rewrite length_replicate. lia. }
  cbn [ret_ok tbind]. assert (rd_bytes (sig ++ uninit) 0 (zlen sig + 4) = Ok (sig ++ uninit)) as ->; [|done].
  rewrite <- Hu, <- zlen_app. unfold rd_bytes. pose proof (zlen_nonneg (sig ++ uninit)).
  case_if; [by rewrite slice_full|]. exfalso. apply andb_false_iff in E0 as [E0|E0]; bools; lia.
Qed.

End Manual.

(** ** Concrete parameters *)

Module ExampleSign.
Export ExampleApi ToyStream.

(** 48-byte digests made of the toy one. *)
Definition toy_hash48 : hash_api := {|
  hctx := list Z;
  hash_init := [];
  hash_update := fun k a => k ++ a;
  hash_final := fun k => u8 <$> take 48 (k ++ replicate 48 0);
|}.
#[export] Instance toy_tool_hash : tool_hash := {|
  tool_sha256 := toy_hash; tool_sha384 := toy_hash48; tool_sha3_384 := toy_hash48 |}.

(** Ed25519 signs a 32-byte digest with the digest itself, padded; no other
    algorithm is built in. *)
Definition no_sig : Z * list Z := (-174, []).
#[export] Instance toy_sign : sign_api := {|
  wc_InitRng := 0;
  wc_ed25519_sign_msg := fun _ digest _ => if zlen digest =? 32 then (0, digest ++ replicate 32 0) else (-1, []);
  wc_ed448_sign_msg := fun _ _ _ => no_sig;
  wc_ecc_sign_hash_ex := fun _ _ => (-174, ([], []));
  wc_EncodeSignature := fun digest _ => digest;
  wc_RsaSSL_Sign := fun _ _ _ => no_sig;
  wc_RsaPSS_Sign := fun _ _ _ _ => no_sig;
  lms_reload := fun _ => -174;
  wc_LmsKey_Sign := fun _ _ _ => no_sig;
  xmss_reload := fun _ => -174;
  wc_XmssKey_Sign := fun _ _ _ => no_sig;
  wc_MlDsaKey_SignCtx := fun _ _ _ => no_sig;
  NOT_COMPILED_IN := -174;
|}.

#[export] Instance sign_cfg : config := {|
  WOLFBOOT_SECTOR_SIZE := 512;
  WOLFBOOT_PARTITION_SIZE := 4096;
  WOLFBOOT_PARTITION_BOOT_ADDRESS := 0x1000;
  WOLFBOOT_PARTITION_UPDATE_ADDRESS := 0x2000;
  WOLFBOOT_PARTITION_SWAP_ADDRESS := 0x3000;
  IMAGE_HEADER_SIZE := 256;
  FLASHBUFFER_SIZE := 8;
|}.

(** Version 7 for partition 1, with a 2-byte custom field. *)
Definition options (manual : bool) (signature_file : file) : cmd_options :=
  mkCmd manual false false false false ENC_OFF HDR_SHA256 SIGN_ED25519 false 0 false false false
    [55] signature_file None None None None false 256 64 0 0 1 [mkTlv 0x34 2 0x4142 None].
Definition firmware : list Z := [9; 8; 7; 6; 5].
Definition no_env : environment := mkEnv None None None None None.

Definition signed : tool (outputs * cmd_options) :=
  make_header_ex (options false None) no_env None key (Some firmware) 0 [] [].
Definition output : list Z := match signed with inl (out, _) => signed_image out | inr _ => [] end.

(** The output in the boot partition. *)
Definition flash : mem := fun a => if in_range 0x1000 (zlen output) a then at_ output (a - 0x1000) else 0xFF.

Lemma output_bytes : bytes output.
Proof.
  assert (forallb (fun b => (0 <=? b) && (b <? 256)) output = true) as H by (vm_compute; reflexivity).
  apply Forall_forall. intros b Hb. rewrite forallb_forall in H. specialize (H b). rewrite <- list_elem_of_In in H.
  specialize (H Hb). bools. split; done.
Qed.

Lemma flash_ok : mem_ok flash.
Proof.
  intros a. unfold flash. case_if; [|done]. apply in_range_true in E. apply at_total_byte; [apply output_bytes|lia].
Qed.

Lemma flash_loaded : loaded flash 0x1000 output.
Proof. intros i Hi. unfold flash. rewrite (proj2 (in_range_true _ _ _)) by lia. f_equal. lia. Qed.

Lemma toy_enrolled : enrolled key 1 0.
Proof.
  split; try done.
  - intros j Hj _. change (0 <= j < 1) in Hj. lia.
  - intros digest sig. change (wc_ed25519_sign_msg 0 digest 64) with
      (if zlen digest =? 32 then (0, digest ++ replicate 32 0) else (-1, [] : list Z)).
    destruct (Z.eqb_spec (zlen digest) 32) as [Hd|]; [|done]. intros [= <-]. split; [rewrite zlen_app, Hd; done|].
    unfold wc_ed25519_verify_msg, toy_verify. rewrite bool_decide_true; [done|]. apply take_app_length'. unfold zlen in Hd. lia.
Qed.

Lemma options_fit manual f : manual = false -> options_ok (options manual f).
Proof.
  intros ->. constructor; try reflexivity.
  - cbn. lia.
  - cbn. lia.
  - constructor; [|constructor]. unfold tlv_ok. split_and!; vm_compute; congruence.
Qed.

(** A run that can be evaluated. *)
Lemma tool_returns {A} (x : tool A) (f : A -> bool) :
  match x with inl a => f a | inr _ => false end = true -> exists a, x = inl a /\ f a = true.
Proof. destruct x; [eauto|done]. Qed.

Lemma hash48_len (k : list Z) : zlen (u8 <$> take 48 (k ++ replicate 48 0)) = 48.
Proof. unfold zlen. rewrite length_fmap, length_take, length_app, length_replicate. lia. Qed.

Lemma example_inputs : inputs_ok (options false None) no_env None firmware [] 0 0.
Proof.
  constructor.
  - constructor; [vm_compute; split; congruence| |vm_compute; congruence|vm_compute; split; congruence|vm_compute; split_and!; congruence].
    constructor; [vm_compute; split; congruence|constructor].
  - split; [apply hash_final_len|split; apply hash48_len].
  - vm_compute. split; congruence.
  - exists 7, []. split; [reflexivity|lia].
  - done.
  - constructor; [vm_compute; congruence|constructor].
  - done.
  - split; done.
  - intros hs digest Hd _. change (zlen digest = 32) in Hd. split; [done|]. split; [|split].
    + exists (put (replicate 64 0) 0 (digest ++ replicate 32 0)), 64. split; [|split; [cbn; lia|]].
      * unfold main_signature. cbn [options set_header_sz set_sizes manual_sign negb signature_sz sign hash_algo sign_wenc].
        unfold sign_digest. change (negb (wc_InitRng =? 0)) with false. change (SIGN_ED25519 =? SIGN_ED25519) with true. cbv iota.
        change (wc_ed25519_sign_msg 0 digest 64) with (if zlen digest =? 32 then (0, digest ++ replicate 32 0) else (-1, [] : list Z)).
        rewrite Hd. change (32 =? 32) with true. cbv iota. unfold store_sig. cbn [fst snd Z.eqb].
        assert (zlen (digest ++ replicate 32 0) = 64) as Hz by (rewrite zlen_app, Hd; reflexivity).
        rewrite blit_put; [|lia|rewrite Hz; vm_compute; congruence]. cbn [obind chk tbind]. rewrite Hz. reflexivity.
      * rewrite zlen_put; [vm_compute; congruence|lia|rewrite zlen_app, Hd; vm_compute; congruence].
    + exists [], 0. split; [reflexivity|done].
    + exists [], 64, None. split; [reflexivity|done].
  - vm_compute. split; reflexivity.
  - vm_compute. reflexivity.
  - intros c1 _. reflexivity.
  - reflexivity.
Qed.

End ExampleSign.
Import ExampleSign.

Lemma signed_image_accepted_witness :
  wolfBoot_get_image_version flash PART_BOOT = Ok 7 /\
  exists img, wolfBoot_open_image flash PART_BOOT = (0, img) /\ mread flash (fw_base img) (fw_size img) = firmware.
Proof.
  destruct (tool_returns signed (fun r => header_sz (snd r) =? 256)) as ([out c'] & Es & Hh); [vm_compute; reflexivity|].
  assert (output = signed_image out) as Ho by (unfold output; rewrite Es; reflexivity). apply Z.eqb_eq in Hh.
  destruct (signed_image_accepted (c := sign_cfg) (T := toy_tool_hash) (HL := toy_hash_laws) (W := toy_sign)
    (St := toy_stream) (K := toy_keystore) (V := toy_verify) toy_hash_bytes
    (options false None) no_env None key firmware 0 [] [] out c' 0 flash PART_BOOT (mkFlash flash true)) as (V1 & _ & img & _ & _ & V2 & V3 & _).
  - exact Es.
  - exact (options_fit false None eq_refl).
  - exact Hh.
  - split; [done|left; done].
  - done.
  - done.
  - exact toy_enrolled.
  - by left.
  - exact flash_ok.
  - split_and!; done.
  - done.
  - done.
  - rewrite <- Ho. exact flash_loaded.
  - split; [exact V1|]. exists img. split; [exact V2|exact V3].
Defined.

Lemma sign_tool_total_witness :
  exists out c', make_header_ex (options false None) no_env None key (Some firmware) 0 [] [] = inl (out, c') /\
    zlen (signed_image out) = header_sz c' + 5.
Proof.
  destruct (sign_tool_total (T := toy_tool_hash) (W := toy_sign) (E := toy_stream) (options false None) no_env None key
    firmware 0 [] [] 0) as (out & c' & H1 & _ & _ & H2 & _).
  - exact example_inputs.
  - left. vm_compute. congruence.
  - exists out, c'. split; [exact H1|exact H2].
Defined.

Lemma missing_signature_returns_0_witness :
  make_header_ex (options true None) no_env None key (Some firmware) 0 [] [] = inr (Failure 0 None).
Proof.
  destruct (tool_returns (make_header_ex (options true (Some (replicate 64 1))) no_env None key (Some firmware) 0 [] [])
    (fun _ => true)) as ([out c'] & Es & _); [vm_compute; reflexivity|].
  exact (missing_signature_returns_0 (options true (Some (replicate 64 1))) no_env None key firmware 0 [] [] out c'
    Es eq_refl ltac:(vm_compute; discriminate)).
Defined.

(** A 4-byte signature behind the mask. *)
Definition policy_options : cmd_options :=
  mkCmd true true false false false ENC_OFF HDR_SHA256 SIGN_ED25519 false 0 false false false
    [55] None (Some [1; 0; 0; 0; 21; 22; 23; 24]) None None None false 256 64 0 0 1 [].

Example policy_mask_lost :
  policy_signature policy_options 4 [0; 0; 0; 0] =
    inl ([21; 22; 23; 24; 0; 0; 0; 0], 4, Some [21; 22; 23; 24; 0; 0; 0; 0]).
Proof.
  apply (manual_policy_loses_mask policy_options [1; 0; 0; 0] [21; 22; 23; 24] [0; 0; 0; 0]);
    [reflexivity..|vm_compute; congruence|reflexivity].
Qed.
