(* ===== verification/SignArgs.v ===== *)
(** * SignArgs: the command line of the signing tool (tools/keytools/sign.c)

    The loop over the arguments, the fields it sets, and the choice of header and
    signature sizes.  A string is the list of its characters; [fs] gives the
    contents of the files named on the command line. *)

From Stdlib Require Import ZArith Lia String Ascii.
From stdpp Require Import prelude.
From S2P Require Import Prelude Flash Trailer Image DeltaUpdate Stream Sign.

Local Open Scope Z_scope.

Definition text (s : string) : list Z := (fun a => Z.of_nat (nat_of_ascii a)) <$> list_ascii_of_string s.

(** ** Fields that options set *)

Definition set_sign (s : Z) (x : cmd_options) : cmd_options :=
  mkCmd (manual_sign x) (policy_sign x) (self_update x) (sha_only x) (header_only x) (encrypt x) (hash_algo x) s
    (hybrid x) (secondary_sign x) (delta x) (no_ts x) (sign_wenc x) (fw_version x) (signature_file x)
    (policy_file x) (encrypt_key_file x) (cert_chain_file x) (dts_file x) (no_base_sha x) (header_sz x)
    (signature_sz x) (secondary_signature_sz x) (policy_sz x) (partition_id x) (custom_tlv x).
Definition set_hybrid (on : bool) (s sz : Z) (x : cmd_options) : cmd_options :=
  mkCmd (manual_sign x) (policy_sign x) (self_update x) (sha_only x) (header_only x) (encrypt x) (hash_algo x)
    (sign x) on s (delta x) (no_ts x) (sign_wenc x) (fw_version x) (signature_file x) (policy_file x)
    (encrypt_key_file x) (cert_chain_file x) (dts_file x) (no_base_sha x) (header_sz x) (signature_sz x) sz
    (policy_sz x) (partition_id x) (custom_tlv x).
Definition set_sign_wenc  (x : cmd_options) : cmd_options :=
  mkCmd (manual_sign x) (policy_sign x) (self_update x) (sha_only x) (header_only x) (encrypt x) (hash_algo x)
    (sign x) (hybrid x) (secondary_sign x) (delta x) (no_ts x) true (fw_version x) (signature_file x)
    (policy_file x) (encrypt_key_file x) (cert_chain_file x) (dts_file x) (no_base_sha x) (header_sz x)
    (signature_sz x) (secondary_signature_sz x) (policy_sz x) (partition_id x) (custom_tlv x).
Definition set_hash_algo (h : Z) (x : cmd_options) : cmd_options :=
  mkCmd (manual_sign x) (policy_sign x) (self_update x) (sha_only x) (header_only x) (encrypt x) h (sign x)
    (hybrid x) (secondary_sign x) (delta x) (no_ts x) (sign_wenc x) (fw_version x) (signature_file x)
    (policy_file x) (encrypt_key_file x) (cert_chain_file x) (dts_file x) (no_base_sha x) (header_sz x)
    (signature_sz x) (secondary_signature_sz x) (policy_sz x) (partition_id x) (custom_tlv x).
Definition set_partition (id : Z) (self : bool) (x : cmd_options) : cmd_options :=
  mkCmd (manual_sign x) (policy_sign x) self (sha_only x) (header_only x) (encrypt x) (hash_algo x) (sign x)
    (hybrid x) (secondary_sign x) (delta x) (no_ts x) (sign_wenc x) (fw_version x) (signature_file x)
    (policy_file x) (encrypt_key_file x) (cert_chain_file x) (dts_file x) (no_base_sha x) (header_sz x)
    (signature_sz x) (secondary_signature_sz x) (policy_sz x) id (custom_tlv x).
Definition set_output (only_header only_sha : bool) (x : cmd_options) : cmd_options :=
  mkCmd (manual_sign x) (policy_sign x) (self_update x) only_sha only_header (encrypt x) (hash_algo x) (sign x)
    (hybrid x) (secondary_sign x) (delta x) (no_ts x) (sign_wenc x) (fw_version x) (signature_file x)
    (policy_file x) (encrypt_key_file x) (cert_chain_file x) (dts_file x) (no_base_sha x) (header_sz x)
    (signature_sz x) (secondary_signature_sz x) (policy_sz x) (partition_id x) (custom_tlv x).
Definition set_manual_sign  (x : cmd_options) : cmd_options :=
  mkCmd true (policy_sign x) (self_update x) (sha_only x) (header_only x) (encrypt x) (hash_algo x) (sign x)
    (hybrid x) (secondary_sign x) (delta x) (no_ts x) (sign_wenc x) (fw_version x) (signature_file x)
    (policy_file x) (encrypt_key_file x) (cert_chain_file x) (dts_file x) (no_base_sha x) (header_sz x)
    (signature_sz x) (secondary_signature_sz x) (policy_sz x) (partition_id x) (custom_tlv x).
Definition set_encrypt (e : Z) (key : option file) (x : cmd_options) : cmd_options :=
  mkCmd (manual_sign x) (policy_sign x) (self_update x) (sha_only x) (header_only x) e (hash_algo x) (sign x)
    (hybrid x) (secondary_sign x) (delta x) (no_ts x) (sign_wenc x) (fw_version x) (signature_file x)
    (policy_file x) key (cert_chain_file x) (dts_file x) (no_base_sha x) (header_sz x) (signature_sz x)
    (secondary_signature_sz x) (policy_sz x) (partition_id x) (custom_tlv x).
Definition set_delta  (x : cmd_options) : cmd_options :=
  mkCmd (manual_sign x) (policy_sign x) (self_update x) (sha_only x) (header_only x) (encrypt x) (hash_algo x)
    (sign x) (hybrid x) (secondary_sign x) true (no_ts x) (sign_wenc x) (fw_version x) (signature_file x)
    (policy_file x) (encrypt_key_file x) (cert_chain_file x) (dts_file x) (no_base_sha x) (header_sz x)
    (signature_sz x) (secondary_signature_sz x) (policy_sz x) (partition_id x) (custom_tlv x).
Definition set_omit (base_sha ts : bool) (x : cmd_options) : cmd_options :=
  mkCmd (manual_sign x) (policy_sign x) (self_update x) (sha_only x) (header_only x) (encrypt x) (hash_algo x)
    (sign x) (hybrid x) (secondary_sign x) (delta x) ts (sign_wenc x) (fw_version x) (signature_file x)
    (policy_file x) (encrypt_key_file x) (cert_chain_file x) (dts_file x) base_sha (header_sz x)
    (signature_sz x) (secondary_signature_sz x) (policy_sz x) (partition_id x) (custom_tlv x).
Definition set_policy (f : file) (x : cmd_options) : cmd_options :=
  mkCmd (manual_sign x) true (self_update x) (sha_only x) (header_only x) (encrypt x) (hash_algo x) (sign x)
    (hybrid x) (secondary_sign x) (delta x) (no_ts x) (sign_wenc x) (fw_version x) (signature_file x) f
    (encrypt_key_file x) (cert_chain_file x) (dts_file x) (no_base_sha x) (header_sz x) (signature_sz x)
    (secondary_signature_sz x) (policy_sz x) (partition_id x) (custom_tlv x).
Definition set_custom_tlv (l : list cmd_tlv) (x : cmd_options) : cmd_options :=
  mkCmd (manual_sign x) (policy_sign x) (self_update x) (sha_only x) (header_only x) (encrypt x) (hash_algo x)
    (sign x) (hybrid x) (secondary_sign x) (delta x) (no_ts x) (sign_wenc x) (fw_version x)
    (signature_file x) (policy_file x) (encrypt_key_file x) (cert_chain_file x) (dts_file x) (no_base_sha x)
    (header_sz x) (signature_sz x) (secondary_signature_sz x) (policy_sz x) (partition_id x) l.
Definition set_dts_file (f : file) (x : cmd_options) : cmd_options :=
  mkCmd (manual_sign x) (policy_sign x) (self_update x) (sha_only x) (header_only x) (encrypt x) (hash_algo x)
    (sign x) (hybrid x) (secondary_sign x) (delta x) (no_ts x) (sign_wenc x) (fw_version x)
    (signature_file x) (policy_file x) (encrypt_key_file x) (cert_chain_file x) (Some f) (no_base_sha x)
    (header_sz x) (signature_sz x) (secondary_signature_sz x) (policy_sz x) (partition_id x) (custom_tlv x).
Definition set_cert_chain_file (f : file) (x : cmd_options) : cmd_options :=
  mkCmd (manual_sign x) (policy_sign x) (self_update x) (sha_only x) (header_only x) (encrypt x) (hash_algo x)
    (sign x) (hybrid x) (secondary_sign x) (delta x) (no_ts x) (sign_wenc x) (fw_version x)
    (signature_file x) (policy_file x) (encrypt_key_file x) (Some f) (dts_file x) (no_base_sha x)
    (header_sz x) (signature_sz x) (secondary_signature_sz x) (policy_sz x) (partition_id x) (custom_tlv x).
Definition set_version (v : list Z) (sig : file) (x : cmd_options) : cmd_options :=
  mkCmd (manual_sign x) (policy_sign x) (self_update x) (sha_only x) (header_only x) (encrypt x) (hash_algo x)
    (sign x) (hybrid x) (secondary_sign x) (delta x) (no_ts x) (sign_wenc x) v sig (policy_file x)
    (encrypt_key_file x) (cert_chain_file x) (dts_file x) (no_base_sha x) (header_sz x) (signature_sz x)
    (secondary_signature_sz x) (policy_sz x) (partition_id x) (custom_tlv x).
Definition set_main_size (hs sz : Z) (x : cmd_options) : cmd_options :=
  mkCmd (manual_sign x) (policy_sign x) (self_update x) (sha_only x) (header_only x) (encrypt x) (hash_algo x)
    (sign x) (hybrid x) (secondary_sign x) (delta x) (no_ts x) (sign_wenc x) (fw_version x)
    (signature_file x) (policy_file x) (encrypt_key_file x) (cert_chain_file x) (dts_file x) (no_base_sha x)
    hs sz (secondary_signature_sz x) (policy_sz x) (partition_id x) (custom_tlv x).
Definition set_second_size (hs sz : Z) (x : cmd_options) : cmd_options :=
  mkCmd (manual_sign x) (policy_sign x) (self_update x) (sha_only x) (header_only x) (encrypt x) (hash_algo x)
    (sign x) (hybrid x) (secondary_sign x) (delta x) (no_ts x) (sign_wenc x) (fw_version x)
    (signature_file x) (policy_file x) (encrypt_key_file x) (cert_chain_file x) (dts_file x) (no_base_sha x)
    hs (signature_sz x) sz (policy_sz x) (partition_id x) (custom_tlv x).

(** [static struct cmd_options CMD], and the header size that main sets first. *)
Definition cmd_defaults : cmd_options :=
  mkCmd false false false false false ENC_OFF HDR_SHA256 SIGN_AUTO false 0 false false false
    [] None None None None None false 256 0 0 0 1 [].

(** ** Numbers *)

Definition arg2num (arg : list Z) (len : Z) : tool Z :=
  let '(ret, erange, _) :=
    if bool_decide (take 2 arg = text "0x") then strtoul 16 (drop 2 arg) else strtoul 10 arg in
  if (len =? 8) && erange then exit_ 16 else
  ret_ok (if len =? 1 then Z.land ret 0xFF else if len =? 2 then Z.land ret 0xFFFF
          else if len =? 4 then Z.land ret 0xFFFFFFFF else if len =? 8 then ret else 2 ^ 64 - 1).

Definition atoi (s : list Z) : Z := i32 (fst (strtol 10 s)).

(** ** The arguments *)

(** wolfCrypt's decoders of a public key: the bytes exported from the DER
    structure, [None] when it does not decode or export. *)
Class der_api : Type := DerApi {
  der_ecc_raw : list Z -> option (list Z);
  der_ed25519 : list Z -> option (list Z);
  der_ed448 : list Z -> option (list Z);
  der_rsa : list Z -> option (list Z);
}.

Section Args.
Context {D : der_api} (fs : list Z -> file) (argv : list (list Z)).

(** [argv[argc]] is NULL; nothing may be read behind it. *)
Definition argc : Z := zlen argv.
Definition arg (i : Z) : tool (option (list Z)) :=
  if i <? argc then ret_ok (argv !! Z.to_nat i) else if i =? argc then ret_ok None else inr Undefined.

(** A string that is dereferenced. *)
Definition deref (s : option (list Z)) : tool (list Z) :=
  match s with Some s => ret_ok s | None => inr Undefined end.
Definition arg_str (i : Z) : tool (list Z) :=
  let? a := arg i in deref a.

(** The signing algorithms and whether the option asks for the ASN.1 encoding. *)
Definition sign_options : list (list Z * Z * bool) :=
  [(text "--ed25519", SIGN_ED25519, false); (text "--ed448", SIGN_ED448, false);
   (text "--ecc256", SIGN_ECC256, false); (text "--ecc384", SIGN_ECC384, false);
   (text "--ecc521", SIGN_ECC521, false); (text "--rsa2048enc", SIGN_RSA2048, true);
   (text "--rsa2048", SIGN_RSA2048, false); (text "--rsa3072enc", SIGN_RSA3072, true);
   (text "--rsa3072", SIGN_RSA3072, false); (text "--rsa4096enc", SIGN_RSA4096, true);
   (text "--rsa4096", SIGN_RSA4096, false); (text "--rsapss2048", SIGN_RSAPSS2048, false);
   (text "--rsapss3072", SIGN_RSAPSS3072, false); (text "--rsapss4096", SIGN_RSAPSS4096, false);
   (text "--lms", SIGN_LMS, false); (text "--xmss", SIGN_XMSS, false); (text "--ml_dsa", SIGN_ML_DSA, false)].

Fixpoint find_sign (l : list (list Z * Z * bool)) (a : list Z) : option (Z * bool) :=
  match l with
  | [] => None
  | (name, alg, wenc) :: l => if bool_decide (a = name) then Some (alg, wenc) else find_sign l a
  end.

(** An algorithm: the first one given, or the second key of a hybrid image. *)
Definition sign_option (alg : Z) (wenc : bool) (c : cmd_options) : cmd_options :=
  let c := if negb (sign c =? SIGN_AUTO) then set_hybrid true alg (secondary_signature_sz c) c else set_sign alg c in
  if wenc then set_sign_wenc c else c.

(** ** Custom fields *)

(** The checks before each of them; [n] arguments must follow. *)
Definition tlv_room (c : cmd_options) (i n : Z) : tool unit :=
  if MAX_CUSTOM_TLVS <=? zlen (custom_tlv c) then exit_ 16 else
  if argc <? i + n + 1 then exit_ 16 else ret_ok tt.

Definition tlv_tag_arg (i : Z) : tool Z :=
  let? a := arg_str i in
  let? tag := arg2num a 2 in
  ret_ok (u16 tag).
Definition check_tag (tag : Z) : tool unit :=
  if tag <? 0x30 then exit_ 16 else
  if (Z.land tag 0xFF00 =? 0xFF00) || (Z.land tag 0xFF =? 0xFF) then exit_ 16 else ret_ok tt.

Definition add_tlv (t : cmd_tlv) (c : cmd_options) : cmd_options := set_custom_tlv (custom_tlv c ++ [t]) c.

Definition custom_tlv_option (i : Z) (c : cmd_options) : tool cmd_options :=
  let? _ := tlv_room c i 3 in
  let? tag := tlv_tag_arg (i + 1) in
  let? a2 := arg_str (i + 2) in
  let? len := arg2num a2 2 in
  let len := u16 len in
  let? _ := check_tag tag in
  if negb (len =? 1) && negb (len =? 2) && negb (len =? 4) && negb (len =? 8) then exit_ 16 else
  let? a3 := arg_str (i + 3) in
  let? val := arg2num a3 len in
  ret_ok (add_tlv (mkTlv tag len val None) c).

(** Pairs of hexadecimal digits. *)
Fixpoint hex_bytes (s : list Z) : list Z :=
  match s with
  | c0 :: c1 :: s' => u8 (fst (strtol 16 [c0; c1])) :: hex_bytes s'
  | _ => []
  end.

Definition custom_tlv_buffer_option (i : Z) (c : cmd_options) : tool cmd_options :=
  let? _ := tlv_room c i 2 in
  let? tag := tlv_tag_arg (i + 1) in
  let? a2 := arg_str (i + 2) in
  let slen := zlen a2 in
  let? _ := check_tag tag in
  if MAX_TLV_LEN <? slen / 2 then exit_ 16 else
  if negb (slen mod 2 =? 0) then exit_ 16 else
  ret_ok (add_tlv (mkTlv tag (u16 (slen / 2)) 0 (Some (hex_bytes a2))) c).

Definition custom_tlv_string_option (i : Z) (c : cmd_options) : tool cmd_options :=
  let? _ := tlv_room c i 2 in
  let? tag := tlv_tag_arg (i + 1) in
  let? a2 := arg_str (i + 2) in
  let slen := zlen a2 in
  let? _ := check_tag tag in
  if MAX_TLV_LEN <? slen then exit_ 16 else
  ret_ok (add_tlv (mkTlv tag (u16 slen) 0 (Some a2)) c).

Definition custom_tlv_file_option (i : Z) (c : cmd_options) : tool cmd_options :=
  let? _ := tlv_room c i 2 in
  let? tag := tlv_tag_arg (i + 1) in
  let? _ := check_tag tag in
  let? a2 := arg_str (i + 2) in
  match fs a2 with
  | None => exit_ 16
  | Some contents =>
      if zlen contents <=? 0 then exit_ 16 else
      if MAX_TLV_LEN <? zlen contents then exit_ 16 else
      ret_ok (add_tlv (mkTlv tag (u16 (zlen contents)) 0 (Some contents)) c)
  end.

Definition cmdline_option (i : Z) (c : cmd_options) : tool cmd_options :=
  let? _ := tlv_room c i 1 in
  let? a1 := arg_str (i + 1) in
  let len := u16 (zlen a1) in
  if (len =? 0) || (255 <? len) then exit_ 16 else
  ret_ok (add_tlv (mkTlv HDR_CMDLINE len 0 (Some (take (Z.to_nat len) a1))) c).

(** [None] is the error return. *)
Definition extract_pubkey_from_der (f : file) : option (list Z * Z) :=
  match f with
  | None => None
  | Some der =>
      if (zlen der <=? 0) || (MAX_TLV_LEN <? zlen der) then None else
      let buf := match der_ecc_raw der with Some b => Some b | None =>
                 match der_ed25519 der with Some b => Some b | None =>
                 match der_ed448 der with Some b => Some b | None => der_rsa der end end end in
      match buf with
      | None => None
      | Some b => if zlen b <=? 0 then None else if MAX_TLV_LEN <? zlen b then None else Some (b, u16 (zlen b))
      end
  end.

Definition custom_tlv_pubkey_der_option (i : Z) (c : cmd_options) : tool cmd_options :=
  let? _ := tlv_room c i 2 in
  let? tag := tlv_tag_arg (i + 1) in
  let? _ := check_tag tag in
  let? a2 := arg_str (i + 2) in
  match extract_pubkey_from_der (fs a2) with
  | None => exit_ 16
  | Some (b, len) => ret_ok (add_tlv (mkTlv tag len 0 (Some b)) c)
  end.

(** ** One option *)

(** [--id]: the number, checked. *)
Definition id_option (a : option (list Z)) (c : cmd_options) : tool cmd_options :=
  let? a := deref a in
  let id := fst (strtol 10 a) in
  if ((id <? 0) || (15 <? id)) || ((id =? 0) && negb (bool_decide (head a = Some 48))) then exit_ 16 else
  ret_ok (set_partition (u8 id) (if id =? 0 then true else self_update c) c).

(** The contents of an optional path. *)
Definition open_arg (a : option (list Z)) : file := match a with Some p => fs p | None => None end.

(** The options and the path of the base image of a delta update. *)
Definition parsed : Type := (cmd_options * option (list Z))%type.

Definition is_option (a : list Z) (s : string) : bool := bool_decide (a = text s).

(** One turn of the loop: the index of the last argument used and the options;
    [None] at the first argument that is no option. *)
Definition parse_option (i : Z) (p : parsed) : tool (option (Z * parsed)) :=
  let '(c, base) := p in
  let? a := arg_str i in
  let next c := ret_ok (Some (i, (c, base))) in
  let after n (r : tool cmd_options) := let? c := r in ret_ok (Some (i + n, (c, base))) in
  if is_option a "--no-sign" then next (set_sign NO_SIGN c) else
  match find_sign sign_options a with
  | Some (alg, wenc) => next (sign_option alg wenc c)
  | None =>
      if is_option a "--sha256" then next (set_hash_algo HDR_SHA256 c) else
      if is_option a "--sha384" then next (set_hash_algo HDR_SHA384 c) else
      if is_option a "--sha3" then next (set_hash_algo HDR_SHA3_384 c) else
      if is_option a "--wolfboot-update" then next (set_partition 0 true c) else
      if is_option a "--header-only" then next (set_output true (sha_only c) c) else
      if is_option a "--id" then after 1 (let? a1 := arg (i + 1) in id_option a1 c) else
      if is_option a "--sha-only" then next (set_output (header_only c) true c) else
      if is_option a "--manual-sign" then next (set_manual_sign c) else
      if is_option a "--encrypt" then
        after 1 (let? a1 := arg (i + 1) in
                 ret_ok (set_encrypt (if encrypt c =? ENC_OFF then ENC_CHACHA else encrypt c) (fs <$> a1) c)) else
      if is_option a "--aes128" then next (set_encrypt ENC_AES128 (encrypt_key_file c) c) else
      if is_option a "--aes256" then next (set_encrypt ENC_AES256 (encrypt_key_file c) c) else
      if is_option a "--chacha" then next (set_encrypt ENC_CHACHA (encrypt_key_file c) c) else
      if is_option a "--delta" then
        let? a1 := arg (i + 1) in
        ret_ok (Some (i + 1, (set_delta c, a1))) else
      if is_option a "--no-base-sha" then next (set_omit true (no_ts c) c) else
      if is_option a "--no-ts" then next (set_omit (no_base_sha c) true c) else
      if is_option a "--policy" then after 1 (let? a1 := arg (i + 1) in ret_ok (set_policy (open_arg a1) c)) else
      if is_option a "--custom-tlv" then after 3 (custom_tlv_option i c) else
      if is_option a "--dts" then
        if argc <? i + 2 then exit_ 16 else
        after 1 (let? a1 := arg_str (i + 1) in ret_ok (set_dts_file (fs a1) c)) else
      if is_option a "--custom-tlv-buffer" then after 2 (custom_tlv_buffer_option i c) else
      if is_option a "--custom-tlv-string" then after 2 (custom_tlv_string_option i c) else
      if is_option a "--custom-tlv-file" then after 2 (custom_tlv_file_option i c) else
      if is_option a "--custom-tlv-pubkey-der" then after 2 (custom_tlv_pubkey_der_option i c) else
      if is_option a "--cmdline" then after 1 (cmdline_option i c) else
      if is_option a "--cert-chain" then
        if argc <=? i + 1 then exit_ 16 else
        after 1 (let? a1 := arg_str (i + 1) in ret_ok (set_cert_chain_file (fs a1) c)) else
      ret_ok None
  end.

(** [for (i = 1; i < argc; i++)]: the index before the first positional argument.
    Each turn moves [i] forward, so [argc] turns are enough. *)
Fixpoint parse_loop (fuel : nat) (i : Z) (p : parsed) : tool (Z * parsed) :=
  match fuel with
  | O => inr Undefined
  | S n =>
      if negb (i <? argc) then ret_ok (i, p) else
      let? r := parse_option i p in
      match r with
      | None => ret_ok (i - 1, p)
      | Some (i', p') => parse_loop n (i' + 1) p'
      end
  end.

(** A command line: options, paths of the image, of the keys and of the base. *)
Record command : Type := mkCommand {
  co_cmd : cmd_options;
  co_image : list Z;
  co_key : option (list Z);
  co_key2 : option (list Z);
  co_base : option (list Z);
}.

(** The arguments up to the check of [--dts] against [--delta]. *)
Definition parse_args : tool command :=
  if argc <? 4 then exit_ 1 else
  let? (i, (c, base)) := parse_loop (S (List.length argv)) 1 (cmd_defaults, None) in
  let c := if (sign c =? secondary_sign c) && hybrid c then set_hybrid false (secondary_sign c) 0 c else c in
  let? (image, key, key2, ver, sig) :=
    (if negb (sign c =? NO_SIGN) then
       let? image := arg (i + 1) in
       let? key := arg (i + 2) in
       let? key2 := (if hybrid c then arg (i + 3) else ret_ok None) in
       let k := if hybrid c then i + 4 else i + 3 in
       let? ver := arg k in
       let? sig := (if manual_sign c then arg (k + 1) else ret_ok None) in
       ret_ok (image, key, key2, ver, sig)
     else
       let? image := arg (i + 1) in
       let? ver := arg (i + 2) in
       ret_ok (image, None, None, ver, None)) in
  if bool_decide (is_Some (dts_file c)) && delta c then exit_ 16 else
  let? image := deref image in
  let? ver := deref ver in
  ret_ok (mkCommand (set_version ver (open_arg sig) c) image key key2 base).

End Args.

(** ** Header and signature sizes *)

(** The build's default parameters of the stateful and post-quantum algorithms,
    and wolfCrypt's answers: status codes, and status and length. *)
Class params_api : Type := ParamsApi {
  LMS_LEVELS : Z;
  LMS_HEIGHT : Z;
  LMS_WINTERNITZ : Z;
  WOLFBOOT_XMSS_PARAMS : list Z;
  ML_DSA_LEVEL : Z;
  wc_LmsKey_Init : Z;
  wc_LmsKey_SetParameters : Z -> Z -> Z -> Z;
  wc_LmsKey_GetSigLen : Z -> Z -> Z -> Z * Z;
  wc_XmssKey_Init : Z;
  wc_XmssKey_SetParamStr : list Z -> Z;
  wc_XmssKey_GetSigLen : list Z -> Z * Z;
  wc_MlDsaKey_Init : Z;
  wc_MlDsaKey_SetParams : Z -> Z;
  wc_MlDsaKey_GetSigLen : Z -> Z * Z;
}.

Record key_environment : Type := mkKeyEnv {
  LMS_LEVELS_env : option (list Z);
  LMS_HEIGHT_env : option (list Z);
  LMS_WINTERNITZ_env : option (list Z);
  XMSS_PARAMS_env : option (list Z);
  ML_DSA_LEVEL_env : option (list Z);
}.

(** Smallest header and signature of the algorithms with fixed sizes. *)
Definition fixed_sizes (alg algo : Z) : option (Z * Z) :=
  if alg =? SIGN_ED25519 then Some (256, 64)
  else if alg =? SIGN_ED448 then Some (512, 114)
  else if alg =? SIGN_ECC256 then Some (256, 64)
  else if alg =? SIGN_ECC384 then Some (512, 96)
  else if alg =? SIGN_ECC521 then Some (512, 132)
  else if (alg =? SIGN_RSA2048) || (alg =? SIGN_RSAPSS2048) then Some (512, 256)
  else if (alg =? SIGN_RSA3072) || (alg =? SIGN_RSAPSS3072) then
    Some (if negb (algo =? HDR_SHA256) then 1024 else 512, 384)
  else if (alg =? SIGN_RSA4096) || (alg =? SIGN_RSAPSS4096) then Some (1024, 512)
  else None.

Section Sizes.
Context {P : params_api}.

Definition env_int (v : option (list Z)) (dflt : Z) : Z := match v with None => dflt | Some s => atoi s end.

(** Signature length of the algorithms that have parameters; [None] for others. *)
Definition param_size (ke : key_environment) (alg : Z) : tool (option Z) :=
  if alg =? SIGN_LMS then
    let levels := env_int (LMS_LEVELS_env ke) LMS_LEVELS in
    let height := env_int (LMS_HEIGHT_env ke) LMS_HEIGHT in
    let winternitz := env_int (LMS_WINTERNITZ_env ke) LMS_WINTERNITZ in
    if negb (wc_LmsKey_Init =? 0) then exit_ 1 else
    if negb (wc_LmsKey_SetParameters levels height winternitz =? 0) then exit_ 1 else
    let '(ret, sig_sz) := wc_LmsKey_GetSigLen levels height winternitz in
    if negb (ret =? 0) then exit_ 1 else ret_ok (Some sig_sz)
  else if alg =? SIGN_XMSS then
    let params := default WOLFBOOT_XMSS_PARAMS (XMSS_PARAMS_env ke) in
    if negb (wc_XmssKey_Init =? 0) then exit_ 1 else
    if negb (wc_XmssKey_SetParamStr params =? 0) then exit_ 1 else
    let '(ret, sig_sz) := wc_XmssKey_GetSigLen params in
    if negb (ret =? 0) then exit_ 1 else ret_ok (Some sig_sz)
  else if alg =? SIGN_ML_DSA then
    let level := env_int (ML_DSA_LEVEL_env ke) ML_DSA_LEVEL in
    if negb (wc_MlDsaKey_Init =? 0) then exit_ 1 else
    if negb (wc_MlDsaKey_SetParams level =? 0) then exit_ 1 else
    let '(ret, sig_sz) := wc_MlDsaKey_GetSigLen level in
    if negb (ret =? 0) then exit_ 1 else ret_ok (Some sig_sz)
  else ret_ok None.

Definition set_signature_sizes (e : environment) (ke : key_environment) (secondary : bool) (c : cmd_options) : tool cmd_options :=
  let alg := if secondary then secondary_sign c else sign c in
  let sz := if secondary then secondary_signature_sz c else signature_sz c in
  let? (hs, sz) :=
    (match fixed_sizes alg (hash_algo c) with
     | Some (least, sz) => ret_ok (if header_sz c <? least then least else header_sz c, sz)
     | None =>
         let? n := param_size ke alg in
         match n with
         | Some sig_sz => ret_ok (if header_sz c <? u32 (2 * sig_sz) then u32 (2 * sig_sz) else header_sz c, sig_sz)
         | None => ret_ok (header_sz c, sz)
         end
     end) in
  let suggested_sz := match IMAGE_HEADER_SIZE_env e with Some s => u32 (atoi s) | None => 0 end in
  let hs := if negb (suggested_sz =? 0) && (hs <=? suggested_sz) then suggested_sz else hs in
  let hs := if (hs =? 256) && delta c then u32 (Z.shiftl hs 1) else hs in
  ret_ok (if secondary then set_second_size hs sz c else set_main_size hs sz c).

(** From the parsed command line to the keys: both sizes, and the last check. *)
Definition choose_sizes (e : environment) (ke : key_environment) (c : cmd_options) : tool cmd_options :=
  let? c := set_signature_sizes e ke false c in
  let? c := (if hybrid c then set_signature_sizes e ke true c else ret_ok c) in
  if (negb (sign c =? NO_SIGN) && (signature_sz c =? 0)) || (header_sz c =? 0) then exit_ 2 else ret_ok c.

End Sizes.
