(* ===== verification/SignArgsSpec.v ===== *)
(** * SignArgsSpec: what the command line guarantees

    Every command line the signing tool accepts gives options that the header can
    hold; the header is then large enough for plain images of every algorithm
    with a fixed signature size, and the algorithm must be given. *)

From Stdlib Require Import ZArith Lia String Ascii.
From stdpp Require Import prelude.
From S2P Require Import Prelude Flash Trailer Image ImageSpec DeltaUpdate Stream Sign SignSpec SignHeader SignBoot SignRoom SignArgs.

Local Open Scope Z_scope.

(** A custom field that the tool can append whole. *)
Definition tlv_whole (t : cmd_tlv) : Prop :=
  tlv_ok t /\ tlv_len t <= zlen (match tlv_buffer t with None => header_store_u64_le (tlv_val t) | Some b => b end).

(** Options at any time of the parsing. *)
Record cmd_inv (c : cmd_options) : Prop := CmdInv {
  ci_tlvs : Forall tlv_whole (custom_tlv c);
  ci_count : zlen (custom_tlv c) <= MAX_CUSTOM_TLVS;
  ci_part : 0 <= partition_id c < 16;
  ci_hash : hash_algo c = HDR_SHA256 \/ hash_algo c = HDR_SHA384 \/ hash_algo c = HDR_SHA3_384;
  ci_sizes : header_sz c = 256 /\ signature_sz c = 0 /\ secondary_signature_sz c = 0 /\ policy_sz c = 0;
}.

Lemma defaults_inv : cmd_inv cmd_defaults.
Proof. constructor; [apply Forall_nil_2|vm_compute; congruence|cbn; lia|by left|done]. Qed.

(** Fields that the invariant does not speak of. *)
Lemma inv_same c c' : cmd_inv c ->
  custom_tlv c' = custom_tlv c -> partition_id c' = partition_id c -> hash_algo c' = hash_algo c ->
  header_sz c' = header_sz c -> signature_sz c' = signature_sz c ->
  secondary_signature_sz c' = secondary_signature_sz c -> policy_sz c' = policy_sz c -> cmd_inv c'.
Proof. intros [? ? ? ? ?] E1 E2 E3 E4 E5 E6 E7. constructor; rewrite ?E1, ?E2, ?E3, ?E4, ?E5, ?E6, ?E7; done. Qed.

Ltac same := eapply inv_same; [eassumption|reflexivity..].

Lemma inv_add c t : cmd_inv c -> zlen (custom_tlv c) < MAX_CUSTOM_TLVS -> tlv_whole t -> cmd_inv (add_tlv t c).
Proof.
  intros [H1 H2 H3 H4 H5] Hn Ht. constructor; try done; cbn [add_tlv set_custom_tlv custom_tlv].
  - apply Forall_app. split; [done|]. by constructor.
  - rewrite zlen_app. change (zlen [t]) with 1. lia.
Qed.

Lemma land_ff00 tag : 0 <= tag < 2 ^ 16 -> Z.land tag 0xFF00 <> 0xFF00 -> tag < 0xFF00.
Proof.
  intros Ht Hn. destruct (Z.lt_ge_cases tag 0xFF00) as [|Hge]; [done|]. exfalso. apply Hn.
  change 0xFF00 with (Z.shiftl (Z.ones 8) 8). apply Z.bits_inj'. intros i Hi. rewrite Z.land_spec, !Z.shiftl_spec by done.
  destruct (Z.testbit (Z.ones 8) (i - 8)) eqn:E; [|by rewrite andb_false_r]. rewrite andb_true_r.
  destruct (Z.lt_ge_cases i 8); [by rewrite Z.testbit_neg_r in E by lia|].
  destruct (Z.lt_ge_cases i 16); [|rewrite Z.ones_spec_high in E by lia; done].
  rewrite <- E. replace i with ((i - 8) + 8) at 1 by lia. rewrite <- Z.shiftr_spec by lia.
  replace (Z.shiftr tag 8) with (Z.ones 8); [done|]. rewrite Z.shiftr_div_pow2 by lia. change (Z.ones 8) with 255. dlia.
Qed.

Lemma check_tag_post tag : 0 <= tag < 2 ^ 16 ->
  tpost (check_tag tag) (fun _ => 0x30 <= tag < 0xFF00 /\ tag mod 256 <> HDR_PADDING).
Proof.
  intros Ht. unfold check_tag. destruct (Z.ltb_spec tag 0x30); [apply tpost_fail|].
  destruct (_ || _) eqn:E; [apply tpost_fail|]. bools. apply tpost_ret. split.
  - split; [lia|]. apply land_ff00; lia.
  - change (2 ^ 8) with 256 in *. change 0xFF with (Z.ones 8) in *. rewrite Z.land_ones in * by lia. unfold HDR_PADDING. done.
Qed.

(** A step with a lemma about its result. *)
Ltac checked L := eapply tpost_bind; [apply L; try assumption|intros ?x ?Hx].

Section Args.
Context {D : der_api} (fs : list Z -> file) (argv : list (list Z)).

Lemma tlv_room_post c i n : tpost (tlv_room argv c i n) (fun _ => zlen (custom_tlv c) < MAX_CUSTOM_TLVS).
Proof.
  unfold tlv_room. destruct (Z.leb_spec MAX_CUSTOM_TLVS (zlen (custom_tlv c))); [apply tpost_fail|].
  case_if; [apply tpost_fail|by apply tpost_ret].
Qed.

Lemma tlv_tag_post i : tpost (tlv_tag_arg argv i) (fun tag => 0 <= tag < 2 ^ 16).
Proof.
  unfold tlv_tag_arg. eapply (tpost_bind _ _ (fun _ => True)); [done|]. intros a _.
  eapply (tpost_bind _ _ (fun _ => True)); [done|]. intros t _. apply tpost_ret, u16_range.
Qed.

(** A field with room and a valid tag. *)
Lemma add_post c tag len val buf :
  cmd_inv c -> zlen (custom_tlv c) < MAX_CUSTOM_TLVS -> 0x30 <= tag < 0xFF00 /\ tag mod 256 <> HDR_PADDING ->
  0 <= len <= MAX_TLV_LEN -> len <= zlen (match buf with None => header_store_u64_le val | Some b => b end) ->
  tpost (ret_ok (add_tlv (mkTlv tag len val buf) c)) cmd_inv.
Proof. intros Hc Hn [H1 H2] Hl Hb. apply tpost_ret, inv_add; [done|done|]. split; [|done]. split; [done|]. by split. Qed.

Lemma hex_bytes_len s : zlen (hex_bytes s) = zlen s / 2.
Proof.
  revert s. fix IH 1. intros [|x [|y s]]; [done|done|].
  cbn [hex_bytes]. rewrite !zlen_cons, IH. replace (1 + (1 + zlen s)) with (zlen s + 1 * 2) by lia. rewrite Z.div_add by lia. lia.
Qed.

Lemma custom_tlv_inv i c : cmd_inv c -> tpost (custom_tlv_option argv i c) cmd_inv.
Proof.
  intros Hc. unfold custom_tlv_option. checked tlv_room_post. checked tlv_tag_post. any. any. checked check_tag_post.
  match goal with |- context [u16 ?l] => set (len := u16 l); clearbody len end.
  destruct (_ && _) eqn:E; [apply tpost_fail|]. any. any.
  assert (len = 1 \/ len = 2 \/ len = 4 \/ len = 8) as Hl.
  { rewrite !andb_false_iff, !negb_false_iff, !Z.eqb_eq in E. lia. }
  apply add_post; try done; unfold MAX_TLV_LEN; [lia|]. change (zlen (header_store_u64_le _)) with 8. lia.
Qed.

Lemma custom_tlv_buffer_inv i c : cmd_inv c -> tpost (custom_tlv_buffer_option argv i c) cmd_inv.
Proof.
  intros Hc. unfold custom_tlv_buffer_option. checked tlv_room_post. checked tlv_tag_post. any. checked check_tag_post.
  match goal with |- context [zlen ?a / 2] => destruct (Z.ltb_spec MAX_TLV_LEN (zlen a / 2)); [apply tpost_fail|];
    pose proof (zlen_nonneg a); pose proof (hex_bytes_len a) as Hh; assert (0 <= zlen a / 2) by (apply Z.div_pos; lia) end.
  case_if; [apply tpost_fail|]. unfold MAX_TLV_LEN in *. apply add_post; try done; rewrite u16_small by lia; unfold MAX_TLV_LEN; lia.
Qed.

Lemma custom_tlv_string_inv i c : cmd_inv c -> tpost (custom_tlv_string_option argv i c) cmd_inv.
Proof.
  intros Hc. unfold custom_tlv_string_option. checked tlv_room_post. checked tlv_tag_post. any. checked check_tag_post.
  match goal with |- context [MAX_TLV_LEN <? zlen ?a] => destruct (Z.ltb_spec MAX_TLV_LEN (zlen a)); [apply tpost_fail|];
    pose proof (zlen_nonneg a) end.
  unfold MAX_TLV_LEN in *. apply add_post; try done; rewrite u16_small by lia; unfold MAX_TLV_LEN; lia.
Qed.

Lemma custom_tlv_file_inv i c : cmd_inv c -> tpost (custom_tlv_file_option fs argv i c) cmd_inv.
Proof.
  intros Hc. unfold custom_tlv_file_option. checked tlv_room_post. checked tlv_tag_post. checked check_tag_post. any.
  destruct (fs _) as [f|]; [|apply tpost_fail].
  destruct (Z.leb_spec (zlen f) 0); [apply tpost_fail|]. destruct (Z.ltb_spec MAX_TLV_LEN (zlen f)); [apply tpost_fail|].
  unfold MAX_TLV_LEN in *. apply add_post; try done; rewrite u16_small by lia; unfold MAX_TLV_LEN; lia.
Qed.

Lemma extract_spec f b n : extract_pubkey_from_der f = Some (b, n) -> n = zlen b /\ 0 < n <= MAX_TLV_LEN.
Proof.
  unfold extract_pubkey_from_der. destruct f as [der|]; [|done]. case_if; [done|].
  match goal with |- match ?x with Some _ => _ | None => _ end = _ -> _ => destruct x as [b'|]; [|done] end.
  destruct (Z.leb_spec (zlen b') 0); [done|]. destruct (Z.ltb_spec MAX_TLV_LEN (zlen b')); [done|]. intros [= <- <-].
  unfold MAX_TLV_LEN in *. rewrite u16_small by lia. lia.
Qed.

Lemma custom_tlv_pubkey_der_inv i c : cmd_inv c -> tpost (custom_tlv_pubkey_der_option fs argv i c) cmd_inv.
Proof.
  intros Hc. unfold custom_tlv_pubkey_der_option. checked tlv_room_post. checked tlv_tag_post. checked check_tag_post. any.
  destruct (extract_pubkey_from_der _) as [[b n]|] eqn:E; [|apply tpost_fail]. apply extract_spec in E as [-> Hn].
  apply add_post; try done; lia.
Qed.

Lemma cmdline_inv i c : cmd_inv c -> tpost (cmdline_option argv i c) cmd_inv.
Proof.
  intros Hc. unfold cmdline_option. checked tlv_room_post. any.
  match goal with |- context [u16 (zlen ?a)] => pose proof (zlen_nonneg a); assert (0 <= u16 (zlen a) <= zlen a) as Hu
    by (split; [apply u16_range|apply Z.mod_le; lia]); set (len := u16 (zlen a)) in *; clearbody len end.
  destruct (_ || _) eqn:E; [apply tpost_fail|]. bools. apply add_post; try done; unfold MAX_TLV_LEN; [lia|].
  unfold zlen in *. rewrite length_take. lia.
Qed.

Lemma id_inv a c : cmd_inv c -> tpost (id_option a c) cmd_inv.
Proof.
  intros Hc. unfold id_option. any. destruct (_ || _) eqn:E; [apply tpost_fail|]. bools. apply tpost_ret.
  destruct Hc. constructor; try done. cbn [set_partition partition_id]. rewrite u8_small by lia. lia.
Qed.


(** One option. *)
Definition parsed_ok (i : Z) (r : option (Z * parsed)) : Prop :=
  match r with None => True | Some (i', (c', _)) => i <= i' /\ cmd_inv c' end.

Lemma next_ok i c b : cmd_inv c -> tpost (ret_ok (Some (i, (c, b)))) (parsed_ok i).
Proof. intros Hc. apply tpost_ret. split; [lia|done]. Qed.

Lemma after_ok i n r (b : option (list Z)) : 0 <= n -> tpost r cmd_inv ->
  tpost (let? c := r in ret_ok (Some (i + n, (c, b)))) (parsed_ok i).
Proof. intros Hn Hr. eapply tpost_bind; [exact Hr|]. intros c Hc. apply tpost_ret. split; [lia|done]. Qed.

Lemma sign_option_inv alg wenc c : cmd_inv c -> cmd_inv (sign_option alg wenc c).
Proof. intros Hc. unfold sign_option. repeat case_if; same. Qed.

Lemma hash_inv h c : h = HDR_SHA256 \/ h = HDR_SHA384 \/ h = HDR_SHA3_384 -> cmd_inv c -> cmd_inv (set_hash_algo h c).
Proof. intros Hh [? ? ? ? ?]. by constructor. Qed.

Lemma parse_option_ok i c b : cmd_inv c -> tpost (parse_option fs argv i (c, b)) (parsed_ok i).
Proof.
  intros Hc. unfold parse_option. eapply (tpost_bind _ _ (fun _ => True)); [done|]. intros a _. cbv zeta.
  case_if; [apply next_ok; same|]. destruct (find_sign sign_options a) as [[alg wenc]|]; [by apply next_ok, sign_option_inv|].
  do 3 (case_if; [apply next_ok, hash_inv; [auto|done]|]).
  case_if; [apply next_ok; destruct Hc; constructor; done|]. case_if; [apply next_ok; same|].
  case_if; [apply after_ok; [lia|]; any; by apply id_inv|]. do 2 (case_if; [apply next_ok; same|]).
  case_if; [apply after_ok; [lia|]; any; apply tpost_ret; same|]. do 3 (case_if; [apply next_ok; same|]).
  case_if; [any; apply tpost_ret; split; [lia|same]|]. do 2 (case_if; [apply next_ok; same|]).
  case_if; [apply after_ok; [lia|]; any; apply tpost_ret; same|].
  case_if; [apply after_ok; [lia|by apply custom_tlv_inv]|].
  case_if; [case_if; [apply tpost_fail|]; apply after_ok; [lia|]; any; apply tpost_ret; same|].
  case_if; [apply after_ok; [lia|by apply custom_tlv_buffer_inv]|].
  case_if; [apply after_ok; [lia|by apply custom_tlv_string_inv]|].
  case_if; [apply after_ok; [lia|by apply custom_tlv_file_inv]|].
  case_if; [apply after_ok; [lia|by apply custom_tlv_pubkey_der_inv]|].
  case_if; [apply after_ok; [lia|by apply cmdline_inv]|].
  case_if; [case_if; [apply tpost_fail|]; apply after_ok; [lia|]; any; apply tpost_ret; same|]. by apply tpost_ret.
Qed.

Lemma parse_loop_ok fuel : forall i c b, cmd_inv c -> tpost (parse_loop fs argv fuel i (c, b)) (fun '(_, (c', _)) => cmd_inv c').
Proof.
  induction fuel as [|n IH]; intros i c b Hc; [apply tpost_fail|]. cbn [parse_loop].
  case_if; [by apply tpost_ret|]. eapply tpost_bind; [by apply parse_option_ok|].
  intros [[i' [c' b']]|]; [intros [_ Hc']; by apply IH|intros _; by apply tpost_ret].
Qed.

(** The fuel of the loop is never used up. *)
Lemma parse_loop_fuel f1 : forall f2 i c b, cmd_inv c -> (0 < f1)%nat -> (0 < f2)%nat ->
  argc argv - i < Z.of_nat f1 -> argc argv - i < Z.of_nat f2 ->
  parse_loop fs argv f1 i (c, b) = parse_loop fs argv f2 i (c, b).
Proof.
  induction f1 as [|n IH]; intros f2 i c b Hc H01 H02 H1 H2; [lia|]. destruct f2 as [|m]; [lia|]. cbn [parse_loop].
  destruct (Z.ltb_spec i (argc argv)); cbn [negb]; [|done].
  destruct (parse_option fs argv i (c, b)) as [[[i' [c' b']]|]|] eqn:E; cbn [tbind]; [|done..].
  destruct (parse_option_ok i c b Hc _ E) as [Hi Hc']. apply IH; [done|lia..].
Qed.

End Args.

(** Every command line that the signing tool accepts gives options it can
    honour, whatever the arguments and the files they name: at most 16 custom
    fields, each with a tag the bootloader can tell from padding and from the
    standard fields, a length of at most 65524 bytes and as many bytes to copy,
    a partition between 0 and 15, a known digest, never a device tree with a
    delta, and two different algorithms in a hybrid image; and the loop over the
    arguments always ends. *)
Theorem command_line_ok {D : der_api} fs argv co :
  parse_args fs argv = inl co ->
  cmd_inv (co_cmd co) /\ (dts_file (co_cmd co) = None \/ delta (co_cmd co) = false) /\
  (hybrid (co_cmd co) = true -> sign (co_cmd co) <> secondary_sign (co_cmd co)) /\
  forall f, (S (List.length argv) <= f)%nat ->
    parse_loop fs argv f 1 (cmd_defaults, None) = parse_loop fs argv (S (List.length argv)) 1 (cmd_defaults, None).
Proof.
  intros H. enough (tpost (parse_args fs argv) (fun co => (cmd_inv (co_cmd co) /\
    (dts_file (co_cmd co) = None \/ delta (co_cmd co) = false)) /\
    (hybrid (co_cmd co) = true -> sign (co_cmd co) <> secondary_sign (co_cmd co)))) as Hp.
  { destruct (Hp co H) as [[H1 H2] H3]. split; [done|]. split; [done|]. split; [done|].
    intros f Hf. apply parse_loop_fuel; unfold argc, zlen; try lia. apply defaults_inv. }
  unfold parse_args. case_if; [apply tpost_fail|].
  eapply tpost_bind; [apply parse_loop_ok, defaults_inv|]. intros [i [c b]] Hc.
  set (c1 := if (sign c =? secondary_sign c) && hybrid c then _ else c).
  assert (cmd_inv c1) as Hc1.
  { unfold c1. case_if; [|done]. destruct Hc as [? ? ? ? (? & ? & ? & ?)]. constructor; try done. }
  assert (hybrid c1 = true -> sign c1 <> secondary_sign c1) as Hh.
  { unfold c1. destruct ((sign c =? secondary_sign c) && hybrid c) eqn:E2; [done|]. intros Hy. rewrite Hy, andb_true_r in E2. by apply Z.eqb_neq in E2. }
  clearbody c1. any. destruct a as [[[[image key] key2] ver] sig].
  destruct (bool_decide (is_Some (dts_file c1)) && delta c1) eqn:Ed; [apply tpost_fail|].
  any. any. apply tpost_ret. cbn [co_cmd]. split; [split|done].
  - eapply inv_same; [exact Hc1|reflexivity..].
  - apply andb_false_iff in Ed as [Ed|Ed]; [left|by right]. apply bool_decide_eq_false in Ed.
    cbn [set_version dts_file]. destruct (dts_file c1); [|done]. by destruct Ed.
Qed.

(** ** Sizes *)

(** An image with nothing but the standard fields. *)
Record plain (c : cmd_options) : Prop := Plain {
  pl_hybrid : hybrid c = false;
  pl_policy : policy_sign c = false;
  pl_tlvs : custom_tlv c = [];
  pl_dts : dts_file c = None;
}.

(** The size of its fields. *)
Definition plain_size (algo sz : Z) (ts base_sha is_diff : bool) : Z :=
  let n := header_digest_size algo in
  let i := (if ts then 32 else 20) + 6 in
  let i := if is_diff then let i := ALIGN_4 (ALIGN_4 i + 16) + 16 in if base_sha then ALIGN_8 i + 4 + n else i else i in
  ALIGN_8 (ALIGN_8 (ALIGN_8 i + 4 + n) + 4 + n) + 4 + sz.

Lemma plain_room c is_diff : plain c -> sign c <> NO_SIGN -> 0 < header_digest_size (hash_algo c) ->
  room c is_diff 0 0 = plain_size (hash_algo c) (signature_sz c) (negb (no_ts c)) (negb (no_base_sha c)) is_diff.
Proof.
  intros [H1 H2 H3 H4] Hs Hn. unfold room, sign_end, key_end, chain_end, dts_end, delta_end, start_end, plain_size.
  rewrite H1, H2, H3, H4, (proj2 (Z.eqb_neq _ _) Hs). cbn [negb andb custom_end fold_left bool_decide decide_rel is_Some_dec].
  replace (0 <? header_digest_size (hash_algo c)) with true by (symmetry; by apply Z.ltb_lt). rewrite andb_true_r.
  change (0 <? 0) with false. cbv iota zeta. done.
Qed.

(** RSA-3072 with SHA-256, the only algorithm whose delta images do not fit. *)
Definition too_big (c : cmd_options) : bool :=
  delta c && (hash_algo c =? HDR_SHA256) && ((sign c =? SIGN_RSA3072) || (sign c =? SIGN_RSAPSS3072)).

(** All combinations of the fixed algorithms. *)
Definition fixed_algorithms : list Z :=
  [SIGN_ED25519; SIGN_ED448; SIGN_ECC256; SIGN_ECC384; SIGN_ECC521; SIGN_RSA2048; SIGN_RSAPSS2048;
   SIGN_RSA3072; SIGN_RSAPSS3072; SIGN_RSA4096; SIGN_RSAPSS4096].
Definition fits (alg algo : Z) (ts base_sha is_diff : bool) : bool :=
  match fixed_sizes alg algo with
  | Some (least, sz) =>
      let hs := if (least =? 256) && is_diff then 512 else least in
      (plain_size algo sz ts base_sha is_diff <=? hs) ||
      (is_diff && (algo =? HDR_SHA256) && ((alg =? SIGN_RSA3072) || (alg =? SIGN_RSAPSS3072)))
  | None => false
  end.

Lemma fixed_fit : forallb (fun alg => forallb (fun algo => forallb (fun ts => forallb (fun base_sha => forallb (fits alg algo ts base_sha)
  [true; false]) [true; false]) [true; false]) [HDR_SHA256; HDR_SHA384; HDR_SHA3_384]) fixed_algorithms = true.
Proof. vm_compute. reflexivity. Qed.

Lemma fixed_fit_at alg algo ts base_sha is_diff :
  In alg fixed_algorithms -> algo = HDR_SHA256 \/ algo = HDR_SHA384 \/ algo = HDR_SHA3_384 -> fits alg algo ts base_sha is_diff = true.
Proof.
  intros Ha Hh. pose proof fixed_fit as H. rewrite forallb_forall in H. specialize (H alg Ha). rewrite forallb_forall in H.
  specialize (H algo ltac:(cbn; intuition)). rewrite forallb_forall in H. specialize (H ts ltac:(destruct ts; cbn; auto)).
  rewrite forallb_forall in H. specialize (H base_sha ltac:(destruct base_sha; cbn; auto)).
  rewrite forallb_forall in H. apply H. destruct is_diff; cbn; auto.
Qed.

Lemma fixed_known alg algo p : fixed_sizes alg algo = Some p -> In alg fixed_algorithms.
Proof.
  intros H. destruct (in_dec Z.eq_dec alg fixed_algorithms) as [|Hn]; [done|]. exfalso.
  assert (forall x, In x fixed_algorithms -> (alg =? x) = false) as Hx by (intros x Hx; apply Z.eqb_neq; by intros ->).
  unfold fixed_sizes in H. rewrite !Hx in H by (cbn; auto 20). done.
Qed.

Lemma fixed_range alg algo least sz : fixed_sizes alg algo = Some (least, sz) ->
  (least = 256 \/ least = 512 \/ least = 1024) /\ 0 < sz <= 512 /\ alg <> NO_SIGN.
Proof.
  intros H. assert (alg <> NO_SIGN) as Hn by (intros ->; done). revert H. unfold fixed_sizes.
  repeat case_if; intros [= <- <-]; split_and!; (lia || done).
Qed.

(** The header size in the environment, 0 when there is none. *)
Definition suggested (e : environment) : Z := match IMAGE_HEADER_SIZE_env e with Some s => u32 (atoi s) | None => 0 end.

(** The header the tool chooses holds every plain image of an algorithm with a
    fixed signature size, with or without time stamp and base digest, whatever
    header size the environment suggests (for a delta image, none between 257 and
    511): signing never stops for lack of room.  The one exception is a delta
    image signed with RSA-3072 and SHA-256, whose fields take more than the 512
    bytes chosen for it. *)
Theorem chosen_header_fits {P : params_api} e ke c p :
  cmd_inv c -> plain c -> fixed_sizes (sign c) (hash_algo c) = Some p -> too_big c = false ->
  (delta c = true -> suggested e <= 256 \/ 512 <= suggested e) ->
  exists c', choose_sizes e ke c = inl c' /\ signature_sz c' = snd p /\
    header_required_size c' (delta c) 0 0 <= header_sz c'.
Proof.
  intros Hc Hp Hf Hb Hd. destruct p as [least sz]. pose proof (ci_sizes _ Hc) as (S1 & S2 & S3 & S4).
  destruct (fixed_range _ _ _ _ Hf) as (Hl & Hz & Hns).
  pose proof (fixed_fit_at _ _ (negb (no_ts c)) (negb (no_base_sha c)) (delta c) (fixed_known _ _ _ Hf) (ci_hash _ Hc)) as Hfit.
  unfold fits in Hfit. rewrite Hf in Hfit. unfold too_big in Hb. rewrite Hb, orb_false_r in Hfit. apply Z.leb_le in Hfit.
  unfold choose_sizes, set_signature_sizes. rewrite Hf, S1. cbn [tbind ret_ok]. fold (suggested e).
  replace (if 256 <? least then least else 256) with least by (case_if; bools; lia).
  set (h1 := if negb (suggested e =? 0) && (least <=? suggested e) then suggested e else least).
  set (h2 := if (h1 =? 256) && delta c then u32 (Z.shiftl h1 1) else h1).
  assert (plain_size (hash_algo c) sz (negb (no_ts c)) (negb (no_base_sha c)) (delta c) <= h2 /\ h2 <> 0) as [Hsz Hh0].
  { assert (least <= h1 /\ (delta c = true -> h1 = 256 \/ 512 <= h1)) as [H1 H2].
    { unfold h1. destruct (negb (suggested e =? 0) && (least <=? suggested e)) eqn:Es; bools; split; try lia; intros Hdl; specialize (Hd Hdl); lia. }
    unfold h2. destruct (Z.eqb_spec h1 256) as [E1|E1]; cbn [andb].
    - rewrite E1 in *. replace least with 256 in Hfit by lia. change (256 =? 256) with true in Hfit. cbn [andb] in Hfit.
      destruct (delta c); [change (u32 (Z.shiftl 256 1)) with 512|]; lia.
    - destruct (Z.eqb_spec least 256); cbn [andb] in Hfit; [|lia]. destruct (delta c); [destruct (H2 eq_refl)|]; lia. }
  cbn [hybrid set_main_size sign signature_sz header_sz]. rewrite (pl_hybrid _ Hp). cbn [tbind ret_ok sign signature_sz header_sz set_main_size].
  rewrite (proj2 (Z.eqb_neq _ _) Hh0). rewrite (proj2 (Z.eqb_neq sz 0)) by lia. rewrite andb_false_r. cbn [orb].
  eexists. split; [done|]. split; [done|].
  assert (sizes_ok (set_main_size h2 sz c) 0) as Hso.
  { constructor; cbn [set_main_size hash_algo custom_tlv signature_sz secondary_signature_sz policy_sz].
    - destruct (ci_hash _ Hc) as [-> | [-> | ->]]; done.
    - rewrite (pl_tlvs _ Hp). constructor.
    - apply (ci_count _ Hc).
    - done.
    - lia. }
  rewrite (proj1 (required_room _ (delta c) 0 0 Hso)), plain_room; [exact Hsz|by destruct Hp|done|apply (so_hash _ _ Hso)].
Qed.

(** The exception needs a larger header than the tool chooses. *)
Example rsa3072_delta_room :
  plain_size HDR_SHA256 384 true true true = 584 /\ fixed_sizes SIGN_RSA3072 HDR_SHA256 = Some (512, 384).
Proof. split; reflexivity. Qed.

(** The signing algorithm must be given.  Without one the tool stops with
    status 2 before it looks at the key, whatever the other options. *)
Lemma algorithm_not_guessed {P : params_api} e ke c :
  cmd_inv c -> sign c = SIGN_AUTO -> hybrid c = false -> choose_sizes e ke c = inr (Exit 2 None).
Proof.
  intros Hc Hs Hh. destruct (ci_sizes _ Hc) as (S1 & S2 & S3 & S4). unfold choose_sizes, set_signature_sizes.
  rewrite Hs. change (fixed_sizes SIGN_AUTO (hash_algo c)) with (@None (Z * Z)). change (param_size ke SIGN_AUTO) with (@ret_ok (option Z) None).
  cbn [tbind ret_ok set_main_size hybrid]. rewrite Hh. cbn [tbind ret_ok set_main_size sign signature_sz]. by rewrite Hs, S2.
Qed.

(** ** Witnesses *)

Module ExampleArgs.

#[export] Instance no_der : der_api := {|
  der_ecc_raw := fun _ => None; der_ed25519 := fun _ => None; der_ed448 := fun _ => None; der_rsa := fun _ => None |}.
#[export] Instance no_params : params_api := {|
  LMS_LEVELS := 1; LMS_HEIGHT := 10; LMS_WINTERNITZ := 8; WOLFBOOT_XMSS_PARAMS := []; ML_DSA_LEVEL := 2;
  wc_LmsKey_Init := -174; wc_LmsKey_SetParameters := fun _ _ _ => -174; wc_LmsKey_GetSigLen := fun _ _ _ => (-174, 0);
  wc_XmssKey_Init := -174; wc_XmssKey_SetParamStr := fun _ => -174; wc_XmssKey_GetSigLen := fun _ => (-174, 0);
  wc_MlDsaKey_Init := -174; wc_MlDsaKey_SetParams := fun _ => -174; wc_MlDsaKey_GetSigLen := fun _ => (-174, 0);
|}.
Definition no_files : list Z -> file := fun _ => None.

(** [sign --ed25519 --id 2 --custom-tlv 0x34 2 0x4142 --cmdline quiet image.bin key.der 7] *)
Definition line : list (list Z) :=
  text <$> ["sign"; "--ed25519"; "--id"; "2"; "--custom-tlv"; "0x34"; "2"; "0x4142"; "--cmdline"; "quiet";
            "image.bin"; "key.der"; "7"]%string.

Definition e0 : environment := mkEnv None None None None None.
Definition ke0 : key_environment := mkKeyEnv None None None None None.

Lemma default_sign_inv s : cmd_inv (set_sign s cmd_defaults).
Proof. constructor; [apply Forall_nil_2|vm_compute; congruence|cbn; lia|by left|done]. Qed.

End ExampleArgs.
Import ExampleArgs.

Lemma command_line_ok_witness :
  exists co, parse_args no_files line = inl co /\ cmd_inv (co_cmd co) /\ fw_version (co_cmd co) = text "7" /\
    tlv_val <$> custom_tlv (co_cmd co) = [0x4142; 0].
Proof.
  assert (exists co, parse_args no_files line = inl co) as [co H] by (eexists; vm_compute; reflexivity).
  exists co. split; [exact H|]. split; [exact (proj1 (command_line_ok no_files line co H))|].
  vm_compute in H. injection H as <-. split; reflexivity.
Defined.

Lemma chosen_header_fits_witness :
  exists c', choose_sizes e0 ke0 (set_sign SIGN_ECC384 cmd_defaults) = inl c' /\ signature_sz c' = 96.
Proof.
  destruct (chosen_header_fits e0 ke0 (set_sign SIGN_ECC384 cmd_defaults) (512, 96)) as (c' & H1 & H2 & _).
  - apply default_sign_inv.
  - constructor; reflexivity.
  - reflexivity.
  - reflexivity.
  - discriminate.
  - exists c'. split; [exact H1|exact H2].
Defined.

Example no_algorithm : choose_sizes e0 ke0 (set_sign SIGN_AUTO cmd_defaults) = inr (Exit 2 None).
Proof. apply algorithm_not_guessed; [apply default_sign_inv|reflexivity|reflexivity]. Qed.
