(* ===== verification/SignDelta.v ===== *)
(** * SignDelta: delta images (tools/keytools/sign.c, src/delta.c)

    The field search of the signing tool, which is that of the bootloader, and
    [base_diff]: a patch from the base image to the new one, a patch back, and a
    signed image that holds both.  Files are their contents; the buffers that
    [malloc] returns hold arbitrary bytes ([dest]). *)

From Stdlib Require Import ZArith Lia.
From stdpp Require Import prelude.
From S2P Require Import Prelude Flash Trailer Image Delta DeltaUpdate Stream Sign SignArgs.

Local Open Scope Z_scope.

Definition MAX_SRC_SIZE : Z := Z.shiftl 1 24.

(** ** Reading a signed image *)

(** One turn of the loop; [p] counts from the start of the file, which is mapped
    at an even address. *)
Definition find_step (hs : Z) (buf : list Z) (type max_p p : Z) : outcome (Z + (Z * option Z)) :=
  if negb (p + 4 <? max_p) then Ok (inr (0, None)) else
  let! p0 := rd buf p in
  let! p1 := rd buf (p + 1) in
  let htype := u16 (Z.lor p0 (Z.shiftl p1 8)) in
  if htype =? 0 then Ok (inr (0, None)) else
  if (p0 =? HDR_PADDING) || negb (Z.land p 0x01 =? 0) then Ok (inl (p + 1)) else
  let! p2 := rd buf (p + 2) in
  let! p3 := rd buf (p + 3) in
  let len := u16 (Z.lor p2 (Z.shiftl p3 8)) in
  if u16 (hs - IMAGE_HEADER_OFFSET) <? 4 + len then Ok (inr (0, None)) else
  if max_p <? p + 4 + len then Ok (inr (0, None)) else
  if htype =? type then Ok (inr (len, Some (p + 4))) else
  Ok (inl (p + 4 + len)).

Definition sign_tool_find_header (hs : Z) (buf : list Z) (haystack type : Z) : outcome (Z * option Z) :=
  let max_p := haystack - IMAGE_HEADER_OFFSET + hs in
  if max_p <? haystack then Ok (0, None) else
  loop (S (Z.to_nat hs)) (find_step hs buf type max_p) haystack.

(** ** The sector size *)

Definition wb_diff_get_sector_size (e : environment) : tool Z :=
  match WOLFBOOT_SECTOR_SIZE_env e with
  | None => exit_ 6
  | Some s =>
      let sec_sz := u32 (atoi s) in
      let? sec_sz :=
        (if sec_sz =? 0 then
           let '(v, erange) := strtol 16 s in
           if erange then exit_ 6 else ret_ok (u32 v)
         else ret_ok sec_sz) in
      if sec_sz =? 0 then exit_ 6 else
      if 0xFFFF <? sec_sz then exit_ 6 else ret_ok sec_sz
  end.

(** ** The delta image *)

Section BaseDiff.
Context {T : tool_hash} {W : sign_api} {E : stream_api}.

(** Version and digest of the base image. *)
Definition base_info (c : cmd_options) (base : list Z) : tool (Z * option (list Z)) :=
  let find t := chk (sign_tool_find_header (header_sz c) base 8 t) in
  let? (n, v) := find HDR_VERSION in
  match v with
  | Some p =>
      if negb (n =? 4) then fail (-1) else
      let? b := chk (rd_bytes base p 4) in
      let version := Z.lor (Z.lor (Z.lor (at_ b 0) (Z.shiftl (at_ b 1) 8)) (Z.shiftl (at_ b 2) 16)) (Z.shiftl (at_ b 3) 24) in
      if version =? 0 then fail (-1) else
      if (hash_algo c =? HDR_SHA256) || (hash_algo c =? HDR_SHA384) || (hash_algo c =? HDR_SHA3_384) then
        let? (n, h) := find (hash_algo c) in
        match h with
        | Some p => let? b := chk (rd_bytes base p n) in ret_ok (version, Some b)
        | None => ret_ok (version, None)
        end
      else ret_ok (version, None)
  | None => fail (-1)
  end.

(** One patch from [a] to [b]. *)
Definition tool_patch (sector : Z) (a b dest : list Z) : tool (list Z) :=
  match wb_diff_init a (zlen a) b (zlen b) with
  | None => fail (-1)
  | Some ctx =>
      let? r := chk (make_patch sector ctx dest sector) in
      match r with None => fail (-1) | Some patch => ret_ok patch end
  end.

(** [while ((len3 % padding) != 0)]. *)
Definition pad_patch (padding : Z) (patch : list Z) : list Z :=
  patch ++ replicate (Z.to_nat (align_up (Z.to_nat padding) padding 0 (zlen patch) - zlen patch)) 0.

(** The header size that [make_header_ex] will use. *)
Definition fit_delta_header (c : cmd_options) : tool cmd_options :=
  if bool_decide (is_Some (cert_chain_file c)) || (0 <? zlen (custom_tlv c)) then
    let? chain_sz :=
      (match cert_chain_file c with
       | Some (Some chain) => if MAX_TLV_LEN <? zlen chain then fail (-1) else ret_ok (zlen chain)
       | _ => ret_ok 0
       end) in
    let required_space := header_required_size c true chain_sz 0 in
    if header_sz c <? required_space then
      match grow 33 256 required_space with
      | None => fail (-1)
      | Some new_size => ret_ok (set_header_sz new_size c)
      end
    else ret_ok c
  else ret_ok c.

Definition base_diff (c : cmd_options) (e : environment) (f_base : file) (pubkey : list Z) (padding : Z)
    (f_new : file) (ctime : Z) (uninit dest dest' : list Z) : tool (outputs * cmd_options) :=
  let? sector := wb_diff_get_sector_size e in
  match f_base with
  | None => fail (-1)
  | Some base =>
      if MAX_SRC_SIZE <? zlen base then fail (-1) else
      if zlen base =? 0 then fail (-1) else
      let? (version, base_hash) := base_info c base in
      match f_new with
      | None => fail (-1)
      | Some buffer =>
          if MAX_SRC_SIZE <? zlen buffer then fail (-1) else
          if zlen buffer =? 0 then fail (-1) else
          let? patch := tool_patch sector base buffer dest in
          let body := pad_patch padding patch in
          let? c := fit_delta_header c in
          let patch_inv_off := u32 (zlen body + header_sz c) in
          let? inverse := tool_patch sector buffer base dest' in
          let body := body ++ inverse in
          if zlen body <=? 0 then fail (-1) else
          make_header_delta c e (mkDelta version (zlen patch) patch_inv_off (zlen inverse) base_hash)
            pubkey (Some body) ctime uninit
      end
  end.

End BaseDiff.
