(* ===== verification/SignDeltaSpec.v ===== *)
(** * SignDeltaSpec: the delta image at the bootloader

    The signing tool and the bootloader read the same fields in a header, and a
    delta image in the UPDATE partition shows the bootloader exactly the two
    patches that the tool made. *)

From Stdlib Require Import ZArith Lia.
From stdpp Require Import prelude.
From S2P Require Import Prelude Flash Trailer Image ImageSpec Delta DeltaDiff DeltaUpdate Stream Sign SignSpec SignHeader SignBoot SignRoom SignClaims SignArgs SignDelta.

Local Open Scope Z_scope.

(** ** The two searches *)

Section Search.
Context {c : config}.

Lemma land_even a b : a mod 2 = 0 -> Z.land (a + b) 1 = Z.land b 1.
Proof. intros Ha. change 1 with (Z.ones 1). rewrite !Z.land_ones by lia. change (2 ^ 1) with 2. dlia. Qed.

(** What the tool found, and the bootloader [base] further. *)
Definition same_field (base : Z) (rt rb : outcome (Z * option Z)) : Prop :=
  exists n o a, rt = Ok (n, o) /\ rb = Ok (n, a) /\ (0 < n -> a = Z.add base <$> o).

(** In the last four bytes only an empty field can be found. *)
Lemma search_end m base type f p : mem_ok m -> IMAGE_HEADER_SIZE <= p + 4 -> IMAGE_HEADER_SIZE - p < Z.of_nat (S f) ->
  exists a, loop (S f) (find_header_step m type (base + IMAGE_HEADER_SIZE)) (base + p) = Ok (0, a).
Proof.
  intros Hm Hp Hf. set (H := IMAGE_HEADER_SIZE) in *. cbn [loop]. unfold find_header_step at 1. fold H.
  destruct (Z.ltb_spec (base + p) (base + H)); cbn [negb]; [|by eexists].
  destruct (Z.ltb_spec (base + H - (base + p)) 4); [by eexists|].
  destruct (_ =? 0); [by eexists|]. destruct (_ || _).
  { destruct f as [|f]; [lia|]. cbn [loop]. unfold find_header_step at 1. fold H.
    destruct (Z.ltb_spec (base + p + 1) (base + H)); cbn [negb]; [|by eexists].
    destruct (Z.ltb_spec (base + H - (base + p + 1)) 4); [by eexists|lia]. }
  set (len := u16 (Z.lor (m (base + p + 2)) _)). assert (0 <= len) by apply u16_range. clearbody len.
  destruct (_ <? 4 + len); [by eexists|]. destruct (Z.ltb_spec (base + H - (base + p)) (4 + len)); [by eexists|].
  assert (len = 0) as -> by lia. destruct (_ =? type); [by eexists|].
  destruct f as [|f]; [lia|]. cbn [loop]. unfold find_header_step at 1. fold H.
  destruct (Z.ltb_spec (base + p + (4 + 0)) (base + H)); cbn [negb]; [lia|by eexists].
Qed.

Lemma search_sim m base buf type f : forall p,
  loaded m base buf -> mem_ok m -> base mod 2 = 0 -> IMAGE_HEADER_SIZE <= zlen buf -> 0 <= p ->
  IMAGE_HEADER_SIZE - p < Z.of_nat f -> (0 < f)%nat ->
  same_field base (loop f (find_step IMAGE_HEADER_SIZE buf type IMAGE_HEADER_SIZE) p)
    (loop f (find_header_step m type (base + IMAGE_HEADER_SIZE)) (base + p)).
Proof.
  induction f as [|f IH]; intros p Hl Hm He Hs Hp Hf H0; [lia|]. cbn [loop]. set (H := IMAGE_HEADER_SIZE) in *.
  unfold find_step at 1, find_header_step at 1. fold H.
  destruct (Z.ltb_spec (p + 4) H) as [Hlt|Hge]; cbn [negb].
  - destruct (Z.ltb_spec (base + p) (base + H)); [|lia]. cbn [negb].
    destruct (Z.ltb_spec (base + H - (base + p)) 4); [lia|].
    rewrite !rd_ok by lia. cbn [obind]. rewrite <- !Z.add_assoc, !Hl by lia.
    destruct (_ =? 0); [by exists 0, None, None|]. rewrite (land_even base p He).
    destruct (_ || _); [apply IH; try done; lia|].
    set (len := u16 (Z.lor (at_ buf (p + 2)) _)). assert (0 <= len) by apply u16_range. clearbody len.
    destruct (_ <? 4 + len); [by exists 0, None, None|].
    destruct (Z.ltb_spec H (p + (4 + len))), (Z.ltb_spec (base + H - (base + p)) (4 + len)); try lia; [by exists 0, None, None|].
    destruct (_ =? type); [|apply IH; try done; lia].
    exists len, (Some (p + 4)), (Some (base + (p + 4))). done.
  - destruct (search_end m base type f p Hm) as (a & Ha); [fold H; lia|fold H; lia|]. cbn [loop] in Ha.
    unfold find_header_step at 1 in Ha. fold H in Ha. rewrite Ha. exists 0, None, a. split_and!; try done; lia.
Qed.

(** The signing tool and the bootloader read headers alike.  In a signed file
    and in the same bytes in flash, the two searches find the same field of the
    same length, at the same place, for every tag; only an empty field in the last four bytes of the
    header is seen by the bootloader alone. *)
Theorem tool_search_agrees m base buf type :
  loaded m base buf -> mem_ok m -> base_ok base -> base mod 2 = 0 -> IMAGE_HEADER_SIZE <= zlen buf ->
  same_field base (sign_tool_find_header IMAGE_HEADER_SIZE buf IMAGE_HEADER_OFFSET type)
    (wolfBoot_find_header m (base + IMAGE_HEADER_OFFSET) type).
Proof.
  intros Hl Hm (B1 & B2 & B3) He Hs. unfold sign_tool_find_header, wolfBoot_find_header, IMAGE_HEADER_OFFSET in *.
  destruct (Z.ltb_spec (8 - 8 + IMAGE_HEADER_SIZE) 8); [lia|]. destruct (Z.eqb_spec (base + 8) 0); [lia|].
  destruct (Z.ltb_spec (base + 8) 8); [lia|]. destruct (Z.ltb_spec (UINTPTR_MAX - IMAGE_HEADER_SIZE) (base + 8 - 8)); [lia|].
  destruct (Z.ltb_spec (base + 8 - 8 + IMAGE_HEADER_SIZE) (base + 8)); [lia|].
  replace (8 - 8 + IMAGE_HEADER_SIZE) with IMAGE_HEADER_SIZE by lia.
  replace (base + 8 - 8 + IMAGE_HEADER_SIZE) with (base + IMAGE_HEADER_SIZE) by lia.
  apply search_sim; try done; lia.
Qed.

End Search.

(** ** The header of a delta image *)

Section Delta.
Context {T : tool_hash} {W : sign_api} {E : stream_api}.

(** Enlarging the header a second time changes nothing: the size computed for the
    offset of the inverse patch is the one of the image. *)
Lemma fit_idempotent cmd c1 :
  dts_file cmd = None -> fit_delta_header cmd = inl c1 -> fit_header c1 true 0 = inl c1.
Proof.
  intros Hd. unfold fit_delta_header.
  destruct (bool_decide (is_Some (cert_chain_file cmd)) || (0 <? zlen (custom_tlv cmd))) eqn:Eg; cycle 1.
  { intros [= <-]. unfold fit_header. rewrite Hd, Eg. done. }
  intros H. apply tbind_inv in H as (n & Hn & H).
  assert (exists hs, c1 = set_header_sz hs cmd /\ header_required_size cmd true n 0 <= hs) as (hs & -> & Hhs).
  { destruct (Z.ltb_spec (header_sz cmd) (header_required_size cmd true n 0)).
    - destruct (grow 33 256 _) as [x|] eqn:Ex; [|done]. injection H as <-. exists x. split; [done|].
      revert Ex. generalize 33%nat as f, 256 as y. intros f. induction f as [|f IH]; intros y; [done|]. cbn [grow].
      destruct (Z.ltb_spec y (header_required_size cmd true n 0)); cbn [negb]; [case_if; [done|apply IH]|by intros [= <-]].
    - injection H as <-. exists (header_sz cmd). split; [by destruct cmd|done]. }
  unfold fit_header. cbn [set_header_sz set_sizes cert_chain_file custom_tlv dts_file header_sz]. rewrite Eg. cbn [orb].
  rewrite Hn. cbn [tbind].
  change (header_required_size (set_header_sz hs cmd) true n 0) with (header_required_size cmd true n 0).
  destruct (Z.ltb_spec hs (header_required_size cmd true n 0)); [lia|done].
Qed.

Lemma sign_header_size c digest uninit h :
  tpost (sign_header c digest uninit h) (fun '(_, _, c') => header_sz c' = header_sz c).
Proof.
  unfold sign_header. destruct (negb _); [|by apply tpost_ret]. destruct (sha_only c); [apply tpost_fail|].
  any. destruct a as [sig sz]. any. destruct a as [sig2 sz2]. any. destruct a as [[pol psz] saved].
  case_if; [apply tpost_fail|]. destruct (_ && _); [apply tpost_fail|]. any. any. any. by apply tpost_ret.
Qed.

Lemma make_header_size c e d pubkey image ctime secondary_key uninit out c' :
  make_header_ex c e d pubkey (Some image) ctime secondary_key uninit = inl (out, c') ->
  exists c1, fit_header c (bool_decide (is_Some d)) (zlen secondary_key) = inl c1 /\ header_sz c' = header_sz c1.
Proof.
  intros H. unfold make_header_ex in H. apply tbind_inv in H as (c1 & Hf & H). exists c1. split; [done|].
  do 5 (apply tbind_inv in H as (? & _ & H)). apply tbind_inv in H as ([[? digest] ?] & _ & H). apply tbind_inv in H as (? & _ & H).
  apply tbind_inv in H as ([[hh saved] c2] & Hs & H). apply sign_header_size in Hs.
  apply tbind_inv in H as (? & _ & H). apply tbind_inv in H as (? & _ & H). apply tbind_inv in H as (? & _ & H).
  apply tbind_inv in H as (? & _ & H). injection H as _ <-. done.
Qed.

Lemma pad_patch_app padding patch : 0 < padding ->
  exists zeros, pad_patch padding patch = patch ++ zeros /\ zlen zeros < padding.
Proof.
  intros Hp. eexists. split; [done|]. pose proof (Z.mod_pos_bound (0 - zlen patch) padding Hp).
  destruct (align_up_spec padding 0 (Z.to_nat padding) (zlen patch)) as (_ & _ & Hy); [lia|lia|lia|].
  unfold zlen at 1. rewrite length_replicate, Hy. lia.
Qed.

(** What a successful [base_diff] did. *)
Lemma base_diff_inv cmd env old pubkey padding new ctime uninit dest dest' out cmd' :
  base_diff cmd env (Some old) pubkey padding (Some new) ctime uninit dest dest' = inl (out, cmd') -> dts_file cmd = None -> 0 < padding ->
  exists sector version bh fwd inverse zeros c1,
    wb_diff_get_sector_size env = inl sector /\ base_info cmd old = inl (version, bh) /\
    tool_patch sector old new dest = inl fwd /\ tool_patch sector new old dest' = inl inverse /\
    (exists hs, c1 = set_header_sz hs cmd) /\ header_sz cmd' = header_sz c1 /\ zlen zeros < padding /\
    make_header_ex c1 env (Some (mkDelta version (zlen fwd) (u32 (zlen (fwd ++ zeros) + header_sz c1)) (zlen inverse) bh))
      pubkey (Some ((fwd ++ zeros) ++ inverse)) ctime [] uninit = inl (out, cmd').
Proof.
  intros H Hd Hpad. unfold base_diff in H. apply tbind_inv in H as (sector & Hs & H).
  destruct (MAX_SRC_SIZE <? zlen old); [done|]. destruct (zlen old =? 0); [done|].
  apply tbind_inv in H as ([version bh] & Hi & H). destruct (MAX_SRC_SIZE <? zlen new); [done|]. destruct (zlen new =? 0); [done|].
  apply tbind_inv in H as (fwd & Hf & H). apply tbind_inv in H as (c1 & Hc & H). apply tbind_inv in H as (inverse & Hv & H).
  destruct (_ <=? 0); [done|]. unfold make_header_delta in H.
  destruct (pad_patch_app padding fwd Hpad) as (zeros & Hz & Hzl). rewrite Hz in H.
  pose proof (fit_idempotent cmd c1 Hd Hc) as Hid.
  destruct (make_header_size _ _ _ _ _ _ _ _ _ _ H) as (c2 & Hc2 & Hsz). change (zlen (@nil Z)) with 0 in Hc2.
  rewrite bool_decide_true in Hc2 by done. rewrite Hid in Hc2. injection Hc2 as <-.
  assert (exists hs, c1 = set_header_sz hs cmd) as Hset.
  { unfold fit_delta_header in Hc. assert (cmd = set_header_sz (header_sz cmd) cmd) as H0 by (by destruct cmd).
    destruct (_ || _); [|injection Hc as <-; by eexists]. apply tbind_inv in Hc as (n & _ & Hc).
    destruct (_ <? _); [|injection Hc as <-; by eexists]. destruct (grow _ _ _); [|done]. injection Hc as <-. by eexists. }
  by exists sector, version, bh, fwd, inverse, zeros, c1.
Qed.

End Delta.

(** ** The delta image in flash *)

Section DeltaBoot.
Context {c : config} {T : tool_hash} {HL : hash_laws tool_sha256} {W : sign_api} {E : stream_api}.

(** A field of the header, from the list of tags. *)
Lemma header_field cmd d pubkey secondary_key image ctime uninit header off fs1 sigs digest m base t v L1 L2 :
  signed_header cmd d pubkey secondary_key image ctime uninit header off fs1 sigs digest ->
  header_sz cmd = IMAGE_HEADER_SIZE -> header_size_ok IMAGE_HEADER_SIZE ->
  mem_ok m -> base_ok base -> base mod 2 = 0 -> loaded m base header ->
  tags fs1 = L1 ++ (t, v) :: L2 -> Forall (fun '(t', d') => t' <> t /\ zlen d' <= MAX_TLV_LEN) L1 -> zlen v <= MAX_TLV_LEN ->
  exists a, field m base t (zlen v) a /\ mread m a (zlen v) = v.
Proof.
  intros Hsh Hhs Hsz Hok Hb Hev Hl Ht HL1 Hv. pose proof (sh_built _ _ _ _ _ _ _ _ _ _ _ _ Hsh) as Hbu. rewrite Hhs in Hbu.
  destruct (find_field m base _ (header, IMAGE_HEADER_SIZE) _ L1 t v (L2 ++ (HDR_SHA256, digest) :: tags sigs)
    Hok Hb Hev Hsz Hbu Hl) as (f1 & o & f2 & _ & _ & G1 & G2); [|done|done|by exists (base + o + 4)].
  by rewrite tags_app, Ht, <- app_assoc.
Qed.

Lemma base_version_range cmd old version bh : bytes old -> base_info cmd old = inl (version, bh) -> 0 <= version < 2 ^ 32.
Proof.
  intros Hb H. unfold base_info in H. apply tbind_inv in H as ([n [p|]] & _ & H); [|done]. destruct (negb _); [done|].
  apply tbind_inv in H as (b & Hr & H). set (v := Z.lor _ _) in H.
  assert (bytes b /\ zlen b = 4) as [Hbb Hlb].
  { unfold chk, rd_bytes in Hr. destruct (_ && _) eqn:Er; [|done]. bools. injection Hr as <-. split; [|apply slice_length; lia].
    unfold slice. by apply Forall_take, Forall_drop. }
  assert (0 <= v < 2 ^ 32) as Hv.
  { pose proof (at_byte b 0 Hbb ltac:(lia)). pose proof (at_byte b 1 Hbb ltac:(lia)).
    pose proof (at_byte b 2 Hbb ltac:(lia)). pose proof (at_byte b 3 Hbb ltac:(lia)). unfold is_byte in *.
    unfold v. rewrite (lor_shift_add (at_ b 0) _ 8), (lor_shift_add _ (at_ b 2) 16), (lor_shift_add _ (at_ b 3) 24) by lia. lia. }
  clearbody v. destruct (v =? 0); [done|]. destruct (_ || _); [|by injection H as <- _].
  apply tbind_inv in H as ([n' [p'|]] & _ & H); [|by injection H as <- _].
  apply tbind_inv in H as (b' & _ & H). by injection H as <- _.
Qed.

(** The four numbers of a delta image. *)
Lemma delta_fields_at cmd d pubkey secondary_key image ctime uninit header off fs1 sigs digest m base :
  signed_header cmd (Some d) pubkey secondary_key image ctime uninit header off fs1 sigs digest ->
  header_sz cmd = IMAGE_HEADER_SIZE -> header_size_ok IMAGE_HEADER_SIZE ->
  mem_ok m -> base_ok base -> base mod 2 = 0 -> loaded m base header ->
  exists a1 a2 a3 a4,
    (field m base HDR_IMG_DELTA_BASE 4 a1 /\ mread m a1 4 = header_store_u32_le (delta_base_version d)) /\
    (field m base HDR_IMG_DELTA_SIZE 4 a2 /\ mread m a2 4 = header_store_u32_le (patch_len d)) /\
    (field m base HDR_IMG_DELTA_INVERSE 4 a3 /\ mread m a3 4 = header_store_u32_le (patch_inv_off d)) /\
    (field m base HDR_IMG_DELTA_INVERSE_SIZE 4 a4 /\ mread m a4 4 = header_store_u32_le (patch_inv_len d)).
Proof.
  intros Hsh Hhs Hsz Hok Hb Hev Hl. pose proof (sh_fields _ _ _ _ _ _ _ _ _ _ _ _ Hsh) as Ht.
  unfold delta_fields in Ht. cbn [app] in Ht. set (st := start_fields _ _ _) in Ht.
  match type of Ht with _ = _ ++ ?a :: ?b :: ?e :: ?f :: ?r => set (rest := r) in Ht; set (x1 := a) in Ht; set (x2 := b) in Ht; set (x3 := e) in Ht; set (x4 := f) in Ht end.
  assert (forall t, t = HDR_IMG_DELTA_BASE \/ t = HDR_IMG_DELTA_SIZE \/ t = HDR_IMG_DELTA_INVERSE \/ t = HDR_IMG_DELTA_INVERSE_SIZE ->
    Forall (fun '(t', d') => t' <> t /\ zlen d' <= MAX_TLV_LEN) st) as Hst.
  { intros t H. unfold st, start_fields. destruct (negb (no_ts cmd)); repeat constructor; try done; intros <-; by destruct H as [H|[H|[H|H]]]. }
  pose proof (fun t v L1 L2 => header_field _ _ _ _ _ _ _ _ _ _ _ _ m base t v L1 L2 Hsh Hhs Hsz Hok Hb Hev Hl) as Hf.
  destruct (Hf HDR_IMG_DELTA_BASE (header_store_u32_le (delta_base_version d)) st (x2 :: x3 :: x4 :: rest)) as (a1 & F1);
    [exact Ht|apply Hst; auto|done|].
  destruct (Hf HDR_IMG_DELTA_SIZE (header_store_u32_le (patch_len d)) (st ++ [x1]) (x3 :: x4 :: rest)) as (a2 & F2);
    [by rewrite <- app_assoc|apply Forall_app; split; [apply Hst; auto|repeat constructor; done]|done|].
  destruct (Hf HDR_IMG_DELTA_INVERSE (header_store_u32_le (patch_inv_off d)) (st ++ [x1; x2]) (x4 :: rest)) as (a3 & F3);
    [by rewrite <- app_assoc|apply Forall_app; split; [apply Hst; auto|repeat constructor; done]|done|].
  destruct (Hf HDR_IMG_DELTA_INVERSE_SIZE (header_store_u32_le (patch_inv_len d)) (st ++ [x1; x2; x3]) rest) as (a4 & F4);
    [by rewrite <- app_assoc|apply Forall_app; split; [apply Hst; auto|repeat constructor; done]|done|].
  by exists a1, a2, a3, a4.
Qed.

Lemma slice_mid (l1 l2 l3 : list Z) : slice (l1 ++ l2 ++ l3) (zlen l1) (zlen l2) = l2.
Proof.
  unfold slice, zlen. rewrite !Nat2Z.id. rewrite drop_app_length. by rewrite take_app_length.
Qed.

(** C26: A delta image shows the bootloader the patches the tool made.  When
    [base_diff] returns an image, the bootloader finds in it, in the UPDATE
    partition, the version of the base image; the size it reads and the bytes
    behind the header are the patch from the base image to the new one, and the
    offset and size of the inverse patch lead to the patch back, also when the
    tool had to enlarge the header for custom fields or a certificate chain.
    (Those patches rebuild the images, as [delta_roundtrip] states.) *)
Theorem delta_image_at_boot cmd env old new pubkey padding ctime uninit dest dest' out cmd' m :
  base_diff cmd env (Some old) pubkey padding (Some new) ctime uninit dest dest' = inl (out, cmd') ->
  hash_algo cmd = HDR_SHA256 -> header_only cmd = false -> dts_file cmd = None -> Forall tlv_ok (custom_tlv cmd) ->
  0 <= signature_sz cmd -> 0 <= secondary_signature_sz cmd ->
  header_sz cmd' = IMAGE_HEADER_SIZE -> header_size_ok IMAGE_HEADER_SIZE -> bytes old -> 0 < padding <= 64 ->
  (forall sector p, wb_diff_get_sector_size env = inl sector ->
     tool_patch sector old new dest = inl p \/ tool_patch sector new old dest' = inl p -> zlen p < 2 ^ 30) ->
  IMAGE_HEADER_SIZE < 2 ^ 30 ->
  let base := wolfBoot_get_image_from_part PART_UPDATE in
  mem_ok m -> base_ok base -> base mod 2 = 0 -> loaded m base (signed_image out) ->
  exists sector version bh fwd inverse,
    wb_diff_get_sector_size env = inl sector /\ base_info cmd old = inl (version, bh) /\
    tool_patch sector old new dest = inl fwd /\ tool_patch sector new old dest' = inl inverse /\
    wolfBoot_get_diffbase_version m PART_UPDATE = Ok version /\
    (exists i a, wolfBoot_get_delta_info m PART_UPDATE 0 = Ok (Some i) /\ img_size i = Some a /\
       mle32 m a = zlen fwd /\ mread m (base + IMAGE_HEADER_SIZE) (zlen fwd) = fwd) /\
    (exists i a o, wolfBoot_get_delta_info m PART_UPDATE 1 = Ok (Some i) /\ img_size i = Some a /\ img_offset i = Some o /\
       mle32 m a = zlen inverse /\ mread m (base + mle32 m o) (zlen inverse) = inverse).
Proof.
  intros Hbd Ha Hwh Hdts Htl Hs1 Hs2 Hhs Hsz Hbo Hpad Hpl HI base Hok Hb Hev Hl.
  destruct (base_diff_inv _ _ _ _ _ _ _ _ _ _ _ _ Hbd Hdts (proj1 Hpad))
    as (sector & version & bh & fwd & inverse & zeros & c1 & E1 & E2 & E3 & E4 & (hs & ->) & Ehs & Hzl & Hm).
  pose proof (base_version_range _ _ _ _ Hbo E2) as Hvr. exists sector, version, bh, fwd, inverse. do 4 (split; [done|]).
  rewrite Hhs in Ehs. cbn [set_header_sz set_sizes header_sz] in Ehs. subst hs. set (H := IMAGE_HEADER_SIZE) in *.
  pose proof (Hpl sector fwd E1 (or_introl E3)). pose proof (Hpl sector inverse E1 (or_intror E4)).
  pose proof (zlen_nonneg fwd). pose proof (zlen_nonneg inverse). pose proof (zlen_nonneg zeros). pose proof (proj1 Hsz).
  assert (zlen ((fwd ++ zeros) ++ inverse) < 2 ^ 32) as Hz by (rewrite !zlen_app; lia).
  cbn [set_header_sz set_sizes header_sz] in Hm. rewrite u32_small in Hm by (rewrite zlen_app; lia).
  set (d := mkDelta _ _ _ _ _) in Hm.
  destruct (make_header_fields HL _ _ _ _ _ _ _ _ _ _ Hm Ha Hz Htl) as (header & off & fs1 & sigs & digest & Hsh & Hout);
    [cbn; lia|done|done|]. rewrite Hhs in Hsh. cbn [set_header_sz set_sizes header_only] in Hout. rewrite Hwh in Hout.
  set (c2 := set_header_sz H _) in Hsh. assert (header_sz c2 = H) as Hc2 by done. rewrite Hout in Hl.
  pose proof (sh_built _ _ _ _ _ _ _ _ _ _ _ _ Hsh) as Hbu. pose proof (bu_len _ _ _ _ Hbu) as Hlen. cbn [fst] in Hlen. rewrite Hc2 in Hlen.
  apply loaded_app in Hl as [Hl1 Hl2]. rewrite Hlen in Hl2.
  assert (mle32 m base = WOLFBOOT_MAGIC) as Hmagic.
  { apply mle32_store; [done|]. intros i Hi. rewrite Hl1 by lia. by apply (bu_magic _ _ _ _ Hbu). }
  destruct (delta_fields_at c2 d pubkey [] ((fwd ++ zeros) ++ inverse) ctime uninit header off fs1 sigs digest m base Hsh Hc2 Hsz Hok Hb Hev Hl1)
    as (a1 & a2 & a3 & a4 & (F1 & V1) & (F2 & V2) & (F3 & V3) & (F4 & V4)).
  apply mle32_read in V1, V2, V3, V4; cbn [d delta_base_version patch_len patch_inv_off patch_inv_len] in *; try (rewrite ?zlen_app; lia).
  assert (forall o l1 l2 l3, (fwd ++ zeros) ++ inverse = l1 ++ l2 ++ l3 -> o = H + zlen l1 -> mread m (base + o) (zlen l2) = l2) as Hpart.
  { intros o l1 l2 l3 Hsplit ->. pose proof (zlen_nonneg l1). pose proof (zlen_nonneg l2). pose proof (zlen_nonneg l3).
    rewrite Z.add_assoc, (loaded_mread _ _ _ _ _ Hl2) by (rewrite ?Hsplit, ?zlen_app; lia). rewrite Hsplit. apply slice_mid. }
  destruct (find_header_ok m (base + IMAGE_HEADER_OFFSET) HDR_IMG_DELTA_BASE_HASH) as [[hn ha] Hh].
  unfold field in F1, F2, F3, F4. split; [|split].
  - unfold wolfBoot_get_diffbase_version, wolfBoot_get_blob_diffbase_version. fold base. rewrite Hmagic, Z.eqb_refl, F1. cbn [negb obind]. by rewrite V1.
  - eexists _, a2. unfold wolfBoot_get_delta_info. fold base. rewrite Hmagic, Z.eqb_refl, F2, Hh. cbn [negb obind Z.eqb]. split; [done|].
    split; [done|]. split; [done|]. apply (Hpart H [] fwd (zeros ++ inverse)); [by rewrite <- app_assoc|unfold zlen; cbn; lia].
  - eexists _, a4, a3. unfold wolfBoot_get_delta_info. fold base. rewrite Hmagic, Z.eqb_refl, F3, F4, Hh. cbn [negb obind Z.eqb]. split; [done|].
    split; [done|]. split; [done|]. split; [done|]. rewrite V3. apply (Hpart _ (fwd ++ zeros) inverse []); [by rewrite app_nil_r|lia].
Qed.

End DeltaBoot.

(** ** Witnesses *)

Module ExampleDeltaImage.
Export ExampleSign.

#[export] Instance delta_cfg : config := {|
  WOLFBOOT_SECTOR_SIZE := 512;
  WOLFBOOT_PARTITION_SIZE := 4096;
  WOLFBOOT_PARTITION_BOOT_ADDRESS := 0x1000;
  WOLFBOOT_PARTITION_UPDATE_ADDRESS := 0x2000;
  WOLFBOOT_PARTITION_SWAP_ADDRESS := 0x3000;
  IMAGE_HEADER_SIZE := 512;
  FLASHBUFFER_SIZE := 8;
|}.

(** Version [v], with a 512-byte header. *)
Definition delta_options (v : Z) : cmd_options :=
  mkCmd false false false false false ENC_OFF HDR_SHA256 SIGN_ED25519 false 0 true false false
    [v] None None None None None false 512 64 0 0 1 [].
Definition delta_env : environment := mkEnv None None (Some [53; 49; 50]) None None.

Definition image_of (r : tool (outputs * cmd_options)) : list Z :=
  match r with inl (out, _) => signed_image out | inr _ => [] end.
Definition old_image : list Z := Eval vm_compute in
  image_of (make_header (delta_options 49) no_env key (Some [9; 8; 7; 6; 5]) 0 []).
Definition new_image : list Z := Eval vm_compute in
  image_of (make_header (delta_options 50) no_env key (Some [9; 8; 1; 6; 5]) 0 []).
Abbreviation diff_run := (base_diff (delta_options 50) delta_env (Some old_image) key 16 (Some new_image) 0 []
  (replicate 512 0) (replicate 512 0)).
Definition diff_image : list Z := Eval vm_compute in image_of diff_run.

Definition update_flash : mem := fun a =>
  if in_range 0x2000 (zlen diff_image) a then at_ diff_image (a - 0x2000) else 0xFF.

Definition all_bytes (l : list Z) : bool := forallb (fun b => (0 <=? b) && (b <? 256)) l.
Lemma all_bytes_spec l : all_bytes l = true -> bytes l.
Proof.
  intros H. apply Forall_forall. intros b Hb. unfold all_bytes in H. rewrite forallb_forall in H. specialize (H b).
  rewrite <- list_elem_of_In in H. specialize (H Hb). bools. split; done.
Qed.

Lemma update_flash_ok : mem_ok update_flash.
Proof.
  intros a. unfold update_flash. case_if; [|done]. apply in_range_true in E. apply at_total_byte; [|lia].
  apply all_bytes_spec. vm_compute. reflexivity.
Qed.
Lemma update_flash_loaded : loaded update_flash 0x2000 diff_image.
Proof. intros i Hi. unfold update_flash. rewrite (proj2 (in_range_true _ _ _)) by lia. f_equal. lia. Qed.

End ExampleDeltaImage.
Import ExampleDeltaImage.

Lemma tool_search_agrees_witness :
  same_field 0x2000 (sign_tool_find_header 512 diff_image 8 HDR_IMG_DELTA_SIZE)
    (wolfBoot_find_header update_flash 0x2008 HDR_IMG_DELTA_SIZE).
Proof.
  exact (tool_search_agrees (c := delta_cfg) update_flash 0x2000 diff_image HDR_IMG_DELTA_SIZE update_flash_loaded update_flash_ok
    ltac:(split_and!; vm_compute; congruence) ltac:(vm_compute; reflexivity) ltac:(vm_compute; congruence)).
Defined.

Lemma delta_image_at_boot_witness : wolfBoot_get_diffbase_version update_flash PART_UPDATE = Ok 1.
Proof.
  destruct (tool_returns diff_run (fun r => (header_sz (snd r) =? 512) && bool_decide (signed_image (fst r) = diff_image)))
    as ([out c'] & Es & Hh); [vm_compute; reflexivity|].
  apply andb_prop in Hh as [Hh Ho]. apply Z.eqb_eq in Hh. apply bool_decide_eq_true in Ho. cbn [fst snd] in Hh, Ho.
  destruct (delta_image_at_boot (c := delta_cfg) (T := toy_tool_hash) (HL := toy_hash_laws) (W := toy_sign) (E := toy_stream)
    (delta_options 50) delta_env old_image new_image key 16 0 [] (replicate 512 0) (replicate 512 0) out c' update_flash)
    as (sector & version & bh & fwd & inv & _ & E2 & _ & _ & E5 & _).
  - exact Es.
  - reflexivity.
  - reflexivity.
  - reflexivity.
  - apply Forall_nil_2.
  - vm_compute. congruence.
  - vm_compute. congruence.
  - exact Hh.
  - split; [vm_compute; congruence|left; vm_compute; reflexivity].
  - apply all_bytes_spec. vm_compute. reflexivity.
  - split; vm_compute; congruence.
  - intros sector p Hs Hp. assert (sector = 512) as -> by (vm_compute in Hs; congruence).
    destruct Hp as [Hp|Hp]; vm_compute in Hp; injection Hp as <-; vm_compute; reflexivity.
  - vm_compute. reflexivity.
  - exact update_flash_ok.
  - split_and!; vm_compute; congruence.
  - vm_compute. reflexivity.
  - rewrite Ho. exact update_flash_loaded.
  - rewrite E5. vm_compute in E2. congruence.
Defined.
