(* ===== verification/Encrypt.v ===== *)
(** * Encrypt: the encrypted update partition (src/libwolfboot.c, include/encrypt.h)

    With [EXT_ENCRYPTED] the update partition is in external flash and holds
    cipher text: [ext_flash_encrypt_write] and [ext_flash_decrypt_read] translate
    every access, block by block, with a key stream whose position is the offset
    in the partition.  The cipher is ChaCha20 or AES in counter mode, behind the
    macros [crypto_*] of encrypt.h, which are the class [crypto_api]; the external
    flash is the simulator's (hal/sim.c). *)

From Stdlib Require Import ZArith Lia.
From stdpp Require Import prelude.
From S2P Require Import Prelude Flash Trailer Stream.

Local Open Scope Z_scope.

(** ** The cipher of the build *)

Class crypto_api : Type := CryptoApi {
  ENCRYPT_BLOCK_SIZE : Z;
  ENCRYPT_KEY_SIZE : Z;
  ENCRYPT_NONCE_SIZE : Z;
  crypto : Type;
  crypto_zeroed : crypto;
  crypto_set_key : list Z -> crypto;
  crypto_set_iv : crypto -> list Z -> Z -> crypto;
  crypto_encrypt : crypto -> list Z -> crypto * list Z;
  crypto_decrypt : crypto -> list Z -> crypto * list Z;
}.

Section Ciphers.
Context {E : stream_api}.

(** [ENCRYPT_WITH_CHACHA]: one context for both directions. *)
Definition chacha_crypto : crypto_api := {|
  ENCRYPT_BLOCK_SIZE := 64;
  ENCRYPT_KEY_SIZE := 32;
  ENCRYPT_NONCE_SIZE := 12;
  crypto := chacha;
  crypto_zeroed := chacha_zeroed;
  crypto_set_key := wc_Chacha_SetKey;
  crypto_set_iv := wc_Chacha_SetIV;
  crypto_encrypt := wc_Chacha_Process;
  crypto_decrypt := wc_Chacha_Process;
|}.

Definition wb_reverse_word32 (x : Z) : Z := ByteReverseWord32 x.

(** The words of a buffer on a little-endian machine, and back. *)
Definition load_words (l : list Z) : list Z :=
  (fun i => word_of (at_ l (4 * i)) (at_ l (4 * i + 1)) (at_ l (4 * i + 2)) (at_ l (4 * i + 3))) <$> seqZ 0 4.
Definition store_words (w : list Z) : list Z := mjoin (le32_bytes <$> w).

(** The carry loop: words [i], [i - 1], ... 0. *)
Fixpoint carry (n : nat) (w : list Z) : list Z :=
  match n with
  | O => w
  | S i =>
      let x := u32 (default 0 (w !! i) + 1) in
      let w := <[i := x]> w in
      if negb (x =? 0) then w else carry i w
  end.

Definition aes_iv (nonce : list Z) (iv_ctr : Z) : list Z :=
  let iv_buf := wb_reverse_word32 <$> load_words nonce in
  let x := u32 (default 0 (iv_buf !! 3%nat) + iv_ctr) in
  let iv_buf := <[3%nat := x]> iv_buf in
  let iv_buf := if x <? iv_ctr then carry 3 iv_buf else iv_buf in
  store_words (wb_reverse_word32 <$> iv_buf).

(** The contexts [aes_enc] and [aes_dec]. *)
Definition aes_set_iv (c : aes * aes) (nonce : list Z) (iv_ctr : Z) : aes * aes :=
  let iv_buf := aes_iv nonce iv_ctr in
  (wc_AesSetIV (fst c) iv_buf, wc_AesSetIV (snd c) iv_buf).

(** [ENCRYPT_WITH_AES128] and [ENCRYPT_WITH_AES256]. *)
Definition aes_crypto (key_size : Z) : crypto_api := {|
  ENCRYPT_BLOCK_SIZE := 16;
  ENCRYPT_KEY_SIZE := key_size;
  ENCRYPT_NONCE_SIZE := 16;
  crypto := aes * aes;
  crypto_zeroed := (aes_zeroed, aes_zeroed);
  crypto_set_key := fun key => (wc_AesSetKeyDirect key None, wc_AesSetKeyDirect key None);
  crypto_set_iv := aes_set_iv;
  crypto_encrypt := fun c b => let '(e, out) := wc_AesCtrEncrypt (fst c) b in ((e, snd c), out);
  crypto_decrypt := fun c b => let '(d, out) := wc_AesCtrEncrypt (snd c) b in ((fst c, d), out);
|}.

(** The initialisation vector of the disk loader (src/update_disk.c), which
    adds the block offset to the last four bytes only. *)
Definition disk_iv (nonce : list Z) (block_offset : Z) : list Z :=
  let ctr := u32 (be_value (slice nonce 12 4) + block_offset) in
  slice nonce 0 12 ++ [u8 (Z.shiftr ctr 24); u8 (Z.shiftr ctr 16); u8 (Z.shiftr ctr 8); u8 ctr].

Definition disk_crypto_set_iv (c : aes * aes) (nonce : list Z) (block_offset : Z) : aes * aes :=
  (fst c, wc_AesSetIV (snd c) (disk_iv nonce block_offset)).

End Ciphers.

(** ** State *)

Section Encrypt.
Context {c : config} {C : crypto_api} (NVM_CACHE_SIZE ENCRYPT_KEY : Z).

(** Internal memory, external flash, and the variables of the module.
    [ENCRYPT_KEY] is where the key and the nonce are kept. *)
Record sys : Type := mkSys {
  int_mem : mem;
  ext_mem : mem;
  extFlashLocked : bool;
  encrypt_initialized : bool;
  encrypt_iv_offset : Z;
  fallback_iv_forced : bool;
  encrypt_iv_nonce : list Z;
  ctx : crypto;
}.

Definition set_ext (s : sys) (m : mem) : sys :=
  mkSys (int_mem s) m (extFlashLocked s) (encrypt_initialized s) (encrypt_iv_offset s) (fallback_iv_forced s) (encrypt_iv_nonce s) (ctx s).
Definition set_ctx (s : sys) (x : crypto) : sys :=
  mkSys (int_mem s) (ext_mem s) (extFlashLocked s) (encrypt_initialized s) (encrypt_iv_offset s) (fallback_iv_forced s) (encrypt_iv_nonce s) x.
Definition set_offset (s : sys) (o : Z) : sys :=
  mkSys (int_mem s) (ext_mem s) (extFlashLocked s) (encrypt_initialized s) o (fallback_iv_forced s) (encrypt_iv_nonce s) (ctx s).

(** External flash of the simulator. *)
Definition ext_copy (m : mem) (address : Z) (data : list Z) : mem :=
  fun a => if in_range address (zlen data) a then at_ data (a - address) else m a.

Definition ext_flash_write (s : sys) (address : Z) (data : list Z) : Z * sys :=
  if extFlashLocked s then (-1, s) else (0, set_ext s (ext_copy (ext_mem s) address data)).
Definition ext_flash_read (s : sys) (address len : Z) : Z * list Z := (len, mread (ext_mem s) address len).

(** ** Keys *)

Definition encrypt_key_is_erased (key : list Z) : bool :=
  fold_left (fun diff b => Z.lor diff (Z.lxor b FLASH_BYTE_ERASED)) key 0 =? 0.

Definition encrypt_key_is_valid (key : list Z) : bool :=
  let has_one := fold_left Z.lor key 0 in
  let has_zero := fold_left (fun z b => Z.lor z (u8 (Z.lnot b))) key 0 in
  negb (has_one =? 0) && negb (has_zero =? 0).

(** [chacha_init] and [aes_init]. *)
Definition crypto_init (s : sys) : Z * sys :=
  let key := mread (int_mem s) ENCRYPT_KEY ENCRYPT_KEY_SIZE in
  let stored_nonce := mread (int_mem s) (ENCRYPT_KEY + ENCRYPT_KEY_SIZE) ENCRYPT_NONCE_SIZE in
  let s := set_ctx s crypto_zeroed in
  if negb (encrypt_key_is_valid key) then (-1, s) else
  (0, mkSys (int_mem s) (ext_mem s) (extFlashLocked s) true (encrypt_iv_offset s) (fallback_iv_forced s) stored_nonce (crypto_set_key key)).

Definition wolfBoot_initialize_encryption (s : sys) : Z * sys :=
  if encrypt_initialized s then (0, s) else
  let '(r, s) := crypto_init s in
  if negb (r =? 0) then (-1, s) else (0, s).

(** ** The initialisation vector *)

Definition FALLBACK_IV_OFFSET : Z := 0x00100000.

Definition wolfBoot_enable_fallback_iv (s : sys) (enable : bool) : Z * sys :=
  (if encrypt_iv_offset s =? 0 then 0 else 1, set_offset s (if enable then FALLBACK_IV_OFFSET else 0)).

Definition wolfBoot_force_fallback_iv (s : sys) (enable : bool) : bool * sys :=
  (fallback_iv_forced s,
   mkSys (int_mem s) (ext_mem s) (extFlashLocked s) (encrypt_initialized s) (encrypt_iv_offset s) enable (encrypt_iv_nonce s) (ctx s)).

Definition wolfBoot_crypto_set_iv (s : sys) (nonce : list Z) (iv_counter : Z) : sys :=
  set_offset (set_ctx s (crypto_set_iv (ctx s) nonce (u32 (iv_counter + encrypt_iv_offset s)))) 0.

(** ** Layout *)

Definition ENCRYPT_TMP_SECRET_OFFSET : Z := WOLFBOOT_PARTITION_SIZE - (ENCRYPT_KEY_SIZE + ENCRYPT_NONCE_SIZE).
Definition TRAILER_OVERHEAD : Z := 4 + 1 + WOLFBOOT_PARTITION_SIZE / (2 * WOLFBOOT_SECTOR_SIZE).
Definition START_FLAGS_OFFSET : Z := ENCRYPT_TMP_SECRET_OFFSET - TRAILER_OVERHEAD.
Definition ENCRYPT_STAGE_SIZE : Z := NVM_CACHE_SIZE - NVM_CACHE_SIZE mod ENCRYPT_BLOCK_SIZE.

Definition part_address (a : Z) : Z :=
  if (WOLFBOOT_PARTITION_UPDATE_ADDRESS <=? a) && (a <? WOLFBOOT_PARTITION_UPDATE_ADDRESS + WOLFBOOT_PARTITION_SIZE) then PART_UPDATE else
  if (WOLFBOOT_PARTITION_SWAP_ADDRESS <=? a) && (a <? WOLFBOOT_PARTITION_SWAP_ADDRESS + WOLFBOOT_SECTOR_SIZE) then PART_SWAP else
  PART_NONE.

(** ** Writing *)

(** A loop over [n] blocks of [data] from [pos], each through [f] into a buffer. *)
Fixpoint crypt_blocks (f : crypto -> list Z -> crypto * list Z) (n : nat) (x : crypto) (data : list Z) (pos : Z)
    : outcome (crypto * list Z) :=
  match n with
  | O => Ok (x, [])
  | S n =>
      let! block := rd_bytes data pos ENCRYPT_BLOCK_SIZE in
      let '(x, out) := f x block in
      let! (x, rest) := crypt_blocks f n x data (pos + ENCRYPT_BLOCK_SIZE) in
      Ok (x, out ++ rest)
  end.

(** The part of a block that the caller provides, the rest as it is in flash. *)
Definition merge_block (s : sys) (row_address row_offset : Z) (data : list Z) (pos step : Z) : outcome (Z * sys) :=
  let '(r, block) := ext_flash_read s row_address ENCRYPT_BLOCK_SIZE in
  if negb (r =? ENCRYPT_BLOCK_SIZE) then Ok (-1, s) else
  let! d := rd_bytes data pos step in
  let! block := blit block row_offset d in
  let '(x, enc_block) := crypto_encrypt (ctx s) block in
  Ok (ext_flash_write (set_ctx s x) row_address enc_block).

(** "encrypt remainder": the last value of [ret], and where the loop stopped. *)
Definition write_blocks (s : sys) (address : Z) (data : list Z) (pos step : Z) : outcome (Z * sys * Z * Z) :=
  loop (S (Z.to_nat step)) (fun '(s, address, pos, step, ret) =>
    if negb (0 <? step) then Ok (inr (ret, s, address, pos)) else
    let chunk := if ENCRYPT_STAGE_SIZE <? step then ENCRYPT_STAGE_SIZE else step in
    let! (x, cache) := crypt_blocks crypto_encrypt (Z.to_nat (chunk / ENCRYPT_BLOCK_SIZE)) (ctx s) data pos in
    let '(ret, s) := ext_flash_write (set_ctx s x) address cache in
    if ret <? 0 then Ok (inr (ret, s, address, pos)) else
    Ok (inl (s, address + chunk, pos + chunk, step - chunk, ret))) (s, address, pos, step, 0).

(** What remains after the head, [sz] bytes of [data] at [pos]. *)
Definition write_rest (s : sys) (address : Z) (data : list Z) (pos sz : Z) : outcome (Z * sys) :=
  let! (ret, s, address, pos) := write_blocks s address data pos (sz - sz mod ENCRYPT_BLOCK_SIZE) in
  if ret <? 0 then Ok (ret, s) else
  let step := sz mod ENCRYPT_BLOCK_SIZE in
  if 0 <? step then merge_block s address 0 data pos step else Ok (ret, s).

Definition write_encrypted (s : sys) (address : Z) (data : list Z) (len : Z) : outcome (Z * sys) :=
  let row_offset := address mod ENCRYPT_BLOCK_SIZE in
  let row_address := u32 (address - row_offset) in
  let sz := if negb (row_offset =? 0) then len + (ENCRYPT_BLOCK_SIZE - row_offset) else len in
  let sz := if sz <? ENCRYPT_BLOCK_SIZE then ENCRYPT_BLOCK_SIZE else sz in
  if len <? sz then
    let step := ENCRYPT_BLOCK_SIZE - row_offset in
    let step := if len <? step then len else step in
    let! (ret, s) := merge_block s row_address row_offset data 0 step in
    if ret <? 0 then Ok (ret, s) else
    if step =? len then Ok (ret, s) else
    write_rest s (address + step) data step (len - step)
  else write_rest s address data 0 sz.

Definition ext_flash_encrypt_write (s : sys) (address : Z) (data : list Z) (len : Z) : outcome (Z * sys) :=
  if len <? 0 then Ok (-1, s) else
  if len =? 0 then Ok (0, s) else
  let part := part_address address in
  if part =? PART_UPDATE then
    let iv_counter := u32 ((address - WOLFBOOT_PARTITION_UPDATE_ADDRESS) / ENCRYPT_BLOCK_SIZE) in
    if (START_FLAGS_OFFSET - ENCRYPT_BLOCK_SIZE) / ENCRYPT_BLOCK_SIZE <=? iv_counter then
      let! d := rd_bytes data 0 len in Ok (ext_flash_write s address d)
    else
      let '(r, s) := wolfBoot_initialize_encryption s in
      if r <? 0 then Ok (-1, s) else
      write_encrypted (wolfBoot_crypto_set_iv s (encrypt_iv_nonce s) iv_counter) address data len
  else if part =? PART_SWAP then let! d := rd_bytes data 0 len in Ok (ext_flash_write s address d)
  else Ok (-1, s).

(** ** Reading *)

(** [n] bytes of the block at [row_address], from [row_offset], or [None]. *)
Definition read_part (s : sys) (row_address row_offset n : Z) : outcome (option (list Z) * sys) :=
  let '(r, block) := ext_flash_read s row_address ENCRYPT_BLOCK_SIZE in
  if negb (r =? ENCRYPT_BLOCK_SIZE) then Ok (None, s) else
  let '(x, dec_block) := crypto_decrypt (ctx s) block in
  let! d := rd_bytes dec_block row_offset n in
  Ok (Some d, set_ctx s x).

(** What remains after the head: whole blocks, then part of one. *)
Definition read_rest (s : sys) (address read_remaining : Z) : outcome (option (list Z) * sys) :=
  let flash_read_size := read_remaining - read_remaining mod ENCRYPT_BLOCK_SIZE in
  let '(r, data) := ext_flash_read s address flash_read_size in
  if negb (r =? flash_read_size) then Ok (None, s) else
  let! (x, data) := crypt_blocks crypto_decrypt (Z.to_nat (flash_read_size / ENCRYPT_BLOCK_SIZE)) (ctx s) data 0 in
  let s := set_ctx s x in
  let unaligned_trailer_size := read_remaining - flash_read_size in
  if 0 <? unaligned_trailer_size then
    let! (d, s) := read_part s (address + flash_read_size) 0 unaligned_trailer_size in
    Ok ((fun d => data ++ d) <$> d, s)
  else Ok (Some data, s).

Definition read_decrypted (s : sys) (address len : Z) : outcome (option (list Z) * sys) :=
  let row_offset := address mod ENCRYPT_BLOCK_SIZE in
  let row_address := u32 (address - row_offset) in
  if negb (row_offset =? 0) then
    let unaligned_head_size := ENCRYPT_BLOCK_SIZE - row_offset in
    let unaligned_head_size := if len <? unaligned_head_size then len else unaligned_head_size in
    let! (d, s) := read_part s row_address row_offset unaligned_head_size in
    match d with
    | None => Ok (None, s)
    | Some head =>
        let! (d, s) := read_rest s (address + unaligned_head_size) (len - unaligned_head_size) in
        Ok ((fun d => head ++ d) <$> d, s)
    end
  else read_rest s address len.

(** The value returned, the bytes stored at [data] and the state. *)
Definition ext_flash_decrypt_read (s : sys) (address len : Z) : outcome (Z * list Z * sys) :=
  let finish s :=
    let! (d, s) := read_decrypted s address len in
    match d with Some d => Ok (len, d, s) | None => Ok (-1, [], s) end in
  let part := part_address (u32 (address - address mod ENCRYPT_BLOCK_SIZE)) in
  if part =? PART_UPDATE then
    let iv_counter := u32 ((address - WOLFBOOT_PARTITION_UPDATE_ADDRESS) / ENCRYPT_BLOCK_SIZE) in
    if (START_FLAGS_OFFSET - ENCRYPT_BLOCK_SIZE) / ENCRYPT_BLOCK_SIZE <=? iv_counter then
      let '(r, d) := ext_flash_read s address len in Ok (r, d, s)
    else
      let '(r, s) := if encrypt_initialized s then (0, s) else crypto_init s in
      if r <? 0 then Ok (-1, [], s) else
      let s := if fallback_iv_forced s then set_offset s FALLBACK_IV_OFFSET else s in
      finish (wolfBoot_crypto_set_iv s (encrypt_iv_nonce s) iv_counter)
  else if part =? PART_SWAP then finish s
  else Ok (-1, [], s).

End Encrypt.
