(* ===== verification/EncryptIv.v ===== *)
(** * EncryptIv: the ciphers of the build as one key stream

    [aes_set_iv] adds the block counter to the nonce as a number of 128 bits,
    which is how AES counts, so AES and ChaCha20 both meet one contract: after
    [crypto_set_iv] at block [n], the blocks that follow are xored with blocks
    [n], [n + 1], ... of the key stream of key and nonce. *)

From Stdlib Require Import ZArith Lia.
From stdpp Require Import prelude.
From S2P Require Import Prelude Flash Trailer Stream Encrypt.

Local Open Scope Z_scope.

Class crypto_laws (C : crypto_api) : Type := CryptoLaws {
  keystream : list Z -> list Z -> Z -> list Z;
  keyed : crypto -> list Z -> Prop;
  enc_at : crypto -> list Z -> list Z -> Z -> Prop;
  dec_at : crypto -> list Z -> list Z -> Z -> Prop;
  block_pos : 0 < ENCRYPT_BLOCK_SIZE;
  sizes_pos : 0 <= ENCRYPT_KEY_SIZE /\ 0 <= ENCRYPT_NONCE_SIZE;
  keystream_size k nonce n : zlen (keystream k nonce n) = ENCRYPT_BLOCK_SIZE;
  keystream_bytes k nonce n : bytes (keystream k nonce n);
  set_key_keyed k : keyed (crypto_set_key k) k;
  enc_keyed x k nonce n : enc_at x k nonce n -> keyed x k;
  dec_keyed x k nonce n : dec_at x k nonce n -> keyed x k;
  set_iv_at x k nonce n : keyed x k -> zlen nonce = ENCRYPT_NONCE_SIZE -> bytes nonce -> 0 <= n < 2 ^ 32 ->
    enc_at (crypto_set_iv x nonce n) k nonce n /\ dec_at (crypto_set_iv x nonce n) k nonce n;
  encrypt_at x k nonce n d : enc_at x k nonce n -> zlen d = ENCRYPT_BLOCK_SIZE -> 0 <= n ->
    exists x', crypto_encrypt x d = (x', bxor d (keystream k nonce n)) /\ enc_at x' k nonce (n + 1);
  decrypt_at x k nonce n d : dec_at x k nonce n -> zlen d = ENCRYPT_BLOCK_SIZE -> 0 <= n ->
    exists x', crypto_decrypt x d = (x', bxor d (keystream k nonce n)) /\ dec_at x' k nonce (n + 1);
}.

Section Aes.
Context {E : stream_api} {A : aes_laws E}.

(** ** The counter block *)

Ltac powers := repeat match goal with |- context [256 ^ ?n] => let v := eval vm_compute in (256 ^ n) in change (256 ^ n) with v end.

Definition word (w : Z) : Prop := 0 <= w < 2 ^ 32.
Definition be32 (w : Z) : list Z := [u8 (w / 2 ^ 24); u8 (w / 2 ^ 16); u8 (w / 2 ^ 8); u8 w].
Definition quad (w0 w1 w2 w3 : Z) : Z := w0 * 2 ^ 96 + w1 * 2 ^ 64 + w2 * 2 ^ 32 + w3.

Lemma word_of_range b0 b1 b2 b3 : is_byte b0 -> is_byte b1 -> is_byte b2 -> is_byte b3 -> word (word_of b0 b1 b2 b3).
Proof. unfold word, word_of, is_byte. lia. Qed.

Lemma word_bytes w : word w -> w = word_of (u8 w) (u8 (w / 2 ^ 8)) (u8 (w / 2 ^ 16)) (u8 (w / 2 ^ 24)).
Proof. unfold word, word_of, u8. intros Hw. Z.div_mod_to_equations. lia. Qed.

Lemma reverse_word w : word w -> wb_reverse_word32 w = word_of (u8 (w / 2 ^ 24)) (u8 (w / 2 ^ 16)) (u8 (w / 2 ^ 8)) (u8 w).
Proof. intros Hw. unfold wb_reverse_word32. rewrite (word_bytes w Hw) at 1. apply byte_reverse; apply u8_range. Qed.

Lemma le32_bytes_word_of b0 b1 b2 b3 : is_byte b0 -> is_byte b1 -> is_byte b2 -> is_byte b3 ->
  le32_bytes (word_of b0 b1 b2 b3) = [b0; b1; b2; b3].
Proof.
  unfold le32_bytes, word_of, is_byte. intros H0 H1 H2 H3.
  f_equal; [|f_equal; [|f_equal; [|f_equal]]]; Z.div_mod_to_equations; lia.
Qed.

Lemma store_reverse w : word w -> le32_bytes (wb_reverse_word32 w) = be32 w.
Proof. intros Hw. rewrite (reverse_word w Hw). apply le32_bytes_word_of; apply u8_range. Qed.

Lemma be32_bytes w : bytes (be32 w).
Proof. repeat constructor; apply u8_range. Qed.

Lemma be_value_be32 w : word w -> be_value (be32 w) = w.
Proof.
  intros Hw. rewrite (word_bytes w Hw) at 2. unfold be32, word_of. cbn [be_value]. unfold zlen. cbn [length].
  change (256 ^ Z.of_nat 3) with (2 ^ 24). change (256 ^ Z.of_nat 2) with (2 ^ 16). change (256 ^ Z.of_nat 1) with (2 ^ 8).
  change (256 ^ Z.of_nat 0) with 1. ring.
Qed.

Lemma store_words_value w0 w1 w2 w3 : word w0 -> word w1 -> word w2 -> word w3 ->
  let l := store_words (wb_reverse_word32 <$> [w0; w1; w2; w3]) in
  be_value l = quad w0 w1 w2 w3 /\ zlen l = 16 /\ bytes l.
Proof.
  intros H0 H1 H2 H3 l. assert (l = be32 w0 ++ be32 w1 ++ be32 w2 ++ be32 w3) as ->.
  { unfold l, store_words. cbn [fmap list_fmap mjoin list_join]. rewrite !store_reverse by done. by rewrite app_nil_r. }
  split; [|split; [done|]]; [|repeat apply Forall_app_2; apply be32_bytes].
  rewrite !be_value_app, !be_value_be32, !zlen_app by done. unfold quad.
  change (zlen (be32 w1)) with 4. change (zlen (be32 w2)) with 4. change (zlen (be32 w3)) with 4.
  change (256 ^ (4 + (4 + 4))) with (2 ^ 96). change (256 ^ (4 + 4)) with (2 ^ 64). change (256 ^ 4) with (2 ^ 32). ring.
Qed.

(** The words of a nonce, most significant first. *)
Lemma load_words_value nonce : zlen nonce = 16 -> bytes nonce -> exists w0 w1 w2 w3,
  wb_reverse_word32 <$> load_words nonce = [w0; w1; w2; w3] /\ word w0 /\ word w1 /\ word w2 /\ word w3 /\
  be_value nonce = quad w0 w1 w2 w3.
Proof.
  intros Hl Hb.
  destruct nonce as [|a0 [|a1 [|a2 [|a3 [|a4 [|a5 [|a6 [|a7 [|a8 [|a9 [|a10 [|a11 [|a12 [|a13 [|a14 [|a15 [|]]]]]]]]]]]]]]]]]; try discriminate; [|unfold zlen in Hl; cbn in Hl; lia].
  unfold bytes in Hb. rewrite !Forall_cons in Hb. destruct_and!.
  change (load_words _) with [word_of a0 a1 a2 a3; word_of a4 a5 a6 a7; word_of a8 a9 a10 a11; word_of a12 a13 a14 a15].
  exists (word_of a3 a2 a1 a0), (word_of a7 a6 a5 a4), (word_of a11 a10 a9 a8), (word_of a15 a14 a13 a12).
  split; [unfold wb_reverse_word32; cbn; by rewrite !byte_reverse by done|].
  do 4 (split; [by apply word_of_range|]).
  unfold quad, word_of. cbn [be_value]. unfold zlen. cbn [length]. powers. lia.
Qed.

(** The carry loop adds one to the three upper words. *)
Lemma carry_value w0 w1 w2 w3 : word w0 -> word w1 -> word w2 -> word w3 -> exists v0 v1 v2,
  carry 3 [w0; w1; w2; w3] = [v0; v1; v2; w3] /\ word v0 /\ word v1 /\ word v2 /\
  quad v0 v1 v2 w3 = (quad w0 w1 w2 w3 + 2 ^ 32) mod 2 ^ 128.
Proof.
  intros H0 H1 H2 H3. unfold word, quad in *. cbn [carry lookup list_lookup default insert list_insert].
  assert (Hu : forall w, 0 <= w < 2 ^ 32 -> u32 (w + 1) = if w =? 2 ^ 32 - 1 then 0 else w + 1).
  { intros w Hw. unfold u32. destruct (w =? 2 ^ 32 - 1) eqn:Ew; bools; [subst; reflexivity|apply Z.mod_small; lia]. }
  cbn. rewrite (Hu w2) by lia.
  destruct (w2 =? 2 ^ 32 - 1) eqn:E2; bools; cbn [negb Z.eqb].
  - rewrite (Hu w1) by lia. destruct (w1 =? 2 ^ 32 - 1) eqn:E1; bools; cbn [negb Z.eqb].
    + rewrite (Hu w0) by lia. exists (if w0 =? 2 ^ 32 - 1 then 0 else w0 + 1), 0, 0.
      destruct (w0 =? 2 ^ 32 - 1) eqn:E0; bools; cbn [negb Z.eqb]; [|rewrite (proj2 (Z.eqb_neq (w0 + 1) 0)) by lia; cbn [negb]];
        (split; [done|]); split_and!; try lia; [apply (Z.mod_unique _ _ 1); lia|apply (Z.mod_unique _ _ 0); lia].
    + rewrite (proj2 (Z.eqb_neq (w1 + 1) 0)) by lia. exists w0, (w1 + 1), 0. cbn [negb]. split; [done|].
      split_and!; try lia. apply (Z.mod_unique _ _ 0); lia.
  - rewrite (proj2 (Z.eqb_neq (w2 + 1) 0)) by lia. exists w0, w1, (w2 + 1). cbn [negb]. split; [done|].
    split_and!; try lia. apply (Z.mod_unique _ _ 0); lia.
Qed.

Lemma insert_last {X} (w0 w1 w2 w3 x : X) : <[3%nat := x]> [w0; w1; w2; w3] = [w0; w1; w2; x].
Proof. done. Qed.

(** Adding to the last word, with the carry out of it. *)
Lemma add_word w n : word w -> word n -> word (u32 (w + n)) /\
  if u32 (w + n) <? n then w + n = u32 (w + n) + 2 ^ 32 else w + n = u32 (w + n).
Proof.
  unfold word, u32. intros Hw Hn. destruct (Z.lt_ge_cases (w + n) (2 ^ 32)) as [Hlt|Hge].
  - rewrite Z.mod_small by lia. split; [lia|]. by rewrite (proj2 (Z.ltb_ge _ _)) by lia.
  - assert ((w + n) mod 2 ^ 32 = w + n - 2 ^ 32) as -> by (symmetry; apply (Z.mod_unique _ _ 1); lia).
    split; [lia|]. rewrite (proj2 (Z.ltb_lt _ _)) by lia. lia.
Qed.

(** [aes_set_iv] adds the counter to the nonce, as 128-bit numbers. *)
Lemma aes_iv_value nonce n : zlen nonce = 16 -> bytes nonce -> 0 <= n < 2 ^ 32 ->
  be_value (aes_iv nonce n) = (be_value nonce + n) mod 2 ^ 128 /\ zlen (aes_iv nonce n) = 16 /\ bytes (aes_iv nonce n).
Proof.
  intros Hl Hb Hn. destruct (load_words_value nonce Hl Hb) as (w0 & w1 & w2 & w3 & Ew & H0 & H1 & H2 & H3 & ->).
  unfold aes_iv. rewrite Ew. change (default 0 ([w0; w1; w2; w3] !! 3%nat)) with w3.
  destruct (add_word w3 n H3 Hn) as [Hx Ha]. rewrite insert_last. destruct (u32 (w3 + n) <? n).
  - destruct (carry_value w0 w1 w2 (u32 (w3 + n)) H0 H1 H2 Hx) as (v0 & v1 & v2 & -> & V0 & V1 & V2 & Ev).
    destruct (store_words_value v0 v1 v2 (u32 (w3 + n)) V0 V1 V2 Hx) as (E1 & E2 & E3). split; [|done].
    rewrite E1, Ev. f_equal. unfold quad. lia.
  - destruct (store_words_value w0 w1 w2 (u32 (w3 + n)) H0 H1 H2 Hx) as (E1 & E2 & E3). split; [|done].
    rewrite E1. symmetry. unfold quad, word in *. rewrite Z.mod_small; lia.
Qed.

Lemma nonce_split nonce : zlen nonce = 16 -> bytes nonce ->
  nonce = slice nonce 0 12 ++ slice nonce 12 4 /\ zlen (slice nonce 0 12) = 12 /\ zlen (slice nonce 12 4) = 4.
Proof.
  intros Hl Hb. rewrite !slice_length by lia. split; [|done]. unfold zlen in Hl.
  unfold slice. change (Z.to_nat 0) with 0%nat. change (Z.to_nat 12) with 12%nat. change (Z.to_nat 4) with 4%nat.
  rewrite drop_0, (take_ge (drop 12 nonce)) by (rewrite length_drop; lia). by rewrite take_drop.
Qed.

(** The upper twelve bytes and the counter of a nonce. *)
Definition nonce_hi (nonce : list Z) : Z := be_value (slice nonce 0 12).
Definition nonce_lo (nonce : list Z) : Z := be_value (slice nonce 12 4).

Lemma nonce_value nonce : zlen nonce = 16 -> bytes nonce ->
  be_value nonce = nonce_hi nonce * 2 ^ 32 + nonce_lo nonce /\ 0 <= nonce_hi nonce < 2 ^ 96 /\ word (nonce_lo nonce).
Proof.
  intros Hl Hb. destruct (nonce_split nonce Hl Hb) as (Hs & L1 & L2). unfold nonce_hi, nonce_lo, word.
  pose proof (be_value_range (slice nonce 0 12) (slice_bytes _ _ _ Hb)) as R1. pose proof (be_value_range (slice nonce 12 4) (slice_bytes _ _ _ Hb)) as R2.
  rewrite L1 in R1. rewrite L2 in R2. change (256 ^ 12) with (2 ^ 96) in R1. change (256 ^ 4) with (2 ^ 32) in R2.
  split; [|done]. rewrite Hs at 1. rewrite be_value_app, L2. reflexivity.
Qed.

Lemma disk_iv_value nonce n : zlen nonce = 16 -> bytes nonce -> 0 <= n < 2 ^ 32 ->
  be_value (disk_iv nonce n) = nonce_hi nonce * 2 ^ 32 + u32 (nonce_lo nonce + n) /\
  zlen (disk_iv nonce n) = 16 /\ bytes (disk_iv nonce n).
Proof.
  intros Hl Hb Hn. unfold disk_iv. fold (nonce_lo nonce). set (ctr := u32 _). assert (word ctr) as Hc by apply u32_range.
  replace [u8 (Z.shiftr ctr 24); u8 (Z.shiftr ctr 16); u8 (Z.shiftr ctr 8); u8 ctr] with (be32 ctr) by (unfold be32; by rewrite !Z.shiftr_div_pow2 by lia).
  split; [|split].
  - rewrite be_value_app, be_value_be32 by done. reflexivity.
  - rewrite zlen_app, (proj1 (proj2 (nonce_split nonce Hl Hb))). reflexivity.
  - apply Forall_app_2; [by apply slice_bytes|apply be32_bytes].
Qed.

(** The disk loader's initialisation vector and that of the flash loader agree
    exactly when the counter in the last four bytes of the nonce does not overflow.
    [disk_crypto_set_iv] drops the carry, while [aes_set_iv], the signing tool and
    AES itself count in the whole block of 128 bits: a partition encrypted with a
    nonce whose last word is close to 2^32 cannot be decrypted by the disk loader. *)
Theorem disk_iv_agrees nonce n : zlen nonce = 16 -> bytes nonce -> 0 <= n < 2 ^ 32 ->
  disk_iv nonce n = aes_iv nonce n <-> be_value (slice nonce 12 4) + n < 2 ^ 32.
Proof.
  intros Hl Hb Hn. destruct (aes_iv_value nonce n Hl Hb Hn) as (A1 & A2 & A3), (disk_iv_value nonce n Hl Hb Hn) as (D1 & D2 & D3).
  fold (nonce_lo nonce). destruct (nonce_value nonce Hl Hb) as (Ev & Hhi & Hlo). unfold word in Hlo.
  destruct (add_word (nonce_lo nonce) n Hlo Hn) as [Hx Ha]. unfold word in Hx. set (x := u32 (nonce_lo nonce + n)) in *. split.
  - intros Eq. rewrite Eq, A1, Ev in D1. destruct (x <? n); [exfalso|lia].
    rewrite <- Z.add_assoc, Ha in D1. Z.div_mod_to_equations. lia.
  - intros Hlt. apply be_value_inj; [done..|congruence|]. rewrite A1, D1, Ev, Z.mod_small by lia. destruct (x <? n); lia.
Qed.

(** ** AES as a key stream *)

#[export] Instance aes_crypto_laws (key_size : Z) (Hk : 0 <= key_size) : crypto_laws (aes_crypto key_size).
Proof.
  refine (CryptoLaws (aes_crypto key_size) (fun k nonce n => aes_block k ((be_value nonce + n) mod 2 ^ 128))
    (fun (x : aes * aes) k => aes_key (fst x) k /\ aes_key (snd x) k)
    (fun (x : aes * aes) k nonce n => aes_at (fst x) k ((be_value nonce + n) mod 2 ^ 128) /\ aes_key (snd x) k)
    (fun (x : aes * aes) k nonce n => aes_at (snd x) k ((be_value nonce + n) mod 2 ^ 128) /\ aes_key (fst x) k) _ _ _ _ _ _ _ _ _ _).
  - done.
  - done.
  - intros. apply aes_block_size.
  - intros. apply aes_block_bytes.
  - intros k. split; apply aes_set_key.
  - intros x k nonce n [H1 H2]. split; [by eapply aes_at_key|done].
  - intros x k nonce n [H1 H2]. split; [done|by eapply aes_at_key].
  - intros x k nonce n [K1 K2] Hl Hb Hn. destruct (aes_iv_value nonce n Hl Hb Hn) as (<- & V2 & V3).
    pose proof (aes_set_iv_at (fst x) k _ K1 V2 V3). pose proof (aes_set_iv_at (snd x) k _ K2 V2 V3).
    split; (split; [done|by eapply aes_at_key]).
  - intros [e d'] k nonce n d [H1 H2] Hl Hn. destruct (aes_process e k _ d H1 Hl) as (a' & Ea & Hat). cbn. rewrite Ea.
    eexists. split; [done|]. split; [|done]. cbn [fst]. by rewrite Z.add_mod_idemp_l in Hat by done; rewrite Z.add_assoc.
  - intros [e d'] k nonce n d [H1 H2] Hl Hn. destruct (aes_process d' k _ d H1 Hl) as (a' & Ea & Hat). cbn. rewrite Ea.
    eexists. split; [done|]. split; [|done]. cbn [snd]. by rewrite Z.add_mod_idemp_l in Hat by done; rewrite Z.add_assoc.
Defined.

End Aes.

(** ** ChaCha20 as a key stream *)

#[export] Instance chacha_crypto_laws {E : stream_api} {L : chacha_laws E} : crypto_laws chacha_crypto.
Proof.
  refine (CryptoLaws chacha_crypto (fun k nonce n => chacha_block k nonce (u32 n)) chacha_key
    (fun x k nonce n => zlen nonce = 12 /\ chacha_at x k nonce (u32 n)) (fun x k nonce n => zlen nonce = 12 /\ chacha_at x k nonce (u32 n)) _ _ _ _ _ _ _ _ _ _).
  - done.
  - done.
  - intros. apply chacha_block_size.
  - intros. apply chacha_block_bytes.
  - apply chacha_set_key.
  - intros x k nonce n [_ H]. by eapply chacha_at_key.
  - intros x k nonce n [_ H]. by eapply chacha_at_key.
  - intros x k nonce n Hk Hl Hb Hn. rewrite u32_small by done. pose proof (chacha_set_iv x k nonce n Hk Hl Hn). done.
  - intros x k nonce n d [Hl H] Hd Hn. destruct (chacha_process x k nonce _ d H) as (x' & Ex & Hat); [cbn in Hd; lia|].
    exists x'. split; [done|]. split; [done|]. specialize (Hat Hd). unfold u32 in *. by rewrite Z.add_mod_idemp_l in Hat.
  - intros x k nonce n d [Hl H] Hd Hn. destruct (chacha_process x k nonce _ d H) as (x' & Ex & Hat); [cbn in Hd; lia|].
    exists x'. split; [done|]. split; [done|]. specialize (Hat Hd). unfold u32 in *. by rewrite Z.add_mod_idemp_l in Hat.
Defined.

(** ** Examples *)

Import ToyStream.

Lemma disk_iv_agrees_witness :
  disk_iv (replicate 15 7 ++ [1]) 3 = aes_iv (replicate 15 7 ++ [1]) 3 <-> be_value (slice (replicate 15 7 ++ [1]) 12 4) + 3 < 2 ^ 32.
Proof. apply disk_iv_agrees; [done|repeat constructor; lia|lia]. Defined.

