(* ===== verification/EncryptSpec.v ===== *)
(** * EncryptSpec: reading and writing the encrypted partition

    The bytes of the update partition are seen through the key stream of the
    stored key and nonce.  [ext_flash_decrypt_read] returns exactly that view, at
    any address and length; [ext_flash_encrypt_write] makes the view of the range
    written equal to the data, whatever its alignment. *)

From Stdlib Require Import ZArith Lia.
From stdpp Require Import prelude.
From S2P Require Import Prelude Flash Trailer Stream Encrypt EncryptIv.

Local Open Scope Z_scope.

(** What the build guarantees of the partition and the cache. *)
Class enc_layout (c : config) (C : crypto_api) (NVM_CACHE_SIZE : Z) : Prop := EncLayout {
  el_update : 0 <= WOLFBOOT_PARTITION_UPDATE_ADDRESS /\ WOLFBOOT_PARTITION_UPDATE_ADDRESS + WOLFBOOT_PARTITION_SIZE < 2 ^ 32;
  el_aligned : (ENCRYPT_BLOCK_SIZE | WOLFBOOT_PARTITION_UPDATE_ADDRESS);
  el_flags : 0 <= START_FLAGS_OFFSET <= WOLFBOOT_PARTITION_SIZE;
  el_cache : ENCRYPT_BLOCK_SIZE <= NVM_CACHE_SIZE;
  el_counter : WOLFBOOT_PARTITION_SIZE / ENCRYPT_BLOCK_SIZE + FALLBACK_IV_OFFSET < 2 ^ 32;
}.

Section EncryptSpec.
Context {c : config} {C : crypto_api} {L : crypto_laws C} (NVM_CACHE_SIZE ENCRYPT_KEY : Z) {Lay : enc_layout c C NVM_CACHE_SIZE}.
Abbreviation B := ENCRYPT_BLOCK_SIZE.
Abbreviation U := WOLFBOOT_PARTITION_UPDATE_ADDRESS.
Abbreviation encrypt_write := (ext_flash_encrypt_write NVM_CACHE_SIZE ENCRYPT_KEY).
Abbreviation decrypt_read := (ext_flash_decrypt_read ENCRYPT_KEY).

(** Byte [p] of the key stream. *)
Definition ks (k nonce : list Z) (p : Z) : Z := at_ (keystream k nonce (p / B)) (p mod B).

(** The key stream byte of address [a] when block counters start at [n0]. *)
Definition mask (k nonce : list Z) (n0 a : Z) : Z := ks k nonce (n0 * B + (a - U)).

(** The partition seen through the key stream. *)
Definition view (m : mem) (k nonce : list Z) (n0 a : Z) : Z := Z.lxor (m a) (mask k nonce n0 a).

(** The end of the encrypted part of the partition. *)
Definition enc_end : Z := U + B * ((START_FLAGS_OFFSET - B) / B).

(** ** Blocks *)

Lemma rd_bytes_ok l off n : 0 <= off -> 0 <= n -> off + n <= zlen l -> rd_bytes l off n = Ok (slice l off n).
Proof. intros. unfold rd_bytes. by rewrite (proj2 (Z.leb_le _ _)), (proj2 (Z.leb_le _ _)), (proj2 (Z.leb_le _ _)) by lia. Qed.

Lemma ks_block k nonce n i : 0 <= i < B -> at_ (keystream k nonce n) i = ks k nonce (n * B + i).
Proof.
  intros Hi. unfold ks. rewrite Z.add_comm, Z.div_add, Z.mod_add by lia.
  by rewrite Z.div_small, Z.mod_small, Z.add_0_l by lia.
Qed.

Lemma crypt_blocks_spec (f : crypto -> list Z -> crypto * list Z) (P : crypto -> Z -> Prop) k nonce n x data pos q :
  (forall x n d, P x n -> zlen d = B -> 0 <= n -> exists x', f x d = (x', bxor d (keystream k nonce n)) /\ P x' (n + 1)) ->
  P x q -> 0 <= q -> 0 <= pos -> pos + Z.of_nat n * B <= zlen data ->
  exists x' out, crypt_blocks f n x data pos = Ok (x', out) /\ zlen out = Z.of_nat n * B /\ P x' (q + Z.of_nat n) /\
    forall i, 0 <= i < Z.of_nat n * B -> at_ out i = Z.lxor (at_ data (pos + i)) (ks k nonce (q * B + i)).
Proof.
  intros Hf. pose proof block_pos as HB. revert x pos q. induction n as [|n IH]; intros x pos q Hx Hq Hp Hl.
  - exists x, []. rewrite Z.add_0_r. split; [done|]. split; [done|]. split; [done|]. intros i Hi. lia.
  - assert (zlen (slice data pos B) = B) as Lb by (apply slice_length; lia).
    destruct (Hf x q (slice data pos B) Hx Lb Hq) as (x1 & E1 & H1).
    destruct (IH x1 (pos + B) (q + 1) H1) as (x2 & out & E2 & L2 & H2 & Hat); [lia..|].
    exists x2, (bxor (slice data pos B) (keystream k nonce q) ++ out). cbn [crypt_blocks].
    rewrite rd_bytes_ok by lia. cbn [obind]. rewrite E1, E2. cbn [obind].
    assert (zlen (bxor (slice data pos B) (keystream k nonce q)) = B) as Lx by (rewrite zlen_bxor; rewrite ?keystream_size; lia).
    split; [done|]. split; [rewrite zlen_app; lia|]. split; [by replace (q + Z.of_nat (S n)) with (q + 1 + Z.of_nat n) by lia|].
    intros i Hi. destruct (Z.lt_ge_cases i B) as [Hlt|Hge].
    + rewrite at_app_l, at_bxor, at_slice, ks_block by (rewrite ?keystream_size; lia). done.
    + rewrite at_app_r, Lx, Hat by lia. do 2 f_equal; lia.
Qed.

(** ** The state *)

(** The key that the next access uses, and where it starts. *)
Record ready (s : sys) (k nonce : list Z) : Prop := Ready {
  rdy_nonce : zlen nonce = ENCRYPT_NONCE_SIZE /\ bytes nonce;
  rdy_key : if encrypt_initialized s then keyed (ctx s) k /\ encrypt_iv_nonce s = nonce
    else mread (int_mem s) ENCRYPT_KEY ENCRYPT_KEY_SIZE = k /\ encrypt_key_is_valid k = true /\
         mread (int_mem s) (ENCRYPT_KEY + ENCRYPT_KEY_SIZE) ENCRYPT_NONCE_SIZE = nonce;
}.

Definition iv_base (n0 : Z) : Prop := n0 = 0 \/ n0 = FALLBACK_IV_OFFSET.

(** States that differ in the external flash and the cipher context only. *)
Record same_env (s s' : sys) : Prop := SameEnv {
  se_int : int_mem s' = int_mem s;
  se_lock : extFlashLocked s' = extFlashLocked s;
  se_init : encrypt_initialized s' = encrypt_initialized s;
  se_off : encrypt_iv_offset s' = encrypt_iv_offset s;
  se_forced : fallback_iv_forced s' = fallback_iv_forced s;
  se_nonce : encrypt_iv_nonce s' = encrypt_iv_nonce s;
}.

Lemma same_env_refl s : same_env s s.
Proof. done. Qed.
Lemma same_env_trans s1 s2 s3 : same_env s1 s2 -> same_env s2 s3 -> same_env s1 s3.
Proof. intros [] []. split; congruence. Qed.
Lemma same_env_ctx s x : same_env s (set_ctx s x).
Proof. done. Qed.
Lemma same_env_ext s m : same_env s (set_ext s m).
Proof. done. Qed.

Lemma init_ready s k nonce : ready s k nonce -> exists s', wolfBoot_initialize_encryption ENCRYPT_KEY s = (0, s') /\
  encrypt_initialized s' = true /\ keyed (ctx s') k /\ encrypt_iv_nonce s' = nonce /\
  int_mem s' = int_mem s /\ ext_mem s' = ext_mem s /\ extFlashLocked s' = extFlashLocked s /\
  encrypt_iv_offset s' = encrypt_iv_offset s /\ fallback_iv_forced s' = fallback_iv_forced s.
Proof.
  intros [Hn Hk]. unfold wolfBoot_initialize_encryption, crypto_init. destruct (encrypt_initialized s) eqn:Ei.
  - exists s. destruct Hk. done.
  - destruct Hk as (-> & -> & ->). cbn. eexists. split; [done|]. cbn. split; [done|]. split; [apply set_key_keyed|]. done.
Qed.

Lemma init_same s : (if encrypt_initialized s then (0, s) else crypto_init ENCRYPT_KEY s) = wolfBoot_initialize_encryption ENCRYPT_KEY s \/
  crypto_init ENCRYPT_KEY s = (-1, set_ctx s crypto_zeroed).
Proof.
  unfold wolfBoot_initialize_encryption. destruct (encrypt_initialized s); [by left|]. unfold crypto_init.
  destruct (negb _); [by right|by left].
Qed.

(** ** Writing *)

Section Write.
Context (k nonce : list Z) (n0 address len : Z) (data : list Z) (m0 : mem).
Context (Hn0 : iv_base n0) (Haddr : U <= address < enc_end) (Hlen : 0 < len) (Hdata : len <= zlen data).

Abbreviation row := (address - address mod B).

(** What is encrypted at [a]: the data, or what the flash held. *)
Definition source (a : Z) : Z := if in_range address len a then at_ data (a - address) else m0 a.

(** The blocks before [p] have been written. *)
Definition written (p : Z) (m : mem) : Prop := forall a, m a = if in_range row (p - row) a then Z.lxor (source a) (mask k nonce n0 a) else m0 a.

Definition block_of (p : Z) : Z := n0 + (p - U) / B.

Lemma u_mod : U mod B = 0.
Proof. apply Z.mod_divide; [pose proof block_pos; lia|apply el_aligned]. Qed.

Lemma row_aligned : (B | row - U).
Proof.
  apply Z.divide_sub_r; [|apply el_aligned]. exists (address / B). pose proof (Z.div_mod address B). pose proof block_pos. lia.
Qed.

Lemma n0_pos : 0 <= n0.
Proof. destruct Hn0 as [-> | ->]; [done|]. unfold FALLBACK_IV_OFFSET. lia. Qed.

Lemma mask_block p i : (B | p - U) -> 0 <= i -> ks k nonce (block_of p * B + i) = mask k nonce n0 (p + i).
Proof.
  intros [q Hq] Hi. pose proof block_pos. unfold mask, block_of. rewrite Hq, Z.div_mul by lia. f_equal. lia.
Qed.

Lemma block_of_add p n : (B | p - U) -> block_of p + n = block_of (p + n * B).
Proof.
  intros [q Hq]. pose proof block_pos. unfold block_of. rewrite Hq, Z.div_mul by lia.
  replace (p + n * B - U) with ((q + n) * B) by lia. rewrite Z.div_mul by lia. lia.
Qed.

(** Bytes of cipher text behind what has been written. *)
Lemma written_copy p m out : row <= p -> written p m ->
  (forall i, 0 <= i < zlen out -> at_ out i = Z.lxor (source (p + i)) (mask k nonce n0 (p + i))) ->
  written (p + zlen out) (ext_copy m p out).
Proof.
  intros Hp Hw Hout a. pose proof (zlen_nonneg out). unfold ext_copy. destruct (in_range p (zlen out) a) eqn:Er.
  - apply in_range_true in Er. rewrite (proj2 (in_range_true row _ a)), Hout by lia. by replace (p + (a - p)) with a by lia.
  - apply in_range_false in Er. rewrite Hw. destruct (in_range row (p - row) a) eqn:E1.
    + apply in_range_true in E1. by rewrite (proj2 (in_range_true row _ a)) by lia.
    + apply in_range_false in E1. by rewrite (proj2 (in_range_false row _ a)) by lia.
Qed.

Lemma source_in i : 0 <= i < len -> source (address + i) = at_ data i.
Proof. intros Hi. unfold source. rewrite (proj2 (in_range_true _ _ _)) by lia. f_equal. lia. Qed.

Lemma source_out a : ~ (address <= a < address + len) -> source a = m0 a.
Proof. intros Ha. unfold source. by rewrite (proj2 (in_range_false _ _ _)). Qed.

Lemma written_old p m a : written p m -> p <= a -> m a = m0 a.
Proof. intros Hw Ha. rewrite Hw, (proj2 (in_range_false _ _ _)) by lia. done. Qed.

Lemma block_of_pos p : U <= p -> 0 <= block_of p.
Proof. intros Hp. pose proof n0_pos. pose proof block_pos. unfold block_of. pose proof (Z.div_pos (p - U) B). lia. Qed.

(** The block at [p], with [step] bytes of the data from [pos] at [ro]. *)
Definition merged (m : mem) (p ro pos step : Z) : list Z := put (mread m p B) ro (slice data pos step).

Lemma at_merged m p ro pos step i : written p m -> row <= p -> 0 <= ro -> 0 <= pos -> 0 < step -> ro + step <= B -> pos + step <= len ->
  p + ro = address + pos -> (ro = 0 \/ pos = 0) -> (ro + step = B \/ pos + step = len) -> 0 <= i < B ->
  at_ (merged m p ro pos step) i = source (p + i).
Proof.
  intros Hw Hrow Hro Hpos Hstep Hfit Hlast Hp Hfirst Hend Hi. unfold merged. pose proof block_pos as HB.
  pose proof (Z.mod_pos_bound address B HB) as Hmod.
  assert (zlen (slice data pos step) = step) as Ls by (apply slice_length; lia).
  rewrite at_put by (rewrite ?Ls, ?mread_length; lia). rewrite Ls, mread_at by lia.
  destruct ((ro <=? i) && (i <? ro + step)) eqn:E1.
  - bools. rewrite at_slice by lia. replace (p + i) with (address + (pos + (i - ro))) by lia. rewrite source_in by lia. done.
  - rewrite (written_old p m) by (done || lia). symmetry. apply source_out. apply andb_false_iff in E1 as [E1|E1]; bools; lia.
Qed.

Lemma merge_block_spec s p ro pos step :
  extFlashLocked s = false -> enc_at (ctx s) k nonce (block_of p) -> written p (ext_mem s) ->
  (B | p - U) -> U <= p -> row <= p -> 0 <= ro -> 0 <= pos -> 0 < step -> ro + step <= B -> pos + step <= len ->
  p + ro = address + pos -> (ro = 0 \/ pos = 0) -> (ro + step = B \/ pos + step = len) ->
  exists s', merge_block s p ro data pos step = Ok (0, s') /\ same_env s s' /\
    enc_at (ctx s') k nonce (block_of (p + B)) /\ written (p + B) (ext_mem s').
Proof.
  intros Hlock Hx Hw Hal HU Hrow Hro Hpos Hstep Hfit Hlast Hp Hfirst Hend. pose proof block_pos as HB.
  assert (Lm : zlen (mread (ext_mem s) p B) = B) by (apply mread_length; lia).
  assert (Ls : zlen (slice data pos step) = step) by (apply slice_length; lia).
  unfold merge_block, ext_flash_read. rewrite Z.eqb_refl. cbn [negb]. rewrite rd_bytes_ok by lia. cbn [obind].
  rewrite blit_put by lia. cbn [obind]. fold (merged (ext_mem s) p ro pos step).
  assert (Lb : zlen (merged (ext_mem s) p ro pos step) = B) by (unfold merged; rewrite zlen_put; lia).
  destruct (encrypt_at (ctx s) k nonce (block_of p) _ Hx Lb (block_of_pos p HU)) as (x' & -> & Hx').
  unfold ext_flash_write. cbn [extFlashLocked set_ctx]. rewrite Hlock. eexists. split; [reflexivity|]. split; [done|].
  assert (Lx : zlen (bxor (merged (ext_mem s) p ro pos step) (keystream k nonce (block_of p))) = B)
    by (rewrite zlen_bxor; rewrite ?keystream_size; lia).
  split; [cbn [ctx set_ext set_ctx]; rewrite <- (Z.mul_1_l B), <- block_of_add by done; done|].
  cbn [ext_mem set_ext set_ctx]. rewrite <- Lx at 1. apply written_copy; [done|done|]. rewrite Lx. intros i Hi.
  rewrite at_bxor, ks_block, mask_block by (rewrite ?keystream_size; (done || lia)). f_equal. by apply at_merged.
Qed.

Lemma block_floor n : (B | n - n mod B) /\ n - B < n - n mod B <= n.
Proof.
  pose proof block_pos as HB. assert (B <> 0) as Hne by lia. pose proof (Z.div_mod n B Hne) as Hd. pose proof (Z.mod_pos_bound n B HB).
  split; [|lia]. exists (n / B). rewrite Z.mul_comm. lia.
Qed.

Lemma stage_size : (B | ENCRYPT_STAGE_SIZE NVM_CACHE_SIZE) /\ 0 < ENCRYPT_STAGE_SIZE NVM_CACHE_SIZE.
Proof.
  pose proof (el_cache (c := c) (C := C) (NVM_CACHE_SIZE := NVM_CACHE_SIZE)) as Hc. destruct (block_floor NVM_CACHE_SIZE) as [Hd Hr].
  unfold ENCRYPT_STAGE_SIZE. split; [done|lia].
Qed.

(** The cipher and the flash when the data has been written up to [p]. *)
Record upto (s0 s : sys) (p : Z) : Prop := Upto {
  up_env : same_env s0 s;
  up_lock : extFlashLocked s = false;
  up_ctx : enc_at (ctx s) k nonce (block_of p);
  up_mem : written p (ext_mem s);
  up_aligned : (B | p - U) /\ U <= p /\ row <= p;
}.

Lemma upto_add s0 s s' p n : upto s0 s p -> 0 <= n -> same_env s s' -> enc_at (ctx s') k nonce (block_of (p + n * B)) ->
  written (p + n * B) (ext_mem s') -> upto s0 s' (p + n * B).
Proof.
  intros [H1 H2 H3 H4 (H5 & H6 & H7)] Hn He Hc Hw. pose proof block_pos. split; [by eapply same_env_trans|by rewrite (se_lock _ _ He)|done|done|].
  split; [|nia]. replace (p + n * B - U) with (p - U + n * B) by lia. apply Z.divide_add_r; [done|by exists n].
Qed.

(** One pass of the staging loop. *)
Lemma stage_spec s0 s pos n : upto s0 s (address + pos) -> 0 <= pos -> pos + Z.of_nat n * B <= len ->
  exists x cache, crypt_blocks crypto_encrypt n (ctx s) data pos = Ok (x, cache) /\
    exists s', ext_flash_write (set_ctx s x) (address + pos) cache = (0, s') /\ upto s0 s' (address + pos + Z.of_nat n * B).
Proof.
  intros Hs Hpos Hlast. pose proof Hs as [_ Hlock Hctx Hw (Hal & HU & Hrow)].
  destruct (crypt_blocks_spec crypto_encrypt (fun x n => enc_at x k nonce n) k nonce n (ctx s) data pos (block_of (address + pos)))
    as (x & cache & Ec & Lc & Hx & Hat); [|done|by apply block_of_pos|done|lia|].
  { intros. by apply encrypt_at. }
  exists x, cache. split; [done|]. unfold ext_flash_write. cbn [extFlashLocked set_ctx]. rewrite Hlock. eexists. split; [reflexivity|].
  apply (upto_add s0 s); [done|lia|done|by rewrite <- block_of_add|]. cbn [ext_mem set_ext set_ctx]. rewrite <- Lc.
  apply written_copy; [done|done|]. rewrite Lc. intros i Hi. rewrite Hat by lia. rewrite mask_block by (done || lia).
  rewrite <- source_in by lia. by rewrite Z.add_assoc.
Qed.

Lemma write_blocks_spec s0 s pos step : upto s0 s (address + pos) -> 0 <= pos -> (B | step) -> 0 <= step -> pos + step <= len ->
  exists s', write_blocks NVM_CACHE_SIZE s (address + pos) data pos step = Ok (0, s', address + pos + step, pos + step) /\
    upto s0 s' (address + pos + step).
Proof.
  intros Hs Hpos Hdiv Hstep Hlast. unfold write_blocks. pose proof block_pos as HB. destruct stage_size as [Hsd Hsp].
  enough (wp (loop _ _ (s, address + pos, pos, step, 0)) (fun r => exists s', r = (0, s', address + pos + step, pos + step) /\ upto s0 s' (address + pos + step)))
    as (r & Er & s' & -> & Hs')%wp_inv by eauto.
  apply (wp_loop (fun '(s', a, p, st, ret) => ret = 0 /\ a = address + p /\ pos <= p /\ p + st = pos + step /\ 0 <= st /\ (B | st) /\ upto s0 s' a)
    (fun '(_, _, _, st, _) => Z.to_nat st)); [|by split_and!|lia].
  clear s Hs. intros [[[[s' a] p] st] ret] (-> & -> & Hp & Hsum & Hst & Hd & Hs).
  destruct (0 <? st) eqn:E0; bools; cbn [negb].
  - set (chunk := if ENCRYPT_STAGE_SIZE NVM_CACHE_SIZE <? st then _ else st).
    assert ((B | chunk) /\ 0 < chunk <= st) as [[n Hn] Hc].
    { unfold chunk. destruct (_ <? st) eqn:E1; bools; [split; [done|lia]|split; [done|lia]]. }
    assert (chunk / B = n) as -> by (rewrite Hn; apply Z.div_mul; lia). assert (0 < n) by nia.
    destruct (stage_spec s0 s' p (Z.to_nat n) Hs) as (x & cache & Ec & s'' & Ew & Hs''); [lia|rewrite Z2Nat.id by lia; lia|].
    rewrite Z2Nat.id, <- Hn in Hs'' by lia. rewrite Ec. cbn [obind]. rewrite Ew. cbn. split; [|lia].
    split_and!; try done; try lia. by apply Z.divide_sub_r; [|exists n].
  - assert (st = 0) as -> by lia. cbn. exists s'. assert (p = pos + step) as -> by lia. by rewrite Z.add_assoc in *.
Qed.

Definition all_written (s0 s' : sys) : Prop := exists p, upto s0 s' p /\ address + len <= p < address + len + B.

Lemma write_rest_spec s0 s pos : upto s0 s (address + pos) -> 0 <= pos <= len ->
  exists s', write_rest NVM_CACHE_SIZE s (address + pos) data pos (len - pos) = Ok (0, s') /\ all_written s0 s'.
Proof.
  intros Hs Hpos. pose proof block_pos as HB. destruct (block_floor (len - pos)) as [Hd Hr].
  pose proof (Z.mod_pos_bound (len - pos) B HB) as Hm. assert ((len - pos) mod B <= len - pos) by (apply Z.mod_le; lia). set (r := (len - pos) mod B) in *. unfold write_rest. fold r.
  destruct (write_blocks_spec s0 s pos (len - pos - r) Hs) as (s1 & -> & H1); [lia|done|lia|lia|].
  cbn [obind]. rewrite (proj2 (Z.ltb_ge 0 0)) by lia. destruct (0 <? r) eqn:Er; bools.
  - pose proof H1 as [_ Hl1 Hx1 Hw1 (Ha1 & HU1 & Hr1)].
    destruct (merge_block_spec s1 (address + pos + (len - pos - r)) 0 (pos + (len - pos - r)) r Hl1 Hx1 Hw1 Ha1 HU1 Hr1)
      as (s2 & -> & He & Hx2 & Hw2); try lia.
    exists s2. split; [done|]. eexists. split; [|split].
    + rewrite <- (Z.mul_1_l B) in Hx2, Hw2. by apply (upto_add s0 s1 s2 _ 1 H1).
    + lia.
    + lia.
  - exists s1. split; [done|]. eexists. split; [exact H1|]. lia.
Qed.

Lemma write_encrypted_spec s : extFlashLocked s = false -> enc_at (ctx s) k nonce (block_of address) ->
  (forall a, ext_mem s a = m0 a) -> exists s', write_encrypted NVM_CACHE_SIZE s address data len = Ok (0, s') /\ all_written s s'.
Proof.
  intros Hlock Hx Hm. pose proof block_pos as HB. pose proof (Z.mod_pos_bound address B HB) as Hro.
  pose proof (el_update (c := c) (C := C) (NVM_CACHE_SIZE := NVM_CACHE_SIZE)) as [HU0 HU1].
  pose proof row_aligned as Hal. assert (U <= row) as HUr.
  { destruct Hal as [q Hq], (el_aligned (c := c) (C := C) (NVM_CACHE_SIZE := NVM_CACHE_SIZE)) as [u Hu]. assert (0 <= q); [|lia].
    assert (- B < q * B) by lia. nia. }
  assert (block_of address = block_of row) as Hbr.
  { unfold block_of. f_equal. destruct Hal as [q Hq]. rewrite Hq, Z.div_mul by lia.
    replace (address - U) with (address mod B + q * B) by lia. rewrite Z.div_add, Z.div_small by lia. lia. }
  assert (Hup : upto s s row).
  { split; [done|done|by rewrite <- Hbr| |done]. intros a. by rewrite (proj2 (in_range_false _ _ _)) by lia. }
  unfold write_encrypted. set (ro := address mod B) in *.
  rewrite (u32_small (address - ro)).
  2: { unfold enc_end in Haddr. pose proof (el_flags (c := c) (C := C) (NVM_CACHE_SIZE := NVM_CACHE_SIZE)).
       pose proof (Z.mul_div_le (START_FLAGS_OFFSET - B) B HB). lia. }
  set (sz := if negb (ro =? 0) then _ else len). set (sz' := if sz <? B then B else sz).
  assert (Hsz : (len <? sz') = (negb (ro =? 0) || (len <? B)) /\ (ro = 0 -> B <= len -> sz' = len)).
  { unfold sz', sz. destruct (ro =? 0) eqn:E0; bools; cbn [negb orb].
    - destruct (len <? B) eqn:E1; bools; (split; [|lia]); [by apply Z.ltb_lt|apply Z.ltb_irrefl].
    - split; [|lia]. apply Z.ltb_lt. case_if; lia. }
  destruct Hsz as [Hc Hsz]. rewrite Hc. destruct (negb (ro =? 0) || (len <? B)) eqn:Eh.
  - set (step := if len <? B - ro then len else B - ro).
    assert (0 < step /\ ro + step <= B /\ step <= len /\ (ro + step = B \/ step = len)) as (S1 & S2 & S3 & S4)
      by (unfold step; destruct (len <? B - ro) eqn:E1; bools; lia).
    pose proof Hup as [_ _ Hxr Hwr _].
    destruct (merge_block_spec s (address - ro) ro 0 step Hlock Hxr Hwr Hal HUr) as (s1 & -> & He & Hx1 & Hw1); try lia.
    cbn [obind]. rewrite (proj2 (Z.ltb_ge 0 0)) by lia. rewrite <- (Z.mul_1_l B) in Hx1, Hw1.
    pose proof (upto_add s s s1 _ 1 Hup ltac:(lia) He Hx1 Hw1) as H1. rewrite Z.mul_1_l in H1.
    destruct (step =? len) eqn:E1; bools.
    + exists s1. split; [done|]. eexists. split; [exact H1|]. lia.
    + replace (address - ro + B) with (address + step) in H1 by lia. by apply write_rest_spec; [|lia].
  - apply orb_false_iff in Eh as [E0 E1]. bools. rewrite Hsz by lia.
    pose proof (write_rest_spec s s 0) as Hr. rewrite Z.add_0_r, Z.sub_0_r in Hr. apply Hr; [|lia].
    by replace address with (address - ro) by lia.
Qed.

End Write.

(** The module's variables after an access. *)
Record accessed (s s' : sys) (k nonce : list Z) : Prop := Accessed {
  ac_int : int_mem s' = int_mem s;
  ac_lock : extFlashLocked s' = extFlashLocked s;
  ac_forced : fallback_iv_forced s' = fallback_iv_forced s;
  ac_off : encrypt_iv_offset s' = 0;
  ac_init : encrypt_initialized s' = true;
  ac_nonce : encrypt_iv_nonce s' = nonce;
  ac_keyed : keyed (ctx s') k;
}.

Lemma accessed_ready s s' k nonce : ready s k nonce -> accessed s s' k nonce -> ready s' k nonce.
Proof. intros [Hn _] []. split; [done|]. by rewrite ac_init0. Qed.

(** Addresses of the encrypted part. *)
Lemma address_range address : U <= address < enc_end ->
  part_address address = PART_UPDATE /\ U <= address - address mod B /\ address - address mod B < 2 ^ 32 /\
  part_address (address - address mod B) = PART_UPDATE /\
  0 <= (address - U) / B < (START_FLAGS_OFFSET - B) / B /\ u32 ((address - U) / B) = (address - U) / B.
Proof.
  intros Ha. pose proof block_pos as HB. pose proof (el_update (c := c) (C := C) (NVM_CACHE_SIZE := NVM_CACHE_SIZE)) as [HU0 HU1].
  pose proof (el_flags (c := c) (C := C) (NVM_CACHE_SIZE := NVM_CACHE_SIZE)) as Hf. unfold enc_end in Ha.
  pose proof (Z.mul_div_le (START_FLAGS_OFFSET - B) B HB) as Hq. pose proof (Z.mod_pos_bound address B HB) as Hm.
  assert (U <= address - address mod B) as Hr.
  { destruct (row_aligned address) as [q E1]. assert (- B < q * B) by lia. assert (0 <= q) by nia. nia. }
  assert (Hp : forall a, U <= a < U + WOLFBOOT_PARTITION_SIZE -> part_address a = PART_UPDATE).
  { intros a H. unfold part_address. by rewrite (proj2 (Z.leb_le U a)), (proj2 (Z.ltb_lt a _)) by lia. }
  assert (0 <= (address - U) / B < (START_FLAGS_OFFSET - B) / B).
  { split; [apply Z.div_pos; lia|]. apply Z.div_lt_upper_bound; lia. }
  split; [apply Hp; lia|]. split; [done|]. split; [lia|]. split; [apply Hp; lia|]. split; [done|].
  apply u32_small. assert ((address - U) / B <= address - U) by (apply Z.div_le_upper_bound; nia). lia.
Qed.

Lemma counter_range n0 address : iv_base n0 -> U <= address < enc_end -> 0 <= (address - U) / B + n0 < 2 ^ 32.
Proof.
  intros Hn Ha. destruct (address_range address Ha) as (_ & _ & _ & _ & Hc & _). pose proof block_pos as HB.
  pose proof (el_counter (c := c) (C := C) (NVM_CACHE_SIZE := NVM_CACHE_SIZE)) as Hb.
  pose proof (el_flags (c := c) (C := C) (NVM_CACHE_SIZE := NVM_CACHE_SIZE)) as Hf.
  assert ((START_FLAGS_OFFSET - B) / B <= WOLFBOOT_PARTITION_SIZE / B) by (apply Z.div_le_mono; lia).
  destruct Hn as [-> | ->]; unfold FALLBACK_IV_OFFSET in *; lia.
Qed.

(** Setting the vector for an address. *)
Lemma set_iv_address s k nonce n0 address : keyed (ctx s) k -> zlen nonce = ENCRYPT_NONCE_SIZE -> bytes nonce ->
  iv_base n0 -> encrypt_iv_offset s = n0 -> U <= address < enc_end ->
  let s' := wolfBoot_crypto_set_iv s nonce (u32 ((address - U) / B)) in
  enc_at (ctx s') k nonce (block_of n0 address) /\ dec_at (ctx s') k nonce (block_of n0 address).
Proof.
  intros Hk Hl Hb Hn Ho Ha. destruct (address_range address Ha) as (_ & _ & _ & _ & _ & ->).
  pose proof (counter_range n0 address Hn Ha) as Hc. cbn. rewrite Ho, u32_small by lia.
  rewrite Z.add_comm. apply set_iv_at; [done|done|done|]. unfold block_of. lia.
Qed.

(** The flash after a write of [data]: whole blocks, the rest of the first and the
    last block encrypted as it was found. *)
Definition encrypted (m m' : mem) (k nonce : list Z) (n0 address len : Z) (data : list Z) : Prop :=
  exists p, address + len <= p < address + len + B /\ (B | p - U) /\
    forall a, m' a = if in_range (address - address mod B) (p - (address - address mod B)) a
      then Z.lxor (source address len data m a) (mask k nonce n0 a) else m a.

Lemma encrypt_write_spec s k nonce address data len :
  ready s k nonce -> extFlashLocked s = false -> iv_base (encrypt_iv_offset s) -> U <= address < enc_end ->
  0 < len <= zlen data ->
  exists s', encrypt_write s address data len = Ok (0, s') /\ accessed s s' k nonce /\
    encrypted (ext_mem s) (ext_mem s') k nonce (encrypt_iv_offset s) address len data.
Proof.
  intros Hr Hlock Hn Ha Hlen. unfold ext_flash_encrypt_write.
  rewrite (proj2 (Z.ltb_ge len 0)), (proj2 (Z.eqb_neq len 0)) by lia.
  destruct (address_range address Ha) as (-> & _ & _ & _ & Hc & Hu). rewrite Z.eqb_refl.
  rewrite (proj2 (Z.leb_gt _ (u32 _))) by lia.
  destruct (init_ready s k nonce Hr) as (s1 & -> & I1 & I2 & I3 & I4 & I5 & I6 & I7 & I8).
  rewrite (proj2 (Z.ltb_ge 0 0)) by lia. rewrite I3.
  destruct Hr as [[Hl Hb] _]. destruct (set_iv_address s1 k nonce (encrypt_iv_offset s) address I2 Hl Hb Hn I7 Ha) as [Hx _].
  set (s2 := wolfBoot_crypto_set_iv s1 nonce _) in *.
  destruct (write_encrypted_spec k nonce (encrypt_iv_offset s) address len data (ext_mem s) Hn Ha ltac:(lia) ltac:(lia) s2)
    as (s' & -> & p & [He _ Hxp Hw (Hal & _)] & Hp).
  - unfold s2. cbn. by rewrite I6.
  - done.
  - intros a. unfold s2. cbn. by rewrite I5.
  - exists s'. split; [done|]. destruct He. cbn in *. split; [split; try congruence; by eapply enc_keyed|].
    exists p. split; [done|]. split; [done|]. exact Hw.
Qed.

(** ** Reading *)

Section Read.
Context (k nonce : list Z) (n0 : Z) (Hn0 : iv_base n0) (m : mem).

Lemma view_block p out : (B | p - U) -> 
  (forall i, 0 <= i < zlen out -> at_ out i = Z.lxor (m (p + i)) (ks k nonce (block_of n0 p * B + i))) ->
  out = mread (view m k nonce n0) p (zlen out).
Proof.
  intros Hal Hout. pose proof (zlen_nonneg out). apply buf_ext; [by rewrite mread_length|]. intros i Hi.
  rewrite Hout, mread_at by lia. rewrite mask_block by (done || lia). done.
Qed.

(** The state during a read: only the context changes. *)
Definition reading (s : sys) (p : Z) : Prop :=
  dec_at (ctx s) k nonce (block_of n0 p) /\ (forall a, ext_mem s a = m a) /\ (B | p - U) /\ U <= p.

Lemma read_part_spec s p ro n : reading s p -> 0 <= ro -> 0 <= n -> ro + n <= B ->
  exists x, read_part s p ro n = Ok (Some (mread (view m k nonce n0) (p + ro) n), set_ctx s x) /\ reading (set_ctx s x) (p + B).
Proof.
  intros (Hx & Hm & Hal & HU) Hro Hn Hfit. pose proof block_pos as HB. unfold read_part, ext_flash_read. rewrite Z.eqb_refl. cbn [negb].
  assert (zlen (mread (ext_mem s) p B) = B) as Lm by (apply mread_length; lia).
  destruct (decrypt_at (ctx s) k nonce _ _ Hx Lm (block_of_pos n0 Hn0 p HU)) as (x & -> & Hx').
  set (out := bxor _ _). assert (zlen out = B) as Lo by (unfold out; rewrite zlen_bxor; rewrite ?keystream_size; lia).
  assert (out = mread (view m k nonce n0) p B) as Ho.
  { rewrite <- Lo. apply view_block; [done|]. rewrite Lo. intros i Hi. unfold out.
    rewrite at_bxor, mread_at, ks_block by (rewrite ?keystream_size; lia). by rewrite Hm. }
  rewrite rd_bytes_ok by lia. cbn [obind]. exists x. rewrite Ho, slice_mread by lia. split; [done|].
  split; [|split; [done|split; [|lia]]].
  - cbn. rewrite <- (Z.mul_1_l B), <- block_of_add by done. done.
  - replace (p + B - U) with (p - U + 1 * B) by lia. apply Z.divide_add_r; [done|by exists 1].
Qed.

Lemma mread_split (f : mem) a n1 n2 : 0 <= n1 -> 0 <= n2 -> mread f a n1 ++ mread f (a + n1) n2 = mread f a (n1 + n2).
Proof.
  intros H1 H2. apply buf_ext; [rewrite zlen_app, !mread_length; lia|]. rewrite zlen_app, !mread_length by lia. intros i Hi.
  destruct (Z.lt_ge_cases i n1) as [Hlt|Hge].
  - rewrite at_app_l, !mread_at by (rewrite ?mread_length; lia). done.
  - rewrite at_app_r by (rewrite mread_length; lia). rewrite mread_length, !mread_at by lia. f_equal. lia.
Qed.

Lemma read_rest_spec s p n : reading s p -> 0 <= n ->
  exists x, read_rest s p n = Ok (Some (mread (view m k nonce n0) p n), set_ctx s x) /\ keyed x k.
Proof.
  intros Hrd Hn. pose proof Hrd as (Hx & Hm & Hal & HU). pose proof block_pos as HB. destruct (block_floor n) as [[q Hq] Hr].
  pose proof (Z.mod_pos_bound n B HB) as Hmod. assert (n mod B <= n) by (apply Z.mod_le; lia). set (r := n mod B) in *.
  assert (0 <= q) by nia. unfold read_rest, ext_flash_read. fold r. rewrite Z.eqb_refl. cbn [negb].
  replace ((n - r) / B) with q by (rewrite Hq; symmetry; apply Z.div_mul; lia).
  assert (zlen (mread (ext_mem s) p (n - r)) = n - r) as Lm by (apply mread_length; lia).
  destruct (crypt_blocks_spec crypto_decrypt (fun x n => dec_at x k nonce n) k nonce (Z.to_nat q) (ctx s) (mread (ext_mem s) p (n - r)) 0 (block_of n0 p))
    as (x & out & -> & Lo & Hx' & Hat); [by intros; apply decrypt_at|done|by apply block_of_pos|done|lia|].
  rewrite Z2Nat.id in Lo, Hx', Hat by lia.
  assert (out = mread (view m k nonce n0) p (n - r)) as ->.
  { replace (n - r) with (zlen out) by lia. apply view_block; [done|]. rewrite Lo. intros i Hi. rewrite Hat, mread_at by lia.
    rewrite Z.add_0_l. by rewrite Hm. }
  cbn [obind]. destruct (0 <? n - (n - r)) eqn:E0; bools.
  - destruct (read_part_spec (set_ctx s x) (p + (n - r)) 0 (n - (n - r))) as (x2 & -> & H2); [|lia..|].
    { split; [cbn; rewrite Hq; by rewrite <- block_of_add|]. split; [done|]. split; [|lia].
      replace (p + (n - r) - U) with (p - U + q * B) by lia. apply Z.divide_add_r; [done|by exists q]. }
    cbn [obind]. exists x2. rewrite Z.add_0_r. split; [|eapply dec_keyed, H2].
    cbn. rewrite mread_split by lia. do 3 f_equal. f_equal. lia.
  - exists x. split; [|by eapply dec_keyed]. cbn. by replace (n - r) with n by lia.
Qed.

Lemma row_end_aligned address : (B | address - address mod B + B - U).
Proof. replace (address - address mod B + B - U) with (address - address mod B - U + 1 * B) by lia.
  apply Z.divide_add_r; [apply row_aligned|by exists 1]. Qed.

Lemma read_decrypted_spec s address n : U <= address < enc_end -> 0 <= n ->
  dec_at (ctx s) k nonce (block_of n0 address) -> (forall a, ext_mem s a = m a) ->
  exists x, read_decrypted s address n = Ok (Some (mread (view m k nonce n0) address n), set_ctx s x) /\ keyed x k.
Proof.
  intros Ha Hn Hx Hm. pose proof block_pos as HB. pose proof (Z.mod_pos_bound address B HB) as Hro.
  destruct (address_range address Ha) as (_ & Hr1 & Hr2 & _).
  pose proof (el_update (c := c) (C := C) (NVM_CACHE_SIZE := NVM_CACHE_SIZE)) as [HU0 _].
  assert (reading s (address - address mod B)) as Hrd.
  { split; [|split; [done|split; [apply row_aligned|done]]]. replace (block_of n0 (address - address mod B)) with (block_of n0 address); [done|].
    unfold block_of. f_equal. destruct (row_aligned address) as [q Hq]. rewrite Hq, Z.div_mul by lia.
    replace (address - U) with (address mod B + q * B) by lia. rewrite Z.div_add, Z.div_small by lia. lia. }
  unfold read_decrypted. rewrite u32_small by lia. destruct (address mod B =? 0) eqn:E0; bools; cbn [negb].
  - apply read_rest_spec; [|done]. by rewrite E0, Z.sub_0_r in Hrd.
  - set (h := if n <? B - address mod B then n else _). assert (0 <= h <= n /\ address mod B + h <= B /\ (h = n \/ address mod B + h = B)) as (H1 & H2 & H3).
    { unfold h. destruct (n <? _) eqn:E1; bools; lia. }
    destruct (read_part_spec s _ (address mod B) h Hrd) as (x & -> & Hx1); [lia..|]. cbn [obind].
    replace (address - address mod B + address mod B) with address by lia.
    assert (exists x2, read_rest (set_ctx s x) (address + h) (n - h) = Ok (Some (mread (view m k nonce n0) (address + h) (n - h)), set_ctx (set_ctx s x) x2) /\ keyed x2 k)
      as (x2 & -> & Hk).
    { destruct H3 as [-> | H3].
      - rewrite Z.sub_diag. exists x. split; [|eapply dec_keyed, Hx1]. unfold read_rest. rewrite Z.mod_0_l by lia. done.
      - apply read_rest_spec; [|lia]. by replace (address + h) with (address - address mod B + B) by lia. }
    exists x2. cbn. rewrite mread_split by lia. split; [|done]. by replace (h + (n - h)) with n by lia.
Qed.

End Read.

(** The block counter that the next read starts from. *)
Definition read_base (s : sys) : Z := if fallback_iv_forced s then FALLBACK_IV_OFFSET else encrypt_iv_offset s.

Lemma decrypt_read_spec s k nonce address len :
  ready s k nonce -> iv_base (encrypt_iv_offset s) -> U <= address < enc_end -> 0 <= len ->
  exists s', decrypt_read s address len = Ok (len, mread (view (ext_mem s) k nonce (read_base s)) address len, s') /\
    accessed s s' k nonce /\ ext_mem s' = ext_mem s.
Proof.
  intros Hr Hn Ha Hlen. unfold ext_flash_decrypt_read. destruct (address_range address Ha) as (_ & Hr1 & Hr2 & Hp & Hc & Hu).
  pose proof (el_update (c := c) (C := C) (NVM_CACHE_SIZE := NVM_CACHE_SIZE)) as [HU0 _].
  pose proof (Z.mod_pos_bound address B block_pos) as Hm. rewrite (u32_small (address - address mod B)) by lia.
  rewrite Hp, Z.eqb_refl. rewrite (proj2 (Z.leb_gt _ (u32 _))) by lia.
  destruct (init_ready s k nonce Hr) as (s1 & Ei & I1 & I2 & I3 & I4 & I5 & I6 & I7 & I8).
  assert ((if encrypt_initialized s then (0, s) else crypto_init ENCRYPT_KEY s) = (0, s1)) as ->.
  { destruct (init_same s) as [Es|Es]; [congruence|]. unfold wolfBoot_initialize_encryption in Ei. rewrite Es in Ei.
    by destruct (encrypt_initialized s). }
  rewrite (proj2 (Z.ltb_ge 0 0)) by lia. set (s2 := if fallback_iv_forced s1 then _ else s1).
  assert (keyed (ctx s2) k /\ encrypt_iv_offset s2 = read_base s /\ encrypt_iv_nonce s2 = nonce /\ ext_mem s2 = ext_mem s /\
    int_mem s2 = int_mem s /\ extFlashLocked s2 = extFlashLocked s /\ fallback_iv_forced s2 = fallback_iv_forced s /\ encrypt_initialized s2 = true)
    as (J1 & J2 & J3 & J4 & J5 & J6 & J7 & J8).
  { unfold s2, read_base. rewrite <- I8. destruct (fallback_iv_forced s1) eqn:Ef; cbn; split_and!; congruence || done. }
  rewrite J3. assert (iv_base (read_base s)) as Hb by (unfold read_base; destruct (fallback_iv_forced s); [by right|done]).
  destruct Hr as [[Hl Hby] _]. destruct (set_iv_address s2 k nonce (read_base s) address J1 Hl Hby Hb J2 Ha) as [_ Hx].
  destruct (read_decrypted_spec k nonce (read_base s) Hb (ext_mem s) (wolfBoot_crypto_set_iv s2 nonce (u32 ((address - U) / B))) address len Ha Hlen Hx)
    as (x & -> & Hk); [intros a; cbn; by rewrite J4|].
  cbn [obind]. eexists. split; [done|]. split; [|exact J4]. by split.
Qed.

(** A byte of a block that was written reads as what was encrypted there. *)
Lemma encrypted_view m m' k nonce n0 address len data p a :
  address + len <= p ->
  (forall a, m' a = if in_range (address - address mod B) (p - (address - address mod B)) a
      then Z.lxor (source address len data m a) (mask k nonce n0 a) else m a) ->
  address - address mod B <= a < p -> view m' k nonce n0 a = source address len data m a.
Proof.
  intros Hp Hm Ha. unfold view. rewrite Hm, (proj2 (in_range_true _ _ _)) by lia. apply lxor_cancel.
Qed.

(** C28: What is written to the encrypted partition reads back.  With a key and a
    nonce stored, the flash unlocked, and the fallback vector used by both accesses
    or by none, a write of any length at any address of the encrypted part succeeds,
    and a later read of any part of the range returns the bytes that were
    written, whatever the alignment of the two accesses; flash outside the blocks of
    the range is not touched, and both leave the module ready for the next access. *)
Theorem encrypted_roundtrip s k nonce address data len a n :
  ready s k nonce -> extFlashLocked s = false ->
  encrypt_iv_offset s = (if fallback_iv_forced s then FALLBACK_IV_OFFSET else 0) ->
  U <= address < enc_end -> 0 < len <= zlen data -> address <= a < enc_end -> 0 <= n -> a + n <= address + len ->
  exists s1 s2, encrypt_write s address data len = Ok (0, s1) /\
    decrypt_read s1 a n = Ok (n, slice data (a - address) n, s2) /\ ready s2 k nonce /\
    forall b, b <= address - B \/ address + len + B <= b -> ext_mem s2 b = ext_mem s b.
Proof.
  intros Hr Hlock Hoff Haddr Hlen Ha Hn Han. pose proof block_pos as HB. pose proof (Z.mod_pos_bound address B HB) as Hm.
  assert (iv_base (encrypt_iv_offset s)) as Hb by (rewrite Hoff; destruct (fallback_iv_forced s); [by right|by left]).
  destruct (encrypt_write_spec s k nonce address data len Hr Hlock Hb Haddr Hlen) as (s1 & E1 & A1 & p & Hp & _ & Hm1).
  pose proof (accessed_ready _ _ _ _ Hr A1) as Hr1. pose proof A1 as [_ _ Hforced Hoff1 _ _ _].
  destruct (decrypt_read_spec s1 k nonce a n Hr1) as (s2 & E2 & A2 & Hext); [by left|lia|lia|].
  exists s1, s2. split; [done|]. split; [|split; [by eapply accessed_ready|]].
  - rewrite E2. do 3 f_equal. unfold read_base. rewrite Hforced, Hoff1, <- Hoff.
    apply buf_ext; [rewrite mread_length, slice_length; lia|]. rewrite mread_length by lia. intros i Hi.
    rewrite mread_at, at_slice by lia. rewrite (encrypted_view (ext_mem s) _ _ _ _ address len data p) by (done || lia).
    replace (a + i) with (address + (a - address + i)) by lia. by rewrite source_in by lia.
  - intros b Hfar. rewrite Hext, Hm1, (proj2 (in_range_false _ _ _)) by lia. done.
Qed.

(** A partial block loses its neighbours.  The bytes of the first and last block
    that the caller does not provide are read from flash as they are, without
    decrypting them, and encrypted with the rest: they read back as the raw content
    of the flash.  Erased flash reads as erased, but a byte written
    earlier reads back as its own cipher text, so that two writes inside one
    block do not add up. *)
Theorem partial_write_neighbours s k nonce address data len a :
  ready s k nonce -> extFlashLocked s = false -> encrypt_iv_offset s = (if fallback_iv_forced s then FALLBACK_IV_OFFSET else 0) ->
  U <= address < enc_end -> 0 < len <= zlen data -> U <= a < enc_end ->
  ~ (address <= a < address + len) -> (a / B = address / B \/ a / B = (address + len - 1) / B) ->
  exists s1 s2, encrypt_write s address data len = Ok (0, s1) /\ decrypt_read s1 a 1 = Ok (1, [ext_mem s a], s2).
Proof.
  intros Hr Hlock Hoff Haddr Hlen Ha Hout Hblock. pose proof block_pos as HB. pose proof (Z.mod_pos_bound address B HB) as Hm.
  assert (iv_base (encrypt_iv_offset s)) as Hb by (rewrite Hoff; destruct (fallback_iv_forced s); [by right|by left]).
  destruct (encrypt_write_spec s k nonce address data len Hr Hlock Hb Haddr Hlen) as (s1 & E1 & A1 & p & Hp & Hal & Hm1).
  pose proof (accessed_ready _ _ _ _ Hr A1) as Hr1. pose proof A1 as [_ _ Hforced Hoff1 _ _ _].
  destruct (decrypt_read_spec s1 k nonce a 1 Hr1) as (s2 & E2 & _); [by left|done|lia|].
  exists s1, s2. split; [done|]. rewrite E2. do 3 f_equal. unfold read_base. rewrite Hforced, Hoff1, <- Hoff.
  change (mread ?f a 1) with [f a]. f_equal.
  rewrite (encrypted_view (ext_mem s) _ _ _ _ address len data p); [by apply source_out|lia|done|].
  assert (B <> 0) as HB0 by lia. pose proof (Z.div_mod a B HB0). pose proof (Z.div_mod address B HB0). pose proof (Z.div_mod (address + len - 1) B HB0).
  pose proof (Z.mod_pos_bound a B HB). pose proof (Z.mod_pos_bound (address + len - 1) B HB).
  destruct (el_aligned (c := c) (C := C) (NVM_CACHE_SIZE := NVM_CACHE_SIZE)) as [u Hu]. destruct Hal as [q Hq].
  assert (p = (q + u) * B) as Hp2 by lia. set (P := q + u) in *.
  assert ((address + len - 1) / B < P) by nia. assert (address / B <= (address + len - 1) / B) by (apply Z.div_le_mono; lia).
  assert (address / B <= a / B < P) as [D1 D2] by lia.
  assert (B * (a / B + 1) <= B * P) by (apply Z.mul_le_mono_nonneg_l; lia).
  assert (B * (address / B) <= B * (a / B)) by (apply Z.mul_le_mono_nonneg_l; lia). lia.
Qed.

End EncryptSpec.
