(* ===== verification/EncryptKey.v ===== *)
(** * EncryptKey: storing and erasing the encryption key (src/libwolfboot.c)

    The key and the nonce are kept at the end of the BOOT partition, in the
    sector of its trailer: [hal_set_key] rewrites that sector through a cache.
    This is the variant of flash that can be rewritten, with the flags of each partition
    at its own end; the second trailer of FLAGS_HOME, the key in RAM of builds with an MMU,
    write-once flash and the TSIP are left out.
    Programs over the internal flash are those of Flash.v. *)

From Stdlib Require Import ZArith Lia.
From stdpp Require Import prelude.
From S2P Require Import Prelude Flash Trailer Stream Encrypt EncryptIv EncryptSpec.

Local Open Scope Z_scope.

Section EncryptKey.
Context {c : config} {C : crypto_api}.

(** Where the key is kept. *)
Definition key_address : Z := ENCRYPT_TMP_SECRET_OFFSET + WOLFBOOT_PARTITION_BOOT_ADDRESS.

(** A write behind the cache is undefined. *)
Definition cache_write (cache : list Z) (off : Z) (d : list Z) : prog (list Z) :=
  match blit cache off d with Ok x => Ret x | _ => Stop HUndef end.

Definition hal_set_key (k nonce : list Z) : prog Z :=
  let addr := key_address in
  let addr_align := Z.land addr (Z.lnot (WOLFBOOT_SECTOR_SIZE - 1)) in
  let addr_off := Z.land addr (WOLFBOOT_SECTOR_SIZE - 1) in
  let trailer_relative_off := 4 in
  let* _ := flash_unlock in
  let* m := look in
  let cache := mread m addr_align WOLFBOOT_SECTOR_SIZE in
  let* ret := flash_erase addr_align WOLFBOOT_SECTOR_SIZE in
  if negb (ret =? 0) then let* _ := flash_lock in Ret ret else
  let* cache := cache_write cache addr_off k in
  let* cache := cache_write cache (addr_off + ENCRYPT_KEY_SIZE) nonce in
  let* cache := cache_write cache (addr_off - trailer_relative_off) wolfboot_magic_trail in
  let* ret := flash_write addr_align cache in
  let* _ := flash_lock in
  Ret ret.

Definition wolfBoot_set_encrypt_key (key nonce : list Z) : prog Z := hal_set_key key nonce.

Definition wolfBoot_erase_encrypt_key : prog Z :=
  let* m := look in
  let ff := replicate (Z.to_nat (ENCRYPT_KEY_SIZE + ENCRYPT_NONCE_SIZE)) FLASH_BYTE_ERASED in
  if negb (encrypt_key_is_erased (mread m key_address (ENCRYPT_KEY_SIZE + ENCRYPT_NONCE_SIZE)))
  then hal_set_key (take (Z.to_nat ENCRYPT_KEY_SIZE) ff) (drop (Z.to_nat ENCRYPT_KEY_SIZE) ff)
  else Ret 0.

(** ** What they do *)

Class key_layout : Prop := KeyLayout {
  kl_sector : exists n, 0 <= n /\ WOLFBOOT_SECTOR_SIZE = 2 ^ n;
  kl_boot : (WOLFBOOT_SECTOR_SIZE | WOLFBOOT_PARTITION_BOOT_ADDRESS);
  kl_part : (WOLFBOOT_SECTOR_SIZE | WOLFBOOT_PARTITION_SIZE);
  kl_room : 0 < ENCRYPT_KEY_SIZE /\ 0 <= ENCRYPT_NONCE_SIZE /\ ENCRYPT_KEY_SIZE + ENCRYPT_NONCE_SIZE + 4 <= WOLFBOOT_SECTOR_SIZE;
}.
Context {Kl : key_layout}.

Abbreviation K := ENCRYPT_KEY_SIZE.
Abbreviation N := ENCRYPT_NONCE_SIZE.
Abbreviation SECT := WOLFBOOT_SECTOR_SIZE.

(** The sector of the key. *)
Definition key_sector : Z := WOLFBOOT_PARTITION_BOOT_ADDRESS + WOLFBOOT_PARTITION_SIZE - SECT.

Lemma key_split : Z.land key_address (Z.lnot (SECT - 1)) = key_sector /\ Z.land key_address (SECT - 1) = SECT - (K + N) /\
  key_address = key_sector + (SECT - (K + N)).
Proof.
  destruct kl_sector as (n & Hn & HS), kl_boot as [b Hb], kl_part as [p Hp], kl_room as (HK & HN & Hr).
  assert (key_address = key_sector + (SECT - (K + N))) as Ek by (unfold key_address, key_sector, ENCRYPT_TMP_SECRET_OFFSET; lia).
  assert (Z.land key_address (SECT - 1) = SECT - (K + N)) as E1.
  { assert (SECT - 1 = Z.ones n) as -> by (rewrite Z.ones_equiv, HS; lia). rewrite Z.land_ones, <- HS by lia. rewrite Ek. unfold key_sector. rewrite Hb, Hp.
    replace (b * SECT + p * SECT - SECT + (SECT - (K + N))) with (SECT - (K + N) + (b + p - 1) * SECT) by lia.
    rewrite Z.mod_add by lia. apply Z.mod_small. lia. }
  split; [|done]. rewrite <- Z.sub_land_same_l, E1. lia.
Qed.

(** The sector that [hal_set_key] writes over [m]. *)
Definition key_cache (m : mem) (k nonce : list Z) : list Z :=
  put (put (put (mread m key_sector SECT) (SECT - (K + N)) k) (SECT - (K + N) + K) nonce) (SECT - (K + N) - 4) wolfboot_magic_trail.

Lemma key_cache_at m k nonce i : zlen k = K -> zlen nonce = N -> 0 <= i < SECT ->
  at_ (key_cache m k nonce) i =
    if in_range (SECT - (K + N) - 4) 4 i then at_ wolfboot_magic_trail (i - (SECT - (K + N) - 4)) else
    if in_range (SECT - (K + N)) K i then at_ k (i - (SECT - (K + N))) else
    if in_range (SECT - N) N i then at_ nonce (i - (SECT - N)) else m (key_sector + i).
Proof.
  intros Lk Ln Hi. destruct kl_room as (HK & HN & Hr). unfold key_cache.
  assert (zlen (mread m key_sector SECT) = SECT) as L0 by (apply mread_length; lia).
  assert (zlen wolfboot_magic_trail = 4) as Lt by done.
  assert (zlen (put (mread m key_sector SECT) (SECT - (K + N)) k) = SECT) as L1 by (rewrite zlen_put; lia).
  assert (zlen (put (put (mread m key_sector SECT) (SECT - (K + N)) k) (SECT - (K + N) + K) nonce) = SECT) as L2 by (rewrite zlen_put; lia).
  rewrite !at_put by lia. rewrite Lt, Lk, Ln, mread_at by lia. unfold in_range.
  replace (SECT - (K + N) + K) with (SECT - N) by lia.
  repeat (case_if; try lia); try done; bools; try lia; repeat match goal with H : _ && _ = false |- _ => apply andb_false_iff in H as [H|H] end; bools; lia || done.
Qed.

Lemma zlen_key_cache m k nonce : zlen k = K -> zlen nonce = N -> zlen (key_cache m k nonce) = SECT.
Proof.
  intros Lk Ln. destruct kl_room as (HK & HN & Hr). unfold key_cache. assert (zlen wolfboot_magic_trail = 4) by done.
  assert (zlen (mread m key_sector SECT) = SECT) by (apply mread_length; lia).
  do 3 (rewrite zlen_put by (rewrite ?zlen_put; rewrite ?zlen_put; lia)). done.
Qed.

Definition after_key (m : mem) (k nonce : list Z) : mem := nor_write (nor_erase m key_sector SECT) key_sector (key_cache m k nonce).

Lemma hal_set_key_run s k nonce : zlen k = K -> zlen nonce = N ->
  run (hal_set_key k nonce) s = (inl 0, mkFlash (after_key (fmem s) k nonce) true).
Proof.
  intros Lk Ln. destruct kl_room as (HK & HN & Hr). destruct key_split as (E1 & E2 & _).
  assert (zlen (mread (fmem s) key_sector SECT) = SECT) as L0 by (apply mread_length; lia).
  assert (zlen wolfboot_magic_trail = 4) as Lt by done.
  unfold hal_set_key. rewrite E1, E2. cbn -[blit]. unfold cache_write.
  rewrite blit_put by lia. cbn -[blit]. rewrite blit_put by (rewrite ?zlen_put; lia). cbn -[blit].
  rewrite blit_put by (rewrite ?zlen_put; rewrite ?zlen_put; lia). done.
Qed.

Lemma magic_bytes : bytes wolfboot_magic_trail.
Proof. apply le32_bytes_bytes. Qed.

Lemma key_cache_bytes m k nonce i : mem_ok m -> bytes k -> bytes nonce -> zlen k = K -> zlen nonce = N -> 0 <= i < SECT -> is_byte (at_ (key_cache m k nonce) i).
Proof.
  intros Hm Hk Hn Lk Ln Hi. rewrite key_cache_at by done. assert (zlen wolfboot_magic_trail = 4) as Lt by done.
  destruct (in_range _ 4 i) eqn:E1; [apply in_range_true in E1; apply at_byte; [apply magic_bytes|lia]|].
  destruct (in_range _ K i) eqn:E2; [apply in_range_true in E2; apply at_byte; [done|lia]|].
  destruct (in_range _ N i) eqn:E3; [apply in_range_true in E3; apply at_byte; [done|lia]|]. apply Hm.
Qed.

Lemma after_key_at m k nonce a : mem_ok m -> bytes k -> bytes nonce -> zlen k = K -> zlen nonce = N ->
  after_key m k nonce a = if in_range key_sector SECT a then at_ (key_cache m k nonce) (a - key_sector) else m a.
Proof.
  intros Hm Hk Hn Lk Ln. unfold after_key, nor_write. rewrite zlen_key_cache by done.
  unfold nor_erase. destruct (in_range key_sector SECT a) eqn:Ea; [|done]. apply in_range_true in Ea.
  unfold FLASH_BYTE_ERASED. rewrite Z.land_comm. change 255 with (Z.ones 8). rewrite Z.land_ones by lia. apply Z.mod_small.
  apply key_cache_bytes; (done || lia).
Qed.

(** Key, nonce, magic number, and the rest of the flash. *)
Lemma after_key_spec m k nonce : mem_ok m -> bytes k -> bytes nonce -> zlen k = K -> zlen nonce = N ->
  mread (after_key m k nonce) key_address K = k /\ mread (after_key m k nonce) (key_address + K) N = nonce /\
  mread (after_key m k nonce) (key_address - 4) 4 = wolfboot_magic_trail /\
  forall a, ~ (key_address - 4 <= a < key_address + K + N) -> after_key m k nonce a = m a.
Proof.
  intros Hm Hk Hn Lk Ln. destruct key_split as (_ & _ & Ek), kl_room as (HK & HN & Hr). assert (zlen wolfboot_magic_trail = 4) as Lt by done.
  assert (Hin : forall a, key_sector <= a < key_sector + SECT -> after_key m k nonce a = at_ (key_cache m k nonce) (a - key_sector)).
  { intros a Ha. by rewrite after_key_at, (proj2 (in_range_true _ _ _)) by (done || lia). }
  split; [|split; [|split]].
  - apply buf_ext; [rewrite mread_length; lia|]. rewrite mread_length by lia. intros i Hi. rewrite mread_at, Hin, key_cache_at by (done || lia).
    rewrite (proj2 (in_range_false _ 4 _)), (proj2 (in_range_true _ K _)) by lia. f_equal. lia.
  - apply buf_ext; [rewrite mread_length; lia|]. rewrite mread_length by lia. intros i Hi. rewrite mread_at, Hin, key_cache_at by (done || lia).
    rewrite (proj2 (in_range_false _ 4 _)), (proj2 (in_range_false _ K _)), (proj2 (in_range_true _ N _)) by lia. f_equal. lia.
  - apply buf_ext; [rewrite mread_length; lia|]. rewrite mread_length by lia. intros i Hi. rewrite mread_at, Hin, key_cache_at by (done || lia).
    rewrite (proj2 (in_range_true _ 4 _)) by lia. f_equal. lia.
  - intros a Ha. rewrite after_key_at by done. destruct (in_range key_sector SECT a) eqn:Es; [|done]. apply in_range_true in Es.
    rewrite key_cache_at by (done || lia). rewrite (proj2 (in_range_false _ 4 _)), (proj2 (in_range_false _ K _)), (proj2 (in_range_false _ N _)) by lia.
    f_equal. lia.
Qed.

(** Power can fail while the key is stored: only its sector is at risk. *)
Lemma hal_set_key_crash s k nonce m' : zlen k = K -> zlen nonce = N -> crash (hal_set_key k nonce) s m' ->
  forall a, ~ (key_sector <= a < key_sector + SECT) -> m' a = fmem s a.
Proof.
  intros Lk Ln Hc a Ha. destruct kl_room as (HK & HN & Hr). destruct key_split as (E1 & E2 & _).
  assert (zlen (mread (fmem s) key_sector SECT) = SECT) as L0 by (apply mread_length; lia).
  assert (zlen wolfboot_magic_trail = 4) as Lt by done.
  unfold hal_set_key in Hc. rewrite E1, E2 in Hc. cbn -[blit] in Hc. unfold cache_write in Hc.
  rewrite blit_put in Hc by lia. cbn -[blit] in Hc. rewrite blit_put in Hc by (rewrite ?zlen_put; lia). cbn -[blit] in Hc.
  rewrite blit_put in Hc by (rewrite ?zlen_put; rewrite ?zlen_put; lia). cbn in Hc. fold (key_cache (fmem s) k nonce) in Hc.
  assert (in_range key_sector SECT a = false) as Hno by (by apply in_range_false).
  assert (nor_erase (fmem s) key_sector SECT a = fmem s a) as He by (unfold nor_erase; by rewrite Hno).
  assert (after_key (fmem s) k nonce a = fmem s a) as Hw by (unfold after_key, nor_write; rewrite zlen_key_cache, Hno by done; exact He).
  destruct Hc as [-> |[-> |[-> |[[_ Ht]|[-> |[[_ Ht]|[-> |[-> |[]]]]]]]]]; try done.
  - specialize (Ht a). cbn in Ht. by rewrite Hno in Ht.
  - specialize (Ht a). cbn in Ht. rewrite zlen_key_cache, Hno in Ht by done. by rewrite Ht.
Qed.

(** ** Erased keys *)

Lemma fold_lor_0 {X} (f : X -> Z) (l : list X) z : fold_left (fun z b => Z.lor z (f b)) l z = 0 <-> z = 0 /\ Forall (fun b => f b = 0) l.
Proof.
  revert z. induction l as [|b l IH]; intros z; cbn; [split; [by split|by intros [? _]]|].
  rewrite IH, Z.lor_eq_0_iff, Forall_cons. tauto.
Qed.

Lemma erased_iff l : encrypt_key_is_erased l = true <-> Forall (fun b => b = FLASH_BYTE_ERASED) l.
Proof.
  unfold encrypt_key_is_erased. rewrite Z.eqb_eq, fold_lor_0. setoid_rewrite Z.lxor_eq_0_iff. tauto.
Qed.

Lemma erased_invalid l : Forall (fun b => b = FLASH_BYTE_ERASED) l -> encrypt_key_is_valid l = false.
Proof.
  intros Hl. unfold encrypt_key_is_valid. apply andb_false_iff. right. apply negb_false_iff, Z.eqb_eq.
  apply (fold_lor_0 (fun b => u8 (Z.lnot b))). split; [done|]. eapply Forall_impl; [exact Hl|]. by intros b ->.
Qed.

End EncryptKey.

Section Lifecycle.
Context {c : config} {C : crypto_api} {L : crypto_laws C} (NVM_CACHE_SIZE : Z) {Lay : enc_layout c C NVM_CACHE_SIZE} {Kl : key_layout}.

(** Without a valid key nothing is encrypted or decrypted. *)
Lemma no_key_write ENCRYPT_KEY s address data len :
  encrypt_initialized s = false -> encrypt_key_is_valid (mread (int_mem s) ENCRYPT_KEY ENCRYPT_KEY_SIZE) = false ->
  WOLFBOOT_PARTITION_UPDATE_ADDRESS <= address < enc_end -> 0 < len ->
  ext_flash_encrypt_write NVM_CACHE_SIZE ENCRYPT_KEY s address data len = Ok (-1, set_ctx s crypto_zeroed).
Proof.
  intros Hi Hv Ha Hl. unfold ext_flash_encrypt_write. rewrite (proj2 (Z.ltb_ge len 0)), (proj2 (Z.eqb_neq len 0)) by lia.
  destruct (address_range NVM_CACHE_SIZE address Ha) as (-> & _ & _ & _ & Hc & Hu). rewrite Z.eqb_refl, (proj2 (Z.leb_gt _ (u32 _))) by lia.
  unfold wolfBoot_initialize_encryption, crypto_init. by rewrite Hi, Hv.
Qed.

Lemma no_key_read ENCRYPT_KEY s address len :
  encrypt_initialized s = false -> encrypt_key_is_valid (mread (int_mem s) ENCRYPT_KEY ENCRYPT_KEY_SIZE) = false ->
  WOLFBOOT_PARTITION_UPDATE_ADDRESS <= address < enc_end ->
  ext_flash_decrypt_read ENCRYPT_KEY s address len = Ok (-1, [], set_ctx s crypto_zeroed).
Proof.
  intros Hi Hv Ha. unfold ext_flash_decrypt_read. pose proof (Z.mod_pos_bound address ENCRYPT_BLOCK_SIZE block_pos) as Hm.
  destruct (address_range NVM_CACHE_SIZE address Ha) as (_ & Hr1 & Hr2 & Hp & Hc & Hu).
  pose proof (el_update (c := c) (C := C) (NVM_CACHE_SIZE := NVM_CACHE_SIZE)) as [HU0 _].
  rewrite (u32_small (address - address mod _)), Hp, Z.eqb_refl, (proj2 (Z.leb_gt _ (u32 _))) by lia.
  unfold crypto_init. by rewrite Hi, Hv.
Qed.

Lemma ff_split : take (Z.to_nat ENCRYPT_KEY_SIZE) (replicate (Z.to_nat (ENCRYPT_KEY_SIZE + ENCRYPT_NONCE_SIZE)) FLASH_BYTE_ERASED) =
    replicate (Z.to_nat ENCRYPT_KEY_SIZE) FLASH_BYTE_ERASED /\
  drop (Z.to_nat ENCRYPT_KEY_SIZE) (replicate (Z.to_nat (ENCRYPT_KEY_SIZE + ENCRYPT_NONCE_SIZE)) FLASH_BYTE_ERASED) =
    replicate (Z.to_nat ENCRYPT_NONCE_SIZE) FLASH_BYTE_ERASED.
Proof. destruct kl_room as (HK & HN & _). rewrite take_replicate, drop_replicate. split; f_equal; lia. Qed.

(** Power may fail between the erase and the write. *)
Lemma hal_set_key_erased s k nonce :
  crash (hal_set_key k nonce) s (nor_erase (fmem s) key_sector WOLFBOOT_SECTOR_SIZE).
Proof.
  destruct key_split as (E1 & _). pose proof (crash_run_for 3 (hal_set_key k nonce) s) as Hc.
  unfold hal_set_key in Hc at 2. rewrite E1 in Hc. exact Hc.
Qed.

(** C33: The life of an encryption key.  Storing a key and a nonce succeeds and
    makes the next start of the bootloader use exactly them; erasing them succeeds
    as well, and after a restart every access to the encrypted part is refused without
    touching the flash (a loader that already holds the key keeps it until then).  The trailer of BOOT is valid, and apart from the key, the
    nonce and the magic number no byte of the internal flash has changed.  If power fails
    while the key is stored or erased no sector but its own is affected; that sector, which
    also holds the trailer and the flags of BOOT, is erased before it is written back, and
    power failing in between leaves all of it erased. *)
Theorem encrypt_key_lifecycle s k nonce : mem_ok (fmem s) -> bytes k -> bytes nonce ->
  zlen k = ENCRYPT_KEY_SIZE -> zlen nonce = ENCRYPT_NONCE_SIZE -> encrypt_key_is_valid k = true ->
  exists s1 s2, run (wolfBoot_set_encrypt_key k nonce) s = (inl 0, s1) /\ run wolfBoot_erase_encrypt_key s1 = (inl 0, s2) /\
    (forall st, int_mem st = fmem s1 -> encrypt_initialized st = false -> ready key_address st k nonce) /\
    (forall st address data len, int_mem st = fmem s2 -> encrypt_initialized st = false ->
      WOLFBOOT_PARTITION_UPDATE_ADDRESS <= address < enc_end -> 0 < len -> exists st', ext_mem st' = ext_mem st /\
      ext_flash_encrypt_write NVM_CACHE_SIZE key_address st address data len = Ok (-1, st') /\
      ext_flash_decrypt_read key_address st address len = Ok (-1, [], st')) /\
    mread (fmem s2) (key_address - 4) 4 = wolfboot_magic_trail /\
    (forall a, ~ (key_address - 4 <= a < key_address + ENCRYPT_KEY_SIZE + ENCRYPT_NONCE_SIZE) -> fmem s2 a = fmem s a) /\
    (forall m' a, crash (wolfBoot_set_encrypt_key k nonce) s m' -> ~ (key_sector <= a < key_sector + WOLFBOOT_SECTOR_SIZE) -> m' a = fmem s a) /\
    (forall m' a, crash wolfBoot_erase_encrypt_key s1 m' -> ~ (key_sector <= a < key_sector + WOLFBOOT_SECTOR_SIZE) -> m' a = fmem s1 a) /\
    (exists m', crash (wolfBoot_set_encrypt_key k nonce) s m' /\
      forall a, key_sector <= a < key_sector + WOLFBOOT_SECTOR_SIZE -> m' a = FLASH_BYTE_ERASED).
Proof.
  intros Hm Hk Hn Lk Ln Hv. destruct kl_room as (HK & HN & Hr).
  destruct (after_key_spec (fmem s) k nonce Hm Hk Hn Lk Ln) as (R1 & R2 & _ & R4). set (m1 := after_key (fmem s) k nonce) in *.
  assert (Hm1 : mem_ok m1).
  { intros a. unfold m1. rewrite after_key_at by done. destruct (in_range _ _ a) eqn:Ea; [|apply Hm]. apply in_range_true in Ea.
    apply key_cache_bytes; (done || lia). }
  set (ffk := replicate (Z.to_nat ENCRYPT_KEY_SIZE) FLASH_BYTE_ERASED). set (ffn := replicate (Z.to_nat ENCRYPT_NONCE_SIZE) FLASH_BYTE_ERASED).
  assert (Hff : forall n, bytes (replicate n FLASH_BYTE_ERASED)) by (intros n; apply Forall_replicate; unfold is_byte, FLASH_BYTE_ERASED; lia).
  assert (zlen ffk = ENCRYPT_KEY_SIZE /\ zlen ffn = ENCRYPT_NONCE_SIZE) as [Lfk Lfn] by (unfold zlen, ffk, ffn; rewrite !length_replicate; lia).
  destruct (after_key_spec m1 ffk ffn Hm1 (Hff _) (Hff _) Lfk Lfn) as (F1 & F2 & F3 & F4).
  exists (mkFlash m1 true), (mkFlash (after_key m1 ffk ffn) true). split; [by apply hal_set_key_run|]. split.
  - unfold wolfBoot_erase_encrypt_key. cbn [run pbind look fmem].
    assert (encrypt_key_is_erased (mread m1 key_address (ENCRYPT_KEY_SIZE + ENCRYPT_NONCE_SIZE)) = false) as ->.
    { destruct (encrypt_key_is_erased _) eqn:Ee; [|done]. apply erased_iff in Ee. exfalso.
      assert (encrypt_key_is_valid k = false); [|congruence]. apply erased_invalid. rewrite <- R1.
      unfold mread in *. rewrite seqZ_app, fmap_app in Ee by lia. by apply Forall_app in Ee as [Ee _]. }
    cbn [negb]. destruct ff_split as [-> ->]. rewrite hal_set_key_run by done. done.
  - cbn [fmem]. split; [|split; [|split; [done|split; [|split; [|split]]]]].
    + intros st Hst Hini. split; [done|]. rewrite Hini, Hst. done.
    + intros st address data len Hst Hini Ha Hl. exists (set_ctx st crypto_zeroed). split; [done|].
      assert (encrypt_key_is_valid (mread (int_mem st) key_address ENCRYPT_KEY_SIZE) = false) as Hno.
      { rewrite Hst, F1. apply erased_invalid, Forall_replicate. done. }
      split; [by apply no_key_write|by apply no_key_read].
    + intros a Ha. rewrite F4, R4 by done. done.
    + intros m' a Hc Ha. by apply (hal_set_key_crash s k nonce m').
    + intros m' a Hc Ha. unfold wolfBoot_erase_encrypt_key in Hc. cbn [crash pbind look fmem] in Hc.
      destruct Hc as [-> |Hc]; [done|]. destruct (negb _); [|by destruct Hc as [-> |[]]].
      destruct ff_split as [Ek En]. rewrite Ek, En in Hc. by apply (hal_set_key_crash (mkFlash m1 true) ffk ffn m' Lfk Lfn Hc).
    + exists (nor_erase (fmem s) key_sector WOLFBOOT_SECTOR_SIZE). split; [apply hal_set_key_erased|].
      intros a Ha. by apply nor_erase_in.
Qed.

End Lifecycle.
