(* ===== verification/EncryptRam.v ===== *)
(** * EncryptRam: decrypting an image into RAM (src/libwolfboot.c)

    On targets with an MMU the encrypted image is mapped in memory at [src] and
    decrypted to the load address [dst] before it is verified: its header is not
    trusted yet, and the size it declares must not make the copy leave the load
    region.  [int_mem] is the memory of the machine. *)

From Stdlib Require Import ZArith Lia.
From stdpp Require Import prelude.
From S2P Require Import Prelude Flash Trailer Image Stream Encrypt EncryptIv EncryptSpec.

Local Open Scope Z_scope.

Section EncryptRam.
Context {c : config} {C : crypto_api} (ENCRYPT_KEY : Z).
(** [WOLFBOOT_RAMBOOT_MAX_SIZE], when the build defines it; [None] is a build with
    [WOLFBOOT_FIXED_PARTITIONS] only. *)
Context (WOLFBOOT_RAMBOOT_MAX_SIZE : option Z).

Definition set_mem (s : sys) (m : mem) : sys :=
  mkSys m (ext_mem s) (extFlashLocked s) (encrypt_initialized s) (encrypt_iv_offset s) (fallback_iv_forced s) (encrypt_iv_nonce s) (ctx s).

(** Block [iv_counter] of the image at [src]. *)
Definition decrypt_block (s : sys) (src iv_counter : Z) : list Z * sys :=
  let s := wolfBoot_crypto_set_iv s (encrypt_iv_nonce s) iv_counter in
  let '(x, out) := crypto_decrypt (ctx s) (mread (int_mem s) (src + iv_counter * ENCRYPT_BLOCK_SIZE) ENCRYPT_BLOCK_SIZE) in
  (out, set_ctx s x).

(** The loop of [decrypt_header], from offset [i]: [dec_hdr] and the state. *)
Fixpoint decrypt_header_loop (n : nat) (s : sys) (src i : Z) (dec_hdr : list Z) : outcome (list Z * sys) :=
  match n with
  | O => NoFuel
  | S n =>
      if negb (i <? IMAGE_HEADER_SIZE) then Ok (dec_hdr, s) else
      let '(out, s) := decrypt_block s src (i / ENCRYPT_BLOCK_SIZE) in
      let! dec_hdr := blit dec_hdr i out in
      decrypt_header_loop n s src (i + ENCRYPT_BLOCK_SIZE) dec_hdr
  end.

Definition decrypt_header (s : sys) (src : Z) (dec_hdr : list Z) : outcome (Z * list Z * sys) :=
  let! (dec_hdr, s) := decrypt_header_loop (S (Z.to_nat IMAGE_HEADER_SIZE)) s src 0 dec_hdr in
  let! magic := rd_bytes dec_hdr 0 4 in
  Ok (if negb (bool_decide (magic = le32_bytes WOLFBOOT_MAGIC)) then -1 else 0, dec_hdr, s).

Definition ram_loop (s : sys) (src dst total : Z) : outcome sys :=
  loop (S (Z.to_nat total)) (fun '(s, dst_offset, iv_counter) =>
    if negb (dst_offset <? total) then Ok (inr s) else
    let '(dec_block, s) := decrypt_block s src iv_counter in
    Ok (inl (set_mem s (ext_copy (int_mem s) (dst + dst_offset) dec_block), u32 (dst_offset + ENCRYPT_BLOCK_SIZE), u32 (iv_counter + 1)))) (s, 0, 0).

(** The bound on the size of the unverified header; the first branch takes
    precedence when both are configured. *)
Definition ram_size_refused (len : Z) : bool :=
  match WOLFBOOT_RAMBOOT_MAX_SIZE with
  | Some max => max <? len
  | None => (WOLFBOOT_PARTITION_SIZE <=? IMAGE_HEADER_SIZE) || (u32 (WOLFBOOT_PARTITION_SIZE - IMAGE_HEADER_SIZE) <? len)
  end.

(** [dec_hdr] is the static buffer for the header. *)
Definition wolfBoot_ram_decrypt (s : sys) (src dst : Z) (dec_hdr : list Z) : outcome (Z * sys) :=
  let '(r, s) := if encrypt_initialized s then (0, s) else crypto_init ENCRYPT_KEY s in
  if r <? 0 then Ok (-1, s) else
  let! (r, dec_hdr, s) := decrypt_header s src dec_hdr in
  if negb (r =? 0) then Ok (-1, s) else
  let! l := rd_bytes dec_hdr 4 4 in
  let len := word_of (at_ l 0) (at_ l 1) (at_ l 2) (at_ l 3) in
  if ram_size_refused len then Ok (-1, s) else
  let! s := ram_loop s src dst (u32 (len + IMAGE_HEADER_SIZE)) in
  Ok (0, s).

(** ** What it does *)

Context {L : crypto_laws C}.
Abbreviation B := ENCRYPT_BLOCK_SIZE.

(** The room for header and payload at [dst]. *)
Definition ram_room : Z :=
  match WOLFBOOT_RAMBOOT_MAX_SIZE with Some max => IMAGE_HEADER_SIZE + max | None => WOLFBOOT_PARTITION_SIZE end.

(** It holds whole blocks: the static assertion of the source, which a build
    with both macros makes of the partition only. *)
Class ram_layout : Prop := RamLayout {
  rl_size : 8 <= IMAGE_HEADER_SIZE < 2 ^ 31 /\ ram_room < 2 ^ 31 /\ B < 2 ^ 31;
  rl_part : (B | ram_room);
  rl_hdr : (B | IMAGE_HEADER_SIZE);
}.
Context {Rl : ram_layout} (k nonce : list Z).

(** A keyed module with the plain vector, and memory [m]. *)
Record ram_ready (s : sys) (m : mem) : Prop := RamReady {
  rr_keyed : keyed (ctx s) k;
  rr_nonce : encrypt_iv_nonce s = nonce;
  rr_off : encrypt_iv_offset s = 0;
  rr_mem : forall a, int_mem s a = m a;
}.
Context (Hz : zlen nonce = ENCRYPT_NONCE_SIZE) (Hby : bytes nonce).

(** The image at [src] in memory [m], decrypted. *)
Definition plain (m : mem) (src i : Z) : Z := Z.lxor (m (src + i)) (ks k nonce i).

Lemma decrypt_block_spec s m src j : ram_ready s m -> 0 <= j < 2 ^ 32 ->
  exists x, decrypt_block s src j = (plain m src <$> seqZ (j * B) B, x) /\ ram_ready x m /\
    (forall f, ram_ready (set_mem x f) f).
Proof.
  intros [Hk Hn Ho Hm] Hj. pose proof block_pos as HB. unfold decrypt_block. rewrite Hn.
  destruct (set_iv_at (ctx s) k nonce j Hk Hz Hby Hj) as [_ Hd].
  set (s1 := wolfBoot_crypto_set_iv s nonce j). assert (ctx s1 = crypto_set_iv (ctx s) nonce j) as Ec.
  { unfold s1, wolfBoot_crypto_set_iv. cbn. by rewrite Ho, Z.add_0_r, u32_small. }
  rewrite <- Ec in Hd. assert (zlen (mread (int_mem s1) (src + j * B) B) = B) as Lm by (apply mread_length; lia).
  destruct (decrypt_at (ctx s1) k nonce j _ Hd Lm (proj1 Hj)) as (x & -> & Hx). exists (set_ctx s1 x).
  assert (keyed x k) as Hkx by (by eapply dec_keyed).
  split; [|split; [by split|intros f; by split]]. f_equal. apply buf_ext.
  - rewrite zlen_bxor; rewrite ?keystream_size; [|lia]. unfold zlen. rewrite length_fmap, length_seqZ. unfold zlen in Lm. lia.
  - rewrite zlen_bxor, Lm by (rewrite keystream_size; lia). intros i Hi.
    rewrite at_bxor, mread_at, ks_block by (rewrite ?keystream_size; lia).
    change (plain m src <$> seqZ (j * B) B) with (mread (plain m src) (j * B) B). rewrite mread_at by lia.
    unfold plain, s1. cbn [int_mem wolfBoot_crypto_set_iv set_offset set_ctx]. rewrite Hm. by rewrite Z.add_assoc.
Qed.

Lemma header_loop_spec n s m src j dec_hdr : ram_ready s m -> 0 <= j -> j * B <= IMAGE_HEADER_SIZE -> zlen dec_hdr = IMAGE_HEADER_SIZE ->
  (forall p, 0 <= p < j * B -> at_ dec_hdr p = plain m src p) -> IMAGE_HEADER_SIZE - j * B < Z.of_nat n ->
  exists hdr s', decrypt_header_loop n s src (j * B) dec_hdr = Ok (hdr, s') /\ ram_ready s' m /\ zlen hdr = IMAGE_HEADER_SIZE /\
    forall p, 0 <= p < IMAGE_HEADER_SIZE -> at_ hdr p = plain m src p.
Proof.
  destruct rl_size as (H8 & Hp & HB31), rl_hdr as [q Hq]. pose proof block_pos as HB.
  revert s j dec_hdr. induction n as [|n IH]; intros s j dec_hdr Hs Hj Hle Hl Hat Hn; [lia|]. cbn [decrypt_header_loop].
  destruct (j * B <? IMAGE_HEADER_SIZE) eqn:E0; bools; cbn [negb].
  - rewrite Z.div_mul by lia. assert (j < q) by nia. assert (j * B + B <= IMAGE_HEADER_SIZE) by nia.
    destruct (decrypt_block_spec s m src j Hs) as (x & -> & Hx & _); [nia|].
    assert (zlen (plain m src <$> seqZ (j * B) B) = B) as Lo by (unfold zlen; rewrite length_fmap, length_seqZ; lia).
    rewrite blit_put by lia. cbn [obind]. replace (j * B + B) with ((j + 1) * B) by lia. apply IH; [done|lia|lia|rewrite zlen_put; lia| |lia].
    intros p Hp'. rewrite at_put by lia. rewrite Lo. destruct ((j * B <=? p) && (p <? j * B + B)) eqn:E1.
    + bools. change (plain m src <$> seqZ (j * B) B) with (mread (plain m src) (j * B) B). rewrite mread_at by lia. f_equal. lia.
    + apply Hat. apply andb_false_iff in E1 as [E1|E1]; bools; lia.
  - exists dec_hdr, s. split; [done|]. split; [done|]. split; [done|]. intros p Hp'. apply Hat. lia.
Qed.

Section Load.
Context (m0 : mem) (src dst : Z).
Context (Hapart : src + ram_room <= dst \/ dst + ram_room <= src).

(** The first [n] bytes have been decrypted. *)
Definition loaded_upto (n : Z) (m : mem) : Prop := forall a, m a = if in_range dst n a then plain m0 src (a - dst) else m0 a.

Lemma ram_decrypt_loop_spec s total : ram_ready s m0 -> 0 < total <= ram_room ->
  exists s' n, ram_loop s src dst total = Ok s' /\ (B | n) /\ total <= n < total + B /\ n <= ram_room /\ loaded_upto n (int_mem s').
Proof.
  intros Hs Ht. destruct rl_size as (H8 & Hp & HB31), rl_part as [q Hq]. pose proof block_pos as HB.
  enough (wp (ram_loop s src dst total) (fun s' => exists n, (B | n) /\ total <= n < total + B /\ n <= ram_room /\ loaded_upto n (int_mem s')))
    as (s' & -> & n & H1)%wp_inv by eauto.
  unfold ram_loop. apply (wp_loop (fun '(s, off, j) => off = j * B /\ 0 <= j <= q /\ j * B < total + B /\ exists m, ram_ready s m /\ loaded_upto off m)
    (fun '(_, off, _) => Z.to_nat (total - off))).
  - clear s Hs. intros [[s off] j] (-> & Hj & Hjt & m & Hs & Hm). destruct (j * B <? total) eqn:E0; bools; cbn [negb].
    + assert (j < q) by nia. assert (j * B + B <= ram_room) by nia. assert (0 <= j * B) by nia. assert (j < 2 ^ 31) by nia.
      destruct (decrypt_block_spec s m src j Hs) as (x & -> & Hx & Hset); [lia|]. cbn.
      assert (zlen (plain m src <$> seqZ (j * B) B) = B) as Lo by (unfold zlen; rewrite length_fmap, length_seqZ; lia).
      rewrite !u32_small by lia. split; [|lia]. split; [lia|]. split; [lia|]. split; [lia|]. eexists. split; [apply Hset|].
      intros a. unfold ext_copy. rewrite Lo, (rr_mem _ _ Hx a), Hm.
      destruct (in_range (dst + j * B) B a) eqn:E1.
      * apply in_range_true in E1. rewrite (proj2 (in_range_true dst _ _)) by lia.
        change (plain m src <$> seqZ (j * B) B) with (mread (plain m src) (j * B) B). rewrite mread_at by lia.
        replace (j * B + (a - (dst + j * B))) with (a - dst) by lia. unfold plain. f_equal. rewrite Hm.
        by rewrite (proj2 (in_range_false dst _ _)) by lia.
      * apply in_range_false in E1. destruct (in_range dst (j * B) a) eqn:E2.
        -- apply in_range_true in E2. by rewrite (proj2 (in_range_true dst _ _)) by lia.
        -- apply in_range_false in E2. by rewrite (proj2 (in_range_false dst _ _)) by lia.
    + cbn. exists (j * B). split; [by exists j|]. split; [lia|]. split; [nia|]. intros a. rewrite (rr_mem _ _ Hs a). apply Hm.
  - split; [lia|]. split; [nia|]. split; [lia|]. exists m0. split; [done|]. intros a. by rewrite (proj2 (in_range_false _ _ _)) by lia.
  - lia.
Qed.

End Load.

Lemma ram_size_ok len : 0 <= len -> ram_size_refused len = false -> len + IMAGE_HEADER_SIZE <= ram_room.
Proof.
  destruct rl_size as (H8 & Hp & _). unfold ram_size_refused, ram_room in *. intros Hlen.
  destruct WOLFBOOT_RAMBOOT_MAX_SIZE as [max|]; [intros E; bools; lia|].
  intros [E1 E2]%orb_false_iff. bools. rewrite u32_small in E2 by lia. lia.
Qed.

(** C32: The decryption into RAM stays inside the load region.  Whatever is stored at
    the source, and whatever size its unverified header declares, the function
    returns; when it refuses, memory is unchanged.  When it succeeds, it has
    written exactly the decrypted image, header and payload of the declared size rounded
    up to whole blocks, and nothing else.  That is at most the partition size, or,
    in a build with [WOLFBOOT_RAMBOOT_MAX_SIZE], the header and that size, which
    bounds the payload alone.  Source and destination do not overlap. *)
Theorem ram_decrypt_bounded s src dst dec_hdr :
  ready ENCRYPT_KEY s k nonce -> encrypt_iv_offset s = 0 -> zlen dec_hdr = IMAGE_HEADER_SIZE -> mem_ok (int_mem s) ->
  src + ram_room <= dst \/ dst + ram_room <= src ->
  exists r s', wolfBoot_ram_decrypt s src dst dec_hdr = Ok (r, s') /\
    ((r = -1 /\ forall a, int_mem s' a = int_mem s a) \/
     (r = 0 /\ exists len n, (B | n) /\ IMAGE_HEADER_SIZE + len <= n < IMAGE_HEADER_SIZE + len + B /\ n <= ram_room /\
        len = word_of (plain (int_mem s) src 4) (plain (int_mem s) src 5) (plain (int_mem s) src 6) (plain (int_mem s) src 7) /\
        forall a, int_mem s' a = if in_range dst n a then plain (int_mem s) src (a - dst) else int_mem s a)).
Proof.
  intros Hr Ho Hl Hok Hapart. destruct rl_size as (H8 & Hp & HB31). unfold wolfBoot_ram_decrypt.
  destruct (init_ready ENCRYPT_KEY s k nonce Hr) as (s1 & Ei & I1 & I2 & I3 & I4 & I5 & I6 & I7 & I8).
  assert ((if encrypt_initialized s then (0, s) else crypto_init ENCRYPT_KEY s) = (0, s1)) as ->.
  { destruct (init_same ENCRYPT_KEY s) as [Es|Es]; [congruence|]. unfold wolfBoot_initialize_encryption in Ei. rewrite Es in Ei.
    by destruct (encrypt_initialized s). }
  rewrite (proj2 (Z.ltb_ge 0 0)) by lia. assert (ram_ready s1 (int_mem s)) as Hs1 by (split; [done|done|congruence|by rewrite I4]).
  destruct (header_loop_spec (S (Z.to_nat IMAGE_HEADER_SIZE)) s1 (int_mem s) src 0 dec_hdr Hs1) as (hdr & s2 & Eh & Hs2 & Lh & Hat); try lia.
  unfold decrypt_header. rewrite Z.mul_0_l in Eh. rewrite Eh. cbn [obind]. rewrite rd_bytes_ok by lia. cbn [obind].
  destruct (bool_decide _); cbn [negb Z.eqb].
  2: { exists (-1), s2. split; [done|]. left. split; [done|]. intros a. apply (rr_mem _ _ Hs2). }
  rewrite rd_bytes_ok by lia. cbn [obind]. rewrite !at_slice by lia. rewrite !Hat by lia.
  change (4 + 0) with 4. change (4 + 1) with 5. change (4 + 2) with 6. change (4 + 3) with 7. set (len := word_of _ _ _ _).
  assert (0 <= len) as Hlen.
  { assert (forall i, is_byte (plain (int_mem s) src i)) as Hb by (intros i; apply lxor_byte; [apply Hok|unfold ks; apply at_byte;
      [apply keystream_bytes|rewrite keystream_size; apply Z.mod_pos_bound, block_pos]]).
    unfold len, word_of. pose proof (Hb 4). pose proof (Hb 5). pose proof (Hb 6). pose proof (Hb 7). unfold is_byte in *. lia. }
  destruct (ram_size_refused len) eqn:Eb.
  - exists (-1), s2. split; [done|]. left. split; [done|]. intros a. apply (rr_mem _ _ Hs2).
  - assert (len + IMAGE_HEADER_SIZE <= ram_room) as Hroom by (by apply ram_size_ok).
    rewrite (u32_small (len + _)) by lia.
    destruct (ram_decrypt_loop_spec (int_mem s) src dst Hapart s2 (len + IMAGE_HEADER_SIZE) Hs2) as (s3 & n & -> & Hd & Hn & Hnr & Hm); [lia|].
    exists 0, s3. split; [done|]. right. split; [done|]. exists len, n. split; [done|]. split; [lia|]. split; [done|].
    split; [done|]. exact Hm.
Qed.

End EncryptRam.
