(* ===== verification/EncryptTool.v ===== *)
(** * EncryptTool: images encrypted by the signing tool

    The tool encrypts the signed image from the start of the key stream; the
    device decrypts it from any offset.  Both meet in the contract of
    EncryptIv.v, for AES and for ChaCha20. *)

From Stdlib Require Import ZArith Lia.
From stdpp Require Import prelude.
From S2P Require Import Prelude Flash Trailer Image DeltaUpdate Stream Sign Encrypt EncryptIv EncryptSpec.

Local Open Scope Z_scope.

(** ** The tool's loop *)

Section Tool.
Context {X : Type} (BS : nat) (HBS : (0 < BS)%nat) (f : X -> list Z -> X * list Z) (P : X -> Z -> Prop) (stream : Z -> Z).

(** [f] xors a block, possibly the last and shorter one, with the key stream. *)
Context (Hf : forall x n d, P x n -> 0 <= n -> 0 < zlen d <= Z.of_nat BS -> exists x' o, f x d = (x', o) /\ zlen d <= zlen o /\
  (forall i, 0 <= i < zlen d -> at_ o i = Z.lxor (at_ d i) (stream (n * Z.of_nat BS + i))) /\
  (zlen d = Z.of_nat BS -> zlen o = Z.of_nat BS /\ P x' (n + 1))).

Definition tool_loop (fuel : nat) (x : X) (signed : list Z) : outcome (list Z) :=
  loop fuel (fun '(x, todo, out) =>
    let buf := take BS todo in
    if zlen buf =? 0 then Ok (inr out) else
    let '(x, enc_buf) := f x buf in
    Ok (inl (x, drop BS todo, out ++ enc_buf))) (x, signed, []).

(** [out] is the cipher text of [signed]. *)
Definition cipher_of (signed out : list Z) : Prop :=
  zlen signed <= zlen out /\ forall i, 0 <= i < zlen signed -> at_ out i = Z.lxor (at_ signed i) (stream i).

Lemma tool_loop_spec x signed : P x 0 -> wp (tool_loop (S (S (length signed))) x signed) (cipher_of signed).
Proof.
  intros Hx. unfold tool_loop. set (Bz := Z.of_nat BS) in *.
  (* [done] bytes are encrypted; the context is positioned while there is more *)
  apply (wp_loop (fun '(x, todo, out) => exists done, 0 <= done /\ todo = drop (Z.to_nat done) signed /\
      (done < zlen signed -> zlen out = done /\ exists n, 0 <= n /\ done = n * Bz /\ P x n) /\ Z.min done (zlen signed) <= zlen out /\
      forall i, 0 <= i < Z.min done (zlen signed) -> at_ out i = Z.lxor (at_ signed i) (stream i))
    (fun '(_, todo, _) => length todo)).
  - clear x Hx. intros [[x todo] out] (d & H0 & -> & Hmore & Hle & Hat). cbn zeta.
    assert (zlen (drop (Z.to_nat d) signed) = Z.max 0 (zlen signed - d)) as Lt by (unfold zlen; rewrite length_drop; lia).
    assert (zlen (take BS (drop (Z.to_nat d) signed)) = Z.min Bz (Z.max 0 (zlen signed - d))) as Lb.
    { unfold zlen in *. rewrite length_take. unfold Bz. lia. }
    destruct (zlen (take BS (drop (Z.to_nat d) signed)) =? 0) eqn:E0; bools.
    + cbn. pose proof (zlen_nonneg signed). split; [lia|]. intros i Hi. apply Hat. lia.
    + pose proof (zlen_nonneg signed). destruct Hmore as (Lo & n & Hn & Hd & Hx); [lia|].
      destruct (Hf x n (take BS (drop (Z.to_nat d) signed)) Hx Hn) as (x' & o & -> & Ho & Hoat & Hfull); [lia|].
      cbn. split; [|rewrite !length_drop; unfold zlen in Lt, Lb, E0; rewrite length_drop in *; unfold Bz in *; lia].
      exists (d + Bz). split; [lia|]. split; [rewrite drop_drop; f_equal; unfold Bz; lia|]. rewrite zlen_app.
      split; [|split; [lia|]].
      * intros Hlt. destruct Hfull as [F1 F2]; [lia|]. split; [lia|]. exists (n + 1). split; [lia|]. split; [lia|done].
      * intros i Hi. destruct (Z.lt_ge_cases i d) as [Hlt|Hge].
        -- rewrite at_app_l by lia. apply Hat. lia.
        -- rewrite at_app_r, Lo, Hoat by lia. f_equal; [|f_equal; lia].
           unfold at_. rewrite lookup_take_lt, lookup_drop by (unfold Bz in *; lia). do 2 f_equal. lia.
  - exists 0. split; [lia|]. split; [done|]. split; [intros _; split; [done|exists 0; done]|]. pose proof (zlen_nonneg signed).
    split; [change (zlen []) with 0; lia|]. intros i Hi. lia.
  - lia.
Qed.

End Tool.

(** ** The two ciphers *)

Lemma block_position n b i : 0 <= i < b -> (n * b + i) / b = n /\ (n * b + i) mod b = i.
Proof. intros Hi. rewrite Z.add_comm, Z.div_add, Z.mod_add by lia. rewrite Z.div_small, Z.mod_small by lia. done. Qed.

Section Ciphers.
Context {E : stream_api}.

(** Byte [i] of the key stream, as the device positions it. *)
Definition aes_stream {A : aes_laws E} (key iv : list Z) (i : Z) : Z := at_ (aes_block key ((be_value iv + i / 16) mod 2 ^ 128)) (i mod 16).
Definition chacha_stream {A : chacha_laws E} (key iv : list Z) (i : Z) : Z := at_ (chacha_block key iv (u32 (i / 64))) (i mod 64).

Lemma encrypt_aes_cipher {A : aes_laws E} key iv signed : zlen iv = 16 -> bytes iv ->
  exists out, encrypt_aes key iv signed = Ok out /\ cipher_of (aes_stream key iv) signed out.
Proof.
  intros Hl Hb. apply wp_inv. unfold encrypt_aes.
  apply (tool_loop_spec 16 ltac:(lia) (fun x buf => wc_AesCtrEncrypt x (buf ++ replicate (16 - length buf) 0xFF))
    (fun x n => aes_at x key ((be_value iv + n) mod 2 ^ 128))).
  - intros x n d Hx Hn Hd. change (Z.of_nat 16) with 16 in *. change (Z.of_nat 64) with 64 in *. assert (zlen (d ++ replicate (16 - length d) 0xFF) = 16) as L by (unfold zlen in *; rewrite length_app, length_replicate; lia).
    destruct (aes_process x key _ _ Hx L) as (x' & -> & Hx'). do 2 eexists. split; [done|].
    rewrite zlen_bxor, L by (rewrite L, aes_block_size; lia). split; [lia|]. split.
    + intros i Hi. rewrite at_bxor by (rewrite ?aes_block_size; lia). rewrite at_app_l by lia. unfold aes_stream.
      destruct (block_position n 16 i) as [-> ->]; [lia|done].
    + intros _. split; [done|]. rewrite Z.add_mod_idemp_l in Hx' by done. by rewrite Z.add_assoc.
  - rewrite Z.add_0_r, Z.mod_small by (pose proof (be_value_range iv Hb) as Hr; rewrite Hl in Hr; exact Hr). by apply aes_set_key_iv.
Qed.

Lemma encrypt_chacha_cipher {A : chacha_laws E} key iv signed : zlen iv = 12 ->
  exists out, encrypt_chacha key iv signed = Ok out /\ cipher_of (chacha_stream key iv) signed out.
Proof.
  intros Hl. apply wp_inv. unfold encrypt_chacha.
  apply (tool_loop_spec 64 ltac:(lia) wc_Chacha_Process (fun x n => chacha_at x key iv (u32 n))).
  - intros x n d Hx Hn Hd. change (Z.of_nat 16) with 16 in *. change (Z.of_nat 64) with 64 in *. destruct (chacha_process x key iv _ d Hx) as (x' & -> & Hx'); [lia|]. do 2 eexists. split; [done|].
    rewrite zlen_bxor by (rewrite chacha_block_size; lia). split; [lia|]. split.
    + intros i Hi. rewrite at_bxor by (rewrite ?chacha_block_size; lia). unfold chacha_stream.
      destruct (block_position n 64 i) as [-> ->]; [lia|done].
    + intros Hfull. split; [done|]. specialize (Hx' Hfull). unfold u32 in *. by rewrite Z.add_mod_idemp_l in Hx'.
  - change (u32 0) with 0. apply chacha_set_iv; [apply chacha_set_key|done|lia].
Qed.

End Ciphers.

(** ** Tool and device *)

(** The build of the device for an option of the tool. *)
Inductive build_for {E : stream_api} {A : aes_laws E} {H : chacha_laws E} : Z -> forall C : crypto_api, crypto_laws C -> Prop :=
  | build_chacha : build_for ENC_CHACHA chacha_crypto chacha_crypto_laws
  | build_aes128 : build_for ENC_AES128 (aes_crypto 16) (aes_crypto_laws 16 (Pos2Z.is_nonneg 16))
  | build_aes256 : build_for ENC_AES256 (aes_crypto 32) (aes_crypto_laws 32 (Pos2Z.is_nonneg 32)).

(** [l] is stored at [base]. *)
Definition stored (m : mem) (base : Z) (l : list Z) : Prop := forall i, 0 <= i < zlen l -> m (base + i) = at_ l i.

Lemma cipher_reads {c : config} {C : crypto_api} {L : crypto_laws C} NVM_CACHE_SIZE ENCRYPT_KEY {Lay : enc_layout c C NVM_CACHE_SIZE}
    s k nonce signed out off n :
  ready ENCRYPT_KEY s k nonce -> fallback_iv_forced s = false -> encrypt_iv_offset s = 0 ->
  cipher_of (ks k nonce) signed out -> stored (ext_mem s) WOLFBOOT_PARTITION_UPDATE_ADDRESS out ->
  0 <= off -> 0 <= n -> off + n <= zlen signed -> WOLFBOOT_PARTITION_UPDATE_ADDRESS + off < enc_end ->
  exists s', ext_flash_decrypt_read ENCRYPT_KEY s (WOLFBOOT_PARTITION_UPDATE_ADDRESS + off) n = Ok (n, slice signed off n, s') /\
    ready ENCRYPT_KEY s' k nonce.
Proof.
  intros Hr Hforced Hoff [Hlen Hc] Hst H0 Hn Hl He.
  destruct (decrypt_read_spec NVM_CACHE_SIZE ENCRYPT_KEY s k nonce (WOLFBOOT_PARTITION_UPDATE_ADDRESS + off) n Hr) as (s' & -> & Ha & _);
    [by left|lia|lia|].
  exists s'. split; [|by eapply accessed_ready]. do 3 f_equal. unfold read_base. rewrite Hforced, Hoff.
  apply buf_ext; [rewrite mread_length, slice_length; lia|]. rewrite mread_length by lia. intros i Hi.
  rewrite mread_at, at_slice by lia. unfold view, mask. rewrite <- Z.add_assoc, Hst, Hc by lia.
  replace (0 * ENCRYPT_BLOCK_SIZE + (WOLFBOOT_PARTITION_UPDATE_ADDRESS + (off + i) - WOLFBOOT_PARTITION_UPDATE_ADDRESS)) with (off + i) by lia.
  apply lxor_cancel.
Qed.

Lemma key_file contents k n : bytes contents -> 0 <= k -> 0 <= n -> k + n <= zlen contents ->
  (zlen contents <? k) = false /\ (zlen (drop (Z.to_nat k) contents) <? n) = false /\
  zlen (take (Z.to_nat n) (drop (Z.to_nat k) contents)) = n /\ bytes (take (Z.to_nat n) (drop (Z.to_nat k) contents)).
Proof.
  intros Hb Hk Hn Hl. unfold zlen in *. rewrite length_take, length_drop. split; [apply Z.ltb_ge; lia|]. split; [apply Z.ltb_ge; lia|]. split; [lia|].
  by apply Forall_take, Forall_drop.
Qed.

(** The tool's output is the cipher text of the signed image. *)
Lemma tool_output {E : stream_api} {A : aes_laws E} {H : chacha_laws E}
    {C : crypto_api} {L : crypto_laws C} (cmd : cmd_options) (contents signed : list Z) :
  build_for (encrypt cmd) C L -> header_only cmd = false -> encrypt_key_file cmd = Some (Some contents) -> bytes contents ->
  ENCRYPT_KEY_SIZE + ENCRYPT_NONCE_SIZE <= zlen contents ->
  exists out, encrypt_output cmd signed = ret_ok (Some out) /\
    cipher_of (ks (slice contents 0 ENCRYPT_KEY_SIZE) (slice contents ENCRYPT_KEY_SIZE ENCRYPT_NONCE_SIZE)) signed out.
Proof.
  intros Hb Hho Hfile Hby. unfold encrypt_output. rewrite Hho, Hfile. destruct Hb; cbn -[Z.leb Z.ltb Z.add ks cipher_of encrypt_chacha encrypt_aes]; intros Hl.
  - destruct (key_file contents 32 12) as (-> & -> & Ln & _); [done|lia..|].
    destruct (encrypt_chacha_cipher (take (Z.to_nat 32) contents) _ signed Ln) as (out & -> & Hc). by exists out.
  - destruct (key_file contents 16 16) as (-> & -> & Ln & Hb); [done|lia..|].
    destruct (encrypt_aes_cipher (take (Z.to_nat 16) contents) _ signed Ln Hb) as (out & -> & Hc). by exists out.
  - destruct (key_file contents 32 16) as (-> & -> & Ln & Hb); [done|lia..|].
    destruct (encrypt_aes_cipher (take (Z.to_nat 32) contents) _ signed Ln Hb) as (out & -> & Hc). by exists out.
Qed.

(** C31: An image that the signing tool encrypts is the image that the device reads.
    For every key file and each of ChaCha20, AES-128 and AES-256, the tool's output
    stored in the update partition is decrypted by a device that holds the same key
    and nonce to the signed image, at any offset and length of the encrypted
    part. *)
Theorem encrypted_image_reads {E : stream_api} {A : aes_laws E} {H : chacha_laws E} {c : config}
    {C : crypto_api} {L : crypto_laws C} (cmd : cmd_options) (contents signed : list Z) NVM_CACHE_SIZE ENCRYPT_KEY :
  enc_layout c C NVM_CACHE_SIZE -> build_for (encrypt cmd) C L -> header_only cmd = false ->
  encrypt_key_file cmd = Some (Some contents) -> bytes contents -> ENCRYPT_KEY_SIZE + ENCRYPT_NONCE_SIZE <= zlen contents ->
  let key := slice contents 0 ENCRYPT_KEY_SIZE in
  let nonce := slice contents ENCRYPT_KEY_SIZE ENCRYPT_NONCE_SIZE in
  exists out, encrypt_output cmd signed = ret_ok (Some out) /\ zlen signed <= zlen out /\
    forall s off n, ready ENCRYPT_KEY s key nonce -> fallback_iv_forced s = false -> encrypt_iv_offset s = 0 ->
      stored (ext_mem s) WOLFBOOT_PARTITION_UPDATE_ADDRESS out ->
      0 <= off -> 0 <= n -> off + n <= zlen signed -> WOLFBOOT_PARTITION_UPDATE_ADDRESS + off < enc_end ->
      exists s', ext_flash_decrypt_read ENCRYPT_KEY s (WOLFBOOT_PARTITION_UPDATE_ADDRESS + off) n = Ok (n, slice signed off n, s').
Proof.
  intros Lay Hb Hho Hfile Hby Hlen key nonce.
  destruct (tool_output cmd contents signed Hb Hho Hfile Hby Hlen) as (out & -> & Hc).
  exists out. split; [done|]. split; [apply Hc|]. intros s off n Hr Hf Ho Hst H0 Hn Hl He.
  destruct (cipher_reads NVM_CACHE_SIZE ENCRYPT_KEY s key nonce signed out off n Hr Hf Ho Hc Hst H0 Hn Hl He) as (s' & -> & _). by exists s'.
Qed.
