(* ===== verification/EncryptSwap.v ===== *)
(** * EncryptSwap: exchanging a sector with the encrypted partition

    [enc_copy_sector] is [wolfBoot_copy_sector] of an encrypted build (src/update_flash.c), and likewise [enc_flash_*]: BOOT is
    internal flash in clear text, UPDATE and SWAP are external.  The sector of
    UPDATE is copied to SWAP as it is, BOOT is encrypted into UPDATE, and SWAP is
    decrypted into BOOT with the vector of the sector it came from.  Both flash
    memories are unlocked during an update.  The sector flags written between the
    copies are those of UpdateFlash.v. *)

From Stdlib Require Import ZArith Lia.
From stdpp Require Import prelude.
From S2P Require Import Prelude Flash Trailer Stream Encrypt EncryptIv EncryptSpec.

Local Open Scope Z_scope.

Section EncryptSwap.
Context {c : config} {C : crypto_api} (NVM_CACHE_SIZE ENCRYPT_KEY : Z).

Definition set_int (s : sys) (m : mem) : sys :=
  mkSys m (ext_mem s) (extFlashLocked s) (encrypt_initialized s) (encrypt_iv_offset s) (fallback_iv_forced s) (encrypt_iv_nonce s) (ctx s).

(** [img->hdr], and [PART_IS_EXT]. *)
Definition enc_part_base (part : Z) : Z :=
  if part =? PART_BOOT then WOLFBOOT_PARTITION_BOOT_ADDRESS else
  if part =? PART_UPDATE then WOLFBOOT_PARTITION_UPDATE_ADDRESS else WOLFBOOT_PARTITION_SWAP_ADDRESS.
Definition PART_IS_EXT (part : Z) : bool := negb (part =? PART_BOOT).

Definition ext_flash_erase (s : sys) (address len : Z) : Z * sys :=
  if extFlashLocked s then (-1, s) else (0, set_ext s (nor_erase (ext_mem s) address len)).

Definition enc_flash_erase (s : sys) (part off size : Z) : Z * sys :=
  if PART_IS_EXT part then ext_flash_erase s (enc_part_base part + off) size
  else (0, set_int s (nor_erase (int_mem s) (enc_part_base part + off) size)).

Definition enc_flash_write (s : sys) (part off : Z) (data : list Z) : outcome (Z * sys) :=
  if PART_IS_EXT part then ext_flash_encrypt_write NVM_CACHE_SIZE ENCRYPT_KEY s (enc_part_base part + off) data (zlen data)
  else Ok (0, set_int s (nor_write (int_mem s) (enc_part_base part + off) data)).

Definition wolfBoot_get_encrypt_key (s : sys) : list Z * list Z :=
  (mread (int_mem s) ENCRYPT_KEY ENCRYPT_KEY_SIZE, mread (int_mem s) (ENCRYPT_KEY + ENCRYPT_KEY_SIZE) ENCRYPT_NONCE_SIZE).

(** [FLASHBUFFER_SIZE] bytes of the source, or [None]. *)
Definition read_source (s : sys) (src dst off : Z) : outcome (option (list Z) * sys) :=
  if PART_IS_EXT src then
    if dst =? PART_SWAP then
      let '(r, buffer) := ext_flash_read s (enc_part_base src + off) FLASHBUFFER_SIZE in
      Ok (if negb (r =? FLASHBUFFER_SIZE) then None else Some buffer, s)
    else
      let! (r, buffer, s) := ext_flash_decrypt_read ENCRYPT_KEY s (enc_part_base src + off) FLASHBUFFER_SIZE in
      Ok (if negb (r =? FLASHBUFFER_SIZE) then None else Some buffer, s)
  else Ok (Some (mread (int_mem s) (enc_part_base src + off) FLASHBUFFER_SIZE), s).

Definition copy_buffers (s : sys) (src dst fw_size src_sector_offset dst_sector_offset : Z) : outcome (Z * sys) :=
  loop (S (Z.to_nat WOLFBOOT_SECTOR_SIZE)) (fun '(s, pos) =>
    if negb (pos <? WOLFBOOT_SECTOR_SIZE) then Ok (inr (pos, s)) else
    if u32 (src_sector_offset + pos) <? u32 (fw_size + IMAGE_HEADER_SIZE + FLASHBUFFER_SIZE) then
      let! (b, s) := read_source s src dst (src_sector_offset + pos) in
      match b with
      | None => Ok (inr (-1, s))
      | Some buffer =>
          let! (r, s) := enc_flash_write s dst (dst_sector_offset + pos) buffer in
          if r <? 0 then Ok (inr (-1, s)) else Ok (inl (s, pos + FLASHBUFFER_SIZE))
      end
    else Ok (inl (s, pos + FLASHBUFFER_SIZE))) (s, 0).

Definition enc_copy_sector (s : sys) (src dst fw_size sector : Z) : outcome (Z * sys) :=
  if src =? dst then Ok (0, s) else
  let src_sector_offset := if src =? PART_SWAP then 0 else u32 (sector * WOLFBOOT_SECTOR_SIZE) in
  let dst_sector_offset := if dst =? PART_SWAP then 0 else u32 (sector * WOLFBOOT_SECTOR_SIZE) in
  let '(r, s) := wolfBoot_initialize_encryption ENCRYPT_KEY s in
  if r <? 0 then Ok (-1, s) else
  let '(key, nonce) := wolfBoot_get_encrypt_key s in
  let iv_counter := (if src =? PART_SWAP then dst_sector_offset else src_sector_offset) / ENCRYPT_BLOCK_SIZE in
  let s := wolfBoot_crypto_set_iv s nonce iv_counter in
  let '(r, s) := enc_flash_erase s dst dst_sector_offset WOLFBOOT_SECTOR_SIZE in
  if r <? 0 then Ok (-1, s) else
  copy_buffers s src dst fw_size src_sector_offset dst_sector_offset.

(** The three copies of the swap, for a sector that has not been started. *)
Definition enc_swap_sector (s : sys) (boot_size update_size sector : Z) : outcome (Z * sys) :=
  let! (r, s) := enc_copy_sector s PART_UPDATE PART_SWAP update_size sector in
  if r <? 0 then Ok (r, s) else
  let '(prev_iv, s) := wolfBoot_enable_fallback_iv s true in
  let! (r, s) := enc_copy_sector s PART_BOOT PART_UPDATE boot_size sector in
  let '(_, s) := wolfBoot_enable_fallback_iv s (negb (prev_iv =? 0)) in
  if r <? 0 then Ok (r, s) else
  enc_copy_sector s PART_SWAP PART_BOOT WOLFBOOT_SECTOR_SIZE sector.

End EncryptSwap.
