(* ===== verification/EncryptSwapSpec.v ===== *)
(** * EncryptSwapSpec: a sector of BOOT and a sector of the encrypted UPDATE change places

    After the three copies BOOT holds the decrypted sector of the update and
    UPDATE the encrypted sector of BOOT.  The backup is encrypted with the key
    stream that had encrypted the update: the offset that should have separated them
    is used up before the first byte is written. *)

From Stdlib Require Import ZArith Lia.
From stdpp Require Import prelude.
From S2P Require Import Prelude Flash Trailer Stream Encrypt EncryptIv EncryptSpec EncryptSwap.

Local Open Scope Z_scope.

Class swap_layout (c : config) (C : crypto_api) : Prop := SwapLayout {
  sl_buffer : 0 < FLASHBUFFER_SIZE /\ (ENCRYPT_BLOCK_SIZE | FLASHBUFFER_SIZE);
  sl_sector : 0 < WOLFBOOT_SECTOR_SIZE /\ (FLASHBUFFER_SIZE | WOLFBOOT_SECTOR_SIZE);
  sl_swap : 0 <= WOLFBOOT_PARTITION_SWAP_ADDRESS /\ WOLFBOOT_PARTITION_SWAP_ADDRESS + WOLFBOOT_SECTOR_SIZE < 2 ^ 32;
  sl_aligned : (ENCRYPT_BLOCK_SIZE | WOLFBOOT_PARTITION_SWAP_ADDRESS);
  sl_apart : WOLFBOOT_PARTITION_UPDATE_ADDRESS + WOLFBOOT_PARTITION_SIZE <= WOLFBOOT_PARTITION_SWAP_ADDRESS \/
    WOLFBOOT_PARTITION_SWAP_ADDRESS + WOLFBOOT_SECTOR_SIZE <= WOLFBOOT_PARTITION_UPDATE_ADDRESS;
}.

Section EncryptSwapSpec.
Context {c : config} {C : crypto_api} {L : crypto_laws C} (NVM_CACHE_SIZE ENCRYPT_KEY : Z) {Lay : enc_layout c C NVM_CACHE_SIZE} {SL : swap_layout c C}.
Abbreviation B := ENCRYPT_BLOCK_SIZE.
Abbreviation U := WOLFBOOT_PARTITION_UPDATE_ADDRESS.
Abbreviation BOOT := WOLFBOOT_PARTITION_BOOT_ADDRESS.
Abbreviation SWAP := WOLFBOOT_PARTITION_SWAP_ADDRESS.
Abbreviation SECT := WOLFBOOT_SECTOR_SIZE.
Abbreviation BUF := FLASHBUFFER_SIZE.
Abbreviation wb_write := (enc_flash_write NVM_CACHE_SIZE ENCRYPT_KEY).
Abbreviation copy_sector := (enc_copy_sector NVM_CACHE_SIZE ENCRYPT_KEY).

(** ** The copy loop *)

Lemma copy_buffers_spec (I : sys -> Z -> Prop) s src dst fw_size so d :
  0 <= so -> so + SECT <= fw_size + IMAGE_HEADER_SIZE + BUF < 2 ^ 32 -> I s 0 ->
  (forall s pos, I s pos -> 0 <= pos -> pos + BUF <= SECT -> (B | pos) -> exists s1 buffer s2,
    read_source ENCRYPT_KEY s src dst (so + pos) = Ok (Some buffer, s1) /\ wb_write s1 dst (d + pos) buffer = Ok (0, s2) /\ I s2 (pos + BUF)) ->
  exists s', copy_buffers NVM_CACHE_SIZE ENCRYPT_KEY s src dst fw_size so d = Ok (SECT, s') /\ I s' SECT.
Proof.
  intros Hso Hfw HI Hstep. destruct sl_buffer as [HB1 HB2], sl_sector as [HS1 [q Hq]].
  enough (wp (copy_buffers NVM_CACHE_SIZE ENCRYPT_KEY s src dst fw_size so d) (fun r => exists s', r = (SECT, s') /\ I s' SECT))
    as (r & -> & s' & -> & Hs')%wp_inv by eauto.
  unfold copy_buffers. apply (wp_loop (fun '(s, pos) => I s pos /\ exists j, 0 <= j <= q /\ pos = j * BUF) (fun '(_, pos) => Z.to_nat (SECT - pos))).
  - intros [s1 pos] (H1 & j & Hj & ->). destruct (j * BUF <? SECT) eqn:E0; bools; cbn [negb].
    + assert (j < q) by nia. assert (j * BUF + BUF <= SECT) by nia. assert (0 <= j * BUF) by nia.
      rewrite (u32_small (so + j * BUF)), (u32_small (fw_size + _ + _)), (proj2 (Z.ltb_lt _ _)) by lia.
      destruct (Hstep s1 (j * BUF) H1) as (s2 & buffer & s3 & -> & Hw & H3); [lia|lia|by apply Z.divide_mul_r|].
      cbn [obind]. rewrite Hw. cbn [obind]. rewrite (proj2 (Z.ltb_ge 0 0)) by lia. cbn. split; [|lia]. split; [done|].
      exists (j + 1). split; [lia|]. lia.
    + cbn. assert (j = q) as -> by nia. rewrite <- Hq in *. by exists s1.
  - split; [done|]. exists 0. split; [nia|]. lia.
  - lia.
Qed.

(** ** Entering a copy *)

Definition keep (s s' : sys) (k nonce : list Z) : Prop := accessed s s' k nonce /\ extFlashLocked s' = false.

Record ready_swap (s : sys) (k nonce : list Z) : Prop := ReadySwap {
  rs_ready : ready ENCRYPT_KEY s k nonce;
  rs_nonce : snd (wolfBoot_get_encrypt_key ENCRYPT_KEY s) = nonce;
  rs_lock : extFlashLocked s = false;
  rs_int : mem_ok (int_mem s);
  rs_ext : mem_ok (ext_mem s);
}.

(** After the vector has been set, for the sector at [off] of UPDATE. *)
Lemma copy_enter s k nonce off : ready_swap s k nonce -> iv_base (encrypt_iv_offset s) -> 0 <= off -> U + off < enc_end -> (B | off) ->
  exists s1, wolfBoot_initialize_encryption ENCRYPT_KEY s = (0, s1) /\ snd (wolfBoot_get_encrypt_key ENCRYPT_KEY s1) = nonce /\
    let s2 := wolfBoot_crypto_set_iv s1 nonce (off / B) in
    keep s s2 k nonce /\ dec_at (ctx s2) k nonce (encrypt_iv_offset s + off / B) /\ ext_mem s2 = ext_mem s.
Proof.
  intros [Hr Hn Hl _ _] Hb H0 He Hd. destruct (init_ready ENCRYPT_KEY s k nonce Hr) as (s1 & Ei & I1 & I2 & I3 & I4 & I5 & I6 & I7 & I8).
  exists s1. split; [done|]. split; [unfold wolfBoot_get_encrypt_key in *; cbn in *; by rewrite I4|].
  pose proof Hr as [[Hz Hby] _].
  destruct (set_iv_address NVM_CACHE_SIZE s1 k nonce (encrypt_iv_offset s) (U + off) I2 Hz Hby Hb I7) as [Hx Hx']; [lia|].
  destruct (address_range NVM_CACHE_SIZE (U + off)) as (_ & _ & _ & _ & _ & Hu); [lia|].
  rewrite Hu in Hx, Hx'. replace (U + off - U) with off in * by lia.
  split; [split; [split; cbn; try done; by eapply enc_keyed|cbn; by rewrite I6]|]. split; [|done].
  unfold block_of in Hx'. by replace (U + off - U) with off in Hx' by lia.
Qed.

(** ** The three copies *)

Section Sector.
Context (k nonce : list Z) (sector so : Z).
Context (Hso : u32 (sector * SECT) = so) (Hal : (B | so)) (Hend : U + so + SECT <= enc_end).

Lemma so_pos : 0 <= so.
Proof. rewrite <- Hso. apply u32_range. Qed.

Lemma sect_pos : 0 < SECT.
Proof. apply sl_sector. Qed.

Lemma swap_part pos : 0 <= pos < SECT -> part_address (SWAP + pos) = PART_SWAP.
Proof.
  intros Hp. unfold part_address. destruct sl_apart as [Ha|Ha].
  - rewrite (proj2 (Z.ltb_ge _ (U + _))) by lia. rewrite andb_false_r, (proj2 (Z.leb_le _ _)), (proj2 (Z.ltb_lt _ _)) by lia. done.
  - rewrite (proj2 (Z.leb_gt U _)) by lia. cbn [andb]. rewrite (proj2 (Z.leb_le _ _)), (proj2 (Z.ltb_lt _ _)) by lia. done.
Qed.

Lemma keep_ext s s' m : keep s s' k nonce -> keep s (set_ext s' m) k nonce.
Proof. intros [[] ?]. split; [split|]; done. Qed.

(** The sector of UPDATE and SWAP do not overlap. *)
Lemma swap_apart : U + so + SECT <= SWAP \/ SWAP + SECT <= U + so.
Proof.
  pose proof so_pos. pose proof block_pos as HB.
  pose proof (el_flags (c := c) (C := C) (NVM_CACHE_SIZE := NVM_CACHE_SIZE)). unfold enc_end in Hend.
  pose proof (Z.mul_div_le (START_FLAGS_OFFSET - B) B HB). destruct sl_apart; lia.
Qed.

Lemma update_not_swap i : 0 <= i < SECT -> in_range SWAP SECT (U + so + i) = false.
Proof. intros Hi. apply in_range_false. pose proof swap_apart. lia. Qed.

Lemma swap_not_update i : 0 <= i < SECT -> in_range (U + so) SECT (SWAP + i) = false.
Proof. intros Hi. apply in_range_false. pose proof swap_apart. lia. Qed.

(** Raw copy of the update sector to SWAP. *)
Lemma copy_to_swap s update_size : ready_swap s k nonce -> iv_base (encrypt_iv_offset s) ->
  so + SECT <= update_size + IMAGE_HEADER_SIZE + BUF < 2 ^ 32 ->
  exists s', copy_sector s PART_UPDATE PART_SWAP update_size sector = Ok (SECT, s') /\ keep s s' k nonce /\
    forall a, ext_mem s' a = if in_range SWAP SECT a then ext_mem s (U + so + (a - SWAP)) else ext_mem s a.
Proof.
  intros Hr Hb Hfw. pose proof so_pos. pose proof sect_pos. pose proof (proj1 sl_buffer) as HBUF.
  destruct (copy_enter s k nonce so Hr Hb) as (s1 & Ei & En & [Hk Hl] & _ & He); [lia|lia|done|].
  unfold enc_copy_sector. change (PART_UPDATE =? PART_SWAP) with false. change (PART_SWAP =? PART_SWAP) with true. cbv iota.
  rewrite Hso, Ei. rewrite (proj2 (Z.ltb_ge 0 0)) by lia. destruct (wolfBoot_get_encrypt_key ENCRYPT_KEY s1) as [key nc]. cbn in En. subst nc.
  set (s2 := wolfBoot_crypto_set_iv s1 nonce (so / B)) in *. unfold enc_flash_erase. change (PART_IS_EXT PART_SWAP) with true. cbv iota.
  unfold ext_flash_erase. rewrite Hl. rewrite (proj2 (Z.ltb_ge 0 0)) by lia. change (enc_part_base PART_SWAP + 0) with (SWAP + 0). rewrite Z.add_0_r.
  destruct (copy_buffers_spec (fun s' pos => keep s s' k nonce /\ forall a, ext_mem s' a =
      if in_range SWAP pos a then ext_mem s (U + so + (a - SWAP)) else nor_erase (ext_mem s) SWAP SECT a)
    (set_ext s2 (nor_erase (ext_mem s2) SWAP SECT)) PART_UPDATE PART_SWAP update_size so 0) as (s' & -> & Hk' & Hm); [lia|done| | |].
  - split; [by apply keep_ext|]. intros a. cbn [ext_mem set_ext]. rewrite He. by rewrite (proj2 (in_range_false _ _ _)) by lia.
  - intros s3 pos [Hk3 Hm3] Hpos Hfit _. unfold read_source. change (PART_IS_EXT PART_UPDATE) with true. change (PART_SWAP =? PART_SWAP) with true.
    cbv iota. unfold ext_flash_read. rewrite Z.eqb_refl. cbn [negb]. change (enc_part_base PART_UPDATE) with U.
    set (buffer := mread (ext_mem s3) (U + (so + pos)) BUF). assert (zlen buffer = BUF) as Lb by (apply mread_length; lia).
    do 3 eexists. split; [done|]. unfold enc_flash_write. change (PART_IS_EXT PART_SWAP) with true. cbv iota. change (enc_part_base PART_SWAP) with SWAP.
    rewrite Z.add_0_l. unfold ext_flash_encrypt_write. rewrite Lb. rewrite (proj2 (Z.ltb_ge BUF 0)), (proj2 (Z.eqb_neq BUF 0)) by lia.
    rewrite swap_part by lia. change (PART_SWAP =? PART_UPDATE) with false. change (PART_SWAP =? PART_SWAP) with true. cbv iota.
    rewrite rd_bytes_ok by lia. rewrite <- Lb at 1. rewrite slice_full. cbn [obind]. unfold ext_flash_write. rewrite (proj2 Hk3).
    split; [done|]. split; [by apply keep_ext|]. intros a. cbn [ext_mem set_ext]. unfold ext_copy. rewrite Lb.
    destruct (in_range (SWAP + pos) BUF a) eqn:E1.
    + apply in_range_true in E1. rewrite (proj2 (in_range_true _ _ _)) by lia. unfold buffer. rewrite mread_at by lia.
      replace (U + (so + pos) + (a - (SWAP + pos))) with (U + so + (a - SWAP)) by lia.
      rewrite Hm3. assert (0 <= a - SWAP < SECT) as Hi by lia. pose proof (update_not_swap (a - SWAP) Hi) as Hno. apply in_range_false in Hno.
      rewrite (proj2 (in_range_false SWAP pos _)) by lia. unfold nor_erase. by rewrite (proj2 (in_range_false SWAP SECT _)) by lia.
    + apply in_range_false in E1. rewrite Hm3. destruct (in_range SWAP pos a) eqn:E2.
      * apply in_range_true in E2. by rewrite (proj2 (in_range_true _ _ _)) by lia.
      * apply in_range_false in E2. by rewrite (proj2 (in_range_false SWAP _ _)) by lia.
  - exists s'. split; [done|]. split; [done|]. intros a. rewrite Hm. destruct (in_range SWAP SECT a) eqn:E1; [done|]. unfold nor_erase. by rewrite E1.
Qed.

Lemma divide_zero n : (B | n) -> 0 <= n < B -> n = 0.
Proof. intros Hd Hn. rewrite <- (Z.mod_small n B) by done. apply Z.mod_divide; [lia|done]. Qed.

(** A write of whole blocks encrypts exactly the range. *)
Lemma encrypted_blocks m m' n0 address len data : (B | address - U) -> (B | len) ->
  encrypted m m' k nonce n0 address len data ->
  forall a, m' a = if in_range address len a then Z.lxor (at_ data (a - address)) (mask k nonce n0 a) else m a.
Proof.
  intros Ha Hl (p & Hp & Hdp & Hm) a. pose proof block_pos as HB.
  assert (address mod B = 0) as Hro.
  { apply Z.mod_divide; [lia|]. replace address with (address - U + U) by lia. apply Z.divide_add_r; [done|apply el_aligned]. }
  assert (p = address + len) as ->.
  { assert (p - (address + len) = 0); [|lia]. apply divide_zero; [|lia].
    replace (p - (address + len)) with (p - U - (address - U) - len) by lia. apply Z.divide_sub_r; [by apply Z.divide_sub_r|done]. }
  rewrite Hm, Hro. rewrite Z.sub_0_r. replace (address + len - address) with len by lia. unfold source. by destruct (in_range address len a).
Qed.

Lemma keep_trans s1 s2 s3 : keep s1 s2 k nonce -> accessed s2 s3 k nonce -> keep s1 s3 k nonce.
Proof. intros [[] ?] []. split; [split|]; congruence. Qed.

(** BOOT encrypted into UPDATE: with the plain vector, whatever offset was set. *)
Lemma copy_to_update s boot_size : ready_swap s k nonce -> iv_base (encrypt_iv_offset s) ->
  so + SECT <= boot_size + IMAGE_HEADER_SIZE + BUF < 2 ^ 32 ->
  exists s', copy_sector s PART_BOOT PART_UPDATE boot_size sector = Ok (SECT, s') /\ keep s s' k nonce /\
    forall a, ext_mem s' a = if in_range (U + so) SECT a then Z.lxor (int_mem s (BOOT + so + (a - (U + so)))) (mask k nonce 0 a) else ext_mem s a.
Proof.
  intros Hr Hb Hfw. pose proof so_pos. pose proof sect_pos. destruct sl_buffer as [HBUF HBd].
  destruct (copy_enter s k nonce so Hr Hb) as (s1 & Ei & En & [Hk Hl] & _ & He); [lia|lia|done|].
  unfold enc_copy_sector. change (PART_BOOT =? PART_UPDATE) with false. change (PART_BOOT =? PART_SWAP) with false.
  change (PART_UPDATE =? PART_SWAP) with false. cbv iota.
  rewrite Hso, Ei. rewrite (proj2 (Z.ltb_ge 0 0)) by lia. destruct (wolfBoot_get_encrypt_key ENCRYPT_KEY s1) as [key nc]. cbn in En. subst nc.
  set (s2 := wolfBoot_crypto_set_iv s1 nonce (so / B)) in *. unfold enc_flash_erase. change (PART_IS_EXT PART_UPDATE) with true. cbv iota.
  unfold ext_flash_erase. rewrite Hl. rewrite (proj2 (Z.ltb_ge 0 0)) by lia. change (enc_part_base PART_UPDATE) with U.
  destruct (copy_buffers_spec (fun s' pos => keep s s' k nonce /\ forall a, ext_mem s' a =
      if in_range (U + so) pos a then Z.lxor (int_mem s (BOOT + so + (a - (U + so)))) (mask k nonce 0 a) else nor_erase (ext_mem s) (U + so) SECT a)
    (set_ext s2 (nor_erase (ext_mem s2) (U + so) SECT)) PART_BOOT PART_UPDATE boot_size so so) as (s' & -> & Hk' & Hm); [lia|done| | |].
  - split; [by apply keep_ext|]. intros a. cbn [ext_mem set_ext]. rewrite He. by rewrite (proj2 (in_range_false _ _ _)) by lia.
  - intros s3 pos [Hk3 Hm3] Hpos Hfit Hdp. unfold read_source. change (PART_IS_EXT PART_BOOT) with false. cbv iota. change (enc_part_base PART_BOOT) with BOOT.
    set (buffer := mread (int_mem s3) (BOOT + (so + pos)) BUF). assert (zlen buffer = BUF) as Lb by (apply mread_length; lia).
    pose proof Hk3 as [[Hi3 _ _ Ho3 _ _ _] Hl3].
    destruct (encrypt_write_spec NVM_CACHE_SIZE ENCRYPT_KEY s3 k nonce (U + (so + pos)) buffer BUF) as (s4 & Ew & Ha4 & Hm4).
    + eapply accessed_ready; [apply Hr|apply Hk3].
    + done.
    + by left.
    + lia.
    + lia.
    + rewrite Ho3 in Hm4. exists s3, buffer, s4. split; [done|]. unfold enc_flash_write. change (PART_IS_EXT PART_UPDATE) with true. cbv iota.
      change (enc_part_base PART_UPDATE) with U. rewrite Lb. split; [done|]. split; [by eapply keep_trans|]. intros a.
      rewrite (encrypted_blocks _ _ _ _ _ _ ltac:(replace (U + (so + pos) - U) with (so + pos) by lia; by apply Z.divide_add_r) HBd Hm4).
      destruct (in_range (U + (so + pos)) BUF a) eqn:E1.
      * apply in_range_true in E1. rewrite (proj2 (in_range_true _ _ _)) by lia. unfold buffer. rewrite mread_at by lia. rewrite Hi3. do 2 f_equal. lia.
      * apply in_range_false in E1. rewrite Hm3. destruct (in_range (U + so) pos a) eqn:E2.
        -- apply in_range_true in E2. by rewrite (proj2 (in_range_true _ _ _)) by lia.
        -- apply in_range_false in E2. by rewrite (proj2 (in_range_false (U + so) _ _)) by lia.
  - exists s'. split; [done|]. split; [done|]. intros a. rewrite Hm. destruct (in_range (U + so) SECT a) eqn:E1; [done|]. unfold nor_erase. by rewrite E1.
Qed.

(** ** SWAP decrypted into BOOT *)

(** A read of whole blocks outside the partition continues the key stream. *)
Lemma read_aligned s p n q : dec_at (ctx s) k nonce q -> 0 <= q -> 0 <= p < 2 ^ 32 -> (B | p) -> 0 <= n -> (B | n) ->
  exists x out, read_decrypted s p n = Ok (Some out, set_ctx s x) /\ zlen out = n /\ dec_at x k nonce (q + n / B) /\
    forall i, 0 <= i < n -> at_ out i = Z.lxor (ext_mem s (p + i)) (ks k nonce (q * B + i)).
Proof.
  intros Hx Hq Hp Hpd Hn [j Hj]. pose proof block_pos as HB. unfold read_decrypted.
  assert (p mod B = 0) as -> by (apply Z.mod_divide; [lia|done]). cbn [Z.eqb negb]. unfold read_rest, ext_flash_read.
  assert (n mod B = 0) as -> by (apply Z.mod_divide; [lia|by exists j]). rewrite Z.sub_0_r, Z.eqb_refl, Z.sub_diag. cbn [negb].
  assert (n / B = j) as -> by (rewrite Hj; apply Z.div_mul; lia). assert (0 <= j) by nia.
  assert (zlen (mread (ext_mem s) p n) = n) as Lm by (apply mread_length; lia).
  destruct (crypt_blocks_spec crypto_decrypt (fun x n => dec_at x k nonce n) k nonce (Z.to_nat j) (ctx s) (mread (ext_mem s) p n) 0 q)
    as (x & out & -> & Lo & Hx' & Hat); [by intros; apply decrypt_at|done|done|done|lia|].
  rewrite Z2Nat.id in Lo, Hx', Hat by lia. cbn [obind]. rewrite (proj2 (Z.ltb_ge 0 0)) by lia.
  exists x, out. split; [done|]. split; [lia|]. split; [done|]. intros i Hi. rewrite Hat, mread_at by lia. by rewrite Z.add_0_l.
Qed.

Lemma lxor_mem m a n0 : mem_ok m -> forall b, is_byte (Z.lxor (m a) (ks k nonce (n0 + b))).
Proof.
  intros Hm b. pose proof block_pos as HB. apply lxor_byte; [apply Hm|]. unfold ks. apply at_byte; [apply keystream_bytes|].
  rewrite keystream_size. apply Z.mod_pos_bound. lia.
Qed.

Lemma read_swap s pos q : dec_at (ctx s) k nonce q -> 0 <= q -> 0 <= pos -> pos + BUF <= SECT -> (B | pos) ->
  exists x out, ext_flash_decrypt_read ENCRYPT_KEY s (SWAP + pos) BUF = Ok (BUF, out, set_ctx s x) /\ zlen out = BUF /\
    dec_at x k nonce (q + BUF / B) /\ forall i, 0 <= i < BUF -> at_ out i = Z.lxor (ext_mem s (SWAP + pos + i)) (ks k nonce (q * B + i)).
Proof.
  intros Hx Hq Hpos Hfit Hd. destruct sl_swap as [HS0 HS1]. destruct sl_buffer as [HB0 HB1]. pose proof block_pos as HB.
  assert ((B | SWAP + pos)) as Hdp by (apply Z.divide_add_r; [apply sl_aligned|done]).
  assert ((SWAP + pos) mod B = 0) as Hmod by (apply Z.mod_divide; [lia|done]).
  unfold ext_flash_decrypt_read. rewrite Hmod, Z.sub_0_r, (u32_small (SWAP + pos)) by lia.
  rewrite swap_part by lia. change (PART_SWAP =? PART_UPDATE) with false. change (PART_SWAP =? PART_SWAP) with true. cbv iota.
  destruct (read_aligned s (SWAP + pos) BUF q Hx Hq) as (x & out & -> & Lo & Hx' & Hat); [lia|done|lia|done|].
  cbn [obind]. by exists x, out.
Qed.

(** SWAP decrypted into BOOT, with the vector of the sector of UPDATE. *)
Lemma copy_to_boot s : ready_swap s k nonce -> iv_base (encrypt_iv_offset s) -> SECT + IMAGE_HEADER_SIZE + BUF < 2 ^ 32 -> 0 <= IMAGE_HEADER_SIZE ->
  exists s', copy_sector s PART_SWAP PART_BOOT SECT sector = Ok (SECT, s') /\ ext_mem s' = ext_mem s /\
    forall a, int_mem s' a = if in_range (BOOT + so) SECT a
      then Z.lxor (ext_mem s (SWAP + (a - (BOOT + so)))) (mask k nonce (encrypt_iv_offset s) (U + so + (a - (BOOT + so)))) else int_mem s a.
Proof.
  intros Hr Hb Hfw Hh. pose proof so_pos. pose proof sect_pos. destruct sl_buffer as [HBUF HBd]. pose proof block_pos as HB.
  destruct (copy_enter s k nonce so Hr Hb) as (s1 & Ei & En & [Hk Hl] & Hx & He); [lia|lia|done|].
  unfold enc_copy_sector. change (PART_SWAP =? PART_BOOT) with false. change (PART_SWAP =? PART_SWAP) with true.
  change (PART_BOOT =? PART_SWAP) with false. cbv iota.
  rewrite Hso, Ei. rewrite (proj2 (Z.ltb_ge 0 0)) by lia. destruct (wolfBoot_get_encrypt_key ENCRYPT_KEY s1) as [key nc]. cbn in En. subst nc.
  set (s2 := wolfBoot_crypto_set_iv s1 nonce (so / B)) in *. unfold enc_flash_erase. change (PART_IS_EXT PART_BOOT) with false. cbv iota.
  rewrite (proj2 (Z.ltb_ge 0 0)) by lia. change (enc_part_base PART_BOOT) with BOOT.
  set (o := encrypt_iv_offset s) in *. set (q0 := o + so / B) in *.
  assert (0 <= q0) as Hq0 by (pose proof (Z.div_pos so B); destruct Hb as [Hb|Hb]; unfold q0; rewrite Hb; unfold FALLBACK_IV_OFFSET; lia).
  assert (Hmask : forall i, 0 <= i -> ks k nonce (q0 * B + i) = mask k nonce o (U + so + i)).
  { intros i Hi. rewrite <- mask_block by (try lia; by replace (U + so - U) with so by lia). unfold block_of. by replace (U + so - U) with so by lia. }
  destruct (copy_buffers_spec (fun s' pos => dec_at (ctx s') k nonce (q0 + pos / B) /\ ext_mem s' = ext_mem s /\ forall a, int_mem s' a =
      if in_range (BOOT + so) pos a then Z.lxor (ext_mem s (SWAP + (a - (BOOT + so)))) (mask k nonce o (U + so + (a - (BOOT + so))))
      else nor_erase (int_mem s) (BOOT + so) SECT a)
    (set_int s2 (nor_erase (int_mem s2) (BOOT + so) SECT)) PART_SWAP PART_BOOT SECT 0 so) as (s' & -> & _ & He' & Hm); [lia|lia| | |].
  - split; [rewrite Z.div_0_l, Z.add_0_r by lia; exact Hx|]. split; [exact He|]. intros a. cbn [int_mem set_int].
    rewrite (ac_int _ _ _ _ Hk). by rewrite (proj2 (in_range_false _ _ _)) by lia.
  - intros s3 pos (Hx3 & He3 & Hm3) Hpos Hfit Hdp. unfold read_source. change (PART_IS_EXT PART_SWAP) with true. change (PART_BOOT =? PART_SWAP) with false.
    cbv iota. change (enc_part_base PART_SWAP) with SWAP. rewrite Z.add_0_l.
    destruct (read_swap s3 pos (q0 + pos / B) Hx3) as (x & out & -> & Lo & Hx4 & Hat); [pose proof (Z.div_pos pos B); lia|lia|lia|done|].
    cbn [obind]. rewrite Z.eqb_refl. cbn [negb]. do 3 eexists. split; [done|].
    unfold enc_flash_write. change (PART_IS_EXT PART_BOOT) with false. cbv iota. split; [done|]. change (enc_part_base PART_BOOT) with BOOT.
    split; [|split; [exact He3|]].
    + cbn [ctx set_int set_ctx]. destruct HBd as [b Hb1], Hdp as [j Hj]. rewrite Hb1, Hj in Hx4 |- *.
      rewrite Z.div_mul in Hx4 by lia. rewrite <- Z.mul_add_distr_r, Z.div_mul by lia. rewrite Z.div_mul in Hx4 by lia.
      by replace (q0 + (j + b)) with (q0 + j + b) by lia.
    + intros a. cbn [int_mem set_int set_ctx]. unfold nor_write. rewrite Lo, Hm3.
      destruct (in_range (BOOT + (so + pos)) BUF a) eqn:E1.
      * apply in_range_true in E1. rewrite (proj2 (in_range_true _ (pos + BUF) _)), (proj2 (in_range_false _ pos _)) by lia.
        unfold nor_erase. rewrite (proj2 (in_range_true _ SECT _)) by lia. rewrite Hat by lia. rewrite He3.
        replace (SWAP + pos + (a - (BOOT + (so + pos)))) with (SWAP + (a - (BOOT + so))) by lia.
        destruct Hdp as [j Hj]. rewrite Hj, Z.div_mul by lia.
        replace ((q0 + j) * B + (a - (BOOT + (so + j * B)))) with (q0 * B + (a - (BOOT + so))) by lia. rewrite <- Hmask by lia.
        unfold FLASH_BYTE_ERASED. rewrite Z.land_comm. change 255 with (Z.ones 8). rewrite Z.land_ones by lia. apply Z.mod_small.
        exact (lxor_mem (ext_mem s) _ (q0 * B) (rs_ext _ _ _ Hr) _).
      * apply in_range_false in E1. destruct (in_range (BOOT + so) pos a) eqn:E2.
        -- apply in_range_true in E2. by rewrite (proj2 (in_range_true _ _ _)) by lia.
        -- apply in_range_false in E2. by rewrite (proj2 (in_range_false (BOOT + so) _ _)) by lia.
  - exists s'. split; [done|]. split; [done|]. intros a. rewrite Hm. destruct (in_range (BOOT + so) SECT a) eqn:E1; [done|]. unfold nor_erase. by rewrite E1.
Qed.

End Sector.

(** ** The swap of one sector *)

Lemma ready_swap_keep s s' k nonce : ready_swap s k nonce -> keep s s' k nonce -> mem_ok (ext_mem s') -> ready_swap s' k nonce.
Proof.
  intros [Hr Hn Hl Hi He] [Ha Hl'] Hm. pose proof (ac_int _ _ _ _ Ha) as Hint.
  split; [by eapply accessed_ready|unfold wolfBoot_get_encrypt_key in *; cbn in *; by rewrite Hint|done|by rewrite Hint|done].
Qed.

Lemma ready_swap_offset s k nonce o : ready_swap s k nonce -> ready_swap (set_offset s o) k nonce.
Proof. intros [[Hz Hk] Hn Hl Hi He]. split; [split; done|done|done|done|done]. Qed.

Lemma mask_byte k nonce n0 a : is_byte (mask k nonce n0 a).
Proof. unfold mask, ks. apply at_byte; [apply keystream_bytes|]. rewrite keystream_size. apply Z.mod_pos_bound, block_pos. Qed.

Record sector_fits (sector boot_size update_size : Z) : Prop := SectorFits {
  sf_sector : 0 <= sector /\ (B | WOLFBOOT_SECTOR_SIZE) /\ sector * SECT < 2 ^ 32;
  sf_end : U + (sector + 1) * SECT <= enc_end;
  sf_boot : (sector + 1) * SECT <= boot_size + IMAGE_HEADER_SIZE + BUF < 2 ^ 32;
  sf_update : (sector + 1) * SECT <= update_size + IMAGE_HEADER_SIZE + BUF < 2 ^ 32;
  sf_swap : SECT + IMAGE_HEADER_SIZE + BUF < 2 ^ 32 /\ 0 <= IMAGE_HEADER_SIZE;
}.

Lemma swap_sector_spec s k nonce sector boot_size update_size :
  ready_swap s k nonce -> encrypt_iv_offset s = 0 -> sector_fits sector boot_size update_size ->
  exists s', enc_swap_sector NVM_CACHE_SIZE ENCRYPT_KEY s boot_size update_size sector = Ok (SECT, s') /\
    (forall a, int_mem s' a = if in_range (BOOT + sector * SECT) SECT a
      then view (ext_mem s) k nonce 0 (a - BOOT + U) else int_mem s a) /\
    (forall a, in_range SWAP SECT a = false -> ext_mem s' a = if in_range (U + sector * SECT) SECT a
      then Z.lxor (int_mem s (a - U + BOOT)) (mask k nonce 0 a) else ext_mem s a).
Proof.
  intros Hr Ho [(H0 & Hd & Hlt) Hend Hbs Hus [Hsw Hih]]. pose proof sect_pos as HS.
  assert (u32 (sector * SECT) = sector * SECT) as Hso by (apply u32_small; nia). set (so := sector * SECT) in *.
  assert ((B | so)) as Hal by (by apply Z.divide_mul_r). replace ((sector + 1) * SECT) with (so + SECT) in * by (unfold so; lia).
  assert (U + so + SECT <= enc_end) as Hend' by lia. pose proof (so_pos sector so Hso) as Hso0.
  destruct (copy_to_swap k nonce sector so Hso Hal Hend' s update_size Hr) as (s1 & E1 & K1 & M1); [by left|lia|].
  assert (Hr1 : ready_swap s1 k nonce).
  { eapply ready_swap_keep; [done..|]. intros a. rewrite M1. destruct (in_range SWAP SECT a); apply (rs_ext _ _ _ Hr). }
  destruct (copy_to_update k nonce sector so Hso Hal Hend' (set_offset s1 FALLBACK_IV_OFFSET) boot_size) as (s2 & E2 & K2 & M2);
    [by apply ready_swap_offset|by right|lia|].
  cbn [ext_mem int_mem set_offset] in M2.
  assert (Hr2 : ready_swap s2 k nonce).
  { eapply ready_swap_keep; [by apply (ready_swap_offset s1)|done|]. intros a. rewrite M2.
    destruct (in_range (U + so) SECT a); [|apply (rs_ext _ _ _ Hr1)]. apply lxor_byte; [apply (rs_int _ _ _ Hr1)|apply mask_byte]. }
  destruct (copy_to_boot k nonce sector so Hso Hal Hend' (set_offset s2 0)) as (s3 & E3 & Hext & M3); [by apply ready_swap_offset|by left|done|done|].
  exists s3. unfold enc_swap_sector. rewrite E1. cbn [obind]. rewrite (proj2 (Z.ltb_ge SECT 0)) by lia.
  unfold wolfBoot_enable_fallback_iv. rewrite (ac_off _ _ _ _ (proj1 K1)). cbn [Z.eqb negb]. rewrite E2. cbn [obind].
  rewrite (proj2 (Z.ltb_ge SECT 0)) by lia. split; [exact E3|].
  pose proof (ac_int _ _ _ _ (proj1 K1)) as I1. pose proof (ac_int _ _ _ _ (proj1 K2)) as I2. cbn in I2. cbn [ext_mem int_mem set_offset encrypt_iv_offset] in M3, Hext.
  split; intros a.
  - rewrite M3, I2, I1. destruct (in_range (BOOT + so) SECT a) eqn:Ea; [|done]. apply in_range_true in Ea.
    assert (0 <= a - (BOOT + so) < SECT) as Hi by lia.
    rewrite M2, (swap_not_update sector so Hso Hend' _ Hi).
    rewrite M1, (proj2 (in_range_true _ _ _)) by lia. unfold view. f_equal; f_equal; lia.
  - intros Hns. rewrite Hext, M2. destruct (in_range (U + so) SECT a) eqn:Ea; [|by rewrite M1, Hns].
    f_equal. rewrite I1. f_equal. lia.
Qed.

(** C29: One round of the encrypted swap exchanges the images.  For a sector of the
    encrypted part that both images fill, in a normal update (no fallback offset set), the three copies succeed; afterwards the
    sector of BOOT is the decrypted sector of the update, the sector of UPDATE, seen
    through the key stream, is the sector that was in BOOT, and nothing else of
    either partition has changed (the sector of the SWAP area has).  The key stream of the backup is that of the plain
    vector: the alternate one that the code asks for is used up before the first write, see
    the next theorem. *)
Theorem encrypted_sector_swap s k nonce sector boot_size update_size :
  ready_swap s k nonce -> encrypt_iv_offset s = 0 -> sector_fits sector boot_size update_size ->
  exists s', enc_swap_sector NVM_CACHE_SIZE ENCRYPT_KEY s boot_size update_size sector = Ok (SECT, s') /\
    (forall i, 0 <= i < SECT ->
      int_mem s' (BOOT + sector * SECT + i) = view (ext_mem s) k nonce 0 (U + sector * SECT + i) /\
      view (ext_mem s') k nonce 0 (U + sector * SECT + i) = int_mem s (BOOT + sector * SECT + i)) /\
    (forall a, ~ (BOOT + sector * SECT <= a < BOOT + (sector + 1) * SECT) -> int_mem s' a = int_mem s a) /\
    (forall a, ~ (U + sector * SECT <= a < U + (sector + 1) * SECT) -> ~ (SWAP <= a < SWAP + SECT) -> ext_mem s' a = ext_mem s a).
Proof.
  intros Hr Ho Hf. destruct (swap_sector_spec s k nonce sector boot_size update_size Hr Ho Hf) as (s' & E & Hi & He).
  exists s'. split; [done|]. split; [|split].
  - intros i Hin. rewrite Hi, (proj2 (in_range_true _ _ _)) by lia. split; [f_equal; lia|].
    pose proof Hf as [(H0 & _ & Hlt) Hend _ _ _]. pose proof sect_pos.
    assert (u32 (sector * SECT) = sector * SECT) as Hso by (apply u32_small; nia).
    unfold view. rewrite He, (proj2 (in_range_true _ _ _)) by (lia || (apply (update_not_swap sector); [done|lia|done])).
    rewrite lxor_cancel. f_equal. lia.
  - intros a Ha. rewrite Hi, (proj2 (in_range_false _ _ _)) by lia. done.
  - intros a Ha Hs. rewrite He, (proj2 (in_range_false _ _ _)) by (lia || by apply in_range_false). done.
Qed.

(** C30: The backup reuses the key stream of the update.  The code sets the fallback
    offset for the copy from BOOT to UPDATE, so that the two images are encrypted
    differently; but [enc_copy_sector] sets the vector once itself, which uses
    the offset up, and every write that follows starts from the plain vector.  The
    cipher text of the backup and the cipher text of the update that was there
    before differ by exactly the xor of the two firmware images: one image in the
    clear gives the other. *)
Theorem swap_reuses_keystream s k nonce sector boot_size update_size i :
  ready_swap s k nonce -> encrypt_iv_offset s = 0 -> sector_fits sector boot_size update_size -> 0 <= i < SECT ->
  exists s', enc_swap_sector NVM_CACHE_SIZE ENCRYPT_KEY s boot_size update_size sector = Ok (SECT, s') /\
    let a := U + sector * SECT + i in
    Z.lxor (ext_mem s a) (ext_mem s' a) = Z.lxor (view (ext_mem s) k nonce 0 a) (int_mem s (BOOT + sector * SECT + i)).
Proof.
  intros Hr Ho Hf Hi. destruct (swap_sector_spec s k nonce sector boot_size update_size Hr Ho Hf) as (s' & E & _ & He).
  exists s'. split; [done|]. pose proof Hf as [(H0 & _ & Hlt) Hend _ _ _]. pose proof sect_pos.
  assert (u32 (sector * SECT) = sector * SECT) as Hso by (apply u32_small; nia). cbn zeta. set (a := U + sector * SECT + i).
  rewrite He, (proj2 (in_range_true _ _ _)) by (unfold a; lia || (apply (update_not_swap sector); [done|lia|done])).
  unfold view. replace (a - U + BOOT) with (BOOT + sector * SECT + i) by (unfold a; lia).
  rewrite !Z.lxor_assoc. f_equal. apply Z.lxor_comm.
Qed.

End EncryptSwapSpec.
