(* ===== verification/EncryptExample.v ===== *)
(** * EncryptExample: a small device, and the theorems of the encrypted partition applied to it

    Sectors of 64 bytes, partitions of eight sectors, AES with a key of 16 bytes
    over the small cipher of Stream.v. *)

From Stdlib Require Import ZArith Lia.
From stdpp Require Import prelude.
From S2P Require Import Prelude Flash Trailer Image DeltaUpdate Stream Sign Encrypt EncryptIv EncryptSpec EncryptKey EncryptRam EncryptTool EncryptSwap EncryptSwapSpec.

Local Open Scope Z_scope.

Module ExampleEncrypt.
Import ToyStream.

#[export] Instance small_cfg : config := {|
  WOLFBOOT_SECTOR_SIZE := 64;
  WOLFBOOT_PARTITION_SIZE := 512;
  WOLFBOOT_PARTITION_BOOT_ADDRESS := 0x1000;
  WOLFBOOT_PARTITION_UPDATE_ADDRESS := 0x2000;
  WOLFBOOT_PARTITION_SWAP_ADDRESS := 0x3000;
  IMAGE_HEADER_SIZE := 256;
  FLASHBUFFER_SIZE := 32;
|}.

#[export] Instance small_aes : crypto_api := aes_crypto (E := toy_stream) 16.
#[export] Instance small_laws : crypto_laws small_aes := aes_crypto_laws 16 (Pos2Z.is_nonneg 16).

#[export] Instance small_layout : enc_layout small_cfg small_aes 64.
Proof. split; [split; done|exists 512; done|split; done|done|done]. Qed.

#[export] Instance small_swap : swap_layout small_cfg small_aes.
Proof.
  split; [split; [done|exists 2; done]|split; [done|exists 2; done]|split; done|exists 768; done|left; done].
Qed.

#[export] Instance small_key : key_layout (c := small_cfg) (C := small_aes).
Proof. split; [exists 6; done|exists 64; done|exists 8; done|split_and!; done]. Qed.

#[export] Instance small_ram : ram_layout (c := small_cfg) (C := small_aes) None.
Proof. split; [split_and!; done|exists 32; done|exists 16; done]. Qed.

(** A build with [WOLFBOOT_RAMBOOT_MAX_SIZE]. *)
#[export] Instance small_ram_max : ram_layout (c := small_cfg) (C := small_aes) (Some 64).
Proof. split; [split_and!; done|exists 20; done|exists 16; done]. Qed.

Definition the_key : list Z := seqZ 1 16.
Definition the_nonce : list Z := seqZ 100 16.

Lemma small_bytes a n : 0 <= a -> a + n <= 256 -> bytes (seqZ a n).
Proof. intros H1 H2. apply Forall_seqZ. unfold is_byte. intros x Hx. lia. Qed.

(** BOOT holds a pattern and, at its end, the key; UPDATE and SWAP another one. *)
Definition boot_mem : mem := fun a =>
  if in_range key_address 32 a then at_ (the_key ++ the_nonce) (a - key_address) else u8 (a + 5).
Definition flash_mem : mem := fun a => u8 (3 * a).
Definition dev : sys := mkSys boot_mem flash_mem false false 0 false [] crypto_zeroed.

Lemma dev_ready : ready key_address dev the_key the_nonce.
Proof. split; [split; [done|by apply small_bytes]|]. split; [done|split; done]. Qed.

Lemma boot_mem_ok : mem_ok boot_mem.
Proof.
  intros a. unfold boot_mem. destruct (in_range _ _ a) eqn:E; [|apply u8_range]. apply in_range_true in E.
  apply at_byte; [by apply Forall_app_2; apply small_bytes|]. change (zlen (the_key ++ the_nonce)) with 32. lia.
Qed.

Lemma dev_ready_swap : ready_swap key_address dev the_key the_nonce.
Proof. split; [exact dev_ready|done|done|exact boot_mem_ok|intros a; apply u8_range]. Qed.

Definition message : list Z := seqZ 40 20.

End ExampleEncrypt.

Import ExampleEncrypt.

(** Twenty bytes written in the middle of a block, seven of them read back. *)
Lemma encrypted_roundtrip_witness : exists s1 s2,
  ext_flash_encrypt_write 64 key_address dev 0x2005 message 20 = Ok (0, s1) /\
  ext_flash_decrypt_read key_address s1 0x2009 7 = Ok (7, slice message 4 7, s2).
Proof.
  destruct (encrypted_roundtrip 64 key_address dev the_key the_nonce 0x2005 message 20 0x2009 7) as (s1 & s2 & E1 & E2 & _).
  - exact dev_ready.
  - done.
  - done.
  - done.
  - done.
  - done.
  - done.
  - done.
  - by exists s1, s2.
Defined.

Lemma partial_write_neighbours_witness : exists s1 s2,
  ext_flash_encrypt_write 64 key_address dev 0x2005 message 20 = Ok (0, s1) /\
  ext_flash_decrypt_read key_address s1 0x2003 1 = Ok (1, [flash_mem 0x2003], s2).
Proof.
  apply (partial_write_neighbours 64 key_address dev the_key the_nonce 0x2005 message 20 0x2003).
  - exact dev_ready.
  - done.
  - done.
  - done.
  - done.
  - done.
  - lia.
  - by left.
Defined.

(** Two writes inside one block: the second destroys the first. *)
Example two_writes_one_block :
  match ext_flash_encrypt_write 64 key_address dev 0x2000 (seqZ 1 8) 8 with
  | Ok (0, s1) =>
      match ext_flash_encrypt_write 64 key_address s1 0x2008 (seqZ 9 8) 8 with
      | Ok (0, s2) =>
          match ext_flash_decrypt_read key_address s2 0x2000 16 with
          | Ok (16, out, _) => bool_decide (slice out 8 8 = seqZ 9 8) && negb (bool_decide (slice out 0 8 = seqZ 1 8))
          | _ => false
          end
      | _ => false
      end
  | _ => false
  end = true.
Proof. vm_compute. reflexivity. Qed.

Lemma encrypted_sector_swap_witness : exists s',
  enc_swap_sector 64 key_address dev 600 600 2 = Ok (WOLFBOOT_SECTOR_SIZE, s') /\
  int_mem s' (WOLFBOOT_PARTITION_BOOT_ADDRESS + 2 * WOLFBOOT_SECTOR_SIZE + 5) =
    view (ext_mem dev) the_key the_nonce 0 (WOLFBOOT_PARTITION_UPDATE_ADDRESS + 2 * WOLFBOOT_SECTOR_SIZE + 5).
Proof.
  destruct (encrypted_sector_swap 64 key_address dev the_key the_nonce 2 600 600) as (s' & E & Hi & _).
  - exact dev_ready_swap.
  - done.
  - split; [split; [done|split; [exists 4; done|done]]|done|split; done|split; done|split; done].
  - exists s'. split; [exact E|]. apply Hi. clear. change (0 <= 5 < 64). lia.
Defined.

Lemma swap_reuses_keystream_witness : exists s',
  enc_swap_sector 64 key_address dev 600 600 2 = Ok (WOLFBOOT_SECTOR_SIZE, s') /\
  let a := WOLFBOOT_PARTITION_UPDATE_ADDRESS + 2 * WOLFBOOT_SECTOR_SIZE + 5 in
  Z.lxor (ext_mem dev a) (ext_mem s' a) =
    Z.lxor (view (ext_mem dev) the_key the_nonce 0 a) (int_mem dev (WOLFBOOT_PARTITION_BOOT_ADDRESS + 2 * WOLFBOOT_SECTOR_SIZE + 5)).
Proof.
  apply (swap_reuses_keystream 64 key_address dev the_key the_nonce 2 600 600 5).
  - exact dev_ready_swap.
  - done.
  - split; [split; [done|split; [exists 4; done|done]]|done|split; done|split; done|split; done].
  - done.
Defined.

Lemma encrypt_key_lifecycle_witness : exists s1 s2,
  run (wolfBoot_set_encrypt_key the_key the_nonce) (mkFlash boot_mem true) = (inl 0, s1) /\
  run wolfBoot_erase_encrypt_key s1 = (inl 0, s2).
Proof.
  destruct (encrypt_key_lifecycle 64 (mkFlash boot_mem true) the_key the_nonce) as (s1 & s2 & E1 & E2 & _).
  - exact boot_mem_ok.
  - by apply small_bytes.
  - by apply small_bytes.
  - done.
  - done.
  - done.
  - by exists s1, s2.
Defined.

(** ** An image encrypted by the tool *)

Module ExampleEncryptTool.

Definition enc_options : cmd_options :=
  mkCmd false false false false false ENC_AES128 HDR_SHA256 SIGN_ED25519 false 0 false false false
    [55] None None (Some (Some (the_key ++ the_nonce))) None None false 256 64 0 0 1 [].

Definition cipher_text : list Z := match encrypt_output (E := ToyStream.toy_stream) enc_options message with inl (Some out) => out | _ => [] end.

Definition loaded_dev : sys :=
  mkSys boot_mem (fun a => at_ cipher_text (a - 0x2000)) false false 0 false [] crypto_zeroed.

Lemma loaded_ready : ready key_address loaded_dev (slice (the_key ++ the_nonce) 0 ENCRYPT_KEY_SIZE) (slice (the_key ++ the_nonce) ENCRYPT_KEY_SIZE ENCRYPT_NONCE_SIZE).
Proof. split; [split; [reflexivity|exact (small_bytes 100 16 ltac:(lia) ltac:(lia))]|]. split_and!; vm_compute; reflexivity. Qed.

Lemma key_file_bytes : bytes (the_key ++ the_nonce).
Proof. by apply Forall_app_2; apply small_bytes. Qed.

End ExampleEncryptTool.

Import ExampleEncryptTool.

Lemma encrypted_image_reads_witness : exists s',
  ext_flash_decrypt_read key_address loaded_dev (WOLFBOOT_PARTITION_UPDATE_ADDRESS + 3) 9 = Ok (9, slice message 3 9, s').
Proof.
  destruct (encrypted_image_reads (A := ToyStream.toy_aes_laws) (H := ToyStream.toy_chacha_laws)
    enc_options (the_key ++ the_nonce) message 64 key_address) as (out & E & _ & Hr).
  - exact small_layout.
  - exact build_aes128.
  - reflexivity.
  - reflexivity.
  - exact key_file_bytes.
  - vm_compute. congruence.
  - assert (cipher_text = out) as Ho by (unfold cipher_text; rewrite E; reflexivity).
    apply Hr; [exact loaded_ready|reflexivity|reflexivity| |lia|lia|vm_compute; congruence|vm_compute; reflexivity].
    intros i Hi. cbn [ext_mem loaded_dev]. rewrite Ho. f_equal. cbn. lia.
Defined.

(** ** An encrypted image in memory, with a payload of 20 bytes *)

Module ExampleEncryptRam.

Definition ram_image : list Z := le32_bytes WOLFBOOT_MAGIC ++ le32_bytes 20 ++ replicate 248 0 ++ seqZ 40 32.
Definition ram_cipher : list Z := (fun i => Z.lxor (at_ ram_image i) (ks the_key the_nonce i)) <$> seqZ 0 288.
Definition ram_mem : mem := fun a => if in_range 0x8000 288 a then at_ ram_cipher (a - 0x8000) else boot_mem a.
Definition ram_dev : sys := set_mem dev ram_mem.

Lemma ram_dev_ready : ready key_address ram_dev the_key the_nonce.
Proof. split; [split; [done|by apply small_bytes]|]. split_and!; vm_compute; reflexivity. Qed.

Lemma ram_mem_ok : mem_ok ram_mem.
Proof.
  assert (forallb (fun b => (0 <=? b) && (b <? 256)) ram_cipher = true) as H by (vm_compute; reflexivity).
  intros a. unfold ram_mem. destruct (in_range _ _ a) eqn:E; [|apply boot_mem_ok]. apply in_range_true in E.
  apply at_byte; [|change (zlen ram_cipher) with 288; lia].
  apply Forall_forall. intros b Hb%list_elem_of_In. rewrite forallb_forall in H. specialize (H b Hb). unfold is_byte. lia.
Qed.

(** What the run leaves at the destination. *)
Lemma ram_run : match wolfBoot_ram_decrypt key_address (Some 64) ram_dev 0x8000 0x9000 (replicate 256 0) with
  | Ok (r, s') => bool_decide (r = 0) && bool_decide (mread (int_mem s') (0x9000 + 256) 20 = seqZ 40 20)
  | _ => false end = true.
Proof. vm_compute. reflexivity. Qed.

End ExampleEncryptRam.

Import ExampleEncryptRam.

(** The image is decrypted to the destination, 288 bytes, and nothing else is
    written. *)
Lemma ram_decrypt_bounded_witness : exists s', wolfBoot_ram_decrypt key_address (Some 64) ram_dev 0x8000 0x9000 (replicate 256 0) = Ok (0, s') /\
  mread (int_mem s') (0x9000 + 256) 20 = seqZ 40 20 /\
  forall a, ~ (0x9000 <= a < 0x9120) -> int_mem s' a = int_mem ram_dev a.
Proof.
  destruct (ram_decrypt_bounded (C := small_aes) key_address (Some 64) the_key the_nonce) with (s := ram_dev) (src := 0x8000) (dst := 0x9000) (dec_hdr := replicate 256 0)
    as (r & s' & E & H).
  - reflexivity.
  - exact (small_bytes 100 16 ltac:(lia) ltac:(lia)).
  - exact ram_dev_ready.
  - reflexivity.
  - reflexivity.
  - exact ram_mem_ok.
  - left. cbn. lia.
  - pose proof ram_run as R. rewrite E in R. apply andb_true_iff in R as [R1 R2].
    apply bool_decide_eq_true in R1. apply bool_decide_eq_true in R2. subst r.
    exists s'. split; [exact E|]. split; [exact R2|]. clear E R2. intros a Ha.
    destruct H as [[H0 _]|(_ & len & n & [q Hq] & Hn & _ & Hl & H)]; [discriminate|].
    assert (len = 20) as -> by (rewrite Hl; vm_compute; reflexivity).
    rewrite H. change IMAGE_HEADER_SIZE with 256 in Hn. change ENCRYPT_BLOCK_SIZE with 16 in *.
    by rewrite (proj2 (in_range_false _ _ _)) by lia.
Defined.
