(* ===== verification/Elf.v ===== *)
(** * Elf: the ELF loader (src/elf.c, include/elf.h)

    [elf_load_image_mmu] on a flat memory: the ELF image is a buffer of
    [image_sz] bytes at [image], segments are moved to their virtual addresses in
    the same memory, so an image may overwrite itself.  Pointers have [W] bits
    (32 or 64); the build reads fields in the byte order of the machine, which is
    little-endian here.  [ph_cache] is the address of the stack buffer for the
    program headers; the callback that maps a segment is a parameter. *)

From Stdlib Require Import ZArith Lia.
From stdpp Require Import prelude.
From S2P Require Import Prelude Flash.

Local Open Scope Z_scope.

Definition ELF_CLASS_32 : Z := 1.
Definition ELF_HET_EXEC : Z := 2.
Definition ELF_PT_LOAD : Z := 1.
Definition ELF_MAX_PH : Z := 8.
Definition ELF_IDENT_STR : list Z := [0x7F; 69; 76; 70].

(** Sizes of the structures. *)
Definition elf32_header_size : Z := 52.
Definition elf64_header_size : Z := 64.
Definition elf32_program_header_size : Z := 32.
Definition elf64_program_header_size : Z := 56.

(** The number of [length l] little-endian bytes. *)
Fixpoint le_value (l : list Z) : Z :=
  match l with [] => 0 | b :: l => b + 256 * le_value l end.

(** Fields of the headers: offset and size, by class. *)
Definition h_type (is_elf32 : bool) : Z * Z := (16, 2).
Definition h_entry (is_elf32 : bool) : Z * Z := if is_elf32 then (24, 4) else (24, 8).
Definition h_ph_offset (is_elf32 : bool) : Z * Z := if is_elf32 then (28, 4) else (32, 8).
Definition h_ph_entry_size (is_elf32 : bool) : Z * Z := if is_elf32 then (42, 2) else (54, 2).
Definition h_ph_entry_count (is_elf32 : bool) : Z * Z := if is_elf32 then (44, 2) else (56, 2).
Definition e_type (is_elf32 : bool) : Z * Z := (0, 4).
Definition e_offset (is_elf32 : bool) : Z * Z := if is_elf32 then (4, 4) else (8, 8).
Definition e_vaddr (is_elf32 : bool) : Z * Z := if is_elf32 then (8, 4) else (16, 8).
Definition e_paddr (is_elf32 : bool) : Z * Z := if is_elf32 then (12, 4) else (24, 8).
Definition e_file_size (is_elf32 : bool) : Z * Z := if is_elf32 then (16, 4) else (32, 8).
Definition e_mem_size (is_elf32 : bool) : Z * Z := if is_elf32 then (20, 4) else (40, 8).

Section Elf.
Context (W image image_sz ph_cache : Z) (mmu_cb : option (Z -> Z -> Z -> Z)).

Definition uptr (x : Z) : Z := x mod 2 ^ W.

(** Reads of the image. *)
Definition image_get (m : mem) (off n : Z) : outcome Z :=
  if (0 <=? off) && (off + n <=? image_sz) then Ok (le_value (mread m (image + off) n)) else Oob.

Definition GET_H (m : mem) (f : Z * Z) : outcome Z := image_get m (fst f) (snd f).

(** Where the program headers are read: the copy on the stack, of which only the
    bytes copied are defined, or the image. *)
Inductive ph_source : Type :=
  | InCache (l : list Z)
  | InImage (off : Z).

Definition GET_E (m : mem) (s : ph_source) (ptr : Z) (f : Z * Z) : outcome Z :=
  match s with
  | InCache l => let! b := rd_bytes l (ptr + fst f) (snd f) in Ok (le_value b)
  | InImage off => image_get m (off + ptr + fst f) (snd f)
  end.

Definition entry_off (s : ph_source) : Z :=
  match s with InCache _ => ph_cache | InImage off => image + off end.

(** A program header, in pointers of the machine; [vaddr64] and [mem_size64] are
    the values of the file. *)
Record segment : Type := mkSegment {
  p_type : Z;
  p_paddr : Z;
  p_vaddr : Z;
  p_mem_size : Z;
  p_offset : Z;
  p_file_size : Z;
  p_vaddr64 : Z;
  p_mem_size64 : Z;
}.

Definition read_segment (m : mem) (s : ph_source) (is_elf32 : bool) (ptr : Z) : outcome segment :=
  let! type := GET_E m s ptr (e_type is_elf32) in
  let! paddr := GET_E m s ptr (e_paddr is_elf32) in
  let! vaddr := GET_E m s ptr (e_vaddr is_elf32) in
  let! mem_size := GET_E m s ptr (e_mem_size is_elf32) in
  let! offset := GET_E m s ptr (e_offset is_elf32) in
  let! file_size := GET_E m s ptr (e_file_size is_elf32) in
  Ok (mkSegment type (uptr paddr) (uptr vaddr) (uptr mem_size) (uptr offset) (uptr file_size) vaddr mem_size).

(** [memmove] and [memset] on addresses. *)
Definition mem_move (m : mem) (dst src n : Z) : mem := fun a => if in_range dst n a then m (src + (a - dst)) else m a.
Definition mem_zero (m : mem) (dst n : Z) : mem := fun a => if in_range dst n a then 0 else m a.

Definition copy_segment (m : mem) (p : segment) : mem :=
  let m := mem_move m (p_vaddr p) (image + p_offset p) (p_file_size p) in
  if p_file_size p <? p_mem_size p
  then mem_zero m (p_vaddr p + p_file_size p) (p_mem_size p - p_file_size p) else m.

(** Header [i] of [count]: the memory afterwards, or the error returned. *)
Definition load_segment (m : mem) (s : ph_source) (is_elf32 : bool) (entry_size entry_count i : Z) : outcome (mem + Z) :=
  let! p := read_segment m s is_elf32 (i * entry_size) in
  if negb (p_type p =? ELF_PT_LOAD) || (p_mem_size p =? 0) then Ok (inl m) else
  if (0 <? p_file_size p) && ((image_sz <=? p_offset p) || (image_sz - p_offset p <? p_file_size p)) then Ok (inr (-4)) else
  if u64 (2 ^ W - 1 - p_mem_size64 p) <? p_vaddr64 p then Ok (inr (-5)) else
  if match mmu_cb with Some cb => negb (cb (p_vaddr p) (p_paddr p) (u32 (p_mem_size p)) =? 0) | None => false end
  then Ok (inl m) else
  if (entry_count <=? i + 1) || (p_vaddr p + p_mem_size p <=? entry_off s + (i + 1) * entry_size) ||
     (entry_off s + entry_count * entry_size <? p_vaddr p)
  then Ok (inl (copy_segment m p)) else Ok (inr (-5)).

(** Headers [i], [i + 1], ... *)
Fixpoint load_segments (n : nat) (m : mem) (s : ph_source) (is_elf32 : bool) (entry_size entry_count i : Z)
    : outcome (mem * option Z) :=
  match n with
  | O => Ok (m, None)
  | S n =>
      let! r := load_segment m s is_elf32 entry_size entry_count i in
      match r with
      | inl m => load_segments n m s is_elf32 entry_size entry_count (i + 1)
      | inr e => Ok (m, Some e)
      end
  end.

(** The value returned, the memory, and [*pentry] when it is set. *)
Definition elf_load_image_mmu (m : mem) : outcome (Z * mem * option Z) :=
  if image_sz <? elf32_header_size then Ok (-1, m, None) else
  if negb (bool_decide (mread m image 4 = ELF_IDENT_STR)) then Ok (-1, m, None) else
  let is_elf32 := m (image + 4) =? ELF_CLASS_32 in
  if negb is_elf32 && (image_sz <? elf64_header_size) then Ok (-1, m, None) else
  let! type := GET_H m (h_type is_elf32) in
  if negb (type =? ELF_HET_EXEC) then Ok (-2, m, None) else
  let! ph_offset := GET_H m (h_ph_offset is_elf32) in
  let ph_offset := u32 ph_offset in
  let! entry_size := GET_H m (h_ph_entry_size is_elf32) in
  let! entry_count := GET_H m (h_ph_entry_count is_elf32) in
  if (image_sz <=? ph_offset) || (entry_size =? 0) || (image_sz / entry_size <? entry_count) ||
     (image_sz - ph_offset <? u32 (entry_count * entry_size))
  then Ok (-3, m, None) else
  let ph_table_sz := u32 (entry_count * entry_size) in
  let s := if (entry_count <=? ELF_MAX_PH) && (ph_table_sz <=? ELF_MAX_PH * elf64_program_header_size)
           then InCache (mread m (image + ph_offset) ph_table_sz) else InImage ph_offset in
  let! (m, e) := load_segments (Z.to_nat entry_count) m s is_elf32 entry_size entry_count 0 in
  match e with
  | Some e => Ok (e, m, None)
  | None =>
      let! entry := GET_H m (h_entry is_elf32) in
      Ok (0, m, Some (uptr entry))
  end.

(** ** Opening an ELF image in flash *)

(** [elf_open] with the check of [WOLFBOOT_ELF_FLASH_SCATTER]: status and class. *)
Definition check_scatter_format (m : mem) (ehdr : Z) (is_elf32 : bool) : Z :=
  if is_elf32 then if negb (le_value (mread m (ehdr + 28) 4) =? elf32_header_size) then -1 else 0
  else if negb (le_value (mread m (ehdr + 32) 8) =? elf64_header_size) then -1 else 0.

Definition elf_open (m : mem) (ehdr : Z) : Z * option bool :=
  if negb (bool_decide (mread m ehdr 4 = ELF_IDENT_STR)) then (-1, None) else
  let is_elf32 := m (ehdr + 4) =? ELF_CLASS_32 in
  (check_scatter_format m ehdr is_elf32, Some is_elf32).

Definition elf_hdr_pht_combined_size (m : mem) (ehdr : Z) : Z :=
  match elf_open m ehdr with
  | (0, Some true) => elf32_header_size + le_value (mread m (ehdr + 44) 2) * elf32_program_header_size
  | (0, Some false) => elf64_header_size + le_value (mread m (ehdr + 56) 2) * elf64_program_header_size
  | _ => -1
  end.

End Elf.
