(* ===== verification/ElfSpec.v ===== *)
(** * ElfSpec: loading an ELF image

    A reference loader places every loadable segment of the file as it was
    received; [elf_load_image_mmu] does the same and returns the entry point of
    the file, when segments do not overlap the image.  When they do, the
    program headers are safe in their cache, but the entry point is read after
    the segments have been moved. *)

From Stdlib Require Import ZArith Lia.
From stdpp Require Import prelude.
From S2P Require Import Prelude Flash Elf.

Local Open Scope Z_scope.

Section ElfSpec.
Context (W image image_sz ph_cache : Z) (mmu_cb : option (Z -> Z -> Z -> Z)) (HW : 0 < W <= 64).
Abbreviation read_segment := (read_segment W image image_sz).
Abbreviation load := (elf_load_image_mmu W image image_sz ph_cache mmu_cb).

Definition ph_size (is_elf32 : bool) : Z := if is_elf32 then elf32_program_header_size else elf64_program_header_size.

(** Where the loader reads the program headers of the image in [m]. *)
Definition table_of (m : mem) (off entry_size entry_count : Z) : ph_source :=
  if (entry_count <=? ELF_MAX_PH) && (entry_count * entry_size <=? ELF_MAX_PH * elf64_program_header_size)
  then InCache (mread m (image + off) (entry_count * entry_size)) else InImage off.

(** An executable image with [entry_count] program headers of [entry_size] bytes
    at [off]. *)
Record elf_file (m : mem) (is_elf32 : bool) (off entry_size entry_count entry : Z) : Prop := ElfFile {
  ef_ident : mread m image 4 = ELF_IDENT_STR;
  ef_class : (m (image + 4) =? ELF_CLASS_32) = is_elf32;
  ef_size : (if is_elf32 then elf32_header_size else elf64_header_size) <= image_sz < 2 ^ 32;
  ef_type : GET_H image image_sz m (h_type is_elf32) = Ok ELF_HET_EXEC;
  ef_off : GET_H image image_sz m (h_ph_offset is_elf32) = Ok off;
  ef_entry_size : GET_H image image_sz m (h_ph_entry_size is_elf32) = Ok entry_size;
  ef_count : GET_H image image_sz m (h_ph_entry_count is_elf32) = Ok entry_count;
  ef_entry : GET_H image image_sz m (h_entry is_elf32) = Ok entry;
  ef_table : 0 <= off < image_sz /\ ph_size is_elf32 <= entry_size < 2 ^ 16 /\ 0 <= entry_count < 2 ^ 16 /\
    entry_count * entry_size <= image_sz - off;
}.

Definition loadable (p : segment) : bool := (p_type p =? ELF_PT_LOAD) && negb (p_mem_size p =? 0).

(** The callback, if there is one, maps the segment. *)
Definition maps (p : segment) : bool :=
  match mmu_cb with Some cb => cb (p_vaddr p) (p_paddr p) (u32 (p_mem_size p)) =? 0 | None => true end.

(** [p] placed in memory [r], its bytes as they were in [m]; a segment that could not be
    mapped is left out. *)
Definition place (m r : mem) (p : segment) : mem := fun a =>
  if loadable p && maps p then
    if in_range (p_vaddr p) (p_file_size p) a then m (image + p_offset p + (a - p_vaddr p))
    else if in_range (p_vaddr p) (p_mem_size p) a then 0 else r a
  else r a.

(** Segments that the loader accepts and that leave the image and the headers
    alone. *)
Definition apart (p : segment) (start len : Z) : Prop := p_vaddr p + p_mem_size p <= start \/ start + len < p_vaddr p.
Record segment_ok (p : segment) : Prop := SegmentOk {
  sg_file : 0 <= p_offset p /\ 0 <= p_file_size p <= p_mem_size p /\
    (0 < p_file_size p -> p_offset p + p_file_size p <= image_sz);
  sg_range : 0 <= p_vaddr64 p /\ 0 <= p_mem_size64 p /\ p_vaddr64 p + p_mem_size64 p < 2 ^ W;
  sg_image : apart p image image_sz;
  sg_cache : apart p ph_cache (ELF_MAX_PH * elf64_program_header_size);
}.

(** Memories with the same image. *)
Definition same_image (m m' : mem) : Prop := forall a, image <= a < image + image_sz -> m' a = m a.

Lemma mread_same m m' off n : same_image m m' -> 0 <= off -> 0 <= n -> off + n <= image_sz ->
  mread m' (image + off) n = mread m (image + off) n.
Proof. intros Hs H0 H1 H2. apply mread_ext. intros i Hi. apply Hs. lia. Qed.

Lemma image_get_same m m' off n : same_image m m' -> 0 <= n -> image_get image image_sz m' off n = image_get image image_sz m off n.
Proof.
  intros Hs Hn. unfold image_get. destruct (_ && _) eqn:E; [|done]. bools. by rewrite (mread_same m m') by (done || lia).
Qed.

Lemma read_segment_same m m' s is_elf32 ptr : same_image m m' ->
  read_segment m' s is_elf32 ptr = read_segment m s is_elf32 ptr.
Proof.
  intros Hs. unfold Elf.read_segment, GET_E. destruct s as [l|off]; [done|].
  destruct is_elf32; cbn [e_type e_paddr e_vaddr e_mem_size e_offset e_file_size fst snd]; by rewrite !(image_get_same m m') by (done || lia).
Qed.

(** One accepted segment. *)
Lemma copy_place m r m' p : segment_ok p -> loadable p = true -> maps p = true -> same_image m m' -> (forall a, m' a = r a) ->
  (forall a, copy_segment image m' p a = place m r p a) /\ same_image m (copy_segment image m' p).
Proof.
  intros [(F1 & F2 & F3) _ Hi _] Hld Hmp Hs Hr.
  assert (forall a, copy_segment image m' p a = place m r p a) as Hc.
  { intros a. unfold copy_segment, place, mem_move, mem_zero. rewrite Hld, Hmp. cbn [andb].
    assert (in_range (p_vaddr p) (p_file_size p) a = true -> m' (image + p_offset p + (a - p_vaddr p)) = m (image + p_offset p + (a - p_vaddr p))) as Hm.
    { intros Ha. apply in_range_true in Ha. apply Hs. lia. }
    destruct (Z.ltb_spec (p_file_size p) (p_mem_size p)).
    - destruct (in_range (p_vaddr p + p_file_size p) (p_mem_size p - p_file_size p) a) eqn:E1.
      + apply in_range_true in E1. rewrite (proj2 (in_range_false _ _ _)) by lia. by rewrite (proj2 (in_range_true _ _ _)) by lia.
      + apply in_range_false in E1. destruct (in_range (p_vaddr p) (p_file_size p) a) eqn:E2; [auto|].
        apply in_range_false in E2. by rewrite (proj2 (in_range_false _ _ _)) by lia.
    - destruct (in_range (p_vaddr p) (p_file_size p) a) eqn:E2; [auto|].
      apply in_range_false in E2. by rewrite (proj2 (in_range_false _ _ _)) by lia. }
  split; [done|]. intros a Ha. rewrite Hc. unfold place. rewrite Hld, Hmp. cbn [andb].
  unfold apart in Hi. rewrite !(proj2 (in_range_false _ _ _)) by lia. rewrite <- Hr. by apply Hs.
Qed.

Lemma skip_loadable p : negb (p_type p =? ELF_PT_LOAD) || (p_mem_size p =? 0) = negb (loadable p).
Proof. unfold loadable. by rewrite negb_andb, negb_involutive. Qed.

Lemma skip_unmapped p :
  match mmu_cb with Some cb => negb (cb (p_vaddr p) (p_paddr p) (u32 (p_mem_size p)) =? 0) | None => false end = negb (maps p).
Proof. unfold maps. by destruct mmu_cb. Qed.

(** The segments of an image. *)
Definition segments_of (m : mem) (s : ph_source) (is_elf32 : bool) (entry_size : Z) (i : Z) (ps : list segment) : Prop :=
  forall k p, ps !! k = Some p -> read_segment m s is_elf32 ((i + Z.of_nat k) * entry_size) = Ok p.

Lemma load_segments_ok m s is_elf32 entry_size entry_count :
  0 < entry_size -> 0 <= entry_count ->
  (s = InImage (entry_off image ph_cache s - image) /\ image <= entry_off image ph_cache s /\
     entry_off image ph_cache s + entry_count * entry_size <= image + image_sz \/
   exists l, s = InCache l /\ entry_count * entry_size <= ELF_MAX_PH * elf64_program_header_size) ->
  forall ps i m' r, 0 <= i -> i + zlen ps = entry_count -> segments_of m s is_elf32 entry_size i ps ->
  Forall (fun p => loadable p = true -> segment_ok p) ps -> same_image m m' -> (forall a, m' a = r a) ->
  exists m'', load_segments W image image_sz ph_cache mmu_cb (length ps) m' s is_elf32 entry_size entry_count i = Ok (m'', None) /\
    (forall a, m'' a = fold_left (place m) ps r a) /\ same_image m m''.
Proof.
  intros Hes Hec Hsrc ps. induction ps as [|p ps IH]; intros i m' r Hi Hlen Hrd Hok Hs Hr.
  { exists m'. done. }
  apply Forall_cons in Hok as [Hp Hok]. rewrite zlen_cons in Hlen. pose proof (zlen_nonneg ps).
  cbn [length load_segments fold_left]. unfold load_segment. rewrite (read_segment_same m m') by done.
  assert (read_segment m s is_elf32 (i * entry_size) = Ok p) as ->
    by (specialize (Hrd 0%nat p eq_refl); by replace (i + Z.of_nat 0) with i in Hrd by lia).
  cbn [obind]. assert (segments_of m s is_elf32 entry_size (i + 1) ps) as Hrd'.
  { intros k q Hk. specialize (Hrd (S k) q Hk). by replace (i + 1 + Z.of_nat k) with (i + Z.of_nat (S k)) by lia. }
  rewrite skip_loadable. destruct (loadable p) eqn:Hld; cycle 1.
  { cbn [negb obind]. apply IH; try done; [lia|lia|]. intros a. rewrite Hr. unfold place. by rewrite Hld. }
  cbn [negb]. specialize (Hp eq_refl). pose proof Hp as [(F1 & F2 & F3) (R1 & R2 & R3) Ai Ac].
  replace ((0 <? p_file_size p) && _) with false; cycle 1.
  { symmetry. apply andb_false_iff. destruct (Z.ltb_spec 0 (p_file_size p)) as [E1|]; [right|by left]. specialize (F3 E1).
    apply orb_false_iff. rewrite Z.leb_gt, Z.ltb_ge. lia. }
  replace (u64 (2 ^ W - 1 - p_mem_size64 p) <? p_vaddr64 p) with false; cycle 1.
  { symmetry. apply Z.ltb_ge. assert (2 ^ W <= 2 ^ 64) by (apply Z.pow_le_mono_r; lia). rewrite u64_small by lia. lia. }
  rewrite skip_unmapped. destruct (maps p) eqn:Hmp; cycle 1.
  { cbn [negb obind]. apply IH; try done; [lia|lia|]. intros a. rewrite Hr. unfold place. by rewrite Hld, Hmp. }
  cbn [negb]. replace ((entry_count <=? i + 1) || _ || _) with true; cycle 1.
  { symmetry. rewrite !orb_true_iff, !Z.leb_le, Z.ltb_lt. destruct Hsrc as [(Hs1 & Hs2 & Hs3)|(l & -> & Hl)].
    - unfold apart in Ai. nia.
    - cbn [entry_off] in *. unfold apart in Ac. nia. }
  cbn [obind].
  destruct (copy_place m r m' p Hp Hld Hmp Hs Hr) as [Hc1 Hc2].
  apply IH; try done; lia.
Qed.

Lemma image_get_ok m o n : 0 <= o -> 0 <= n -> o + n <= image_sz -> exists v, image_get image image_sz m o n = Ok v.
Proof.
  intros H0 H1 H2. unfold image_get. replace (_ && _) with true by (symmetry; rewrite andb_true_iff, !Z.leb_le; lia). eauto.
Qed.

Lemma rd_bytes_in (l : list Z) o n : 0 <= o -> 0 <= n -> o + n <= zlen l -> exists b, rd_bytes l o n = Ok b.
Proof.
  intros H0 H1 H2. unfold rd_bytes. replace (_ && _) with true by (symmetry; rewrite !andb_true_iff, !Z.leb_le; lia). eauto.
Qed.

(** Every program header can be read. *)
Lemma segment_readable m is_elf32 off entry_size entry_count entry k :
  elf_file m is_elf32 off entry_size entry_count entry -> 0 <= k < entry_count ->
  exists p, read_segment m (table_of m off entry_size entry_count) is_elf32 (k * entry_size) = Ok p.
Proof.
  intros Hf Hk. destruct (ef_table _ _ _ _ _ _ Hf) as (T1 & T2 & T3 & T4).
  assert (0 <= k * entry_size /\ k * entry_size + entry_size <= entry_count * entry_size) as [K1 K2]
    by (unfold ph_size, elf32_program_header_size, elf64_program_header_size in T2; destruct is_elf32; nia).
  assert (forall o n, 0 <= o -> 0 <= n -> o + n <= ph_size is_elf32 ->
    exists v, GET_E image image_sz m (table_of m off entry_size entry_count) (k * entry_size) (o, n) = Ok v) as Hg.
  { intros o n Ho Hn Hon. unfold GET_E, table_of. cbn [fst snd]. destruct (_ && _).
    - destruct (rd_bytes_in (mread m (image + off) (entry_count * entry_size)) (k * entry_size + o) n) as [b ->];
        [lia|lia|rewrite mread_length; lia|]. cbn [obind]. eauto.
    - apply image_get_ok; lia. }
  unfold Elf.read_segment, e_type, e_paddr, e_vaddr, e_mem_size, e_offset, e_file_size, ph_size, elf32_program_header_size,
    elf64_program_header_size in *.
  destruct is_elf32.
  - destruct (Hg 0 4 ltac:(lia) ltac:(lia) ltac:(lia)) as [? ->], (Hg 12 4 ltac:(lia) ltac:(lia) ltac:(lia)) as [? ->],
      (Hg 8 4 ltac:(lia) ltac:(lia) ltac:(lia)) as [? ->], (Hg 20 4 ltac:(lia) ltac:(lia) ltac:(lia)) as [? ->],
      (Hg 4 4 ltac:(lia) ltac:(lia) ltac:(lia)) as [? ->], (Hg 16 4 ltac:(lia) ltac:(lia) ltac:(lia)) as [? ->].
    cbn [obind]. eauto.
  - destruct (Hg 0 4 ltac:(lia) ltac:(lia) ltac:(lia)) as [? ->], (Hg 24 8 ltac:(lia) ltac:(lia) ltac:(lia)) as [? ->],
      (Hg 16 8 ltac:(lia) ltac:(lia) ltac:(lia)) as [? ->], (Hg 40 8 ltac:(lia) ltac:(lia) ltac:(lia)) as [? ->],
      (Hg 8 8 ltac:(lia) ltac:(lia) ltac:(lia)) as [? ->], (Hg 32 8 ltac:(lia) ltac:(lia) ltac:(lia)) as [? ->].
    cbn [obind]. eauto.
Qed.

(** The loader up to its loop. *)
Lemma elf_load_enter m is_elf32 off entry_size entry_count entry :
  elf_file m is_elf32 off entry_size entry_count entry ->
  load m =
    let! (m', e) := load_segments W image image_sz ph_cache mmu_cb (Z.to_nat entry_count) m
                      (table_of m off entry_size entry_count) is_elf32 entry_size entry_count 0 in
    match e with
    | Some e => Ok (e, m', None)
    | None => let! entry := GET_H image image_sz m' (h_entry is_elf32) in Ok (0, m', Some (uptr W entry))
    end.
Proof.
  intros [H1 H2 H3 H4 H5 H6 H7 H8 (T1 & T2 & T3 & T4)]. unfold elf_load_image_mmu.
  assert (elf32_header_size <= image_sz /\ (is_elf32 = false -> elf64_header_size <= image_sz)) as [S1 S2]
    by (unfold elf32_header_size, elf64_header_size in *; destruct is_elf32; split; (lia || done)).
  destruct (Z.ltb_spec image_sz elf32_header_size); [lia|]. rewrite H1, bool_decide_true, H2 by done. cbn [negb].
  replace (negb is_elf32 && (image_sz <? elf64_header_size)) with false
    by (destruct is_elf32; [done|]; symmetry; apply Z.ltb_ge; auto).
  rewrite H4. cbn [obind]. change (negb (ELF_HET_EXEC =? ELF_HET_EXEC)) with false. cbv iota. rewrite H5. cbn [obind].
  rewrite H6. cbn [obind]. rewrite H7. cbn [obind]. rewrite (u32_small off) by lia.
  assert (0 < entry_size) as Hes by (unfold ph_size, elf32_program_header_size, elf64_program_header_size in T2; destruct is_elf32; lia).
  rewrite (u32_small (entry_count * entry_size)) by nia.
  destruct (_ || _) eqn:Eg; [|done]. exfalso. rewrite !orb_true_iff, Z.leb_le, Z.eqb_eq, !Z.ltb_lt in Eg.
  assert (entry_count <= image_sz / entry_size) by (apply Z.div_le_lower_bound; nia). lia.
Qed.

(** C27: The ELF loader does what the file says.  For every executable of at most
    2^32 bytes whose program headers have the size of the structure, and whose
    segments lie inside it, fit the address space and stay clear of the image and
    of the headers, the loader returns 0, leaves in memory exactly what a loader
    reading from an untouched copy would (file bytes, zeroes up to the memory
    size, later segments over earlier ones, nothing else changed), and returns
    the entry point of the file.  Any number of program headers, cached or not, and
    with or without a callback that maps the segments: a segment that the callback
    refuses to map is not placed, and the loader returns 0 all the same. *)
Theorem elf_load_correct m is_elf32 off entry_size entry_count entry ps :
  elf_file m is_elf32 off entry_size entry_count entry ->
  zlen ps = entry_count -> segments_of m (table_of m off entry_size entry_count) is_elf32 entry_size 0 ps ->
  Forall (fun p => loadable p = true -> segment_ok p) ps ->
  exists m', load m = Ok (0, m', Some (uptr W entry)) /\ forall a, m' a = fold_left (place m) ps m a.
Proof.
  intros Hf Hlen Hrd Hok. rewrite (elf_load_enter _ _ _ _ _ _ Hf). destruct (ef_table _ _ _ _ _ _ Hf) as (T1 & T2 & T3 & T4).
  destruct (load_segments_ok m (table_of m off entry_size entry_count) is_elf32 entry_size entry_count) with (ps := ps) (i := 0) (m' := m) (r := m)
    as (m'' & E1 & E2 & E3); try done.
  - unfold ph_size, elf32_program_header_size, elf64_program_header_size in T2. destruct is_elf32; lia.
  - lia.
  - unfold table_of. destruct (_ && _) eqn:Et; [right|left; cbn [entry_off]; split_and!; [f_equal; lia|lia|lia]].
    eexists. split; [done|]. bools. lia.
  - rewrite <- Hlen. unfold zlen at 1. rewrite Nat2Z.id. rewrite Hlen, E1. cbn [obind].
    assert (GET_H image image_sz m'' (h_entry is_elf32) = Ok entry) as ->.
    { rewrite <- (ef_entry _ _ _ _ _ _ Hf). unfold GET_H. apply image_get_same; [done|]. destruct is_elf32; cbn; lia. }
    cbn [obind]. eauto.
Qed.

(** Loading in place corrupts the entry point.  The program headers are cached
    so that an image may be loaded over itself, but the entry point is read from
    the image after its segments have been moved: when the only segment of an
    image covers its header, the loader returns 0 with an entry point made of the
    bytes of the segment, not the one of the file. *)
Theorem elf_entry_from_segment m is_elf32 off entry_size entry p :
  elf_file m is_elf32 off entry_size 1 entry ->
  read_segment m (table_of m off entry_size 1) is_elf32 0 = Ok p -> loadable p = true ->
  0 <= p_offset p -> 0 < p_file_size p -> p_mem_size p = p_file_size p -> p_offset p + p_file_size p <= image_sz ->
  0 <= p_vaddr64 p /\ 0 <= p_mem_size64 p /\ p_vaddr64 p + p_mem_size64 p < 2 ^ W ->
  maps p = true -> let '(o, n) := h_entry is_elf32 in
  p_vaddr p <= image + o -> image + o + n <= p_vaddr p + p_file_size p ->
  exists m', load m = Ok (0, m', Some (uptr W (le_value (mread m (image + p_offset p + (image + o - p_vaddr p)) n)))).
Proof.
  intros Hf Hrd Hld F1 F2 F3 F4 (R1 & R2 & R3) Hmp. destruct (h_entry is_elf32) as [o n] eqn:Eh. intros C1 C2.
  rewrite (elf_load_enter _ _ _ _ _ _ Hf). change (Z.to_nat 1) with 1%nat. cbn [load_segments]. unfold load_segment.
  change (0 * entry_size) with 0. rewrite Hrd. cbn [obind]. rewrite skip_loadable, Hld. cbn [negb].
  replace ((0 <? p_file_size p) && _) with false by (symmetry; apply andb_false_iff; right; apply orb_false_iff; rewrite Z.leb_gt, Z.ltb_ge; lia).
  replace (u64 (2 ^ W - 1 - p_mem_size64 p) <? p_vaddr64 p) with false
    by (symmetry; apply Z.ltb_ge; assert (2 ^ W <= 2 ^ 64) by (apply Z.pow_le_mono_r; lia); rewrite u64_small by lia; lia).
  rewrite skip_unmapped, Hmp. change (1 <=? 0 + 1) with true. cbn [negb orb obind]. unfold GET_H. rewrite Eh. cbn [fst snd].
  assert (o = 24 /\ 0 <= n <= 8 /\ o + n <= image_sz) as (E1 & E2 & E3).
  { pose proof (ef_size _ _ _ _ _ _ Hf) as Hs. unfold elf32_header_size, elf64_header_size in Hs. destruct is_elf32; injection Eh as <- <-; lia. }
  unfold image_get. replace (_ && _) with true by (symmetry; rewrite andb_true_iff, !Z.leb_le; lia). cbn [obind].
  eexists. do 3 f_equal. f_equal. f_equal. apply mread_ext. intros i Hi. unfold copy_segment, mem_move.
  destruct (Z.ltb_spec (p_file_size p) (p_mem_size p)); [lia|]. rewrite (proj2 (in_range_true _ _ _)) by lia. f_equal. lia.
Qed.

End ElfSpec.

(** ** Witnesses *)

Module ExampleElf.

(** A 32-bit image at 0x1000 with the program headers [phs] of [size] bytes and
    [data] at offset 128; entry point 0x1080. *)
Definition header (size count : Z) : list Z :=
  ELF_IDENT_STR ++ [1; 1; 1; 0] ++ replicate 8 0 ++ [2; 0; 3; 0] ++ le32_bytes 1 ++ le32_bytes 0x1080 ++
  le32_bytes 52 ++ le32_bytes 0 ++ le32_bytes 0 ++ [52; 0; size; 0; count; 0; 0; 0; 0; 0; 0; 0].
Definition ph (offset vaddr file_size mem_size : Z) : list Z :=
  le32_bytes 1 ++ le32_bytes offset ++ le32_bytes vaddr ++ le32_bytes vaddr ++ le32_bytes file_size ++
  le32_bytes mem_size ++ le32_bytes 5 ++ le32_bytes 4.
Definition elf (size count : Z) (phs data : list Z) : list Z :=
  let l := header size count ++ phs in l ++ replicate (128 - length l) 0 ++ data.

Definition code : list Z := seqZ 100 64.
Definition at_1000 (l : list Z) : mem := fun a => if in_range 0x1000 (zlen l) a then at_ l (a - 0x1000) else 0.
Definition run_elf (l : list Z) : outcome (Z * mem * option Z) := elf_load_image_mmu 32 0x1000 (zlen l) 0x8000 None (at_1000 l).

(** 64 bytes of code and 16 of zeroes to 0x2000. *)
Definition apart_elf : list Z := elf 32 1 (ph 128 0x2000 64 80) code.
(** The code over the image itself. *)
Definition inplace_elf : list Z := elf 32 1 (ph 128 0x1000 64 64) code.

Lemma apart_file : elf_file 0x1000 (zlen apart_elf) (at_1000 apart_elf) true 52 32 1 0x1080.
Proof.
  constructor; try (vm_compute; reflexivity).
  - split; [vm_compute; congruence|vm_compute; reflexivity].
  - split_and!; vm_compute; congruence.
Qed.
Lemma inplace_file : elf_file 0x1000 (zlen inplace_elf) (at_1000 inplace_elf) true 52 32 1 0x1080.
Proof.
  constructor; try (vm_compute; reflexivity).
  - split; [vm_compute; congruence|vm_compute; reflexivity].
  - split_and!; vm_compute; congruence.
Qed.

Definition apart_segment : segment := mkSegment 1 0x2000 0x2000 80 128 64 0x2000 80.
Definition inplace_segment : segment := mkSegment 1 0x1000 0x1000 64 128 64 0x1000 64.

End ExampleElf.
Import ExampleElf.

Lemma elf_load_correct_witness :
  exists m', elf_load_image_mmu 32 0x1000 (zlen apart_elf) 0x8000 (Some (fun _ _ _ => 0)) (at_1000 apart_elf) =
      Ok (0, m', Some 0x1080) /\
    mread m' 0x2000 80 = code ++ replicate 16 0 /\ mread m' 0x1000 4 = ELF_IDENT_STR.
Proof.
  destruct (elf_load_correct 32 0x1000 (zlen apart_elf) 0x8000 (Some (fun _ _ _ => 0)) ltac:(lia) (at_1000 apart_elf) true 52 32 1 0x1080 [apart_segment])
    as (m' & E1 & E2).
  - exact apart_file.
  - reflexivity.
  - intros k p Hk. destruct k as [|k]; [|destruct k; discriminate]. injection Hk as <-. vm_compute. reflexivity.
  - constructor; [|constructor]. intros _.
    constructor; [split_and!; vm_compute; congruence|split_and!; vm_compute; congruence|right; vm_compute; reflexivity|left; vm_compute; congruence].
  - exists m'. split; [exact E1|]. split; (erewrite mread_ext; [|intros i Hi; apply E2]); vm_compute; reflexivity.
Defined.

(** The entry point is 0x1080; the bytes 24 to 27 of the code are 124 to 127. *)
Lemma elf_entry_from_segment_witness : exists m', run_elf inplace_elf = Ok (0, m', Some 0x7F7E7D7C).
Proof.
  destruct (elf_entry_from_segment 32 0x1000 (zlen inplace_elf) 0x8000 None ltac:(lia) (at_1000 inplace_elf) true 52 32 0x1080 inplace_segment)
    as (m' & E1).
  - exact inplace_file.
  - vm_compute. reflexivity.
  - reflexivity.
  - vm_compute. congruence.
  - vm_compute. reflexivity.
  - reflexivity.
  - vm_compute. congruence.
  - split_and!; vm_compute; congruence.
  - reflexivity.
  - vm_compute. congruence.
  - vm_compute. congruence.
  - exists m'. exact E1.
Defined.

(** ** What the loader does not check *)

(** A segment whose mapping fails is left out, and the loader reports success with the
    entry point in it. *)
Theorem elf_unmapped_segment :
  elf_load_image_mmu 32 0x1000 (zlen apart_elf) 0x8000 (Some (fun _ _ _ => -1)) (at_1000 apart_elf) =
  Ok (0, at_1000 apart_elf, Some 0x1080).
Proof. vm_compute. reflexivity. Qed.

(** Program headers of one byte, too many for the cache: the loader reads behind
    the image. *)
Example elf_short_entries :
  elf_load_image_mmu 32 0x1000 140 0x8000 None (at_1000 (elf 1 80 [] (replicate 12 0))) = Oob.
Proof. vm_compute. reflexivity. Qed.

(** A segment with more bytes in the file than in memory is copied whole: the 64
    bytes reach behind the 4 announced. *)
Example elf_long_file_part :
  match run_elf (elf 32 1 (ph 128 0x2000 64 4) code) with Ok (r, m, _) => (r, mread m 0x2004 2) | _ => (-9, []) end = (0, [104; 105]).
Proof. vm_compute. reflexivity. Qed.
