(* ===== verification/Xmalloc.v ===== *)
(** * Xmalloc: the static allocator of wolfCrypt (src/xmalloc.c)

    With [WOLFBOOT_SMALL_STACK] wolfCrypt allocates from a table of static
    buffers, closed by an entry whose address is null.  [XMALLOC] takes the
    smallest free buffer that is large enough, [XFREE] gives it back. *)

From Stdlib Require Import ZArith Lia.
From stdpp Require Import prelude gmap.
From S2P Require Import Prelude.

Local Open Scope Z_scope.

Record xmalloc_slot : Type := mkSlot {
  addr : Z;
  size : Z;
  in_use : Z;
}.

(** [xmalloc_pool[i]]; reading behind the table is an error. *)
Definition slot_at (pool : list xmalloc_slot) (i : Z) : outcome xmalloc_slot :=
  if i <? 0 then Oob else match pool !! Z.to_nat i with Some s => Ok s | None => Oob end.

Definition set_in_use (s : xmalloc_slot) (v : Z) : xmalloc_slot := mkSlot (addr s) (size s) v.

(** The search of [XMALLOC], from entry [i] with the best entry so far; [l] is
    the rest of the table. *)
Fixpoint find_best (pool l : list xmalloc_slot) (n i best : Z) : outcome Z :=
  match l with
  | [] => Oob
  | s :: l =>
      if addr s =? 0 then Ok best else
      if (in_use s =? 0) && (n <=? size s) then
        if best <? 0 then find_best pool l n (i + 1) i else
        let! b := slot_at pool best in
        find_best pool l n (i + 1) (if size s <? size b then i else best)
      else find_best pool l n (i + 1) best
  end.

(** The pointer returned (0 is null) and the table. *)
Definition XMALLOC (pool : list xmalloc_slot) (n : Z) : outcome (Z * list xmalloc_slot) :=
  let! best := find_best pool pool n 0 (-1) in
  if 0 <=? best then
    let! s := slot_at pool best in
    Ok (addr s, <[Z.to_nat best := set_in_use s (u32 (in_use s + 1))]> pool)
  else Ok (0, pool).

Fixpoint XFREE (pool : list xmalloc_slot) (ptr : Z) : outcome (list xmalloc_slot) :=
  match pool with
  | [] => Oob
  | s :: l =>
      if addr s =? 0 then Ok pool else
      if (ptr =? addr s) && negb (in_use s =? 0) then Ok (set_in_use s 0 :: l) else
      let! l := XFREE l ptr in Ok (s :: l)
  end.
