(* ===== verification/XmallocSpec.v ===== *)
(** * XmallocSpec: what the static allocator promises wolfCrypt

    The abstract state is the list of live blocks, each a pointer and the size
    requested; a buffer handed out twice would be in it twice.  A client that frees
    only live blocks (or null) never gets two blocks that overlap, and a request
    fails only when every buffer without a live block is too small. *)

From Stdlib Require Import ZArith Lia.
From stdpp Require Import prelude gmap relations.
From S2P Require Import Prelude Xmalloc.

Local Open Scope Z_scope.

Definition null_slot : xmalloc_slot := mkSlot 0 0 0.

(** The buffers of a table: not null, not empty, apart from each other. *)
Definition apart (s t : xmalloc_slot) : Prop := addr s + size s <= addr t \/ addr t + size t <= addr s.
Record buffers (l : list xmalloc_slot) : Prop := Buffers {
  bf_some : Forall (fun s => 0 < addr s /\ 0 < size s) l;
  bf_apart : forall i j s t, l !! i = Some s -> l !! j = Some t -> i <> j -> apart s t;
}.

(** ** The search *)

Definition fits (n : Z) (s : xmalloc_slot) : Prop := in_use s = 0 /\ n <= size s.

Definition is_best (l : list xmalloc_slot) (n best : Z) : Prop :=
  best = -1 /\ Forall (fun s => ~ fits n s) l \/
  exists s, 0 <= best /\ l !! Z.to_nat best = Some s /\ fits n s /\
    forall t, t ∈ l -> fits n t -> size s <= size t.

Lemma is_best_app l n s best : is_best l n best -> ~ fits n s -> is_best (l ++ [s]) n best.
Proof.
  intros [[-> Hn]|(b & H0 & Hl & Hf & Hm)] Hs.
  - left. split; [done|]. apply Forall_app; auto.
  - right. exists b. split; [done|]. split; [by apply lookup_app_l_Some|]. split; [done|].
    intros t [Ht|Ht%list_elem_of_singleton]%elem_of_app Hft; [auto|by subst].
Qed.

Lemma is_best_last l n s best : is_best l n best -> fits n s -> (forall b, 0 <= best -> l !! Z.to_nat best = Some b -> size s < size b) ->
  is_best (l ++ [s]) n (zlen l).
Proof.
  intros Hb Hs Hlt. right. exists s. unfold zlen. rewrite Nat2Z.id.
  split; [lia|]. split; [by apply list_lookup_middle|]. split; [done|].
  intros t [Ht|Ht%list_elem_of_singleton]%elem_of_app Hft; [|by subst].
  destruct Hb as [[-> Hn]|(b & H0 & Hl & Hf & Hm)].
  - rewrite Forall_forall in Hn. exfalso. by eapply Hn.
  - specialize (Hlt b H0 Hl). specialize (Hm t Ht Hft). lia.
Qed.

Lemma is_best_keep l n s best b : is_best l n best -> 0 <= best -> l !! Z.to_nat best = Some b -> size b <= size s ->
  is_best (l ++ [s]) n best.
Proof.
  intros [[-> Hn]|(b' & H0 & Hl & Hf & Hm)] Hb Hlb Hs; [lia|]. assert (b' = b) as -> by congruence. right. exists b.
  split; [done|]. split; [by apply lookup_app_l_Some|]. split; [done|].
  intros t [Ht|Ht%list_elem_of_singleton]%elem_of_app Hft; [auto|by subst].
Qed.

Lemma find_best_spec l1 l2 n best : Forall (fun s => 0 < addr s) l2 -> is_best l1 n best ->
  exists b, find_best (l1 ++ l2 ++ [null_slot]) (l2 ++ [null_slot]) n (zlen l1) best = Ok b /\ is_best (l1 ++ l2) n b.
Proof.
  revert l1 best. induction l2 as [|s l2 IH]; intros l1 best Hf Hb.
  - exists best. by rewrite app_nil_r.
  - apply Forall_cons in Hf as [Ha Hf].
    assert (Hnext : forall b, is_best (l1 ++ [s]) n b -> exists b',
      find_best (l1 ++ (s :: l2) ++ [null_slot]) (l2 ++ [null_slot]) n (zlen l1 + 1) b = Ok b' /\ is_best (l1 ++ s :: l2) n b').
    { intros b Hb'. destruct (IH (l1 ++ [s]) b Hf Hb') as (b' & E & Hb''). exists b'.
      rewrite <- !app_assoc, zlen_app, zlen_cons, zlen_nil, Z.add_0_r in E. by rewrite <- app_assoc in Hb''. }
    cbn [app find_best]. rewrite (proj2 (Z.eqb_neq _ _)) by lia.
    destruct ((in_use s =? 0) && (n <=? size s)) eqn:Ef.
    + bools. assert (Hs : fits n s) by (split; lia).
      destruct (best <? 0) eqn:E0; bools; [apply Hnext, (is_best_last l1 n s best); [done|done|lia]|].
      assert (exists b, l1 !! Z.to_nat best = Some b) as [b Hlb].
      { destruct Hb as [[-> _]|(b & _ & Hl & _)]; [lia|eauto]. }
      unfold slot_at. rewrite (proj2 (Z.ltb_ge _ _)) by lia. rewrite (lookup_app_l_Some l1 _ _ b) by done. cbn [obind].
      destruct (size s <? size b) eqn:E1; bools; apply Hnext.
      * apply (is_best_last l1 n s best); [done|done|]. intros b' _ Hb'. simplify_eq. lia.
      * by apply (is_best_keep l1 n s best b).
    + apply Hnext, is_best_app; [done|]. intros [H1 H2]. rewrite H1, (proj2 (Z.leb_le _ _) H2) in Ef. done.
Qed.

(** [XMALLOC] takes the smallest free buffer that is large enough. *)
Lemma XMALLOC_spec l n : Forall (fun s => 0 < addr s) l -> Forall (fun s => 0 <= in_use s <= 1) l ->
  (XMALLOC (l ++ [null_slot]) n = Ok (0, l ++ [null_slot]) /\ Forall (fun s => ~ fits n s) l) \/
  exists i s, l !! i = Some s /\ fits n s /\ (forall t, t ∈ l -> fits n t -> size s <= size t) /\
    XMALLOC (l ++ [null_slot]) n = Ok (addr s, <[i := set_in_use s 1]> l ++ [null_slot]).
Proof.
  intros Hl Hu. unfold XMALLOC.
  destruct (find_best_spec [] l n (-1) Hl) as (b & E & Hb); [by left|].
  cbn [app zlen length Z.of_nat] in E, Hb. change (zlen []) with 0 in E. rewrite E. cbn [obind].
  destruct Hb as [[-> Hn]|(s & H0 & Hs & Hf & Hm)]; [by left|right]. exists (Z.to_nat b), s.
  split; [done|]. split; [done|]. split; [done|]. rewrite (proj2 (Z.leb_le _ _)) by lia.
  unfold slot_at. rewrite (proj2 (Z.ltb_ge _ _)) by lia. rewrite (lookup_app_l_Some l _ _ s) by done. cbn [obind].
  destruct Hf as [-> _]. change (u32 (0 + 1)) with 1. rewrite insert_app_l; [done|]. by eapply lookup_lt_Some.
Qed.

Lemma XFREE_hit l i s ptr : Forall (fun s => 0 < addr s) l -> l !! i = Some s -> addr s = ptr -> in_use s <> 0 ->
  (forall j t, (j < i)%nat -> l !! j = Some t -> addr t <> ptr) -> XFREE (l ++ [null_slot]) ptr = Ok (<[i := set_in_use s 0]> l ++ [null_slot]).
Proof.
  revert i. induction l as [|t l IH]; intros i Hf Hl Ha Hu Hj; [done|]. apply Forall_cons in Hf as [Ht Hf].
  cbn [app XFREE]. rewrite (proj2 (Z.eqb_neq _ _)) by lia. destruct i as [|i].
  - cbn in Hl. simplify_eq. rewrite Z.eqb_refl, (proj2 (Z.eqb_neq _ _) Hu). done.
  - specialize (Hj 0%nat t ltac:(lia) eq_refl) as Hne. rewrite (proj2 (Z.eqb_neq _ _)) by congruence. cbn [andb].
    rewrite (IH i); try done. intros j u Hlt Hju. apply (Hj (S j)); [lia|done].
Qed.

Lemma XFREE_miss l ptr : Forall (fun s => 0 < addr s) l -> (forall s, s ∈ l -> addr s = ptr -> in_use s = 0) ->
  XFREE (l ++ [null_slot]) ptr = Ok (l ++ [null_slot]).
Proof.
  induction l as [|t l IH]; intros Hf Hu; [done|]. apply Forall_cons in Hf as [Ht Hf].
  cbn [app XFREE]. rewrite (proj2 (Z.eqb_neq _ _)) by lia.
  destruct ((ptr =? addr t) && negb (in_use t =? 0)) eqn:E.
  - bools. specialize (Hu t ltac:(left) ltac:(lia)). lia.
  - rewrite IH; [done|done|]. intros s Hs. apply Hu. by right.
Qed.

(** ** A client and its live blocks *)

Inductive client_step : list (Z * Z) * list xmalloc_slot -> list (Z * Z) * list xmalloc_slot -> Prop :=
  | client_malloc live pool n p pool' : XMALLOC pool n = Ok (p, pool') -> p <> 0 ->
      client_step (live, pool) ((p, n) :: live, pool')
  | client_refused live pool n pool' : XMALLOC pool n = Ok (0, pool') -> client_step (live, pool) (live, pool')
  | client_free live1 live2 pool p n pool' : XFREE pool p = Ok pool' ->
      client_step (live1 ++ (p, n) :: live2, pool) (live1 ++ live2, pool')
  | client_free_null live pool pool' : XFREE pool 0 = Ok pool' -> client_step (live, pool) (live, pool').

Definition all_free (l : list xmalloc_slot) : Prop := Forall (fun s => in_use s = 0) l.

(** The table holds the buffers of [l0], and those in use are the live blocks. *)
Record consistent (l0 : list xmalloc_slot) (live : gmap Z Z) (l : list xmalloc_slot) : Prop := Consistent {
  co_table : Forall2 (fun s t => addr s = addr t /\ size s = size t) l0 l;
  co_flag : Forall (fun s => 0 <= in_use s <= 1) l;
  co_used : forall s, s ∈ l -> in_use s = 1 -> exists n, live !! addr s = Some n /\ n <= size s;
  co_live : forall p n, live !! p = Some n -> exists s, s ∈ l /\ addr s = p /\ in_use s = 1;
}.

Lemma elem_of_update (l : list xmalloc_slot) i s s' t : l !! i = Some s ->
  t ∈ <[i := s']> l <-> t = s' \/ exists j, j <> i /\ l !! j = Some t.
Proof.
  intros Hi. rewrite list_elem_of_lookup. pose proof (lookup_lt_Some _ _ _ Hi) as Hlt. split.
  - intros [j Hj]. apply list_lookup_insert_Some in Hj as [(-> & -> & _)|[Hne Hj]]; eauto.
  - intros [->|(j & Hne & Hj)]; [exists i; by rewrite list_lookup_insert_eq|exists j; by rewrite list_lookup_insert_ne].
Qed.

Lemma same_buffers l0 l : Forall2 (fun s t => addr s = addr t /\ size s = size t) l0 l -> buffers l0 -> buffers l.
Proof.
  intros H2 [Hs Ha]. split.
  - rewrite Forall_forall in *. intros t (j & Hj)%list_elem_of_lookup.
    destruct (Forall2_lookup_r _ _ _ _ _ H2 Hj) as (s & Hj0 & E1 & E2).
    specialize (Hs s (list_elem_of_lookup_2 _ _ _ Hj0)). lia.
  - intros i j s t Hi Hj Hne. destruct (Forall2_lookup_r _ _ _ _ _ H2 Hi) as (s0 & Hi0 & E1 & E2).
    destruct (Forall2_lookup_r _ _ _ _ _ H2 Hj) as (t0 & Hj0 & E3 & E4).
    specialize (Ha i j s0 t0 Hi0 Hj0 Hne). unfold apart in *. lia.
Qed.

Lemma buffers_addr l i j s t : buffers l -> l !! i = Some s -> l !! j = Some t -> addr s = addr t -> i = j.
Proof.
  intros [Hs Ha] Hi Hj E. destruct (decide (i = j)) as [|Hne]; [done|exfalso].
  specialize (Ha i j s t Hi Hj Hne). rewrite Forall_forall in Hs.
  pose proof (Hs s (list_elem_of_lookup_2 _ _ _ Hi)). pose proof (Hs t (list_elem_of_lookup_2 _ _ _ Hj)). unfold apart in Ha. lia.
Qed.

Lemma buffers_pos l : buffers l -> Forall (fun s => 0 < addr s) l.
Proof. intros [Hs _]. eapply Forall_impl; [exact Hs|]. by intros s [? _]. Qed.

Section Invariant.
Context (l0 : list xmalloc_slot) (Hbuf : buffers l0).

Lemma consistent_buffers live l : consistent l0 live l -> buffers l.
Proof. intros Hc. by eapply same_buffers; [apply (co_table _ _ _ Hc)|]. Qed.

Lemma table_update live l i s v : consistent l0 live l -> l !! i = Some s ->
  Forall2 (fun s t => addr s = addr t /\ size s = size t) l0 (<[i := set_in_use s v]> l).
Proof.
  intros Hc Hi. pose proof (co_table _ _ _ Hc) as H2. destruct (Forall2_lookup_r _ _ _ _ _ H2 Hi) as (s0 & Hi0 & E).
  rewrite <- (list_insert_id l0 i s0 Hi0). by apply Forall2_insert.
Qed.

Lemma consistent_malloc live l i s n : consistent l0 live l -> l !! i = Some s -> fits n s ->
  consistent l0 (<[addr s := n]> live) (<[i := set_in_use s 1]> l).
Proof.
  intros Hc Hi [Hu Hn]. pose proof (consistent_buffers _ _ Hc) as Hb. split.
  - by eapply table_update.
  - apply Forall_insert; [apply (co_flag _ _ _ Hc)|cbn; lia].
  - intros t [->|(j & Hne & Hj)]%(elem_of_update _ _ _ _ _ Hi) Ht.
    + exists n. cbn. by rewrite lookup_insert_eq.
    + rewrite lookup_insert_ne; [apply (co_used _ _ _ Hc); [by eapply list_elem_of_lookup_2|done]|].
      intros E. apply Hne. by eapply (buffers_addr l j i).
  - intros p m [[<- <-]|[Hne Hp]]%lookup_insert_Some.
    + exists (set_in_use s 1). split; [|done]. rewrite elem_of_update by done. by left.
    + destruct (co_live _ _ _ Hc p m Hp) as (t & (j & Hj)%list_elem_of_lookup & <- & Ht). exists t.
      split; [|done]. rewrite elem_of_update by done. right. exists j. split; [|done]. intros ->. congruence.
Qed.

Lemma consistent_free live l i s : consistent l0 live l -> l !! i = Some s ->
  consistent l0 (delete (addr s) live) (<[i := set_in_use s 0]> l).
Proof.
  intros Hc Hi. pose proof (consistent_buffers _ _ Hc) as Hb. split.
  - by eapply table_update.
  - apply Forall_insert; [apply (co_flag _ _ _ Hc)|cbn; lia].
  - intros t [->|(j & Hne & Hj)]%(elem_of_update _ _ _ _ _ Hi) Ht; [done|].
    rewrite lookup_delete_ne; [apply (co_used _ _ _ Hc); [by eapply list_elem_of_lookup_2|done]|].
    intros E. apply Hne. by eapply (buffers_addr l j i).
  - intros p m [Hne Hp]%lookup_delete_Some.
    destruct (co_live _ _ _ Hc p m Hp) as (t & (j & Hj)%list_elem_of_lookup & <- & Ht). exists t.
    split; [|done]. rewrite elem_of_update by done. right. exists j. split; [|done]. intros ->. congruence.
Qed.

Lemma XFREE_live live l p n : consistent l0 live l -> live !! p = Some n ->
  exists l', XFREE (l ++ [null_slot]) p = Ok (l' ++ [null_slot]) /\ consistent l0 (delete p live) l'.
Proof.
  intros Hc Hp. pose proof (consistent_buffers _ _ Hc) as Hb.
  destruct (co_live _ _ _ Hc p n Hp) as (s & (i & Hi)%list_elem_of_lookup & <- & Hu).
  eexists. split; [|by apply (consistent_free live l i s)].
  apply XFREE_hit; [by apply buffers_pos|done|done|lia|].
  intros j t Hlt Hj E. assert (j = i) by (by eapply (buffers_addr l j i)). lia.
Qed.

Lemma XFREE_null live l : consistent l0 live l -> XFREE (l ++ [null_slot]) 0 = Ok (l ++ [null_slot]).
Proof.
  intros Hc. pose proof (buffers_pos _ (consistent_buffers _ _ Hc)) as Hp. apply XFREE_miss; [done|].
  intros s Hs E. rewrite Forall_forall in Hp. specialize (Hp s Hs). lia.
Qed.

(** Live blocks with different pointers, and the table of their buffers. *)
Definition tracked (live : list (Z * Z)) (l : list xmalloc_slot) : Prop :=
  NoDup live.*1 /\ consistent l0 (list_to_map live) l.

Lemma tracked_lookup live l p n : tracked live l -> (p, n) ∈ live <-> (list_to_map live : gmap Z Z) !! p = Some n.
Proof. intros [Hn _]. by apply elem_of_list_to_map. Qed.

Lemma tracked_remove live1 live2 p n l : tracked (live1 ++ (p, n) :: live2) l ->
  NoDup (live1 ++ live2).*1 /\ delete p (list_to_map (live1 ++ (p, n) :: live2)) = (list_to_map (live1 ++ live2) : gmap Z Z).
Proof.
  intros [Hn _]. assert ((live1 ++ (p, n) :: live2) ≡ₚ (p, n) :: (live1 ++ live2)) as HP by (by rewrite Permutation_middle).
  assert (NoDup ((p, n) :: (live1 ++ live2)).*1) as Hn' by (by rewrite <- HP). rewrite (list_to_map_proper _ _ Hn HP).
  cbn [fmap list_fmap fst] in Hn'. apply NoDup_cons in Hn' as [Hp Hn']. split; [done|].
  cbn [list_to_map foldr fst snd]. apply delete_insert_id. by apply not_elem_of_list_to_map_1.
Qed.

Lemma step_tracked live l live' pool' : tracked live l -> client_step (live, l ++ [null_slot]) (live', pool') ->
  exists l', pool' = l' ++ [null_slot] /\ tracked live' l'.
Proof.
  intros Ht Hs. pose proof Ht as [Hn Hc]. pose proof (buffers_pos _ (consistent_buffers _ _ Hc)) as Hp.
  inversion Hs as [? ? n p ? E Hne|? ? n ? E|live1 live2 ? p n ? E|? ? ? E]; subst.
  - destruct (XMALLOC_spec l n Hp (co_flag _ _ _ Hc)) as [[E' _]|(i & s & Hi & Hf & _ & E')]; rewrite E' in E; simplify_eq.
    eexists. split; [done|]. split; [|by apply consistent_malloc]. apply NoDup_cons. split; [|done]. intros Hin.
    destruct (proj1 (list_elem_of_fmap _ _ _) Hin) as ([q m] & Eq & Hq). cbn in Eq. subst q.
    apply (tracked_lookup _ _ _ _ Ht) in Hq. destruct (co_live _ _ _ Hc _ _ Hq) as (t & (j & Hj)%list_elem_of_lookup & Et & Hu).
    assert (j = i) as -> by (by eapply (buffers_addr l j i); [apply (consistent_buffers _ _ Hc)|..]).
    unfold fits in Hf. simplify_eq. lia.
  - destruct (XMALLOC_spec l n Hp (co_flag _ _ _ Hc)) as [[E' _]|(i & s & Hi & Hf & _ & E')]; rewrite E' in E; simplify_eq; eauto.
    rewrite Forall_forall in Hp. pose proof (Hp s (list_elem_of_lookup_2 _ _ _ Hi)). lia.
  - assert ((p, n) ∈ live1 ++ (p, n) :: live2) as Hin by (rewrite elem_of_app, elem_of_cons; auto).
    apply (tracked_lookup _ _ _ _ Ht) in Hin. destruct (XFREE_live _ l p n Hc Hin) as (l' & E' & Hc').
    rewrite E' in E. simplify_eq. destruct (tracked_remove _ _ _ _ _ Ht) as [Hn' Hd]. exists l'. split; [done|].
    split; [done|]. by rewrite <- Hd.
  - rewrite (XFREE_null _ l Hc) in E. simplify_eq. eauto.
Qed.

Lemma steps_tracked st st' l : rtc client_step st st' -> snd st = l ++ [null_slot] -> tracked (fst st) l ->
  exists l', snd st' = l' ++ [null_slot] /\ tracked (fst st') l'.
Proof.
  intros Hr. revert l. induction Hr as [|[live1 pool1] [live2 pool2] st3 Hs Hr IH]; intros l; [by eauto|].
  cbn. intros -> Hc. destruct (step_tracked _ _ _ _ Hc Hs) as (l' & -> & Hc'). by eapply (IH l').
Qed.

Lemma reachable_tracked st : all_free l0 -> rtc client_step ([], l0 ++ [null_slot]) st ->
  exists l, snd st = l ++ [null_slot] /\ tracked (fst st) l.
Proof.
  intros Hf Hr. eapply steps_tracked; [done..|]. unfold all_free in Hf. rewrite Forall_forall in Hf.
  split; [constructor|]. split.
  - apply Forall_Forall2_diag, Forall_true. done.
  - apply Forall_forall. intros s Hs. rewrite (Hf s Hs). lia.
  - intros s Hs Hu. rewrite (Hf s Hs) in Hu. lia.
  - cbn [fst]. intros p n E. by rewrite list_to_map_nil, lookup_empty in E.
Qed.

(** A live block is at the start of a buffer that holds it. *)
Lemma tracked_buffer live l p n : tracked live l -> (p, n) ∈ live ->
  exists i s, l !! i = Some s /\ addr s = p /\ n <= size s.
Proof.
  intros Ht Hp. pose proof Ht as [_ Hc]. apply (tracked_lookup _ _ _ _ Ht) in Hp.
  destruct (co_live _ _ _ Hc p n Hp) as (s & Hs & <- & Hu).
  destruct (co_used _ _ _ Hc s Hs Hu) as (m & Hm & Hle). apply list_elem_of_lookup in Hs as [i Hi].
  exists i, s. split; [done|]. split; [done|]. by simplify_eq.
Qed.

(** A buffer without a live block, of the table as it was at the start. *)
Definition free_for (live : list (Z * Z)) (n : Z) (s : xmalloc_slot) : Prop :=
  s ∈ l0 /\ addr s ∉ live.*1 /\ n <= size s.

Lemma tracked_free live l n s0 : tracked live l -> free_for live n s0 ->
  exists s, s ∈ l /\ addr s = addr s0 /\ size s = size s0 /\ fits n s.
Proof.
  intros Ht ((i & Hi)%list_elem_of_lookup & Hn & Hle). pose proof Ht as [_ Hc].
  destruct (Forall2_lookup_l _ _ _ _ _ (co_table _ _ _ Hc) Hi) as (s & Hs & Ea & Es).
  apply list_elem_of_lookup_2 in Hs. exists s. split; [done|]. split; [done|]. split; [done|].
  split; [|lia]. pose proof (proj1 (Forall_forall _ _) (co_flag _ _ _ Hc) s Hs) as Hu. cbn in Hu.
  destruct (decide (in_use s = 1)) as [Hu1|]; [|lia]. destruct (co_used _ _ _ Hc s Hs Hu1) as (m & Hm & _).
  exfalso. apply Hn. apply (tracked_lookup _ _ _ _ Ht) in Hm. rewrite Ea. by apply (list_elem_of_fmap_2 fst) in Hm.
Qed.

Lemma tracked_fits live l i s n : tracked live l -> l !! i = Some s -> fits n s ->
  exists s0, addr s0 = addr s /\ size s0 = size s /\ free_for live n s0.
Proof.
  intros Ht Hi Hf. pose proof Ht as [_ Hc]. pose proof (consistent_buffers _ _ Hc) as Hb.
  destruct (Forall2_lookup_r _ _ _ _ _ (co_table _ _ _ Hc) Hi) as (s0 & Hi0 & Ea & Es).
  exists s0. split; [done|]. split; [done|]. split; [by eapply list_elem_of_lookup_2|]. unfold fits in Hf. split; [|lia].
  intros Hin. destruct (proj1 (list_elem_of_fmap _ _ _) Hin) as ([q m] & Eq & Hq). cbn in Eq. subst q.
  apply (tracked_lookup _ _ _ _ Ht) in Hq. destruct (co_live _ _ _ Hc _ _ Hq) as (t & (j & Hj)%list_elem_of_lookup & Et & Hu).
  assert (j = i) as -> by (eapply (buffers_addr l j i); [done..|congruence]). simplify_eq. lia.
Qed.

(** The next request: the smallest buffer without a live block. *)
Lemma tracked_malloc live l n : tracked live l -> exists p pool', XMALLOC (l ++ [null_slot]) n = Ok (p, pool') /\
  ((p = 0 /\ forall s, ~ free_for live n s) \/
   exists s, p = addr s /\ free_for live n s /\ forall t, free_for live n t -> size s <= size t).
Proof.
  intros Ht. pose proof Ht as [_ Hc]. pose proof (consistent_buffers _ _ Hc) as Hb.
  destruct (XMALLOC_spec l n (buffers_pos _ Hb) (co_flag _ _ _ Hc)) as [[-> Hno]|(i & s & Hi & Hfit & Hm & ->)];
    do 2 eexists; (split; [done|]).
  - left. split; [done|]. intros s0 Hs0. destruct (tracked_free _ _ _ _ Ht Hs0) as (s & Hs & _ & _ & Hfit).
    rewrite Forall_forall in Hno. by eapply Hno.
  - right. destruct (tracked_fits _ _ _ _ _ Ht Hi Hfit) as (s0 & Ea & Es & Hfree). exists s0. split; [done|]. split; [done|].
    intros t Hft. destruct (tracked_free _ _ _ _ Ht Hft) as (t' & Ht' & _ & <- & Hft'). rewrite Es. by apply Hm.
Qed.

End Invariant.

(** C34: The allocator of the cryptographic library, exactly.  Take any table of
    separate buffers and any sequence of calls in which only live blocks (or null)
    are freed.  Every live block starts at a buffer of the table that is at least as large
    as requested; two live blocks, of whichever two calls, have different
    pointers and share no byte.  The next request returns, and is refused exactly
    when every buffer that is large enough holds a live block; otherwise it
    gets the smallest buffer without one.  Freeing a live block returns. *)
Theorem xmalloc_blocks_disjoint l0 live pool : buffers l0 -> all_free l0 ->
  rtc client_step ([], l0 ++ [null_slot]) (live, pool) ->
  (forall p n, (p, n) ∈ live -> exists s, s ∈ l0 /\ addr s = p /\ n <= size s) /\
  (forall i j p1 n1 p2 n2, i <> j -> live !! i = Some (p1, n1) -> live !! j = Some (p2, n2) ->
     p1 <> p2 /\ (p1 + n1 <= p2 \/ p2 + n2 <= p1)) /\
  (forall n, exists p pool', XMALLOC pool n = Ok (p, pool') /\
     ((p = 0 /\ forall s, ~ free_for l0 live n s) \/
      exists s, p = addr s /\ free_for l0 live n s /\ forall t, free_for l0 live n t -> size s <= size t)) /\
  (forall p n, (p, n) ∈ live -> exists pool', XFREE pool p = Ok pool').
Proof.
  intros Hb Hf Hr. destruct (reachable_tracked l0 Hb _ Hf Hr) as (l & E & Ht). cbn in E, Ht. subst pool.
  pose proof Ht as [Hnd Hc]. pose proof (consistent_buffers l0 Hb _ _ Hc) as Hb'.
  split; [|split; [|split; [intros n; by apply tracked_malloc|]]].
  - intros p n Hp. destruct (tracked_buffer l0 live l p n Ht Hp) as (i & s & Hi & <- & Hn).
    destruct (Forall2_lookup_r _ _ _ _ _ (co_table _ _ _ Hc) Hi) as (s0 & Hi0 & <- & Es).
    exists s0. split; [by eapply list_elem_of_lookup_2|]. split; [done|lia].
  - intros i j p1 n1 p2 n2 Hne H1 H2.
    assert (p1 <> p2) as Hp.
    { intros ->. apply Hne. eapply NoDup_lookup; [exact Hnd|by rewrite list_lookup_fmap, H1|by rewrite list_lookup_fmap, H2]. }
    split; [done|].
    destruct (tracked_buffer l0 live l p1 n1 Ht (list_elem_of_lookup_2 _ _ _ H1)) as (i' & s & Hi & <- & Hn1).
    destruct (tracked_buffer l0 live l p2 n2 Ht (list_elem_of_lookup_2 _ _ _ H2)) as (j' & t & Hj & <- & Hn2).
    destruct (bf_apart _ Hb' i' j' s t Hi Hj) as [|]; [congruence|left; lia|right; lia].
  - intros p n Hp. apply (tracked_lookup l0 _ _ _ _ Ht) in Hp.
    destruct (XFREE_live l0 Hb _ l p n Hc Hp) as (l' & -> & _). eauto.
Qed.

(** Two small buffers and a large one: requests of 5, 4 and 4 bytes have been
    answered, and the second block freed. *)
Definition example_pool : list xmalloc_slot := [mkSlot 100 4 0; mkSlot 200 16 0; mkSlot 104 8 0].

Lemma example_buffers : buffers example_pool.
Proof.
  split; [repeat constructor; cbn; lia|]. unfold apart.
  intros [|[|[|i]]] [|[|[|j]]] s t Hi Hj Hne; cbn in Hi, Hj; simplify_eq; cbn; lia.
Qed.

Definition example_live : list (Z * Z) := [(200, 4); (104, 5)].
Definition example_after : list xmalloc_slot := [mkSlot 100 4 0; mkSlot 200 16 1; mkSlot 104 8 1].

Lemma example_run : rtc client_step ([], example_pool ++ [null_slot]) (example_live, example_after ++ [null_slot]).
Proof.
  eapply rtc_l; [by eapply (client_malloc _ _ 5 104)|]. eapply rtc_l; [by eapply (client_malloc _ _ 4 100)|].
  eapply rtc_l; [by eapply (client_malloc _ _ 4 200)|].
  eapply rtc_l; [by eapply (client_free [(200, 4)] [(104, 5)] _ 100 4)|]. apply rtc_refl.
Qed.

(** The two live blocks are apart, the next 4 bytes are those that were freed, and
    5 bytes are refused. *)
Lemma xmalloc_blocks_disjoint_witness :
  (200 <> 104 /\ (200 + 4 <= 104 \/ 104 + 5 <= 200)) /\
  (exists pool', XMALLOC (example_after ++ [null_slot]) 4 = Ok (100, pool')) /\
  (forall s, ~ free_for example_pool example_live 5 s).
Proof.
  destruct (xmalloc_blocks_disjoint example_pool example_live (example_after ++ [null_slot]) example_buffers
    ltac:(repeat constructor) example_run) as (_ & H2 & H3 & _).
  split; [by apply (H2 0%nat 1%nat 200 4 104 5)|]. split.
  - destruct (H3 4) as (p & pool' & E & _). exists pool'. rewrite E. vm_compute in E. congruence.
  - destruct (H3 5) as (p & pool' & E & [[_ H]|(s & Hs & (Hin & _) & _)]); [exact H|exfalso].
    vm_compute in E. injection E as E _. pose proof (buffers_pos _ example_buffers) as Hp.
    rewrite Forall_forall in Hp. specialize (Hp s Hin). lia.
Defined.

(** A block freed twice may by then belong to somebody else: the second [XFREE]
    releases it, and the next request gets it again. *)
Example double_free : exists p1 p2 t1 t2 t3 t4 t5,
  XMALLOC (example_pool ++ [null_slot]) 4 = Ok (100, t1) /\ XFREE t1 100 = Ok t2 /\
  XMALLOC t2 4 = Ok (p1, t3) /\ XFREE t3 100 = Ok t4 /\ XMALLOC t4 4 = Ok (p2, t5) /\ p1 = p2.
Proof. do 7 eexists. repeat (split; [reflexivity|]). reflexivity. Qed.
