(* ===== verification/Nvm.v ===== *)
(** * Nvm: the two-sector trailers of NVM_FLASH_WRITEONCE (libwolfboot.c)

    On flash that cannot be programmed twice, a trailer lives in the last or in
    the last but one sector of its partition.  A change copies the sector in use
    to the other one, with the change in it, and erases the old one; on access,
    [nvm_select_fresh_sector] finds the sector in use and erases the other.

    The two statics of the source are not state here: [NVM_CACHE] is filled and
    scrubbed inside each call, and [nvm_cached_sector] is assigned before it is
    read.  [WOLFBOOT_PARTITION_UPDATE_SIZE] is separate from the size of BOOT,
    as in target.h. *)

From Stdlib Require Import ZArith Lia.
From stdpp Require Import prelude.
From S2P Require Import Prelude Flash Trailer UpdateFlash.

Local Open Scope Z_scope.

Class update_size : Type := WOLFBOOT_PARTITION_UPDATE_SIZE : Z.

Definition FLASH_WORD_ERASED : Z := 0xFFFFFFFF.

Definition FLAG_CMP (a b : Z) : Z := if a <? b then 0 else 1.

Definition get_base_offset (m : mem) (base off : Z) : Z := m (base - off).

Section Nvm.
Context {c : config} {us : update_size}.

(** PART_BOOT_ENDFLAGS or PART_UPDATE_ENDFLAGS. *)
Definition nvm_endflags (part : Z) : Z :=
  if part =? PART_BOOT then WOLFBOOT_PARTITION_BOOT_ADDRESS + WOLFBOOT_PARTITION_SIZE
  else WOLFBOOT_PARTITION_UPDATE_ADDRESS + WOLFBOOT_PARTITION_UPDATE_SIZE.

(** The loop that looks for the sector with more flags set; [n] is the number
    of offsets left. *)
Fixpoint nvm_scan (m : mem) (base off : Z) (n : nat) : Z :=
  match n with
  | O => 0
  | S n' =>
      let byte_0 := get_base_offset m base off in
      let byte_1 := get_base_offset m base (WOLFBOOT_SECTOR_SIZE + off) in
      if (byte_0 =? FLASH_BYTE_ERASED) && negb (byte_1 =? FLASH_BYTE_ERASED) then 1
      else if negb (byte_0 =? FLASH_BYTE_ERASED) && (byte_1 =? FLASH_BYTE_ERASED) then 0
      else if (byte_0 =? FLASH_BYTE_ERASED) && (byte_1 =? FLASH_BYTE_ERASED) then
        FLAG_CMP (get_base_offset m base (off - 1))
                 (get_base_offset m base (WOLFBOOT_SECTOR_SIZE + off - 1))
      else nvm_scan m base (off + 1) n'
  end.

(** The sector chosen, before the other one is erased. *)
Definition nvm_sel (m : mem) (base : Z) : Z :=
  let word_0 := mle32 m (base - 4) in
  let word_1 := mle32 m (base - (WOLFBOOT_SECTOR_SIZE + 4)) in
  if (word_0 =? WOLFBOOT_MAGIC_TRAIL) && negb (word_1 =? WOLFBOOT_MAGIC_TRAIL) then 0
  else if negb (word_0 =? WOLFBOOT_MAGIC_TRAIL) && (word_1 =? WOLFBOOT_MAGIC_TRAIL) then 1
  else if negb (word_0 =? WOLFBOOT_MAGIC_TRAIL) && negb (word_1 =? WOLFBOOT_MAGIC_TRAIL) then 0
  else nvm_scan m base 4 (Z.to_nat (WOLFBOOT_SECTOR_SIZE - 4)).

(** [!x] of a C integer. *)
Definition lnot (x : Z) : Z := if x =? 0 then 1 else 0.

Definition nvm_select_fresh_sector (part : Z) : prog Z :=
  let base := nvm_endflags part in
  let addrErase :=
    (if part =? PART_BOOT then WOLFBOOT_PARTITION_BOOT_ADDRESS
     else WOLFBOOT_PARTITION_UPDATE_ADDRESS) +
    WOLFBOOT_PARTITION_SIZE - WOLFBOOT_SECTOR_SIZE in
  let* m := look in
  let sel := nvm_sel m base in
  let addrErase := addrErase - WOLFBOOT_SECTOR_SIZE * lnot sel in
  let* _ := (if mle32 m (addrErase + WOLFBOOT_SECTOR_SIZE - 4) =? FLASH_WORD_ERASED then Ret 0
             else flash_erase addrErase WOLFBOOT_SECTOR_SIZE) in
  Ret sel.

(** The sector buffer programmed in pieces of the flash buffer. *)
Definition nvm_write_cache (addr_write : Z) (cache : list Z) : prog Z :=
  if negb (FLASHBUFFER_SIZE =? WOLFBOOT_SECTOR_SIZE) then
    ploop (S (Z.to_nat WOLFBOOT_SECTOR_SIZE)) (fun '(addr_off, ret) =>
      if (addr_off <? WOLFBOOT_SECTOR_SIZE) && (ret =? 0) then
        let* ret := flash_write (addr_write + addr_off)
                      (slice cache addr_off FLASHBUFFER_SIZE) in
        Ret (inl (addr_off + FLASHBUFFER_SIZE, ret))
      else Ret (inr ret)) (0, 0)
  else flash_write addr_write cache.

Definition nvm_trailer_write (part addr val : Z) : prog Z :=
  let addr_align := Z.land addr (Z.lnot (WOLFBOOT_SECTOR_SIZE - 1)) in
  let addr_off := Z.land addr (WOLFBOOT_SECTOR_SIZE - 1) in
  let* sel := nvm_select_fresh_sector part in
  let addr_read := addr_align - sel * WOLFBOOT_SECTOR_SIZE in
  let* m := look in
  let cache := <[Z.to_nat addr_off := val]> (mread m addr_read WOLFBOOT_SECTOR_SIZE) in
  let addr_write := addr_align - lnot sel * WOLFBOOT_SECTOR_SIZE in
  let* _ := flash_erase addr_write WOLFBOOT_SECTOR_SIZE in
  let* ret := nvm_write_cache addr_write cache in
  if negb (ret =? 0) then Ret ret else
  flash_erase addr_read WOLFBOOT_SECTOR_SIZE.

Definition nvm_partition_magic_write (part addr : Z) : prog Z :=
  let off := addr mod WOLFBOOT_SECTOR_SIZE in
  let base := addr - off in
  let* sel := nvm_select_fresh_sector part in
  let addr_read := base - sel * WOLFBOOT_SECTOR_SIZE in
  let addr_write := base - lnot sel * WOLFBOOT_SECTOR_SIZE in
  let* m := look in
  let cache := put (mread m addr_read WOLFBOOT_SECTOR_SIZE) off wolfboot_magic_trail in
  let* ret := flash_write addr_write cache in
  if negb (ret =? 0) then Ret ret else
  flash_erase addr_read WOLFBOOT_SECTOR_SIZE.

(** ** Trailer access of the write-once build *)

Definition nvm_get_trailer_at (part at_ : Z) : prog (option Z) :=
  if (part =? PART_BOOT) || (part =? PART_UPDATE) then
    let* sel_sec := nvm_select_fresh_sector part in
    Ret (Some (nvm_endflags part - (WOLFBOOT_SECTOR_SIZE * sel_sec + (4 + at_))))
  else Ret None.

Definition nvm_set_trailer_at (part at_ val : Z) : prog unit :=
  if (part =? PART_BOOT) || (part =? PART_UPDATE) then
    let* _ := nvm_trailer_write part (nvm_endflags part - (4 + at_)) val in Ret tt
  else Ret tt.

Definition nvm_set_partition_magic (part : Z) : prog unit :=
  if (part =? PART_BOOT) || (part =? PART_UPDATE) then
    let* _ := nvm_partition_magic_write part (nvm_endflags part - 4) in Ret tt
  else Ret tt.

Definition nvm_set_partition_state (part newst : Z) : prog Z :=
  if part =? PART_NONE then Ret (-1) else
  let* p := nvm_get_trailer_at part 0 in
  let* magic := deref32 p in
  let* _ := (if magic =? WOLFBOOT_MAGIC_TRAIL then Ret tt
             else nvm_set_partition_magic part) in
  let* p := nvm_get_trailer_at part 1 in
  let* state := deref8 p in
  let* _ := (if state =? newst then Ret tt
             else nvm_set_trailer_at part 1 newst) in
  Ret 0.

Definition nvm_get_partition_state (part st : Z) : prog (Z * Z) :=
  if part =? PART_NONE then Ret (-1, st) else
  let* p := nvm_get_trailer_at part 0 in
  let* magic := deref32 p in
  if negb (magic =? WOLFBOOT_MAGIC_TRAIL) then Ret (-1, st) else
  let* p := nvm_get_trailer_at part 1 in
  let* state := deref8 p in
  Ret (0, state).

Definition nvm_set_update_sector_flag (sector newflag : Z) : prog Z :=
  let sector := u16 sector in
  let pos := Z.shiftr sector 1 in
  let* p := nvm_get_trailer_at PART_UPDATE 0 in
  let* magic := deref32 p in
  let* _ := (if magic =? WOLFBOOT_MAGIC_TRAIL then Ret tt
             else nvm_set_partition_magic PART_UPDATE) in
  let* p := nvm_get_trailer_at PART_UPDATE (2 + pos) in
  let* flags := deref8 p in
  let fl_value :=
    if sector =? Z.shiftl pos 1
    then Z.lor (Z.land flags 0xF0) (Z.land newflag 0x0F)
    else Z.lor (Z.shiftl (Z.land newflag 0x0F) 4) (Z.land flags 0x0F) in
  let* _ := (if fl_value =? flags then Ret tt
             else nvm_set_trailer_at PART_UPDATE (2 + pos) fl_value) in
  Ret 0.

Definition nvm_get_update_sector_flag (sector flag : Z) : prog (Z * Z) :=
  let sector := u16 sector in
  let pos := Z.shiftr sector 1 in
  let* p := nvm_get_trailer_at PART_UPDATE 0 in
  let* magic := deref32 p in
  if negb (magic =? WOLFBOOT_MAGIC_TRAIL) then Ret (-1, flag) else
  let* p := nvm_get_trailer_at PART_UPDATE (2 + pos) in
  let* flags := deref8 p in
  if sector =? Z.shiftl pos 1
  then Ret (0, Z.land flags 0x0F)
  else Ret (0, Z.shiftr (Z.land flags 0xF0) 4).

End Nvm.
