(* ===== verification/NvmSafe.v ===== *)
(** * NvmSafe: the two-sector trailers survive power failures

    Power may fail between two flash operations, or inside one after some of its
    bytes, in the order of addresses, have been programmed or erased: [cut].
    The trailer is in one of two sectors; [nvm_inv] says which contents of the
    two are reached, and [nvm_view] is the trailer they stand for.  A change of
    one byte is atomic: at every point the view is the old or the new one. *)

From Stdlib Require Import ZArith Lia.
From stdpp Require Import prelude.
From S2P Require Import Prelude Flash Trailer UpdateFlash Nvm.

Local Open Scope Z_scope.

(** ** Power failures of flash that works in address order *)

Fixpoint cut {A} (p : prog A) (s : flash) (m' : mem) : Prop :=
  m' = fmem s \/
  match p with
  | Ret _ | Stop _ => False
  | Look k => cut (k (fmem s)) s m'
  | Erase a n k =>
      (flashLocked s = false /\ exists i, 0 <= i <= n /\ m' = nor_erase (fmem s) a i) \/
      (let (r, s') := hal_flash_erase s a n in cut (k r) s' m')
  | Write a d k =>
      (flashLocked s = false /\ exists i, m' = nor_write (fmem s) a (take i d)) \/
      (let (r, s') := hal_flash_write s a d in cut (k r) s' m')
  | Unlock k => cut k (hal_flash_unlock s) m'
  | Lock k => cut k (hal_flash_lock s) m'
  end.

Lemma cut_bind {A B} (p : prog A) (f : A -> prog B) s m' :
  cut (pbind p f) s m' ->
  cut p s m' \/ exists a s', run p s = (inl a, s') /\ cut (f a) s' m'.
Proof.
  revert s. induction p as [a|h|k IH|a n k IH|a d k IH|k IH|k IH]; intros s; simpl.
  - eauto.
  - tauto.
  - intros [H|[H|H]%IH]; auto.
  - destruct (hal_flash_erase s a n). intros [H|[H|[H|H]%IH]]; auto.
  - destruct (hal_flash_write s a d). intros [H|[H|[H|H]%IH]]; auto.
  - intros [H|[H|H]%IH]; auto.
  - intros [H|[H|H]%IH]; auto.
Qed.

(** [p] from [s] returns in [Q], and every power failure leaves a memory in
    [C]. *)
Definition swp {A} (s : flash) (p : prog A) (Q : A -> flash -> Prop) (C : mem -> Prop) : Prop :=
  (exists a s', run p s = (inl a, s') /\ Q a s') /\ forall m', cut p s m' -> C m'.

Lemma swp_bind {A B} s (p : prog A) (f : A -> prog B) Q C :
  swp s p (fun a s' => swp s' (f a) Q C) C -> swp s (pbind p f) Q C.
Proof.
  intros [(a & s' & Hr & (b & s'' & Hr' & HQ) & Hc') Hc]. split.
  - exists b, s''. by rewrite run_bind, Hr.
  - intros m' [H|(a' & s2 & H1 & H2)]%cut_bind; [auto|].
    rewrite Hr in H1. injection H1 as <- <-. auto.
Qed.

Lemma swp_mono {A} s (p : prog A) (Q Q' : A -> flash -> Prop) (C C' : mem -> Prop) :
  swp s p Q C -> (forall a s', Q a s' -> Q' a s') -> (forall m, C m -> C' m) -> swp s p Q' C'.
Proof. intros [(a & s' & Hr & HQ) Hc] H1 H2. split; [eauto 6|auto]. Qed.

Lemma swp_ret {A} s (a : A) (Q : A -> flash -> Prop) (C : mem -> Prop) :
  Q a s -> C (fmem s) -> swp s (Ret a) Q C.
Proof. intros HQ HC. split; [simpl; eauto|]. by intros m' [->|[]]. Qed.

Lemma swp_look {A} s (f : mem -> prog A) Q (C : mem -> Prop) :
  C (fmem s) -> swp s (f (fmem s)) Q C -> swp s (let* m := look in f m) Q C.
Proof. intros HC [H1 H2]. split; [done|]. simpl. intros m' [->|H]; auto. Qed.

Lemma swp_erase s a n (Q : Z -> flash -> Prop) (C : mem -> Prop) :
  flashLocked s = false -> 0 <= n ->
  (forall i, 0 <= i <= n -> C (nor_erase (fmem s) a i)) -> C (fmem s) ->
  Q 0 (mkFlash (nor_erase (fmem s) a n) false) -> swp s (flash_erase a n) Q C.
Proof.
  intros HL Hn HC H0 HQ. unfold flash_erase, swp. simpl. unfold hal_flash_erase. rewrite HL.
  simpl. split; [eauto|]. intros m' [->|[(_ & i & Hi & ->)|[->|[]]]]; auto with lia.
Qed.

Lemma swp_write s a d (Q : Z -> flash -> Prop) (C : mem -> Prop) :
  flashLocked s = false -> C (fmem s) ->
  (forall i, C (nor_write (fmem s) a (take i d))) ->
  Q 0 (mkFlash (nor_write (fmem s) a d) false) -> swp s (flash_write a d) Q C.
Proof.
  intros HL H0 HC HQ. unfold flash_write, swp. simpl. unfold hal_flash_write. rewrite HL.
  simpl. split; [eauto|]. intros m' [->|[(_ & i & ->)|[->|[]]]]; auto.
  rewrite <- (firstn_all d) at 1. auto.
Qed.

Lemma swp_ploop {S R} (I : S -> flash -> Prop) (meas : S -> nat) (Q : R -> flash -> Prop) C
    (body : S -> prog (S + R)) fuel x s :
  (forall x s, I x s -> swp s (body x) (fun r s' => match r with
     | inl x' => I x' s' /\ (meas x' < meas x)%nat
     | inr r => Q r s' /\ C (fmem s') end) C) ->
  I x s -> (meas x < fuel)%nat -> swp s (ploop fuel body x) Q C.
Proof.
  intros Hb. revert x s. induction fuel as [|fuel IH]; intros x s HI Hm; [lia|]. simpl.
  apply swp_bind. eapply swp_mono; [by apply Hb| |done]. intros [x'|r] s'.
  - intros [HI' Hlt]. apply IH; [done|lia].
  - intros [HQ HC]. by apply swp_ret.
Qed.

(** ** Contents of the two sectors *)

Section NvmSafe.
Context {c : config}.
#[local] Abbreviation SS := WOLFBOOT_SECTOR_SIZE.
#[local] Abbreviation FF := FLASH_BYTE_ERASED.

(** Sector [i] below [E] holds [f], by offset from its end. *)
Definition holds (m : mem) (E i : Z) (f : Z -> Z) : Prop :=
  forall off, 1 <= off <= SS -> m (E - SS * i - off) = f off.

Definition magicf (f : Z -> Z) : Prop := f 4 = 0x42 /\ f 3 = 0x4F /\ f 2 = 0x4F /\ f 1 = 0x54.

(** A trailer: its bytes in use are those above offset [n]. *)
Definition tight (f : Z -> Z) (n : Z) : Prop :=
  magicf f /\ 5 <= n <= SS - 1 /\ (forall off, 4 <= off < n -> f off <> FF) /\
  (forall off, n <= off <= SS -> f off = FF).

#[local] Instance magicf_dec f : Decision (magicf f) := _.

Lemma mle32_magic m a :
  mem_ok m -> mle32 m a = WOLFBOOT_MAGIC_TRAIL <->
  m a = 0x42 /\ m (a + 1) = 0x4F /\ m (a + 2) = 0x4F /\ m (a + 3) = 0x54.
Proof.
  intros Hm. unfold mle32, WOLFBOOT_MAGIC_TRAIL.
  pose proof (Hm a). pose proof (Hm (a + 1)). pose proof (Hm (a + 2)). pose proof (Hm (a + 3)).
  unfold is_byte in *. lia.
Qed.

Lemma mle32_erased m a :
  mem_ok m -> mle32 m a = FLASH_WORD_ERASED <->
  m a = FF /\ m (a + 1) = FF /\ m (a + 2) = FF /\ m (a + 3) = FF.
Proof.
  intros Hm. unfold mle32, FLASH_WORD_ERASED, FLASH_BYTE_ERASED.
  pose proof (Hm a). pose proof (Hm (a + 1)). pose proof (Hm (a + 2)). pose proof (Hm (a + 3)).
  unfold is_byte in *. lia.
Qed.

Lemma holds_magic m E i f :
  mem_ok m -> 4 <= SS -> holds m E i f ->
  (mle32 m (E - SS * i - 4) =? WOLFBOOT_MAGIC_TRAIL) = bool_decide (magicf f).
Proof.
  intros Hm Hs Hf. apply eq_true_iff_eq. rewrite Z.eqb_eq, bool_decide_eq_true.
  rewrite (mle32_magic m _ Hm). unfold magicf. rewrite <- !Hf by lia.
  by replace (E - SS * i - 4 + 1) with (E - SS * i - 3) by lia;
    replace (E - SS * i - 4 + 2) with (E - SS * i - 2) by lia;
    replace (E - SS * i - 4 + 3) with (E - SS * i - 1) by lia.
Qed.

(** The scan starting at an offset where both are in use. *)
Lemma nvm_scan_spec m E f0 f1 n0 n1 off fuel :
  holds m E 0 f0 -> holds m E 1 f1 -> tight f0 n0 -> tight f1 n1 ->
  4 <= off <= n0 -> off <= n1 -> Z.of_nat fuel = SS - off ->
  nvm_scan m E off fuel =
  if n0 <? n1 then 1 else if n1 <? n0 then 0 else FLAG_CMP (f0 (n0 - 1)) (f1 (n1 - 1)).
Proof.
  intros H0 H1 (_ & Hn0 & Ha0 & Hb0) (_ & Hn1 & Ha1 & Hb1).
  revert off. induction fuel as [|fuel IH]; intros off Hoff Hoff1 Hf; [lia|]. cbn [nvm_scan].
  cbv zeta. unfold get_base_offset.
  replace (E - off) with (E - SS * 0 - off) by lia. rewrite !(H0 off) by lia.
  replace (E - (SS + off)) with (E - SS * 1 - off) by lia. rewrite !(H1 off) by lia.
  destruct (Z.eqb_spec (f0 off) FF) as [E0|E0], (Z.eqb_spec (f1 off) FF) as [E1|E1]; cbn [andb negb].
  - assert (off = n0) as -> by (destruct (decide (off < n0)); [destruct (Ha0 off); [lia|done]|lia]).
    assert (n0 = n1) as -> by (destruct (decide (n0 < n1)); [destruct (Ha1 n0); [lia|done]|lia]).
    rewrite Z.ltb_irrefl. replace (E - (n1 - 1)) with (E - SS * 0 - (n1 - 1)) by lia.
    replace (E - (SS + n1 - 1)) with (E - SS * 1 - (n1 - 1)) by lia.
    by rewrite H0, H1 by lia.
  - assert (off = n0) as -> by (destruct (decide (off < n0)); [destruct (Ha0 off); [lia|done]|lia]).
    assert (n0 <> n1) by (intros ->; apply E1, Hb1; lia).
    destruct (Z.ltb_spec n0 n1); [done|lia].
  - assert (off = n1) as -> by (destruct (decide (off < n1)); [destruct (Ha1 off); [lia|done]|lia]).
    assert (n0 <> n1) by (intros ->; apply E0, Hb0; lia).
    destruct (Z.ltb_spec n0 n1); [lia|]. destruct (Z.ltb_spec n1 n0); [done|lia].
  - assert (off <> n0) by (intros ->; apply E0, Hb0; lia).
    assert (off <> n1) by (intros ->; apply E1, Hb1; lia). apply IH; lia.
Qed.

Definition sector_index (i : Z) : Prop := i = 0 \/ i = 1.

(** Only one sector has the magic: it is chosen. *)
Lemma nvm_sel_only m E i f g :
  sector_index i -> mem_ok m -> 4 <= SS -> holds m E i f -> holds m E (1 - i) g ->
  magicf f -> ~ magicf g -> nvm_sel m E = i.
Proof.
  intros Hi Hm Hs Hf Hg Mf Mg. unfold nvm_sel.
  apply holds_magic in Hf; [|done..]. apply holds_magic in Hg; [|done..].
  rewrite bool_decide_true in Hf by done. rewrite bool_decide_false in Hg by done.
  replace (E - 4) with (E - SS * 0 - 4) by lia. replace (E - (SS + 4)) with (E - SS * 1 - 4) by lia.
  destruct Hi as [-> | ->]; [change (1 - 0) with 1 in Hg|change (1 - 1) with 0 in Hg];
    by rewrite Hf, Hg.
Qed.

(** Both have it: the one chosen has at least as many bytes in use, and one
    with more is chosen. *)
Lemma nvm_sel_both m E i f g nf ng :
  sector_index i -> mem_ok m -> holds m E i f -> holds m E (1 - i) g ->
  tight f nf -> tight g ng ->
  sector_index (nvm_sel m E) /\ (nvm_sel m E = i -> ng <= nf) /\ (ng < nf -> nvm_sel m E = i).
Proof.
  intros Hi Hm Hf Hg Tf Tg.
  assert (forall f0 f1 n0 n1, holds m E 0 f0 -> holds m E 1 f1 -> tight f0 n0 -> tight f1 n1 ->
    nvm_sel m E = if n0 <? n1 then 1 else if n1 <? n0 then 0
                  else FLAG_CMP (f0 (n0 - 1)) (f1 (n1 - 1))) as Hsel.
  { intros f0 f1 n0 n1 H0 H1 T0 T1. pose proof T0 as (M0 & Hn0 & _). pose proof T1 as (M1 & Hn1 & _).
    unfold nvm_sel. replace (E - 4) with (E - SS * 0 - 4) by lia.
    replace (E - (SS + 4)) with (E - SS * 1 - 4) by lia.
    rewrite (holds_magic m E 0 f0), (holds_magic m E 1 f1) by (done || lia).
    rewrite !bool_decide_true by done. cbn [andb negb].
    apply (nvm_scan_spec m E f0 f1); try done; lia. }
  unfold FLAG_CMP in Hsel. destruct Hi as [-> | ->]; cbn in Hg.
  - rewrite (Hsel f g nf ng) by done. unfold sector_index.
    repeat (case_if; try lia).
  - replace (1 - 1) with 0 in Hg by lia. rewrite (Hsel g f ng nf) by done. unfold sector_index.
    repeat (case_if; try lia).
Qed.

(** ** The invariant *)

(** The sector chosen holds a trailer; the other has no magic or holds one. *)
Definition nvm_inv (E : Z) (m : mem) : Prop :=
  mem_ok m /\ exists i f g, sector_index i /\ holds m E i f /\ holds m E (1 - i) g /\
    nvm_sel m E = i /\ (exists n, tight f n) /\ (~ magicf g \/ exists n, tight g n).

(** The trailer, by offset from the end of its sector. *)
Definition nvm_view (E : Z) (m : mem) (off : Z) : Z := m (E - SS * nvm_sel m E - off).

(** [f] with the [k] lowest bytes of the sector erased, or only them in place. *)
Definition low_erased (f : Z -> Z) (k off : Z) : Z := if off <=? SS - k then f off else FF.
Definition low_written (f : Z -> Z) (k off : Z) : Z := if SS - k <? off then f off else FF.

Lemma low_erased_magic f k : 0 <= k -> magicf (low_erased f k) -> magicf f /\ k <= SS - 4.
Proof.
  unfold magicf, low_erased, FLASH_BYTE_ERASED. intros Hk.
  repeat (case_if; try lia).
Qed.

(** Erasing the low end of a trailer removes bytes in use, or changes nothing. *)
Lemma low_erased_tight f n k :
  tight f n -> 0 <= k <= SS - 4 ->
  (exists n', n' < n /\ tight (low_erased f k) n') \/
  (forall off, 1 <= off <= SS -> low_erased f k off = f off).
Proof.
  intros (M & Hn & Ha & Hb) Hk. unfold low_erased.
  destruct (decide (SS - k < n - 1)) as [Hlt|Hge].
  - left. exists (SS - k + 1). split; [lia|]. split; [|split; [lia|split]].
    + unfold magicf in *. by repeat (case_if; try lia).
    + intros off Ho. case_if; [|lia]. apply Ha. lia.
    + intros off Ho. case_if; [lia|done].
  - right. intros off Ho. case_if; [done|]. symmetry. apply Hb. lia.
Qed.

Definition upd (f : Z -> Z) (p v off : Z) : Z := if off =? p then v else f off.

Lemma tight_upd f n p v :
  tight f n -> 5 <= p <= n -> p <= SS - 2 -> v <> FF -> exists n', n <= n' /\ tight (upd f p v) n'.
Proof.
  intros (M & Hn & Ha & Hb) Hp Hp2 Hv. exists (if p =? n then n + 1 else n).
  destruct (Z.eqb_spec p n) as [-> | Hne]; (split; [lia|]); unfold tight, magicf, upd in *.
  all: repeat match goal with |- context [?x =? ?y] => replace (x =? y) with false by (symmetry; apply Z.eqb_neq; lia) end.
  all: split; [done|]; split; [lia|]; split; intros off Ho; case_if; auto with lia.
Qed.

Lemma nvm_scan_ext m m' E off n :
  (forall a, E - 2 * SS <= a < E -> m a = m' a) -> 2 <= off -> off + Z.of_nat n <= SS ->
  nvm_scan m E off n = nvm_scan m' E off n.
Proof.
  intros H. revert off. induction n as [|n IH]; intros off H2 Hn; [done|].
  cbn [nvm_scan]. unfold get_base_offset. rewrite !(H (_ - _)) by lia. by rewrite IH by lia.
Qed.

Lemma nvm_sel_ext m m' E :
  (forall a, E - 2 * SS <= a < E -> m a = m' a) -> 4 <= SS -> nvm_sel m E = nvm_sel m' E.
Proof.
  intros H HS. unfold nvm_sel, mle32. rewrite !(H (_ - _)), !(H (_ - _ + _)) by lia.
  by rewrite (nvm_scan_ext m m') by (done || lia).
Qed.

(** The other sector has no magic. *)
Lemma nvm_inv_only m E i f g n :
  sector_index i -> mem_ok m -> holds m E i f -> holds m E (1 - i) g -> tight f n -> ~ magicf g ->
  nvm_inv E m /\ nvm_sel m E = i.
Proof.
  intros Hi Hm Hf Hg T M. pose proof T as (Mf & Hn & _).
  assert (nvm_sel m E = i) by (by apply (nvm_sel_only m E i f g); try lia).
  split; [|done]. split; [done|]. exists i, f, g. by eauto 10.
Qed.

(** Both sectors hold trailers. *)
Lemma nvm_inv_both m E i f g nf ng :
  sector_index i -> mem_ok m -> holds m E i f -> holds m E (1 - i) g -> tight f nf -> tight g ng ->
  nvm_inv E m /\ (nvm_sel m E = i /\ ng <= nf \/ nvm_sel m E = 1 - i /\ nf <= ng).
Proof.
  intros Hi Hm Hf Hg Tf Tg.
  destruct (nvm_sel_both m E i f g nf ng Hi Hm Hf Hg Tf Tg) as (H1 & H2 & H3).
  assert (nvm_sel m E = i /\ ng <= nf \/ nvm_sel m E = 1 - i /\ nf <= ng) as Hd.
  { destruct (decide (nvm_sel m E = i)) as [He|He]; [auto|right].
    unfold sector_index in *. split; [lia|]. destruct (decide (ng < nf)); [tauto|lia]. }
  split; [|done]. split; [done|]. destruct Hd as [[Hd _]|[Hd _]].
  - exists i, f, g. split_and!; eauto.
  - exists (1 - i), g, f. replace (1 - (1 - i)) with i by lia.
    split_and!; eauto. unfold sector_index in *. lia.
Qed.

(** ** Flash operations on a sector *)

(** Nothing outside the two sectors differs. *)
Definition only_trailer (E : Z) (m m' : mem) : Prop :=
  forall a, ~ (E - 2 * SS <= a < E) -> m' a = m a.

Lemma only_trailer_refl E m : only_trailer E m m.
Proof. by intros a Ha. Qed.

Lemma only_trailer_trans E m1 m2 m3 :
  only_trailer E m1 m2 -> only_trailer E m2 m3 -> only_trailer E m1 m3.
Proof. intros H1 H2 a Ha. by rewrite H2, H1. Qed.

Lemma only_trailer_erase E i m k :
  sector_index i -> k <= SS -> 0 < SS -> only_trailer E m (nor_erase m (E - SS * i - SS) k).
Proof. intros Hi Hk HS a Ha. apply nor_erase_out. unfold sector_index in *. nia. Qed.

Lemma holds_erase E i m f k :
  holds m E i f -> 0 <= k <= SS -> holds (nor_erase m (E - SS * i - SS) k) E i (low_erased f k).
Proof.
  intros Hf Hk off Ho. unfold low_erased. destruct (Z.leb_spec off (SS - k)).
  - rewrite nor_erase_out by lia. auto.
  - by rewrite nor_erase_in by lia.
Qed.

Lemma holds_erase_other E i m f k :
  sector_index i -> holds m E i f -> k <= SS -> holds (nor_erase m (E - SS * (1 - i) - SS) k) E i f.
Proof.
  intros Hi Hf Hk off Ho. rewrite nor_erase_out; [auto|]. unfold sector_index in *. nia.
Qed.

(** Erasing the sector not chosen, or its low end, keeps the trailer. *)
Lemma nvm_erase_other E m k :
  nvm_inv E m -> 0 <= k <= SS ->
  let m' := nor_erase m (E - SS * (1 - nvm_sel m E) - SS) k in
  nvm_inv E m' /\ nvm_sel m' E = nvm_sel m E.
Proof.
  intros (Hm & i & f & g & Hi & Hf & Hg & Hs & (n & T) & Hother) Hk. rewrite Hs. cbv zeta.
  set (m' := nor_erase _ _ _). assert (mem_ok m') as Hm' by (by apply mem_ok_erase).
  assert (holds m' E i f) as Hf' by (by apply holds_erase_other; [..|lia]).
  assert (holds m' E (1 - i) (low_erased g k)) as Hg' by (by apply holds_erase).
  destruct (decide (magicf (low_erased g k))) as [Mg|Mg];
    [|by apply (nvm_inv_only m' E i f (low_erased g k) n)].
  apply low_erased_magic in Mg as [Mg Hk2]; [|lia].
  destruct Hother as [?|(ng & Tg)]; [done|].
  destruct (nvm_inv_both m E i f g n ng Hi Hm Hf Hg T Tg) as [_ Hd].
  assert (ng <= n) as Hle by (unfold sector_index in *; lia).
  destruct (low_erased_tight g ng k Tg ltac:(lia)) as [(n' & Hn' & T')|Hsame].
  - destruct (nvm_inv_both m' E i f _ n n' Hi Hm' Hf' Hg' T T') as [? ?]. split; [done|lia].
  - assert (nvm_sel m' E = i) as Hs'.
    { rewrite <- Hs. apply nvm_sel_ext; [|destruct T; lia]. intros a Ha.
      unfold m', nor_erase. case_if; [|done]. apply in_range_true in E0.
      assert (1 <= E - SS * (1 - i) - a <= SS) as Hoff by lia.
      pose proof (Hsame _ Hoff) as He.
      rewrite <- Hg in He by lia. replace (E - SS * (1 - i) - (E - SS * (1 - i) - a)) with a in He by lia.
      rewrite <- He. unfold low_erased. case_if; [lia|done]. }
    split; [|done]. split; [done|]. exists i, f, g. split_and!; eauto.
    intros off Ho. rewrite Hg' by done. by apply Hsame.
Qed.

(** ** The geometry *)

Context {us : update_size}.

Class nvm_geometry : Prop := NvmGeometry {
  nvm_pow : exists k, 4 <= k /\ SS = 2 ^ k;
  nvm_buf : 0 < FLASHBUFFER_SIZE /\ exists n, SS = n * FLASHBUFFER_SIZE;
  nvm_part : exists n, 2 <= n /\ WOLFBOOT_PARTITION_SIZE = n * SS;
  nvm_boot : WOLFBOOT_PARTITION_BOOT_ADDRESS mod SS = 0;
  nvm_update : WOLFBOOT_PARTITION_UPDATE_ADDRESS mod SS = 0;
  nvm_sizes : WOLFBOOT_PARTITION_UPDATE_SIZE = WOLFBOOT_PARTITION_SIZE;
}.

Context {G : nvm_geometry}.

Lemma nvm_ss : 16 <= SS.
Proof.
  destruct nvm_pow as (k & Hk & ->). change 16 with (2 ^ 4). apply Z.pow_le_mono_r; lia.
Qed.

Lemma nvm_endflags_mod part : nvm_endflags part mod SS = 0.
Proof.
  pose proof nvm_ss. destruct nvm_part as (n & Hn & Hp). unfold nvm_endflags.
  rewrite nvm_sizes, Hp. case_if; rewrite Z_mod_plus_full; [apply nvm_boot|apply nvm_update].
Qed.

Lemma nvm_endflags_eq part :
  nvm_endflags part = (if part =? PART_BOOT then WOLFBOOT_PARTITION_BOOT_ADDRESS
     else WOLFBOOT_PARTITION_UPDATE_ADDRESS) + WOLFBOOT_PARTITION_SIZE.
Proof. unfold nvm_endflags. rewrite nvm_sizes. by case_if. Qed.

(** The sector and the offset in it of a trailer byte. *)
Lemma nvm_addr_split E p :
  E mod SS = 0 -> 1 <= p <= SS ->
  Z.land (E - p) (Z.lnot (SS - 1)) = E - SS /\ Z.land (E - p) (SS - 1) = SS - p /\
  (E - p) mod SS = SS - p.
Proof.
  intros HE Hp. pose proof nvm_ss as HS16. assert (SS <> 0) as HS0 by lia.
  assert ((E - p) mod SS = SS - p) as Hmod.
  { symmetry. apply (Z.mod_unique _ _ (E / SS - 1)); [lia|].
    pose proof (Z.div_mod E SS HS0). lia. }
  destruct nvm_pow as (k & Hk & HS).
  replace (SS - 1) with (Z.ones k) by (rewrite Z.ones_equiv; lia).
  rewrite Z.land_ones by lia. rewrite <- HS. split; [|done].
  rewrite <- Z.ldiff_land, Z.ldiff_ones_r, Z.shiftl_mul_pow2, Z.shiftr_div_pow2, <- HS by lia.
  pose proof (Z.div_mod (E - p) SS HS0). lia.
Qed.

Lemma lnot_index i : sector_index i -> lnot i = 1 - i.
Proof. by intros [-> | ->]. Qed.

(** ** Choosing the sector *)

(** The trailer of [m'] is that of [m]. *)
Definition nvm_same (E : Z) (m m' : mem) : Prop :=
  nvm_inv E m' /\ nvm_sel m' E = nvm_sel m E /\ only_trailer E m m' /\
  forall off, 1 <= off <= SS -> nvm_view E m' off = nvm_view E m off.

Lemma nvm_sel_index E m : nvm_inv E m -> sector_index (nvm_sel m E).
Proof. by intros (_ & i & f & g & Hi & _ & _ & -> & _). Qed.

Lemma nvm_same_refl E m : nvm_inv E m -> nvm_same E m m.
Proof. by intros. Qed.

Lemma nvm_same_erase E m k :
  nvm_inv E m -> 0 <= k <= SS ->
  nvm_same E m (nor_erase m (E - SS * (1 - nvm_sel m E) - SS) k).
Proof.
  intros Hinv Hk. pose proof nvm_ss as HS. pose proof (nvm_sel_index E m Hinv) as Hi.
  destruct (nvm_erase_other E m k Hinv Hk) as [H1 H2]. split; [done|]. split; [done|]. split.
  - apply only_trailer_erase; unfold sector_index in *; lia.
  - intros off Ho. unfold nvm_view. rewrite H2. apply nor_erase_out. unfold sector_index in *. nia.
Qed.

Definition no_other (E : Z) (m : mem) : Prop :=
  forall g, holds m E (1 - nvm_sel m E) g -> ~ magicf g.

Lemma nvm_select_spec part s :
  let E := nvm_endflags part in
  nvm_inv E (fmem s) -> flashLocked s = false ->
  swp s (nvm_select_fresh_sector part)
    (fun r s' => r = nvm_sel (fmem s) E /\ flashLocked s' = false /\
       nvm_same E (fmem s) (fmem s') /\ no_other E (fmem s'))
    (nvm_same E (fmem s)).
Proof.
  intros E Hinv HL. pose proof nvm_ss as HS. pose proof (nvm_sel_index E _ Hinv) as Hi.
  unfold nvm_select_fresh_sector. apply swp_look; [by apply nvm_same_refl|].
  rewrite <- nvm_endflags_eq. fold E. rewrite (lnot_index _ Hi).
  replace (E - SS - SS * (1 - nvm_sel (fmem s) E)) with (E - SS * (1 - nvm_sel (fmem s) E) - SS) by lia.
  set (b := E - SS * (1 - nvm_sel (fmem s) E) - SS).
  destruct (Z.eqb_spec (mle32 (fmem s) (b + SS - 4)) FLASH_WORD_ERASED) as [He|He].
  - rewrite pbind_ret. apply swp_ret; [|by apply nvm_same_refl].
    split; [done|]. split; [done|]. split; [by apply nvm_same_refl|].
    intros g Hg (_ & _ & _ & M1). rewrite <- Hg in M1 by lia.
    apply mle32_erased in He as (_ & _ & _ & He); [|by destruct Hinv].
    replace (b + SS - 4 + 3) with (E - SS * (1 - nvm_sel (fmem s) E) - 1) in He by lia.
    rewrite He in M1. discriminate.
  - apply swp_bind. pose proof (nvm_same_refl E _ Hinv).
    apply swp_erase; [done|lia|intros; by apply nvm_same_erase|done|].
    assert (0 <= SS <= SS) as Hk by lia.
    destruct (nvm_same_erase E _ SS Hinv Hk) as (H1 & H2 & H3 & H4).
    apply swp_ret; [|done]. split; [done|]. split; [done|]. split; [done|].
    unfold no_other. simpl fmem. unfold b. rewrite H2. intros g Hg (_ & _ & _ & M1).
    rewrite <- Hg, nor_erase_in in M1 by lia. discriminate.
Qed.

(** ** Programming a sector *)

(** [m'] is [m] with the [k] low bytes of [f] in sector [j], otherwise erased. *)
Definition partly (m : mem) (E j : Z) (f : Z -> Z) (k : Z) (m' : mem) : Prop :=
  mem_ok m' /\ holds m' E j (low_written f k) /\
  forall a, ~ (E - SS * j - SS <= a < E - SS * j) -> m' a = m a.

(** The content of a sector buffer, by offset from its end. *)
Definition cached (l : list Z) (off : Z) : Z := at_ l (SS - off).

Lemma partly_write m E j l k n m' :
  partly m E j (cached l) k m' -> bytes l -> zlen l = SS -> 0 <= k -> 0 <= n -> k + n <= SS ->
  partly m E j (cached l) (k + n) (nor_write m' (E - SS * j - SS + k) (slice l k n)).
Proof.
  intros (Hm & Hh & Hout) Hb Hl Hk Hn Hkn.
  assert (zlen (slice l k n) = n) as Hlen by (apply slice_length; lia).
  split; [apply mem_ok_write; [done|by apply slice_bytes]|]. split.
  - intros off Ho. unfold low_written. specialize (Hh off Ho). unfold low_written in Hh.
    destruct (Z.ltb_spec (SS - (k + n)) off) as [H1|H1].
    + destruct (Z.ltb_spec (SS - k) off) as [H2|H2].
      * by rewrite nor_write_out by lia.
      * rewrite nor_write_in, Hh by lia.
        rewrite land_erased by (apply at_total_byte; [by apply slice_bytes|lia]).
        rewrite at_slice by lia. unfold cached. f_equal. lia.
    + destruct (Z.ltb_spec (SS - k) off) as [H2|H2]; [lia|]. by rewrite nor_write_out by lia.
  - intros a Ha. rewrite nor_write_out by lia. auto.
Qed.

Lemma take_slice l off n i :
  take i (slice l off n) = slice l off (Z.min (Z.of_nat i) (Z.max 0 n)).
Proof. unfold slice. rewrite take_take. f_equal. lia. Qed.

Lemma nvm_write_cache_spec m E j l s :
  flashLocked s = false -> bytes l -> zlen l = SS -> partly m E j (cached l) 0 (fmem s) ->
  swp s (nvm_write_cache (E - SS * j - SS) l)
    (fun r s' => r = 0 /\ flashLocked s' = false /\ partly m E j (cached l) SS (fmem s'))
    (fun m' => exists k, 0 <= k <= SS /\ partly m E j (cached l) k m').
Proof.
  intros HL Hb Hl Hp. pose proof nvm_ss as HS. destruct nvm_buf as (HB & n & Hn).
  assert (forall k m1, partly m E j (cached l) k m1 -> 0 <= k -> k + FLASHBUFFER_SIZE <= SS ->
    forall i, exists k', 0 <= k' <= SS /\ partly m E j (cached l) k'
      (nor_write m1 (E - SS * j - SS + k) (take i (slice l k FLASHBUFFER_SIZE)))) as Hcut.
  { intros k m1 Hk Hk0 Hk1 i. rewrite take_slice. eexists. split; [|apply partly_write; try done]; lia. }
  unfold nvm_write_cache. case_if.
  - apply (swp_ploop (fun '(pos, ret) s => ret = 0 /\ flashLocked s = false /\ 0 <= pos <= SS /\
        (exists q, pos = q * FLASHBUFFER_SIZE) /\ partly m E j (cached l) pos (fmem s))
      (fun '(pos, _) => Z.to_nat (SS - pos))).
    + intros [pos ret] s1 (-> & HL1 & Hpos & (q & Hq) & Hp1). rewrite Z.eqb_refl, andb_true_r.
      destruct (Z.ltb_spec pos SS) as [Hlt|Hge].
      * assert (pos + FLASHBUFFER_SIZE <= SS) as Hfit by (assert (q < n); nia).
        apply swp_bind, swp_write; [done|exists pos; split; [lia|done]|apply Hcut; [done|lia|done]|].
        apply swp_ret; [|simpl; exists (pos + FLASHBUFFER_SIZE); split; [lia|]; apply partly_write; try done; lia].
        split; [|lia]. split; [done|]. split; [done|]. split; [lia|].
        split; [exists (q + 1); lia|]. simpl fmem. apply partly_write; try done; lia.
      * replace pos with SS in Hp1 by lia.
        assert (exists k, 0 <= k <= SS /\ partly m E j (cached l) k (fmem s1)) as Hex
          by (exists SS; split; [lia|done]).
        by apply swp_ret.
    + split; [done|]. split; [done|]. split; [lia|]. split; [by exists 0|done].
    + lia.
  - assert (l = slice l 0 FLASHBUFFER_SIZE) as Hsl.
    { unfold slice. rewrite drop_0, take_ge; [done|]. unfold zlen in *. lia. }
    assert (0 + FLASHBUFFER_SIZE <= SS) as Hfit by lia.
    pose proof (Hcut 0 (fmem s) Hp ltac:(lia) Hfit) as Hc.
    rewrite <- Hsl, Z.add_0_r in Hc.
    apply swp_write; [done|exists 0; split; [lia|done]|done|]. split; [done|]. split; [done|].
    pose proof (partly_write m E j l 0 FLASHBUFFER_SIZE (fmem s) Hp Hb Hl) as Hw.
    rewrite <- Hsl, Z.add_0_r, Z.add_0_l in Hw. rewrite E0 in Hw. apply Hw; lia.
Qed.

(** ** Changing one byte *)

(** [m'] has the trailer [f], or [f] with byte [p] set to [v]. *)
Definition nvm_new (E : Z) (m : mem) (f : Z -> Z) (m' : mem) : Prop :=
  nvm_inv E m' /\ only_trailer E m m' /\ forall off, 1 <= off <= SS -> nvm_view E m' off = f off.

Definition nvm_either (E : Z) (m : mem) (f g : Z -> Z) (m' : mem) : Prop :=
  nvm_new E m f m' \/ nvm_new E m g m'.

Lemma tight_ext f g n :
  (forall off, 1 <= off <= SS -> f off = g off) -> tight g n -> tight f n.
Proof.
  intros H (M & Hn & Ha & Hb). unfold tight, magicf in *. rewrite !H by lia.
  split; [done|]. split; [done|]. split; intros off Ho; rewrite H by lia; auto.
Qed.

Lemma holds_frame E j m m' f i :
  sector_index i -> j = 1 - i -> 0 < SS ->
  (forall a, ~ (E - SS * j - SS <= a < E - SS * j) -> m' a = m a) ->
  holds m E i f -> holds m' E i f.
Proof.
  intros Hi -> HS Hout Hf off Ho. rewrite Hout; [auto|]. unfold sector_index in *. nia.
Qed.

(** While the other sector is programmed. *)
Lemma nvm_written m E i f g n ng k m' :
  sector_index i -> holds m E i f -> tight f n -> tight g ng -> 0 <= k <= SS ->
  partly m E (1 - i) g k m' -> only_trailer E m m' -> nvm_either E m f g m'.
Proof.
  intros Hi Hf T Tg Hk (Hm & Hh & Hout) Ho. pose proof nvm_ss as HS.
  pose proof (holds_frame E (1 - i) m m' f i Hi eq_refl ltac:(lia) Hout Hf) as Hf'.
  destruct (decide (k = SS)) as [-> | Hne].
  - assert (holds m' E (1 - i) g) as Hg'.
    { intros off Hoff. rewrite Hh by done. unfold low_written. case_if; [done|lia]. }
    destruct (nvm_inv_both m' E i f g n ng Hi Hm Hf' Hg' T Tg) as [Hinv [[Hs _]|[Hs _]]];
      [left|right]; (split; [done|]; split; [done|]); intros off Hoff; unfold nvm_view; rewrite Hs; auto.
  - destruct (nvm_inv_only m' E i f _ n Hi Hm Hf' Hh T) as [Hinv Hs].
    { intros (_ & _ & _ & M1). unfold low_written in M1. case_if_in M1; [lia|discriminate]. }
    left. split; [done|]. split; [done|]. intros off Hoff. unfold nvm_view. rewrite Hs. auto.
Qed.

(** While the old sector is erased. *)
Lemma nvm_erasing m0 m E i f g n ng k :
  sector_index i -> mem_ok m -> holds m E i f -> holds m E (1 - i) g -> tight f n -> tight g ng ->
  n <= ng -> 0 <= k <= SS -> only_trailer E m0 m ->
  let m' := nor_erase m (E - SS * i - SS) k in
  nvm_either E m0 f g m' /\ (k = SS -> nvm_new E m0 g m').
Proof.
  intros Hi Hm Hf Hg T Tg Hle Hk Ho m'. pose proof nvm_ss as HS.
  assert (mem_ok m') as Hm' by (by apply mem_ok_erase).
  assert (sector_index (1 - i)) as Hj by (unfold sector_index in *; lia).
  assert (holds m' E (1 - i) g) as Hg'.
  { unfold m'. replace i with (1 - (1 - i)) at 1 by lia. apply holds_erase_other; [done..|lia]. }
  assert (holds m' E (1 - (1 - i)) (low_erased f k)) as Hf'.
  { replace (1 - (1 - i)) with i by lia. by apply holds_erase. }
  assert (only_trailer E m0 m') as Ho'.
  { eapply only_trailer_trans; [done|]. apply only_trailer_erase; [done|lia|lia]. }
  assert (nvm_inv E m' -> nvm_sel m' E = 1 - i -> nvm_new E m0 g m') as Hnew.
  { intros Hinv Hs. split; [done|]. split; [done|]. intros off Hoff. unfold nvm_view. rewrite Hs. auto. }
  destruct (decide (magicf (low_erased f k))) as [Mf|Mf].
  - apply low_erased_magic in Mf as [_ Hk2]; [|lia]. split; [|lia].
    destruct (low_erased_tight f n k T ltac:(lia)) as [(n' & Hn' & T')|Hsame].
    + destruct (nvm_inv_both m' E (1 - i) g _ ng n' Hj Hm' Hg' Hf' Tg T') as [Hinv Hd].
      right. apply Hnew; [done|]. lia.
    + assert (tight (low_erased f k) n) as T' by (by apply (tight_ext _ f)).
      destruct (nvm_inv_both m' E (1 - i) g _ ng n Hj Hm' Hg' Hf' Tg T') as [Hinv [[Hs _]|[Hs _]]].
      * right. auto.
      * left. split; [done|]. split; [done|]. intros off Hoff. unfold nvm_view.
        rewrite Hs, Hf' by done. by apply Hsame.
  - destruct (nvm_inv_only m' E (1 - i) g _ ng Hj Hm' Hg' Hf' Tg Mf) as [Hinv Hs].
    split; [right|intros _]; auto.
Qed.

Lemma nvm_new_weaken E m0 m f g m' :
  only_trailer E m0 m -> (forall off, 1 <= off <= SS -> f off = g off) ->
  nvm_new E m f m' -> nvm_new E m0 g m'.
Proof.
  intros Ho Hfg (H1 & H2 & H3). split; [done|]. split; [by eapply only_trailer_trans|].
  intros off Hoff. rewrite H3 by done. auto.
Qed.

Lemma partly_only m E j f k m' :
  sector_index j -> partly m E j f k m' -> only_trailer E m m'.
Proof. intros Hj (_ & _ & Hout) a Ha. apply Hout. pose proof nvm_ss. unfold sector_index in *. nia. Qed.

Lemma partly_erased m E j f :
  mem_ok m -> partly m E j f 0 (nor_erase m (E - SS * j - SS) SS).
Proof.
  intros Hm. split; [by apply mem_ok_erase|]. split.
  - intros off Hoff. rewrite nor_erase_in by lia. unfold low_written. case_if; [lia|done].
  - intros a Ha. apply nor_erase_out. lia.
Qed.

(** The trailer moves to the other sector: program it, then erase the old. *)
Lemma nvm_move_spec s E i f l n ng :
  let C := nvm_either E (fmem s) f (cached l) in
  sector_index i -> nvm_inv E (fmem s) -> nvm_sel (fmem s) E = i -> flashLocked s = false ->
  holds (fmem s) E i f -> tight f n -> bytes l -> zlen l = SS -> tight (cached l) ng -> n <= ng ->
  swp s (let* _ := flash_erase (E - SS * (1 - i) - SS) SS in
         let* ret := nvm_write_cache (E - SS * (1 - i) - SS) l in
         if negb (ret =? 0) then Ret ret else flash_erase (E - SS * i - SS) SS)
    (fun _ s' => flashLocked s' = false /\ nvm_new E (fmem s) (cached l) (fmem s') /\ C (fmem s')) C.
Proof.
  intros C Hi Hinv Hsel HL Hf T Hb Hl Tg Hle. pose proof nvm_ss as HS.
  assert (mem_ok (fmem s)) as Hm by (by destruct Hinv).
  assert (sector_index (1 - i)) as Hj by (unfold sector_index in *; lia).
  assert (forall m', nvm_same E (fmem s) m' -> C m') as HC.
  { intros m' (H1 & H2 & H3 & H4). left. split; [done|]. split; [done|]. intros off Hoff.
    rewrite H4 by done. unfold nvm_view. rewrite Hsel. auto. }
  apply swp_bind, swp_erase; [done|lia| |by apply HC|].
  { intros k Hk. apply HC. rewrite <- Hsel. by apply nvm_same_erase. }
  apply swp_bind. eapply swp_mono; [by apply nvm_write_cache_spec; [..|apply partly_erased]|..].
  2:{ intros m' (k & Hk & Hp). apply (nvm_written _ E i f _ n ng k); eauto using partly_only. }
  intros ret s3 (-> & HL3 & Hp3). simpl negb. cbv iota. assert (0 <= SS <= SS) as Hk by lia.
  pose proof (partly_only _ _ _ _ _ _ Hj Hp3) as Ho3. pose proof Hp3 as (Hm3 & Hh3 & Hout3).
  assert (holds (fmem s3) E (1 - i) (cached l)) as Hg3.
  { intros off Hoff. rewrite Hh3 by done. unfold low_written. case_if; [done|lia]. }
  assert (holds (fmem s3) E i f) as Hf3
    by (by apply (holds_frame E (1 - i) (fmem s) _ f i); try lia).
  pose proof (fun k Hk => nvm_erasing (fmem s) (fmem s3) E i f _ n ng k Hi Hm3 Hf3 Hg3 T Tg Hle Hk Ho3)
    as Hfin. cbv zeta in Hfin.
  apply swp_erase; [done|lia|intros k Hk'; by apply Hfin| |].
  - by apply (nvm_written _ E i f _ n ng SS).
  - split; [done|]. split; by apply Hfin.
Qed.

(** [set_trailer_at] on a partition in use: the trailer at every point is the old
    one or the new one, and at the end it is the new one. *)
Lemma nvm_set_trailer_spec part at_ v s n :
  let E := nvm_endflags part in
  let f := nvm_view E (fmem s) in
  let g := upd f (4 + at_) v in
  part = PART_BOOT \/ part = PART_UPDATE ->
  nvm_inv E (fmem s) -> flashLocked s = false -> is_byte v -> v <> FF ->
  tight f n -> 5 <= 4 + at_ <= n -> 4 + at_ <= SS - 2 ->
  swp s (nvm_set_trailer_at part at_ v)
    (fun _ s' => flashLocked s' = false /\ nvm_new E (fmem s) g (fmem s'))
    (nvm_either E (fmem s) f g).
Proof.
  intros E f g Hpart Hinv HL Hv HvF T Hat Hat2. pose proof nvm_ss as HS.
  unfold nvm_set_trailer_at.
  replace ((part =? PART_BOOT) || (part =? PART_UPDATE)) with true by (by destruct Hpart as [-> | ->]).
  apply swp_bind. unfold nvm_trailer_write.
  destruct (nvm_addr_split E (4 + at_) (nvm_endflags_mod part) ltac:(lia)) as (Ha1 & Ha2 & _).
  fold E. rewrite Ha1, Ha2. apply swp_bind. eapply swp_mono; [by apply nvm_select_spec|..].
  2:{ intros m' (H1 & H2 & H3 & H4). by left. }
  fold E. intros sel s1 (-> & HL1 & (Hinv1 & Hsel1 & Ho1 & Hv1) & _).
  pose proof (nvm_sel_index E _ Hinv) as Hi. rewrite (lnot_index _ Hi).
  set (i := nvm_sel (fmem s) E) in *. apply swp_look; [by left|].
  replace (E - SS - i * SS) with (E - SS * i - SS) by lia.
  replace (E - SS - (1 - i) * SS) with (E - SS * (1 - i) - SS) by lia.
  assert (holds (fmem s1) E i f) as Hf1.
  { intros off Hoff. specialize (Hv1 off Hoff). unfold nvm_view in Hv1. by rewrite Hsel1 in Hv1. }
  set (l := <[_ := v]> _).
  assert (forall off, 1 <= off <= SS -> cached l off = g off) as Hcg.
  { intros off Hoff. unfold cached, l, g, upd. destruct (Z.eqb_spec off (4 + at_)) as [->|Hne].
    - apply at_insert_eq. rewrite mread_length; lia.
    - rewrite at_insert_ne, mread_at by lia. rewrite <- Hf1 by done. f_equal. lia. }
  destruct (tight_upd f n (4 + at_) v T Hat Hat2 HvF) as (ng & Hng & Tg).
  assert (mem_ok (fmem s1)) as Hm1 by (by destruct Hinv1).
  eapply swp_mono; [apply (nvm_move_spec s1 E i f l n ng); try done|..].
  - apply bytes_insert; [by apply mread_bytes|done].
  - unfold l. rewrite zlen_insert, mread_length; lia.
  - by apply (tight_ext _ g).
  - intros _ s2 (HL2 & Hn2 & Hc2).
    assert (nvm_new E (fmem s) g (fmem s2)) by (by eapply nvm_new_weaken).
    apply swp_ret; [done|by right].
  - intros m' [Hw|Hw]; [left|right]; (eapply nvm_new_weaken; [exact Ho1| |exact Hw]); auto.
Qed.

(** ** Reading the trailer *)

Lemma nvm_same_trans E m1 m2 m3 : nvm_same E m1 m2 -> nvm_same E m2 m3 -> nvm_same E m1 m3.
Proof.
  intros (H1 & H2 & H3 & H4) (H5 & H6 & H7 & H8). split; [done|]. split; [congruence|].
  split; [by eapply only_trailer_trans|]. intros off Ho. rewrite H8 by done. auto.
Qed.

Lemma nvm_get_trailer_spec part at_ s :
  let E := nvm_endflags part in
  part = PART_BOOT \/ part = PART_UPDATE -> nvm_inv E (fmem s) -> flashLocked s = false ->
  swp s (nvm_get_trailer_at part at_)
    (fun r s' => r = Some (E - SS * nvm_sel (fmem s) E - (4 + at_)) /\ flashLocked s' = false /\
       nvm_same E (fmem s) (fmem s'))
    (nvm_same E (fmem s)).
Proof.
  intros E Hp Hinv HL. unfold nvm_get_trailer_at.
  replace ((part =? PART_BOOT) || (part =? PART_UPDATE)) with true by (by destruct Hp as [-> | ->]).
  apply swp_bind. eapply swp_mono; [by apply nvm_select_spec|..|done].
  fold E. intros sel s1 (-> & HL1 & Hs1 & _). apply swp_ret; [|done].
  split; [f_equal; lia|done].
Qed.

(** Reading a byte of the trailer, or its magic, and going on. *)
Lemma nvm_get8 {A} part at_ s (k : Z -> prog A) Q C :
  let E := nvm_endflags part in
  part = PART_BOOT \/ part = PART_UPDATE -> nvm_inv E (fmem s) -> flashLocked s = false ->
  (forall m', nvm_same E (fmem s) m' -> C m') -> 1 <= 4 + at_ <= SS ->
  (forall s', flashLocked s' = false -> nvm_same E (fmem s) (fmem s') ->
     swp s' (k (nvm_view E (fmem s) (4 + at_))) Q C) ->
  swp s (let* p := nvm_get_trailer_at part at_ in let* b := deref8 p in k b) Q C.
Proof.
  intros E Hp Hinv HL HC Hat Hk. apply swp_bind. eapply swp_mono; [by apply nvm_get_trailer_spec|..|done].
  fold E. intros r s1 (-> & HL1 & Hs1). apply swp_bind, swp_look; [auto|]. apply swp_ret; [|auto].
  pose proof Hs1 as (_ & Hsel & _ & Hv). specialize (Hv (4 + at_) Hat).
  unfold nvm_view in Hv at 1. rewrite Hsel in Hv. rewrite Hv. auto.
Qed.

Lemma nvm_get_magic {A} part s (k : Z -> prog A) Q C :
  let E := nvm_endflags part in
  part = PART_BOOT \/ part = PART_UPDATE -> nvm_inv E (fmem s) -> flashLocked s = false ->
  (forall m', nvm_same E (fmem s) m' -> C m') ->
  (forall s', flashLocked s' = false -> nvm_same E (fmem s) (fmem s') ->
     swp s' (k WOLFBOOT_MAGIC_TRAIL) Q C) ->
  swp s (let* p := nvm_get_trailer_at part 0 in let* b := deref32 p in k b) Q C.
Proof.
  intros E Hp Hinv HL HC Hk. pose proof nvm_ss as HS.
  apply swp_bind. eapply swp_mono; [by apply nvm_get_trailer_spec|..|done].
  fold E. intros r s1 (-> & HL1 & Hs1). apply swp_bind, swp_look; [auto|]. apply swp_ret; [|auto].
  pose proof Hs1 as ((Hm & i & f & g & Hi & Hf & _ & Hs & (n & M & _) & _) & Hsel & _).
  apply holds_magic in Hf; [|done|lia]. rewrite bool_decide_true in Hf by done.
  apply Z.eqb_eq in Hf. rewrite <- Hsel, Hs, Z.add_0_r, Hf. auto.
Qed.

Lemma nvm_same_either E m f m' : nvm_same E m m' -> nvm_either E m (nvm_view E m) f m'.
Proof. intros (H1 & H2 & H3 & H4). by left. Qed.

Lemma nvm_view_tight E m : nvm_inv E m -> exists n, tight (nvm_view E m) n.
Proof.
  intros (_ & i & f & g & _ & Hf & _ & Hs & (n & T) & _). exists n. eapply tight_ext; [|done].
  intros off Ho. unfold nvm_view. rewrite Hs. auto.
Qed.

(** Changing a byte after it was read. *)
Lemma nvm_set_after E m s part at_ v n :
  E = nvm_endflags part -> part = PART_BOOT \/ part = PART_UPDATE ->
  nvm_same E m (fmem s) -> flashLocked s = false -> is_byte v -> v <> FF ->
  tight (nvm_view E m) n -> 5 <= 4 + at_ <= n -> 4 + at_ <= SS - 2 ->
  swp s (nvm_set_trailer_at part at_ v)
    (fun _ s' => flashLocked s' = false /\ nvm_new E m (upd (nvm_view E m) (4 + at_) v) (fmem s'))
    (nvm_either E m (nvm_view E m) (upd (nvm_view E m) (4 + at_) v)).
Proof.
  intros -> Hp (Hinv & Hsel & Ho & Hv) HL Hb HvF T H1 H2.
  assert (forall off, 1 <= off <= SS -> upd (nvm_view (nvm_endflags part) (fmem s)) (4 + at_) v off =
    upd (nvm_view (nvm_endflags part) m) (4 + at_) v off) as Hu.
  { intros off Hoff. unfold upd. case_if; auto. }
  eapply swp_mono; [apply (nvm_set_trailer_spec part at_ v s n); try done|..].
  - by apply (tight_ext _ (nvm_view (nvm_endflags part) m)).
  - intros _ s' [HL' Hn]. split; [done|]. by eapply nvm_new_weaken.
  - intros m' [Hn|Hn]; [left|right]; (eapply nvm_new_weaken; [exact Ho| |exact Hn]); auto.
Qed.

(** The partition state of a trailer in use. *)
Lemma nvm_set_state_spec part newst s :
  let E := nvm_endflags part in
  let f := nvm_view E (fmem s) in
  part = PART_BOOT \/ part = PART_UPDATE -> nvm_inv E (fmem s) -> flashLocked s = false ->
  0 <= newst < 255 ->
  swp s (nvm_set_partition_state part newst)
    (fun r s' => r = 0 /\ flashLocked s' = false /\ nvm_new E (fmem s) (upd f 5 newst) (fmem s'))
    (nvm_either E (fmem s) f (upd f 5 newst)).
Proof.
  intros E f Hp Hinv HL Hn. pose proof nvm_ss as HS.
  destruct (nvm_view_tight E _ Hinv) as (n & T). pose proof T as (_ & Hn5 & _).
  unfold nvm_set_partition_state. rewrite part_not_none by done.
  apply nvm_get_magic; [done..|apply nvm_same_either|]. intros s1 HL1 Hs1. cbn [Z.eqb].
  rewrite Z.eqb_refl, pbind_ret. pose proof Hs1 as (Hinv1 & _ & Ho1 & Hv1).
  apply nvm_get8; [done..| |lia|].
  { intros m' Hm'. apply nvm_same_either. by eapply nvm_same_trans. }
  intros s2 HL2 Hs2. rewrite Hv1 by lia. change (4 + 1) with 5.
  change (nvm_endflags part) with E.
  pose proof (nvm_same_trans _ _ _ _ Hs1 Hs2) as Hs.
  destruct (Z.eqb_spec (nvm_view E (fmem s) 5) newst) as [He|He].
  - rewrite pbind_ret. apply swp_ret; [|by apply nvm_same_either].
    split; [done|]. split; [done|]. destruct Hs as (H1 & H2 & H3 & H4). split; [done|].
    split; [done|]. intros off Ho. unfold upd. destruct (Z.eqb_spec off 5) as [->|]; [|auto].
    rewrite H4 by lia. done.
  - assert (is_byte newst) by (unfold is_byte; lia).
    assert (newst <> FF) by (unfold FLASH_BYTE_ERASED; lia).
    apply swp_bind. eapply swp_mono; [apply (nvm_set_after E (fmem s) s2 part 1 newst n); try done; lia|..].
    + intros _ s3 [HL3 Hn3]. apply swp_ret; [by auto|by right].
    + done.
Qed.

Lemma nvm_get_state_spec part st s :
  let E := nvm_endflags part in
  part = PART_BOOT \/ part = PART_UPDATE -> nvm_inv E (fmem s) -> flashLocked s = false ->
  swp s (nvm_get_partition_state part st)
    (fun r s' => r = (0, nvm_view E (fmem s) 5) /\ flashLocked s' = false /\
       nvm_same E (fmem s) (fmem s'))
    (nvm_same E (fmem s)).
Proof.
  intros E Hp Hinv HL. pose proof nvm_ss as HS. unfold nvm_get_partition_state.
  rewrite part_not_none by done. apply nvm_get_magic; [done..|]. intros s1 HL1 Hs1.
  rewrite Z.eqb_refl. cbn [negb]. pose proof Hs1 as (Hinv1 & _ & _ & Hv1).
  apply nvm_get8; [done..| |lia|].
  { intros m' Hm'. by eapply nvm_same_trans. }
  intros s2 HL2 Hs2. rewrite Hv1 by lia. change (4 + 1) with 5.
  change (nvm_endflags part) with E.
  pose proof (nvm_same_trans _ _ _ _ Hs1 Hs2). by apply swp_ret.
Qed.

(** *** Sector flags *)

Lemma nvm_new_same E m m' p v :
  nvm_same E m m' -> nvm_view E m p = v -> nvm_new E m (upd (nvm_view E m) p v) m'.
Proof.
  intros (H1 & H2 & H3 & H4) Hp. split; [done|]. split; [done|]. intros off Ho.
  rewrite H4 by done. unfold upd. case_if; [congruence|done].
Qed.

Lemma nvm_set_flag_spec sector nf s n :
  let E := nvm_endflags PART_UPDATE in
  let f := nvm_view E (fmem s) in
  let p := 6 + sector / 2 in
  let fl := flag_byte sector (f p) nf in
  nvm_inv E (fmem s) -> flashLocked s = false -> 0 <= sector < 2 ^ 16 -> 0 <= nf < 16 ->
  tight f n -> p <= n -> p <= SS - 2 -> fl <> FF ->
  swp s (nvm_set_update_sector_flag sector nf)
    (fun r s' => r = 0 /\ flashLocked s' = false /\ nvm_new E (fmem s) (upd f p fl) (fmem s'))
    (nvm_either E (fmem s) f (upd f p fl)).
Proof.
  intros E f p fl Hinv HL Hsec Hnf T Hp1 Hp2 Hfl.
  assert (part_ok : PART_UPDATE = PART_BOOT \/ PART_UPDATE = PART_UPDATE) by auto.
  assert (5 <= p) by (unfold p; dlia).
  unfold nvm_set_update_sector_flag. rewrite u16_small, even_shift by done.
  replace (2 + Z.shiftr sector 1) with (p - 4)
    by (unfold p; rewrite Z.shiftr_div_pow2 by lia; change (2 ^ 1) with 2; lia).
  apply nvm_get_magic; [done..|apply nvm_same_either|]. intros s1 HL1 Hs1.
  rewrite Z.eqb_refl, pbind_ret. pose proof Hs1 as (Hinv1 & _ & Ho1 & Hv1).
  apply nvm_get8; [done..| |lia|].
  { intros m' Hm'. apply nvm_same_either. by eapply nvm_same_trans. }
  intros s2 HL2 Hs2. rewrite Hv1 by lia. change (nvm_endflags PART_UPDATE) with E.
  replace (4 + (p - 4)) with p by lia. fold f.
  change (if Z.even sector then _ else _) with fl.
  pose proof (nvm_same_trans _ _ _ _ Hs1 Hs2) as Hs.
  destruct (Z.eqb_spec fl (f p)) as [He|He].
  - rewrite pbind_ret. apply swp_ret; [|by apply nvm_same_either].
    split; [done|]. split; [done|]. by apply nvm_new_same.
  - assert (is_byte fl).
    { unfold fl. apply flag_byte_spec; [|done]. apply (proj1 Hinv). }
    apply swp_bind. eapply swp_mono;
      [apply (nvm_set_after E (fmem s) s2 PART_UPDATE (p - 4) fl n); try done; lia|..];
      replace (4 + (p - 4)) with p by lia.
    + intros _ s3 [HL3 Hn3]. apply swp_ret; [by auto|by right].
    + done.
Qed.

Lemma nvm_get_flag_spec sector flag s :
  let E := nvm_endflags PART_UPDATE in
  nvm_inv E (fmem s) -> flashLocked s = false -> 0 <= sector < 2 ^ 16 -> 6 + sector / 2 <= SS ->
  swp s (nvm_get_update_sector_flag sector flag)
    (fun r s' => r = (0, nibble sector (nvm_view E (fmem s) (6 + sector / 2))) /\
       flashLocked s' = false /\ nvm_same E (fmem s) (fmem s'))
    (nvm_same E (fmem s)).
Proof.
  intros E Hinv HL Hsec Hp.
  assert (part_ok : PART_UPDATE = PART_BOOT \/ PART_UPDATE = PART_UPDATE) by auto.
  assert (0 <= sector / 2) by dlia.
  unfold nvm_get_update_sector_flag. rewrite u16_small, even_shift by done.
  replace (2 + Z.shiftr sector 1) with (2 + sector / 2) by (by rewrite Z.shiftr_div_pow2 by lia).
  apply nvm_get_magic; [done..|]. intros s1 HL1 Hs1. rewrite Z.eqb_refl. cbn [negb].
  pose proof Hs1 as (Hinv1 & _ & Ho1 & Hv1).
  apply nvm_get8; [done..| |lia|].
  { intros m' Hm'. by eapply nvm_same_trans. }
  intros s2 HL2 Hs2. rewrite Hv1 by lia. replace (4 + (2 + sector / 2)) with (6 + sector / 2) by lia.
  pose proof (nvm_same_trans _ _ _ _ Hs1 Hs2). unfold nibble.
  destruct (Z.even sector); by apply swp_ret.
Qed.

(** ** First use of a trailer *)

(** No trailer yet: both sectors are erased, but for an unfinished magic word in
    the second one. *)
Definition nvm_blank (E : Z) (m : mem) : Prop :=
  mem_ok m /\ holds m E 0 (fun _ => FF) /\
  exists g, holds m E 1 g /\ (forall off, 5 <= off <= SS -> g off = FF) /\ ~ magicf g.

(** A trailer with nothing but the magic word. *)
Definition bare (off : Z) : Z := if off <=? 4 then at_ wolfboot_magic_trail (4 - off) else FF.

Lemma bare_tight : tight bare 5.
Proof.
  pose proof nvm_ss. split; [done|]. split; [lia|]. unfold bare.
  split; intros off Ho; case_if; try lia; try done. by replace off with 4 by lia.
Qed.

Lemma erased_no_magic : ~ magicf (fun _ => FF).
Proof. by intros (? & _). Qed.

Lemma nvm_blank_sel E m : nvm_blank E m -> nvm_sel m E = 0.
Proof.
  intros (Hm & H0 & g & H1 & _ & Mg). pose proof nvm_ss. unfold nvm_sel.
  apply holds_magic in H0; [|done|lia]. apply holds_magic in H1; [|done|lia].
  rewrite bool_decide_false in H0 by apply erased_no_magic. rewrite bool_decide_false in H1 by done.
  replace (E - 4) with (E - SS * 0 - 4) by lia. replace (E - (SS + 4)) with (E - SS * 1 - 4) by lia.
  by rewrite H0, H1.
Qed.

Lemma nvm_blank_erase E m k :
  nvm_blank E m -> 0 <= k <= SS -> nvm_blank E (nor_erase m (E - SS * 1 - SS) k).
Proof.
  intros (Hm & H0 & g & H1 & Hg & Mg) Hk. split; [by apply mem_ok_erase|]. split.
  - change 1 with (1 - 0). apply holds_erase_other; [by left|done|lia].
  - exists (low_erased g k). split; [by apply holds_erase|]. split.
    + intros off Ho. unfold low_erased. case_if; auto.
    + intros M. apply low_erased_magic in M as [M _]; [done|lia].
Qed.

(** Choosing a sector of a blank partition clears the second one. *)
Lemma nvm_select_blank part s :
  let E := nvm_endflags part in
  nvm_blank E (fmem s) -> flashLocked s = false ->
  swp s (nvm_select_fresh_sector part)
    (fun r s' => r = 0 /\ flashLocked s' = false /\ nvm_blank E (fmem s') /\
       only_trailer E (fmem s) (fmem s') /\ holds (fmem s') E 1 (fun _ => FF))
    (fun m' => nvm_blank E m' /\ only_trailer E (fmem s) m').
Proof.
  intros E Hb HL. pose proof nvm_ss as HS. pose proof (nvm_blank_sel E _ Hb) as Hsel.
  pose proof (only_trailer_refl E (fmem s)) as Hor.
  unfold nvm_select_fresh_sector. apply swp_look; [done|].
  rewrite <- nvm_endflags_eq. change (nvm_endflags part) with E. rewrite Hsel.
  change (lnot 0) with 1. replace (E - SS - SS * 1) with (E - SS * 1 - SS) by lia.
  assert (forall k, k <= SS -> only_trailer E (fmem s) (nor_erase (fmem s) (E - SS * 1 - SS) k)) as Hoe
    by (intros; apply only_trailer_erase; [by right|lia|lia]).
  destruct (Z.eqb_spec (mle32 (fmem s) (E - SS * 1 - SS + SS - 4)) FLASH_WORD_ERASED) as [He|He].
  - rewrite pbind_ret. apply swp_ret; [|done]. do 3 (split; [done|]). split; [done|].
    destruct Hb as (Hm & H0 & g & H1 & Hg & Mg). apply mle32_erased in He as (W0 & W1 & W2 & W3); [|done].
    intros off Ho. destruct (decide (5 <= off)); [rewrite H1 by done; auto with lia|].
    assert (off = 4 \/ off = 3 \/ off = 2 \/ off = 1) as [->|[->|[-> | ->]]] by lia;
      [rewrite <- W0|rewrite <- W1|rewrite <- W2|rewrite <- W3]; f_equal; lia.
  - apply swp_bind, swp_erase; [done|lia| |done|].
    + intros k Hk. split; [by apply nvm_blank_erase|]. apply Hoe. lia.
    + assert (0 <= SS <= SS) as Hk by lia. pose proof (nvm_blank_erase E _ SS Hb Hk) as Hb'.
      apply swp_ret; [|split; [done|apply Hoe; lia]]. do 3 (split; [done|]). split; [apply Hoe; lia|].
      intros off Ho. simpl fmem. by rewrite nor_erase_in by lia.
Qed.

(** A magic word half written leaves the partition blank. *)
Lemma nvm_blank_partly E m k m' :
  holds m E 0 (fun _ => FF) -> 0 <= k < SS -> partly m E 1 bare k m' -> nvm_blank E m'.
Proof.
  intros H0 Hk (Hm & Hh & Hout). pose proof nvm_ss. split; [done|]. split.
  - by apply (holds_frame E 1 m m' _ 0); [left|lia|lia|..].
  - exists (low_written bare k). split; [done|]. split.
    + intros off Ho. unfold low_written, bare. repeat (case_if; try lia); done.
    + intros (_ & _ & _ & M1). unfold low_written in M1. case_if_in M1; [lia|discriminate].
Qed.

Lemma partly_ext m E j f g k m' :
  (forall off, 1 <= off <= SS -> f off = g off) -> partly m E j f k m' -> partly m E j g k m'.
Proof.
  intros H (Hm & Hh & Hout). split; [done|]. split; [|done]. intros off Ho. rewrite Hh by done.
  unfold low_written. case_if; auto.
Qed.

(** The sector in use is the second one, with only the magic word. *)
Lemma nvm_bare_new E m0 m :
  mem_ok m -> holds m E 1 bare -> holds m E 0 (fun _ => FF) -> only_trailer E m0 m ->
  nvm_new E m0 bare m.
Proof.
  intros Hm H1 H0 Ho.
  destruct (nvm_inv_only m E 1 bare (fun _ => FF) 5) as [Hinv Hs];
    [by right|done..|apply bare_tight|apply erased_no_magic|].
  split; [done|]. split; [done|]. intros off Hoff. unfold nvm_view. rewrite Hs. auto.
Qed.

(** The sector buffer that [partition_magic_write] programs. *)
Lemma magic_cache m E :
  holds m E 0 (fun _ => FF) ->
  let l := put (mread m (E - SS) SS) (SS - 4) wolfboot_magic_trail in
  zlen l = SS /\ forall off, 1 <= off <= SS -> cached l off = bare off.
Proof.
  intros H0 l. pose proof nvm_ss. destruct magic_trail_bytes as [Hml _].
  set (d := mread m (E - SS) SS) in *. assert (zlen d = SS) as Hd by (apply mread_length; lia).
  assert (zlen (take (Z.to_nat (SS - 4)) d) = SS - 4) as Ht
    by (unfold zlen in *; rewrite length_take; lia).
  assert (l = take (Z.to_nat (SS - 4)) d ++ wolfboot_magic_trail) as ->.
  { unfold l, put. rewrite Hml, (drop_ge d), app_nil_r; [done|]. unfold zlen in *. lia. }
  split; [rewrite zlen_app; lia|]. intros off Ho. unfold cached, bare. case_if.
  - rewrite at_app_r by lia. f_equal. lia.
  - rewrite at_app_l by lia. unfold at_. rewrite lookup_take_lt by lia. fold (at_ d (SS - off)).
    unfold d. rewrite mread_at by lia. replace (E - SS + (SS - off)) with (E - SS * 0 - off) by lia.
    by apply H0.
Qed.

(** The second sector while the magic is programmed into it. *)
Lemma magic_partly m E l k :
  mem_ok m -> holds m E 1 (fun _ => FF) -> bytes l -> zlen l = SS ->
  (forall off, 1 <= off <= SS -> cached l off = bare off) -> 0 <= k <= SS ->
  partly m E 1 bare k (nor_write m (E - SS * 1 - SS) (slice l 0 k)).
Proof.
  intros Hm H1 Hb Hl Hc Hk. apply (partly_ext _ _ _ _ _ _ _ Hc).
  assert (partly m E 1 (cached l) 0 m) as Hp0.
  { split; [done|]. split; [|done]. intros off Ho. rewrite H1 by done. unfold low_written.
    case_if; [lia|done]. }
  pose proof (partly_write m E 1 l 0 k m Hp0 Hb Hl) as Hw.
  rewrite Z.add_0_r, Z.add_0_l in Hw. apply Hw; lia.
Qed.

(** The magic is in place, and the low end of the first sector erased. *)
Lemma magic_done m0 m E k m' :
  holds m E 0 (fun _ => FF) -> only_trailer E m0 m -> partly m E 1 bare SS m' -> 0 <= k <= SS ->
  nvm_new E m0 bare (nor_erase m' (E - SS * 0 - SS) k).
Proof.
  intros H0 Ho Hp Hk. pose proof nvm_ss. pose proof Hp as (Hm & Hh & Hout).
  assert (sector_index 1) as Hi1 by (by right).
  assert (holds m' E 0 (fun _ => FF)) as Hh0
    by (apply (holds_frame E 1 m m' _ 0); [by left|lia|lia|done|done]).
  apply nvm_bare_new; [by apply mem_ok_erase|..].
  - change 0 with (1 - 1). apply holds_erase_other; [done| |lia]. intros off Hoff.
    rewrite Hh by done. unfold low_written. case_if; [done|lia].
  - intros off Hoff. rewrite (holds_erase _ 0 _ _ _ Hh0) by done. unfold low_erased. by case_if.
  - eapply only_trailer_trans; [done|].
    eapply only_trailer_trans; [by eapply partly_only|]. apply only_trailer_erase; [by left|lia|lia].
Qed.

(** Where the magic can be when power fails. *)
Definition blank_or_bare (E : Z) (m m' : mem) : Prop :=
  (nvm_blank E m' /\ only_trailer E m m') \/ nvm_new E m bare m'.

Lemma magic_program_spec m0 s E l :
  nvm_blank E (fmem s) -> only_trailer E m0 (fmem s) -> holds (fmem s) E 1 (fun _ => FF) ->
  flashLocked s = false -> bytes l -> zlen l = SS ->
  (forall off, 1 <= off <= SS -> cached l off = bare off) ->
  swp s (let* ret := flash_write (E - SS * 1 - SS) l in
         if negb (ret =? 0) then Ret ret else flash_erase (E - SS * 0 - SS) SS)
    (fun _ s' => flashLocked s' = false /\ nvm_new E m0 bare (fmem s')) (blank_or_bare E m0).
Proof.
  intros Hb Ho H1 HL Hlb Hl Hc. pose proof nvm_ss as HS. pose proof Hb as (Hm & H0 & _).
  assert (sector_index 1) as Hi1 by (by right).
  pose proof (fun k => magic_partly (fmem s) E l k Hm H1 Hlb Hl Hc) as Hpk.
  assert (l = slice l 0 SS) as Hsl
    by (unfold slice; rewrite drop_0, take_ge; [done|unfold zlen in *; lia]).
  assert (0 <= SS <= SS) as Hk by lia. pose proof (Hpk SS Hk) as HpS. rewrite <- Hsl in HpS.
  pose proof (fun k => magic_done m0 (fmem s) E k _ H0 Ho HpS) as Hfull.
  assert (nvm_new E m0 bare (nor_write (fmem s) (E - SS * 1 - SS) l)) as Hw.
  { assert (holds (nor_write (fmem s) (E - SS * 1 - SS) l) E 0 (fun _ => FF)) as Hh0.
    { apply (holds_frame E 1 (fmem s) _ _ 0); [by left|lia|lia|by destruct HpS as (_ & _ & ?)|done]. }
    destruct HpS as (Hm' & Hh' & Ho'). apply nvm_bare_new; [done| |done|].
    - intros off Hoff. rewrite Hh' by done. unfold low_written. case_if; [done|lia].
    - eapply only_trailer_trans; [done|]. intros a Ha. apply Ho'. lia. }
  apply swp_bind, swp_write; [done|by left| |].
  - intros i. rewrite Hsl, take_slice. set (k := Z.min _ _). assert (0 <= k <= SS) as Hk' by lia.
    destruct (decide (k = SS)) as [-> | Hne]; [right; by rewrite <- Hsl|]. left. split.
    + apply (nvm_blank_partly E (fmem s) k); [done|lia|auto].
    + eapply only_trailer_trans; [done|]. eapply partly_only; [done|]. auto.
  - cbn [Z.eqb negb]. apply swp_erase; [done|lia|right; auto|by right|]. split; [done|]. simpl fmem. auto.
Qed.

Lemma nvm_set_magic_spec part s :
  let E := nvm_endflags part in
  part = PART_BOOT \/ part = PART_UPDATE -> nvm_blank E (fmem s) -> flashLocked s = false ->
  swp s (nvm_set_partition_magic part)
    (fun _ s' => flashLocked s' = false /\ nvm_new E (fmem s) bare (fmem s'))
    (blank_or_bare E (fmem s)).
Proof.
  intros E Hp Hb HL. pose proof nvm_ss as HS. unfold nvm_set_partition_magic.
  replace ((part =? PART_BOOT) || (part =? PART_UPDATE)) with true by (by destruct Hp as [-> | ->]).
  apply swp_bind. unfold nvm_partition_magic_write.
  destruct (nvm_addr_split E 4 (nvm_endflags_mod part) ltac:(lia)) as (_ & _ & Hmod).
  change (nvm_endflags part) with E. rewrite Hmod. apply swp_bind.
  eapply swp_mono; [by apply nvm_select_blank|..]; change (nvm_endflags part) with E; [|by left].
  intros sel s1 (-> & HL1 & Hb1 & Ho1 & H1). apply swp_look; [by left|].
  pose proof Hb1 as (Hm1 & H0 & _). destruct (magic_cache _ _ H0) as [Hl Hc].
  replace (E - 4 - (SS - 4) - 0 * SS) with (E - SS * 0 - SS) by lia.
  replace (E - SS) with (E - SS * 0 - SS) in Hl, Hc by lia.
  change (lnot 0) with 1. replace (E - 4 - (SS - 4) - 1 * SS) with (E - SS * 1 - SS) by lia.
  eapply swp_mono; [apply (magic_program_spec (fmem s)); try done|..|done].
  - repeat apply Forall_app_2;
      [by apply Forall_take, mread_bytes|apply magic_trail_bytes|by apply Forall_drop, mread_bytes].
  - intros _ s2 [HL2 Hn2]. apply swp_ret; [done|by right].
Qed.

Lemma nvm_blank_magic E m :
  nvm_blank E m -> (mle32 m (E - SS * 0 - 4) =? WOLFBOOT_MAGIC_TRAIL) = false.
Proof.
  intros (Hm & H0 & _). pose proof nvm_ss. apply holds_magic in H0; [|done|lia].
  by rewrite bool_decide_false in H0 by apply erased_no_magic.
Qed.

(** Reading the magic of a blank partition and going on. *)
Lemma nvm_get_blank {A} part s (k : Z -> prog A) Q C :
  let E := nvm_endflags part in
  part = PART_BOOT \/ part = PART_UPDATE -> nvm_blank E (fmem s) -> flashLocked s = false ->
  (forall m', nvm_blank E m' -> only_trailer E (fmem s) m' -> C m') ->
  (forall s' w, (w =? WOLFBOOT_MAGIC_TRAIL) = false -> flashLocked s' = false ->
     nvm_blank E (fmem s') -> only_trailer E (fmem s) (fmem s') -> swp s' (k w) Q C) ->
  swp s (let* p := nvm_get_trailer_at part 0 in let* w := deref32 p in k w) Q C.
Proof.
  intros E Hp Hb HL HC Hk. unfold nvm_get_trailer_at.
  replace ((part =? PART_BOOT) || (part =? PART_UPDATE)) with true by (by destruct Hp as [-> | ->]).
  apply swp_bind, swp_bind. eapply swp_mono; [by apply nvm_select_blank|..]; [|by intros m' []; auto].
  change (nvm_endflags part) with E. intros sel s1 (-> & HL1 & Hb1 & Ho1 & _).
  apply swp_ret; [|auto]. apply swp_bind, swp_look; [auto|]. apply swp_ret; [|auto].
  apply Hk; [|done..]. replace (E - (SS * 0 + (4 + 0))) with (E - SS * 0 - 4) by lia.
  by apply nvm_blank_magic.
Qed.

(** The first state of a partition. *)
Lemma nvm_first_state_spec part newst s :
  let E := nvm_endflags part in
  part = PART_BOOT \/ part = PART_UPDATE -> nvm_blank E (fmem s) -> flashLocked s = false ->
  0 <= newst < 255 ->
  swp s (nvm_set_partition_state part newst)
    (fun r s' => r = 0 /\ flashLocked s' = false /\ nvm_new E (fmem s) (upd bare 5 newst) (fmem s'))
    (fun m' => blank_or_bare E (fmem s) m' \/ nvm_new E (fmem s) (upd bare 5 newst) m').
Proof.
  intros E Hp Hb HL Hn. pose proof nvm_ss as HS.
  unfold nvm_set_partition_state. rewrite part_not_none by done.
  apply nvm_get_blank; [done..|by left; left|]. intros s1 w Hw HL1 Hb1 Ho1. rewrite Hw.
  apply swp_bind. eapply swp_mono; [by apply nvm_set_magic_spec|..]; change (nvm_endflags part) with E.
  2:{ intros m' [[H1 H2]|H1]; left; [left|right].
      - split; [done|]. by eapply only_trailer_trans.
      - by eapply nvm_new_weaken. }
  intros _ s2 [HL2 Hn2]. assert (nvm_new E (fmem s) bare (fmem s2)) as Hn2' by (by eapply nvm_new_weaken).
  pose proof Hn2 as (Hinv2 & Ho2 & Hv2). pose proof Hn2' as (_ & Ho2' & _).
  apply nvm_get8; [done..| |lia|].
  { intros m' (H1 & H2 & H3 & H4). left. right. split; [done|]. split; [by eapply only_trailer_trans|].
    intros off Ho. rewrite H4 by done. auto. }
  intros s3 HL3 Hs3. change (nvm_endflags part) with E. rewrite Hv2 by lia.
  replace (bare (4 + 1) =? newst) with false
    by (symmetry; apply Z.eqb_neq; unfold bare, FLASH_BYTE_ERASED; simpl; lia).
  assert (forall off, 1 <= off <= SS -> upd (nvm_view E (fmem s2)) 5 newst off = upd bare 5 newst off) as Hu.
  { intros off Ho. unfold upd. case_if; auto. }
  assert (is_byte newst) by (unfold is_byte; lia).
  assert (newst <> FF) by (unfold FLASH_BYTE_ERASED; lia).
  apply swp_bind. eapply swp_mono; [apply (nvm_set_after E (fmem s2) s3 part 1 newst 5); try done; try lia|..].
  - apply (tight_ext _ bare); [done|apply bare_tight].
  - intros _ s4 [HL4 Hn4]. assert (nvm_new E (fmem s) (upd bare 5 newst) (fmem s4)) by (by eapply nvm_new_weaken).
    by apply swp_ret; auto.
  - intros m' [H1|H1].
    + left. right. by eapply nvm_new_weaken.
    + right. by eapply nvm_new_weaken.
Qed.

End NvmSafe.
