(* ===== verification/NvmClaims.v ===== *)
(** * NvmClaims: what the write-once trailers guarantee

    The theorems on the two-sector trailers, stated with the operations a
    bootloader calls after the power has come back, and their instances on a
    small device. *)

From Stdlib Require Import ZArith Lia.
From stdpp Require Import prelude.
From S2P Require Import Prelude Flash Trailer UpdateFlash Nvm NvmSafe.

Local Open Scope Z_scope.

Section NvmClaims.
Context {c : config} {us : update_size}.

(** What a reader sees of a partition state and of a sector flag. *)
Definition state_reads (part : Z) (m : mem) (r : Z * Z) : Prop :=
  exists s', run (nvm_get_partition_state part 0) (mkFlash m false) = (inl r, s').
Definition flag_reads (sector : Z) (m : mem) (r : Z * Z) : Prop :=
  exists s', run (nvm_get_update_sector_flag sector 0) (mkFlash m false) = (inl r, s').

Context {G : nvm_geometry}.

Lemma state_reads_inv part m :
  part = PART_BOOT \/ part = PART_UPDATE -> nvm_inv (nvm_endflags part) m ->
  state_reads part m (0, nvm_view (nvm_endflags part) m 5).
Proof.
  intros Hp Hinv. destruct (nvm_get_state_spec part 0 (mkFlash m false) Hp Hinv eq_refl)
    as [(r & s' & Hr & -> & _) _]. by exists s'.
Qed.

Lemma flag_reads_inv sector m :
  nvm_inv (nvm_endflags PART_UPDATE) m -> 0 <= sector < 2 ^ 16 ->
  6 + sector / 2 <= WOLFBOOT_SECTOR_SIZE ->
  flag_reads sector m (0, nibble sector (nvm_view (nvm_endflags PART_UPDATE) m (6 + sector / 2))).
Proof.
  intros Hinv Hs Hp. destruct (nvm_get_flag_spec sector 0 (mkFlash m false) Hinv eq_refl Hs Hp)
    as [(r & s' & Hr & -> & _) _]. by exists s'.
Qed.

Lemma state_reads_blank part m :
  part = PART_BOOT \/ part = PART_UPDATE -> nvm_blank (nvm_endflags part) m ->
  state_reads part m (-1, 0).
Proof.
  intros Hp Hb. unfold state_reads, nvm_get_partition_state. rewrite part_not_none by done.
  destruct (nvm_get_blank part (mkFlash m false) (fun magic =>
      if negb (magic =? WOLFBOOT_MAGIC_TRAIL) then Ret (-1, 0) else
      let* p := nvm_get_trailer_at part 1 in let* state := deref8 p in Ret (0, state))
    (fun r _ => r = (-1, 0)) (fun _ => True) Hp Hb eq_refl ltac:(done)) as [(r & s' & Hr & ->) _].
  - intros s' w -> _ _ _. by apply swp_ret.
  - by exists s'.
Qed.

(** C14: Setting the state of a partition of write-once flash is atomic.  The two
    partitions have the same size, the trailer is in use (one of its two sectors
    holds it, packed against the end), and the state is not the erased byte.  The call
    returns 0 and the new state is read back.  When power fails inside it, with the
    write or erase under way done for a prefix of its bytes and not at all
    beyond, what is read next is the old or the new
    state, the other bytes of the trailer are unchanged, so is everything outside
    the two trailer sectors, and the trailer can be used again. *)
Theorem nvm_state_atomic part newst m :
  let E := nvm_endflags part in
  let p := nvm_set_partition_state part newst in
  part = PART_BOOT \/ part = PART_UPDATE -> nvm_inv E m -> 0 <= newst < 255 ->
  (exists s', run p (mkFlash m false) = (inl 0, s') /\ nvm_inv E (fmem s') /\
     state_reads part (fmem s') (0, newst)) /\
  (forall m', cut p (mkFlash m false) m' ->
     nvm_inv E m' /\ only_trailer E m m' /\
     (forall off, 1 <= off <= WOLFBOOT_SECTOR_SIZE -> off <> 5 -> nvm_view E m' off = nvm_view E m off) /\
     (state_reads part m' (0, nvm_view E m 5) \/ state_reads part m' (0, newst))).
Proof.
  intros E p Hp Hinv Hn. pose proof nvm_ss as HS.
  destruct (nvm_set_state_spec part newst (mkFlash m false) Hp Hinv eq_refl Hn)
    as [(r & s' & Hr & -> & _ & Hinv' & Ho' & Hv') Hc]. split.
  - exists s'. split; [done|]. split; [done|].
    replace newst with (nvm_view E (fmem s') 5); [by apply state_reads_inv|]. apply Hv'. lia.
  - intros m' [(H1 & H2 & H3)|(H1 & H2 & H3)]%Hc; (split; [done|]); (split; [done|]); simpl fmem in *.
    + split; [auto|]. left. rewrite <- H3 by lia. by apply state_reads_inv.
    + split.
      * intros off Ho Hne. rewrite H3 by done. unfold upd. case_if; [lia|done].
      * right. replace newst with (nvm_view E m' 5); [by apply state_reads_inv|]. apply H3. lia.
Qed.

(** Setting the flag of a sector of UPDATE on write-once flash is atomic:
    afterwards this sector reads the new flag and every other sector its old
    one, and when power fails inside the call either all flags read as before
    or all read as after. *)
Theorem nvm_sector_flag_atomic sector nf m n :
  let E := nvm_endflags PART_UPDATE in
  let p := nvm_set_update_sector_flag sector nf in
  let off := 6 + sector / 2 in
  let old k := nibble k (nvm_view E m (6 + k / 2)) in
  let reads m' (done : bool) := forall k, 0 <= k < 2 ^ 16 -> 6 + k / 2 <= WOLFBOOT_SECTOR_SIZE ->
    flag_reads k m' (0, if done && (k =? sector) then nf else old k) in
  nvm_inv E m -> 0 <= sector < 2 ^ 16 -> 0 <= nf < 15 ->
  tight (nvm_view E m) n -> off <= n -> off <= WOLFBOOT_SECTOR_SIZE - 2 ->
  (exists s', run p (mkFlash m false) = (inl 0, s') /\ reads (fmem s') true) /\
  (forall m', cut p (mkFlash m false) m' ->
     nvm_inv E m' /\ only_trailer E m m' /\ (reads m' false \/ reads m' true)).
Proof.
  intros E p off old reads Hinv Hs Hnf T Hn1 Hn2.
  assert (0 <= nf < 16) as Hnf' by lia. assert (is_byte (nvm_view E m off)) as Hb by apply (proj1 Hinv).
  destruct (flag_byte_spec sector (nvm_view E m off) nf Hb Hnf') as (Hfb & Hn & Hother).
  assert (flag_byte sector (nvm_view E m off) nf <> FLASH_BYTE_ERASED) as Hne.
  { intros He. rewrite He in Hn. unfold nibble, FLASH_BYTE_ERASED in Hn.
    destruct (Z.even sector); vm_compute in Hn; lia. }
  assert (forall m', nvm_inv E m' -> (forall o, 1 <= o <= WOLFBOOT_SECTOR_SIZE ->
    nvm_view E m' o = upd (nvm_view E m) off (flag_byte sector (nvm_view E m off) nf) o) ->
    reads m' true) as Hnew.
  { intros m' Hinv' Hv k Hk Hk2. simpl andb. assert (0 <= k / 2) by dlia.
    replace (if k =? sector then nf else old k) with (nibble k (nvm_view E m' (6 + k / 2)));
      [by apply flag_reads_inv|]. rewrite Hv by lia. unfold upd, off.
    destruct (Z.eqb_spec k sector) as [->|Hks]; [by rewrite Z.eqb_refl|].
    destruct (Z.eqb_spec (6 + k / 2) (6 + sector / 2)) as [He|He]; [|done].
    unfold old. rewrite He. apply Hother. rewrite !Zeven_mod.
    destruct (Z.eqb_spec (k mod 2) 0), (Z.eqb_spec (sector mod 2) 0); try done; dlia. }
  destruct (nvm_set_flag_spec sector nf (mkFlash m false) n Hinv eq_refl Hs Hnf' T Hn1 Hn2 Hne)
    as [(r & s' & Hr & -> & _ & Hinv' & Ho' & Hv') Hc]. split.
  - exists s'. split; [done|]. by apply Hnew.
  - intros m' [(H1 & H2 & H3)|(H1 & H2 & H3)]%Hc; (split; [done|]); (split; [done|]).
    + left. intros k Hk Hk2. simpl andb. assert (0 <= k / 2) by dlia. unfold old. simpl fmem in *.
      rewrite <- H3 by lia. by apply flag_reads_inv.
    + right. by apply Hnew.
Qed.

(** Setting the first state of a blank partition of write-once flash: the
    new state is read back; when power fails inside the call the partition reads
    as having no trailer, the state of a trailer without one, or the new state;
    and in the first case it is still blank, otherwise its trailer is usable. *)
Theorem nvm_first_state_atomic part newst m :
  let E := nvm_endflags part in
  let p := nvm_set_partition_state part newst in
  part = PART_BOOT \/ part = PART_UPDATE -> nvm_blank E m -> 0 <= newst < 255 ->
  (exists s', run p (mkFlash m false) = (inl 0, s') /\ nvm_inv E (fmem s') /\
     state_reads part (fmem s') (0, newst)) /\
  (forall m', cut p (mkFlash m false) m' -> only_trailer E m m' /\
     (nvm_blank E m' /\ state_reads part m' (-1, 0) \/
      nvm_inv E m' /\ (state_reads part m' (0, IMG_STATE_NEW) \/ state_reads part m' (0, newst)))).
Proof.
  intros E p Hp Hb Hn. pose proof nvm_ss as HS.
  destruct (nvm_first_state_spec part newst (mkFlash m false) Hp Hb eq_refl Hn)
    as [(r & s' & Hr & -> & _ & Hinv' & Ho' & Hv') Hc]. split.
  - exists s'. split; [done|]. split; [done|].
    replace newst with (nvm_view E (fmem s') 5); [by apply state_reads_inv|]. apply Hv'. lia.
  - intros m' [[[H1 H2]|(H1 & H2 & H3)]|(H1 & H2 & H3)]%Hc; (split; [done|]).
    + left. split; [done|]. by apply state_reads_blank.
    + right. split; [done|]. left. replace IMG_STATE_NEW with (nvm_view E m' 5);
        [by apply state_reads_inv|]. apply H3. lia.
    + right. split; [done|]. right. replace newst with (nvm_view E m' 5);
        [by apply state_reads_inv|]. apply H3. lia.
Qed.

End NvmClaims.

(** With an UPDATE partition larger than BOOT by two sectors or more, choosing
    the sector of the UPDATE trailer erases a sector that is not one of the two
    trailer sectors: the address it erases is computed from the size of BOOT. *)
Theorem nvm_asymmetric_erases_image {c : config} {us : update_size} m :
  let E := nvm_endflags PART_UPDATE in
  let a := WOLFBOOT_PARTITION_UPDATE_ADDRESS + WOLFBOOT_PARTITION_SIZE -
           WOLFBOOT_SECTOR_SIZE * (1 + lnot (nvm_sel m E)) in
  0 < WOLFBOOT_SECTOR_SIZE -> WOLFBOOT_PARTITION_SIZE + 2 * WOLFBOOT_SECTOR_SIZE <= WOLFBOOT_PARTITION_UPDATE_SIZE ->
  mle32 m (a + WOLFBOOT_SECTOR_SIZE - 4) <> FLASH_WORD_ERASED ->
  a + WOLFBOOT_SECTOR_SIZE <= E - 2 * WOLFBOOT_SECTOR_SIZE /\
  exists s', run (nvm_select_fresh_sector PART_UPDATE) (mkFlash m false) = (inl (nvm_sel m E), s') /\
    forall x, a <= x < a + WOLFBOOT_SECTOR_SIZE -> fmem s' x = FLASH_BYTE_ERASED.
Proof.
  intros E a HS Hsz Hw.
  assert (E = WOLFBOOT_PARTITION_UPDATE_ADDRESS + WOLFBOOT_PARTITION_UPDATE_SIZE) as HE by done.
  assert (lnot (nvm_sel m E) = 0 \/ lnot (nvm_sel m E) = 1) as Hl by (unfold lnot; case_if; auto).
  split; [unfold a; nia|].
  unfold nvm_select_fresh_sector. change (nvm_endflags PART_UPDATE) with E.
  change (PART_UPDATE =? PART_BOOT) with false. cbv beta iota zeta.
  cbn [look pbind run fmem].
  replace (WOLFBOOT_PARTITION_UPDATE_ADDRESS + WOLFBOOT_PARTITION_SIZE - WOLFBOOT_SECTOR_SIZE -
    WOLFBOOT_SECTOR_SIZE * lnot (nvm_sel m E)) with a by (unfold a; lia).
  destruct (Z.eqb_spec (mle32 m (a + WOLFBOOT_SECTOR_SIZE - 4)) FLASH_WORD_ERASED); [done|].
  eexists. split; [reflexivity|]. intros x Hx. by apply nor_erase_in.
Qed.

(** ** A small device *)

#[local] Instance nvm_cfg : config := {|
  WOLFBOOT_SECTOR_SIZE := 16; WOLFBOOT_PARTITION_SIZE := 64;
  WOLFBOOT_PARTITION_BOOT_ADDRESS := 256; WOLFBOOT_PARTITION_UPDATE_ADDRESS := 512;
  WOLFBOOT_PARTITION_SWAP_ADDRESS := 768; IMAGE_HEADER_SIZE := 16; FLASHBUFFER_SIZE := 8 |}.

Definition nvm_size : update_size := 64.
Definition nvm_size_big : update_size := 96.

Lemma nvm_cfg_geometry : @nvm_geometry nvm_cfg nvm_size.
Proof.
  constructor; try done.
  - by exists 4.
  - split; [done|]. by exists 2.
  - by exists 4.
Qed.

(** An erased flash, and one with a bare trailer in the second sector of UPDATE. *)
Definition nvm_mem0 : mem := fun _ => FLASH_BYTE_ERASED.
Definition nvm_mem1 : mem := fun a => bare (576 - 16 - a).

Lemma nvm_mem0_blank : nvm_blank 576 nvm_mem0.
Proof.
  split; [done|]. split; [done|]. exists (fun _ => FLASH_BYTE_ERASED).
  split; [done|]. split; [done|]. by intros (? & _).
Qed.

Lemma nvm_mem1_ok : mem_ok nvm_mem1.
Proof.
  intros a. unfold nvm_mem1, bare. case_if; [|by split].
  destruct (decide (4 <= 4 - (576 - 16 - a))) as [H|H].
  - unfold at_. rewrite lookup_ge_None_2; [by split|simpl; lia].
  - apply at_byte; [apply magic_trail_bytes|]. destruct magic_trail_bytes as [-> _]. lia.
Qed.

Lemma nvm_mem1_sector1 : holds nvm_mem1 576 1 bare.
Proof.
  intros off Ho. unfold nvm_mem1. change WOLFBOOT_SECTOR_SIZE with 16 in *. f_equal; lia.
Qed.

Lemma nvm_mem1_inv : nvm_inv 576 nvm_mem1.
Proof.
  destruct (@nvm_inv_only nvm_cfg nvm_mem1 576 1 bare (fun off => nvm_mem1 (576 - off)) 5) as [? _];
    [by right|apply nvm_mem1_ok|apply nvm_mem1_sector1| |exact (@bare_tight nvm_cfg nvm_size nvm_cfg_geometry)| |done].
  - intros off Ho. change WOLFBOOT_SECTOR_SIZE with 16 in *. f_equal; lia.
  - by intros (? & _).
Qed.

Lemma nvm_state_atomic_witness :
  (exists s', run (@nvm_set_partition_state nvm_cfg nvm_size PART_UPDATE IMG_STATE_UPDATING)
     (mkFlash nvm_mem1 false) = (inl 0, s') /\ @nvm_inv nvm_cfg 576 (fmem s') /\
     @state_reads nvm_cfg nvm_size PART_UPDATE (fmem s') (0, IMG_STATE_UPDATING)).
Proof.
  assert (0 <= IMG_STATE_UPDATING < 255) as H by (vm_compute; split; [discriminate|reflexivity]).
  exact (proj1 (@nvm_state_atomic nvm_cfg nvm_size nvm_cfg_geometry PART_UPDATE IMG_STATE_UPDATING
    nvm_mem1 (or_intror eq_refl) nvm_mem1_inv H)).
Defined.

(** The trailer after the state UPDATING has been set. *)
Definition nvm_mem2 : mem := fun a => upd bare 5 IMG_STATE_UPDATING (576 - 16 - a).

Lemma nvm_mem2_ok : mem_ok nvm_mem2.
Proof.
  intros a. unfold nvm_mem2, upd. case_if; [by vm_compute|]. exact (nvm_mem1_ok a).
Qed.

Lemma nvm_mem2_tight : @tight nvm_cfg (upd bare 5 IMG_STATE_UPDATING) 6.
Proof.
  split; [done|]. split; [done|]. split; intros off Ho; change WOLFBOOT_SECTOR_SIZE with 16 in *.
  - by assert (off = 4 \/ off = 5) as [-> | ->] by lia.
  - unfold upd, bare. by repeat (case_if; try lia).
Qed.

Lemma nvm_mem2_inv : nvm_inv 576 nvm_mem2 /\ nvm_sel nvm_mem2 576 = 1.
Proof.
  apply (@nvm_inv_only nvm_cfg nvm_mem2 576 1 (upd bare 5 IMG_STATE_UPDATING)
    (fun off => nvm_mem2 (576 - off)) 6);
    [by right|apply nvm_mem2_ok| | |exact nvm_mem2_tight|].
  - intros off Ho. unfold nvm_mem2. change WOLFBOOT_SECTOR_SIZE with 16 in *. f_equal; lia.
  - intros off Ho. change WOLFBOOT_SECTOR_SIZE with 16 in *. f_equal; lia.
  - by intros (? & _).
Qed.

Lemma nvm_mem2_view_tight : @tight nvm_cfg (nvm_view 576 nvm_mem2) 6.
Proof.
  apply (@tight_ext nvm_cfg _ (upd bare 5 IMG_STATE_UPDATING)); [|exact nvm_mem2_tight].
  intros off Ho. unfold nvm_view. rewrite (proj2 nvm_mem2_inv). unfold nvm_mem2.
  change WOLFBOOT_SECTOR_SIZE with 16 in *. f_equal; lia.
Qed.

Lemma nvm_sector_flag_atomic_witness :
  exists s', run (@nvm_set_update_sector_flag nvm_cfg nvm_size 1 7) (mkFlash nvm_mem2 false) = (inl 0, s') /\
    @flag_reads nvm_cfg nvm_size 1 (fmem s') (0, 7).
Proof.
  assert (0 <= 1 < 2 ^ 16) as H1 by lia. assert (0 <= 7 < 15) as H2 by lia.
  assert (6 + 1 / 2 <= 6) as H3 by (vm_compute; discriminate).
  assert (6 + 1 / 2 <= 16 - 2) as H4 by (vm_compute; discriminate).
  assert (6 + 1 / 2 <= 16) as H5 by (vm_compute; discriminate).
  destruct (proj1 (@nvm_sector_flag_atomic nvm_cfg nvm_size nvm_cfg_geometry 1 7 nvm_mem2 6
    (proj1 nvm_mem2_inv) H1 H2 nvm_mem2_view_tight H3 H4)) as (s' & Hr & Hf).
  exists s'. split; [exact Hr|]. exact (Hf 1 H1 H5).
Defined.

Lemma nvm_first_state_atomic_witness :
  exists s', run (@nvm_set_partition_state nvm_cfg nvm_size PART_UPDATE IMG_STATE_UPDATING)
     (mkFlash nvm_mem0 false) = (inl 0, s') /\ @nvm_inv nvm_cfg 576 (fmem s') /\
     @state_reads nvm_cfg nvm_size PART_UPDATE (fmem s') (0, IMG_STATE_UPDATING).
Proof.
  assert (0 <= IMG_STATE_UPDATING < 255) as H by (vm_compute; split; [discriminate|reflexivity]).
  exact (proj1 (@nvm_first_state_atomic nvm_cfg nvm_size nvm_cfg_geometry PART_UPDATE IMG_STATE_UPDATING
    nvm_mem0 (or_intror eq_refl) nvm_mem0_blank H)).
Defined.

(** UPDATE is six sectors, BOOT four; the third sector of UPDATE holds image
    data and is erased. *)
Definition nvm_mem3 : mem := fun a => if a <? 570 then 0 else FLASH_BYTE_ERASED.

Lemma nvm_asymmetric_erases_image_witness :
  nvm_mem3 544 = 0 /\ exists s',
    run (@nvm_select_fresh_sector nvm_cfg nvm_size_big PART_UPDATE) (mkFlash nvm_mem3 false) = (inl 0, s') /\
    fmem s' 544 = FLASH_BYTE_ERASED.
Proof.
  split; [reflexivity|].
  assert (0 < 16) as H1 by lia.
  assert (64 + 2 * 16 <= 96) as H2 by lia.
  assert (mle32 nvm_mem3 556 <> FLASH_WORD_ERASED) as H3 by (vm_compute; discriminate).
  destruct (@nvm_asymmetric_erases_image nvm_cfg nvm_size_big nvm_mem3 H1 H2 H3) as (_ & s' & Hr & Hs).
  exists s'. split; [exact Hr|]. apply Hs. vm_compute. split; [discriminate|reflexivity].
Defined.
