(* ===== verification/Strings.v ===== *)
(** * Strings: the freestanding C library of string.c

    Memory is one buffer; a pointer is an index into it, and [base] is the
    address of index 0, which only the alignment tests of FAST_MEMCPY look at.
    Each routine is written with the loop of the source; reading or writing
    outside the memory is [Oob].  [fast] and [W] stand for FAST_MEMCPY and
    sizeof(unsigned long).  The output of [uart_write] is the list of bytes
    written.  Characters are bytes, so the tests below do not depend on the
    signedness of [char]. *)

From Stdlib Require Import ZArith Lia.
From stdpp Require Import prelude.
From S2P Require Import Prelude.

Local Open Scope Z_scope.

(** ** Characters *)

Definition islower (c : Z) : bool := (97 <=? c) && (c <=? 122).
Definition isupper (c : Z) : bool := (65 <=? c) && (c <=? 90).
Definition tolower (c : Z) : Z := if isupper c then c - 65 + 97 else c.
Definition toupper (c : Z) : Z := if islower c then c - 97 + 65 else c.
Definition isalpha (c : Z) : bool := isupper c || islower c.

(** ** Memory blocks *)

Section Blocks.
Context (fast : bool) (W : Z) (base : Z).

(** [while (n--) *d++ = uc;] *)
Definition memset_bytes (l : list Z) (d uc n : Z) : outcome (list Z) :=
  loop (S (Z.to_nat n)) (fun '(l, d, n) =>
    if n =? 0 then Ok (inr l) else
    let! l := wr l d uc in Ok (inl (l, d + 1, n - 1))) (l, d, n).

(** Bytes up to a 4-byte boundary. *)
Definition memset_align (l : list Z) (d uc n : Z) : outcome (list Z * Z * Z) :=
  loop (S (Z.to_nat n)) (fun '(l, d, n) =>
    if (0 <? n) && negb (Z.land (base + d) 3 =? 0) then
      let! l := wr l d uc in Ok (inl (l, d + 1, n - 1))
    else Ok (inr (l, d, n))) (l, d, n).

Definition memset_words (l : list Z) (d w n : Z) : outcome (list Z * Z * Z) :=
  loop (S (Z.to_nat n)) (fun '(l, d, n) =>
    if 4 <=? n then
      let! l := blit l d (le32_bytes w) in Ok (inl (l, d + 4, n - 4))
    else Ok (inr (l, d, n))) (l, d, n).

Definition memset (l : list Z) (s c n : Z) : outcome (list Z) :=
  let uc := u8 c in
  let! (l, d, n) :=
    (if fast then
       let! (l, d, n) := memset_align l s uc n in
       if 4 <=? n then
         let w := Z.lor (Z.lor (Z.lor uc (Z.shiftl uc 8)) (Z.shiftl uc 16)) (Z.shiftl uc 24) in
         memset_words l d w n
       else Ok (l, d, n)
     else Ok (l, s, n)) in
  memset_bytes l d uc n.

Definition aligned (p : Z) : bool := Z.land (base + p) (W - 1) =? 0.

(** A load of [W] bytes. *)
Definition rdw (l : list Z) (i : Z) : outcome (list Z) :=
  if (0 <=? i) && (i + W <=? zlen l) then Ok (slice l i W) else Oob.

Definition memcpy_words (l : list Z) (d s n : Z) : outcome (list Z * Z * Z * Z) :=
  loop (S (Z.to_nat n)) (fun '(l, d, s, n) =>
    if W <=? n then
      let! w := rdw l s in
      let! l := blit l d w in
      Ok (inl (l, d + W, s + W, n - W))
    else Ok (inr (l, d, s, n))) (l, d, s, n).

Definition memcpy_bytes (l : list Z) (d s n : Z) : outcome (list Z) :=
  loop (S (Z.to_nat n)) (fun '(l, i) =>
    if i <? n then
      let! b := rd l (s + i) in
      let! l := wr l (d + i) b in
      Ok (inl (l, i + 1))
    else Ok (inr l)) (l, 0).

Definition memcpy (l : list Z) (dst src n : Z) : outcome (list Z) :=
  let! (l, d, s, n) :=
    (if fast && (aligned dst && aligned src) then memcpy_words l dst src n
     else Ok (l, dst, src, n)) in
  memcpy_bytes l d s n.

(** The descending loops of [memmove]. *)
Definition memmove_bytes (l : list Z) (d s n aligned_n : Z) : outcome (list Z) :=
  loop (S (Z.to_nat n)) (fun '(l, i) =>
    if aligned_n <? i then
      let! b := rd l (s + (i - 1)) in
      let! l := wr l (d + (i - 1)) b in
      Ok (inl (l, i - 1))
    else Ok (inr l)) (l, n).

Definition memmove_words (l : list Z) (d s aligned_n : Z) : outcome (list Z) :=
  loop (S (Z.to_nat aligned_n)) (fun '(l, a) =>
    if 0 <? a then
      let a := a - W in
      let! w := rdw l (s + a) in
      let! l := blit l (d + a) w in
      Ok (inl (l, a))
    else Ok (inr l)) (l, aligned_n).

Definition memmove (l : list Z) (dst src n : Z) : outcome (list Z) :=
  if dst =? src then Ok l else
  if src <? dst then
    let aligned_n :=
      if fast && (aligned dst && aligned src) then Z.land n (Z.lnot (W - 1)) else 0 in
    let! l := memmove_bytes l dst src n aligned_n in
    if fast then memmove_words l dst src aligned_n else Ok l
  else memcpy l dst src n.

Definition memcmp (l : list Z) (s1 s2 n : Z) : outcome Z :=
  loop (S (Z.to_nat n)) (fun '(diff, s1, s2, n) =>
    if (diff =? 0) && negb (n =? 0) then
      let! a := rd l s1 in
      let! b := rd l s2 in
      Ok (inl (a - b, s1 + 1, s2 + 1, n - 1))
    else Ok (inr diff)) (0, s1, s2, n).

(** [None] is NULL. *)
Definition memchr (l : list Z) (s c_in n : Z) : outcome (option Z) :=
  let c := u8 c_in in
  loop (S (Z.to_nat n)) (fun '(char_ptr, n) =>
    if 0 <? n then
      let! b := rd l char_ptr in
      if b =? c then Ok (inr (Some char_ptr)) else Ok (inl (char_ptr + 1, n - 1))
    else Ok (inr None)) (s, n).

End Blocks.

(** ** Strings *)

Definition str_fuel (l : list Z) : nat := S (length l).

Definition strlen (l : list Z) (s : Z) : outcome Z :=
  loop (str_fuel l) (fun i =>
    let! b := rd l (s + i) in
    if negb (b =? 0) then Ok (inl (i + 1)) else Ok (inr i)) 0.

Definition strcmp (l : list Z) (s1 s2 : Z) : outcome Z :=
  loop (str_fuel l) (fun '(s1, s2) =>
    let! a := rd l s1 in
    let! more := (if negb (a =? 0) then let! b := rd l s2 in Ok (negb (b =? 0)) else Ok false) in
    let! b := rd l s2 in
    if more then
      if negb (a =? b) then Ok (inr (a - b)) else Ok (inl (s1 + 1, s2 + 1))
    else Ok (inr (a - b))) (s1, s2).

Definition strcasecmp (l : list Z) (s1 s2 : Z) : outcome Z :=
  loop (str_fuel l) (fun '(s1, s2) =>
    let! a := rd l s1 in
    let! more := (if negb (a =? 0) then let! b := rd l s2 in Ok (negb (b =? 0)) else Ok false) in
    let! b := rd l s2 in
    let c1 := tolower a in
    let c2 := tolower b in
    if more then
      if negb (c1 =? c2) then Ok (inr (c1 - c2)) else Ok (inl (s1 + 1, s2 + 1))
    else Ok (inr (c1 - c2))) (s1, s2).

Definition strncasecmp (l : list Z) (s1 s2 n : Z) : outcome Z :=
  if n =? 0 then Ok 0 else
  loop (S (Z.to_nat n)) (fun '(s1, s2, n) =>
    if n =? 0 then Ok (inr 0) else
    let! a := rd l s1 in
    let! b := rd l s2 in
    let c1 := tolower a in
    let c2 := tolower b in
    if negb (c1 =? c2) then Ok (inr (c1 - c2)) else
    if c1 =? 0 then Ok (inr 0) else Ok (inl (s1 + 1, s2 + 1, n - 1))) (s1, s2, n).

Definition strncmp (l : list Z) (s1 s2 n : Z) : outcome Z :=
  loop (S (Z.to_nat n)) (fun '(diff, s1, s2, n) =>
    if 0 <? n then
      let! a := rd l s1 in
      let! b := rd l s2 in
      let diff := a - b in
      if negb (diff =? 0) || (a =? 0) then Ok (inr diff)
      else Ok (inl (diff, s1 + 1, s2 + 1, n - 1))
    else Ok (inr diff)) (0, s1, s2, n).

(** The loops write [dest], so the strings are read in the memory as it is. *)
Definition strcat (l : list Z) (dest src : Z) : outcome (list Z) :=
  let! j := strlen l dest in
  let! src_len := strlen l src in
  let! (l, j) := loop (S (Z.to_nat src_len)) (fun '(l, i, j) =>
    if i <? src_len then
      let! b := rd l (src + i) in
      let! l := wr l (dest + j) b in
      Ok (inl (l, i + 1, j + 1))
    else Ok (inr (l, j))) (l, 0, j) in
  wr l (dest + j) 0.

Definition strncat (l : list Z) (dest src n : Z) : outcome (list Z) :=
  let! j := strlen l dest in
  let! (l, i) := loop (S (Z.to_nat n)) (fun '(l, i) =>
    if i <? n then
      let! b := rd l (src + i) in
      if negb (b =? 0) then
        let! l := wr l (dest + (j + i)) b in Ok (inl (l, i + 1))
      else Ok (inr (l, i))
    else Ok (inr (l, i))) (l, 0) in
  wr l (dest + (j + i)) 0.

Definition strncpy (l : list Z) (dst src n : Z) : outcome (list Z) :=
  let! (l, i) := loop (S (Z.to_nat n)) (fun '(l, i) =>
    if i <? n then
      let! b := rd l (src + i) in
      let! l := wr l (dst + i) b in
      let! b := rd l (src + i) in
      if b =? 0 then Ok (inr (l, i)) else Ok (inl (l, i + 1))
    else Ok (inr (l, i))) (l, 0) in
  loop (S (Z.to_nat n)) (fun '(l, i) =>
    let i := i + 1 in
    if i <? n then let! l := wr l (dst + i) 0 in Ok (inl (l, i)) else Ok (inr l)) (l, i).

Definition strcpy (l : list Z) (dst src : Z) : outcome (list Z) :=
  loop (str_fuel l) (fun '(l, i) =>
    let! b := rd l (src + i) in
    let! l := wr l (dst + i) b in
    let! b := rd l (src + i) in
    if b =? 0 then Ok (inr l) else Ok (inl (l, i + 1))) (l, 0).
