(* ===== verification/StringsSpec.v ===== *)
(** * StringsSpec: correctness of string.c

    [memmove] and [memcpy] against the block they should leave, for overlapping
    and aligned blocks alike; [memset]; the comparisons against one
    lexicographic difference of the strings; the copies against the text they
    should leave. *)

From Stdlib Require Import ZArith Lia.
From stdpp Require Import prelude.
From S2P Require Import Prelude Strings.

Local Open Scope Z_scope.

(** ** Moving blocks *)

(** Bytes [a, b) of the block have been moved from [src] to [dst]. *)
Definition mv (l : list Z) (dst src a b : Z) (l' : list Z) : Prop :=
  zlen l' = zlen l /\ forall p, 0 <= p ->
    at_ l' p = if (dst + a <=? p) && (p <? dst + b) then at_ l (src + (p - dst)) else at_ l p.

Lemma mv_nothing l dst src a : mv l dst src a a l.
Proof. split; [done|]. intros p Hp. case_if; [bools; lia|done]. Qed.

(** One more piece, next to what has been moved, whose source is still intact. *)
Lemma mv_blit l dst src a b l' c m :
  mv l dst src a b l' -> 0 <= dst + c -> 0 <= src + c -> 0 <= m -> a <= b ->
  dst + c + m <= zlen l -> src + c + m <= zlen l -> (c = b \/ c + m = a) ->
  src + c + m <= dst + a \/ dst + b <= src + c ->
  wp (blit l' (dst + c) (slice l' (src + c) m)) (mv l dst src (Z.min a c) (Z.max b (c + m))).
Proof.
  intros [Hl Hat] Hd Hs Hm Hab H1 H2 Hadj Hint.
  assert (zlen (slice l' (src + c) m) = m) as Hlen by (apply slice_length; lia).
  apply wp_blit; [lia|lia|]. intros l2 Hl2 Hin Hout. rewrite Hlen in *. split; [lia|]. intros p Hp.
  destruct (decide (dst + c <= p < dst + c + m)) as [Hi|Hi].
  - replace p with (dst + c + (p - dst - c)) at 1 by lia. rewrite Hin, at_slice by lia.
    rewrite Hat by lia. case_if; [bools; lia|]. case_if; [f_equal; lia|].
    apply andb_false_iff in E0 as [E0|E0]; bools; lia.
  - rewrite Hout, Hat by lia. clear Hin Hout Hat.
    destruct (Z.leb_spec (dst + a) p), (Z.ltb_spec p (dst + b)),
      (Z.leb_spec (dst + Z.min a c) p), (Z.ltb_spec p (dst + Z.max b (c + m))); simpl; try lia; done.
Qed.

Lemma wr_blit (l : list Z) i v : 0 <= i < zlen l -> wr l i v = blit l i [v].
Proof.
  intros Hi. rewrite wr_ok by done. unfold blit. change (zlen [v]) with 1.
  destruct (Z.leb_spec 0 i); [|lia]. destruct (Z.leb_spec (i + 1) (zlen l)); [|lia]. simpl.
  f_equal. rewrite insert_take_drop by (unfold zlen in *; lia). simpl. do 3 f_equal. lia.
Qed.

Lemma mv_byte l dst src a b l' c :
  mv l dst src a b l' -> 0 <= dst + c -> 0 <= src + c -> a <= b ->
  dst + c < zlen l -> src + c < zlen l -> (c = b \/ c + 1 = a) ->
  src + c < dst + a \/ dst + b <= src + c ->
  exists v l2, rd l' (src + c) = Ok v /\ wr l' (dst + c) v = Ok l2 /\
    mv l dst src (Z.min a c) (Z.max b (c + 1)) l2.
Proof.
  intros Hmv Hd Hs Hab H1 H2 Hadj Hint. pose proof Hmv as [Hl _].
  exists (at_ l' (src + c)). rewrite rd_ok, wr_blit by lia.
  destruct (wp_inv _ _ (mv_blit l dst src a b l' c 1 Hmv Hd Hs ltac:(lia) Hab ltac:(lia) ltac:(lia)
    Hadj ltac:(lia))) as (l2 & E2 & Hmv2).
  rewrite slice_one in E2 by lia. by exists l2.
Qed.

(** The memory after a move. *)
Definition move (l : list Z) (dst src n : Z) : list Z := put l dst (slice l src n).

Lemma mv_move l dst src n l' :
  0 <= dst -> 0 <= src -> 0 <= n -> dst + n <= zlen l -> src + n <= zlen l ->
  mv l dst src 0 n l' -> l' = move l dst src n.
Proof.
  intros Hd Hs Hn H1 H2 [Hl Hat].
  assert (zlen (slice l src n) = n) as Hsl by (apply slice_length; lia).
  apply put_ext; [lia|lia|done|]. rewrite Hsl. intros p Hp. rewrite Hat, Z.add_0_r by lia.
  case_if; [|done]. by rewrite at_slice by lia.
Qed.

Section Blocks.
Context (fast : bool) (W base : Z) (k : Z) (Hk : 0 <= k) (HW : W = 2 ^ k).

Lemma W_pos : 0 < W.
Proof using HW Hk. rewrite HW. apply Z.pow_pos_nonneg; lia. Qed.

Lemma memcpy_words_spec l dst src n :
  0 <= dst -> 0 <= src -> 0 <= n -> dst + n <= zlen l -> src + n <= zlen l ->
  dst <= src \/ src + n <= dst ->
  wp (memcpy_words W l dst src n) (fun '(l', d, s, n') => exists c,
    0 <= c /\ 0 <= n' /\ c + n' = n /\ d = dst + c /\ s = src + c /\ mv l dst src 0 c l').
Proof using HW Hk.
  intros Hd Hs Hn H1 H2 Hov. pose proof W_pos as HWp. unfold memcpy_words.
  apply (wp_loop (fun '(l', d, s, n') => exists c,
      0 <= c /\ 0 <= n' /\ c + n' = n /\ d = dst + c /\ s = src + c /\ mv l dst src 0 c l')
    (fun '(_, _, _, n') => Z.to_nat n')).
  - intros [[[l' d] s] n'] (c & Hc & Hn' & Hcn & -> & -> & Hmv). pose proof Hmv as [Hl _].
    destruct (Z.leb_spec W n'); [|apply wp_Ok; by eauto 10].
    unfold rdw. destruct (Z.leb_spec 0 (src + c)); [|lia].
    destruct (Z.leb_spec (src + c + W) (zlen l')); [|lia]. cbn [andb obind].
    eapply wp_bind_mono; [apply (mv_blit l dst src 0 c l' c W Hmv); lia|].
    intros l2 Hmv2. apply wp_Ok. split; [|lia]. exists (c + W).
    replace (Z.min 0 c) with 0 in Hmv2 by lia. replace (Z.max c (c + W)) with (c + W) in Hmv2 by lia.
    repeat split; try lia; apply Hmv2.
  - exists 0. repeat split; try lia; apply mv_nothing.
  - lia.
Qed.

Lemma memcpy_bytes_spec l0 dst src n l c :
  0 <= dst -> 0 <= src -> 0 <= n -> 0 <= c -> dst + (c + n) <= zlen l0 -> src + (c + n) <= zlen l0 ->
  dst <= src \/ src + (c + n) <= dst -> mv l0 dst src 0 c l ->
  wp (memcpy_bytes l (dst + c) (src + c) n) (mv l0 dst src 0 (c + n)).
Proof.
  intros Hd Hs Hn Hc H1 H2 Hov Hmv0. unfold memcpy_bytes.
  apply (wp_loop (fun '(l', i) => 0 <= i <= n /\ mv l0 dst src 0 (c + i) l')
    (fun '(_, i) => Z.to_nat (n - i))).
  - intros [l' i] (Hi & Hmv). destruct (Z.ltb_spec i n).
    + destruct (mv_byte l0 dst src 0 (c + i) l' (c + i) Hmv) as (v & l2 & E1 & E2 & Hmv2); try lia.
      rewrite <- !Z.add_assoc, E1. cbn [obind]. rewrite E2. apply wp_Ok. split; [|lia]. split; [lia|].
      replace (Z.min 0 (c + i)) with 0 in Hmv2 by lia.
      by replace (Z.max (c + i) (c + i + 1)) with (c + (i + 1)) in Hmv2 by lia.
    + apply wp_Ok. by replace n with i by lia.
  - split; [lia|]. by rewrite Z.add_0_r.
  - lia.
Qed.

Lemma memcpy_spec l dst src n :
  0 <= dst -> 0 <= src -> 0 <= n -> dst + n <= zlen l -> src + n <= zlen l ->
  dst <= src \/ src + n <= dst ->
  memcpy fast W base l dst src n = Ok (move l dst src n).
Proof using HW Hk.
  intros Hd Hs Hn H1 H2 Hov.
  assert (wp (memcpy fast W base l dst src n) (mv l dst src 0 n)) as Hwp.
  { unfold memcpy. apply wp_bind_mono with (P := fun '(l', d, s, n') => exists c,
      0 <= c /\ 0 <= n' /\ c + n' = n /\ d = dst + c /\ s = src + c /\ mv l dst src 0 c l').
    - destruct (fast && _); [by apply memcpy_words_spec|]. apply wp_Ok. exists 0.
      repeat split; try lia; apply mv_nothing.
    - intros [[[l' d] s] n'] (c & Hc & Hn' & <- & -> & -> & Hmv). by apply memcpy_bytes_spec. }
  apply wp_inv in Hwp as (l' & -> & Hmv). f_equal. by apply mv_move.
Qed.

(** ** The descending copy *)

Lemma memmove_bytes_spec l dst src n an :
  0 <= src -> src < dst -> 0 <= an <= n -> dst + n <= zlen l ->
  wp (memmove_bytes l dst src n an) (mv l dst src an n).
Proof.
  intros Hs Hlt Han H1. unfold memmove_bytes.
  apply (wp_loop (fun '(l', i) => an <= i <= n /\ mv l dst src i n l') (fun '(_, i) => Z.to_nat i)).
  - intros [l' i] (Hi & Hmv). destruct (Z.ltb_spec an i).
    + destruct (mv_byte l dst src i n l' (i - 1) Hmv) as (v & l2 & E1 & E2 & Hmv2); try lia.
      rewrite E1. cbn [obind]. rewrite E2. apply wp_Ok. split; [|lia]. split; [lia|].
      replace (Z.min i (i - 1)) with (i - 1) in Hmv2 by lia.
      by replace (Z.max n (i - 1 + 1)) with n in Hmv2 by lia.
    + apply wp_Ok. by replace an with i by lia.
  - split; [lia|]. apply mv_nothing.
  - lia.
Qed.

Lemma memmove_words_spec l0 dst src n l q :
  0 <= src -> src < dst -> 0 <= q -> q * W <= n -> dst + n <= zlen l0 ->
  mv l0 dst src (q * W) n l ->
  wp (memmove_words W l dst src (q * W)) (mv l0 dst src 0 n).
Proof using HW Hk.
  intros Hs Hlt Hq Hqn H1 Hmv0. pose proof W_pos as HWp. unfold memmove_words.
  apply (wp_loop (fun '(l', a) => exists r, 0 <= r <= q /\ a = r * W /\ mv l0 dst src a n l')
    (fun '(_, a) => Z.to_nat a)).
  - intros [l' a] (r & Hr & -> & Hmv). destruct (Z.ltb_spec 0 (r * W)) as [Hpos|Hpos].
    + pose proof Hmv as [Hl _]. assert (1 <= r) by nia. assert (r * W <= q * W) by nia.
      assert (r * W - W = (r - 1) * W) as Hrw by lia. assert (0 <= (r - 1) * W) by nia.
      unfold rdw. destruct (Z.leb_spec 0 (src + (r * W - W))); [|lia].
      destruct (Z.leb_spec (src + (r * W - W) + W) (zlen l')); [|lia]. cbn [andb obind].
      eapply wp_bind_mono; [apply (mv_blit l0 dst src (r * W) n l' (r * W - W) W Hmv); lia|].
      intros l2 Hmv2. apply wp_Ok. split; [|lia]. exists (r - 1). split; [lia|]. split; [done|].
      replace (Z.min (r * W) (r * W - W)) with (r * W - W) in Hmv2 by lia.
      by replace (Z.max n (r * W - W + W)) with n in Hmv2 by lia.
    + apply wp_Ok. replace (r * W) with 0 in Hmv by nia. done.
  - exists q. split; [lia|]. by split.
  - lia.
Qed.

Lemma land_lnot_div n : 0 <= n -> Z.land n (Z.lnot (W - 1)) = (n / W) * W.
Proof using HW Hk.
  intros Hn. replace (W - 1) with (Z.ones k) by (rewrite Z.ones_equiv, HW; lia).
  rewrite <- Z.ldiff_land, Z.ldiff_ones_r, Z.shiftl_mul_pow2, Z.shiftr_div_pow2 by lia.
  by rewrite HW.
Qed.

Lemma memmove_correct l dst src n :
  0 <= dst -> 0 <= src -> 0 <= n -> dst + n <= zlen l -> src + n <= zlen l ->
  memmove fast W base l dst src n = Ok (move l dst src n).
Proof using HW Hk.
  intros Hd Hs Hn H1 H2. unfold memmove. destruct (Z.eqb_spec dst src) as [->|Hne].
  { f_equal. apply mv_move; try done. split; [done|]. intros p Hp. case_if; [f_equal; lia|done]. }
  destruct (Z.ltb_spec src dst) as [Hlt|Hge]; [|apply memcpy_spec; auto with lia].
  set (an := if fast && _ then _ else 0).
  assert (exists q, 0 <= q /\ an = q * W /\ an <= n) as (q & Hq & Han & Hle).
  { pose proof W_pos. unfold an. case_if; [|by exists 0].
    exists (n / W). rewrite land_lnot_div by done. pose proof (Z.div_pos n W). 
    pose proof (Z.mul_div_le n W). lia. }
  assert (0 <= an) by (rewrite Han; pose proof W_pos; nia).
  assert (wp (let! l1 := memmove_bytes l dst src n an in
              if fast then memmove_words W l1 dst src an else Ok l1) (mv l dst src 0 n)) as Hwp.
  { eapply wp_bind_mono; [by apply memmove_bytes_spec|]. intros l1 Hmv.
    destruct fast eqn:Ef.
    - rewrite Han in *. by apply (memmove_words_spec l dst src n l1 q).
    - apply wp_Ok. by replace 0 with an. }
  apply wp_inv in Hwp as (l' & -> & Hmv). f_equal. by apply mv_move.
Qed.

End Blocks.

(** ** Filling a block *)

Lemma le32_repeat uc :
  is_byte uc ->
  le32_bytes (Z.lor (Z.lor (Z.lor uc (Z.shiftl uc 8)) (Z.shiftl uc 16)) (Z.shiftl uc 24)) =
  [uc; uc; uc; uc].
Proof.
  intros Hb.
  assert (forallb (fun u => bool_decide
    (le32_bytes (Z.lor (Z.lor (Z.lor u (Z.shiftl u 8)) (Z.shiftl u 16)) (Z.shiftl u 24)) =
     [u; u; u; u])) (seqZ 0 256) = true) as Hall by (vm_compute; reflexivity).
  rewrite forallb_forall in Hall. specialize (Hall uc). rewrite bool_decide_eq_true in Hall.
  apply Hall. rewrite <- list_elem_of_In. apply elem_of_seqZ. wblia.
Qed.

(** Bytes [s, s + c) hold [uc], the others what they held in [l]. *)
Definition filled (l : list Z) (s uc c : Z) (l' : list Z) : Prop :=
  zlen l' = zlen l /\ forall p, 0 <= p ->
    at_ l' p = if (s <=? p) && (p <? s + c) then uc else at_ l p.

Lemma filled_more l s uc c l' d :
  filled l s uc c l' -> 0 <= s -> 0 <= c -> s + c + zlen d <= zlen l -> Forall (eq uc) d ->
  wp (blit l' (s + c) d) (filled l s uc (c + zlen d)).
Proof.
  intros [Hl Hat] Hs Hc Hd Hall. pose proof (zlen_nonneg d). rewrite blit_put by lia. apply wp_Ok.
  split; [rewrite zlen_put; lia|]. intros p Hp. rewrite at_put by lia. rewrite Hat by lia.
  destruct (Z.leb_spec (s + c) p), (Z.ltb_spec p (s + c + zlen d)), (Z.leb_spec s p),
    (Z.ltb_spec p (s + c)), (Z.ltb_spec p (s + (c + zlen d))); simpl; try lia; try done.
  unfold at_. destruct (lookup_lt_is_Some_2 d (Z.to_nat (p - (s + c)))) as [x Hx]; [unfold zlen in *; lia|].
  rewrite Hx. simpl. symmetry. by eapply Forall_lookup_1 in Hx.
Qed.

Lemma filled_nothing l s uc : filled l s uc 0 l.
Proof. split; [done|]. intros p Hp. case_if; [bools; lia|done]. Qed.

Lemma filled_byte l s uc c l' :
  filled l s uc c l' -> 0 <= s -> 0 <= c -> s + c < zlen l ->
  wp (wr l' (s + c) uc) (filled l s uc (c + 1)).
Proof.
  intros Hf Hs Hc Hlt. pose proof Hf as [Hl _]. rewrite wr_blit by lia.
  change 1 with (zlen [uc]). apply filled_more; try done; [|by repeat constructor].
  change (zlen [uc]) with 1. lia.
Qed.

(** The state between the phases of [memset]: [n'] bytes from [d] are left. *)
Definition filling (l : list Z) (s uc n : Z) '(l', d, n') : Prop :=
  exists k, 0 <= k /\ 0 <= n' /\ k + n' = n /\ d = s + k /\ filled l s uc k l'.

Lemma filling_start l s uc n : 0 <= n -> filling l s uc n (l, s, n).
Proof. intros Hn. exists 0. do 3 (split; [lia|]). split; [lia|apply filled_nothing]. Qed.

Lemma filling_byte l s uc n l' d n' :
  filling l s uc n (l', d, n') -> 0 <= s -> s + n <= zlen l -> 0 < n' ->
  wp (let! l2 := wr l' d uc in Ok (inl (B := list Z * Z * Z) (l2, d + 1, n' - 1)))
    (fun x => exists l2, x = inl (l2, d + 1, n' - 1) /\ filling l s uc n (l2, d + 1, n' - 1)).
Proof.
  intros (k & Hk & Hn' & Hkn & -> & Hf) Hs Hfit Hlt.
  eapply wp_bind_mono; [apply (filled_byte l s uc k l'); [done|lia|lia|lia]|].
  intros l2 Hf2. apply wp_Ok. exists l2. split; [done|]. exists (k + 1).
  do 3 (split; [lia|]). split; [lia|done].
Qed.

Lemma memset_correct fast base l s c n :
  0 <= s -> 0 <= n -> s + n <= zlen l ->
  wp (memset fast base l s c n) (filled l s (u8 c) n).
Proof.
  intros Hs Hn Hfit. unfold memset. set (uc := u8 c). assert (is_byte uc) as Hb by apply u8_range.
  apply wp_bind_mono with (P := filling l s uc n).
  - destruct fast; [|by apply wp_Ok, filling_start].
    apply wp_bind_mono with (P := filling l s uc n).
    + unfold memset_align.
      apply (wp_loop (filling l s uc n) (fun '(_, _, n') => Z.to_nat n')); [|by apply filling_start|lia].
      intros [[l' d] n'] Hf. case_if; [|by apply wp_Ok].
      eapply wp_mono; [by apply filling_byte|]. intros x (l2 & -> & Hf2). split; [done|lia].
    + intros [[l' d] n'] Hf. case_if; [|by apply wp_Ok].
      unfold memset_words.
      apply (wp_loop (filling l s uc n) (fun '(_, _, n') => Z.to_nat n')); [|done|lia].
      intros [[l2 d2] n2] (k & Hk & Hn2 & Hkn & -> & Hf2). case_if; [|apply wp_Ok; by exists k].
      rewrite le32_repeat by done.
      eapply wp_bind_mono; [apply (filled_more l s uc k l2); try done; [|by repeat constructor]|].
      { change (zlen [uc; uc; uc; uc]) with 4. lia. }
      change (zlen [uc; uc; uc; uc]) with 4. intros l3 Hf3. apply wp_Ok. split; [|lia].
      exists (k + 4). do 3 (split; [lia|]). split; [lia|done].
  - intros [[l' d] n'] Hf. unfold memset_bytes.
    apply (wp_loop (filling l s uc n) (fun '(_, _, n') => Z.to_nat n')); [|done|lia].
    intros [[l2 d2] n2] Hf2. destruct (Z.eqb_spec n2 0) as [->|Hne].
    + apply wp_Ok. destruct Hf2 as (k & Hk & _ & Hkn & _ & Hf2). by replace n with k by lia.
    + assert (0 < n2) by (destruct Hf2 as (? & ? & ? & _); lia).
      eapply wp_mono; [|intros x Hx; exact Hx].
      pose proof (filling_byte l s uc n l2 d2 n2 Hf2 Hs Hfit ltac:(lia)) as Hw.
      destruct (wr l2 d2 uc) as [l3| |]; simpl in *; try done.
      destruct Hw as (l4 & [= <-] & Hf4). split; [done|lia].
Qed.

(** ** C strings *)

(** The string at [s] is [t]. *)
Fixpoint cstr (l : list Z) (s : Z) (t : list Z) : Prop :=
  0 <= s < zlen l /\
  match t with
  | [] => at_ l s = 0
  | c :: t' => at_ l s = c /\ c <> 0 /\ cstr l (s + 1) t'
  end.

Lemma cstr_length l s t : cstr l s t -> 0 <= s /\ s + zlen t < zlen l.
Proof.
  revert s. induction t as [|c t IH]; intros s [Hs H].
  - unfold zlen in *. simpl. lia.
  - destruct H as (_ & _ & H). apply IH in H. rewrite zlen_cons. lia.
Qed.

Lemma cstr_at l s t i : cstr l s t -> 0 <= i < zlen t -> at_ l (s + i) = at_ t i /\ at_ t i <> 0.
Proof.
  revert s i. induction t as [|c t IH]; intros s i [Hs H] Hi; [unfold zlen in Hi; simpl in Hi; lia|].
  destruct H as (Hc & Hn & H). rewrite zlen_cons in Hi. destruct (decide (i = 0)) as [->|Hne].
  - by rewrite Z.add_0_r.
  - destruct (IH (s + 1) (i - 1) H ltac:(lia)) as [H1 H2].
    replace (s + 1 + (i - 1)) with (s + i) in H1 by lia.
    assert (at_ (c :: t) i = at_ t (i - 1)) as ->.
    { unfold at_. replace (Z.to_nat i) with (S (Z.to_nat (i - 1))) by lia. done. }
    done.
Qed.

Lemma cstr_end l s t : cstr l s t -> at_ l (s + zlen t) = 0.
Proof.
  revert s. induction t as [|c t IH]; intros s [Hs H].
  - unfold zlen. simpl. by rewrite Z.add_0_r.
  - destruct H as (_ & _ & H). apply IH in H. rewrite zlen_cons.
    by replace (s + (1 + zlen t)) with (s + 1 + zlen t) by lia.
Qed.

Lemma strlen_spec l s t : cstr l s t -> strlen l s = Ok (zlen t).
Proof.
  intros Ht. pose proof (cstr_length _ _ _ Ht) as Hlen.
  assert (wp (strlen l s) (fun r => r = zlen t)) as Hw.
  { unfold strlen. apply (wp_loop (fun i => 0 <= i <= zlen t) (fun i => Z.to_nat (zlen t - i))).
    - intros i Hi. rewrite rd_ok by lia. cbn [obind]. destruct (decide (i = zlen t)) as [->|Hne].
      + rewrite (cstr_end _ _ _ Ht). by apply wp_Ok.
      + destruct (cstr_at _ _ _ i Ht ltac:(lia)) as [-> Hnz].
        destruct (Z.eqb_spec (at_ t i) 0); [done|]. apply wp_Ok. lia.
    - pose proof (zlen_nonneg t). lia.
    - unfold str_fuel, zlen in *. lia. }
  by apply wp_inv in Hw as (r & -> & ->).
Qed.

(** ** Comparisons *)

(** The difference at the first place where two strings differ, a string
    continuing with zero. *)
Fixpoint lexdiff (t1 t2 : list Z) : Z :=
  match t1, t2 with
  | [], [] => 0
  | [], b :: _ => 0 - b
  | a :: _, [] => a - 0
  | a :: t1', b :: t2' => if a =? b then lexdiff t1' t2' else a - b
  end.

Lemma lexdiff_antisym t1 t2 : lexdiff t2 t1 = - lexdiff t1 t2.
Proof.
  revert t2. induction t1 as [|a t1 IH]; intros [|b t2]; simpl; try lia.
  rewrite (Z.eqb_sym b a). case_if; [apply IH|lia].
Qed.

Lemma lexdiff_zero t1 t2 :
  Forall (fun c => c <> 0) t1 -> Forall (fun c => c <> 0) t2 -> lexdiff t1 t2 = 0 <-> t1 = t2.
Proof.
  intros H1. revert t2. induction H1 as [|a t1 Ha H1 IH]; intros [|b t2] H2; simpl.
  - done.
  - inversion H2. split; [lia|done].
  - split; [lia|done].
  - inversion H2; subst. destruct (Z.eqb_spec a b) as [->|Hne].
    + rewrite IH by done. split; congruence.
    + split; [lia|congruence].
Qed.

(** [a] is before [b] in the alphabet at the first difference, or a prefix. *)
Fixpoint lexlt (t1 t2 : list Z) : Prop :=
  match t1, t2 with
  | _, [] => False
  | [], _ :: _ => True
  | a :: t1', b :: t2' => a < b \/ a = b /\ lexlt t1' t2'
  end.

Lemma lexdiff_lt t1 t2 :
  Forall (fun c => 0 < c) t1 -> Forall (fun c => 0 < c) t2 -> lexdiff t1 t2 < 0 <-> lexlt t1 t2.
Proof.
  intros H1. revert t2. induction H1 as [|a t1 Ha H1 IH]; intros [|b t2] H2; simpl.
  - lia.
  - inversion H2. split; [done|lia].
  - split; [lia|done].
  - inversion H2; subst. destruct (Z.eqb_spec a b) as [->|Hne].
    + rewrite IH by done. split; [auto|intros [?|[_ ?]]; [lia|done]].
    + split; [lia|intros [?|[? _]]; lia].
Qed.

(** The loop of [strcmp] and [strcasecmp], for a map [f] of characters. *)
Definition cmp_body (f : Z -> Z) (l : list Z) '(s1, s2) : outcome (Z * Z + Z) :=
  let! a := rd l s1 in
  let! more := (if negb (a =? 0) then let! b := rd l s2 in Ok (negb (b =? 0)) else Ok false) in
  let! b := rd l s2 in
  if more then
    if negb (f a =? f b) then Ok (inr (f a - f b)) else Ok (inl (s1 + 1, s2 + 1))
  else Ok (inr (f a - f b)).

Lemma cmp_loop f l t1 t2 s1 s2 fuel :
  f 0 = 0 -> cstr l s1 t1 -> cstr l s2 t2 -> (length t1 < fuel)%nat ->
  loop fuel (cmp_body f l) (s1, s2) = Ok (lexdiff (f <$> t1) (f <$> t2)).
Proof.
  intros Hf0. revert t2 s1 s2 fuel. induction t1 as [|a t1 IH]; intros t2 s1 s2 fuel [Hs1 H1] Ht2 Hfuel;
    (destruct fuel as [|fuel]; [lia|]); cbn [loop cmp_body]; rewrite (rd_ok l s1) by done; cbn [obind].
  - rewrite H1. cbn [Z.eqb negb obind].
    destruct t2 as [|b t2]; destruct Ht2 as [Hs2 H2]; rewrite (rd_ok l s2) by done; cbn [obind].
    + by rewrite H2, Hf0.
    + destruct H2 as (-> & _ & _). by rewrite Hf0.
  - destruct H1 as (-> & Ha & H1). destruct (Z.eqb_spec a 0); [done|]. cbn [negb].
    destruct t2 as [|b t2]; destruct Ht2 as [Hs2 H2]; rewrite (rd_ok l s2) by done; cbn [obind].
    + rewrite H2. cbn [Z.eqb negb]. by rewrite Hf0.
    + destruct H2 as (-> & Hb & H2). destruct (Z.eqb_spec b 0); [done|]. cbn [negb fmap list_fmap lexdiff].
      destruct (Z.eqb_spec (f a) (f b)) as [He|He]; cbn [negb]; [|done].
      apply IH; [done..|simpl in Hfuel; lia].
Qed.

Lemma strcmp_spec l s1 s2 t1 t2 :
  cstr l s1 t1 -> cstr l s2 t2 -> strcmp l s1 s2 = Ok (lexdiff t1 t2).
Proof.
  intros H1 H2. transitivity (loop (str_fuel l) (cmp_body (fun c => c) l) (s1, s2)); [done|].
  rewrite (cmp_loop _ _ t1 t2) by (try done; apply cstr_length in H1; unfold str_fuel, zlen in *; lia).
  by rewrite !list_fmap_id.
Qed.

Lemma strcasecmp_spec l s1 s2 t1 t2 :
  cstr l s1 t1 -> cstr l s2 t2 ->
  strcasecmp l s1 s2 = Ok (lexdiff (tolower <$> t1) (tolower <$> t2)).
Proof.
  intros H1 H2. transitivity (loop (str_fuel l) (cmp_body tolower l) (s1, s2)); [done|].
  by rewrite (cmp_loop _ _ t1 t2) by (try done; apply cstr_length in H1; unfold str_fuel, zlen in *; lia).
Qed.

(** The first characters of a string, as far as a bounded comparison looks. *)
Definition upto (n : Z) (t : list Z) : list Z := take (Z.to_nat n) t.

Lemma strncmp_loop l t1 t2 s1 s2 n fuel :
  cstr l s1 t1 -> cstr l s2 t2 -> 0 <= n -> (Z.to_nat n < fuel)%nat ->
  loop fuel (fun '(diff, s1, s2, n) =>
    if 0 <? n then
      let! a := rd l s1 in
      let! b := rd l s2 in
      let diff := a - b in
      if negb (diff =? 0) || (a =? 0) then Ok (inr diff)
      else Ok (inl (diff, s1 + 1, s2 + 1, n - 1))
    else Ok (inr diff)) (0, s1, s2, n) = Ok (lexdiff (upto n t1) (upto n t2)).
Proof.
  unfold upto. revert t2 s1 s2 n fuel.
  induction t1 as [|a t1 IH]; intros t2 s1 s2 n fuel [Hs1 H1] Ht2 Hn Hfuel;
    (destruct fuel as [|fuel]; [lia|]); cbn [loop];
    (destruct (Z.ltb_spec 0 n) as [Hpos|Hz]; [|replace (Z.to_nat n) with O by lia; done]);
    (destruct (Z.to_nat n) as [|m] eqn:Em; [lia|]); rewrite (rd_ok l s1) by done; cbn [obind].
  - rewrite H1. destruct t2 as [|b t2]; destruct Ht2 as [Hs2 H2]; rewrite (rd_ok l s2) by done; cbn [obind].
    + by rewrite H2.
    + destruct H2 as (-> & _ & _). rewrite orb_true_r. done.
  - destruct H1 as (-> & Ha & H1). destruct (Z.eqb_spec a 0); [done|].
    destruct t2 as [|b t2]; destruct Ht2 as [Hs2 H2]; rewrite (rd_ok l s2) by done; cbn [obind];
      cbv zeta; rewrite orb_false_r.
    + rewrite H2. destruct (Z.eqb_spec (a - 0) 0); [lia|done].
    + destruct H2 as (-> & Hb & H2). cbn [take lexdiff]. destruct (Z.eqb_spec a b) as [->|Hne].
      * rewrite Z.sub_diag. cbn [Z.eqb negb]. replace m with (Z.to_nat (n - 1)) by lia. apply IH; try done; lia.
      * destruct (Z.eqb_spec (a - b) 0); [lia|done].
Qed.

Lemma strncmp_spec l s1 s2 t1 t2 n :
  cstr l s1 t1 -> cstr l s2 t2 -> 0 <= n ->
  strncmp l s1 s2 n = Ok (lexdiff (upto n t1) (upto n t2)).
Proof. intros. unfold strncmp. apply strncmp_loop; try done. lia. Qed.

Lemma tolower_zero a : tolower a = 0 <-> a = 0.
Proof. unfold tolower, isupper. case_if; lia. Qed.

Lemma strncasecmp_loop l t1 t2 s1 s2 n fuel :
  cstr l s1 t1 -> cstr l s2 t2 -> 0 <= n -> (Z.to_nat n < fuel)%nat ->
  loop fuel (fun '(s1, s2, n) =>
    if n =? 0 then Ok (inr 0) else
    let! a := rd l s1 in
    let! b := rd l s2 in
    let c1 := tolower a in
    let c2 := tolower b in
    if negb (c1 =? c2) then Ok (inr (c1 - c2)) else
    if c1 =? 0 then Ok (inr 0) else Ok (inl (s1 + 1, s2 + 1, n - 1))) (s1, s2, n) =
  Ok (lexdiff (upto n (tolower <$> t1)) (upto n (tolower <$> t2))).
Proof.
  unfold upto. revert t2 s1 s2 n fuel.
  induction t1 as [|a t1 IH]; intros t2 s1 s2 n fuel [Hs1 H1] Ht2 Hn Hfuel;
    (destruct fuel as [|fuel]; [lia|]); cbn [loop];
    (destruct (Z.eqb_spec n 0) as [->|Hnz]; [done|]);
    (destruct (Z.to_nat n) as [|m] eqn:Em; [lia|]); rewrite (rd_ok l s1) by done; cbn [obind].
  - rewrite H1. destruct t2 as [|b t2]; destruct Ht2 as [Hs2 H2]; rewrite (rd_ok l s2) by done; cbn [obind].
    + by rewrite H2.
    + destruct H2 as (-> & Hb & _). change (tolower 0) with 0. rewrite Z.eqb_sym.
      destruct (Z.eqb_spec (tolower b) 0) as [E|E]; [by apply (proj1 (tolower_zero b)) in E|done].
  - destruct H1 as (-> & Ha & H1).
    assert ((tolower a =? 0) = false) as Hta by (apply Z.eqb_neq; by rewrite tolower_zero).
    destruct t2 as [|b t2]; destruct Ht2 as [Hs2 H2]; rewrite (rd_ok l s2) by done; cbn [obind].
    + rewrite H2. change (tolower 0) with 0. by rewrite Hta.
    + destruct H2 as (-> & Hb & H2). cbn [fmap list_fmap take lexdiff].
      destruct (Z.eqb_spec (tolower a) (tolower b)) as [He|Hne]; cbn [negb]; [|done].
      rewrite Hta. replace m with (Z.to_nat (n - 1)) by lia. apply IH; try done; lia.
Qed.

Lemma strncasecmp_spec l s1 s2 t1 t2 n :
  cstr l s1 t1 -> cstr l s2 t2 -> 0 <= n ->
  strncasecmp l s1 s2 n = Ok (lexdiff (upto n (tolower <$> t1)) (upto n (tolower <$> t2))).
Proof.
  intros. unfold strncasecmp. destruct (Z.eqb_spec n 0) as [->|]; [done|].
  apply strncasecmp_loop; try done. lia.
Qed.

Lemma memcmp_loop l s1 s2 n fuel diff :
  0 <= s1 -> 0 <= s2 -> 0 <= n -> s1 + n <= zlen l -> s2 + n <= zlen l -> (Z.to_nat n < fuel)%nat ->
  loop fuel (fun '(diff, s1, s2, n) =>
    if (diff =? 0) && negb (n =? 0) then
      let! a := rd l s1 in
      let! b := rd l s2 in
      Ok (inl (a - b, s1 + 1, s2 + 1, n - 1))
    else Ok (inr diff)) (diff, s1, s2, n) =
  Ok (if diff =? 0 then lexdiff (slice l s1 n) (slice l s2 n) else diff).
Proof.
  revert s1 s2 n diff. induction fuel as [|fuel IH]; intros s1 s2 n diff H1 H2 Hn H3 H4 Hf; [lia|].
  cbn [loop]. destruct (Z.eqb_spec diff 0) as [->|Hd]; [|done]. cbn [andb].
  destruct (Z.eqb_spec n 0) as [->|Hnz]; [done|]. cbn [negb].
  rewrite !rd_ok by lia. cbn [obind]. rewrite IH by lia.
  assert (forall s, 0 <= s -> s + n <= zlen l -> slice l s n = at_ l s :: slice l (s + 1) (n - 1)) as Hcons.
  { intros s Hs Hfit. apply buf_ext.
    - rewrite zlen_cons, !slice_length by lia. lia.
    - rewrite slice_length by lia. intros i Hi. rewrite at_slice by lia.
      destruct (decide (i = 0)) as [->|]; [by rewrite Z.add_0_r|].
      transitivity (at_ (slice l (s + 1) (n - 1)) (i - 1)).
      + rewrite at_slice by lia. f_equal. lia.
      + unfold at_. by replace (Z.to_nat i) with (S (Z.to_nat (i - 1))) by lia. }
  rewrite (Hcons s1), (Hcons s2) by lia. cbn [lexdiff].
  destruct (Z.eqb_spec (at_ l s1) (at_ l s2)) as [->|Hne]; [by rewrite Z.sub_diag|].
  destruct (Z.eqb_spec (at_ l s1 - at_ l s2) 0); [lia|done].
Qed.

(** [memcmp] is the first difference of the two blocks. *)
Lemma memcmp_spec l s1 s2 n :
  0 <= s1 -> 0 <= s2 -> 0 <= n -> s1 + n <= zlen l -> s2 + n <= zlen l ->
  memcmp l s1 s2 n = Ok (lexdiff (slice l s1 n) (slice l s2 n)).
Proof. intros. unfold memcmp. rewrite memcmp_loop by lia. done. Qed.

(** [memchr] finds the first occurrence. *)
Lemma memchr_spec l s c n :
  0 <= s -> 0 <= n -> s + n <= zlen l ->
  wp (memchr l s c n) (fun r => match r with
    | Some p => s <= p < s + n /\ at_ l p = u8 c /\ forall q, s <= q < p -> at_ l q <> u8 c
    | None => forall q, s <= q < s + n -> at_ l q <> u8 c
    end).
Proof.
  intros Hs Hn Hfit. unfold memchr.
  apply (wp_loop (fun '(p, k) => s <= p /\ 0 <= k /\ p + k = s + n /\ forall q, s <= q < p -> at_ l q <> u8 c)
    (fun '(_, k) => Z.to_nat k)).
  - intros [p k] (Hp & Hk & Hpk & Hno). destruct (Z.ltb_spec 0 k).
    + rewrite rd_ok by lia. cbn [obind]. destruct (Z.eqb_spec (at_ l p) (u8 c)) as [He|He]; apply wp_Ok.
      * split; [lia|]. by split.
      * split; [|lia]. do 3 (split; [lia|]). intros q Hq.
        destruct (decide (q = p)) as [->|]; [done|apply Hno; lia].
    + apply wp_Ok. intros q Hq. apply Hno. lia.
  - do 3 (split; [lia|]). intros q Hq. lia.
  - lia.
Qed.

(** ** Copies *)

Lemma put_nil l d : 0 <= d <= zlen l -> put l d [] = l.
Proof. intros Hd. unfold put. change (zlen []) with 0. rewrite Z.add_0_r. simpl. apply take_drop. Qed.

(** The next character of a text being written at [d]. *)
Lemma put_snoc l d u c :
  0 <= d -> d + zlen u < zlen l -> wr (put l d u) (d + zlen u) c = Ok (put l d (u ++ [c])).
Proof.
  intros Hd Hfit. pose proof (zlen_nonneg u).
  assert (zlen (u ++ [c]) = zlen u + 1) as Hl by (rewrite zlen_app; done).
  rewrite wr_ok by (rewrite zlen_put; lia). f_equal.
  apply put_ext; [lia|lia|by rewrite zlen_insert, zlen_put by lia|]. intros p Hp. rewrite Hl.
  destruct (decide (p = d + zlen u)) as [->|Hne].
  - rewrite at_insert_eq by (rewrite zlen_put; lia).
    destruct (Z.leb_spec d (d + zlen u)), (Z.ltb_spec (d + zlen u) (d + (zlen u + 1))); simpl; try lia.
    rewrite at_app_r by lia. by replace (d + zlen u - d - zlen u) with 0 by lia.
  - rewrite at_insert_ne by lia. rewrite at_put by lia.
    destruct (Z.leb_spec d p), (Z.ltb_spec p (d + zlen u)), (Z.ltb_spec p (d + (zlen u + 1))); simpl; try lia; try done.
    by rewrite at_app_l by lia.
Qed.

Definition apart (a n b m : Z) : Prop := a + n <= b \/ b + m <= a.

Lemma put_source l d u s t i :
  cstr l s t -> 0 <= d -> d + zlen u <= zlen l -> 0 <= i <= zlen t ->
  apart d (zlen u) s (zlen t + 1) ->
  rd (put l d u) (s + i) = Ok (at_ (t ++ [0]) i).
Proof.
  intros Ht Hd Hfit Hi Hap. pose proof (cstr_length _ _ _ Ht) as [H1 H2]. pose proof (zlen_nonneg u).
  rewrite rd_ok by (rewrite zlen_put; lia). f_equal. rewrite at_put by lia. unfold apart in Hap.
  destruct (Z.leb_spec d (s + i)), (Z.ltb_spec (s + i) (d + zlen u)); simpl; try lia.
  all: destruct (decide (i = zlen t)) as [->|Hne];
    [rewrite (cstr_end _ _ _ Ht), at_app_r, Z.sub_diag by lia; done|].
  all: rewrite at_app_l by lia; apply (cstr_at _ _ _ i Ht); lia.
Qed.

Lemma take_snoc (t : list Z) i :
  0 <= i < zlen t -> upto (i + 1) t = upto i t ++ [at_ t i].
Proof.
  intros Hi. unfold upto. replace (Z.to_nat (i + 1)) with (S (Z.to_nat i)) by lia.
  apply take_S_r. unfold at_. destruct (lookup_lt_is_Some_2 t (Z.to_nat i)) as [x Hx]; [unfold zlen in *; lia|].
  by rewrite Hx.
Qed.

Lemma zlen_upto (t : list Z) i : 0 <= i <= zlen t -> zlen (upto i t) = i.
Proof. intros Hi. unfold upto, zlen in *. rewrite length_take. lia. Qed.

Lemma upto_app_l (t u : list Z) i : 0 <= i <= zlen t -> upto i (t ++ u) = upto i t.
Proof. intros Hi. unfold upto. apply take_app_le. unfold zlen in *. lia. Qed.

(** [strcpy] of a string to a block apart from it. *)
Lemma strcpy_spec l dst src t :
  cstr l src t -> 0 <= dst -> dst + zlen t < zlen l ->
  apart dst (zlen t + 1) src (zlen t + 1) ->
  strcpy l dst src = Ok (put l dst (t ++ [0])).
Proof.
  intros Ht Hd Hfit Hap. pose proof (zlen_nonneg t). pose proof (cstr_length _ _ _ Ht).
  assert (zlen (t ++ [0]) = zlen t + 1) as Hlt by (rewrite zlen_app; done).
  assert (wp (strcpy l dst src) (fun r => r = put l dst (t ++ [0]))) as Hw.
  { unfold strcpy. apply (wp_loop (fun '(l', i) => 0 <= i <= zlen t /\ l' = put l dst (upto i (t ++ [0])))
      (fun '(_, i) => Z.to_nat (zlen t - i))).
    - intros [l' i] (Hi & ->). assert (zlen (upto i (t ++ [0])) = i) as Hu by (apply zlen_upto; lia).
      rewrite (put_source l dst _ src t i Ht) by (rewrite ?Hu; unfold apart in *; lia). cbn [obind].
      rewrite <- Hu at 2. rewrite put_snoc by lia. cbn [obind]. rewrite <- take_snoc by lia.
      assert (zlen (upto (i + 1) (t ++ [0])) = i + 1) as Hu1 by (apply zlen_upto; lia).
      rewrite (put_source l dst _ src t i Ht) by (rewrite ?Hu1; unfold apart in *; lia). cbn [obind].
      destruct (decide (i = zlen t)) as [->|Hne].
      + rewrite at_app_r, Z.sub_diag by lia. apply wp_Ok. unfold upto.
        rewrite take_ge; [done|]. unfold zlen in *. lia.
      + rewrite at_app_l by lia. destruct (cstr_at _ _ _ i Ht ltac:(lia)) as [_ Hnz].
        destruct (Z.eqb_spec (at_ t i) 0); [done|]. apply wp_Ok. split; [|lia]. split; [lia|done].
    - split; [lia|]. unfold upto. simpl. rewrite put_nil; [done|lia].
    - unfold str_fuel, zlen in *. lia. }
  by apply wp_inv in Hw as (r & -> & ->).
Qed.

(** [strncpy] copies at most [n] characters and pads with zeros. *)
Lemma strncpy_spec l dst src t n :
  cstr l src t -> 0 <= dst -> 0 <= n -> dst + n <= zlen l -> apart dst n src (zlen t + 1) ->
  strncpy l dst src n = Ok (put l dst (upto n (t ++ replicate (Z.to_nat n) 0))).
Proof.
  intros Ht Hd Hn Hfit Hap. pose proof (zlen_nonneg t). pose proof (cstr_length _ _ _ Ht).
  set (w := t ++ replicate (Z.to_nat n) 0).
  assert (zlen w = zlen t + n) as Hw by (unfold w, zlen; rewrite length_app, length_replicate; lia).
  assert (forall i, 0 <= i < n -> i <= zlen t -> at_ (t ++ [0]) i = at_ w i) as Hsame.
  { intros i Hi Hit. unfold w. destruct (decide (i = zlen t)) as [->|].
    - rewrite !at_app_r, Z.sub_diag by lia. unfold at_. by rewrite lookup_replicate_2 by lia.
    - by rewrite !at_app_l by lia. }
  assert (wp (strncpy l dst src n) (fun r => r = put l dst (upto n w))) as Hwp.
  { unfold strncpy. eapply wp_bind_mono.
    - apply (wp_loop (fun '(l', i) => 0 <= i <= n /\ i <= zlen t /\ l' = put l dst (upto i w))
        (fun '(_, i) => Z.to_nat (n - i))
        (fun '(l', i) => 0 <= i <= n /\ (i < n -> zlen t <= i) /\ l' = put l dst (upto (Z.min n (i + 1)) w))).
      + intros [l' i] (Hi & Hit & ->). assert (zlen (upto i w) = i) as Hu by (apply zlen_upto; lia).
        destruct (Z.ltb_spec i n) as [Hlt|Hge].
        * rewrite (put_source l dst _ src t i Ht) by (rewrite ?Hu; unfold apart in *; lia). cbn [obind].
          rewrite <- Hu at 2. rewrite put_snoc by lia. cbn [obind]. rewrite Hsame by lia.
          rewrite <- take_snoc by lia.
          assert (zlen (upto (i + 1) w) = i + 1) as Hu1 by (apply zlen_upto; lia).
          rewrite (put_source l dst _ src t i Ht) by (rewrite ?Hu1; unfold apart in *; lia). cbn [obind].
          destruct (decide (i = zlen t)) as [->|Hne].
          -- rewrite at_app_r, Z.sub_diag by lia. apply wp_Ok. split; [lia|]. split; [lia|].
             by replace (Z.min n (zlen t + 1)) with (zlen t + 1) by lia.
          -- rewrite at_app_l by lia. destruct (cstr_at _ _ _ i Ht ltac:(lia)) as [_ Hnz].
             destruct (Z.eqb_spec (at_ t i) 0); [done|]. apply wp_Ok. split; [|lia]. do 2 (split; [lia|]). done.
        * apply wp_Ok. split; [lia|]. split; [lia|]. by replace (Z.min n (i + 1)) with i by lia.
      + split; [lia|]. split; [lia|]. unfold upto. simpl. rewrite put_nil; [done|lia].
      + lia.
    - intros [l' i] (Hi & Hit & ->).
      apply (wp_loop (fun '(l', i) => 0 <= i <= n /\ (i < n -> zlen t <= i) /\ l' = put l dst (upto (Z.min n (i + 1)) w))
        (fun '(_, i) => Z.to_nat (n - i))); [|done|lia].
      clear i Hi Hit. intros [l' i] (Hi & Hit & ->). destruct (Z.ltb_spec (i + 1) n) as [Hlt|Hge].
      + replace (Z.min n (i + 1)) with (i + 1) by lia.
        assert (zlen (upto (i + 1) w) = i + 1) as Hu by (apply zlen_upto; lia).
        rewrite <- Hu at 2. rewrite put_snoc by lia. apply wp_Ok. split; [|lia]. split; [lia|]. split; [lia|].
        replace (Z.min n (i + 1 + 1)) with (i + 1 + 1) by lia. rewrite (take_snoc w (i + 1)) by lia. do 3 f_equal.
        unfold w. rewrite at_app_r by lia. unfold at_. rewrite lookup_replicate_2 by lia. done.
      + apply wp_Ok. by replace (Z.min n (i + 1)) with n by lia. }
  by apply wp_inv in Hwp as (r & -> & ->).
Qed.

(** [strcat] and [strncat] append to the string at [dest]. *)
Lemma strcat_spec l dest src td ts :
  cstr l dest td -> cstr l src ts -> dest + zlen td + zlen ts < zlen l ->
  apart (dest + zlen td) (zlen ts) src (zlen ts + 1) ->
  strcat l dest src = Ok (put l (dest + zlen td) (ts ++ [0])).
Proof.
  intros Hd Hs Hfit Hap. pose proof (cstr_length _ _ _ Hd). pose proof (cstr_length _ _ _ Hs).
  pose proof (zlen_nonneg td). pose proof (zlen_nonneg ts). set (d := dest + zlen td) in *.
  assert (wp (strcat l dest src) (fun r => r = put l d (ts ++ [0]))) as Hwp.
  { unfold strcat. rewrite (strlen_spec _ _ _ Hd). cbn [obind]. rewrite (strlen_spec _ _ _ Hs). cbn [obind].
    eapply wp_bind_mono.
    - apply (wp_loop (fun '(l', i, j) => 0 <= i <= zlen ts /\ j = zlen td + i /\ l' = put l d (upto i ts))
        (fun '(_, i, _) => Z.to_nat (zlen ts - i))
        (fun '(l', j) => j = zlen td + zlen ts /\ l' = put l d ts)).
      + intros [[l' i] j] (Hi & -> & ->). assert (zlen (upto i ts) = i) as Hu by (by apply zlen_upto).
        destruct (Z.ltb_spec i (zlen ts)) as [Hlt|Hge].
        * rewrite (put_source l d _ src ts i Hs) by (rewrite ?Hu; unfold apart in *; lia). cbn [obind].
          replace (dest + (zlen td + i)) with (d + zlen (upto i ts)) by lia.
          rewrite put_snoc by lia. apply wp_Ok. split; [|lia]. split; [lia|]. split; [lia|].
          rewrite at_app_l by lia. by rewrite <- take_snoc by lia.
        * apply wp_Ok. split; [lia|]. unfold upto. rewrite take_ge; [done|]. unfold zlen in *. lia.
      + split; [lia|]. split; [lia|]. unfold upto. simpl. rewrite put_nil; [done|lia].
      + lia.
    - intros [l' j] (-> & ->). replace (dest + (zlen td + zlen ts)) with (d + zlen ts) by lia.
      rewrite put_snoc by lia. by apply wp_Ok. }
  by apply wp_inv in Hwp as (r & -> & ->).
Qed.

Lemma strncat_spec l dest src td ts n :
  cstr l dest td -> cstr l src ts -> 0 <= n -> dest + zlen td + Z.min n (zlen ts) < zlen l ->
  apart (dest + zlen td) (Z.min n (zlen ts)) src (zlen ts + 1) ->
  strncat l dest src n = Ok (put l (dest + zlen td) (upto n ts ++ [0])).
Proof.
  intros Hd Hs Hn Hfit Hap. pose proof (cstr_length _ _ _ Hd). pose proof (cstr_length _ _ _ Hs).
  pose proof (zlen_nonneg td). pose proof (zlen_nonneg ts). set (d := dest + zlen td) in *.
  assert (wp (strncat l dest src n) (fun r => r = put l d (upto n ts ++ [0]))) as Hwp.
  { unfold strncat. rewrite (strlen_spec _ _ _ Hd). cbn [obind]. eapply wp_bind_mono.
    - apply (wp_loop (fun '(l', i) => 0 <= i <= n /\ i <= zlen ts /\ l' = put l d (upto i ts))
        (fun '(_, i) => Z.to_nat (n - i))
        (fun '(l', i) => i = Z.min n (zlen ts) /\ l' = put l d (upto n ts))).
      + intros [l' i] (Hi & Hit & ->). assert (zlen (upto i ts) = i) as Hu by (apply zlen_upto; lia).
        destruct (Z.ltb_spec i n) as [Hlt|Hge].
        * rewrite (put_source l d _ src ts i Hs) by (rewrite ?Hu; unfold apart in *; lia). cbn [obind].
          destruct (decide (i = zlen ts)) as [->|Hne].
          -- rewrite at_app_r, Z.sub_diag by lia. apply wp_Ok. split; [lia|]. unfold upto.
             rewrite !take_ge; [done|unfold zlen in *; lia..].
          -- rewrite at_app_l by lia. destruct (cstr_at _ _ _ i Hs ltac:(lia)) as [_ Hnz].
             destruct (Z.eqb_spec (at_ ts i) 0); [done|]. cbn [negb].
             replace (dest + (zlen td + i)) with (d + zlen (upto i ts)) by lia.
             rewrite put_snoc by lia. apply wp_Ok. split; [|lia]. split; [lia|]. split; [lia|].
             by rewrite <- take_snoc by lia.
        * apply wp_Ok. split; [lia|]. by replace n with i by lia.
      + split; [lia|]. split; [lia|]. unfold upto. simpl. rewrite put_nil; [done|lia].
      + lia.
    - intros [l' i] (-> & ->). assert (zlen (upto n ts) = Z.min n (zlen ts)) as Hu
        by (unfold upto, zlen; rewrite length_take; lia).
      replace (dest + (zlen td + Z.min n (zlen ts))) with (d + zlen (upto n ts)) by lia.
      rewrite put_snoc by lia. by apply wp_Ok. }
  by apply wp_inv in Hwp as (r & -> & ->).
Qed.

(** ** Theorems *)

(** [memmove] leaves at [dst] the block that was at [src] and nothing else
    changed, however the two overlap, with FAST_MEMCPY and its word copies or
    without, at any alignment; [memcpy] does the same when the blocks are apart
    or [dst] is below [src]. *)
Theorem memmove_any_overlap fast W base k l dst src n :
  0 <= k -> W = 2 ^ k -> 0 <= dst -> 0 <= src -> 0 <= n -> dst + n <= zlen l -> src + n <= zlen l ->
  memmove fast W base l dst src n = Ok (put l dst (slice l src n)) /\
  (dst <= src \/ src + n <= dst -> memcpy fast W base l dst src n = Ok (put l dst (slice l src n))).
Proof.
  intros. split; [by apply (memmove_correct fast W base k)|].
  intros. by apply (memcpy_spec fast W base k).
Qed.

Lemma memmove_any_overlap_witness :
  memmove true 4 0 [1; 2; 3; 4; 5; 6; 7; 8; 9; 10] 4 0 5 = Ok [1; 2; 3; 4; 1; 2; 3; 4; 5; 10].
Proof.
  assert (0 <= 2) as H1 by lia. assert (4 = 2 ^ 2) as H2 by reflexivity.
  assert (0 <= 4) as H3 by lia. assert (0 <= 0) as H4 by lia. assert (0 <= 5) as H5 by lia.
  assert (4 + 5 <= zlen [1; 2; 3; 4; 5; 6; 7; 8; 9; 10]) as H6 by (vm_compute; discriminate).
  assert (0 + 5 <= zlen [1; 2; 3; 4; 5; 6; 7; 8; 9; 10]) as H7 by (vm_compute; discriminate).
  exact (proj1 (memmove_any_overlap true 4 0 2 [1; 2; 3; 4; 5; 6; 7; 8; 9; 10] 4 0 5
    H1 H2 H3 H4 H5 H6 H7)).
Defined.

Lemma cstr_pos l s t : bytes l -> cstr l s t -> Forall (fun c => 0 < c) t.
Proof.
  intros Hb. revert s. induction t as [|c t IH]; intros s [Hs H]; [constructor|].
  destruct H as (Hc & Hn & H). constructor; [|by eapply IH].
  pose proof (at_byte l s Hb Hs). unfold is_byte in *. lia.
Qed.

Lemma tolower_pos t : Forall (fun c => 0 < c) t -> Forall (fun c => 0 < c) (tolower <$> t).
Proof.
  intros Ht. apply Forall_fmap. eapply Forall_impl; [exact Ht|]. intros c Hc. simpl in *.
  unfold tolower, isupper. case_if; lia.
Qed.

Lemma lexdiff_order t1 t2 :
  Forall (fun c => 0 < c) t1 -> Forall (fun c => 0 < c) t2 ->
  (lexdiff t1 t2 = 0 <-> t1 = t2) /\ (lexdiff t1 t2 < 0 <-> lexlt t1 t2).
Proof.
  intros H1 H2. split; [|by apply lexdiff_lt].
  apply lexdiff_zero; (eapply Forall_impl; [eassumption|]); simpl; lia.
Qed.

(** The result of a comparison orders two texts. *)
Definition orders (r : outcome Z) (t1 t2 : list Z) : Prop :=
  exists d, r = Ok d /\ (d = 0 <-> t1 = t2) /\ (d < 0 <-> lexlt t1 t2).

(** The four string comparisons return zero exactly for equal strings, and a
    negative number exactly when the first is lexicographically before the second:
    on the whole strings, on their first [n] characters, and on both with letters
    in lower case; and exchanging the arguments of [strcmp] negates its result. *)
Theorem string_comparisons l s1 s2 t1 t2 n :
  bytes l -> cstr l s1 t1 -> cstr l s2 t2 -> 0 <= n ->
  orders (strcmp l s1 s2) t1 t2 /\
  orders (strncmp l s1 s2 n) (upto n t1) (upto n t2) /\
  orders (strcasecmp l s1 s2) (tolower <$> t1) (tolower <$> t2) /\
  orders (strncasecmp l s1 s2 n) (upto n (tolower <$> t1)) (upto n (tolower <$> t2)) /\
  (forall d, strcmp l s1 s2 = Ok d -> strcmp l s2 s1 = Ok (- d)).
Proof.
  intros Hb H1 H2 Hn. pose proof (cstr_pos _ _ _ Hb H1) as P1. pose proof (cstr_pos _ _ _ Hb H2) as P2.
  pose proof (tolower_pos _ P1) as Q1. pose proof (tolower_pos _ P2) as Q2.
  unfold orders. repeat split; try (eexists; split; [|apply lexdiff_order]; unfold upto; eauto using Forall_take).
  - by apply strcmp_spec.
  - by apply strncmp_spec.
  - by apply strcasecmp_spec.
  - by apply strncasecmp_spec.
  - intros d. rewrite (strcmp_spec _ _ _ _ _ H1 H2), (strcmp_spec _ _ _ _ _ H2 H1).
    intros [= <-]. by rewrite lexdiff_antisym.
Qed.

Lemma string_comparisons_witness :
  orders (strcasecmp [65; 98; 0; 97; 99; 0] 0 3) [97; 98] [97; 99].
Proof.
  assert (bytes [65; 98; 0; 97; 99; 0]) as Hb by (repeat constructor; vm_compute; discriminate).
  assert (cstr [65; 98; 0; 97; 99; 0] 0 [65; 98]) as H1 by (vm_compute; repeat split; discriminate).
  assert (cstr [65; 98; 0; 97; 99; 0] 3 [97; 99]) as H2 by (vm_compute; repeat split; discriminate).
  exact (proj1 (proj2 (proj2 (string_comparisons _ 0 3 _ _ 2 Hb H1 H2 ltac:(lia))))).
Defined.
