(* ===== verification/Printf.v ===== *)
(** * Printf: the debug output of string.c

    [uart_writenum], its 64-bit variant and [uart_vprintf], without the
    floating-point directives of UART_PRINTF_FLOAT.  The output is the list of
    bytes given to [uart_write].  Signed overflow is undefined and ends in
    [Oob], as does an argument of the wrong type. *)

From Stdlib Require Import ZArith Lia.
From stdpp Require Import prelude.
From S2P Require Import Prelude Strings StringsSpec.

Local Open Scope Z_scope.

(** ** Numbers *)

Definition uart_writenum_digits : list Z :=
  [48; 49; 50; 51; 52; 53; 54; 55; 56; 57; 65; 66; 67; 68; 69; 70].

Section Printf.
Context (fast : bool) (W sp : Z) (long_long : bool).

Definition uart_writenum_emit (buf : list Z) (bufsize i sz : Z) (zeropad : bool) (maxdigits : Z)
    (out : list Z) : outcome (list Z) :=
  let i := if zeropad && (sz <? maxdigits) then i + (maxdigits - sz) else i in
  let! buf := memmove fast W sp buf i (bufsize - sz) sz in
  if (0 <=? i + sz) && (i + sz <=? zlen buf) then Ok (out ++ slice buf 0 (i + sz)) else Oob.

(** The do-while loop that fills the digits from the end of [buf]. *)
Definition writenum_loop (buf : list Z) (bufsize val base : Z) : outcome (list Z * Z) :=
  loop 65 (fun '(buf, sz, val) =>
    let! d := rd uart_writenum_digits (val mod base) in
    let! buf := wr buf (bufsize - sz - 1) d in
    let sz := sz + 1 in
    let val := val / base in
    if 0 <? val then Ok (inl (buf, sz, val)) else Ok (inr (buf, sz))) (buf, 0, val).

Definition uart_writenum (num base : Z) (zeropad : bool) (maxdigits : Z) (out : list Z) :
    outcome (list Z) :=
  let bufsize := 14 in
  let val := u32 num in
  let maxdigits := if maxdigits =? 0 then 8 else maxdigits in
  let! buf := memset fast sp (replicate (Z.to_nat bufsize) 0) 0 0 bufsize in
  let! (buf, i, val) :=
    (if (base =? 10) && (num <? 0) then
       let! buf := wr buf 0 45 in Ok (buf, 1, u32 (0 - u32 num))
     else Ok (buf, 0, val)) in
  let maxdigits := if bufsize - i <? maxdigits then bufsize - i else maxdigits in
  let! buf := (if zeropad then memset fast sp buf i 48 (u64 maxdigits) else Ok buf) in
  let! (buf, sz) := writenum_loop buf bufsize val base in
  uart_writenum_emit buf bufsize i sz zeropad maxdigits out.

Definition uart_writenum_ll (val : Z) (is_negative : bool) (base : Z) (zeropad : bool)
    (maxdigits : Z) (out : list Z) : outcome (list Z) :=
  let bufsize := 26 in
  let maxdigits := if maxdigits =? 0 then 8 else maxdigits in
  let! buf := memset fast sp (replicate (Z.to_nat bufsize) 0) 0 0 bufsize in
  let! (buf, i) :=
    (if is_negative then let! buf := wr buf 0 45 in Ok (buf, 1) else Ok (buf, 0)) in
  let maxdigits := if bufsize - i <? maxdigits then bufsize - i else maxdigits in
  let! buf := (if zeropad then memset fast sp buf i 48 (u64 maxdigits) else Ok buf) in
  let! (buf, sz) := writenum_loop buf bufsize val base in
  uart_writenum_emit buf bufsize i sz zeropad maxdigits out.

(** ** Formats *)

(** An argument: an [int], a [long long], or a string. *)
Inductive varg : Type :=
| AInt (z : Z)
| ALong (z : Z)
| AStr (t : list Z).

Definition va_int (args : list varg) : outcome (Z * list varg) :=
  match args with AInt z :: a => Ok (z, a) | _ => Oob end.
Definition va_long (args : list varg) : outcome (Z * list varg) :=
  match args with ALong z :: a => Ok (z, a) | _ => Oob end.
Definition va_str (args : list varg) : outcome (list Z * list varg) :=
  match args with AStr t :: a => Ok (t, a) | _ => Oob end.

(** The result of [int] arithmetic. *)
Definition int_ok (x : Z) : outcome Z :=
  if (- 2 ^ 31 <=? x) && (x <? 2 ^ 31) then Ok x else Oob.

Definition isdigit (c : Z) : bool := (48 <=? c) && (c <=? 57).

Record fmt_state : Type := mkFmt {
  fmtp : Z;
  zeropad : bool;
  maxdigits : Z;
  precision : Z;
  islong : Z;
  fargs : list varg;
}.

(** The digits after [.] *)
Definition precision_digits (l : list Z) (p prec : Z) : outcome (Z * Z) :=
  loop (str_fuel l) (fun '(p, prec) =>
    let! c := rd l p in
    if isdigit c then
      let! x := int_ok (prec * 10) in
      let! prec := int_ok (x + (c - 48)) in
      Ok (inl (p + 1, prec))
    else Ok (inr (p, prec))) (p, prec).

(** The loop over width, precision and length. *)
Definition format_flags (l : list Z) (st : fmt_state) : outcome fmt_state :=
  loop (str_fuel l) (fun st =>
    let p := fmtp st in
    let! c := rd l p in
    if c =? 0 then Ok (inr st) else
    if c =? 42 then
      let! (w, args) := va_int (fargs st) in
      Ok (inl (mkFmt (p + 1) (zeropad st) w (precision st) (islong st) args))
    else if isdigit c then
      let z := if (c =? 48) && (maxdigits st =? 0) then true else zeropad st in
      let! w := int_ok (maxdigits st * 10) in
      let! w := int_ok (w + (c - 48)) in
      Ok (inl (mkFmt (p + 1) z w (precision st) (islong st) (fargs st)))
    else if c =? 46 then
      let! c2 := rd l (p + 1) in
      if c2 =? 42 then
        let! (pr, args) := va_int (fargs st) in
        Ok (inl (mkFmt (p + 2) (zeropad st) (maxdigits st) pr (islong st) args))
      else
        let! (p2, pr) := precision_digits l (p + 1) 0 in
        Ok (inl (mkFmt p2 (zeropad st) (maxdigits st) pr (islong st) (fargs st)))
    else if c =? 108 then
      Ok (inl (mkFmt (p + 1) (zeropad st) (maxdigits st) (precision st) (islong st + 1) (fargs st)))
    else if c =? 122 then
      Ok (inl (mkFmt (p + 1) (zeropad st) (maxdigits st) (precision st) (islong st) (fargs st)))
    else Ok (inr st)) st.

Definition spaces (n : Z) : list Z := replicate (Z.to_nat n) 32.

(** [%u], [%i] and [%d]. *)
Definition conv_decimal (c : Z) (st : fmt_state) (out : list Z) : outcome (list Z * list varg) :=
  if long_long && (2 <=? islong st) then
    let! (sll, args) := va_long (fargs st) in
    let '(is_neg, val) :=
      if negb (c =? 117) && (sll <? 0) then (true, u64 (0 - u64 sll)) else (false, u64 sll) in
    let! out := uart_writenum_ll val is_neg 10 (zeropad st) (maxdigits st) out in
    Ok (out, args)
  else
    let! (n, args) := va_int (fargs st) in
    let! out := uart_writenum n 10 (zeropad st) (maxdigits st) out in
    Ok (out, args).

(** [%x] and [%X], and [%p] after its prefix. *)
Definition conv_hex (st : fmt_state) (out : list Z) : outcome (list Z * list varg) :=
  if long_long && (2 <=? islong st) then
    let! (v, args) := va_long (fargs st) in
    let! out := uart_writenum_ll (u64 v) false 16 (zeropad st) (maxdigits st) out in
    Ok (out, args)
  else
    let! (n, args) := va_int (fargs st) in
    let! out := uart_writenum n 16 (zeropad st) (maxdigits st) out in
    Ok (out, args).

(** The switch on the conversion character. *)
Definition format_conv (c : Z) (leftjust : bool) (st : fmt_state) (out : list Z) :
    outcome (list Z * list varg) :=
  if c =? 37 then Ok (out ++ [37], fargs st)
  else if (c =? 117) || (c =? 105) || (c =? 100) then conv_decimal c st out
  else if c =? 112 then conv_hex st (out ++ [48; 120])
  else if (c =? 120) || (c =? 88) then conv_hex st out
  else if c =? 115 then
    let! (t, args) := va_str (fargs st) in
    let pad := spaces (maxdigits st - zlen t) in
    Ok (out ++ (if leftjust then t ++ pad else pad ++ t), args)
  else if c =? 99 then
    let! (n, args) := va_int (fargs st) in
    Ok (out ++ [u8 n], args)
  else Ok (out, fargs st).

Definition vprintf_body (l : list Z) '(p, args, out) :
    outcome (Z * list varg * list Z + list Z) :=
  let! c := rd l p in
  if c =? 0 then Ok (inr out) else
  if negb (c =? 37) then Ok (inl (p + 1, args, out ++ [c])) else
  let p := p + 1 in
  let! c := rd l p in
  let leftjust := c =? 45 in
  let p := if leftjust then p + 1 else p in
  let! st := format_flags l (mkFmt p false 0 (-1) 0 args) in
  let! c := rd l (fmtp st) in
  let! (out, args) := format_conv c leftjust st out in
  Ok (inl (fmtp st + 1, args, out)).

(** [fmt] is NULL or the index of the format string. *)
Definition uart_vprintf (l : list Z) (fmt : option Z) (args : list varg) : outcome (list Z) :=
  match fmt with
  | None => Ok []
  | Some p => loop (str_fuel l) (vprintf_body l) (p, args, [])
  end.

End Printf.
