(* ===== verification/PrintfSpec.v ===== *)
(** * PrintfSpec: what the debug output prints

    Numbers are printed so that reading them back gives the number, inside the
    buffer of the routine; a format that ends in a percent sign makes
    [uart_vprintf] read beyond its terminator. *)

From Stdlib Require Import ZArith Lia.
From stdpp Require Import prelude.
From S2P Require Import Prelude Strings StringsSpec Printf.

Local Open Scope Z_scope.

(** ** Numerals *)

(** Value of a digit character, and of a text of digits. *)
Definition digit_val (c : Z) : Z := if c <=? 57 then c - 48 else c - 55.
Definition value (b : Z) (t : list Z) : Z := foldl (fun a c => a * b + digit_val c) 0 t.

(** The digits of [v], most significant first. *)
Fixpoint numeral (fuel : nat) (b v : Z) : list Z :=
  match fuel with
  | O => []
  | S fuel => (if v / b =? 0 then [] else numeral fuel b (v / b)) ++ [at_ uart_writenum_digits (v mod b)]
  end.

Lemma value_snoc b t c : value b (t ++ [c]) = value b t * b + digit_val c.
Proof. unfold value. by rewrite foldl_app. Qed.

Lemma digit_val_at d : 0 <= d < 16 -> digit_val (at_ uart_writenum_digits d) = d.
Proof.
  intros Hd. assert (forallb (fun d => digit_val (at_ uart_writenum_digits d) =? d) (seqZ 0 16) = true) as H
    by (vm_compute; reflexivity).
  rewrite forallb_forall in H. apply Z.eqb_eq, H. rewrite <- list_elem_of_In. apply elem_of_seqZ. lia.
Qed.

Lemma numeral_value fuel b v :
  2 <= b <= 16 -> 0 <= v < b ^ Z.of_nat fuel -> value b (numeral fuel b v) = v.
Proof.
  intros Hb. revert v. induction fuel as [|fuel IH]; intros v Hv.
  - change (b ^ Z.of_nat 0) with 1 in Hv. unfold value. simpl. lia.
  - cbn [numeral]. rewrite value_snoc. pose proof (Z.mod_pos_bound v b ltac:(lia)).
    rewrite digit_val_at by lia. rewrite (Z.div_mod v b) at 4 by lia.
    destruct (Z.eqb_spec (v / b) 0) as [->|Hne].
    + unfold value. simpl. lia.
    + rewrite IH; [lia|]. split; [apply Z.div_pos; lia|]. apply Z.div_lt_upper_bound; [lia|].
      replace (Z.of_nat (S fuel)) with (Z.succ (Z.of_nat fuel)) in Hv by lia.
      rewrite Z.pow_succ_r in Hv by lia. lia.
Qed.

Lemma numeral_length fuel b v : (length (numeral fuel b v) <= fuel)%nat.
Proof.
  revert v. induction fuel as [|fuel IH]; intros v; [done|]. cbn [numeral].
  rewrite length_app. simpl. case_if; simpl; [lia|]. specialize (IH (v / b)). lia.
Qed.

(** A number with at most [n] digits is printed with as many. *)
Lemma numeral_fuel b v n fuel :
  2 <= b -> 0 <= v < b ^ Z.of_nat n -> (0 < n <= fuel)%nat -> numeral fuel b v = numeral n b v.
Proof.
  intros Hb. revert v fuel. induction n as [|n IH]; intros v fuel Hv Hn; [lia|].
  destruct fuel as [|fuel]; [lia|]. cbn [numeral]. f_equal.
  destruct (Z.eqb_spec (v / b) 0) as [|Hne]; [done|].
  assert (0 <= v / b < b ^ Z.of_nat n) as Hq.
  { split; [apply Z.div_pos; lia|]. apply Z.div_lt_upper_bound; [lia|].
    replace (Z.of_nat (S n)) with (Z.succ (Z.of_nat n)) in Hv by lia.
    rewrite Z.pow_succ_r in Hv by lia. lia. }
  apply IH; [done|]. destruct n; [|lia]. change (b ^ Z.of_nat 0) with 1 in Hq. lia.
Qed.

Lemma value_zeros b k t : value b (replicate k 48 ++ t) = value b t.
Proof.
  unfold value. rewrite foldl_app. f_equal. induction k as [|k IH]; [done|].
  cbn [replicate foldl]. exact IH.
Qed.

(** ** The digit loop *)

Lemma put_cons l d u c :
  0 <= d -> d + 1 + zlen u <= zlen l -> wr (put l (d + 1) u) d c = Ok (put l d (c :: u)).
Proof.
  intros Hd Hfit. pose proof (zlen_nonneg u). rewrite wr_ok by (rewrite zlen_put; lia). f_equal.
  apply put_ext; [lia|rewrite zlen_cons; lia|by rewrite zlen_insert, zlen_put by lia|].
  intros p Hp. rewrite zlen_cons. destruct (decide (p = d)) as [->|Hne].
  - rewrite at_insert_eq by (rewrite zlen_put; lia).
    destruct (Z.leb_spec d d), (Z.ltb_spec d (d + (1 + zlen u))); simpl; try lia. by rewrite Z.sub_diag.
  - rewrite at_insert_ne, at_put by lia.
    destruct (Z.leb_spec (d + 1) p), (Z.leb_spec d p), (Z.ltb_spec p (d + 1 + zlen u)),
      (Z.ltb_spec p (d + (1 + zlen u))); simpl; try lia; try done.
    unfold at_. by replace (Z.to_nat (p - d)) with (S (Z.to_nat (p - (d + 1)))) by lia.
Qed.

Lemma writenum_loop_spec buf n b v :
  2 <= b <= 16 -> (0 < n < 65)%nat -> 0 <= v < b ^ Z.of_nat n -> Z.of_nat n <= zlen buf ->
  writenum_loop buf (zlen buf) v b =
  Ok (put buf (zlen buf - zlen (numeral n b v)) (numeral n b v), zlen (numeral n b v)).
Proof.
  intros Hb Hn Hv Hfit. unfold writenum_loop.
  assert (forall fuel n v u, (n <= fuel)%nat -> (0 < n)%nat -> 0 <= v < b ^ Z.of_nat n ->
    Z.of_nat n + zlen u <= zlen buf ->
    loop fuel (fun '(buf', sz, val) =>
      let! d := rd uart_writenum_digits (val mod b) in
      let! buf' := wr buf' (zlen buf - sz - 1) d in
      let sz := sz + 1 in
      let val := val / b in
      if 0 <? val then Ok (inl (buf', sz, val)) else Ok (inr (buf', sz)))
      (put buf (zlen buf - zlen u) u, zlen u, v) =
    Ok (put buf (zlen buf - zlen (numeral n b v ++ u)) (numeral n b v ++ u), zlen (numeral n b v ++ u)))
    as Hloop.
  { clear n v Hn Hv Hfit. induction fuel as [|fuel IH]; intros n v u Hn Hn0 Hv Hfit; [lia|].
    destruct n as [|n]; [lia|]. cbn [loop numeral]. pose proof (Z.mod_pos_bound v b ltac:(lia)).
    pose proof (zlen_nonneg u).
    rewrite rd_ok by (change (zlen uart_writenum_digits) with 16; lia). cbn [obind].
    set (d := at_ uart_writenum_digits (v mod b)).
    replace (put buf (zlen buf - zlen u) u) with (put buf (zlen buf - zlen u - 1 + 1) u) by (f_equal; lia).
    rewrite put_cons by lia. cbn [obind].
    assert (0 <= v / b < b ^ Z.of_nat n) as Hq.
    { split; [apply Z.div_pos; lia|]. apply Z.div_lt_upper_bound; [lia|].
      replace (Z.of_nat (S n)) with (Z.succ (Z.of_nat n)) in Hv by lia.
      rewrite Z.pow_succ_r in Hv by lia. lia. }
    rewrite <- app_assoc. cbn [app].
    destruct (Z.ltb_spec 0 (v / b)) as [Hpos|Hz].
    - destruct (Z.eqb_spec (v / b) 0); [lia|].
      assert (zlen (d :: u) = zlen u + 1) as Hl by (rewrite zlen_cons; lia).
      rewrite <- Hl. replace (zlen buf - zlen u - 1) with (zlen buf - zlen (d :: u)) by lia.
      apply IH; [lia| |done|lia]. destruct n; [change (b ^ Z.of_nat 0) with 1 in Hq|]; lia.
    - destruct (Z.eqb_spec (v / b) 0); [|lia]. cbn [app]. rewrite zlen_cons.
      do 2 f_equal; [f_equal|]; lia. }
  specialize (Hloop 65%nat n v []). rewrite app_nil_r in Hloop. change (zlen []) with 0 in Hloop.
  rewrite Z.sub_0_r, put_nil in Hloop by (pose proof (zlen_nonneg buf); lia). apply Hloop; lia.
Qed.

(** ** The text of a number *)

Section Text.
Context (fast : bool) (W sp k : Z) (Hk : 0 <= k) (HW : W = 2 ^ k).

(** The zeros in front of the digits. *)
Definition pad (zp : bool) (md n : Z) : list Z :=
  if zp then replicate (Z.to_nat (md - n)) 48 else [].

Lemma emit_buf_spec buf sign ds zp md out :
  zlen sign + zlen ds <= zlen buf -> zlen sign + md <= zlen buf ->
  (forall p, 0 <= p < zlen sign -> at_ buf p = at_ sign p) ->
  (zp = true -> forall p, zlen sign <= p < zlen sign + md -> at_ buf p = 48) ->
  uart_writenum_emit fast W sp (put buf (zlen buf - zlen ds) ds) (zlen buf) (zlen sign) (zlen ds) zp md out =
  Ok (out ++ sign ++ pad zp md (zlen ds) ++ ds).
Proof using HW Hk.
  intros Hds Hmd Hsign Hzero. pose proof (zlen_nonneg ds) as Hd0. pose proof (zlen_nonneg sign) as Hs0.
  unfold uart_writenum_emit. set (i := if zp && _ then _ else _). set (n := zlen ds) in *.
  assert (zlen (put buf (zlen buf - n) ds) = zlen buf) as Hl1 by (apply zlen_put; lia).
  assert (zlen sign <= i /\ i + n <= zlen buf) as [Hi1 Hi2] by (unfold i; case_if; bools; lia).
  rewrite (memmove_correct fast W sp k Hk HW) by (rewrite ?Hl1; lia). cbn [obind]. unfold move.
  assert (slice (put buf (zlen buf - n) ds) (zlen buf - n) n = ds) as ->.
  { apply buf_ext; [rewrite slice_length by lia; done|]. rewrite slice_length by lia. intros p Hp.
    rewrite at_slice, at_put by lia. case_if; [f_equal; lia|]. apply andb_false_iff in E as [E|E]; bools; lia. }
  set (buf2 := put _ i ds). assert (zlen buf2 = zlen buf) as Hl2 by (unfold buf2; rewrite zlen_put; lia).
  destruct (Z.leb_spec 0 (i + n)); [|lia]. destruct (Z.leb_spec (i + n) (zlen buf2)); [|lia]. cbn [andb].
  f_equal. f_equal.
  assert (zlen (pad zp md n) = i - zlen sign) as Hp.
  { unfold pad, i, zlen at 1. destruct zp; simpl; [|lia]. rewrite length_replicate.
    destruct (Z.ltb_spec n md); lia. }
  assert (forall p, 0 <= p < i + n -> at_ buf2 p =
    if p <? i then at_ buf p else at_ ds (p - i)) as Hat.
  { intros p Hpp. unfold buf2. rewrite !at_put by lia. fold n.
    destruct (Z.leb_spec i p), (Z.ltb_spec p (i + n)), (Z.ltb_spec p i),
      (Z.leb_spec (zlen buf - n) p), (Z.ltb_spec p (zlen buf - n + n)); simpl; try lia; done. }
  apply buf_ext; [rewrite slice_length, !zlen_app by lia; lia|]. rewrite slice_length by lia.
  intros p Hpp. rewrite at_slice, Hat, Z.add_0_l by lia. destruct (Z.ltb_spec p i).
  - destruct (Z.lt_ge_cases p (zlen sign)); [rewrite at_app_l by lia; apply Hsign; lia|].
    rewrite at_app_r, at_app_l by lia. unfold pad, i in *. destruct zp; simpl in *; [|lia].
    destruct (Z.ltb_spec n md); [|lia]. rewrite Hzero by lia.
    unfold at_. by rewrite lookup_replicate_2 by lia.
  - rewrite !at_app_r by lia. f_equal. lia.
Qed.

(** From the sign on: both widths print the sign, the zeros and the digits. *)
Lemma writenum_tail buf sign v b n (zp : bool) md out :
  2 <= b <= 16 -> (0 < n < 65)%nat -> 0 <= v < b ^ Z.of_nat n ->
  zlen sign + Z.of_nat n <= zlen buf -> 0 <= md -> zlen sign + md <= zlen buf -> zlen buf < 2 ^ 32 ->
  (forall p, 0 <= p < zlen sign -> at_ buf p = at_ sign p) ->
  (let! buf1 := (if zp then memset fast sp buf (zlen sign) 48 (u64 md) else Ok buf) in
   let! (buf2, sz) := writenum_loop buf1 (zlen buf) v b in
   uart_writenum_emit fast W sp buf2 (zlen buf) (zlen sign) sz zp md out) =
  Ok (out ++ sign ++ pad zp md (zlen (numeral n b v)) ++ numeral n b v).
Proof using HW Hk.
  intros Hb Hn Hv Hfit Hmd0 Hmd Hsz Hsign. pose proof (zlen_nonneg sign) as Hs0.
  pose proof (numeral_length n b v) as Hlen.
  assert (zlen (numeral n b v) <= Z.of_nat n) as Hlen' by (unfold zlen; lia).
  rewrite u64_small by lia.
  assert (wp (if zp then memset fast sp buf (zlen sign) 48 md else Ok buf) (fun buf1 =>
    zlen buf1 = zlen buf /\ (forall p, 0 <= p < zlen sign -> at_ buf1 p = at_ sign p) /\
    (zp = true -> forall p, zlen sign <= p < zlen sign + md -> at_ buf1 p = 48))) as Hw.
  { destruct zp; [|apply wp_Ok; split; [done|]; split; [done|discriminate]].
    eapply wp_mono; [apply memset_correct; lia|]. intros buf1 [Hl Hat]. split; [done|]. split.
    - intros p Hp. rewrite Hat by lia. case_if; [bools; lia|apply Hsign; lia].
    - intros _ p Hp. rewrite Hat by lia. case_if; [done|]. apply andb_false_iff in E as [E|E]; bools; lia. }
  apply wp_inv in Hw as (buf1 & -> & Hl1 & Hs1 & Hz1). cbn [obind]. rewrite <- Hl1.
  rewrite (writenum_loop_spec buf1 n) by (done || lia). cbn [obind]. apply emit_buf_spec; try done; lia.
Qed.

(** The zeroed buffer. *)
Lemma memset_buf n : 0 <= n -> exists buf, memset fast sp (replicate (Z.to_nat n) 0) 0 0 n = Ok buf /\ zlen buf = n.
Proof.
  intros Hn. assert (zlen (replicate (Z.to_nat n) 0) = n) as Hl by (unfold zlen; rewrite length_replicate; lia).
  pose proof (memset_correct fast sp (replicate (Z.to_nat n) 0) 0 0 n) as Hw.
  destruct (wp_inv _ _ (Hw ltac:(lia) Hn ltac:(lia))) as (buf & E & [Hb _]). exists buf. split; [done|lia].
Qed.

(** The text [uart_writenum] prints. *)
Definition num_text (num base : Z) (zp : bool) (md : Z) : list Z :=
  let neg := (base =? 10) && (num <? 0) in
  let md := if md =? 0 then 8 else md in
  let sign := if neg then [45] else [] in
  let ds := numeral 10 base (if neg then - num else u32 num) in
  sign ++ pad zp (Z.min md (14 - zlen sign)) (zlen ds) ++ ds.

Lemma writenum_spec num base zp md out :
  base = 10 \/ base = 16 -> - 2 ^ 31 <= num < 2 ^ 31 -> 0 <= md ->
  uart_writenum fast W sp num base zp md out = Ok (out ++ num_text num base zp md).
Proof using HW Hk.
  intros Hb Hn Hm. unfold uart_writenum, num_text.
  destruct (memset_buf 14 ltac:(lia)) as (buf & -> & Hl). cbn [obind].
  set (m := if md =? 0 then 8 else md). assert (0 <= m) as Hm0 by (unfold m; case_if; lia).
  assert (2 <= base <= 16) as Hb2 by lia.
  assert (2 ^ 32 <= base ^ Z.of_nat 10) as Hbig by (destruct Hb as [-> | ->]; vm_compute; discriminate).
  destruct ((base =? 10) && (num <? 0)) eqn:Eneg.
  - bools. rewrite wr_ok by lia. cbn [obind].
    replace (u32 (0 - u32 num)) with (- num).
    2:{ unfold u32. rewrite <- (Z.mod_small (- num) (2 ^ 32)) by lia.
        rewrite Zminus_mod_idemp_r. f_equal. }
    replace (if 14 - 1 <? m then 14 - 1 else m) with (Z.min m (14 - zlen [45]))
      by (change (zlen [45]) with 1; destruct (Z.ltb_spec (14 - 1) m); lia).
    pose proof (writenum_tail (<[Z.to_nat 0:=45]> buf) [45] (- num) base 10 zp (Z.min m (14 - zlen [45])) out) as Ht.
    rewrite zlen_insert, Hl in Ht. change (zlen [45]) with 1 in *. apply Ht; try lia.
    intros p Hp. replace p with 0 by lia. by rewrite at_insert_eq by lia.
  - cbn [obind]. pose proof (u32_range num).
    replace (if 14 - 0 <? m then 14 - 0 else m) with (Z.min m (14 - zlen (@nil Z)))
      by (change (zlen []) with 0; destruct (Z.ltb_spec (14 - 0) m); lia).
    pose proof (writenum_tail buf [] (u32 num) base 10 zp (Z.min m (14 - zlen (@nil Z))) out) as Ht.
    rewrite Hl in Ht. change (zlen []) with 0 in *. apply Ht; try lia.
Qed.

End Text.

(** Reading a number back. *)
Definition read_number (b : Z) (t : list Z) : Z :=
  match t with
  | 45 :: t' => - value b t'
  | _ => value b t
  end.

(** The first character of a text of digits is not a minus sign. *)
Lemma read_number_digits b t : Forall (fun c => 48 <= c) t -> read_number b t = value b t.
Proof. intros Ht. destruct t as [|c t]; [done|]. inversion Ht; subst. unfold read_number. by repeat (case_match; try lia). Qed.

Lemma numeral_digits fuel b v : 2 <= b <= 16 -> Forall (fun c => 48 <= c) (numeral fuel b v).
Proof.
  intros Hb. revert v. induction fuel as [|fuel IH]; intros v; [constructor|]. cbn [numeral].
  apply Forall_app_2; [case_if; [constructor|apply IH]|]. repeat constructor.
  pose proof (Z.mod_pos_bound v b ltac:(lia)).
  assert (forallb (fun d => 48 <=? at_ uart_writenum_digits d) (seqZ 0 16) = true) as Hall
    by (vm_compute; reflexivity).
  rewrite forallb_forall in Hall. apply Z.leb_le, Hall. rewrite <- list_elem_of_In. apply elem_of_seqZ. lia.
Qed.

Lemma pad_digits zp md n : Forall (fun c => 48 <= c) (pad zp md n).
Proof. unfold pad. destruct zp; [|constructor]. apply Forall_replicate. lia. Qed.

Lemma value_pad b zp md n t : value b (pad zp md n ++ t) = value b t.
Proof. unfold pad. destruct zp; [apply value_zeros|done]. Qed.

Lemma num_text_value num base zp md :
  base = 10 \/ base = 16 -> - 2 ^ 31 <= num < 2 ^ 31 ->
  read_number base (num_text num base zp md) = if base =? 10 then num else u32 num.
Proof.
  intros Hb Hn. unfold num_text. assert (2 <= base <= 16) as Hb2 by lia.
  assert (2 ^ 32 <= base ^ Z.of_nat 10) as Hbig by (destruct Hb as [-> | ->]; vm_compute; discriminate).
  pose proof (u32_range num) as Hu.
  destruct ((base =? 10) && (num <? 0)) eqn:Eneg; bools.
  - cbn [app]. change (read_number base (45 :: ?t)) with (- value base t).
    rewrite value_pad, numeral_value by lia. subst base. simpl. lia.
  - cbn [app]. rewrite read_number_digits by (apply Forall_app_2; [apply pad_digits|by apply numeral_digits]).
    rewrite value_pad, numeral_value by lia. destruct (Z.eqb_spec base 10); [|done].
    simpl in Eneg. bools. apply u32_small. lia.
Qed.

(** The buffer of 14 bytes is never exceeded. *)
Lemma num_text_length num base zp md :
  base = 10 \/ base = 16 -> - 2 ^ 31 <= num < 2 ^ 31 -> 0 <= md ->
  1 <= zlen (num_text num base zp md) <= 14.
Proof.
  intros Hb Hn Hmd. unfold num_text. set (m := if md =? 0 then 8 else md).
  assert (0 <= m) by (unfold m; case_if; lia).
  set (neg := (base =? 10) && (num <? 0)). set (v := if neg then - num else u32 num).
  assert (1 <= zlen (numeral 10 base v) <= 10) as Hlen.
  { pose proof (numeral_length 10 base v). unfold zlen. cbn [numeral] in *. rewrite length_app in *.
    simpl (length [_]) in *. lia. }
  set (sign := if neg then [45] else []).
  assert (0 <= zlen sign <= 1) by (unfold sign; destruct neg; done).
  rewrite !zlen_app. assert (0 <= zlen (pad zp (Z.min m (14 - zlen sign)) (zlen (numeral 10 base v)))
    <= Z.max 0 (14 - zlen sign - zlen (numeral 10 base v))).
  { unfold pad. destruct zp; [|change (zlen []) with 0; lia].
    assert (forall a, zlen (replicate (Z.to_nat a) 48) = Z.max 0 a) as ->
      by (intros a; unfold zlen; rewrite length_replicate; lia). lia. }
  lia.
Qed.

(** The text [uart_writenum] prints for an [int], in decimal or hexadecimal,
    padded or not and of any width, stays inside its 14-byte buffer and reads back
    as the number: with its sign in decimal, INT_MIN included, and as the 32-bit
    pattern in hexadecimal; with FAST_MEMCPY or without. *)
Theorem writenum_roundtrip fast W sp k num base zp md out :
  0 <= k -> W = 2 ^ k -> base = 10 \/ base = 16 -> - 2 ^ 31 <= num < 2 ^ 31 -> 0 <= md ->
  exists text, uart_writenum fast W sp num base zp md out = Ok (out ++ text) /\
    1 <= zlen text <= 14 /\
    read_number base text = if base =? 10 then num else u32 num.
Proof.
  intros Hk HW Hb Hn Hmd. exists (num_text num base zp md).
  split; [by apply (writenum_spec fast W sp k)|].
  split; [by apply num_text_length|by apply num_text_value].
Qed.

Lemma writenum_roundtrip_witness :
  exists text, uart_writenum true (2 ^ 2) 0 (-2147483648) 10 true 12 [] = Ok ([] ++ text) /\
    1 <= zlen text <= 14 /\ read_number 10 text = -2147483648.
Proof.
  exact (writenum_roundtrip true (2 ^ 2) 0 2 (-2147483648) 10 true 12 [] ltac:(lia) eq_refl
    (or_introl eq_refl) ltac:(lia) ltac:(lia)).
Defined.

(** ** A format that ends in a percent sign *)

(** Characters before the first percent sign are printed as they are. *)
Lemma vprintf_plain fast W sp ll l p t args out fuel :
  (forall i, 0 <= i < zlen t -> rd l (p + i) = Ok (at_ t i)) ->
  Forall (fun c => c <> 0 /\ c <> 37) t ->
  loop (length t + fuel) (vprintf_body fast W sp ll l) (p, args, out) =
  loop fuel (vprintf_body fast W sp ll l) (p + zlen t, args, out ++ t).
Proof.
  intros Hrd Ht. revert p out Hrd. induction Ht as [|c t [H0 H37] Ht IH]; intros p out Hrd.
  - simpl. unfold zlen. simpl. by rewrite Z.add_0_r, app_nil_r.
  - cbn [length Nat.add loop vprintf_body]. pose proof (zlen_cons c t) as Hc. pose proof (zlen_nonneg t).
    rewrite <- (Z.add_0_r p) at 1. rewrite Hrd by lia. change (at_ (c :: t) 0) with c. cbn [obind].
    destruct (Z.eqb_spec c 0); [done|]. destruct (Z.eqb_spec c 37); [done|]. cbn [negb].
    rewrite IH.
    + rewrite Hc, <- app_assoc. do 3 f_equal. lia.
    + intros i Hi. replace (p + 1 + i) with (p + (i + 1)) by lia. rewrite Hrd by lia. f_equal.
      unfold at_. by replace (Z.to_nat (i + 1)) with (S (Z.to_nat i)) by lia.
Qed.

(** [uart_vprintf] of a format whose last character is a percent sign reads
    beyond the terminating zero: after the switch it steps over the character at
    the end of the directive, which is the terminator. *)
Theorem vprintf_trailing_percent fast W sp ll t args :
  Forall (fun c => c <> 0 /\ c <> 37) t ->
  uart_vprintf fast W sp ll (t ++ [37; 0]) (Some 0) args = Oob.
Proof.
  intros Ht. unfold uart_vprintf, str_fuel. pose proof (zlen_nonneg t) as Hz.
  assert (zlen (t ++ [37; 0]) = zlen t + 2) as Hl by (rewrite zlen_app; done).
  assert (at_ (t ++ [37; 0]) (zlen t) = 37) as H37 by (rewrite at_app_r, Z.sub_diag by lia; done).
  assert (at_ (t ++ [37; 0]) (zlen t + 1) = 0) as H0
    by (rewrite at_app_r by lia; replace (zlen t + 1 - zlen t) with 1 by lia; done).
  replace (S (length (t ++ [37; 0]))) with (length t + 3)%nat by (rewrite length_app; simpl; lia).
  rewrite vprintf_plain; [|intros i Hi; rewrite rd_ok by lia; by rewrite at_app_l by lia|done].
  rewrite Z.add_0_l. cbn [app loop vprintf_body].
  rewrite rd_ok, H37 by lia. cbn [obind Z.eqb Pos.eqb negb].
  rewrite rd_ok, H0 by lia. cbn [obind Z.eqb].
  unfold format_flags at 1, str_fuel. cbn [loop fmtp]. rewrite rd_ok, H0 by lia. cbn [obind Z.eqb].
  cbn [obind fmtp]. rewrite rd_ok, H0 by lia. cbn [obind]. unfold format_conv at 1. cbn [Z.eqb orb obind].
  assert (rd (t ++ [37; 0]) (zlen t + 1 + 1) = Oob) as Hrd.
  { unfold rd. destruct (Z.ltb_spec (zlen t + 1 + 1) 0); [lia|].
    rewrite lookup_ge_None_2; [done|]. unfold zlen in *. lia. }
  cbn [vprintf_body]. by rewrite Hrd.
Qed.

Lemma vprintf_trailing_percent_witness :
  uart_vprintf true 8 0 true [49; 48; 48; 37; 0] (Some 0) [] = Oob.
Proof.
  apply (vprintf_trailing_percent true 8 0 true [49; 48; 48] []).
  repeat constructor; discriminate.
Defined.
