(* ===== verification/Fdt.v ===== *)
(** * Fdt: the flattened device tree reader and editor of fdt.c

    A blob is the buffer it lives in; a pointer into it is its offset, and
    access outside the buffer is [Oob].  Header fields are read where the code
    reads them, so a function sees what an earlier one wrote.  [int] values
    that come from the blob are converted with [i32], and unsigned sums wrap.
    A C string passed by the caller is its characters, the terminator implied.
    The editing functions return the status and the new blob. *)

From Stdlib Require Import ZArith Lia.
From stdpp Require Import prelude.
From S2P Require Import Prelude Gpt Strings.

Local Open Scope Z_scope.

(** ** Constants *)

Definition FDT_MAGIC : Z := 0xD00DFEED.
Definition FDT_SW_MAGIC : Z := u32 (Z.lnot FDT_MAGIC).
Definition FDT_TAGSIZE : Z := 4.
Definition FDT_TAGALIGN (x : Z) : Z := Z.land (x + FDT_TAGSIZE - 1) (Z.lnot (FDT_TAGSIZE - 1)).
Definition FDT_FIRST_SUPPORTED_VERSION : Z := 0x10.
Definition FDT_LAST_SUPPORTED_VERSION : Z := 0x11.
Definition FDT_BEGIN_NODE : Z := 1.
Definition FDT_END_NODE : Z := 2.
Definition FDT_PROP : Z := 3.
Definition FDT_NOP : Z := 4.
Definition FDT_END : Z := 9.
Definition FDT_ERR_BADMAGIC : Z := 1.
Definition FDT_ERR_BADVERSION : Z := 2.
Definition FDT_ERR_BADSTRUCTURE : Z := 3.
Definition FDT_ERR_BADOFFSET : Z := 4.
Definition FDT_ERR_BADSTATE : Z := 5.
Definition FDT_ERR_NOTFOUND : Z := 6.
Definition FDT_ERR_NOSPACE : Z := 7.
Definition FDT_ERR_TRUNCATED : Z := 8.
Definition FDT_ERR_INTERNAL : Z := 9.
Definition FDT_ERR_EXISTS : Z := 10.

(** ** Big-endian words *)

(** [fdt32_to_cpu] of the word at [off]. *)
Definition be32 (l : list Z) (off : Z) : outcome Z :=
  let! a := rd l off in
  let! b := rd l (off + 1) in
  let! c := rd l (off + 2) in
  let! d := rd l (off + 3) in
  Ok (2 ^ 24 * a + 2 ^ 16 * b + 2 ^ 8 * c + d).

(** Memory image of [cpu_to_fdt32(v)]. *)
Definition be32_bytes (v : Z) : list Z :=
  [(v / 2 ^ 24) mod 256; (v / 2 ^ 16) mod 256; (v / 2 ^ 8) mod 256; v mod 256].
Definition be64_bytes (v : Z) : list Z := be32_bytes (v / 2 ^ 32) ++ be32_bytes v.
Definition be64 (l : list Z) (off : Z) : outcome Z :=
  let! hi := be32 l off in
  let! lo := be32 l (off + 4) in
  Ok (2 ^ 32 * hi + lo).

(** Store [cpu_to_fdt32(v)] at [off]. *)
Definition set_be32 (l : list Z) (off v : Z) : outcome (list Z) := blit l off (be32_bytes v).

(** ** The header *)

Definition OFF_totalsize : Z := 4.
Definition OFF_off_dt_struct : Z := 8.
Definition OFF_off_dt_strings : Z := 12.
Definition OFF_off_mem_rsvmap : Z := 16.
Definition OFF_version : Z := 20.
Definition OFF_last_comp_version : Z := 24.
Definition OFF_size_dt_strings : Z := 32.
Definition OFF_size_dt_struct : Z := 36.

Definition fdt_magic (fdt : list Z) : outcome Z := be32 fdt 0.
Definition fdt_totalsize (fdt : list Z) : outcome Z := be32 fdt OFF_totalsize.
Definition fdt_off_dt_struct (fdt : list Z) : outcome Z := be32 fdt OFF_off_dt_struct.
Definition fdt_off_dt_strings (fdt : list Z) : outcome Z := be32 fdt OFF_off_dt_strings.
Definition fdt_off_mem_rsvmap (fdt : list Z) : outcome Z := be32 fdt OFF_off_mem_rsvmap.
Definition fdt_version (fdt : list Z) : outcome Z := be32 fdt OFF_version.
Definition fdt_last_comp_version (fdt : list Z) : outcome Z := be32 fdt OFF_last_comp_version.
Definition fdt_size_dt_strings (fdt : list Z) : outcome Z := be32 fdt OFF_size_dt_strings.
Definition fdt_size_dt_struct (fdt : list Z) : outcome Z := be32 fdt OFF_size_dt_struct.

(** ** Reading *)

(** [fdt_offset_ptr_] and [fdt_offset_ptr_w_]. *)
Definition fdt_offset_ptr_ (fdt : list Z) (offset : Z) : outcome Z :=
  let! s := fdt_off_dt_struct fdt in Ok (s + offset).

Definition fdt_data_size_ (fdt : list Z) : outcome Z :=
  let! off := fdt_off_dt_strings fdt in
  let! sz := fdt_size_dt_strings fdt in
  if 2 ^ 32 - 1 <? off + sz then Ok (- FDT_ERR_BADOFFSET) else Ok (i32 (off + sz)).

(** [None] is NULL. *)
Definition fdt_offset_ptr (fdt : list Z) (offset len : Z) : outcome (option Z) :=
  let uoffset := u32 offset in
  let! s := fdt_off_dt_struct fdt in
  let absoffset := u32 (offset + s) in
  if offset <? 0 then Ok None else
  let! totalsize := fdt_totalsize fdt in
  if (absoffset <? uoffset) || (u32 (absoffset + len) <? absoffset) ||
     (totalsize <? u32 (absoffset + len)) then Ok None else
  let! version := fdt_version fdt in
  let! bad :=
    (if 0x11 <=? version then
       let! sz := fdt_size_dt_struct fdt in
       Ok ((u32 (uoffset + len) <? uoffset) || (sz <? u32 (offset + len)))
     else Ok false) in
  if bad then Ok None else
  let! p := fdt_offset_ptr_ fdt offset in Ok (Some p).

(** The name of a node: the offset after its terminator, or NULL. *)
Definition skip_name (fdt : list Z) (offset : Z) : outcome (option Z) :=
  loop (S (S (length fdt))) (fun offset =>
    let! p := fdt_offset_ptr fdt offset 1 in
    match p with
    | None => Ok (inr None)
    | Some p =>
        let! b := rd fdt p in
        if negb (b =? 0) then Ok (inl (offset + 1)) else Ok (inr (Some (offset + 1)))
    end) offset.

(** The cursor after a property, [None] for a bad structure. *)
Definition skip_prop (fdt : list Z) (offset : Z) : outcome (option Z) :=
  let! lenp := fdt_offset_ptr fdt offset 4 in
  match lenp with
  | None => Ok None
  | Some lenp =>
      let! proplen := be32 fdt lenp in
      let! totalsize := fdt_totalsize fdt in
      if totalsize <? proplen then Ok None else
      let next_off := offset + 8 + proplen in
      let! version := fdt_version fdt in
      let next_off :=
        if (version <? 0x10) && (8 <=? proplen) && negb ((next_off - proplen) mod 8 =? 0)
        then next_off + 4 else next_off in
      if totalsize <? next_off then Ok None else Ok (Some next_off)
  end.

(** (tag, nextoffset) *)
Definition fdt_next_tag (fdt : list Z) (startoffset : Z) : outcome (Z * Z) :=
  let! tagp := fdt_offset_ptr fdt startoffset FDT_TAGSIZE in
  match tagp with
  | None => Ok (FDT_END, - FDT_ERR_TRUNCATED)
  | Some tagp =>
      let! tag := be32 fdt tagp in
      let offset := startoffset + FDT_TAGSIZE in
      let! offset :=
        (if tag =? FDT_BEGIN_NODE then skip_name fdt offset
         else if tag =? FDT_PROP then skip_prop fdt offset
         else if (tag =? FDT_END) || (tag =? FDT_END_NODE) || (tag =? FDT_NOP)
         then Ok (Some offset) else Ok None) in
      match offset with
      | None => Ok (FDT_END, - FDT_ERR_BADSTRUCTURE)
      | Some offset =>
          let! p := fdt_offset_ptr fdt startoffset (offset - startoffset) in
          match p with
          | None => Ok (FDT_END, - FDT_ERR_BADSTRUCTURE)
          | Some _ => Ok (tag, FDT_TAGALIGN offset)
          end
      end
  end.

Definition fdt_check_offset_ (wanted : Z) (fdt : list Z) (offset : Z) : outcome Z :=
  if (offset <? 0) || negb (offset mod FDT_TAGSIZE =? 0) then Ok (- FDT_ERR_BADOFFSET) else
  let! (tag, next) := fdt_next_tag fdt offset in
  if negb (tag =? wanted) then Ok (- FDT_ERR_BADOFFSET) else Ok next.
Definition fdt_check_node_offset_ : list Z -> Z -> outcome Z := fdt_check_offset_ FDT_BEGIN_NODE.
Definition fdt_check_prop_offset_ : list Z -> Z -> outcome Z := fdt_check_offset_ FDT_PROP.

Definition fdt_next_property_ (fdt : list Z) (offset : Z) : outcome Z :=
  loop (S (S (length fdt))) (fun offset =>
    let! (tag, nextoffset) := fdt_next_tag fdt offset in
    if tag =? FDT_END then
      Ok (inr (if 0 <=? nextoffset then - FDT_ERR_BADSTRUCTURE else nextoffset))
    else if tag =? FDT_PROP then Ok (inr offset)
    else if tag =? FDT_NOP then Ok (inl nextoffset)
    else Ok (inr (- FDT_ERR_NOTFOUND))) offset.

Definition fdt_first_property_offset (fdt : list Z) (nodeoffset : Z) : outcome Z :=
  let! offset := fdt_check_node_offset_ fdt nodeoffset in
  if offset <? 0 then Ok offset else fdt_next_property_ fdt offset.
Definition fdt_next_property_offset (fdt : list Z) (offset : Z) : outcome Z :=
  let! offset := fdt_check_prop_offset_ fdt offset in
  if offset <? 0 then Ok offset else fdt_next_property_ fdt offset.

(** A [struct fdt_property] and the value of [*lenp]. *)
Definition fdt_get_property_by_offset (fdt : list Z) (offset : Z) : outcome (option Z * Z) :=
  let! err := fdt_check_prop_offset_ fdt offset in
  if err <? 0 then Ok (None, err) else
  let! prop := fdt_offset_ptr_ fdt offset in
  let! len := be32 fdt (prop + 4) in
  Ok (Some prop, i32 len).

(** A string of the strings block and its length. *)
Definition fdt_get_string (fdt : list Z) (stroffset : Z) : outcome (option Z * Z) :=
  let! strsize := fdt_size_dt_strings fdt in
  if (stroffset <? 0) || (strsize <=? u32 stroffset) then Ok (None, - FDT_ERR_BADOFFSET) else
  let! off := fdt_off_dt_strings fdt in
  let s := off + stroffset in
  let! e := memchr fdt s 0 (strsize - stroffset) in
  match e with
  | None => Ok (None, - FDT_ERR_BADSTRUCTURE)
  | Some e => Ok (Some s, e - s)
  end.

(** [memcmp] of [n] bytes at [p] with a C string of the caller. *)
Definition memcmp_str (l : list Z) (p : Z) (s : list Z) (n : Z) : outcome Z :=
  loop (S (Z.to_nat n)) (fun '(diff, i) =>
    if (diff =? 0) && (i <? n) then
      let! a := rd l (p + i) in
      let! b := rd (s ++ [0]) i in
      Ok (inl (a - b, i + 1))
    else Ok (inr diff)) (0, 0).

(** The property, the value of [*lenp], the value of [*poffset]. *)
Definition fdt_get_property (fdt : list Z) (offset : Z) (name : list Z)
    : outcome (option Z * Z * Z) :=
  let namelen := zlen name in
  let! offset := fdt_first_property_offset fdt offset in
  loop (S (S (length fdt))) (fun '(offset, lenp) =>
    if offset <? 0 then Ok (inr (None, offset, offset)) else
    let! (prop, lenp) := fdt_get_property_by_offset fdt offset in
    match prop with
    | None => Ok (inr (None, - FDT_ERR_INTERNAL, offset))
    | Some prop =>
        let! nameoff := be32 fdt (prop + 8) in
        let! (p, slen) := fdt_get_string fdt (i32 nameoff) in
        let! found :=
          match p with
          | Some p =>
              if slen =? namelen then
                let! d := memcmp_str fdt p name namelen in Ok (d =? 0)
              else Ok false
          | None => Ok false
          end in
        if found then Ok (inr (Some prop, lenp, offset)) else
        let! next := fdt_next_property_offset fdt offset in
        Ok (inl (next, lenp))
    end) (offset, 0).

(** Address of the value and the value of [*lenp]. *)
Definition fdt_getprop (fdt : list Z) (nodeoffset : Z) (name : list Z) : outcome (option Z * Z) :=
  let! (prop, len, poffset) := fdt_get_property fdt nodeoffset name in
  match prop with
  | None => Ok (None, len)
  | Some prop =>
      let! version := fdt_version fdt in
      let! plen := be32 fdt (prop + 4) in
      if (version <? 0x10) && negb ((poffset + 12) mod 8 =? 0) && (8 <=? plen)
      then Ok (Some (prop + 12 + 4), len)
      else Ok (Some (prop + 12), len)
  end.

(** An address of [uintptr_t] width; 0 is NULL. *)
Definition fdt_getprop_address (fdt : list Z) (nodeoffset : Z) (name : list Z) : outcome Z :=
  let! (val, len) := fdt_getprop fdt nodeoffset name in
  match val with
  | None => Ok 0
  | Some val =>
      if len =? 8 then be64 fdt val
      else if len =? 4 then be32 fdt val
      else Ok 0
  end.

Definition fdt_check_header (fdt : list Z) : outcome Z :=
  let! magic := fdt_magic fdt in
  if magic =? FDT_MAGIC then
    let! version := fdt_version fdt in
    if version <? FDT_FIRST_SUPPORTED_VERSION then Ok (- FDT_ERR_BADVERSION) else
    let! last := fdt_last_comp_version fdt in
    if FDT_LAST_SUPPORTED_VERSION <? last then Ok (- FDT_ERR_BADVERSION) else Ok 0
  else if magic =? FDT_SW_MAGIC then
    let! sz := fdt_size_dt_struct fdt in
    if sz =? 0 then Ok (- FDT_ERR_BADSTATE) else Ok 0
  else Ok (- FDT_ERR_BADMAGIC).

(** ** Walking the nodes *)

(** The next node and the value of [*depth]; [None] is a NULL [depth]. *)
Definition fdt_next_node (fdt : list Z) (offset : Z) (depth : option Z) : outcome (Z * option Z) :=
  let! nextoffset :=
    (if 0 <=? offset then fdt_check_node_offset_ fdt offset else Ok 0) in
  if nextoffset <? 0 then Ok (nextoffset, depth) else
  loop (S (S (length fdt))) (fun '(nextoffset, depth) =>
    let offset := nextoffset in
    let! (tag, nextoffset) := fdt_next_tag fdt offset in
    if tag =? FDT_BEGIN_NODE then Ok (inr (offset, (fun d => d + 1) <$> depth))
    else if tag =? FDT_END_NODE then
      match depth with
      | None => Ok (inl (nextoffset, None))
      | Some d =>
          if d - 1 <? 0 then Ok (inr (nextoffset, Some (d - 1)))
          else Ok (inl (nextoffset, Some (d - 1)))
      end
    else if tag =? FDT_END then
      if (0 <=? nextoffset) ||
         ((nextoffset =? - FDT_ERR_TRUNCATED) && match depth with None => true | _ => false end)
      then Ok (inr (- FDT_ERR_NOTFOUND, depth)) else Ok (inr (nextoffset, depth))
    else Ok (inl (nextoffset, depth))) (nextoffset, depth).

(** Address of the name and the value of [*len]. *)
Definition fdt_get_name (fdt : list Z) (nodeoffset : Z) : outcome (option Z * Z) :=
  let! nh := fdt_offset_ptr_ fdt nodeoffset in
  let! err := fdt_check_header fdt in
  let! err := (if err =? 0 then fdt_check_node_offset_ fdt nodeoffset else Ok err) in
  if err <? 0 then Ok (None, err) else
  let! n := strlen fdt (nh + 4) in
  Ok (Some (nh + 4), n).

(** A search over the nodes after [startoff]: the first that [test] accepts, or
    the error that ended the walk. *)
Definition find_node (test : Z -> outcome bool) (fdt : list Z) (startoff : Z) : outcome Z :=
  let! (off, _) := fdt_next_node fdt startoff None in
  loop (S (S (length fdt))) (fun off =>
    if off <? 0 then Ok (inr off) else
    let! found := test off in
    if found then Ok (inr off) else
    let! (off, _) := fdt_next_node fdt off None in Ok (inl off)) off.

Definition fdt_find_node_offset (fdt : list Z) (startoff : Z) (nodename : list Z) : outcome Z :=
  find_node (fun off =>
    let! (nstr, nlen) := fdt_get_name fdt off in
    if nlen =? zlen nodename then
      match nstr with
      | Some p => let! d := memcmp_str fdt p nodename (zlen nodename) in Ok (d =? 0)
      | None => Oob
      end
    else Ok false) fdt startoff.

Definition fdt_find_prop_offset (fdt : list Z) (startoff : Z) (propname propval : list Z)
    : outcome Z :=
  let pvallen := zlen propval + 1 in
  find_node (fun off =>
    let! (val, len) := fdt_getprop fdt off propname in
    match val with
    | Some val =>
        if len =? pvallen then let! d := memcmp_str fdt val propval len in Ok (d =? 0)
        else Ok false
    | None => Ok false
    end) fdt startoff.

Definition str_device_type : list Z := [100; 101; 118; 105; 99; 101; 95; 116; 121; 112; 101].
Definition str_compatible : list Z := [99; 111; 109; 112; 97; 116; 105; 98; 108; 101].

Definition fdt_find_devtype (fdt : list Z) (startoff : Z) (node : list Z) : outcome Z :=
  fdt_find_prop_offset fdt startoff str_device_type node.

(** The list of strings in a "compatible" property. *)
Definition compatible_match (fdt : list Z) (compatible : list Z) (prop len : Z) : outcome bool :=
  let complen := zlen compatible in
  loop (S (S (length fdt))) (fun '(prop, len) =>
    if negb (complen <=? len) then Ok (inr false) else
    let! d := memcmp_str fdt prop compatible (complen + 1) in
    if d =? 0 then Ok (inr true) else
    let! nextprop := memchr fdt prop 0 len in
    match nextprop with
    | Some nextprop => Ok (inl (nextprop + 1, len - (nextprop - prop + 1)))
    | None => Ok (inr false)
    end) (prop, len).

Definition fdt_node_offset_by_compatible (fdt : list Z) (startoffset : Z) (compatible : list Z)
    : outcome Z :=
  find_node (fun off =>
    let! (prop, len) := fdt_getprop fdt off str_compatible in
    match prop with
    | Some prop => compatible_match fdt compatible prop len
    | None => Ok false
    end) fdt startoffset.

Definition fdt_nodename_eq_ (fdt : list Z) (offset : Z) (s : list Z) : outcome bool :=
  let len := zlen s in
  let! p := fdt_offset_ptr fdt (offset + FDT_TAGSIZE) (len + 1) in
  match p with
  | None => Ok false
  | Some p =>
      let! d := memcmp_str fdt p s len in
      if negb (d =? 0) then Ok false else
      let! e := rd fdt (p + len) in
      if e =? 0 then Ok true else
      let! at_sign := memchr s 0 64 len in
      Ok (match at_sign with None => e =? 64 | Some _ => false end)
  end.

Definition fdt_subnode_offset_namelen (fdt : list Z) (offset : Z) (name : list Z) : outcome Z :=
  loop (S (S (length fdt))) (fun '(offset, depth) =>
    if (0 <=? offset) && (0 <=? depth) then
      let! eq := (if depth =? 1 then fdt_nodename_eq_ fdt offset name else Ok false) in
      if eq then Ok (inr offset) else
      let! (offset, depth') := fdt_next_node fdt offset (Some depth) in
      Ok (inl (offset, default 0 depth'))
    else Ok (inr (if depth <? 0 then - FDT_ERR_NOTFOUND else offset))) (offset, 0).

(** ** Editing *)

(** Move the data after [splicepoint + oldlen]. *)
Definition fdt_splice_ (fdt : list Z) (splicepoint oldlen newlen : Z) : outcome (Z * list Z) :=
  let! data_size := fdt_data_size_ fdt in
  if data_size <? 0 then Ok (data_size, fdt) else
  let p := splicepoint in
  let e := data_size in
  if (p + oldlen <? p) || (e <? p + oldlen) then Ok (- FDT_ERR_BADOFFSET, fdt) else
  if (p <? 0) || (e - oldlen + newlen <? 0) then Ok (- FDT_ERR_BADOFFSET, fdt) else
  let! totalsize := fdt_totalsize fdt in
  if totalsize <? e - oldlen + newlen then Ok (- FDT_ERR_NOSPACE, fdt) else
  let! fdt := memmove false 1 0 fdt (p + newlen) (p + oldlen) (e - p - oldlen) in
  Ok (0, fdt).

(** Add [delta] to a header field. *)
Definition add_field (fdt : list Z) (off delta : Z) : outcome (list Z) :=
  let! v := be32 fdt off in set_be32 fdt off (u32 (v + delta)).

Definition fdt_splice_struct_ (fdt : list Z) (p oldlen newlen : Z) : outcome (Z * list Z) :=
  let delta := newlen - oldlen in
  let! (err, fdt) := fdt_splice_ fdt p oldlen newlen in
  if err =? 0 then
    let! fdt := add_field fdt OFF_size_dt_struct delta in
    let! fdt := add_field fdt OFF_off_dt_strings delta in
    Ok (err, fdt)
  else Ok (err, fdt).

(** (status, property, blob) *)
Definition fdt_resize_property_ (fdt : list Z) (nodeoffset : Z) (name : list Z) (len : Z)
    : outcome (Z * option Z * list Z) :=
  let! (prop, oldlen, _) := fdt_get_property fdt nodeoffset name in
  match prop with
  | None => Ok (oldlen, None, fdt)
  | Some prop =>
      let! (err, fdt) :=
        fdt_splice_struct_ fdt (prop + 12) (FDT_TAGALIGN oldlen) (FDT_TAGALIGN len) in
      if err =? 0 then
        let! fdt := set_be32 fdt (prop + 4) (u32 len) in Ok (err, Some prop, fdt)
      else Ok (err, Some prop, fdt)
  end.

Definition fdt_splice_string_ (fdt : list Z) (newlen : Z) : outcome (Z * list Z) :=
  let! off := fdt_off_dt_strings fdt in
  let! sz := fdt_size_dt_strings fdt in
  if 2 ^ 32 - 1 - off <? sz then Ok (- FDT_ERR_BADOFFSET, fdt) else
  let! (err, fdt) := fdt_splice_ fdt (off + sz) 0 newlen in
  if negb (err =? 0) then Ok (err, fdt) else
  let! fdt := add_field fdt OFF_size_dt_strings newlen in
  Ok (0, fdt).

Definition fdt_find_string_ (fdt : list Z) (strtab tabsize : Z) (s : list Z) : outcome (option Z) :=
  let len := zlen s + 1 in
  let last := strtab + tabsize - len in
  loop (S (S (length fdt))) (fun p =>
    if negb (p <=? last) then Ok (inr None) else
    let! d := memcmp_str fdt p s len in
    if d =? 0 then Ok (inr (Some p)) else Ok (inl (p + 1))) strtab.

(** (offset of the string or error, whether it was added, blob) *)
Definition fdt_find_add_string_ (fdt : list Z) (s : list Z) : outcome (Z * bool * list Z) :=
  let! strtab := fdt_off_dt_strings fdt in
  let len := zlen s + 1 in
  let! tabsize := fdt_size_dt_strings fdt in
  let! p := fdt_find_string_ fdt strtab (i32 tabsize) s in
  match p with
  | Some p => Ok (p - strtab, false, fdt)
  | None =>
      let new := strtab + tabsize in
      let! (err, fdt) := fdt_splice_string_ fdt len in
      if negb (err =? 0) then Ok (err, false, fdt) else
      let! fdt := blit fdt new (s ++ [0]) in
      Ok (new - strtab, true, fdt)
  end.

Definition fdt_del_last_string_ (fdt : list Z) (s : list Z) : outcome (list Z) :=
  add_field fdt OFF_size_dt_strings (- (zlen s + 1)).

Definition fdt_add_property_ (fdt : list Z) (nodeoffset : Z) (name : list Z) (len : Z)
    : outcome (Z * option Z * list Z) :=
  let! nextoffset := fdt_check_node_offset_ fdt nodeoffset in
  if nextoffset <? 0 then Ok (nextoffset, None, fdt) else
  let! (namestroff, allocated, fdt) := fdt_find_add_string_ fdt name in
  if namestroff <? 0 then Ok (namestroff, None, fdt) else
  let! prop := fdt_offset_ptr_ fdt nextoffset in
  let proplen := 12 + FDT_TAGALIGN len in
  let! (err, fdt) := fdt_splice_struct_ fdt prop 0 proplen in
  if negb (err =? 0) then
    let! fdt := (if allocated : bool then fdt_del_last_string_ fdt name else Ok fdt) in
    Ok (err, Some prop, fdt)
  else
    let! fdt := set_be32 fdt prop FDT_PROP in
    let! fdt := set_be32 fdt (prop + 8) (u32 namestroff) in
    let! fdt := set_be32 fdt (prop + 4) (u32 len) in
    Ok (0, Some prop, fdt).

(** [val] holds the [len] bytes of the value. *)
Definition fdt_setprop (fdt : list Z) (nodeoffset : Z) (name val : list Z) : outcome (Z * list Z) :=
  let len := zlen val in
  let! totalsize := fdt_totalsize fdt in
  let! (err, prop, fdt) :=
    (if 0 <? i32 totalsize then
       let! (err, prop, fdt) := fdt_resize_property_ fdt nodeoffset name len in
       if err =? - FDT_ERR_NOTFOUND then fdt_add_property_ fdt nodeoffset name len
       else Ok (err, prop, fdt)
     else Ok (FDT_ERR_BADSTRUCTURE, None, fdt)) in
  if err =? 0 then
    match prop with
    | None => Oob
    | Some prop =>
        if 0 <? len then let! fdt := blit fdt (prop + 12) val in Ok (err, fdt)
        else Ok (err, fdt)
    end
  else Ok (err, fdt).

Definition fdt_add_subnode (fdt : list Z) (parentoff : Z) (name : list Z) : outcome (Z * list Z) :=
  let namelen := zlen name in
  let! err := fdt_check_header fdt in
  if negb (err =? 0) then Ok (err, fdt) else
  let! offset := fdt_subnode_offset_namelen fdt parentoff name in
  if 0 <=? offset then Ok (- FDT_ERR_EXISTS, fdt) else
  if negb (offset =? - FDT_ERR_NOTFOUND) then Ok (offset, fdt) else
  let! (_, nextoffset) := fdt_next_tag fdt parentoff in
  let! offset := loop (S (S (length fdt))) (fun offset =>
    let! (tag, nextoffset) := fdt_next_tag fdt offset in
    if (tag =? FDT_PROP) || (tag =? FDT_NOP) then Ok (inl nextoffset) else Ok (inr offset)) nextoffset in
  let! nh := fdt_offset_ptr_ fdt offset in
  let nodelen := 4 + FDT_TAGALIGN (namelen + 1) + FDT_TAGSIZE in
  let! (err, fdt) := fdt_splice_struct_ fdt nh 0 nodelen in
  if err =? 0 then
    let! fdt := set_be32 fdt nh FDT_BEGIN_NODE in
    let! fdt := memset false 0 fdt (nh + 4) 0 (FDT_TAGALIGN (namelen + 1)) in
    let! fdt := blit fdt (nh + 4) name in
    let! fdt := set_be32 fdt (nh + nodelen - FDT_TAGSIZE) FDT_END_NODE in
    Ok (offset, fdt)
  else Ok (err, fdt).

Definition fdt_del_node (fdt : list Z) (nodeoffset : Z) : outcome (Z * list Z) :=
  let! err := fdt_check_header fdt in
  if negb (err =? 0) then Ok (err, fdt) else
  let! endoffset := loop (S (S (length fdt))) (fun '(endoffset, depth) =>
    if (0 <=? endoffset) && (0 <=? depth) then
      let! (endoffset, depth') := fdt_next_node fdt endoffset (Some depth) in
      Ok (inl (endoffset, default 0 depth'))
    else Ok (inr endoffset)) (nodeoffset, 0) in
  if endoffset <? 0 then Ok (endoffset, fdt) else
  let! p := fdt_offset_ptr_ fdt nodeoffset in
  fdt_splice_struct_ fdt p (endoffset - nodeoffset) 0.

(** [fdt_set_totalsize] is an assignment, whose value is the stored word. *)
Definition fdt_shrink (fdt : list Z) : outcome (Z * list Z) :=
  let! total_size := fdt_data_size_ fdt in
  if total_size <? 0 then Ok (total_size, fdt) else
  let! fdt := set_be32 fdt OFF_totalsize total_size in
  let! v := rd_le fdt OFF_totalsize 4 in
  Ok (i32 v, fdt).

(** Insert an entry before the terminator of the memory reservation map. *)
Definition fdt_add_mem_rsv (fdt : list Z) (address size : Z) : outcome (Z * list Z) :=
  let! off_rsv := fdt_off_mem_rsvmap fdt in
  let! off_dt := fdt_off_dt_struct fdt in
  let! off_str := fdt_off_dt_strings fdt in
  let! size_str := fdt_size_dt_strings fdt in
  let! total := fdt_totalsize fdt in
  let data_end := u32 (off_str + size_str) in
  let shift := 16 in
  if total <? u32 (data_end + shift) then Ok (- FDT_ERR_NOSPACE, fdt) else
  let! i := loop (S (S (length fdt))) (fun i =>
    let! a := be64 fdt (off_rsv + 16 * i) in
    let! s := be64 fdt (off_rsv + 16 * i + 8) in
    if negb (a =? 0) || negb (s =? 0) then
      let i := i + 1 in
      if off_dt <? u32 (off_rsv + (i + 1) * shift) then Ok (inr None) else Ok (inl i)
    else Ok (inr (Some i))) 0 in
  match i with
  | None => Ok (- FDT_ERR_BADSTRUCTURE, fdt)
  | Some i =>
      let! fdt := memmove false 1 0 fdt (off_dt + shift) off_dt (u32 (off_str + size_str - off_dt)) in
      let! fdt := blit fdt (off_rsv + 16 * i) (be64_bytes address) in
      let! fdt := blit fdt (off_rsv + 16 * i + 8) (be64_bytes size) in
      let! fdt := blit fdt (off_rsv + 16 * (i + 1)) (replicate 8 0) in
      let! fdt := blit fdt (off_rsv + 16 * (i + 1) + 8) (replicate 8 0) in
      let! fdt := set_be32 fdt OFF_off_dt_struct (u32 (off_dt + shift)) in
      let! fdt := set_be32 fdt OFF_off_dt_strings (u32 (off_str + shift)) in
      Ok (0, fdt)
  end.

(** ** Fixups *)

Definition fdt_fixup_str (fdt : list Z) (off : Z) (name str : list Z) : outcome (Z * list Z) :=
  fdt_setprop fdt off name (str ++ [0]).
Definition fdt_fixup_val (fdt : list Z) (off : Z) (name : list Z) (val : Z) : outcome (Z * list Z) :=
  fdt_setprop fdt off name (be32_bytes val).
Definition fdt_fixup_val64 (fdt : list Z) (off : Z) (name : list Z) (val : Z) : outcome (Z * list Z) :=
  fdt_setprop fdt off name (be64_bytes val).

Definition str_chosen : list Z := [99; 104; 111; 115; 101; 110].
Definition str_initrd_start : list Z :=
  [108; 105; 110; 117; 120; 44; 105; 110; 105; 116; 114; 100; 45; 115; 116; 97; 114; 116].
Definition str_initrd_end : list Z :=
  [108; 105; 110; 117; 120; 44; 105; 110; 105; 116; 114; 100; 45; 101; 110; 100].

Definition fdt_fixup_initrd (fdt : list Z) (start size : Z) : outcome (Z * list Z) :=
  let end_ := u64 (start + size) in
  let! off := fdt_find_node_offset fdt (-1) str_chosen in
  let! (off, fdt) :=
    (if off =? - FDT_ERR_NOTFOUND then fdt_add_subnode fdt 0 str_chosen else Ok (off, fdt)) in
  if off <? 0 then Ok (off, fdt) else
  let! (ret, fdt) := fdt_fixup_val64 fdt off str_initrd_start start in
  if ret <? 0 then Ok (ret, fdt) else
  let! (ret, fdt) := fdt_fixup_val64 fdt off str_initrd_end end_ in
  if ret <? 0 then Ok (ret, fdt) else Ok (0, fdt).
