(* ===== verification/FdtRead.v ===== *)
(** * FdtRead: reading a device tree stays inside the blob

    [tag_at] says what the structure block holds at an offset; [fdt_next_tag]
    returns it exactly.  From there the walks over nodes and properties are
    total and stay inside the blob, whatever it contains, as long as the total
    size and the strings block of its header are inside the buffer. *)

From Stdlib Require Import ZArith Lia.
From stdpp Require Import prelude.
From S2P Require Import Prelude Strings StringsSpec Fdt.

Local Open Scope Z_scope.

(** ** Words *)

(** The big-endian word at [off]. *)
Definition w32 (l : list Z) (off : Z) : Z :=
  2 ^ 24 * at_ l off + 2 ^ 16 * at_ l (off + 1) + 2 ^ 8 * at_ l (off + 2) + at_ l (off + 3).

Lemma be32_ok l off : 0 <= off -> off + 4 <= zlen l -> be32 l off = Ok (w32 l off).
Proof. intros. unfold be32. rewrite !rd_ok by lia. done. Qed.

Lemma w32_range l off : bytes l -> 0 <= off -> off + 4 <= zlen l -> 0 <= w32 l off < 2 ^ 32.
Proof.
  intros Hb H0 H1. unfold w32.
  pose proof (at_byte l off Hb ltac:(lia)). pose proof (at_byte l (off + 1) Hb ltac:(lia)).
  pose proof (at_byte l (off + 2) Hb ltac:(lia)). pose proof (at_byte l (off + 3) Hb ltac:(lia)).
  wblia.
Qed.

Lemma w32_ext l1 l2 o1 o2 :
  (forall i, 0 <= i < 4 -> at_ l1 (o1 + i) = at_ l2 (o2 + i)) -> w32 l1 o1 = w32 l2 o2.
Proof.
  intros Hat. unfold w32. pose proof (Hat 0 ltac:(lia)) as H0. rewrite !Z.add_0_r in H0.
  by rewrite H0, !Hat by lia.
Qed.

Lemma tagalign_spec x : 0 <= x -> x <= FDT_TAGALIGN x < x + 4 /\ FDT_TAGALIGN x mod 4 = 0.
Proof.
  intros Hx. unfold FDT_TAGALIGN, FDT_TAGSIZE. change (Z.lnot (4 - 1)) with (Z.lnot (Z.ones 2)).
  rewrite <- Z.ldiff_land, Z.ldiff_ones_r, Z.shiftl_mul_pow2, Z.shiftr_div_pow2 by lia. dlia.
Qed.

(** ** Blobs *)

Abbreviation S_ fdt := (w32 fdt OFF_off_dt_struct).
Abbreviation T_ fdt := (w32 fdt OFF_off_dt_strings).
Abbreviation total_ fdt := (w32 fdt OFF_totalsize).
Abbreviation ver_ fdt := (w32 fdt OFF_version).
Abbreviation strsz_ fdt := (w32 fdt OFF_size_dt_strings).
Abbreviation sz_ fdt := (w32 fdt OFF_size_dt_struct).

(** A buffer that holds a header, its total size and its strings. *)
Record readable (fdt : list Z) : Prop := Readable {
  rb_bytes : bytes fdt;
  rb_hdr : 40 <= zlen fdt < 2 ^ 31 - 16;
  rb_total : total_ fdt <= zlen fdt;
  rb_strings : T_ fdt + strsz_ fdt <= zlen fdt;
}.

Section Read.
Context (fdt : list Z) (RB : readable fdt).

Local Abbreviation S := (S_ fdt).
Local Abbreviation T := (T_ fdt).
Local Abbreviation total := (total_ fdt).
Local Abbreviation ver := (ver_ fdt).
Local Abbreviation strsz := (strsz_ fdt).
Local Abbreviation sz := (sz_ fdt).

Lemma hdr_field off : 0 <= off <= 36 -> be32 fdt off = Ok (w32 fdt off) /\ 0 <= w32 fdt off < 2 ^ 32.
Proof.
  intros Ho. destruct RB as [Hb Hh _ _]. split; [apply be32_ok|apply w32_range]; done || lia.
Qed.

Lemma be32_hdr off : 0 <= off <= 36 -> be32 fdt off = Ok (w32 fdt off).
Proof. apply hdr_field. Qed.

Lemma hdr_ranges : 0 <= S /\ 0 <= T /\ 0 <= total < 2 ^ 31 /\ 0 <= strsz < 2 ^ 31 /\ T < 2 ^ 31 /\
  S < 2 ^ 32 /\ 0 <= sz < 2 ^ 32 /\ 0 <= ver.
Proof.
  destruct RB as [Hb Hh Ht Hs].
  pose proof (proj2 (hdr_field OFF_off_dt_struct ltac:(done))).
  pose proof (proj2 (hdr_field OFF_off_dt_strings ltac:(done))).
  pose proof (proj2 (hdr_field OFF_totalsize ltac:(done))).
  pose proof (proj2 (hdr_field OFF_size_dt_strings ltac:(done))).
  pose proof (proj2 (hdr_field OFF_size_dt_struct ltac:(done))).
  pose proof (proj2 (hdr_field OFF_version ltac:(done))). lia.
Qed.

(** [len] bytes at [offset] of the structure block are inside the blob. *)
Definition inside (fdt : list Z) (offset len : Z) : bool :=
  (0 <=? offset) && (S_ fdt + offset + len <=? total_ fdt) &&
  ((ver_ fdt <? 0x11) || (offset + len <=? sz_ fdt)).

Lemma offset_ptr_spec offset len :
  offset < 2 ^ 31 -> 0 <= len < 2 ^ 31 ->
  fdt_offset_ptr fdt offset len = Ok (if inside fdt offset len then Some (S + offset) else None).
Proof.
  intros Ho Hl. destruct hdr_ranges as (R1 & R2 & R3 & R4 & R5 & R6 & R7 & R8).
  unfold fdt_offset_ptr, fdt_offset_ptr_, fdt_off_dt_struct, fdt_totalsize, fdt_version, fdt_size_dt_struct.
  rewrite !be32_hdr by done. cbn [obind]. unfold inside.
  destruct (Z.ltb_spec offset 0) as [Hneg|Hpos].
  { by rewrite (proj2 (Z.leb_gt 0 offset)) by lia. }
  rewrite (proj2 (Z.leb_le 0 offset)) by lia. cbn [andb].
  rewrite (u32_small offset) by lia.
  destruct (Z.leb_spec (S + offset + len) total) as [Hin|Hout].
  - rewrite (u32_small (offset + S)), (u32_small (offset + S + len)) by lia.
    rewrite (proj2 (Z.ltb_ge (offset + S) offset)), (proj2 (Z.ltb_ge (offset + S + len) (offset + S))),
      (proj2 (Z.ltb_ge total (offset + S + len))) by lia. cbn [orb andb].
    rewrite (u32_small (offset + len)) by lia.
    rewrite (proj2 (Z.ltb_ge (offset + len) offset)) by lia. cbn [orb].
    destruct (Z.leb_spec 0x11 ver), (Z.ltb_spec ver 0x11), (Z.ltb_spec sz (offset + len)),
      (Z.leb_spec (offset + len) sz); cbn; try done; lia.
  - assert ((u32 (offset + S) <? offset) || (u32 (u32 (offset + S) + len) <? u32 (offset + S))
      || (total <? u32 (u32 (offset + S) + len)) = true) as ->; [|done].
    apply orb_true_iff. rewrite orb_true_iff, !Z.ltb_lt. unfold u32.
    destruct (Z.lt_ge_cases (offset + S) (2 ^ 32)) as [Hs|Hs].
    + rewrite (Z.mod_small (offset + S)) by lia.
      destruct (Z.lt_ge_cases (offset + S + len) (2 ^ 32)) as [Hs2|Hs2].
      * rewrite Z.mod_small by lia. right. lia.
      * left. right. assert ((offset + S + len) mod 2 ^ 32 = offset + S + len - 2 ^ 32) as ->
          by (symmetry; apply (Z.mod_unique_pos _ _ 1); lia). lia.
    + left. left. assert ((offset + S) mod 2 ^ 32 = offset + S - 2 ^ 32) as ->
        by (symmetry; apply (Z.mod_unique_pos _ _ 1); lia). lia.
Qed.

Lemma inside_true offset len :
  inside fdt offset len = true <->
  0 <= offset /\ S + offset + len <= total /\ (ver < 0x11 \/ offset + len <= sz).
Proof.
  unfold inside. rewrite !andb_true_iff, orb_true_iff, !Z.leb_le, Z.ltb_lt. tauto.
Qed.

Lemma inside_sub o1 n1 o2 n2 :
  inside fdt o1 n1 = true -> o1 <= o2 -> o2 + n2 <= o1 + n1 -> 0 <= n2 -> inside fdt o2 n2 = true.
Proof. rewrite !inside_true. lia. Qed.

(** ** Tags *)

(** What is read at [o]: [tag], with the element ending before [e]. *)
Definition tag_at (fdt : list Z) (o tag e : Z) : Prop :=
  inside fdt o (e - o) = true /\ o + 4 <= e /\ w32 fdt (S_ fdt + o) = tag /\
  ((tag = FDT_BEGIN_NODE /\ o + 5 <= e /\ at_ fdt (S_ fdt + (e - 1)) = 0 /\
    forall i, o + 4 <= i < e - 1 -> at_ fdt (S_ fdt + i) <> 0) \/
   (tag = FDT_PROP /\ let n := w32 fdt (S_ fdt + (o + 4)) in
    e = o + 12 + n + (if (ver_ fdt <? 0x10) && (8 <=? n) && negb ((o + 12) mod 8 =? 0) then 4 else 0) /\
    inside fdt (o + 4) 4 = true /\ n <= total_ fdt /\ e <= total_ fdt) \/
   ((tag = FDT_END \/ tag = FDT_END_NODE \/ tag = FDT_NOP) /\ e = o + 4)).

Lemma skip_name_spec o :
  0 <= o < 2 ^ 31 - 1 ->
  wp (skip_name fdt o) (fun r => match r with
    | Some e => o + 1 <= e /\ at_ fdt (S + (e - 1)) = 0 /\ S + e <= total /\
        forall i, o <= i < e - 1 -> at_ fdt (S + i) <> 0
    | None => exists n, o <= n /\ inside fdt n 1 = false /\
        forall i, o <= i < n -> at_ fdt (S + i) <> 0 /\ inside fdt i 1 = true
    end).
Proof.
  intros Ho. destruct RB as [Hb Hh Ht Hs]. destruct hdr_ranges as (R1 & R2 & R3 & R4 & R5 & R6 & R7 & R8).
  unfold skip_name.
  apply (wp_loop (fun q => o <= q < 2 ^ 31 /\ (o < q -> S + q <= total) /\
      forall i, o <= i < q -> at_ fdt (S + i) <> 0 /\ inside fdt i 1 = true)
    (fun q => Z.to_nat (zlen fdt - q))).
  - intros q (Hq & Hb2 & Hnz). rewrite offset_ptr_spec by lia. cbn [obind].
    destruct (inside fdt q 1) eqn:Hi.
    + pose proof (proj1 (inside_true _ _) Hi) as (I1 & I2 & I3). rewrite rd_ok by lia. cbn [obind].
      destruct (Z.eqb_spec (at_ fdt (S + q)) 0) as [Hz|Hz]; cbn.
      * split; [lia|]. rewrite Z.add_simpl_r. split; [done|]. split; [lia|]. intros i Hi2. apply Hnz. lia.
      * split; [|lia]. split; [lia|]. split; [lia|]. intros i Hi2.
        destruct (Z.eq_dec i q) as [->|]; [done|]. apply Hnz. lia.
    + cbn. exists q. split; [lia|]. done.
  - split; [lia|]. split; [lia|]. intros i Hi. lia.
  - unfold zlen. lia.
Qed.

Lemma skip_name_found o e :
  0 <= o -> o + 1 <= e -> at_ fdt (S + (e - 1)) = 0 -> inside fdt o (e - o) = true ->
  (forall i, o <= i < e - 1 -> at_ fdt (S + i) <> 0) -> skip_name fdt o = Ok (Some e).
Proof.
  intros Ho He Hz Hin Hnz. destruct hdr_ranges as (R1 & R2 & R3 & _).
  pose proof (proj1 (inside_true _ _) Hin) as (I1 & I2 & I3).
  destruct (wp_inv _ _ (skip_name_spec o ltac:(lia))) as ([e'|] & -> & Hr).
  - destruct Hr as (E1 & E2 & E3 & E4). do 2 f_equal.
    destruct (Z.lt_trichotomy e' e) as [Hlt|[->|Hgt]]; [|done|].
    + exfalso. apply (Hnz (e' - 1)); [lia|done].
    + exfalso. apply (E4 (e - 1)); [lia|done].
  - destruct Hr as (n & N1 & N2 & N3). exfalso. destruct (Z.lt_ge_cases n e) as [Hlt|Hge].
    + rewrite (inside_sub o (e - o) n 1) in N2 by (done || lia). done.
    + destruct (N3 (e - 1)); [lia|done].
Qed.

Lemma skip_prop_spec o :
  0 <= o < 2 ^ 31 - 4 ->
  skip_prop fdt o = Ok (
    if inside fdt o 4 then
      let n := w32 fdt (S + o) in
      let e := o + 8 + n + (if (ver <? 0x10) && (8 <=? n) && negb ((o + 8) mod 8 =? 0) then 4 else 0) in
      if (total <? n) || (total <? e) then None else Some e
    else None).
Proof.
  intros Ho. destruct RB as [Hb Hh Ht Hs]. destruct hdr_ranges as (R1 & R2 & R3 & _).
  unfold skip_prop. rewrite offset_ptr_spec by lia. cbn [obind].
  destruct (inside fdt o 4) eqn:Hi; [|done]. apply inside_true in Hi as (I1 & I2 & _).
  unfold fdt_totalsize, fdt_version. rewrite be32_ok by lia.
  rewrite !be32_hdr by done. cbn [obind]. cbv zeta. set (n := w32 fdt (S + o)).
  replace (o + 8 + n - n) with (o + 8) by lia.
  destruct (Z.ltb_spec total n); [done|]. cbn [orb].
  destruct ((ver <? 0x10) && (8 <=? n) && negb ((o + 8) mod 8 =? 0));
    [|rewrite Z.add_0_r]; by destruct (total <? _).
Qed.

(** [fdt_next_tag] returns what is there. *)
Lemma next_tag_complete o tag e :
  tag_at fdt o tag e -> fdt_next_tag fdt o = Ok (tag, FDT_TAGALIGN e).
Proof.
  intros (Hin & He & Hw & Hc). destruct RB as [Hb Hh Ht Hs]. destruct hdr_ranges as (R1 & R2 & R3 & _).
  pose proof (proj1 (inside_true _ _) Hin) as (I1 & I2 & I3).
  unfold fdt_next_tag, FDT_TAGSIZE. rewrite offset_ptr_spec by lia. cbn [obind].
  rewrite (inside_sub o (e - o)) by (done || lia). rewrite be32_ok by lia. cbn [obind]. rewrite Hw.
  match goal with |- obind ?x _ = _ => assert (x = Ok (Some e)) as -> end.
  { destruct Hc as [(-> & H5 & Hz & Hnz)|[(-> & H5 & H6 & H7 & H8)|([-> | [-> | ->]] & ->)]]; cbn [Z.eqb].
    - apply skip_name_found; try done; [lia..|]. apply (inside_sub o (e - o)); done || lia.
    - change (FDT_PROP =? FDT_BEGIN_NODE) with false. change (FDT_PROP =? FDT_PROP) with true. cbv iota.
      pose proof (proj1 (inside_true _ _) H6) as (J1 & J2 & _).
      rewrite skip_prop_spec by lia. rewrite H6. cbv zeta in H5 |- *.
      replace (o + 4 + 8) with (o + 12) by lia. rewrite <- H5.
      rewrite (proj2 (Z.ltb_ge _ _)), (proj2 (Z.ltb_ge _ _)) by lia. done.
    - done.
    - done.
    - done. }
  cbn [obind]. rewrite offset_ptr_spec by lia. rewrite Hin. done.
Qed.

Lemma next_tag_sound o :
  o < 2 ^ 31 - 8 ->
  wp (fdt_next_tag fdt o) (fun '(tag, next) =>
    (tag = FDT_END /\ next < 0) \/ exists e, tag_at fdt o tag e /\ next = FDT_TAGALIGN e).
Proof.
  intros Ho. destruct RB as [Hb Hh Ht Hs]. destruct hdr_ranges as (R1 & R2 & R3 & _).
  unfold fdt_next_tag, FDT_TAGSIZE. rewrite offset_ptr_spec by lia. cbn [obind].
  destruct (inside fdt o 4) eqn:Hi4; [|by left].
  pose proof (proj1 (inside_true _ _) Hi4) as (I1 & I2 & I3).
  rewrite be32_ok by lia. cbn [obind]. set (tag := w32 fdt (S + o)).
  apply wp_bind. eapply wp_mono with (P := fun r => match r with None => True | Some e =>
    o + 4 <= e < 2 ^ 31 /\ (inside fdt o (e - o) = true -> tag_at fdt o tag e) end).
  - destruct (Z.eqb_spec tag FDT_BEGIN_NODE) as [Et|Nt1].
    + eapply wp_mono; [apply skip_name_spec; lia|]. intros [e|]; [|done]. intros (E1 & E2 & E3 & E4).
      split; [lia|]. intros Hin. split; [done|]. split; [lia|]. split; [done|]. left. split; [done|].
      split; [lia|]. done.
    + destruct (Z.eqb_spec tag FDT_PROP) as [Et|Nt2].
      * rewrite skip_prop_spec by lia. cbv zeta. destruct (inside fdt (o + 4) 4) eqn:Hi8; [|done].
        pose proof (w32_range fdt (S + (o + 4)) Hb) as Hr.
        apply inside_true in Hi8 as Hi8'. destruct Hi8' as (J1 & J2 & _).
        specialize (Hr ltac:(lia) ltac:(lia)). set (n := w32 fdt (S + (o + 4))) in *.
        replace (o + 4 + 8) with (o + 12) by lia.
        destruct (Z.ltb_spec total n) as [|Hn]; [done|]. cbn [orb].
        set (e := o + 12 + n + _). destruct (Z.ltb_spec total e) as [|He]; [done|]. cbn.
        assert (o + 12 <= e) as He2 by (unfold e; destruct (_ && _); lia).
        split; [lia|]. intros Hin. split; [done|]. split; [lia|]. split; [done|]. right. left.
        split; [done|]. by split_and!.
      * destruct ((tag =? FDT_END) || (tag =? FDT_END_NODE) || (tag =? FDT_NOP)) eqn:Eo; [|done]. cbn.
        split; [lia|]. intros Hin. split; [done|]. split; [lia|]. split; [done|]. right. right.
        split; [|done]. rewrite !orb_true_iff, !Z.eqb_eq in Eo. tauto.
  - intros [e|] He; [|by left]. destruct He as [He Hta]. rewrite offset_ptr_spec by lia. cbn [obind].
    destruct (inside fdt o (e - o)) eqn:Hin; [|by left]. cbn. right. exists e. auto.
Qed.

Lemma tag_at_next o tag e :
  tag_at fdt o tag e ->
  0 <= o /\ o + 4 <= FDT_TAGALIGN e /\ FDT_TAGALIGN e < 2 ^ 31 - 8 /\ S + e <= total /\ e <= FDT_TAGALIGN e < e + 4.
Proof.
  intros (Hin & He & _). apply inside_true in Hin as (I1 & I2 & _).
  destruct hdr_ranges as (R1 & R2 & R3 & _). destruct RB as [Hb Hh Ht Hs].
  pose proof (tagalign_spec e ltac:(lia)) as [Ha _]. lia.
Qed.

(** ** Properties *)

Lemma check_offset_spec wanted o :
  o < 2 ^ 31 - 8 -> wanted <> FDT_END ->
  wp (fdt_check_offset_ wanted fdt o) (fun r =>
    r < 0 \/ (o mod 4 = 0 /\ exists e, tag_at fdt o wanted e /\ r = FDT_TAGALIGN e)).
Proof.
  intros Ho Hw. unfold fdt_check_offset_. destruct (_ || _) eqn:Eo; [by left|].
  apply orb_false_iff in Eo as [Hp Hm]. apply negb_false_iff, Z.eqb_eq in Hm.
  apply wp_bind. eapply wp_mono; [by apply next_tag_sound|].
  intros [tag next] [[-> Hn]|(e & Ht & ->)]; case_if; bools; try (by left); try congruence.
  right. split; [exact Hm|]. exists e. by subst.
Qed.

Lemma next_property_spec o :
  0 <= o < 2 ^ 31 - 8 ->
  wp (fdt_next_property_ fdt o) (fun r => r < 0 \/ (o <= r /\ exists e, tag_at fdt r FDT_PROP e)).
Proof.
  intros Ho. unfold fdt_next_property_.
  apply (wp_loop (fun q => o <= q < 2 ^ 31 - 8) (fun q => Z.to_nat (zlen fdt - q))).
  - intros q Hq. apply wp_bind. eapply wp_mono; [apply next_tag_sound; lia|].
    intros [tag next] Hr. destruct (Z.eqb_spec tag FDT_END) as [->|Hne].
    { cbn. left. case_if; [done|lia]. }
    destruct Hr as [[? _]|(e & Ht & ->)]; [done|]. pose proof (tag_at_next _ _ _ Ht) as Hn.
    destruct RB as [_ _ Htl _].
    destruct (Z.eqb_spec tag FDT_PROP) as [->|]; [cbn; right; split; [lia|eauto]|].
    destruct (Z.eqb_spec tag FDT_NOP); [|by left]. cbn.
    pose proof (proj1 hdr_ranges). split; lia.
  - lia.
  - unfold zlen. lia.
Qed.

Lemma first_property_spec o :
  o < 2 ^ 31 - 8 ->
  wp (fdt_first_property_offset fdt o) (fun r => r < 0 \/ (o < r /\ exists e, tag_at fdt r FDT_PROP e)).
Proof.
  intros Ho. unfold fdt_first_property_offset, fdt_check_node_offset_. apply wp_bind.
  eapply wp_mono; [by apply check_offset_spec|]. intros r [Hr|(_ & e & Ht & ->)].
  - rewrite (proj2 (Z.ltb_lt _ _)) by lia. by left.
  - pose proof (tag_at_next _ _ _ Ht). rewrite (proj2 (Z.ltb_ge _ _)) by lia.
    eapply wp_mono; [apply next_property_spec; lia|]. intros r [?|[? ?]]; [by left|]. right. split; [lia|done].
Qed.

Lemma next_prop_offset_spec o e :
  tag_at fdt o FDT_PROP e ->
  wp (fdt_next_property_offset fdt o) (fun r =>
    r < 0 \/ (FDT_TAGALIGN e <= r /\ exists e', tag_at fdt r FDT_PROP e')).
Proof.
  intros Ht. pose proof (tag_at_next _ _ _ Ht). unfold fdt_next_property_offset, fdt_check_prop_offset_, fdt_check_offset_.
  rewrite (next_tag_complete _ _ _ Ht). cbn [obind].
  destruct (_ || _); [by left|]. change (FDT_PROP =? FDT_PROP) with true. cbn [negb obind].
  rewrite (proj2 (Z.ltb_ge (FDT_TAGALIGN e) 0)) by lia.
  eapply wp_mono; [apply next_property_spec; lia|]. auto.
Qed.

(** A property lies inside the blob. *)
Lemma prop_inside o e :
  tag_at fdt o FDT_PROP e ->
  let n := w32 fdt (S + o + 4) in
  0 <= n <= total /\ S + o + 12 + n <= total /\ 0 <= S + o /\ i32 n = n /\
  ((ver <? 0x10) && negb ((o + 12) mod 8 =? 0) && (8 <=? n) = true -> S + o + 16 + n <= total).
Proof.
  intros (Hin & He & Hw & [(E & _)|[(_ & Hn & Hi & Hle & Het)|([E|[E|E]] & _)]]); try done.
  apply inside_true in Hin as (I1 & I2 & _). apply inside_true in Hi as (J1 & J2 & _).
  destruct RB as [Hb Hh Htl Hs]. destruct hdr_ranges as (R1 & R2 & R3 & _).
  cbv zeta in *. rewrite <- Z.add_assoc in *. set (n := w32 fdt (S + (o + 4))) in *.
  assert (0 <= n < 2 ^ 32) as Hr by (apply w32_range; lia || done).
  split; [lia|]. split; [destruct (_ && _) in Hn; lia|]. split; [lia|]. split; [apply i32_small; lia|].
  intros Hc. replace ((ver <? 16) && (8 <=? n) && negb ((o + 12) mod 8 =? 0)) with true in Hn; [lia|].
  rewrite !andb_true_iff in Hc. destruct Hc as [[-> ->] ->]. done.
Qed.

Lemma prop_by_offset_spec o e :
  tag_at fdt o FDT_PROP e -> o mod 4 = 0 ->
  fdt_get_property_by_offset fdt o = Ok (Some (S + o), w32 fdt (S + o + 4)).
Proof.
  intros Ht Hm. pose proof (tag_at_next _ _ _ Ht) as Hn. pose proof (prop_inside _ _ Ht) as Hp.
  cbv zeta in Hp. destruct RB as [_ _ Htl _].
  unfold fdt_get_property_by_offset, fdt_check_prop_offset_, fdt_check_offset_, FDT_TAGSIZE.
  rewrite (next_tag_complete _ _ _ Ht), Hm, (proj2 (Z.ltb_ge o 0)) by lia. cbn [obind Z.eqb negb orb].
  change (FDT_PROP =? FDT_PROP) with true. cbn [obind negb].
  rewrite (proj2 (Z.ltb_ge _ 0)) by lia. unfold fdt_offset_ptr_, fdt_off_dt_struct.
  rewrite be32_hdr by done. cbn [obind]. rewrite be32_ok by lia. cbn [obind]. do 3 f_equal. tauto.
Qed.

(** ** Strings *)

(** The string at [o] of the strings block is [t]. *)
Definition string_at (fdt : list Z) (o : Z) (t : list Z) : Prop :=
  0 <= o /\ o + zlen t < strsz_ fdt /\ at_ fdt (T_ fdt + o + zlen t) = 0 /\
  forall i, 0 <= i < zlen t -> at_ fdt (T_ fdt + o + i) = at_ t i /\ at_ t i <> 0.

Lemma get_string_spec o :
  o < 2 ^ 31 ->
  wp (fdt_get_string fdt o) (fun '(p, n) =>
    match p with
    | Some p => p = T + o /\ n = zlen (slice fdt p n) /\ string_at fdt o (slice fdt p n)
    | None => n < 0
    end).
Proof.
  intros Ho. destruct RB as [Hb Hh Htl Hs]. destruct hdr_ranges as (R1 & R2 & R3 & R4 & R5 & _).
  unfold fdt_get_string, fdt_size_dt_strings, fdt_off_dt_strings. rewrite !be32_hdr by done. cbn [obind].
  destruct (Z.ltb_spec o 0); [done|]. cbn [orb]. rewrite u32_small by lia.
  destruct (Z.leb_spec strsz o); [done|]. apply wp_bind.
  eapply wp_mono; [apply memchr_spec; lia|]. intros [e|] He; [|done]. cbn.
  destruct He as (He & Hz & Hnz). change (u8 0) with 0 in *.
  split; [done|].
  assert (zlen (slice fdt (T + o) (e - (T + o))) = e - (T + o)) as Hl by (apply slice_length; lia).
  split; [done|]. unfold string_at. rewrite Hl. split; [done|]. split; [lia|].
  split; [by replace (T + o + (e - (T + o))) with e by lia|].
  intros i Hi. rewrite at_slice by lia. split; [done|]. apply Hnz. lia.
Qed.

Lemma memcmp_str_spec l p s n :
  0 <= p -> 0 <= n <= zlen s + 1 -> p + n <= zlen l ->
  wp (memcmp_str l p s n) (fun d => d = 0 <-> forall i, 0 <= i < n -> at_ l (p + i) = at_ (s ++ [0]) i).
Proof.
  intros Hp Hn Hf. assert (zlen (s ++ [0]) = zlen s + 1) as Hl by (rewrite zlen_app; done).
  unfold memcmp_str.
  apply (wp_loop (fun '(d, i) => 0 <= i <= n /\ (d = 0 \/ 0 < i /\ d = at_ l (p + (i - 1)) - at_ (s ++ [0]) (i - 1)) /\
      (forall j, 0 <= j < i - (if d =? 0 then 0 else 1) -> at_ l (p + j) = at_ (s ++ [0]) j))
    (fun '(d, i) => Z.to_nat (n - i))).
  - intros [d i] (Hi & Hd & Hj). destruct (Z.eqb_spec d 0) as [->|Hd0]; cbn [andb].
    + destruct (Z.ltb_spec i n) as [Hlt|Hge].
      * rewrite !rd_ok by lia. cbn [obind wp]. split; [|lia]. split; [lia|]. split; [right; split; [lia|]; by rewrite Z.add_simpl_r|].
        intros j Hjr. destruct (Z.eq_dec j i) as [->|]; [|apply Hj; case_if_in Hjr; lia].
        case_if_in Hjr; lia.
      * cbn. split; [|done]. intros _ j Hjr. apply Hj. lia.
    + cbn. split; [done|]. intros Hall. exfalso. destruct Hd as [?|[Hi0 ->]]; [done|].
      apply Hd0. rewrite Hall by lia. lia.
  - split; [lia|]. split; [by left|]. intros j Hj. cbn in Hj. lia.
  - lia.
Qed.

(** ** Looking up a property *)

(** The name test of [fdt_get_property]. *)
Definition name_test (fdt : list Z) (o : Z) (name : list Z) : outcome bool :=
  let! (p, slen) := fdt_get_string fdt o in
  match p with
  | Some p =>
      if slen =? zlen name then
        let! d := memcmp_str fdt p name (zlen name) in Ok (d =? 0)
      else Ok false
  | None => Ok false
  end.

Lemma name_test_spec o name :
  o < 2 ^ 31 ->
  wp (name_test fdt o name) (fun b => b = true <-> string_at fdt o name).
Proof.
  intros Ho. destruct RB as [Hb Hh Htl Hs]. destruct hdr_ranges as (R1 & R2 & R3 & R4 & R5 & _).
  unfold name_test. apply wp_bind.
  destruct (wp_inv _ _ (get_string_spec o Ho)) as ([p n] & Eg & Hg). rewrite Eg. cbn.
  destruct p as [p|].
  - destruct Hg as (-> & Hl & Hst). pose proof Hst as (S1 & S2 & S3 & S4). rewrite <- Hl in S2, S3, S4.
    set (t := slice fdt (T + o) n) in *. pose proof (zlen_nonneg t).
    destruct (Z.eqb_spec n (zlen name)) as [En|Nn]; cbn.
    + apply wp_bind. eapply wp_mono; [apply memcmp_str_spec; lia|]. intros d Hd. cbn. rewrite Z.eqb_eq, Hd.
      split.
      * intros Hall. replace name with t; [done|]. apply buf_ext; [lia|]. intros i Hi.
        rewrite <- (proj1 (S4 i ltac:(lia))), Hall, at_app_l by lia. done.
      * intros (_ & _ & _ & H4) i Hi. rewrite at_app_l by lia. by apply H4.
    + split; [done|]. intros (H1 & H2 & H3 & H4). exfalso. apply Nn.
      destruct (Z.lt_trichotomy n (zlen name)) as [Hlt|[?|Hgt]]; [|done|].
      * destruct (H4 n ltac:(lia)) as [E1 E2]. congruence.
      * pose proof (zlen_nonneg name). destruct (S4 (zlen name) ltac:(lia)) as [E1 E2]. congruence.
  - cbn. split; [done|]. intros (H1 & H2 & H3 & H4). exfalso.
    unfold fdt_get_string, fdt_size_dt_strings, fdt_off_dt_strings in Eg. rewrite !be32_hdr in Eg by done.
    cbn [obind] in Eg. pose proof (zlen_nonneg name).
    rewrite (proj2 (Z.ltb_ge _ _)), (u32_small o), (proj2 (Z.leb_gt _ _)) in Eg by lia. cbn [orb] in Eg.
    destruct (wp_inv _ _ (memchr_spec fdt (T + o) 0 (strsz - o) ltac:(lia) ltac:(lia) ltac:(lia)))
      as ([e|] & Em & He); rewrite Em in Eg; [done|].
    apply (He (T + o + zlen name)); [lia|done].
Qed.

(** [po] is the offset of a property named [name]. *)
Definition prop_named (fdt : list Z) (po : Z) (name : list Z) : Prop :=
  po mod 4 = 0 /\ (exists e, tag_at fdt po FDT_PROP e) /\
  string_at fdt (i32 (w32 fdt (S_ fdt + po + 8))) name.

(** The loop body, with the name test factored out. *)
Definition get_property_body (fdt : list Z) (name : list Z) (st : Z * Z)
    : outcome ((Z * Z) + (option Z * Z * Z)) :=
  let '(offset, lenp) := st in
  if offset <? 0 then Ok (inr (None, offset, offset)) else
  let! (prop, lenp) := fdt_get_property_by_offset fdt offset in
  match prop with
  | None => Ok (inr (None, - FDT_ERR_INTERNAL, offset))
  | Some prop =>
      let! nameoff := be32 fdt (prop + 8) in
      let! found := name_test fdt (i32 nameoff) name in
      if found : bool then Ok (inr (Some prop, lenp, offset)) else
      let! next := fdt_next_property_offset fdt offset in
      Ok (inl (next, lenp))
  end.

Lemma loop_ext {A R} fuel (b1 b2 : A -> outcome (A + R)) x :
  (forall y, b1 y = b2 y) -> loop fuel b1 x = loop fuel b2 x.
Proof.
  intros Hb. revert x. induction fuel as [|fuel IH]; intros x; [done|]. simpl. rewrite Hb.
  destruct (b2 x) as [[y|r]| |]; auto.
Qed.

Lemma get_property_unfold o name :
  fdt_get_property fdt o name =
  obind (fdt_first_property_offset fdt o) (fun o =>
    loop (Datatypes.S (Datatypes.S (length fdt))) (get_property_body fdt name) (o, 0)).
Proof.
  unfold fdt_get_property. destruct (fdt_first_property_offset fdt o) as [o1| |]; [|done..]. cbn [obind].
  apply loop_ext. intros [off lenp]. unfold get_property_body. destruct (off <? 0); [done|].
  destruct (fdt_get_property_by_offset fdt off) as [[[p|] lp]| |]; cbn [obind]; try done.
  destruct (be32 fdt (p + 8)) as [no| |]; cbn [obind]; try done. unfold name_test.
  destruct (fdt_get_string fdt (i32 no)) as [[[q|] sl]| |]; cbn [obind]; try done.
Qed.

(** One turn of the search. *)
Lemma get_property_turn name o e l :
  tag_at fdt o FDT_PROP e ->
  wp (get_property_body fdt name (o, l)) (fun x => match x with
    | inl (o', l') => (o' < 0 \/ FDT_TAGALIGN e <= o' /\ exists e', tag_at fdt o' FDT_PROP e')
    | inr (Some P, l', po) => P = S + o /\ po = o /\ l' = w32 fdt (P + 4) /\ prop_named fdt o name
    | inr (None, l', _) => l' < 0
    end).
Proof.
  intros Ht. pose proof (tag_at_next _ _ _ Ht) as Hn. pose proof (prop_inside _ _ Ht) as Hp. cbv zeta in Hp.
  destruct RB as [Hb Hh Htl Hs]. unfold get_property_body. rewrite (proj2 (Z.ltb_ge o 0)) by lia.
  destruct (Z.eq_dec (o mod 4) 0) as [Hm|Hm].
  - rewrite (prop_by_offset_spec _ _ Ht Hm). cbn [obind]. rewrite be32_ok by lia. cbn [obind].
    apply wp_bind. eapply wp_mono; [apply name_test_spec|].
    { pose proof (w32_range fdt (S + o + 8) Hb ltac:(lia) ltac:(lia)). unfold i32. rewrite Z.mod_small by lia.
      case_if; lia. }
    intros [] Hb2.
    + cbn. split; [done|]. split; [done|]. split; [done|]. split; [done|]. split; [eauto|]. by apply Hb2.
    + apply wp_bind. eapply wp_mono; [by apply (next_prop_offset_spec _ _ Ht)|]. intros r Hr. exact Hr.
  - unfold fdt_get_property_by_offset, fdt_check_prop_offset_, fdt_check_offset_, FDT_TAGSIZE.
    rewrite (proj2 (Z.eqb_neq _ _) Hm), orb_true_r. done.
Qed.

Lemma get_property_spec o name :
  o < 2 ^ 31 - 8 ->
  wp (fdt_get_property fdt o name) (fun '(prop, l, po) => match prop with
    | Some P => o < po /\ P = S + po /\ l = w32 fdt (P + 4) /\ prop_named fdt po name
    | None => l < 0
    end).
Proof.
  intros Ho. rewrite get_property_unfold. apply wp_bind.
  eapply wp_mono; [by apply first_property_spec|]. intros o1 Ho1. destruct RB as [Hb Hh Htl Hs].
  apply (wp_loop (fun '(q, _) => q < 0 \/ (o < q /\ exists e, tag_at fdt q FDT_PROP e))
    (fun '(q, _) => if q <? 0 then 0%nat else Datatypes.S (Z.to_nat (zlen fdt - q)))).
  - intros [q l] [Hq|[Hq (e & Ht)]].
    + unfold get_property_body. rewrite (proj2 (Z.ltb_lt q 0)) by lia. done.
    + pose proof (tag_at_next _ _ _ Ht) as Hn. pose proof (proj1 hdr_ranges).
      eapply wp_mono; [by apply (get_property_turn name q e l)|]. intros [[q' l']|[[[P|] l'] po]]; [| |done].
      * intros [Hq'|[Hq' He']].
        -- split; [by left|]. rewrite (proj2 (Z.ltb_lt q' 0)), (proj2 (Z.ltb_ge q 0)) by lia. lia.
        -- split; [right; split; [lia|done]|]. rewrite !(proj2 (Z.ltb_ge _ 0)) by lia. lia.
      * intros (-> & -> & -> & Hpn). split; [lia|]. done.
  - destruct Ho1 as [?|[? ?]]; auto.
  - case_if; unfold zlen; lia.
Qed.

(** A property value lies inside the blob. *)
Lemma getprop_spec o name :
  o < 2 ^ 31 - 8 ->
  wp (fdt_getprop fdt o name) (fun '(p, n) => match p with
    | Some p => 0 <= n /\ 0 <= p /\ p + n <= total
    | None => n < 0
    end).
Proof.
  intros Ho. unfold fdt_getprop. apply wp_bind. eapply wp_mono; [by apply get_property_spec|].
  intros [[[P|] l] po]; [|done]. intros (Hpo & -> & -> & Hm & (e & Ht) & _).
  pose proof (prop_inside _ _ Ht) as (P1 & P2 & P3 & P4 & P5). destruct RB as [Hb Hh Htl Hs].
  unfold fdt_version. rewrite be32_hdr by done. cbn [obind]. rewrite be32_ok by lia. cbn [obind].
  destruct (_ && _) eqn:Ec; cbn; [specialize (P5 eq_refl)|]; lia.
Qed.

(** ** Nodes *)

Lemma next_node_spec o depth :
  o < 2 ^ 31 - 8 ->
  wp (fdt_next_node fdt o depth) (fun '(r, d) => r < 0 \/
    (Z.max o (-1) < r < 2 ^ 31 - 8 /\
     ((exists e, tag_at fdt r FDT_BEGIN_NODE e) \/ (depth <> None /\ exists k, d = Some k /\ k < 0)))).
Proof.
  intros Ho. unfold fdt_next_node. apply wp_bind. destruct RB as [Hb Hh Htl Hs].
  apply wp_mono with (P := fun n => n < 0 \/ Z.max o (-1) < n < 2 ^ 31 - 8).
  { destruct (Z.leb_spec 0 o); [|apply wp_Ok; right; lia].
    eapply wp_mono; [by apply check_offset_spec|]. intros r [Hr|(_ & e & Ht & ->)]; [by left|].
    pose proof (tag_at_next _ _ _ Ht). right. lia. }
  intros n Hn. destruct (Z.ltb_spec n 0); [by left|].
  apply (wp_loop (fun '(q, d) => Z.max o (-1) < q < 2 ^ 31 - 8 /\ (depth = None -> d = None))
    (fun '(q, _) => Z.to_nat (zlen fdt - q))).
  - intros [q d] [Hq Hd]. apply wp_bind. eapply wp_mono; [apply next_tag_sound; lia|].
    pose proof (proj1 hdr_ranges). intros [tag next] Hr.
    destruct (Z.eqb_spec tag FDT_BEGIN_NODE) as [->|Hb1].
    { destruct Hr as [[? _]|(e & Ht & _)]; [done|]. cbn. right. split; [lia|]. left. eauto. }
    assert (next < 0 \/ q + 4 <= next < 2 ^ 31 - 8 /\ q < zlen fdt) as Hnx.
    { destruct Hr as [[_ ?]|(e & Ht & ->)]; [by left|]. pose proof (tag_at_next _ _ _ Ht). right. lia. }
    destruct (Z.eqb_spec tag FDT_END_NODE) as [->|Hb2].
    { destruct Hr as [[? _]|(e & Ht & ->)]; [done|]. pose proof (tag_at_next _ _ _ Ht).
      destruct d as [d|]; [destruct (Z.ltb_spec (d - 1) 0)|]; cbn.
      - right. split; [lia|]. right. split; [intros E; by specialize (Hd E)|eauto].
      - split; [|lia]. split; [lia|]. intros E. by specialize (Hd E).
      - split; [|lia]. split; [lia|done]. }
    destruct (Z.eqb_spec tag FDT_END) as [->|Hb3].
    { destruct (_ || _) eqn:Ec; cbn; left; [done|]. apply orb_false_iff in Ec as [Ec%Z.leb_gt _]. lia. }
    destruct Hr as [[? _]|(e & Ht & ->)]; [done|]. pose proof (tag_at_next _ _ _ Ht). cbn.
    split; [split; [lia|done]|lia].
  - split; [lia|done].
  - unfold zlen. lia.
Qed.

Lemma check_header_total : exists r, fdt_check_header fdt = Ok r /\ r <= 0.
Proof.
  unfold fdt_check_header, fdt_magic, fdt_version, fdt_last_comp_version, fdt_size_dt_struct.
  rewrite !be32_hdr by done. cbn [obind].
  repeat match goal with |- context [if ?b then _ else _] => destruct b; cbn [obind] end;
    (eexists; split; [reflexivity|]; vm_compute; discriminate).
Qed.

(** The name of a node is terminated inside the blob. *)
Lemma get_name_spec o :
  o < 2 ^ 31 - 8 ->
  wp (fdt_get_name fdt o) (fun '(p, n) => match p with
    | Some p => 0 <= n /\ 0 <= p /\ p + n < total
    | None => n < 0
    end).
Proof.
  intros Ho. destruct RB as [Hb Hh Htl Hs]. pose proof (proj1 hdr_ranges).
  unfold fdt_get_name, fdt_offset_ptr_, fdt_off_dt_struct. rewrite be32_hdr by done. cbn [obind].
  destruct check_header_total as (r & -> & Hr). cbn [obind]. apply wp_bind.
  apply wp_mono with (P := fun err => err < 0 \/ exists e, tag_at fdt o FDT_BEGIN_NODE e /\ err = FDT_TAGALIGN e).
  { destruct (Z.eqb_spec r 0); [|apply wp_Ok; left; lia].
    eapply wp_mono; [by apply check_offset_spec|]. intros x [?|(_ & ?)]; auto. }
  intros err [Herr|(e & Ht & ->)].
  { rewrite (proj2 (Z.ltb_lt _ _)) by lia. done. }
  pose proof (tag_at_next _ _ _ Ht) as Hn. rewrite (proj2 (Z.ltb_ge _ _)) by lia.
  destruct Ht as (_ & _ & _ & [(_ & H5 & Hz & Hnz)|[(E & _)|([E|[E|E]] & _)]]); try done.
  apply wp_bind, wp_mono with (P := fun n => 0 <= n /\ S + o + 4 + n < total).
  - unfold strlen. apply (wp_loop (fun i => 0 <= i /\ o + 4 + i <= e - 1) (fun i => Z.to_nat (zlen fdt - i))).
    + intros i Hi. rewrite rd_ok by lia. cbn [obind].
      destruct (Z.eqb_spec (at_ fdt (S + o + 4 + i)) 0) as [E|E]; cbn; [lia|].
      destruct (Z.eq_dec (o + 4 + i) (e - 1)) as [E2|]; [|lia].
      exfalso. apply E. rewrite <- Hz. f_equal. lia.
    + lia.
    + unfold str_fuel, zlen. lia.
  - intros n Hn2. cbn. lia.
Qed.

(** A search over the nodes ends, inside the blob or with an error. *)
Lemma find_node_spec test o :
  o < 2 ^ 31 - 8 ->
  (forall q, 0 <= q < 2 ^ 31 - 8 -> wp (test q) (fun _ => True)) ->
  wp (find_node test fdt o) (fun r => r < 0 \/
    (o < r /\ (exists e, tag_at fdt r FDT_BEGIN_NODE e) /\ test r = Ok true)).
Proof.
  intros Ho Ht. destruct RB as [Hb Hh Htl Hs]. pose proof (proj1 hdr_ranges). unfold find_node. apply wp_bind.
  eapply wp_mono; [by apply next_node_spec|]. intros [q0 d0] Hq0.
  apply (wp_loop (fun q => q < 0 \/ (o < q < 2 ^ 31 - 8 /\ 0 <= q /\ exists e, tag_at fdt q FDT_BEGIN_NODE e))
    (fun q => if q <? 0 then 0%nat else Datatypes.S (Z.to_nat (zlen fdt - q)))).
  - intros q [Hq|(Hq & Hq2 & e & He)].
    { rewrite (proj2 (Z.ltb_lt q 0)) by lia. cbn. by left. }
    rewrite (proj2 (Z.ltb_ge q 0)) by lia. pose proof (tag_at_next _ _ _ He) as Hn.
    destruct (wp_inv _ _ (Ht q ltac:(lia))) as ([] & Et & _); rewrite Et; cbn [obind].
    + cbn. right. split; [lia|]. split; [eauto|done].
    + apply wp_bind. eapply wp_mono; [apply next_node_spec; lia|]. intros [r d] [Hr|(Hr & [Hr2|[Hr2 _]])]; [| |done].
      * cbn. split; [by left|]. rewrite (proj2 (Z.ltb_lt r 0)) by lia. lia.
      * cbn. split; [right; split; [lia|]; split; [lia|done]|]. rewrite (proj2 (Z.ltb_ge r 0)) by lia. lia.
  - destruct Hq0 as [?|(Hr & [Hr2|[Hr2 _]])]; [by left| |done]. right. split; [lia|]. split; [lia|done].
  - case_if; unfold zlen; lia.
Qed.

Lemma find_node_offset_spec o name :
  o < 2 ^ 31 - 8 ->
  wp (fdt_find_node_offset fdt o name) (fun r => r < 0 \/ (o < r /\ exists e, tag_at fdt r FDT_BEGIN_NODE e)).
Proof.
  intros Ho. unfold fdt_find_node_offset. eapply wp_mono; [apply find_node_spec; [done|]|].
  - intros q Hq. apply wp_bind. eapply wp_mono; [apply get_name_spec; lia|].
    destruct RB as [Hb Hh Htl Hs]. intros [[p|] n] Hn; (case_if; [|done]); pose proof (zlen_nonneg name).
    + apply wp_bind. eapply wp_mono; [apply memcmp_str_spec; lia|]. done.
    + lia.
  - intros r [?|(? & ? & _)]; auto.
Qed.

Lemma find_prop_offset_spec o pn pv :
  o < 2 ^ 31 - 8 ->
  wp (fdt_find_prop_offset fdt o pn pv) (fun r => r < 0 \/ (o < r /\ exists e, tag_at fdt r FDT_BEGIN_NODE e)).
Proof.
  intros Ho. unfold fdt_find_prop_offset. eapply wp_mono; [apply find_node_spec; [done|]|].
  - intros q Hq. apply wp_bind. eapply wp_mono; [apply getprop_spec; lia|].
    destruct RB as [Hb Hh Htl Hs]. intros [[p|] n] Hn; [|done]. case_if; [|done]. pose proof (zlen_nonneg pv).
    apply wp_bind. eapply wp_mono; [apply memcmp_str_spec; lia|]. done.
  - intros r [?|(? & ? & _)]; auto.
Qed.
End Read.

(** C19: reading a device tree never leaves the blob and always ends.  For any
    buffer whose header gives a total size and a strings block inside it,
    whatever the rest holds, walking to the next node, finding a node by name or
    by the value of a property, and reading a name or a property return without
    reading outside the buffer; an offset returned is the offset of a node beyond
    the start, and a name or a value returned lies inside the blob. *)
Theorem fdt_reading_safe fdt o name val :
  readable fdt -> o < 2 ^ 31 - 8 ->
  wp (fdt_next_node fdt o None) (fun '(r, _) => r < 0 \/ o < r) /\
  wp (fdt_find_node_offset fdt o name) (fun r => r < 0 \/ (o < r /\ exists e, tag_at fdt r FDT_BEGIN_NODE e)) /\
  wp (fdt_find_prop_offset fdt o name val) (fun r => r < 0 \/ (o < r /\ exists e, tag_at fdt r FDT_BEGIN_NODE e)) /\
  wp (fdt_get_name fdt o) (fun '(p, n) => match p with
    | Some p => 0 <= n /\ 0 <= p /\ p + n < total_ fdt | None => n < 0 end) /\
  wp (fdt_getprop fdt o name) (fun '(p, n) => match p with
    | Some p => 0 <= n /\ 0 <= p /\ p + n <= total_ fdt | None => n < 0 end).
Proof.
  intros RB Ho. split; [|split; [by apply find_node_offset_spec|split; [by apply find_prop_offset_spec|
    split; [by apply get_name_spec|by apply getprop_spec]]]].
  eapply wp_mono; [by apply next_node_spec|]. intros [r d] [?|[? _]]; [by left|]. right. lia.
Qed.
