(* ===== verification/FdtEdit.v ===== *)
(** * FdtEdit: setting a property and reading it back

    An editable blob has its structure block before its strings block, both
    inside the total size.  [fdt_setprop] keeps it editable; when it succeeds
    the property reads back as the value stored, and when it fails the tree is
    as it was. *)

From Stdlib Require Import ZArith Lia.
From stdpp Require Import prelude.
From S2P Require Import Prelude Strings StringsSpec Fdt FdtRead.

Local Open Scope Z_scope.

(** ** Storing words *)

Lemma zlen_be32 v : zlen (be32_bytes v) = 4.
Proof. done. Qed.

Lemma be32_bytes_ok v : bytes (be32_bytes v).
Proof. repeat constructor; apply Z.mod_pos_bound; lia. Qed.

Lemma w32_be32 v l : 0 <= v < 2 ^ 32 -> w32 (be32_bytes v ++ l) 0 = v.
Proof.
  intros Hv. change (2 ^ 24 * ((v / 2 ^ 24) mod 256) + 2 ^ 16 * ((v / 2 ^ 16) mod 256) +
    2 ^ 8 * ((v / 2 ^ 8) mod 256) + v mod 256 = v).
  change (2 ^ 24) with (256 * 256 * 256). change (2 ^ 16) with (256 * 256). change (2 ^ 8) with 256.
  rewrite <- !Z.div_div by lia.
  pose proof (Z.div_mod v 256). pose proof (Z.div_mod (v / 256) 256).
  pose proof (Z.div_mod (v / 256 / 256) 256). rewrite (Z.mod_small (v / 256 / 256 / 256)); [lia|].
  rewrite !Z.div_div by lia. split; [apply Z.div_pos; lia|apply Z.div_lt_upper_bound; lia].
Qed.

Lemma put_bytes l off d : bytes l -> bytes d -> bytes (put l off d).
Proof. intros Hl Hd. unfold put. repeat apply Forall_app_2; [by apply Forall_take|done|by apply Forall_drop]. Qed.

Lemma at_put_in l off d i :
  0 <= off -> off + zlen d <= zlen l -> 0 <= i < zlen d -> at_ (put l off d) (off + i) = at_ d i.
Proof.
  intros H0 H1 Hi. rewrite at_put by lia. rewrite (proj2 (Z.leb_le _ _)), (proj2 (Z.ltb_lt _ _)) by lia.
  cbn [andb]. f_equal. lia.
Qed.

Lemma at_put_out l off d p :
  0 <= off -> off + zlen d <= zlen l -> 0 <= p -> p < off \/ off + zlen d <= p -> at_ (put l off d) p = at_ l p.
Proof.
  intros H0 H1 Hp Ho. rewrite at_put by lia.
  destruct (Z.leb_spec off p), (Z.ltb_spec p (off + zlen d)); try done; lia.
Qed.

Lemma w32_put l off v :
  0 <= off -> off + 4 <= zlen l -> 0 <= v < 2 ^ 32 -> w32 (put l off (be32_bytes v)) off = v.
Proof.
  intros H0 H1 Hv. transitivity (w32 (be32_bytes v ++ []) 0); [|by apply w32_be32].
  rewrite app_nil_r. apply w32_ext. intros i Hi. by rewrite at_put_in by (rewrite ?zlen_be32; lia).
Qed.

Lemma w32_put_out l off d o :
  0 <= off -> off + zlen d <= zlen l -> 0 <= o -> o + 4 <= off \/ off + zlen d <= o ->
  w32 (put l off d) o = w32 l o.
Proof. intros H0 H1 Ho Hd. apply w32_ext. intros i Hi. apply at_put_out; lia. Qed.

Lemma set_be32_put l off v :
  0 <= off -> off + 4 <= zlen l -> set_be32 l off v = Ok (put l off (be32_bytes v)).
Proof. intros. unfold set_be32. apply blit_put; rewrite ?zlen_be32; lia. Qed.

Lemma add_field_put l off d :
  0 <= off -> off + 4 <= zlen l ->
  add_field l off d = Ok (put l off (be32_bytes (u32 (w32 l off + d)))).
Proof. intros. unfold add_field. rewrite be32_ok by lia. cbn [obind]. by apply set_be32_put. Qed.

(** Arithmetic on header offsets. *)
Ltac hlia := rewrite ?zlen_be32; unfold OFF_size_dt_struct, OFF_off_dt_strings, OFF_size_dt_strings,
  OFF_off_dt_struct, OFF_totalsize, OFF_version in *; lia.

(** ** Editable blobs *)

Record editable (fdt : list Z) : Prop := Editable {
  ed_read : readable fdt;
  ed_ver : 0x11 <= ver_ fdt;
  ed_struct : 40 <= S_ fdt;
  ed_order : S_ fdt + sz_ fdt <= T_ fdt;
  ed_end : T_ fdt + strsz_ fdt <= total_ fdt;
  ed_align : sz_ fdt mod 4 = 0;
}.

(** The end of the data. *)
Abbreviation end_ fdt := (T_ fdt + strsz_ fdt).

(** [fdt'] has the header fields of [fdt] that editing leaves alone. *)
Definition same_header (fdt fdt' : list Z) : Prop :=
  zlen fdt' = zlen fdt /\ bytes fdt' /\ S_ fdt' = S_ fdt /\ total_ fdt' = total_ fdt /\
  ver_ fdt' = ver_ fdt.

(** [old] bytes at [p] replaced by [new] bytes, in the structure block. *)
Definition spliced (fdt : list Z) (p old new : Z) (fdt' : list Z) : Prop :=
  same_header fdt fdt' /\ strsz_ fdt' = strsz_ fdt /\
  sz_ fdt' = sz_ fdt + (new - old) /\ T_ fdt' = T_ fdt + (new - old) /\
  (forall a, 40 <= a < p -> at_ fdt' a = at_ fdt a) /\
  (forall a, p + old <= a < end_ fdt -> at_ fdt' (a + (new - old)) = at_ fdt a).

Lemma ed_ranges fdt : editable fdt ->
  40 <= S_ fdt /\ 0 <= sz_ fdt /\ S_ fdt + sz_ fdt <= T_ fdt /\ 0 <= strsz_ fdt /\
  end_ fdt <= total_ fdt /\ total_ fdt <= zlen fdt /\ zlen fdt < 2 ^ 31 - 16 /\ 40 <= zlen fdt.
Proof.
  intros [R H1 H2 H3 H4 H5]. pose proof (hdr_ranges fdt R) as (R1 & R2 & R3 & R4 & R5 & R6 & R7 & R8).
  destruct R as [Hb Hh Ht Hs]. lia.
Qed.

Lemma hdr_ok fdt off : editable fdt -> 0 <= off <= 36 -> be32 fdt off = Ok (w32 fdt off).
Proof. intros E. apply be32_hdr, E. Qed.

Lemma splice_spec fdt p old new :
  editable fdt -> 40 <= p -> 0 <= old -> 0 <= new -> p + old <= end_ fdt ->
  fdt_splice_ fdt p old new =
  Ok (if total_ fdt <? end_ fdt - old + new then (- FDT_ERR_NOSPACE, fdt)
      else (0, move fdt (p + new) (p + old) (end_ fdt - p - old))).
Proof.
  intros E Hp Ho Hn Hpo. pose proof (ed_ranges fdt E) as (R1 & R2 & R3 & R4 & R5 & R6 & R7 & R8).
  unfold fdt_splice_, fdt_data_size_, fdt_off_dt_strings, fdt_size_dt_strings, fdt_totalsize.
  rewrite !hdr_ok by done. cbn [obind]. rewrite (proj2 (Z.ltb_ge _ _)) by lia. cbn [obind].
  rewrite i32_small by lia. rewrite (proj2 (Z.ltb_ge (end_ fdt) 0)) by lia.
  rewrite (proj2 (Z.ltb_ge (p + old) p)), (proj2 (Z.ltb_ge (end_ fdt) (p + old))) by lia. cbn [orb].
  rewrite (proj2 (Z.ltb_ge p 0)), (proj2 (Z.ltb_ge (end_ fdt - old + new) 0)) by lia. cbn [orb].
  destruct (Z.ltb_spec (total_ fdt) (end_ fdt - old + new)); [done|].
  rewrite (memmove_correct false 1 0 0) by lia. done.
Qed.

Lemma splice_struct_spec fdt p old new :
  editable fdt -> S_ fdt <= p -> 0 <= old -> 0 <= new -> p + old <= S_ fdt + sz_ fdt ->
  wp (fdt_splice_struct_ fdt p old new) (fun '(err, fdt') =>
    (err = - FDT_ERR_NOSPACE /\ fdt' = fdt) \/
    (err = 0 /\ end_ fdt + (new - old) <= total_ fdt /\ spliced fdt p old new fdt')).
Proof.
  intros E Hp Ho Hn Hpo. pose proof (ed_ranges fdt E) as (R1 & R2 & R3 & R4 & R5 & R6 & R7 & R8).
  unfold fdt_splice_struct_. rewrite splice_spec by lia || done.
  destruct (Z.ltb_spec (total_ fdt) (end_ fdt - old + new)) as [|Hfit]; [by left|]. cbn [obind Z.eqb].
  set (n := end_ fdt - p - old).
  assert (zlen (slice fdt (p + old) n) = n) as Hsl by (apply slice_length; unfold n; lia).
  set (f1 := move fdt (p + new) (p + old) n).
  assert (zlen f1 = zlen fdt) as Hl1 by (apply zlen_put; rewrite ?Hsl; unfold n; lia).
  assert (forall a, 0 <= a < p -> at_ f1 a = at_ fdt a) as Ha1.
  { intros a Ha. apply at_put_out; rewrite ?Hsl; unfold n; lia. }
  assert (forall a, p + old <= a < end_ fdt -> at_ f1 (a + (new - old)) = at_ fdt a) as Ha2.
  { intros a Ha. replace (a + (new - old)) with (p + new + (a - p - old)) by lia. unfold f1, move.
    rewrite at_put_in by (rewrite ?Hsl; unfold n; lia). rewrite at_slice by (unfold n; lia). f_equal. lia. }
  assert (forall o, 0 <= o -> o + 4 <= 40 -> w32 f1 o = w32 fdt o) as Hw1.
  { intros o H0 H4. apply w32_ext. intros i Hi. apply Ha1. lia. }
  assert (bytes f1) as Hb1 by (apply put_bytes; [|apply slice_bytes]; apply E).
  rewrite add_field_put by hlia. cbn [obind]. rewrite Hw1 by hlia.
  set (v1 := u32 (sz_ fdt + (new - old))). assert (v1 = sz_ fdt + (new - old)) as Ev1 by (apply u32_small; lia).
  set (f2 := put f1 OFF_size_dt_struct (be32_bytes v1)).
  assert (zlen f2 = zlen fdt) as Hl2 by (unfold f2; rewrite zlen_put by hlia; hlia).
  rewrite add_field_put by hlia. cbn [obind].
  assert (w32 f2 OFF_off_dt_strings = T_ fdt) as ->.
  { unfold f2. rewrite w32_put_out by hlia. apply Hw1; hlia. }
  set (v2 := u32 (T_ fdt + (new - old))). assert (v2 = T_ fdt + (new - old)) as Ev2 by (apply u32_small; lia).
  set (f3 := put f2 OFF_off_dt_strings (be32_bytes v2)).
  assert (zlen f3 = zlen fdt) as Hl3 by (unfold f3; rewrite zlen_put by hlia; hlia).
  assert (forall a, 40 <= a -> at_ f3 a = at_ f1 a) as Ha3.
  { intros a Ha. unfold f3. rewrite at_put_out by hlia. unfold f2. by rewrite at_put_out by hlia. }
  assert (forall o, 0 <= o -> o + 4 <= 36 -> o <> 12 -> o + 4 <= 12 \/ 16 <= o -> w32 f3 o = w32 fdt o) as Hw3.
  { intros o H0 H4 H5 H6. unfold f3. rewrite w32_put_out by hlia.
    unfold f2. rewrite w32_put_out by hlia. apply Hw1; lia. }
  cbn. right. split; [done|]. split; [lia|].
  split; [split; [done|split; [|split_and!; apply Hw3; hlia]]|].
  { unfold f3, f2. apply put_bytes; [apply put_bytes; [exact Hb1|]|]; apply be32_bytes_ok. }
  split; [apply Hw3; hlia|]. split.
  { unfold f3. rewrite w32_put_out by hlia. unfold f2.
    rewrite w32_put by hlia. done. }
  split; [unfold f3; rewrite w32_put by hlia; done|].
  split; intros a Ha; rewrite Ha3 by lia; [apply Ha1; lia|apply Ha2; lia].
Qed.

(** ** What an edit leaves readable *)

(** The first [q] bytes of the structure block are the same. *)
Definition same_before (fdt fdt' : list Z) (q : Z) : Prop :=
  same_header fdt fdt' /\ q <= sz_ fdt' /\
  forall a, S_ fdt <= a < S_ fdt + q -> at_ fdt' a = at_ fdt a.

Definition same_strings (fdt fdt' : list Z) : Prop :=
  strsz_ fdt' = strsz_ fdt /\
  forall i, 0 <= i < strsz_ fdt -> at_ fdt' (T_ fdt' + i) = at_ fdt (T_ fdt + i).

Lemma tag_at_before fdt fdt' q o tag e :
  readable fdt -> same_before fdt fdt' q -> tag_at fdt o tag e -> e <= q -> tag_at fdt' o tag e.
Proof.
  intros R ((_ & _ & HS & HT & HV) & Hq & Hat) (Hin & He & Hw & Hc) Heq.
  pose proof (hdr_ranges fdt R) as (R1 & _). pose proof (proj1 (inside_true fdt _ _) Hin) as (I1 & I2 & I3).
  assert (forall o n, 0 <= o -> 0 <= n -> o + n <= e -> inside fdt o n = true -> inside fdt' o n = true) as Hins.
  { intros x n Hx Hn Hxe. rewrite !inside_true, HS, HT, HV. lia. }
  assert (forall x, o <= x -> x + 4 <= e -> w32 fdt' (S_ fdt + x) = w32 fdt (S_ fdt + x)) as Hw4.
  { intros x H1 H2. apply w32_ext. intros i Hi. apply Hat. lia. }
  split; [apply Hins; done || lia|]. split; [done|]. rewrite HS, Hw4 by lia. split; [done|].
  destruct Hc as [(-> & H5 & Hz & Hnz)|[(-> & H5 & H6 & H7 & H8)|(Ht & ->)]].
  - left. split; [done|]. split; [done|]. rewrite Hat by lia. split; [done|].
    intros i Hi. rewrite Hat by lia. by apply Hnz.
  - right. left. split; [done|]. cbv zeta in *.
    pose proof (w32_range fdt (S_ fdt + (o + 4)) ltac:(apply R)) as Hr. apply inside_true in H6 as H6'.
    pose proof (rb_total _ R). specialize (Hr ltac:(lia) ltac:(lia)).
    assert (o + 12 <= e) by (destruct (_ && _) in H5; lia). rewrite Hw4, HT, HV by lia.
    split; [done|]. split; [apply Hins; done || lia|]. done.
  - right. right. done.
Qed.

Lemma string_at_same fdt fdt' o t : same_strings fdt fdt' -> string_at fdt' o t <-> string_at fdt o t.
Proof.
  intros [Hs Hat]. unfold string_at. rewrite Hs. pose proof (zlen_nonneg t).
  split; intros (H1 & H2 & H3 & H4); (split; [done|]); (split; [done|]).
  - rewrite <- !Z.add_assoc, Hat in H3 by lia. rewrite <- !Z.add_assoc. split; [done|]. intros i Hi.
    destruct (H4 i Hi) as [E1 E2]. rewrite <- !Z.add_assoc, Hat in E1 by lia. by rewrite <- !Z.add_assoc.
  - rewrite <- !Z.add_assoc, Hat by lia. rewrite <- !Z.add_assoc in H3. split; [done|]. intros i Hi.
    destruct (H4 i Hi) as [E1 E2]. rewrite <- !Z.add_assoc, Hat by lia. by rewrite <- !Z.add_assoc in E1.
Qed.

(** Two loops step by step: what the first does on its way to [r1], the second
    does too. *)
Lemma loop_sim {A R} (P : A -> Prop) (b1 b2 : A -> outcome (A + R)) (r1 r2 : R) fuel x :
  (forall y y', P y -> b1 y = Ok (inl y') -> (exists n, loop n b1 y' = Ok r1) -> b2 y = Ok (inl y') /\ P y') ->
  (forall y, P y -> b1 y = Ok (inr r1) -> b2 y = Ok (inr r2)) ->
  P x -> loop fuel b1 x = Ok r1 -> loop fuel b2 x = Ok r2.
Proof.
  intros Hs He. revert x. induction fuel as [|fuel IH]; intros x Hx Hl; [done|]. simpl in *.
  destruct (b1 x) as [[y|r]| |] eqn:E1; try done.
  - destruct (Hs x y Hx E1) as [-> Hy]; [eauto|]. by apply IH.
  - injection Hl as ->. by rewrite (He x Hx E1).
Qed.

(** A loop that has reached [r] by its fuel, seen through its specification. *)
Lemma wp_result {A} (o : outcome A) (Q : A -> Prop) r : wp o Q -> o = Ok r -> Q r.
Proof. by intros Hw ->. Qed.

Section Preserve.
Context (fdt fdt' : list Z) (R : readable fdt) (R' : readable fdt').
Context (q : Z) (Hb : same_before fdt fdt' q).

Local Abbreviation next_prop_body f := (fun offset : Z =>
  let! (tag, nextoffset) := fdt_next_tag f offset in
  if tag =? FDT_END then
    Ok (inr (if 0 <=? nextoffset then - FDT_ERR_BADSTRUCTURE else nextoffset))
  else if tag =? FDT_PROP then Ok (inr offset)
  else if tag =? FDT_NOP then Ok (inl nextoffset)
  else Ok (inr (- FDT_ERR_NOTFOUND))).

(** Any run of the search for a property ends at or after its start. *)
Lemma next_prop_mono fuel o r :
  o < 2 ^ 31 - 8 -> loop fuel (next_prop_body fdt) o = Ok r -> 0 <= r -> o <= r.
Proof.
  intros Ho Hl Hr. revert o Ho Hl. induction fuel as [|fuel IH]; intros o Ho Hl; [done|]. cbn [loop] in Hl.
  destruct (wp_inv _ _ (next_tag_sound fdt R o Ho)) as ([tag next] & E & Ht). rewrite E in Hl. cbn in Hl.
  destruct (Z.eqb_spec tag FDT_END) as [->|Hne].
  { injection Hl as <-. unfold FDT_ERR_BADSTRUCTURE in Hr. case_if_in Hr; lia. }
  destruct Ht as [[? _]|(e & Ht & ->)]; [done|]. pose proof (tag_at_next fdt R _ _ _ Ht) as Hn.
  destruct (Z.eqb_spec tag FDT_PROP); [by injection Hl as <-|].
  destruct (Z.eqb_spec tag FDT_NOP); [|injection Hl as <-; unfold FDT_ERR_NOTFOUND in Hr; lia].
  specialize (IH (FDT_TAGALIGN e) ltac:(lia) Hl). lia.
Qed.

Lemma next_property_before o r e' :
  0 <= o < 2 ^ 31 - 8 -> fdt_next_property_ fdt o = Ok r -> 0 <= r <= q ->
  tag_at fdt' r FDT_PROP e' -> fdt_next_property_ fdt' o = Ok r.
Proof.
  intros Ho Hl Hr Ht'. unfold fdt_next_property_ in *.
  destruct Hb as ((Hlen & _) & _). assert (length fdt' = length fdt) as -> by (unfold zlen in Hlen; lia).
  apply (loop_sim (fun x => 0 <= x < 2 ^ 31 - 8) (next_prop_body fdt)  _ r); [| |done|done].
  - intros y y' Hy Hb1 [n Hn].
    destruct (wp_inv _ _ (next_tag_sound fdt R y ltac:(lia))) as ([tag next] & E & Ht). rewrite E in Hb1. cbn in Hb1.
    destruct (Z.eqb_spec tag FDT_END) as [->|Hne]; [done|].
    destruct (Z.eqb_spec tag FDT_PROP) as [->|Hne2]; [done|].
    destruct (Z.eqb_spec tag FDT_NOP) as [->|Hne3]; [|done]. injection Hb1 as <-.
    destruct Ht as [[? _]|(e & Ht & ->)]; [done|]. pose proof (tag_at_next fdt R _ _ _ Ht) as Hx.
    pose proof (next_prop_mono n (FDT_TAGALIGN e) r ltac:(lia) Hn ltac:(lia)).
    rewrite (next_tag_complete fdt' R' y FDT_NOP e) by (apply (tag_at_before fdt fdt' q); [done..|lia]). cbn. split; [done|lia].
  - intros y Hy Hb1.
    destruct (wp_inv _ _ (next_tag_sound fdt R y ltac:(lia))) as ([tag next] & E & Ht). rewrite E in Hb1. cbn in Hb1.
    destruct (Z.eqb_spec tag FDT_END) as [->|Hne].
    { injection Hb1 as <-. unfold FDT_ERR_BADSTRUCTURE in Hr. case_if_in Hr; lia. }
    destruct (Z.eqb_spec tag FDT_PROP) as [->|Hne2].
    + injection Hb1 as ->. by rewrite (next_tag_complete fdt' R' r FDT_PROP e').
    + destruct (Z.eqb_spec tag FDT_NOP); [done|]. injection Hb1 as <-. unfold FDT_ERR_NOTFOUND in Hr. lia.
Qed.

(** A search that finds [po] never looks beyond it. *)
Lemma get_property_mono name fuel o l e P l' po :
  tag_at fdt o FDT_PROP e -> loop fuel (get_property_body fdt name) (o, l) = Ok (Some P, l', po) ->
  P = S_ fdt + po /\ (o = po \/ FDT_TAGALIGN e <= po).
Proof.
  revert o l e. induction fuel as [|fuel IH]; intros o l e Ht Hl; [done|]. cbn [loop] in Hl.
  destruct (wp_inv _ _ (get_property_turn fdt R name o e l Ht)) as (x & Ex & Hx). rewrite Ex in Hl.
  destruct x as [[o' l2]|[[[P2|] l2] po2]].
  - destruct Hx as [Hneg|[Hle (e2 & Ht2)]].
    + destruct fuel as [|fuel]; [done|]. cbn [loop] in Hl. unfold get_property_body at 1 in Hl.
      by rewrite (proj2 (Z.ltb_lt o' 0)) in Hl by lia.
    + destruct (IH o' l2 e2 Ht2 Hl) as [? Hor]. pose proof (tag_at_next fdt R _ _ _ Ht2). split; [done|]. lia.
  - destruct Hx as (-> & -> & _). injection Hl as <- <- <-. auto.
  - done.
Qed.

Context (po : Z) (Hpo : po <= q) (Hstr : same_strings fdt fdt') (name : list Z).
Context (Hnew : prop_named fdt' po name).

Lemma tag_kept o e :
  tag_at fdt o FDT_PROP e -> o = po \/ FDT_TAGALIGN e <= po -> exists e2, tag_at fdt' o FDT_PROP e2.
Proof.
  intros Ht [->|Hle]; [apply Hnew|]. pose proof (tag_at_next fdt R _ _ _ Ht).
  exists e. apply (tag_at_before fdt fdt' q); [done..|lia].
Qed.

Lemma name_test_same o :
  o < 2 ^ 31 -> name_test fdt' o name = name_test fdt o name.
Proof.
  intros Ho. destruct (wp_inv _ _ (name_test_spec fdt R o name Ho)) as (b & -> & Hb1).
  destruct (wp_inv _ _ (name_test_spec fdt' R' o name Ho)) as (b' & -> & Hb2). f_equal.
  rewrite (string_at_same fdt fdt' o name Hstr) in Hb2. destruct b, b'; try done.
  - by apply Hb2, Hb1.
  - symmetry. by apply Hb1, Hb2.
Qed.

Lemma i32_lt x : 0 <= x < 2 ^ 32 -> i32 x < 2 ^ 31.
Proof. intros Hx. unfold i32. rewrite Z.mod_small by lia. case_if; lia. Qed.

(** A turn that goes on to [po] is the same turn in the new blob. *)
Lemma turn_kept o e l o' l' n P l2 :
  tag_at fdt o FDT_PROP e -> get_property_body fdt name (o, l) = Ok (inl (o', l')) ->
  loop n (get_property_body fdt name) (o', l') = Ok (Some P, l2, po) ->
  get_property_body fdt' name (o, l) = Ok (inl (o', l')) /\ exists e', tag_at fdt o' FDT_PROP e'.
Proof.
  intros Ht Hbody Hl. pose proof (tag_at_next fdt R _ _ _ Ht) as Hn.
  pose proof (wp_result _ _ _ (get_property_turn fdt R name o e l Ht) Hbody) as [Hneg|[Hle (e2 & Ht2)]].
  { exfalso. destruct n as [|n]; [done|]. cbn [loop] in Hl. unfold get_property_body at 1 in Hl.
    by rewrite (proj2 (Z.ltb_lt o' 0)) in Hl by lia. }
  split; [|eauto]. destruct (get_property_mono name n o' l' e2 P l2 po Ht2 Hl) as [_ Hor].
  pose proof (tag_at_next fdt R _ _ _ Ht2) as Hn2.
  assert (tag_at fdt' o FDT_PROP e) as Ht' by (apply (tag_at_before fdt fdt' q); [done..|lia]).
  destruct (tag_kept o' e2 Ht2 Hor) as [e3 Ht3].
  pose proof (prop_inside fdt R _ _ Ht) as Hp. cbv zeta in Hp. pose proof (rb_total _ R) as Htl.
  pose proof (prop_inside fdt' R' _ _ Ht') as Hp'. cbv zeta in Hp'. pose proof (rb_total _ R') as Htl'.
  pose proof Hb as ((Hlen & Hby & HS & HT & HV) & Hq & Hat).
  unfold get_property_body in Hbody |- *. rewrite (proj2 (Z.ltb_ge o 0)) in Hbody |- * by lia.
  destruct (Z.eq_dec (o mod 4) 0) as [Hm|Hm].
  2:{ exfalso. unfold fdt_get_property_by_offset, fdt_check_prop_offset_, fdt_check_offset_, FDT_TAGSIZE in Hbody.
      by rewrite (proj2 (Z.eqb_neq _ _) Hm), orb_true_r in Hbody. }
  rewrite (prop_by_offset_spec fdt R _ _ Ht Hm) in Hbody. rewrite (prop_by_offset_spec fdt' R' _ _ Ht' Hm).
  cbn [obind] in *. rewrite be32_ok in Hbody by lia. rewrite be32_ok by lia. cbn [obind] in *.
  assert (o + 12 + w32 fdt (S_ fdt + o + 4) <= e) as He12.
  { destruct Ht as (_ & _ & _ & [(E & _)|[(_ & Hee & _)|([E|[E|E]] & _)]]); try done. cbv zeta in Hee.
    replace (S_ fdt + o + 4) with (S_ fdt + (o + 4)) by lia. destruct (_ && _) in Hee; lia. }
  assert (forall x, 0 <= x <= 8 -> w32 fdt' (S_ fdt' + o + x) = w32 fdt (S_ fdt + o + x)) as Hw.
  { intros x Hx. rewrite HS. apply w32_ext. intros i Hi. apply Hat. lia. }
  rewrite !Hw by lia.
  pose proof (w32_range fdt (S_ fdt + o + 8) ltac:(apply R) ltac:(lia) ltac:(lia)) as Hr8.
  rewrite name_test_same by (by apply i32_lt).
  destruct (name_test fdt _ name) as [[]| |]; try done. cbn [obind] in *.
  unfold fdt_next_property_offset, fdt_check_prop_offset_, fdt_check_offset_, FDT_TAGSIZE in *.
  rewrite (next_tag_complete fdt R _ _ _ Ht) in Hbody. rewrite (next_tag_complete fdt' R' _ _ _ Ht').
  rewrite Hm, (proj2 (Z.ltb_ge o 0)) in Hbody |- * by lia. cbn [obind Z.eqb negb orb] in *.
  change (FDT_PROP =? FDT_PROP) with true in *. cbn [obind negb] in *.
  rewrite (proj2 (Z.ltb_ge (FDT_TAGALIGN e) 0)) in Hbody |- * by lia.
  destruct (fdt_next_property_ fdt (FDT_TAGALIGN e)) as [r| |] eqn:En; try done. cbn in Hbody.
  injection Hbody as -> ->. rewrite (next_property_before (FDT_TAGALIGN e) o' e3) by (done || lia). done.
Qed.

Lemma found_kept o e l l1 :
  tag_at fdt o FDT_PROP e -> get_property_body fdt name (o, l) = Ok (inr (Some (S_ fdt + po), l1, po)) ->
  get_property_body fdt' name (o, l) = Ok (inr (Some (S_ fdt + po), w32 fdt' (S_ fdt + po + 4), po)).
Proof.
  intros Ht Hbody. pose proof (wp_result _ _ _ (get_property_turn fdt R name o e l Ht) Hbody) as (_ & -> & _).
  destruct Hnew as (Hm & (e' & Ht') & Hst). pose proof (tag_at_next fdt' R' _ _ _ Ht').
  pose proof (prop_inside fdt' R' _ _ Ht') as Hp'. cbv zeta in Hp'. pose proof (rb_total _ R').
  pose proof Hb as ((Hlen & Hby & HS & HT & HV) & Hq & Hat).
  unfold get_property_body. rewrite (proj2 (Z.ltb_ge o 0)) by lia.
  rewrite (prop_by_offset_spec fdt' R' _ _ Ht' Hm). cbn [obind]. rewrite be32_ok by lia. cbn [obind].
  pose proof (w32_range fdt' (S_ fdt' + o + 8) ltac:(apply R') ltac:(lia) ltac:(lia)) as Hr8.
  destruct (wp_inv _ _ (name_test_spec fdt' R' (i32 (w32 fdt' (S_ fdt' + o + 8))) name
    ltac:(by apply i32_lt))) as (b & -> & Hb2).
  rewrite (proj2 Hb2 Hst). cbn [obind]. by rewrite HS.
Qed.

Lemma get_property_kept node l :
  node < 2 ^ 31 - 8 -> fdt_get_property fdt node name = Ok (Some (S_ fdt + po), l, po) ->
  fdt_get_property fdt' node name = Ok (Some (S_ fdt + po), w32 fdt' (S_ fdt + po + 4), po).
Proof.
  intros Hnode. rewrite !get_property_unfold.
  unfold fdt_first_property_offset, fdt_check_node_offset_.
  destruct (wp_inv _ _ (check_offset_spec fdt R FDT_BEGIN_NODE node Hnode ltac:(done))) as (r & Er & Hr).
  rewrite Er. cbn [obind]. pose proof Hb as ((Hlen & _) & _).
  assert (length fdt' = length fdt) as -> by (unfold zlen in Hlen; lia).
  destruct Hr as [Hneg|(Hm & e & Ht & ->)].
  { rewrite (proj2 (Z.ltb_lt r 0)) by lia. cbn [obind loop]. unfold get_property_body at 1.
    by rewrite (proj2 (Z.ltb_lt r 0)) by lia. }
  pose proof (tag_at_next fdt R _ _ _ Ht) as Hn. rewrite (proj2 (Z.ltb_ge (FDT_TAGALIGN e) 0)) by lia.
  destruct (wp_inv _ _ (next_property_spec fdt R (FDT_TAGALIGN e) ltac:(lia))) as (o1 & E1 & Ho1).
  rewrite E1. cbn [obind]. destruct Ho1 as [Hneg|(Hle & e1 & Ht1)].
  { cbn [loop]. unfold get_property_body at 1. by rewrite (proj2 (Z.ltb_lt o1 0)) by lia. }
  intros Hl. destruct (get_property_mono name _ _ _ _ _ _ _ Ht1 Hl) as [_ Hor].
  pose proof (tag_at_next fdt R _ _ _ Ht1) as Hn1. destruct (tag_kept o1 e1 Ht1 Hor) as [e2 Ht2].
  assert (fdt_check_offset_ FDT_BEGIN_NODE fdt' node = Ok (FDT_TAGALIGN e)) as ->.
  { unfold fdt_check_offset_, FDT_TAGSIZE. rewrite Hm, (proj2 (Z.ltb_ge node 0)) by lia. cbn [Z.eqb negb orb].
    rewrite (next_tag_complete fdt' R' node FDT_BEGIN_NODE e) by (apply (tag_at_before fdt fdt' q); [done..|lia]).
    done. }
  cbn [obind]. rewrite (proj2 (Z.ltb_ge (FDT_TAGALIGN e) 0)) by lia.
  rewrite (next_property_before (FDT_TAGALIGN e) o1 e2) by (done || lia). cbn [obind].
  apply (loop_sim (fun '(o, _) => exists e, tag_at fdt o FDT_PROP e) (get_property_body fdt name) _
    (Some (S_ fdt + po), l, po)); [| |eauto|exact Hl].
  - intros [o lo] [o' l'] [eo Hto] Hbody [n Hn2]. by apply (turn_kept o eo lo o' l' n (S_ fdt + po) l).
  - intros [o lo] [eo Hto] Hbody. by apply (found_kept o eo lo l).
Qed.
End Preserve.

(** ** Replacing the value of a property *)

Lemma tagalign_add k x : k mod 4 = 0 -> FDT_TAGALIGN (k + x) = k + FDT_TAGALIGN x.
Proof.
  intros Hk. unfold FDT_TAGALIGN, FDT_TAGSIZE. change (Z.lnot (4 - 1)) with (Z.lnot (Z.ones 2)).
  rewrite <- !Z.ldiff_land, !Z.ldiff_ones_r, !Z.shiftl_mul_pow2, !Z.shiftr_div_pow2 by lia. dlia.
Qed.

(** Where a property sits in an editable blob. *)
Lemma prop_place fdt po e :
  editable fdt -> tag_at fdt po FDT_PROP e -> po mod 4 = 0 ->
  let l := w32 fdt (S_ fdt + po + 4) in
  0 <= po /\ 0 <= l /\ e = po + 12 + l /\ po + 12 + FDT_TAGALIGN l <= sz_ fdt /\ l <= FDT_TAGALIGN l.
Proof.
  intros E Ht Hm. pose proof (ed_read _ E) as R. pose proof (prop_inside fdt R _ _ Ht) as Hp.
  pose proof (ed_ranges fdt E). cbv zeta in *. pose proof (ed_ver _ E) as Hv. pose proof (ed_align _ E) as Ha.
  destruct Ht as (Hin & _ & _ & [(E2 & _)|[(_ & Hee & _)|([E2|[E2|E2]] & _)]]); try done.
  apply inside_true in Hin as (I1 & I2 & I3). cbv zeta in Hee.
  rewrite (proj2 (Z.ltb_ge (ver_ fdt) 0x10)) in Hee by lia. cbn [andb] in Hee.
  replace (S_ fdt + (po + 4)) with (S_ fdt + po + 4) in Hee by lia.
  set (l := w32 fdt (S_ fdt + po + 4)) in *.
  assert (po + 12 + l <= sz_ fdt) as Hle by lia.
  pose proof (tagalign_spec (po + 12 + l) ltac:(lia)) as [Hal Ham].
  pose proof (tagalign_spec l ltac:(lia)) as [Hal2 _].
  rewrite tagalign_add in Hal, Ham by dlia. split; [lia|]. split; [lia|]. split; [lia|]. split; [|lia].
  clear - Ha Ham Hal Hle. dlia.
Qed.

Lemma spliced_editable fdt p old new f :
  editable fdt -> spliced fdt p old new f -> (new - old) mod 4 = 0 ->
  end_ fdt + (new - old) <= total_ fdt -> 0 <= sz_ fdt + (new - old) -> editable f.
Proof.
  intros E ((Hl & Hb & HS & HT & HV) & Hss & Hsz & HTs & _) Hm Hf H0.
  pose proof (ed_ranges fdt E). destruct E as [[R1 R2 R3 R4] E2 E3 E4 E5 E6].
  constructor; [constructor| | | | |]; rewrite ?HS, ?HT, ?HV, ?Hss, ?Hsz, ?HTs, ?Hl; try done; try lia. dlia.
Qed.

Lemma header_put f off d o :
  40 <= off -> off + zlen d <= zlen f -> 0 <= o -> o + 4 <= 40 -> w32 (put f off d) o = w32 f o.
Proof. intros. pose proof (zlen_nonneg d). apply w32_put_out; lia. Qed.

Lemma put_header f off d :
  bytes f -> bytes d -> 40 <= off -> off + zlen d <= zlen f -> same_header f (put f off d) /\
  sz_ (put f off d) = sz_ f /\ T_ (put f off d) = T_ f /\ strsz_ (put f off d) = strsz_ f.
Proof.
  intros Hf Hd Ho Hfit. pose proof (zlen_nonneg d).
  assert (zlen (put f off d) = zlen f) as Hl by (apply zlen_put; lia).
  unfold same_header. rewrite Hl. rewrite !header_put by hlia. split_and!; auto using put_bytes.
Qed.

Lemma put_editable f off d :
  editable f -> bytes d -> 40 <= off -> off + zlen d <= zlen f -> editable (put f off d).
Proof.
  intros E Hd Ho Hfit. destruct (put_header f off d) as ((Hl & Hb & HS & HT & HV) & Hsz & HTs & Hss);
    [apply E|done..|]. destruct E as [[R1 R2 R3 R4] E2 E3 E4 E5 E6].
  constructor; [constructor| | | | |]; rewrite ?HS, ?HT, ?HV, ?Hss, ?Hsz, ?HTs, ?Hl; done.
Qed.

(** A property written in the structure block is read as such. *)
Lemma prop_built fdt po len :
  editable fdt -> 0 <= po -> 0 <= len -> po + 12 + len <= sz_ fdt ->
  w32 fdt (S_ fdt + po) = FDT_PROP -> w32 fdt (S_ fdt + po + 4) = len ->
  tag_at fdt po FDT_PROP (po + 12 + len).
Proof.
  intros E Hpo Hlen Hfit Ht Hl. pose proof (ed_ranges fdt E). pose proof (ed_ver _ E).
  split; [apply inside_true; lia|]. split; [lia|]. split; [done|]. right. left. split; [done|].
  replace (S_ fdt + (po + 4)) with (S_ fdt + po + 4) by lia. cbv zeta. rewrite Hl.
  rewrite (proj2 (Z.ltb_ge (ver_ fdt) 0x10)) by lia. cbn [andb].
  split; [lia|]. split; [apply inside_true; lia|]. lia.
Qed.

(** The value that [fdt_getprop] returns for the property at [po]. *)
Lemma getprop_at fdt node name po l :
  editable fdt -> 0 <= po -> po + 12 + l <= sz_ fdt -> 0 <= l -> w32 fdt (S_ fdt + po + 4) = l ->
  fdt_get_property fdt node name = Ok (Some (S_ fdt + po), l, po) ->
  fdt_getprop fdt node name = Ok (Some (S_ fdt + po + 12), l).
Proof.
  intros E Hpo Hf Hl0 Hl Hg. pose proof (ed_ranges fdt E). pose proof (ed_ver _ E).
  unfold fdt_getprop, fdt_version. rewrite Hg. cbn [obind]. rewrite hdr_ok by done. cbn [obind].
  rewrite be32_ok by lia. cbn [obind]. rewrite (proj2 (Z.ltb_ge (ver_ fdt) 0x10)) by lia. done.
Qed.

(** [F] is [fdt] with the property [name] of [node] set to [val]. *)
Definition set_to (F : list Z) (node : Z) (name val : list Z) : Prop :=
  editable F /\ exists p, fdt_getprop F node name = Ok (Some p, zlen val) /\
    0 <= p /\ p + zlen val <= total_ F /\ slice F p (zlen val) = val.

Lemma slice_put f off d : 0 <= off -> off + zlen d <= zlen f -> slice (put f off d) off (zlen d) = d.
Proof.
  intros H0 H1. pose proof (zlen_nonneg d).
  assert (zlen (put f off d) = zlen f) as Hl by (apply zlen_put; lia).
  apply buf_ext; [apply slice_length; lia|]. rewrite slice_length by lia. intros i Hi.
  rewrite at_slice by lia. apply at_put_in; lia.
Qed.

Lemma resized_ok fdt node name val po l f1 :
  editable fdt -> node < 2 ^ 31 - 8 -> bytes val ->
  fdt_get_property fdt node name = Ok (Some (S_ fdt + po), l, po) -> prop_named fdt po name ->
  l = w32 fdt (S_ fdt + po + 4) ->
  spliced fdt (S_ fdt + po + 12) (FDT_TAGALIGN l) (FDT_TAGALIGN (zlen val)) f1 ->
  end_ fdt + (FDT_TAGALIGN (zlen val) - FDT_TAGALIGN l) <= total_ fdt ->
  set_to (put (put f1 (S_ fdt + po + 4) (be32_bytes (u32 (zlen val)))) (S_ fdt + po + 12) val) node name val.
Proof.
  intros E Hnode Hbv Hg Hpn -> Hsp Hfit. pose proof Hpn as (Hm & (e & Ht) & Hst).
  destruct (prop_place fdt po e E Ht Hm) as (Hpo & Hl0 & He & Hend & Hall).
  set (l := w32 fdt (S_ fdt + po + 4)) in *. pose proof (zlen_nonneg val) as Hv0.
  destruct (tagalign_spec (zlen val) Hv0) as [Hav Hav4]. destruct (tagalign_spec l Hl0) as [Hal Hal4].
  set (new := FDT_TAGALIGN (zlen val)) in *. set (old := FDT_TAGALIGN l) in *.
  pose proof (ed_ranges fdt E) as HR.
  assert (editable f1) as E1 by (eapply spliced_editable; eauto; [clear - Hav4 Hal4; dlia|lia]).
  pose proof Hsp as ((Hlen & Hb1 & HS & HT & HV) & Hss & Hsz & HTs & Hat1 & Hat2).
  pose proof (ed_ranges f1 E1) as HR1.
  rewrite (u32_small (zlen val)) by lia.
  set (f2 := put f1 (S_ fdt + po + 4) (be32_bytes (zlen val))).
  assert (editable f2) as E2 by (apply put_editable; [done|apply be32_bytes_ok|hlia..]).
  destruct (put_header f1 (S_ fdt + po + 4) (be32_bytes (zlen val))) as
    ((Hlen2 & Hb2 & HS2 & HT2 & HV2) & Hsz2 & HTs2 & Hss2); [done|apply be32_bytes_ok|hlia..|].
  fold f2 in Hlen2, Hb2, HS2, HT2, HV2, Hsz2, HTs2, Hss2.
  set (F := put f2 (S_ fdt + po + 12) val).
  assert (editable F) as EF by (apply put_editable; [done|done|lia..]).
  destruct (put_header f2 (S_ fdt + po + 12) val) as
    ((Hlen3 & Hb3 & HS3 & HT3 & HV3) & Hsz3 & HTs3 & Hss3); [done|done|lia..|].
  fold F in Hlen3, Hb3, HS3, HT3, HV3, Hsz3, HTs3, Hss3.
  assert (S_ F = S_ fdt) as HSF by congruence.
  assert (forall a, 40 <= a -> a < S_ fdt + po + 4 \/ S_ fdt + po + 8 <= a < S_ fdt + po + 12 \/
    S_ fdt + po + 12 + zlen val <= a -> at_ F a = at_ f1 a) as HatF.
  { intros a Ha Hc. unfold F. rewrite at_put_out by lia. unfold f2. rewrite at_put_out by hlia. done. }
  assert (w32 F (S_ fdt + po + 4) = zlen val) as HlF.
  { unfold F. rewrite w32_put_out by lia. unfold f2. apply w32_put; lia. }
  assert (w32 F (S_ fdt + po) = FDT_PROP) as HtF.
  { destruct Ht as (_ & _ & Hw & _). rewrite <- Hw. apply w32_ext. intros i Hi.
    rewrite HatF by lia. apply Hat1. lia. }
  assert (w32 F (S_ fdt + po + 8) = w32 fdt (S_ fdt + po + 8)) as HnF.
  { apply w32_ext. intros i Hi. rewrite HatF by lia. apply Hat1. lia. }
  assert (same_strings fdt F) as Hstr.
  { split; [congruence|]. intros i Hi. rewrite HTs3, HTs2, HTs. rewrite HatF by lia.
    replace (T_ fdt + (new - old) + i) with (T_ fdt + i + (new - old)) by lia. apply Hat2. lia. }
  assert (same_before fdt F po) as Hbef.
  { split; [split; [congruence|]; split; [done|]; split_and!; congruence|]. split; [lia|].
    intros a Ha. rewrite HatF by lia. apply Hat1. lia. }
  assert (prop_named F po name) as Hpn'.
  { split; [done|]. split.
    - exists (po + 12 + zlen val). apply prop_built; rewrite ?HSF; done || lia.
    - rewrite HSF, HnF. by apply (string_at_same fdt). }
  pose proof (get_property_kept fdt F (ed_read _ E) (ed_read _ EF) po Hbef po (Z.le_refl po) Hstr name Hpn'
    node l Hnode Hg) as Hgk. rewrite HlF in Hgk.
  split; [done|]. exists (S_ fdt + po + 12). split.
  { rewrite <- HSF in Hgk, HlF |- *. apply getprop_at; try done; lia. }
  split; [lia|]. split; [lia|]. apply slice_put; lia.
Qed.

(** ** Adding a property *)

(** A C string of the caller. *)
Definition c_name (name : list Z) : Prop := bytes name /\ forall i, 0 <= i < zlen name -> at_ name i <> 0.

Lemma string_here fdt p name :
  c_name name -> T_ fdt <= p -> p + zlen name + 1 <= end_ fdt ->
  (forall i, 0 <= i < zlen name + 1 -> at_ fdt (p + i) = at_ (name ++ [0]) i) ->
  string_at fdt (p - T_ fdt) name.
Proof.
  intros [_ Hnz] Hp He Hat. pose proof (zlen_nonneg name). split; [lia|]. split; [lia|].
  replace (T_ fdt + (p - T_ fdt)) with p by lia. split.
  - rewrite Hat, at_app_r by lia. by rewrite Z.sub_diag.
  - intros i Hi. rewrite Hat, at_app_l by lia. split; [done|]. by apply Hnz.
Qed.

Lemma find_string_spec fdt name :
  editable fdt -> c_name name ->
  wp (fdt_find_string_ fdt (T_ fdt) (strsz_ fdt) name) (fun r => match r with
    | Some p => T_ fdt <= p /\ p + zlen name + 1 <= end_ fdt /\ string_at fdt (p - T_ fdt) name
    | None => True
    end).
Proof.
  intros E Hn. pose proof (ed_ranges fdt E). pose proof (zlen_nonneg name). unfold fdt_find_string_.
  apply (wp_loop (fun p => T_ fdt <= p) (fun p => Z.to_nat (zlen fdt - p))).
  - intros p Hp. case_if; [done|]. apply wp_bind.
    eapply wp_mono; [apply (memcmp_str_spec fdt p name (zlen name + 1)); lia|]. intros d Hd.
    destruct (Z.eqb_spec d 0) as [Ed|]; cbn; [|lia]. split; [done|]. split; [lia|].
    apply string_here; try done; [lia|]. by apply Hd.
  - lia.
  - unfold zlen. lia.
Qed.

(** The data of [fdt], up to its end, is unchanged in [f], whose strings block
    is [k] bytes longer. *)
Definition kept (fdt f : list Z) (k : Z) : Prop :=
  editable f /\ same_header fdt f /\ sz_ f = sz_ fdt /\ T_ f = T_ fdt /\ strsz_ f = strsz_ fdt + k /\
  forall a, 40 <= a < end_ fdt -> at_ f a = at_ fdt a.

Lemma kept_refl fdt : editable fdt -> kept fdt fdt 0.
Proof.
  intros E. split; [done|]. split; [split; [done|]; split; [apply E|done]|]. split_and!; try done. lia.
Qed.

(** Setting the size of the strings block. *)
Lemma set_strsz fdt f k d :
  kept fdt f k -> 0 <= strsz_ fdt + k + d -> end_ fdt + k + d <= total_ fdt ->
  exists f', add_field f OFF_size_dt_strings d = Ok f' /\ kept fdt f' (k + d).
Proof.
  intros (E & (Hl & Hb & HS & HT & HV) & Hsz & HTs & Hss & Hat) H0 Hfit. pose proof (ed_ranges f E) as HR.
  rewrite add_field_put by hlia. eexists. split; [done|].
  set (v := u32 (strsz_ f + d)). assert (v = strsz_ fdt + k + d) as Ev by (unfold v; rewrite u32_small by lia; lia).
  set (f' := put f _ _).
  assert (forall o, 0 <= o -> o + 4 <= 32 \/ 36 <= o -> w32 f' o = w32 f o) as Hw.
  { intros o Ho Hc. apply w32_put_out; hlia. }
  assert (strsz_ f' = strsz_ fdt + (k + d)) as Hss' by (unfold f'; rewrite w32_put by hlia; lia).
  assert (zlen f' = zlen f) as Hl' by (apply zlen_put; hlia).
  assert (bytes f') as Hb' by (apply put_bytes; [done|apply be32_bytes_ok]).
  assert (sz_ f' = sz_ f) as W1 by (apply Hw; hlia). assert (T_ f' = T_ f) as W2 by (apply Hw; hlia).
  assert (S_ f' = S_ f) as W3 by (apply Hw; hlia). assert (total_ f' = total_ f) as W4 by (apply Hw; hlia).
  assert (ver_ f' = ver_ f) as W5 by (apply Hw; hlia).
  split.
  - destruct E as [[R1 R2 R3 R4] E2 E3 E4 E5 E6].
    constructor; [constructor| | | | |]; rewrite ?W1, ?W2, ?W3, ?W4, ?W5, ?Hss', ?Hl'; try done; lia.
  - split; [split; [lia|]; split; [done|]; split_and!; lia|]. split; [lia|]. split; [lia|]. split; [lia|].
    intros a Ha. unfold f'. rewrite at_put_out by hlia. by apply Hat.
Qed.

Lemma move_zero l d s : move l d s 0 = l.
Proof.
  unfold move, slice, put. change (Z.to_nat 0) with 0%nat. rewrite take_0. cbn [app].
  change (zlen []) with 0. rewrite Z.add_0_r. apply take_drop.
Qed.

Lemma find_add_string_spec fdt name :
  editable fdt -> c_name name -> zlen name < 2 ^ 30 ->
  wp (fdt_find_add_string_ fdt name) (fun '(so, alloc, f) =>
    (so < 0 /\ f = fdt) \/
    (0 <= so < strsz_ f /\ kept fdt f (if alloc : bool then zlen name + 1 else 0) /\ string_at f so name)).
Proof.
  intros E Hn Hnl. pose proof (ed_ranges fdt E) as HR. pose proof (zlen_nonneg name).
  unfold fdt_find_add_string_, fdt_off_dt_strings, fdt_size_dt_strings. rewrite !hdr_ok by done. cbn [obind].
  rewrite i32_small by lia. apply wp_bind. eapply wp_mono; [by apply find_string_spec|]. intros [p|].
  { intros (H1 & H2 & H3). cbn. right. split; [lia|]. split; [by apply kept_refl|done]. }
  intros _. unfold fdt_splice_string_, fdt_off_dt_strings, fdt_size_dt_strings. rewrite !hdr_ok by done.
  cbn [obind]. rewrite (proj2 (Z.ltb_ge _ _)) by lia. rewrite splice_spec by lia || done.
  destruct (Z.ltb_spec (total_ fdt) (end_ fdt - 0 + (zlen name + 1))) as [|Hfit]; [by left|]. cbn [obind Z.eqb negb].
  replace (end_ fdt - (end_ fdt) - 0) with 0 by lia. rewrite move_zero.
  destruct (set_strsz fdt fdt 0 (zlen name + 1) (kept_refl _ E)) as (f & -> & Hk); [lia..|]. cbn [obind Z.eqb negb].
  pose proof Hk as (Ef & (Hl & Hb & HS & HT & HV) & Hsz & HTs & Hss & Hat).
  assert (zlen (name ++ [0]) = zlen name + 1) as Hzl by (rewrite zlen_app; done).
  assert (bytes (name ++ [0])) as Hby by (apply Forall_app_2; [apply Hn|repeat constructor; wblia]).
  rewrite blit_put by lia. cbn. right. rewrite Z.add_simpl_l. cbn in Hss.
  destruct (put_header f (T_ fdt + strsz_ fdt) (name ++ [0])) as
    ((Hlen2 & Hb2 & HS2 & HT2 & HV2) & Hsz2 & HTs2 & Hss2); [done|done|lia|lia|].
  set (F := put f (T_ fdt + strsz_ fdt) (name ++ [0])) in *.
  split; [lia|]. split.
  - split; [apply put_editable; [done|done|lia|lia]|]. split; [split; [lia|]; split; [done|]; split_and!; lia|].
    split; [lia|]. split; [lia|]. split; [lia|].
    intros a Ha. unfold F. rewrite at_put_out by lia. by apply Hat.
  - replace (strsz_ fdt) with (T_ fdt + strsz_ fdt - T_ F) by lia. apply string_here; [done|lia|lia|].
    intros i Hi. apply at_put_in; lia.
Qed.

(** The first property of a node is the one found. *)
Lemma first_found fdt node name e :
  editable fdt -> tag_at fdt node FDT_BEGIN_NODE e -> node mod 4 = 0 ->
  prop_named fdt (FDT_TAGALIGN e) name ->
  fdt_get_property fdt node name =
  Ok (Some (S_ fdt + FDT_TAGALIGN e), w32 fdt (S_ fdt + FDT_TAGALIGN e + 4), FDT_TAGALIGN e).
Proof.
  intros E Ht Hm Hpn. pose proof (ed_read _ E) as R. pose proof (tag_at_next fdt R _ _ _ Ht) as Hn.
  set (po := FDT_TAGALIGN e) in *. pose proof Hpn as (Hm2 & (e2 & Ht2) & Hst).
  rewrite get_property_unfold. unfold fdt_first_property_offset, fdt_check_node_offset_, fdt_check_offset_, FDT_TAGSIZE.
  rewrite Hm, (proj2 (Z.ltb_ge node 0)), (next_tag_complete fdt R _ _ _ Ht) by lia. fold po.
  cbn [Z.eqb negb orb obind]. change (FDT_BEGIN_NODE =? FDT_BEGIN_NODE) with true. cbn [negb obind].
  rewrite (proj2 (Z.ltb_ge po 0)) by lia. unfold fdt_next_property_. cbn [loop].
  rewrite (next_tag_complete fdt R _ _ _ Ht2). cbn [obind]. change (FDT_PROP =? FDT_END) with false.
  change (FDT_PROP =? FDT_PROP) with true. cbv iota. cbn [obind].
  pose proof (prop_inside fdt R _ _ Ht2) as Hp. cbv zeta in Hp. pose proof (rb_total _ R).
  unfold get_property_body at 1. rewrite (proj2 (Z.ltb_ge po 0)) by lia.
  rewrite (prop_by_offset_spec fdt R _ _ Ht2 Hm2). cbn [obind]. rewrite be32_ok by lia. cbn [obind].
  pose proof (w32_range fdt (S_ fdt + po + 8) ltac:(apply R) ltac:(lia) ltac:(lia)) as Hr8.
  destruct (wp_inv _ _ (name_test_spec fdt R (i32 (w32 fdt (S_ fdt + po + 8))) name
    ltac:(by apply i32_lt))) as (b & -> & Hb2).
  rewrite (proj2 Hb2 Hst). done.
Qed.

(** The three words and the value of a new property. *)
Definition new_prop (f : list Z) (prop so : Z) (val : list Z) : list Z :=
  put (put (put (put f prop (be32_bytes FDT_PROP)) (prop + 8) (be32_bytes (u32 so)))
    (prop + 4) (be32_bytes (u32 (zlen val)))) (prop + 12) val.

Lemma new_prop_ok f prop so val :
  editable f -> bytes val -> 40 <= prop -> 0 <= so < 2 ^ 31 -> zlen val < 2 ^ 31 -> prop + 12 + zlen val <= zlen f ->
  editable (new_prop f prop so val) /\
  (same_header f (new_prop f prop so val) /\ sz_ (new_prop f prop so val) = sz_ f /\
   T_ (new_prop f prop so val) = T_ f /\ strsz_ (new_prop f prop so val) = strsz_ f) /\
  w32 (new_prop f prop so val) prop = FDT_PROP /\ w32 (new_prop f prop so val) (prop + 4) = zlen val /\
  w32 (new_prop f prop so val) (prop + 8) = so /\
  slice (new_prop f prop so val) (prop + 12) (zlen val) = val /\
  forall a, 40 <= a -> a < prop \/ prop + 12 + zlen val <= a -> at_ (new_prop f prop so val) a = at_ f a.
Proof.
  intros E Hv Hp Hso Hlv Hf. pose proof (zlen_nonneg val). unfold new_prop.
  rewrite (u32_small so), (u32_small (zlen val)) by lia.
  set (f1 := put f prop (be32_bytes FDT_PROP)). set (f2 := put f1 (prop + 8) (be32_bytes so)).
  set (f3 := put f2 (prop + 4) (be32_bytes (zlen val))). set (F := put f3 (prop + 12) val).
  assert (zlen f1 = zlen f) as L1 by (apply zlen_put; hlia).
  assert (zlen f2 = zlen f) as L2 by (unfold f2; rewrite zlen_put; hlia).
  assert (zlen f3 = zlen f) as L3 by (unfold f3; rewrite zlen_put; hlia).
  assert (editable f1) as E1 by (apply put_editable; [done|apply be32_bytes_ok|hlia..]).
  assert (editable f2) as E2 by (apply put_editable; [done|apply be32_bytes_ok|hlia..]).
  assert (editable f3) as E3 by (apply put_editable; [done|apply be32_bytes_ok|hlia..]).
  assert (editable F) as E4 by (apply put_editable; [done|done|hlia..]).
  split; [done|]. split.
  { assert (zlen F = zlen f) as L4 by (unfold F; rewrite zlen_put; lia).
    assert (forall o, 0 <= o -> o + 4 <= 40 -> w32 F o = w32 f o) as Hw.
    { intros o H0 H4. unfold F. rewrite header_put by hlia. unfold f3. rewrite header_put by hlia.
      unfold f2. rewrite header_put by hlia. unfold f1. by rewrite header_put by hlia. }
    rewrite !Hw by hlia. split_and!; try done. split; [done|]. split; [apply E4|]. rewrite !Hw by hlia. done. }
  split; [|split; [|split; [|split]]].
  - unfold F. rewrite w32_put_out by hlia. unfold f3. rewrite w32_put_out by hlia. unfold f2.
    rewrite w32_put_out by hlia. apply w32_put; [lia..|done].
  - unfold F. rewrite w32_put_out by hlia. apply w32_put; lia.
  - unfold F. rewrite w32_put_out by hlia. unfold f3. rewrite w32_put_out by hlia. apply w32_put; lia.
  - apply slice_put; lia.
  - intros a Ha Hc. unfold F. rewrite at_put_out by lia. unfold f3. rewrite at_put_out by hlia.
    unfold f2. rewrite at_put_out by hlia. unfold f1. by rewrite at_put_out by hlia.
Qed.

Lemma added_ok fdt f k f1 node name val e so :
  editable fdt -> bytes val -> zlen val < 2 ^ 30 ->
  tag_at fdt node FDT_BEGIN_NODE e -> node mod 4 = 0 -> kept fdt f k -> 0 <= k -> string_at f so name ->
  spliced f (S_ f + FDT_TAGALIGN e) 0 (12 + FDT_TAGALIGN (zlen val)) f1 ->
  end_ f + (12 + FDT_TAGALIGN (zlen val) - 0) <= total_ f ->
  set_to (new_prop f1 (S_ f + FDT_TAGALIGN e) so val) node name val.
Proof.
  intros E Hv Hlv Ht Hm (Ef & (Hl & Hb & HS & HT & HV) & Hsz & HTs & Hss & Hat) Hk Hst Hsp Hfit.
  pose proof (zlen_nonneg val) as Hv0. destruct (tagalign_spec (zlen val) Hv0) as [Hav Hav4].
  pose proof (ed_ranges fdt E) as HR. pose proof (ed_ranges f Ef) as HRf.
  pose proof (tag_at_next fdt (ed_read _ E) _ _ _ Ht) as Hn.
  assert (FDT_TAGALIGN e <= sz_ fdt /\ FDT_TAGALIGN e mod 4 = 0) as [Hpo Hpm].
  { destruct Ht as (Hin & He & _). apply inside_true in Hin as (I1 & I2 & I3). pose proof (ed_ver _ E).
    destruct (tagalign_spec e ltac:(lia)) as [Ha Ha4]. pose proof (ed_align _ E). split; [|done].
    assert (e <= sz_ fdt) by lia. dlia. }
  set (po := FDT_TAGALIGN e) in *. set (new := 12 + FDT_TAGALIGN (zlen val)) in *.
  assert (editable f1) as E1.
  { eapply spliced_editable; [exact Ef|exact Hsp| |lia|lia]. unfold new. clear - Hav4. dlia. }
  pose proof Hsp as ((Hlen & Hb1 & HS1 & HT1 & HV1) & Hss1 & Hsz1 & HTs1 & Hat1 & Hat2).
  pose proof (ed_ranges f1 E1) as HR1. pose proof Hst as (St1 & St2 & St3 & St4). pose proof (zlen_nonneg name).
  assert (zlen val <= FDT_TAGALIGN (zlen val)) as Hva by lia.
  destruct (new_prop_ok f1 (S_ f + po) so val) as (EF & ((HlF & HbF & HSF & HTF & HVF) & HszF & HTsF & HssF) &
    W0 & W4 & W8 & Hsl & HatF); [done|done|lia|lia|lia|unfold new in *; lia|].
  set (F := new_prop f1 (S_ f + po) so val) in *.
  assert (S_ F = S_ fdt) as HSFf by congruence.
  assert (same_before fdt F po) as Hbef.
  { split; [split; [congruence|]; split; [done|]; split_and!; congruence|]. split; [lia|].
    intros a Ha. rewrite HatF by lia. rewrite Hat1 by lia. apply Hat. lia. }
  assert (same_strings f F) as Hstr.
  { split; [congruence|]. intros i Hi. rewrite HTsF, HTs1. unfold new in *. rewrite HatF by lia.
    rewrite <- (Hat2 (T_ f + i)) by lia. f_equal. lia. }
  assert (tag_at F node FDT_BEGIN_NODE e) as HtF.
  { apply (tag_at_before fdt F po); [apply E|done|done|unfold po in *; lia]. }
  assert (tag_at F po FDT_PROP (po + 12 + zlen val)) as HtP.
  { replace (S_ f + po) with (S_ F + po) in W0, W4 by congruence.
    apply prop_built; [done|lia|lia|unfold new in *; lia|done|done]. }
  assert (prop_named F po name) as Hpn.
  { split; [done|]. split; [eauto|]. replace (S_ F + po + 8) with (S_ f + po + 8) by congruence.
    rewrite W8, i32_small by lia. by apply (string_at_same f). }
  pose proof (first_found F node name e EF HtF Hm Hpn) as Hg. fold po in Hg.
  replace (S_ f + po) with (S_ F + po) in * by congruence.
  split; [done|]. exists (S_ F + po + 12). rewrite W4 in Hg. split.
  { apply getprop_at; try done; unfold new in *; lia. }
  split; [lia|]. split; [unfold new in *; lia|done].
Qed.

(** ** [fdt_setprop] *)

Lemma put_empty l off : put l off [] = l.
Proof. unfold put. cbn [app]. change (zlen []) with 0. rewrite Z.add_0_r. apply take_drop. Qed.

(** The final copy of the value, skipped when it is empty. *)
Lemma store_value f p val err :
  0 <= p -> p + zlen val <= zlen f ->
  (if 0 <? zlen val then let! fdt := blit f p val in Ok (err, fdt) else Ok (err, f)) =
  @Ok (Z * list Z) (err, put f p val).
Proof.
  intros Hp Hf. destruct (Z.ltb_spec 0 (zlen val)) as [Hl|Hl]; [by rewrite blit_put by lia|].
  destruct val as [|x v]; [by rewrite put_empty|]. rewrite zlen_cons in Hl. pose proof (zlen_nonneg v). lia.
Qed.

Section SetProp.
Context (fdt : list Z) (E : editable fdt) (node : Z) (Hnode : node < 2 ^ 31 - 8).
Context (name val : list Z) (Hname : c_name name) (Hnl : zlen name < 2 ^ 30)
  (Hval : bytes val) (Hvl : zlen val < 2 ^ 30).

Definition set_done (r : Z * list Z) : Prop :=
  (fst r = 0 /\ set_to (snd r) node name val) \/ (fst r <> 0 /\ kept fdt (snd r) 0).

(** The tail of [fdt_setprop]. *)
Definition store (r : Z * option Z * list Z) : outcome (Z * list Z) :=
  let '(err, prop, f) := r in
  if err =? 0 then
    match prop with
    | None => Oob
    | Some prop =>
        if 0 <? zlen val then let! f := blit f (prop + 12) val in Ok (err, f) else Ok (err, f)
    end
  else Ok (err, f).

Lemma add_property_spec : wp (obind (fdt_add_property_ fdt node name (zlen val)) store) set_done.
Proof.
  pose proof (ed_ranges fdt E) as HR. pose proof (zlen_nonneg val) as Hv0. pose proof (zlen_nonneg name).
  destruct (tagalign_spec (zlen val) Hv0) as [Hav Hav4].
  unfold fdt_add_property_, fdt_check_node_offset_.
  destruct (wp_inv _ _ (check_offset_spec fdt (ed_read _ E) FDT_BEGIN_NODE node Hnode ltac:(done))) as (r & -> & Hr).
  cbn [obind]. destruct Hr as [Hneg|(Hm & e & Ht & ->)].
  { rewrite (proj2 (Z.ltb_lt r 0)) by lia. cbn. rewrite (proj2 (Z.eqb_neq r 0)) by lia. right. cbn.
    split; [lia|by apply kept_refl]. }
  pose proof (tag_at_next fdt (ed_read _ E) _ _ _ Ht) as Hn.
  rewrite (proj2 (Z.ltb_ge (FDT_TAGALIGN e) 0)) by lia.
  destruct (wp_inv _ _ (find_add_string_spec fdt name E Hname Hnl)) as ([[so alloc] f] & -> & Hso). cbn [obind].
  destruct Hso as [[Hneg ->]|(Hso & Hk & Hst)].
  { rewrite (proj2 (Z.ltb_lt so 0)) by lia. cbn. rewrite (proj2 (Z.eqb_neq so 0)) by lia. right. cbn.
    split; [lia|by apply kept_refl]. }
  rewrite (proj2 (Z.ltb_ge so 0)) by lia. pose proof Hk as (Ef & (Hl & Hb & HS & HT & HV) & Hsz & HTs & Hss & Hat).
  pose proof (ed_ranges f Ef) as HRf. unfold fdt_offset_ptr_, fdt_off_dt_struct. rewrite hdr_ok by done. cbn [obind].
  assert (FDT_TAGALIGN e <= sz_ fdt) as Hpo.
  { destruct Ht as (Hin & He & _). apply inside_true in Hin as (I1 & I2 & I3). pose proof (ed_ver _ E).
    destruct (tagalign_spec e ltac:(lia)) as [Ha Ha4]. pose proof (ed_align _ E).
    assert (e <= sz_ fdt) by lia. dlia. }
  destruct (wp_inv _ _ (splice_struct_spec f (S_ f + FDT_TAGALIGN e) 0 (12 + FDT_TAGALIGN (zlen val)) Ef
    ltac:(lia) ltac:(lia) ltac:(lia) ltac:(lia))) as ([err f1] & -> & Hsp). cbn [obind].
  destruct Hsp as [[-> ->]|(-> & Hfit & Hsp)].
  { change (- FDT_ERR_NOSPACE =? 0) with false. cbn [negb].
    destruct alloc.
    - unfold fdt_del_last_string_. destruct (set_strsz fdt f _ (- (zlen name + 1)) Hk) as (f' & -> & Hk'); [lia..|].
      cbn. right. split; [done|]. cbn. by replace 0 with (zlen name + 1 + - (zlen name + 1)) by lia.
    - cbn. right. done. }
  cbn [Z.eqb negb].
  assert (0 <= (if alloc : bool then zlen name + 1 else 0)) as Hk0 by (destruct alloc; lia).
  pose proof (added_ok fdt f _ f1 node name val e so E Hval Hvl Ht Hm Hk Hk0 Hst Hsp Hfit) as Hset.
  pose proof Hsp as ((Hlen & _) & _ & Hsz1 & HTs1 & _).
  assert (S_ f + FDT_TAGALIGN e + 12 + zlen val <= zlen f1) as Hroom by lia. unfold new_prop in Hset.
  rewrite set_be32_put by lia. cbn [obind]. rewrite set_be32_put by (rewrite ?zlen_put by hlia; lia). cbn [obind].
  rewrite set_be32_put by (rewrite ?zlen_put by (rewrite ?zlen_put by hlia; hlia); lia). cbn [obind store Z.eqb].
  rewrite store_value; [|lia|].
  - cbn. left. done.
  - rewrite !zlen_put; rewrite ?zlen_put; rewrite ?zlen_put; hlia.
Qed.

Lemma resize_property_spec :
  wp (let! (err, prop, f) := fdt_resize_property_ fdt node name (zlen val) in
      if err =? - FDT_ERR_NOTFOUND then obind (fdt_add_property_ f node name (zlen val)) store
      else store (err, prop, f)) set_done.
Proof.
  pose proof (ed_ranges fdt E) as HR. pose proof (zlen_nonneg val) as Hv0.
  destruct (tagalign_spec (zlen val) Hv0) as [Hav Hav4]. unfold fdt_resize_property_.
  destruct (wp_inv _ _ (get_property_spec fdt (ed_read _ E) node name Hnode)) as ([[prop l] po] & Eg & Hg).
  rewrite Eg. cbn [obind]. destruct prop as [P|].
  2:{ cbn [obind]. destruct (Z.eqb_spec l (- FDT_ERR_NOTFOUND)); [apply add_property_spec|].
      unfold store. rewrite (proj2 (Z.eqb_neq l 0)) by lia. right. cbn. split; [lia|by apply kept_refl]. }
  destruct Hg as (Hpo & -> & -> & Hpn). pose proof Hpn as (Hm & (e & Ht) & Hst).
  destruct (prop_place fdt po e E Ht Hm) as (Hpo0 & Hl0 & He & Hend & Hall).
  set (l := w32 fdt (S_ fdt + po + 4)) in *.
  destruct (wp_inv _ _ (splice_struct_spec fdt (S_ fdt + po + 12) (FDT_TAGALIGN l) (FDT_TAGALIGN (zlen val)) E
    ltac:(lia) ltac:(lia) ltac:(lia) ltac:(lia))) as ([err f1] & -> & Hsp). cbn [obind].
  destruct Hsp as [[-> ->]|(-> & Hfit & Hsp)].
  { cbn. right. split; [done|by apply kept_refl]. }
  pose proof (resized_ok fdt node name val po l f1 E Hnode Hval Eg Hpn eq_refl Hsp Hfit) as Hset.
  pose proof Hsp as ((Hlen & _) & _ & Hsz1 & HTs1 & _). cbn [Z.eqb].
  rewrite set_be32_put by lia. cbn [obind]. change (0 =? - FDT_ERR_NOTFOUND) with false. cbn [store Z.eqb].
  rewrite store_value; [|lia|rewrite zlen_put by hlia; lia]. cbn. left. done.
Qed.

Lemma setprop_spec : wp (fdt_setprop fdt node name val) set_done.
Proof.
  pose proof (ed_ranges fdt E) as HR. unfold fdt_setprop, fdt_totalsize. rewrite hdr_ok by done. cbn [obind].
  rewrite i32_small by lia. rewrite (proj2 (Z.ltb_lt 0 (total_ fdt))) by lia.
  pose proof resize_property_spec as Hr. destruct (fdt_resize_property_ fdt node name (zlen val)) as [[[err prop] f]| |];
    [|done..]. cbn [obind] in *. destruct (err =? - FDT_ERR_NOTFOUND); [|exact Hr].
  destruct (fdt_add_property_ f node name (zlen val)) as [[[err2 prop2] f2]| |]; [|done..]. exact Hr.
Qed.
End SetProp.

(** C18: a property that is set reads back as the value stored, and a failed
    call changes nothing.  On an editable blob, for any node offset, name and
    value, [fdt_setprop] returns; if it returns 0 the blob is still editable and
    [fdt_getprop] finds the property in that node with exactly the bytes stored,
    whether the property was replaced or added; otherwise the structure block,
    the strings and the offsets of the header are those of before. *)
Theorem fdt_set_get fdt node name val :
  editable fdt -> node < 2 ^ 31 - 8 -> c_name name -> zlen name < 2 ^ 30 ->
  bytes val -> zlen val < 2 ^ 30 ->
  wp (fdt_setprop fdt node name val) (fun '(err, F) => editable F /\
    (err = 0 -> exists p, fdt_getprop F node name = Ok (Some p, zlen val) /\ slice F p (zlen val) = val) /\
    (err <> 0 -> S_ F = S_ fdt /\ sz_ F = sz_ fdt /\ T_ F = T_ fdt /\ strsz_ F = strsz_ fdt /\
       forall a, 40 <= a < T_ fdt + strsz_ fdt -> at_ F a = at_ fdt a)).
Proof.
  intros E Hno Hn Hnl Hv Hvl. eapply wp_mono; [by apply (setprop_spec fdt)|].
  intros [err F] [[He (EF & p & Hg & _ & _ & Hs)]|[He (EF & (_ & _ & HS & _) & Hsz & HT & Hss & Hat)]]; cbn in *.
  - split; [done|]. split; [eauto|]. by rewrite He.
  - split; [done|]. split; [done|]. intros _. rewrite Hss. split_and!; done || lia.
Qed.

(** ** Examples *)

Module ExampleFdt.

(** "/" with a property "foo" and a node "ab" with a property "bar". *)
Definition strct : list Z :=
  be32_bytes FDT_BEGIN_NODE ++ [0; 0; 0; 0] ++
    be32_bytes FDT_PROP ++ be32_bytes 3 ++ be32_bytes 0 ++ [7; 8; 9; 0] ++
    be32_bytes FDT_BEGIN_NODE ++ [97; 98; 0; 0] ++
      be32_bytes FDT_PROP ++ be32_bytes 4 ++ be32_bytes 4 ++ [1; 2; 3; 4] ++
    be32_bytes FDT_END_NODE ++
  be32_bytes FDT_END_NODE ++ be32_bytes FDT_END.
Definition strs : list Z := [102; 111; 111; 0; 98; 97; 114; 0].
Definition foo : list Z := [102; 111; 111].
Definition bar : list Z := [98; 97; 114].

(** A blob with [room] free bytes, whose strings are said to be at [off]. *)
Definition blob_at (off room : Z) : list Z :=
  be32_bytes FDT_MAGIC ++ be32_bytes (56 + zlen strct + zlen strs + room) ++ be32_bytes 56 ++
  be32_bytes off ++ be32_bytes 40 ++ be32_bytes 17 ++ be32_bytes 16 ++ be32_bytes 0 ++
  be32_bytes (zlen strs) ++ be32_bytes (zlen strct) ++ replicate 16 0 ++ strct ++ strs ++
  replicate (Z.to_nat room) 0.
Definition blob : list Z := blob_at (56 + zlen strct) 64.

Lemma blob_bytes : bytes blob.
Proof. vm_compute. repeat constructor; discriminate. Qed.

Lemma blob_editable : editable blob.
Proof.
  constructor; [constructor; [apply blob_bytes|..]|..]; vm_compute; try split; (discriminate || reflexivity).
Qed.

Lemma bar_name : c_name bar.
Proof.
  split; [repeat constructor; discriminate|]. intros i Hi. change (zlen bar) with 3 in Hi.
  assert (i = 0 \/ i = 1 \/ i = 2) as [-> | [-> | ->]] by lia; discriminate.
Qed.

End ExampleFdt.
Import ExampleFdt.

Lemma fdt_set_get_witness :
  wp (fdt_setprop blob 24 bar [5; 6; 7; 8; 9]) (fun '(err, F) => err = 0 /\
    exists p, fdt_getprop F 24 bar = Ok (Some p, 5) /\ slice F p 5 = [5; 6; 7; 8; 9]).
Proof.
  assert (24 < 2 ^ 31 - 8) as H1 by lia. assert (zlen bar < 2 ^ 30) as H2 by reflexivity.
  assert (bytes [5; 6; 7; 8; 9]) as H3 by (repeat constructor; discriminate).
  assert (zlen [5; 6; 7; 8; 9] < 2 ^ 30) as H4 by reflexivity.
  pose proof (fdt_set_get blob 24 bar [5; 6; 7; 8; 9] blob_editable H1 bar_name H2 H3 H4) as H.
  assert (exists F, fdt_setprop blob 24 bar [5; 6; 7; 8; 9] = Ok (0, F)) as [F EF].
  { eexists. vm_compute. reflexivity. }
  rewrite EF in H |- *. destruct H as (_ & Hg & _). split; [reflexivity|]. exact (Hg eq_refl).
Defined.

Lemma fdt_reading_safe_witness :
  wp (fdt_find_node_offset blob (-1) [97; 98]) (fun r => r < 0 \/
    (-1 < r /\ exists e, tag_at blob r FDT_BEGIN_NODE e)) /\
  fdt_find_node_offset blob (-1) [97; 98] = Ok 24.
Proof.
  assert (-1 < 2 ^ 31 - 8) as H1 by lia.
  split; [|vm_compute; reflexivity].
  exact (proj1 (proj2 (fdt_reading_safe blob (-1) [97; 98] [] (ed_read _ blob_editable) H1))).
Defined.

(** Without the check on the strings block the reader leaves the blob: this
    header is accepted, its total size is the size of the buffer, and looking up
    a property reads a name beyond the end. *)
Example get_string_unchecked :
  let bad := blob_at 4096 0 in
  fdt_check_header bad = Ok 0 /\ fdt_totalsize bad = Ok (zlen bad) /\ fdt_getprop bad 0 foo = Oob.
Proof. split; [|split]; vm_compute; reflexivity. Qed.

(** The same on a blob with room, run to the end: fixups, a new node, and a
    memory reservation. *)
Example initrd_fixup :
  match fdt_fixup_initrd (blob_at (56 + zlen strct) 200) 4096 100 with
  | Ok (r, F) => r = 0 /\ fdt_find_node_offset F (-1) str_chosen = Ok 24 /\
      fdt_getprop_address F 24 str_initrd_end = Ok 4196 /\
      match fdt_add_mem_rsv F 4096 100 with
      | Ok (r, F) => r = 0 /\ fdt_getprop_address F 24 str_initrd_start = Ok 4096 /\
          match fdt_del_node F 24 with
          | Ok (r, F) => r = 0 /\ fdt_find_node_offset F (-1) [97; 98] = Ok 24
          | _ => False
          end
      | _ => False
      end
  | _ => False
  end.
Proof. vm_compute. repeat split. Qed.
