(* ===== verification/Fit.v ===== *)
(** * Fit: images of a flattened image tree

    The FIT part of fdt.c: choosing the sub-images of a configuration and
    loading one of them, copied or decompressed to its destination.  Pointers
    into the tree are offsets; [fit_base] is the address of the tree and
    [ram a] the memory available at address [a].  No WOLFBOOT_FIT_CONFIG_SELECT,
    and [wolfBoot_fit_memcpy] is the default copy. *)

From Stdlib Require Import ZArith Lia.
From stdpp Require Import prelude.
From S2P Require Import Prelude Strings StringsSpec Gzip GzipSafe Fdt FdtRead FdtEdit.

Local Open Scope Z_scope.

(** The C string at [p] of the tree. *)
Definition c_str (fdt : list Z) (p : Z) : outcome (list Z) :=
  let! n := strlen fdt p in Ok (slice fdt p n).

Definition str_configurations : list Z :=
  [99; 111; 110; 102; 105; 103; 117; 114; 97; 116; 105; 111; 110; 115].
Definition str_default : list Z := [100; 101; 102; 97; 117; 108; 116].
Definition str_kernel : list Z := [107; 101; 114; 110; 101; 108].
Definition str_fdt : list Z := [102; 100; 116].
Definition str_ramdisk : list Z := [114; 97; 109; 100; 105; 115; 107].
Definition str_fpga : list Z := [102; 112; 103; 97].
Definition str_type : list Z := [116; 121; 112; 101].
Definition str_flat_dt : list Z := [102; 108; 97; 116; 95; 100; 116].
Definition str_data : list Z := [100; 97; 116; 97].
Definition str_load : list Z := [108; 111; 97; 100].
Definition str_entry : list Z := [101; 110; 116; 114; 121].
Definition str_compression : list Z := [99; 111; 109; 112; 114; 101; 115; 115; 105; 111; 110].
Definition str_gzip : list Z := [103; 122; 105; 112].
Definition str_none : list Z := [110; 111; 110; 101].

(** ** Choosing images *)

Record fit_images : Type := mkFitImages {
  fi_conf : option Z;
  fi_kernel : option Z;
  fi_flat_dt : option Z;
  fi_ramdisk : option Z;
  fi_fpga : option Z;
}.

(** The name of the first node of type [type], unless [cur] is already known. *)
Definition fit_by_type (fdt : list Z) (type : list Z) (cur : option Z) : outcome (option Z) :=
  match cur with
  | Some p => Ok (Some p)
  | None =>
      let! off := fdt_find_prop_offset fdt (-1) str_type type in
      if 0 <? off then
        let! (val, len) := fdt_get_name fdt off in
        match val with
        | Some val => Ok (if 0 <? len then Some val else None)
        | None => Ok None
        end
      else Ok None
  end.

Definition fit_find_images (fdt : list Z) : outcome fit_images :=
  let! off := fdt_find_node_offset fdt (-1) str_configurations in
  let! conf :=
    (if 0 <? off then
       let! (val, len) := fdt_getprop fdt off str_default in
       match val with
       | Some val => Ok (if 0 <? len then Some val else None)
       | None => Ok None
       end
     else Ok None) in
  let! (kernel, flat_dt, ramdisk, fpga) :=
    match conf with
    | None => Ok (None, None, None, None)
    | Some conf =>
        let! name := c_str fdt conf in
        let! off := fdt_find_node_offset fdt (-1) name in
        if 0 <? off then
          let! (kernel, _) := fdt_getprop fdt off str_kernel in
          let! (flat_dt, _) := fdt_getprop fdt off str_fdt in
          let! (ramdisk, _) := fdt_getprop fdt off str_ramdisk in
          let! (fpga, _) := fdt_getprop fdt off str_fpga in
          Ok (kernel, flat_dt, ramdisk, fpga)
        else Ok (None, None, None, None)
    end in
  let! kernel := fit_by_type fdt str_kernel kernel in
  let! flat_dt := fit_by_type fdt str_flat_dt flat_dt in
  let! ramdisk := fit_by_type fdt str_ramdisk ramdisk in
  let! fpga := fit_by_type fdt str_fpga fpga in
  Ok (mkFitImages conf kernel flat_dt ramdisk fpga).

Definition fit_get_compatible (fdt : list Z) (image : list Z) : outcome (option Z) :=
  let! off := fdt_find_node_offset fdt (-1) image in
  if off <=? 0 then Ok None else
  let! (val, len) := fdt_getprop fdt off str_compatible in
  match val with
  | Some val => Ok (if 0 <? len then Some val else None)
  | None => Ok None
  end.

(** [strncmp(haystack + i, needle, nlen) == 0] at some [i]; [needle] has no
    terminator among its characters. *)
Definition fit_str_contains (l : list Z) (haystack : option Z) (hlen : Z) (needle : list Z)
    : outcome bool :=
  match haystack with
  | None => Ok false
  | Some haystack =>
      if hlen <=? 0 then Ok false else
      let nlen := zlen needle in
      if (nlen =? 0) || (hlen <? nlen) then Ok false else
      loop (S (Z.to_nat hlen)) (fun i =>
        if negb (i + nlen <=? hlen) then Ok (inr false) else
        let! d := memcmp_str l (haystack + i) needle nlen in
        if d =? 0 then Ok (inr true) else Ok (inl (i + 1))) 0
  end.

(** ** Loading an image *)

(** [strcmp] of the string at [p] with a string of the caller. *)
Definition strcmp_str (l : list Z) (p : Z) (s : list Z) : outcome Z :=
  loop (S (S (length s))) (fun i =>
    let! a := rd l (p + i) in
    let! b := rd (s ++ [0]) i in
    if negb (a =? 0) && negb (b =? 0) then
      if negb (a =? b) then Ok (inr (a - b)) else Ok (inl (i + 1))
    else Ok (inr (a - b))) 0.

(** A pointer into the tree, or an address. *)
Inductive fit_ptr : Type :=
| FitData (off : Z)
| FitAddr (a : Z).

(** (is_gzip, is_unknown_comp) *)
Definition fit_compression (fdt : list Z) (off : Z) : outcome (bool * bool) :=
  let! (comp, complen) := fdt_getprop fdt off str_compression in
  match comp with
  | Some comp =>
      if 0 <? complen then
        let! d := strcmp_str fdt comp str_gzip in
        if d =? 0 then Ok (true, false) else
        let! d := strcmp_str fdt comp str_none in
        Ok (false, negb (d =? 0))
      else Ok (false, false)
  | None => Ok (false, false)
  end.

Section Load.
Context (gzip : bool) (fit_base : Z) (ram : Z -> list Z).

(** The pointer returned with the value of [*lenp], and what was stored where.
    The outer [None] is the early [return NULL], which leaves [*lenp] alone.  The
    destination is memory apart from the tree: a load address inside the tree is not
    modelled. *)
Definition fit_load_image_inner (fdt : list Z) (image : list Z) (out_max : Z) (dst_override : option Z)
    : outcome (option (option fit_ptr * Z) * option (Z * list Z)) :=
  let! off := fdt_find_node_offset fdt (-1) image in
  if 0 <? off then
    let! (data, len) := fdt_getprop fdt off str_data in
    let! load := fdt_getprop_address fdt off str_load in
    let! entry := fdt_getprop_address fdt off str_entry in
    let load := default load dst_override in
    let entry := match dst_override with Some _ => 0 | None => entry end in
    match data with
    | None => Ok (Some (None, len), None)
    | Some data =>
        let! (is_gzip, is_unknown_comp) := fit_compression fdt off in
        if negb (load =? 0) && negb (fit_base + data =? load) then
          if is_gzip : bool then
            if gzip then
              let! (rc, buf, out_len) :=
                wolfBoot_gunzip (Some (slice fdt data len)) (u32 len) (Some (ram load)) out_max in
              if negb (rc =? 0) then Ok (None, Some (load, buf)) else
              Ok (Some (Some (FitAddr (if negb (entry =? 0) then entry else load)), i32 out_len),
                  Some (load, buf))
            else Ok (None, None)
          else if is_unknown_comp : bool then Ok (None, None)
          else if (len <? 0) || (out_max <? u32 len) then Ok (None, None)
          else
            let! buf := blit (ram load) 0 (slice fdt data len) in
            Ok (Some (Some (FitAddr (if negb (entry =? 0) then entry else load)), len), Some (load, buf))
        else if is_gzip || is_unknown_comp then Ok (None, None)
        else Ok (Some (Some (FitData data), len), None)
    end
  else Ok (Some (None, 0), None).

Definition WOLFBOOT_FIT_MAX_DECOMP : Z := 256 * 1024 * 1024.

Definition fit_load_image_ex (fdt image : list Z) (out_max : Z) :=
  fit_load_image_inner fdt image out_max None.
Definition fit_load_image (fdt image : list Z) := fit_load_image_ex fdt image WOLFBOOT_FIT_MAX_DECOMP.
Definition fit_load_image_to (fdt image : list Z) (dst dst_max : Z) :=
  if dst =? 0 then Ok (None, None) else fit_load_image_inner fdt image dst_max (Some dst).

End Load.

(** ** Safety *)

Lemma strcmp_str_total l p s :
  0 <= p -> p + zlen s + 1 <= zlen l -> wp (strcmp_str l p s) (fun _ => True).
Proof.
  intros Hp Hf. pose proof (zlen_nonneg s). unfold strcmp_str.
  assert (zlen (s ++ [0]) = zlen s + 1) as Hl by (rewrite zlen_app; done).
  apply (wp_loop (fun i => 0 <= i <= zlen s) (fun i => Z.to_nat (zlen s - i))).
  - intros i Hi. rewrite !rd_ok by lia. cbn [obind].
    destruct (Z.eqb_spec (at_ (s ++ [0]) i) 0) as [E|E]; rewrite ?andb_false_r; [done|].
    case_if; [|done]. case_if; [done|]. cbn.
    assert (i <> zlen s) by (intros ->; apply E; rewrite at_app_r by lia; by rewrite Z.sub_diag). lia.
  - lia.
  - unfold zlen. lia.
Qed.

Section FitSafe.
Context (fdt : list Z) (E : editable fdt).

(** A value ends in the structure block, and its name is beyond. *)
Lemma getprop_editable o name :
  o < 2 ^ 31 - 8 ->
  wp (fdt_getprop fdt o name) (fun '(p, n) => match p with
    | Some p => 0 <= n /\ 0 <= p /\ p + n + zlen name + 1 <= total_ fdt
    | None => n < 0
    end).
Proof.
  intros Ho. pose proof (ed_ranges fdt E). unfold fdt_getprop. apply wp_bind.
  eapply wp_mono; [apply get_property_spec; [apply E|done]|].
  intros [[[P|] l] po]; [|done]. intros (Hpo & -> & -> & Hm & (e & Ht) & Hst).
  destruct (prop_place fdt po e E Ht Hm) as (P1 & P2 & P3 & P4 & P5). destruct Hst as (S1 & S2 & _).
  unfold fdt_version. rewrite hdr_ok by done. cbn [obind]. rewrite be32_ok by lia. cbn [obind].
  pose proof (ed_ver _ E). rewrite (proj2 (Z.ltb_ge (ver_ fdt) 0x10)) by lia. cbn. lia.
Qed.

Lemma getprop_address_total o name :
  o < 2 ^ 31 - 8 -> wp (fdt_getprop_address fdt o name) (fun _ => True).
Proof.
  intros Ho. pose proof (ed_ranges fdt E). pose proof (zlen_nonneg name). unfold fdt_getprop_address. apply wp_bind.
  eapply wp_mono; [by apply getprop_editable|]. intros [[p|] n]; [|done]. intros (H1 & H2 & H3).
  case_if; [unfold be64; rewrite !be32_ok by lia; done|]. case_if; [rewrite be32_ok by lia; done|done].
Qed.

Lemma compression_total o : o < 2 ^ 31 - 8 -> exists b, fit_compression fdt o = Ok b.
Proof.
  intros Ho. pose proof (ed_ranges fdt E).
  assert (wp (fit_compression fdt o) (fun _ => True)) as Hw.
  { unfold fit_compression. apply wp_bind. eapply wp_mono; [by apply (getprop_editable o str_compression)|].
    intros [[p|] n]; [|done]. change (zlen str_compression) with 11. intros (H1 & H2 & H3). case_if; [|done].
    apply wp_bind. eapply wp_mono; [apply strcmp_str_total; [done|change (zlen str_gzip) with 4; lia]|].
    intros d _. case_if; [done|]. apply wp_bind.
    eapply wp_mono; [apply strcmp_str_total; [done|change (zlen str_none) with 4; lia]|]. done. }
  apply wp_inv in Hw as (b & -> & _). eauto.
Qed.

Context (gzip : bool) (fit_base : Z) (ram : Z -> list Z) (image : list Z) (out_max : Z).
Context (Hram : forall a, a <> 0 -> out_max <= zlen (ram a) /\ bytes (ram a)) (Hmax : 0 <= out_max < 2 ^ 31).

(** What was stored at [a]: at most [n] bytes, at the start of the memory there. *)
Definition stored_ok (a : Z) (buf : list Z) (n : Z) : Prop :=
  a <> 0 /\ 0 <= n <= out_max /\ zlen buf = zlen (ram a) /\
  forall i, n <= i -> at_ buf i = at_ (ram a) i.

(** The image was given in place, or copied or decompressed to a destination. *)
Definition loaded (r : option (option fit_ptr * Z) * option (Z * list Z)) : Prop :=
  match r with
  | (Some (Some (FitData p), n), st) =>
      st = None /\ 0 <= p /\ 0 <= n /\ p + n <= total_ fdt /\
      exists off, fdt_find_node_offset fdt (-1) image = Ok off /\ fit_compression fdt off = Ok (false, false)
  | (Some (Some (FitAddr _), n), st) => exists a buf, st = Some (a, buf) /\ stored_ok a buf n
  | (Some (None, _), st) => st = None
  | (None, st) => match st with None => True | Some (a, buf) => exists n, stored_ok a buf n end
  end.

Lemma fit_load_total dst : wp (fit_load_image_inner gzip fit_base ram fdt image out_max dst) loaded.
Proof.
  pose proof (ed_ranges fdt E) as HR. unfold fit_load_image_inner.
  destruct (wp_inv _ _ (find_node_offset_spec fdt (ed_read _ E) (-1) image ltac:(lia))) as (off & Eo & Ho).
  rewrite Eo. cbn [obind]. destruct (Z.ltb_spec 0 off) as [Hpos|]; [|done].
  assert (off < 2 ^ 31 - 8) as Hoff.
  { destruct Ho as [?|(_ & e & Ht)]; [lia|]. pose proof (tag_at_next fdt (ed_read _ E) _ _ _ Ht). lia. }
  destruct (wp_inv _ _ (getprop_editable off str_data Hoff)) as ([data len] & -> & Hd). cbn [obind].
  destruct (wp_inv _ _ (getprop_address_total off str_load Hoff)) as (load0 & -> & _). cbn [obind].
  destruct (wp_inv _ _ (getprop_address_total off str_entry Hoff)) as (entry & -> & _). cbn [obind].
  cbv zeta. set (load := default load0 dst). clearbody load.
  destruct data as [data|]; [|done]. destruct Hd as (Hl0 & Hd0 & Hdt). change (zlen str_data) with 4 in Hdt.
  destruct (compression_total off Hoff) as ([is_gzip is_unk] & Ec). rewrite Ec. cbn [obind].
  assert (zlen (slice fdt data len) = len) as Hsl by (apply slice_length; lia).
  assert (bytes (slice fdt data len)) as Hsb by (apply slice_bytes, E).
  destruct (negb (load =? 0) && _) eqn:Eload.
  - apply andb_true_iff in Eload as [Hl%negb_true_iff%Z.eqb_neq _].
    destruct (Hram load Hl) as [Hcap Hrb].
    destruct is_gzip; [destruct gzip; [|done]|].
    + rewrite (u32_small len) by lia.
      destruct (gunzip_total (slice fdt data len) (ram load) len out_max Hsb Hrb ltac:(lia) ltac:(lia)
        ltac:(lia) ltac:(lia)) as ([[rc buf] n] & -> & Hp). cbn [obind].
      destruct Hp as (P1 & P2 & P3 & P4 & P5 & _).
      destruct (Z.eqb_spec rc 0); cbn.
      * exists load, buf. split; [done|]. rewrite i32_small by lia. done.
      * exists n. done.
    + destruct is_unk; [done|]. rewrite (u32_small len) by lia.
      destruct (Z.ltb_spec len 0); [done|]. destruct (Z.ltb_spec out_max len); [done|]. cbn [orb].
      rewrite blit_put by lia. cbn. exists load, (put (ram load) 0 (slice fdt data len)). split; [done|].
      split; [done|]. split; [lia|]. split; [apply zlen_put; lia|].
      intros i Hi. apply at_put_out; lia.
  - destruct is_gzip, is_unk; try done. cbn. split; [done|]. split; [lia|]. split; [lia|]. split; [lia|]. eauto.
Qed.

(** C20: loading a sub-image of a FIT is bounded and fails closed.  On an
    editable tree, for any image name, [fit_load_image_ex] and
    [fit_load_image_to] return; whatever the tree says they store at most
    [out_max] bytes, at the start of the destination; a pointer into the tree is
    returned only for an image that declares no compression, and its bytes lie
    inside the tree; any other pointer comes with an image stored whole. *)
Theorem fit_load_safe dst :
  wp (fit_load_image_ex gzip fit_base ram fdt image out_max) loaded /\
  wp (fit_load_image_to gzip fit_base ram fdt image dst out_max) loaded.
Proof.
  split; [apply fit_load_total|]. unfold fit_load_image_to. destruct (dst =? 0); [done|apply fit_load_total].
Qed.
End FitSafe.

(** ** Witness *)

Module ExampleFit.
Import ExampleFdt.

Definition set (fdt : list Z) (off : Z) (name val : list Z) : list Z :=
  match fdt_setprop fdt off name val with Ok (_, f) => f | _ => [] end.

(** The node "ab" is an image with data, to be copied to address 0x1000. *)
Definition tree : list Z :=
  set (set (blob_at (56 + zlen strct) 120) 24 str_data [10; 20; 30]) 24 str_load [0; 0; 16; 0].

Lemma tree_editable : editable tree.
Proof.
  constructor; [constructor|..]; [vm_compute; repeat constructor; discriminate|..];
    vm_compute; try split; (discriminate || reflexivity).
Qed.

Definition ram0 (a : Z) : list Z := replicate 16 255.

Lemma ram0_ok a : a <> 0 -> 16 <= zlen (ram0 a) /\ bytes (ram0 a).
Proof. intros _. split; [vm_compute; discriminate|]. repeat constructor; discriminate. Qed.

End ExampleFit.
Import ExampleFit.

Lemma fit_load_safe_witness :
  fit_load_image_ex true 0x8000 ram0 tree [97; 98] 16 =
    Ok (Some (Some (FitAddr 0x1000), 3), Some (0x1000, [10; 20; 30] ++ replicate 13 255)) /\
  loaded tree ram0 [97; 98] 16
    (Some (Some (FitAddr 0x1000), 3), Some (0x1000, [10; 20; 30] ++ replicate 13 255)).
Proof.
  assert (fit_load_image_ex true 0x8000 ram0 tree [97; 98] 16 =
    Ok (Some (Some (FitAddr 0x1000), 3), Some (0x1000, [10; 20; 30] ++ replicate 13 255))) as Hr
    by (vm_compute; reflexivity).
  split; [exact Hr|]. assert (0 <= 16 < 2 ^ 31) as Hm by lia.
  pose proof (proj1 (fit_load_safe tree tree_editable true 0x8000 ram0 [97; 98] 16 ram0_ok Hm 0)) as Hw.
  rewrite Hr in Hw. exact Hw.
Defined.
