(* ===== verification/Pci.v ===== *)
(** * PCI enumeration ([src/pci.c])

    The configuration-space accessors, the sizing and placement of the base
    address registers, the programming of bridges and the recursive scan of the
    buses.  The registers behind the accesses belong to devices: they are the
    class [pci_platform], a state with the four accesses of [x86/common.h], of
    which nothing is assumed.  A build uses ECAM or the two I/O ports; both are
    modelled.

    The state [pstate] is the state of the devices, the [struct pci_enum_info]
    of the scan, and [trace], the accesses to configuration space so far with the
    values read and written.  Every access of the enumeration goes through
    [cfg_read32] and its kin, which perform it and note it; nothing in the model
    reads the trace. *)

From Stdlib Require Import ZArith Lia.
From stdpp Require Import prelude.
From S2P Require Import Prelude.

Local Open Scope Z_scope.

(** ** The platform *)

(** [mmio_read32], [mmio_write32], [io_read32] and [io_write32] of the target,
    and the constants of its build. *)
Class pci_platform := {
  hw : Type;
  mmio_read32 : Z -> hw -> Z * hw;
  mmio_write32 : Z -> Z -> hw -> hw;
  io_read32 : Z -> hw -> Z * hw;
  io_write32 : Z -> Z -> hw -> hw;
  PCI_USE_ECAM : bool;
  PCI_ECAM_BASE : Z;
  WOLFBOOT_TGL : bool;
  PCI_MMIO32_BASE : Z;
  PCI_MMIO32_LENGTH : Z;
  PCI_MMIO32_PREFETCH_BASE : Z;
  PCI_MMIO32_PREFETCH_LENGTH : Z;
  PCI_IO32_BASE : Z;
  PCI_IO32_LIMIT : Z }.

Definition PCI_ENUM_MAX_DEV : Z := 32.
Definition PCI_ENUM_MAX_FUN : Z := 8.
Definition PCI_ENUM_MAX_BARS : Z := 6.
Definition ONE_MB : Z := 1024 * 1024.
Definition FOUR_KB : Z := 4 * 1024.

Definition PCI_VENDOR_ID_OFFSET : Z := 0x00.
Definition PCI_COMMAND_OFFSET : Z := 0x04.
Definition PCI_HEADER_TYPE_OFFSET : Z := 0x0E.
Definition PCI_BAR0_OFFSET : Z := 0x10.
Definition PCI_PRIMARY_BUS : Z := 0x18.
Definition PCI_SECONDARY_BUS : Z := 0x19.
Definition PCI_SUB_SEC_BUS : Z := 0x1a.
Definition PCI_PREFETCH_BASE_OFF : Z := 0x24.
Definition PCI_PREFETCH_LIMIT_OFF : Z := 0x26.
Definition PCI_MMIO_BASE_OFF : Z := 0x20.
Definition PCI_MMIO_LIMIT_OFF : Z := 0x22.
Definition PCI_IO_BASE_OFF : Z := 0x1C.
Definition PCI_IO_LIMIT_OFF : Z := 0x1D.
Definition PCI_HEADER_TYPE_MULTIFUNC_MASK : Z := 0x80.
Definition PCI_HEADER_TYPE_TYPE_MASK : Z := 0x7F.
Definition PCI_HEADER_TYPE_DEVICE : Z := 0x0.
Definition PCI_COMMAND_BUS_MASTER : Z := 4.
Definition PCI_COMMAND_MEM_SPACE : Z := 2.
Definition PCI_COMMAND_IO_SPACE : Z := 1.
Definition CAPID0_A_0_0_0_PCI : Z := 0xE4.
Definition DEVICE_ENABLE : Z := 0x54.
Definition DTT_DEVICE_DISABLE : Z := 2 ^ 15.
Definition ALL_ONES : Z := 0xffffffff.

(** [~x] of a [uint32_t]. *)
Definition not32 (x : Z) : Z := u32 (Z.lnot x).

(** [struct pci_enum_info]. *)
Record pci_enum_info := MkInfo {
  mem : Z; mem_limit : Z;
  io : Z;
  mem_pf : Z; mem_pf_limit : Z;
  curr_bus_number : Z }.

(** ** Alignment *)

Definition align_up (address alignment : Z) : Z :=
  Z.land (u32 (address + alignment - 1)) (not32 (u32 (alignment - 1))).

Definition align_down (address alignment : Z) : Z :=
  Z.land address (not32 (u32 (alignment - 1))).

(** [None] is the return value -1. *)
Definition pci_align_check_up (address alignment limit : Z) : option Z :=
  let a := align_up address alignment in
  if (a <? address) || (limit <=? a) then None else Some a.

(** The [uintptr_t] of the target is 64 bits wide; the mask is 32 bits wide. *)
Definition pci_enum_next_aligned32 (address align limit : Z) : option Z :=
  let align := u32 (align - 1) in
  let addr := Z.land (u64 (address + align)) (not32 align) in
  if ALL_ONES <? addr then None
  else if addr <? address then None
  else if limit <=? addr then None
  else Some addr.

(** ** Configuration space *)

Section Access.
Context {P : pci_platform}.

(** [*aligned] and the address with its two low bits cleared. *)
Definition pci_align32_address (addr : Z) : Z * bool :=
  (Z.land addr (not32 3), Z.land addr 3 =? 0).

Definition pci_config_ecam_make_address (bus dev func off : Z) : Z :=
  u32 (PCI_ECAM_BASE +
       Z.lor (Z.lor (Z.lor (Z.shiftl (Z.land bus 0xff) 20)
                           (Z.shiftl (Z.land dev 0x1f) 15))
                    (Z.shiftl (Z.land func 0x07) 12))
             (Z.land off 0xfff)).

Definition pci_ecam_config_read32 (bus dev fun_ off : Z) (h : hw) : Z * hw :=
  let '(v, h) := mmio_read32 (pci_config_ecam_make_address bus dev fun_ off) h in
  (u32 v, h).

Definition pci_ecam_config_write32 (bus dev fun_ off value : Z) (h : hw) : hw :=
  mmio_write32 (pci_config_ecam_make_address bus dev fun_ off) value h.

Definition pci_ecam_config_read16 (bus dev fun_ off : Z) (h : hw) : Z * hw :=
  let '(addr, aligned32) :=
    pci_align32_address (pci_config_ecam_make_address bus dev fun_ off) in
  let '(data, h) := mmio_read32 addr h in
  let data := u32 data in
  (u16 (if aligned32 then Z.land data 0xffff else Z.shiftr data 16), h).

Definition pci_ecam_config_write16 (bus dev fun_ off value : Z) (h : hw) : hw :=
  let '(addr, aligned32) :=
    pci_align32_address (pci_config_ecam_make_address bus dev fun_ off) in
  let '(reg, h) := mmio_read32 addr h in
  let reg := u32 reg in
  mmio_write32 addr
    (if aligned32 then Z.lor (Z.land reg 0xffff0000) value
     else Z.lor (Z.land reg 0xffff) (u32 (Z.shiftl value 16))) h.

Definition PCI_IO_CONFIG_ADDR (bus dev fn off : Z) : Z :=
  u32 (Z.lor (Z.lor (Z.lor (Z.lor (Z.lor (Z.shiftl 1 31) (Z.shiftl bus 16))
                                  (Z.shiftl dev 11))
                           (Z.shiftl fn 8))
                    (Z.shiftl (Z.land off 0xF00) 16))
             (Z.land off 0xFF)).

Definition pci_io_config_read32 (bus dev func off : Z) (h : hw) : Z * hw :=
  let h := io_write32 0xcf8 (PCI_IO_CONFIG_ADDR bus dev func off) h in
  let '(data, h) := io_read32 0xcfc h in
  (u32 data, h).

Definition pci_io_config_write32 (bus dev func off val : Z) (h : hw) : hw :=
  let h := io_write32 0xcf8 (PCI_IO_CONFIG_ADDR bus dev func off) h in
  io_write32 0xcfc val h.

Definition pci_io_config_read16 (bus dev func off : Z) (h : hw) : Z * hw :=
  if negb (Z.land off 1 =? 0) then (0xffff, h)
  else
    let '(off_aligned, aligned32) := pci_align32_address off in
    let '(data, h) := pci_io_config_read32 bus dev func off_aligned h in
    (u16 (if aligned32 then Z.land data 0xffff else Z.shiftr data 16), h).

Definition pci_io_config_write16 (bus dev func off val : Z) (h : hw) : hw :=
  if negb (Z.land off 1 =? 0) then h
  else
    let '(off_aligned, aligned32) := pci_align32_address off in
    let '(reg, h) := pci_io_config_read32 bus dev func off_aligned h in
    pci_io_config_write32 bus dev func off_aligned
      (if aligned32 then Z.lor (Z.land reg 0xffff0000) val
       else Z.lor (Z.land reg 0xffff) (u32 (Z.shiftl val 16))) h.

Definition pci_config_read32 (bus dev fun_ off : Z) (h : hw) : Z * hw :=
  if PCI_USE_ECAM then pci_ecam_config_read32 bus dev fun_ off h
  else pci_io_config_read32 bus dev fun_ off h.

Definition pci_config_write32 (bus dev fun_ off value : Z) (h : hw) : hw :=
  if PCI_USE_ECAM then pci_ecam_config_write32 bus dev fun_ off value h
  else pci_io_config_write32 bus dev fun_ off value h.

Definition pci_config_read16 (bus dev fun_ off : Z) (h : hw) : Z * hw :=
  if PCI_USE_ECAM then pci_ecam_config_read16 bus dev fun_ off h
  else pci_io_config_read16 bus dev fun_ off h.

Definition pci_config_write16 (bus dev fun_ off value : Z) (h : hw) : hw :=
  if PCI_USE_ECAM then pci_ecam_config_write16 bus dev fun_ off value h
  else pci_io_config_write16 bus dev fun_ off value h.

Definition pci_config_write8 (bus dev fun_ off value : Z) (h : hw) : hw :=
  let off_aligned := align_down off 4 in
  let '(reg, h) := pci_config_read32 bus dev fun_ off_aligned h in
  let shift := Z.land off 3 * 8 in
  let mask := u32 (Z.shiftl 0xff shift) in
  let reg := Z.land reg (not32 mask) in
  let reg := Z.lor reg (u32 (Z.shiftl value shift)) in
  pci_config_write32 bus dev fun_ off_aligned reg h.

Definition pci_config_read8 (bus dev fun_ off : Z) (h : hw) : Z * hw :=
  let off_aligned := align_down off 4 in
  let '(reg, h) := pci_config_read32 bus dev fun_ off_aligned h in
  let shift := Z.land off 3 * 8 in
  let mask := u32 (Z.shiftl 0xff shift) in
  (u8 (Z.shiftr (Z.land reg mask) shift), h).

End Access.

(** ** Base address registers *)

(** The three cursors of [struct pci_enum_info]. *)
Inductive pool := Mem | MemPf | Io.

Definition base (p : pool) (i : pci_enum_info) : Z :=
  match p with Mem => mem i | MemPf => mem_pf i | Io => io i end.

(** [*base = v]. *)
Definition set_base (p : pool) (v : Z) (i : pci_enum_info) : pci_enum_info :=
  let '(MkInfo m ml o pf pfl b) := i in
  match p with
  | Mem => MkInfo v ml o pf pfl b
  | MemPf => MkInfo m ml o v pfl b
  | Io => MkInfo m ml v pf pfl b
  end.

Definition set_bus (b : Z) (i : pci_enum_info) : pci_enum_info :=
  MkInfo (mem i) (mem_limit i) (io i) (mem_pf i) (mem_pf_limit i) b.

(** An access to a register of a function: its width in bits, bus, device,
    function, offset and the value. *)
Inductive access :=
| Rd (width bus dev fun_ off value : Z)
| Wr (width bus dev fun_ off value : Z).

Section Enum.
Context {P : pci_platform}.

Record pstate := MkP { dev_state : hw; info : pci_enum_info; trace : list access }.

Definition on_info (f : pci_enum_info -> pci_enum_info) (s : pstate) : pstate :=
  MkP (dev_state s) (f (info s)) (trace s).

(** The accesses, performed and noted. *)
Definition cfg_read32 (bus dev fun_ off : Z) (s : pstate) : Z * pstate :=
  let '(v, h) := pci_config_read32 bus dev fun_ off (dev_state s) in
  (v, MkP h (info s) (trace s ++ [Rd 32 bus dev fun_ off v])).
Definition cfg_read16 (bus dev fun_ off : Z) (s : pstate) : Z * pstate :=
  let '(v, h) := pci_config_read16 bus dev fun_ off (dev_state s) in
  (v, MkP h (info s) (trace s ++ [Rd 16 bus dev fun_ off v])).
Definition cfg_write32 (bus dev fun_ off v : Z) (s : pstate) : pstate :=
  MkP (pci_config_write32 bus dev fun_ off v (dev_state s)) (info s)
    (trace s ++ [Wr 32 bus dev fun_ off v]).
Definition cfg_write16 (bus dev fun_ off v : Z) (s : pstate) : pstate :=
  MkP (pci_config_write16 bus dev fun_ off v (dev_state s)) (info s)
    (trace s ++ [Wr 16 bus dev fun_ off v]).
Definition cfg_write8 (bus dev fun_ off v : Z) (s : pstate) : pstate :=
  MkP (pci_config_write8 bus dev fun_ off v (dev_state s)) (info s)
    (trace s ++ [Wr 8 bus dev fun_ off v]).

(** The limit that [pci_program_bar] checks for each cursor. *)
Definition limit (p : pool) (i : pci_enum_info) : Z :=
  match p with Mem => mem_limit i | MemPf => mem_pf_limit i | Io => PCI_IO32_LIMIT end.

Definition pci_enum_is_64bit (value : Z) : bool :=
  u8 (Z.shiftr (Z.land value 6) 1) =? 2.
Definition pci_enum_is_prefetch (value : Z) : bool := negb (Z.land value 8 =? 0).
Definition pci_enum_is_mmio (value : Z) : bool := Z.land value 1 =? 0.

Definition PCI_ENUM_MM_BAR_MASK : Z := not32 0xf.
Definition PCI_ENUM_IO_BAR_MASK : Z := not32 0x3.

(** What the sizing of a register found: the values to restore, whether the
    register is the lower half of a 64-bit one, and the pool with the mask of
    writable address bits, or nothing when the register is skipped. *)
Record probe := MkProbe {
  orig_bar : Z; orig_bar2 : Z; is_64bit : bool; wants : option (pool * Z) }.

(** [pci_program_bar] up to the test of [bar_align]. *)
Definition pci_probe_bar (bus dev fun_ bar_off : Z) (s : pstate) : probe * pstate :=
  let '(orig, s) := cfg_read32 bus dev fun_ bar_off s in
  let s := cfg_write32 bus dev fun_ bar_off ALL_ONES s in
  let '(bar_value, s) := cfg_read32 bus dev fun_ bar_off s in
  if bar_value =? 0 then (MkProbe orig 0 false None, s)
  else if pci_enum_is_mmio bar_value then
    let p := if pci_enum_is_prefetch bar_value then MemPf else Mem in
    if pci_enum_is_64bit bar_value then
      let '(orig2, s) := cfg_read32 bus dev fun_ (u8 (bar_off + 4)) s in
      let s := cfg_write32 bus dev fun_ bar_off ALL_ONES s in
      let s := cfg_write32 bus dev fun_ (u8 (bar_off + 4)) ALL_ONES s in
      let '(bar_value, s) := cfg_read32 bus dev fun_ bar_off s in
      let '(reg, s) := cfg_read32 bus dev fun_ (u8 (bar_off + 4)) s in
      if negb (reg =? ALL_ONES) then (MkProbe orig orig2 true None, s)
      else (MkProbe orig orig2 true
              (Some (p, Z.land bar_value PCI_ENUM_MM_BAR_MASK)), s)
    else (MkProbe orig 0 false (Some (p, Z.land bar_value PCI_ENUM_MM_BAR_MASK)), s)
  else
    let bar_align := Z.land bar_value PCI_ENUM_IO_BAR_MASK in
    let bar_align := if Z.land bar_align 0xffff0000 =? 0
                     then Z.lor bar_align 0xffff0000 else bar_align in
    (MkProbe orig 0 false (Some (Io, bar_align)), s).

(** The label [restore_bar]. *)
Definition restore_bar (bus dev fun_ bar_off : Z) (pr : probe) (s : pstate) : pstate :=
  let s := if is_64bit pr
           then cfg_write32 bus dev fun_ (u8 (bar_off + 4)) (orig_bar2 pr) s
           else s in
  cfg_write32 bus dev fun_ bar_off (orig_bar pr) s.

(** The address of a region of [length] bytes: the cursor rounded up, when the
    region ends below the limit. *)
Definition pci_fit_bar (cursor length lim : Z) : option Z :=
  let align := if length <? 0x1000 then 0x1000 else length in
  match pci_enum_next_aligned32 cursor align lim with
  | None => None
  | Some bar_value => if lim <? bar_value + length then None else Some bar_value
  end.

(** The return value, [*is_64bit] and the state. *)
Definition pci_program_bar (bus dev fun_ bar_idx : Z) (s : pstate) : Z * bool * pstate :=
  if PCI_ENUM_MAX_BARS <=? bar_idx then (-1, false, s)
  else
    let bar_off := u8 (PCI_BAR0_OFFSET + bar_idx * 4) in
    let '(pr, s) := pci_probe_bar bus dev fun_ bar_off s in
    match wants pr with
    | None => (0, is_64bit pr, restore_bar bus dev fun_ bar_off pr s)
    | Some (p, bar_align) =>
        if bar_align =? 0 then (0, is_64bit pr, restore_bar bus dev fun_ bar_off pr s)
        else
          let length := u32 (not32 bar_align + 1) in
          match pci_fit_bar (base p (info s)) length (limit p (info s)) with
          | None => (-1, is_64bit pr, restore_bar bus dev fun_ bar_off pr s)
          | Some bar_value =>
              let s := cfg_write32 bus dev fun_ bar_off bar_value s in
              let s := if is_64bit pr
                       then cfg_write32 bus dev fun_ (u8 (bar_off + 4)) 0 s
                       else s in
              let s := on_info (set_base p (u32 (bar_value + length))) s in
              (0, is_64bit pr, s)
          end
    end.

(** One turn of the loop of [pci_program_bars]. *)
Definition bars_body (bus dev fun_ : Z) (st : Z * pstate)
    : outcome (Z * pstate + pstate) :=
  let '(bar_idx, s) := st in
  if PCI_ENUM_MAX_BARS <=? bar_idx then Ok (inr s)
  else
    let '(ret, is64bit, s) := pci_program_bar bus dev fun_ (u8 bar_idx) s in
    if negb (ret =? 0) then Ok (inr s)
    else Ok (inl (bar_idx + (if is64bit then 2 else 1), s)).

(** It always returns 0. *)
Definition pci_program_bars (bus dev fun_ : Z) (s : pstate) : outcome pstate :=
  let '(orig_cmd, s) := cfg_read16 bus dev fun_ PCI_COMMAND_OFFSET s in
  let s := cfg_write16 bus dev fun_ PCI_COMMAND_OFFSET 0 s in
  let! s := loop 8 (bars_body bus dev fun_) (0, s) in
  Ok (cfg_write16 bus dev fun_ PCI_COMMAND_OFFSET orig_cmd s).

(** ** Bridges *)

(** The label [err]: [s0] is the state in which the function was entered. *)
Definition bridge_err (bus dev fun_ orig_cmd : Z) (s0 s : pstate) : Z * pstate :=
  let s := MkP (dev_state s)
    (MkInfo (mem (info s0)) (mem_limit (info s)) (io (info s0)) (mem_pf (info s0))
       (mem_pf_limit (info s)) (curr_bus_number (info s0))) (trace s) in
  let s := cfg_write8 bus dev fun_ PCI_PRIMARY_BUS 0 s in
  let s := cfg_write8 bus dev fun_ PCI_SECONDARY_BUS 0 s in
  let s := cfg_write8 bus dev fun_ PCI_SUB_SEC_BUS 0 s in
  (-1, cfg_write16 bus dev fun_ PCI_COMMAND_OFFSET orig_cmd s).

(** [pci_align_check_up(info->x, a, lim, &info->x)] for a cursor [x]. *)
Definition align_cursor (p : pool) (a lim : Z) (s : pstate) : option pstate :=
  match pci_align_check_up (base p (info s)) a lim with
  | None => None
  | Some v => Some (on_info (set_base p v) s)
  end.

(** The three alignments before the bus behind the bridge is scanned; with
    [false] the state at the first that fails. *)
Definition bridge_open (s : pstate) : bool * pstate :=
  match align_cursor MemPf ONE_MB (mem_pf_limit (info s)) s with
  | None => (false, s)
  | Some s =>
      match align_cursor Mem ONE_MB (mem_limit (info s)) s with
      | None => (false, s)
      | Some s =>
          match align_cursor Io FOUR_KB ALL_ONES s with
          | None => (false, s)
          | Some s => (true, s)
          end
      end
  end.

(** The memory windows, prefetchable or not: the new command word and state, or
    [None] when the end of the window cannot be aligned. *)
Definition bridge_mem_window (bus dev fun_ : Z) (p : pool) (base_off limit_off lim start : Z)
    (orig_cmd : Z) (s : pstate) : option (Z * pstate) :=
  if negb (start =? base p (info s)) then
    match align_cursor p ONE_MB lim s with
    | None => None
    | Some s =>
        let s := cfg_write16 bus dev fun_ base_off
                          (u16 (Z.shiftr start 16)) s in
        let s := cfg_write16 bus dev fun_ limit_off
                          (u16 (Z.shiftr (u32 (base p (info s) - 1)) 16)) s in
        Some (Z.lor orig_cmd PCI_COMMAND_MEM_SPACE, s)
    end
  else
    let s := cfg_write16 bus dev fun_ base_off 0xffff s in
    Some (orig_cmd, cfg_write16 bus dev fun_ limit_off 0 s).

Definition bridge_io_window (bus dev fun_ start orig_cmd : Z) (s : pstate)
    : option (Z * pstate) :=
  if negb (start =? io (info s)) then
    match align_cursor Io FOUR_KB ALL_ONES s with
    | None => None
    | Some s =>
        let s := cfg_write8 bus dev fun_ PCI_IO_BASE_OFF
                          (u8 (Z.shiftr start 8)) s in
        let s := cfg_write8 bus dev fun_ PCI_IO_LIMIT_OFF
                          (u8 (Z.shiftr (u32 (io (info s) - 1)) 8)) s in
        Some (Z.lor orig_cmd PCI_COMMAND_IO_SPACE, s)
    end
  else
    let s := cfg_write8 bus dev fun_ PCI_IO_BASE_OFF 0xff s in
    Some (orig_cmd, cfg_write8 bus dev fun_ PCI_IO_LIMIT_OFF 0 s).

(** The end of [pci_program_bridge], after the scan: [s0] is the state at entry,
    [s1] that in which the scan behind the bridge was started. *)
Definition bridge_close (bus dev fun_ orig_cmd : Z) (s0 s1 s : pstate) : Z * pstate :=
  let s := cfg_write8 bus dev fun_ PCI_SUB_SEC_BUS
                    (curr_bus_number (info s)) s in
  match bridge_mem_window bus dev fun_ MemPf PCI_PREFETCH_BASE_OFF PCI_PREFETCH_LIMIT_OFF
          (mem_pf_limit (info s)) (mem_pf (info s1)) orig_cmd s with
  | None =>
      bridge_err bus dev fun_ orig_cmd s0 s
  | Some (cmd1, s) =>
      match bridge_mem_window bus dev fun_ Mem PCI_MMIO_BASE_OFF PCI_MMIO_LIMIT_OFF
              (mem_limit (info s)) (mem (info s1)) cmd1 s with
      | None => bridge_err bus dev fun_ cmd1 s0 s
      | Some (cmd2, s) =>
          match bridge_io_window bus dev fun_ (io (info s1)) cmd2 s with
          | None => bridge_err bus dev fun_ cmd2 s0 s
          | Some (cmd3, s) =>
              let s := cfg_write16 bus dev fun_ PCI_COMMAND_OFFSET
                                (Z.lor cmd3 PCI_COMMAND_BUS_MASTER) s in
              (0, s)
          end
      end
  end.

(** [enum] stands for [pci_enum_bus], which this function calls back. *)
Definition pci_program_bridge (enum : Z -> pstate -> outcome (Z * pstate))
    (bus dev fun_ : Z) (s0 : pstate) : outcome (Z * pstate) :=
  let '(orig_cmd, s) := cfg_read16 bus dev fun_ PCI_COMMAND_OFFSET s0 in
  let s := cfg_write16 bus dev fun_ PCI_COMMAND_OFFSET 0 s in
  let s := on_info (fun i => set_bus (u8 (curr_bus_number i + 1)) i) s in
  let s := cfg_write8 bus dev fun_ PCI_PRIMARY_BUS bus s in
  let s := cfg_write8 bus dev fun_ PCI_SECONDARY_BUS
                    (curr_bus_number (info s)) s in
  let s := cfg_write8 bus dev fun_ PCI_SUB_SEC_BUS 0xff s in
  let '(ok, s1) := bridge_open s in
  if ok then
    let! (ret, s) := enum (curr_bus_number (info s1)) s1 in
    if negb (ret =? 0) then Ok (bridge_err bus dev fun_ orig_cmd s0 s)
    else Ok (bridge_close bus dev fun_ orig_cmd s0 s1 s)
  else Ok (bridge_err bus dev fun_ orig_cmd s0 s1).

(** ** The scan *)

Definition pci_pre_enum_cb (bus dev fun_ : Z) : bool :=
  if WOLFBOOT_TGL then
    if negb (bus =? 0) then false
    else if (dev =? 0x1e) && ((fun_ =? 0) || (fun_ =? 1)) then true
    else (dev =? 31) && (fun_ =? 2)
  else false.

(** One turn of the loop over the functions of a device. *)
Definition fun_body (enum : Z -> pstate -> outcome (Z * pstate)) (bus dev : Z)
    (st : Z * pstate) : outcome (Z * pstate + pstate) :=
  let '(fun_, s) := st in
  if PCI_ENUM_MAX_FUN <=? fun_ then Ok (inr s)
  else if pci_pre_enum_cb bus dev fun_ then Ok (inl (fun_ + 1, s))
  else
    let '(vd_code, s) := cfg_read32 bus dev fun_ PCI_VENDOR_ID_OFFSET s in
    if vd_code =? ALL_ONES then Ok (inl (fun_ + 1, s))
    else
      let '(header_type, s) := cfg_read16 bus dev fun_ PCI_HEADER_TYPE_OFFSET s in
      let! s :=
        (if Z.land header_type PCI_HEADER_TYPE_TYPE_MASK =? PCI_HEADER_TYPE_DEVICE
         then pci_program_bars bus dev fun_ s
         else let! (_, s) := pci_program_bridge enum bus dev fun_ s in Ok s) in
      if (fun_ =? 0) && (Z.land header_type PCI_HEADER_TYPE_MULTIFUNC_MASK =? 0)
      then Ok (inr s)
      else Ok (inl (fun_ + 1, s)).

(** One turn of the loop over the devices of a bus. *)
Definition dev_body (enum : Z -> pstate -> outcome (Z * pstate)) (bus : Z)
    (st : Z * pstate) : outcome (Z * pstate + (Z * pstate)) :=
  let '(dev, s) := st in
  if PCI_ENUM_MAX_DEV <=? dev then Ok (inr (0, s))
  else
    let '(vd_code, s) := cfg_read32 bus dev 0 PCI_VENDOR_ID_OFFSET s in
    if vd_code =? ALL_ONES then Ok (inl (dev + 1, s))
    else
      let! s := loop 10 (fun_body enum bus dev) (0, s) in
      Ok (inl (dev + 1, s)).

(** The fuel bounds the nesting of bridges. *)
Fixpoint pci_enum_bus (fuel : nat) (bus : Z) (s : pstate) : outcome (Z * pstate) :=
  match fuel with
  | O => NoFuel
  | S n => loop 34 (dev_body (pci_enum_bus n) bus) (0, s)
  end.

(** It always returns 0. *)
Definition pci_pre_enum (s : pstate) : pstate :=
  let '(reg, s) := cfg_read32 0 0 0 CAPID0_A_0_0_0_PCI s in
  let reg := Z.land reg (not32 DTT_DEVICE_DISABLE) in
  let s := cfg_write32 0 0 0 CAPID0_A_0_0_0_PCI reg s in
  let '(reg, s) := cfg_read32 0 0 0 DEVICE_ENABLE s in
  let reg := Z.lor reg (Z.shiftl 1 7) in
  let s := cfg_write32 0 0 0 DEVICE_ENABLE reg s in
  let '(_, s) := cfg_read32 0 0 0 DEVICE_ENABLE s in
  s.

(** The [enum_info] that [pci_enum_do] starts with. *)
Definition enum_info0 : pci_enum_info :=
  MkInfo (u32 PCI_MMIO32_BASE)
    (u32 (u32 PCI_MMIO32_BASE + (PCI_MMIO32_LENGTH - 1)))
    (u32 PCI_IO32_BASE)
    (u32 PCI_MMIO32_PREFETCH_BASE)
    (u32 (u32 PCI_MMIO32_PREFETCH_BASE + (PCI_MMIO32_PREFETCH_LENGTH - 1))) 0.

Definition pci_enum_do (fuel : nat) (h : hw) : outcome (Z * pstate) :=
  pci_enum_bus fuel 0 (pci_pre_enum (MkP h enum_info0 [])).

End Enum.
