(* ===== verification/PciLayout.v ===== *)
(** * Layouts of PCI regions

    [place], the tree of what an enumeration leaves in the registers; [scan_log],
    the accesses to configuration space that leave such a tree; [laid], the
    relation between the cursors before, the tree, and the cursors after; what a
    layout guarantees; and the arithmetic of alignment.  PciSpec.v shows that the
    enumeration makes such accesses and produces such layouts. *)

From Stdlib Require Import ZArith Lia.
From stdpp Require Import prelude.
From S2P Require Import Prelude Pci.

Local Open Scope Z_scope.

#[export] Instance pool_eq_dec : EqDecision pool.
Proof. solve_decision. Defined.

(** ** Alignment *)

Lemma land_not32 x k : 0 <= k <= 32 ->
  Z.land x (not32 (2 ^ k - 1)) = x mod 2 ^ 32 - x mod 2 ^ 32 mod 2 ^ k.
Proof. apply land_round. Qed.

Lemma not32_range x : 0 <= not32 x < 2 ^ 32.
Proof. unfold not32, u32. apply Z.mod_pos_bound. lia. Qed.

Lemma land_not32_range x m : 0 <= x -> 0 <= Z.land x (not32 m) <= x.
Proof.
  intros Hx. pose proof (not32_range m) as Hm. split; [apply Z.land_nonneg; lia|].
  apply Z.ldiff_le; [lia|]. apply Z.bits_inj_0. intros n.
  rewrite Z.ldiff_spec, Z.land_spec. destruct (Z.testbit x n); by rewrite ?andb_false_r.
Qed.

Lemma mult_sub_mod a b : 0 < b -> (b | a - a mod b).
Proof. intros Hb. exists (a / b). pose proof (Z.div_mod a b). lia. Qed.

(** The checked alignment: the smallest multiple not below the address. *)
Lemma align_check_up_spec a k lim v : 0 <= k < 32 -> 0 <= a < 2 ^ 32 ->
  pci_align_check_up a (2 ^ k) lim = Some v ->
  a <= v < lim /\ (2 ^ k | v) /\ v < a + 2 ^ k.
Proof.
  intros Hk Ha. assert (0 < 2 ^ k < 2 ^ 32) as Hp
    by (split; [lia | apply Z.pow_lt_mono_r; lia]).
  unfold pci_align_check_up, align_up.
  rewrite (u32_small (2 ^ k - 1)), land_not32 by lia.
  case_if; [done|]. intros [= <-]. unfold u32 in *. rewrite Z.mod_mod in * by lia.
  split; [lia|]. split; [by apply mult_sub_mod; lia|].
  destruct (decide (a + 2 ^ k - 1 < 2 ^ 32)) as [Hs|Hs].
  - rewrite (Z.mod_small (a + 2 ^ k - 1)) in * by lia.
    pose proof (Z.mod_pos_bound (a + 2 ^ k - 1) (2 ^ k)). lia.
  - assert ((a + 2 ^ k - 1) mod 2 ^ 32 = a + 2 ^ k - 1 - 2 ^ 32) as E
      by (symmetry; apply Z.mod_unique with 1; lia).
    rewrite E in *. pose proof (Z.mod_pos_bound (a + 2 ^ k - 1 - 2 ^ 32) (2 ^ k)). lia.
Qed.

(** A region found for a register: above the cursor, below the limit, and on a
    multiple of its size when that is a power of two. *)
Lemma fit_bar_spec cursor len lim v : 0 <= cursor < 2 ^ 32 -> 0 < len < 2 ^ 32 ->
  pci_fit_bar cursor len lim = Some v ->
  cursor <= v /\ v + len <= lim /\
  (forall k, 0 <= k -> len = 2 ^ k -> (len | v)) /\ (len <= 4096 -> (4096 | v)).
Proof.
  intros Hc Hl. unfold pci_fit_bar, pci_enum_next_aligned32.
  set (al := if len <? 4096 then 4096 else len).
  assert (0 < al < 2 ^ 32) as Hal by (subst al; case_if; lia).
  rewrite (u32_small (al - 1)) by lia.
  do 4 (case_if; [done|]). intros [= <-]. split; [lia|]. split; [lia|].
  assert (forall k, 0 <= k <= 32 -> al = 2 ^ k ->
    (al | Z.land (u64 (cursor + (al - 1))) (not32 (al - 1)))) as Hdiv.
  { intros k Hk Ek. rewrite Ek at 3. rewrite land_not32, Ek by lia.
    apply mult_sub_mod. lia. }
  split.
  - intros k Hk Ek. assert (k < 32) as Hk32.
    { apply (Z.pow_lt_mono_r_iff 2); lia. }
    subst al. revert Hdiv. case_if; intros Hdiv.
    + assert (k < 12) by (apply (Z.pow_lt_mono_r_iff 2); lia).
      transitivity 4096; [|apply (Hdiv 12); lia].
      rewrite Ek. exists (2 ^ (12 - k)). rewrite <- Z.pow_add_r by lia.
      by replace (12 - k + k) with 12 by lia.
    + apply (Hdiv k); lia.
  - intros Hle. assert (al = 4096) as Ea by (subst al; case_if; lia).
    rewrite Ea in *. apply (Hdiv 12); lia.
Qed.

(** ** Layouts *)

(** What is left in the registers: [start, start + len) of a pool in the base
    address register at [off] of a function; a bridge with the numbers of its buses, the three
    windows [start, end) it forwards and what is behind it; or a bridge that was
    given up, with the windows that it keeps and what had been placed behind it. *)
Inductive place :=
| PBar (b d f off : Z) (p : pool) (start len : Z)
| PBridge (b d f sec sub : Z) (window : pool -> option (Z * Z)) (behind : list place)
| PFailed (b d f sec : Z) (left : list (pool * option (Z * Z))) (behind : list place).

(** The granularity of the windows of a bridge. *)
Definition gran (p : pool) : Z := match p with Io => FOUR_KB | _ => ONE_MB end.

(** A region of a size that is a power of two is on a multiple of it. *)
Definition natural (start len : Z) : Prop :=
  (forall k, 0 <= k -> len = 2 ^ k -> (len | start)) /\ (len <= 4096 -> (4096 | start)).

Section Laid.
Variable lim : pool -> Z.

Inductive laid : (pool -> Z) -> list place -> (pool -> Z) -> Prop :=
| laid_nil c c' : (forall p, c p = c' p) -> laid c [] c'
| laid_bar c b d f off p v len c1 l c' :
    c p <= v -> 0 < len -> v + len <= lim p -> natural v len ->
    (forall q, c1 q = if decide (q = p) then v + len else c q) ->
    laid c1 l c' -> laid c (PBar b d f off p v len :: l) c'
| laid_bridge c b d f sec sub c1 ch c2 c3 w l c' :
    (forall p, c p <= c1 p /\ (gran p | c1 p)) ->
    laid c1 ch c2 ->
    (forall p, c2 p <= c3 p /\
       (c1 p = c2 p /\ w p = None \/
        c1 p <> c2 p /\ w p = Some (c1 p, c3 p) /\ (gran p | c3 p) /\ c3 p <= lim p)) ->
    laid c3 l c' -> laid c (PBridge b d f sec sub w ch :: l) c'
| laid_failed c b d f sec left c1 ch c2 l c' :
    (forall p, c p <= c1 p) -> laid c1 ch c2 ->
    laid c l c' -> laid c (PFailed b d f sec left ch :: l) c'.

Lemma laid_ext c d l c' : (forall p, c p = d p) -> laid d l c' -> laid c l c'.
Proof.
  intros E H. revert c E. induction H as [d c' E'|d b0 d0 f0 off p v len c1 l c' H1 H2 H3 H4 E' H _
                            |d b0 d0 f0 sec sub c1 ch c2 c3 w l c' H1 Hch _ H3 H _
                            |d b0 d0 f0 sec left c1 ch c2 l c' H1 Hch _ H IH]; intros c E.
  - constructor. intros p. by rewrite E.
  - apply (laid_bar _ b0 d0 f0 off p v len c1); try done; [by rewrite E|]. intros q. by rewrite E.
  - apply (laid_bridge _ b0 d0 f0 sec sub c1 ch c2 c3); try done. intros p. by rewrite E.
  - apply (laid_failed _ b0 d0 f0 sec left c1 ch c2); try done; [|by apply IH]. intros p. by rewrite E.
Qed.

Lemma laid_app c l1 c1 l2 c2 : laid c l1 c1 -> laid c1 l2 c2 -> laid c (l1 ++ l2) c2.
Proof.
  intros H1 H2. induction H1; simpl.
  - by eapply laid_ext.
  - by eapply laid_bar; eauto.
  - by eapply laid_bridge; eauto.
  - by eapply laid_failed; eauto.
Qed.

Lemma laid_mono c l c' : laid c l c' -> forall p, c p <= c' p.
Proof.
  induction 1 as [c c' E|c b0 d0 f0 off p v len c1 l c' H1 H2 H3 H4 E H IH
                 |c b0 d0 f0 sec sub c1 ch c2 c3 w l c' H1 Hch IHch H3 H IH
                 |c b0 d0 f0 sec left c1 ch c2 l c' H1 Hch IHch H IH]; intros q.
  - by rewrite E.
  - specialize (IH q). rewrite E in IH. case_decide; subst; lia.
  - specialize (IH q). specialize (IHch q). pose proof (H1 q). pose proof (H3 q). lia.
  - apply IH.
Qed.

End Laid.

(** ** What a layout guarantees *)

(** The regions of a tree, in the order they were placed; those behind a bridge
    that was given up do not count. *)
Fixpoint regions (n : place) : list (pool * Z * Z) :=
  match n with
  | PBar _ _ _ _ p start len => [(p, start, start + len)]
  | PBridge _ _ _ _ _ _ behind => flat_map regions behind
  | PFailed _ _ _ _ _ _ => []
  end.

(** What a node occupies on its own bus: its region, or its windows. *)
Definition extents (n : place) : list (pool * Z * Z) :=
  match n with
  | PBar _ _ _ _ p start len => [(p, start, start + len)]
  | PBridge _ _ _ _ _ w _ =>
      omap (fun p => match w p with Some (a, b) => Some (p, a, b) | None => None end)
        [Mem; MemPf; Io]
  | PFailed _ _ _ _ _ _ => []
  end.

(** The buses of a tree: what was placed on each. *)
Fixpoint buses (n : place) : list (list place) :=
  match n with
  | PBridge _ _ _ _ _ _ behind => behind :: flat_map buses behind
  | _ => []
  end.

(** Intervals of the same pool do not meet: each ends before the later start. *)
Definition apart (l : list (pool * Z * Z)) : Prop :=
  forall i j p a b c d, (i < j)%nat -> l !! i = Some (p, a, b) -> l !! j = Some (p, c, d) ->
  b <= c.

(** All intervals of a list lie between two sets of cursors. *)
Definition between (c c' : pool -> Z) (l : list (pool * Z * Z)) : Prop :=
  Forall (fun '(p, a, b) => c p <= a /\ a < b /\ b <= c' p) l.

(** The windows of a bridge hold every region behind it, on the granularity of
    the registers. *)
Definition covers (n : place) : Prop :=
  match n with
  | PBridge _ _ _ _ _ w behind =>
      (forall p a b, w p = Some (a, b) -> (gran p | a) /\ (gran p | b) /\ a < b) /\
      Forall (fun '(p, a, b) => exists a' b', w p = Some (a', b') /\ a' <= a /\ b <= b')
        (flat_map regions behind)
  | _ => True
  end.

Lemma apart_app c1 c2 c3 l1 l2 : between c1 c2 l1 -> between c2 c3 l2 ->
  apart l1 -> apart l2 -> apart (l1 ++ l2).
Proof.
  intros B1 B2 A1 A2 i j p a b c d Hij Hi Hj.
  apply lookup_app_Some in Hi. apply lookup_app_Some in Hj.
  destruct Hi as [Hi|[Hi' Hi]], Hj as [Hj|[Hj' Hj]].
  - eauto.
  - eapply Forall_lookup in B1; [|exact Hi]. eapply Forall_lookup in B2; [|exact Hj].
    simpl in *. lia.
  - apply lookup_lt_Some in Hj. lia.
  - eapply (A2 (i - length l1)%nat (j - length l1)%nat); eauto. lia.
Qed.

Lemma between_mono c1 c2 d1 d2 l : (forall p, d1 p <= c1 p) -> (forall p, c2 p <= d2 p) ->
  between c1 c2 l -> between d1 d2 l.
Proof.
  intros H1 H2 B. eapply Forall_impl; [exact B|]. intros [[p a] b]. specialize (H1 p). specialize (H2 p). lia.
Qed.

Lemma between_app c1 c2 c3 l1 l2 : (forall p, c1 p <= c2 p) -> (forall p, c2 p <= c3 p) ->
  between c1 c2 l1 -> between c2 c3 l2 -> between c1 c3 (l1 ++ l2).
Proof.
  intros H1 H2 B1 B2. apply Forall_app. split.
  - by eapply between_mono; [| |exact B1].
  - by eapply between_mono; [| |exact B2].
Qed.

Lemma apart_one x : apart [x].
Proof. intros [|[|i]] [|[|j]] p a b c d Hij Hi Hj; simpl in *; try done; lia. Qed.

Section Guarantees.
Variable lim : pool -> Z.

(** Regions are in the order of the cursors, below the limits and on multiples
    of their size. *)
Lemma laid_regions c l c' : laid lim c l c' ->
  between c c' (flat_map regions l) /\ apart (flat_map regions l) /\
  Forall (fun '(p, a, b) => b <= lim p /\ natural a (b - a)) (flat_map regions l).
Proof.
  induction 1 as [c c' E|c b0 d0 f0 off p v len c1 l c' H1 H2 H3 H4 E H (IH1 & IH2 & IH3)
                 |c b0 d0 f0 sec sub c1 ch c2 c3 w l c' H1 Hch (IC1 & IC2 & IC3) H3 H (IH1 & IH2 & IH3)
                 |c b0 d0 f0 sec left c1 ch c2 l c' H1 Hch _ H IH];
    simpl.
  - by repeat split; try constructor.
  - assert (between c c1 [(p, v, v + len)]) as B.
    { repeat constructor; [done|lia|]. rewrite E. rewrite decide_True by done. lia. }
    change ((p, v, v + len) :: flat_map regions l) with ([(p, v, v + len)] ++ flat_map regions l).
    split; [|split].
    + eapply between_app; [| |exact B|exact IH1]; [|by eapply laid_mono].
      intros q. rewrite E. case_decide; subst; lia.
    + by eapply apart_app; [exact B|exact IH1|apply apart_one|].
    + constructor; [|done]. split; [lia|]. by replace (v + len - v) with len by lia.
  - pose proof (laid_mono _ _ _ _ Hch) as Mc. pose proof (laid_mono _ _ _ _ H) as Ml.
    assert (between c c3 (flat_map regions ch)) as B.
    { eapply between_mono; [| |exact IC1]; intros q; [apply H1|apply H3]. }
    split; [|split].
    + eapply between_app; [| |exact B|exact IH1]; [|done].
      intros q. pose proof (H1 q). pose proof (H3 q). specialize (Mc q). lia.
    + by eapply apart_app; [exact B|exact IH1| |].
    + by apply Forall_app.
  - exact IH.
Qed.

Lemma windows_apart b0 d0 f0 sec sub (w : pool -> option (Z * Z)) ch : apart (extents (PBridge b0 d0 f0 sec sub w ch)).
Proof.
  intros i j p a b c d Hij Hi Hj. exfalso. simpl in *.
  destruct (w Mem) as [[]|], (w MemPf) as [[]|], (w Io) as [[]|];
    destruct i as [|[|[|i]]]; destruct j as [|[|[|j]]]; simplify_eq/=; lia.
Qed.

Lemma windows_between c c1 c2 c3 b0 d0 f0 sec sub (w : pool -> option (Z * Z)) ch :
  (forall p, c p <= c1 p /\ (gran p | c1 p)) ->
  (forall p, c1 p <= c2 p) ->
  (forall p, c2 p <= c3 p /\
     (c1 p = c2 p /\ w p = None \/
      c1 p <> c2 p /\ w p = Some (c1 p, c3 p) /\ (gran p | c3 p) /\ c3 p <= lim p)) ->
  between c c3 (extents (PBridge b0 d0 f0 sec sub w ch)).
Proof.
  intros H1 H2 H3. apply Forall_forall. intros [[p a] b] Hin. unfold extents in Hin.
  apply list_elem_of_omap in Hin. destruct Hin as (q & _ & Hq).
  destruct (w q) as [[x y]|] eqn:E; [|done]. injection Hq as -> -> ->.
  specialize (H1 p). specialize (H2 p). specialize (H3 p). rewrite E in H3.
  destruct H3 as [H3 [[_ H4]|(Hne & [= -> ->] & _ & _)]]; [done|]. lia.
Qed.

(** On every bus, what devices and bridges occupy is apart, and each bridge
    covers what is behind it. *)
Lemma laid_buses c l c' : laid lim c l c' ->
  between c c' (flat_map extents l) /\
  Forall (fun ns => apart (flat_map extents ns) /\ Forall covers ns) (l :: flat_map buses l).
Proof.
  induction 1 as [c c' E|c b0 d0 f0 off p v len c1 l c' H1 H2 H3 H4 E H [IH1 IH2]
                 |c b0 d0 f0 sec sub c1 ch c2 c3 w l c' H1 Hch [IC1 IC2] H3 H [IH1 IH2]
                 |c b0 d0 f0 sec left c1 ch c2 l c' H1 Hch _ H [IH1 IH2]].
  - split; [constructor|]. repeat constructor. intros i j p a b c0 d _ Hi. done.
  - assert (between c c1 [(p, v, v + len)]) as B.
    { repeat constructor; [done|lia|]. rewrite E. rewrite decide_True by done. lia. }
    apply Forall_cons in IH2. destruct IH2 as [[IH2 IH2'] IH3].
    change (flat_map extents (PBar b0 d0 f0 off p v len :: l)) with ([(p, v, v + len)] ++ flat_map extents l).
    split; [|constructor; [split|]].
    + eapply between_app; [| |exact B|exact IH1]; [|by eapply laid_mono].
      intros q. rewrite E. case_decide; subst; lia.
    + change (apart ([(p, v, v + len)] ++ flat_map extents l)).
      by eapply apart_app; [exact B|exact IH1|apply apart_one|].
    + by constructor.
    + done.
  - pose proof (laid_mono _ _ _ _ Hch) as Mc. pose proof (laid_mono _ _ _ _ H) as Ml.
    pose proof (windows_between c c1 c2 c3 b0 d0 f0 sec sub w ch H1 Mc H3) as B.
    apply Forall_cons in IH2. destruct IH2 as [[IH2 IH2'] IH3].
    pose proof (laid_regions _ _ _ Hch) as (R1 & _ & _).
    split; [|constructor; [split|]].
    + eapply between_app; [| |exact B|exact IH1]; [|done].
      intros q. pose proof (H1 q). pose proof (H3 q). specialize (Mc q). lia.
    + by eapply apart_app; [exact B|exact IH1|apply windows_apart|].
    + constructor; [|done]. simpl. split.
      * intros p a b Ew. specialize (H3 p). rewrite Ew in H3.
        destruct H3 as [H3 [[_ H4]|(Hne & [= -> ->] & Hg & _)]]; [done|].
        split; [apply H1|]. split; [done|]. specialize (Mc p). lia.
      * eapply Forall_impl; [exact R1|]. intros [[p a] b] Hab.
        specialize (H3 p). specialize (Mc p).
        destruct H3 as [H3 [[Heq _]|(Hne & -> & _ & _)]]; [lia|].
        exists (c1 p), (c3 p). split; [done|lia].
    + change (flat_map buses (PBridge b0 d0 f0 sec sub w ch :: l)) with
        ((ch :: flat_map buses ch) ++ flat_map buses l).
      by apply Forall_app.
  - apply Forall_cons in IH2 as [[IH2 IH3] IH4]. split; [exact IH1|]. constructor; [|exact IH4].
    split; [exact IH2|]. by constructor.
Qed.

End Guarantees.

(** ** The accesses of an enumeration *)

Section Log.
Variables (b d f : Z).

(** Sizing the register at [off]: [o] and [o2] are the values it, and for a 64-bit
    register the next one, had; [v] is what it read as after all ones were
    written, and [v'] what it read as last. *)
Inductive probe_log (off o v : Z) : bool -> Z -> Z -> list access -> Prop :=
| probe_32 : probe_log off o v false 0 v
    [Rd 32 b d f off o; Wr 32 b d f off ALL_ONES; Rd 32 b d f off v]
| probe_64 o2 v' w : probe_log off o v true o2 v'
    [Rd 32 b d f off o; Wr 32 b d f off ALL_ONES; Rd 32 b d f off v;
     Rd 32 b d f (u8 (off + 4)) o2; Wr 32 b d f off ALL_ONES; Wr 32 b d f (u8 (off + 4)) ALL_ONES;
     Rd 32 b d f off v'; Rd 32 b d f (u8 (off + 4)) w].

(** The pool a register asks for, and the bits of its address it lets be written;
    ports may leave the upper half of the register out. *)
Definition bar_pool (v : Z) : pool :=
  if Z.land v 1 =? 0 then if Z.land v 8 =? 0 then Mem else MemPf else Io.
Definition bar_mask (p : pool) (v : Z) : Z :=
  match p with
  | Io => let m := Z.land v 0xfffffffc in if m <? 2 ^ 16 then Z.lor m 0xffff0000 else m
  | _ => Z.land v 0xfffffff0
  end.

(** A register that is skipped or refused gets its value back; one that is placed
    gets the start of its region, and its upper half zero.  The size of the region is
    that of the lowest bits the register does not let be written. *)
Inductive bar_log (off : Z) : bool -> list access -> list place -> Prop :=
| bar_restored o v is64 o2 v' l : probe_log off o v is64 o2 v' l ->
    bar_log off is64 (l ++ (if is64 then [Wr 32 b d f (u8 (off + 4)) o2] else []) ++ [Wr 32 b d f off o]) []
| bar_placed o v is64 o2 v' l start : probe_log off o v is64 o2 v' l ->
    bar_log off is64 (l ++ [Wr 32 b d f off start] ++ (if is64 then [Wr 32 b d f (u8 (off + 4)) 0] else []))
      [PBar b d f off (bar_pool v) start (2 ^ 32 - bar_mask (bar_pool v) v')].

(** The registers of a function up to the one with index [i]. *)
Inductive bars_log : Z -> list access -> list place -> Prop :=
| bars_nil : bars_log 0 [] []
| bars_snoc i l1 t1 is64 l2 t2 : bars_log i l1 t1 -> i < PCI_ENUM_MAX_BARS ->
    bar_log (PCI_BAR0_OFFSET + 4 * i) is64 l2 t2 ->
    bars_log (i + (if is64 then 2 else 1)) (l1 ++ l2) (t1 ++ t2).

(** All registers of a function, with decoding off and its command word put back. *)
Definition device_log (l : list access) (t : list place) : Prop :=
  exists cmd i l1, bars_log i l1 t /\
    l = [Rd 16 b d f PCI_COMMAND_OFFSET cmd; Wr 16 b d f PCI_COMMAND_OFFSET 0] ++ l1 ++
        [Wr 16 b d f PCI_COMMAND_OFFSET cmd].

(** The registers of a window [start, end): its first and last megabyte, or its
    first and last page of ports; a window without anything is closed. *)
Definition window_log '((p, w) : pool * option (Z * Z)) : list access :=
  match p, w with
  | MemPf, Some (x, y) => [Wr 16 b d f PCI_PREFETCH_BASE_OFF (x / 2 ^ 16); Wr 16 b d f PCI_PREFETCH_LIMIT_OFF ((y - 1) / 2 ^ 16)]
  | MemPf, None => [Wr 16 b d f PCI_PREFETCH_BASE_OFF 0xffff; Wr 16 b d f PCI_PREFETCH_LIMIT_OFF 0]
  | Mem, Some (x, y) => [Wr 16 b d f PCI_MMIO_BASE_OFF (x / 2 ^ 16); Wr 16 b d f PCI_MMIO_LIMIT_OFF ((y - 1) / 2 ^ 16)]
  | Mem, None => [Wr 16 b d f PCI_MMIO_BASE_OFF 0xffff; Wr 16 b d f PCI_MMIO_LIMIT_OFF 0]
  | Io, Some (x, y) => [Wr 8 b d f PCI_IO_BASE_OFF (x / 2 ^ 8); Wr 8 b d f PCI_IO_LIMIT_OFF ((y - 1) / 2 ^ 8)]
  | Io, None => [Wr 8 b d f PCI_IO_BASE_OFF 0xff; Wr 8 b d f PCI_IO_LIMIT_OFF 0]
  end.

(** The command word with decoding enabled for the windows that are open. *)
Definition command_with (cmd : Z) (ws : list (pool * option (Z * Z))) : Z :=
  fold_left (fun cmd '(p, w) => match w with
    | None => cmd
    | Some _ => Z.lor cmd (match p with Io => PCI_COMMAND_IO_SPACE | _ => PCI_COMMAND_MEM_SPACE end)
    end) ws cmd.

(** Before the bus behind a bridge is scanned. *)
Definition open_log (cmd sec : Z) : list access :=
  [Rd 16 b d f PCI_COMMAND_OFFSET cmd; Wr 16 b d f PCI_COMMAND_OFFSET 0;
   Wr 8 b d f PCI_PRIMARY_BUS b; Wr 8 b d f PCI_SECONDARY_BUS sec; Wr 8 b d f PCI_SUB_SEC_BUS 0xff].

(** The end of a bridge that is given up. *)
Definition reset_log (cmd : Z) : list access :=
  [Wr 8 b d f PCI_PRIMARY_BUS 0; Wr 8 b d f PCI_SECONDARY_BUS 0; Wr 8 b d f PCI_SUB_SEC_BUS 0;
   Wr 16 b d f PCI_COMMAND_OFFSET cmd].

End Log.

(** The three windows in the order of their programming. *)
Definition all_windows (w : pool -> option (Z * Z)) : list (pool * option (Z * Z)) :=
  [(MemPf, w MemPf); (Mem, w Mem); (Io, w Io)].

(** The accesses of the scan of a bus, and the tree they leave. *)
Inductive scan_log : Z -> list access -> list place -> Prop :=
| scan_nil b : scan_log b [] []
| scan_read b width d f off v l t : scan_log b l t -> scan_log b (Rd width b d f off v :: l) t
| scan_device b d f l1 t1 l t : device_log b d f l1 t1 -> scan_log b l t -> scan_log b (l1 ++ l) (t1 ++ t)
| scan_bridge b d f cmd sec sub w lb behind l t : scan_log sec lb behind -> scan_log b l t ->
    scan_log b
      (open_log b d f cmd sec ++ lb ++ [Wr 8 b d f PCI_SUB_SEC_BUS sub] ++
       flat_map (window_log b d f) (all_windows w) ++
       [Wr 16 b d f PCI_COMMAND_OFFSET (Z.lor (command_with cmd (all_windows w)) PCI_COMMAND_BUS_MASTER)] ++ l)
      (PBridge b d f sec sub w behind :: t)
| scan_unopened b d f cmd sec l t : scan_log b l t ->
    scan_log b (open_log b d f cmd sec ++ reset_log b d f cmd ++ l) (PFailed b d f sec [] [] :: t)
| scan_failed b d f cmd sec sub w k lb behind l t : scan_log sec lb behind -> scan_log b l t ->
    let left := take k (all_windows w) in
    scan_log b
      (open_log b d f cmd sec ++ lb ++ [Wr 8 b d f PCI_SUB_SEC_BUS sub] ++
       flat_map (window_log b d f) left ++ reset_log b d f (command_with cmd left) ++ l)
      (PFailed b d f sec left behind :: t).

Lemma scan_app b l1 t1 l2 t2 : scan_log b l1 t1 -> scan_log b l2 t2 -> scan_log b (l1 ++ l2) (t1 ++ t2).
Proof.
  intros H1 H2. induction H1; rewrite <- ?app_assoc; cbn [app].
  - done.
  - apply scan_read. auto.
  - eapply scan_device; eauto.
  - apply scan_bridge; auto.
  - apply scan_unopened. auto.
  - apply scan_failed; auto.
Qed.
