(* ===== verification/PciExample.v ===== *)
(** * A PCI bus to evaluate the enumeration on

    Devices as files of 32-bit registers, reached through ECAM: each register
    has a reset value and a mask of writable bits, the state is the list of the
    writes so far.  An address without a register reads as zero when its
    function is present and as all ones when it is not. *)

From Stdlib Require Import ZArith Lia.
From stdpp Require Import prelude.
From S2P Require Import Prelude Pci.

Local Open Scope Z_scope.

Module ExamplePci.

(** A register: its address, the bits that can be written, its reset value. *)
Definition regs := list (Z * (Z * Z)).

Fixpoint assoc {A} (a : Z) (r : list (Z * A)) : option A :=
  match r with
  | [] => None
  | (b, v) :: r => if a =? b then Some v else assoc a r
  end.

Definition reg_value (rom : regs) (a : Z) (h : list (Z * Z)) : Z :=
  match assoc a rom with
  | Some (m, v) => Z.lor (Z.land (default v (assoc a h)) m) (Z.land v (not32 m))
  | None => match assoc (Z.land a (not32 0xfff)) rom with Some _ => 0 | None => ALL_ONES end
  end.

(** The default pools of the code, under ECAM. *)
Definition bus_of (rom : regs) : pci_platform := {|
  hw := list (Z * Z);
  mmio_read32 := fun a h => (reg_value rom a h, h);
  mmio_write32 := fun a v h => (a, v) :: h;
  io_read32 := fun _ h => (0, h);
  io_write32 := fun _ _ h => h;
  PCI_USE_ECAM := true;
  PCI_ECAM_BASE := 0xC0000000;
  WOLFBOOT_TGL := false;
  PCI_MMIO32_BASE := 0x80000000;
  PCI_MMIO32_LENGTH := 128 * 1024 * 1024;
  PCI_MMIO32_PREFETCH_BASE := 0x88000000;
  PCI_MMIO32_PREFETCH_LENGTH := 896 * 1024 * 1024;
  PCI_IO32_BASE := 0x2000;
  PCI_IO32_LIMIT := 0x10000 |}.

(** The address of a register, and a register of a function. *)
Definition at_reg (bus dev off : Z) : Z :=
  @pci_config_ecam_make_address (bus_of []) bus dev 0 off.
Definition reg (bus dev off mask v : Z) : Z * (Z * Z) := (at_reg bus dev off, (mask, v)).

(** What a register of function 0 of a device reads as. *)
Definition reg_now (rom : regs) (bus dev off : Z) (h : list (Z * Z)) : Z :=
  reg_value rom (at_reg bus dev off) h.

(** A base address register of [size] bytes with the given flag bits. *)
Definition bar (bus dev idx size flags : Z) : Z * (Z * Z) :=
  reg bus dev (0x10 + 4 * idx) (not32 (size - 1)) flags.

Definition device (bus dev : Z) (bars : list (Z * Z)) : regs :=
  [reg bus dev 0 0 0x12348086; reg bus dev 4 0xffff 0; reg bus dev 12 0 0] ++
  imap (fun i b => bar bus dev (Z.of_nat i) (fst b) (snd b)) bars.

Definition bridge (bus dev : Z) : regs :=
  [reg bus dev 0 0 0x12348086; reg bus dev 4 0xffff 0; reg bus dev 12 0 0x10000;
   reg bus dev 0x18 ALL_ONES 0; reg bus dev 0x1c 0xffff 0;
   reg bus dev 0x20 0xfff0fff0 0; reg bus dev 0x24 0xfff0fff0 0].

Definition MB : Z := 1024 * 1024.

(** A bridge with a device behind it and a device beside it. *)
Definition small_bus : regs :=
  bridge 0 1 ++ device 1 0 [(MB, 0); (4096, 8); (256, 1)] ++ device 0 2 [(64 * 1024, 0); (32, 1)].

(** A bridge behind which the memory pool is used up to its last megabyte, with
    one prefetchable region, and a device beside it. *)
Definition full_bus : regs :=
  bridge 0 1 ++
  device 1 0 [(64 * MB, 0); (32 * MB, 0); (16 * MB, 0); (8 * MB, 0); (4 * MB, 0); (2 * MB, 0)] ++
  device 1 1 [(MB, 0); (4096, 0); (MB, 8)] ++
  device 0 2 [(MB, 8)].

(** Every function of every bus is a bridge, behind the two I/O ports. *)
Definition bridges_everywhere : pci_platform := {|
  hw := unit;
  mmio_read32 := fun _ h => (0x10000, h);
  mmio_write32 := fun _ _ h => h;
  io_read32 := fun _ h => (0x10000, h);
  io_write32 := fun _ _ h => h;
  PCI_USE_ECAM := false;
  PCI_ECAM_BASE := 0xC0000000;
  WOLFBOOT_TGL := false;
  PCI_MMIO32_BASE := 0x80000000;
  PCI_MMIO32_LENGTH := 128 * 1024 * 1024;
  PCI_MMIO32_PREFETCH_BASE := 0x88000000;
  PCI_MMIO32_PREFETCH_LENGTH := 896 * 1024 * 1024;
  PCI_IO32_BASE := 0x2000;
  PCI_IO32_LIMIT := 0x10000 |}.

End ExamplePci.
