(* ===== verification/PciSpec.v ===== *)
(** * The PCI enumeration produces layouts, and ends

    Whatever the devices answer, each step of the enumeration makes the accesses
    that leave a tree of regions, bridges and abandoned bridges in the registers
    ([scan_log]) and advances the cursors by that tree ([adv]).  The enumeration ends when at most 255 functions
    ever answer as bridges: the bus number, a byte, then never wraps.  Both are
    proved together: [wpt T] allows code to run out of fuel only when [T] does
    not hold. *)

From Stdlib Require Import ZArith Lia.
From stdpp Require Import prelude.
From S2P Require Import Prelude Pci PciLayout PciExample.

Local Open Scope Z_scope.

(** ** Running out of fuel *)

Definition wpt (T : Prop) {A} (o : outcome A) (Q : A -> Prop) : Prop :=
  match o with Ok a => Q a | Oob => False | NoFuel => ~ T end.

Lemma wpt_bind T {A B} (o : outcome A) (k : A -> outcome B) (R : A -> Prop) (Q : B -> Prop) :
  wpt T o R -> (forall a, R a -> wpt T (k a) Q) -> wpt T (obind o k) Q.
Proof. destruct o; simpl; auto. Qed.

Lemma wpt_mono T {A} (o : outcome A) (R Q : A -> Prop) :
  wpt T o R -> (forall a, R a -> Q a) -> wpt T o Q.
Proof. destruct o; simpl; auto. Qed.

Lemma wpt_loop T {S R} (I : S -> Prop) (m : S -> nat) (Q : R -> Prop)
    (fuel : nat) (body : S -> outcome (S + R)) (s : S) :
  (forall s, I s -> wpt T (body s) (fun x =>
     match x with inl s' => I s' /\ (m s' < m s)%nat | inr r => Q r end)) ->
  I s -> (m s < fuel)%nat -> wpt T (loop fuel body s) Q.
Proof.
  intros Hbody. revert s. induction fuel as [|fuel IH]; intros s HI Hm; [lia|].
  simpl. specialize (Hbody s HI). destruct (body s) as [[s'|r]| |]; simpl in *; auto.
  destruct Hbody as [HI' Hlt]. apply IH; [done|lia].
Qed.

(** ** One step *)

Section Steps.
Context {P : pci_platform}.

(** The constants of a build: pools inside 32 bits, I/O inside 16. *)
Definition pools_ok : Prop :=
  0 <= PCI_MMIO32_BASE /\ 1 <= PCI_MMIO32_LENGTH /\
  PCI_MMIO32_BASE + PCI_MMIO32_LENGTH <= 2 ^ 32 /\
  0 <= PCI_MMIO32_PREFETCH_BASE /\ 1 <= PCI_MMIO32_PREFETCH_LENGTH /\
  PCI_MMIO32_PREFETCH_BASE + PCI_MMIO32_PREFETCH_LENGTH <= 2 ^ 32 /\
  0 <= PCI_IO32_BASE <= PCI_IO32_LIMIT /\ PCI_IO32_LIMIT <= 2 ^ 16 /\
  (FOUR_KB | PCI_IO32_LIMIT).

(** Every cursor is inside its pool. *)
Definition info_ok (i : pci_enum_info) : Prop :=
  forall p, 0 <= base p i <= limit p i /\ limit p i < 2 ^ 32.

Definition lims (i : pci_enum_info) (p : pool) : Z := limit p i.
Definition cur (i : pci_enum_info) (p : pool) : Z := base p i.

(** From [s] to [s'] accesses were made, of the kind [K], that added a layout. *)
Definition adv (K : list access -> list place -> Prop) (s s' : pstate) : Prop :=
  info_ok (info s') /\ (forall p, limit p (info s') = limit p (info s)) /\
  exists l t, trace s' = trace s ++ l /\ K l t /\
    laid (lims (info s)) (cur (info s)) t (cur (info s')).

Lemma adv_refl (K : list access -> list place -> Prop) s : K [] [] -> info_ok (info s) -> adv K s s.
Proof.
  intros HK H. split; [done|]. split; [done|].
  exists [], []. rewrite app_nil_r. split; [done|]. split; [done|]. by constructor.
Qed.

Lemma laid_lims lim lim' c l c' : (forall p, lim p = lim' p) -> laid lim c l c' -> laid lim' c l c'.
Proof.
  intros E. induction 1 as [c c' Ec|c b0 d0 f0 off p v len c1 l c' H1 H2 H3 H4 Ec H IH
                 |c b0 d0 f0 sec sub c1 ch c2 c3 w l c' H1 Hch IHch H3 H IH
                 |c b0 d0 f0 sec left c1 ch c2 l c' H1 Hch IHch H IH].
  - by constructor.
  - apply (laid_bar _ _ b0 d0 f0 off p v len c1); try done. by rewrite <- E.
  - apply (laid_bridge _ _ b0 d0 f0 sec sub c1 ch c2 c3); try done. intros p. by rewrite <- E.
  - by apply (laid_failed _ _ b0 d0 f0 sec left c1 ch c2).
Qed.

Lemma adv_trans K1 K2 K s1 s2 s3 :
  (forall l1 t1 l2 t2, K1 l1 t1 -> K2 l2 t2 -> K (l1 ++ l2) (t1 ++ t2)) ->
  adv K1 s1 s2 -> adv K2 s2 s3 -> adv K s1 s3.
Proof.
  intros HK (H1 & E1 & l1 & t1 & T1 & HK1 & L1) (H2 & E2 & l2 & t2 & T2 & HK2 & L2).
  split; [done|]. split; [intros p; by rewrite E2|].
  exists (l1 ++ l2), (t1 ++ t2). rewrite T2, T1, app_assoc. split; [done|]. split; [by apply HK|].
  eapply laid_app; [exact L1|]. eapply laid_lims; [|exact L2]. exact E1.
Qed.

Lemma adv_ok K s s' : adv K s s' -> info_ok (info s').
Proof. by intros [H _]. Qed.

(** Accesses that leave the cursors alone, before or after. *)
Lemma adv_prefix K K' s0 s s' l0 : info s = info s0 -> trace s = trace s0 ++ l0 ->
  (forall l t, K l t -> K' (l0 ++ l) t) -> adv K s s' -> adv K' s0 s'.
Proof.
  intros Ei Et HK (H1 & E1 & l & t & T1 & K1 & L1). rewrite Ei in E1, L1.
  split; [done|]. split; [done|]. exists (l0 ++ l), t. rewrite T1, Et, app_assoc. split; [done|].
  split; [by apply HK|done].
Qed.

Lemma adv_suffix K K' s s' s1 l0 : info s1 = info s' -> trace s1 = trace s' ++ l0 ->
  (forall l t, K l t -> K' (l ++ l0) t) -> adv K s s' -> adv K' s s1.
Proof.
  intros Ei Et HK (H1 & E1 & l & t & T1 & K1 & L1). unfold adv. rewrite Ei.
  split; [done|]. split; [done|]. exists (l ++ l0), t. rewrite Et, T1, app_assoc. split; [done|].
  split; [by apply HK|done].
Qed.

Lemma read32_range bus dev f off s : 0 <= fst (cfg_read32 bus dev f off s) < 2 ^ 32.
Proof.
  unfold cfg_read32, pci_config_read32, pci_ecam_config_read32, pci_io_config_read32.
  destruct PCI_USE_ECAM; [destruct (mmio_read32 _ _)|destruct (io_read32 _ _)];
    simpl; apply Z.mod_pos_bound; lia.
Qed.

(** A read leaves the cursors and adds itself to the trace. *)
Lemma read32_same bus dev f off s : let '(v, s') := cfg_read32 bus dev f off s in
  info s' = info s /\ trace s' = trace s ++ [Rd 32 bus dev f off v].
Proof. unfold cfg_read32. by destruct (pci_config_read32 _ _ _ _ _). Qed.

Lemma read16_same bus dev f off s : let '(v, s') := cfg_read16 bus dev f off s in
  info s' = info s /\ trace s' = trace s ++ [Rd 16 bus dev f off v].
Proof. unfold cfg_read16. by destruct (pci_config_read16 _ _ _ _ _). Qed.

(** The upper half of a word is empty when the word is below [2 ^ 16]. *)
Lemma upper_half m : 0 <= m < 2 ^ 32 -> (Z.land m 0xffff0000 =? 0) = (m <? 2 ^ 16).
Proof.
  intros Hm. change 0xffff0000 with (not32 (2 ^ 16 - 1)). rewrite land_not32 by lia.
  rewrite (Z.mod_small m) by lia. pose proof (Z.div_mod m (2 ^ 16)). pose proof (Z.mod_pos_bound m (2 ^ 16)).
  destruct (Z.ltb_spec m (2 ^ 16)) as [Hl|Hl].
  - rewrite (Z.mod_small m) by lia. apply Z.eqb_eq. lia.
  - apply Z.eqb_neq. lia.
Qed.

(** Sizing: its accesses, and what it found. *)
Definition probed (bus dev f off : Z) (s : pstate) (pr : probe) (s' : pstate) : Prop :=
  info s' = info s /\
  exists v v' l, trace s' = trace s ++ l /\
    probe_log bus dev f off (orig_bar pr) v (is_64bit pr) (orig_bar2 pr) v' l /\
    (forall p a, wants pr = Some (p, a) -> p = bar_pool v /\ a = bar_mask p v' /\ 0 <= a < 2 ^ 32).

Lemma probe_spec bus dev f off s : let '(pr, s') := pci_probe_bar bus dev f off s in
  probed bus dev f off s pr s'.
Proof.
  assert (forall x m, 0 <= x < 2 ^ 32 -> 0 <= Z.land x (not32 m) < 2 ^ 32) as Hland.
  { intros x m Hx. pose proof (land_not32_range x m). lia. }
  unfold pci_probe_bar, PCI_ENUM_MM_BAR_MASK, PCI_ENUM_IO_BAR_MASK.
  pose proof (read32_same bus dev f off s) as R1. destruct (cfg_read32 bus dev f off s) as [o s1].
  destruct R1 as [I1 T1]. set (s1' := cfg_write32 bus dev f off ALL_ONES s1).
  pose proof (read32_same bus dev f off s1') as R2. pose proof (read32_range bus dev f off s1') as Hv.
  destruct (cfg_read32 bus dev f off s1') as [v s2]. destruct R2 as [I2 T2]. simpl in Hv, I2, T2.
  assert (info s2 = info s) as Is2 by congruence.
  assert (forall wt, (forall p a, wt = Some (p, a) -> p = bar_pool v /\ a = bar_mask p v /\ 0 <= a < 2 ^ 32) ->
    probed bus dev f off s (MkProbe o 0 false wt) s2) as H32.
  { intros wt Hwt. split; [done|]. eexists v, v, _. split; [rewrite T2, T1, <- !app_assoc; reflexivity|].
    split; [apply probe_32|done]. }
  case_if; [by apply H32|]. unfold pci_enum_is_mmio, pci_enum_is_prefetch.
  destruct (Z.land v 1 =? 0) eqn:Em.
  2: { apply H32. intros p a [= <- <-]. pose proof (Hland v 3 Hv) as Hl.
       split; [unfold bar_pool; by rewrite Em|]. unfold bar_mask. change 0xfffffffc with (not32 3).
       rewrite upper_half by done. split; [done|]. case_if; [|done]. apply lor_range; lia. }
  set (p := if negb _ then MemPf else Mem).
  assert (p = bar_pool v) as Ep. { subst p. unfold bar_pool. rewrite Em. by destruct (Z.land v 8 =? 0). }
  assert (forall x, bar_mask p x = Z.land x (not32 15)) as Ek by (intros x; subst p; by destruct (Z.land v 8 =? 0)).
  clearbody p. destruct (pci_enum_is_64bit v).
  2: { apply H32. intros p' a [= <- <-]. split; [done|]. split; [by rewrite Ek|by apply Hland]. }
  pose proof (read32_same bus dev f (u8 (off + 4)) s2) as R3. destruct (cfg_read32 bus dev f (u8 (off + 4)) s2) as [o2 s3].
  destruct R3 as [I3 T3].
  set (s4 := cfg_write32 bus dev f (u8 (off + 4)) ALL_ONES (cfg_write32 bus dev f off ALL_ONES s3)).
  pose proof (read32_same bus dev f off s4) as R4. pose proof (read32_range bus dev f off s4) as Hv'.
  destruct (cfg_read32 bus dev f off s4) as [v' s5]. destruct R4 as [I5 T5]. simpl in Hv', I5, T5.
  pose proof (read32_same bus dev f (u8 (off + 4)) s5) as R5. destruct (cfg_read32 bus dev f (u8 (off + 4)) s5) as [w s6].
  destruct R5 as [I6 T6].
  assert (forall wt, (forall p a, wt = Some (p, a) -> p = bar_pool v /\ a = bar_mask p v' /\ 0 <= a < 2 ^ 32) ->
    probed bus dev f off s (MkProbe o o2 true wt) s6) as H64.
  { intros wt Hwt. split; [congruence|]. eexists v, v', _.
    split; [rewrite T6, T5, T3, T2, T1, <- !app_assoc; reflexivity|]. split; [apply probe_64|done]. }
  case_if; apply H64; [done|]. intros p' a [= <- <-]. split; [done|]. split; [by rewrite Ek|by apply Hland].
Qed.

Lemma restore_bar_same bus dev f off pr s :
  info (restore_bar bus dev f off pr s) = info s /\
  trace (restore_bar bus dev f off pr s) = trace s ++
    (if is_64bit pr then [Wr 32 bus dev f (u8 (off + 4)) (orig_bar2 pr)] else []) ++ [Wr 32 bus dev f off (orig_bar pr)].
Proof. unfold restore_bar. destruct (is_64bit pr); simpl; by rewrite <- ?app_assoc. Qed.

Lemma base_set_base p q v i : base q (set_base p v i) = if decide (q = p) then v else base q i.
Proof. by destruct i, p, q. Qed.

Lemma limit_set_base p q v i : limit q (set_base p v i) = limit q i.
Proof. by destruct i, p, q. Qed.

Lemma bus_set_base p v i : curr_bus_number (set_base p v i) = curr_bus_number i.
Proof. by destruct i, p. Qed.

(** Moving one cursor up, inside its pool. *)
Lemma set_base_ok p v i : info_ok i -> base p i <= v <= limit p i -> info_ok (set_base p v i).
Proof.
  intros H Hv q. rewrite base_set_base, limit_set_base. specialize (H q).
  case_decide; subst; lia.
Qed.

(** A register that is skipped or refused. *)
Lemma restore_adv bus dev f off pr s s1 v v' l : info_ok (info s) -> info s1 = info s -> trace s1 = trace s ++ l ->
  probe_log bus dev f off (orig_bar pr) v (is_64bit pr) (orig_bar2 pr) v' l ->
  let s' := restore_bar bus dev f off pr s1 in
  adv (bar_log bus dev f off (is_64bit pr)) s s' /\ curr_bus_number (info s') = curr_bus_number (info s).
Proof.
  intros Hs I1 T1 Hl s'. destruct (restore_bar_same bus dev f off pr s1) as [E1 E2]. fold s' in E1, E2.
  split; [|by rewrite E1, I1]. unfold adv. rewrite E1, I1. split; [done|]. split; [done|].
  eexists _, []. rewrite E2, T1, <- app_assoc. split; [reflexivity|]. split; [|by constructor].
  by eapply bar_restored.
Qed.

(** One register: it is skipped or refused, or gets a region. *)
Lemma program_bar_adv bus dev f i s : info_ok (info s) -> 0 <= i < PCI_ENUM_MAX_BARS ->
  let '(_, is64, s') := pci_program_bar bus dev f (u8 i) s in
  adv (bar_log bus dev f (PCI_BAR0_OFFSET + 4 * i) is64) s s' /\
  curr_bus_number (info s') = curr_bus_number (info s).
Proof.
  intros Hs Hi. unfold PCI_ENUM_MAX_BARS in Hi. unfold pci_program_bar, PCI_ENUM_MAX_BARS.
  rewrite (u8_small i) by lia. case_if; [lia|].
  assert (u8 (PCI_BAR0_OFFSET + i * 4) = PCI_BAR0_OFFSET + 4 * i) as ->.
  { unfold PCI_BAR0_OFFSET. rewrite u8_small; lia. }
  set (off := PCI_BAR0_OFFSET + 4 * i).
  pose proof (probe_spec bus dev f off s) as Hpr.
  destruct (pci_probe_bar bus dev f off s) as [pr s1]. destruct Hpr as (I1 & vr & vr' & l & T1 & Hl & Hpr).
  pose proof (restore_adv bus dev f off pr s s1 vr vr' l Hs I1 T1 Hl) as Hrest.
  destruct (wants pr) as [[p a]|]; [|done]. case_if; [done|].
  destruct (Hpr p a eq_refl) as (Ep & Ea & Ha).
  assert (u32 (not32 a + 1) = 2 ^ 32 - a) as Hlen.
  { assert (not32 a = 2 ^ 32 - 1 - a) as ->.
    { unfold not32, u32. rewrite Z.lnot_eq_pred_opp.
      symmetry. apply Z.mod_unique with (-1); lia. }
    rewrite u32_small; lia. }
  rewrite Hlen. destruct (pci_fit_bar _ _ _) as [v|] eqn:Ef; [|done].
  pose proof (Hs p) as Hp. rewrite I1 in Ef. apply fit_bar_spec in Ef; [|lia|lia].
  destruct Ef as (F1 & F2 & F3).
  assert (u32 (v + (2 ^ 32 - a)) = v + (2 ^ 32 - a)) as -> by (apply u32_small; lia).
  assert (info_ok (set_base p (v + (2 ^ 32 - a)) (info s))) as Hok
    by (apply set_base_ok; [done|lia]).
  set (s2 := on_info _ _). assert (info s2 = set_base p (v + (2 ^ 32 - a)) (info s)) as I2
    by (subst s2; rewrite <- I1; by destruct (is_64bit pr)).
  assert (trace s2 = trace s1 ++ [Wr 32 bus dev f off v] ++ (if is_64bit pr then [Wr 32 bus dev f (u8 (off + 4)) 0] else []))
    as T2 by (subst s2; destruct (is_64bit pr); simpl; by rewrite <- ?app_assoc).
  split; [|by rewrite I2, bus_set_base]. unfold adv. rewrite I2.
  split; [done|]. split; [intros q; apply limit_set_base|].
  eexists _, [PBar bus dev f off p v (2 ^ 32 - a)]. rewrite T2, T1, <- app_assoc.
  split; [reflexivity|]. split; [rewrite Ea, Ep; by apply (bar_placed _ _ _ _ (orig_bar pr) vr (is_64bit pr) (orig_bar2 pr) vr')|].
  apply (laid_bar _ _ bus dev f off p v _ (cur (set_base p (v + (2 ^ 32 - a)) (info s)))); try done; [lia| |].
  - intros q. apply base_set_base.
  - by constructor.
Qed.

(** The registers of a function. *)
Lemma program_bars_adv T bus dev f s : info_ok (info s) ->
  wpt T (pci_program_bars bus dev f s) (fun s' =>
    adv (device_log bus dev f) s s' /\ curr_bus_number (info s') = curr_bus_number (info s)).
Proof.
  intros Hs. unfold pci_program_bars. pose proof (read16_same bus dev f PCI_COMMAND_OFFSET s) as R.
  destruct (cfg_read16 bus dev f PCI_COMMAND_OFFSET s) as [cmd s1]. destruct R as [I1 T1].
  set (s2 := cfg_write16 bus dev f PCI_COMMAND_OFFSET 0 s1).
  assert (info s2 = info s) as I2 by done. assert (info_ok (info s2)) as Hs2 by by rewrite I2.
  assert (trace s2 = trace s ++ [Rd 16 bus dev f PCI_COMMAND_OFFSET cmd; Wr 16 bus dev f PCI_COMMAND_OFFSET 0]) as T2.
  { simpl. by rewrite T1, <- app_assoc. }
  clearbody s2.
  set (upto i s' := adv (bars_log bus dev f i) s2 s' /\ curr_bus_number (info s') = curr_bus_number (info s)).
  apply wpt_bind with (fun s' => exists i, upto i s').
  - apply (wpt_loop T (fun '(i, s') => 0 <= i /\ upto i s') (fun '(i, _) => Z.to_nat (7 - i))).
    + intros [i s3] (Hi & Ha & Hb). unfold bars_body, PCI_ENUM_MAX_BARS. case_if; [by exists i|].
      pose proof (program_bar_adv bus dev f i s3 (adv_ok _ _ _ Ha)) as AB. unfold PCI_ENUM_MAX_BARS in AB.
      destruct (pci_program_bar bus dev f (u8 i) s3) as [[ret is64] s4]. destruct AB as [A B]; [lia|].
      assert (upto (i + (if is64 then 2 else 1)) s4) as Hup.
      { split; [|congruence]. eapply adv_trans; [|exact Ha|exact A]. intros l1 t1 l2 t2 K1 K2.
        apply bars_snoc; [done|unfold PCI_ENUM_MAX_BARS; lia|done]. }
      case_if; simpl; [by eexists|]. destruct is64; (split; [split; [lia|done]|lia]).
    + split; [lia|]. split; [apply adv_refl; [constructor|done]|by rewrite I2].
    + simpl. lia.
  - intros s3 (i & Ha & Hb). split; [|done].
    eapply adv_prefix; [exact I2|exact T2| |
      eapply (adv_suffix _ (fun l t => device_log bus dev f ([Rd 16 bus dev f PCI_COMMAND_OFFSET cmd;
        Wr 16 bus dev f PCI_COMMAND_OFFSET 0] ++ l) t) s2 s3); [reflexivity|reflexivity| |exact Ha]]; [done|].
    intros l t Hl. exists cmd, i, l. done.
Qed.

(** ** Bridges *)

Lemma gran_pow p : exists k, 0 <= k < 32 /\ gran p = 2 ^ k.
Proof. destruct p; [exists 20|exists 20|exists 12]; by split. Qed.

(** The limit with which [pci_program_bridge] aligns a cursor. *)
Definition align_limit (p : pool) (i : pci_enum_info) : Z :=
  match p with Io => ALL_ONES | _ => limit p i end.

Lemma align_cursor_ok p lim s s' : pools_ok -> info_ok (info s) ->
  lim = align_limit p (info s) -> align_cursor p (gran p) lim s = Some s' ->
  exists v, s' = on_info (set_base p v) s /\
    base p (info s) <= v <= limit p (info s) /\ (gran p | v) /\ info_ok (info s').
Proof.
  intros HP Hs -> . unfold align_cursor. pose proof (Hs p) as Hp.
  destruct (gran_pow p) as (k & Hk & Ek). rewrite Ek.
  destruct (pci_align_check_up _ _ _) as [v|] eqn:Ea; [|done]. intros [= <-].
  apply align_check_up_spec in Ea; [|lia|lia]. destruct Ea as (A1 & A2 & A3).
  assert (base p (info s) <= v <= limit p (info s)) as Hv.
  { split; [lia|]. destruct p; unfold align_limit in A1; [lia|lia|].
    destruct HP as (_ & _ & _ & _ & _ & _ & _ & _ & HL).
    change (gran Io) with FOUR_KB in Ek. rewrite <- Ek in A2, A3.
    destruct A2 as [x ->], HL as [y HL]. simpl in *. rewrite HL in *.
    unfold FOUR_KB in *. lia. }
  exists v. split; [done|]. split; [done|]. split; [done|]. by apply set_base_ok.
Qed.

(** A window was programmed, or closed when nothing was placed behind it. *)
Definition window_ok (b d f : Z) (p : pool) (start cmd : Z) (s : pstate) (cmd' : Z) (s' : pstate) : Prop :=
  exists v, info s' = set_base p v (info s) /\
    base p (info s) <= v <= limit p (info s) /\ info_ok (info s') /\
    let w := if start =? base p (info s) then None else Some (start, v) in
    (start = base p (info s) \/ start <> base p (info s) /\ (gran p | v)) /\
    trace s' = trace s ++ window_log b d f (p, w) /\ cmd' = command_with cmd [(p, w)].

Lemma set_base_id p i : set_base p (base p i) i = i.
Proof. by destruct i, p. Qed.

(** The offsets of the registers of a memory window. *)
Definition window_offs (p : pool) : Z * Z :=
  match p with MemPf => (PCI_PREFETCH_BASE_OFF, PCI_PREFETCH_LIMIT_OFF) | _ => (PCI_MMIO_BASE_OFF, PCI_MMIO_LIMIT_OFF) end.

Lemma mem_window_ok bus dev f p lim start cmd s cmd' s' : pools_ok -> info_ok (info s) ->
  p <> Io -> lim = limit p (info s) -> 0 <= start <= base p (info s) ->
  bridge_mem_window bus dev f p (fst (window_offs p)) (snd (window_offs p)) lim start cmd s = Some (cmd', s') ->
  window_ok bus dev f p start cmd s cmd' s'.
Proof.
  intros HP Hs Hp Hl Hst. unfold bridge_mem_window, window_ok. pose proof (Hs p) as Hsp.
  destruct (Z.eqb_spec start (base p (info s))) as [E|E]; cbn [negb].
  - intros [= <- <-]. exists (base p (info s)). rewrite set_base_id. split; [done|]. split; [lia|]. split; [done|].
    split; [by left|]. split; [|done]. simpl. destruct p; [| |done]; by rewrite <- app_assoc.
  - replace ONE_MB with (gran p) by by destruct p.
    destruct (align_cursor p (gran p) lim s) as [s1|] eqn:Ea; [|done]. intros [= <- <-].
    apply align_cursor_ok in Ea; [|done|done|by destruct p].
    destruct Ea as (v & -> & Hv & Hg & Hok). exists v. split; [done|]. split; [done|]. split; [done|].
    split; [by right|]. cbn [info on_info cfg_write16 trace]. rewrite base_set_base, decide_True by done.
    assert (u16 (Z.shiftr start 16) = start / 2 ^ 16) as ->
      by (rewrite Z.shiftr_div_pow2 by lia; unfold u16; apply Z.mod_small; split; [apply Z.div_pos; lia|apply Z.div_lt_upper_bound; lia]).
    assert (u16 (Z.shiftr (u32 (v - 1)) 16) = (v - 1) / 2 ^ 16) as ->
      by (rewrite u32_small by lia; rewrite Z.shiftr_div_pow2 by lia; unfold u16; apply Z.mod_small; split; [apply Z.div_pos; lia|apply Z.div_lt_upper_bound; lia]).
    destruct p; [| |done]; simpl; by rewrite <- app_assoc.
Qed.

Lemma io_window_ok bus dev f start cmd s cmd' s' : pools_ok -> info_ok (info s) -> 0 <= start <= base Io (info s) ->
  bridge_io_window bus dev f start cmd s = Some (cmd', s') -> window_ok bus dev f Io start cmd s cmd' s'.
Proof.
  intros HP Hs Hst. unfold bridge_io_window, window_ok. pose proof (Hs Io) as Hsp.
  change (io (info s)) with (base Io (info s)).
  destruct (Z.eqb_spec start (base Io (info s))) as [E|E]; cbn [negb].
  - intros [= <- <-]. exists (base Io (info s)). rewrite set_base_id. split; [done|]. split; [lia|]. split; [done|].
    split; [by left|]. split; [|done]. simpl. by rewrite <- app_assoc.
  - change FOUR_KB with (gran Io).
    destruct (align_cursor Io (gran Io) ALL_ONES s) as [s1|] eqn:Ea; [|done]. intros [= <- <-].
    apply align_cursor_ok in Ea; [|done|done|done].
    destruct Ea as (v & -> & Hv & Hg & Hok). exists v. split; [done|]. split; [done|]. split; [done|].
    split; [by right|]. cbn [info on_info cfg_write8 trace].
    change (io (set_base Io v (info s))) with (base Io (set_base Io v (info s))). rewrite base_set_base, decide_True by done.
    destruct HP as (_ & _ & _ & _ & _ & _ & _ & HL & _). simpl in Hv, Hsp, Hst, E.
    assert (u8 (Z.shiftr start 8) = start / 2 ^ 8) as ->
      by (rewrite Z.shiftr_div_pow2 by lia; unfold u8; apply Z.mod_small; split; [apply Z.div_pos; lia|apply Z.div_lt_upper_bound; lia]).
    assert (u8 (Z.shiftr (u32 (v - 1)) 8) = (v - 1) / 2 ^ 8) as ->
      by (rewrite u32_small by lia; rewrite Z.shiftr_div_pow2 by lia; unfold u8; apply Z.mod_small; split; [apply Z.div_pos; lia|apply Z.div_lt_upper_bound; lia]).
    simpl. by rewrite <- app_assoc.
Qed.

(** The state in which the bus behind a bridge is scanned. *)
Lemma bridge_open_ok s s1 : pools_ok -> info_ok (info s) -> bridge_open s = (true, s1) ->
  info_ok (info s1) /\ (forall p, limit p (info s1) = limit p (info s)) /\
  trace s1 = trace s /\ curr_bus_number (info s1) = curr_bus_number (info s) /\
  (forall p, base p (info s) <= base p (info s1) /\ (gran p | base p (info s1))).
Proof.
  intros HP Hs. unfold bridge_open.
  change ONE_MB with (gran MemPf) at 1. change ONE_MB with (gran Mem). change FOUR_KB with (gran Io).
  destruct (align_cursor MemPf _ _ s) as [sa|] eqn:Ea; [|done].
  apply align_cursor_ok in Ea; [|done..]. destruct Ea as (v1 & -> & V1 & G1 & O1).
  destruct (align_cursor Mem _ _ _) as [sb|] eqn:Eb; [|done].
  apply align_cursor_ok in Eb; [|done..]. destruct Eb as (v2 & -> & V2 & G2 & O2).
  destruct (align_cursor Io _ _ _) as [sc|] eqn:Ec; [|done].
  apply align_cursor_ok in Ec; [|done..]. destruct Ec as (v3 & -> & V3 & G3 & O3).
  intros [= <-]. split; [done|]. simpl in *.
  rewrite !bus_set_base. rewrite ?base_set_base in *.
  split; [intros p; by rewrite !limit_set_base|]. split; [done|]. split; [done|].
  intros p. rewrite !base_set_base. destruct (info s); simpl in *.
  destruct p; repeat case_decide; simplify_eq/=; split; try done; lia.
Qed.

Lemma bridge_open_fails s s1 : bridge_open s = (false, s1) ->
  (forall p, limit p (info s1) = limit p (info s)) /\ trace s1 = trace s.
Proof.
  assert (forall q a lim s, match align_cursor q a lim s with
    Some s' => (forall p, limit p (info s') = limit p (info s)) /\ trace s' = trace s | None => True end) as Hc.
  { intros q a lim s2. unfold align_cursor. destruct (pci_align_check_up _ _ _); [|done].
    split; [intros p; apply limit_set_base|done]. }
  unfold bridge_open. intros H.
  pose proof (Hc MemPf ONE_MB (mem_pf_limit (info s)) s) as H1.
  destruct (align_cursor MemPf _ _ s) as [sa|]; [|by simplify_eq].
  pose proof (Hc Mem ONE_MB (mem_limit (info sa)) sa) as H2.
  destruct (align_cursor Mem _ _ sa) as [sb|]; [|by simplify_eq].
  destruct (align_cursor Io _ _ sb) as [sc|]; [done|]. simplify_eq.
  destruct H1 as [H1 T1], H2 as [H2 T2]. split; [intros p; by rewrite H2|congruence].
Qed.

(** The error path puts every cursor and the bus number back. *)
Lemma bridge_err_spec bus dev f cmd s0 s : (forall p, limit p (info s) = limit p (info s0)) ->
  let s' := snd (bridge_err bus dev f cmd s0 s) in
  (forall p, base p (info s') = base p (info s0)) /\ (forall p, limit p (info s') = limit p (info s0)) /\
  curr_bus_number (info s') = curr_bus_number (info s0) /\ trace s' = trace s ++ reset_log bus dev f cmd.
Proof.
  intros HL. split; [by intros []|]. split; [intros p; rewrite <- (HL p); by destruct p|]. split; [done|].
  simpl. by rewrite <- !app_assoc.
Qed.

(** A bridge that is given up leaves the cursors as they were. *)
Lemma failed_adv b d f sec left behind s0 s' (c1 c2 : pool -> Z) l : info_ok (info s0) ->
  (forall p, base p (info s') = base p (info s0)) -> (forall p, limit p (info s') = limit p (info s0)) ->
  trace s' = trace s0 ++ l -> scan_log b l [PFailed b d f sec left behind] ->
  (forall p, cur (info s0) p <= c1 p) -> laid (lims (info s0)) c1 behind c2 ->
  adv (scan_log b) s0 s'.
Proof.
  intros H0 Hb HL Ht Hl Hc Hch. split; [intros p; rewrite Hb, HL; apply H0|]. split; [done|].
  exists l, [PFailed b d f sec left behind]. split; [done|]. split; [done|].
  apply (laid_failed _ _ _ _ _ _ _ c1 behind c2); [done|done|]. constructor. intros p. symmetry. apply Hb.
Qed.

(** A bridge whose three windows could be programmed. *)
Lemma bridge_placed b d f sec sub (i0 i1 i2 i3 : pci_enum_info) w t :
  (forall p, base p i0 <= base p i1 /\ (gran p | base p i1)) ->
  (forall p, limit p i1 = limit p i0) -> (forall p, limit p i2 = limit p i1) ->
  laid (lims i1) (cur i1) t (cur i2) ->
  (forall p, w p = if base p i1 =? base p i2 then None else Some (base p i1, base p i3)) ->
  (forall p, base p i2 <= base p i3 <= limit p i2 /\
     (base p i1 = base p i2 \/ base p i1 <> base p i2 /\ (gran p | base p i3))) ->
  laid (lims i0) (cur i0) [PBridge b d f sec sub w t] (cur i3).
Proof.
  intros H1 HL1 HL2 Hl Hw H3. apply (laid_bridge _ _ b d f sec sub (cur i1) t (cur i2) (cur i3)).
  - exact H1.
  - eapply laid_lims; [|exact Hl]. exact HL1.
  - intros p. destruct (H3 p) as [H4 H5]. rewrite Hw. unfold cur, lims. split; [lia|].
    destruct H5 as [E|[Hne Hg]].
    + left. rewrite E, Z.eqb_refl. done.
    + right. apply Z.eqb_neq in Hne as Hne'. rewrite Hne'. split; [done|]. split; [done|].
      split; [done|]. rewrite <- HL1, <- HL2. lia.
  - by constructor.
Qed.

Section Close.
Context (b d f cmd sec : Z) (s0 s1 s : pstate) (lb : list access) (behind : list place).
Hypothesis HP : pools_ok.
Hypothesis H0 : info_ok (info s0).
Hypothesis H1 : info_ok (info s1).
Hypothesis HL1 : forall p, limit p (info s1) = limit p (info s0).
Hypothesis Hc : forall p, base p (info s0) <= base p (info s1) /\ (gran p | base p (info s1)).
Hypothesis T1 : trace s1 = trace s0 ++ open_log b d f cmd sec.
Hypothesis Hs : info_ok (info s).
Hypothesis HL2 : forall p, limit p (info s) = limit p (info s1).
Hypothesis T2 : trace s = trace s1 ++ lb.
Hypothesis Hlb : scan_log sec lb behind.
Hypothesis Hlaid : laid (lims (info s1)) (cur (info s1)) behind (cur (info s)).

(** The bridge is given up after [k] windows. *)
Lemma close_failed w k sx : (forall p, limit p (info sx) = limit p (info s0)) ->
  trace sx = trace s ++ [Wr 8 b d f PCI_SUB_SEC_BUS (curr_bus_number (info s))] ++
    flat_map (window_log b d f) (take k (all_windows w)) ->
  let s' := snd (bridge_err b d f (command_with cmd (take k (all_windows w))) s0 sx) in
  adv (scan_log b) s0 s' /\ curr_bus_number (info s') = curr_bus_number (info s0).
Proof using All.
  intros HLx Tx s'. destruct (bridge_err_spec b d f (command_with cmd (take k (all_windows w))) s0 sx HLx) as (Eb & El & En & Et).
  fold s' in Eb, El, En, Et. split; [|done].
  apply (failed_adv b d f sec (take k (all_windows w)) behind s0 s' (cur (info s1)) (cur (info s))
    (open_log b d f cmd sec ++ lb ++ [Wr 8 b d f PCI_SUB_SEC_BUS (curr_bus_number (info s))] ++
     flat_map (window_log b d f) (take k (all_windows w)) ++ reset_log b d f (command_with cmd (take k (all_windows w))) ++ [])); try done.
  - rewrite Et, Tx, T2, T1, !app_nil_r. by rewrite <- !app_assoc.
  - apply scan_failed; [done|constructor].
  - intros p. apply Hc.
  - eapply laid_lims; [|exact Hlaid]. exact HL1.
Qed.

Lemma start_le p : 0 <= base p (info s1) <= base p (info s).
Proof using All. pose proof (laid_mono _ _ _ _ Hlaid p). pose proof (H1 p). unfold cur in *. lia. Qed.

Lemma bridge_close_adv :
  let s' := snd (bridge_close b d f cmd s0 s1 s) in
  adv (scan_log b) s0 s' /\ (curr_bus_number (info s') = curr_bus_number (info s0) \/
               curr_bus_number (info s') = curr_bus_number (info s)).
Proof using All.
  assert (forall p, limit p (info s) = limit p (info s0)) as HL by (intros p; by rewrite HL2).
  unfold bridge_close.
  set (sa := cfg_write8 b d f PCI_SUB_SEC_BUS _ s).
  assert (trace sa = trace s ++ [Wr 8 b d f PCI_SUB_SEC_BUS (curr_bus_number (info s))]) as Ta by done.
  destruct (bridge_mem_window _ _ _ MemPf _ _ _ _ _ sa) as [[cmd1 sb]|] eqn:W1.
  2: { destruct (close_failed (fun _ => None) 0 sa HL) as [A B]; [by rewrite app_nil_r|]. by split; [|left]. }
  apply (mem_window_ok b d f MemPf) in W1; [|done|done|done|done|apply (start_le MemPf)].
  destruct W1 as (v1 & E1 & V1 & O1 & D1 & TW1 & ->).
  assert (forall p, limit p (info sb) = limit p (info s0)) as HLb.
  { intros p. by rewrite E1, limit_set_base. }
  set (w1 := if _ =? _ then None else Some (_, v1)) in TW1 |- *.
  destruct (bridge_mem_window _ _ _ Mem _ _ _ _ _ sb) as [[cmd2 sc]|] eqn:W2.
  2: { destruct (close_failed (fun _ => w1) 1 sb HLb) as [A B]; [rewrite TW1, Ta, <- app_assoc; by rewrite <- (app_nil_r (window_log _ _ _ _))|].
       by split; [|left]. }
  apply (mem_window_ok b d f Mem) in W2; [|done|done|done|done|rewrite E1, base_set_base; apply (start_le Mem)].
  destruct W2 as (v2 & E2 & V2 & O2 & D2 & TW2 & ->).
  assert (forall p, limit p (info sc) = limit p (info s0)) as HLc.
  { intros p. by rewrite E2, limit_set_base. }
  set (w2 := if _ =? _ then None else Some (_, v2)) in TW2 |- *.
  destruct (bridge_io_window _ _ _ _ _ sc) as [[cmd3 sd]|] eqn:W3.
  2: { destruct (close_failed (fun p => match p with MemPf => w1 | _ => w2 end) 2 sc HLc) as [A B];
         [rewrite TW2, TW1, Ta, <- !app_assoc; by rewrite <- (app_nil_r (window_log _ _ _ (Mem, _)))|].
       by split; [|left]. }
  apply io_window_ok in W3; [|done|done|rewrite E2, E1, !base_set_base; apply (start_le Io)].
  destruct W3 as (v3 & E3 & V3 & O3 & D3 & TW3 & ->).
  set (w3 := if _ =? _ then None else Some (_, v3)) in TW3 |- *.
  set (w := fun p => match p with MemPf => w1 | Mem => w2 | Io => w3 end).
  assert (info sd = set_base Io v3 (set_base Mem v2 (set_base MemPf v1 (info s)))) as Ed
    by (by rewrite E3, E2, E1).
  split; [|right; cbn [snd cfg_write16 info]; by rewrite Ed, !bus_set_base].
  split; [exact O3|]. split.
  { intros p. cbn [snd cfg_write16 info]. by rewrite Ed, !limit_set_base. }
  eexists _, [PBridge b d f sec (curr_bus_number (info s)) w behind]. split; [|split].
  - cbn [snd cfg_write16 trace]. rewrite TW3, TW2, TW1, Ta, T2, T1, <- !app_assoc. reflexivity.
  - pose proof (scan_bridge b d f cmd sec (curr_bus_number (info s)) w lb behind [] [] Hlb (scan_nil b)) as HS.
    revert HS. cbn [all_windows flat_map]. rewrite <- !app_assoc. cbn [app]. exact (fun x => x).
  - cbn [snd cfg_write16 info].
    apply (bridge_placed _ _ _ _ _ (info s0) (info s1) (info s) (info sd)); try done; intros p; rewrite Ed, !base_set_base.
    + subst w w1 w2 w3. cbv beta. rewrite E2, E1, ?base_set_base. by destruct p.
    + change (info sa) with (info s) in E1, V1, D1. clear w w1 w2 w3 TW1 TW2 TW3.
      rewrite E2, E1, ?base_set_base, ?limit_set_base in *.
      destruct (info s), (info s1); simpl in *.
      destruct p; repeat case_decide; simplify_eq/=; lia || (split; [lia|]; tauto).
Qed.

End Close.

End Steps.

(** ** Counting bridges *)

Section Count.
Variable L : list (Z * Z * Z).

Definition cnt (f : Z * Z * Z -> bool) : Z := zlen (List.filter f L).

Lemma cnt_nonneg f : 0 <= cnt f.
Proof. unfold cnt, zlen. lia. Qed.

Lemma cnt_all f : cnt f <= zlen L.
Proof.
  unfold cnt, zlen. induction L as [|x l IH]; simpl; [lia|]. destruct (f x); simpl; lia.
Qed.

(** Two disjoint parts of a set. *)
Lemma cnt_split f g r : (forall x, f x = true -> r x = true) -> (forall x, g x = true -> r x = true) ->
  (forall x, f x = true -> g x = true -> False) -> cnt f + cnt g <= cnt r.
Proof.
  intros Hf Hg Hd. unfold cnt, zlen. induction L as [|x l IH]; simpl; [lia|].
  specialize (Hf x). specialize (Hg x). specialize (Hd x).
  destruct (f x), (g x), (r x); simpl; try lia; exfalso; auto;
    try (specialize (Hf eq_refl)); try (specialize (Hg eq_refl)); done.
Qed.

Lemma cnt_mono f r : (forall x, f x = true -> r x = true) -> cnt f <= cnt r.
Proof.
  intros H. pose proof (cnt_nonneg (fun _ => false)).
  assert (cnt f + cnt (fun _ => false) <= cnt r) by (by apply cnt_split). lia.
Qed.

(** A part without a member of the list. *)
Lemma cnt_strict f r x : x ∈ L -> (forall y, f y = true -> r y = true) -> r x = true ->
  f x = false -> cnt f + 1 <= cnt r.
Proof.
  intros Hin H Hr Hf.
  assert (1 <= cnt (fun y => bool_decide (y = x))) as H1.
  { unfold cnt, zlen. clear -Hin. induction Hin as [l|y l Hin IH]; simpl.
    - rewrite bool_decide_true by done. simpl. lia.
    - case_bool_decide; simpl; lia. }
  assert (cnt f + cnt (fun y => bool_decide (y = x)) <= cnt r) as H2; [|lia].
  apply cnt_split; [done| |].
  - intros y Hy. apply bool_decide_eq_true in Hy. by subst.
  - intros y Hy1 Hy2. apply bool_decide_eq_true in Hy2. subst. congruence.
Qed.

(** Bridges on buses above [c]; on bus [b] from slot [k]. *)
Definition above (c : Z) : Z := cnt (fun '(b, _, _) => c <? b).
Definition here (b k : Z) : Z := cnt (fun '(b', d, f) => (b' =? b) && (k <=? 8 * d + f)).

Lemma above_next c : above (c + 1) + here (c + 1) 0 <= above c.
Proof.
  apply cnt_split; intros [[b d] f] H; [| |intros H']; bools; lia.
Qed.

Lemma here_mono b k k' : k <= k' -> here b k' <= here b k.
Proof. intros Hk. apply cnt_mono. intros [[b' d] f] H. bools. apply andb_true_iff. split; lia. Qed.

Lemma here_next b d f : (b, d, f) ∈ L -> here b (8 * d + f + 1) + 1 <= here b (8 * d + f).
Proof.
  intros Hin. eapply cnt_strict; [exact Hin| | |].
  - intros [[b' d'] f'] H. bools. apply andb_true_iff. split; lia.
  - apply andb_true_iff. split; lia.
  - apply andb_false_iff. right. lia.
Qed.

Lemma above_here : above 0 + here 0 0 <= zlen L.
Proof.
  transitivity (cnt (fun _ => true)); [|apply cnt_all].
  apply cnt_split; [done|done|]. intros [[b d] f] H1 H2. bools. lia.
Qed.

End Count.

(** ** The scan *)

Section Scan.
Context {P : pci_platform}.

(** The function answers as a bridge when its vendor and header are read. *)
Definition answers_bridge (bus dev f : Z) (h : hw) : bool :=
  let '(vd_code, h) := pci_config_read32 bus dev f PCI_VENDOR_ID_OFFSET h in
  let '(header_type, _) := pci_config_read16 bus dev f PCI_HEADER_TYPE_OFFSET h in
  negb (vd_code =? ALL_ONES) &&
  negb (Z.land header_type PCI_HEADER_TYPE_TYPE_MASK =? PCI_HEADER_TYPE_DEVICE).

(** The functions that ever answer as bridges are in [L]. *)
Definition bridges_in (L : list (Z * Z * Z)) : Prop :=
  forall h bus dev f, 0 <= bus < 256 -> 0 <= dev < 32 -> 0 <= f < 8 ->
  answers_bridge bus dev f h = true -> (bus, dev, f) ∈ L.

Variable T : Prop.
Variable L : list (Z * Z * Z).
Hypothesis pools : pools_ok.
Hypothesis HT : T -> bridges_in L.

Abbreviation busno s := (curr_bus_number (info s)).

(** From slot [k] of bus [b] on, at most [M] is reached as a bus number. *)
Definition bus_inv (b k M : Z) (s : pstate) : Prop :=
  T -> 0 <= b <= busno s /\ busno s + above L (busno s) + here L b k <= M.

Definition enum_ok (n : nat) (enum : Z -> pstate -> outcome (Z * pstate)) : Prop :=
  forall b M s, info_ok (info s) -> (T -> 256 - b <= Z.of_nat n /\ M <= 255) ->
  bus_inv b 0 M s ->
  wpt T (enum b s) (fun '(r, s') => r = 0 /\ adv (scan_log b) s s' /\
    (T -> b <= busno s' /\ busno s' + above L (busno s') <= M)).

Lemma bus_inv_bound b k M s : bus_inv b k M s -> T ->
  0 <= b <= busno s /\ busno s + above L (busno s) <= M /\ busno s <= M.
Proof.
  intros H HT'. specialize (H HT'). unfold above, here in *.
  pose proof (cnt_nonneg L (fun '(x, _, _) => busno s <? x)).
  pose proof (cnt_nonneg L (fun '(b', d, f) => (b' =? b) && (k <=? 8 * d + f))). lia.
Qed.

Lemma bus_inv_mono b k k' M s : k <= k' -> bus_inv b k M s -> bus_inv b k' M s.
Proof. intros Hk H HT'. specialize (H HT'). pose proof (here_mono L b k k' Hk). lia. Qed.

Lemma bus_inv_same b k M s s' : busno s' = busno s -> bus_inv b k M s -> bus_inv b k M s'.
Proof. intros E H HT'. rewrite E. by apply H. Qed.

(** What a bridge does to the bus numbers: nothing when it fails, and one more
    than the buses behind it otherwise. *)
Lemma bus_inv_bridge b d f M s s' : (T -> (b, d, f) ∈ L) -> bus_inv b (8 * d + f) M s ->
  (T -> busno s <= busno s' /\ busno s' + above L (busno s') <= busno s + 1 + above L (busno s)) ->
  bus_inv b (8 * d + f + 1) M s'.
Proof.
  intros Hin H H' HT'. specialize (H HT'). specialize (H' HT').
  pose proof (here_next L b d f (Hin HT')). lia.
Qed.

(** A register of bus [b] is read. *)
Lemma adv_read b s0 s s' width d f off v : info s' = info s -> trace s' = trace s ++ [Rd width b d f off v] ->
  adv (scan_log b) s0 s -> adv (scan_log b) s0 s'.
Proof.
  intros Ei Et. apply (adv_suffix _ _ _ _ _ [Rd width b d f off v]); [done|done|]. intros l t H.
  rewrite <- (app_nil_r t). apply scan_app; [done|]. apply scan_read, scan_nil.
Qed.

(** The registers of a bridge before the alignments. *)
Lemma bridge_start b d f s : exists cmd sa,
  (forall enum, pci_program_bridge enum b d f s =
     (let '(ok, s1) := bridge_open sa in
      if ok then
        let! (ret, s2) := enum (curr_bus_number (info s1)) s1 in
        if negb (ret =? 0) then Ok (bridge_err b d f cmd s s2)
        else Ok (bridge_close b d f cmd s s1 s2)
      else Ok (bridge_err b d f cmd s s1))) /\
  info sa = set_bus (u8 (busno s + 1)) (info s) /\ trace sa = trace s ++ open_log b d f cmd (busno sa).
Proof.
  pose proof (read16_same b d f PCI_COMMAND_OFFSET s) as R. unfold pci_program_bridge.
  destruct (cfg_read16 b d f PCI_COMMAND_OFFSET s) as [cmd s'] eqn:E. destruct R as [I1 T1].
  exists cmd. eexists. split; [intros enum; reflexivity|]. simpl. rewrite I1, T1.
  split; [done|]. unfold open_log. by rewrite <- !app_assoc.
Qed.

Lemma program_bridge_adv n enum b d f M s : enum_ok n enum -> info_ok (info s) ->
  (T -> 256 - b <= Z.of_nat (S n) /\ M <= 255) -> (T -> (b, d, f) ∈ L) ->
  bus_inv b (8 * d + f) M s ->
  wpt T (pci_program_bridge enum b d f s) (fun '(_, s') =>
    adv (scan_log b) s s' /\ bus_inv b (8 * d + f + 1) M s').
Proof.
  intros Henum Hs Hfuel Hin Hbus.
  destruct (bridge_start b d f s) as (cmd & sa & -> & Ia & Hta).
  assert (forall p, base p (info sa) = base p (info s) /\ limit p (info sa) = limit p (info s)) as Hsa
    by (rewrite Ia; by intros []).
  assert (busno sa = u8 (busno s + 1)) as Hba by by rewrite Ia.
  assert (info_ok (info sa)) as Oa.
  { intros p. destruct (Hsa p) as [-> ->]. apply Hs. }
  assert (forall s1, busno s1 = busno s -> bus_inv b (8 * d + f + 1) M s1) as Hfail.
  { intros s1 E. apply (bus_inv_bridge b d f M s); [done|done|]. intros HT'. rewrite E. lia. }
  destruct (bridge_open sa) as [[] s1] eqn:Eo.
  2: { pose proof (bridge_open_fails _ _ Eo) as [HL Ht].
       destruct (bridge_err_spec b d f cmd s s1) as (Eb & El & En & Et).
       { intros p. rewrite HL. apply Hsa. }
       destruct (bridge_err b d f cmd s s1) as [r' s3]. cbn [wpt snd] in *. split; [|by apply Hfail].
       apply (failed_adv b d f (busno sa) [] [] s _ (cur (info s)) (cur (info s))
         (open_log b d f cmd (busno sa) ++ reset_log b d f cmd ++ [])); try done.
       - rewrite Et, Ht, Hta, app_nil_r. by rewrite <- app_assoc.
       - apply scan_unopened, scan_nil.
       - by constructor. }
  apply bridge_open_ok in Eo; [|done|done]. destruct Eo as (O1 & L1 & P1 & B1 & C1).
  assert (T -> busno s1 = busno s + 1 /\ 0 <= b <= busno s /\ busno s + 1 <= 255 /\
    busno s + 1 + above L (busno s) <= M) as HB.
  { intros HT'. pose proof (Hfuel HT'). pose proof (Hbus HT').
    pose proof (here_next L b d f (Hin HT')).
    pose proof (bus_inv_bound _ _ _ _ (Hfail s eq_refl) HT').
    pose proof (cnt_nonneg L (fun '(x, _, _) => busno s <? x)).
    pose proof (cnt_nonneg L (fun '(b', d', f') => (b' =? b) && (8 * d + f + 1 <=? 8 * d' + f'))).
    unfold above, here in *. rewrite B1, Hba, u8_small by lia. lia. }
  eapply wpt_bind.
  - apply (Henum _ (busno s + 1 + above L (busno s))); [done| |].
    + intros HT'. pose proof (HB HT'). pose proof (Hfuel HT'). lia.
    + intros HT'. pose proof (HB HT') as (E & ? & ?). rewrite E.
      pose proof (above_next L (busno s)). lia.
  - intros [r s2] (-> & (O2 & L2 & lb & behind & T2 & K2 & Hl) & B). cbn [negb Z.eqb].
    destruct (bridge_close_adv b d f cmd (busno s1) s s1 s2 lb behind) as [A' B']; try done.
    { intros p. rewrite L1. apply Hsa. }
    { intros p. destruct (Hsa p) as [<- _]. apply C1. }
    { by rewrite P1, Hta, B1. }
    destruct (bridge_close b d f cmd s s1 s2) as [r' s3]. simpl in *. split; [done|].
    destruct B' as [E|E]; [by apply Hfail|].
    apply (bus_inv_bridge b d f M s); [done|done|]. intros HT'.
    specialize (HB HT'). specialize (B HT'). simpl in B. rewrite E. lia.
Qed.

(** One function of a device. *)
Lemma fun_body_ok n enum b d f M s0 s : enum_ok n enum ->
  (T -> 256 - b <= Z.of_nat (S n) /\ M <= 255) -> 0 <= d < 32 -> 0 <= f <= 8 ->
  adv (scan_log b) s0 s -> bus_inv b (8 * d + f) M s ->
  wpt T (fun_body enum b d (f, s)) (fun x =>
    match x with
    | inl (f', s') => (f' = f + 1 /\ f < PCI_ENUM_MAX_FUN) /\ adv (scan_log b) s0 s' /\ bus_inv b (8 * d + f') M s'
    | inr s' => adv (scan_log b) s0 s' /\ bus_inv b (8 * (d + 1)) M s'
    end).
Proof.
  intros Henum Hfuel Hd Hf Ha Hbus. unfold fun_body, PCI_ENUM_MAX_FUN.
  assert (forall s' f', (f' = 8 \/ f' = f + 1) -> bus_inv b (8 * d + f + 1) M s' -> f < 8 ->
    bus_inv b (8 * d + f') M s') as Hnext.
  { intros s' f' Hf' Hb Hlt. eapply bus_inv_mono; [|exact Hb]. lia. }
  case_if.
  { simpl. split; [done|]. eapply bus_inv_mono; [|exact Hbus]. lia. }
  assert (bus_inv b (8 * d + (f + 1)) M s) as Hskip by (eapply bus_inv_mono; [|exact Hbus]; lia).
  case_if; [by simpl|].
  pose proof (fun HT' => HT HT' (dev_state s) b d f) as Hans. unfold answers_bridge in Hans.
  pose proof (read32_same b d f PCI_VENDOR_ID_OFFSET s) as R1. unfold cfg_read32 in *.
  destruct (pci_config_read32 b d f PCI_VENDOR_ID_OFFSET (dev_state s)) as [vd h1].
  destruct R1 as [I1 T1]. set (s1 := MkP h1 _ _) in *.
  pose proof (adv_read b s0 s s1 _ _ _ _ _ I1 T1 Ha) as Ha1.
  case_if; [by simpl|].
  pose proof (read16_same b d f PCI_HEADER_TYPE_OFFSET s1) as R2. unfold cfg_read16 in *.
  change (dev_state s1) with h1 in *.
  destruct (pci_config_read16 b d f PCI_HEADER_TYPE_OFFSET h1) as [ht h2].
  destruct R2 as [I2 T2]. set (s2 := MkP h2 _ _) in *.
  pose proof (adv_read b s0 s1 s2 _ _ _ _ _ I2 T2 Ha1) as Ha2.
  assert (bus_inv b (8 * d + f) M s2) as Hbus2 by exact Hbus. clearbody s2.
  apply wpt_bind with (fun s' => adv (scan_log b) s0 s' /\ bus_inv b (8 * d + f + 1) M s').
  - case_if.
    + eapply wpt_mono; [apply program_bars_adv; exact (adv_ok _ _ _ Ha2)|].
      intros s3 [A B]. split.
      * eapply adv_trans; [|exact Ha2|exact A]. intros l1 t1 l2 t2 K1 K2. apply scan_app; [done|].
        rewrite <- (app_nil_r l2), <- (app_nil_r t2). eapply scan_device; [exact K2|apply scan_nil].
      * eapply bus_inv_same; [exact B|]. eapply bus_inv_mono; [|exact Hbus2]. lia.
    + eapply wpt_bind; [apply (program_bridge_adv n enum b d f M s2); try done|].
      * exact (adv_ok _ _ _ Ha2).
      * intros HT'. apply (Hans HT'); [|lia|lia|done].
        pose proof (Hfuel HT'). pose proof (bus_inv_bound _ _ _ _ Hbus HT'). lia.
      * intros [r s3] [A B]. split; [|done]. by eapply adv_trans; [apply scan_app| |].
  - intros s3 [A B]. case_if; simpl.
    + split; [done|]. replace (8 * (d + 1)) with (8 * d + 8) by lia.
      apply Hnext; [lia|done|lia].
    + split; [lia|]. split; [done|]. apply Hnext; [lia|done|lia].
Qed.

(** One device of a bus. *)
Lemma dev_body_ok n enum b d M s0 s : enum_ok n enum ->
  (T -> 256 - b <= Z.of_nat (S n) /\ M <= 255) -> 0 <= d ->
  adv (scan_log b) s0 s -> bus_inv b (8 * d) M s ->
  wpt T (dev_body enum b (d, s)) (fun x =>
    match x with
    | inl (d', s') => (d' = d + 1 /\ d < PCI_ENUM_MAX_DEV) /\ adv (scan_log b) s0 s' /\ bus_inv b (8 * d') M s'
    | inr (r, s') => r = 0 /\ adv (scan_log b) s0 s' /\ bus_inv b (8 * d) M s'
    end).
Proof.
  intros Henum Hfuel Hd Ha Hbus. unfold dev_body, PCI_ENUM_MAX_DEV. case_if; [done|].
  assert (bus_inv b (8 * (d + 1)) M s) as Hskip by (eapply bus_inv_mono; [|exact Hbus]; lia).
  pose proof (read32_same b d 0 PCI_VENDOR_ID_OFFSET s) as R1.
  destruct (cfg_read32 b d 0 PCI_VENDOR_ID_OFFSET s) as [vd s1]. destruct R1 as [I1 T1].
  pose proof (adv_read b s0 s s1 _ _ _ _ _ I1 T1 Ha) as Ha1.
  assert (busno s1 = busno s) as Eb by by rewrite I1.
  case_if; [simpl; split; [lia|]; split; [done|by eapply bus_inv_same]|].
  apply wpt_bind with (fun s' => adv (scan_log b) s0 s' /\ bus_inv b (8 * (d + 1)) M s').
  - apply (wpt_loop T (fun '(f, s') => 0 <= f <= 8 /\ adv (scan_log b) s0 s' /\ bus_inv b (8 * d + f) M s')
      (fun '(f, _) => Z.to_nat (9 - f))).
    + intros [f s2] (Hf & A & B). eapply wpt_mono; [by apply (fun_body_ok n enum b d f M s0); try lia|].
      intros [[f' s3]|s3]; [|done]. unfold PCI_ENUM_MAX_FUN.
      intros ([-> Hlt] & A' & B'). split; [split; [lia|done]|lia].
    + split; [done|]. split; [done|]. rewrite Z.add_0_r. by eapply bus_inv_same.
    + simpl. lia.
  - intros s2 [A B]. simpl. split; [lia|done].
Qed.

Lemma enum_bus_ok n : enum_ok n (pci_enum_bus n).
Proof.
  induction n as [|n IH]; intros b M s Hs Hfuel Hbus.
  { simpl. intros HT'. pose proof (Hfuel HT'). pose proof (bus_inv_bound _ _ _ _ Hbus HT'). lia. }
  cbn [pci_enum_bus]. apply (wpt_loop T (fun '(d, s') => 0 <= d /\ adv (scan_log b) s s' /\ bus_inv b (8 * d) M s')
    (fun '(d, _) => Z.to_nat (33 - d))); [|split; [lia|split; [by apply adv_refl; [apply scan_nil|]|done]]|simpl; lia].
  intros [d s1] (Hd & A & B).
  eapply wpt_mono; [by apply (dev_body_ok n (pci_enum_bus n) b d M s)|].
  intros [[d' s2]|[r s2]]; unfold PCI_ENUM_MAX_DEV.
  - intros ([-> Hlt] & A' & B'). split; [split; [lia|done]|lia].
  - intros (-> & A' & B'). split; [done|]. split; [done|]. intros HT'.
    pose proof (bus_inv_bound _ _ _ _ B' HT'). lia.
Qed.

End Scan.

(** ** The enumeration *)

Section Result.
Context {P : pci_platform}.

Lemma info0_ok : pools_ok -> info_ok enum_info0.
Proof.
  intros (H1 & H2 & H3 & H4 & H5 & H6 & H7 & H8 & H9). unfold enum_info0.
  intros p. rewrite !(u32_small PCI_MMIO32_BASE), !(u32_small PCI_MMIO32_PREFETCH_BASE),
    !(u32_small PCI_IO32_BASE) by lia.
  rewrite !u32_small by lia. destruct p; simpl; lia.
Qed.

(** What the regions and windows of an enumeration satisfy. *)
Definition well_placed (l : list place) : Prop :=
  let rs := flat_map regions l in
  Forall (fun '(p, a, b) => base p enum_info0 <= a /\ a < b /\ b <= limit p enum_info0 /\
            natural a (b - a)) rs /\
  apart rs /\
  Forall (fun ns => apart (flat_map extents ns) /\ Forall covers ns) (l :: flat_map buses l).

Lemma laid_well_placed l c : laid (lims enum_info0) (cur enum_info0) l c -> well_placed l.
Proof.
  intros H. pose proof (laid_regions _ _ _ _ H) as (R1 & R2 & R3).
  pose proof (laid_buses _ _ _ _ H) as [_ B]. split; [|done].
  eapply Forall_impl; [apply Forall_and; split; [exact R1|exact R3]|].
  intros [[p a] b] [(? & ? & ?) (? & ?)]. done.
Qed.

(** The accesses of an enumeration, after those of [pci_pre_enum], are those that leave a
    tree in the registers, and the tree is well placed. *)
Definition enumerated (h : hw) (s : pstate) : Prop :=
  exists l tree, trace s = trace (pci_pre_enum (MkP h enum_info0 [])) ++ l /\
    scan_log 0 l tree /\ well_placed tree.

Lemma pre_enum_same s : info (pci_pre_enum s) = info s.
Proof.
  unfold pci_pre_enum, cfg_read32.
  destruct (pci_config_read32 _ _ _ _ _) as [r1 h1]. destruct (pci_config_read32 _ _ _ _ _) as [r2 h2].
  by destruct (pci_config_read32 _ _ _ _ _) as [r3 h3].
Qed.

Lemma enum_do_ok T L h n : pools_ok -> (T -> bridges_in L /\ zlen L <= 255 /\ (256 <= n)%nat) ->
  wpt T (pci_enum_do n h) (fun '(r, s) => r = 0 /\ enumerated h s /\ info_ok (info s) /\
    (T -> curr_bus_number (info s) <= zlen L)).
Proof.
  intros HP HT. unfold pci_enum_do, enumerated.
  pose proof (pre_enum_same (MkP h enum_info0 [])) as Ei. simpl in Ei.
  set (s0 := pci_pre_enum _) in *. clearbody s0. eapply wpt_mono.
  - apply (enum_bus_ok T L HP (fun HT' => proj1 (HT HT')) n 0 (zlen L)).
    + rewrite Ei. by apply info0_ok.
    + intros HT'. specialize (HT HT'). lia.
    + intros HT'. pose proof (above_here L). rewrite Ei. simpl. lia.
  - intros [r s] (-> & (Hok & _ & l & tree & Hl & HK & Hlaid) & Hb). split; [done|]. rewrite Ei in Hlaid. split.
    + exists l, tree. split; [done|]. split; [done|]. by eapply laid_well_placed.
    + split; [done|]. intros HT'. specialize (Hb HT').
      pose proof (cnt_nonneg L (fun '(x, _, _) => curr_bus_number (info s) <? x)).
      unfold above in *. lia.
Qed.

(** C35: The enumeration of the PCI buses places regions soundly.  Whatever the
    devices answer to each access, when [pci_enum_do] returns it returns 0, and
    the configuration accesses it made are those of a tree: every base address
    register is sized and then either gets its old value back or the start of its region,
    whose size is the one it answered; every bridge gets its bus numbers, then
    the buses behind it are scanned, then its windows and its command word are
    written; a bridge that is given up gets its bus numbers cleared and its
    command word back, and keeps the windows already written.  In that tree, bridges that
    were given up apart, every region lies inside its pool, starts on a
    multiple of its size (when that is a power of two) and of a page (when it is no larger), and
    ends before any region of the same pool placed later begins; on every bus
    the regions and bridge windows are apart in the same way, and the windows of
    every bridge, on the granularity of its registers, contain all regions
    behind it.  It does return when at most 255 functions ever answer as bridges,
    and then uses no more bus numbers than there are bridges. *)
Theorem pci_enum_sound : pools_ok -> forall h,
  (forall fuel r s, pci_enum_do fuel h = Ok (r, s) -> r = 0 /\ enumerated h s) /\
  (forall L, bridges_in L -> zlen L <= 255 ->
     exists s, pci_enum_do 256 h = Ok (0, s) /\ enumerated h s /\
       curr_bus_number (info s) <= zlen L).
Proof.
  intros HP h. split.
  - intros fuel r s E. pose proof (enum_do_ok False [] h fuel HP) as H.
    rewrite E in H. destruct H as (-> & H & _); [done|]. done.
  - intros L HL Hlen. pose proof (enum_do_ok True L h 256 HP) as H.
    destruct (pci_enum_do 256 h) as [[r s]| |]; simpl in H; [|by destruct H|by destruct H].
    destruct H as (-> & H1 & _ & H2); [done|]. exists s. auto.
Qed.

End Result.

Import ExamplePci.

Lemma default_pools rom : @pools_ok (bus_of rom).
Proof. repeat split; try (vm_compute; congruence). by exists 16. Qed.

(** A register without writable bits reads as its reset value, always. *)
Lemma read_only_value rom a h :
  match assoc a rom with Some (m, _) => m = 0 | None => True end ->
  reg_value rom a h = reg_value rom a [].
Proof.
  unfold reg_value. destruct (assoc a rom) as [[m v]|]; [|done].
  intros ->. by rewrite !Z.land_0_r.
Qed.

Lemma assoc_in {A} a (v : A) r : assoc a r = Some v -> In (a, v) r.
Proof.
  induction r as [|[b w] r IH]; simpl; [done|]. case_if; [|auto].
  subst. intros [= <-]. by left.
Qed.

(** The ECAM address of a register. *)
Lemma ecam_address {P : pci_platform} b d f off : 0 <= b < 256 -> 0 <= d < 32 -> 0 <= f < 8 ->
  0 <= off < 4096 ->
  pci_config_ecam_make_address b d f off =
  u32 (PCI_ECAM_BASE + (b * 2 ^ 20 + d * 2 ^ 15 + f * 2 ^ 12 + off)).
Proof.
  intros Hb Hd Hf Ho. unfold pci_config_ecam_make_address. f_equal. f_equal.
  change 255 with (Z.ones 8). change 31 with (Z.ones 5). change 7 with (Z.ones 3).
  change 4095 with (Z.ones 12). rewrite !Z.land_ones, !Z.mod_small by lia.
  rewrite (Z.lor_comm (Z.shiftl b 20)), (lor_shift_add (Z.shiftl d 15)), Z.shiftl_mul_pow2
    by (rewrite ?Z.shiftl_mul_pow2 by lia; lia).
  replace (d * 2 ^ 15 + b * 2 ^ 20) with (Z.shiftl (d + b * 2 ^ 5) 15)
    by (rewrite Z.shiftl_mul_pow2 by lia; lia).
  rewrite (Z.lor_comm (Z.shiftl _ 15)), (lor_shift_add (Z.shiftl f 12)), Z.shiftl_mul_pow2
    by (rewrite ?Z.shiftl_mul_pow2 by lia; lia).
  replace (f * 2 ^ 12 + (d + b * 2 ^ 5) * 2 ^ 15) with (Z.shiftl (f + (d + b * 2 ^ 5) * 2 ^ 3) 12)
    by (rewrite Z.shiftl_mul_pow2 by lia; lia).
  rewrite Z.lor_comm, lor_shift_add by lia. lia.
Qed.

(** A function that answers has a vendor register. *)
Lemma answers_present rom b d f h : 0 <= b < 256 -> 0 <= d < 32 -> 0 <= f < 8 ->
  @answers_bridge (bus_of rom) b d f h = true ->
  In (0xC0000000 + (b * 2 ^ 20 + d * 2 ^ 15 + f * 2 ^ 12)) (map fst rom).
Proof.
  intros Hb Hd Hf. unfold answers_bridge.
  destruct (pci_config_read32 _ _ _ _ _) as [vd h1] eqn:E.
  destruct (pci_config_read16 _ _ _ _ _) as [ht h2]. intros H. apply andb_true_iff in H as [H _].
  apply negb_true_iff, Z.eqb_neq in H.
  assert (vd = u32 (reg_value rom (pci_config_ecam_make_address (P := bus_of rom) b d f 0) h)) as Ev
    by (by injection E as <- _).
  rewrite ecam_address in Ev by lia. simpl PCI_ECAM_BASE in Ev. rewrite Z.add_0_r in Ev.
  rewrite (u32_small (_ + _)) in Ev by lia.
  set (a := 0xC0000000 + (b * 2 ^ 20 + d * 2 ^ 15 + f * 2 ^ 12)) in *.
  assert (Z.land a (not32 4095) = a) as Ha.
  { change 4095 with (2 ^ 12 - 1). rewrite (land_not32 a 12) by lia. rewrite (Z.mod_small a) by lia.
    assert (a mod 2 ^ 12 = 0) as ->; [|lia].
    replace a with ((0xC0000 + (b * 2 ^ 8 + d * 2 ^ 3 + f)) * 2 ^ 12) by lia.
    apply Z.mod_mul. lia. }
  unfold reg_value in Ev. rewrite Ha in Ev.
  destruct (assoc a rom) as [x|] eqn:Ea; [|by rewrite Ev in H].
  apply assoc_in in Ea. by apply (in_map fst) in Ea.
Qed.

(** On the example bus only the three functions present can answer. *)
Lemma small_bus_bridges : @bridges_in (bus_of small_bus) [(0, 1, 0); (1, 0, 0); (0, 2, 0)].
Proof.
  intros h b d f Hb Hd Hf H. apply answers_present in H; [|done..]. simpl in H.
  assert (b = 0 /\ d = 1 /\ f = 0 \/ b = 1 /\ d = 0 /\ f = 0 \/ b = 0 /\ d = 2 /\ f = 0) as E.
  { repeat match type of H with
      | _ \/ _ => destruct H as [H|H]
      | False => destruct H
      | ?x = _ => let v := eval vm_compute in x in change x with v in H; lia
      end. }
  rewrite !elem_of_cons. destruct E as [(-> & -> & ->)|[(-> & -> & ->)|(-> & -> & ->)]]; auto.
Qed.

Lemma pci_enum_sound_witness :
  @pools_ok (bus_of small_bus) /\ @bridges_in (bus_of small_bus) [(0, 1, 0); (1, 0, 0); (0, 2, 0)] /\
  exists s, @pci_enum_do (bus_of small_bus) 256 [] = Ok (0, s) /\ @enumerated (bus_of small_bus) [] s.
Proof.
  split; [apply default_pools|]. split; [apply small_bus_bridges|].
  destruct (@pci_enum_sound (bus_of small_bus) (default_pools _) []) as [_ H].
  destruct (H [(0, 1, 0); (1, 0, 0); (0, 2, 0)] small_bus_bridges) as (s & H1 & H2 & _).
  - vm_compute. congruence.
  - exists s. split; [exact H1|exact H2].
Defined.

(** From an evaluated test of the result to the result. *)
Lemma run_checked {A} (o : outcome (Z * A)) (chk : A -> bool) :
  match o with Ok (r, s) => (r =? 0) && chk s | _ => false end = true ->
  exists s, o = Ok (0, s) /\ chk s = true.
Proof. destruct o as [[r s]| |]; [|done|done]. intros H. bools. subst. eauto. Qed.

(** The values other than zero and all ones that were written to base address registers. *)
Definition bars_written (l : list access) : list (Z * Z * Z * Z) :=
  omap (fun a => match a with
    | Wr 32 b d _ off v => if (v =? 0) || (v =? ALL_ONES) then None else Some (b, d, off, v)
    | _ => None
    end) l.

(** The example: behind the bridge a megabyte, a page and a port
    range inside its windows, beside it a region and a port range after them. *)
Example small_bus_regions : exists s, @pci_enum_do (bus_of small_bus) 256 [] = Ok (0, s) /\
  bars_written (drop 5 (trace s)) =
    [(1, 0, 0x10, 0x80000000); (1, 0, 0x14, 0x88000000); (1, 0, 0x18, 0x2000);
     (0, 2, 0x10, 0x80100000); (0, 2, 0x14, 0x3000)].
Proof.
  match goal with |- exists s, _ /\ @?Q s =>
    destruct (run_checked (@pci_enum_do (bus_of small_bus) 256 []) (fun s => bool_decide (Q s)))
      as (s & E & H); [vm_compute; reflexivity|] end.
  exists s. split; [exact E|]. by apply bool_decide_eq_true in H.
Qed.

(** ** Defects *)

(** A bridge that fails keeps a window open.  On a bus with a bridge behind
    which the memory pool is used into its last megabyte, the end of the memory
    window cannot be aligned and the bridge is given up, but its prefetchable window has
    already been programmed and its command register is left with memory
    decoding enabled; the cursors are put back, and the device beside the
    bridge is given a prefetchable region inside that window. *)
Theorem failed_bridge_keeps_window :
  exists s, @pci_enum_do (bus_of full_bus) 256 [] = Ok (0, s) /\
    Z.land (reg_now full_bus 0 2 PCI_BAR0_OFFSET (dev_state s)) (not32 15) = 0x88000000 /\
    Z.land (reg_now full_bus 0 1 PCI_COMMAND_OFFSET (dev_state s)) PCI_COMMAND_MEM_SPACE <> 0 /\
    Z.land (reg_now full_bus 0 1 PCI_PRIMARY_BUS (dev_state s)) 0xffffff = 0 /\
    Z.shiftl (Z.land (reg_now full_bus 0 1 PCI_PREFETCH_BASE_OFF (dev_state s)) 0xfff0) 16 = 0x88000000 /\
    Z.lor (Z.land (reg_now full_bus 0 1 PCI_PREFETCH_BASE_OFF (dev_state s)) 0xfff00000) 0xfffff = 0x88000000 + MB - 1.
Proof.
  match goal with |- exists s, _ /\ @?Q s =>
    destruct (run_checked (@pci_enum_do (bus_of full_bus) 256 []) (fun s => bool_decide (Q s)))
      as (s & E & H); [vm_compute; reflexivity|] end.
  exists s. split; [exact E|]. by apply bool_decide_eq_true in H.
Qed.

(** A register as large as its pool is refused: the limit of a pool is the
    address of its last byte, and a region may not end beyond it. *)
Lemma whole_pool_refused {P : pci_platform} : pools_ok ->
  pci_fit_bar (base Mem enum_info0) PCI_MMIO32_LENGTH (limit Mem enum_info0) = None.
Proof.
  intros (H1 & H2 & H3 & _). unfold enum_info0, base, limit, mem, mem_limit.
  rewrite (u32_small PCI_MMIO32_BASE), u32_small by lia.
  unfold pci_fit_bar. set (al := if _ <? _ then _ else _).
  destruct (pci_enum_next_aligned32 _ _ _) as [v|] eqn:E; [|done].
  unfold pci_enum_next_aligned32 in E. repeat (case_if_in E; [done|]). injection E as <-.
  case_if; [done|]. lia.
Qed.

Lemma loop_stuck {S R} n (body : S -> outcome (S + R)) s : body s = NoFuel -> loop n body s = NoFuel.
Proof. intros E. destruct n; simpl; [done|]. by rewrite E. Qed.

(** The bus number is a byte that nothing checks: on hardware that answers as
    a bridge on every bus the scan never ends, since after bus 255 it descends
    into bus 0 again.  No amount of nesting is enough. *)
Theorem bus_number_wraps fuel h : @pci_enum_do bridges_everywhere fuel h = NoFuel.
Proof.
  assert (forall n bus s b, info s = set_bus b (@enum_info0 bridges_everywhere) ->
    @pci_enum_bus bridges_everywhere n bus s = NoFuel) as H.
  { clear. intros n. induction n as [|n IH]; intros bus s b Hs; [done|].
    cbn [pci_enum_bus]. apply loop_stuck.
    assert (forall f s', info s' = set_bus b (@enum_info0 bridges_everywhere) ->
      @pci_program_bridge bridges_everywhere (pci_enum_bus n) bus 0 f s' = NoFuel) as Hb.
    { intros f s' Hs'. destruct (bridge_start bus 0 f s') as (cmd & sa & -> & Ha & _).
      rewrite Hs' in Ha. destruct sa as [ha ia ta]. simpl in Ha. subst ia.
      change (bridge_open _) with (true, @MkP bridges_everywhere ha
        (set_bus (u8 (b + 1)) (@enum_info0 bridges_everywhere)) ta). cbv iota beta.
      rewrite (IH _ _ (u8 (b + 1))); done. }
    unfold dev_body.
    pose proof (@read32_same bridges_everywhere bus 0 0 PCI_VENDOR_ID_OFFSET s) as R.
    change (cfg_read32 bus 0 0 PCI_VENDOR_ID_OFFSET s) with (0x10000, snd (@cfg_read32 bridges_everywhere bus 0 0 PCI_VENDOR_ID_OFFSET s)) in *.
    destruct R as [I1 _]. set (s1 := snd _) in *. clearbody s1. cbv beta iota. rewrite Hs in I1.
    change (PCI_ENUM_MAX_DEV <=? 0) with false. change (0x10000 =? ALL_ONES) with false. cbv iota.
    rewrite loop_stuck; [done|]. unfold fun_body.
    change (PCI_ENUM_MAX_FUN <=? 0) with false. change (pci_pre_enum_cb bus 0 0) with false. cbv beta iota.
    pose proof (@read32_same bridges_everywhere bus 0 0 PCI_VENDOR_ID_OFFSET s1) as R.
    change (cfg_read32 bus 0 0 PCI_VENDOR_ID_OFFSET s1) with (0x10000, snd (@cfg_read32 bridges_everywhere bus 0 0 PCI_VENDOR_ID_OFFSET s1)) in *.
    destruct R as [I2 _]. set (s2 := snd _) in *. clearbody s2. cbv beta iota. rewrite I1 in I2.
    change (0x10000 =? ALL_ONES) with false. cbv iota.
    pose proof (@read16_same bridges_everywhere bus 0 0 PCI_HEADER_TYPE_OFFSET s2) as R.
    change (cfg_read16 bus 0 0 PCI_HEADER_TYPE_OFFSET s2) with (1, snd (@cfg_read16 bridges_everywhere bus 0 0 PCI_HEADER_TYPE_OFFSET s2)) in *.
    destruct R as [I3 _]. set (s3 := snd _) in *. clearbody s3. cbv beta iota. rewrite I2 in I3.
    change (Z.land 1 PCI_HEADER_TYPE_TYPE_MASK =? PCI_HEADER_TYPE_DEVICE) with false. cbv iota.
    by rewrite Hb. }
  unfold pci_enum_do. apply (H _ _ _ 0). by rewrite pre_enum_same.
Qed.
