(* ===== verification/Hob.v ===== *)
(** * Hand-off blocks ([src/x86/hob.c])

    The list of blocks that the firmware support package leaves in memory: a
    buffer of bytes and an offset in it, where a read outside is [Oob].  Memory
    holds little-endian words.  [hob] is the abstract block and [hobs_bytes] a
    list of blocks in memory; the theorems say what the walkers return for it. *)

From Stdlib Require Import ZArith Lia.
From stdpp Require Import prelude.
From S2P Require Import Prelude Elf.

Local Open Scope Z_scope.

(** ** Words in memory *)

(** An [n]-byte word at an offset. *)
Definition rd_word (l : list Z) (off n : Z) : outcome Z :=
  let! b := rd_bytes l off n in Ok (le_value b).

(** The [n] bytes of a word. *)
Fixpoint le_bytes (n : nat) (v : Z) : list Z :=
  match n with O => [] | S n => v mod 256 :: le_bytes n (v / 256) end.

Lemma length_le_bytes n v : length (le_bytes n v) = n.
Proof. revert v. induction n; intros v; simpl; [done|]. by rewrite IHn. Qed.

Lemma zlen_le_bytes n v : zlen (le_bytes n v) = Z.of_nat n.
Proof. unfold zlen. by rewrite length_le_bytes. Qed.

Lemma le_value_bytes n v : le_value (le_bytes n v) = v mod 256 ^ Z.of_nat n.
Proof.
  revert v. induction n as [|n IH]; intros v; simpl le_value.
  - simpl. by rewrite Z.mod_1_r.
  - rewrite IH, Nat2Z.inj_succ, Z.pow_succ_r, Z.rem_mul_r by lia. done.
Qed.

Lemma rd_bytes_mid a b c n : n = zlen b -> rd_bytes (a ++ b ++ c) (zlen a) n = Ok b.
Proof.
  intros ->. unfold rd_bytes. rewrite !zlen_app.
  pose proof (zlen_nonneg a). pose proof (zlen_nonneg b). pose proof (zlen_nonneg c).
  rewrite !(proj2 (Z.leb_le _ _)) by lia. simpl. f_equal. unfold slice, zlen.
  by rewrite !Nat2Z.id, drop_app_length, take_app_length.
Qed.

Lemma rd_word_mid a n v c : rd_word (a ++ le_bytes n v ++ c) (zlen a) (Z.of_nat n) =
  Ok (v mod 256 ^ Z.of_nat n).
Proof.
  unfold rd_word. rewrite rd_bytes_mid by (by rewrite zlen_le_bytes). simpl.
  by rewrite le_value_bytes.
Qed.

(** The same at an offset given by its value. *)
Lemma rd_word_at l off n v a c : l = a ++ le_bytes n v ++ c -> off = zlen a ->
  0 <= v < 256 ^ Z.of_nat n -> rd_word l off (Z.of_nat n) = Ok v.
Proof. intros -> -> Hv. by rewrite rd_word_mid, Z.mod_small. Qed.

Lemma rd_word_ok l off n : 0 <= off -> 0 <= n -> off + n <= zlen l ->
  rd_word l off n = Ok (le_value (slice l off n)).
Proof.
  intros H1 H2 H3. unfold rd_word, rd_bytes. by rewrite !(proj2 (Z.leb_le _ _)) by lia.
Qed.

Lemma le_value_range l : bytes l -> 0 <= le_value l < 256 ^ zlen l.
Proof.
  induction 1 as [|b l Hb H IH]; simpl; [done|]. rewrite zlen_cons.
  rewrite Z.pow_add_r, Z.pow_1_r by (pose proof (zlen_nonneg l); lia). wblia.
Qed.

(** ** Walkers *)

Definition EFI_HOB_TYPE_RESOURCE_DESCRIPTOR : Z := 3.
Definition EFI_HOB_TYPE_END_OF_HOB_LIST : Z := 0xFFFF.
Definition EFI_RESOURCE_SYSTEM_MEMORY : Z := 0.
Definition EFI_RESOURCE_MEMORY_RESERVED : Z := 5.

Definition hob_get_type (l : list Z) (hob : Z) : outcome Z := rd_word l hob 2.

Definition hob_get_length (l : list Z) (hob : Z) : outcome Z := rd_word l (hob + 2) 2.

Definition hob_get_next (l : list Z) (hob : Z) : outcome Z :=
  let! n := hob_get_length l hob in Ok (hob + n).

(** The bytes of [hob_fsp_reserved_guid] in memory. *)
Definition hob_fsp_reserved_guid : list Z :=
  le_bytes 4 0x69a79759 ++ le_bytes 2 0x1373 ++ le_bytes 2 0x4367 ++
  [0xa6; 0xc4; 0xc7; 0xf5; 0x9e; 0xfd; 0x98; 0x6e].

Definition hob_guid_equals (l : list Z) (a : Z) (guid : list Z) : outcome bool :=
  let! g := rd_bytes l a 16 in Ok (bool_decide (g = guid)).

(** Fields of [struct efi_hob_resource_descriptor]. *)
Definition hob_owner (hob : Z) : Z := hob + 8.
Definition hob_resource_type (l : list Z) (hob : Z) : outcome Z := rd_word l (hob + 24) 4.
Definition hob_physical_start (l : list Z) (hob : Z) : outcome Z := rd_word l (hob + 32) 8.
Definition hob_resource_length (l : list Z) (hob : Z) : outcome Z := rd_word l (hob + 40) 8.

Definition find_guid_body (l guid : list Z) (it : Z) : outcome (Z + option Z) :=
  let! t := hob_get_type l it in
  if t =? EFI_HOB_TYPE_END_OF_HOB_LIST then Ok (inr None)
  else
    let! found :=
      (if t =? EFI_HOB_TYPE_RESOURCE_DESCRIPTOR then
         let! rt := hob_resource_type l it in
         if rt =? EFI_RESOURCE_MEMORY_RESERVED then hob_guid_equals l (hob_owner it) guid
         else Ok false
       else Ok false) in
    if found then Ok (inr (Some it))
    else let! it := hob_get_next l it in Ok (inl it).

(** The fuel is the size of the memory that holds the list. *)
Definition hob_find_resource_by_guid (l : list Z) (hoblist : Z) (guid : list Z)
    : outcome (option Z) :=
  loop (S (length l)) (find_guid_body l guid) hoblist.

Definition hob_find_fsp_reserved (l : list Z) (hoblist : Z) : outcome (option Z) :=
  hob_find_resource_by_guid l hoblist hob_fsp_reserved_guid.

(** A callback takes the start, length and type of a resource and its context. *)
Definition hob_mem_map_cb (S : Type) : Type := Z -> Z -> Z -> S -> outcome (Z * S).

Definition iterate_body {S} (l : list Z) (cb : hob_mem_map_cb S) (st : Z * S)
    : outcome (Z * S + (Z * S)) :=
  let '(hob, s) := st in
  let! t := hob_get_type l hob in
  if t =? EFI_HOB_TYPE_END_OF_HOB_LIST then Ok (inr (0, s))
  else
    let! (r, s) :=
      (if t =? EFI_HOB_TYPE_RESOURCE_DESCRIPTOR then
         let! start := hob_physical_start l hob in
         let! len := hob_resource_length l hob in
         let! rt := hob_resource_type l hob in
         cb start len rt s
       else Ok (0, s)) in
    if negb (r =? 0) then Ok (inr (r, s))
    else let! hob := hob_get_next l hob in Ok (inl (hob, s)).

Definition hob_iterate_memory_map {S} (l : list Z) (hobList : Z) (cb : hob_mem_map_cb S)
    (s : S) : outcome (Z * S) :=
  loop (Datatypes.S (length l)) (iterate_body l cb) (hobList, s).

(** ** Lists of blocks *)

Inductive hob :=
| Resource (owner : list Z) (rtype attr start len : Z)
| OtherHob (type : Z) (body : list Z).

Definition hob_body (h : hob) : list Z :=
  match h with
  | Resource owner rtype attr start len =>
      owner ++ le_bytes 4 rtype ++ le_bytes 4 attr ++ le_bytes 8 start ++ le_bytes 8 len
  | OtherHob _ body => body
  end.

Definition hob_type (h : hob) : Z :=
  match h with Resource _ _ _ _ _ => EFI_HOB_TYPE_RESOURCE_DESCRIPTOR | OtherHob t _ => t end.

Definition hob_bytes (h : hob) : list Z :=
  le_bytes 2 (hob_type h) ++ le_bytes 2 (8 + zlen (hob_body h)) ++ le_bytes 4 0 ++ hob_body h.

Definition end_of_list : list Z :=
  le_bytes 2 EFI_HOB_TYPE_END_OF_HOB_LIST ++ le_bytes 2 8 ++ le_bytes 4 0.

Definition hobs_bytes (hs : list hob) : list Z := flat_map hob_bytes hs ++ end_of_list.

Definition hob_ok (h : hob) : Prop :=
  match h with
  | Resource owner rtype attr start len =>
      zlen owner = 16 /\ 0 <= rtype < 2 ^ 32 /\ 0 <= start < 2 ^ 64 /\ 0 <= len < 2 ^ 64
  | OtherHob t body =>
      0 <= t < EFI_HOB_TYPE_END_OF_HOB_LIST /\ t <> EFI_HOB_TYPE_RESOURCE_DESCRIPTOR /\
      8 + zlen body < 2 ^ 16
  end.

(** The resources of a list: start, length and type. *)
Definition memory_map (hs : list hob) : list (Z * Z * Z) :=
  omap (fun h => match h with Resource _ rt _ start len => Some (start, len, rt) | _ => None end) hs.

(** A callback applied to each resource in turn, until one is not accepted. *)
Fixpoint iter_cb {S} (cb : hob_mem_map_cb S) (rs : list (Z * Z * Z)) (s : S) : outcome (Z * S) :=
  match rs with
  | [] => Ok (0, s)
  | (start, len, rt) :: rs =>
      let! (r, s) := cb start len rt s in
      if negb (r =? 0) then Ok (r, s) else iter_cb cb rs s
  end.

Section Walk.
Variables (pre rest : list Z).

Lemma hob_type_read h l : hob_ok h -> l = pre ++ hob_bytes h ++ rest ->
  hob_get_type l (zlen pre) = Ok (hob_type h).
Proof.
  intros Hh ->. unfold hob_get_type, hob_bytes.
  apply (rd_word_at _ _ 2 _ pre (le_bytes 2 (8 + zlen (hob_body h)) ++ le_bytes 4 0 ++ hob_body h ++ rest));
    [by rewrite <- !app_assoc|done|].
  destruct h; simpl in *; unfold EFI_HOB_TYPE_RESOURCE_DESCRIPTOR, EFI_HOB_TYPE_END_OF_HOB_LIST in *; lia.
Qed.

Lemma zlen_hob_bytes h : zlen (hob_bytes h) = 8 + zlen (hob_body h).
Proof. unfold hob_bytes. rewrite !zlen_app, !zlen_le_bytes. lia. Qed.

Lemma zlen_resource owner rt a st len : zlen owner = 16 ->
  zlen (hob_body (Resource owner rt a st len)) = 40.
Proof. intros E. cbn [hob_body]. rewrite !zlen_app, !zlen_le_bytes. lia. Qed.

Lemma hob_next_read h l : hob_ok h -> l = pre ++ hob_bytes h ++ rest ->
  hob_get_next l (zlen pre) = Ok (zlen (pre ++ hob_bytes h)).
Proof.
  intros Hh ->. unfold hob_get_next, hob_get_length.
  rewrite zlen_app, zlen_hob_bytes. change 2 with (Z.of_nat 2) at 2.
  rewrite (rd_word_at _ _ 2 (8 + zlen (hob_body h)) (pre ++ le_bytes 2 (hob_type h))
    (le_bytes 4 0 ++ hob_body h ++ rest)); [done| | |].
  - unfold hob_bytes. by rewrite <- !app_assoc.
  - by rewrite zlen_app, zlen_le_bytes.
  - pose proof (zlen_nonneg (hob_body h)). destruct h as [o rt a st len|t b].
    + destruct Hh as (E & _). rewrite zlen_resource by done. simpl. lia.
    + simpl in *. lia.
Qed.

Lemma resource_read owner rt a st len l :
  let h := Resource owner rt a st len in
  hob_ok h -> l = pre ++ hob_bytes h ++ rest ->
  hob_resource_type l (zlen pre) = Ok rt /\ hob_physical_start l (zlen pre) = Ok st /\
  hob_resource_length l (zlen pre) = Ok len /\ rd_bytes l (hob_owner (zlen pre)) 16 = Ok owner.
Proof.
  intros h (Ho & Hrt & Hst & Hlen) ->. subst h. unfold hob_bytes. cbn [hob_body].
  set (p8 := le_bytes 2 (hob_type (Resource owner rt a st len)) ++
    le_bytes 2 (8 + zlen (owner ++ le_bytes 4 rt ++ le_bytes 4 a ++ le_bytes 8 st ++ le_bytes 8 len)) ++
    le_bytes 4 0).
  assert (zlen p8 = 8) as H8 by (subst p8; rewrite !zlen_app, !zlen_le_bytes; done).
  assert (forall x, le_bytes 2 (hob_type (Resource owner rt a st len)) ++
    le_bytes 2 (8 + zlen (owner ++ le_bytes 4 rt ++ le_bytes 4 a ++ le_bytes 8 st ++ le_bytes 8 len)) ++
    le_bytes 4 0 ++ x = p8 ++ x) as E8 by (intros x; subst p8; by rewrite <- !app_assoc).
  rewrite E8. clearbody p8. rewrite <- !app_assoc.
  unfold hob_resource_type, hob_physical_start, hob_resource_length, hob_owner.
  split; [|split; [|split]].
  - apply rd_word_at with (n := 4%nat) (a := pre ++ p8 ++ owner)
      (c := le_bytes 4 a ++ le_bytes 8 st ++ le_bytes 8 len ++ rest);
      [by rewrite <- !app_assoc|rewrite !zlen_app; lia|simpl; lia].
  - apply rd_word_at with (n := 8%nat) (a := pre ++ p8 ++ owner ++ le_bytes 4 rt ++ le_bytes 4 a)
      (c := le_bytes 8 len ++ rest);
      [by rewrite <- !app_assoc|rewrite !zlen_app, !zlen_le_bytes; lia|simpl; lia].
  - apply rd_word_at with (n := 8%nat) (a := pre ++ p8 ++ owner ++ le_bytes 4 rt ++ le_bytes 4 a ++ le_bytes 8 st)
      (c := rest);
      [by rewrite <- !app_assoc|rewrite !zlen_app, !zlen_le_bytes; lia|simpl; lia].
  - replace (zlen pre + 8) with (zlen (pre ++ p8)) by (rewrite zlen_app; lia).
    rewrite app_assoc. by apply rd_bytes_mid.
Qed.

End Walk.

Lemma end_type_read pre rest : hob_get_type (pre ++ end_of_list ++ rest) (zlen pre) =
  Ok EFI_HOB_TYPE_END_OF_HOB_LIST.
Proof.
  unfold hob_get_type, end_of_list.
  apply (rd_word_at _ _ 2 _ pre (le_bytes 2 8 ++ le_bytes 4 0 ++ rest));
    [by rewrite <- !app_assoc|done|by vm_compute].
Qed.

(** The walk of a list calls the callback on its resources, in order. *)
Lemma iterate_loop {S} (cb : hob_mem_map_cb S) hs : forall fuel pre rest s,
  Forall hob_ok hs -> (length hs < fuel)%nat ->
  loop fuel (iterate_body (pre ++ hobs_bytes hs ++ rest) cb) (zlen pre, s) =
  iter_cb cb (memory_map hs) s.
Proof.
  induction hs as [|h hs IH]; intros [|fuel] pre rest s Hok Hf; simpl in Hf; try lia.
  - change (hobs_bytes []) with end_of_list. cbn [loop]. unfold iterate_body at 1.
    by rewrite end_type_read.
  - apply Forall_cons in Hok as [Hh Hhs].
    assert (pre ++ hobs_bytes (h :: hs) ++ rest = pre ++ hob_bytes h ++ hobs_bytes hs ++ rest) as E
      by (unfold hobs_bytes; simpl; by rewrite <- !app_assoc).
    assert (pre ++ hobs_bytes (h :: hs) ++ rest = (pre ++ hob_bytes h) ++ hobs_bytes hs ++ rest) as E2
      by (by rewrite E, <- !app_assoc).
    cbn [loop]. unfold iterate_body at 1. rewrite (hob_type_read _ _ _ _ Hh E). cbn [obind].
    assert ((hob_type h =? EFI_HOB_TYPE_END_OF_HOB_LIST) = false) as ->.
    { apply Z.eqb_neq. destruct h; [done|]. simpl in *. lia. }
    destruct h as [owner rt a st len|t body].
    + destruct (resource_read _ _ owner rt a st len _ Hh E) as (-> & -> & -> & _).
      change (hob_type _ =? EFI_HOB_TYPE_RESOURCE_DESCRIPTOR) with true. cbn [obind].
      change (memory_map (Resource owner rt a st len :: hs)) with ((st, len, rt) :: memory_map hs).
      cbn [iter_cb]. destruct (cb st len rt s) as [[r s1]| |]; cbn [obind]; [|done|done].
      case_if; [done|]. rewrite (hob_next_read _ _ _ _ Hh E). cbn [obind].
      rewrite E2. apply IH; [done|lia].
    + assert ((hob_type (OtherHob t body) =? EFI_HOB_TYPE_RESOURCE_DESCRIPTOR) = false) as ->.
      { apply Z.eqb_neq. simpl in *. tauto. }
      cbn [obind]. change (negb (0 =? 0)) with false. cbv iota.
      rewrite (hob_next_read _ _ _ _ Hh E). cbn [obind].
      rewrite E2. apply IH; [done|lia].
Qed.

Lemma length_hobs hs : (length hs <= length (flat_map hob_bytes hs))%nat.
Proof.
  induction hs as [|h hs IH]; simpl; [lia|]. rewrite length_app.
  pose proof (zlen_hob_bytes h). pose proof (zlen_nonneg (hob_body h)). unfold zlen in *. lia.
Qed.

(** [hob_iterate_memory_map] on a list of blocks. *)
Lemma hob_iterate_spec {S} (cb : hob_mem_map_cb S) hs pre rest s : Forall hob_ok hs ->
  hob_iterate_memory_map (pre ++ hobs_bytes hs ++ rest) (zlen pre) cb s =
  iter_cb cb (memory_map hs) s.
Proof.
  intros Hok. apply iterate_loop; [done|].
  unfold hobs_bytes. rewrite !length_app. pose proof (length_hobs hs). lia.
Qed.

(** The first reserved resource of an owner, by its offset from the list. *)
Fixpoint find_reserved (guid : list Z) (hs : list hob) (off : Z) : option Z :=
  match hs with
  | [] => None
  | Resource owner rt a st len :: hs =>
      if (rt =? EFI_RESOURCE_MEMORY_RESERVED) && bool_decide (owner = guid) then Some off
      else find_reserved guid hs (off + 48)
  | OtherHob t body :: hs => find_reserved guid hs (off + 8 + zlen body)
  end.

Lemma find_loop guid hs : forall fuel pre rest, Forall hob_ok hs -> (length hs < fuel)%nat ->
  loop fuel (find_guid_body (pre ++ hobs_bytes hs ++ rest) guid) (zlen pre) =
  Ok (find_reserved guid hs (zlen pre)).
Proof.
  induction hs as [|h hs IH]; intros [|fuel] pre rest Hok Hf; simpl in Hf; try lia.
  - change (hobs_bytes []) with end_of_list. cbn [loop]. unfold find_guid_body at 1.
    by rewrite end_type_read.
  - apply Forall_cons in Hok as [Hh Hhs].
    assert (pre ++ hobs_bytes (h :: hs) ++ rest = pre ++ hob_bytes h ++ hobs_bytes hs ++ rest) as E
      by (unfold hobs_bytes; simpl; by rewrite <- !app_assoc).
    assert (pre ++ hobs_bytes (h :: hs) ++ rest = (pre ++ hob_bytes h) ++ hobs_bytes hs ++ rest) as E2
      by (by rewrite E, <- !app_assoc).
    cbn [loop]. unfold find_guid_body at 1. rewrite (hob_type_read _ _ _ _ Hh E). cbn [obind].
    assert ((hob_type h =? EFI_HOB_TYPE_END_OF_HOB_LIST) = false) as ->.
    { apply Z.eqb_neq. destruct h; [done|]. simpl in *. lia. }
    assert (forall off, off = zlen (pre ++ hob_bytes h) ->
      match (let! it := hob_get_next (pre ++ hobs_bytes (h :: hs) ++ rest) (zlen pre) in
             Ok (@inl Z (option Z) it)) with
      | Ok (inl s') => loop fuel (find_guid_body (pre ++ hobs_bytes (h :: hs) ++ rest) guid) s'
      | Ok (inr r) => Ok r | Oob => Oob | NoFuel => NoFuel end =
      Ok (find_reserved guid hs off)) as Hnext.
    { intros off ->. rewrite (hob_next_read _ _ _ _ Hh E). cbn [obind]. rewrite E2.
      apply IH; [done|lia]. }
    destruct h as [owner rt a st len|t body].
    + destruct (resource_read _ _ owner rt a st len _ Hh E) as (-> & _ & _ & Eo).
      unfold hob_guid_equals. rewrite Eo. cbn [obind find_reserved hob_type].
      rewrite Z.eqb_refl. destruct (rt =? EFI_RESOURCE_MEMORY_RESERVED); cbn [obind andb].
      * case_bool_decide; [done|]. apply Hnext. destruct Hh as (Ho & _).
        rewrite zlen_app, zlen_hob_bytes, zlen_resource by done. lia.
      * apply Hnext. destruct Hh as (Ho & _).
        rewrite zlen_app, zlen_hob_bytes, zlen_resource by done. lia.
    + assert ((hob_type (OtherHob t body) =? EFI_HOB_TYPE_RESOURCE_DESCRIPTOR) = false) as ->.
      { apply Z.eqb_neq. simpl in *. tauto. }
      cbn [obind find_reserved]. apply Hnext. rewrite zlen_app, zlen_hob_bytes. simpl. lia.
Qed.

(** [hob_find_resource_by_guid] on a list of blocks: the first reserved memory
    of that owner. *)
Lemma hob_find_spec guid hs pre rest : Forall hob_ok hs ->
  hob_find_resource_by_guid (pre ++ hobs_bytes hs ++ rest) (zlen pre) guid =
  Ok (find_reserved guid hs (zlen pre)).
Proof.
  intros Hok. apply find_loop; [done|].
  unfold hobs_bytes. rewrite !length_app. pose proof (length_hobs hs). lia.
Qed.
