(* ===== verification/Multiboot.v ===== *)
(** * Multiboot 2 ([src/multiboot.c])

    The search of the header of an image, of a tag in it, and the construction of
    the boot information from the list of hand-off blocks.  The image is a
    buffer at an address [app] (tags are aligned by address), the boot
    information a buffer of its own; offsets stand for pointers into them.  The
    build is that with WOLFBOOT_FSP; debug output is left out. *)

From Stdlib Require Import ZArith Lia.
From stdpp Require Import prelude.
From S2P Require Import Prelude Elf Hob.

Local Open Scope Z_scope.

Definition MB2_HEADER_MAX_OFF : Z := 32768 - 4.
Definition MB2_HEADER_MAGIC : Z := 0xe85250d6.
Definition MB2_TAG_TYPE_INFO_REQ : Z := 1.
Definition MB2_REQ_TAG_BASIC_MEM_INFO : Z := 4.
Definition MB2_REQ_TAG_MEM_MAP : Z := 6.
Definition MB2_MEM_INFO_MEM_RAM : Z := 1.
Definition MB2_MEM_INFO_MEM_RESERVED : Z := 2.

(** Sizes of the structures. *)
Definition sizeof_mb2_tag : Z := 8.
Definition sizeof_mb2_header : Z := 16.
Definition sizeof_mb2_mem_map_entry : Z := 24.
Definition sizeof_mb2_mem_map_header : Z := 16.
Definition sizeof_mb2_basic_memory_info : Z := 16.
Definition sizeof_mb2_boot_info_header : Z := 8.

Definition mb2_align_address_up (addr align : Z) : Z :=
  let mask := u64 (align - 1) in Z.land (u64 (addr + mask)) (u64 (Z.lnot mask)).

Section Header.
Variable image : list Z.
Variable app : Z.

(** One tag: the loop goes on with the next, or ends with the result. *)
Definition find_tag_body (end_ type tag : Z) : outcome (Z + option Z) :=
  if negb (tag + sizeof_mb2_tag <=? end_) then Ok (inr None)
  else
    let! tag_type := rd_word image tag 2 in
    if tag_type =? 0 then Ok (inr None)
    else
      let! size := rd_word image (tag + 4) 4 in
      if size <? sizeof_mb2_tag then Ok (inr None)
      else if u32 (end_ - tag) <? size then Ok (inr None)
      else if tag_type =? type then Ok (inr (Some tag))
      else Ok (inl (mb2_align_address_up (app + tag + size) 8 - app)).

(** Every tag takes at least eight bytes. *)
Definition mb2_find_tag_by_type (tags tags_len type : Z) : outcome (option Z) :=
  loop (S (Z.to_nat tags_len)) (find_tag_body (tags + tags_len) type) tags.

Definition find_header_body (size : Z) (i : Z) : outcome (Z + option Z) :=
  if negb (i <? size) then Ok (inr None)
  else
    let! val := rd_word image (i * 4) 4 in
    if val =? MB2_HEADER_MAGIC then Ok (inr (Some (i * 4))) else Ok (inl (i + 1)).

(** The division truncates towards zero. *)
Definition mb2_find_header (size : Z) : outcome (option Z) :=
  let size := if MB2_HEADER_MAX_OFF <? size then MB2_HEADER_MAX_OFF else size in
  let size := Z.quot size 4 in
  loop (S (Z.to_nat size)) (find_header_body size) 0.

End Header.

(** ** The boot information *)

(** The buffer, the offset of the next tag and the room left. *)
Record builder := MkB { b_out : list Z; b_idx : Z; b_room : Z }.

(** The stores to the structure at [tag], which follow each other. *)
Definition mb2_start_mem_map (out : list Z) (tag : Z) : outcome (list Z) :=
  blit out tag (le_bytes 4 6 ++ le_bytes 4 sizeof_mb2_mem_map_header ++
                le_bytes 4 sizeof_mb2_mem_map_entry ++ le_bytes 4 0).

(** The context is the buffer and [*max_size]; [map_hdr] is constant in it. *)
Definition mb2_add_mem_entry_cb (map_hdr : Z) : hob_mem_map_cb (list Z * Z) :=
  fun baseAddr length type '(out, max_size) =>
  if max_size <? sizeof_mb2_mem_map_entry then Ok (-1, (out, max_size))
  else
    let max_size := max_size - sizeof_mb2_mem_map_entry in
    let! size := rd_word out (map_hdr + 4) 4 in
    let! out := blit out (map_hdr + size)
      (le_bytes 8 baseAddr ++ le_bytes 8 length ++
       le_bytes 4 (if type =? EFI_RESOURCE_SYSTEM_MEMORY then MB2_MEM_INFO_MEM_RAM
                   else MB2_MEM_INFO_MEM_RESERVED) ++ le_bytes 4 0) in
    let! size := rd_word out (map_hdr + 4) 4 in
    let! out := blit out (map_hdr + 4) (le_bytes 4 (u32 (size + sizeof_mb2_mem_map_entry))) in
    Ok (0, (out, max_size)).

Definition mb2_add_mem_basic_info_cb (mem_info : Z) : hob_mem_map_cb (list Z) :=
  fun baseAddr length type out =>
  let! out := (if baseAddr =? 0 then blit out (mem_info + 8) (le_bytes 4 (u32 (length / 1024)))
               else Ok out) in
  let! out := (if baseAddr =? 1 * 1024 * 1024
               then blit out (mem_info + 12) (le_bytes 4 (u32 (length / 1024)))
               else Ok out) in
  Ok (0, out).

Section Build.
Variable hobs : list Z.
Variable hobList : Z.

Definition mb2_add_basic_mem_info (b : builder) : outcome (Z * builder) :=
  let '(MkB out idx room) := b in
  if room <? sizeof_mb2_basic_memory_info then Ok (-1, b)
  else
    let room := room - sizeof_mb2_basic_memory_info in
    let! out := blit out idx (le_bytes 4 MB2_REQ_TAG_BASIC_MEM_INFO ++
                              le_bytes 4 sizeof_mb2_basic_memory_info ++
                              le_bytes 4 0 ++ le_bytes 4 0) in
    let! (r, out) := hob_iterate_memory_map hobs hobList (mb2_add_mem_basic_info_cb idx) out in
    if negb (r =? 0) then Ok (r, MkB out idx room)
    else Ok (0, MkB out (idx + sizeof_mb2_basic_memory_info) room).

Definition mb2_add_mem_map (b : builder) : outcome (Z * builder) :=
  let '(MkB out idx room) := b in
  if room <? sizeof_mb2_mem_map_header then Ok (-1, b)
  else
    let room := room - sizeof_mb2_mem_map_header in
    let! out := mb2_start_mem_map out idx in
    let! (r, st) := hob_iterate_memory_map hobs hobList (mb2_add_mem_entry_cb idx) (out, room) in
    let '(out, room) := st in
    if negb (r =? 0) then Ok (r, MkB out idx room)
    else
      let! size := rd_word out (idx + 4) 4 in
      Ok (0, MkB out (idx + size) room).

(** One requested tag. *)
Definition request_body (image : list Z) (info_req_tag requested_tags : Z) (st : Z * builder)
    : outcome (Z * builder + (Z * builder)) :=
  let '(i, b) := st in
  if negb (i <? requested_tags) then Ok (inr (0, b))
  else
    let! t := rd_word image (info_req_tag + 8 + 4 * i) 4 in
    if t =? MB2_REQ_TAG_BASIC_MEM_INFO then
      let! (r, b) := mb2_add_basic_mem_info b in
      if negb (r =? 0) then Ok (inr (r, b)) else Ok (inl (i + 1, b))
    else if t =? MB2_REQ_TAG_MEM_MAP then
      let! (r, b) := mb2_add_mem_map b in
      if negb (r =? 0) then Ok (inr (r, b)) else Ok (inl (i + 1, b))
    else Ok (inr (-1, b)).

(** The return value and the buffer. *)
Definition mb2_build_boot_info_header (image : list Z) (app mb2_header : Z) (out : list Z)
    (max_size : Z) : outcome (Z * list Z) :=
  if max_size <? sizeof_mb2_boot_info_header then Ok (-1, out)
  else
    let max_size := max_size - sizeof_mb2_boot_info_header in
    let! out := blit out 4 (le_bytes 4 0) in
    let! header_length := rd_word image (mb2_header + 8) 4 in
    if (header_length <? sizeof_mb2_header) || (MB2_HEADER_MAX_OFF <? header_length)
    then Ok (-1, out)
    else
      let! info_req := mb2_find_tag_by_type image app (mb2_header + sizeof_mb2_header)
                         (header_length - sizeof_mb2_header) MB2_TAG_TYPE_INFO_REQ in
      match info_req with
      | None => Ok (-1, out)
      | Some info_req_tag =>
          let! size := rd_word image (info_req_tag + 4) 4 in
          let requested_tags := (size - sizeof_mb2_tag) / 4 in
          let! (r, b) := loop (S (Z.to_nat requested_tags))
            (request_body image info_req_tag requested_tags)
            (0, MkB out sizeof_mb2_boot_info_header max_size) in
          if negb (r =? 0) then Ok (r, b_out b)
          else
            let! out := blit (b_out b) 0 (le_bytes 4 (b_idx b)) in
            Ok (0, out)
      end.

End Build.
