(* ===== verification/MultibootSpec.v ===== *)
(** * Correctness of the Multiboot 2 code

    The header found is the first one in the window; the tag walker ends inside
    the header; the boot information is exactly the requested tags, made from the
    memory map of the hand-off blocks, or an error when they do not fit. *)

From Stdlib Require Import ZArith Lia.
From stdpp Require Import prelude.
From S2P Require Import Prelude Elf Hob Multiboot.

Local Open Scope Z_scope.

(** ** Stores in the middle of a buffer *)

Lemma blit_mid a b c d off : off = zlen a -> zlen d = zlen b -> blit (a ++ b ++ c) off d = Ok (a ++ d ++ c).
Proof.
  intros -> E. pose proof (zlen_nonneg a). pose proof (zlen_nonneg b). pose proof (zlen_nonneg c).
  unfold blit. rewrite !zlen_app, !(proj2 (Z.leb_le _ _)) by lia. cbn [andb]. do 2 f_equal.
  - unfold zlen. by rewrite Nat2Z.id, take_app_length.
  - f_equal. replace (Z.to_nat (zlen a + zlen d)) with (length (a ++ b))
      by (rewrite length_app; unfold zlen in *; lia).
    by rewrite app_assoc, drop_app_length.
Qed.

Lemma split_at (l : list Z) n : 0 <= n <= zlen l ->
  exists a b, l = a ++ b /\ zlen a = n.
Proof.
  intros Hn. exists (take (Z.to_nat n) l), (drop (Z.to_nat n) l). rewrite take_drop.
  split; [done|]. unfold zlen in *. rewrite length_take. lia.
Qed.

(** ** The tags of the boot information *)

(** A memory-map entry, and the whole map. *)
Definition entry_bytes '((start, len, rt) : Z * Z * Z) : list Z :=
  le_bytes 8 start ++ le_bytes 8 len ++
  le_bytes 4 (if rt =? EFI_RESOURCE_SYSTEM_MEMORY then MB2_MEM_INFO_MEM_RAM
              else MB2_MEM_INFO_MEM_RESERVED) ++ le_bytes 4 0.

Definition map_header (size : Z) : list Z :=
  le_bytes 4 6 ++ le_bytes 4 size ++ le_bytes 4 24 ++ le_bytes 4 0.

Definition map_tag (mm : list (Z * Z * Z)) : list Z :=
  map_header (16 + 24 * zlen mm) ++ flat_map entry_bytes mm.

(** The size in kilobytes of the last resource that starts at [at_]. *)
Definition kbytes_at (at_ : Z) (mm : list (Z * Z * Z)) (v : Z) : Z :=
  fold_left (fun v '(start, len, _) => if start =? at_ then u32 (len / 1024) else v) mm v.

Definition basic_bytes (lower upper : Z) : list Z :=
  le_bytes 4 4 ++ le_bytes 4 16 ++ le_bytes 4 lower ++ le_bytes 4 upper.

Definition basic_tag (mm : list (Z * Z * Z)) : list Z :=
  basic_bytes (kbytes_at 0 mm 0) (kbytes_at (1024 * 1024) mm 0).

Definition info_tag (mm : list (Z * Z * Z)) (req : Z) : option (list Z) :=
  if req =? MB2_REQ_TAG_BASIC_MEM_INFO then Some (basic_tag mm)
  else if req =? MB2_REQ_TAG_MEM_MAP then Some (map_tag mm) else None.

(** The tags of a list of requests, when all are known and fit. *)
Fixpoint info_tags (mm : list (Z * Z * Z)) (reqs : list Z) (room : Z) : option (list Z) :=
  match reqs with
  | [] => Some []
  | q :: reqs =>
      match info_tag mm q with
      | None => None
      | Some t =>
          if room <? zlen t then None
          else match info_tags mm reqs (room - zlen t) with
               | None => None
               | Some ts => Some (t ++ ts)
               end
      end
  end.

Lemma zlen_entry e : zlen (entry_bytes e) = 24.
Proof. destruct e as [[s l] t]. unfold entry_bytes. by rewrite !zlen_app, !zlen_le_bytes. Qed.

Lemma zlen_map_header n : zlen (map_header n) = 16.
Proof. unfold map_header. by rewrite !zlen_app, !zlen_le_bytes. Qed.

Lemma zlen_entries mm : zlen (flat_map entry_bytes mm) = 24 * zlen mm.
Proof.
  induction mm as [|e mm IH]; [done|]. simpl. rewrite zlen_app, zlen_entry, IH, zlen_cons. lia.
Qed.

Lemma zlen_map_tag mm : zlen (map_tag mm) = 16 + 24 * zlen mm.
Proof. unfold map_tag. by rewrite zlen_app, zlen_map_header, zlen_entries. Qed.

Lemma zlen_basic a b : zlen (basic_bytes a b) = 16.
Proof. unfold basic_bytes. by rewrite !zlen_app, !zlen_le_bytes. Qed.

(** A buffer with [done] written, [avail] free and [beyond] out of reach. *)
Definition written (b : builder) (done avail beyond : list Z) : Prop :=
  b = MkB (done ++ avail ++ beyond) (zlen done) (zlen avail).

(** What a failed step may leave. *)
Definition kept (n : Z) (beyond out : list Z) : Prop := exists x, out = x ++ beyond /\ zlen x = n.

(** ** Memory map *)

Lemma add_entry_spec pre size es avail beyond start len rt : 0 <= size < 2 ^ 32 - 24 ->
  size = 16 + zlen es -> 24 <= zlen avail ->
  exists avail', zlen avail' = zlen avail - 24 /\
  mb2_add_mem_entry_cb (zlen pre) start len rt
    (pre ++ map_header size ++ es ++ avail ++ beyond, zlen avail) =
  Ok (0, (pre ++ map_header (size + 24) ++ (es ++ entry_bytes (start, len, rt)) ++ avail' ++ beyond,
          zlen avail')).
Proof.
  intros Hs Hes Ha. destruct (split_at avail 24) as (a & avail' & -> & Hz);
    [pose proof (zlen_nonneg avail); lia|].
  exists avail'. rewrite zlen_app in *. split; [lia|].
  unfold mb2_add_mem_entry_cb, sizeof_mb2_mem_map_entry.
  rewrite (proj2 (Z.ltb_ge _ _)) by lia.
  assert (forall rest, rd_word (pre ++ map_header size ++ rest) (zlen pre + 4) 4 = Ok size) as Hsize.
  { intros rest. apply (rd_word_at _ _ 4 _ (pre ++ le_bytes 4 6) (le_bytes 4 24 ++ le_bytes 4 0 ++ rest)).
    - unfold map_header. by rewrite <- !app_assoc.
    - by rewrite zlen_app, zlen_le_bytes.
    - simpl. lia. }
  rewrite Hsize. cbn [obind].
  replace (pre ++ map_header size ++ es ++ (a ++ avail') ++ beyond) with
    ((pre ++ map_header size ++ es) ++ a ++ (avail' ++ beyond)) by (by rewrite <- !app_assoc).
  rewrite blit_mid; cycle 1.
  { rewrite !zlen_app, zlen_map_header. lia. }
  { change (zlen (entry_bytes (start, len, rt)) = zlen a). by rewrite zlen_entry. }
  cbn [obind].
  change (le_bytes 8 start ++ le_bytes 8 len ++ le_bytes 4 _ ++ le_bytes 4 0) with
    (entry_bytes (start, len, rt)).
  rewrite <- !app_assoc, Hsize. cbn [obind]. rewrite u32_small by lia.
  replace (pre ++ map_header size ++ es ++ entry_bytes (start, len, rt) ++ avail' ++ beyond) with
    ((pre ++ le_bytes 4 6) ++ le_bytes 4 size ++ (le_bytes 4 24 ++ le_bytes 4 0 ++ es ++
      entry_bytes (start, len, rt) ++ avail' ++ beyond))
    by (unfold map_header; by rewrite <- !app_assoc).
  rewrite blit_mid; [|by rewrite zlen_app, zlen_le_bytes|by rewrite !zlen_le_bytes].
  cbn [obind]. do 3 f_equal; [|lia]. unfold map_header. by rewrite <- !app_assoc.
Qed.

Lemma add_entries_spec pre beyond mm : forall size es avail, size = 16 + zlen es ->
  zlen es + zlen avail < 2 ^ 32 - 16 ->
  wp (iter_cb (mb2_add_mem_entry_cb (zlen pre)) mm
        (pre ++ map_header size ++ es ++ avail ++ beyond, zlen avail))
    (fun '(r, (out, room)) =>
       if zlen avail <? 24 * zlen mm
       then r = -1 /\ kept (zlen pre + 16 + zlen es + zlen avail) beyond out
       else r = 0 /\ exists avail', zlen avail' = zlen avail - 24 * zlen mm /\ room = zlen avail' /\
         out = pre ++ map_header (size + 24 * zlen mm) ++ (es ++ flat_map entry_bytes mm) ++
               avail' ++ beyond).
Proof.
  induction mm as [|[[start len] rt] mm IH]; intros size es avail Hs Hlt;
    pose proof (zlen_nonneg avail); pose proof (zlen_nonneg es).
  - change (zlen []) with 0. rewrite (proj2 (Z.ltb_ge _ _)) by lia. simpl. split; [done|].
    exists avail. rewrite app_nil_r, Z.add_0_r. split; [lia|]. by split.
  - pose proof (zlen_nonneg mm). rewrite zlen_cons. cbn [iter_cb].
    destruct (Z.lt_ge_cases (zlen avail) 24) as [Hr|Hr].
    + unfold mb2_add_mem_entry_cb at 1, sizeof_mb2_mem_map_entry.
      rewrite !(proj2 (Z.ltb_lt _ _)) by lia. simpl. split; [done|].
      exists (pre ++ map_header size ++ es ++ avail). rewrite <- !app_assoc. split; [done|].
      rewrite !zlen_app, zlen_map_header. lia.
    + destruct (add_entry_spec pre size es avail beyond start len rt) as (avail' & Hz & ->);
        [lia|done|lia|].
      cbn [obind]. change (negb (0 =? 0)) with false. cbv iota.
      eapply wp_mono; [apply IH|]; [rewrite zlen_app, zlen_entry; lia|rewrite zlen_app, zlen_entry; lia|].
      intros [r [out room]]. rewrite Hz, zlen_app, zlen_entry.
      destruct (Z.ltb_spec (zlen avail - 24) (24 * zlen mm)).
      * rewrite (proj2 (Z.ltb_lt _ _)) by lia. intros [-> (x & -> & Hx)]. split; [done|].
        exists x. split; [done|]. lia.
      * rewrite (proj2 (Z.ltb_ge _ _)) by lia. intros (-> & avail'' & Hz' & -> & ->).
        split; [done|]. exists avail''. split; [lia|]. split; [done|].
        replace (size + 24 * (1 + zlen mm)) with (size + 24 + 24 * zlen mm) by lia.
        cbn [flat_map]. by rewrite <- !app_assoc.
Qed.

(** The memory-map tag, from a list of hand-off blocks. *)
Lemma add_mem_map_spec hobs pre rest hs b ready avail beyond : Forall hob_ok hs ->
  hobs = pre ++ hobs_bytes hs ++ rest -> written b ready avail beyond -> zlen avail < 2 ^ 32 ->
  wp (mb2_add_mem_map hobs (zlen pre) b) (fun '(r, b') =>
    if zlen avail <? zlen (map_tag (memory_map hs))
    then r = -1 /\ kept (zlen ready + zlen avail) beyond (b_out b')
    else r = 0 /\ exists avail',
      zlen avail' = zlen avail - zlen (map_tag (memory_map hs)) /\
      written b' (ready ++ map_tag (memory_map hs)) avail' beyond).
Proof.
  intros Hok -> -> Hlt. set (mm := memory_map hs). rewrite zlen_map_tag.
  pose proof (zlen_nonneg mm). pose proof (zlen_nonneg avail).
  unfold mb2_add_mem_map, sizeof_mb2_mem_map_header, mb2_start_mem_map.
  destruct (Z.ltb_spec (zlen avail) 16).
  { rewrite (proj2 (Z.ltb_lt _ _)) by lia. simpl. split; [done|].
    exists (ready ++ avail). rewrite <- app_assoc, zlen_app. by split. }
  destruct (split_at avail 16) as (a & avail0 & -> & Hz); [lia|]. rewrite zlen_app in *.
  rewrite <- app_assoc, blit_mid; [|done|by rewrite Hz].
  change (le_bytes 4 6 ++ le_bytes 4 _ ++ le_bytes 4 _ ++ le_bytes 4 0) with (map_header 16).
  cbn [obind]. rewrite hob_iterate_spec by done.
  replace (zlen a + zlen avail0 - 16) with (zlen avail0) by lia. fold mm.
  eapply wp_bind_mono; [apply (add_entries_spec ready beyond mm 16 [] avail0); [done|]|].
  { rewrite zlen_nil. lia. }
  intros [r [out room]]. rewrite zlen_nil. destruct (Z.ltb_spec (zlen avail0) (24 * zlen mm)).
  - rewrite (proj2 (Z.ltb_lt _ _)) by lia. intros [-> (x & -> & Hx)]. simpl. split; [done|].
    exists x. split; [done|]. lia.
  - rewrite (proj2 (Z.ltb_ge _ _)) by lia. intros (-> & avail' & Hz' & -> & ->).
    change (negb (0 =? 0)) with false. cbv iota.
    assert (forall tl, rd_word (ready ++ map_header (16 + 24 * zlen mm) ++ tl) (zlen ready + 4) 4 =
      Ok (16 + 24 * zlen mm)) as ->.
    { intros tl. apply (rd_word_at _ _ 4 _ (ready ++ le_bytes 4 6) (le_bytes 4 24 ++ le_bytes 4 0 ++ tl)).
      - unfold map_header. by rewrite <- !app_assoc.
      - by rewrite zlen_app, zlen_le_bytes.
      - simpl. lia. }
    simpl. split; [done|]. exists avail'. split; [lia|]. unfold written, map_tag.
    rewrite <- !app_assoc, !zlen_app, zlen_map_header, zlen_entries. done.
Qed.

(** ** Basic memory information *)

Lemma kbytes_cons at_ start len rt mm v :
  kbytes_at at_ ((start, len, rt) :: mm) v =
  kbytes_at at_ mm (if start =? at_ then u32 (len / 1024) else v).
Proof. done. Qed.

Lemma basic_info_spec pre rest mm : forall lo up,
  iter_cb (mb2_add_mem_basic_info_cb (zlen pre)) mm (pre ++ basic_bytes lo up ++ rest) =
  Ok (0, pre ++ basic_bytes (kbytes_at 0 mm lo) (kbytes_at (1024 * 1024) mm up) ++ rest).
Proof.
  induction mm as [|[[start len] rt] mm IH]; intros lo up; [done|].
  rewrite !kbytes_cons. cbn [iter_cb]. unfold mb2_add_mem_basic_info_cb at 1.
  assert ((if start =? 0 then
      blit (pre ++ basic_bytes lo up ++ rest) (zlen pre + 8) (le_bytes 4 (u32 (len / 1024)))
      else Ok (pre ++ basic_bytes lo up ++ rest)) =
    Ok (pre ++ basic_bytes (if start =? 0 then u32 (len / 1024) else lo) up ++ rest)) as ->.
  { destruct (start =? 0); [|done]. unfold basic_bytes.
    replace (pre ++ (le_bytes 4 4 ++ le_bytes 4 16 ++ le_bytes 4 lo ++ le_bytes 4 up) ++ rest) with
      ((pre ++ le_bytes 4 4 ++ le_bytes 4 16) ++ le_bytes 4 lo ++ (le_bytes 4 up ++ rest))
      by (by rewrite <- !app_assoc).
    rewrite blit_mid; [by rewrite <- !app_assoc| |by rewrite !zlen_le_bytes].
    rewrite !zlen_app, !zlen_le_bytes. lia. }
  cbn [obind]. set (lo' := if start =? 0 then _ else _).
  assert ((if start =? 1 * 1024 * 1024 then
      blit (pre ++ basic_bytes lo' up ++ rest) (zlen pre + 12) (le_bytes 4 (u32 (len / 1024)))
      else Ok (pre ++ basic_bytes lo' up ++ rest)) =
    Ok (pre ++ basic_bytes lo' (if start =? 1024 * 1024 then u32 (len / 1024) else up) ++ rest)) as ->.
  { change (1 * 1024 * 1024) with (1024 * 1024).
    destruct (start =? 1024 * 1024); [|done]. unfold basic_bytes.
    replace (pre ++ (le_bytes 4 4 ++ le_bytes 4 16 ++ le_bytes 4 lo' ++ le_bytes 4 up) ++ rest) with
      ((pre ++ le_bytes 4 4 ++ le_bytes 4 16 ++ le_bytes 4 lo') ++ le_bytes 4 up ++ rest)
      by (by rewrite <- !app_assoc).
    rewrite blit_mid; [by rewrite <- !app_assoc| |by rewrite !zlen_le_bytes].
    rewrite !zlen_app, !zlen_le_bytes. lia. }
  cbn [obind]. change (negb (0 =? 0)) with false. cbv iota. apply IH.
Qed.

Lemma add_basic_spec hobs pre rest hs b ready avail beyond : Forall hob_ok hs ->
  hobs = pre ++ hobs_bytes hs ++ rest -> written b ready avail beyond ->
  wp (mb2_add_basic_mem_info hobs (zlen pre) b) (fun '(r, b') =>
    if zlen avail <? zlen (basic_tag (memory_map hs))
    then r = -1 /\ kept (zlen ready + zlen avail) beyond (b_out b')
    else r = 0 /\ exists avail',
      zlen avail' = zlen avail - zlen (basic_tag (memory_map hs)) /\
      written b' (ready ++ basic_tag (memory_map hs)) avail' beyond).
Proof.
  intros Hok -> ->. unfold basic_tag. rewrite zlen_basic.
  unfold mb2_add_basic_mem_info, sizeof_mb2_basic_memory_info.
  destruct (Z.ltb_spec (zlen avail) 16).
  { simpl. split; [done|]. exists (ready ++ avail). rewrite <- app_assoc, zlen_app. by split. }
  destruct (split_at avail 16) as (a & avail0 & -> & Hz); [lia|]. rewrite zlen_app in *.
  rewrite <- app_assoc, blit_mid; [|done|by rewrite Hz].
  change (le_bytes 4 _ ++ le_bytes 4 _ ++ le_bytes 4 0 ++ le_bytes 4 0) with (basic_bytes 0 0).
  cbn [obind]. rewrite hob_iterate_spec by done. rewrite basic_info_spec.
  simpl. split; [done|]. exists avail0. split; [lia|]. unfold written.
  rewrite <- !app_assoc, !zlen_app, zlen_basic. f_equal. lia.
Qed.

(** ** The header and its tags *)

Lemma align8 x : 0 <= x < 2 ^ 64 - 8 -> mb2_align_address_up x 8 = (x + 7) / 8 * 8.
Proof.
  intros Hx. assert (mb2_align_address_up x 8 = x + 7 - (x + 7) mod 2 ^ 3) as ->.
  { unfold mb2_align_address_up. rewrite (u64_small (8 - 1)), (u64_small (x + (8 - 1))) by lia.
    change (8 - 1) with (2 ^ 3 - 1) at 2. unfold u64. rewrite land_round by lia.
    by rewrite (Z.mod_small _ (2 ^ 64)) by lia. }
  change (2 ^ 3) with 8. pose proof (Z.div_mod (x + 7) 8). lia.
Qed.

Section Image.
Variables (image : list Z) (app : Z).
Hypothesis Hbytes : bytes image.
Hypothesis Happ : 0 <= app /\ app + zlen image < 2 ^ 64 - 16.

Abbreviation word off n := (le_value (slice image off n)).

Lemma word_range off n : 0 <= off -> 0 <= n -> off + n <= zlen image -> 0 <= word off n < 256 ^ n.
Proof.
  intros H1 H2 H3. pose proof (le_value_range (slice image off n) (slice_bytes _ _ _ Hbytes)) as H.
  by rewrite slice_length in H by lia.
Qed.

(** A tag of the given type, inside [lo, hi). *)
Definition tag_at (lo hi type tag : Z) : Prop :=
  lo <= tag /\ word tag 2 = type /\ 8 <= word (tag + 4) 4 /\ tag + word (tag + 4) 4 <= hi.

(** What the specification of Multiboot 2 says of the tags in [lo, hi): each starts
    with its type and size, the next one is at the following address that is a
    multiple of eight, and a tag of type 0, one that is incomplete, or the end closes
    the list.  [first_tag hi type lo r]: [r] is the first tag of a type. *)
Inductive first_tag (hi type : Z) : Z -> option Z -> Prop :=
| first_at_end lo : hi < lo + 8 -> first_tag hi type lo None
| first_terminator lo : lo + 8 <= hi -> word lo 2 = 0 -> first_tag hi type lo None
| first_incomplete lo : lo + 8 <= hi -> word lo 2 <> 0 ->
    word (lo + 4) 4 < 8 \/ hi < lo + word (lo + 4) 4 -> first_tag hi type lo None
| first_here lo : word lo 2 <> 0 -> 8 <= word (lo + 4) 4 -> lo + word (lo + 4) 4 <= hi -> word lo 2 = type ->
    first_tag hi type lo (Some lo)
| first_later lo r : word lo 2 <> 0 -> 8 <= word (lo + 4) 4 -> lo + word (lo + 4) 4 <= hi -> word lo 2 <> type ->
    first_tag hi type ((app + lo + word (lo + 4) 4 + 7) / 8 * 8 - app) r -> first_tag hi type lo r.

Lemma first_tag_det hi type lo r r' : first_tag hi type lo r -> first_tag hi type lo r' -> r = r'.
Proof.
  induction 1 as [lo H|lo H1 H2|lo H1 H2 H3|lo H1 H2 H3 H4|lo r H1 H2 H3 H4 H IH]; intros H';
    inversion H' as [? K|? K1 K2|? K1 K2 K3|? K1 K2 K3 K4|? ? K1 K2 K3 K4 K]; subst; try done; try lia.
  by apply IH.
Qed.

(** The walk ends and finds that tag. *)
Lemma find_tag_ok tags len type : 0 <= tags -> 0 <= len < 2 ^ 32 -> tags + len <= zlen image ->
  wp (mb2_find_tag_by_type image app tags len type) (fun r => first_tag (tags + len) type tags r /\
    match r with Some tag => tag_at tags (tags + len) type tag | None => True end).
Proof.
  intros Ht Hl Hz. unfold mb2_find_tag_by_type.
  apply (wp_loop (fun tag => tags <= tag /\ forall r, first_tag (tags + len) type tag r -> first_tag (tags + len) type tags r)
    (fun tag => Z.to_nat (tags + len - tag))); [|split; [lia|done]|lia].
  intros tag [Htag Hfirst]. unfold find_tag_body, sizeof_mb2_tag. case_if.
  { simpl. split; [|done]. apply Hfirst, first_at_end. lia. }
  rewrite rd_word_ok by lia. cbn [obind]. case_if.
  { simpl. split; [|done]. apply Hfirst, first_terminator; lia. }
  rewrite rd_word_ok by lia. cbn [obind]. pose proof (word_range (tag + 4) 4) as Hw.
  case_if; [simpl; split; [|done]; apply Hfirst, first_incomplete; lia|]. rewrite u32_small in * by lia.
  case_if; [simpl; split; [|done]; apply Hfirst, first_incomplete; lia|]. case_if.
  - simpl. split; [apply Hfirst, first_here; lia|]. repeat split; try done; lia.
  - rewrite (align8 (app + tag + word (tag + 4) 4)) by lia.
    pose proof (Z.div_mod (app + tag + word (tag + 4) 4 + 7) 8).
    pose proof (Z.mod_pos_bound (app + tag + word (tag + 4) 4 + 7) 8).
    simpl. split; [|lia]. split; [lia|]. intros r Hr. apply Hfirst, first_later; (done || lia).
Qed.

(** The first four-byte aligned magic of the first 32 KB. *)
Lemma mb2_find_header_ok size : size <= zlen image ->
  wp (mb2_find_header image size) (fun r =>
    let magic_at i := word (4 * i) 4 = MB2_HEADER_MAGIC in
    let n := Z.min size MB2_HEADER_MAX_OFF in
    match r with
    | Some off => exists i, off = 4 * i /\ 0 <= i /\ off + 4 <= n /\ magic_at i /\
        forall j, 0 <= j < i -> ~ magic_at j
    | None => forall j, 0 <= j -> 4 * j + 4 <= n -> ~ magic_at j
    end).
Proof.
  intros Hs. unfold mb2_find_header.
  set (n := if MB2_HEADER_MAX_OFF <? size then MB2_HEADER_MAX_OFF else size).
  assert (n = Z.min size MB2_HEADER_MAX_OFF) as Hn by (subst n; case_if; lia).
  rewrite <- Hn. clearbody n.
  assert (n <= 0 /\ Z.quot n 4 <= 0 \/ 0 <= n /\ Z.quot n 4 = n / 4) as Hq.
  { destruct (Z.le_ge_cases n 0); [left|right; split; [lia|by apply Z.quot_div_nonneg]].
    split; [lia|]. pose proof (Z.quot_pos (- n) 4). rewrite Z.quot_opp_l in * by lia. lia. }
  apply (wp_loop (fun i => 0 <= i /\ forall j, 0 <= j < i -> word (4 * j) 4 <> MB2_HEADER_MAGIC)
    (fun i => Z.to_nat (Z.quot n 4 - i))); [|split; [lia|intros j Hj; lia]|lia].
  intros i [Hi Hno]. unfold find_header_body. case_if.
  - simpl. intros j Hj1 Hj2 Hm. apply (Hno j); [|done]. split; [lia|].
    destruct Hq as [[Hq1 Hq2]|[Hq1 Hq2]]; [lia|]. rewrite Hq2 in *. clear Hno. dlia.
  - assert (4 * i + 4 <= n) as Hin.
    { destruct Hq as [[Hq1 Hq2]|[Hq1 Hq2]]; [lia|]. rewrite Hq2 in *. clear Hno. dlia. }
    replace (i * 4) with (4 * i) by lia. rewrite rd_word_ok by lia. cbn [obind]. case_if; simpl.
    + exists i. repeat split; try done; lia.
    + split; [split; [lia|]|lia]. intros j Hj. destruct (decide (j = i)) as [->|]; [done|].
      apply Hno. lia.
Qed.

(** The words of an information request. *)
Definition requests (tag : Z) : list Z :=
  map (fun i => word (tag + 8 + 4 * i) 4) (seqZ 0 ((word (tag + 4) 4 - 8) / 4)).

Lemma requests_loop hobs pre rest hs tag n beyond : Forall hob_ok hs ->
  hobs = pre ++ hobs_bytes hs ++ rest -> 0 <= tag -> tag + 8 + 4 * n <= zlen image ->
  forall m i fuel b ready avail, Z.of_nat m = n - i -> 0 <= i -> (m < fuel)%nat ->
  written b ready avail beyond -> zlen avail < 2 ^ 32 ->
  wp (loop fuel (request_body hobs (zlen pre) image tag n) (i, b)) (fun '(r, b') =>
    match info_tags (memory_map hs) (map (fun i => word (tag + 8 + 4 * i) 4) (seqZ i (n - i)))
            (zlen avail) with
    | None => r = -1 /\ kept (zlen ready + zlen avail) beyond (b_out b')
    | Some ts => r = 0 /\ exists avail', zlen avail' = zlen avail - zlen ts /\
        written b' (ready ++ ts) avail' beyond
    end).
Proof.
  intros Hok Hh Ht Hn. induction m as [|m IH]; intros i [|fuel] b ready avail Hm Hi Hf Hw Hlt; try lia.
  - rewrite <- Hm. change (seqZ i (Z.of_nat 0)) with (@nil Z). cbn [map info_tags loop].
    unfold request_body. rewrite (proj2 (Z.ltb_ge _ _)) by lia. simpl. split; [done|].
    exists avail. change (zlen []) with 0. rewrite app_nil_r. split; [lia|done].
  - rewrite <- Hm. rewrite seqZ_cons by lia. cbn [map info_tags loop]. unfold request_body at 1.
    rewrite (proj2 (Z.ltb_lt _ _)) by lia. cbn [negb]. rewrite rd_word_ok by lia. cbn [obind].
    unfold info_tag. set (q := word (tag + 8 + 4 * i) 4).
    replace (Z.pred (Z.of_nat (S m))) with (n - Z.succ i) by lia.
    assert (forall t b' avail', zlen t <= zlen avail -> zlen avail' = zlen avail - zlen t ->
      written b' (ready ++ t) avail' beyond ->
      wp (loop fuel (request_body hobs (zlen pre) image tag n) (i + 1, b')) (fun '(r, b') =>
        match match info_tags (memory_map hs)
                (map (fun i => word (tag + 8 + 4 * i) 4) (seqZ (Z.succ i) (n - Z.succ i)))
                (zlen avail - zlen t) with None => None | Some ts => Some (t ++ ts) end with
        | None => r = -1 /\ kept (zlen ready + zlen avail) beyond (b_out b')
        | Some ts => r = 0 /\ exists avail', zlen avail' = zlen avail - zlen ts /\
            written b' (ready ++ ts) avail' beyond
        end)) as Hstep.
    { intros t b' avail' Ht1 Ht2 Hw'. pose proof (zlen_nonneg t).
      eapply wp_mono; [apply (IH (Z.succ i) fuel b' (ready ++ t) avail'); [lia|lia|lia|done|lia]|].
      intros [r b2]. rewrite Ht2. destruct (info_tags _ _ _) as [ts|].
      - intros (-> & avail2 & Hz2 & Hw2). split; [done|]. exists avail2.
        rewrite zlen_app, app_assoc. split; [lia|done].
      - intros (-> & x & Hx & Hxz). split; [done|]. exists x. split; [done|].
        rewrite zlen_app in Hxz. lia. }
    destruct (q =? MB2_REQ_TAG_BASIC_MEM_INFO); [|destruct (q =? MB2_REQ_TAG_MEM_MAP)].
    + pose proof (add_basic_spec hobs pre rest hs b ready avail beyond Hok Hh Hw) as H.
      destruct (mb2_add_basic_mem_info hobs (zlen pre) b) as [[r b']| |]; [|done|done].
      unfold wp in H. cbn [obind].
      destruct (zlen avail <? zlen (basic_tag (memory_map hs))) eqn:El.
      * destruct H as [-> H]. done.
      * destruct H as (-> & avail' & Hz & Hw'). apply Z.ltb_ge in El. by apply (Hstep _ b' avail').
    + pose proof (add_mem_map_spec hobs pre rest hs b ready avail beyond Hok Hh Hw Hlt) as H.
      destruct (mb2_add_mem_map hobs (zlen pre) b) as [[r b']| |]; [|done|done].
      unfold wp in H. cbn [obind].
      destruct (zlen avail <? zlen (map_tag (memory_map hs))) eqn:El.
      * destruct H as [-> H]. done.
      * destruct H as (-> & avail' & Hz & Hw'). apply Z.ltb_ge in El. by apply (Hstep _ b' avail').
    + simpl. split; [done|]. exists (ready ++ avail). rewrite Hw. simpl.
      rewrite <- app_assoc, zlen_app. done.
Qed.

End Image.

(** ** The boot information *)

(** What the boot information holds after its header: the tags that the first
    information request of the image asks for, when the header is well formed and
    they fit. *)
Inductive boot_tags (image : list Z) (app hd : Z) (mm : list (Z * Z * Z)) (room : Z) : option (list Z) -> Prop :=
| bt_length n : n = le_value (slice image (hd + 8) 4) -> n < 16 \/ MB2_HEADER_MAX_OFF < n ->
    boot_tags image app hd mm room None
| bt_no_request n : n = le_value (slice image (hd + 8) 4) -> 16 <= n <= MB2_HEADER_MAX_OFF ->
    first_tag image app (hd + n) MB2_TAG_TYPE_INFO_REQ (hd + 16) None -> boot_tags image app hd mm room None
| bt_request n tag : n = le_value (slice image (hd + 8) 4) -> 16 <= n <= MB2_HEADER_MAX_OFF ->
    first_tag image app (hd + n) MB2_TAG_TYPE_INFO_REQ (hd + 16) (Some tag) ->
    boot_tags image app hd mm room (info_tags mm (requests image tag) room).

Lemma boot_tags_det image app hd mm room t t' : boot_tags image app hd mm room t ->
  boot_tags image app hd mm room t' -> t = t'.
Proof.
  intros [n Hn Hb|n Hn Hb H|n tag Hn Hb H] [n' Hn' Hb'|n' Hn' Hb' H'|n' tag' Hn' Hb' H']; try done; try lia;
    assert (n' = n) as -> by congruence; pose proof (first_tag_det _ _ _ _ _ _ _ H H'); congruence.
Qed.

Lemma kept_drop n beyond out out' : kept n beyond out -> kept n beyond out' ->
  zlen out = zlen out' /\ drop (Z.to_nat n) out = drop (Z.to_nat n) out'.
Proof.
  intros (x & -> & Hx) (y & -> & Hy). rewrite !zlen_app. split; [lia|].
  replace (Z.to_nat n) with (length x) at 1 by (unfold zlen in *; lia).
  replace (Z.to_nat n) with (length y) by (unfold zlen in *; lia).
  by rewrite !drop_app_length.
Qed.

Lemma info_tags_fit mm reqs : forall room ts, info_tags mm reqs room = Some ts -> 0 <= room -> zlen ts <= room.
Proof.
  induction reqs as [|q reqs IH]; intros room ts; simpl; [by intros [= <-]|].
  destruct (info_tag mm q) as [t|]; [|done]. case_if; [done|].
  destruct (info_tags mm reqs (room - zlen t)) as [ts'|] eqn:Et; [|done]. intros [= <-] Hr.
  apply IH in Et; [|lia]. rewrite zlen_app. lia.
Qed.

(** The result of the construction, with what is beyond the room kept. *)
Definition built (n : Z) (beyond : list Z) (tags : option (list Z)) (res : Z * list Z) : Prop :=
  kept n beyond (snd res) /\
  match tags with
  | Some ts => fst res = 0 /\ 8 + zlen ts <= n /\
      exists left, snd res = le_bytes 4 (8 + zlen ts) ++ le_bytes 4 0 ++ ts ++ left
  | None => fst res = -1
  end.

(** The loop over the requests and the final store of the total size. *)
Lemma build_requests image hobs pre rest hs tag lo hi type o4 avail beyond : Forall hob_ok hs ->
  hobs = pre ++ hobs_bytes hs ++ rest -> tag_at image lo hi type tag -> 0 <= lo -> hi <= zlen image ->
  zlen o4 = 4 -> zlen avail < 2 ^ 32 - 8 ->
  let n := (le_value (slice image (tag + 4) 4) - sizeof_mb2_tag) / 4 in
  wp (let! (r, b) := loop (S (Z.to_nat n)) (request_body hobs (zlen pre) image tag n)
        (0, MkB (o4 ++ le_bytes 4 0 ++ avail ++ beyond) 8 (zlen avail)) in
      if negb (r =? 0) then Ok (r, b_out b)
      else let! out := blit (b_out b) 0 (le_bytes 4 (b_idx b)) in Ok (0, out))
    (built (8 + zlen avail) beyond (info_tags (memory_map hs) (requests image tag) (zlen avail))).
Proof.
  intros Hok Hh (T1 & T2 & T3 & T4) Hlo Hhi H4 Hav n. unfold sizeof_mb2_tag in n.
  assert (0 <= n) as Hn by (apply Z.div_pos; lia).
  pose proof (Z.mul_div_le (le_value (slice image (tag + 4) 4) - 8) 4) as Hn4.
  eapply wp_bind_mono.
  { apply (requests_loop image hobs pre rest hs tag n beyond Hok Hh) with
      (m := Z.to_nat n) (ready := o4 ++ le_bytes 4 0) (avail := avail); try lia.
    unfold written. rewrite <- !app_assoc, zlen_app, zlen_le_bytes, H4. done. }
  intros [r b]. unfold requests. fold n. rewrite Z.sub_0_r.
  destruct (info_tags _ _ _) as [ts|] eqn:Et.
  - intros (-> & avail' & Hz & ->). change (negb (0 =? 0)) with false. cbn [b_out b_idx].
    rewrite !zlen_app, zlen_le_bytes, H4, <- !app_assoc.
    pose proof (info_tags_fit _ _ _ _ Et (zlen_nonneg _)).
    change (o4 ++ le_bytes 4 0 ++ ts ++ avail' ++ beyond) with
      ([] ++ o4 ++ (le_bytes 4 0 ++ ts ++ avail' ++ beyond)).
    rewrite blit_mid; [|done|by rewrite zlen_le_bytes]. cbn [obind wp app]. unfold built.
    cbn [fst snd]. replace (4 + Z.of_nat 4 + zlen ts) with (8 + zlen ts) by lia. split.
    + exists (le_bytes 4 (8 + zlen ts) ++ le_bytes 4 0 ++ ts ++ avail').
      rewrite <- !app_assoc, !zlen_app, !zlen_le_bytes. split; [done|lia].
    + split; [done|]. split; [lia|]. by exists (avail' ++ beyond).
  - intros (-> & x & Hx & Hxz). change (negb (-1 =? 0)) with true. cbn [wp]. split; [|done].
    exists x. split; [done|]. rewrite Hxz, zlen_app, zlen_le_bytes. lia.
Qed.

Lemma build_ok image app hd hobs pre rest hs o4 o4' avail beyond :
  bytes image -> 0 <= app /\ app + zlen image < 2 ^ 64 - 16 ->
  0 <= hd -> hd + 16 <= zlen image ->
  (forall n, rd_word image (hd + 8) 4 = Ok n -> n <= MB2_HEADER_MAX_OFF -> hd + n <= zlen image) ->
  Forall hob_ok hs -> hobs = pre ++ hobs_bytes hs ++ rest ->
  zlen o4 = 4 -> zlen o4' = 4 -> zlen avail < 2 ^ 32 - 8 ->
  wp (mb2_build_boot_info_header hobs (zlen pre) image app hd (o4 ++ o4' ++ avail ++ beyond)
        (8 + zlen avail))
    (fun res => exists tags, boot_tags image app hd (memory_map hs) (zlen avail) tags /\
       built (8 + zlen avail) beyond tags res).
Proof.
  intros Hb Happ Hhd Hhd2 Hfits Hok Hh H4 H4' Hav.
  unfold mb2_build_boot_info_header, sizeof_mb2_boot_info_header.
  rewrite (proj2 (Z.ltb_ge _ _)) by (pose proof (zlen_nonneg avail); lia).
  replace (8 + zlen avail - 8) with (zlen avail) by lia.
  rewrite blit_mid; [|done|by rewrite zlen_le_bytes, H4']. cbn [obind].
  assert (kept (8 + zlen avail) beyond (o4 ++ le_bytes 4 0 ++ avail ++ beyond)) as Hk.
  { exists (o4 ++ le_bytes 4 0 ++ avail). rewrite <- !app_assoc, !zlen_app, zlen_le_bytes. split; [done|lia]. }
  rewrite rd_word_ok in * by lia. cbn [obind]. set (n := le_value (slice image (hd + 8) 4)) in *.
  specialize (Hfits n eq_refl). unfold sizeof_mb2_header, MB2_HEADER_MAX_OFF in *.
  destruct ((n <? 16) || (32768 - 4 <? n)) eqn:En.
  { exists None. split; [|done]. apply (bt_length _ _ _ _ _ n); [done|]. unfold MB2_HEADER_MAX_OFF. bools. lia. }
  bools.
  assert (0 <= hd + 16) as Hq1 by lia. assert (0 <= n - 16 < 2 ^ 32) as Hq2 by lia.
  assert (hd + 16 + (n - 16) <= zlen image) as Hq3 by lia.
  pose proof (find_tag_ok image app Hb Happ (hd + 16) (n - 16) MB2_TAG_TYPE_INFO_REQ Hq1 Hq2 Hq3) as Hf.
  replace (hd + 16 + (n - 16)) with (hd + n) in * by lia.
  destruct (mb2_find_tag_by_type _ _ _ _ _) as [[tag|]| |]; [| |done|done]; cbn [obind wp] in *.
  - destruct Hf as (Hf & Htag). pose proof Htag as (T1 & T2 & T3 & T4). rewrite rd_word_ok by lia. cbn [obind].
    eapply wp_mono; [by eapply (build_requests image hobs pre rest hs tag)|]. intros res Hres. eexists. split; [|exact Hres].
    apply (bt_request _ _ _ _ _ n); [done|unfold MB2_HEADER_MAX_OFF; lia|done].
  - exists None. split; [|done]. apply (bt_no_request _ _ _ _ _ n); [done|unfold MB2_HEADER_MAX_OFF; lia|apply Hf].
Qed.

(** C36: The Multiboot 2 boot information is exact and bounded.  For every image
    whose header, as far as its declared length goes, is in memory, and every
    well-formed list of hand-off blocks, [mb2_build_boot_info_header] with room for
    its header returns and never writes beyond the room it was given.  What the
    buffer should hold is a relation on the bytes of the image ([boot_tags], which
    has one value): nothing when the declared length is out of bounds, when its
    list of tags has no information request, or when a requested tag is unknown or
    does not fit; otherwise the requested tags, in order, with the memory map and
    the basic memory sizes of the hand-off blocks.  The function returns 0 exactly in the last
    case, with the total size, a zero and these tags in the buffer, and -1 otherwise. *)
Theorem mb2_boot_info_exact image app hd hobs pre rest hs out max_size :
  bytes image -> 0 <= app -> app + zlen image < 2 ^ 64 - 16 ->
  0 <= hd -> hd + 16 <= zlen image ->
  (forall n, rd_word image (hd + 8) 4 = Ok n -> n <= MB2_HEADER_MAX_OFF -> hd + n <= zlen image) ->
  Forall hob_ok hs -> hobs = pre ++ hobs_bytes hs ++ rest ->
  8 <= max_size < 2 ^ 32 -> max_size <= zlen out ->
  exists r out' tags, mb2_build_boot_info_header hobs (zlen pre) image app hd out max_size = Ok (r, out') /\
    zlen out' = zlen out /\ drop (Z.to_nat max_size) out' = drop (Z.to_nat max_size) out /\
    boot_tags image app hd (memory_map hs) (max_size - 8) tags /\
    (forall tags', boot_tags image app hd (memory_map hs) (max_size - 8) tags' -> tags' = tags) /\
    match tags with
    | Some ts => r = 0 /\ 8 + zlen ts <= max_size /\
        exists left, out' = le_bytes 4 (8 + zlen ts) ++ le_bytes 4 0 ++ ts ++ left
    | None => r = -1
    end.
Proof.
  intros Hb Ha1 Ha2 Hhd Hhd2 Hfits Hok Hh Hmax Hout.
  destruct (split_at out max_size) as (front & beyond & -> & Hfr); [lia|].
  destruct (split_at front 4) as (o4 & o & -> & H4); [lia|]. rewrite zlen_app in Hfr.
  destruct (split_at o 4) as (o4' & avail & -> & H4'); [lia|]. rewrite zlen_app in Hfr.
  pose proof (build_ok image app hd hobs pre rest hs o4 o4' avail beyond Hb (conj Ha1 Ha2) Hhd Hhd2
    Hfits Hok Hh H4 H4') as H.
  rewrite <- !app_assoc. replace max_size with (8 + zlen avail) by lia.
  assert (zlen avail < 2 ^ 32 - 8) as Hq by lia.
  destruct (wp_inv _ _ (H Hq)) as ([r out'] & E & tags & Ht & Hk & Hm). cbn [fst snd] in *.
  assert (kept (8 + zlen avail) beyond (o4 ++ o4' ++ avail ++ beyond)) as Hk0.
  { exists (o4 ++ o4' ++ avail). rewrite <- !app_assoc, !zlen_app. split; [done|lia]. }
  destruct (kept_drop _ _ _ _ Hk Hk0) as [E1 E2]. exists r, out', tags.
  replace (8 + zlen avail - 8) with (zlen avail) by lia. split_and!; try done.
  intros tags' Ht'. by eapply boot_tags_det.
Qed.

Module ExampleMultiboot.

(** A hand-off table, low and high memory, a reserved range. *)
Definition blocks : list hob :=
  [OtherHob 1 (replicate 48 0);
   Resource (replicate 16 0) 0 7 0 (640 * 1024);
   Resource (replicate 16 0) 0 7 (1024 * 1024) (127 * 1024 * 1024);
   Resource hob_fsp_reserved_guid 5 7 (128 * 1024 * 1024) (1024 * 1024)].

(** A header of 48 bytes whose second tag requests both kinds of information. *)
Definition kernel : list Z :=
  le_bytes 4 MB2_HEADER_MAGIC ++ le_bytes 4 0 ++ le_bytes 4 48 ++ le_bytes 4 0 ++
  le_bytes 2 3 ++ le_bytes 2 0 ++ le_bytes 4 12 ++ le_bytes 4 0 ++ le_bytes 4 0 ++
  le_bytes 2 1 ++ le_bytes 2 0 ++ le_bytes 4 16 ++ le_bytes 4 4 ++ le_bytes 4 6.

(** The last 32 bytes of a 64-byte image: a header that declares a kilobyte. *)
Definition stub : list Z :=
  replicate 32 0 ++
  le_bytes 4 MB2_HEADER_MAGIC ++ le_bytes 4 0 ++ le_bytes 4 1024 ++ le_bytes 4 0 ++
  le_bytes 2 3 ++ le_bytes 2 0 ++ le_bytes 4 16 ++ le_bytes 4 0 ++ le_bytes 4 0.

End ExampleMultiboot.

Import ExampleMultiboot.

Lemma blocks_ok : Forall hob_ok blocks.
Proof. repeat constructor; vm_compute; congruence. Qed.

Lemma kernel_bytes : bytes kernel.
Proof.
  apply Forall_forall. intros x Hx. apply list_elem_of_In in Hx.
  repeat (destruct Hx as [<-|Hx]; [vm_compute; split; congruence|]). destruct Hx.
Qed.

(** The request is the second tag, which asks for both kinds. *)
Lemma kernel_tags : boot_tags kernel 0x100000 0 (memory_map blocks) 120
  (Some (basic_tag (memory_map blocks) ++ map_tag (memory_map blocks))).
Proof.
  replace (Some (basic_tag (memory_map blocks) ++ map_tag (memory_map blocks)))
    with (info_tags (memory_map blocks) (requests kernel 32) 120) by (vm_compute; reflexivity).
  apply (bt_request _ _ _ _ _ 48 32); [vm_compute; reflexivity|vm_compute; split; congruence|].
  apply first_later; [vm_compute; congruence..|].
  match goal with |- first_tag _ _ _ _ ?x _ => let v := eval vm_compute in x in change x with v end.
  apply first_here; vm_compute; congruence.
Qed.

Lemma mb2_boot_info_exact_witness :
  exists out' left, mb2_build_boot_info_header (hobs_bytes blocks) 0 kernel 0x100000 0 (replicate 200 0) 128 =
    Ok (0, out') /\
  out' = le_bytes 4 112 ++ le_bytes 4 0 ++ (basic_tag (memory_map blocks) ++ map_tag (memory_map blocks)) ++ left.
Proof.
  destruct (mb2_boot_info_exact kernel 0x100000 0 (hobs_bytes blocks) [] [] blocks (replicate 200 0) 128)
    as (r & out' & tags & E & _ & _ & _ & Hdet & H).
  - exact kernel_bytes.
  - vm_compute. congruence.
  - vm_compute. congruence.
  - lia.
  - vm_compute. congruence.
  - intros n En _. vm_compute in En. injection En as <-. vm_compute. congruence.
  - exact blocks_ok.
  - by rewrite app_nil_r.
  - lia.
  - vm_compute. congruence.
  - change (zlen []) with 0 in E. change (128 - 8) with 120 in Hdet.
    rewrite <- (Hdet _ kernel_tags) in H. destruct H as (-> & _ & left & H). exists out', left. split; [exact E|exact H].
Defined.

(** The header is not kept inside the image.  In an image of 64 bytes whose
    header is found in its second half and declares a length of one kilobyte,
    [mb2_build_boot_info_header] reads beyond the end of the image: the declared
    length is compared with the size of the whole window, whatever the offset of
    the header in it. *)
Theorem mb2_reads_past_image :
  mb2_find_header stub (zlen stub) = Ok (Some 32) /\
  mb2_build_boot_info_header (hobs_bytes blocks) 0 stub 0x100000 32 (replicate 200 0) 128 = Oob.
Proof. split; vm_compute; reflexivity. Qed.
