(* ===== verification/Linux.v ===== *)
(** * The Linux loader ([src/x86/linux_loader.c])

    [load_linux] on a flat memory: it fills the E820 table of the boot parameters
    from the hand-off blocks, copies the command line and the protected-mode
    kernel, and jumps.  Of [struct boot_params], a local variable, the set-up header
    and the memory map are used.  The build is that with WOLFBOOT_FSP. *)

From Stdlib Require Import ZArith Lia.
From stdpp Require Import prelude.
From S2P Require Import Prelude Flash Elf Hob.

Local Open Scope Z_scope.

Definition KERNEL_LOAD_ADDRESS : Z := 0x100000.
Definition KERNEL_CMDLINE_ADDRESS : Z := 0x10000.
Definition E820_MAX_ENTRIES_ZEROPAGE : Z := 128.
Definition E820_TYPE_RAM : Z := 1.
Definition E820_TYPE_RESERVED : Z := 2.

(** [sizeof(struct setup_header)] and the offsets of the fields used in it. *)
Definition sizeof_setup_header : Z := 123.
Definition off_syssize : Z := 3.
Definition off_type_of_loader : Z := 31.
Definition off_code32_start : Z := 35.
Definition off_cmd_line_ptr : Z := 55.

(** The header, the number of entries (a byte) and the table. *)
Record boot_params := MkBP {
  hdr : list Z; e820_entries : Z; e820_table : list (Z * Z * Z) }.

Definition e820_add_entry_cb : hob_mem_map_cb boot_params :=
  fun start length type bp =>
  if E820_MAX_ENTRIES_ZEROPAGE <=? e820_entries bp then Ok (-1, bp)
  else
    let! table := wr (e820_table bp) (e820_entries bp)
      (start, length, if type =? EFI_RESOURCE_SYSTEM_MEMORY then E820_TYPE_RAM
                      else E820_TYPE_RESERVED) in
    Ok (0, MkBP (hdr bp) (u8 (e820_entries bp + 1)) table).

Definition memory_map_from_hoblist (bp : boot_params) (hobs : list Z) (hobList : Z)
    : outcome (Z * boot_params) :=
  hob_iterate_memory_map hobs hobList e820_add_entry_cb bp.

(** [None] is the return value -1. *)
Definition linux_kernel_size (syssize load_limit : Z) : option Z :=
  let ksz := u64 (syssize * 16) in
  let check max_size :=
    if (ksz =? 0) || (max_size <? ksz) then None else Some (u32 ksz) in
  if load_limit =? 0 then check 0xFFFFFFFF
  else if load_limit <=? KERNEL_LOAD_ADDRESS then None
  else check (load_limit - KERNEL_LOAD_ADDRESS).

(** The call ends in a panic, or jumps to an address with the memory and the
    boot parameters left to the kernel. *)
Inductive linux_result :=
| LinuxPanic (m : mem)
| LinuxJump (m : mem) (bp : boot_params) (kernel_addr : Z).

(** [memcpy] to an address from bytes elsewhere. *)
Definition mem_put (m : mem) (dst : Z) (d : list Z) : mem :=
  fun a => if in_range dst (zlen d) a then at_ d (a - dst) else m a.

(** [cmd_line] is the string without its terminator; a copy of overlapping
    memory has no meaning. *)
Definition load_linux (m : mem) (linux_image tolum : Z) (hobs : list Z) (hobList : Z)
    (cmd_line : list Z) : outcome linux_result :=
  let bp := MkBP (mread m (linux_image + 0x1f1) sizeof_setup_header) 0 (replicate 128 (0, 0, 0)) in
  let! (ret, bp) := memory_map_from_hoblist bp hobs hobList in
  if negb (ret =? 0) then Ok (LinuxPanic m)
  else
    let setup_sects := at_ (hdr bp) 0 in
    let param_size := if negb (setup_sects =? 0) then (setup_sects + 1) * 512 else 5 * 512 in
    let m := mem_put m KERNEL_CMDLINE_ADDRESS (cmd_line ++ [0]) in
    let! h := blit (hdr bp) off_type_of_loader [0xff] in
    let! h := blit h off_cmd_line_ptr (le_bytes 4 KERNEL_CMDLINE_ADDRESS) in
    let bp := MkBP h (e820_entries bp) (e820_table bp) in
    let! syssize := rd_word h off_syssize 4 in
    match linux_kernel_size syssize tolum with
    | None => Ok (LinuxPanic m)
    | Some kernel_size =>
        let src := linux_image + param_size in
        if (src <? KERNEL_LOAD_ADDRESS + kernel_size) && (KERNEL_LOAD_ADDRESS <? src + kernel_size)
        then Oob
        else
          let m := mem_move m KERNEL_LOAD_ADDRESS src kernel_size in
          let! entry := rd_word h off_code32_start 4 in
          Ok (LinuxJump m bp entry)
    end.

(** ** Correctness *)

Definition e820_of '((start, len, rt) : Z * Z * Z) : Z * Z * Z :=
  (start, len, if rt =? EFI_RESOURCE_SYSTEM_MEMORY then E820_TYPE_RAM else E820_TYPE_RESERVED).

(** The table is the memory map, in order, and nothing is dropped silently. *)
Lemma e820_spec h mm : forall pre post, zlen pre + zlen post = 128 ->
  wp (iter_cb e820_add_entry_cb mm (MkBP h (zlen pre) (pre ++ post))) (fun '(r, bp) =>
    if zlen post <? zlen mm then r = -1
    else r = 0 /\ bp = MkBP h (zlen pre + zlen mm)
                       (pre ++ (e820_of <$> mm) ++ drop (length mm) post)).
Proof.
  induction mm as [|[[start len] rt] mm IH]; intros pre post Hz;
    pose proof (zlen_nonneg pre); pose proof (zlen_nonneg post).
  - change (zlen []) with 0. rewrite (proj2 (Z.ltb_ge _ _)) by lia. simpl. by rewrite Z.add_0_r.
  - pose proof (zlen_nonneg mm). rewrite zlen_cons. cbn [iter_cb].
    unfold e820_add_entry_cb at 1, E820_MAX_ENTRIES_ZEROPAGE. cbn [e820_entries e820_table hdr].
    destruct post as [|x post].
    + change (zlen []) with 0 in *. rewrite (proj2 (Z.leb_le _ _)), (proj2 (Z.ltb_lt _ _)) by lia. done.
    + rewrite zlen_cons in *. pose proof (zlen_nonneg post).
      rewrite (proj2 (Z.leb_gt _ _)) by lia.
      assert (forall v, wr (pre ++ x :: post) (zlen pre) v = Ok ((pre ++ [v]) ++ post)) as Hwr.
      { intros v. rewrite wr_ok by (rewrite zlen_app, zlen_cons; lia). f_equal. unfold zlen.
        rewrite Nat2Z.id, insert_app_r_alt, Nat.sub_diag by lia. by rewrite <- app_assoc. }
      rewrite Hwr. cbn [obind]. rewrite u8_small by lia.
      change (negb (0 =? 0)) with false. cbv iota.
      set (v := (start, len, _)).
      assert (zlen pre + 1 = zlen (pre ++ [v])) as -> by (by rewrite zlen_app).
      eapply wp_mono; [apply IH; rewrite zlen_app; change (zlen [v]) with 1; lia|].
      intros [r bp]. destruct (Z.ltb_spec (zlen post) (zlen mm)).
      * rewrite (proj2 (Z.ltb_lt _ _)) by lia. done.
      * rewrite (proj2 (Z.ltb_ge _ _)) by lia. intros [-> ->]. split; [done|].
        rewrite zlen_app. change (zlen [v]) with 1. rewrite <- app_assoc. simpl. f_equal. lia.
Qed.

(** The kernel fits between its address and the limit. *)
Lemma kernel_size_spec syssize tolum : 0 <= syssize < 2 ^ 32 -> 0 < tolum < 2 ^ 32 ->
  linux_kernel_size syssize tolum =
  if (0 <? syssize) && (KERNEL_LOAD_ADDRESS + syssize * 16 <=? tolum) then Some (syssize * 16) else None.
Proof.
  intros Hs Ht. unfold linux_kernel_size, KERNEL_LOAD_ADDRESS. rewrite u64_small by lia.
  rewrite (proj2 (Z.eqb_neq tolum 0)) by lia.
  destruct (Z.leb_spec tolum 0x100000).
  - destruct (Z.ltb_spec 0 syssize); [|done]. by rewrite (proj2 (Z.leb_gt _ _)) by lia.
  - destruct (Z.eqb_spec (syssize * 16) 0); cbn [orb].
    + by rewrite (proj2 (Z.ltb_ge 0 syssize)) by lia.
    + rewrite (proj2 (Z.ltb_lt 0 syssize)) by lia. cbn [andb].
      destruct (Z.ltb_spec (tolum - 0x100000) (syssize * 16)).
      * by rewrite (proj2 (Z.leb_gt _ _)) by lia.
      * rewrite (proj2 (Z.leb_le _ _)) by lia. by rewrite u32_small by lia.
Qed.

(** The header that the kernel gets: two fields are set, the others are those
    of the image. *)
Lemma header_set h : zlen h = sizeof_setup_header ->
  exists h2, (let! h1 := blit h off_type_of_loader [0xff] in
              blit h1 off_cmd_line_ptr (le_bytes 4 KERNEL_CMDLINE_ADDRESS)) = Ok h2 /\
  forall off, 0 <= off -> off + 4 <= 31 \/ 32 <= off /\ off + 4 <= 55 ->
    rd_word h2 off 4 = Ok (le_value (slice h off 4)).
Proof.
  unfold sizeof_setup_header, off_type_of_loader, off_cmd_line_ptr. intros Hz.
  assert (zlen [0xff] = 1) as E1 by done.
  assert (zlen (le_bytes 4 KERNEL_CMDLINE_ADDRESS) = 4) as E4 by done.
  rewrite blit_put by lia. cbn [obind].
  assert (zlen (put h 31 [0xff]) = 123) as Hz1 by (rewrite zlen_put; lia).
  rewrite blit_put by lia. eexists. split; [done|]. intros off H0 Hoff.
  assert (zlen (put (put h 31 [0xff]) 55 (le_bytes 4 KERNEL_CMDLINE_ADDRESS)) = 123) as Hz2
    by (rewrite zlen_put; lia).
  rewrite rd_word_ok by lia. do 2 f_equal. apply buf_ext; [rewrite !slice_length; lia|].
  rewrite slice_length by lia. intros i Hi. rewrite !at_slice by lia.
  rewrite !at_put by lia. rewrite E1, E4.
  destruct (Z.leb_spec 55 (off + i)), (Z.ltb_spec (off + i) (55 + 4)); simpl; try lia;
    destruct (Z.leb_spec 31 (off + i)), (Z.ltb_spec (off + i) (31 + 1)); simpl; done || lia.
Qed.

(** C37: The Linux loader is exact and bounded.  For every memory, every list of
    well-formed hand-off blocks and every kernel that does not overlap its
    destination, [load_linux] ends.  When the blocks describe at most 128
    resources and the kernel is not empty and fits below the top of low memory, it jumps to the entry point
    of the kernel's header with the kernel copied to its load address, the
    command line, terminated, at its own and all other memory unchanged, and
    with the memory map of the blocks, in order, as the E820 table; otherwise it
    panics, having written nothing but the command line. *)
Theorem linux_load_exact m image tolum hobs pre rest hs cmd :
  mem_ok m -> 0 < tolum < 2 ^ 32 -> Forall hob_ok hs -> hobs = pre ++ hobs_bytes hs ++ rest ->
  let field off n := le_value (mread m (image + 0x1f1 + off) n) in
  let sects := m (image + 0x1f1) in
  let src := image + (if sects =? 0 then 5 else sects + 1) * 512 in
  let size := 16 * field off_syssize 4 in
  let m1 := mem_put m KERNEL_CMDLINE_ADDRESS (cmd ++ [0]) in
  (KERNEL_LOAD_ADDRESS + size <= src \/ src + size <= KERNEL_LOAD_ADDRESS) ->
  exists r, load_linux m image tolum hobs (zlen pre) cmd = Ok r /\
    match r with
    | LinuxJump m' bp entry =>
        zlen (memory_map hs) <= 128 /\ 0 < size /\ KERNEL_LOAD_ADDRESS + size <= tolum /\
        entry = field off_code32_start 4 /\
        m' = mem_move m1 KERNEL_LOAD_ADDRESS src size /\
        e820_entries bp = zlen (memory_map hs) /\
        take (length (memory_map hs)) (e820_table bp) = e820_of <$> memory_map hs
    | LinuxPanic m' =>
        (128 < zlen (memory_map hs) /\ m' = m) \/
        ((size = 0 \/ tolum < KERNEL_LOAD_ADDRESS + size) /\ m' = m1)
    end.
Proof.
  intros Hm Ht Hok -> field sects src size m1 Hov. unfold load_linux, memory_map_from_hoblist.
  rewrite hob_iterate_spec by done. set (h := mread m (image + 0x1f1) sizeof_setup_header).
  pose proof (e820_spec h (memory_map hs) [] (replicate 128 (0, 0, 0)) eq_refl) as H.
  destruct (wp_inv _ _ H) as ([r bp] & E & Hr). change (zlen []) with 0 in E. cbn [app] in E.
  rewrite E. cbn [obind]. change (zlen (replicate 128 (0, 0, 0))) with 128 in Hr.
  destruct (Z.ltb_spec 128 (zlen (memory_map hs))).
  { subst r. eexists. split; [done|]. left. auto. }
  destruct Hr as [-> ->]. change (negb (0 =? 0)) with false. cbn [hdr e820_entries e820_table].
  destruct (header_set h) as (h2 & Eh & Hfield); [by apply mread_length|].
  assert (forall off, 0 <= off -> off + 4 <= 31 \/ 32 <= off /\ off + 4 <= 55 ->
    rd_word h2 off 4 = Ok (field off 4)) as Hf.
  { intros off Hoff0 Hoff. rewrite Hfield by done. subst h field. do 2 f_equal.
    apply slice_mread; unfold sizeof_setup_header; lia. }
  destruct (blit h off_type_of_loader [0xff]) as [h1| |]; try done. cbn [obind] in *.
  rewrite Eh. cbn [obind]. rewrite (Hf off_syssize) by (unfold off_syssize; lia). cbn [obind].
  assert (0 <= field off_syssize 4 < 2 ^ 32) as Hs.
  { pose proof (le_value_range (mread m (image + 0x1f1 + off_syssize) 4) (mread_bytes _ _ _ Hm)) as Hr.
    by rewrite mread_length in Hr by lia. }
  assert (at_ h 0 = sects) as Hsects.
  { subst h sects. rewrite mread_at by (unfold sizeof_setup_header; lia). f_equal. lia. }
  rewrite kernel_size_spec by done. rewrite Hsects.
  replace (field off_syssize 4 * 16) with size by (subst size; lia).
  destruct ((0 <? field off_syssize 4) && (KERNEL_LOAD_ADDRESS + size <=? tolum)) eqn:Ec; bools.
  2: { eexists. split; [done|]. right. split; [|done]. apply andb_false_iff in Ec. subst size.
       destruct Ec; bools; lia. }
  assert (image + (if negb (sects =? 0) then (sects + 1) * 512 else 5 * 512) = src) as ->.
  { subst src. by destruct (sects =? 0). }
  assert ((src <? KERNEL_LOAD_ADDRESS + size) && (KERNEL_LOAD_ADDRESS <? src + size) = false) as ->.
  { apply andb_false_iff. destruct Hov; [left|right]; apply Z.ltb_ge; lia. }
  rewrite (Hf off_code32_start) by (unfold off_code32_start; lia). cbn [obind].
  eexists. split; [done|]. split; [lia|]. split; [subst size; lia|]. split; [done|].
  split; [done|]. split; [done|]. split; [done|]. cbn [e820_table app].
  rewrite take_app_length' by (by rewrite length_fmap). done.
Qed.

Module ExampleLinux.

(** A kernel of 32 bytes with two set-up sectors, at 8 MB. *)
Definition image_at : Z := 0x800000.
Definition ram : mem := fun a =>
  if a =? image_at + 0x1f1 then 2
  else if a =? image_at + 0x1f1 + off_syssize then 2
  else if a =? image_at + 0x1f1 + off_code32_start + 2 then 0x10
  else if a =? image_at + 3 * 512 + 5 then 0xcc else 0.

Definition blocks : list hob :=
  [Resource (replicate 16 0) 0 7 0 (640 * 1024); OtherHob 4 [1; 2; 3];
   Resource (replicate 16 0) 5 7 (1024 * 1024) 4096].

End ExampleLinux.

Import ExampleLinux.

Lemma linux_load_exact_witness :
  exists m' bp, load_linux ram image_at 0x4000000 (hobs_bytes blocks) 0 [114; 119] =
    Ok (LinuxJump m' bp 0x100000) /\ m' 0x100005 = 0xcc /\ m' 0x10001 = 119 /\
    take 2 (e820_table bp) = [(0, 640 * 1024, 1); (1024 * 1024, 4096, 2)].
Proof.
  destruct (linux_load_exact ram image_at 0x4000000 (hobs_bytes blocks) [] [] blocks [114; 119])
    as (r & E & H).
  - intros a. unfold ram. repeat case_if; vm_compute; split; congruence.
  - lia.
  - repeat constructor; vm_compute; congruence.
  - by rewrite app_nil_r.
  - left. vm_compute. congruence.
  - destruct r as [m'|m' bp entry].
    + exfalso. destruct H as [[H _]|[[H|H] _]]; vm_compute in H; congruence.
    + destruct H as (_ & _ & _ & He & Hm & _ & Ht). exists m', bp.
      change (zlen []) with 0 in E. split; [rewrite E; do 2 f_equal; rewrite He; reflexivity|].
      rewrite Hm. split; [reflexivity|]. split; [reflexivity|exact Ht].
Defined.
