(* ===== verification/Paging.v ===== *)
(** * Page tables of x86 ([src/x86/paging.c])

    The identity mapping that the first stage builds and the mapping of single
    pages by the second stage, which the ELF loader calls back for each segment.
    Page tables are 64-bit words of a memory [pt], by address; [cr3] and the
    address of [page_table_pages] are parameters.  [translate] is the page walk of
    the processor in long mode. *)

From Stdlib Require Import ZArith Lia.
From stdpp Require Import prelude.
From S2P Require Import Prelude.

Local Open Scope Z_scope.

Definition PAGE_TABLE_PAGE_SIZE : Z := 0x1000.
Definition PAGE_TABLE_PAGE_NUM : Z := 7.
Definition WOLFBOOT_PTP_NUM : Z := 512.
Definition PAGE_SHIFT : Z := 9.
Definition PAGE_ENTRY_PRESENT : Z := 1.
Definition PAGE_ENTRY_RW : Z := 2.
Definition PAGE_ENTRY_PS : Z := 2 ^ 7.
Definition PAGE_ENTRIES_PER_PAGE : Z := 512.
Definition PAGE_2MB_SHIFT : Z := 21.

(** [PAGE_MASK] is an [int]; in 64-bit arithmetic it is extended by its sign. *)
Definition PAGE_MASK : Z := u64 (Z.lnot (2 ^ 12 - 1)).

Definition words := Z -> Z.
Definition upd (w : words) (a v : Z) : words := fun b => if b =? a then v else w b.

Definition x86_paging_pte_get_pfn (w : words) (pte : Z) : Z := Z.land (w pte) PAGE_MASK.

(** [x86_paging_pte_set_pfn], [set_present] and [set_rw], in turn. *)
Definition x86_paging_setup_entry (w : words) (e addr : Z) : words :=
  let w := upd w e (Z.lor (w e) (Z.land addr PAGE_MASK)) in
  let w := upd w e (Z.lor (w e) PAGE_ENTRY_PRESENT) in
  upd w e (Z.lor (w e) PAGE_ENTRY_RW).

Definition x86_paging_pte_set_ps (w : words) (e : Z) : words :=
  upd w e (Z.lor (w e) PAGE_ENTRY_PS).

Definition x86_paging_get_needed_entries (size level : Z) : Z :=
  u32 (Z.land (Z.shiftr size (PAGE_SHIFT * level + 3)) (2 ^ 12 - 1) + 1).

(** [for (i = 0; i < n; ++i)] over entries. *)
Fixpoint for_entries (n : nat) (i : Z) (step : Z -> words -> words) (w : words) : words :=
  match n with O => w | S n => for_entries n (i + 1) step (step i w) end.

Definition x86_paging_build_identity_mapping (w : words) (top_address page_table : Z) : Z * words :=
  let entries_l4 := x86_paging_get_needed_entries top_address 4 in
  let entries_l3 := x86_paging_get_needed_entries top_address 3 in
  let entries_l2 := x86_paging_get_needed_entries top_address 2 in
  let pages_l3 := entries_l4 in
  let pages_l2 := entries_l3 in
  if PAGE_TABLE_PAGE_NUM <? u32 (pages_l2 + pages_l3 + 1) then (-1, w)
  else
    let ptpl4 := page_table in
    let ptpl3 := ptpl4 + 8 * PAGE_ENTRIES_PER_PAGE in
    let ptpl2 := ptpl3 + 8 * (pages_l3 * PAGE_ENTRIES_PER_PAGE) in
    let w := for_entries (Z.to_nat entries_l4) 0 (fun i w =>
      x86_paging_setup_entry w (ptpl4 + 8 * i) (ptpl3 + 8 * (i * PAGE_ENTRIES_PER_PAGE))) w in
    let w := for_entries (Z.to_nat entries_l3) 0 (fun i w =>
      x86_paging_setup_entry w (ptpl3 + 8 * i) (ptpl2 + 8 * (i * PAGE_ENTRIES_PER_PAGE))) w in
    let w := for_entries (Z.to_nat entries_l2) 0 (fun i w =>
      x86_paging_pte_set_ps
        (x86_paging_setup_entry w (ptpl2 + 8 * i) (u32 (Z.shiftl i PAGE_2MB_SHIFT)))
        (ptpl2 + 8 * i)) w in
    (0, w).

(** The address of the entry of a table. *)
Definition x86_paging_get_entry_ptr (address ptp level : Z) : Z :=
  ptp + 8 * Z.land (Z.shiftr address (12 + (level - 1) * 9)) 0x1FF.

Section Map.
Variables (cr3 page_table_pages : Z).

(** The words and [page_table_page_used]. *)
Record paging := MkPaging { pt : words; page_table_page_used : Z }.

(** [memset(ptp, 0, PAGE_TABLE_PAGE_SIZE)]. *)
Definition clear_page (w : words) (ptp : Z) : words :=
  fun a => if (ptp <=? a) && (a <? ptp + PAGE_TABLE_PAGE_SIZE) then 0 else w a.

(** [None] is a panic. *)
Definition x86_paging_setup_ptp (s : paging) (e : Z) : option paging :=
  if WOLFBOOT_PTP_NUM <=? page_table_page_used s then None
  else
    let ptp := page_table_pages + page_table_page_used s * PAGE_TABLE_PAGE_SIZE in
    let w := x86_paging_setup_entry (pt s) e ptp in
    Some (MkPaging (clear_page w ptp) (page_table_page_used s + 1)).

(** [if ( *e == 0) x86_paging_setup_ptp(e)]. *)
Definition ensure_ptp (s : paging) (e : Z) : option paging :=
  if pt s e =? 0 then x86_paging_setup_ptp s e else Some s.

Definition x86_paging_map_page (vaddress paddress : Z) (s : paging) : option paging :=
  let pl4e := x86_paging_get_entry_ptr vaddress cr3 4 in
  match ensure_ptp s pl4e with
  | None => None
  | Some s =>
      let pl3e := x86_paging_get_entry_ptr vaddress (x86_paging_pte_get_pfn (pt s) pl4e) 3 in
      match ensure_ptp s pl3e with
      | None => None
      | Some s =>
          let pl2e := x86_paging_get_entry_ptr vaddress (x86_paging_pte_get_pfn (pt s) pl3e) 2 in
          match ensure_ptp s pl2e with
          | None => None
          | Some s =>
              if negb (Z.land (pt s pl2e) PAGE_ENTRY_PS =? 0) then Some s
              else
                let pl1e := x86_paging_get_entry_ptr vaddress
                              (x86_paging_pte_get_pfn (pt s) pl2e) 1 in
                if negb (pt s pl1e =? 0) then Some s
                else Some (MkPaging (x86_paging_setup_entry (pt s) pl1e paddress)
                             (page_table_page_used s))
          end
      end
  end.

(** One page; the result of the loop is [None] on a panic. *)
Definition map_body (end_ : Z) (st : Z * Z * paging) : outcome (Z * Z * paging + option paging) :=
  let '(page, pa, s) := st in
  if negb (page <? end_) then Ok (inr (Some s))
  else match x86_paging_map_page page pa s with
       | None => Ok (inr None)
       | Some s => Ok (inl (u64 (page + PAGE_TABLE_PAGE_SIZE), u64 (pa + PAGE_TABLE_PAGE_SIZE), s))
       end.

(** The return value and the state; the fuel is one more than the pages. *)
Definition x86_paging_map_memory (va pa size : Z) (s : paging) : outcome (option (Z * paging)) :=
  if Z.land pa PAGE_MASK =? 0 then Ok (Some (-1, s))
  else
    let end_ := u64 (va + size) in
    let start := Z.land va PAGE_MASK in
    let pa := Z.land pa PAGE_MASK in
    let! r := loop (Z.to_nat (size / PAGE_TABLE_PAGE_SIZE + 3)) (map_body end_) (start, pa, s) in
    Ok (match r with None => None | Some s => Some (0, s) end).

End Map.

(** ** The page walk of the processor *)

Definition present (v : Z) : bool := Z.testbit v 0.
Definition large (v : Z) : bool := Z.testbit v 7.

Definition translate (w : words) (cr3 va : Z) : option Z :=
  let e4 := x86_paging_get_entry_ptr va cr3 4 in
  if negb (present (w e4)) then None else
  let e3 := x86_paging_get_entry_ptr va (x86_paging_pte_get_pfn w e4) 3 in
  if negb (present (w e3)) then None else
  if large (w e3) then Some (w e3 / 2 ^ 30 * 2 ^ 30 + va mod 2 ^ 30) else
  let e2 := x86_paging_get_entry_ptr va (x86_paging_pte_get_pfn w e3) 2 in
  if negb (present (w e2)) then None else
  if large (w e2) then Some (w e2 / 2 ^ 21 * 2 ^ 21 + va mod 2 ^ 21) else
  let e1 := x86_paging_get_entry_ptr va (x86_paging_pte_get_pfn w e2) 1 in
  if negb (present (w e1)) then None else
  Some (x86_paging_pte_get_pfn w e1 + va mod 2 ^ 12).
