(* ===== verification/PagingSpec.v ===== *)
(** * Correctness of the page tables

    What the identity mapping translates to, and the mapping of pages: the
    invariant of tables that are not shared, its preservation, and the
    translation of a mapped range. *)

From Stdlib Require Import ZArith Lia.
From stdpp Require Import prelude.
From S2P Require Import Prelude Paging.

Local Open Scope Z_scope.

(** ** Entries *)

Lemma land_page x : 0 <= x < 2 ^ 64 -> Z.land x PAGE_MASK = x - x mod 2 ^ 12.
Proof.
  intros Hx. unfold PAGE_MASK, u64. rewrite land_round by lia. by rewrite (Z.mod_small x) by lia.
Qed.

Lemma aligned_mod x : (4096 | x) -> x mod 2 ^ 12 = 0.
Proof. intros [k ->]. apply Z.mod_mul. lia. Qed.

(** Flags below a page address. *)
Lemma lor_flags x f : (4096 | x) -> 0 <= x -> 0 <= f < 4096 -> Z.lor x f = x + f.
Proof.
  intros [k ->] Hx Hf. rewrite Z.lor_comm. replace (k * 4096) with (Z.shiftl k 12)
    by (rewrite Z.shiftl_mul_pow2; lia).
  rewrite lor_shift_add, Z.shiftl_mul_pow2 by lia. lia.
Qed.

Lemma upd_eq w a v : upd w a v a = v.
Proof. unfold upd. by rewrite Z.eqb_refl. Qed.

Lemma upd_ne w a v b : b <> a -> upd w a v b = w b.
Proof. unfold upd. by intros H%Z.eqb_neq; rewrite H. Qed.

(** An empty entry that is set up holds its address and two flags. *)
Lemma setup_entry_eq w e addr : w e = 0 -> 0 <= addr < 2 ^ 64 -> (4096 | addr) ->
  x86_paging_setup_entry w e addr e = addr + 3.
Proof.
  intros Hw Ha Hal. unfold x86_paging_setup_entry. rewrite !upd_eq, Hw, Z.lor_0_l, land_page by lia.
  rewrite aligned_mod, Z.sub_0_r by done. rewrite <- Z.lor_assoc.
  change (Z.lor PAGE_ENTRY_PRESENT PAGE_ENTRY_RW) with 3. apply lor_flags; [done|lia|lia].
Qed.

Lemma setup_entry_ne w e addr b : b <> e -> x86_paging_setup_entry w e addr b = w b.
Proof. intros H. unfold x86_paging_setup_entry. by rewrite !upd_ne by done. Qed.

(** Reading an entry: its flags and its address. *)
Lemma entry_flags x f : (4096 | x) -> 0 <= x -> 0 <= f < 4096 ->
  present (x + f) = Z.testbit f 0 /\ large (x + f) = Z.testbit f 7.
Proof.
  intros H1 H2 H3. rewrite <- lor_flags by done. destruct H1 as [k ->].
  unfold present, large. rewrite !Z.lor_spec. change 4096 with (2 ^ 12).
  rewrite !Z.mul_pow2_bits_low by lia. done.
Qed.

Lemma entry_pfn w e x f : w e = x + f -> (4096 | x) -> 0 <= x -> x + f < 2 ^ 64 -> 0 <= f < 4096 ->
  x86_paging_pte_get_pfn w e = x.
Proof.
  intros E [k ->] H2 H3 H4. unfold x86_paging_pte_get_pfn. rewrite E, (land_page (_ + f)) by lia.
  rewrite (Z.add_comm (k * 4096)), Z.mod_add, (Z.mod_small f) by lia. lia.
Qed.

(** An entry that points to a table. *)
Lemma table_entry w e x : w e = x + 3 -> (4096 | x) -> 0 <= x < 2 ^ 63 ->
  present (w e) = true /\ large (w e) = false /\ x86_paging_pte_get_pfn w e = x.
Proof.
  intros E H1 H2. destruct (entry_flags x 3) as [F1 F2]; [done|lia|lia|].
  rewrite E, F1, F2. split; [done|]. split; [done|]. by eapply entry_pfn; [done|done|lia|lia|lia].
Qed.

Lemma entry_ptr_index va ptp level : 1 <= level ->
  x86_paging_get_entry_ptr va ptp level = ptp + 8 * (va / 2 ^ (12 + (level - 1) * 9) mod 512).
Proof.
  intros Hl. unfold x86_paging_get_entry_ptr. change 511 with (Z.ones 9).
  by rewrite Z.land_ones, Z.shiftr_div_pow2 by lia.
Qed.

(** A loop that sets up a row of empty entries. *)
Lemma for_entries_spec b V step n : forall i w,
  (forall j w', i <= j < i + Z.of_nat n -> w' (b + 8 * j) = 0 -> step j w' (b + 8 * j) = V j) ->
  (forall j w' a, a <> b + 8 * j -> step j w' a = w' a) ->
  (forall j, i <= j < i + Z.of_nat n -> w (b + 8 * j) = 0) ->
  (forall j, i <= j < i + Z.of_nat n -> for_entries n i step w (b + 8 * j) = V j) /\
  (forall a, (forall j, i <= j < i + Z.of_nat n -> a <> b + 8 * j) -> for_entries n i step w a = w a).
Proof.
  induction n as [|n IH]; intros i w H1 H2 Hz; [split; [intros j Hj; lia|done]|]. simpl.
  destruct (IH (i + 1) (step i w)) as [A B]; [intros j w' Hj; apply H1; lia|done| |].
  { intros j Hj. rewrite H2 by lia. apply Hz. lia. }
  split.
  - intros j Hj. destruct (decide (j = i)) as [->|Hne].
    + rewrite B by (intros j Hj'; lia). apply H1; [lia|]. apply Hz. lia.
    + apply A. lia.
  - intros a Ha. rewrite B by (intros j Hj'; apply Ha; lia). apply H2, Ha. lia.
Qed.

(** ** The identity mapping *)

Lemma needed_entries top level : 0 <= top < 2 ^ 42 -> 2 <= level <= 4 -> top < 2 ^ 33 ->
  x86_paging_get_needed_entries top level = top / 2 ^ (9 * level + 3) + 1.
Proof.
  intros H1 H2 H3. unfold x86_paging_get_needed_entries, PAGE_SHIFT.
  change (2 ^ 12 - 1) with (Z.ones 12). rewrite Z.land_ones, Z.shiftr_div_pow2 by lia.
  assert (0 <= top / 2 ^ (9 * level + 3) < 2 ^ 12) as Hq.
  { split; [apply Z.div_pos; lia|]. apply Z.div_lt_upper_bound; [lia|].
    rewrite <- Z.pow_add_r by lia. eapply Z.lt_le_trans; [exact H3|]. apply Z.pow_le_mono_r; lia. }
  rewrite Z.mod_small by lia. apply u32_small. lia.
Qed.

Lemma large_entry w e i : w e = 0 ->
  x86_paging_pte_set_ps (x86_paging_setup_entry w e (u32 (Z.shiftl i 21))) e e =
  i * 2 ^ 21 mod 2 ^ 32 + 0x83.
Proof.
  intros Hw. rewrite Z.shiftl_mul_pow2 by lia. unfold u32. set (x := i * 2 ^ 21 mod 2 ^ 32).
  assert (0 <= x < 2 ^ 32) as Hx by (apply Z.mod_pos_bound; lia).
  assert (4096 | x) as Hal.
  { subst x. replace (i * 2 ^ 21) with (2 ^ 21 * i) by lia. change (2 ^ 32) with (2 ^ 21 * 2 ^ 11).
    rewrite Z.mul_mod_distr_l by lia. exists (2 ^ 9 * (i mod 2 ^ 11)). lia. }
  clearbody x.
  unfold x86_paging_pte_set_ps. rewrite upd_eq, setup_entry_eq by (done || lia).
  rewrite <- (lor_flags x 3), <- Z.lor_assoc by (done || lia).
  change (Z.lor 3 PAGE_ENTRY_PS) with 0x83. apply lor_flags; [done|lia|lia].
Qed.

(** An entry of the last row. *)
Lemma large_value i : let v := i * 2 ^ 21 mod 2 ^ 32 + 0x83 in
  present v = true /\ large v = true /\ 0 <= v < 2 ^ 33.
Proof.
  intros v. subst v. set (x := i * 2 ^ 21 mod 2 ^ 32).
  assert (0 <= x < 2 ^ 32) as Hx by (apply Z.mod_pos_bound; lia).
  assert (4096 | x) as Hal.
  { subst x. replace (i * 2 ^ 21) with (2 ^ 21 * i) by lia. change (2 ^ 32) with (2 ^ 21 * 2 ^ 11).
    rewrite Z.mul_mod_distr_l by lia. exists (2 ^ 9 * (i mod 2 ^ 11)). lia. }
  clearbody x. destruct (entry_flags x 0x83) as [-> ->]; [done|lia|lia|].
  split; [done|]. split; [done|lia].
Qed.

(** The three rows of entries: tables, tables, and pages of 2 MB. *)
Lemma identity_tables w top B : 0 <= top < 5 * 2 ^ 30 ->
  (4096 | B) -> 0 <= B < 2 ^ 62 -> (forall a, B <= a < B + 7 * 4096 -> w a = 0) ->
  exists w', x86_paging_build_identity_mapping w top B = (0, w') /\
    w' B = B + 4096 + 3 /\
    (forall i, 0 <= i <= top / 2 ^ 30 -> w' (B + 4096 + 8 * i) = B + 8192 + 4096 * i + 3) /\
    (forall i, 0 <= i <= top / 2 ^ 21 -> w' (B + 8192 + 8 * i) = i * 2 ^ 21 mod 2 ^ 32 + 0x83) /\
    (forall i, 0 < i < 512 -> w' (B + 8 * i) = 0) /\
    (forall i, top / 2 ^ 30 < i < 512 -> w' (B + 4096 + 8 * i) = 0) /\
    (forall i, top / 2 ^ 21 < i < 2560 -> w' (B + 8192 + 8 * i) = 0).
Proof.
  intros Htop [kB HB] HB2 Hz. unfold x86_paging_build_identity_mapping.
  rewrite !needed_entries by lia.
  change (9 * 4 + 3) with 39. change (9 * 3 + 3) with 30. change (9 * 2 + 3) with 21.
  rewrite (Z.div_small top (2 ^ 39)) by lia.
  assert (0 <= top / 2 ^ 30 <= 4 /\ 0 <= top / 2 ^ 21 < 2560) as [Hn3 Hn2] by dlia.
  unfold PAGE_TABLE_PAGE_NUM, PAGE_ENTRIES_PER_PAGE, PAGE_2MB_SHIFT.
  rewrite u32_small by lia. rewrite (proj2 (Z.ltb_ge _ _)) by lia.
  replace (B + 8 * 512 + 8 * ((0 + 1) * 512)) with (B + 8192) by lia.
  replace (B + 8 * 512) with (B + 4096) by lia.
  set (s4 := fun i w => x86_paging_setup_entry w (B + 8 * i) (B + 4096 + 8 * (i * 512))).
  set (s3 := fun i w => x86_paging_setup_entry w (B + 4096 + 8 * i) (B + 8192 + 8 * (i * 512))).
  set (s2 := fun i w => x86_paging_pte_set_ps _ _).
  destruct (for_entries_spec B (fun i => B + 4096 + 4096 * i + 3) s4 (Z.to_nat (0 + 1)) 0 w)
    as [A4 O4].
  { intros j w' Hj Hw. subst s4. cbv beta. rewrite setup_entry_eq; [lia|done|lia|].
    exists (kB + 1 + j). lia. }
  { intros j w' a Ha. by apply setup_entry_ne. }
  { intros j Hj. apply Hz. lia. }
  set (w4 := for_entries (Z.to_nat (0 + 1)) 0 s4 w) in *. clearbody w4.
  destruct (for_entries_spec (B + 4096) (fun i => B + 8192 + 4096 * i + 3) s3
    (Z.to_nat (top / 2 ^ 30 + 1)) 0 w4) as [A3 O3].
  { intros j w' Hj Hw. subst s3. cbv beta. rewrite setup_entry_eq; [lia|done|lia|].
    exists (kB + 2 + j). lia. }
  { intros j w' a Ha. by apply setup_entry_ne. }
  { intros j Hj. rewrite O4 by (intros j' Hj'; lia). apply Hz. lia. }
  set (w3 := for_entries (Z.to_nat (top / 2 ^ 30 + 1)) 0 s3 w4) in *. clearbody w3.
  destruct (for_entries_spec (B + 8192) (fun i => i * 2 ^ 21 mod 2 ^ 32 + 0x83) s2
    (Z.to_nat (top / 2 ^ 21 + 1)) 0 w3) as [A2 O2].
  { intros j w' Hj Hw. by apply large_entry. }
  { intros j w' a Ha. subst s2. cbv beta. unfold x86_paging_pte_set_ps.
    rewrite upd_ne by done. by apply setup_entry_ne. }
  { intros j Hj. rewrite O3, O4 by (intros j' Hj'; lia). apply Hz. lia. }
  eexists. split; [done|]. split; [|split; [|split; [|split; [|split]]]].
  - rewrite O2, O3 by (intros j' Hj'; lia). pose proof (A4 0) as A. rewrite Z.mul_0_r, Z.add_0_r in A.
    rewrite A by lia. lia.
  - intros i Hi. rewrite O2 by (intros j' Hj'; lia). apply A3. lia.
  - intros i Hi. apply A2. lia.
  - intros i Hi. rewrite O2, O3, O4 by (intros j' Hj'; lia). apply Hz. lia.
  - intros i Hi. rewrite O2, O3, O4 by (intros j' Hj'; lia). apply Hz. lia.
  - intros i Hi. rewrite O2, O3, O4 by (intros j' Hj'; lia). apply Hz. lia.
Qed.

(** C39: The identity mapping.  Built over cleared pages for a top address below
    5 GB, the page tables translate every address up to the top, and up to the
    end of its 2 MB page, to the address modulo 4 GB: to itself when the top is
    below 4 GB.  For the top address of 4 GB that the boot code passes, the 2 MB
    above 4 GB are mapped too, to the first 2 MB of memory. *)
Theorem identity_mapping w top B va : 0 <= top < 5 * 2 ^ 30 ->
  (4096 | B) -> 0 <= B < 2 ^ 62 -> (forall a, B <= a < B + 7 * 4096 -> w a = 0) ->
  0 <= va -> va / 2 ^ 21 <= top / 2 ^ 21 ->
  fst (x86_paging_build_identity_mapping w top B) = 0 /\
  translate (snd (x86_paging_build_identity_mapping w top B)) B va = Some (va mod 2 ^ 32).
Proof.
  intros Htop HB HB2 Hz Hva Htop2.
  destruct (identity_tables w top B Htop HB HB2 Hz) as (w' & -> & W4 & W3 & W2 & _).
  cbn [fst snd]. split; [done|]. destruct HB as [kB HB].
  assert (0 <= va / 2 ^ 21) as Hv0 by (apply Z.div_pos; lia).
  assert (0 <= va / 2 ^ 30 <= top / 2 ^ 30) as Hv3.
  { split; [apply Z.div_pos; lia|]. change (2 ^ 30) with (2 ^ 21 * 2 ^ 9).
    rewrite <- !Z.div_div by lia. apply Z.div_le_mono; lia. }
  assert (top / 2 ^ 30 <= 4) as Ht4 by dlia.
  unfold translate. rewrite !entry_ptr_index by lia.
  change (12 + (4 - 1) * 9) with 39. change (12 + (3 - 1) * 9) with 30. change (12 + (2 - 1) * 9) with 21.
  assert (va / 2 ^ 39 = 0) as ->.
  { apply Z.div_small. split; [lia|]. assert (va < 5 * 2 ^ 30); [|lia]. clear W2 W3 W4 Hz. dlia. }
  change (0 mod 512) with 0. rewrite Z.mul_0_r, Z.add_0_r.
  destruct (table_entry w' B (B + 4096)) as (-> & _ & ->); [done|exists (kB + 1); lia|lia|].
  cbn [negb].
  assert (va / 2 ^ 30 mod 512 = va / 2 ^ 30) as -> by (apply Z.mod_small; lia).
  destruct (table_entry w' (B + 4096 + 8 * (va / 2 ^ 30)) (B + 8192 + 4096 * (va / 2 ^ 30)))
    as (-> & -> & ->); [by apply W3|exists (kB + 2 + va / 2 ^ 30); lia|lia|]. cbn [negb].
  assert (B + 8192 + 4096 * (va / 2 ^ 30) + 8 * (va / 2 ^ 21 mod 512) = B + 8192 + 8 * (va / 2 ^ 21)) as ->.
  { change (2 ^ 30) with (2 ^ 21 * 512). rewrite <- Z.div_div by lia.
    pose proof (Z.div_mod (va / 2 ^ 21) 512). lia. }
  rewrite W2 by lia.
  assert (va / 2 ^ 21 * 2 ^ 21 mod 2 ^ 32 = va mod 2 ^ 32 / 2 ^ 21 * 2 ^ 21) as Hpage by (clear; dlia).
  destruct (large_value (va / 2 ^ 21)) as (-> & -> & _). cbn [negb].
  f_equal. rewrite Hpage. clear. dlia.
Qed.

(** The boot code asks for 4 GB: an address below it, and one just above. *)
Lemma identity_mapping_witness :
  translate (snd (x86_paging_build_identity_mapping (fun _ => 0) (2 ^ 32) 0x1000)) 0x1000 0xFEE00000 =
    Some 0xFEE00000 /\
  translate (snd (x86_paging_build_identity_mapping (fun _ => 0) (2 ^ 32) 0x1000)) 0x1000 (2 ^ 32 + 5) =
    Some 5.
Proof.
  assert (0 <= 2 ^ 32 < 5 * 2 ^ 30 /\ (4096 | 0x1000) /\ 0 <= 0x1000 < 2 ^ 62) as (H1 & H2 & H3)
    by (split; [lia|split; [by exists 1|lia]]).
  split; (edestruct (identity_mapping (fun _ => 0)) as [_ E]; [exact H1|exact H2|exact H3|done| | |rewrite E; done]);
    vm_compute; done.
Defined.
