(* ===== verification/PagingMap.v ===== *)
(** * Mapping pages

    The tables below the root as a tree: [tab w d va] is the table at depth [d]
    on the path of an address.  [pt_ok] says that no table is shared and that
    entries are well formed.  Mapping a page keeps it, adds the translation of
    that page when it had none, and changes no other translation. *)

From Stdlib Require Import ZArith Lia.
From stdpp Require Import prelude.
From S2P Require Import Prelude Paging PagingSpec.

Local Open Scope Z_scope.

(** Index and prefix of an address at a depth below the root. *)
Definition idx (d : nat) (va : Z) : Z := va / 2 ^ (39 - 9 * Z.of_nat d) mod 512.
Fixpoint pfx (d : nat) (va : Z) : Z :=
  match d with O => 0 | S d => pfx d va * 512 + idx d va end.

Lemma idx_range d va : 0 <= idx d va < 512.
Proof. apply Z.mod_pos_bound. lia. Qed.

Lemma pfx_S d va : (d <= 3)%nat -> pfx (S d) va = pfx d va * 512 + idx d va.
Proof. done. Qed.

(** All four indices together are the page number. *)
Lemma pfx_page va : 0 <= va < 2 ^ 48 -> pfx 4 va = va / 2 ^ 12.
Proof.
  intros Hva. cbn [pfx]. unfold idx. cbn [Z.of_nat Pos.of_succ_nat Pos.succ].
  change (39 - 9 * 0) with 39. change (39 - 9 * 1) with 30. change (39 - 9 * 2) with 21.
  change (39 - 9 * 3) with 12. dlia.
Qed.

Section Tables.
Variable R : Z.

Fixpoint tab (w : words) (d : nat) (va : Z) : option Z :=
  match d with
  | O => Some R
  | S d =>
      match tab w d va with
      | None => None
      | Some t =>
          let e := t + 8 * idx d va in
          if (w e =? 0) || large (w e) then None else Some (x86_paging_pte_get_pfn w e)
      end
  end.

(** The path depends on the prefix only. *)
Lemma tab_prefix w d va va' : (d <= 3)%nat -> pfx d va = pfx d va' -> tab w d va = tab w d va'.
Proof.
  revert va va'. induction d as [|d IH]; intros va va' Hd E; [done|]. simpl.
  rewrite !pfx_S in E by lia. pose proof (idx_range d va). pose proof (idx_range d va').
  assert (pfx d va = pfx d va' /\ idx d va = idx d va') as [E1 E2] by lia.
  by rewrite (IH va va'), E2 by (done || lia).
Qed.

(** Tables are pages; different places have different tables; entries that are
    not empty are present, and large only in the last but one level. *)
Definition tables_ok (w : words) : Prop :=
  (forall d va t, (d <= 3)%nat -> tab w d va = Some t -> (4096 | t) /\ 0 <= t < 2 ^ 62) /\
  (forall d d' va va' t, (d <= 3)%nat -> (d' <= 3)%nat -> tab w d va = Some t -> tab w d' va' = Some t ->
     d = d' /\ pfx d va = pfx d va') /\
  (forall d va t i, (d <= 3)%nat -> tab w d va = Some t -> 0 <= i < 512 -> w (t + 8 * i) <> 0 ->
     present (w (t + 8 * i)) = true /\ 0 <= w (t + 8 * i) < 2 ^ 62 /\
     ((d <= 1)%nat -> large (w (t + 8 * i)) = false)).

(** Entries of two tables at the same address. *)
Lemma same_entry w d d' va va' t t' i i' : tables_ok w -> (d <= 3)%nat -> (d' <= 3)%nat ->
  tab w d va = Some t -> tab w d' va' = Some t' -> 0 <= i < 512 -> 0 <= i' < 512 ->
  t + 8 * i = t' + 8 * i' -> d = d' /\ pfx d va = pfx d va' /\ i = i'.
Proof.
  intros (H1 & H2 & _) Hd Hd' Ht Ht' Hi Hi' E.
  destruct (H1 _ _ _ Hd Ht) as [[k Hk] _]. destruct (H1 _ _ _ Hd' Ht') as [[k' Hk'] _].
  assert (t = t') as -> by lia. destruct (H2 _ _ _ _ _ Hd Hd' Ht Ht') as [-> Hp].
  split; [done|]. split; [done|lia].
Qed.

(** ** Translation by tables *)

(** The page of an address: by its last table, or by a large entry above. *)
Definition leaf (w : words) (va : Z) : option Z :=
  match tab w 3 va with
  | Some t =>
      let e := t + 8 * idx 3 va in
      if present (w e) then Some (x86_paging_pte_get_pfn w e + va mod 2 ^ 12) else None
  | None =>
      match tab w 2 va with
      | Some t =>
          let e := t + 8 * idx 2 va in
          if present (w e) && large (w e) then Some (w e / 2 ^ 21 * 2 ^ 21 + va mod 2 ^ 21) else None
      | None => None
      end
  end.

Lemma entry_ptr_idx va ptp level : 1 <= level <= 4 ->
  x86_paging_get_entry_ptr va ptp level = ptp + 8 * idx (Z.to_nat (4 - level)) va.
Proof.
  intros Hl. rewrite entry_ptr_index by lia. unfold idx.
  by replace (39 - 9 * Z.of_nat (Z.to_nat (4 - level))) with (12 + (level - 1) * 9) by lia.
Qed.

(** A step of the walk, by an entry that is not large. *)
Lemma entry_cases w d va t : tables_ok w -> (d <= 3)%nat -> tab w d va = Some t ->
  let v := w (t + 8 * idx d va) in
  (v = 0 /\ present v = false) \/ (v <> 0 /\ present v = true /\ ((d <= 1)%nat -> large v = false)).
Proof.
  intros (_ & _ & H3) Hd Ht v. destruct (decide (v = 0)) as [E|E]; [left; by rewrite E|right].
  destruct (H3 d va t (idx d va) Hd Ht (idx_range d va) E) as (? & _ & ?). done.
Qed.

Lemma translate_leaf w va : tables_ok w -> translate w R va = leaf w va.
Proof.
  intros Hok. unfold translate, leaf. rewrite !entry_ptr_idx by lia.
  change (Z.to_nat (4 - 4)) with 0%nat. change (Z.to_nat (4 - 3)) with 1%nat.
  change (Z.to_nat (4 - 2)) with 2%nat. change (Z.to_nat (4 - 1)) with 3%nat.
  pose proof (entry_cases w 0 va R Hok) as C0. specialize (C0 ltac:(lia) eq_refl).
  assert (tab w 1 va = if (w (R + 8 * idx 0 va) =? 0) || large (w (R + 8 * idx 0 va)) then None
    else Some (x86_paging_pte_get_pfn w (R + 8 * idx 0 va))) as T1 by done.
  destruct C0 as [[E0 ->]|(N0 & -> & L0)].
  { rewrite E0 in T1. cbn [tab]. by rewrite E0. }
  rewrite L0, (proj2 (Z.eqb_neq _ _) N0) in T1 by lia. cbn [negb orb] in *.
  set (t1 := x86_paging_pte_get_pfn w (R + 8 * idx 0 va)) in *.
  pose proof (entry_cases w 1 va t1 Hok ltac:(lia) T1) as C1.
  assert (tab w 2 va = if (w (t1 + 8 * idx 1 va) =? 0) || large (w (t1 + 8 * idx 1 va)) then None
    else Some (x86_paging_pte_get_pfn w (t1 + 8 * idx 1 va))) as T2
    by (change (tab w 2 va) with (match tab w 1 va with None => None | Some t =>
          if (w (t + 8 * idx 1 va) =? 0) || large (w (t + 8 * idx 1 va)) then None
          else Some (x86_paging_pte_get_pfn w (t + 8 * idx 1 va)) end); by rewrite T1).
  assert (tab w 3 va = match tab w 2 va with None => None | Some t =>
          if (w (t + 8 * idx 2 va) =? 0) || large (w (t + 8 * idx 2 va)) then None
          else Some (x86_paging_pte_get_pfn w (t + 8 * idx 2 va)) end) as T3 by done.
  destruct C1 as [[E1 ->]|(N1 & -> & L1)].
  { rewrite E1 in T2. cbn [Z.eqb orb] in T2. rewrite T2 in T3. by rewrite T3, T2. }
  rewrite L1, (proj2 (Z.eqb_neq _ _) N1) in T2 by lia. rewrite L1 by lia. cbn [negb orb] in *.
  set (t2 := x86_paging_pte_get_pfn w (t1 + 8 * idx 1 va)) in *. rewrite T2 in T3.
  pose proof (entry_cases w 2 va t2 Hok ltac:(lia) T2) as C2.
  destruct C2 as [[E2 P2]|(N2 & P2 & _)].
  { rewrite E2 in T3. rewrite T3, T2, P2. done. }
  rewrite P2. cbn [negb]. rewrite (proj2 (Z.eqb_neq _ _) N2) in T3. cbn [orb] in T3.
  destruct (large (w (t2 + 8 * idx 2 va))) eqn:L2; rewrite T3.
  - by rewrite T2, P2, L2.
  - set (t3 := x86_paging_pte_get_pfn w (t2 + 8 * idx 2 va)).
    by destruct (present (w (t3 + 8 * idx 3 va))).
Qed.

(** ** A new table *)

Section NewTable.
Variables (w w' : words) (d0 : nat) (va0 t0 N : Z).
Hypothesis Hok : tables_ok w.
Hypothesis Hd0 : (d0 <= 2)%nat.
Hypothesis Ht0 : tab w d0 va0 = Some t0.
Hypothesis Hempty : w (t0 + 8 * idx d0 va0) = 0.
Hypothesis HN : (4096 | N) /\ 0 <= N < 2 ^ 62 - 4096.
Hypothesis Hnew : forall d va, (d <= 3)%nat -> tab w d va <> Some N.
Hypothesis Hset : w' (t0 + 8 * idx d0 va0) = N + 3.
Hypothesis Hclear : forall i, 0 <= i < 512 -> w' (N + 8 * i) = 0.
Hypothesis Hkeep : forall d va t i, (d <= 3)%nat -> tab w d va = Some t -> 0 <= i < 512 ->
  t + 8 * i <> t0 + 8 * idx d0 va0 -> w' (t + 8 * i) = w (t + 8 * i).

Abbreviation here d va := (d = S d0 /\ pfx (S d0) va = pfx (S d0) va0).

Lemma new_tab d va : (d <= 3)%nat ->
  (here d va /\ tab w d va = None /\ tab w' d va = Some N) \/
  (~ here d va /\ tab w' d va = tab w d va).
Proof.
  induction d as [|d IH]; intros Hd; [right; split; [lia|done]|].
  destruct (table_entry w' (t0 + 8 * idx d0 va0) N) as (F1 & F2 & F3); [done|apply HN|lia|].
  assert (pfx (S d0) va = pfx (S d0) va0 -> d = d0 -> tab w d va = Some t0 /\ idx d va = idx d0 va0) as Hsame.
  { intros E ->. rewrite !pfx_S in E by lia. pose proof (idx_range d0 va). pose proof (idx_range d0 va0).
    split; [|lia]. rewrite <- Ht0. apply tab_prefix; [lia|lia]. }
  destruct (decide (pfx (S d0) va = pfx (S d0) va0 /\ d = d0)) as [[E ->]|Hne].
  - destruct (Hsame E eq_refl) as [Et Ei]. left. split; [done|].
    assert (tab w' d0 va = Some t0) as Et'.
    { destruct (IH ltac:(lia)) as [([Hc _] & _)|[_ ->]]; [lia|done]. }
    cbn [tab]. rewrite Et, Et', Ei, Hempty. split; [done|]. rewrite F2, F3, Hset.
    rewrite (proj2 (Z.eqb_neq _ _)) by lia. done.
  - right. split; [intros [Hc1 Hc2]; apply Hne; split; [done|lia]|]. cbn [tab].
    destruct (IH ltac:(lia)) as [([-> E] & -> & ->)|[_ ->]].
    + by rewrite Hclear by apply idx_range.
    + destruct (tab w d va) as [t|] eqn:Et; [|done].
      assert (w' (t + 8 * idx d va) = w (t + 8 * idx d va)) as Ew.
      { apply (Hkeep d va); [lia|done|apply idx_range|]. intros Ee. apply Hne.
        destruct (same_entry w d d0 va va0 t t0 (idx d va) (idx d0 va0)) as (-> & Ep & Ei);
          try done; try lia; try apply idx_range.
        split; [rewrite !pfx_S by lia; lia|done]. }
      unfold x86_paging_pte_get_pfn. by rewrite Ew.
Qed.

Lemma new_tables_ok : tables_ok w'.
Proof.
  destruct Hok as (H1 & H2 & H3). split; [|split].
  - intros d va t Hd Ht. destruct (new_tab d va Hd) as [(_ & _ & E)|[_ E]]; rewrite E in Ht.
    + injection Ht as <-. split; [apply HN|lia].
    + by eapply H1.
  - intros d d' va va' t Hd Hd' Ht Ht'.
    destruct (new_tab d va Hd) as [([-> Ep] & _ & E)|[_ E]],
      (new_tab d' va' Hd') as [([-> Ep'] & _ & E')|[_ E']]; rewrite E in Ht; rewrite E' in Ht'.
    + split; [done|congruence].
    + exfalso. apply (Hnew d' va' Hd'). congruence.
    + exfalso. apply (Hnew d va Hd). congruence.
    + by eapply H2.
  - intros d va t i Hd Ht Hi Hnz. destruct (new_tab d va Hd) as [(_ & _ & E)|[_ E]]; rewrite E in Ht.
    + injection Ht as <-. by rewrite Hclear in Hnz.
    + destruct (decide (t + 8 * i = t0 + 8 * idx d0 va0)) as [Ee|Ee].
      * rewrite Ee. destruct (table_entry w' (t0 + 8 * idx d0 va0) N) as (F1 & F2 & F3);
          [done|apply HN|lia|]. rewrite F1, F2, Hset. split; [done|]. split; [lia|done].
      * rewrite (Hkeep d va) in Hnz |- * by done. by eapply H3.
Qed.

(** No translation changes. *)
Lemma new_leaf va : leaf w' va = leaf w va.
Proof.
  assert (forall d t, (d <= 3)%nat -> tab w d va = Some t -> ~ here (S d) va ->
    w' (t + 8 * idx d va) = w (t + 8 * idx d va)) as Hent.
  { intros d t Hd Ht Hno. apply (Hkeep d va); [done|done|apply idx_range|]. intros Ee. apply Hno.
    destruct (same_entry w d d0 va va0 t t0 (idx d va) (idx d0 va0)) as (-> & Ep & Ei);
      try done; try lia; try apply idx_range.
    split; [done|]. rewrite !pfx_S by lia. lia. }
  assert (forall d, (d <= 3)%nat -> present (w' (N + 8 * idx d va)) = false) as HNp.
  { intros d Hd. by rewrite Hclear by apply idx_range. }
  unfold leaf.
  destruct (new_tab 3 va) as [([Hd3 Hp] & E3 & ->)|[Hn3 ->]]; [lia| |].
  - rewrite HNp, E3 by lia. assert (d0 = 2)%nat as Ed by lia.
    assert (tab w 2 va = Some t0 /\ idx 2 va = idx d0 va0) as [E2 Ei].
    { subst d0. rewrite !(pfx_S 2) in Hp by lia. pose proof (idx_range 2 va). pose proof (idx_range 2 va0).
      split; [|lia]. rewrite <- Ht0. apply tab_prefix; lia. }
    by rewrite E2, Ei, Hempty.
  - destruct (tab w 3 va) as [t|] eqn:E3.
    + unfold x86_paging_pte_get_pfn. rewrite (Hent 3%nat t); [done|lia|done|lia].
    + destruct (new_tab 2 va) as [(_ & -> & ->)|[Hn2 ->]]; [lia| |].
      * by rewrite HNp by lia.
      * destruct (tab w 2 va) as [t|] eqn:E2; [|done]. by rewrite (Hent 2%nat t) by (done || lia).
Qed.

End NewTable.

(** ** A new page *)

Section NewPage.
Variables (w w' : words) (va0 t0 pa : Z).
Hypothesis Hok : tables_ok w.
Hypothesis Ht0 : tab w 3 va0 = Some t0.
Hypothesis Hempty : w (t0 + 8 * idx 3 va0) = 0.
Hypothesis Hpa : (4096 | pa) /\ 0 <= pa < 2 ^ 62 - 4096.
Hypothesis Hset : w' (t0 + 8 * idx 3 va0) = pa + 3.
Hypothesis Hkeep : forall a, a <> t0 + 8 * idx 3 va0 -> w' a = w a.

Lemma page_entry d va t : (d <= 3)%nat -> tab w d va = Some t ->
  (t + 8 * idx d va = t0 + 8 * idx 3 va0 /\ d = 3%nat /\ pfx 4 va = pfx 4 va0) \/
  (w' (t + 8 * idx d va) = w (t + 8 * idx d va) /\ ~ (d = 3%nat /\ pfx 4 va = pfx 4 va0)).
Proof.
  intros Hd Ht. destruct (decide (t + 8 * idx d va = t0 + 8 * idx 3 va0)) as [Ee|Ee].
  - left. split; [done|].
    destruct (same_entry w d 3 va va0 t t0 (idx d va) (idx 3 va0)) as (-> & Ep & Ei);
      try done; try lia; try apply idx_range.
    split; [done|]. rewrite !(pfx_S 3) by lia. lia.
  - right. split; [by apply Hkeep|]. intros [-> E]. apply Ee.
    rewrite !(pfx_S 3) in E by lia. pose proof (idx_range 3 va). pose proof (idx_range 3 va0).
    assert (tab w 3 va = tab w 3 va0) as Et by (apply tab_prefix; lia).
    rewrite Et, Ht0 in Ht. injection Ht as <-. lia.
Qed.

Lemma page_tab d va : (d <= 3)%nat -> tab w' d va = tab w d va.
Proof.
  induction d as [|d IH]; intros Hd; [done|]. cbn [tab]. rewrite IH by lia.
  destruct (tab w d va) as [t|] eqn:Et; [|done].
  destruct (page_entry d va t) as [(_ & -> & _)|[E _]]; [lia|done|lia|].
  unfold x86_paging_pte_get_pfn. by rewrite E.
Qed.

Lemma page_tables_ok : tables_ok w'.
Proof.
  destruct Hok as (H1 & H2 & H3). split; [|split].
  - intros d va t Hd. rewrite page_tab by done. by apply H1.
  - intros d d' va va' t Hd Hd'. rewrite !page_tab by done. by apply H2.
  - intros d va t i Hd. rewrite page_tab by done. intros Ht Hi Hnz.
    destruct (decide (t + 8 * i = t0 + 8 * idx 3 va0)) as [Ee|Ee].
    + rewrite Ee. destruct (table_entry w' (t0 + 8 * idx 3 va0) pa) as (F1 & F2 & F3);
        [done|apply Hpa|lia|]. rewrite F1, F2, Hset. split; [done|]. split; [lia|done].
    + rewrite Hkeep in Hnz |- * by done. by eapply H3.
Qed.

Lemma page_leaf va :
  leaf w' va = if decide (pfx 4 va = pfx 4 va0) then Some (pa + va mod 2 ^ 12) else leaf w va.
Proof.
  destruct (table_entry w' (t0 + 8 * idx 3 va0) pa) as (F1 & F2 & F3); [done|apply Hpa|lia|].
  unfold leaf. rewrite !page_tab by lia. destruct (tab w 3 va) as [t|] eqn:E3.
  - destruct (page_entry 3 va t) as [(-> & _ & E)|[E Hne]]; [lia|done| |].
    + rewrite F1, F3. by rewrite decide_True.
    + unfold x86_paging_pte_get_pfn. rewrite E, decide_False; [done|]. intros Hc. by apply Hne.
  - rewrite decide_False.
    + destruct (tab w 2 va) as [t|] eqn:E2; [|done].
      destruct (page_entry 2 va t) as [(_ & Hc & _)|[E _]]; [lia|done|lia|]. by rewrite E.
    + intros E. rewrite !(pfx_S 3) in E by lia. pose proof (idx_range 3 va). pose proof (idx_range 3 va0).
      rewrite (tab_prefix w 3 va va0), Ht0 in E3 by lia. done.
Qed.

End NewPage.
End Tables.

(** Whether an address is mapped depends on its page only. *)
Lemma leaf_page R w va va' : pfx 4 va = pfx 4 va' -> leaf R w va = None -> leaf R w va' = None.
Proof.
  intros E. rewrite !(pfx_S 3) in E by lia. pose proof (idx_range 3 va). pose proof (idx_range 3 va').
  assert (pfx 3 va = pfx 3 va' /\ idx 3 va = idx 3 va') as [E3 I3] by lia.
  pose proof E3 as E2. rewrite !(pfx_S 2) in E2 by lia.
  pose proof (idx_range 2 va). pose proof (idx_range 2 va').
  unfold leaf. rewrite (tab_prefix R w 3 va va'), (tab_prefix R w 2 va va') by lia.
  replace (idx 2 va) with (idx 2 va') by lia. rewrite I3.
  destruct (tab R w 3 va') as [t|]; [by destruct (present _)|].
  destruct (tab R w 2 va') as [t|]; [|done]. by destruct (present _ && large _).
Qed.

Section Pages.
Variables (R PP : Z).
Hypothesis HPP : (4096 | PP) /\ 0 <= PP < 2 ^ 61.

(** No table is shared, and the pages not used yet are not tables. *)
Definition pt_ok (s : paging) : Prop :=
  tables_ok R (pt s) /\ 0 <= page_table_page_used s <= WOLFBOOT_PTP_NUM /\
  forall d va k, (d <= 3)%nat -> page_table_page_used s <= k < WOLFBOOT_PTP_NUM ->
    tab R (pt s) d va <> Some (PP + k * 4096).

(** The effect of [if ( *e == 0) x86_paging_setup_ptp(e)]. *)
Lemma ensure_ok s d va t : pt_ok s -> (d <= 2)%nat -> tab R (pt s) d va = Some t ->
  match ensure_ptp PP s (t + 8 * idx d va) with
  | None => page_table_page_used s = WOLFBOOT_PTP_NUM
  | Some s' => pt_ok s' /\ page_table_page_used s <= page_table_page_used s' <= page_table_page_used s + 1 /\
      (forall va', leaf R (pt s') va' = leaf R (pt s) va') /\
      tab R (pt s') d va = Some t /\ pt s' (t + 8 * idx d va) <> 0
  end.
Proof.
  intros Hs Hd Ht. unfold ensure_ptp.
  destruct (Z.eqb_spec (pt s (t + 8 * idx d va)) 0) as [E|E].
  2: { split; [done|]. split; [lia|]. done. }
  destruct Hs as (Hok & Hu & Hfresh).
  unfold x86_paging_setup_ptp, WOLFBOOT_PTP_NUM, PAGE_TABLE_PAGE_SIZE in *. case_if; [lia|].
  set (u := page_table_page_used s) in *. set (N := PP + u * 4096).
  assert ((4096 | N) /\ 0 <= N < 2 ^ 62 - 4096) as HN.
  { destruct HPP as [[k Hk] Hr]. subst N. split; [exists (k + u); lia|lia]. }
  assert (forall d va, (d <= 3)%nat -> tab R (pt s) d va <> Some N) as Hnew
    by (intros d' va' Hd'; apply Hfresh; [done|lia]).
  assert (forall d' va' t' i, (d' <= 3)%nat -> tab R (pt s) d' va' = Some t' -> 0 <= i < 512 ->
    ~ (N <= t' + 8 * i < N + 4096)) as Hout.
  { intros d' va' t' i Hd' Ht' Hi Hc. apply (Hnew d' va' Hd'). rewrite Ht'. f_equal.
    destruct Hok as (H1 & _). destruct (H1 _ _ _ Hd' Ht') as [[k Hk] _]. destruct HN as [[k' Hk'] _]. lia. }
  pose proof (idx_range d va) as Hi. set (e := t + 8 * idx d va) in *.
  set (w' := clear_page (x86_paging_setup_entry (pt s) e N) N).
  assert (forall a, ~ (N <= a < N + 4096) -> w' a = x86_paging_setup_entry (pt s) e N a) as Hw'.
  { intros a Ha. subst w'. unfold clear_page, PAGE_TABLE_PAGE_SIZE.
    destruct (Z.leb_spec N a), (Z.ltb_spec a (N + 4096)); simpl; done || lia. }
  assert (w' e = N + 3) as Hset.
  { rewrite Hw' by (apply (Hout d va); [lia|done|done]). apply setup_entry_eq; [done|lia|apply HN]. }
  assert (forall i, 0 <= i < 512 -> w' (N + 8 * i) = 0) as Hclear.
  { intros i Hi'. subst w'. unfold clear_page, PAGE_TABLE_PAGE_SIZE.
    by rewrite (proj2 (Z.leb_le _ _)), (proj2 (Z.ltb_lt _ _)) by lia. }
  assert (forall d' va' t' i, (d' <= 3)%nat -> tab R (pt s) d' va' = Some t' -> 0 <= i < 512 ->
    t' + 8 * i <> e -> w' (t' + 8 * i) = pt s (t' + 8 * i)) as Hkeep.
  { intros d' va' t' i Hd' Ht' Hi' Hne. rewrite Hw' by (by apply (Hout d' va')).
    by apply setup_entry_ne. }
  pose proof (new_tab R (pt s) w' d va t N Hok Hd Ht E HN Hset Hclear Hkeep) as Htab.
  cbn [pt page_table_page_used].
  split; [split; [|split]|].
  - by apply (new_tables_ok R (pt s) w' d va t N).
  - cbn [page_table_page_used]. unfold WOLFBOOT_PTP_NUM. lia.
  - cbn [pt page_table_page_used]. unfold WOLFBOOT_PTP_NUM. intros d' va' k Hd' Hk.
    destruct (Htab d' va' Hd') as [(_ & _ & ->)|[_ ->]]; [|apply Hfresh; [done|lia]].
    intros [= Hc]. subst N. lia.
  - split; [lia|]. split; [intros va'; by apply (new_leaf R (pt s) w' d va t N)|].
    split; [|rewrite Hset; lia]. destruct (Htab d va) as [([Hc _] & _)|[_ ->]]; [lia|lia|done].
Qed.

(** The next table on the path of an address. *)
Lemma tab_next s d va t : pt_ok s -> (d <= 2)%nat -> tab R (pt s) d va = Some t ->
  pt s (t + 8 * idx d va) <> 0 -> large (pt s (t + 8 * idx d va)) = false ->
  tab R (pt s) (S d) va = Some (x86_paging_pte_get_pfn (pt s) (t + 8 * idx d va)).
Proof.
  intros _ Hd Ht Hne HL. cbn [tab]. rewrite Ht, HL, (proj2 (Z.eqb_neq _ _) Hne). done.
Qed.

Lemma large_PS v : negb (Z.land v PAGE_ENTRY_PS =? 0) = large v.
Proof.
  unfold large, PAGE_ENTRY_PS. destruct (Z.testbit v 7) eqn:E.
  - apply negb_true_iff, Z.eqb_neq. intros H. assert (Z.testbit (Z.land v (2 ^ 7)) 7 = false) as F
      by (rewrite H; apply Z.bits_0).
    rewrite Z.land_spec, E, Z.pow2_bits_true in F by lia. done.
  - apply negb_false_iff, Z.eqb_eq, Z.bits_inj_0. intros n. rewrite Z.land_spec.
    destruct (Z.eq_dec n 7) as [->|Hn]; [by rewrite E|].
    rewrite Z.pow2_bits_false by lia. apply andb_false_r.
Qed.

(** What was mapped, and one more page where there was nothing. *)
Definition mapped (s s' : paging) (va pa : Z) : Prop :=
  forall va', leaf R (pt s') va' =
    match leaf R (pt s) va' with
    | Some x => Some x
    | None => if decide (pfx 4 va' = pfx 4 va) then Some (pa + va' mod 2 ^ 12) else None
    end.

Lemma mapped_already s s' va pa x : (forall va', leaf R (pt s') va' = leaf R (pt s) va') ->
  leaf R (pt s') va = Some x -> mapped s s' va pa.
Proof.
  intros H Hx va'. rewrite H. destruct (leaf R (pt s) va') eqn:E; [done|].
  case_decide as Ep; [|done]. rewrite H in Hx. rewrite (leaf_page R (pt s) va' va) in Hx; done.
Qed.
(** The last step: the table of the page exists. *)
Lemma map_last s va pa t : pt_ok s -> tab R (pt s) 3 va = Some t -> (4096 | pa) -> 0 <= pa < 2 ^ 61 ->
  let e := t + 8 * idx 3 va in
  let s' := if negb (pt s e =? 0) then s
            else MkPaging (x86_paging_setup_entry (pt s) e pa) (page_table_page_used s) in
  pt_ok s' /\ page_table_page_used s' = page_table_page_used s /\ mapped s s' va pa.
Proof.
  intros Hs Ht Hal Hpa e s'. pose proof Hs as (Hok & Hu & Hfresh).
  destruct (entry_cases R (pt s) 3 va t Hok) as [[E P]|(E & P & _)]; [lia|done| |].
  - fold e in E, P. subst s'. rewrite E. cbn [negb Z.eqb].
    set (w' := x86_paging_setup_entry (pt s) e pa).
    assert (w' e = pa + 3) as Hset by (apply setup_entry_eq; [done|lia|done]).
    assert (forall a, a <> e -> w' a = pt s a) as Hkeep by (intros a Ha; by apply setup_entry_ne).
    assert ((4096 | pa) /\ 0 <= pa < 2 ^ 62 - 4096) as Hpa' by (split; [done|lia]).
    split; [split; [|split]|split; [done|]].
    + by apply (page_tables_ok R (pt s) w' va t pa).
    + done.
    + cbn [pt page_table_page_used]. intros d va' k Hd Hk.
      rewrite (page_tab R (pt s) w' va t) by done. by apply Hfresh.
    + intros va'. cbn [pt]. rewrite (page_leaf R (pt s) w' va t pa) by done.
      assert (leaf R (pt s) va = None) as Hnone by (unfold leaf; rewrite Ht; fold e; by rewrite P).
      case_decide as Ep; [|by destruct (leaf R (pt s) va')].
      by rewrite (leaf_page R (pt s) va va').
  - fold e in E, P. subst s'. rewrite (proj2 (Z.eqb_neq _ _) E). cbn [negb].
    split; [done|]. split; [done|]. eapply mapped_already; [done|]. unfold leaf. rewrite Ht. fold e. by rewrite P.
Qed.

Lemma mapped_mono s s1 s' va pa : (forall va', leaf R (pt s1) va' = leaf R (pt s) va') ->
  mapped s1 s' va pa -> mapped s s' va pa.
Proof. intros H Hm va'. rewrite <- H. apply Hm. Qed.

(** The first levels: the next table exists afterwards. *)
Lemma ensure_next s d va t : pt_ok s -> (d <= 1)%nat -> tab R (pt s) d va = Some t ->
  match ensure_ptp PP s (t + 8 * idx d va) with
  | None => page_table_page_used s = WOLFBOOT_PTP_NUM
  | Some s' => pt_ok s' /\ page_table_page_used s <= page_table_page_used s' <= page_table_page_used s + 1 /\
      (forall va', leaf R (pt s') va' = leaf R (pt s) va') /\
      tab R (pt s') (S d) va = Some (x86_paging_pte_get_pfn (pt s') (t + 8 * idx d va))
  end.
Proof.
  intros Hs Hd Ht. assert (d <= 2)%nat as Hd2 by lia. pose proof (ensure_ok s d va t Hs Hd2 Ht) as H.
  destruct (ensure_ptp PP s (t + 8 * idx d va)) as [s'|]; [|done].
  destruct H as (Hs' & U & L & T & N). split; [done|]. split; [done|]. split; [done|].
  apply tab_next; [done|lia|done|done|]. destruct Hs' as (Hok & _).
  destruct (entry_cases R (pt s') d va t Hok) as [[E _]|(_ & _ & HL)]; [lia|done|done|by apply HL].
Qed.

(** One page: at most three new tables, no translation lost. *)
Lemma map_page_ok s va pa : pt_ok s -> (4096 | pa) -> 0 <= pa < 2 ^ 61 ->
  match x86_paging_map_page R PP va pa s with
  | None => WOLFBOOT_PTP_NUM < page_table_page_used s + 3
  | Some s' => pt_ok s' /\ page_table_page_used s <= page_table_page_used s' <= page_table_page_used s + 3 /\
      mapped s s' va pa
  end.
Proof.
  intros Hs Hal Hpa. unfold x86_paging_map_page. rewrite !entry_ptr_idx by lia.
  change (Z.to_nat (4 - 4)) with 0%nat.
  pose proof (ensure_next s 0 va R Hs ltac:(lia) eq_refl) as H1.
  destruct (ensure_ptp PP s (R + 8 * idx 0 va)) as [s1|]; [|lia].
  destruct H1 as (Hs1 & U1 & L1 & T1).
  rewrite !entry_ptr_idx by lia. change (Z.to_nat (4 - 3)) with 1%nat.
  pose proof (ensure_next s1 1 va _ Hs1 ltac:(lia) T1) as H2.
  destruct (ensure_ptp PP s1 _) as [s2|]; [|lia].
  destruct H2 as (Hs2 & U2 & L2 & T2).
  set (t2 := x86_paging_pte_get_pfn (pt s2) _) in *. clearbody t2.
  rewrite !entry_ptr_idx by lia. change (Z.to_nat (4 - 2)) with 2%nat.
  pose proof (ensure_ok s2 2 va t2 Hs2 ltac:(lia) T2) as H3.
  destruct (ensure_ptp PP s2 (t2 + 8 * idx 2 va)) as [s3|]; [|lia].
  destruct H3 as (Hs3 & U3 & L3 & T2' & N2). rewrite large_PS.
  assert (forall va', leaf R (pt s3) va' = leaf R (pt s) va') as L by (intros va'; by rewrite L3, L2, L1).
  destruct (large (pt s3 (t2 + 8 * idx 2 va))) eqn:HL.
  - split; [done|]. split; [lia|]. eapply mapped_already; [done|]. unfold leaf.
    destruct Hs3 as (Hok & _).
    destruct (entry_cases R (pt s3) 2 va t2 Hok) as [[E _]|(_ & P & _)]; [lia|done|done|].
    change (tab R (pt s3) 3 va) with (match tab R (pt s3) 2 va with None => None | Some t =>
      if (pt s3 (t + 8 * idx 2 va) =? 0) || large (pt s3 (t + 8 * idx 2 va)) then None
      else Some (x86_paging_pte_get_pfn (pt s3) (t + 8 * idx 2 va)) end).
    by rewrite T2', HL, orb_true_r, P.
  - pose proof (tab_next s3 2 va t2 Hs3 ltac:(lia) T2' N2 HL) as T3.
    rewrite entry_ptr_idx by lia. change (Z.to_nat (4 - 1)) with 3%nat.
    destruct (map_last s3 va pa _ Hs3 T3 Hal Hpa) as (A & B & C).
    destruct (negb (pt s3 _ =? 0)); (split; [done|]; split; [lia|]); by eapply mapped_mono.
Qed.

(** The pages that a range touches. *)
Definition pages (va size : Z) : Z := (va mod 4096 + size + 4095) / 4096.

(** After [k] pages of a range. *)
Definition after (s : paging) (start pa0 k : Z) (s' : paging) : Prop :=
  pt_ok s' /\ page_table_page_used s' <= page_table_page_used s + 3 * k /\
  forall a, 0 <= a < 2 ^ 48 -> leaf R (pt s') a =
    match leaf R (pt s) a with
    | Some x => Some x
    | None => if (start <=? a) && (a <? start + 4096 * k) then Some (pa0 + (a - start)) else None
    end.

Lemma after_next s start pa0 k s1 s2 : (4096 | start) -> 0 <= start -> 0 <= k ->
  start + 4096 * k < 2 ^ 48 -> after s start pa0 k s1 ->
  pt_ok s2 -> page_table_page_used s2 <= page_table_page_used s1 + 3 ->
  mapped s1 s2 (start + 4096 * k) (pa0 + 4096 * k) -> after s start pa0 (k + 1) s2.
Proof.
  intros [q Hq] Hs Hk Hlt (_ & U & HL) Hok U2 Hm. split; [done|]. split; [lia|].
  intros a Ha. rewrite Hm, HL by done. destruct (leaf R (pt s) a); [done|].
  rewrite !pfx_page by lia. change (2 ^ 12) with 4096.
  assert ((start + 4096 * k) / 4096 = q + k) as Ep
    by (replace (start + 4096 * k) with ((q + k) * 4096) by lia; apply Z.div_mul; lia).
  rewrite Ep. pose proof (Z.div_mod a 4096). pose proof (Z.mod_pos_bound a 4096).
  destruct (Z.leb_spec start a), (Z.ltb_spec a (start + 4096 * k)), (Z.ltb_spec a (start + 4096 * (k + 1)));
    simpl; try case_decide; try done; try lia; f_equal; lia.
Qed.

Lemma map_loop s va size pa0 : pt_ok s -> 0 <= va -> 0 <= size < 2 ^ 32 -> va + size <= 2 ^ 48 ->
  (4096 | pa0) -> 0 <= pa0 < 2 ^ 60 ->
  let start := va - va mod 4096 in
  wp (loop (Z.to_nat (size / 4096 + 3)) (map_body R PP (va + size)) (start, pa0, s)) (fun r =>
    match r with
    | None => WOLFBOOT_PTP_NUM < page_table_page_used s + 3 * pages va size
    | Some s' => after s start pa0 (pages va size) s'
    end).
Proof.
  intros Hs Hva Hsize Hend [q Hq] Hpa start. set (n := pages va size).
  assert ((4096 | start) /\ 0 <= start /\ 0 <= n <= size / 4096 + 2 /\ size / 4096 < 2 ^ 20) as (Hal & Hst & Hn & Hsz).
  { subst n start. unfold pages. split; [|dlia]. exists (va / 4096). pose proof (Z.div_mod va 4096). lia. }
  assert (forall k, start + 4096 * k < va + size <-> k < n) as Hlt.
  { intros k. subst n start. unfold pages. dlia. }
  apply (wp_loop (fun '(page, pa, s') => exists k, 0 <= k <= n /\ page = start + 4096 * k /\
      pa = pa0 + 4096 * k /\ after s start pa0 k s')
    (fun '(page, _, _) => Z.to_nat ((start + 4096 * n - page) / 4096))).
  - intros [[page pa] s1] (k & Hk & -> & -> & Ha). unfold map_body.
    destruct (Z.ltb_spec (start + 4096 * k) (va + size)) as [Hin|Hin]; cbn [negb].
    2: { assert (k = n) as -> by (pose proof (Hlt k); lia). done. }
    apply Hlt in Hin as Hkn. destruct Ha as (Hok & U & HL).
    assert ((4096 | pa0 + 4096 * k) /\ 0 <= pa0 + 4096 * k < 2 ^ 61) as [Hpal Hpar]
      by (split; [exists (q + k); lia|lia]).
    pose proof (map_page_ok s1 (start + 4096 * k) (pa0 + 4096 * k) Hok Hpal Hpar) as H.
    destruct (x86_paging_map_page R PP _ _ s1) as [s2|]; [|simpl; lia].
    destruct H as (Hok2 & U2 & Hm). unfold PAGE_TABLE_PAGE_SIZE. rewrite !u64_small by lia. simpl. split.
    + exists (k + 1). split; [lia|]. split; [lia|]. split; [lia|].
      apply (after_next s start pa0 k s1 s2); try done; try lia.
    + replace (start + 4096 * n - (start + 4096 * k)) with ((n - k) * 4096) by lia.
      replace (start + 4096 * n - (start + 4096 * k + 4096)) with ((n - k - 1) * 4096) by lia.
      rewrite !Z.div_mul by lia. lia.
  - exists 0. split; [lia|]. split; [lia|]. split; [lia|]. split; [done|]. split; [lia|].
    intros a Ha. destruct (leaf R (pt s) a); [done|].
    destruct (Z.leb_spec start a), (Z.ltb_spec a (start + 4096 * 0)); simpl; done || lia.
  - replace (start + 4096 * n - start) with (n * 4096) by lia. rewrite Z.div_mul by lia. lia.
Qed.

(** C38: Mapping a range.  On page tables in which no table is shared, [x86_paging_map_memory]
    for a physical address that is not in the first page ends.  It panics only when
    the static pages for tables may not be enough (three for each page of the
    range); otherwise it returns 0 and keeps the tables unshared, and the
    processor then translates every address that was mapped before as before, every other
    address of the pages of the range to the physical page at the same distance,
    and no other address. *)
Theorem map_memory_exact s va pa size : pt_ok s -> 0 <= va -> 0 <= size < 2 ^ 32 ->
  va + size <= 2 ^ 48 -> 4096 <= pa < 2 ^ 60 ->
  exists r, x86_paging_map_memory R PP va pa size s = Ok r /\
    match r with
    | None => WOLFBOOT_PTP_NUM < page_table_page_used s + 3 * pages va size
    | Some (ret, s') => ret = 0 /\ pt_ok s' /\
        forall a, 0 <= a < 2 ^ 48 -> translate (pt s') R a =
          match translate (pt s) R a with
          | Some x => Some x
          | None =>
              let start := va - va mod 4096 in
              if (start <=? a) && (a <? start + 4096 * pages va size)
              then Some (pa - pa mod 4096 + (a - start)) else None
          end
    end.
Proof.
  intros Hs Hva Hsize Hend Hpa. unfold x86_paging_map_memory.
  rewrite !land_page by lia. change (2 ^ 12) with 4096.
  set (start := va - va mod 4096). set (pa0 := pa - pa mod 4096).
  assert (4096 <= pa0 <= pa) as Hpa0 by (subst pa0; dlia).
  rewrite (proj2 (Z.eqb_neq pa0 0)) by lia. rewrite u64_small by lia.
  assert ((4096 | pa0) /\ 0 <= pa0 < 2 ^ 60) as [Hal Hr].
  { split; [|lia]. exists (pa / 4096). subst pa0. pose proof (Z.div_mod pa 4096). lia. }
  pose proof (map_loop s va size pa0 Hs Hva Hsize Hend Hal Hr) as H. cbv zeta in H. fold start in H.
  destruct (wp_inv _ _ H) as (r & E & Hr'). unfold PAGE_TABLE_PAGE_SIZE. rewrite E. cbn [obind].
  eexists. split; [done|]. destruct r as [s'|]; [|done]. destruct Hr' as (Hok & _ & HL).
  split; [done|]. split; [done|]. intros a Ha.
  rewrite !translate_leaf by (apply Hok || apply Hs). by apply HL.
Qed.

End Pages.

(** ** The tables of the identity mapping *)

(** The tables are the seven pages of the first stage, none of them shared. *)
Lemma identity_tab w top B : 0 <= top < 5 * 2 ^ 30 ->
  (4096 | B) -> 0 <= B < 2 ^ 61 -> (forall a, B <= a < B + 7 * 4096 -> w a = 0) ->
  let w' := snd (x86_paging_build_identity_mapping w top B) in
  (forall va, tab B w' 1 va = if idx 0 va =? 0 then Some (B + 4096) else None) /\
  (forall va, tab B w' 2 va = if (idx 0 va =? 0) && (idx 1 va <=? top / 2 ^ 30)
                              then Some (B + 8192 + 4096 * idx 1 va) else None) /\
  (forall va, tab B w' 3 va = None).
Proof.
  intros Htop HB HB2 Hz. destruct (identity_tables w top B) as (w' & -> & W4 & W3 & W2 & Z4 & Z3 & Z2);
    [done|done|lia|done|]. cbn [snd]. pose proof HB as [kB Ek].
  assert (0 <= top / 2 ^ 30 <= 4) as Hn3 by dlia.
  assert (top / 2 ^ 30 * 512 <= top / 2 ^ 21 <= top / 2 ^ 30 * 512 + 511) as Hn2 by (clear -Htop; dlia).
  assert (forall va, tab B w' 1 va = if idx 0 va =? 0 then Some (B + 4096) else None) as T1.
  { intros va. cbn [tab]. pose proof (idx_range 0 va). destruct (Z.eqb_spec (idx 0 va) 0) as [->|E].
    - rewrite Z.mul_0_r, Z.add_0_r. destruct (table_entry w' B (B + 4096)) as (_ & -> & ->);
        [done|exists (kB + 1); lia|lia|]. by rewrite W4, (proj2 (Z.eqb_neq _ _)) by lia.
    - by rewrite Z4 by lia. }
  assert (forall va, tab B w' 2 va = if (idx 0 va =? 0) && (idx 1 va <=? top / 2 ^ 30)
    then Some (B + 8192 + 4096 * idx 1 va) else None) as T2.
  { intros va. change (tab B w' 2 va) with (match tab B w' 1 va with None => None | Some t =>
      if (w' (t + 8 * idx 1 va) =? 0) || large (w' (t + 8 * idx 1 va)) then None
      else Some (x86_paging_pte_get_pfn w' (t + 8 * idx 1 va)) end).
    rewrite T1. destruct (idx 0 va =? 0); [|done]. pose proof (idx_range 1 va).
    destruct (Z.leb_spec (idx 1 va) (top / 2 ^ 30)); cbn [andb].
    - destruct (table_entry w' (B + 4096 + 8 * idx 1 va) (B + 8192 + 4096 * idx 1 va)) as (_ & -> & ->);
        [apply W3; lia|exists (kB + 2 + idx 1 va); lia|lia|].
      by rewrite W3, (proj2 (Z.eqb_neq _ _)) by lia.
    - by rewrite Z3 by lia. }
  split; [done|]. split; [done|]. intros va.
  change (tab B w' 3 va) with (match tab B w' 2 va with None => None | Some t =>
      if (w' (t + 8 * idx 2 va) =? 0) || large (w' (t + 8 * idx 2 va)) then None
      else Some (x86_paging_pte_get_pfn w' (t + 8 * idx 2 va)) end).
  rewrite T2. destruct (idx 0 va =? 0); [|done].
  destruct (Z.leb_spec (idx 1 va) (top / 2 ^ 30)); cbn [andb]; [|done].
  pose proof (idx_range 1 va). pose proof (idx_range 2 va).
  replace (B + 8192 + 4096 * idx 1 va + 8 * idx 2 va) with (B + 8192 + 8 * (512 * idx 1 va + idx 2 va)) by lia.
  set (i := 512 * idx 1 va + idx 2 va). destruct (Z.le_gt_cases i (top / 2 ^ 21)).
  - rewrite W2 by lia. destruct (large_value i) as (_ & -> & _). by rewrite orb_true_r.
  - by rewrite Z2 by lia.
Qed.


(** Where the tables are. *)
Lemma identity_tab_cases w top B d va t : 0 <= top < 5 * 2 ^ 30 ->
  (4096 | B) -> 0 <= B < 2 ^ 61 -> (forall a, B <= a < B + 7 * 4096 -> w a = 0) -> (d <= 3)%nat ->
  tab B (snd (x86_paging_build_identity_mapping w top B)) d va = Some t ->
  (d = 0%nat /\ t = B) \/ (d = 1%nat /\ idx 0 va = 0 /\ t = B + 4096) \/
  (d = 2%nat /\ idx 0 va = 0 /\ 0 <= idx 1 va <= top / 2 ^ 30 /\ t = B + 8192 + 4096 * idx 1 va).
Proof.
  intros Htop HB HB2 Hz Hd. destruct (identity_tab w top B Htop HB HB2 Hz) as (T1 & T2 & T3).
  destruct d as [|[|[|[|]]]]; [| | | |lia].
  - intros [= <-]. by left.
  - rewrite T1. destruct (Z.eqb_spec (idx 0 va) 0); [|done]. intros [= <-]. right. by left.
  - rewrite T2. destruct (Z.eqb_spec (idx 0 va) 0); [|done].
    destruct (Z.leb_spec (idx 1 va) (top / 2 ^ 30)); [|done]. intros [= <-]. right. right.
    pose proof (idx_range 1 va). split; [done|]. split; [done|]. split; [lia|done].
  - by rewrite T3.
Qed.

Lemma identity_tables_ok w top B : 0 <= top < 5 * 2 ^ 30 ->
  (4096 | B) -> 0 <= B < 2 ^ 61 -> (forall a, B <= a < B + 7 * 4096 -> w a = 0) ->
  tables_ok B (snd (x86_paging_build_identity_mapping w top B)).
Proof.
  intros Htop HB HB2 Hz. assert (0 <= top / 2 ^ 30 <= 4) as Hn3 by dlia.
  assert (top / 2 ^ 30 * 512 <= top / 2 ^ 21 <= top / 2 ^ 30 * 512 + 511) as Hn2 by (clear -Htop; dlia).
  pose proof (fun d va t => identity_tab_cases w top B d va t Htop HB HB2 Hz) as C.
  destruct (identity_tables w top B) as (w' & E & W4 & W3 & W2 & Z4 & Z3 & Z2); [done|done|lia|done|].
  rewrite E in *. cbn [snd] in *. destruct HB as [kB HB]. split; [|split].
  - intros d va t Hd Ht.
    destruct (C d va t Hd Ht) as [(-> & ->)|[(-> & _ & ->)|(-> & _ & Hi & ->)]]; (split; [|lia]).
    + by exists kB.
    + exists (kB + 1). lia.
    + exists (kB + 2 + idx 1 va). lia.
  - intros d d' va va' t Hd Hd' Ht Ht'.
    destruct (C d va t Hd Ht) as [(-> & ->)|[(-> & I & ->)|(-> & I & Hi & ->)]],
      (C d' va' _ Hd' Ht') as [(-> & F)|[(-> & I' & F)|(-> & I' & Hi' & F)]];
      try lia; (split; [done|]); cbn [pfx]; lia.
  - intros d va t i Hd Ht Hi Hnz.
    destruct (C d va t Hd Ht) as [(-> & ->)|[(-> & _ & ->)|(-> & _ & Hi1 & ->)]].
    + assert (i = 0) as -> by (destruct (Z.eq_dec i 0); [done|]; by rewrite Z4 in Hnz by lia).
      rewrite Z.mul_0_r, Z.add_0_r. destruct (table_entry w' B (B + 4096)) as (-> & -> & _);
        [done|exists (kB + 1); lia|lia|]. rewrite W4. split; [done|]. split; [lia|done].
    + assert (i <= top / 2 ^ 30) as Hle
        by (destruct (Z.le_gt_cases i (top / 2 ^ 30)); [done|]; by rewrite Z3 in Hnz by lia).
      destruct (table_entry w' (B + 4096 + 8 * i) (B + 8192 + 4096 * i)) as (-> & -> & _);
        [apply W3; lia|exists (kB + 2 + i); lia|lia|]. rewrite W3 by lia. split; [done|]. split; [lia|done].
    + replace (B + 8192 + 4096 * idx 1 va + 8 * i) with (B + 8192 + 8 * (512 * idx 1 va + i)) in * by lia.
      assert (512 * idx 1 va + i <= top / 2 ^ 21) as Hle
        by (destruct (Z.le_gt_cases (512 * idx 1 va + i) (top / 2 ^ 21)); [done|]; by rewrite Z2 in Hnz by lia).
      rewrite W2 by lia. destruct (large_value (512 * idx 1 va + i)) as (-> & _ & Hr).
      split; [done|]. split; [lia|]. lia.
Qed.

(** The tables of the first stage are unshared, for a second stage whose static
    pages are elsewhere. *)
Lemma identity_pt_ok w top B PP : 0 <= top < 5 * 2 ^ 30 ->
  (4096 | B) -> 0 <= B < 2 ^ 61 -> (forall a, B <= a < B + 7 * 4096 -> w a = 0) ->
  B + 7 * 4096 <= PP \/ PP + WOLFBOOT_PTP_NUM * 4096 <= B ->
  pt_ok B PP (MkPaging (snd (x86_paging_build_identity_mapping w top B)) 0).
Proof.
  intros Htop HB HB2 Hz Hsep. split; [by apply identity_tables_ok|].
  cbn [pt page_table_page_used]. unfold WOLFBOOT_PTP_NUM in *. split; [lia|]. intros d va k Hd Hk Ht.
  assert (0 <= top / 2 ^ 30 <= 4) as Hn3 by dlia.
  destruct (identity_tab_cases w top B d va _ Htop HB HB2 Hz Hd Ht) as [(_ & E)|[(_ & _ & E)|(_ & _ & Hi & E)]]; lia.
Qed.

(** A segment mapped above an identity mapping of 4 MB. *)
Lemma map_memory_exact_witness :
  let w := snd (x86_paging_build_identity_mapping (fun _ => 0) 0x3FFFFF 0x1000) in
  exists r, x86_paging_map_memory 0x1000 0x100000 (2 ^ 40 + 5) 0x200000 0x1000 (MkPaging w 0) = Ok r /\
    match r with
    | None => False
    | Some (ret, s') => ret = 0 /\
        translate (pt s') 0x1000 (2 ^ 40 + 5) = Some 0x200005 /\
        translate (pt s') 0x1000 (2 ^ 40 + 4096) = Some 0x201000 /\
        translate (pt s') 0x1000 0x12345 = Some 0x12345 /\
        translate (pt s') 0x1000 0x400000 = None
    end.
Proof.
  intros w. set (s := MkPaging w 0).
  assert ((4096 | 0x100000) /\ 0 <= 0x100000 < 2 ^ 61) as HPP by (split; [by exists 256|lia]).
  assert (pt_ok 0x1000 0x100000 s) as Hs
    by (apply identity_pt_ok; [lia|by exists 1|lia|done|left; lia]).
  assert (0 <= 2 ^ 40 + 5 /\ 0 <= 0x1000 < 2 ^ 32 /\ 2 ^ 40 + 5 + 0x1000 <= 2 ^ 48 /\
    4096 <= 0x200000 < 2 ^ 60) as (H1 & H2 & H3 & H4) by lia.
  destruct (map_memory_exact 0x1000 0x100000 HPP s (2 ^ 40 + 5) 0x200000 0x1000 Hs H1 H2 H3 H4)
    as (r & E & Hr).
  exists r. split; [exact E|]. destruct r as [[ret s']|]; [|exfalso; revert Hr; vm_compute; done].
  destruct Hr as (-> & _ & HT). clear - HT. split; [reflexivity|].
  split; [|split; [|split]]; (rewrite HT by lia; vm_compute; reflexivity).
Defined.

