(* ===== verification/Otp.v ===== *)
(** * The keystore in one-time-programmable memory

    [flash_otp_keystore.c] reads public keys from OTP through [hal_flash_otp_read]
    of [hal/stm32h7.c]; [otp-keystore-gen.c] makes the image of the OTP on the host,
    and [otp-keystore-primer.c] programs it on the device.  The four accessors
    share one static cache, which is part of the state: the buffer that
    [keystore_get_buffer] returns is a place in it. *)

From Stdlib Require Import ZArith Lia.
From stdpp Require Import prelude.
From S2P Require Import Prelude Flash Image Elf.

Local Open Scope Z_scope.

(** The size of the OTP area, and the size of a public key on the device. *)
Class otp_config : Type := OtpConfig {
  OTP_SIZE : Z;
  KEYSTORE_PUBKEY_SIZE : Z;
}.

Definition FLASH_OTP_BASE : Z := 0x08FFF000.
Definition OTP_HDR_SIZE : Z := 16.
Definition KEYSTORE_HDR_SIZE : Z := 16.
Definition OTP_UDS_LEN : Z := 32.
Definition OTP_UDS_STORAGE_SIZE : Z := 64.
Definition KEYSTORE_HDR_MAGIC : list Z := [87; 79; 76; 70; 66; 79; 79; 84].

Definition le16 (x : Z) : list Z := [x mod 256; x / 256 mod 256].

(** [struct keystore_slot]; the key fills its array. *)
Record keystore_slot : Type := mkSlot {
  slot_id : Z;
  key_type : Z;
  part_id_mask : Z;
  pubkey_size : Z;
  pubkey : list Z;
}.

(** [struct wolfBoot_otp_hdr], in memory. *)
Definition wolfBoot_otp_hdr (item_count flags version : Z) : list Z :=
  KEYSTORE_HDR_MAGIC ++ le16 (u16 item_count) ++ le16 flags ++ le32_bytes version.

Section Otp.
Context {oc : otp_config}.

Definition FLASH_OTP_END : Z := FLASH_OTP_BASE + OTP_SIZE - 1.
Definition SIZEOF_KEYSTORE_SLOT : Z := KEYSTORE_HDR_SIZE + KEYSTORE_PUBKEY_SIZE.
Definition KEYSTORE_MAX_PUBKEYS : Z :=
  (OTP_SIZE - OTP_UDS_STORAGE_SIZE - OTP_HDR_SIZE) / SIZEOF_KEYSTORE_SLOT.
Definition OTP_UDS_OFFSET : Z := OTP_SIZE - OTP_UDS_STORAGE_SIZE.

(** One half-word of [hal_flash_otp_read]. *)
Definition otp_read_body (m : mem) (length : Z) (st : Z * Z * list Z)
    : outcome (Z * Z * list Z + list Z) :=
  let '(i, flashAddress, data) := st in
  if negb ((i <? length) && (flashAddress <=? FLASH_OTP_END - 1)) then Ok (inr data)
  else
    let! data := blit data i [m flashAddress; m (flashAddress + 1)] in
    Ok (inl (u32 (i + 2), u32 (flashAddress + 2), data)).

(** The status and the buffer; the fuel is the length of the request. *)
Definition hal_flash_otp_read (m : mem) (flashAddress : Z) (data : list Z) (length : Z)
    : outcome (Z * list Z) :=
  if negb ((FLASH_OTP_BASE <=? flashAddress) && (flashAddress <=? FLASH_OTP_END)) then Ok (-1, data)
  else
    let! data := loop (Z.to_nat length + 1) (otp_read_body m length) (0, flashAddress, data) in
    Ok (0, data).

(** The local array is written before it is read whenever the OTP holds a header. *)
Definition keystore_num_pubkeys (m : mem) : outcome Z :=
  let! (ret, otp_header) :=
    hal_flash_otp_read m FLASH_OTP_BASE (replicate (Z.to_nat OTP_HDR_SIZE) 0) OTP_HDR_SIZE in
  if negb (ret =? 0) then Ok 0
  else if negb (bool_decide (slice otp_header 0 8 = KEYSTORE_HDR_MAGIC)) then Ok 0
  else
    let item_count := le_value (slice otp_header 8 2) in
    if KEYSTORE_MAX_PUBKEYS <? item_count then Ok 0 else Ok item_count.

(** The check and the read at the start of each accessor: whether the slot was
    read, and [otp_slot_item_cache]. *)
Definition read_slot (m : mem) (id : Z) (cache : list Z) : outcome (bool * list Z) :=
  let! n := keystore_num_pubkeys m in
  if (id <? 0) || (n <=? id) then Ok (false, cache)
  else
    let! (ret, cache) := hal_flash_otp_read m
      (u32 (FLASH_OTP_BASE + OTP_HDR_SIZE + id * SIZEOF_KEYSTORE_SLOT)) cache SIZEOF_KEYSTORE_SLOT in
    Ok (ret =? 0, cache).

(** The offset of the key in the cache, [None] for a null pointer. *)
Definition keystore_get_buffer (m : mem) (id : Z) (cache : list Z) : outcome (option Z * list Z) :=
  let! (ok, cache) := read_slot m id cache in
  Ok (if ok then Some 16 else None, cache).

Definition keystore_get_size (m : mem) (id : Z) (cache : list Z) : outcome (Z * list Z) :=
  let! (ok, cache) := read_slot m id cache in
  if negb ok then Ok (-1, cache)
  else
    let size := le_value (slice cache 12 4) in
    if KEYSTORE_PUBKEY_SIZE <? size then Ok (-1, cache) else Ok (size, cache).

Definition keystore_get_mask (m : mem) (id : Z) (cache : list Z) : outcome (Z * list Z) :=
  let! (ok, cache) := read_slot m id cache in
  Ok (if ok then le_value (slice cache 8 4) else 0, cache).

Definition keystore_get_key_type (m : mem) (id : Z) (cache : list Z) : outcome (Z * list Z) :=
  let! (ok, cache) := read_slot m id cache in
  Ok (if ok then le_value (slice cache 4 4) else u32 (-1), cache).

(** ** The generator *)

(** [sizeof(struct keystore_slot)] for an array of [n] bytes, and the array
    [PubKeys] in memory. *)
Definition sizeof_slot (n : Z) : Z := (KEYSTORE_HDR_SIZE + n + 3) / 4 * 4.
Definition slot_bytes (n : Z) (s : keystore_slot) : list Z :=
  le32_bytes (slot_id s) ++ le32_bytes (key_type s) ++ le32_bytes (part_id_mask s) ++
  le32_bytes (pubkey_size s) ++ pubkey s ++
  replicate (Z.to_nat (sizeof_slot n - KEYSTORE_HDR_SIZE - n)) 0.
Definition pubkeys_bytes (n : Z) (PubKeys : list keystore_slot) : list Z :=
  PubKeys ≫= slot_bytes n.

(** What the host answers: allocation, the output file, the random bytes that
    were read, and whether the image was written. *)
Record host : Type := mkHost {
  malloc_ok : bool;
  open_ok : bool;
  rand_ok : bool;
  urandom : list Z;
  write_ok : bool;
}.

(** [for (i = 0; i < n_keys; i++)]: each key to its slot of the image. *)
Fixpoint gen_slots (n i : nat) (array : list Z) (size slot_size : Z) (otp_buf : list Z)
    : outcome (list Z) :=
  match n with
  | O => Ok otp_buf
  | S n =>
      let! s := rd_bytes array (Z.of_nat i * size) slot_size in
      let! otp_buf := blit otp_buf (OTP_HDR_SIZE + Z.of_nat i * slot_size) s in
      gen_slots n (S i) array size slot_size otp_buf
  end.

(** [main]: the exit status and the file, when it is complete.  [gen_size] is the
    size of a public key in the build of the generator. *)
Definition otp_keystore_gen (gen_size version : Z) (h : host) (PubKeys : list keystore_slot)
    : outcome (Z * option (list Z)) :=
  let n_keys := zlen PubKeys in
  match PubKeys with
  | [] => Ok (1, None)
  | key0 :: _ =>
      let slot_size := i32 (pubkey_size key0) + KEYSTORE_HDR_SIZE in
      let tot_len := u32 (OTP_HDR_SIZE + u32 (slot_size * n_keys)) in
      if OTP_UDS_OFFSET <? tot_len then Ok (1, None)
      else if negb (malloc_ok h) then Ok (1, None)
      else
        let otp_buf := replicate (Z.to_nat OTP_SIZE) 0xFF in
        let! otp_buf := blit otp_buf 0 (wolfBoot_otp_hdr n_keys 0 version) in
        if negb (open_ok h) then Ok (2, None)
        else
          let! otp_buf := gen_slots (length PubKeys) 0 (pubkeys_bytes gen_size PubKeys)
            (sizeof_slot gen_size) slot_size otp_buf in
          if negb (rand_ok h) then Ok (4, None)
          else if negb (zlen (urandom h) =? OTP_UDS_LEN) then Ok (5, None)
          else
            let! otp_buf := blit otp_buf OTP_UDS_OFFSET (urandom h) in
            if negb (write_ok h) then Ok (3, None) else Ok (0, Some otp_buf)
  end.

(** ** The primer *)

(** Programming a half-word clears bits. *)
Definition program_halfword (m : mem) (a b0 b1 : Z) : mem :=
  fun x => if x =? a then Z.land (m x) b0 else if x =? a + 1 then Z.land (m x) b1 else m x.

Definition otp_write_body (data : list Z) (length : Z) (st : Z * Z * mem)
    : outcome (Z * Z * mem + mem) :=
  let '(idx, flashAddress, m) := st in
  if negb ((idx <? length) && (flashAddress <=? FLASH_OTP_END - 1)) then Ok (inr m)
  else
    let! b0 := rd data idx in
    let! b1 := rd data (idx + 1) in
    Ok (inl (u16 (idx + 2), u32 (flashAddress + 2), program_halfword m flashAddress b0 b1)).

Definition hal_flash_otp_write (m : mem) (flashAddress : Z) (data : list Z) (length : Z)
    : outcome (Z * mem) :=
  if negb ((FLASH_OTP_BASE <=? flashAddress) && (flashAddress <=? FLASH_OTP_END)) then Ok (-1, m)
  else
    let! m := loop (Z.to_nat length + 1) (otp_write_body data length) (0, flashAddress, m) in
    Ok (0, m).

(** Where the primer stops: each is an endless loop. *)
Inductive primer_end : Type := TooFew | NoRoom | NoEntropy | Done.

(** The slots; the status of a write is not looked at. *)
Fixpoint prime_slots (i : Z) (PubKeys : list keystore_slot) (m : mem) : outcome mem :=
  match PubKeys with
  | [] => Ok m
  | s :: rest =>
      let! (_, m) := hal_flash_otp_write m
        (u32 (FLASH_OTP_BASE + OTP_HDR_SIZE + i * SIZEOF_KEYSTORE_SLOT))
        (slot_bytes KEYSTORE_PUBKEY_SIZE s) (sizeof_slot KEYSTORE_PUBKEY_SIZE) in
      prime_slots (i + 1) rest m
  end.

(** [main], with the status and the bytes of [hal_trng_get_entropy]. *)
Definition otp_keystore_primer (version : Z) (trng : Z * list Z) (PubKeys : list keystore_slot)
    (m : mem) : outcome (primer_end * mem) :=
  let n_keys := zlen PubKeys in
  if n_keys <? 1 then Ok (TooFew, m)
  else
    let! (_, m) := hal_flash_otp_write m FLASH_OTP_BASE (wolfBoot_otp_hdr n_keys 0 version) 16 in
    let! m := prime_slots 0 PubKeys m in
    let tot_len := u32 (OTP_HDR_SIZE + n_keys * SIZEOF_KEYSTORE_SLOT) in
    if OTP_UDS_OFFSET <? tot_len then Ok (NoRoom, m)
    else if negb (fst trng =? 0) then Ok (NoEntropy, m)
    else
      let! (_, m) := hal_flash_otp_write m (FLASH_OTP_BASE + OTP_UDS_OFFSET) (snd trng) OTP_UDS_LEN in
      Ok (Done, m).

(** ** The interface of the image code *)

(** The accessors of a given OTP, from a cleared cache. *)
Definition blank : list Z := replicate (Z.to_nat SIZEOF_KEYSTORE_SLOT) 0.
Definition otp_keystore (m : mem) : keystore_api := {|
  Image.keystore_num_pubkeys :=
    match keystore_num_pubkeys m with Ok n => n | _ => 0 end;
  Image.keystore_get_buffer := fun id =>
    match keystore_get_buffer m id blank with
    | Ok (Some off, cache) => Some (drop (Z.to_nat off) cache)
    | _ => None
    end;
  Image.keystore_get_size := fun id =>
    match keystore_get_size m id blank with Ok (n, _) => n | _ => -1 end;
  Image.keystore_get_mask := fun id =>
    match keystore_get_mask m id blank with Ok (n, _) => n | _ => 0 end;
|}.

End Otp.
