(* ===== verification/OtpSpec.v ===== *)
(** * Correctness of the keystore in OTP

    The image that the generator writes and the memory that the primer leaves
    are the same, and the bootloader reads from it the keys it was made of. *)

From Stdlib Require Import ZArith Lia.
From stdpp Require Import prelude.
From S2P Require Import Prelude Flash Image Elf Otp.

Local Open Scope Z_scope.

(** ** Lists *)

Lemma zlen_replicate {A} n (x : A) : 0 <= n -> zlen (replicate (Z.to_nat n) x) = n.
Proof. intros. unfold zlen. rewrite length_replicate. lia. Qed.

(** Data at the start of an erased tail. *)
Lemma put_tail A k d (x : Z) : zlen d <= k ->
  put (A ++ replicate (Z.to_nat k) x) (zlen A) d = A ++ d ++ replicate (Z.to_nat (k - zlen d)) x.
Proof.
  intros Hk. pose proof (zlen_nonneg A). pose proof (zlen_nonneg d). unfold put. f_equal.
  - unfold zlen. rewrite Nat2Z.id. by rewrite take_app_length.
  - f_equal. unfold zlen in *. rewrite drop_app_ge by lia. rewrite drop_replicate. f_equal. lia.
Qed.

(** Items of the same length, one after the other. *)
Lemma zlen_bind {A} (f : A -> list Z) L l : Forall (fun x => zlen (f x) = L) l -> zlen (l ≫= f) = zlen l * L.
Proof. induction 1 as [|x l H _ IH]; [done|]. rewrite bind_cons, zlen_app, zlen_cons, IH, H. lia. Qed.

Lemma slice_app_r (A B : list Z) k n : 0 <= k -> slice (A ++ B) (zlen A + k) n = slice B k n.
Proof.
  intros. unfold slice, zlen. rewrite drop_app_ge by lia. do 2 f_equal. lia.
Qed.

Lemma slice_app_l (A B : list Z) n : n <= zlen A -> slice (A ++ B) 0 n = slice A 0 n.
Proof. intros. unfold slice, zlen in *. change (Z.to_nat 0) with 0%nat. by rewrite !drop_0, take_app_le by lia. Qed.

Lemma slice_bind {A} (f : A -> list Z) L l B i x n : Forall (fun x => zlen (f x) = L) l ->
  l !! i = Some x -> n <= L -> slice ((l ≫= f) ++ B) (Z.of_nat i * L) n = slice (f x) 0 n.
Proof.
  intros Hf Hi Hn. rewrite <- (take_drop_middle l i x Hi), bind_app, bind_cons, <- !app_assoc.
  assert (zlen (take i l ≫= f) = Z.of_nat i * L) as <-.
  { rewrite (zlen_bind f L) by (by apply Forall_take).
    unfold zlen. rewrite length_take. apply lookup_lt_Some in Hi. f_equal. lia. }
  rewrite <- (Z.add_0_r (zlen (take i l ≫= f))), slice_app_r by lia. apply slice_app_l. by rewrite (Forall_lookup_1 _ _ _ _ Hf Hi).
Qed.

Lemma slice_all l n : n = zlen l -> slice l 0 n = l.
Proof. intros ->. apply slice_full. Qed.

Lemma le_value_32 v : 0 <= v < 2 ^ 32 -> le_value (le32_bytes v) = v.
Proof. intros. unfold le32_bytes. cbn [le_value]. dlia. Qed.

Lemma le_value_16 v : 0 <= v < 2 ^ 16 -> le_value (le16 v) = v.
Proof. intros. unfold le16. cbn [le_value]. dlia. Qed.

(** ** Access to the OTP *)

Section Access.
Context {oc : otp_config}.
Hypothesis Hsize : 0 <= OTP_SIZE <= 2 ^ 14.

(** A read of an even number of bytes inside the OTP fills the buffer. *)
Lemma otp_read_spec (m : mem) a data n : zlen data = n -> 0 < n -> Z.even n = true -> FLASH_OTP_BASE <= a ->
  a + n <= FLASH_OTP_BASE + OTP_SIZE -> hal_flash_otp_read m a data n = Ok (0, mread m a n).
Proof.
  intros Hd Hn He Ha Hend. apply Z.even_spec in He as [q Hq].
  unfold hal_flash_otp_read, FLASH_OTP_END, FLASH_OTP_BASE in *.
  destruct (Z.leb_spec 0x08FFF000 a); [|lia]. destruct (Z.leb_spec a (0x08FFF000 + OTP_SIZE - 1)); [|lia].
  cbn [andb negb].
  enough (wp (loop (Z.to_nat n + 1) (otp_read_body m n) (0, a, data)) (fun r => r = mread m a n)) as HR
    by (apply wp_inv in HR as (r & -> & ->); done).
  apply (wp_loop (fun '(i, fa, d) => fa = a + i /\ 0 <= i <= n /\ (exists k, i = 2 * k) /\ zlen d = n /\
      forall p, 0 <= p < i -> at_ d p = m (a + p)) (fun '(i, _, _) => Z.to_nat (n - i)));
    [|split_and!; try done; [lia|lia|by exists 0|intros; lia]|lia].
  intros [[i fa] d] (-> & Hi & [k Hk] & Hl & Hat). unfold otp_read_body, FLASH_OTP_END, FLASH_OTP_BASE.
  destruct (Z.ltb_spec i n) as [Hin|Hin]; [|].
  - destruct (Z.leb_spec (a + i) (0x08FFF000 + OTP_SIZE - 1 - 1)); [|lia]. cbn [andb negb].
    assert (zlen [m (a + i); m (a + i + 1)] = 2) as H2 by done.
    rewrite blit_put by lia. cbn [obind]. rewrite !u32_small by lia.
    cbn [wp]. split; [|lia]. split; [lia|]. split; [lia|]. split; [exists (k + 1); lia|].
    rewrite zlen_put by lia. split; [done|]. intros p Hp.
    rewrite at_put, H2 by lia.
    destruct (Z.leb_spec i p), (Z.ltb_spec p (i + 2)); cbn [andb]; try (apply Hat; lia).
    assert (p = i \/ p = i + 1) as [->| ->] by lia; [by rewrite Z.sub_diag|].
    replace (i + 1 - i) with 1 by lia. unfold at_; simpl. f_equal. lia.
  - cbn [andb negb wp]. apply buf_ext; [rewrite mread_length; lia|]. intros p Hp.
    rewrite mread_at by lia. apply Hat. lia.
Qed.

(** A write of an even number of bytes to an erased part stores them. *)
Lemma otp_write_spec (m : mem) off d : 0 < zlen d -> Z.even (zlen d) = true -> 0 <= off -> off + zlen d <= OTP_SIZE ->
  bytes d -> (forall p, off <= p < off + zlen d -> m (FLASH_OTP_BASE + p) = 0xFF) ->
  exists m', hal_flash_otp_write m (FLASH_OTP_BASE + off) d (zlen d) = Ok (0, m') /\
    mread m' FLASH_OTP_BASE OTP_SIZE = put (mread m FLASH_OTP_BASE OTP_SIZE) off d.
Proof.
  intros Hn He Hoff Hend Hb Hff. apply Z.even_spec in He as [q Hq].
  unfold hal_flash_otp_write, FLASH_OTP_END. set (B := FLASH_OTP_BASE) in *.
  assert (B = 0x08FFF000) as HB by done. clearbody B.
  destruct (Z.leb_spec B (B + off)); [|lia]. destruct (Z.leb_spec (B + off) (B + OTP_SIZE - 1)); [|lia].
  cbn [andb negb]. set (n := zlen d) in *.
  enough (wp (loop (Z.to_nat n + 1) (otp_write_body d n) (0, B + off, m)) (fun m' => forall p, m' p =
      if (B + off <=? p) && (p <? B + off + n) then at_ d (p - (B + off)) else m p)) as HR.
  { apply wp_inv in HR as (m' & -> & Hm). exists m'. split; [done|].
    assert (zlen (mread m B OTP_SIZE) = OTP_SIZE) as Hl by (apply mread_length; lia).
    apply put_ext; [done|lia|rewrite !mread_length; lia|]. rewrite Hl. intros p Hp.
    rewrite !mread_at, Hm by lia. fold n.
    replace (B + p - (B + off)) with (p - off) by lia.
    destruct (Z.leb_spec (B + off) (B + p)), (Z.ltb_spec (B + p) (B + off + n)), (Z.leb_spec off p),
      (Z.ltb_spec p (off + n)); done || lia. }
  apply (wp_loop (fun '(i, fa, m1) => fa = B + off + i /\ 0 <= i <= n /\ (exists k, i = 2 * k) /\
      forall p, m1 p = if (B + off <=? p) && (p <? B + off + i) then at_ d (p - (B + off)) else m p)
    (fun '(i, _, _) => Z.to_nat (n - i))).
  2: { split; [lia|]. split; [lia|]. split; [by exists 0|]. intros p.
       destruct (Z.leb_spec (B + off) p), (Z.ltb_spec p (B + off + 0)); done || lia. }
  2: lia.
  intros [[i fa] m1] (-> & Hi & [k Hk] & Hm). unfold otp_write_body, FLASH_OTP_END.
  change FLASH_OTP_BASE with 0x08FFF000.
  destruct (Z.ltb_spec i n) as [Hin|Hin].
  - destruct (Z.leb_spec (B + off + i) (0x08FFF000 + OTP_SIZE - 1 - 1)); [|lia]. cbn [andb negb].
    rewrite !rd_ok by (fold n; lia). cbn [obind wp]. unfold u16, u32. rewrite !Z.mod_small by lia.
    split; [|lia]. split; [lia|]. split; [lia|]. split; [exists (k + 1); lia|]. intros p.
    assert (forall j, 0 <= j < n -> Z.land 0xFF (at_ d j) = at_ d j) as Hland.
    { intros j Hj. rewrite Z.land_comm. change 255 with (Z.ones 8). rewrite Z.land_ones by lia.
      apply Z.mod_small. apply (at_byte d j Hb Hj). }
    unfold program_halfword. rewrite Hm.
    destruct (Z.eqb_spec p (B + off + i)) as [->|N1]; [|destruct (Z.eqb_spec p (B + off + i + 1)) as [->|N2]].
    + destruct (Z.leb_spec (B + off) (B + off + i)), (Z.ltb_spec (B + off + i) (B + off + i)),
        (Z.ltb_spec (B + off + i) (B + off + (i + 2))); try lia. cbn [andb].
      rewrite <- (Z.add_assoc B), Hff, Hland by lia. f_equal. lia.
    + destruct (Z.leb_spec (B + off) (B + off + i + 1)), (Z.ltb_spec (B + off + i + 1) (B + off + i)),
        (Z.ltb_spec (B + off + i + 1) (B + off + (i + 2))); try lia. cbn [andb].
      replace (B + off + i + 1) with (B + (off + i + 1)) by lia. rewrite Hff, Hland by lia. f_equal. lia.
    + destruct (Z.leb_spec (B + off) p), (Z.ltb_spec p (B + off + i)), (Z.ltb_spec p (B + off + (i + 2)));
        cbn [andb]; done || lia.
  - cbn [andb negb wp]. by replace i with n in Hm by lia.
Qed.

End Access.

(** ** Reading the keys *)

Section Keystore.
Context {oc : otp_config}.

(** An even key size, and an area that a half-word count can address. *)
Definition otp_config_ok : Prop := 0 <= OTP_SIZE <= 2 ^ 14 /\ 0 <= KEYSTORE_PUBKEY_SIZE /\
  Z.even KEYSTORE_PUBKEY_SIZE = true.

Definition slot_ok (s : keystore_slot) : Prop :=
  0 <= slot_id s < 2 ^ 32 /\ 0 <= key_type s < 2 ^ 32 /\ 0 <= part_id_mask s < 2 ^ 32 /\
  0 <= pubkey_size s < 2 ^ 32 /\ bytes (pubkey s) /\ KEYSTORE_PUBKEY_SIZE <= zlen (pubkey s).

(** A slot in OTP, and the whole area. *)
Definition slot_image (s : keystore_slot) : list Z :=
  le32_bytes (slot_id s) ++ le32_bytes (key_type s) ++ le32_bytes (part_id_mask s) ++
  le32_bytes (pubkey_size s) ++ take (Z.to_nat KEYSTORE_PUBKEY_SIZE) (pubkey s).
Definition otp_image (version : Z) (keys : list keystore_slot) (uds : list Z) : list Z :=
  (wolfBoot_otp_hdr (zlen keys) 0 version ++ (keys ≫= slot_image) ++
   replicate (Z.to_nat (OTP_UDS_OFFSET - OTP_HDR_SIZE - zlen keys * SIZEOF_KEYSTORE_SLOT)) 0xFF) ++
  uds ++ replicate (Z.to_nat (OTP_UDS_STORAGE_SIZE - OTP_UDS_LEN)) 0xFF.

(** The accessors give the fields of each key from any state of the cache, and
    leave that key in the cache: the buffer stays valid while the other accessors
    are called for the same key. *)
Definition holds_keys (m : mem) (keys : list keystore_slot) : Prop :=
  keystore_num_pubkeys m = Ok (zlen keys) /\
  (forall id cache, id < 0 \/ zlen keys <= id -> read_slot m id cache = Ok (false, cache)) /\
  forall i s cache, keys !! i = Some s -> zlen cache = SIZEOF_KEYSTORE_SLOT ->
    let id := Z.of_nat i in
    let c := slot_image s in
    keystore_get_buffer m id cache = Ok (Some 16, c) /\
    drop 16 c = take (Z.to_nat KEYSTORE_PUBKEY_SIZE) (pubkey s) /\
    keystore_get_size m id cache =
      Ok (if KEYSTORE_PUBKEY_SIZE <? pubkey_size s then -1 else pubkey_size s, c) /\
    keystore_get_mask m id cache = Ok (part_id_mask s, c) /\
    keystore_get_key_type m id cache = Ok (key_type s, c).

Lemma slot_image_length s : slot_ok s -> 0 <= KEYSTORE_PUBKEY_SIZE -> zlen (slot_image s) = SIZEOF_KEYSTORE_SLOT.
Proof.
  intros (_ & _ & _ & _ & _ & H) Hp. unfold slot_image. rewrite !zlen_app.
  change (zlen (le32_bytes _)) with 4. unfold SIZEOF_KEYSTORE_SLOT, KEYSTORE_HDR_SIZE.
  unfold zlen in *. rewrite length_take. lia.
Qed.

Lemma slots_length keys : Forall slot_ok keys -> 0 <= KEYSTORE_PUBKEY_SIZE ->
  Forall (fun s => zlen (slot_image s) = SIZEOF_KEYSTORE_SLOT) keys.
Proof. intros H Hp. eapply Forall_impl; [exact H|]. intros s Hs. by apply slot_image_length. Qed.

Lemma image_hdr version keys uds B : slice (otp_image version keys uds ++ B) 0 16 =
  wolfBoot_otp_hdr (zlen keys) 0 version.
Proof.
  unfold otp_image. rewrite <- !app_assoc, slice_app_l by done. by apply slice_all.
Qed.

Lemma image_slot version keys uds i s : otp_config_ok -> Forall slot_ok keys -> keys !! i = Some s ->
  slice (otp_image version keys uds) (16 + Z.of_nat i * SIZEOF_KEYSTORE_SLOT) SIZEOF_KEYSTORE_SLOT = slot_image s.
Proof.
  intros (_ & Hp & _) Hok Hi. unfold otp_image. rewrite <- !app_assoc.
  change 16 with (zlen (wolfBoot_otp_hdr (zlen keys) 0 version)).
  assert (0 <= SIZEOF_KEYSTORE_SLOT) by (unfold SIZEOF_KEYSTORE_SLOT, KEYSTORE_HDR_SIZE; lia).
  rewrite slice_app_r by lia. rewrite (slice_bind _ SIZEOF_KEYSTORE_SLOT keys _ i s);
    [|by apply slots_length|done|lia].
  apply slice_all. symmetry. apply slot_image_length; [by eapply Forall_lookup_1|done].
Qed.

Section Read.
Variables (m : mem) (version : Z) (keys : list keystore_slot) (uds : list Z).
Hypothesis Hcfg : otp_config_ok.
Hypothesis Hkeys : Forall slot_ok keys.
Hypothesis Hfit : OTP_HDR_SIZE + zlen keys * SIZEOF_KEYSTORE_SLOT <= OTP_UDS_OFFSET.
Hypothesis Hm : mread m FLASH_OTP_BASE OTP_SIZE = otp_image version keys uds.

Lemma read_bounds : 0 <= zlen keys < 2 ^ 14 /\ 16 <= SIZEOF_KEYSTORE_SLOT /\ 80 <= OTP_SIZE.
Proof using Hcfg Hfit.
  destruct Hcfg as (? & ? & _). unfold OTP_UDS_OFFSET, OTP_UDS_STORAGE_SIZE, OTP_HDR_SIZE in Hfit.
  assert (16 <= SIZEOF_KEYSTORE_SLOT) by (unfold SIZEOF_KEYSTORE_SLOT, KEYSTORE_HDR_SIZE; lia).
  pose proof (zlen_nonneg keys). split; nia.
Qed.

Lemma read_num : keystore_num_pubkeys m = Ok (zlen keys).
Proof using Hcfg Hfit Hm.
  destruct read_bounds as (Hn & Hs & Ho). pose proof Hcfg as (Hsz & Hp & _).
  unfold keystore_num_pubkeys. rewrite otp_read_spec; [|done|done|done|done|lia|unfold OTP_HDR_SIZE; lia].
  assert (mread m FLASH_OTP_BASE OTP_HDR_SIZE = wolfBoot_otp_hdr (zlen keys) 0 version) as ->.
  { rewrite <- (Z.add_0_r FLASH_OTP_BASE), <- (slice_mread m FLASH_OTP_BASE OTP_SIZE) by (unfold OTP_HDR_SIZE; lia).
    rewrite Hm, <- (app_nil_r (otp_image _ _ _)). apply image_hdr. }
  cbn [obind Z.eqb negb]. change (slice (wolfBoot_otp_hdr _ _ _) 0 8) with KEYSTORE_HDR_MAGIC.
  rewrite bool_decide_true by done. cbn [negb].
  change (slice (wolfBoot_otp_hdr (zlen keys) 0 version) 8 2) with (le16 (u16 (zlen keys))).
  rewrite u16_small, le_value_16 by lia.
  assert (zlen keys <= KEYSTORE_MAX_PUBKEYS) as Hmax.
  { unfold KEYSTORE_MAX_PUBKEYS. apply Z.div_le_lower_bound; [lia|].
    unfold OTP_UDS_OFFSET in Hfit. lia. }
  by rewrite (proj2 (Z.ltb_ge _ _)) by lia.
Qed.

Lemma read_slot_key i s cache : keys !! i = Some s -> zlen cache = SIZEOF_KEYSTORE_SLOT ->
  read_slot m (Z.of_nat i) cache = Ok (true, slot_image s).
Proof using All.
  intros Hi Hc. destruct read_bounds as (Hn & Hs & Ho). pose proof Hcfg as (Hsz & Hp & He).
  pose proof (lookup_lt_Some _ _ _ Hi) as Hlt. unfold OTP_UDS_OFFSET, OTP_UDS_STORAGE_SIZE, OTP_HDR_SIZE in Hfit.
  assert (Z.of_nat i + 1 <= zlen keys) as Hle by (unfold zlen; lia).
  assert ((Z.of_nat i + 1) * SIZEOF_KEYSTORE_SLOT <= zlen keys * SIZEOF_KEYSTORE_SLOT) as Hm1 by nia.
  unfold read_slot. rewrite read_num. cbn [obind]. destruct (Z.ltb_spec (Z.of_nat i) 0); [lia|].
  destruct (Z.leb_spec (zlen keys) (Z.of_nat i)); [lia|]. cbn [orb]. unfold OTP_HDR_SIZE.
  set (off := 16 + Z.of_nat i * SIZEOF_KEYSTORE_SLOT).
  replace (FLASH_OTP_BASE + 16 + Z.of_nat i * SIZEOF_KEYSTORE_SLOT) with (FLASH_OTP_BASE + off) by lia.
  assert (0 <= off /\ off + SIZEOF_KEYSTORE_SLOT <= OTP_SIZE) as Hoff by lia.
  rewrite u32_small by (unfold FLASH_OTP_BASE; lia).
  rewrite otp_read_spec; [|done|done|lia| |lia|lia].
  2: { unfold SIZEOF_KEYSTORE_SLOT, KEYSTORE_HDR_SIZE. by rewrite Z.even_add, He. }
  cbn [obind]. change (0 =? 0) with true. rewrite <- (slice_mread m FLASH_OTP_BASE OTP_SIZE) by lia.
  rewrite Hm. subst off. by rewrite (image_slot version keys uds i s).
Qed.

Lemma image_holds_keys : holds_keys m keys.
Proof using All.
  split; [apply read_num|]. split.
  - intros id cache Hid. unfold read_slot. rewrite read_num. cbn [obind].
    destruct (Z.ltb_spec id 0), (Z.leb_spec (zlen keys) id); done || lia.
  - intros i s cache Hi Hc id c. subst id. pose proof (Forall_lookup_1 _ _ _ _ Hkeys Hi) as (_ & ? & ? & ? & _).
    unfold keystore_get_buffer, keystore_get_size, keystore_get_mask, keystore_get_key_type.
    rewrite (read_slot_key i s) by done. cbn [obind negb].
    change (slice (slot_image s) 12 4) with (le32_bytes (pubkey_size s)).
    change (slice (slot_image s) 8 4) with (le32_bytes (part_id_mask s)).
    change (slice (slot_image s) 4 4) with (le32_bytes (key_type s)).
    rewrite !le_value_32 by done. split; [done|]. split; [done|]. split; [|done].
    by destruct (KEYSTORE_PUBKEY_SIZE <? pubkey_size s).
Qed.

End Read.

(** ** The generator *)

Lemma slot_bytes_length n s : 0 <= n -> zlen (pubkey s) = n -> zlen (slot_bytes n s) = sizeof_slot n.
Proof.
  intros Hn Hs. unfold slot_bytes. rewrite !zlen_app, Hs. change (zlen (le32_bytes _)) with 4.
  rewrite zlen_replicate; unfold sizeof_slot, KEYSTORE_HDR_SIZE; dlia.
Qed.

(** The first bytes of a structure are a slot of the OTP. *)
Lemma slot_bytes_take n s : 0 <= KEYSTORE_PUBKEY_SIZE -> KEYSTORE_PUBKEY_SIZE <= zlen (pubkey s) ->
  slice (slot_bytes n s) 0 SIZEOF_KEYSTORE_SLOT = slot_image s.
Proof.
  intros Hp Hs. unfold slice, slot_bytes, slot_image, SIZEOF_KEYSTORE_SLOT, KEYSTORE_HDR_SIZE.
  change (Z.to_nat 0) with 0%nat. rewrite drop_0.
  replace (Z.to_nat (16 + KEYSTORE_PUBKEY_SIZE)) with (16 + Z.to_nat KEYSTORE_PUBKEY_SIZE)%nat by lia.
  cbn [Nat.add]. unfold le32_bytes. cbn [app take]. do 16 f_equal. apply take_app_le. unfold zlen in Hs. lia.
Qed.

Section Gen.
Variables (G : Z) (keys : list keystore_slot).
Hypothesis Hp : 0 <= KEYSTORE_PUBKEY_SIZE <= G.
Hypothesis Hkeys : Forall slot_ok keys.
Hypothesis HG : Forall (fun s => zlen (pubkey s) = G) keys.

Lemma array_slot i s : keys !! i = Some s ->
  rd_bytes (pubkeys_bytes G keys) (Z.of_nat i * sizeof_slot G) SIZEOF_KEYSTORE_SLOT = Ok (slot_image s).
Proof using All.
  intros Hi. assert (Forall (fun s => zlen (slot_bytes G s) = sizeof_slot G) keys) as Hl
    by (eapply Forall_impl; [exact HG|]; intros x Hx; apply slot_bytes_length; [lia|done]).
  pose proof (lookup_lt_Some _ _ _ Hi) as Hlt.
  assert (0 <= SIZEOF_KEYSTORE_SLOT <= sizeof_slot G) as Hs
    by (unfold SIZEOF_KEYSTORE_SLOT, sizeof_slot, KEYSTORE_HDR_SIZE; dlia).
  unfold rd_bytes. unfold pubkeys_bytes at 1. rewrite (zlen_bind _ _ _ Hl).
  assert (Z.of_nat i * sizeof_slot G + sizeof_slot G <= zlen keys * sizeof_slot G) as Hle by (unfold zlen; nia).
  assert (0 <= Z.of_nat i * sizeof_slot G) as H0 by nia.
  rewrite (proj2 (Z.leb_le _ _) H0). rewrite (proj2 (Z.leb_le 0 SIZEOF_KEYSTORE_SLOT)) by lia.
  rewrite (proj2 (Z.leb_le (_ + _) _)) by lia. cbn [andb]. f_equal.
  unfold pubkeys_bytes. rewrite <- (app_nil_r (keys ≫= slot_bytes G)).
  rewrite (slice_bind _ (sizeof_slot G) keys [] i s) by (done || lia).
  apply slot_bytes_take; [lia|]. rewrite (Forall_lookup_1 _ _ _ _ HG Hi). lia.
Qed.

Lemma gen_slots_spec array size : forall ks i A k,
  Forall (fun s => zlen (slot_image s) = SIZEOF_KEYSTORE_SLOT) ks ->
  (forall j s, ks !! j = Some s -> rd_bytes array (Z.of_nat (i + j) * size) SIZEOF_KEYSTORE_SLOT = Ok (slot_image s)) ->
  zlen A = OTP_HDR_SIZE + Z.of_nat i * SIZEOF_KEYSTORE_SLOT -> zlen ks * SIZEOF_KEYSTORE_SLOT <= k ->
  gen_slots (length ks) i array size SIZEOF_KEYSTORE_SLOT (A ++ replicate (Z.to_nat k) 0xFF) =
  Ok ((A ++ (ks ≫= slot_image)) ++ replicate (Z.to_nat (k - zlen ks * SIZEOF_KEYSTORE_SLOT)) 0xFF).
Proof using Hp.
  assert (0 <= SIZEOF_KEYSTORE_SLOT) as Hs0 by (unfold SIZEOF_KEYSTORE_SLOT, KEYSTORE_HDR_SIZE; lia).
  induction ks as [|s ks IH]; intros i A k Hl Hrd HA Hk.
  - cbn [gen_slots length]. change (zlen []) with 0. by rewrite app_nil_r, Z.mul_0_l, Z.sub_0_r.
  - apply Forall_cons_1 in Hl as [Hs Hl]. rewrite zlen_cons in Hk |- *. pose proof (zlen_nonneg ks).
    assert (SIZEOF_KEYSTORE_SLOT <= k /\ zlen ks * SIZEOF_KEYSTORE_SLOT <= k - SIZEOF_KEYSTORE_SLOT) as [Hk1 Hk2] by nia.
    cbn [length gen_slots]. specialize (Hrd 0%nat s eq_refl) as Hr. rewrite Nat.add_0_r in Hr. rewrite Hr.
    cbn [obind]. rewrite <- HA. rewrite blit_put;
      [|apply zlen_nonneg|rewrite zlen_app, zlen_replicate; lia].
    rewrite put_tail, Hs, app_assoc by lia. cbn [obind]. rewrite IH.
    + rewrite bind_cons, !app_assoc. do 3 f_equal. lia.
    + done.
    + intros j s' Hj. replace (S i + j)%nat with (i + S j)%nat by lia. by apply Hrd.
    + rewrite zlen_app, HA, Hs. lia.
    + lia.
Qed.

(** What is left after the keys, before and from the offset of the UDS. *)
Lemma tail_split : OTP_HDR_SIZE + zlen keys * SIZEOF_KEYSTORE_SLOT <= OTP_UDS_OFFSET ->
  replicate (Z.to_nat (OTP_SIZE - OTP_HDR_SIZE - zlen keys * SIZEOF_KEYSTORE_SLOT)) 0xFF =
  replicate (Z.to_nat (OTP_UDS_OFFSET - OTP_HDR_SIZE - zlen keys * SIZEOF_KEYSTORE_SLOT)) 0xFF ++
  replicate (Z.to_nat OTP_UDS_STORAGE_SIZE) 0xFF.
Proof using.
  intros H. rewrite <- replicate_add. f_equal. unfold OTP_UDS_OFFSET, OTP_UDS_STORAGE_SIZE in *. lia.
Qed.

(** The prefix that ends at the offset of the UDS. *)
Lemma prefix_length version : OTP_HDR_SIZE + zlen keys * SIZEOF_KEYSTORE_SLOT <= OTP_UDS_OFFSET ->
  zlen (wolfBoot_otp_hdr (zlen keys) 0 version ++ (keys ≫= slot_image) ++
    replicate (Z.to_nat (OTP_UDS_OFFSET - OTP_HDR_SIZE - zlen keys * SIZEOF_KEYSTORE_SLOT)) 0xFF) = OTP_UDS_OFFSET.
Proof using Hkeys Hp.
  intros H. rewrite !zlen_app, zlen_replicate by lia. change (zlen (wolfBoot_otp_hdr _ _ _)) with 16.
  rewrite (zlen_bind _ SIZEOF_KEYSTORE_SLOT) by (apply slots_length; [done|lia]). unfold OTP_HDR_SIZE. lia.
Qed.

Lemma gen_spec version h key0 : OTP_SIZE <= 2 ^ 14 -> head keys = Some key0 ->
  pubkey_size key0 = KEYSTORE_PUBKEY_SIZE ->
  OTP_HDR_SIZE + zlen keys * SIZEOF_KEYSTORE_SLOT <= OTP_UDS_OFFSET ->
  malloc_ok h = true -> open_ok h = true -> rand_ok h = true -> write_ok h = true ->
  zlen (urandom h) = OTP_UDS_LEN ->
  otp_keystore_gen G version h keys = Ok (0, Some (otp_image version keys (urandom h))).
Proof using All.
  intros Hsz Hh Hk0 Hfit H1 H2 H3 H4 Hu. pose proof (prefix_length version Hfit) as Hpre.
  pose proof (tail_split Hfit) as Htail.
  assert (forall s i, keys !! i = Some s -> rd_bytes (pubkeys_bytes G keys) (Z.of_nat (0 + i) * sizeof_slot G)
    SIZEOF_KEYSTORE_SLOT = Ok (slot_image s)) as Hrd by (intros s i Hi; by apply array_slot).
  assert (Forall (fun s => zlen (slot_image s) = SIZEOF_KEYSTORE_SLOT) keys) as Hl by (apply slots_length; [done|lia]).
  assert (16 <= SIZEOF_KEYSTORE_SLOT) as Hs0 by (unfold SIZEOF_KEYSTORE_SLOT, KEYSTORE_HDR_SIZE; lia).
  assert (1 <= zlen keys) as Hn by (destruct keys; [done|rewrite zlen_cons; pose proof (zlen_nonneg l); lia]).
  unfold OTP_UDS_OFFSET in Hfit. assert (SIZEOF_KEYSTORE_SLOT <= zlen keys * SIZEOF_KEYSTORE_SLOT) as Hnk by nia.
  unfold OTP_HDR_SIZE, OTP_UDS_STORAGE_SIZE in *.
  unfold otp_keystore_gen. destruct keys as [|k0 rest] eqn:Ek; [done|]. injection Hh as ->.
  rewrite Hk0, i32_small by (unfold SIZEOF_KEYSTORE_SLOT, KEYSTORE_HDR_SIZE in *; lia).
  replace (KEYSTORE_PUBKEY_SIZE + KEYSTORE_HDR_SIZE) with SIZEOF_KEYSTORE_SLOT by (unfold SIZEOF_KEYSTORE_SLOT; lia).
  rewrite <- Ek in *. clear Ek.
  rewrite (Z.mul_comm SIZEOF_KEYSTORE_SLOT), (u32_small (zlen keys * _)), u32_small by (unfold OTP_HDR_SIZE; lia).
  rewrite (proj2 (Z.ltb_ge _ _)) by (unfold OTP_HDR_SIZE, OTP_UDS_OFFSET, OTP_UDS_STORAGE_SIZE; lia).
  rewrite H1, H2, H3, H4. cbn [negb].
  rewrite blit_put; [|lia|rewrite zlen_replicate by lia; change (zlen (wolfBoot_otp_hdr _ _ _)) with 16; lia].
  pose proof (put_tail [] OTP_SIZE (wolfBoot_otp_hdr (zlen keys) 0 version) 0xFF) as P.
  change (zlen (wolfBoot_otp_hdr _ _ _)) with 16 in P. cbn [app] in P. change (zlen []) with 0 in P.
  rewrite P by lia. cbn [obind].
  rewrite (gen_slots_spec _ (sizeof_slot G) keys 0); [|done|intros j s Hj; by apply Hrd|done|lia].
  cbn [obind]. rewrite Hu. change (negb (OTP_UDS_LEN =? OTP_UDS_LEN)) with false. cbv iota.
  rewrite Htail, app_assoc, <- (app_assoc (wolfBoot_otp_hdr _ _ _)).
  rewrite blit_put; [|unfold OTP_UDS_OFFSET, OTP_UDS_STORAGE_SIZE; lia|].
  2: { rewrite zlen_app, Hpre, Hu. unfold OTP_UDS_LEN. change (zlen (replicate _ _)) with 64. lia. }
  rewrite <- Hpre at 2. cbn [obind]. unfold otp_image. do 3 f_equal. by rewrite put_tail, Hu by (rewrite Hu; done).
Qed.

End Gen.

(** ** The primer *)

(** The key in an array of the device's size. *)
Definition shrink (s : keystore_slot) : keystore_slot :=
  mkSlot (slot_id s) (key_type s) (part_id_mask s) (pubkey_size s)
    (take (Z.to_nat KEYSTORE_PUBKEY_SIZE) (pubkey s)).

Lemma shrink_bytes s : (4 | KEYSTORE_PUBKEY_SIZE) ->
  slot_bytes KEYSTORE_PUBKEY_SIZE (shrink s) = slot_image s /\
  sizeof_slot KEYSTORE_PUBKEY_SIZE = SIZEOF_KEYSTORE_SLOT.
Proof.
  intros [k Hk].
  assert (sizeof_slot KEYSTORE_PUBKEY_SIZE = SIZEOF_KEYSTORE_SLOT) as E.
  { unfold sizeof_slot, SIZEOF_KEYSTORE_SLOT, KEYSTORE_HDR_SIZE. rewrite Hk.
    replace (16 + k * 4 + 3) with (3 + (4 + k) * 4) by lia. rewrite Z.div_add by lia. change (3 / 4) with 0. lia. }
  split; [|done]. unfold slot_bytes, slot_image. rewrite E. unfold SIZEOF_KEYSTORE_SLOT.
  replace (KEYSTORE_HDR_SIZE + KEYSTORE_PUBKEY_SIZE - KEYSTORE_HDR_SIZE - KEYSTORE_PUBKEY_SIZE) with 0 by lia.
  cbn [shrink slot_id key_type part_id_mask pubkey_size pubkey Z.to_nat replicate]. by rewrite app_nil_r.
Qed.

Section Prime.
Hypothesis Hcfg : otp_config_ok.

(** A write at the start of the erased part. *)
Lemma prime_write m A k d : mread m FLASH_OTP_BASE OTP_SIZE = A ++ replicate (Z.to_nat k) 0xFF ->
  0 < zlen d <= k -> Z.even (zlen d) = true -> bytes d ->
  exists m', hal_flash_otp_write m (FLASH_OTP_BASE + zlen A) d (zlen d) = Ok (0, m') /\
    mread m' FLASH_OTP_BASE OTP_SIZE = (A ++ d) ++ replicate (Z.to_nat (k - zlen d)) 0xFF.
Proof using Hcfg.
  destruct Hcfg as (Hsz & _). intros Hm Hd He Hb. pose proof (zlen_nonneg A) as HA.
  assert (OTP_SIZE = zlen A + k) as Hlen.
  { rewrite <- (mread_length m FLASH_OTP_BASE OTP_SIZE) by lia. rewrite Hm, zlen_app, zlen_replicate; lia. }
  destruct (otp_write_spec Hsz m (zlen A) d) as (m' & E & Hm'); [lia|done|lia|lia|done| |].
  - intros p Hp. rewrite <- (mread_at m FLASH_OTP_BASE OTP_SIZE p) by lia. rewrite Hm, at_app_r by lia.
    unfold at_. by rewrite lookup_replicate_2 by lia.
  - exists m'. split; [done|]. by rewrite Hm', Hm, put_tail, app_assoc by lia.
Qed.

Lemma prime_slots_spec : (4 | KEYSTORE_PUBKEY_SIZE) -> forall ks i A k m, Forall slot_ok ks -> 0 <= i ->
  mread m FLASH_OTP_BASE OTP_SIZE = A ++ replicate (Z.to_nat k) 0xFF ->
  zlen A = OTP_HDR_SIZE + i * SIZEOF_KEYSTORE_SLOT -> zlen ks * SIZEOF_KEYSTORE_SLOT <= k ->
  zlen A + k <= 2 ^ 14 ->
  exists m', prime_slots i (shrink <$> ks) m = Ok m' /\ mread m' FLASH_OTP_BASE OTP_SIZE =
    (A ++ (ks ≫= slot_image)) ++ replicate (Z.to_nat (k - zlen ks * SIZEOF_KEYSTORE_SLOT)) 0xFF.
Proof using Hcfg.
  intros H4. pose proof Hcfg as (_ & Hp & He).
  assert (16 <= SIZEOF_KEYSTORE_SLOT) as Hs0 by (unfold SIZEOF_KEYSTORE_SLOT, KEYSTORE_HDR_SIZE; lia).
  induction ks as [|s ks IH]; intros i A k m Hok Hi Hm HA Hk Hk14.
  - exists m. split; [done|]. change (zlen []) with 0. by rewrite app_nil_r, Z.mul_0_l, Z.sub_0_r.
  - apply Forall_cons_1 in Hok as [Hs Hok]. rewrite zlen_cons in Hk |- *. pose proof (zlen_nonneg ks).
    destruct (shrink_bytes s H4) as [Eb Es]. pose proof (slot_image_length s Hs Hp) as Hl.
    destruct (prime_write m A k (slot_image s)) as (m1 & E1 & Hm1); [done|rewrite Hl; nia| | |].
    { rewrite Hl. unfold SIZEOF_KEYSTORE_SLOT, KEYSTORE_HDR_SIZE. by rewrite Z.even_add, He. }
    { destruct Hs as (_ & _ & _ & _ & Hb & _). unfold slot_image, bytes.
      repeat apply Forall_app_2; try apply le32_bytes_bytes. by apply Forall_take. }
    rewrite Hl in E1, Hm1. cbn [fmap list_fmap prime_slots]. rewrite Eb, Es.
    replace (FLASH_OTP_BASE + OTP_HDR_SIZE + i * SIZEOF_KEYSTORE_SLOT) with (FLASH_OTP_BASE + zlen A) by lia.
    pose proof (zlen_nonneg A). assert (0 <= k) by nia. rewrite u32_small by (unfold FLASH_OTP_BASE; lia).
    rewrite E1. cbn [obind].
    destruct (IH (i + 1) (A ++ slot_image s) (k - SIZEOF_KEYSTORE_SLOT) m1) as (m2 & E2 & Hm2);
      [done|lia|done|rewrite zlen_app, HA, Hl; lia|nia|rewrite zlen_app, Hl; lia|].
    exists m2. split; [exact E2|]. rewrite Hm2, bind_cons, <- !app_assoc. do 4 f_equal. lia.
Qed.

Lemma primer_spec version uds keys m : (4 | KEYSTORE_PUBKEY_SIZE) -> Forall slot_ok keys -> keys <> [] ->
  OTP_HDR_SIZE + zlen keys * SIZEOF_KEYSTORE_SLOT <= OTP_UDS_OFFSET ->
  zlen uds = OTP_UDS_LEN -> bytes uds ->
  mread m FLASH_OTP_BASE OTP_SIZE = replicate (Z.to_nat OTP_SIZE) 0xFF ->
  exists m', otp_keystore_primer version (0, uds) (shrink <$> keys) m = Ok (Done, m') /\
    mread m' FLASH_OTP_BASE OTP_SIZE = otp_image version keys uds.
Proof using Hcfg.
  intros H4 Hok Hne Hfit Hu Hub Hm. pose proof Hcfg as (Hsz & Hp & _).
  assert (1 <= zlen keys) as Hn by (destruct keys as [|? l]; [done|rewrite zlen_cons; pose proof (zlen_nonneg l); lia]).
  assert (16 <= SIZEOF_KEYSTORE_SLOT) as Hs0 by (unfold SIZEOF_KEYSTORE_SLOT, KEYSTORE_HDR_SIZE; lia).
  pose proof (prefix_length KEYSTORE_PUBKEY_SIZE keys (conj Hp (Z.le_refl _)) Hok version Hfit) as Hpre.
  pose proof (tail_split keys Hfit) as Htail. pose proof Hfit as Hfit'.
  unfold OTP_UDS_OFFSET, OTP_UDS_STORAGE_SIZE, OTP_HDR_SIZE in Hfit'.
  assert (zlen (shrink <$> keys) = zlen keys) as El by (unfold zlen; by rewrite length_fmap).
  unfold otp_keystore_primer. rewrite El, (proj2 (Z.ltb_ge _ _)) by lia.
  set (hdr := wolfBoot_otp_hdr (zlen keys) 0 version) in *.
  destruct (prime_write m [] OTP_SIZE hdr) as (m1 & E1 & Hm1); [done|change (zlen hdr) with 16; nia|done| |].
  { subst hdr. unfold wolfBoot_otp_hdr, bytes. repeat apply Forall_app_2; try apply le32_bytes_bytes;
      repeat constructor; try done; apply Z.mod_pos_bound; lia. }
  change (zlen hdr) with 16 in E1, Hm1. change (zlen []) with 0 in E1. rewrite Z.add_0_r in E1.
  rewrite E1. cbn [obind app].
  destruct (prime_slots_spec H4 keys 0 hdr (OTP_SIZE - 16) m1) as (m2 & E2 & Hm2);
    [done|done|done|done|lia|change (zlen hdr) with 16; lia|].
  rewrite E2. cbn [obind]. rewrite u32_small by (unfold OTP_HDR_SIZE; lia).
  rewrite (proj2 (Z.ltb_ge OTP_UDS_OFFSET _)) by done. cbn [fst snd Z.eqb negb].
  fold OTP_HDR_SIZE in Hm2. rewrite Htail, app_assoc, <- (app_assoc hdr) in Hm2.
  destruct (prime_write m2 _ _ uds Hm2) as (m3 & E3 & Hm3); [rewrite Hu; done|by rewrite Hu|done|].
  rewrite Hpre, Hu in E3. rewrite E3. cbn [obind]. exists m3. split; [done|].
  rewrite Hm3, Hu. unfold otp_image. by rewrite <- !app_assoc.
Qed.

End Prime.

(** C40: Keys in OTP.  For a key size that is a multiple of four, keys that fit below
    the UDS, and a first key of exactly that size, the image which the
    generator writes on the host and the memory which the primer leaves on the device
    are the same.  From any memory with these contents the bootloader reads
    the number of the keys and every field of every key, whatever
    the shared cache holds, with a size that is too large refused; the cache then
    holds that key.  The UDS is the random data. *)
Theorem otp_provisioned G version h keys key0 m :
  otp_config_ok -> (4 | KEYSTORE_PUBKEY_SIZE) -> KEYSTORE_PUBKEY_SIZE <= G ->
  Forall slot_ok keys -> Forall (fun s => zlen (pubkey s) = G) keys ->
  head keys = Some key0 -> pubkey_size key0 = KEYSTORE_PUBKEY_SIZE ->
  OTP_HDR_SIZE + zlen keys * SIZEOF_KEYSTORE_SLOT <= OTP_UDS_OFFSET ->
  malloc_ok h = true -> open_ok h = true -> rand_ok h = true -> write_ok h = true ->
  zlen (urandom h) = OTP_UDS_LEN -> bytes (urandom h) ->
  mread m FLASH_OTP_BASE OTP_SIZE = replicate (Z.to_nat OTP_SIZE) 0xFF ->
  exists img m', otp_keystore_gen G version h keys = Ok (0, Some img) /\
    otp_keystore_primer version (0, urandom h) (shrink <$> keys) m = Ok (Done, m') /\
    mread m' FLASH_OTP_BASE OTP_SIZE = img /\
    forall m0, mread m0 FLASH_OTP_BASE OTP_SIZE = img ->
      holds_keys m0 keys /\ mread m0 (FLASH_OTP_BASE + OTP_UDS_OFFSET) OTP_UDS_LEN = urandom h.
Proof.
  intros Hcfg H4 HG Hok HG2 Hh Hk0 Hfit Ho1 Ho2 Ho3 Ho4 Hu Hub Hm. pose proof Hcfg as (Hsz & Hp & _).
  exists (otp_image version keys (urandom h)).
  destruct (primer_spec Hcfg version (urandom h) keys m) as (m' & E & Hm'); try done; [by destruct keys|].
  exists m'. split; [by apply (gen_spec G keys (conj Hp HG) Hok HG2 version h key0); [lia|..]|].
  split; [done|]. split; [done|]. intros m0 Hm0. split; [by eapply image_holds_keys|].
  destruct (read_bounds keys Hcfg Hfit) as (_ & _ & Hb).
  rewrite <- (slice_mread m0 FLASH_OTP_BASE OTP_SIZE)
    by (unfold OTP_UDS_OFFSET, OTP_UDS_STORAGE_SIZE, OTP_UDS_LEN; lia).
  rewrite Hm0. unfold otp_image.
  pose proof (prefix_length KEYSTORE_PUBKEY_SIZE keys (conj Hp (Z.le_refl _)) Hok version Hfit) as Hpre.
  set (P := wolfBoot_otp_hdr _ _ _ ++ _) in *. clearbody P.
  replace OTP_UDS_OFFSET with (zlen P + 0) by lia. rewrite slice_app_r, slice_app_l by (rewrite ?Hu; lia).
  by apply slice_all.
Qed.

End Keystore.

(** The image code sees these keys through its interface. *)
Lemma otp_keystore_keys {oc : otp_config} m keys : otp_config_ok -> holds_keys m keys ->
  @Image.keystore_num_pubkeys (otp_keystore m) = zlen keys /\
  forall i s, keys !! i = Some s ->
    @Image.keystore_get_buffer (otp_keystore m) (Z.of_nat i) =
      Some (take (Z.to_nat KEYSTORE_PUBKEY_SIZE) (pubkey s)) /\
    @Image.keystore_get_size (otp_keystore m) (Z.of_nat i) =
      (if KEYSTORE_PUBKEY_SIZE <? pubkey_size s then -1 else pubkey_size s) /\
    @Image.keystore_get_mask (otp_keystore m) (Z.of_nat i) = part_id_mask s.
Proof.
  intros (_ & Hp & _) (Hn & _ & Hk). split; [simpl; by rewrite Hn|]. intros i s Hi.
  assert (zlen blank = SIZEOF_KEYSTORE_SLOT) as Hb
    by (unfold blank; apply zlen_replicate; unfold SIZEOF_KEYSTORE_SLOT, KEYSTORE_HDR_SIZE; lia).
  destruct (Hk i s blank Hi Hb) as (E1 & E2 & E3 & E4 & _). simpl. rewrite E1, E3, E4, <- E2.
  done.
Qed.

(** ** Examples *)

Module ExampleOtp.

(** The OTP of an STM32H7. *)
Definition h7 (key_size : Z) : otp_config := {| OTP_SIZE := 1024; KEYSTORE_PUBKEY_SIZE := key_size |}.
Definition key_of (G id size seed : Z) : keystore_slot :=
  mkSlot id 1 (2 ^ id) size (take (Z.to_nat G) ((fun i => (seed + i) mod 256) <$> seqZ 0 size) ++
    replicate (Z.to_nat (G - size)) 0).
Definition ok_host : host := mkHost true true true (seqZ 0 32) true.
Definition holding (img : list Z) : mem := fun a => at_ img (a - FLASH_OTP_BASE).
Definition erased : mem := fun _ => 0xFF.

(** The keys of a generator built for keys of 576 bytes, as it is on the host. *)
Definition ed25519_keys : list keystore_slot := [key_of 576 0 32 1; key_of 576 1 32 100].
Definition rsa2048_keys : list keystore_slot := [key_of 576 0 294 1; key_of 576 1 294 100].

(** Two keys of 294 bytes for a device with slots for 320: the generator puts the
    second 26 bytes before the place where the device looks for it. *)
Example rsa2048_second_key :
  match @otp_keystore_gen (h7 320) 576 1 ok_host rsa2048_keys with
  | Ok (0, Some img) =>
      @Otp.keystore_num_pubkeys (h7 320) (holding img) = Ok 2 /\
      (exists c, @Otp.keystore_get_size (h7 320) (holding img) 0 (@blank (h7 320)) = Ok (294, c)) /\
      (exists c, @Otp.keystore_get_size (h7 320) (holding img) 1 (@blank (h7 320)) = Ok (-1, c))
  | _ => False
  end.
Proof. vm_compute. split; [done|]. split; eexists; done. Qed.

(** An Ed448 key has 57 bytes: the read of its slot by half-words writes one byte
    behind the cache. *)
Example ed448_overflow :
  match @otp_keystore_gen (h7 57) 576 1 ok_host [key_of 576 0 57 1] with
  | Ok (0, Some img) => @Otp.keystore_get_size (h7 57) (holding img) 0 (@blank (h7 57)) = Oob
  | _ => False
  end.
Proof. vm_compute. done. Qed.

Lemma ed25519_slots : Forall (@slot_ok (h7 32)) ed25519_keys /\
  Forall (fun s => zlen (pubkey s) = 576) ed25519_keys.
Proof.
  split; [|repeat constructor].
  assert (forallb (fun s => forallb (fun b => (0 <=? b) && (b <? 256)) (pubkey s)) ed25519_keys = true) as H
    by (vm_compute; done).
  apply Forall_forall. intros s Hs. rewrite forallb_forall in H. apply list_elem_of_In in Hs as Hin.
  specialize (H s Hin). rewrite forallb_forall in H.
  assert (bytes (pubkey s)) as Hb.
  { apply Forall_forall. intros b Hbs%list_elem_of_In. specialize (H b Hbs). unfold is_byte. lia. }
  unfold ed25519_keys in Hs. rewrite !elem_of_cons in Hs.
  destruct Hs as [->|[->|Hs%not_elem_of_nil]]; [| |done];
    (split_and!; try done; vm_compute; congruence).
Qed.

End ExampleOtp.

Import ExampleOtp.

Lemma otp_provisioned_witness :
  exists img m', @otp_keystore_gen (h7 32) 576 1 ok_host ed25519_keys = Ok (0, Some img) /\
    @otp_keystore_primer (h7 32) 1 (0, seqZ 0 32) (@shrink (h7 32) <$> ed25519_keys) erased = Ok (Done, m') /\
    mread m' FLASH_OTP_BASE 1024 = img /\ @holds_keys (h7 32) m' ed25519_keys.
Proof.
  destruct ed25519_slots as [Hok HG].
  destruct (@otp_provisioned (h7 32) 576 1 ok_host ed25519_keys (key_of 576 0 32 1) erased)
    as (img & m' & E1 & E2 & E3 & E4).
  - split_and!; done.
  - by exists 8.
  - done.
  - exact Hok.
  - exact HG.
  - reflexivity.
  - reflexivity.
  - vm_compute. congruence.
  - reflexivity.
  - reflexivity.
  - reflexivity.
  - reflexivity.
  - reflexivity.
  - apply Forall_forall. intros b Hb%elem_of_seqZ. unfold is_byte. lia.
  - vm_compute. reflexivity.
  - exists img, m'. split; [exact E1|]. split; [exact E2|]. split; [exact E3|]. apply (E4 m' E3).
Defined.
